(* ===== verification/_CoqProject ===== *)
-Q . S2P
Prelude.v
GoText.v
Paths.v
Regex.v
GoFloat.v
Domain.v
SearchQueue.v
Schedule.v
RateHeaders.v
ProviderGate.v
MatchRelease.v
MatchScore.v
PackEvidence.v
PackSelect.v
PackVersions.v
Workflow.v
Coordinator.v
ProviderTiers.v
RouteGate.v
Rejections.v
Inventory.v
RemovalBudget.v
Calls.v
Refusals.v
LangCheck.v
ReleaseNumbering.v
Jobs.v
MediaBreaker.v
Daemon.v
CueOrder.v
CueReading.v
CueRepair.v
Archive.v
Extraction.v
Watermark.v
Outbox.v
InstallStore.v
Disk.v
Install.v
Candidates.v
CachedPacks.v
Acquire.v
Run.v
AcquireSafety.v
AcquireRuns.v
RunSafety.v
Remove.v
Recovery.v
InstallSpec.v
Sidecars.v
Probe.v
TrackStore.v
Library.v
LibrarySafety.v
Webhook.v
Config.v
PathMap.v
InstallPhases.v
InstallStaging.v
InstallSafety.v
CrashSafety.v
Reconcile.v
ReconcileSafety.v
History.v
Arr.v
Radarr.v
Sonarr.v
Reconciler.v
