(* ===== verification/Prelude.v ===== *)
(** * subsyncd: a verification development

    subsyncd (Go, src/internal and src/cmd) keeps the subtitles of a media
    library: for every media file and wanted language it searches subtitle
    providers, picks and times a candidate, installs it beside the media file,
    looks for better ones later, and tells other programs about the change.
    This library models its core as executable Rocq definitions under the names
    of the source and proves what makes the core correct.

    ** The program and how its parts interact

    - The store (internal/store) is an SQLite database; each of its operations
      is one transaction. The worker (internal/worker) leases due rows of
      [search_states], runs the workflow for each under the lease, and completes
      the row with an outcome that decides when it is due again. Webhooks and
      reconciliation only schedule rows.
    - The workflow (internal/workflow) runs one search: the preferred provider
      tier and, when it finds nothing usable, the fallback tier. A tier searches
      through the coordinator, scores and ranks candidates (internal/match),
      downloads, selects archive members (internal/pack), times them with an
      external program and installs one.
    - The coordinator (internal/provider) asks every provider of a tier at once,
      merges the answers and keeps a search cache. Every provider sits behind a
      gate that persists cooldowns, disables and failure circuits.
    - The installer writes the file system and the database so that a crash
      leaves either the previous subtitle or the new one; a startup recovery
      settles what it finds. The change queues notification intents in the same
      transaction; the worker delivers them.
    - Sonarr and Radarr tell which media exists: their webhooks wait in a durable
      inbox until they are applied, and a reconciliation reads their history, and
      a complete list of what they hold, behind the webhooks. Both change the
      media table of the store, whose changes schedule and cancel searches.

    ** Files

    Foundations: Prelude.v (results, time, machine integers, generic lemmas,
    tactics, hint databases), GoText.v (strings, strconv, paths), Regex.v
    (regexp), GoFloat.v (float64), Domain.v (internal/domain), Paths.v
    (path/filepath), Calls.v (programs of calls with every answer possible, and
    their weakest preconditions).

    Queue and schedule: SearchQueue.v (store/repository.go, search_claim.go,
    lease_release.go, upgrade_search.go, user_rejection.go, provider_resume.go,
    search_history.go), Schedule.v (schedule/backoff.go, scheduler.go), Jobs.v
    (worker/worker.go: one job from its lease to its completion), MediaBreaker.v
    (worker/media_breaker.go), RouteGate.v (worker/route_gate.go,
    workflow/route_availability.go), Daemon.v (worker/worker.go: the daemon's
    loop as a step relation).

    Providers: RateHeaders.v (provider/rateheaders.go), ProviderGate.v
    (limiter.go, availability.go, transport.go and the provider state rows),
    Coordinator.v (coordinator.go and the search cache rows).

    Matching: MatchRelease.v (match/release.go), MatchScore.v (match/score.go,
    affinity.go), PackEvidence.v, PackSelect.v, PackVersions.v (pack/select.go,
    alternatives.go, movie_versions.go, runtime.go), LangCheck.v
    (langcheck/langcheck.go).

    Subtitle texts: Archive.v and Extraction.v (pack/archive.go), CueRepair.v
    (pack/repair.go), CueOrder.v and CueReading.v (subtitleorder/order.go, its
    operations and the proof that a repaired text reads back), Watermark.v
    (watermark/watermark.go).

    One search: Workflow.v (records, upgrade policy: upgrade.go),
    ProviderTiers.v (provider_tiers.go, provider_resume.go), Rejections.v
    (rejection rows and their lookup), Refusals.v (provider_response.go),
    ReleaseNumbering.v (release_numbering.go), Candidates.v (one candidate:
    member_preparation.go and its part of service.go), CachedPacks.v (the cached
    packs of service.go and pack/cache.go), Acquire.v (a tier: acquisition.go),
    Inventory.v and Run.v (Service.Run); AcquireSafety.v, AcquireRuns.v and
    RunSafety.v hold the proofs.

    Media inventory: Sidecars.v, Probe.v (internal/inventory), TrackStore.v (the
    stored tracks).

    Installation: InstallStore.v (store/pending_install.go,
    installation_reconcile.go, the installation transactions of repository.go),
    Disk.v (system calls over names and files, with a schedule of faults and
    kills, and the weakest precondition of a program over all schedules),
    Install.v (install.go, identical_install.go, notification.go), Remove.v
    (remove.go), Recovery.v (pending_install.go, rollback.go); InstallSpec.v,
    InstallPhases.v, InstallStaging.v, InstallSafety.v and CrashSafety.v hold
    the proofs. Reconcile.v (installation_reconcile.go) and RemovalBudget.v
    (removal_budget.go) reconcile the records with the media file;
    ReconcileSafety.v holds the proofs. Outbox.v is the notification table and
    its worker.

    Catalog: Library.v (the media table, events, pages, listings and the
    triggers they fire: store/repository.go, library_discovery.go) with
    LibrarySafety.v; Webhook.v (catalog/webhook.go, webhook_inbox.go,
    store/webhook_inbox.go); History.v (catalog/history.go); Arr.v, Radarr.v and
    Sonarr.v (radarr.go, sonarr.go, release.go), which instantiate the type
    classes [ReconciliationCatalog] and [LawfulCatalog]; Reconciler.v
    (reconcile.go, discovery.go), proved against those classes; PathMap.v
    (pathmap.go). Config.v is config/config.go.

    ** What the theorems show

    - Installation: an install is all or nothing under every schedule of faults
      and kills once the recovery ran; a foreign file is never touched (in one
      case, an Example of CrashSafety.v, a failing call makes the recovery lose
      the previous subtitle). A reconciliation keeps the subtitle of an unchanged
      media file unless another file took its name, spares all other files, and
      deletes at most twenty subtitles an hour.
    - Library: deleted media stays deleted; the transactions implement the
      queue's (a refinement); overtaken readers are refused; an arrival changes
      one row; a deferred page applies once. A reconciliation deletes nothing
      without evidence, the history it reads is complete, and no webhook is lost,
      also of those that arrive while the inbox is drained.
    - Queue: the reachable databases are well formed; a lease is exclusive; a
      change that arrives during a search is not lost. A job that
      completes settles its row by the table of its outcome, unless the media was
      deleted or searched again meanwhile (a refinement). The daemon keeps its
      limits, starts nothing after its cancellation and ends after a shutdown.
    - Search: an installed subtitle is justified by its score, the rejections,
      the language and the timing; a search installs at most once, asks to
      remove only rejected subtitles, after the reconciliation with the media
      file, and leaves covered languages alone; the owner's rejection holds;
      unreadable media blames no candidate; upgrades end.
    - Providers: a cooldown or disable in effect is never shortened or lifted; a
      broad search has one result whatever order the providers answer in.
    - Archives and texts: an extraction is whole and within its limits; the
      selector takes a file only on evidence; a repair keeps every line, reads
      back as the kept cues, and its overlap test is exact; stripping adverts
      removes nothing else.
    - Inventory and paths: an installed subtitle is found again by the scan; a
      mapped path stays in scope; a configuration that loads is well formed,
      except that a provider's rate may be a NaN.
    - Notifications: a queued change is delivered by a delivery that began after
      it.

    ** Conventions and bounds

    - A function that returns an error is a function into [result]; a
      transaction is a function of the tables that returns new tables, so an
      error leaves them unchanged (the deferred rollback). The library's
      transactions are collected in the type [change] of LibrarySafety.v.
    - An operation over services is a program of calls (Calls.v, Disk.v) whose
      answers are arbitrary, or a function of a world of answers indexed by the
      number of calls made so far (Webhook.v, Arr.v, Reconciler.v), in which
      other transactions may run between two calls.
    - An instant is a count of nanoseconds in [Z]; a subtraction of instants
      saturates and integer conversions wrap where the code's do. An operation
      reads the clock once per decision and draws one random unit, which are
      arguments. Numbers of a configuration are binary64 floats (SpecFloat).
    - A text is a list of the runes of valid UTF-8. The order of a Go map's
      iteration is a parameter where it matters.
    - Standard-library parsers of dates, URLs, YAML and JSON, SHA-256, the
      Unicode tables, the third-party release-name parser, the subtitle parsers,
      the archive formats, ffprobe and the arrapi client are parameters (type
      classes or section variables), never invented. The installer a search runs
      against implements the optional removal and reconciliation interfaces.
    - Log events and metrics are left out, and goroutines are represented by the
      order of the steps they take; the budget of deletions is passed from call
      to call.
    - Fuel: the regular expression matcher spends at most the length of the
      input per iteration of a star, so its fuel is that length; [write_all]
      spends one unit per byte; the CreateTemp loop tries 10000 names as the
      standard library does; a mapped path has at most as many parents as runes;
      a drain of the webhook inbox needs one batch per attempt left, those of
      the webhooks that arrive during it included, and a walk over a history of
      [n] records [n / 100 + 1] pages, both proved. The bounds of the delay
      tables are proved, and that a row of upgrades ends after at most 305.
    - A crash ends the process, not the machine: what was written before it is
      there after it. Names of the file system are case-sensitive, and two names
      of one file are hard links, not paths through symbolic links.

    ** Not modelled

    - Wiring and interfaces (internal/app, cli, cmd, control, httpapi,
      observability, version): assembly of the parts above, argument parsing,
      HTTP routes and JSON shapes.
    - The subtitle providers' clients (one directory each in internal/provider), the HTTP clients of
      Sonarr and Radarr, their webhook connections, and the notifiers: requests
      and decoding over HTTP. What the coordinator, the gate and the catalogs
      need of them is a parameter.
    - The external programs (LAPSE in internal/syncer, ffprobe) and the storage
      side of the pack cache (Put and eviction).
    - The token bucket and the permit channels of the provider limiter, the
      in-memory caches of the clients, and RunOnce of the worker.
    - Store operations that only read for display (status, missing, coverage,
      media matching), the removal of an instance, the webhook token, and the
      migrations, whose meaning is in SQL files.
    PROJECT.json lists each part with its definitions. *)
From stdpp Require Export base tactics numbers list gmap strings sorting.
From Stdlib Require Export Lia.

(** ** Error results

    Go functions that return a value and an error are functions into
    [result]: [Ok] for a nil error, [Err] otherwise. *)

Inductive result (E A : Type) : Type :=
| Ok (a : A)
| Err (e : E).
Arguments Ok {E A} a.
Arguments Err {E A} e.

Definition rbind {E A B} (r : result E A) (k : A -> result E B) : result E B :=
  match r with
  | Ok a => k a
  | Err e => Err e
  end.

Declare Scope result_scope.
Delimit Scope result_scope with result.
Notation "'let!' x ':=' r 'in' k" := (rbind r (fun x => k))
  (at level 10, x pattern, r at level 100, k at level 200) : result_scope.
Open Scope result_scope.

(** ** Time

    A [time.Time] is its number of nanoseconds since the Unix epoch and a
    [time.Duration] a number of nanoseconds, both in [Z]. *)

Definition instant := Z.
Definition duration := Z.

Definition second : duration := (1000000000)%Z.
Definition minute : duration := (60 * second)%Z.
Definition hour : duration := (60 * minute)%Z.

(** The zero [time.Time] is January 1, year 1, 00:00:00 UTC. *)
Definition zero_time : instant := (-62135596800 * second)%Z.
Definition is_zero (a : instant) : bool := (a =? zero_time)%Z.

Definition min_duration : duration := (- 2 ^ 63)%Z.
Definition max_duration : duration := (2 ^ 63 - 1)%Z.

(** [Time.Sub] saturates at the bounds of a 64-bit duration. *)
Definition time_sub (a b : instant) : duration :=
  Z.max min_duration (Z.min max_duration (a - b)).

(** Two's-complement wrap-around of 64-bit arithmetic. *)
Definition wrap64 (z : Z) : Z := ((z + 2 ^ 63) mod 2 ^ 64 - 2 ^ 63)%Z.

(** ** Stable sorting

    [sort.SliceStable] and [slices.SortStableFunc] by a [less] function. *)

Section stable_sort.
Context {A : Type} (less : A -> A -> bool).

Fixpoint insert_by (x : A) (l : list A) : list A :=
  match l with
  | [] => [x]
  | y :: l' => if less y x then y :: insert_by x l' else x :: y :: l'
  end.

Fixpoint stable_sort (l : list A) : list A :=
  match l with
  | [] => []
  | x :: l' => insert_by x (stable_sort l')
  end.

(** [sort.SliceIsSorted]. *)
Fixpoint is_sorted_by (l : list A) : bool :=
  match l with
  | x :: (y :: _) as l' => negb (less y x) && is_sorted_by l'
  | _ => true
  end.

(** [x] may stand before [y]. *)
Definition not_after (x y : A) : Prop := less y x = false.
End stable_sort.

(** The first element of a non-empty list that no other one beats, as a
    running selection loop keeps it. *)
Definition best_by {A} (better : A -> A -> bool) (x : A) (l : list A) : A :=
  fold_left (fun best y => if better y best then y else best) l x.

(** ** Comparisons

    Sort orders are three-way comparisons composed lexicographically, as an
    SQL ORDER BY or a chain of [if a != b return a < b] composes them. *)

Class Ordering {A} (cmp : A -> A -> comparison) := {
  cmp_antisym x y : cmp y x = CompOpp (cmp x y);
  cmp_congr x y z : cmp x y = Eq -> cmp x z = cmp y z;
  cmp_lt_trans x y z : cmp x y = Lt -> cmp y z = Lt -> cmp x z = Lt;
}.

Definition asc {A B} (f : A -> B) (cmp : B -> B -> comparison) (x y : A) : comparison :=
  cmp (f x) (f y).
Definition desc {A B} (f : A -> B) (cmp : B -> B -> comparison) (x y : A) : comparison :=
  cmp (f y) (f x).
Definition lex {A} (c1 c2 : A -> A -> comparison) (x y : A) : comparison :=
  match c1 x y with Eq => c2 x y | c => c end.
Definition less_of {A} (cmp : A -> A -> comparison) (x y : A) : bool :=
  match cmp x y with Lt => true | _ => false end.

(** ** Tactics *)

(** Case analysis on the tests and matches of a goal or hypothesis. *)
Ltac split_ifs :=
  repeat match goal with
    | H : context [if ?b then _ else _] |- _ => destruct b eqn:?; simplify_eq/=
    | |- context [if ?b then _ else _] => destruct b eqn:?; simplify_eq/=
    end.

(** Turn boolean connectives and comparisons of the context into
    propositions [lia] understands. *)
Ltac bools :=
  repeat match goal with
    | H : _ && _ = true |- _ => apply andb_true_iff in H; destruct H
    | H : _ || _ = false |- _ => apply orb_false_iff in H; destruct H
    | H : negb _ = true |- _ => apply negb_true_iff in H
    | H : negb _ = false |- _ => apply negb_false_iff in H
    | H : bool_decide _ = true |- _ => apply bool_decide_eq_true in H
    | H : bool_decide _ = false |- _ => apply bool_decide_eq_false in H
    | H : (_ =? _)%Z = true |- _ => apply Z.eqb_eq in H
    | H : (_ =? _)%Z = false |- _ => apply Z.eqb_neq in H
    | H : (_ <? _)%Z = true |- _ => apply Z.ltb_lt in H
    | H : (_ <? _)%Z = false |- _ => apply Z.ltb_ge in H
    | H : (_ <=? _)%Z = true |- _ => apply Z.leb_le in H
    | H : (_ <=? _)%Z = false |- _ => apply Z.leb_gt in H
    end.

Create HintDb subsync.

(** ** Lemmas *)

Section ordering.
Context {A : Type}.

#[global] Instance Z_ordering : Ordering Z.compare.
Proof.
  split; intros.
  - apply Z.compare_antisym.
  - by match goal with H : _ = Eq |- _ => apply Z.compare_eq in H; subst end.
  - rewrite Z.compare_lt_iff in *. lia.
Qed.

#[global] Instance asc_ordering {B} (f : A -> B) cmp `{!Ordering cmp} : Ordering (asc f cmp).
Proof.
  split; unfold asc; intros; [by apply cmp_antisym|by apply cmp_congr|by eapply cmp_lt_trans].
Qed.

#[global] Instance desc_ordering {B} (f : A -> B) cmp `{!Ordering cmp} : Ordering (desc f cmp).
Proof.
  split; unfold desc; intros; [by apply cmp_antisym| |by eapply cmp_lt_trans].
  rewrite (cmp_antisym (f x) (f z)), (cmp_antisym (f y) (f z)). f_equal. apply cmp_congr.
  rewrite cmp_antisym. by match goal with H : _ = Eq |- _ => rewrite H end.
Qed.

#[global] Instance lex_ordering (c1 c2 : A -> A -> comparison) `{!Ordering c1, !Ordering c2} :
  Ordering (lex c1 c2).
Proof.
  split; unfold lex.
  - intros x y. rewrite (cmp_antisym (cmp:=c1) x y), (cmp_antisym (cmp:=c2) x y). by destruct (c1 x y).
  - intros x y z H. destruct (c1 x y) eqn:E; try done.
    by rewrite (cmp_congr x y z E), (cmp_congr (cmp:=c2) x y z H).
  - intros x y z H1 H2. destruct (c1 x y) eqn:E1; try done.
    + rewrite (cmp_congr x y z E1). destruct (c1 y z); try done. by eapply cmp_lt_trans.
    + destruct (c1 y z) eqn:E2; try done; [|by rewrite (cmp_lt_trans x y z)].
      assert (c1 z y = Eq) as E3 by by rewrite cmp_antisym, E2.
      rewrite (cmp_antisym (cmp:=c1) z x), (cmp_congr z y x E3), <- (cmp_antisym (cmp:=c1) y x).
      by rewrite E1.
Qed.

Context (cmp : A -> A -> comparison) `{!Ordering cmp}.

Lemma less_of_total x y : less_of cmp x y = true -> less_of cmp y x = false.
Proof. unfold less_of. rewrite (cmp_antisym x y). by destruct (cmp x y). Qed.

Lemma less_of_trans x y z :
  not_after (less_of cmp) x y -> not_after (less_of cmp) y z -> not_after (less_of cmp) x z.
Proof.
  unfold not_after, less_of. intros H1 H2.
  destruct (cmp z x) eqn:E; try done. exfalso.
  destruct (cmp y x) eqn:E1; try done.
  - assert (cmp x y = Eq) as E1' by by rewrite cmp_antisym, E1.
    rewrite (cmp_antisym y z), <- (cmp_congr x y z E1'), <- (cmp_antisym x z), E in H2. done.
  - assert (cmp x y = Lt) as E1' by by rewrite cmp_antisym, E1.
    by rewrite (cmp_lt_trans z x y E E1') in H2.
Qed.
End ordering.

Section result_lemmas.
Context {E A B : Type}.

Lemma rbind_ok (r : result E A) (k : A -> result E B) b :
  rbind r k = Ok b -> exists a, r = Ok a /\ k a = Ok b.
Proof. destruct r; simpl; [eauto | discriminate]. Qed.
End result_lemmas.

Lemma time_sub_small (a b : instant) :
  (min_duration <= a - b <= max_duration)%Z -> time_sub a b = (a - b)%Z.
Proof. unfold time_sub. lia. Qed.

Section sort_lemmas.
Context {A : Type} (less : A -> A -> bool).

Lemma insert_by_perm x l : insert_by less x l ≡ₚ x :: l.
Proof.
  induction l as [|y l IH]; simpl; [done|].
  destruct (less y x); [|done]. rewrite IH. by rewrite Permutation_swap.
Qed.

Lemma stable_sort_perm l : stable_sort less l ≡ₚ l.
Proof. induction l as [|x l IH]; simpl; [done|]. by rewrite insert_by_perm, IH. Qed.

Lemma stable_sort_length l : length (stable_sort less l) = length l.
Proof. by rewrite stable_sort_perm. Qed.

(** A list in order is left as it is. *)
Lemma stable_sort_sorted_id l : is_sorted_by less l = true -> stable_sort less l = l.
Proof.
  induction l as [|x l IH]; intros H; [done|].
  destruct l as [|y l]; [done|].
  cbn [is_sorted_by] in H. apply andb_true_iff in H as [Hxy H].
  change (stable_sort less (x :: y :: l)) with (insert_by less x (stable_sort less (y :: l))).
  rewrite (IH H). simpl. apply negb_true_iff in Hxy. by rewrite Hxy.
Qed.

Context (less_total : forall x y, less x y = true -> less y x = false).
Context (less_trans : forall x y z, not_after less x y -> not_after less y z -> not_after less x z).

Lemma insert_by_sorted x l :
  StronglySorted (not_after less) l -> StronglySorted (not_after less) (insert_by less x l).
Proof.
  induction 1 as [|y l Hl IH Hy]; simpl; [by repeat constructor|].
  destruct (less y x) eqn:E.
  - constructor; [done|]. rewrite insert_by_perm. constructor; [by apply less_total | done].
  - constructor; [by constructor|]. constructor; [done|].
    eapply Forall_impl; [exact Hy|]. intros z. by apply less_trans.
Qed.

Lemma stable_sort_sorted l : StronglySorted (not_after less) (stable_sort less l).
Proof. induction l; simpl; [constructor | by apply insert_by_sorted]. Qed.

Lemma is_sorted_by_spec l : is_sorted_by less l = true <-> StronglySorted (not_after less) l.
Proof.
  split.
  - intros H. rewrite <- (stable_sort_sorted_id _ H). apply stable_sort_sorted.
  - induction 1 as [|x l Hl IH Hx]; [done|]. destruct l as [|y l]; [done|].
    cbn [is_sorted_by]. apply andb_true_iff. split; [|done].
    apply negb_true_iff. by inversion Hx.
Qed.

(** Stability: the elements that neither precede nor follow [x] keep their
    order. *)
Definition tied (x y : A) : bool := negb (less x y) && negb (less y x).

Lemma insert_by_tied x y l :
  base.filter (fun z => tied x z = true) (insert_by less y l)
  = base.filter (fun z => tied x z = true) (y :: l).
Proof.
  induction l as [|z l IH]; [done|]. cbn [insert_by].
  destruct (less z y) eqn:E; [|done].
  rewrite !filter_cons in *. rewrite IH.
  destruct (decide (tied x z = true)) as [Hz|]; [|done].
  destruct (decide (tied x y = true)) as [Hy|]; [|done].
  exfalso. unfold tied in *. bools.
  assert (not_after less y z) as Hyz by (eapply (less_trans _ x); unfold not_after; done).
  unfold not_after in Hyz. congruence.
Qed.

Lemma stable_sort_stable x l :
  base.filter (fun z => tied x z = true) (stable_sort less l)
  = base.filter (fun z => tied x z = true) l.
Proof.
  induction l as [|y l IH]; [done|]. simpl stable_sort. rewrite insert_by_tied.
  rewrite !filter_cons, IH. done.
Qed.
End sort_lemmas.

Section best_lemmas.
Context {A : Type} (better : A -> A -> bool).

Lemma best_by_in x l : best_by better x l ∈ x :: l.
Proof.
  unfold best_by. revert x. induction l as [|y l IH]; intros x; simpl; [left|].
  destruct (better y x).
  - right. apply IH.
  - pose proof (IH x) as Hb. apply elem_of_cons in Hb as [Hb|Hb]; [rewrite Hb; left|by do 2 right].
Qed.

Context (better_asym : forall x y, better x y = true -> better y x = false).
Context (better_trans : forall x y z, better x y = false -> better y z = false -> better x z = false).

Lemma best_by_best x l y : y ∈ x :: l -> better y (best_by better x l) = false.
Proof.
  assert (forall z, better z z = false) as Hirr.
  { intros z. destruct (better z z) eqn:E; [|done]. by rewrite (better_asym z z E) in E. }
  unfold best_by. revert x y. induction l as [|w l IH]; intros x y; simpl.
  - rewrite list_elem_of_singleton. intros ->. apply Hirr.
  - intros Hy. destruct (better w x) eqn:E.
    + pose proof (IH w w ltac:(left)) as Hw.
      apply elem_of_cons in Hy as [->|Hy]; [|by apply IH]. by eapply better_trans; [apply better_asym|].
    + pose proof (IH x x ltac:(left)) as Hx.
      apply elem_of_cons in Hy as [->|Hy]; [done|].
      apply elem_of_cons in Hy as [->|Hy]; [by eapply better_trans|]. apply IH. by right.
Qed.
End best_lemmas.

Lemma wrap64_small z : (- 2 ^ 63 <= z < 2 ^ 63)%Z -> wrap64 z = z.
Proof. intros H. unfold wrap64. rewrite Z.mod_small by lia. lia. Qed.

#[export] Hint Resolve insert_by_perm stable_sort_perm : subsync.

Lemma elem_of_concat {A} (x : A) (ls : list (list A)) : x ∈ concat ls <-> exists l, l ∈ ls /\ x ∈ l.
Proof.
  induction ls as [|l ls IH]; cbn [concat].
  - split; [by intros ?%elem_of_nil|by intros (? & ?%elem_of_nil & _)].
  - rewrite elem_of_app, IH. setoid_rewrite elem_of_cons. naive_solver.
Qed.
