(* ===== verification/GoText.v ===== *)
(** * Go strings

    Go strings are modelled as the sequence of runes they decode to ([text]),
    so slicing at a match boundary and ranging over a string agree with Go on
    valid UTF-8. ASCII character classes and case mapping are written out;
    the Unicode tables above U+007F are a parameter ([Unicode]), because they
    are data of the Go distribution and no property depends on their contents.

    The functions of [strings], [strconv] and [path/filepath] the program uses
    are defined here under their Go names in lower case. *)
From S2P Require Import Prelude.

Abbreviation rune := N.
Abbreviation text := (list N).

(** A text from a string literal (ASCII). *)
Definition t (s : string) : text := Ascii.N_of_ascii <$> String.list_ascii_of_string s.

(** ** Character classes *)

Class Unicode := {
  u_letter : rune -> bool;
  u_digit : rune -> bool;
  u_number : rune -> bool;
  u_mark : rune -> bool;
  u_space : rune -> bool;
  u_lower : rune -> rune;
  u_upper : rune -> rune;
  u_fold : rune -> rune;
}.

Definition between (a b r : rune) : bool := ((a <=? r) && (r <=? b))%N.
Definition ascii_digit (r : rune) : bool := between 48 57 r.
Definition ascii_upper (r : rune) : bool := between 65 90 r.
Definition ascii_lower (r : rune) : bool := between 97 122 r.
Definition ascii_letter (r : rune) : bool := ascii_upper r || ascii_lower r.
(** The runes of [t " .._"]-like character lists. *)
Definition one_of (chars : text) (r : rune) : bool := existsb (N.eqb r) chars.
Definition ascii_space (r : rune) : bool := between 9 13 r || (r =? 32)%N.

Section classes.
Context `{Unicode}.

Definition with_ascii {A} (f g : rune -> A) (r : rune) : A :=
  if (r <? 128)%N then f r else g r.

Definition is_letter : rune -> bool := with_ascii ascii_letter u_letter.
Definition is_digit : rune -> bool := with_ascii ascii_digit u_digit.
Definition is_number : rune -> bool := with_ascii ascii_digit u_number.
Definition is_mark : rune -> bool := with_ascii (fun _ => false) u_mark.
Definition is_space : rune -> bool := with_ascii ascii_space u_space.
Definition lower : rune -> rune :=
  with_ascii (fun r => if ascii_upper r then (r + 32)%N else r) u_lower.
Definition upper : rune -> rune :=
  with_ascii (fun r => if ascii_lower r then (r - 32)%N else r) u_upper.

(** The representative of a rune's simple-folding orbit; the long s and the
    Kelvin sign fold with ASCII letters. *)
Definition fold_rune : rune -> rune :=
  with_ascii (fun r => if ascii_upper r then (r + 32)%N else r)
    (fun r => if (r =? 383)%N then 115%N else if (r =? 8490)%N then 107%N else u_fold r).

Definition to_lower (s : text) : text := map lower s.
Definition to_upper (s : text) : text := map upper s.
Definition equal_fold (a b : text) : bool := bool_decide (map fold_rune a = map fold_rune b).
End classes.

(** Unicode restricted to Latin-1: the tables the examples evaluate with. *)
#[export] Instance latin1 : Unicode := {|
  u_letter r := between 192 255 r && negb (r =? 215)%N && negb (r =? 247)%N;
  u_digit r := false;
  u_number r := false;
  u_mark r := between 768 879 r;
  u_space r := (r =? 133)%N || (r =? 160)%N;
  u_lower r := if between 192 222 r && negb (r =? 215)%N then (r + 32)%N else r;
  u_upper r := if between 224 254 r && negb (r =? 247)%N then (r - 32)%N else r;
  u_fold r := if between 192 222 r && negb (r =? 215)%N then (r + 32)%N else r;
|}.

(** ** Searching and slicing *)

Fixpoint has_prefix (p s : text) : bool :=
  match p, s with
  | [], _ => true
  | a :: p', b :: s' => (a =? b)%N && has_prefix p' s'
  | _ :: _, [] => false
  end.

Definition has_suffix (p s : text) : bool := has_prefix (rev p) (rev s).

Fixpoint index_of (p s : text) : option nat :=
  if has_prefix p s then Some 0
  else match s with
       | [] => None
       | _ :: s' => S <$> index_of p s'
       end.

Definition contains (p s : text) : bool := bool_decide (is_Some (index_of p s)).

Definition trim_prefix (p s : text) : text := if has_prefix p s then drop (length p) s else s.
Definition trim_suffix (p s : text) : text :=
  if has_suffix p s then take (length s - length p) s else s.

Fixpoint trim_left (f : rune -> bool) (s : text) : text :=
  match s with
  | r :: s' => if f r then trim_left f s' else s
  | [] => []
  end.
Definition trim_right (f : rune -> bool) (s : text) : text := rev (trim_left f (rev s)).
Definition trim (f : rune -> bool) (s : text) : text := trim_right f (trim_left f s).
Definition trim_space `{Unicode} (s : text) : text := trim is_space s.

(** [strings.FieldsFunc]: the maximal runs of runes not satisfying [sep]. *)
Fixpoint fields_go (sep : rune -> bool) (word : text) (s : text) : list text :=
  match s with
  | [] => match word with [] => [] | _ => [rev word] end
  | r :: s' =>
      if sep r then match word with [] => fields_go sep [] s' | _ => rev word :: fields_go sep [] s' end
      else fields_go sep (r :: word) s'
  end.
Definition fields_func (sep : rune -> bool) (s : text) : list text := fields_go sep [] s.
Definition fields `{Unicode} (s : text) : list text := fields_func is_space s.

(** [strings.Split] by a single-rune separator, and by [n] pieces. *)
Fixpoint split_rune (sep : rune) (s : text) : list text :=
  match s with
  | [] => [[]]
  | r :: s' =>
      if (r =? sep)%N then [] :: split_rune sep s'
      else match split_rune sep s' with
           | w :: ws => (r :: w) :: ws
           | [] => [[r]]
           end
  end.

Fixpoint join (sep : text) (words : list text) : text :=
  match words with
  | [] => []
  | [w] => w
  | w :: ws => w ++ sep ++ join sep ws
  end.

(** [strings.SplitN] by a single-rune separator, for [n >= 1]. *)
Definition split_n (sep : rune) (n : nat) (s : text) : list text :=
  let parts := split_rune sep s in
  if length parts <=? n then parts
  else take (n - 1) parts ++ [join [sep] (drop (n - 1) parts)].

(** [strings.Cut] around the first [sep]. *)
Definition cut (sep : rune) (s : text) : text * text * bool :=
  match index_of [sep] s with
  | Some i => (take i s, drop (S i) s, true)
  | None => (s, [], false)
  end.

(** [strings.Count] of a non-empty substring, without overlaps. *)
Fixpoint count_go (fuel : nat) (p s : text) : nat :=
  match fuel with
  | 0 => 0
  | S fuel =>
      match index_of p s with
      | Some i => S (count_go fuel p (drop (i + length p) s))
      | None => 0
      end
  end.
Definition count (p s : text) : nat := count_go (length s) p s.

Fixpoint repeat_text (n : nat) (s : text) : text :=
  match n with 0 => [] | S n => s ++ repeat_text n s end.

(** Replacement of every occurrence of a rune. *)
Definition replace_rune (a b : rune) (s : text) : text :=
  map (fun r => if (r =? a)%N then b else r) s.

(** ** Numbers *)

Definition digit_value (r : rune) : Z := Z.of_N r - 48.

Definition decimal (s : text) : Z := fold_left (fun acc r => acc * 10 + digit_value r)%Z s 0%Z.

(** [strconv.Atoi] and [ParseInt(_, 10, 64)]: an optional sign and decimal
    digits, within 64 bits. *)
Definition atoi (s : text) : option Z :=
  let '(sign, digits) :=
    match s with
    | 45%N :: s' => ((-1)%Z, s')
    | 43%N :: s' => (1%Z, s')
    | _ => (1%Z, s)
    end in
  if negb (forallb ascii_digit digits) || (length digits =? 0) then None
  else
    let v := (sign * decimal digits)%Z in
    if ((- 2 ^ 63 <=? v) && (v <=? 2 ^ 63 - 1))%Z then Some v else None.

(** The value used when the error is ignored and the digits are in range. *)
Definition atoi0 (s : text) : Z := default 0%Z (atoi s).

Fixpoint digits_go (fuel : nat) (n : Z) (acc : text) : text :=
  match fuel with
  | 0 => acc
  | S fuel =>
      let acc := Z.to_N (n mod 10 + 48) :: acc in
      if (n <? 10)%Z then acc else digits_go fuel (n / 10) acc
  end.

(** [strconv.Itoa]; twenty digits hold every 64-bit integer. *)
Definition itoa (n : Z) : text :=
  if (n <? 0)%Z then 45%N :: digits_go 20 (- n) [] else digits_go 20 n [].

(** [fmt]'s [%0wd] for a non-negative number. *)
Definition pad_left (w : nat) (s : text) : text := replicate (w - length s) 48%N ++ s.

(** ** Bytes and order *)

(** The UTF-8 encoding of a rune. *)
Definition utf8 (r : rune) : list N :=
  (if r <? 128 then [r]
   else if r <? 2048 then [192 + r / 64; 128 + r mod 64]
   else if r <? 65536 then [224 + r / 4096; 128 + (r / 64) mod 64; 128 + r mod 64]
   else [240 + r / 262144; 128 + (r / 4096) mod 64; 128 + (r / 64) mod 64; 128 + r mod 64])%N.
Definition bytes_of (s : text) : list N := concat (map utf8 s).
(** Go's [len]. *)
Definition byte_len (s : text) : Z := Z.of_nat (length (bytes_of s)).

(** Decoding, as [range] over a string does it: a byte that starts no valid
    encoding is U+FFFD. *)
Definition continuation (b : N) : bool := between 128 191 b.
(** [utf8.Valid]. *)
Definition tail_byte (b : N) : bool := between 128 191 b.

Fixpoint utf8_valid (s : list N) : bool :=
  match s with
  | [] => true
  | b :: s =>
      if (b <? 128)%N then utf8_valid s
      else if between 194 223 b then
        match s with c :: s => tail_byte c && utf8_valid s | _ => false end
      else if between 224 239 b then
        match s with
        | c :: d :: s =>
            (if (b =? 224)%N then between 160 191 c else if (b =? 237)%N then between 128 159 c else tail_byte c)
            && tail_byte d && utf8_valid s
        | _ => false
        end
      else if between 240 244 b then
        match s with
        | c :: d :: e :: s =>
            (if (b =? 240)%N then between 144 191 c else if (b =? 244)%N then between 128 143 c else tail_byte c)
            && tail_byte d && tail_byte e && utf8_valid s
        | _ => false
        end
      else false
  end.

Definition replacement_rune : rune := 65533%N.

Fixpoint utf8_decode (s : list N) : text :=
  match s with
  | [] => []
  | b :: s' =>
      if (b <? 128)%N then b :: utf8_decode s'
      else if between 194 223 b then
        match s' with
        | c :: s'' => if continuation c then (((b - 192) * 64 + (c - 128))%N) :: utf8_decode s''
                      else replacement_rune :: utf8_decode s'
        | [] => [replacement_rune]
        end
      else if between 224 239 b then
        match s' with
        | c :: d :: s'' =>
            if (if (b =? 224)%N then between 160 191 c else if (b =? 237)%N then between 128 159 c else continuation c)
               && continuation d
            then ((b - 224) * 4096 + (c - 128) * 64 + (d - 128))%N :: utf8_decode s''
            else replacement_rune :: utf8_decode s'
        | _ => replacement_rune :: utf8_decode s'
        end
      else if between 240 244 b then
        match s' with
        | c :: d :: e :: s'' =>
            if (if (b =? 240)%N then between 144 191 c else if (b =? 244)%N then between 128 143 c else continuation c)
               && continuation d && continuation e
            then ((b - 240) * 262144 + (c - 128) * 4096 + (d - 128) * 64 + (e - 128))%N :: utf8_decode s''
            else replacement_rune :: utf8_decode s'
        | _ => replacement_rune :: utf8_decode s'
        end
      else replacement_rune :: utf8_decode s'
  end.

(** A literal with characters beyond ASCII, which this file's source encodes in
    UTF-8. *)
Definition u8 (s : string) : text := utf8_decode (t s).

(** Code-point order, which is the byte order of the encodings. *)
Fixpoint text_compare (a b : text) : comparison :=
  match a, b with
  | [], [] => Eq
  | [], _ :: _ => Lt
  | _ :: _, [] => Gt
  | x :: a', y :: b' =>
      match N.compare x y with
      | Eq => text_compare a' b'
      | c => c
      end
  end.
Definition text_lt (a b : text) : bool := match text_compare a b with Lt => true | _ => false end.

(** ** Paths *)

Definition slash : rune := 47%N.

(** [filepath.Base]. *)
Definition path_base (p : text) : text :=
  match p with
  | [] => t "."
  | _ =>
      match trim_right (N.eqb slash) p with
      | [] => t "/"
      | p' => List.last (split_rune slash p') []
      end
  end.

(** [filepath.Ext]: from the last dot of the last element. *)
Definition path_ext (p : text) : text :=
  let base := List.last (split_rune slash p) [] in
  match index_of [46%N] (rev base) with
  | Some i => drop (length base - S i) base
  | None => []
  end.

(** [filepath.Clean]: the elements seen so far, last first. *)
Definition clean_step (rooted : bool) (stack : list text) (e : text) : list text :=
  if bool_decide (e = []) || bool_decide (e = t ".") then stack
  else if bool_decide (e = t "..") then
    match stack with
    | top :: rest => if bool_decide (top = t "..") then e :: stack else rest
    | [] => if rooted then [] else [e]
    end
  else e :: stack.

Definition path_clean (p : text) : text :=
  let rooted := has_prefix (t "/") p in
  let body := join (t "/") (rev (fold_left (clean_step rooted) (split_rune slash p) [])) in
  if rooted then t "/" ++ body else if bool_decide (body = []) then t "." else body.

(** ** Lemmas *)

Lemma rev_cons_ne {A} (a : A) l : rev (a :: l) <> [].
Proof. simpl. by destruct (rev l). Qed.

Lemma fields_go_no_sep sep word s w :
  Forall (fun r => sep r = false) word -> w ∈ fields_go sep word s ->
  Forall (fun r => sep r = false) w /\ w <> [].
Proof.
  revert word. induction s as [|r s IH]; intros word Hword; simpl.
  - destruct word as [|a word]; [by rewrite elem_of_nil|].
    rewrite list_elem_of_singleton. intros ->.
    split; [by apply Forall_rev|]. by apply rev_cons_ne.
  - destruct (sep r) eqn:E.
    + destruct word as [|a word]; [by apply IH|].
      rewrite elem_of_cons. intros [->|Hw]; [|apply (IH []); [constructor|done]].
      split; [by apply Forall_rev|]. by apply rev_cons_ne.
    + apply IH. by constructor.
Qed.

Lemma split_rune_nonempty sep s : split_rune sep s <> [].
Proof. destruct s as [|r s]; simpl; [done|]. destruct (r =? sep)%N; [done|]. by destruct (split_rune sep s). Qed.

(** Splitting and joining around a separator are inverse. *)
Lemma join_split sep s : join [sep] (split_rune sep s) = s.
Proof.
  induction s as [|r s IH]; [done|]. cbn [split_rune].
  pose proof (split_rune_nonempty sep s) as Hne.
  destruct (N.eqb_spec r sep) as [->|Hr].
  - destruct (split_rune sep s) eqn:E; [done|].
    change (sep :: join [sep] (l :: l0) = sep :: s). by rewrite IH.
  - destruct (split_rune sep s) as [|w ws] eqn:E; [done|].
    destruct ws; simpl in *; f_equal; exact IH.
Qed.

Lemma has_prefix_spec p s : has_prefix p s = true <-> exists s', s = p ++ s'.
Proof.
  revert s. induction p as [|a p IH]; intros s; simpl.
  - split; [by eexists|done].
  - destruct s as [|b s]; [split; [done|by intros [? [=]]]|].
    rewrite andb_true_iff, N.eqb_eq, IH. split.
    + intros [-> [s' ->]]. by exists s'.
    + intros [s' [= -> ->]]. eauto.
Qed.

Lemma text_compare_eq a b : text_compare a b = Eq <-> a = b.
Proof.
  revert b. induction a as [|x a IH]; intros [|y b]; simpl; [done|done|done|].
  destruct (N.compare_spec x y) as [->|?|?]; [rewrite IH; split; [by intros ->|by intros [= ->]]|split; [done|]..];
    intros [= ??]; lia.
Qed.

Lemma text_compare_antisym a b : text_compare b a = CompOpp (text_compare a b).
Proof.
  revert b. induction a as [|x a IH]; intros [|y b]; simpl; [done..|].
  rewrite N.compare_antisym, IH. by destruct (N.compare x y).
Qed.

#[export] Instance text_ordering : Ordering text_compare.
Proof.
  split.
  - intros. apply text_compare_antisym.
  - by intros x y z ->%text_compare_eq.
  - intros a. induction a as [|x a IH]; intros [|y b] [|z d] H1 H2; simpl in *; try congruence.
    destruct (N.compare_spec x y), (N.compare_spec y z), (N.compare_spec x z); subst; try lia;
      try congruence; eauto.
Qed.

Lemma fields_go_word sep acc w s :
  Forall (fun r => sep r = false) w -> fields_go sep acc (w ++ s) = fields_go sep (rev w ++ acc) s.
Proof.
  intros Hw. revert acc. induction Hw as [|r w Hr Hw IH]; intros acc; [done|].
  simpl. rewrite Hr, IH. by rewrite <- app_assoc.
Qed.

Lemma fields_go_skip sep acc s :
  fields_go sep acc s = match acc with [] => fields_go sep [] s | _ => fields_go sep acc s end.
Proof. by destruct acc. Qed.

(** Joining words and splitting them again are inverse. *)
Lemma fields_join sep c ws :
  sep c = true -> Forall (fun w => w <> [] /\ Forall (fun r => sep r = false) w) ws ->
  fields_func sep (join [c] ws) = ws.
Proof.
  intros Hc Hws. unfold fields_func. induction Hws as [|w ws [Hne Hw] Hws IH]; [done|].
  assert (rev (rev w ++ []) = w) as Hrev by (by rewrite app_nil_r, rev_involutive).
  assert (exists a l, rev w ++ [] = a :: l) as (a & l & E).
  { destruct (rev w ++ []); [simpl in Hrev; by subst|eauto]. }
  destruct ws as [|w' ws].
  - simpl. rewrite <- (app_nil_r w) at 1. rewrite fields_go_word by done. rewrite E in *. simpl in *.
    by rewrite Hrev.
  - change (join [c] (w :: w' :: ws)) with (w ++ [c] ++ join [c] (w' :: ws)).
    rewrite fields_go_word by done. rewrite E in *. cbn [app fields_go]. rewrite Hc, IH. by rewrite Hrev.
Qed.

(** ** Substrings and trimming *)

Lemma contains_spec p s : contains p s = true <-> exists a b, s = a ++ p ++ b.
Proof.
  unfold contains. rewrite bool_decide_eq_true. induction s as [|r s IH]; cbn [index_of].
  - destruct (has_prefix p []) eqn:E.
    + apply has_prefix_spec in E as [s' E]. split; [|by eauto]. intros _. by exists [], s'.
    + split; [by intros [? ?]|]. intros (a & b & Hs). destruct a; [|done]. exfalso.
      assert (has_prefix p [] = true) by (apply has_prefix_spec; by exists b). congruence.
  - destruct (has_prefix p (r :: s)) eqn:E.
    + apply has_prefix_spec in E as [s' E]. split; [|by eauto]. intros _. by exists [], s'.
    + rewrite fmap_is_Some, IH. split.
      * intros (a & b & ->). by exists (r :: a), b.
      * intros ([|x a] & b & Hs).
        -- exfalso. assert (has_prefix p (r :: s) = true) by (apply has_prefix_spec; by exists b). congruence.
        -- injection Hs as -> ->. by exists a, b.
Qed.

Lemma contains_rev p s : contains (rev p) (rev s) = contains p s.
Proof.
  apply eq_true_iff_eq. rewrite !contains_spec. split; intros (a & b & E); exists (rev b), (rev a).
  - rewrite <- (rev_involutive s), E, !rev_app_distr, rev_involutive. by rewrite <- app_assoc.
  - rewrite E, !rev_app_distr. by rewrite <- app_assoc.
Qed.

Lemma trim_left_split f s : exists a, s = a ++ trim_left f s /\ Forall (fun r => f r = true) a.
Proof.
  induction s as [|r s [a [E Ha]]]; [by exists []|]. cbn. destruct (f r) eqn:Er; [|by exists []].
  exists (r :: a). split; [by rewrite E at 1|by constructor].
Qed.

Lemma trim_right_split f s : exists b, s = trim_right f s ++ b.
Proof.
  unfold trim_right. destruct (trim_left_split f (rev s)) as (a & E & _). exists (rev a).
  by rewrite <- rev_app_distr, <- E, rev_involutive.
Qed.

Lemma trim_left_contains f p s : p <> [] -> Forall (fun r => f r = false) p -> contains p (trim_left f s) = contains p s.
Proof.
  intros Hne Hp. induction s as [|r s IH]; [done|]. cbn [trim_left]. destruct (f r) eqn:Er; [|done].
  rewrite IH. apply eq_true_iff_eq. rewrite !contains_spec. split.
  - intros (a & b & ->). by exists (r :: a), b.
  - intros ([|x a] & b & E); [|injection E as -> ->; by exists a, b].
    destruct p as [|y p]; [done|]. injection E as -> ->. inversion Hp; subst. congruence.
Qed.

Lemma trim_contains f p s : p <> [] -> Forall (fun r => f r = false) p -> contains p (trim f s) = contains p s.
Proof.
  intros Hne Hp. unfold trim, trim_right.
  rewrite <- (contains_rev p (rev _)), rev_involutive, trim_left_contains, contains_rev.
  - by apply trim_left_contains.
  - intros E. apply Hne. by rewrite <- (rev_involutive p), E.
  - by apply List.Forall_rev.
Qed.

Lemma trim_left_nil f s : trim_left f s = [] <-> Forall (fun r => f r = true) s.
Proof.
  split.
  - intros E. destruct (trim_left_split f s) as (a & Hs & Ha). rewrite E, app_nil_r in Hs. by rewrite Hs.
  - induction 1 as [|r s Hr _ IH]; [done|]. cbn. by rewrite Hr.
Qed.

Lemma trim_suffix_app s x : trim_suffix s (x ++ s) = x.
Proof.
  unfold trim_suffix, has_suffix. rewrite rev_app_distr.
  assert (has_prefix (rev s) (rev s ++ rev x) = true) as -> by (apply has_prefix_spec; eauto).
  rewrite length_app. replace (length x + length s - length s)%nat with (length x) by lia. apply take_app_length.
Qed.

Lemma trim_prefix_app p x : trim_prefix p (p ++ x) = x.
Proof.
  unfold trim_prefix. assert (has_prefix p (p ++ x) = true) as -> by (apply has_prefix_spec; eauto). apply drop_app_length.
Qed.

(** ** Decimal digits *)

Lemma digits_go_digits fuel n acc :
  (0 <= n)%Z -> Forall (fun r => ascii_digit r = true) acc -> Forall (fun r => ascii_digit r = true) (digits_go fuel n acc).
Proof.
  revert n acc. induction fuel as [|fuel IH]; intros n acc Hn Hacc; simpl; [done|].
  assert (ascii_digit (Z.to_N (n mod 10 + 48)) = true) as Hd.
  { pose proof (Z.mod_pos_bound n 10 ltac:(lia)). unfold ascii_digit, between.
    apply andb_true_iff. rewrite !N.leb_le. lia. }
  destruct (n <? 10)%Z; [by constructor|]. apply IH; [apply Z.div_pos; lia|by constructor].
Qed.

Lemma itoa_digits n : (0 <= n)%Z -> Forall (fun r => ascii_digit r = true) (itoa n).
Proof.
  intros Hn. unfold itoa. destruct (Z.ltb_spec n 0); [lia|]. apply digits_go_digits; [done|constructor].
Qed.

Lemma digits_go_nonempty fuel m acc : acc <> [] -> digits_go fuel m acc <> [].
Proof.
  revert m acc. induction fuel as [|fuel IH]; intros m acc Hacc; cbn [digits_go]; [done|].
  case_match; [done|by apply IH].
Qed.

Lemma itoa_nonempty n : (0 <= n)%Z -> itoa n <> [].
Proof.
  intros Hn. unfold itoa. destruct (Z.ltb_spec n 0); [lia|]. generalize 19 as fuel. intros fuel.
  cbn [digits_go]. case_match; [done|]. by apply digits_go_nonempty.
Qed.
