(* ===== verification/Paths.v ===== *)
(** * Paths ([path/filepath] on Unix)

    The functions of [path/filepath] the installer uses, beside [path_clean],
    [path_base] and [path_ext] of GoText.v, and their laws: a cleaned rooted
    path is a list of plain elements, cleaning is idempotent, and a file name
    appended to a directory is split off again by [Dir] and [Base]. *)
From S2P Require Import Prelude GoText.

#[local] Arguments N.eqb : simpl never.

Definition rooted (p : text) : bool := has_prefix (t "/") p.

(** [filepath.Dir]: everything up to the last slash, cleaned. *)
Definition path_dir (p : text) : text := path_clean (trim_right (fun r => negb (N.eqb slash r)) p).

(** A directory entry as [os.CreateTemp] and [filepath.Join] name it. *)
Definition path_join (dir name : text) : text :=
  if has_suffix (t "/") dir then dir ++ name else dir ++ t "/" ++ name.

(** [filepath.Join]: the elements that are not empty, cleaned. *)
Definition filepath_join (parts : list text) : text :=
  match base.filter (fun e => e <> []) parts with [] => [] | es => path_clean (join (t "/") es) end.

(** [filepath.Abs] in the working directory [cwd]. *)
Definition path_abs (cwd p : text) : text :=
  if rooted p then path_clean p else path_clean (path_join cwd p).

Definition path_elements (p : text) : list text :=
  base.filter (fun e => e <> [] /\ e <> t ".") (split_rune slash (path_clean p)).

Fixpoint strip_common (base targ : list text) : list text * list text :=
  match base, targ with
  | b :: base', g :: targ' => if bool_decide (b = g) then strip_common base' targ' else (base, targ)
  | _, _ => (base, targ)
  end.

(** [filepath.Rel]; [None] when no relative path exists. *)
Definition path_rel (base targ : text) : option text :=
  if bool_decide (path_clean base = path_clean targ) then Some (t ".")
  else if negb (eqb (rooted base) (rooted targ)) then None
  else
    let '(b, g) := strip_common (path_elements base) (path_elements targ) in
    match b with
    | [] => Some (join (t "/") g)
    | first :: _ =>
        if bool_decide (first = t "..") then None
        else Some (join (t "/") (replicate (length b) (t "..") ++ g))
    end.

(** The test the code writes after [filepath.Rel]: the relative path does not
    climb out of the root. *)
Definition within (root parent : text) : bool :=
  match path_rel root parent with
  | Some relative => negb (bool_decide (relative = t "..")) && negb (has_prefix (t "../") relative)
  | None => false
  end.

(** ** Plain elements *)

(** A file name: not empty, not a dot name and without slashes. *)
Definition no_slash (e : text) : Prop := Forall (fun r => (r =? slash)%N = false) e.
Definition plain (e : text) : Prop := no_slash e /\ e <> [] /\ e <> t "." /\ e <> t "..".

Definition of_elements (es : list text) : text := t "/" ++ join (t "/") es.

(** A cleaned rooted path. *)
Definition clean_path (p : text) : Prop := exists es, Forall plain es /\ p = of_elements es.

Lemma split_no_slash e : no_slash e -> split_rune slash e = [e].
Proof. induction 1 as [|r e Hr He IH]; [done|]. simpl. by rewrite Hr, IH. Qed.

Lemma split_app e s : no_slash e -> split_rune slash (e ++ slash :: s) = e :: split_rune slash s.
Proof. induction 1 as [|r e Hr He IH]; [done|]. simpl. by rewrite Hr, IH. Qed.

Lemma split_join es : es <> [] -> Forall no_slash es -> split_rune slash (join (t "/") es) = es.
Proof.
  intros Hne Hes. induction Hes as [|e es He Hes IH]; [done|].
  destruct es as [|e' es]; [by apply split_no_slash|].
  change (join (t "/") (e :: e' :: es)) with (e ++ slash :: join (t "/") (e' :: es)).
  by rewrite split_app, IH.
Qed.

Lemma split_elements_no_slash s : Forall no_slash (split_rune slash s).
Proof.
  induction s as [|r s IH]; simpl; [by repeat constructor|].
  destruct (r =? slash)%N eqn:E; [by repeat constructor|].
  destruct (split_rune slash s) as [|w ws]; [by repeat constructor|].
  apply Forall_cons in IH as [Hw Hws]. by repeat constructor.
Qed.

Lemma plain_no_slash es : Forall plain es -> Forall no_slash es.
Proof. intros Hes. eapply Forall_impl; [exact Hes|]. by intros e []. Qed.

Lemma clean_steps_plain es stack :
  Forall plain es -> fold_left (clean_step true) es stack = rev es ++ stack.
Proof.
  intros Hes. revert stack. induction Hes as [|e es He Hes IH]; intros stack; [done|].
  simpl. rewrite IH, <- app_assoc. f_equal. destruct He as (_ & H1 & H2 & H3). unfold clean_step.
  by rewrite !bool_decide_false.
Qed.

Lemma clean_steps_sound es stack :
  Forall no_slash es -> Forall plain stack -> Forall plain (fold_left (clean_step true) es stack).
Proof.
  intros Hes. revert stack. induction Hes as [|e es He Hes IH]; intros stack Hst; [done|].
  simpl. apply IH. unfold clean_step.
  destruct (decide (e = [])); [by rewrite bool_decide_true|]. rewrite (bool_decide_false (e = [])) by done.
  destruct (decide (e = t ".")); [by rewrite bool_decide_true|]. rewrite (bool_decide_false (e = t ".")) by done.
  destruct (decide (e = t "..")).
  - rewrite bool_decide_true by done. simpl. destruct Hst as [|top rest Ht Hr]; [done|].
    rewrite bool_decide_false by apply Ht. done.
  - rewrite bool_decide_false by done. simpl. by constructor.
Qed.

Lemma rooted_split p : rooted p = true -> exists s, p = slash :: s.
Proof. intros [s ->]%has_prefix_spec. by exists s. Qed.

Lemma clean_of_elements es : Forall plain es -> path_clean (of_elements es) = of_elements es.
Proof.
  intros Hes. unfold path_clean, of_elements. simpl. f_equal.
  change (join [47%N] es) with (join (t "/") es).
  destruct es as [|e es]; [done|].
  rewrite split_join by (done || by apply plain_no_slash).
  rewrite clean_steps_plain by done. by rewrite app_nil_r, rev_involutive.
Qed.

Lemma clean_path_clean p : clean_path p -> path_clean p = p.
Proof. intros (es & Hes & ->). by apply clean_of_elements. Qed.

(** Cleaning a rooted path gives a clean path. *)
Lemma path_clean_clean p : rooted p = true -> clean_path (path_clean p).
Proof.
  intros Hp. unfold path_clean. change (has_prefix (t "/") p) with (rooted p). rewrite Hp.
  eexists. split; [|reflexivity]. apply Forall_rev, clean_steps_sound; [apply split_elements_no_slash|done].
Qed.

Lemma path_abs_clean cwd p : rooted cwd = true -> clean_path (path_abs cwd p).
Proof.
  intros Hc. unfold path_abs. destruct (rooted p) eqn:E; apply path_clean_clean; [done|].
  apply rooted_split in Hc as [s ->]. unfold path_join. by destruct (has_suffix _ _).
Qed.

Lemma clean_path_rooted p : clean_path p -> rooted p = true.
Proof. by intros (es & _ & ->). Qed.

Lemma path_abs_id cwd p : clean_path p -> path_abs cwd p = p.
Proof. intros Hp. unfold path_abs. rewrite clean_path_rooted by done. by apply clean_path_clean. Qed.

Lemma trim_left_stop f r s : f r = false -> trim_left f (r :: s) = r :: s.
Proof. intros H. simpl. by rewrite H. Qed.

Lemma trim_left_skip f e s : Forall (fun r => f r = true) e -> trim_left f (e ++ s) = trim_left f s.
Proof. induction 1 as [|r e Hr He IH]; simpl; [done|]. by rewrite Hr. Qed.

(** Up to the last slash. *)
Lemma trim_name d name : no_slash name ->
  trim_right (fun r => negb (N.eqb slash r)) ((d ++ [slash]) ++ name) = d ++ [slash].
Proof.
  intros Hn. unfold trim_right. rewrite rev_app_distr, trim_left_skip.
  - rewrite rev_app_distr. simpl. by rewrite rev_involutive.
  - apply Forall_rev. eapply Forall_impl; [exact Hn|]. intros r Hr. simpl. by rewrite N.eqb_sym, Hr.
Qed.

Lemma join_snoc es e : join (t "/") (es ++ [e]) = match es with [] => e | _ => join (t "/") es ++ t "/" ++ e end.
Proof.
  induction es as [|e' es IH]; [done|]. destruct es as [|e'' es]; [done|].
  change (join (t "/") ((e' :: e'' :: es) ++ [e])) with (e' ++ t "/" ++ join (t "/") ((e'' :: es) ++ [e])).
  rewrite IH. change (join (t "/") (e' :: e'' :: es)) with (e' ++ t "/" ++ join (t "/") (e'' :: es)).
  by rewrite <- !app_assoc.
Qed.

Lemma has_suffix_slash s r : has_suffix (t "/") (s ++ [r]) = (slash =? r)%N.
Proof. unfold has_suffix. rewrite rev_app_distr. simpl. apply andb_true_r. Qed.

Lemma plain_last e : plain e -> exists s r, e = s ++ [r] /\ (slash =? r)%N = false.
Proof.
  intros (Hn & Hne & _). destruct (exists_last Hne) as (s & r & ->). exists s, r. split; [done|].
  apply Forall_app in Hn as [_ Hr]. apply Forall_cons in Hr as [Hr _]. rewrite N.eqb_sym. exact Hr.
Qed.

Lemma of_elements_suffix es : Forall plain es -> es <> [] -> has_suffix (t "/") (of_elements es) = false.
Proof.
  intros Hes Hne. destruct (exists_last Hne) as (es' & l & ->).
  apply Forall_app in Hes as [_ Hl]. apply Forall_cons in Hl as [Hl _]. apply plain_last in Hl as (s & r & -> & Hr).
  unfold of_elements. rewrite join_snoc. destruct es'.
  - by rewrite app_assoc, has_suffix_slash.
  - by rewrite !app_assoc, has_suffix_slash.
Qed.

(** [path_join] adds one element. *)
Lemma join_of_elements es e : Forall plain es -> path_join (of_elements es) e = of_elements (es ++ [e]).
Proof.
  intros Hes. unfold path_join. destruct es as [|e0 es]; [done|].
  rewrite of_elements_suffix by done. unfold of_elements. rewrite join_snoc. by rewrite <- !app_assoc.
Qed.

Lemma clean_path_join d name : clean_path d -> plain name -> clean_path (path_join d name).
Proof.
  intros (es & Hes & ->) Hn. exists (es ++ [name]). split; [by apply Forall_app_2; [|constructor]|].
  by apply join_of_elements.
Qed.

Lemma path_join_split d name : clean_path d -> exists d', path_join d name = (d' ++ [slash]) ++ name
  /\ path_clean (d' ++ [slash]) = d.
Proof.
  intros (es & Hes & ->). unfold path_join. destruct (has_suffix (t "/") (of_elements es)) eqn:E.
  - destruct es as [|e es] using rev_ind.
    + exists []. split; [done|]. by vm_compute.
    + rewrite of_elements_suffix in E; [done|done|by destruct es].
  - exists (of_elements es). split; [by rewrite <- app_assoc|].
    rewrite <- (clean_of_elements es) at 2 by done. unfold path_clean, of_elements. simpl.
    f_equal. f_equal. f_equal. change [47%N] with (t "/").
    destruct es as [|e es]; [done|]. rewrite split_join by (done || by apply plain_no_slash).
    clear E. assert (forall s, split_rune slash (s ++ [slash]) = split_rune slash s ++ [[]]) as Hsp.
    { induction s as [|r s IH]; [done|]. simpl. rewrite IH. destruct (r =? slash)%N; [done|].
      pose proof (split_rune_nonempty slash s). by destruct (split_rune slash s). }
    change (t "/") with [slash]. rewrite Hsp. change [slash] with (t "/").
    rewrite split_join by (done || by apply plain_no_slash). by rewrite fold_left_app.
Qed.

Lemma last_element p name : no_slash name -> List.last (split_rune slash (p ++ slash :: name)) [] = name.
Proof.
  intros Hn. induction p as [|x p IH]; simpl.
  - by rewrite split_no_slash.
  - pose proof (split_rune_nonempty slash (p ++ slash :: name)) as Hs. destruct (x =? slash)%N.
    + simpl. by destruct (split_rune slash (p ++ slash :: name)).
    + destruct (split_rune slash (p ++ slash :: name)) as [|w ws] eqn:Ew; [done|].
      destruct ws as [|w' ws]; [|exact IH].
      exfalso. clear - Ew Hn. revert w Ew. induction p as [|y p IH]; intros w Ew; simpl in Ew.
      * by rewrite split_no_slash in Ew.
      * destruct (y =? slash)%N; [injection Ew as _ Ew; by apply split_rune_nonempty in Ew|].
        destruct (split_rune slash (p ++ slash :: name)) as [|w1 ws] eqn:E2; [by apply split_rune_nonempty in E2|].
        injection Ew as _ ->. by apply (IH w1).
Qed.

Lemma last_joined d name : clean_path d -> no_slash name -> List.last (split_rune slash (path_join d name)) [] = name.
Proof.
  intros Hd Hn. destruct (path_join_split d name Hd) as (d' & -> & _). rewrite <- app_assoc. by apply last_element.
Qed.

(** [Dir] and [Base] take a joined name apart. *)
Lemma path_dir_join d name : clean_path d -> no_slash name -> path_dir (path_join d name) = d.
Proof.
  intros Hd Hn. destruct (path_join_split d name Hd) as (d' & -> & Hc). unfold path_dir. by rewrite trim_name.
Qed.

Lemma path_base_join d name : clean_path d -> plain name -> path_base (path_join d name) = name.
Proof.
  intros Hd Hn. destruct (path_join_split d name Hd) as (d' & -> & _).
  pose proof (plain_last _ Hn) as (s & r & E & Hr). destruct Hn as (Hn & Hne & _).
  unfold path_base. destruct ((d' ++ [slash]) ++ name) as [|c cs] eqn:E1.
  { by destruct d'. }
  rewrite <- E1. assert (trim_right (N.eqb slash) ((d' ++ [slash]) ++ name) = (d' ++ [slash]) ++ name) as ->.
  { unfold trim_right. rewrite E, app_assoc, rev_app_distr. simpl. rewrite Hr. simpl. by rewrite rev_involutive. }
  rewrite E1, <- E1. clear E1. rewrite <- app_assoc. change ([slash] ++ name) with (slash :: name).
  by apply last_element.
Qed.

Lemma path_dir_clean p : rooted p = true -> clean_path (path_dir p).
Proof.
  intros Hp. apply path_clean_clean. apply rooted_split in Hp as [s ->]. unfold trim_right, rooted.
  assert (exists s', rev (trim_left (fun r => negb (slash =? r)%N) (rev (slash :: s))) = slash :: s') as [s' ->]; [|done].
  simpl rev. induction (rev s) as [|r l IH]; [by exists []|]. simpl. destruct (slash =? r)%N; simpl; [|exact IH].
  exists (rev l ++ [r]). by rewrite rev_app_distr.
Qed.

(** ** Numbered names *)

Lemma digits_go_no_slash fuel n acc : no_slash acc -> no_slash (digits_go fuel n acc).
Proof.
  revert n acc. induction fuel as [|fuel IH]; intros n acc Hacc; [done|]. cbn [digits_go].
  assert (no_slash (Z.to_N (n mod 10 + 48) :: acc)) as H.
  { constructor; [|done]. apply N.eqb_neq. unfold slash. pose proof (Z.mod_pos_bound n 10). lia. }
  destruct (n <? 10)%Z; [done|by apply IH].
Qed.

Lemma itoa_no_slash n : no_slash (itoa n).
Proof. unfold itoa. destruct (n <? 0)%Z; [constructor; [done|]|]; by apply digits_go_no_slash; constructor. Qed.

(** A prefix longer than two runes keeps a name apart from the dot names. *)
Lemma plain_numbered a b c prefix n :
  no_slash (a :: b :: c :: prefix) -> plain ((a :: b :: c :: prefix) ++ itoa n).
Proof.
  intros Hp. split_and!; [apply Forall_app; split; [done|apply itoa_no_slash]|done..].
Qed.

Lemma clean_path_nonempty p : clean_path p -> p <> [].
Proof. by intros (es & _ & ->). Qed.

(** ** Containment *)

Lemma filter_plain es : Forall plain es -> base.filter (fun e => e <> [] /\ e <> t ".") es = es.
Proof.
  induction 1 as [|e es (_ & H1 & H2 & _) _ IH]; [done|]. rewrite filter_cons_True by done. by rewrite IH.
Qed.

Lemma path_elements_of es : Forall plain es -> path_elements (of_elements es) = es.
Proof.
  intros Hes. unfold path_elements. rewrite clean_of_elements by done. unfold of_elements.
  change (t "/" ++ join (t "/") es) with (slash :: join (t "/") es). cbn [split_rune]. rewrite N.eqb_refl.
  rewrite filter_cons_False by (by intros [? _]).
  destruct es as [|e es]; [done|].
  rewrite split_join by (done || by apply plain_no_slash).
  by apply filter_plain.
Qed.

Lemma strip_common_split b g b' g' : strip_common b g = (b', g') ->
  exists c, b = c ++ b' /\ g = c ++ g' /\ (forall x y l l', b' = x :: l -> g' = y :: l' -> x <> y).
Proof.
  revert g. induction b as [|x b IH]; intros g E; cbn in E.
  - injection E as <- <-. exists []. done.
  - destruct g as [|y g]; [injection E as <- <-; exists []; split_and!; [done..|by intros]|].
    destruct (decide (x = y)) as [<-|Hne].
    + rewrite bool_decide_true in E by done. apply IH in E as (c & -> & -> & H). by exists (x :: c).
    + rewrite bool_decide_false in E by done. injection E as <- <-. exists []. split_and!; [done..|].
      by intros x' y' l l' [= -> ->] [= -> ->].
Qed.

(** A joined path climbs exactly when its first element is [..]. *)
Lemma climbs_spec l : Forall no_slash l -> l <> [] ->
  negb (bool_decide (join (t "/") l = t "..")) && negb (has_prefix (t "../") (join (t "/") l))
  = negb (bool_decide (head l = Some (t ".."))).
Proof.
  intros Hl Hne. pose proof (split_join l Hne Hl) as Es. apply eq_true_iff_eq. rewrite andb_true_iff, !negb_true_iff, !bool_decide_eq_false.
  split.
  - intros [H1 H2] Hh. destruct l as [|x l]; [done|]. injection Hh as ->. destruct l as [|y l]; [done|].
    change (join (t "/") (t ".." :: y :: l)) with (t "../" ++ join (t "/") (y :: l)) in H2.
    apply not_true_iff_false in H2. apply H2, has_prefix_spec. by eexists.
  - intros Hh. split.
    + intros E. rewrite E in Es. change (split_rune slash (t "..")) with [t ".."] in Es. by subst l.
    + apply not_true_iff_false. intros [s E]%has_prefix_spec. rewrite E in Es.
      change (t "../" ++ s) with (t ".." ++ slash :: s) in Es. rewrite split_app in Es by (by repeat constructor). by subst l.
Qed.

(** Between cleaned rooted paths the test means that the elements of the root
    begin the elements of the path. *)
Lemma within_spec rs es : Forall plain rs -> Forall plain es ->
  within (of_elements rs) (of_elements es) = true <-> exists tl, es = rs ++ tl.
Proof.
  intros Hrs Hes. unfold within, path_rel. rewrite !clean_of_elements by done.
  destruct (decide (of_elements rs = of_elements es)) as [E|Hne].
  { rewrite bool_decide_true by done. assert (rs = es) as ->.
    { rewrite <- (path_elements_of rs), <- (path_elements_of es) by done. by rewrite E. }
    split; [|done]. intros _. exists []. by rewrite app_nil_r. }
  rewrite bool_decide_false by done. change (eqb (rooted (of_elements rs)) (rooted (of_elements es))) with true. cbn [negb].
  rewrite !path_elements_of by done.
  destruct (strip_common rs es) as [b g] eqn:Es. apply strip_common_split in Es as (c & -> & -> & Hdiff).
  apply Forall_app in Hrs as [_ Hb]. apply Forall_app in Hes as [_ Hg].
  destruct b as [|x b].
  - rewrite app_nil_r in *. split; [by exists g|]. intros _.
    destruct g as [|y g]; [by rewrite app_nil_r in Hne|]. rewrite climbs_spec by (done || by apply plain_no_slash).
    apply Forall_cons in Hg as [(_ & _ & _ & Hy) _]. apply negb_true_iff, bool_decide_eq_false. by intros [= ->].
  - apply Forall_cons in Hb as [(_ & _ & _ & Hx) _]. rewrite bool_decide_false by done. rewrite climbs_spec; [|..|done].
    + split; [done|]. intros [tl E]. rewrite <- !app_assoc in E. apply app_inv_head in E. subst g.
      by destruct (Hdiff x x b (b ++ tl)).
    + apply Forall_app. split; [|by apply plain_no_slash]. apply Forall_replicate. by repeat constructor.
Qed.

#[export] Hint Resolve clean_path_clean path_abs_clean clean_path_rooted path_dir_clean clean_path_join : subsync.
