(* ===== verification/Regex.v ===== *)
(** * Go regular expressions

    The regular expressions the program compiles with [regexp.MustCompile], as
    a syntax tree and a backtracking matcher with Go's leftmost-first
    preference. A match is the span of the whole expression together with the
    spans of the capture groups that took part. Positions count runes. *)
From S2P Require Import Prelude GoText.

(** ** Syntax *)

Inductive regex : Type :=
| Eps
| Chr (p : rune -> bool)
| Cat (a b : regex)
| Alt (a b : regex)
| Many (a : regex)           (** [a*], greedy *)
| Lazy (a : regex)           (** [a*?], as few as possible *)
| Group (n : nat) (a : regex)
| Bol | Eol | WordB.

Declare Scope regex_scope.
Delimit Scope regex_scope with re.
Infix "++" := Cat (at level 60, right associativity) : regex_scope.
Infix "||" := Alt (at level 50, left associativity) : regex_scope.

Definition Opt (a : regex) : regex := Alt a Eps.
Definition Plus (a : regex) : regex := Cat a (Many a).

(** [a{lo,hi}] unfolds, as in Go, into [lo] copies and nested options. *)
Fixpoint up_to (n : nat) (a : regex) : regex :=
  match n with 0 => Eps | S n => Opt (Cat a (up_to n a)) end.
Fixpoint exactly (n : nat) (a : regex) (rest : regex) : regex :=
  match n with 0 => rest | S n => Cat a (exactly n a rest) end.
Definition rep (lo hi : nat) (a : regex) : regex := exactly lo a (up_to (hi - lo) a).

(** Case-sensitive literals and classes. *)
Definition any_of (chars : text) : regex := Chr (one_of chars).
Fixpoint lit (s : text) : regex :=
  match s with [] => Eps | r :: s => Cat (Chr (N.eqb r)) (lit s) end.

(** Literals under [(?i)]; the argument is in lower case. *)
Definition ichar (c r : rune) : bool :=
  (r =? c)%N || (ascii_lower c && (r =? c - 32)%N)
  || ((c =? 115)%N && (r =? 383)%N) || ((c =? 107)%N && (r =? 8490)%N).
Fixpoint ilit (s : text) : regex :=
  match s with [] => Eps | r :: s => Cat (Chr (ichar r)) (ilit s) end.

Definition dig : regex := Chr ascii_digit.
(** [\s]: tab, newline, form feed, carriage return, space. *)
Definition perl_space (r : rune) : bool := one_of [9; 10; 12; 13; 32]%N r.
Definition alnum (r : rune) : bool := ascii_digit r || ascii_letter r.
Definition word_rune (r : rune) : bool := alnum r || (r =? 95)%N.

(** ** Matching *)

(** A position in the text: the runes before it in reverse, those after it, its
    offset, and the groups recorded so far (latest first). *)
Record cursor := Cursor {
  before : text;
  after : text;
  offset : nat;
  groups : list (nat * (nat * nat));
}.

Definition advance (c : cursor) (r : rune) (rest : text) : cursor :=
  Cursor (r :: before c) rest (S (offset c)) (groups c).

Definition record_group (n start : nat) (c : cursor) : cursor :=
  Cursor (before c) (after c) (offset c) ((n, (start, offset c)) :: groups c).

Definition at_word_boundary (c : cursor) : bool :=
  let w l := match l with r :: _ => word_rune r | [] => false end in
  xorb (w (before c)) (w (after c)).

(** [a*]: one more iteration, which must consume, is preferred to stopping.
    Every iteration consumes a rune, so the remaining length is enough fuel. *)
Section star.
Context {A : Type} (step : cursor -> (cursor -> option A) -> option A) (k : cursor -> option A).

Fixpoint star (fuel : nat) (c : cursor) : option A :=
  match fuel with
  | 0 => k c
  | S fuel =>
      match step c (fun c' => if offset c <? offset c' then star fuel c' else None) with
      | Some x => Some x
      | None => k c
      end
  end.

(** [a*?]: stopping is preferred to one more iteration. *)
Fixpoint lazy_star (fuel : nat) (c : cursor) : option A :=
  match k c with
  | Some x => Some x
  | None =>
      match fuel with
      | 0 => None
      | S fuel => step c (fun c' => if offset c <? offset c' then lazy_star fuel c' else None)
      end
  end.
End star.

Fixpoint run {A} (re : regex) (c : cursor) (k : cursor -> option A) {struct re} : option A :=
  match re with
  | Eps => k c
  | Chr p =>
      match after c with
      | r :: rest => if p r then k (advance c r rest) else None
      | [] => None
      end
  | Cat a b => run a c (fun c' => run b c' k)
  | Alt a b => match run a c k with Some x => Some x | None => run b c k end
  | Many a => star (run a) k (length (after c)) c
  | Lazy a => lazy_star (run a) k (length (after c)) c
  | Group n a => run a c (fun c' => k (record_group n (offset c) c'))
  | Bol => match before c with [] => k c | _ => None end
  | Eol => match after c with [] => k c | _ => None end
  | WordB => if at_word_boundary c then k c else None
  end.

Record span := Span { s_start : nat; s_end : nat; s_groups : list (nat * (nat * nat)) }.

(** The match starting exactly at a position. *)
Definition match_at (re : regex) (c : cursor) : option span :=
  run re c (fun c' => Some (Span (offset c) (offset c') (groups c'))).

(** The leftmost match at or after a position ([fuel] runes are tried). *)
Fixpoint find_from (re : regex) (c : cursor) (fuel : nat) : option span :=
  match match_at re c with
  | Some m => Some m
  | None =>
      match fuel, after c with
      | S fuel, r :: rest => find_from re (advance c r rest) fuel
      | _, _ => None
      end
  end.

Definition cursor_at (s : text) (i : nat) : cursor := Cursor (rev (take i s)) (drop i s) i [].

(** [FindStringSubmatchIndex]. *)
Definition find (re : regex) (s : text) : option span := find_from re (cursor_at s 0) (length s).

Definition matches (re : regex) (s : text) : bool := bool_decide (is_Some (find re s)).

(** [FindAllStringSubmatchIndex(_, -1)]: successive non-overlapping matches.
    The expressions used this way never match the empty string; an empty match
    advances one rune. *)
Fixpoint find_all_go (re : regex) (s : text) (i fuel : nat) : list span :=
  match fuel with
  | 0 => []
  | S fuel =>
      if length s <? i then [] else
      match find_from re (cursor_at s i) (length s - i) with
      | Some m => m :: find_all_go re s (Nat.max (S i) (s_end m)) fuel
      | None => []
      end
  end.
Definition find_all (re : regex) (s : text) : list span := find_all_go re s 0 (S (length s)).

(** The span of a capture group, if it took part. *)
Definition group (m : span) (n : nat) : option (nat * nat) :=
  snd <$> List.find (fun g => fst g =? n) (s_groups m).

Definition slice (s : text) (i j : nat) : text := take (j - i) (drop i s).
Definition group_text (s : text) (m : span) (n : nat) : option text :=
  (fun '(i, j) => slice s i j) <$> group m n.
Definition group_or_empty (s : text) (m : span) (n : nat) : text := default [] (group_text s m n).

(** [ReplaceAllString(s, " ")]. *)
Fixpoint replace_spans (s : text) (from : nat) (ms : list span) (by_ : text) : text :=
  match ms with
  | [] => drop from s
  | m :: ms => slice s from (s_start m) ++ by_ ++ replace_spans s (s_end m) ms by_
  end.
Definition replace_all (re : regex) (s by_ : text) : text := replace_spans s 0 (find_all re s) by_.

(** ** Lemmas *)

(** A cursor that stays within the text it started in. *)
Definition at_text (s : text) (c : cursor) : Prop :=
  rev (before c) ++ after c = s /\ offset c = length (before c).

Lemma cursor_at_text s i : i <= length s -> at_text s (cursor_at s i).
Proof.
  intros Hi. split; simpl; [by rewrite rev_involutive, take_drop|].
  rewrite length_rev, length_take. lia.
Qed.

Lemma advance_at_text s c r rest :
  at_text s c -> after c = r :: rest -> at_text s (advance c r rest).
Proof.
  intros [H1 H2] Ha. split; simpl; [|by rewrite H2].
  rewrite <- app_assoc. simpl. by rewrite <- Ha.
Qed.

Lemma at_text_bound s c : at_text s c -> offset c <= length s.
Proof. intros [<- ->]. rewrite length_app, length_rev. lia. Qed.

(** Every result of the matcher comes from its continuation, called on a later
    cursor of the same text. *)
Definition sound_step (s : text) {A} (step : cursor -> (cursor -> option A) -> option A) : Prop :=
  forall c k x, at_text s c -> step c k = Some x ->
    exists c', at_text s c' /\ offset c <= offset c' /\ k c' = Some x.

Lemma star_sound {A} s (step : cursor -> (cursor -> option A) -> option A) k fuel c x :
  sound_step s step -> at_text s c -> star step k fuel c = Some x ->
  exists c', at_text s c' /\ offset c <= offset c' /\ k c' = Some x.
Proof.
  intros Hstep. revert c. induction fuel as [|fuel IH]; intros c Hc; simpl; [by eauto|].
  destruct (step c _) as [y|] eqn:E; [intros [= ->]|by eauto].
  apply Hstep in E as (c' & Hc' & Hle & E); [|done].
  destruct (Nat.ltb_spec (offset c) (offset c')); [|done].
  apply IH in E as (c'' & ? & ? & ?); [|done]. exists c''. split; [done|]. split; [lia|done].
Qed.

Lemma lazy_star_sound {A} s (step : cursor -> (cursor -> option A) -> option A) k fuel c x :
  sound_step s step -> at_text s c -> lazy_star step k fuel c = Some x ->
  exists c', at_text s c' /\ offset c <= offset c' /\ k c' = Some x.
Proof.
  intros Hstep. revert c. induction fuel as [|fuel IH]; intros c Hc; simpl.
  all: destruct (k c) as [y|] eqn:Ek; [intros [= ->]; by eauto|].
  - done.
  - intros E. apply Hstep in E as (c' & Hc' & Hle & E); [|done].
    destruct (Nat.ltb_spec (offset c) (offset c')); [|done].
    apply IH in E as (c'' & ? & ? & ?); [|done]. exists c''. split; [done|]. split; [lia|done].
Qed.

Lemma run_sound {A} s re : sound_step s (@run A re).
Proof.
  induction re as [| | a IHa b IHb | a IHa b IHb | a IHa | a IHa | n a IHa | | |];
    intros c k x Hc Hx; simpl in Hx.
  - eauto.
  - destruct (after c) as [|r rest] eqn:Ea; [done|]. destruct (p r); [|done].
    exists (advance c r rest). split; [by apply advance_at_text|]. simpl. split; [lia|done].
  - apply IHa in Hx as (c1 & H1 & ? & Hx); [|done]. apply IHb in Hx as (c2 & ? & ? & ?); [|done].
    exists c2. split; [done|]. split; [lia|done].
  - destruct (run a c k) eqn:E; [|by eauto]. simplify_eq. by eauto.
  - by eapply star_sound.
  - by eapply lazy_star_sound.
  - apply IHa in Hx as (c1 & H1 & ? & Hx); [|done].
    exists (record_group n (offset c) c1). done.
  - destruct (before c); [|done]. eauto.
  - destruct (after c); [|done]. eauto.
  - destruct (at_word_boundary c); [|done]. eauto.
Qed.

Lemma find_from_bounds s re c fuel m :
  at_text s c -> find_from re c fuel = Some m ->
  offset c <= s_start m /\ s_start m <= s_end m /\ s_end m <= length s.
Proof.
  revert c. induction fuel as [|fuel IH]; intros c Hc; simpl.
  all: destruct (match_at re c) as [m'|] eqn:E;
    [intros [= ->]; apply (run_sound s) in E as (c' & Hc' & ? & [= <-]); [|done];
     apply at_text_bound in Hc'; simpl; lia|].
  - done.
  - destruct (after c) as [|r rest] eqn:Ea; [done|]. intros H.
    apply IH in H; [|by apply advance_at_text]. simpl in H. lia.
Qed.

(** A match found in a text lies within it. *)
Lemma find_bounds re s m : find re s = Some m -> s_start m <= s_end m <= length s.
Proof.
  intros H. apply (find_from_bounds s) in H; [lia|]. apply cursor_at_text. lia.
Qed.

Lemma find_all_bounds re s m : m ∈ find_all re s -> s_start m <= s_end m <= length s.
Proof.
  unfold find_all. generalize (S (length s)) as fuel. generalize 0 as i.
  intros i fuel. revert i. induction fuel as [|fuel IH]; intros i; simpl; [by rewrite elem_of_nil|].
  destruct (Nat.ltb_spec (length s) i); [by rewrite elem_of_nil|].
  destruct (find_from re (cursor_at s i) (length s - i)) as [m'|] eqn:E; [|by rewrite elem_of_nil].
  apply (find_from_bounds s) in E; [|by apply cursor_at_text].
  rewrite elem_of_cons. intros [->|Hm]; [lia|by eapply IH].
Qed.

(** ** What an expression matches

    [denotes re b w r]: [re] matches [w] between [b] (reversed) and [r]. The
    matcher finds a match exactly when there is one. *)

Inductive denotes : regex -> text -> text -> text -> Prop :=
| d_eps b r : denotes Eps b [] r
| d_chr p x b r : p x = true -> denotes (Chr p) b [x] r
| d_cat e f b u v r :
    denotes e b u (v ++ r) -> denotes f (rev u ++ b) v r -> denotes (Cat e f) b (u ++ v) r
| d_alt_l e f b w r : denotes e b w r -> denotes (Alt e f) b w r
| d_alt_r e f b w r : denotes f b w r -> denotes (Alt e f) b w r
| d_many_stop e b r : denotes (Many e) b [] r
| d_many e b u v r :
    u <> [] -> denotes e b u (v ++ r) -> denotes (Many e) (rev u ++ b) v r -> denotes (Many e) b (u ++ v) r
| d_lazy_stop e b r : denotes (Lazy e) b [] r
| d_lazy e b u v r :
    u <> [] -> denotes e b u (v ++ r) -> denotes (Lazy e) (rev u ++ b) v r -> denotes (Lazy e) b (u ++ v) r
| d_group n e b w r : denotes e b w r -> denotes (Group n e) b w r
| d_bol r : denotes Bol [] [] r
| d_eol b : denotes Eol b [] []
| d_word b r : at_word_boundary (Cursor b r 0 []) = true -> denotes WordB b [] r.

#[local] Hint Constructors denotes : core.

(** The cursor [w] further. *)
Definition moved (c : cursor) (w : text) (c' : cursor) : Prop :=
  after c = w ++ after c' /\ before c' = rev w ++ before c /\ offset c' = offset c + length w.

Lemma moved_nil c : moved c [] c.
Proof. unfold moved. simpl. split_and!; [done|done|lia]. Qed.

Lemma moved_app c u c1 v c2 : moved c u c1 -> moved c1 v c2 -> moved c (u ++ v) c2.
Proof.
  unfold moved. intros (A1 & B1 & O1) (A2 & B2 & O2).
  rewrite A1, A2, B2, B1, O2, O1, rev_app_distr, length_app, <- !app_assoc. split_and!; [done|done|lia].
Qed.

(** The capture groups of an expression, those that take part in every match,
    and what a recorded span holds. *)
Fixpoint bodies (re : regex) : list (nat * regex) :=
  match re with
  | Cat a b | Alt a b => bodies a ++ bodies b
  | Many a | Lazy a => bodies a
  | Group n a => (n, a) :: bodies a
  | _ => []
  end.
Fixpoint always (n : nat) (re : regex) : bool :=
  match re with
  | Cat a b => always n a || always n b
  | Group m a => (m =? n) || always n a
  | _ => false
  end.
Definition captures (s : text) (re : regex) (g : nat * (nat * nat)) : Prop :=
  exists a b r, (g.1, a) ∈ bodies re /\ denotes a b (slice s g.2.1 g.2.2) r.

(** A step of the matcher over [w]: what it denotes and what it records. *)
Definition traced (re : regex) (c : cursor) (w : text) (c' : cursor) : Prop :=
  denotes re (before c) w (after c') /\ moved c w c'
  /\ forall s, at_text s c ->
       exists gs, groups c' = gs ++ groups c /\ Forall (captures s re) gs /\ forall n, always n re = true -> n ∈ gs.*1.

Definition denoting (re : regex) {A} (step : cursor -> (cursor -> option A) -> option A) : Prop :=
  forall c k x, step c k = Some x -> exists w c', traced re c w c' /\ k c' = Some x.

Lemma moved_at_text s c w c' : at_text s c -> moved c w c' -> at_text s c'.
Proof.
  intros [<- Ho] (Ha & Hb & Ho'). split.
  - by rewrite Ha, Hb, rev_app_distr, rev_involutive, <- app_assoc.
  - rewrite Ho', Hb, length_app, length_rev, Ho. lia.
Qed.

Lemma moved_slice s c w c' : at_text s c -> moved c w c' -> slice s (offset c) (offset c') = w.
Proof.
  intros [<- Ho] (Ha & Hb & Ho'). unfold slice. rewrite Ho', Ho, <- (length_rev (before c)), drop_app_length, Ha.
  replace (length (rev (before c)) + length w - length (rev (before c))) with (length w) by lia. apply take_app_length.
Qed.

Lemma captures_sub s re re' g : bodies re ⊆ bodies re' -> captures s re g -> captures s re' g.
Proof. intros Hsub (a & b & r & Ha & Hd). exists a, b, r. split; [by apply Hsub|done]. Qed.

Lemma captures_list s re re' gs : bodies re ⊆ bodies re' -> Forall (captures s re) gs -> Forall (captures s re') gs.
Proof. intros Hsub H. eapply Forall_impl; [done|]. intros g. by apply captures_sub. Qed.

Lemma traced_nil re c : denotes re (before c) [] (after c) -> (forall n, always n re = false) -> traced re c [] c.
Proof.
  intros Hd Ha. split_and!; [done|apply moved_nil|]. intros s _. exists []. split_and!; [done|done|]. intros n. by rewrite Ha.
Qed.

(** One step after another, as the two parts of [re]. *)
Lemma traced_app e f re c u c1 v c2 :
  traced e c u c1 -> traced f c1 v c2 ->
  bodies e ⊆ bodies re -> bodies f ⊆ bodies re ->
  (forall n, always n re = true -> always n e || always n f = true) ->
  (denotes e (before c) u (v ++ after c2) -> denotes f (rev u ++ before c) v (after c2) -> denotes re (before c) (u ++ v) (after c2)) ->
  traced re c (u ++ v) c2.
Proof.
  intros (D1 & M1 & G1) (D2 & M2 & G2) He Hf Ha Hd. split_and!; [|by apply (moved_app c u c1)|].
  - destruct M1 as (A1 & B1 & _). destruct M2 as (A2 & _). apply Hd; [by rewrite <- A2|by rewrite <- B1].
  - intros s Hs. destruct (G1 s Hs) as (g1 & E1 & F1 & K1). destruct (G2 s (moved_at_text _ _ _ _ Hs M1)) as (g2 & E2 & F2 & K2).
    exists (g2 ++ g1). split_and!.
    + by rewrite E2, E1, app_assoc.
    + apply Forall_app. split; eapply captures_list; [exact Hf|done|exact He|done].
    + intros n Hn. rewrite fmap_app. apply elem_of_app. apply Ha, orb_true_iff in Hn as [Hn|Hn]; auto.
Qed.

Lemma traced_sub e re c w c' :
  traced e c w c' -> bodies e ⊆ bodies re -> (forall n, always n re = false) ->
  (denotes e (before c) w (after c') -> denotes re (before c) w (after c')) -> traced re c w c'.
Proof.
  intros (D & M & G) Hb Ha Hd. split_and!; [by apply Hd|done|]. intros s Hs. destruct (G s Hs) as (gs & E & F & _).
  exists gs. split_and!; [done|eapply captures_list; [exact Hb|done]|]. intros n. by rewrite Ha.
Qed.

Lemma star_denotes {A} e (step : cursor -> (cursor -> option A) -> option A) k fuel c x :
  denoting e step -> star step k fuel c = Some x -> exists w c', traced (Many e) c w c' /\ k c' = Some x.
Proof.
  intros Hstep. revert c. induction fuel as [|fuel IH]; intros c; simpl.
  { intros Hk. exists [], c. split; [apply traced_nil; [auto|done]|done]. }
  destruct (step c _) as [y|] eqn:E.
  - intros [= ->]. apply Hstep in E as (u & c1 & Hu & E).
    destruct (Nat.ltb_spec (offset c) (offset c1)); [|done].
    apply IH in E as (v & c2 & Hv & E). exists (u ++ v), c2. split; [|done].
    eapply (traced_app e (Many e)); [done|done|simpl; set_solver|simpl; set_solver|done|]. intros D1 D2. constructor; [|done|done].
    destruct Hu as (_ & (_ & _ & Ho) & _). intros ->. simpl in Ho. lia.
  - intros Hk. exists [], c. split; [apply traced_nil; [auto|done]|done].
Qed.

Lemma lazy_star_denotes {A} e (step : cursor -> (cursor -> option A) -> option A) k fuel c x :
  denoting e step -> lazy_star step k fuel c = Some x -> exists w c', traced (Lazy e) c w c' /\ k c' = Some x.
Proof.
  intros Hstep. revert c. induction fuel as [|fuel IH]; intros c; simpl.
  all: destruct (k c) as [y|] eqn:Ek;
    [intros [= ->]; exists [], c; split; [apply traced_nil; [auto|done]|done]|].
  - done.
  - intros E. apply Hstep in E as (u & c1 & Hu & E).
    destruct (Nat.ltb_spec (offset c) (offset c1)); [|done].
    apply IH in E as (v & c2 & Hv & E). exists (u ++ v), c2. split; [|done].
    eapply (traced_app e (Lazy e)); [done|done|simpl; set_solver|simpl; set_solver|done|]. intros D1 D2. constructor; [|done|done].
    destruct Hu as (_ & (_ & _ & Ho) & _). intros ->. simpl in Ho. lia.
Qed.

Lemma run_denotes {A} re : denoting re (@run A re).
Proof.
  induction re as [| | a IHa b IHb | a IHa b IHb | a IHa | a IHa | n a IHa | | |]; intros c k x Hx; simpl in Hx.
  - exists [], c. split; [apply traced_nil; [auto|done]|done].
  - destruct (after c) as [|r rest] eqn:Ea; [done|]. destruct (p r) eqn:Ep; [|done].
    exists [r], (advance c r rest). split; [|done]. split_and!; [by constructor| |].
    + unfold moved. rewrite Ea. simpl. split_and!; [done|done|lia].
    + intros s _. by exists [].
  - apply IHa in Hx as (u & c1 & Hu & Hx). apply IHb in Hx as (v & c2 & Hv & Hx).
    exists (u ++ v), c2. split; [|done].
    eapply (traced_app a b); [done|done|simpl; set_solver|simpl; set_solver|done|by constructor].
  - destruct (run a c k) eqn:E.
    + simplify_eq. apply IHa in E as (w & c' & ? & ?). exists w, c'. split; [|done].
      eapply (traced_sub a); [done|simpl; set_solver|done|auto].
    + apply IHb in Hx as (w & c' & ? & ?). exists w, c'. split; [|done].
      eapply (traced_sub b); [done|simpl; set_solver|done|auto].
  - by eapply star_denotes.
  - by eapply lazy_star_denotes.
  - apply IHa in Hx as (w & c' & (Hw & Hm & Hg) & Hx). exists w, (record_group n (offset c) c'). split; [|done].
    split_and!; [by constructor|done|]. intros s Hs. destruct (Hg s Hs) as (gs & E & F & K).
    exists ((n, (offset c, offset c')) :: gs). simpl. split_and!; [by rewrite E| |].
    + constructor; [|eapply captures_list; [|done]; simpl; set_solver].
      exists a, (before c), (after c'). simpl. rewrite (moved_slice s c w c') by done. split; [set_solver|done].
    + intros m [Hm'%Nat.eqb_eq|Hm']%orb_true_iff; [subst; left|right; by apply K].
  - destruct (before c) eqn:Eb; [|done]. exists [], c. split; [|done]. apply traced_nil; [|done]. rewrite Eb. auto.
  - destruct (after c) eqn:Ea; [|done]. exists [], c. split; [|done]. apply traced_nil; [|done]. rewrite Ea. auto.
  - destruct (at_word_boundary c) eqn:Ew; [|done]. exists [], c. split; [|done]. apply traced_nil; [by constructor|done].
Qed.

(** A more willing continuation, or more fuel, loses no match. *)
Definition willing {A} (k1 k2 : cursor -> option A) : Prop := forall c, is_Some (k1 c) -> is_Some (k2 c).

Definition monotone {A} (step : cursor -> (cursor -> option A) -> option A) : Prop :=
  forall c k1 k2, willing k1 k2 -> is_Some (step c k1) -> is_Some (step c k2).

Lemma star_monotone {A} (step : cursor -> (cursor -> option A) -> option A) k1 k2 n m c :
  monotone step -> willing k1 k2 -> n <= m -> is_Some (star step k1 n c) -> is_Some (star step k2 m c).
Proof.
  intros Hstep Hk. revert m c. induction n as [|n IH]; intros m c Hle; simpl.
  - intros H%Hk. destruct m as [|m]; simpl; [done|]. destruct (step c _); [by eexists|done].
  - destruct m as [|m]; [lia|]. simpl. destruct (step c _) as [y|] eqn:E.
    + intros _. match goal with |- is_Some (match step c ?k' with _ => _ end) =>
        assert (is_Some (step c k')) as [z Hz] end; [|rewrite Hz; by eexists].
      eapply Hstep; [|by rewrite E]. intros c'. destruct (offset c <? offset c'); [|done].
      apply IH. lia.
    + intros H%Hk. case_match; [by eexists|done].
Qed.

Lemma lazy_star_monotone {A} (step : cursor -> (cursor -> option A) -> option A) k1 k2 n m c :
  monotone step -> willing k1 k2 -> n <= m -> is_Some (lazy_star step k1 n c) -> is_Some (lazy_star step k2 m c).
Proof.
  intros Hstep Hk. revert m c. induction n as [|n IH]; intros m c Hle; simpl.
  all: destruct (k1 c) as [y|] eqn:Ek1;
    [intros _; destruct (Hk c) as [z Hz]; [by eexists|]; destruct m; simpl; rewrite Hz; by eexists|].
  - by intros [].
  - destruct m as [|m]; [lia|]. simpl. destruct (k2 c); [intros _; by eexists|].
    apply Hstep. intros c'. destruct (offset c <? offset c'); [|done]. apply IH. lia.
Qed.

Lemma run_monotone {A} re : monotone (@run A re).
Proof.
  induction re as [| | a IHa b IHb | a IHa b IHb | a IHa | a IHa | n a IHa | | |]; intros c k1 k2 Hk; simpl.
  - apply Hk.
  - destruct (after c) as [|r rest]; [done|]. destruct (p r); [|done]. apply Hk.
  - apply IHa. intros c'. by apply IHb.
  - destruct (run a c k1) eqn:E.
    + intros _. destruct (IHa c k1 k2 Hk) as [y ->]; [by rewrite E|by eexists].
    + intros H. destruct (run a c k2); [by eexists|]. by eapply IHb.
  - apply star_monotone; [done|done|lia].
  - apply lazy_star_monotone; [done|done|lia].
  - apply IHa. intros c'. apply Hk.
  - destruct (before c); [apply Hk|done].
  - destruct (after c); [apply Hk|done].
  - destruct (at_word_boundary c); [apply Hk|done].
Qed.

(** Every match is found: the continuation may refuse some, but not the one
    that is known to do. *)
Lemma run_complete {A} re b w r :
  denotes re b w r -> forall c (k : cursor -> option A), before c = b -> after c = w ++ r ->
  (forall c', after c' = r -> moved c w c' -> is_Some (k c')) -> is_Some (run re c k).
Proof.
  induction 1 as [b r|p x b r Hp|e f b u v r H1 IH1 H2 IH2|e f b w r H IH|e f b w r H IH|e b r|
                  e b u v r Hne H1 IH1 H2 IH2|e b r|e b u v r Hne H1 IH1 H2 IH2|n e b w r H IH|r|b|b r Hw];
    intros c k Hb Ha Hk.
  - apply Hk; [done|apply moved_nil].
  - simpl. rewrite Ha. simpl. rewrite Hp. apply Hk; [done|]. unfold moved. rewrite Ha. simpl. split_and!; [done|done|lia].
  - simpl. apply IH1; [done|by rewrite <- app_assoc in Ha|].
    intros c1 Ha1 Hm1. apply IH2; [destruct Hm1 as (_ & -> & _); by rewrite Hb|done|].
    intros c2 Ha2 Hm2. apply Hk; [done|by apply (moved_app c u c1)].
  - simpl. destruct (IH c k Hb Ha Hk) as [y ->]. by eexists.
  - simpl. destruct (run e c k); [by eexists|]. by apply IH.
  - simpl. assert (is_Some (k c)) as Hc by (apply Hk; [done|apply moved_nil]).
    destruct (length (after c)); simpl; [done|]. case_match; [by eexists|done].
  - change (run (Many e) c k) with (star (run e) k (length (after c)) c).
    rewrite Ha. destruct u as [|y u]; [done|]. simpl length. cbn [star].
    match goal with |- is_Some (match run e c ?k' with _ => _ end) =>
      assert (is_Some (run e c k')) as [z Hz] end; [|rewrite Hz; by eexists].
    apply IH1; [done|by rewrite <- app_assoc in Ha|]. intros c1 Ha1 Hm1.
    pose proof Hm1 as (_ & Hb1 & Ho). simpl in Ho.
    destruct (Nat.ltb_spec (offset c) (offset c1)); [|lia].
    assert (is_Some (run (Many e) c1 k)) as Hs.
    { apply IH2; [by rewrite Hb1, Hb|done|]. intros c2 Ha2 Hm2. apply Hk; [done|by apply (moved_app c _ c1)]. }
    change (run (Many e) c1 k) with (star (run e) k (length (after c1)) c1) in Hs. revert Hs.
    apply star_monotone; [apply run_monotone|by intros ?|]. rewrite Ha1, !length_app. lia.
  - simpl. assert (is_Some (k c)) as [x Hc] by (apply Hk; [done|apply moved_nil]).
    destruct (length (after c)); simpl; rewrite Hc; by eexists.
  - change (run (Lazy e) c k) with (lazy_star (run e) k (length (after c)) c).
    rewrite Ha. destruct u as [|y u]; [done|]. simpl length. cbn [lazy_star].
    destruct (k c); [by eexists|].
    apply IH1; [done|by rewrite <- app_assoc in Ha|]. intros c1 Ha1 Hm1.
    pose proof Hm1 as (_ & Hb1 & Ho). simpl in Ho.
    destruct (Nat.ltb_spec (offset c) (offset c1)); [|lia].
    assert (is_Some (run (Lazy e) c1 k)) as Hs.
    { apply IH2; [by rewrite Hb1, Hb|done|]. intros c2 Ha2 Hm2. apply Hk; [done|by apply (moved_app c _ c1)]. }
    change (run (Lazy e) c1 k) with (lazy_star (run e) k (length (after c1)) c1) in Hs. revert Hs.
    apply lazy_star_monotone; [apply run_monotone|by intros ?|]. rewrite Ha1, !length_app. lia.
  - simpl. apply IH; [done|done|]. intros c' Ha' Hm'. apply Hk; [done|done].
  - simpl. rewrite Hb. apply Hk; [done|apply moved_nil].
  - simpl. rewrite Ha. simpl. apply Hk; [done|apply moved_nil].
  - simpl. replace (at_word_boundary c) with true.
    + apply Hk; [done|apply moved_nil].
    + rewrite <- Hw. unfold at_word_boundary. by rewrite Hb, Ha.
Qed.

Lemma find_from_denotes re s c fuel m :
  at_text s c -> find_from re c fuel = Some m ->
  exists b w r, s = b ++ w ++ r /\ denotes re (rev b) w r /\ s_start m = length b /\ s_end m = length b + length w.
Proof.
  revert c. induction fuel as [|fuel IH]; intros c Hc; simpl.
  all: destruct (match_at re c) as [m'|] eqn:E;
    [intros [= ->]; apply run_denotes in E as (w & c' & (Hd & (Ha & _ & Ho) & _) & [= <-]);
     destruct Hc as [Hs Hb]; exists (rev (before c)), w, (after c'); rewrite rev_involutive, length_rev, <- Ha;
     simpl; split_and!; [done|done|congruence|congruence]|].
  - done.
  - destruct (after c) as [|r rest] eqn:Ea; [done|]. by apply IH, advance_at_text.
Qed.

Lemma find_denotes re s m :
  find re s = Some m ->
  exists b w r, s = b ++ w ++ r /\ denotes re (rev b) w r /\ s_start m = length b /\ s_end m = length b + length w.
Proof. apply find_from_denotes, cursor_at_text. lia. Qed.

(** A group that takes part in every match is recorded, and what a group
    records matches the group. *)
Lemma find_from_captures re s c fuel m :
  at_text s c -> groups c = [] -> find_from re c fuel = Some m ->
  Forall (captures s re) (s_groups m) /\ forall n, always n re = true -> n ∈ (s_groups m).*1.
Proof.
  revert c. induction fuel as [|fuel IH]; intros c Hc Hg; simpl.
  all: destruct (match_at re c) as [m'|] eqn:E;
    [intros [= ->]; apply run_denotes in E as (w & c' & (_ & _ & Hcap) & [= <-]);
     destruct (Hcap s Hc) as (gs & Egs & ? & ?); simpl; rewrite Egs, Hg, app_nil_r; done|].
  - done.
  - destruct (after c) as [|r rest] eqn:Ea; [done|]. apply IH; [by apply advance_at_text|done].
Qed.

Lemma find_captures re s m n : find re s = Some m -> always n re = true ->
  exists a b r, (n, a) ∈ bodies re /\ denotes a b (group_or_empty s m n) r.
Proof.
  intros H Hn. apply (find_from_captures re s) in H as [Hcap Hin]; [|apply cursor_at_text; lia|done].
  apply Hin, list_elem_of_fmap in Hn as ([n' g] & -> & Hg). simpl.
  unfold group_or_empty, group_text, group. destruct (List.find _ (s_groups m)) as [[n'' [i j]]|] eqn:E.
  - apply List.find_some in E as [E1 E2]. apply list_elem_of_In in E1. apply Nat.eqb_eq in E2. simpl in E2. subst n''.
    rewrite Forall_forall in Hcap. apply Hcap in E1 as (a & b & r & Ha & Hd). by exists a, b, r.
  - apply list_elem_of_In in Hg. apply (List.find_none _ _ E) in Hg. simpl in Hg. by rewrite Nat.eqb_refl in Hg.
Qed.

Lemma find_from_complete re s c fuel b w r :
  at_text s c -> denotes re (rev b) w r -> s = b ++ w ++ r -> offset c <= length b ->
  length s <= offset c + fuel -> is_Some (find_from re c fuel).
Proof.
  intros Hc Hd Hs. revert c Hc. induction fuel as [|fuel IH]; intros c Hc Hle Hf; simpl.
  all: destruct (match_at re c) as [m|] eqn:E; [by eexists|].
  all: destruct (decide (offset c = length b)) as [Heq|Hne].
  1, 3: exfalso; destruct Hc as [Hc Ho];
    assert (rev (before c) = b /\ after c = w ++ r) as [Hb Ha]
      by (rewrite Hs in Hc; apply app_inj_1 in Hc; [done|rewrite length_rev; lia]);
    assert (is_Some (match_at re c)) as [m Hm]; [|congruence];
    apply (run_complete re _ _ _ Hd); [by rewrite <- Hb, rev_involutive|done|by eexists].
  - rewrite Hs, !length_app in Hf. lia.
  - assert (length (after c) = length s - offset c) as Hl.
    { destruct Hc as [<- ->]. rewrite length_app, length_rev. lia. }
    destruct (after c) as [|x rest] eqn:Ea.
    + simpl in Hl. rewrite Hs, !length_app in Hl. lia.
    + apply IH; [by apply advance_at_text|simpl; lia|simpl; lia].
Qed.

Lemma find_complete re b w r : denotes re (rev b) w r -> is_Some (find re (b ++ w ++ r)).
Proof.
  intros Hd. eapply find_from_complete; [apply cursor_at_text; lia|done|done|simpl; lia|simpl; lia].
Qed.

Lemma denotes_cat e f b w r :
  denotes (Cat e f) b w r <->
  exists u v, w = u ++ v /\ denotes e b u (v ++ r) /\ denotes f (rev u ++ b) v r.
Proof.
  split; [inversion 1; eauto|]. intros (u & v & -> & H1 & H2). by constructor.
Qed.

Lemma denotes_eol b w r : denotes Eol b w r <-> w = [] /\ r = [].
Proof. split; [by inversion 1|]. intros [-> ->]. constructor. Qed.

Lemma denotes_lit p b w r : denotes (lit p) b w r <-> w = p.
Proof.
  revert b w. induction p as [|x p IH]; intros b w; simpl.
  - split; [by inversion 1|intros ->; constructor].
  - split.
    + inversion 1 as [| |e' f' b' u v r' H1 H2| | | | | | | | | |]; subst. inversion H1; subst.
      apply IH in H2 as ->. simpl. f_equal. symmetry. by apply N.eqb_eq.
    + intros ->. change (x :: p) with ([x] ++ p). constructor; [|by apply IH]. constructor. apply N.eqb_refl.
Qed.

Lemma denotes_many_chr p b w r : denotes (Many (Chr p)) b w r <-> Forall (fun x => p x = true) w.
Proof.
  split.
  - remember (Many (Chr p)) as re eqn:Hre. induction 1; simplify_eq; [constructor|].
    apply Forall_app. split; [|by auto]. match goal with H : denotes (Chr p) _ _ _ |- _ => inversion H; subst end.
    by repeat constructor.
  - intros H. revert b. induction H as [|x w Hx Hw IH]; intros b; [constructor|].
    change (x :: w) with ([x] ++ w). constructor; [done|by constructor|apply IH].
Qed.

Lemma denotes_plus_chr p b w r : denotes (Plus (Chr p)) b w r <-> w <> [] /\ Forall (fun x => p x = true) w.
Proof.
  unfold Plus. split.
  - inversion 1 as [| |e' f' b' u v r' H1 H2| | | | | | | | | |]; subst. apply denotes_many_chr in H2.
    inversion H1; subst. split; [done|]. by constructor.
  - intros [Hne H]. destruct H as [|x w Hx Hw]; [done|]. change (x :: w) with ([x] ++ w).
    constructor; [by constructor|by apply denotes_many_chr].
Qed.
