(* ===== verification/GoFloat.v ===== *)
(** * Go float64 arithmetic

    A finite [float64] is the rational number it denotes, and every arithmetic
    operation is the exact rational operation followed by rounding to 53
    significant bits, ties to even. NaN, the infinities and the subnormal range
    are not modelled: the program's float inputs are random units, provider
    ratings decoded from JSON and ratios of small integers. *)
From S2P Require Import Prelude.
From Stdlib Require Export QArith Qround Qpower Lqa.

#[local] Open Scope Q_scope.

Abbreviation float64 := Q.

(** Nearest integer, ties to even. *)
Definition rne (x : Q) : Z :=
  let f := Qfloor x in
  match Qcompare (x - inject_Z f) (1 # 2) with
  | Lt => f
  | Gt => (f + 1)%Z
  | Eq => if Z.even f then f else (f + 1)%Z
  end.

(** The exponent [k] with [2^(52+k) <= x < 2^(53+k)], for positive [x]. *)
Definition exponent (x : Q) : Z :=
  let e := (Z.log2 (Qnum x) - Z.log2 (QDen x))%Z in
  if Qle_bool (2 ^ e) x then (e - 52)%Z else (e - 53)%Z.

Definition round_pos (x : Q) : Q :=
  let k := exponent x in inject_Z (rne (x / 2 ^ k)) * 2 ^ k.

Definition round (x : Q) : float64 :=
  match Qnum x with
  | Z0 => 0
  | Zpos _ => round_pos x
  | Zneg _ => - round_pos (- x)
  end.

Definition fadd (x y : float64) : float64 := round (x + y).
Definition fsub (x y : float64) : float64 := round (x - y).
Definition fmul (x y : float64) : float64 := round (x * y).
Definition fdiv (x y : float64) : float64 := round (x / y).
(** [float64(n)] for an integer. *)
Definition of_int (n : Z) : float64 := round (inject_Z n).
Definition flt (x y : float64) : bool := negb (Qle_bool y x).
Definition feq (x y : float64) : bool := Qeq_bool x y.
(** Conversion to an integer truncates towards zero. *)
Definition trunc (x : float64) : Z := if flt x 0 then (- Qfloor (- x))%Z else Qfloor x.
(** [math.Round] rounds half away from zero. *)
Definition math_round (x : float64) : Z :=
  if flt x 0 then (- Qfloor (- x + (1 # 2)))%Z else Qfloor (x + (1 # 2)).

(** ** Integer rounding *)

Lemma rne_near x : (Qfloor x <= rne x <= Qfloor x + 1)%Z.
Proof. unfold rne. destruct (Qcompare _ _); [destruct (Z.even _)|..]; lia. Qed.

Lemma rne_mono x y : x <= y -> (rne x <= rne y)%Z.
Proof.
  intros H. pose proof (Qfloor_resp_le _ _ H) as Hf.
  destruct (decide (Qfloor x = Qfloor y)) as [E|E].
  - unfold rne. rewrite <- E.
    destruct (Qcompare_spec (x - inject_Z (Qfloor x)) (1 # 2));
      destruct (Qcompare_spec (y - inject_Z (Qfloor x)) (1 # 2));
      try (destruct (Z.even (Qfloor x))); try lia; exfalso; lra.
  - pose proof (rne_near x). pose proof (rne_near y). lia.
Qed.

Lemma rne_int z : rne (inject_Z z) = z.
Proof.
  unfold rne. rewrite Qfloor_Z.
  destruct (Qcompare_spec (inject_Z z - inject_Z z) (1 # 2)); [exfalso; lra|done|exfalso; lra].
Qed.

#[global] Instance rne_proper : Proper (Qeq ==> eq) rne.
Proof.
  intros x y H. apply Z.le_antisymm; apply rne_mono; rewrite H; apply Qle_refl.
Qed.

(** ** The exponent *)

Lemma pow2_pos k : 0 < 2 ^ k.
Proof. by apply Qpower_0_lt. Qed.

Lemma pow2_plus a b : 2 ^ (a + b) == 2 ^ a * 2 ^ b.
Proof. by apply Qpower_plus. Qed.

Lemma pow2_le a b : (a <= b)%Z -> 2 ^ a <= 2 ^ b.
Proof. intros H. apply Qpower_le_compat_l; [done|]. lra. Qed.

Lemma pow2_lt_inv a b : 2 ^ a < 2 ^ b -> (a < b)%Z.
Proof.
  intros H. destruct (Z_lt_le_dec a b) as [|Hle]; [done|].
  apply pow2_le in Hle. exfalso. lra.
Qed.

Lemma pow2_int k : (0 <= k)%Z -> 2 ^ k == inject_Z (2 ^ k).
Proof. intros H. by rewrite Zpower_Qpower. Qed.

Lemma exponent_rough x :
  0 < x -> let e := (Z.log2 (Qnum x) - Z.log2 (QDen x))%Z in 2 ^ (e - 1) <= x < 2 ^ (e + 1).
Proof.
  destruct x as [n d]. intros Hx. simpl Qnum. simpl Qden.
  assert (0 < n)%Z as Hn by (unfold Qlt in Hx; simpl in Hx; lia).
  pose proof (Z.log2_spec n Hn) as [Hn1 Hn2].
  pose proof (Z.log2_spec (Zpos d) ltac:(lia)) as [Hd1 Hd2].
  pose proof (Z.log2_nonneg n). pose proof (Z.log2_nonneg (Zpos d)).
  set (ln := Z.log2 n) in *. set (ld := Z.log2 (Zpos d)) in *.
  assert (n # d == inject_Z n / inject_Z (Zpos d)) as Hq by (rewrite Qmake_Qdiv; reflexivity).
  intros e. subst e. rewrite Hq. clear Hq Hx.
  assert (0 < inject_Z (Zpos d)) as Hd by done.
  assert (inject_Z (2 ^ ln) <= inject_Z n) as Hn1' by by rewrite <- Zle_Qle.
  assert (inject_Z n < inject_Z (2 ^ Z.succ ln)) as Hn2' by by rewrite <- Zlt_Qlt.
  assert (inject_Z (2 ^ ld) <= inject_Z (Zpos d)) as Hd1' by by rewrite <- Zle_Qle.
  assert (inject_Z (Zpos d) < inject_Z (2 ^ Z.succ ld)) as Hd2' by by rewrite <- Zlt_Qlt.
  rewrite <- !pow2_int in * by lia.
  split.
  - apply Qle_shift_div_l; [done|].
    apply Qle_trans with (2 ^ (ln - ld - 1) * 2 ^ Z.succ ld).
    + apply Qmult_le_l; [apply pow2_pos|]. by apply Qlt_le_weak.
    + rewrite <- pow2_plus. replace (ln - ld - 1 + Z.succ ld)%Z with ln by lia. done.
  - apply Qlt_shift_div_r; [done|].
    apply Qlt_le_trans with (2 ^ Z.succ ln); [done|].
    apply Qle_trans with (2 ^ (ln - ld + 1) * 2 ^ ld).
    + rewrite <- pow2_plus. replace (ln - ld + 1 + ld)%Z with (Z.succ ln) by lia. apply Qle_refl.
    + apply Qmult_le_l; [apply pow2_pos|done].
Qed.

Lemma exponent_spec x : 0 < x -> 2 ^ (52 + exponent x) <= x < 2 ^ (53 + exponent x).
Proof.
  intros Hx. pose proof (exponent_rough x Hx) as H. simpl in H. unfold exponent.
  set (e := (Z.log2 (Qnum x) - Z.log2 (QDen x))%Z) in *.
  destruct (Qle_bool (2 ^ e) x) eqn:E.
  - apply Qle_bool_iff in E.
    replace (52 + (e - 52))%Z with e by lia. replace (53 + (e - 52))%Z with (e + 1)%Z by lia. tauto.
  - assert (x < 2 ^ e) as E' by (apply Qnot_le_lt; rewrite <- Qle_bool_iff; congruence).
    replace (52 + (e - 53))%Z with (e - 1)%Z by lia. replace (53 + (e - 53))%Z with e by lia. tauto.
Qed.

Lemma exponent_mono x y : 0 < x -> x <= y -> (exponent x <= exponent y)%Z.
Proof.
  intros Hx Hxy. pose proof (exponent_spec x Hx). pose proof (exponent_spec y ltac:(lra)).
  assert (52 + exponent x < 53 + exponent y)%Z by (apply pow2_lt_inv; lra). lia.
Qed.

(** The significand lies between [2^52] and [2^53]. *)
Lemma significand_bounds x :
  0 < x -> let k := exponent x in (2 ^ 52 <= rne (x / 2 ^ k) <= 2 ^ 53)%Z.
Proof.
  intros Hx k. pose proof (exponent_spec x Hx) as [H1 H2]. fold k in H1, H2.
  rewrite <- (rne_int (2 ^ 52)), <- (rne_int (2 ^ 53)).
  split; apply rne_mono.
  - apply Qle_shift_div_l; [apply pow2_pos|]. rewrite <- pow2_int, <- pow2_plus by lia. done.
  - apply Qle_shift_div_r; [apply pow2_pos|]. rewrite <- pow2_int, <- pow2_plus by lia. lra.
Qed.

(** ** Rounding is monotone and exact on representable values *)

Lemma round_pos_mono x y : 0 < x -> x <= y -> round_pos x <= round_pos y.
Proof.
  intros Hx Hxy. assert (0 < y) as Hy by lra.
  pose proof (exponent_mono x y Hx Hxy) as Hk. unfold round_pos.
  destruct (decide (exponent x = exponent y)) as [E|E].
  - rewrite E. apply Qmult_le_compat_r; [|apply Qlt_le_weak, pow2_pos].
    rewrite <- Zle_Qle. apply rne_mono. apply Qmult_le_compat_r; [done|].
    apply Qinv_le_0_compat, Qlt_le_weak, pow2_pos.
  - pose proof (significand_bounds x Hx) as [_ H1]. pose proof (significand_bounds y Hy) as [H2 _].
    rewrite Zle_Qle in H1, H2. rewrite <- pow2_int in H1, H2 by lia.
    apply Qle_trans with (2 ^ 53 * 2 ^ exponent x).
    { apply Qmult_le_compat_r; [done|apply Qlt_le_weak, pow2_pos]. }
    apply Qle_trans with (2 ^ 52 * 2 ^ exponent y).
    { rewrite <- !pow2_plus. apply pow2_le. lia. }
    apply Qmult_le_compat_r; [done|apply Qlt_le_weak, pow2_pos].
Qed.

Lemma round_pos_pos x : 0 < x -> 0 < round_pos x.
Proof.
  intros Hx. unfold round_pos. apply Qmult_lt_0_compat; [|apply pow2_pos].
  pose proof (significand_bounds x Hx) as [H _]. rewrite Zle_Qle in H. eapply Qlt_le_trans; [|exact H]. done.
Qed.

Lemma num_sign x : match Qnum x with Z0 => x == 0 | Zpos _ => 0 < x | Zneg _ => x < 0 end.
Proof. destruct x as [[|p|p] d]; unfold Qlt, Qeq; simpl; lia. Qed.

Lemma round_nonneg_eq x : 0 < x -> round x = round_pos x.
Proof.
  intros Hx. unfold round. pose proof (num_sign x) as Hs.
  destruct (Qnum x); [exfalso; lra|done|exfalso; lra].
Qed.

Lemma round_mono_nonneg x y : 0 <= x -> x <= y -> round x <= round y.
Proof.
  intros Hx Hxy. unfold round at 1. pose proof (num_sign x) as Hs. destruct (Qnum x).
  - destruct (Qlt_le_dec 0 y) as [Hy|Hy].
    + rewrite round_nonneg_eq by done. apply Qlt_le_weak. by apply round_pos_pos.
    + unfold round. pose proof (num_sign y) as Hs'. destruct (Qnum y); [lra|lra|exfalso; lra].
  - rewrite round_nonneg_eq by lra. by apply round_pos_mono.
  - exfalso. lra.
Qed.

Lemma round_nonneg x : 0 <= x -> 0 <= round x.
Proof. intros H. change 0 with (round 0). apply round_mono_nonneg; [apply Qle_refl|done]. Qed.

(** A positive value whose scaled significand is an integer is unchanged. *)
Lemma round_exact x z : 0 < x -> x == inject_Z z * 2 ^ exponent x -> round x == x.
Proof.
  intros Hx E. rewrite round_nonneg_eq by done. unfold round_pos.
  assert (x / 2 ^ exponent x == inject_Z z) as Hz.
  { rewrite E at 1. apply Qdiv_mult_l. pose proof (pow2_pos (exponent x)). lra. }
  rewrite Hz, rne_int. by symmetry.
Qed.

(** Integers up to [2^53] are exact. *)
Lemma of_int_exact n : (0 <= n <= 2 ^ 53)%Z -> of_int n == inject_Z n.
Proof.
  intros Hn. unfold of_int. destruct (decide (n = 0%Z)) as [->|Hn0]; [done|].
  assert (0 < inject_Z n) as Hx by (rewrite <- (Zlt_Qlt 0); lia).
  pose proof (exponent_spec _ Hx) as [H1 H2]. set (k := exponent (inject_Z n)) in *.
  assert (k <= 1)%Z as Hk.
  { assert (52 + k < 54)%Z; [|lia]. apply pow2_lt_inv. eapply Qle_lt_trans; [exact H1|].
    rewrite pow2_int by lia. rewrite <- Zlt_Qlt. lia. }
  destruct (decide (k = 1%Z)) as [Ek|Ek].
  - apply (round_exact _ (2 ^ 52)); [done|]. fold k. rewrite Ek in *.
    assert (n = 2 ^ 53)%Z as ->; [|done].
    rewrite pow2_int, <- Zle_Qle in H1 by lia. lia.
  - apply (round_exact _ (n * 2 ^ (- k))); [done|]. fold k.
    rewrite inject_Z_mult, <- pow2_int, <- Qmult_assoc, <- pow2_plus by lia.
    replace (- k + k)%Z with 0%Z by lia. simpl. by rewrite Qmult_1_r.
Qed.

Lemma fmul_mono_l x y z : 0 <= x -> 0 <= y -> y <= z -> fmul x y <= fmul x z.
Proof.
  intros Hx Hy Hyz. apply round_mono_nonneg; [by apply Qmult_le_0_compat|].
  rewrite !(Qmult_comm x). by apply Qmult_le_compat_r.
Qed.

Lemma fadd_mono_l x y z : 0 <= x -> 0 <= y -> y <= z -> fadd x y <= fadd x z.
Proof. intros. apply round_mono_nonneg; lra. Qed.

Lemma flt_spec x y : flt x y = true <-> x < y.
Proof.
  unfold flt. rewrite negb_true_iff. split.
  - intros H. apply Qnot_le_lt. rewrite <- Qle_bool_iff. congruence.
  - intros H. apply Qlt_not_le in H. rewrite <- Qle_bool_iff in H. by destruct (Qle_bool y x).
Qed.

Lemma trunc_mono_nonneg x y : 0 <= x -> x <= y -> (trunc x <= trunc y)%Z.
Proof.
  intros Hx Hxy. unfold trunc.
  destruct (flt x 0) eqn:E1; [apply flt_spec in E1; exfalso; lra|].
  destruct (flt y 0) eqn:E2; [apply flt_spec in E2; exfalso; lra|].
  by apply Qfloor_resp_le.
Qed.

(** Rounding is odd. *)
Lemma round_neg x : x < 0 -> round x == - round (- x).
Proof.
  intros Hx. rewrite (round_nonneg_eq (- x)) by lra. unfold round. pose proof (num_sign x) as Hs.
  destruct (Qnum x); [exfalso; lra|exfalso; lra|apply Qeq_refl].
Qed.

Lemma round_unit x : -1 <= x <= 1 -> -1 <= round x <= 1.
Proof.
  intros Hx. assert (round 1 == 1) as E1 by (apply Qeq_bool_iff; by vm_compute).
  destruct (Qlt_le_dec x 0) as [Hneg|Hpos].
  - pose proof (round_mono_nonneg (- x) 1 ltac:(lra) ltac:(lra)) as H1.
    pose proof (round_nonneg (- x) ltac:(lra)) as H2. rewrite (round_neg x Hneg). lra.
  - pose proof (round_mono_nonneg x 1 Hpos ltac:(lra)) as H1.
    pose proof (round_nonneg x Hpos) as H2. lra.
Qed.

Lemma trunc_nonneg x : 0 <= x -> trunc x = Qfloor x.
Proof.
  intros Hx. unfold trunc. destruct (flt x 0) eqn:E; [|done]. apply flt_spec in E. exfalso. lra.
Qed.

#[global] Instance flt_proper : Proper (Qeq ==> Qeq ==> eq) flt.
Proof. intros x x' Hx y y' Hy. unfold flt. by rewrite Hx, Hy. Qed.

#[global] Instance trunc_proper : Proper (Qeq ==> eq) trunc.
Proof. intros x x' Hx. unfold trunc. rewrite (flt_proper x x' Hx 0 0 (Qeq_refl 0)).
  destruct (flt x' 0); [f_equal|]; apply Qfloor_comp; by rewrite Hx.
Qed.

(** A product with a factor in [-1, 1] truncates between the extremes. *)
Lemma trunc_fmul_unit a x :
  0 <= a -> -1 <= x <= 1 -> (- trunc (fmul a 1) <= trunc (fmul a x) <= trunc (fmul a 1))%Z.
Proof.
  intros Ha Hx.
  assert (0 <= fmul a 1) as H1 by (apply round_nonneg; lra).
  rewrite (trunc_nonneg (fmul a 1)) by done.
  assert (forall y, 0 <= y <= a -> 0 <= round y <= fmul a 1) as Hmono.
  { intros y Hy. split; [apply round_nonneg; lra|]. unfold fmul. apply round_mono_nonneg; lra. }
  destruct (Qlt_le_dec (a * x) 0) as [Hneg|Hpos].
  - assert (fmul a x == - round (- (a * x))) as E by by apply round_neg.
    destruct (Hmono (- (a * x))) as [H2 H3]; [nra|].
    rewrite E. unfold trunc at 1 2. set (y := round (- (a * x))) in *.
    assert ((Qfloor y <= Qfloor (fmul a 1))%Z) as Hf by by apply Qfloor_resp_le.
    assert ((0 <= Qfloor y)%Z) as Hf0 by (rewrite <- (Qfloor_Z 0); by apply Qfloor_resp_le).
    destruct (flt (- y) 0) eqn:Ef.
    + assert (- - y == y) as -> by lra. lia.
    + assert (y == 0) as Ey.
      { apply Qle_antisym; [|done]. apply Qnot_lt_le. intros Hy.
        assert (flt (- y) 0 = true); [|congruence]. apply flt_spec. lra. }
      assert (- y == inject_Z 0) as -> by (rewrite Ey; reflexivity). rewrite Qfloor_Z. lia.
  - destruct (Hmono (a * x)) as [H2 H3]; [nra|]. fold (fmul a x) in H2, H3.
    rewrite trunc_nonneg by done.
    assert ((Qfloor (fmul a x) <= Qfloor (fmul a 1))%Z) as Hf by by apply Qfloor_resp_le.
    assert ((0 <= Qfloor (fmul a x))%Z) as Hf0 by (rewrite <- (Qfloor_Z 0); by apply Qfloor_resp_le).
    lia.
Qed.

#[export] Hint Resolve pow2_pos round_nonneg : subsync.
