(* ===== verification/Domain.v ===== *)
(** * Domain data

    The value types of [internal/domain]: media files, provider candidates,
    packs and scores, and the language rules of [language.go]. *)
From S2P Require Import Prelude GoText GoFloat.

(** ** Enumerations

    The source's string constants; [KindUnset] is the empty [MediaKind] of a
    candidate whose provider did not name one. *)

Inductive MediaKind := KindUnset | MediaMovie | MediaEpisode.
Inductive PackScope := ScopeUnset | PackSeason | PackRange.

#[export] Instance MediaKind_eq_dec : EqDecision MediaKind.
Proof. solve_decision. Defined.
#[export] Instance PackScope_eq_dec : EqDecision PackScope.
Proof. solve_decision. Defined.
#[export] Instance MediaKind_countable : Countable MediaKind.
Proof.
  refine {| encode k := match k with KindUnset => 1 | MediaMovie => 2 | MediaEpisode => 3 end%positive;
            decode p := match p with 1 => Some KindUnset | 2 => Some MediaMovie
                                   | 3 => Some MediaEpisode | _ => None end%positive |}.
  by intros [].
Defined.

Abbreviation Language := text.

(** ** Records *)

Record ExternalIDs := mkExternalIDs { IMDb : text; TMDB : Z; TVDB : Z }.
Record MediaRef := mkMediaRef { Instance_ : text; RefKind : MediaKind; RefFileID : Z }.
Record MediaFingerprint := mkFingerprint {
  FpPath : text; FpFileID : Z; FpSize : Z; FpModTime : instant;
}.

#[export] Instance ExternalIDs_eq_dec : EqDecision ExternalIDs.
Proof. solve_decision. Defined.
#[export] Instance MediaRef_eq_dec : EqDecision MediaRef.
Proof. solve_decision. Defined.
#[export] Instance MediaFingerprint_eq_dec : EqDecision MediaFingerprint.
Proof. solve_decision. Defined.

Definition UnsupportedMultiEpisode : text := t "unsupported_multi_episode".
(** [EpisodeEnd] of a file that was read again and stays unsupported. *)
Definition CheckedUnsupportedEpisodeEnd : Z := -1.

Record Media := mkMedia {
  SeriesID : Z;
  EntityID : Z;
  MRef : MediaRef;
  Fingerprint : MediaFingerprint;
  MTitle : text;
  EpisodeTitle : text;
  MAlternateTitles : list text;
  MYear : Z;
  MSeason : Z;
  MEpisode : Z;
  MAbsoluteEpisode : Z;
  EpisodeEnd : Z;
  AbsoluteEpisodeEnd : Z;
  MExternalIDs : ExternalIDs;
  OriginalFilename : text;
  ReleaseName : text;
  ReleaseGroup : text;
  Source : text;
  Resolution : text;
  StreamingService : text;
  Edition : text;
  Quality : text;
  MDuration : duration;
  Unsupported : text;
  ReleasedAt : instant;
  SeriesType : text;
}.

(** [Media{}]. *)
Definition no_media : Media :=
  (mkMedia 0 0 (mkMediaRef [] KindUnset 0) (mkFingerprint [] 0 0 zero_time) [] [] [] 0 0 0 0 0 0 (mkExternalIDs [] 0 0) [] [] [] [] [] [] [] [] 0
     [] zero_time [])%Z.

Record PackMemberRef := mkMemberRef {
  RefID : text;
  RefFilename : text;
  RefDownload : text;
  RefSeason : Z;
  RefEpisode : Z;
  RefAbsolute : Z;
}.

Record PackInfo := mkPackInfo {
  Scope : PackScope;
  PSeason : Z;
  EpisodeFrom : Z;
  EpisodeTo : Z;
  AbsoluteFrom : Z;
  AbsoluteTo : Z;
  DirectMembers : list PackMemberRef;
}.

Record Candidate := mkCandidate {
  ProviderID : text;
  ResultID : text;
  CLanguage : Language;
  Kind : MediaKind;
  CTitle : text;
  CAlternateTitles : list text;
  EvidenceVersion : text;
  CYear : Z;
  CSeason : Z;
  CEpisode : Z;
  CAbsoluteEpisode : Z;
  CExternalIDs : ExternalIDs;
  ReleaseNames : list text;
  ReleaseGroups : list text;
  Resolutions : list text;
  ExactHash : bool;
  Forced : bool;
  HearingImpaired : bool;
  Rating : float64;
  Popularity : float64;
  DownloadCount : Z;
  DownloadRef : text;
  DownloadVersion : text;
  Pack : option PackInfo;
  ReleaseNumbered : bool;
}.

Record Contribution := mkContribution { Signal : text; Points : Z; Reason : text }.
Record Score := mkScore {
  Total : Z;
  Contributions : list Contribution;
  RejectedReasons : list text;
}.

(** ** Media predicates *)

Definition SeriesTypeAnime : text := t "anime".
Definition Anime (m : Media) : bool := bool_decide (SeriesType m = SeriesTypeAnime).

Definition IsEpisodeRange (m : Media) : bool :=
  bool_decide (RefKind (MRef m) = MediaEpisode)
  && (MEpisode m <? EpisodeEnd m)%Z && (0 <? MEpisode m)%Z.

(** [media.Season, media.Episode = season, episode] on a copy. *)
Definition with_numbering (m : Media) (season episode : Z) : Media :=
  {| SeriesID := SeriesID m; EntityID := EntityID m; MRef := MRef m; Fingerprint := Fingerprint m;
     MTitle := MTitle m; EpisodeTitle := EpisodeTitle m; MAlternateTitles := MAlternateTitles m;
     MYear := MYear m; MSeason := season; MEpisode := episode;
     MAbsoluteEpisode := MAbsoluteEpisode m; EpisodeEnd := EpisodeEnd m;
     AbsoluteEpisodeEnd := AbsoluteEpisodeEnd m; MExternalIDs := MExternalIDs m;
     OriginalFilename := OriginalFilename m; ReleaseName := ReleaseName m;
     ReleaseGroup := ReleaseGroup m; Source := Source m; Resolution := Resolution m;
     StreamingService := StreamingService m; Edition := Edition m; Quality := Quality m;
     MDuration := MDuration m; Unsupported := Unsupported m; ReleasedAt := ReleasedAt m;
     SeriesType := SeriesType m |}.

(** ** Languages *)

(** [language.Parse] followed by [Tag.String]: the canonical form of a BCP 47
    tag, [und] for the undetermined language, nothing on a parse error. *)
Class LanguageTags := { canonical_tag : text -> option text }.

Inductive LanguageError := LanguageEmpty | LanguageUnderscore | LanguageParse | LanguageUndetermined.

Definition languageAliases : list (text * text) :=
  [(t "eng", t "en"); (t "hrv", t "hr"); (t "scr", t "hr"); (t "srp", t "sr"); (t "bos", t "bs")].

Fixpoint assoc {A} (k : text) (l : list (text * A)) : option A :=
  match l with
  | [] => None
  | (k', v) :: l' => if bool_decide (k = k') then Some v else assoc k l'
  end.

Section language.
Context `{Unicode, LanguageTags}.

Definition ParseLanguage (raw : text) : result LanguageError Language :=
  let value := trim_space raw in
  let value := default value (assoc (to_lower value) languageAliases) in
  if bool_decide (value = []) then Err LanguageEmpty
  else if contains (t "_") value then Err LanguageUnderscore
  else match canonical_tag value with
       | None => Err LanguageParse
       | Some tag => if bool_decide (tag = t "und") then Err LanguageUndetermined else Ok tag
       end.

Definition EquivalentLanguage (a b : Language) : bool :=
  match ParseLanguage a with
  | Err _ => false
  | Ok left_ =>
      match ParseLanguage b with
      | Err _ => false
      | Ok right_ => bool_decide (left_ = right_)
      end
  end.

Definition TrackCoversLanguage (trackLanguage : Language) (forced hearingImpaired : bool)
    (want : Language) (allowHearingImpaired : bool) : bool :=
  if bool_decide (trackLanguage = []) || forced || negb (EquivalentLanguage trackLanguage want)
  then false
  else negb hearingImpaired || allowHearingImpaired.
End language.

(** A small table of tags for the examples. *)
Definition sample_tags : LanguageTags :=
  {| canonical_tag s :=
       if existsb (fun x => bool_decide (x = to_lower s)) [t "en"; t "hr"; t "sr"; t "bs"; t "und"]
       then Some (to_lower s) else None |}.

(** ** Lemmas *)

Section language_lemmas.
Context `{Unicode, LanguageTags}.

Lemma EquivalentLanguage_spec a b :
  EquivalentLanguage a b = true <-> exists l, ParseLanguage a = Ok l /\ ParseLanguage b = Ok l.
Proof.
  unfold EquivalentLanguage. split.
  - destruct (ParseLanguage a), (ParseLanguage b); try done.
    intros E%bool_decide_eq_true. subst. eauto.
  - intros (l & -> & ->). by apply bool_decide_eq_true.
Qed.

Lemma EquivalentLanguage_sym a b : EquivalentLanguage a b = EquivalentLanguage b a.
Proof. apply eq_iff_eq_true. rewrite !EquivalentLanguage_spec. split; intros (l & ? & ?); eauto. Qed.

Lemma EquivalentLanguage_trans a b c :
  EquivalentLanguage a b = true -> EquivalentLanguage b c = true -> EquivalentLanguage a c = true.
Proof.
  rewrite !EquivalentLanguage_spec. intros (l & Ha & Hb) (l' & Hb' & Hc).
  rewrite Hb in Hb'. simplify_eq. eauto.
Qed.
End language_lemmas.
