(* ===== verification/SearchQueue.v ===== *)
(** * The search queue

    The [search_states] table of [internal/store] and the transactions that
    move a search through it: scheduling, leasing, claiming, renewal,
    completion, cancellation. One row per media file and language; a row is
    owned by at most one job, named in [lease_owner], until [lease_until_ns].

    A transaction is a function of the database; an error leaves the database
    as it was (the deferred rollback). Random job ids are an argument. *)
From S2P Require Import Prelude GoText Domain.

#[local] Open Scope Z_scope.

(** ** Rows *)

Inductive SearchState := StatePending | StateComplete.
#[export] Instance SearchState_eq_dec : EqDecision SearchState.
Proof. solve_decision. Defined.

Definition SearchPriorityUpgrade : Z := 100.
Definition SearchPriorityMissing : Z := 200.
Definition SearchPriorityImport : Z := 300.

Definition validSearchPriority (p : Z) : bool :=
  (p =? SearchPriorityUpgrade) || (p =? SearchPriorityMissing) || (p =? SearchPriorityImport).

(** The [resume_providers_json] column: a JSON array of strings, or text that
    does not decode to one. *)
Inductive ResumeJSON := ResumeList (providers : list text) | ResumeMalformed (raw : text).

Record Resume := mkResume {
  resume_providers_json : ResumeJSON;
  resume_route_signature : text;
  resume_saved_at_ns : Z;
}.

(** The columns the insert trigger copies from the media row. *)
Record QueueOrder := mkQueueOrder {
  instance_rank : Z; sort_title : text; sort_series : Z; sort_season : Z; sort_episode : Z;
}.

Record search_row := mkRow {
  state : SearchState;
  attempt : Z;
  failure_attempt : Z;
  next_attempt_at_ns : Z;
  queue_order_ns : Z;
  last_outcome : text;
  lease_owner : option text;
  lease_until_ns : option Z;
  priority : Z;
  rerun_requested : bool;
  replace_installed : bool;
  resume : Resume;
  order_key : QueueOrder;
}.

Record media_row := mkMediaRow {
  deleted : bool;
  media_instance : text;
  media_kind : MediaKind;
  media_episode : Z;
  media_episode_end : Z;
  unsupported_reason : text;
  media_fingerprint : MediaFingerprint;
  media_order : QueueOrder;
}.

Record HistoryDetail := mkHistoryDetail {
  h_title : text; h_provider : text; h_release : text; h_reason : text; h_manual : bool;
}.
Record history_row := mkHistoryRow {
  h_media : Z; h_language : Language; h_outcome : text; h_detail : HistoryDetail; h_finished_at : Z;
}.

Abbreviation search_key := (Z * Language)%type.

Record DB := mkDB {
  media : gmap Z media_row;
  searches : gmap search_key search_row;
  history : list history_row;
}.

Definition set_searches (db : DB) (s : gmap search_key search_row) : DB :=
  mkDB (media db) s (history db).

(** ** Column updates *)

Definition no_resume : Resume := mkResume (ResumeList []) [] 0.

(** [resume_providers_json='[]', resume_route_signature='']. *)
Definition clear_resume (r : Resume) : Resume := mkResume (ResumeList []) [] (resume_saved_at_ns r).

Definition with_lease (owner : option text) (until : option Z) (rerun : bool) (r : search_row) : search_row :=
  mkRow (state r) (attempt r) (failure_attempt r) (next_attempt_at_ns r) (queue_order_ns r)
    (last_outcome r) owner until (priority r) rerun (replace_installed r) (resume r) (order_key r).

Definition with_resume (z : Resume) (r : search_row) : search_row :=
  mkRow (state r) (attempt r) (failure_attempt r) (next_attempt_at_ns r) (queue_order_ns r)
    (last_outcome r) (lease_owner r) (lease_until_ns r) (priority r) (rerun_requested r)
    (replace_installed r) z (order_key r).

Definition with_order (o : QueueOrder) (r : search_row) : search_row :=
  mkRow (state r) (attempt r) (failure_attempt r) (next_attempt_at_ns r) (queue_order_ns r)
    (last_outcome r) (lease_owner r) (lease_until_ns r) (priority r) (rerun_requested r)
    (replace_installed r) (resume r) o.

(** [lease_until_ns IS NULL OR lease_until_ns <= now]. *)
Definition unleased (now : Z) (r : search_row) : bool :=
  match lease_until_ns r with None => true | Some u => u <=? now end.

(** [UPDATE search_states SET f WHERE lease_owner = id]. *)
Definition owned_by (id : text) (r : search_row) : bool := bool_decide (lease_owner r = Some id).
Definition update_owned (id : text) (f : search_row -> search_row) (db : DB) : DB :=
  set_searches db ((fun r => if owned_by id r then f r else r) <$> searches db).
Definition owned_keys (id : text) (db : DB) : list (search_key * search_row) :=
  base.filter (fun kr => owned_by id (snd kr) = true) (map_to_list (searches db)).

(** ** Errors and results *)

Inductive QueueError :=
| InvalidPriority | InvalidUnsupported | LeaseArguments | LeaseNotFound | InvalidResume
| NoRandomID | MediaNotFound | UpgradeWithoutTime | RejectionLease.

Record SearchLease := mkLease {
  lease_key : search_key;
  lease_job : text;
  lease_attempt : Z;
  lease_failure_attempt : Z;
  lease_expiry : Z;
  lease_priority : Z;
  lease_resume_providers : list text;
  lease_resume_signature : text;
  lease_resume_saved_at : Z;
  lease_replace_installed : bool;
}.

Record SearchCompletion := mkCompletion {
  JobID : text;
  Outcome : text;
  NextAttemptAt : instant;
  AdvanceMissingAttempt : bool;
  AdvanceUpgradeAttempt : bool;
  AdvanceFailureAttempt : bool;
  ResetMissingAttempt : bool;
  MissingAttemptFloor : Z;
  ResetFailureAttempt : bool;
  CPriority : Z;
  ResumeProviders : list text;
  ResumeRouteSignature : text;
  PreserveResume : bool;
  ResumeSavedAt : instant;
  PreserveQueueOrder : bool;
  CHistory : option HistoryDetail;
  FinishedAt : instant;
  ClearReplaceInstalled : bool;
}.

Record SearchCompletionResult := mkCompletionResult {
  RerunScheduled : bool;
  ResumeProviderCount : Z;
}.

Record RouteKey := mkRouteKey { RLanguage : Language; RKind : MediaKind; RangesOnly : bool }.

#[export] Instance RouteKey_eq_dec : EqDecision RouteKey.
Proof. solve_decision. Defined.

(** ** Resume lists *)

(** The length of a JSON string as [encoding/json] writes it. *)
Definition json_rune_len (r : rune) : Z :=
  if one_of [34; 92; 8; 9; 10; 12; 13]%N r then 2
  else if ((r <? 32) || one_of [38; 60; 62; 8232; 8233] r)%N then 6
  else Z.of_nat (length (utf8 r)).
Definition json_string_len (s : text) : Z := 2 + foldr (fun r n => json_rune_len r + n) 0 s.
Definition json_list_len (l : list text) : Z :=
  2 + foldr (fun s n => json_string_len s + n) 0 l + Z.of_nat (length l - 1).

Definition json_len (j : ResumeJSON) : Z :=
  match j with ResumeList l => json_list_len l | ResumeMalformed raw => byte_len raw end.

Section resume.
Context `{Unicode}.

(** No provider id is blank and none is repeated. *)
Fixpoint validateResumeProviders (seen providers : list text) : bool :=
  match providers with
  | [] => true
  | id :: rest =>
      negb (bool_decide (trim_space id = [])) && negb (bool_decide (id ∈ seen))
      && validateResumeProviders (id :: seen) rest
  end.

Definition decodeResumeProviders (j : ResumeJSON) : result QueueError (list text) :=
  match j with
  | ResumeMalformed _ => Err InvalidResume
  | ResumeList l => if validateResumeProviders [] l then Ok l else Err InvalidResume
  end.

Definition encodeResumeProviders (l : list text) : result QueueError ResumeJSON :=
  if validateResumeProviders [] l then Ok (ResumeList l) else Err InvalidResume.
End resume.

Record providerResumeBound := mkBound {
  bound_signature : text; bound_json_bytes : Z; bound_providers : gset text;
}.

(** The claim policy of a repository handle. *)
Record Repository := mkRepository {
  searchScope : option (list text * list Language);
  resumeRoutes : option (gmap Language providerResumeBound);
}.

(** The eight-byte big-endian length of [ProviderResumeSignature]'s parts. *)
Definition be64 (n : N) : list N :=
  map (fun i => N.land (N.shiftr n (8 * N.of_nat i)) 255) [7; 6; 5; 4; 3; 2; 1; 0]%nat.

Definition resume_parts (route : text) (f : MediaFingerprint) : list text :=
  [t "provider-resume-v1"; route; FpPath f; itoa (FpFileID f); itoa (FpSize f); itoa (FpModTime f)].

Definition resume_preimage (parts : list text) : list N :=
  concat (map (fun p => be64 (N.of_nat (length (bytes_of p))) ++ bytes_of p) parts).

(** ** Leasing *)

Section repository.
Context `{Unicode}.
(** Hexadecimal SHA-256 of a byte string. *)
Context (sha256_hex : list N -> text).
Context (repo : Repository).

Definition ProviderResumeSignature (route : text) (f : MediaFingerprint) : text :=
  sha256_hex (resume_preimage (resume_parts route f)).

Definition currentResumeScope (language : Language) (f : MediaFingerprint) (signature : text) : bool :=
  match resumeRoutes repo with
  | None => true
  | Some routes =>
      match routes !! language with
      | None => false
      | Some b => bool_decide (signature = ProviderResumeSignature (bound_signature b) f)
      end
  end.

Definition decodeSearchResume (language : Language) (j : ResumeJSON) : result QueueError (list text) :=
  let bound := match resumeRoutes repo with None => None | Some routes => routes !! language end in
  match bound with
  | None => decodeResumeProviders j
  | Some b =>
      if bound_json_bytes b <? json_len j then Err InvalidResume
      else
        let! providers := decodeResumeProviders j in
        if (size (bound_providers b) <? length providers)%nat then Err InvalidResume
        else if forallb (fun id => bool_decide (id ∈ bound_providers b)) providers then Ok providers
        else Err InvalidResume
  end.

Definition ResumeProvidersMaxAge : duration := 14 * 24 * hour.

(** The route conditions of the lease query. *)
Definition route_paused (m : media_row) (language : Language) (route : RouteKey) : bool :=
  bool_decide (language = RLanguage route) && bool_decide (media_kind m = RKind route)
  && (negb (RangesOnly route) || (media_episode m <? media_episode_end m)).

Definition in_scope (m : media_row) (language : Language) : bool :=
  match searchScope repo with
  | None => true
  | Some (instances, languages) =>
      existsb (fun i => bool_decide (media_instance m = i)) instances
      && existsb (fun l => bool_decide (language = l)) languages
  end.

(** The WHERE clause of [LeaseDueSearchesExcept]. *)
Definition due (now : Z) (paused : list RouteKey) (db : DB) (kr : search_key * search_row) : bool :=
  let '(k, r) := kr in
  match media db !! fst k with
  | None => false
  | Some m =>
      negb (deleted m) && bool_decide (state r = StatePending) && (next_attempt_at_ns r <=? now)
      && unleased now r && in_scope m (snd k)
      && negb (existsb (route_paused m (snd k)) paused)
  end.

(** Its ORDER BY clause. *)
Definition lease_order : search_key * search_row -> search_key * search_row -> comparison :=
  lex (desc (fun kr => priority (snd kr)) Z.compare)
  (lex (desc (fun kr => instance_rank (order_key (snd kr))) Z.compare)
  (lex (asc (fun kr => queue_order_ns (snd kr)) Z.compare)
  (lex (asc (fun kr => next_attempt_at_ns (snd kr)) Z.compare)
  (lex (asc (fun kr => sort_title (order_key (snd kr))) text_compare)
  (lex (asc (fun kr => sort_series (order_key (snd kr))) Z.compare)
  (lex (asc (fun kr => sort_season (order_key (snd kr))) Z.compare)
  (lex (asc (fun kr => sort_episode (order_key (snd kr))) Z.compare)
  (lex (asc (fun kr => fst (fst kr)) Z.compare)
       (asc (fun kr => snd (fst kr)) text_compare))))))))).

Definition due_rows (now : Z) (limit : nat) (paused : list RouteKey) (db : DB)
    : list (search_key * search_row) :=
  take limit (stable_sort (less_of lease_order)
    (base.filter (fun kr => due now paused db kr = true) (map_to_list (searches db)))).

(** What the lease reports of a row's saved provider progress, and whether
    the stored list was malformed. A list without a date, older than the cap
    or of another route or file is not reused. *)
Definition leased_resume (now : Z) (m : media_row) (language : Language) (z : Resume)
    : (list text * text * instant) * bool :=
  let expired := (resume_saved_at_ns z =? 0)
    || (ResumeProvidersMaxAge <=? time_sub now (resume_saved_at_ns z)) in
  let '(json, signature, saved) :=
    if expired || negb (currentResumeScope language (media_fingerprint m) (resume_route_signature z))
    then (ResumeList [], [], zero_time)
    else (resume_providers_json z, resume_route_signature z, resume_saved_at_ns z) in
  match decodeSearchResume language json with
  | Ok providers => ((providers, signature, saved), false)
  | Err _ => (([], [], zero_time), true)
  end.

(** One iteration of the claim loop. *)
Definition claim_due (now until : Z) (id : text) (kr : search_key * search_row) (db : DB)
    : DB * list SearchLease :=
  let '(k, r) := kr in
  match media db !! fst k with
  | None => (db, [])
  | Some m =>
      let '((providers, signature, saved), malformed) := leased_resume now m (snd k) (resume r) in
      let db := if malformed
                then set_searches db (alter (with_resume no_resume) k (searches db)) else db in
      match searches db !! k with
      | Some current =>
          if unleased now current then
            (set_searches db (<[k := with_lease (Some id) (Some until) false current]> (searches db)),
             [mkLease k id (attempt r) (failure_attempt r) until (priority r)
                providers signature saved (replace_installed r)])
          else (db, [])
      | None => (db, [])
      end
  end.

Fixpoint claim_all (now until : Z) (ids : list text) (rows : list (search_key * search_row)) (db : DB)
    {struct rows} : result QueueError (DB * list SearchLease) :=
  match rows with
  | [] => Ok (db, [])
  | kr :: rows =>
      match ids with
      | [] => Err NoRandomID
      | id :: ids =>
          let '(db, leased) := claim_due now until id kr db in
          let! (db, rest) := claim_all now until ids rows db in
          Ok (db, leased ++ rest)
      end
  end.

Definition LeaseDueSearchesExcept (now : instant) (limit : Z) (d : duration) (paused : list RouteKey)
    (ids : list text) (db : DB) : result QueueError (DB * list SearchLease) :=
  if (limit <=? 0) || (d <=? 0) then Err LeaseArguments
  else
    match searchScope repo with
    | Some (instances, languages) =>
        if (length instances =? 0)%nat || (length languages =? 0)%nat then Ok (db, [])
        else claim_all now (now + d) ids (due_rows now (Z.to_nat limit) paused db) db
    | None => claim_all now (now + d) ids (due_rows now (Z.to_nat limit) paused db) db
    end.

Definition LeaseDueSearches (now : instant) (limit : Z) (d : duration) (ids : list text) (db : DB) :=
  LeaseDueSearchesExcept now limit d [] ids db.

(** ** Holding and ending a lease *)

Definition requireOneRow (db' : DB) (rows : list (search_key * search_row)) : result QueueError DB :=
  match rows with [_] => Ok db' | _ => Err LeaseNotFound end.

Definition RenewSearchLease (job : text) (now : instant) (d : duration) (db : DB)
    : result QueueError DB :=
  if bool_decide (job = []) || (d <=? 0) then Err LeaseArguments
  else
    requireOneRow
      (update_owned job (fun r => with_lease (lease_owner r) (Some (now + d)) (rerun_requested r) r) db)
      (owned_keys job db).

Definition ReleaseSearchLease (job : text) (db : DB) : result QueueError DB :=
  if bool_decide (job = []) then Err LeaseArguments
  else Ok (update_owned job (with_lease None None false) db).

Definition bump (b : bool) : Z := if b then 1 else 0.

(** The row a completion writes for media that still exists. *)
Definition completed_row (c : SearchCompletion) (saved : Resume) (r : search_row) : search_row :=
  let done := is_zero (NextAttemptAt c) in
  let next := if done then 0 else NextAttemptAt c in
  let rerun := rerun_requested r in
  let advance := bump (AdvanceMissingAttempt c || AdvanceUpgradeAttempt c) in
  mkRow
    (if rerun then StatePending else if done then StateComplete else StatePending)
    (if rerun then 0
     else Z.max (MissingAttemptFloor c)
            (if ResetMissingAttempt c then advance else attempt r + advance))
    (if rerun then 0 else if ResetFailureAttempt c then 0
     else failure_attempt r + bump (AdvanceFailureAttempt c))
    (if rerun then next_attempt_at_ns r else next)
    (if rerun || PreserveQueueOrder c then queue_order_ns r else next)
    (if rerun then [] else Outcome c)
    None None
    (if rerun || (CPriority c =? 0) then priority r else CPriority c)
    false
    (if negb rerun && ClearReplaceInstalled c then false else replace_installed r)
    (if negb rerun && PreserveResume c then saved else no_resume)
    (order_key r).

(** The terminal row of a search whose media was deleted. *)
Definition deleted_row (r : search_row) : search_row :=
  mkRow StateComplete (attempt r) (failure_attempt r) 0 0 (t "deleted") None None (priority r)
    false false (clear_resume (resume r)) (order_key r).

(** [wall] is the wall clock, read for a completion that dates neither its
    history row nor its resume list. *)
Definition CompleteSearch (wall : instant) (c : SearchCompletion) (db : DB)
    : result QueueError (DB * SearchCompletionResult) :=
  if negb (CPriority c =? 0) && negb (validSearchPriority (CPriority c)) then Err InvalidPriority
  else
    match owned_keys (JobID c) db with
    | [] => Err LeaseNotFound
    | (k, r) :: others =>
        match media db !! fst k with
        | None => Err LeaseNotFound
        | Some m =>
            let preserve := PreserveResume c && negb (deleted m) && negb (rerun_requested r)
              && currentResumeScope (snd k) (media_fingerprint m) (ResumeRouteSignature c) in
            let! (saved, retained) :=
              if preserve then
                let! json := encodeResumeProviders (ResumeProviders c) in
                let! _ := decodeSearchResume (snd k) json in
                Ok (mkResume json (ResumeRouteSignature c)
                      (if is_zero (ResumeSavedAt c) then wall else ResumeSavedAt c),
                    Z.of_nat (length (ResumeProviders c)))
              else Ok (no_resume, 0) in
            let db' := update_owned (JobID c)
                         (if deleted m then deleted_row else completed_row c saved) db in
            match others with
            | _ :: _ => Err LeaseNotFound
            | [] =>
                let log :=
                  match CHistory c with
                  | Some h =>
                      if deleted m then history db'
                      else mkHistoryRow (fst k) (snd k) (Outcome c) h
                             (if is_zero (FinishedAt c) then wall else FinishedAt c) :: history db'
                  | None => history db'
                  end in
                Ok (mkDB (media db') (searches db') log,
                    mkCompletionResult (negb (deleted m) && rerun_requested r) retained)
            end
        end
    end.

(** ** Scheduling *)

Definition order_of (db : DB) (id : Z) : QueueOrder :=
  match media db !! id with Some m => media_order m | None => mkQueueOrder 0 [] 0 0 0 end.

Definition new_row (s : SearchState) (next : Z) (outcome : text) (p : Z) (o : QueueOrder) : search_row :=
  mkRow s 0 0 next next outcome None None p false false no_resume o.

Definition has_owner (r : search_row) : bool := bool_decide (is_Some (lease_owner r)).

(** The ON CONFLICT clauses of [scheduleMediaSearchTx]. *)
Definition rescheduled_row (at_ p : Z) (r : search_row) : search_row :=
  mkRow StatePending 0 0 at_ at_ [] (lease_owner r) (lease_until_ns r) (Z.max (priority r) p)
    (has_owner r) (replace_installed r) (clear_resume (resume r)) (order_key r).

Definition unsupported_row (at_ p : Z) (unsupported : text) (r : search_row) : search_row :=
  mkRow (if has_owner r then StatePending else StateComplete) 0 0
    (if has_owner r then at_ else 0) (if has_owner r then at_ else 0)
    (if has_owner r then [] else unsupported)
    (lease_owner r) (lease_until_ns r) (Z.max (priority r) p)
    (has_owner r) (replace_installed r) (clear_resume (resume r)) (order_key r).

Definition upsert (k : search_key) (fresh : search_row) (f : search_row -> search_row) (db : DB) : DB :=
  set_searches db (<[k := match searches db !! k with Some r => f r | None => fresh end]> (searches db)).

Definition validUnsupportedReason (u : text) : bool :=
  bool_decide (u = []) || bool_decide (u = t "unsupported_multi_episode").

Definition scheduleMediaSearchTx (id : Z) (language : Language) (at_ : instant) (p : Z)
    (unsupported : text) (db : DB) : result QueueError DB :=
  if negb (validSearchPriority p) then Err InvalidPriority
  else if negb (validUnsupportedReason unsupported) then Err InvalidUnsupported
  else if bool_decide (unsupported = []) then
    Ok (upsert (id, language) (new_row StatePending at_ [] p (order_of db id)) (rescheduled_row at_ p) db)
  else
    Ok (upsert (id, language) (new_row StateComplete 0 unsupported p (order_of db id))
          (unsupported_row at_ p unsupported) db).

Definition UpsertSearchStateWithPriority (id : Z) (language : Language) (next : instant) (p : Z)
    (db : DB) : result QueueError DB :=
  if negb (validSearchPriority p) then Err InvalidPriority
  else
    Ok (upsert (id, language) (new_row StatePending next [] p (order_of db id))
          (fun r => mkRow StatePending 0 0 next next (last_outcome r) None None p false
                      (replace_installed r) (clear_resume (resume r)) (order_key r)) db).

Definition ClaimSearch (id : Z) (language : Language) (job : text) (now : instant) (d : duration)
    (db : DB) : result QueueError (DB * bool) :=
  if bool_decide (job = []) || (d <=? 0) then Err LeaseArguments
  else
    let k := (id, language) in
    match searches db !! k with
    | None =>
        let fresh := new_row StatePending now [] SearchPriorityMissing (order_of db id) in
        Ok (set_searches db
              (<[k := with_lease (Some job) (Some (now + d)) false fresh]> (searches db)), true)
    | Some r =>
        if unleased now r || owned_by job r then
          Ok (set_searches db (<[k := with_lease (Some job) (Some (now + d)) false r]> (searches db)), true)
        else Ok (db, false)
    end.

(** [owner] is empty when the caller claimed nothing. *)
Definition SettlePendingSearch (id : Z) (language : Language) (outcome : text) (now : instant)
    (owner : text) (db : DB) : DB :=
  let settle r :=
    if bool_decide (state r = StatePending)
       && (unleased now r || (owned_by owner r && negb (bool_decide (owner = []))
                              && negb (rerun_requested r)))
    then mkRow StateComplete 0 0 0 0 outcome None None (priority r) false (replace_installed r)
           (clear_resume (resume r)) (order_key r)
    else r in
  set_searches db (alter settle (id, language) (searches db)).

Definition ClearSearchResume (id : Z) (language : Language) (db : DB) : DB :=
  set_searches db (alter (fun r => with_resume (clear_resume (resume r)) r) (id, language) (searches db)).

(** The WHERE clause of [EnsureUpgradeSearch]'s update. *)
Definition upgradable (next : Z) (r : search_row) : bool :=
  bool_decide (lease_owner r = None) && bool_decide (lease_until_ns r = None)
  && (bool_decide (state r = StateComplete)
      || (bool_decide (state r = StatePending) && (next <? next_attempt_at_ns r))).

Definition upgraded_row (next : Z) (r : search_row) : search_row :=
  let complete := bool_decide (state r = StateComplete) in
  mkRow StatePending
    (if complete then 0 else attempt r)
    (if complete then 0 else failure_attempt r)
    next
    (if bool_decide (state r = StatePending) then Z.min (queue_order_ns r) next else next)
    (if complete then [] else last_outcome r)
    (lease_owner r) (lease_until_ns r)
    (if complete then SearchPriorityUpgrade else priority r)
    (if complete then false else rerun_requested r)
    (replace_installed r) (clear_resume (resume r)) (order_key r).

Definition EnsureUpgradeSearch (id : Z) (language : Language) (next : instant) (db : DB)
    : result QueueError DB :=
  if is_zero next then Err UpgradeWithoutTime
  else
    match media db !! id with
    | Some m =>
        if deleted m || negb (bool_decide (unsupported_reason m = [])) then Ok db
        else
          Ok (upsert (id, language) (new_row StatePending next [] SearchPriorityUpgrade (media_order m))
                (fun r => if upgradable next r then upgraded_row next r else r) db)
    | None => Ok db
    end.

Definition RetryThrottledSearches (now : instant) (languages : list Language) (db : DB) : DB :=
  let hit (k : search_key) (r : search_row) :=
    bool_decide (last_outcome r = t "throttled") && unleased now r
    && (bool_decide (state r = StateComplete) || (now <? next_attempt_at_ns r))
    && existsb (fun l => bool_decide (snd k = l)) languages
    && match media db !! fst k with Some m => negb (deleted m) | None => false end in
  set_searches db
    (map_imap (fun k r => Some (if hit k r
       then mkRow StatePending (attempt r) (failure_attempt r) now (queue_order_ns r) (last_outcome r)
              (lease_owner r) (lease_until_ns r) (priority r) (rerun_requested r) (replace_installed r)
              (resume r) (order_key r)
       else r)) (searches db)).

(** The update of [applyMediaMutationTx] for a delete event: the media row is
    marked and its searches end, keeping their owners. *)
Definition cancelled_row (r : search_row) : search_row :=
  mkRow StateComplete (attempt r) (failure_attempt r) 0 0 (t "deleted") (lease_owner r)
    (lease_until_ns r) (priority r) false (replace_installed r) (clear_resume (resume r)) (order_key r).

Definition cancelDeletedMedia (id : Z) (db : DB) : DB :=
  mkDB (alter (fun m => mkMediaRow true (media_instance m) (media_kind m) (media_episode m)
                          (media_episode_end m) (unsupported_reason m) (media_fingerprint m)
                          (media_order m)) id (media db))
    (map_imap (fun k r => Some (if fst k =? id then cancelled_row r else r)) (searches db))
    (history db).

(** The queue update of [RecordUserRejection]; [owner] is empty when the
    caller takes no lease. *)
Definition rejected_row (now : Z) (owner : text) (d : duration) (r : search_row) : search_row :=
  let held := negb (unleased now r) in
  let take := negb held && negb (bool_decide (owner = [])) in
  mkRow StatePending 0 0 now now []
    (if take then Some owner else lease_owner r)
    (if take then Some (now + d) else lease_until_ns r)
    SearchPriorityImport
    (if held then true else if take then false else rerun_requested r)
    true no_resume (order_key r).

Definition queueUserRejection (id : Z) (language : Language) (now : instant) (owner : text)
    (d : duration) (reason provider : text) (h : HistoryDetail) (db : DB) : result QueueError DB :=
  if xorb (bool_decide (owner = [])) (d <=? 0) then Err RejectionLease
  else
    let fresh := new_row StatePending now [] SearchPriorityImport (order_of db id) in
    let fresh := if bool_decide (owner = []) then fresh
                 else with_lease (Some owner) (Some (now + d)) false fresh in
    let fresh := mkRow (state fresh) (attempt fresh) (failure_attempt fresh) (next_attempt_at_ns fresh)
      (queue_order_ns fresh) (last_outcome fresh) (lease_owner fresh) (lease_until_ns fresh)
      (priority fresh) (rerun_requested fresh) true (resume fresh) (order_key fresh) in
    match media db !! id with
    | None => Err MediaNotFound
    | Some _ =>
        let db := upsert (id, language) fresh (rejected_row now owner d) db in
        let h := mkHistoryDetail (h_title h)
          (if bool_decide (h_provider h = []) then provider else h_provider h) (h_release h) reason true in
        Ok (mkDB (media db) (searches db)
              (mkHistoryRow id language (t "rejected") h now :: history db))
    end.

(** The disarming update of [ClearUserRejections]. *)
Definition disarmReplacement (id : Z) (language : Language) (db : DB) : DB :=
  set_searches db (alter (fun r => mkRow (state r) (attempt r) (failure_attempt r)
    (next_attempt_at_ns r) (queue_order_ns r) (last_outcome r) (lease_owner r) (lease_until_ns r)
    (priority r) (rerun_requested r) false (resume r) (order_key r)) (id, language) (searches db)).

(** [EnsureConfiguredLanguageSearches]: one pass over the media of an instance
    for one language. *)
Definition backfill_language (instance : text) (language : Language) (now : instant) (db : DB) : DB :=
  set_searches db
    (map_fold (fun id m s =>
       if bool_decide (media_instance m = instance) && negb (deleted m) then
         match s !! (id, language) with
         | Some _ => s
         | None =>
             <[(id, language) :=
               if bool_decide (unsupported_reason m = [])
               then new_row StatePending now [] SearchPriorityMissing (media_order m)
               else new_row StateComplete 0 (unsupported_reason m) SearchPriorityMissing (media_order m)]> s
         end
       else s) (searches db) (media db)).

Definition EnsureConfiguredLanguageSearches (instances : list text) (languages : list Language)
    (now : instant) (db : DB) : DB :=
  fold_left (fun db instance =>
    fold_left (fun db language => backfill_language instance language now db) languages db)
    instances db.
End repository.

(** A one-movie library for the examples. *)
Definition sample_order : QueueOrder := mkQueueOrder 0 (t "heat") 0 1995 0.
Definition sample_media : media_row :=
  mkMediaRow false (t "radarr") MediaMovie 0 0 [] (mkFingerprint (t "/m/heat.mkv") 7 100 0) sample_order.
Definition sample_db : DB := mkDB {[ 1 := sample_media ]} ∅ [].
Definition sample_repo : Repository := mkRepository None None.
Definition no_digest : list N -> text := fun _ => [].
Definition sample_completion (job : text) (next : instant) : SearchCompletion :=
  mkCompletion job (t "missing") next true false false false 0 true SearchPriorityMissing [] [] false
    zero_time false None zero_time false.

(** ** Reachable databases

    One constructor per transaction, by any repository handle, and two for
    changes of the media table made elsewhere (imports, renames, deletes): the
    rows, and the sort columns the triggers copy from them. A job id is random: no other search is owned by it when it is taken. *)

Definition free_for (k : search_key) (job : text) (db : DB) : Prop :=
  forall k' r, searches db !! k' = Some r -> lease_owner r = Some job -> k' = k.

Definition unused (job : text) (db : DB) : Prop :=
  forall k r, searches db !! k = Some r -> lease_owner r <> Some job.

Inductive queue_step `{Unicode} (sha : list N -> text) (db : DB) : DB -> Prop :=
| step_lease repo now limit d paused ids db' leases :
    NoDup ids -> Forall (fun id => unused id db) ids ->
    LeaseDueSearchesExcept sha repo now limit d paused ids db = Ok (db', leases) ->
    queue_step sha db db'
| step_renew job now d db' : RenewSearchLease job now d db = Ok db' -> queue_step sha db db'
| step_release job db' : ReleaseSearchLease job db = Ok db' -> queue_step sha db db'
| step_complete repo wall c db' res :
    CompleteSearch sha repo wall c db = Ok (db', res) -> queue_step sha db db'
| step_schedule id language at_ p unsupported db' :
    scheduleMediaSearchTx id language at_ p unsupported db = Ok db' -> queue_step sha db db'
| step_upsert id language next p db' :
    UpsertSearchStateWithPriority id language next p db = Ok db' -> queue_step sha db db'
| step_claim id language job now d db' won :
    free_for (id, language) job db ->
    ClaimSearch id language job now d db = Ok (db', won) -> queue_step sha db db'
| step_settle id language outcome now owner :
    queue_step sha db (SettlePendingSearch id language outcome now owner db)
| step_clear id language : queue_step sha db (ClearSearchResume id language db)
| step_upgrade id language next db' :
    EnsureUpgradeSearch id language next db = Ok db' -> queue_step sha db db'
| step_retry now languages : queue_step sha db (RetryThrottledSearches now languages db)
| step_cancel id : queue_step sha db (cancelDeletedMedia id db)
| step_reject id language now owner d reason provider h db' :
    free_for (id, language) owner db ->
    queueUserRejection id language now owner d reason provider h db = Ok db' -> queue_step sha db db'
| step_disarm id language : queue_step sha db (disarmReplacement id language db)
| step_backfill instances languages now :
    queue_step sha db (EnsureConfiguredLanguageSearches instances languages now db)
| step_media m : queue_step sha db (mkDB m (searches db) (history db))
| step_order (o : search_key -> search_row -> QueueOrder) :
    queue_step sha db (set_searches db (map_imap (fun k r => Some (with_order (o k r) r)) (searches db))).

(** ** The queue invariant *)

(** A row has an owner exactly when it has an expiry; a rerun is only requested
    of an owner; a finished search has no next attempt; counters are never
    negative and the priority is one of the three. *)
Definition row_ok (r : search_row) : Prop :=
  (lease_owner r = None <-> lease_until_ns r = None)
  /\ (rerun_requested r = true -> lease_owner r <> None)
  /\ (state r = StateComplete -> next_attempt_at_ns r = 0)
  /\ 0 <= attempt r /\ 0 <= failure_attempt r
  /\ validSearchPriority (priority r) = true.

(** Every row is well formed and no job owns two searches. *)
Definition queue_inv (db : DB) : Prop :=
  (forall k r, searches db !! k = Some r -> row_ok r)
  /\ (forall k1 k2 r1 r2 job, searches db !! k1 = Some r1 -> searches db !! k2 = Some r2 ->
        lease_owner r1 = Some job -> lease_owner r2 = Some job -> k1 = k2).

Definition empty_db : DB := mkDB ∅ ∅ [].

(** ** Invariant lemmas *)

(** An owner is kept, dropped, or taken by [job] on row [k0]. *)
Definition owners_from (k0 : search_key) (job : text) (db : DB) (k : search_key) (r' : search_row) : Prop :=
  lease_owner r' = None
  \/ (exists r, searches db !! k = Some r /\ lease_owner r = lease_owner r')
  \/ (k = k0 /\ lease_owner r' = Some job).

Lemma queue_inv_update k0 job db db' :
  queue_inv db -> free_for k0 job db ->
  (forall k r', searches db' !! k = Some r' -> row_ok r' /\ owners_from k0 job db k r') ->
  queue_inv db'.
Proof.
  intros [Hrow Hown] Hfree H. split; [intros k r Hr; by destruct (H k r Hr)|].
  intros k1 k2 r1 r2 j H1 H2 E1 E2.
  apply H in H1 as [_ H1]. apply H in H2 as [_ H2]. unfold owners_from, free_for in *.
  rewrite E1 in H1. rewrite E2 in H2.
  destruct H1 as [|[(q1 & Q1 & O1)|[-> [= ->]]]], H2 as [|[(q2 & Q2 & O2)|[-> ?]]]; simplify_eq; eauto.
  symmetry; eauto.
Qed.

(** Updates that take no lease. *)
Lemma queue_inv_keep db db' :
  queue_inv db ->
  (forall k r', searches db' !! k = Some r' -> row_ok r' /\
     (lease_owner r' = None \/ exists r, searches db !! k = Some r /\ lease_owner r = lease_owner r')) ->
  queue_inv db'.
Proof.
  intros [Hrow Hown] H. split; [intros k r Hr; by destruct (H k r Hr)|].
  intros k1 k2 r1 r2 j H1 H2 E1 E2.
  apply H in H1 as [_ H1]. apply H in H2 as [_ H2]. rewrite E1 in H1. rewrite E2 in H2.
  destruct H1 as [|(? & ? & ?)], H2 as [|(? & ? & ?)]; simplify_eq; eauto.
Qed.

(** Pointwise updates of existing rows. *)
Lemma queue_inv_pointwise db db' (f : search_key -> search_row -> search_row) :
  queue_inv db ->
  (forall k r', searches db' !! k = Some r' -> exists r, searches db !! k = Some r /\ r' = f k r) ->
  (forall k r, searches db !! k = Some r -> row_ok r ->
     row_ok (f k r) /\ (lease_owner (f k r) = None \/ lease_owner (f k r) = lease_owner r)) ->
  queue_inv db'.
Proof.
  intros Hinv Hf Hok. eapply queue_inv_keep; [exact Hinv|].
  intros k r' Hr. apply Hf in Hr as (r & Hr & ->).
  destruct (Hok k r Hr (proj1 Hinv k r Hr)) as [? [?|?]]; [eauto|].
  split; [done|]. right. by exists r.
Qed.

Lemma update_owned_lookup id f db k r' :
  searches (update_owned id f db) !! k = Some r' ->
  exists r, searches db !! k = Some r /\ r' = (if owned_by id r then f r else r).
Proof.
  unfold update_owned, set_searches. simpl. rewrite lookup_fmap.
  destruct (searches db !! k) as [r|]; simpl; [|done]. intros [= <-]. eauto.
Qed.

Lemma alter_lookup (f : search_row -> search_row) (k0 : search_key) (s : gmap search_key search_row)
    (k : search_key) (r' : search_row) :
  alter f k0 s !! k = Some r' ->
  exists r, s !! k = Some r /\ r' = (if decide (k = k0) then f r else r).
Proof.
  rewrite lookup_alter. destruct (decide (k0 = k)) as [->|Hne].
  - destruct (s !! k) as [r|]; simpl; [|done]. intros [= <-]. exists r. by rewrite decide_True.
  - intros H. exists r'. rewrite decide_False; done.
Qed.

Lemma imap_lookup (f : search_key -> search_row -> search_row) (s : gmap search_key search_row)
    (k : search_key) (r' : search_row) :
  map_imap (fun k r => Some (f k r)) s !! k = Some r' ->
  exists r, s !! k = Some r /\ r' = f k r.
Proof.
  rewrite map_lookup_imap. destruct (s !! k) as [r|]; simpl; [|done]. intros [= <-]. eauto.
Qed.

Lemma valid_priority_max p q :
  validSearchPriority p = true -> validSearchPriority q = true -> validSearchPriority (Z.max p q) = true.
Proof. intros. destruct (Z.max_spec p q) as [[_ ->]|[_ ->]]; done. Qed.

#[export] Hint Resolve valid_priority_max : subsync.

Lemma has_owner_spec r : has_owner r = true -> lease_owner r <> None.
Proof. unfold has_owner. by intros [x ->]%bool_decide_eq_true. Qed.

#[export] Hint Resolve has_owner_spec : subsync.

(** Case analysis on the tests of a row update, then arithmetic. *)
Ltac row_cases :=
  unfold row_ok in *; simpl in *; unfold bump, owned_by in *; simpl in *;
  repeat case_match; simplify_eq/=; bools;
  repeat match goal with
    | H : _ /\ _ |- _ => destruct H
    end;
  repeat split; intros; try congruence; try lia; eauto with subsync; try tauto; try lia;
  try (intros ?; match goal with H : ?a <-> _, H' : ?a |- _ => apply H in H'; discriminate end).

(** Every transaction preserves the queue invariant; the cases are lemmas of
    their own. *)
Section preservation.
Context `{Unicode} (sha : list N -> text) (repo : Repository).

Lemma renew_inv job now d db db' :
  queue_inv db -> RenewSearchLease job now d db = Ok db' -> queue_inv db'.
Proof.
  intros Hinv. unfold RenewSearchLease. destruct (_ || _); [done|].
  unfold requireOneRow. destruct (owned_keys job db) as [|? [|]]; intros [= <-].
  eapply queue_inv_pointwise; [done|by intros; apply update_owned_lookup|].
  intros k r _ Hr. row_cases.
Qed.

Lemma release_inv job db db' :
  queue_inv db -> ReleaseSearchLease job db = Ok db' -> queue_inv db'.
Proof.
  intros Hinv. unfold ReleaseSearchLease. destruct (bool_decide _); intros [= <-].
  eapply queue_inv_pointwise; [done|by intros; apply update_owned_lookup|].
  intros k r _ Hr. row_cases.
Qed.

Lemma completed_row_ok c saved r :
  (CPriority c = 0 \/ validSearchPriority (CPriority c) = true) ->
  row_ok r -> row_ok (completed_row c saved r).
Proof.
  intros Hp (H1 & H2 & H3 & H4 & H5 & H6). unfold row_ok, completed_row, bump. simpl.
  split_and!; [done|done| | | |].
  - destruct (rerun_requested r); [done|]. by destruct (is_zero (NextAttemptAt c)).
  - split_ifs; lia.
  - split_ifs; lia.
  - destruct Hp as [->|Hp]; [by rewrite orb_true_r|]. by destruct (_ || _).
Qed.

Lemma deleted_row_ok r : row_ok r -> row_ok (deleted_row r).
Proof. intros Hr. row_cases. Qed.

(** A successful completion rewrites exactly the one row its job owns. *)
Lemma complete_inversion wall c db db' res :
  CompleteSearch sha repo wall c db = Ok (db', res) ->
  (CPriority c = 0 \/ validSearchPriority (CPriority c) = true) /\
  exists k r m saved,
    owned_keys (JobID c) db = [(k, r)] /\ media db !! fst k = Some m /\ media db' = media db /\
    searches db' = searches (update_owned (JobID c)
      (if deleted m then deleted_row else completed_row c saved) db) /\
    RerunScheduled res = negb (deleted m) && rerun_requested r.
Proof.
  unfold CompleteSearch. destruct (_ && _) eqn:Ep; [done|].
  destruct (owned_keys (JobID c) db) as [|[k r] others] eqn:Eo; [done|].
  destruct (media db !! k.1) as [m|] eqn:Em; [|done].
  intros ([saved n] & _ & Hrest)%rbind_ok.
  destruct others; [|done]. injection Hrest as <- <-. split.
  - apply andb_false_iff in Ep as [Ep|Ep]; bools; [by left|by right].
  - exists k, r, m, saved. split_and!; [done|exact Em|done..].
Qed.

Lemma complete_effect wall c db db' res :
  CompleteSearch sha repo wall c db = Ok (db', res) ->
  exists k r m saved,
    owned_keys (JobID c) db = [(k, r)] /\ media db !! fst k = Some m /\
    searches db' = searches (update_owned (JobID c)
      (if deleted m then deleted_row else completed_row c saved) db) /\
    RerunScheduled res = negb (deleted m) && rerun_requested r /\
    (deleted m = true -> history db' = history db).
Proof.
  unfold CompleteSearch. destruct (_ && _) eqn:Ep; [done|].
  destruct (owned_keys (JobID c) db) as [|[k r] others] eqn:Eo; [done|].
  destruct (media db !! k.1) as [m|] eqn:Em; [|done].
  intros ([saved n] & _ & Hrest)%rbind_ok. destruct others; [|done].
  injection Hrest as <- <-. exists k, r, m, saved. split_and!; [done|exact Em|done|done|].
  simpl. intros ->. by destruct (CHistory c).
Qed.

Lemma complete_inv wall c db db' res :
  queue_inv db -> CompleteSearch sha repo wall c db = Ok (db', res) -> queue_inv db'.
Proof.
  intros Hinv (Hp & k & r & m & saved & _ & _ & _ & Hs & _)%complete_inversion.
  eapply queue_inv_pointwise; [done| |].
  { intros k' r'. rewrite Hs. apply update_owned_lookup. }
  intros k' r' _ Hr'. simpl. destruct (owned_by (JobID c) r'); [|eauto].
  destruct (deleted m); simpl; (split; [|by left]);
    [by apply deleted_row_ok|by apply completed_row_ok].
Qed.

Lemma upsert_inv k0 fresh f db :
  queue_inv db -> row_ok fresh -> lease_owner fresh = None ->
  (forall r, row_ok r -> row_ok (f r) /\ (lease_owner (f r) = None \/ lease_owner (f r) = lease_owner r)) ->
  queue_inv (upsert k0 fresh f db).
Proof.
  intros Hinv Hfresh Hnone Hf. eapply queue_inv_keep; [done|].
  intros k r'. unfold upsert, set_searches. simpl. rewrite lookup_insert.
  destruct (decide (k0 = k)) as [->|Hne].
  - destruct (searches db !! k) as [r|] eqn:E; intros [= <-]; [|eauto].
    destruct (Hf r (proj1 Hinv _ _ E)) as [? [?|?]]; [eauto|].
    split; [done|]. right. by exists r.
  - intros E. split; [by apply (proj1 Hinv) in E|eauto].
Qed.

Lemma new_row_ok s next outcome p o :
  validSearchPriority p = true -> (s = StateComplete -> next = 0) -> row_ok (new_row s next outcome p o).
Proof. intros. row_cases. Qed.

Lemma schedule_inv id language at_ p unsupported db db' :
  queue_inv db -> scheduleMediaSearchTx id language at_ p unsupported db = Ok db' -> queue_inv db'.
Proof.
  intros Hinv. unfold scheduleMediaSearchTx.
  destruct (validSearchPriority p) eqn:Ep; [|done]. destruct (validUnsupportedReason _); [|done].
  case_bool_decide; intros [= <-]; (apply upsert_inv;
    [done|by apply new_row_ok|done|intros r Hr; row_cases]).
Qed.

Lemma upsert_state_inv id language next p db db' :
  queue_inv db -> UpsertSearchStateWithPriority id language next p db = Ok db' -> queue_inv db'.
Proof.
  intros Hinv. unfold UpsertSearchStateWithPriority.
  destruct (validSearchPriority p) eqn:Ep; [|done]. intros [= <-].
  apply upsert_inv; [done|by apply new_row_ok|done|intros r Hr; row_cases].
Qed.

Lemma claim_inv id language job now d db db' won :
  queue_inv db -> free_for (id, language) job db ->
  ClaimSearch id language job now d db = Ok (db', won) -> queue_inv db'.
Proof.
  intros Hinv Hfree. unfold ClaimSearch. destruct (_ || _); [done|].
  assert (forall r, row_ok r -> queue_inv (set_searches db
    (<[(id, language) := with_lease (Some job) (Some (now + d)) false r]> (searches db)))) as Hset.
  { intros r Hr. eapply queue_inv_update; [done..|]. intros k r'. simpl. rewrite lookup_insert.
    destruct (decide _) as [<-|]; [intros [= <-]; split; [row_cases|by right; right]|].
    intros E. split; [by apply (proj1 Hinv) in E|]. right; left. eauto. }
  destruct (searches db !! (id, language)) as [r|] eqn:E.
  - destruct (_ || _); intros [= <- _]; [|done]. apply Hset. by apply (proj1 Hinv) in E.
  - intros [= <- _]. apply Hset. by apply new_row_ok.
Qed.

Lemma reject_inv id language now owner d reason provider h db db' :
  queue_inv db -> free_for (id, language) owner db ->
  queueUserRejection id language now owner d reason provider h db = Ok db' -> queue_inv db'.
Proof.
  intros Hinv Hfree. unfold queueUserRejection. destruct (xorb _ _); [done|].
  destruct (media db !! id); [|done]. intros [= <-].
  eapply queue_inv_update; [done..|]. intros k r'. simpl. rewrite lookup_insert.
  destruct (decide _) as [<-|].
  - destruct (searches db !! (id, language)) as [r|] eqn:E; intros [= <-]; unfold owners_from.
    + apply (proj1 Hinv) in E as Hr. unfold rejected_row. split; [unfold unleased; row_cases|].
      simpl. destruct (negb _ && _); eauto.
    + split; [case_bool_decide; row_cases|]. simpl. case_bool_decide; simpl; eauto.
  - intros E. split; [by apply (proj1 Hinv) in E|]. right; left. eauto.
Qed.

Lemma upgrade_inv id language next db db' :
  queue_inv db -> EnsureUpgradeSearch id language next db = Ok db' -> queue_inv db'.
Proof.
  intros Hinv. unfold EnsureUpgradeSearch. destruct (is_zero next); [done|].
  destruct (media db !! id) as [m|]; [|by intros [= <-]].
  destruct (_ || _); intros [= <-]; [done|].
  apply upsert_inv; [done|by apply new_row_ok|done|]. intros r Hr.
  destruct (upgradable next r) eqn:E; [|eauto]. unfold upgradable, upgraded_row in *. row_cases.
Qed.

Lemma backfill_inv instance language now db :
  queue_inv db -> queue_inv (backfill_language instance language now db).
Proof.
  intros Hinv. unfold backfill_language.
  apply (map_fold_weak_ind (fun s (_ : gmap Z media_row) => queue_inv (set_searches db s)));
    [by destruct db|].
  intros id m _ s _ Hs. destruct (_ && _); [|done].
  destruct (s !! (id, language)) eqn:E; [done|].
  eapply queue_inv_keep; [exact Hs|]. intros k r'. simpl. rewrite lookup_insert.
  destruct (decide _); [intros [= <-]|].
  - case_bool_decide; (split; [by apply new_row_ok|by left]).
  - intros Hr. split; [by apply (proj1 Hs) in Hr|eauto].
Qed.
End preservation.

(** ** Leasing lemmas *)

Section leasing.
Context `{Unicode} (sha : list N -> text) (repo : Repository).

Lemma with_resume_ok z r : row_ok r -> row_ok (with_resume z r).
Proof. intros Hr. row_cases. Qed.

Lemma with_lease_ok id until r : row_ok r -> row_ok (with_lease (Some id) (Some until) false r).
Proof. intros Hr. row_cases. Qed.

Lemma with_lease_owner o u b r : lease_owner (with_lease o u b r) = o.
Proof. done. Qed.

Lemma claim_due_owners now until id k r db db' leased :
  queue_inv db -> claim_due sha repo now until id (k, r) db = (db', leased) ->
  forall k' r', searches db' !! k' = Some r' -> row_ok r' /\ owners_from k id db k' r'.
Proof.
  intros [Hinv _]. unfold claim_due.
  assert (forall k' r', searches db !! k' = Some r' -> row_ok r' /\ owners_from k id db k' r') as Hsame.
  { intros k' r' E. split; [by eapply Hinv|]. right; left. eauto. }
  destruct (media db !! k.1) as [m|]; [|by intros [= <- _]].
  destruct (leased_resume _ _ _ _ _ _) as [[[? ?] ?] malformed].
  set (db1 := if malformed then _ else _).
  assert (forall k' r', searches db1 !! k' = Some r' -> row_ok r' /\ owners_from k id db k' r') as Hdb1.
  { unfold db1. destruct malformed; [|done]. intros k' r' (q & Hq & ->)%alter_lookup.
    apply Hsame in Hq as [? ?]. destruct (decide (k' = k)); [|done].
    split; [by apply with_resume_ok|done]. }
  destruct (searches db1 !! k) as [current|] eqn:E; [|by intros [= <- _]].
  destruct (unleased now current); intros [= <- _]; [|done].
  intros k' r'. simpl. rewrite lookup_insert. destruct (decide (k = k')) as [<-|]; [|apply Hdb1].
  intros [= <-]. apply Hdb1 in E as [? _]. split; [by apply with_lease_ok|]. by right; right.
Qed.

Lemma claim_all_cons now until id ids kr rows db :
  claim_all sha repo now until (id :: ids) (kr :: rows) db =
  let '(db1, leased) := claim_due sha repo now until id kr db in
  rbind (claim_all sha repo now until ids rows db1) (fun '(db2, rest) => Ok (db2, leased ++ rest)).
Proof. done. Qed.

Lemma claim_all_inv now until ids rows db db' leases :
  queue_inv db -> NoDup ids -> Forall (fun id => unused id db) ids ->
  claim_all sha repo now until ids rows db = Ok (db', leases) -> queue_inv db'.
Proof.
  revert ids db leases. induction rows as [|[k r] rows IH]; intros ids db leases Hinv Hnd Hids;
    [by intros [= <- _]|].
  destruct ids as [|id ids]; [done|]. rewrite claim_all_cons.
  apply NoDup_cons in Hnd as [Hid Hnd]. apply Forall_cons in Hids as [Hun Hids].
  destruct (claim_due sha repo now until id (k, r) db) as [db1 leased] eqn:E.
  pose proof (claim_due_owners _ _ _ _ _ _ _ _ Hinv E) as Hown.
  intros ([db2 rest] & Hrec & [= <- _])%rbind_ok. eapply IH; [|exact Hnd| |exact Hrec].
  - eapply queue_inv_update; [exact Hinv| |exact Hown].
    intros k' r' Hr Ho. by destruct (Hun k' r' Hr).
  - rewrite Forall_forall in Hids |- *. intros id' Hid' k' r' Hr Ho.
    destruct (Hown k' r' Hr) as [_ [E'|[(q & Hq & E')|[_ E']]]]; rewrite Ho in E'; simplify_eq.
    + by eapply Hids.
    + done.
Qed.

(** Claiming due, unleased rows with distinct keys: one lease per row, in
    order, and no other row changes. *)
Definition claimed (until : Z) (db' : DB) (kr : search_key * search_row) (l : SearchLease) : Prop :=
  lease_key l = fst kr /\ lease_attempt l = attempt (snd kr)
  /\ lease_failure_attempt l = failure_attempt (snd kr) /\ lease_expiry l = until
  /\ lease_priority l = priority (snd kr) /\ lease_replace_installed l = replace_installed (snd kr)
  /\ exists z, searches db' !! fst kr
       = Some (with_lease (Some (lease_job l)) (Some until) false (with_resume z (snd kr))).

Definition claimable (now : Z) (db : DB) (kr : search_key * search_row) : Prop :=
  searches db !! fst kr = Some (snd kr) /\ unleased now (snd kr) = true
  /\ is_Some (media db !! fst (fst kr)).

Lemma with_resume_id r : with_resume (resume r) r = r.
Proof. by destruct r. Qed.

Lemma claim_due_spec now until id kr db :
  claimable now db kr ->
  exists z l, claim_due sha repo now until id kr db =
    (set_searches db (<[fst kr := with_lease (Some id) (Some until) false (with_resume z (snd kr))]>
       (searches db)), [l])
  /\ lease_job l = id /\ lease_key l = fst kr /\ lease_attempt l = attempt (snd kr)
  /\ lease_failure_attempt l = failure_attempt (snd kr) /\ lease_expiry l = until
  /\ lease_priority l = priority (snd kr) /\ lease_replace_installed l = replace_installed (snd kr).
Proof.
  destruct kr as [k r]. intros (Hk & Hu & [m Hm]). simpl in *. unfold claim_due. rewrite Hm.
  destruct (leased_resume _ _ _ _ _ _) as [[[? ?] ?] malformed].
  exists (if malformed then no_resume else resume r). destruct malformed; simpl.
  - rewrite lookup_alter_eq, Hk. simpl.
    replace (unleased now (with_resume no_resume r)) with (unleased now r) by done. rewrite Hu.
    replace (<[k := with_lease (Some id) (Some until) false (with_resume no_resume r)]>
               (alter (with_resume no_resume) k (searches db)))
      with (<[k := with_lease (Some id) (Some until) false (with_resume no_resume r)]> (searches db)).
    { by eexists. }
    apply map_eq. intros k'. rewrite !lookup_insert. destruct (decide (k = k')); [done|].
    by rewrite lookup_alter_ne.
  - rewrite Hk, Hu, with_resume_id. by eexists.
Qed.

Lemma claim_all_spec now until ids rows db db' leases :
  NoDup rows.*1 -> Forall (claimable now db) rows ->
  claim_all sha repo now until ids rows db = Ok (db', leases) ->
  media db' = media db /\ history db' = history db
  /\ lease_job <$> leases = take (length rows) ids
  /\ Forall2 (claimed until db') rows leases
  /\ forall k, k ∉ rows.*1 -> searches db' !! k = searches db !! k.
Proof.
  revert ids db leases. induction rows as [|kr rows IH]; intros ids db leases Hnd Hrows.
  { intros [= <- <-]. split_and!; [done|done|done|constructor|done]. }
  destruct ids as [|id ids]; [done|]. rewrite claim_all_cons.
  apply NoDup_cons in Hnd as [Hk Hnd]. apply Forall_cons in Hrows as [Hkr Hrows].
  destruct (claim_due_spec now until id kr db Hkr) as (z & l & -> & Hjob & Hl).
  intros ([db2 rest] & Hrec & [= <- <-])%rbind_ok.
  apply IH in Hrec as (? & ? & Hjobs & Hleases & Hother); [|done|].
  - split_and!; [done|done| | |].
    + simpl. f_equal; [exact Hjob|exact Hjobs].
    + constructor; [|done]. unfold claimed. destruct_and!. split_and!; [done..|].
      exists z. rewrite Hother by done. simpl. by rewrite lookup_insert_eq, Hjob.
    + intros k. simpl. rewrite not_elem_of_cons. intros [? ?]. rewrite Hother by done. simpl.
      by rewrite lookup_insert_ne.
  - rewrite Forall_forall in Hrows |- *. intros kr' Hin. destruct (Hrows kr' Hin) as (? & ? & ?).
    split_and!; [|done..]. simpl. rewrite lookup_insert_ne; [done|].
    intros E. apply Hk. rewrite E. by apply list_elem_of_fmap_2.
Qed.
End leasing.

(** ** The rows a lease call selects *)

Section due_rows.
Context (repo : Repository).

Lemma due_unleased now paused db k r : due repo now paused db (k, r) = true -> unleased now r = true.
Proof. unfold due. destruct (media db !! k.1); [|done]. by intros ?; bools. Qed.

Lemma due_candidates now paused db k r :
  (k, r) ∈ base.filter (fun kr => due repo now paused db kr = true) (map_to_list (searches db))
  <-> searches db !! k = Some r /\ due repo now paused db (k, r) = true.
Proof. rewrite list_elem_of_filter, elem_of_map_to_list. tauto. Qed.

Lemma due_rows_spec now limit paused db :
  let all := stable_sort (less_of lease_order)
    (base.filter (fun kr => due repo now paused db kr = true) (map_to_list (searches db))) in
  due_rows repo now limit paused db = take limit all
  /\ NoDup all.*1
  /\ StronglySorted (not_after (less_of lease_order)) all
  /\ forall k r, (k, r) ∈ all <-> searches db !! k = Some r /\ due repo now paused db (k, r) = true.
Proof.
  split_and!; [done| | |].
  - rewrite stable_sort_perm. eapply sublist_NoDup; [apply (NoDup_fst_map_to_list (searches db))|].
    apply fmap_sublist, sublist_filter.
  - apply stable_sort_sorted; [apply less_of_total|apply less_of_trans]; apply _.
  - intros k r. rewrite stable_sort_perm. apply due_candidates.
Qed.

Lemma due_rows_claimable now limit paused db :
  NoDup (due_rows repo now limit paused db).*1
  /\ Forall (claimable now db) (due_rows repo now limit paused db).
Proof.
  destruct (due_rows_spec now limit paused db) as (-> & Hnd & _ & Hin).
  split.
  - rewrite fmap_take. eapply sublist_NoDup; [exact Hnd|apply sublist_take].
  - rewrite Forall_forall. intros [k r] Hk. apply elem_of_take in Hk as (i & Hi & _).
    apply list_elem_of_lookup_2, Hin in Hi as [Hl Hd]. split_and!; [done|by eapply due_unleased|].
    simpl. unfold due in Hd. by destruct (media db !! k.1).
Qed.

End due_rows.

Section lease_call.
Context `{Unicode} (sha : list N -> text) (repo : Repository).

(** Without an empty scope, a successful call claims exactly the selected
    rows. *)
Lemma lease_inversion now limit d paused ids db db' leases :
  LeaseDueSearchesExcept sha repo now limit d paused ids db = Ok (db', leases) ->
  0 < limit /\ 0 < d /\
  ((db' = db /\ leases = [] /\ exists i l, searchScope repo = Some (i, l) /\ (i = [] \/ l = []))
   \/ claim_all sha repo now (now + d) ids (due_rows repo now (Z.to_nat limit) paused db) db
      = Ok (db', leases)).
Proof.
  unfold LeaseDueSearchesExcept. destruct (_ || _) eqn:E; [done|]. bools.
  intros Hrun. split; [lia|]. split; [lia|].
  destruct (searchScope repo) as [[i l]|]; [|by right].
  destruct (_ || _) eqn:E; [|by right]. left. simplify_eq. split_and!; [done..|].
  exists i, l. split; [done|]. apply orb_true_iff in E as [E|E]; apply Nat.eqb_eq in E;
    [left|right]; by apply nil_length_inv.
Qed.

Lemma lease_inv now limit d paused ids db db' leases :
  queue_inv db -> NoDup ids -> Forall (fun id => unused id db) ids ->
  LeaseDueSearchesExcept sha repo now limit d paused ids db = Ok (db', leases) -> queue_inv db'.
Proof.
  intros Hinv Hnd Hids (_ & _ & [(-> & _)|Hrun])%lease_inversion; [done|].
  by eapply claim_all_inv.
Qed.
End lease_call.

Lemma backfills_inv instances languages now db :
  queue_inv db -> queue_inv (EnsureConfiguredLanguageSearches instances languages now db).
Proof.
  unfold EnsureConfiguredLanguageSearches. revert db.
  induction instances as [|i rest IH]; intros db Hinv; simpl; [done|]. apply IH. clear IH. revert db Hinv.
  induction languages as [|l more IH]; intros db Hinv; simpl; [done|]. by apply IH, backfill_inv.
Qed.

Lemma queue_step_inv `{Unicode} sha db db' : queue_inv db -> queue_step sha db db' -> queue_inv db'.
Proof.
  intros Hinv Hstep. destruct Hstep; [eapply lease_inv; eassumption|eapply renew_inv; eassumption|eapply release_inv; eassumption|eapply complete_inv; eassumption
    |eapply schedule_inv; eassumption|eapply upsert_state_inv; eassumption|eapply claim_inv; eassumption|..].
  - eapply queue_inv_pointwise; [done|intros ? ? Hq; exact (alter_lookup _ _ _ _ _ Hq)|].
    intros k r _ Hr. simpl. destruct (decide _); [|eauto]. row_cases.
  - eapply queue_inv_pointwise; [done|intros ? ? Hq; exact (alter_lookup _ _ _ _ _ Hq)|].
    intros k r _ Hr. simpl. destruct (decide _); [|eauto]. split; [by apply with_resume_ok|by right].
  - eapply upgrade_inv; eassumption.
  - eapply queue_inv_pointwise; [done|intros ? ? Hq; exact (imap_lookup _ _ _ _ Hq)|].
    intros k r _ Hr. simpl. destruct (_ && _); [|eauto]. row_cases.
  - eapply queue_inv_pointwise; [done|intros ? ? Hq; exact (imap_lookup _ _ _ _ Hq)|].
    intros k r _ Hr. simpl. destruct (_ =? _); [|eauto]. row_cases.
  - eapply reject_inv; eassumption.
  - eapply queue_inv_pointwise; [done|intros ? ? Hq; exact (alter_lookup _ _ _ _ _ Hq)|].
    intros k r _ Hr. simpl. destruct (decide _); [|eauto]. row_cases.
  - by apply backfills_inv.
  - done.
  - eapply queue_inv_pointwise; [done|intros ? ? Hq; exact (imap_lookup _ _ _ _ Hq)|]. intros k r _ Hr. split; [exact Hr|by right].
Qed.

Lemma empty_db_inv : queue_inv empty_db.
Proof. split; intros *; simpl; by rewrite lookup_empty. Qed.

(** ** Theorems *)

Section queue_theorems.
Context `{Unicode} (sha : list N -> text) (repo : Repository).

(** C13. In every database reachable by the queue's transactions each row is
    well formed (an owner exactly when an expiry, a rerun only beside an
    owner, no next attempt once complete, counters never negative, a valid
    priority) and no job owns two searches. *)
Theorem queue_inv_reachable db : rtc (queue_step sha) empty_db db -> queue_inv db.
Proof.
  intros Hr. revert db Hr. apply rtc_ind_r; [apply empty_db_inv|].
  intros db1 db2 _ Hstep Hinv. by eapply queue_step_inv.
Qed.

(** What a successful lease call did: it claimed a prefix of the due rows
    and touched nothing else. *)
Lemma lease_effect now limit d paused ids db db' leases :
  LeaseDueSearchesExcept sha repo now limit d paused ids db = Ok (db', leases) ->
  0 < limit /\ (length leases <= Z.to_nat limit)%nat
  /\ (forall k, k ∉ lease_key <$> leases -> searches db' !! k = searches db !! k)
  /\ lease_job <$> leases = take (length leases) ids
  /\ NoDup (lease_key <$> leases)
  /\ exists rows, lease_key <$> leases = rows.*1 /\ Forall2 (claimed (now + d) db') rows leases
       /\ forall k r, (k, r) ∈ rows -> searches db !! k = Some r /\ due repo now paused db (k, r) = true.
Proof.
  intros (Hlim & _ & [(-> & -> & _)|Hrun])%lease_inversion.
  { split_and!; [done|simpl; lia|done|done|constructor|].
    exists []. split_and!; [done|constructor|]. by intros k r ?%elem_of_nil. }
  destruct (due_rows_spec repo now (Z.to_nat limit) paused db) as (Hdef & _ & _ & Hin).
  destruct (due_rows_claimable repo now (Z.to_nat limit) paused db) as [Hnd Hcl].
  destruct (claim_all_spec sha repo _ _ _ _ _ _ _ Hnd Hcl Hrun) as (_ & _ & Hjobs & Hleases & Hother).
  pose proof (Forall2_length _ _ _ Hleases) as Hlen.
  assert (lease_key <$> leases = (due_rows repo now (Z.to_nat limit) paused db).*1) as Hkeys.
  { clear - Hleases. induction Hleases as [|kr l rows ls (Hk & _)]; simpl; [done|]. by f_equal. }
  rewrite Hkeys. split_and!; [done| |done|by rewrite Hjobs, Hlen|done|].
  - rewrite <- Hlen, Hdef, length_take. lia.
  - eexists. split_and!; [done|done|]. intros k r. rewrite Hdef.
    intros (i & Hi & _)%elem_of_take. by apply list_elem_of_lookup_2, Hin in Hi.
Qed.

(** C14. Leasing is exclusive and sound: only the leased rows change; every
    lease handed out is for a row that was due on an unpaused, in-scope route
    and had no live lease, and its fresh job owns the row until the expiry;
    no search is leased twice and never more than the limit. *)
Theorem lease_exclusive now limit d paused ids db db' leases :
  LeaseDueSearchesExcept sha repo now limit d paused ids db = Ok (db', leases) ->
  (forall k, k ∉ lease_key <$> leases -> searches db' !! k = searches db !! k)
  /\ (forall l, l ∈ leases -> exists r z,
        searches db !! lease_key l = Some r /\ due repo now paused db (lease_key l, r) = true
        /\ unleased now r = true /\ lease_attempt l = attempt r
        /\ searches db' !! lease_key l
           = Some (with_lease (Some (lease_job l)) (Some (now + d)) false (with_resume z r)))
  /\ NoDup (lease_key <$> leases)
  /\ lease_job <$> leases = take (length leases) ids
  /\ Z.of_nat (length leases) <= limit.
Proof.
  intros (Hlim & Hlen & Hkeep & Hjobs & Hnd & rows & _ & Hcl & Hrows)%lease_effect.
  split_and!; [done| |done|done|lia].
  intros l (i & Hi)%list_elem_of_lookup.
  destruct (Forall2_lookup_r _ _ _ _ _ Hcl Hi) as ([k r] & Hkr & (-> & Ha & _ & _ & _ & _ & z & Hz)).
  apply list_elem_of_lookup_2, Hrows in Hkr as [Hl Hd]. exists r, z.
  split_and!; [done|done|by eapply due_unleased|done|done].
Qed.

(** Leasing follows the queue order: a due search that is passed over was
    passed over because the limit was reached, and it does not precede any
    leased search (priority, instance rank, queue position, due time, then
    media order). *)
Theorem lease_in_queue_order now limit d paused ids db db' leases k r :
  LeaseDueSearchesExcept sha repo now limit d paused ids db = Ok (db', leases) ->
  searches db !! k = Some r -> due repo now paused db (k, r) = true ->
  k ∉ lease_key <$> leases ->
  Z.of_nat (length leases) = limit
  /\ forall l q, l ∈ leases -> searches db !! lease_key l = Some q ->
       less_of lease_order (k, r) (lease_key l, q) = false.
Proof.
  intros (Hlim & _ & [(_ & _ & i & ls & Hscope & Hempty)|Hrun])%lease_inversion Hk Hdue Hnot.
  { exfalso. unfold due, in_scope in Hdue. rewrite Hscope in Hdue. destruct (media db !! k.1); [|done].
    destruct Hempty as [-> | ->]; simpl in Hdue; by rewrite ?andb_false_r in Hdue. }
  destruct (due_rows_spec repo now (Z.to_nat limit) paused db) as (Hdef & Hnd' & Hsort & Hin).
  set (all := stable_sort _ _) in *.
  destruct (due_rows_claimable repo now (Z.to_nat limit) paused db) as [Hnd Hcl].
  destruct (claim_all_spec sha repo _ _ _ _ _ _ _ Hnd Hcl Hrun) as (_ & _ & _ & Hleases & _).
  pose proof (Forall2_length _ _ _ Hleases) as Hlen.
  assert (lease_key <$> leases = (take (Z.to_nat limit) all).*1) as Hkeys.
  { rewrite <- Hdef. clear - Hleases.
    induction Hleases as [|kr l rows ls (Hk & _)]; simpl; [done|]. by f_equal. }
  rewrite Hkeys in Hnot. rewrite Hdef in Hlen, Hleases.
  assert ((k, r) ∈ drop (Z.to_nat limit) all) as Hdrop.
  { assert ((k, r) ∈ all) as Hall by by apply Hin.
    rewrite <- (take_drop (Z.to_nat limit) all), elem_of_app in Hall. destruct Hall as [Hall|]; [|done].
    destruct Hnot. by apply (list_elem_of_fmap_2 fst) in Hall. }
  split.
  - rewrite <- Hlen, length_take. assert (Z.to_nat limit < length all)%nat; [|lia].
    destruct (decide (length all <= Z.to_nat limit)%nat) as [Hle|]; [|lia].
    rewrite drop_ge in Hdrop by done. by rewrite elem_of_nil in Hdrop.
  - intros l q (j & Hj)%list_elem_of_lookup Hq.
    destruct (Forall2_lookup_r _ _ _ _ _ Hleases Hj) as ([k' r'] & Hkr & Hc).
    destruct Hc as (Hlk & _). simpl in Hlk. subst k'. apply list_elem_of_lookup_2 in Hkr.
    assert (r' = q) as ->.
    { assert ((lease_key l, r') ∈ all) as Hall by by (eapply elem_of_sublist; [|apply sublist_take]).
      apply Hin in Hall as [Hall _]. congruence. }
    rewrite <- (take_drop (Z.to_nat limit) all) in Hsort.
    exact (StronglySorted_app_1_elem_of _ _ _ _ _ Hsort Hkr Hdrop).
Qed.

Lemma owned_keys_spec job db k r :
  (k, r) ∈ owned_keys job db <-> searches db !! k = Some r /\ lease_owner r = Some job.
Proof.
  unfold owned_keys, owned_by. rewrite list_elem_of_filter, elem_of_map_to_list. simpl.
  rewrite bool_decide_eq_true. tauto.
Qed.

Lemma owned_keys_nil job db : unused job db -> owned_keys job db = [].
Proof.
  intros Hun. destruct (owned_keys job db) as [|[k r] l] eqn:E; [done|].
  assert ((k, r) ∈ owned_keys job db) as [Hk Ho]%owned_keys_spec by (rewrite E; left).
  by destruct (Hun k r Hk).
Qed.

Lemma update_owned_hit job f db k r :
  searches db !! k = Some r -> lease_owner r = Some job ->
  searches (update_owned job f db) !! k = Some (f r).
Proof.
  intros Hk Ho. unfold update_owned. simpl. rewrite lookup_fmap, Hk. simpl.
  unfold owned_by. by rewrite bool_decide_true.
Qed.

(** C16. A change that arrives while a search runs is never lost: when the
    media is rescheduled during a lease and its owner then completes, whatever
    outcome it reports, the search is pending again at the requested time,
    unleased and with fresh counters, and the owner is told. *)
Theorem change_during_search_not_lost id language job at_ p c wall db db1 db2 res r m :
  searches db !! (id, language) = Some r -> lease_owner r = Some job ->
  media db !! id = Some m -> deleted m = false ->
  scheduleMediaSearchTx id language at_ p [] db = Ok db1 ->
  JobID c = job -> CompleteSearch sha repo wall c db1 = Ok (db2, res) ->
  RerunScheduled res = true
  /\ exists r', searches db2 !! (id, language) = Some r'
       /\ state r' = StatePending /\ next_attempt_at_ns r' = at_ /\ queue_order_ns r' = at_
       /\ attempt r' = 0 /\ failure_attempt r' = 0
       /\ lease_owner r' = None /\ lease_until_ns r' = None /\ rerun_requested r' = false
       /\ priority r' = Z.max (priority r) p.
Proof.
  intros Hr Ho Hm Hdel Hsched Hjob Hc. unfold scheduleMediaSearchTx in Hsched.
  destruct (validSearchPriority p); [|done]. simpl in Hsched. simplify_eq.
  assert (searches (upsert (id, language) (new_row StatePending at_ [] p (order_of db id))
            (rescheduled_row at_ p) db) !! (id, language) = Some (rescheduled_row at_ p r)) as Hr1.
  { unfold upsert. simpl. by rewrite lookup_insert_eq, Hr. }
  apply complete_inversion in Hc as (_ & k & q & m' & saved & Hk & Hm' & _ & Hs & Hrerun).
  assert ((id, language, rescheduled_row at_ p r) ∈ owned_keys (JobID c) (upsert (id, language)
    (new_row StatePending at_ [] p (order_of db id)) (rescheduled_row at_ p) db)) as Hin
    by by apply owned_keys_spec.
  rewrite Hk, list_elem_of_singleton in Hin. simplify_eq. simpl in Hm'.
  rewrite Hm in Hm'. simplify_eq. rewrite Hdel in *.
  assert (rerun_requested (rescheduled_row at_ p r) = true) as Hrr.
  { simpl. unfold has_owner. rewrite Ho. by apply bool_decide_eq_true. }
  split; [by rewrite Hrerun, Hrr|].
  exists (completed_row c saved (rescheduled_row at_ p r)). rewrite Hs. split; [by apply update_owned_hit|].
  unfold completed_row. rewrite Hrr. simpl. done.
Qed.

(** A job that lost its lease can no longer act on the search: once a
    search was leased again to a fresh job, its previous owner can neither
    complete nor renew it. *)
Theorem stale_job_rejected now limit d paused ids db db' leases l r old :
  queue_inv db ->
  LeaseDueSearchesExcept sha repo now limit d paused ids db = Ok (db', leases) ->
  l ∈ leases -> searches db !! lease_key l = Some r -> lease_owner r = Some old -> old ∉ ids ->
  owned_keys old db' = []
  /\ (forall wall c, JobID c = old -> exists e, CompleteSearch sha repo wall c db' = Err e)
  /\ (forall now' d', exists e, RenewSearchLease old now' d' db' = Err e).
Proof.
  intros [_ Hown] (_ & _ & Hkeep & Hjobs & _ & rows & Hkeys & Hcl & _)%lease_effect Hl Hr Ho Hold.
  assert (unused old db') as Hun.
  { intros k q Hq Hoq.
    destruct (decide (k ∈ lease_key <$> leases)) as [(l' & -> & Hl')%list_elem_of_fmap|Hk].
    - apply Hold. assert (lease_job l' ∈ lease_job <$> leases) as Hj by by apply list_elem_of_fmap_2.
      apply list_elem_of_lookup in Hl' as [i Hi].
      destruct (Forall2_lookup_r _ _ _ _ _ Hcl Hi) as (kr & _ & (Hk & _ & _ & _ & _ & _ & z & Hz)).
      rewrite <- Hk, Hq in Hz. simplify_eq. simpl in Hoq. simplify_eq.
      rewrite Hjobs in Hj. by eapply elem_of_sublist; [|apply sublist_take].
    - rewrite Hkeep in Hq by done. rewrite (Hown _ _ _ _ _ Hq Hr Hoq Ho) in Hk.
      by destruct Hk; apply list_elem_of_fmap_2. }
  rewrite owned_keys_nil by done. split_and!; [done| |].
  - intros wall c <-. unfold CompleteSearch. destruct (_ && _); [by eexists|].
    rewrite owned_keys_nil by done. by eexists.
  - intros now' d'. unfold RenewSearchLease. destruct (_ || _); [by eexists|].
    rewrite owned_keys_nil by done. by eexists.
Qed.

(** Deleting a media file ends its searches for good: no later lease call
    hands one out while the file is deleted, and when the job that was
    searching completes, whatever it reports, its row is left complete with
    outcome "deleted", unowned and with nothing scheduled or recorded. *)
Theorem deleted_media_is_terminal id db :
  (forall now limit d paused ids db' leases l,
     LeaseDueSearchesExcept sha repo now limit d paused ids (cancelDeletedMedia id db)
       = Ok (db', leases) -> l ∈ leases -> fst (lease_key l) <> id)
  /\ (forall language r wall c db' res,
     searches db !! (id, language) = Some r -> lease_owner r = Some (JobID c) ->
     CompleteSearch sha repo wall c (cancelDeletedMedia id db) = Ok (db', res) ->
     RerunScheduled res = false /\ history db' = history db
     /\ exists r', searches db' !! (id, language) = Some r'
          /\ state r' = StateComplete /\ last_outcome r' = t "deleted" /\ next_attempt_at_ns r' = 0
          /\ lease_owner r' = None /\ lease_until_ns r' = None).
Proof.
  assert (forall m, media (cancelDeletedMedia id db) !! id = Some m -> deleted m = true) as Hdel.
  { intros m. simpl. rewrite lookup_alter_eq. destruct (media db !! id); simpl; [|done].
    by intros [= <-]. }
  split.
  - intros * (_ & _ & _ & _ & _ & rows & _ & Hcl & Hrows)%lease_effect Hl Hid.
    apply list_elem_of_lookup in Hl as [i Hi].
    destruct (Forall2_lookup_r _ _ _ _ _ Hcl Hi) as ([k r] & Hkr & (Hk & _)).
    apply list_elem_of_lookup_2, Hrows in Hkr as [_ Hd]. simpl in Hk. subst k. unfold due in Hd.
    rewrite Hid in Hd. destruct (media (cancelDeletedMedia id db) !! id) as [m|] eqn:E; [|done].
    rewrite (Hdel m) in Hd by done. done.
  - intros * Hr Ho Hc.
    assert (searches (cancelDeletedMedia id db) !! (id, language) = Some (cancelled_row r)) as Hr'.
    { simpl. rewrite map_lookup_imap, Hr. simpl. by rewrite Z.eqb_refl. }
    apply complete_effect in Hc as (k & q & m & saved & Hk & Hm & Hs & Hrerun & Hhist).
    assert ((id, language, cancelled_row r) ∈ owned_keys (JobID c) (cancelDeletedMedia id db)) as Hin
      by by apply owned_keys_spec.
    rewrite Hk, list_elem_of_singleton in Hin. simplify_eq.
    rewrite (Hdel m Hm) in *. split_and!; [by rewrite Hrerun|by apply Hhist|].
    exists (deleted_row (cancelled_row r)). rewrite Hs. split; [by apply update_owned_hit|done].
Qed.

(** Claiming a search by hand excludes the worker and other commands: the
    claim fails, changing nothing, exactly while another owner holds a live
    lease; otherwise the caller owns the row until the expiry with no rerun
    outstanding, and no other row changes. *)
Theorem claim_exclusive id language job now d db db' won :
  ClaimSearch id language job now d db = Ok (db', won) ->
  (won = false <-> exists r, searches db !! (id, language) = Some r
                     /\ unleased now r = false /\ lease_owner r <> Some job)
  /\ (won = false -> db' = db)
  /\ (won = true -> exists r', searches db' !! (id, language) = Some r'
        /\ lease_owner r' = Some job /\ lease_until_ns r' = Some (now + d)
        /\ unleased now r' = false /\ rerun_requested r' = false)
  /\ (forall k, k <> (id, language) -> searches db' !! k = searches db !! k).
Proof.
  unfold ClaimSearch. destruct (_ || _) eqn:Eargs; [done|]. bools.
  assert (forall r, unleased now (with_lease (Some job) (Some (now + d)) false r) = false) as Hlive
    by (intros r; unfold unleased; simpl; lia).
  destruct (searches db !! (id, language)) as [r|] eqn:E.
  - destruct (unleased now r || owned_by job r) eqn:Eu; intros [= <- <-].
    + split_and!; [split; [done|]|done| |].
      * intros (q & [= <-] & Hu & Ho). rewrite Hu in Eu. simpl in Eu. unfold owned_by in Eu. by bools.
      * intros _. eexists. simpl. rewrite lookup_insert_eq. split_and!; [done|done|done|apply Hlive|done].
      * intros k Hk. simpl. by rewrite lookup_insert_ne.
    + unfold owned_by in Eu. bools. split_and!; [split; eauto|done|done|done].
  - intros [= <- <-]. split_and!; [split; [done|by intros (q & [=] & _)]|done| |].
    + intros _. eexists. simpl. rewrite lookup_insert_eq. split_and!; [done|done|done|apply Hlive|done].
    + intros k Hk. simpl. by rewrite lookup_insert_ne.
Qed.
End queue_theorems.

(** ** Witnesses *)

(** The sample database after an import, and after a manual claim. *)
Definition sample_scheduled : DB :=
  upsert (1, t "en") (new_row StatePending 10 [] SearchPriorityMissing sample_order)
    (rescheduled_row 10 SearchPriorityMissing) sample_db.

(** The sample lease call and the database it leaves. *)
Definition sample_lease (db : DB) : result QueueError (DB * list SearchLease) :=
  LeaseDueSearchesExcept no_digest sample_repo 20 5 minute [] [t "job-1"] db.
Definition sample_leased : DB :=
  match sample_lease sample_scheduled with Ok (db, _) => db | Err _ => sample_db end.
Definition sample_leases : list SearchLease :=
  match sample_lease sample_scheduled with Ok (_, ls) => ls | Err _ => [] end.
Definition sample_row (r : option search_row) : search_row :=
  default (new_row StatePending 10 [] SearchPriorityMissing sample_order) r.
Definition sample_key : search_key := (1, t "en").

Lemma sample_leases_ok : sample_lease sample_scheduled = Ok (sample_leased, sample_leases).
Proof. vm_compute. reflexivity. Qed.

Lemma queue_inv_reachable_witness :
  exists db, rtc (queue_step no_digest) empty_db db /\ queue_inv db
    /\ exists r, searches db !! sample_key = Some r /\ lease_owner r = Some (t "job-1").
Proof.
  assert (rtc (queue_step no_digest) empty_db sample_leased) as Hr.
  { eapply rtc_l; [apply (step_media _ _ (media sample_db))|].
    eapply rtc_l; [eapply (step_schedule _ _ 1 (t "en") 10 SearchPriorityMissing []); vm_compute; reflexivity|].
    eapply rtc_l; [|apply rtc_refl].
    eapply (step_lease _ _ sample_repo 20 5 minute [] [t "job-1"]); [| |exact sample_leases_ok].
    - apply NoDup_singleton.
    - repeat constructor. intros k r Hk%elem_of_map_to_list.
      set (l := map_to_list _) in Hk. vm_compute in l. subst l.
      apply list_elem_of_singleton in Hk. by simplify_eq. }
  exists sample_leased. split; [exact Hr|]. split; [exact (queue_inv_reachable no_digest _ Hr)|].
  eexists. split; vm_compute; reflexivity.
Defined.

Lemma lease_exclusive_witness :
  sample_leases <> [] /\ NoDup (lease_key <$> sample_leases)
  /\ Z.of_nat (length sample_leases) <= 5.
Proof.
  split; [by vm_compute|].
  destruct (lease_exclusive no_digest sample_repo 20 5 minute [] [t "job-1"] _ _ _ sample_leases_ok)
    as (_ & _ & Hnd & _ & Hlen).
  by split.
Defined.

(** Two due searches and a limit of one. *)
Definition sample_two : DB :=
  upsert (1, t "pt") (new_row StatePending 10 [] SearchPriorityImport sample_order)
    (rescheduled_row 10 SearchPriorityImport) sample_scheduled.
Definition sample_first (db : DB) : DB * list SearchLease :=
  match LeaseDueSearchesExcept no_digest sample_repo 20 1 minute [] [t "job-1"] db with
  | Ok x => x
  | Err _ => (sample_db, [])
  end.

Lemma lease_in_queue_order_witness :
  Z.of_nat (length (sample_first sample_two).2) = 1
  /\ forall l q, l ∈ (sample_first sample_two).2 -> searches sample_two !! lease_key l = Some q ->
       less_of lease_order (sample_key, sample_row (searches sample_two !! sample_key)) (lease_key l, q)
       = false.
Proof.
  apply (lease_in_queue_order no_digest sample_repo 20 1 minute [] [t "job-1"] sample_two
           (sample_first sample_two).1 (sample_first sample_two).2).
  - vm_compute. reflexivity.
  - vm_compute. reflexivity.
  - vm_compute. reflexivity.
  - change (lease_key <$> (sample_first sample_two).2) with [(1, t "pt")].
    by rewrite list_elem_of_singleton.
Defined.

(** The media changes at 30 while job-1 searches; job-1 completes at 40. *)
Definition sample_changed : DB :=
  match scheduleMediaSearchTx 1 (t "en") 30 SearchPriorityImport [] sample_leased with
  | Ok db => db
  | Err _ => sample_db
  end.
Definition sample_completed : result QueueError (DB * SearchCompletionResult) :=
  CompleteSearch no_digest sample_repo 40 (sample_completion (t "job-1") 99) sample_changed.
Definition sample_done : DB := match sample_completed with Ok (db, _) => db | Err _ => sample_db end.
Definition sample_result : SearchCompletionResult :=
  match sample_completed with Ok (_, r) => r | Err _ => mkCompletionResult false 0 end.

Lemma change_during_search_not_lost_witness :
  RerunScheduled sample_result = true
  /\ exists r', searches sample_done !! sample_key = Some r'
       /\ state r' = StatePending /\ next_attempt_at_ns r' = 30 /\ queue_order_ns r' = 30
       /\ attempt r' = 0 /\ failure_attempt r' = 0
       /\ lease_owner r' = None /\ lease_until_ns r' = None /\ rerun_requested r' = false
       /\ priority r' = Z.max (priority (sample_row (searches sample_leased !! sample_key)))
                               SearchPriorityImport.
Proof.
  apply (change_during_search_not_lost no_digest sample_repo 1 (t "en") (t "job-1") 30
           SearchPriorityImport (sample_completion (t "job-1") 99) 40 sample_leased sample_changed
           sample_done sample_result (sample_row (searches sample_leased !! sample_key)) sample_media);
    vm_compute; reflexivity.
Defined.

(** job-1's lease expires; the search is leased again to job-2. *)
Definition sample_releases : result QueueError (DB * list SearchLease) :=
  LeaseDueSearchesExcept no_digest sample_repo (20 + minute) 5 minute [] [t "job-2"] sample_leased.
Definition sample_released : DB := match sample_releases with Ok (db, _) => db | Err _ => sample_db end.
Definition sample_release : SearchLease :=
  match sample_releases with
  | Ok (_, l :: _) => l
  | _ => mkLease sample_key [] 0 0 0 0 [] [] 0 false
  end.

Lemma sample_leased_rows k r :
  searches sample_leased !! k = Some r -> k = sample_key.
Proof.
  intros Hk. apply elem_of_map_to_list in Hk.
  set (l := map_to_list _) in Hk. vm_compute in l. subst l.
  apply list_elem_of_singleton in Hk. by simplify_eq.
Qed.

Lemma stale_job_rejected_witness :
  owned_keys (t "job-1") sample_released = []
  /\ (forall wall c, JobID c = t "job-1" ->
        exists e, CompleteSearch no_digest sample_repo wall c sample_released = Err e)
  /\ (forall now' d', exists e, RenewSearchLease (t "job-1") now' d' sample_released = Err e).
Proof.
  apply (stale_job_rejected no_digest sample_repo (20 + minute) 5 minute [] [t "job-2"] sample_leased
           sample_released [sample_release] sample_release
           (sample_row (searches sample_leased !! sample_key)) (t "job-1")).
  - split.
    + intros k r Hk. pose proof (sample_leased_rows k r Hk) as ->.
      vm_compute in Hk. simplify_eq. split_and!; try done; vm_compute; done.
    + intros k1 k2 r1 r2 job H1 H2 _ _.
      by rewrite (sample_leased_rows _ _ H1), (sample_leased_rows _ _ H2).
  - vm_compute. reflexivity.
  - left.
  - vm_compute. reflexivity.
  - vm_compute. reflexivity.
  - intros Hin%list_elem_of_singleton. discriminate.
Defined.

Definition sample_claim : result QueueError (DB * bool) :=
  ClaimSearch 1 (t "en") (t "manual") 25 minute sample_leased.

Lemma claim_exclusive_witness :
  sample_claim = Ok (sample_leased, false)
  /\ exists r, searches sample_leased !! sample_key = Some r
       /\ unleased 25 r = false /\ lease_owner r <> Some (t "manual").
Proof.
  assert (sample_claim = Ok (sample_leased, false)) as Hc by (vm_compute; reflexivity).
  split; [exact Hc|].
  destruct (claim_exclusive _ _ _ _ _ _ _ _ Hc) as [Hwon _]. by apply Hwon.
Defined.
