(* ===== verification/Schedule.v ===== *)
(** * Retry schedules (src/internal/schedule)

    The delay tables of backoff.go and the completions scheduler.go builds from
    them. The theorems bound every delay, show that a retry never falls inside
    the six-hour provider search cache, and relate the lifetime of a resume
    list to the gap the missing schedule leaves before the next search. *)
From S2P Require Import Prelude GoText GoFloat Domain SearchQueue.

#[local] Open Scope Z_scope.

Definition missingIntervals : list duration :=
  [0; 6 * hour; 6 * hour; 12 * hour; 48 * hour; 96 * hour; 168 * hour; 336 * hour].

Definition AgedMissingAttempt : Z := 6.

Definition workflowFailureDelays : list duration :=
  [minute; 5 * minute; 15 * minute; hour; 6 * hour; 24 * hour].

Definition failureDelays : list duration := [minute; 5 * minute; 15 * minute; hour].

(** The float constant [0.2]. *)
Definition jitter_share : float64 := round (1 # 5).

(** Both clamps keep the index inside the table. Without fused multiply-add:
    [1 + 0.2*u] rounds twice. *)
Definition MissingDelay (attempt : Z) (randomUnit : float64) : duration :=
  if attempt <=? 0 then 0 else
  let attempt := if Z.of_nat (length missingIntervals) <=? attempt
                 then Z.of_nat (length missingIntervals) - 1 else attempt in
  let randomUnit := if flt randomUnit 0 then 0%Q else if flt 1 randomUnit then 1%Q else randomUnit in
  let factor := fadd 1 (fmul jitter_share randomUnit) in
  trunc (fmul (of_int (missingIntervals !!! Z.to_nat attempt)) factor).

Definition delayAt (attempt : Z) (delays : list duration) : duration :=
  let attempt := if attempt <? 0 then 0 else attempt in
  let attempt := if Z.of_nat (length delays) <=? attempt
                 then Z.of_nat (length delays) - 1 else attempt in
  delays !!! Z.to_nat attempt.

Definition FailureDelay (attempt : Z) : duration := delayAt attempt failureDelays.
Definition WorkflowFailureDelay (attempt : Z) : duration := delayAt attempt workflowFailureDelays.

Definition UpgradeDelay (exactHash : bool) (score : Z) : duration * bool :=
  if exactHash || (score <? 35) || (100 <? score) then (0, false)
  else if 85 <=? score then (90 * 24 * hour, true)
  else if 60 <=? score then (30 * 24 * hour, true)
  else (7 * 24 * hour, true).

(** A scheduler at one clock reading and one random unit. *)
Record Scheduler := mkScheduler { Now : instant; RandomUnit : float64; AgedAfter : duration }.

Definition aged (s : Scheduler) (releasedAt now : instant) : bool :=
  (0 <? AgedAfter s) && negb (is_zero releasedAt) && negb (now <? releasedAt)
  && (AgedAfter s <=? time_sub now releasedAt).

(** A completion whose fields are all zero but the job and the outcome. *)
Definition zero_completion (jobID outcome : text) : SearchCompletion :=
  {| JobID := jobID; Outcome := outcome; NextAttemptAt := zero_time;
     AdvanceMissingAttempt := false; AdvanceUpgradeAttempt := false; AdvanceFailureAttempt := false;
     ResetMissingAttempt := false; MissingAttemptFloor := 0; ResetFailureAttempt := false;
     CPriority := 0; ResumeProviders := []; ResumeRouteSignature := []; PreserveResume := false;
     ResumeSavedAt := zero_time; PreserveQueueOrder := false; CHistory := None;
     FinishedAt := zero_time; ClearReplaceInstalled := false |}.

Definition Missing (s : Scheduler) (jobID : text) (attempt : Z) (releasedAt : instant)
    : SearchCompletion :=
  let now := Now s in
  let jump := aged s releasedAt now && (attempt <? AgedMissingAttempt) in
  let attempt := if jump then AgedMissingAttempt else attempt in
  {| JobID := jobID; Outcome := t "missing"; NextAttemptAt := now + MissingDelay attempt (RandomUnit s);
     AdvanceMissingAttempt := true; AdvanceUpgradeAttempt := false; AdvanceFailureAttempt := false;
     ResetMissingAttempt := false; MissingAttemptFloor := if jump then AgedMissingAttempt else 0;
     ResetFailureAttempt := true; CPriority := SearchPriorityMissing; ResumeProviders := [];
     ResumeRouteSignature := []; PreserveResume := false; ResumeSavedAt := zero_time;
     PreserveQueueOrder := false; CHistory := None; FinishedAt := zero_time;
     ClearReplaceInstalled := false |}.

(** [None] is the index panic of an attempt below -1. *)
Definition ResumeTTL (s : Scheduler) (attempt : Z) (releasedAt : instant) : option duration :=
  let next := attempt + 1 in
  let next := if aged s releasedAt (Now s) && (next <? AgedMissingAttempt)
              then AgedMissingAttempt else next in
  let next := Z.min next (Z.of_nat (length missingIntervals) - 1) in
  if next <? 0 then None
  else Z.max (6 * hour) <$> missingIntervals !! Z.to_nat next.

Definition Failure (s : Scheduler) (jobID : text) (failureAttempt : Z) (outcome : text)
    : SearchCompletion :=
  {| JobID := jobID; Outcome := outcome; NextAttemptAt := Now s + WorkflowFailureDelay failureAttempt;
     AdvanceMissingAttempt := false; AdvanceUpgradeAttempt := false; AdvanceFailureAttempt := true;
     ResetMissingAttempt := false; MissingAttemptFloor := 0; ResetFailureAttempt := false;
     CPriority := 0; ResumeProviders := []; ResumeRouteSignature := []; PreserveResume := false;
     ResumeSavedAt := zero_time; PreserveQueueOrder := false; CHistory := None;
     FinishedAt := zero_time; ClearReplaceInstalled := false |}.

(** ** Delays *)

(** The step of the missing schedule, as the comment on the table describes
    it: the clamped interval. *)
Definition missing_step (attempt : Z) : duration :=
  missingIntervals !!! Z.to_nat (Z.min attempt 7).

Lemma clamp_unit u : let v := if flt u 0 then 0%Q else if flt 1 u then 1%Q else u in (0 <= v <= 1)%Q.
Proof.
  destruct (flt u 0) eqn:E1; [split; discriminate|].
  destruct (flt 1 u) eqn:E2; [split; discriminate|].
  split; apply Qnot_lt_le; rewrite <- flt_spec; congruence.
Qed.

(** The index of a positive attempt is one of the seven retry steps. *)
Lemma retry_index n : 1 <= n -> exists i, (1 <= i <= 7)%nat /\ Z.min n 7 = Z.of_nat i.
Proof. intros. exists (Z.to_nat (Z.min n 7)). lia. Qed.

Lemma missing_delay_unfold n u :
  1 <= n -> exists v, (0 <= v <= 1)%Q
    /\ MissingDelay n u = trunc (fmul (of_int (missing_step n)) (fadd 1 (fmul jitter_share v))).
Proof.
  intros Hn. eexists. split; [apply (clamp_unit u)|]. unfold MissingDelay, missing_step.
  destruct (Z.leb_spec n 0); [lia|]. cbv zeta.
  change (Z.of_nat (length missingIntervals)) with 8.
  destruct (Z.leb_spec 8 n); do 5 f_equal; lia.
Qed.

(** The jitter factor lies between the factors of the extreme units. *)
Lemma jittered_bounds d v :
  (0 <= v <= 1)%Q -> (0 <= of_int d)%Q ->
  trunc (fmul (of_int d) 1) <= trunc (fmul (of_int d) (fadd 1 (fmul jitter_share v)))
  <= trunc (fmul (of_int d) (fadd 1 (fmul jitter_share 1))).
Proof.
  intros [Hv0 Hv1] Hd.
  assert (0 <= jitter_share)%Q as Hj by (vm_compute; discriminate).
  assert (fmul jitter_share 0 <= fmul jitter_share v)%Q as H0 by (apply fmul_mono_l; [done|apply Qle_refl|done]).
  assert (fmul jitter_share v <= fmul jitter_share 1)%Q as H1 by (apply fmul_mono_l; [done|done|done]).
  change (fmul jitter_share 0) with 0%Q in H0.
  assert (fadd 1 0 <= fadd 1 (fmul jitter_share v))%Q as H2 by (apply fadd_mono_l; [discriminate|apply Qle_refl|done]).
  assert (fadd 1 (fmul jitter_share v) <= fadd 1 (fmul jitter_share 1))%Q as H3 by (apply fadd_mono_l; [discriminate|done|done]).
  assert (1 <= fadd 1 (fmul jitter_share v))%Q as H4 by (eapply Qle_trans; [|exact H2]; vm_compute; discriminate).
  split; apply trunc_mono_nonneg.
  - apply round_nonneg, Qmult_le_0_compat; [done|discriminate].
  - apply fmul_mono_l; [done|discriminate|done].
  - apply round_nonneg, Qmult_le_0_compat; [done|lra].
  - apply fmul_mono_l; [done|lra|done].
Qed.

Lemma missing_delay_bounds_index (i : nat) v :
  (1 <= i <= 7)%nat -> (0 <= v <= 1)%Q ->
  let d := missingIntervals !!! i in
  6 * hour <= d /\ d <= trunc (fmul (of_int d) (fadd 1 (fmul jitter_share v))) <= d + d / 5.
Proof.
  intros Hi Hv d.
  assert (0 <= of_int d)%Q as Hd by (subst d; do 8 (destruct i; [vm_compute; discriminate|]); lia).
  pose proof (jittered_bounds d v Hv Hd) as [Hlo Hhi].
  assert (6 * hour <= d /\ d <= trunc (fmul (of_int d) 1)
    /\ trunc (fmul (of_int d) (fadd 1 (fmul jitter_share 1))) <= d + d / 5) as (H1 & H2 & H3); [|lia].
  clear Hlo Hhi Hd Hv. subst d.
  do 8 (destruct i; [try lia; vm_compute; repeat split; discriminate|]). lia.
Qed.

Lemma missing_delay_bounds n u :
  1 <= n -> 6 * hour <= missing_step n
            /\ missing_step n <= MissingDelay n u <= missing_step n + missing_step n / 5.
Proof.
  intros Hn. destruct (missing_delay_unfold n u Hn) as (v & Hv & ->).
  destruct (retry_index n Hn) as (i & Hi & Hmin). unfold missing_step. rewrite Hmin, Nat2Z.id.
  by apply missing_delay_bounds_index.
Qed.

Lemma missing_step_mono n m : 1 <= n -> n <= m -> missing_step n <= missing_step m.
Proof.
  intros Hn Hm. destruct (retry_index n Hn) as (i & Hi & Hni), (retry_index m ltac:(lia)) as (j & Hj & Hmj).
  assert (i <= j)%nat as Hij by lia. unfold missing_step. rewrite Hni, Hmj, !Nat2Z.id. clear - Hi Hj Hij.
  do 8 (destruct i; [do 8 (destruct j; [try lia; vm_compute; discriminate|]); lia|]). lia.
Qed.

Lemma delayAt_in delays attempt : delays <> [] -> delayAt attempt delays ∈ delays.
Proof.
  intros Hne. unfold delayAt. cbv zeta.
  assert (0 < length delays)%nat by (destruct delays; [done|simpl; lia]).
  apply list_elem_of_lookup. eexists. apply list_lookup_lookup_total_lt.
  destruct (Z.ltb_spec attempt 0); destruct (Z.leb_spec (Z.of_nat (length delays)) 0);
    try destruct (Z.leb_spec (Z.of_nat (length delays)) attempt); lia.
Qed.

Lemma delayAt_clamped delays attempt :
  delays <> [] ->
  delayAt attempt delays
  = delays !!! Z.to_nat (Z.max 0 (Z.min attempt (Z.of_nat (length delays) - 1))).
Proof.
  intros Hne. unfold delayAt. cbv zeta. f_equal.
  assert (0 < length delays)%nat by (destruct delays; [done|simpl; lia]).
  destruct (Z.ltb_spec attempt 0); repeat match goal with |- context [if ?b <=? ?c then _ else _] =>
    destruct (Z.leb_spec b c) end; lia.
Qed.

(** ** Theorems *)

(** The attempt whose step [Missing] uses: released media jumps to the weekly
    step. *)
Definition effective_attempt (s : Scheduler) (attempt : Z) (releasedAt : instant) : Z :=
  if aged s releasedAt (Now s) then Z.max attempt AgedMissingAttempt else attempt.

Lemma missing_next s jobID attempt releasedAt :
  NextAttemptAt (Missing s jobID attempt releasedAt)
  = Now s + MissingDelay (effective_attempt s attempt releasedAt) (RandomUnit s).
Proof.
  unfold Missing, effective_attempt. simpl. do 2 f_equal.
  destruct (aged s releasedAt (Now s)); simpl; [|done].
  unfold AgedMissingAttempt. destruct (Z.ltb_spec attempt 6); lia.
Qed.

(** A retry of a missing subtitle never falls inside the six-hour provider
    search cache: whatever the random unit (even outside [0,1]), the next
    attempt is the step's interval later, or up to 20 percent more; the step
    of old releases is at least a week, and later attempts never wait less
    than the step of an earlier one. *)
Theorem missing_retry_spacing s jobID attempt releasedAt :
  1 <= attempt ->
  let c := Missing s jobID attempt releasedAt in
  let wait := NextAttemptAt c - Now s in
  let step := missing_step (effective_attempt s attempt releasedAt) in
  6 * hour <= step /\ step <= wait <= step + step / 5
  /\ (aged s releasedAt (Now s) = true -> 7 * 24 * hour <= wait)
  /\ (forall n, 1 <= n <= attempt -> missing_step n <= step).
Proof.
  intros Ha c wait step. unfold wait, c. rewrite missing_next.
  assert (attempt <= effective_attempt s attempt releasedAt) as He.
  { unfold effective_attempt. destruct (aged _ _ _); lia. }
  destruct (missing_delay_bounds (effective_attempt s attempt releasedAt) (RandomUnit s)) as [H1 H2]; [lia|].
  fold step in H1, H2. split_and!; [done|lia|lia| |].
  - intros Hag. assert (missing_step 6 <= step) as Hs.
    { apply missing_step_mono; [lia|]. unfold effective_attempt, AgedMissingAttempt. rewrite Hag. lia. }
    change (missing_step 6) with (7 * 24 * hour) in Hs. lia.
  - intros n Hn. apply missing_step_mono; lia.
Qed.

(** A clean-empty list outlives no search it should not: its lifetime at an
    attempt is defined, at least the six-hour cache, and exactly the step the
    missing schedule waits after that search, so the wait is never shorter and
    at most 20 percent longer. *)
Theorem resume_ttl_matches_schedule s jobID attempt releasedAt :
  0 <= attempt ->
  exists ttl, ResumeTTL s attempt releasedAt = Some ttl
    /\ 6 * hour <= ttl
    /\ let wait := NextAttemptAt (Missing s jobID (attempt + 1) releasedAt) - Now s in
       ttl <= wait <= ttl + ttl / 5.
Proof.
  intros Ha.
  destruct (missing_delay_bounds (effective_attempt s (attempt + 1) releasedAt) (RandomUnit s)) as [H1 H2].
  { unfold effective_attempt. destruct (aged _ _ _); lia. }
  exists (missing_step (effective_attempt s (attempt + 1) releasedAt)).
  split; [|split; [done|cbv zeta; rewrite missing_next; lia]].
  set (n := effective_attempt s (attempt + 1) releasedAt) in *.
  assert ((if aged s releasedAt (Now s) && (attempt + 1 <? AgedMissingAttempt)
           then AgedMissingAttempt else attempt + 1) = n) as Hn.
  { unfold n, effective_attempt, AgedMissingAttempt. destruct (aged _ _ _); simpl; [|done].
    destruct (Z.ltb_spec (attempt + 1) 6); lia. }
  assert (1 <= n) as Hn1 by (unfold n, effective_attempt; destruct (aged _ _ _); lia).
  unfold ResumeTTL. rewrite Hn. change (Z.of_nat (length missingIntervals) - 1) with 7.
  destruct (Z.ltb_spec (Z.min n 7) 0); [lia|].
  rewrite list_lookup_lookup_total_lt by (change (length missingIntervals) with 8%nat; lia).
  change (missingIntervals !!! Z.to_nat (Z.min n 7)) with (missing_step n).
  change (Some (Z.max (6 * hour) (missing_step n)) = Some (missing_step n)). f_equal. lia.
Qed.

(** A failed workflow is retried between one minute and 24 hours later, no
    sooner after more failures, and its completion advances only the failure
    count. *)
Theorem failure_backoff s jobID n m outcome :
  let wait k := NextAttemptAt (Failure s jobID k outcome) - Now s in
  minute <= wait n <= 24 * hour
  /\ (n <= m -> wait n <= wait m)
  /\ AdvanceFailureAttempt (Failure s jobID n outcome) = true
  /\ AdvanceMissingAttempt (Failure s jobID n outcome) = false
  /\ ResetFailureAttempt (Failure s jobID n outcome) = false.
Proof.
  intros wait.
  assert (forall k, wait k = workflowFailureDelays !!! Z.to_nat (Z.max 0 (Z.min k 5))) as Hw.
  { intros k. unfold wait. simpl. unfold WorkflowFailureDelay. rewrite delayAt_clamped by done.
    change (Z.of_nat (length workflowFailureDelays) - 1) with 5. apply Z.add_simpl_l. }
  rewrite !Hw.
  assert (exists i, (i <= 5)%nat /\ Z.to_nat (Z.max 0 (Z.min n 5)) = i) as (i & Hi & Ei) by (eexists; split; [|done]; lia).
  assert (exists j, (j <= 5)%nat /\ Z.to_nat (Z.max 0 (Z.min m 5)) = j) as (j & Hj & Ej) by (eexists; split; [|done]; lia).
  rewrite Ei, Ej. split_and!; [| | |done|done|done].
  - clear - Hi. do 6 (destruct i; [vm_compute; discriminate|]). lia.
  - clear - Hi. do 6 (destruct i; [vm_compute; discriminate|]). lia.
  - intros Hnm. assert (i <= j)%nat as Hij by lia. clear - Hi Hj Hij.
    do 6 (destruct i; [do 6 (destruct j; [try lia; vm_compute; discriminate|]); lia|]). lia.
Qed.

(** ** Witnesses *)

Definition sample_scheduler : Scheduler := mkScheduler (1000 * hour) (1 # 2) (30 * 24 * hour).

Lemma missing_retry_spacing_witness :
  NextAttemptAt (Missing sample_scheduler (t "job") 3 (1000 * hour)) - 1000 * hour = 13 * hour + 12 * minute
  /\ 6 * hour <= missing_step (effective_attempt sample_scheduler 3 (1000 * hour)).
Proof.
  split; [vm_compute; reflexivity|].
  apply (missing_retry_spacing sample_scheduler (t "job") 3 (1000 * hour)). lia.
Defined.

Lemma resume_ttl_matches_schedule_witness :
  exists ttl, ResumeTTL sample_scheduler 2 (1000 * hour) = Some ttl /\ 6 * hour <= ttl.
Proof.
  destruct (resume_ttl_matches_schedule sample_scheduler (t "job") 2 (1000 * hour)) as (ttl & H1 & H2 & _);
    [lia|]. exists ttl. by split.
Defined.

Lemma failure_backoff_witness :
  NextAttemptAt (Failure sample_scheduler (t "job") 2 []) <= NextAttemptAt (Failure sample_scheduler (t "job") 4 []).
Proof.
  destruct (failure_backoff sample_scheduler (t "job") 2 4 []) as (_ & H & _).
  specialize (H ltac:(lia)). lia.
Defined.
