(* ===== verification/RateHeaders.v ===== *)
(** * Rate-limit headers (src/internal/provider/rateheaders.go)

    [ParseRateLimit] collects the rate-limit windows a response reports in its
    headers and selects the most restrictive one. The standard library's
    RFC 3339 and HTTP date parsers are a parameter ([HeaderTimes]): every
    theorem holds whatever time they read. *)
From S2P Require Import Prelude GoText GoFloat.

#[local] Open Scope Z_scope.

(** [Header.Get] by canonical name; an absent header is the empty text. *)
Definition Header := text -> text.
Definition header_del (name : text) (h : Header) : Header :=
  fun n => if bool_decide (n = name) then [] else h n.
Definition no_headers : Header := fun _ => [].

(** [time.Parse(time.RFC3339Nano, _)] and [http.ParseTime]. *)
Class HeaderTimes := {
  parse_rfc3339 : text -> option instant;
  parse_http_time : text -> option instant;
}.

Definition MaxProviderCooldown : duration := 48 * hour.
Definition deltaResetLimit : Z := 10 * 365 * 24 * 60 * 60.

Record RateLimitWindow := mkWindow {
  WName : text;
  WLimit : Z;
  WRemaining : Z;
  WResetAt : instant;
  WSource : text;
}.

(** [time.Unix(sec, 0)]: the internal seconds since year 1 wrap around. *)
Definition unix_time (sec : Z) : instant :=
  (wrap64 (sec + 62135596800) - 62135596800) * second.

(** [n, _ := strconv.ParseInt(_, 10, 64)]: the nearest bound when out of range. *)
Definition parse_int_lossy (s : text) : Z :=
  match atoi s with
  | Some n => n
  | None =>
      let '(sign, digits) :=
        match s with
        | 45%N :: s' => (-1, s')
        | 43%N :: s' => (1, s')
        | _ => (1, s)
        end in
      if negb (forallb ascii_digit digits) || (length digits =? 0)%nat then 0
      else if sign <? 0 then - 2 ^ 63 else 2 ^ 63 - 1
  end.

Definition quote : rune := 34%N.

Section headers.
Context `{Unicode} `{HeaderTimes}.

Definition afterSeconds (now : instant) (seconds : Z) : instant :=
  let limit := MaxProviderCooldown / second in
  let seconds := if limit <? seconds then limit + 1 else seconds in
  now + seconds * second.

Definition splitHeaderValues (raw : text) : list text :=
  match trim_space raw with [] => [] | _ => split_rune 44%N raw end.

(** The name and the parameters of one [name;key=value;...] item. *)
Definition parseParameterized (raw : text) : text * gmap text text :=
  let parts := split_rune 59%N raw in
  let name := trim (N.eqb quote) (trim_space (hd [] parts)) in
  let '(name, parameters) :=
    if contains (t "=") name then
      let '(key, value, _) := cut 61%N name in
      (t "default", {[ to_lower (trim_space key) := trim_space value ]})
    else (name, ∅) in
  (name, fold_left (fun parameters part =>
     let '(key, value, ok) := cut 61%N part in
     if ok then <[to_lower (trim_space key) := trim (N.eqb quote) (trim_space value)]> parameters
     else parameters) (tl parts) parameters).

(** The first listed name that is present decides. *)
Fixpoint parseIntParameter (parameters : gmap text text) (names : list text) : option Z :=
  match names with
  | [] => None
  | name :: names =>
      match parameters !! name with
      | Some raw => atoi raw
      | None => parseIntParameter parameters names
      end
  end.

Definition parsePolicies (raw : text) : gmap text Z :=
  fold_left (fun policies item =>
    let '(name, parameters) := parseParameterized item in
    match parseIntParameter parameters [t "q"; t "limit"] with
    | Some limit => if 0 <? limit then <[name := limit]> policies else policies
    | None => policies
    end) (splitHeaderValues raw) ∅.

Definition rateLimitEntries (raw : text) : list text :=
  let entries := splitHeaderValues raw in
  let dictionary := negb (bool_decide (entries = []))
    && forallb (fun e => negb (contains (t ";") e) && contains (t "=") e) entries in
  if dictionary then [join (t ";") entries] else entries.

Definition parseXReset (now : instant) (raw : text) : option instant :=
  let raw := trim_space raw in
  match atoi raw with
  | Some reset =>
      if (0 <? reset) && (reset <? deltaResetLimit) then Some (afterSeconds now reset)
      else Some (unix_time reset)
  | None => parse_rfc3339 raw
  end.

Definition parseRetryAfter (now : instant) (raw : text) : option instant :=
  let raw := trim_space raw in
  match raw with
  | [] => None
  | _ =>
      let date := match parse_http_time raw with
                  | Some parsed => if now <? parsed then Some parsed else None
                  | None => None
                  end in
      match atoi raw with
      | Some seconds => if 0 <=? seconds then Some (afterSeconds now seconds) else date
      | None => date
      end
  end.

Definition moreRestrictive (candidate current : RateLimitWindow) : bool :=
  let candidateExhausted := WRemaining candidate <=? 0 in
  let currentExhausted := WRemaining current <=? 0 in
  if negb (eqb candidateExhausted currentExhausted) then candidateExhausted
  else if candidateExhausted then WResetAt current <? WResetAt candidate
  else
    let ratio w := fdiv (of_int (WRemaining w)) (of_int (Z.max (WLimit w) 1)) in
    if negb (feq (ratio candidate) (ratio current)) then flt (ratio candidate) (ratio current)
    else WResetAt current <? WResetAt candidate.

(** One entry of the RateLimit header. *)
Definition entry_window (now : instant) (policies : gmap text Z) (entry : text)
    : option RateLimitWindow :=
  let '(name, parameters) := parseParameterized entry in
  match parseIntParameter parameters [t "r"; t "remaining"],
        parseIntParameter parameters [t "t"; t "reset"] with
  | Some remaining, Some reset =>
      if reset <=? 0 then None
      else
        let limit := match parseIntParameter parameters [t "limit"; t "q"] with
                     | Some direct => direct
                     | None => default 0 (policies !! name)
                     end in
        Some (mkWindow name limit remaining (afterSeconds now reset) (t "ratelimit"))
  | _, _ => None
  end.

(** The separate RateLimit headers of the earlier drafts. *)
Definition draft_window (now : instant) (h : Header) : option RateLimitWindow :=
  match atoi (trim_space (h (t "RateLimit-Remaining"))),
        atoi (trim_space (h (t "RateLimit-Reset"))) with
  | Some remaining, Some reset =>
      if 0 <? reset then
        Some (mkWindow (t "ratelimit") (parse_int_lossy (trim_space (h (t "RateLimit-Limit"))))
                remaining (afterSeconds now reset) (t "ratelimit"))
      else None
  | _, _ => None
  end.

Definition x_window (now : instant) (h : Header) : option RateLimitWindow :=
  match atoi (trim_space (h (t "X-RateLimit-Remaining"))),
        parseXReset now (h (t "X-RateLimit-Reset")) with
  | Some remaining, Some resetAt =>
      if now <? resetAt then
        let limit := parse_int_lossy (trim_space (h (t "X-RateLimit-Limit"))) in
        let limit := if limit <=? 0 then Z.max remaining 1 else limit in
        Some (mkWindow (t "x-ratelimit") limit remaining resetAt (t "x-ratelimit"))
      else None
  | _, _ => None
  end.

Definition retry_window (now : instant) (h : Header) : option RateLimitWindow :=
  match parseRetryAfter now (h (t "Retry-After")) with
  | Some retryAt => Some (mkWindow (t "retry-after") 0 0 retryAt (t "retry-after"))
  | None => None
  end.

Definition json_window (now : instant) (resetAt : instant) : option RateLimitWindow :=
  if now <? resetAt then Some (mkWindow (t "json") 0 0 resetAt (t "json")) else None.

(** Every window the response reports, in the order it is looked for. *)
Definition rate_windows (now : instant) (h : Header) (jsonResets : list instant)
    : list RateLimitWindow :=
  omap (entry_window now (parsePolicies (h (t "RateLimit-Policy"))))
    (rateLimitEntries (h (t "RateLimit")))
  ++ option_list (draft_window now h)
  ++ option_list (x_window now h)
  ++ option_list (retry_window now h)
  ++ omap (json_window now) jsonResets.

Definition ParseRateLimit (now : instant) (h : Header) (jsonResets : list instant)
    : option RateLimitWindow :=
  match rate_windows now h jsonResets with
  | [] => None
  | w :: ws => Some (best_by moreRestrictive w ws)
  end.

(** ** Lemmas *)

Lemma feq_spec x y : feq x y = true <-> (x == y)%Q.
Proof. apply Qeq_bool_iff. Qed.

Lemma flt_false x y : flt x y = false <-> (y <= x)%Q.
Proof.
  unfold flt. rewrite negb_false_iff. apply Qle_bool_iff.
Qed.

Lemma flt_asym x y : flt x y = true -> flt y x = false.
Proof. rewrite flt_spec, flt_false. apply Qlt_le_weak. Qed.

Lemma feq_sym x y : feq x y = feq y x.
Proof. apply eq_true_iff_eq. rewrite !feq_spec. split; by intros ->. Qed.

Lemma moreRestrictive_asym x y : moreRestrictive x y = true -> moreRestrictive y x = false.
Proof.
  unfold moreRestrictive.
  destruct (WRemaining x <=? 0), (WRemaining y <=? 0); simpl; try done; rewrite ?Z.ltb_lt, ?Z.ltb_ge;
    [lia|].
  rewrite (feq_sym (fdiv (of_int (WRemaining y)) _)).
  destruct (feq _ _) eqn:E; simpl; [rewrite Z.ltb_lt, Z.ltb_ge; lia|apply flt_asym].
Qed.

Lemma moreRestrictive_trans x y z :
  moreRestrictive x y = false -> moreRestrictive y z = false -> moreRestrictive x z = false.
Proof.
  unfold moreRestrictive.
  destruct (WRemaining x <=? 0), (WRemaining y <=? 0), (WRemaining z <=? 0); simpl; try done;
    rewrite ?Z.ltb_ge; [lia|].
  set (rx := fdiv (of_int (WRemaining x)) _). set (ry := fdiv (of_int (WRemaining y)) _).
  set (rz := fdiv (of_int (WRemaining z)) _).
  destruct (feq rx ry) eqn:E1, (feq ry rz) eqn:E2, (feq rx rz) eqn:E3; simpl;
    rewrite ?Z.ltb_ge, ?flt_false; try lia; rewrite ?feq_spec in *;
    try (intros; exfalso; lra);
    repeat match goal with
    | H : feq ?a ?b = false |- _ =>
        assert (~ (a == b)%Q) by (rewrite <- feq_spec; congruence); clear H
    end; intros; try lra; exfalso; lra.
Qed.

Lemma afterSeconds_bounds now s :
  0 <= s -> now <= afterSeconds now s <= now + MaxProviderCooldown + second
            /\ (0 < s -> now < afterSeconds now s)
            /\ (s * second <= MaxProviderCooldown -> afterSeconds now s = now + s * second).
Proof.
  intros Hs. unfold afterSeconds, MaxProviderCooldown, hour, minute, second.
  change (48 * (60 * (60 * 1000000000)) / 1000000000) with 172800.
  destruct (Z.ltb_spec 172800 s); lia.
Qed.
End headers.

(** ** Theorems *)

Lemma elem_of_olist {A} (x : A) o : x ∈ option_list o <-> o = Some x.
Proof.
  destruct o as [a|]; simpl; [rewrite list_elem_of_singleton|rewrite elem_of_nil];
    split; by try intros [= ->]; intros.
Qed.

Section rate_theorems.
Context `{Unicode} `{HeaderTimes}.

Lemma entry_window_future now policies e w :
  entry_window now policies e = Some w -> now < WResetAt w <= now + MaxProviderCooldown + second.
Proof.
  unfold entry_window. destruct (parseParameterized e) as [name ps]. intros Hw.
  destruct (parseIntParameter ps [t "r"; t "remaining"]); [|done].
  destruct (parseIntParameter ps [t "t"; t "reset"]) as [s|]; [|done].
  destruct (Z.leb_spec s 0); [done|]. simplify_eq. simpl.
  destruct (afterSeconds_bounds now s) as (? & ? & _); lia.
Qed.

Lemma draft_window_future now h w :
  draft_window now h = Some w -> now < WResetAt w <= now + MaxProviderCooldown + second.
Proof.
  unfold draft_window. intros Hw. destruct (atoi _); [|done].
  destruct (atoi _) as [s|]; [|done]. destruct (Z.ltb_spec 0 s); [|done]. simplify_eq. simpl.
  destruct (afterSeconds_bounds now s) as (? & ? & _); lia.
Qed.

Lemma x_window_future now h w : x_window now h = Some w -> now < WResetAt w.
Proof.
  unfold x_window. intros Hw. destruct (atoi _); [|done].
  destruct (parseXReset _ _) as [s|]; [|done]. destruct (Z.ltb_spec now s); by simplify_eq.
Qed.

Lemma retry_window_future now h w :
  retry_window now h = Some w -> now <= WResetAt w /\ WSource w = t "retry-after".
Proof.
  unfold retry_window, parseRetryAfter. intros Hw.
  set (raw := trim_space _) in Hw. destruct raw as [|c raw]; [done|].
  destruct (atoi _) as [s|].
  - destruct (Z.leb_spec 0 s).
    + simplify_eq. simpl. destruct (afterSeconds_bounds now s) as (? & _); [done|]. by split; [lia|].
    + destruct (parse_http_time _) as [p|]; [|done]. destruct (Z.ltb_spec now p); [|done].
      simplify_eq. simpl. by split; [lia|].
  - destruct (parse_http_time _) as [p|]; [|done]. destruct (Z.ltb_spec now p); [|done].
    simplify_eq. simpl. by split; [lia|].
Qed.

Lemma rate_window_cases now h js w :
  w ∈ rate_windows now h js ->
  now <= WResetAt w /\ (WSource w <> t "retry-after" -> now < WResetAt w).
Proof.
  unfold rate_windows. rewrite !elem_of_app, !list_elem_of_omap, !elem_of_olist.
  intros [(e & _ & He%entry_window_future)|[Hd%draft_window_future|[Hx%x_window_future|
    [[Hr1 Hr2]%retry_window_future|(j & _ & Hj)]]]]; try (split; [lia|intros; lia]).
  - split; [lia|]. by rewrite Hr2.
  - unfold json_window in Hj. destruct (Z.ltb_spec now j); simplify_eq. simpl. split; [lia|done].
Qed.

(** [ParseRateLimit] reports the most restrictive window of a response:
    nothing exactly when no header reports a window; otherwise one of the
    reported windows, that none beats; an exhausted window is never hidden by
    one with capacity, nor by an exhausted one that resets sooner; and the
    reset is never in the past. *)
Theorem parse_rate_limit_most_restrictive now h js :
  match ParseRateLimit now h js with
  | None => rate_windows now h js = []
  | Some w =>
      w ∈ rate_windows now h js
      /\ now <= WResetAt w
      /\ (WSource w <> t "retry-after" -> now < WResetAt w)
      /\ forall w', w' ∈ rate_windows now h js ->
           moreRestrictive w' w = false
           /\ (WRemaining w' <= 0 -> WRemaining w <= 0 /\ WResetAt w' <= WResetAt w)
  end.
Proof.
  unfold ParseRateLimit. destruct (rate_windows now h js) as [|x l] eqn:E; [done|].
  pose proof (best_by_in moreRestrictive x l) as Hin. rewrite <- E in *.
  split; [done|]. pose proof (rate_window_cases _ _ _ _ Hin) as [Hr1 Hr2].
  split_and!; [done|done|]. intros w' Hw'. rewrite E in Hw'.
  pose proof (best_by_best moreRestrictive moreRestrictive_asym moreRestrictive_trans x l w' Hw') as Hb.
  split; [done|]. intros Hw0. revert Hb. generalize (best_by moreRestrictive x l). intros b.
  unfold moreRestrictive. destruct (Z.leb_spec (WRemaining w') 0); [|lia].
  destruct (Z.leb_spec (WRemaining b) 0); simpl; [|done]. intros Hb. bools. lia.
Qed.
End rate_theorems.

(** ** Examples *)

#[export] Instance no_dates : HeaderTimes := {| parse_rfc3339 _ := None; parse_http_time _ := None |}.

Definition header_list (l : list (string * string)) : Header :=
  fun n => match find (fun kv => bool_decide (n = t (fst kv))) l with Some kv => t (snd kv) | None => [] end.

Example draft_08 :
  ParseRateLimit 0 (header_list [("RateLimit-Policy", "burst;q=10, daily;q=1000");
                                 ("RateLimit", "burst;r=2;t=1, daily;r=0;t=3600")]%string) []
  = Some (mkWindow (t "daily") 1000 0 hour (t "ratelimit")).
Proof. vm_compute. reflexivity. Qed.

Example draft_07 :
  ParseRateLimit 0 (header_list [("RateLimit", "limit=10, remaining=0, reset=30")]%string) []
  = Some (mkWindow (t "default") 10 0 (30 * second) (t "ratelimit")).
Proof. vm_compute. reflexivity. Qed.

Example retry_after_year :
  ParseRateLimit 0 (header_list [("Retry-After", "31536000")]%string) []
  = Some (mkWindow (t "retry-after") 0 0 (MaxProviderCooldown + second) (t "retry-after")).
Proof. vm_compute. reflexivity. Qed.
