(* ===== verification/ProviderGate.v ===== *)
(** * The provider gate (src/internal/provider/limiter.go, availability.go, transport.go)

    Every provider has, per operation scope, one persisted state: a permanent
    disable, a quota cooldown or a transient-failure circuit. The gate decides
    from it whether a request may be sent, and the transport turns responses
    into state. The theorems show that a cooldown or disable in effect is never
    shortened or lifted by a response, that no cooldown exceeds the 48-hour cap,
    and what each response does.

    An operation of the gate is one step under the gate's state lock at one
    clock reading. Log events are not modelled. *)
From S2P Require Import Prelude GoText RateHeaders.

#[local] Open Scope Z_scope.

Inductive Operation := OperationAll | OperationSearch | OperationDownload
  | OperationDownloadTransfer | OperationAuth.

#[export] Instance Operation_eq_dec : EqDecision Operation.
Proof. solve_decision. Defined.

#[export] Instance Operation_countable : Countable Operation.
Proof.
  refine (inj_countable'
    (fun o => match o with OperationAll => 0 | OperationSearch => 1 | OperationDownload => 2
              | OperationDownloadTransfer => 3 | OperationAuth => 4 end)%nat
    (fun n => match n with O => OperationAll | 1 => OperationSearch | 2 => OperationDownload
              | 3 => OperationDownloadTransfer | _ => OperationAuth end)%nat _).
  by intros [].
Defined.

Inductive CooldownKind := CooldownRateLimit | CooldownDownloadQuota | CooldownSearchQuota
  | CooldownServiceBusy | CooldownClientBlocked.

(** [string(kind)]. *)
Definition kind_text (k : CooldownKind) : text :=
  match k with
  | CooldownRateLimit => t "rate_limit"
  | CooldownDownloadQuota => t "download_quota"
  | CooldownSearchQuota => t "search_quota"
  | CooldownServiceBusy => t "service_busy"
  | CooldownClientBlocked => t "client_blocked"
  end.

(** ** Persisted states *)

Record ProviderState := mkState {
  Reason : text;
  Limit : Z;
  Remaining : Z;
  ResetAt : instant;
  Disabled : bool;
  FailureAttempt : Z;
}.

Definition zero_state : ProviderState := mkState [] 0 0 zero_time false 0.

Abbreviation state_key := (text * Operation)%type.

(** The provider_states table. Reading or writing it may fail for the length
    of an operation. *)
Record StateStore := mkStore {
  rows : gmap state_key ProviderState;
  readable : bool;
  writable : bool;
}.

Inductive GateError :=
| ErrAvailability
| ErrCooldown (suppressed : bool) (provider : text) (scope : Operation) (reason : text) (reset : instant)
| ErrDisabled (provider reason : text)
| ErrAuthentication
| ErrRedirect
| ErrRead
| ErrContext.

(** A reset is stored as [unixNano] and read back as [fromUnixNano]: the epoch
    itself reads as the zero time. *)
Definition stored_time (a : instant) : instant := if a =? 0 then zero_time else a.
Definition stored (s : ProviderState) : ProviderState :=
  mkState (Reason s) (Limit s) (Remaining s) (stored_time (ResetAt s)) (Disabled s) (FailureAttempt s).

(** [Ok None] is sql.ErrNoRows. *)
Definition GetProviderState (k : state_key) (db : StateStore) : result GateError (option ProviderState) :=
  if readable db then Ok (rows db !! k) else Err ErrAvailability.

Definition PutProviderState (k : state_key) (s : ProviderState) (db : StateStore)
    : result GateError StateStore :=
  if writable db then Ok (mkStore (<[k := stored s]> (rows db)) (readable db) (writable db))
  else Err ErrAvailability.

(** ** The gate *)

Definition transientFailureDelays : list duration := [minute; 5 * minute; 15 * minute; hour].
Definition transient_prefix : text := t "transient_".
Definition is_transient (reason : text) : bool := has_prefix transient_prefix reason.

Definition boundedReset (now : instant) (resetAt : instant) : instant :=
  let limit := now + MaxProviderCooldown in if limit <? resetAt then limit else resetAt.

Record Throttle := mkThrottle {
  TProvider : text;
  TScope : Operation;
  TReason : text;
  TLimit : Z;
  TRemaining : Z;
  TResetAt : instant;
  TDisabled : bool;
}.

Definition previousState (k : state_key) (db : StateStore) : result GateError (ProviderState * bool) :=
  let! s := GetProviderState k db in
  Ok (match s with Some s => (s, true) | None => (zero_state, false) end).

(** The state [persist] writes over [previous]. *)
Definition persisted_state (now : instant) (th : Throttle) (previous : ProviderState) (found : bool)
    : ProviderState :=
  let reset := boundedReset now (TResetAt th) in
  let state := mkState (TReason th) (TLimit th) (TRemaining th) reset (TDisabled th)
                 (FailureAttempt previous) in
  if Disabled previous then previous
  else if negb (Disabled state) && found && (Remaining previous <=? 0) && (now <? ResetAt previous)
          && negb (is_transient (Reason previous)) then
    let exhausted := (Remaining state <=? 0) && (now <? ResetAt state) in
    if negb exhausted || (ResetAt state <? ResetAt previous)
    then mkState (Reason previous) (Limit previous) (Remaining previous) (ResetAt previous)
           (Disabled state) (FailureAttempt state)
    else state
  else state.

(** The stored states and the reset that now applies. *)
Definition persist (now : instant) (th : Throttle) (db : StateStore)
    : result GateError (StateStore * instant) :=
  let reset := boundedReset now (TResetAt th) in
  let k := (TProvider th, TScope th) in
  let! (previous, found) := previousState k db in
  let state := persisted_state now th previous found in
  let! db := PutProviderState k state db in
  Ok (db, if negb (Disabled state) && (reset <? ResetAt state) then ResetAt state else reset).

Definition transient_reason (reason : text) : text :=
  match reason with
  | [] => t "transient_failure"
  | _ => if is_transient reason then reason else transient_prefix ++ reason
  end.

(** The state [RecordTransientFailure] writes over [existing]. *)
Definition failed_state (now : instant) (reason : text) (resetAt : instant) (existing : ProviderState)
    : ProviderState :=
  let attempt := if 0 <? FailureAttempt existing then FailureAttempt existing + 1 else 1 in
  let resetAt := boundedReset now resetAt in
  let resetAt :=
    if now <? resetAt then resetAt
    else now + transientFailureDelays !!! Z.to_nat (Z.min (attempt - 1) 3) in
  if Disabled existing then
    mkState (Reason existing) (Limit existing) (Remaining existing) (ResetAt existing) true attempt
  else if (Remaining existing <=? 0) && (now <? ResetAt existing) && negb (is_transient (Reason existing))
  then mkState (Reason existing) (Limit existing) (Remaining existing)
         (if resetAt <? ResetAt existing then ResetAt existing else resetAt) (Disabled existing) attempt
  else mkState (transient_reason reason) 0 0 resetAt false attempt.

Definition RecordTransientFailure (now : instant) (provider : text) (operation : Operation)
    (reason : text) (resetAt : instant) (db : StateStore) : result GateError (StateStore * ProviderState) :=
  let k := (provider, operation) in
  let! (existing, _) := previousState k db in
  let state := failed_state now reason resetAt existing in
  let! db := PutProviderState k state db in
  Ok (db, state).

(** The state [ResetTransientFailures] writes over a row with failures. *)
Definition recovered_state (s : ProviderState) : ProviderState :=
  if is_transient (Reason s) then mkState [] 0 0 zero_time false 0
  else mkState (Reason s) (Limit s) (Remaining s) (ResetAt s) (Disabled s) 0.

Definition ResetTransientFailures (provider : text) (operation : Operation) (db : StateStore)
    : result GateError StateStore :=
  let k := (provider, operation) in
  let! s := GetProviderState k db in
  match s with
  | None => Ok db
  | Some s => if FailureAttempt s =? 0 then Ok db else PutProviderState k (recovered_state s) db
  end.

(** ClearProviderState: an explicit retry of the provider by the owner. *)
Definition ClearProviderState (provider : text) (db : StateStore) : StateStore :=
  mkStore (filter (fun kv => fst (fst kv) <> provider) (rows db)) (readable db) (writable db).

(** The scope loop of [checkAvailability]; [blocked] is the cooldown found so
    far. *)
Fixpoint check_scopes (now : instant) (provider : text) (includeAuthCooldown : bool)
    (scopes : list Operation) (blocked : option (Operation * ProviderState)) (db : StateStore)
    : result GateError unit :=
  match scopes with
  | [] =>
      match blocked with
      | Some (scope, s) => Err (ErrCooldown true provider scope (Reason s) (ResetAt s))
      | None => Ok tt
      end
  | scope :: scopes =>
      let! s := GetProviderState (provider, scope) db in
      match s with
      | None => check_scopes now provider includeAuthCooldown scopes blocked db
      | Some s =>
          if Disabled s then Err (ErrDisabled provider (Reason s))
          else if bool_decide (scope = OperationAuth) && negb includeAuthCooldown then
            check_scopes now provider includeAuthCooldown scopes blocked db
          else
            let later := match blocked with None => true | Some (_, b) => ResetAt b <? ResetAt s end in
            check_scopes now provider includeAuthCooldown scopes
              (if (Remaining s <=? 0) && (now <? ResetAt s) && later then Some (scope, s) else blocked) db
      end
  end.

(** [canceled] is [ctx.Err() != nil]. *)
Definition checkAvailability (canceled : bool) (now : instant) (provider : text)
    (includeAuthCooldown : bool) (scopes : list Operation) (db : StateStore) : result GateError unit :=
  if canceled then Err ErrContext
  else check_scopes now provider includeAuthCooldown scopes None db.

Definition checkState (canceled : bool) (now : instant) (provider : text) (operation : Operation)
    (db : StateStore) : result GateError unit :=
  checkAvailability canceled now provider (bool_decide (operation = OperationAuth))
    [OperationAll; OperationAuth; operation] db.

Definition CheckDownloadAvailability (canceled : bool) (now : instant) (provider : text)
    (db : StateStore) : result GateError unit :=
  checkAvailability canceled now provider false
    [OperationAll; OperationAuth; OperationDownload; OperationDownloadTransfer] db.

Definition CheckSearchAvailability (canceled : bool) (now : instant) (provider : text)
    (db : StateStore) : result GateError unit :=
  checkAvailability canceled now provider false [OperationAll; OperationAuth; OperationSearch] db.

(** ** The transport *)

Record Client := mkClient { ProviderID : text; ProviderType : text }.

Definition day : duration := 24 * hour.

(** [time.Date(y, m, d+1, 0, 15, 0, 0, UTC)] of the day of [now]. *)
Definition next_day_quarter (now : instant) : instant := (now / day + 1) * day + 15 * minute.

Definition is_one_of (s : text) (names : list string) : bool :=
  existsb (fun n => bool_decide (s = t n)) names.

(** The zero time when the provider has no compiled fallback. *)
Definition FallbackReset `{Unicode} (now : instant) (providerType : text) (kind : CooldownKind) : instant :=
  let type := to_lower providerType in
  if is_one_of type ["titlovi"]%string then
    match kind with CooldownRateLimit => now + 5 * minute | _ => zero_time end
  else if is_one_of type ["opensubtitles"; "opensubtitlescom"]%string then
    match kind with
    | CooldownRateLimit => now + minute
    | CooldownDownloadQuota => now + 6 * hour
    | _ => zero_time
    end
  else if is_one_of type ["subdl"]%string then
    match kind with
    | CooldownRateLimit => now + 15 * minute
    | CooldownDownloadQuota | CooldownSearchQuota => next_day_quarter now
    | CooldownServiceBusy => now + hour
    | CooldownClientBlocked => zero_time
    end
  else if is_one_of type ["subsource"]%string then
    match kind with
    | CooldownRateLimit => now + minute
    | CooldownDownloadQuota => now + hour
    | _ => zero_time
    end
  else zero_time.

Definition minimumPersistedWindow : duration := 5 * second.
Definition defaultCooldown : duration := 5 * minute.
Definition downloadRefusalWindow : duration := hour.
Definition downloadRateLimitWindow : duration := 15 * minute.

Definition refusalStatus (status : Z) : bool :=
  (status =? 401) || (status =? 403) || (status =? 429).

Definition success_status (status : Z) : bool := (200 <=? status) && (status <? 300).

(** What the HTTP round trip of a request came to. *)
Inductive RoundTrip :=
| TripCanceled
| TripRedirect
| TripFailed
| TripResponse (status : Z) (headers : Header) (body : bool).

(** How reading a body ended. *)
Inductive BodyEnd := EndEOF | EndNetwork | EndCanceled | EndOther.

Section transport.
Context `{Unicode} `{HeaderTimes}.

(** The reset [PersistCooldown] asks the gate for. *)
Definition cooldown_reset (now : instant) (c : Client) (kind : CooldownKind) (resetAt : instant) : instant :=
  let resetAt := if now <? resetAt then resetAt else FallbackReset now (ProviderType c) kind in
  if now <? resetAt then resetAt else now + defaultCooldown.

Definition PersistCooldown (now : instant) (c : Client) (operation : Operation) (kind : CooldownKind)
    (resetAt : instant) (db : StateStore) : result GateError (StateStore * instant) :=
  persist now (mkThrottle (ProviderID c) operation (kind_text kind) 0 0
                 (cooldown_reset now c kind resetAt) false) db.

Definition DisableAuthentication (now : instant) (c : Client) (reason : text) (db : StateStore)
    : result GateError StateStore :=
  let! (db, _) := persist now (mkThrottle (ProviderID c) OperationAuth reason 0 0 zero_time true) db in
  Ok db.

(** Returns the states and the error to report. *)
Definition RecordDownloadRefusal (now : instant) (c : Client) (kind : CooldownKind) (db : StateStore)
    : result GateError (StateStore * GateError) :=
  let fallback kind window :=
    let resetAt := FallbackReset now (ProviderType c) kind in
    if is_zero resetAt then now + window else resetAt in
  let '(kind, resetAt) :=
    match kind with
    | CooldownRateLimit => (kind, fallback kind downloadRateLimitWindow)
    | CooldownClientBlocked => (kind, now + downloadRefusalWindow)
    | _ => (CooldownDownloadQuota, fallback CooldownDownloadQuota downloadRefusalWindow)
    end in
  let! (db, resetAt) := PersistCooldown now c OperationDownload kind resetAt db in
  Ok (db, ErrCooldown false (ProviderID c) OperationDownload (kind_text kind) resetAt).

(** A failure recorded as the error to return. *)
Definition fail_transiently (now : instant) (c : Client) (operation : Operation) (reason : text)
    (resetAt : instant) (db : StateStore) : StateStore * option GateError :=
  match RecordTransientFailure now (ProviderID c) operation reason resetAt db with
  | Ok (db, s) => (db, Some (ErrCooldown false (ProviderID c) operation (Reason s) (ResetAt s)))
  | Err e => (db, Some e)
  end.

(** The rate-limit window the response is held to, after the 429 fallback and
    the minimum for successful responses. *)
Definition response_window (now : instant) (c : Client) (status : Z) (h : Header)
    : option RateLimitWindow :=
  let h := if success_status status && negb (bool_decide (h (t "Retry-After") = []))
           then header_del (t "Retry-After") h else h in
  let window := ParseRateLimit now h [] in
  let future := match window with Some w => now <? WResetAt w | None => false end in
  let window :=
    if (status =? 429) && negb future then
      let reset := FallbackReset now (ProviderType c) CooldownRateLimit in
      if is_zero reset then None
      else Some (mkWindow (t "fallback") 0 0 reset (t "fallback"))
    else window in
  match window with
  | None => None
  | Some w =>
      let w := if status =? 429 then mkWindow (WName w) (WLimit w) 0 (WResetAt w) (WSource w) else w in
      if success_status status && (WRemaining w <=? 0)
         && (time_sub (WResetAt w) now <? minimumPersistedWindow)
      then None else Some w
  end.

(** [http_<status>]. *)
Definition http_reason (status : Z) : text := t "http_" ++ itoa status.

(** The end of [Do] for a response the gate holds no window against. *)
Definition finish_response (c : Client) (operation : Operation) (status : Z) (body : bool)
    (db : StateStore) : StateStore * option GateError :=
  let reset := if (negb (success_status status) || negb body) && negb (refusalStatus status)
               then ResetTransientFailures (ProviderID c) operation db else Ok db in
  match reset with
  | Err e => (db, Some e)
  | Ok db => (db, if status =? 401 then Some ErrAuthentication else None)
  end.

(** [Do] once the gate granted the request: the states and the error that go
    with the response. [canceled] is [ctx.Err() != nil]. *)
Definition client_do (now : instant) (c : Client) (operation : Operation) (trip : RoundTrip)
    (db : StateStore) : StateStore * option GateError :=
  match trip with
  | TripCanceled => (db, Some ErrContext)
  | TripRedirect => (db, Some ErrRedirect)
  | TripFailed => fail_transiently now c operation (t "network_error") zero_time db
  | TripResponse status h body =>
      if (500 <=? status) && (status <=? 599) then
        let resetAt := match ParseRateLimit now h [] with
                       | Some w => if WRemaining w <=? 0 then WResetAt w else zero_time
                       | None => zero_time
                       end in
        fail_transiently now c operation (http_reason status) resetAt db
      else
        match response_window now c status h with
        | None => finish_response c operation status body db
        | Some w =>
            match persist now (mkThrottle (ProviderID c) operation (WSource w) (WLimit w)
                                 (WRemaining w) (WResetAt w) false) db with
            | Err e => (db, Some e)
            | Ok (db, resetAt) =>
                if status =? 429 then
                  (db, Some (ErrCooldown false (ProviderID c) operation (WSource w) resetAt))
                else finish_response c operation status body db
            end
        end
  end.

(** The first read error of a successful response's body. *)
Definition body_end (canceled : bool) (now : instant) (c : Client) (operation : Operation)
    (e : BodyEnd) (db : StateStore) : StateStore * option GateError :=
  if canceled then (db, Some ErrContext)
  else
    match e with
    | EndEOF =>
        match ResetTransientFailures (ProviderID c) operation db with
        | Ok db => (db, None)
        | Err e => (db, Some e)
        end
    | EndNetwork => fail_transiently now c operation (t "network_error") zero_time db
    | EndCanceled | EndOther => (db, Some ErrRead)
    end.
End transport.

(** ** Steps

    One constructor per way the program changes provider states, at a clock
    reading. Reasons given to [DisableAuthentication] are fixed words of the
    adapters, never of the transient kind. *)
Inductive gate_step `{Unicode} `{HeaderTimes} (now : instant) (db : StateStore) : StateStore -> Prop :=
| step_do c operation trip : gate_step now db (client_do now c operation trip db).1
| step_body canceled c operation e : gate_step now db (body_end canceled now c operation e db).1
| step_cooldown c operation kind resetAt db' reset :
    PersistCooldown now c operation kind resetAt db = Ok (db', reset) -> gate_step now db db'
| step_refusal c kind db' err :
    RecordDownloadRefusal now c kind db = Ok (db', err) -> gate_step now db db'
| step_disable c reason db' :
    is_transient reason = false ->
    DisableAuthentication now c reason db = Ok db' -> gate_step now db db'
| step_failure provider operation reason resetAt db' s :
    RecordTransientFailure now provider operation reason resetAt db = Ok (db', s) -> gate_step now db db'.

(** ** Writes *)

(** What a step may write over the row it found. *)
Inductive written (now : instant) (old : option ProviderState) : ProviderState -> Prop :=
| written_throttle th :
    is_transient (TReason th) = false ->
    written now old (persisted_state now th (default zero_state old) (bool_decide (is_Some old)))
| written_failure reason resetAt :
    written now old (failed_state now reason resetAt (default zero_state old))
| written_recovery s : old = Some s -> written now old (recovered_state s).

(** Every operation leaves the table or writes one such row. *)
Definition one_write (now : instant) (db db' : StateStore) : Prop :=
  rows db' = rows db
  \/ exists k s, rows db' = <[k := stored s]> (rows db) /\ written now (rows db !! k) s.

Lemma put_ok k s db db' :
  PutProviderState k s db = Ok db' ->
  rows db' = <[k := stored s]> (rows db) /\ readable db' = readable db /\ writable db' = writable db.
Proof. unfold PutProviderState. destruct (writable db); [|done]. by intros [= <-]. Qed.

Lemma previousState_ok k db previous found :
  previousState k db = Ok (previous, found) ->
  previous = default zero_state (rows db !! k) /\ found = bool_decide (is_Some (rows db !! k)).
Proof.
  unfold previousState, GetProviderState. destruct (readable db); [|done]. simpl.
  destruct (rows db !! k); simpl; by intros [= <- <-].
Qed.

Lemma persist_ok now th db db' reset :
  persist now th db = Ok (db', reset) ->
  exists state,
    state = persisted_state now th (default zero_state (rows db !! (TProvider th, TScope th)))
              (bool_decide (is_Some (rows db !! (TProvider th, TScope th))))
    /\ rows db' = <[(TProvider th, TScope th) := stored state]> (rows db)
    /\ reset = (if negb (Disabled state) && (boundedReset now (TResetAt th) <? ResetAt state)
                then ResetAt state else boundedReset now (TResetAt th)).
Proof.
  unfold persist. intros ([previous found] & [-> ->]%previousState_ok & H)%rbind_ok.
  apply rbind_ok in H as (db1 & Hput & [= <- <-]). apply put_ok in Hput as (Hput & _).
  eexists. by split_and!.
Qed.

Lemma persist_write now th db db' reset :
  is_transient (TReason th) = false -> persist now th db = Ok (db', reset) -> one_write now db db'.
Proof.
  intros Hr (state & -> & Hrows & _)%persist_ok. right. do 2 eexists. split; [done|].
  by apply written_throttle.
Qed.

Lemma failure_ok now provider operation reason resetAt db db' s :
  RecordTransientFailure now provider operation reason resetAt db = Ok (db', s) ->
  s = failed_state now reason resetAt (default zero_state (rows db !! (provider, operation)))
  /\ rows db' = <[(provider, operation) := stored s]> (rows db).
Proof.
  unfold RecordTransientFailure. intros ([e f] & [-> _]%previousState_ok & H)%rbind_ok.
  apply rbind_ok in H as (db1 & Hput & [= <- <-]). by apply put_ok in Hput as (Hput & _).
Qed.

Lemma failure_write now provider operation reason resetAt db db' s :
  RecordTransientFailure now provider operation reason resetAt db = Ok (db', s) -> one_write now db db'.
Proof. intros [-> H]%failure_ok. right. do 2 eexists. split; [done|]. constructor. Qed.

Lemma reset_ok provider operation db db' :
  ResetTransientFailures provider operation db = Ok db' ->
  rows db' = rows db
  \/ exists s, rows db !! (provider, operation) = Some s
       /\ rows db' = <[(provider, operation) := stored (recovered_state s)]> (rows db).
Proof.
  unfold ResetTransientFailures, GetProviderState. destruct (readable db); [|done]. simpl.
  destruct (rows db !! _) as [s|] eqn:E; [|intros [= <-]; by left].
  destruct (FailureAttempt s =? 0); [intros [= <-]; by left|].
  intros (Hput & _)%put_ok. right. by eexists.
Qed.

Lemma reset_write now provider operation db db' :
  ResetTransientFailures provider operation db = Ok db' -> one_write now db db'.
Proof.
  intros [H|(s & Hs & H)]%reset_ok; [by left|]. right. do 2 eexists. split; [done|].
  by apply written_recovery.
Qed.

Lemma one_write_refl now db : one_write now db db.
Proof. by left. Qed.

#[export] Hint Resolve one_write_refl failure_write reset_write persist_write : subsync.

Section steps.
Context `{Unicode} `{HeaderTimes}.

Lemma rate_window_source now h js w : w ∈ rate_windows now h js -> is_transient (WSource w) = false.
Proof.
  unfold rate_windows. rewrite !elem_of_app, !list_elem_of_omap, !elem_of_olist.
  unfold entry_window, draft_window, x_window, retry_window, json_window.
  intros [(e & _ & Hw)|[Hw|[Hw|[Hw|(j & _ & Hw)]]]];
    repeat (case_match; simplify_eq/=); vm_compute; done.
Qed.

Lemma response_window_source now c status h w :
  response_window now c status h = Some w -> is_transient (WSource w) = false.
Proof.
  assert (forall h' w', ParseRateLimit now h' [] = Some w' -> is_transient (WSource w') = false) as Hp.
  { unfold ParseRateLimit. intros h' w'. destruct (rate_windows now h' []) as [|x l] eqn:E; [done|].
    intros [= <-]. apply (rate_window_source now h' []). rewrite E. apply best_by_in. }
  unfold response_window. cbv zeta.
  match goal with |- context [ParseRateLimit now ?h' []] =>
    pose proof (Hp h') as Hw; destruct (ParseRateLimit now h' []) as [w'|] end.
  - specialize (Hw _ eq_refl). destruct (status =? 429); simpl.
    + destruct (now <? WResetAt w'); simpl.
      * destruct (_ && _); by intros [= <-].
      * destruct (is_zero _); [done|]. destruct (_ && _); by intros [= <-].
    + destruct (_ && _); by intros [= <-].
  - destruct (status =? 429); simpl; [|done]. destruct (is_zero _); [done|].
    destruct (_ && _); by intros [= <-].
Qed.

Lemma finish_write now c operation status body db :
  one_write now db (finish_response c operation status body db).1.
Proof.
  unfold finish_response. destruct (_ && _); simpl; [|auto with subsync].
  destruct (ResetTransientFailures _ _ _) eqn:E; simpl; eauto with subsync.
Qed.

Lemma fail_write now c operation reason resetAt db :
  one_write now db (fail_transiently now c operation reason resetAt db).1.
Proof.
  unfold fail_transiently. destruct (RecordTransientFailure _ _ _ _ _ _) as [[db' s]|] eqn:E; simpl;
    eauto with subsync.
Qed.

Lemma kind_not_transient kind : is_transient (kind_text kind) = false.
Proof. by destruct kind. Qed.

Lemma one_write_once now db db' : one_write now db db' -> rtc (one_write now) db db'.
Proof. apply rtc_once. Qed.

Lemma client_do_writes now c operation trip db :
  rtc (one_write now) db (client_do now c operation trip db).1.
Proof.
  destruct trip as [| | |status h body]; simpl; [done|done|apply rtc_once, fail_write|].
  destruct ((500 <=? status) && _); [apply rtc_once, fail_write|].
  destruct (response_window now c status h) as [w|] eqn:E; [|apply rtc_once, finish_write].
  apply response_window_source in E.
  destruct (persist _ _ _) as [[db1 reset]|] eqn:Ep; [|done].
  assert (one_write now db db1) as H1 by (eapply persist_write; [|exact Ep]; exact E).
  destruct (status =? 429); [by apply rtc_once|].
  eapply rtc_l; [exact H1|]. apply rtc_once, finish_write.
Qed.

Lemma persist_cooldown_write now c operation kind resetAt db db' reset :
  PersistCooldown now c operation kind resetAt db = Ok (db', reset) -> one_write now db db'.
Proof. apply persist_write, kind_not_transient. Qed.

Lemma gate_step_writes now db db' : gate_step now db db' -> rtc (one_write now) db db'.
Proof.
  destruct 1 as [c operation trip|canceled c operation e|c operation kind resetAt db' reset Hp
    |c kind db' err Hp|c reason db' Hr Hp|provider operation reason resetAt db' s Hp].
  - apply client_do_writes.
  - unfold body_end. destruct canceled; [done|]. destruct e; [|apply rtc_once, fail_write|done|done].
    destruct (ResetTransientFailures _ _ _) eqn:E; simpl; [|done]. eapply rtc_once, reset_write, E.
  - eapply rtc_once, persist_cooldown_write, Hp.
  - unfold RecordDownloadRefusal in Hp. case_match; simplify_eq.
    apply rbind_ok in Hp as ([db1 reset] & Hp & [= <- <-]).
    eapply rtc_once, persist_cooldown_write, Hp.
  - unfold DisableAuthentication in Hp. apply rbind_ok in Hp as ([db1 reset] & Hp & [= <-]).
    eapply rtc_once, persist_write, Hp. done.
  - eapply rtc_once, failure_write, Hp.
Qed.
End steps.

(** ** A cooldown in effect *)

(** The scope is disabled for good, or held by a quota cooldown until at least
    [until]. *)
Definition held_state (until : instant) (s : ProviderState) : Prop :=
  is_transient (Reason s) = false
  /\ (Disabled s = true \/ Remaining s <= 0 /\ until <= ResetAt s).

Definition held (until : instant) (k : state_key) (db : StateStore) : Prop :=
  exists s, rows db !! k = Some s /\ held_state until s.

Lemma stored_time_pos a : 0 < a -> stored_time a = a.
Proof. intros. unfold stored_time. destruct (Z.eqb_spec a 0); [lia|done]. Qed.

Lemma held_stored until s : 0 < until -> held_state until s -> held_state until (stored s).
Proof.
  intros Hu [Hr Hs]. split; [done|]. simpl. destruct Hs as [Hs|[Hs1 Hs2]]; [by left|right].
  rewrite stored_time_pos; lia.
Qed.

Lemma held_written now until old s :
  0 <= now < until -> held_state until old -> written now (Some old) s -> held_state until s.
Proof.
  intros Hnow [Hr Hs] Hw. inversion Hw as [th Hth|reason resetAt|s' Hs']; subst; clear Hw; simpl.
  - unfold persisted_state. simpl. destruct (Disabled old) eqn:Ed; [split; [done|by left]|].
    destruct Hs as [Hs|[Hs1 Hs2]]; [done|].
    destruct (TDisabled th) eqn:Et; [split; [done|by left]|]. simpl.
    destruct (Z.leb_spec (Remaining old) 0); [|lia]. destruct (Z.ltb_spec now (ResetAt old)); [|lia].
    rewrite Hr. simpl. destruct (_ || _) eqn:Ex; [split; [done|]; by right|].
    bools. split; [done|]. right. simpl. lia.
  - unfold failed_state. simpl. set (attempt := if 0 <? _ then _ else _).
    set (reset := if now <? _ then _ else _). clearbody attempt reset.
    destruct (Disabled old) eqn:Ed; [split; [done|by left]|].
    destruct Hs as [Hs|[Hs1 Hs2]]; [done|].
    destruct (Z.leb_spec (Remaining old) 0); [|lia]. destruct (Z.ltb_spec now (ResetAt old)); [|lia].
    rewrite Hr. simpl. split; [done|]. right. simpl. destruct (Z.ltb_spec reset (ResetAt old)); lia.
  - simplify_eq. unfold recovered_state. rewrite Hr. by split.
Qed.

Lemma held_one_write now until k db db' :
  0 <= now < until -> held until k db -> one_write now db db' -> held until k db'.
Proof.
  intros Hnow (s & Hk & Hs) [E|(k' & s' & E & Hw)]; unfold held; rewrite E; [by exists s|].
  destruct (decide (k' = k)) as [->|Hne].
  - rewrite Hk in Hw. exists (stored s'). rewrite lookup_insert_eq. split; [done|].
    apply held_stored; [lia|]. by eapply held_written.
  - exists s. by rewrite lookup_insert_ne.
Qed.

(** A run of steps at clock readings that satisfy [P]. *)
Definition gate_run `{Unicode} `{HeaderTimes} (P : instant -> Prop) : relation StateStore :=
  rtc (fun db db' => exists now, P now /\ gate_step now db db').

Lemma held_run `{Unicode} `{HeaderTimes} until k db db' :
  gate_run (fun now => 0 <= now < until) db db' -> held until k db -> held until k db'.
Proof.
  induction 1 as [|db db1 db2 (now & Hnow & Hstep) _ IH]; [done|]. intros Hh. apply IH. clear IH.
  apply gate_step_writes in Hstep.
  induction Hstep as [|x y z Hw _ IH]; [done|]. apply IH. by eapply held_one_write.
Qed.

(** ** Scope precedence *)

(** The scope's cooldown counts for this check. *)
Definition cooling (now : instant) (auth : bool) (scope : Operation) (s : ProviderState) : Prop :=
  (scope <> OperationAuth \/ auth = true) /\ Remaining s <= 0 /\ now < ResetAt s.

(** What a check of [scopes] means for the rows of [provider]. *)
Definition check_meaning (now : instant) (provider : text) (auth : bool) (scopes : list Operation)
    (db : StateStore) (r : result GateError unit) : Prop :=
  match r with
  | Ok _ => forall scope s, scope ∈ scopes -> rows db !! (provider, scope) = Some s ->
              Disabled s = false /\ ~ cooling now auth scope s
  | Err (ErrDisabled p reason) =>
      p = provider /\ exists scope s, scope ∈ scopes /\ rows db !! (provider, scope) = Some s
                        /\ Disabled s = true /\ reason = Reason s
  | Err (ErrCooldown suppressed p scope reason reset) =>
      suppressed = true /\ p = provider /\ now < reset
      /\ (exists s, rows db !! (provider, scope) = Some s /\ cooling now auth scope s
                    /\ reason = Reason s /\ reset = ResetAt s)
      /\ (forall scope' s, scope' ∈ scopes -> rows db !! (provider, scope') = Some s ->
            Disabled s = false /\ (cooling now auth scope' s -> ResetAt s <= reset))
  | Err _ => False
  end.

(** The outcome accounts for a cooldown until [reset]. *)
Definition covers (r : result GateError unit) (reset : instant) : Prop :=
  match r with
  | Ok _ => False
  | Err (ErrCooldown _ _ _ _ until) => reset <= until
  | Err _ => True
  end.

Lemma check_meaning_cons now provider auth scope scopes db r :
  (forall s, rows db !! (provider, scope) = Some s ->
     Disabled s = false /\ (cooling now auth scope s -> covers r (ResetAt s))) ->
  check_meaning now provider auth scopes db r ->
  check_meaning now provider auth (scope :: scopes) db r.
Proof.
  intros Hh. unfold check_meaning. destruct r as [u|[| | | | | |]]; try done.
  - intros Hm scope' s [->|Hin]%elem_of_cons Hs; [|by apply Hm]. by destruct (Hh s Hs).
  - intros (-> & -> & Hlt & Hex & Hm). split_and!; [done|done|done|done|].
    intros scope' s [->|Hin]%elem_of_cons Hs; [|by apply Hm]. by destruct (Hh s Hs).
  - intros (-> & sc & s & Hin & ?). split; [done|]. exists sc, s. split; [by right|done].
Qed.

Lemma check_scopes_meaning now provider auth scopes blocked db :
  readable db = true ->
  (forall scope s, blocked = Some (scope, s) ->
     rows db !! (provider, scope) = Some s /\ cooling now auth scope s) ->
  let r := check_scopes now provider auth scopes blocked db in
  check_meaning now provider auth scopes db r
  /\ forall scope s, blocked = Some (scope, s) -> covers r (ResetAt s).
Proof.
  intros Hdb. revert blocked. induction scopes as [|scope scopes IH]; intros blocked Hb; simpl.
  - destruct blocked as [[scope s]|]; [|split; [by intros ?? ?%elem_of_nil|done]].
    destruct (Hb scope s eq_refl) as [Hs Hc]. split; [|intros ?? [= <- <-]; simpl; lia].
    split_and!; [done|done|by destruct Hc as (_ & _ & ?)|by exists s|by intros ?? ?%elem_of_nil].
  - unfold GetProviderState. rewrite Hdb. simpl.
    destruct (rows db !! (provider, scope)) as [s|] eqn:Es.
    2: { destruct (IH blocked Hb) as [Hm Hc]. split; [|done]. by apply check_meaning_cons; [rewrite Es|]. }
    destruct (Disabled s) eqn:Ed.
    { split; [|done]. split; [done|]. exists scope, s. split; [left|done]. }
    destruct (bool_decide (scope = OperationAuth) && negb auth) eqn:Ea.
    { destruct (IH blocked Hb) as [Hm Hc]. split; [|done]. apply check_meaning_cons; [|done].
      rewrite Es. intros ? [= <-]. split; [done|]. bools. by intros [[|] _]; subst. }
    assert (scope <> OperationAuth \/ auth = true) as Hauth.
    { apply andb_false_iff in Ea as [?|?]; bools; auto. }
    clear Ea.
    match goal with |- context [check_scopes _ _ _ _ ?b _] => set (blocked' := b) end.
    destruct (IH blocked') as [Hm Hc].
    { intros sc q. unfold blocked'. destruct (_ && _) eqn:E; [|apply Hb]. intros [= <- <-]. bools.
      by split_and!. }
    split.
    + apply check_meaning_cons; [|done]. rewrite Es. intros ? [= <-]. split; [done|].
      intros (_ & Hr & Hn). unfold blocked' in Hc. revert Hc.
      destruct (Z.leb_spec (Remaining s) 0); [|lia]. destruct (Z.ltb_spec now (ResetAt s)); [|lia]. simpl.
      destruct blocked as [[sc b]|]; [|intros Hc; by apply (Hc scope s)].
      destruct (Z.ltb_spec (ResetAt b) (ResetAt s)); intros Hc; [by apply (Hc scope s)|].
      specialize (Hc sc b eq_refl). unfold covers in *. destruct (check_scopes _ _ _ _ _ _) as [|[]]; try done. lia.
    + intros sc b ->. unfold blocked' in Hc. revert Hc.
      destruct (_ && _) eqn:E; intros Hc; [|by apply (Hc sc b)]. bools.
      specialize (Hc scope s eq_refl). unfold covers in *. destruct (check_scopes _ _ _ _ _ _) as [|[]]; try done. lia.
Qed.

(** ** The 48-hour cap *)

Definition capped (now : instant) (db : StateStore) : Prop :=
  forall k s, rows db !! k = Some s -> ResetAt s <= now + MaxProviderCooldown.

Lemma boundedReset_le now r : boundedReset now r <= now + MaxProviderCooldown.
Proof. unfold boundedReset. destruct (Z.ltb_spec (now + MaxProviderCooldown) r); lia. Qed.

Lemma transient_delay_bounds i :
  0 <= i -> minute <= transientFailureDelays !!! Z.to_nat (Z.min i 3) <= hour.
Proof.
  intros Hi. assert (exists j, (j <= 3)%nat /\ Z.to_nat (Z.min i 3) = j) as (j & Hj & ->)
    by (eexists; split; [|done]; lia).
  do 4 (destruct j; [vm_compute; split; discriminate|]). lia.
Qed.

Lemma written_capped now bound old s :
  0 <= now <= bound -> (forall o, old = Some o -> ResetAt o <= bound + MaxProviderCooldown) ->
  written now old s -> ResetAt s <= bound + MaxProviderCooldown.
Proof.
  intros Hnow Hold Hw.
  assert (ResetAt (default zero_state old) <= bound + MaxProviderCooldown) as Hp.
  { destruct old as [o|]; simpl; [by apply Hold|]. unfold zero_time, MaxProviderCooldown, hour, minute, second. lia. }
  assert (forall r, boundedReset now r <= bound + MaxProviderCooldown) as Hb
    by (intros r; pose proof (boundedReset_le now r); lia).
  inversion Hw as [th Hth|reason resetAt|s' Hs']; subst; clear Hw.
  - unfold persisted_state. destruct (Disabled _); [done|]. destruct (_ && _); [|apply Hb].
    destruct (_ || _); [done|apply Hb].
  - unfold failed_state. set (old' := default zero_state old) in *.
    set (attempt := if 0 <? FailureAttempt old' then _ else _).
    assert (1 <= attempt) as Ha by (unfold attempt; destruct (Z.ltb_spec 0 (FailureAttempt old')); lia).
    set (reset := if now <? _ then _ else _).
    assert (reset <= bound + MaxProviderCooldown) as Hr.
    { unfold reset. destruct (now <? _); [apply Hb|].
      pose proof (transient_delay_bounds (attempt - 1) ltac:(lia)).
      unfold MaxProviderCooldown, hour, minute, second in *. lia. }
    clearbody reset attempt. destruct (Disabled old'); [done|]. destruct (_ && _); [|done]. simpl.
    by destruct (reset <? ResetAt old').
  - unfold recovered_state. destruct (is_transient _); [|by apply (Hold s')]. simpl.
    unfold zero_time, MaxProviderCooldown, hour, minute, second. lia.
Qed.

Lemma capped_run `{Unicode} `{HeaderTimes} bound db db' :
  gate_run (fun now => 0 <= now <= bound) db db' -> capped bound db -> capped bound db'.
Proof.
  induction 1 as [|db db1 db2 (now & Hnow & Hstep) _ IH]; [done|]. intros Hc. apply IH. clear IH.
  apply gate_step_writes in Hstep.
  induction Hstep as [|x y z [E|(k & s & E & Hw)] _ IH]; [done|..]; apply IH.
  - intros k s. rewrite E. apply Hc.
  - intros k' s'. rewrite E. destruct (decide (k = k')) as [<-|Hne].
    + rewrite lookup_insert_eq. intros [= <-]. simpl.
      assert (ResetAt s <= bound + MaxProviderCooldown) as Hs.
      { eapply written_capped; [done| |exact Hw]. intros o Ho. by apply (Hc k). }
      unfold stored_time. destruct (_ =? 0); [|done].
      unfold zero_time, MaxProviderCooldown, hour, minute, second in *. lia.
    + rewrite lookup_insert_ne by done. apply Hc.
Qed.

(** ** Effects of single operations *)

Lemma boundedReset_future now r : now < r -> now < boundedReset now r.
Proof.
  unfold boundedReset. intros. destruct (Z.ltb_spec (now + MaxProviderCooldown) r); [|done].
  unfold MaxProviderCooldown, hour, minute, second. lia.
Qed.

(** An exhausted throttle with a future reset: the row ends up disabled, or
    exhausted until a reset no sooner than the throttle's bounded one. *)
Lemma persist_exhausted now th db db' reset :
  0 <= now -> TRemaining th <= 0 -> TDisabled th = false -> now < TResetAt th ->
  persist now th db = Ok (db', reset) ->
  boundedReset now (TResetAt th) <= reset
  /\ exists s, rows db' !! (TProvider th, TScope th) = Some s
       /\ (Disabled s = true \/ Remaining s <= 0 /\ ResetAt s = reset).
Proof.
  intros Hnow Hrem Hdis Hfut (state & -> & Hrows & ->)%persist_ok.
  pose proof (boundedReset_future now _ Hfut) as Hb.
  set (prev := default zero_state _). set (found := bool_decide _).
  set (b := boundedReset now (TResetAt th)) in *.
  assert (Disabled (persisted_state now th prev found) = true
          \/ Remaining (persisted_state now th prev found) <= 0
             /\ b <= ResetAt (persisted_state now th prev found)) as Hst.
  { unfold persisted_state. fold b. destruct (Disabled prev) eqn:Ed; [by left|]. right. simpl.
    destruct (_ && _ && _ && _) eqn:E; [|simpl; lia]. bools.
    destruct (Z.leb_spec (TRemaining th) 0); [|lia]. destruct (Z.ltb_spec now b); [|lia]. simpl.
    destruct (Z.ltb_spec b (ResetAt prev)); simpl; lia. }
  set (st := persisted_state now th prev found) in *. split.
  - destruct (Disabled st); simpl; [lia|]. destruct (Z.ltb_spec b (ResetAt st)); lia.
  - exists (stored st). rewrite Hrows, lookup_insert_eq. split; [done|]. simpl.
    destruct (Disabled st) eqn:Ed; [by left|]. destruct Hst as [|[Hs1 Hs2]]; [done|]. right.
    rewrite stored_time_pos by lia. simpl. destruct (Z.ltb_spec b (ResetAt st)); split; lia.
Qed.

(** A recorded failure: counted, and unless the scope is disabled it is held
    for at least the step of its count. *)
Lemma failed_state_spec now reason resetAt old :
  0 <= FailureAttempt old ->
  let s := failed_state now reason resetAt old in
  FailureAttempt s = FailureAttempt old + 1
  /\ Disabled s = Disabled old
  /\ (Disabled old = false ->
       Remaining s <= 0 /\ now < ResetAt s
       /\ (resetAt <= now ->
            now + transientFailureDelays !!! Z.to_nat (Z.min (FailureAttempt old) 3) <= ResetAt s)).
Proof.
  intros Ha. unfold failed_state.
  set (attempt := if 0 <? FailureAttempt old then _ else _).
  assert (attempt = FailureAttempt old + 1) as ->.
  { unfold attempt. destruct (Z.ltb_spec 0 (FailureAttempt old)); lia. }
  rewrite Z.add_simpl_r. set (d := transientFailureDelays !!! _). cbv zeta.
  set (reset := if now <? boundedReset now resetAt then _ else _).
  assert (minute <= d) as Hd by (apply transient_delay_bounds; lia).
  assert (0 < minute) as Hm by done.
  assert (now < reset) as Hr.
  { unfold reset. destruct (Z.ltb_spec now (boundedReset now resetAt)); lia. }
  assert (resetAt <= now -> reset = now + d) as He.
  { intros Hle. unfold reset, boundedReset. pose proof (eq_refl : MaxProviderCooldown = 48 * hour).
    assert (0 < hour) by done. destruct (Z.ltb_spec (now + MaxProviderCooldown) resetAt); [lia|].
    destruct (Z.ltb_spec now resetAt); [lia|done]. }
  clearbody reset d. destruct (Disabled old) eqn:Ed; [split_and!; [done..|]; by intros|].
  destruct (_ && _) eqn:E; simpl; bools; split_and!; try done; intros _; split_and!; try lia.
  - destruct (Z.ltb_spec reset (ResetAt old)); lia.
  - destruct (Z.ltb_spec reset (ResetAt old)); lia.
Qed.

(** Consecutive failures of one operation, oldest first. *)
Definition fail_run (provider : text) (operation : Operation) (fs : list (instant * text))
    (db : StateStore) : result GateError StateStore :=
  fold_left (fun r f => let! db := r in
    let! (db, _) := RecordTransientFailure (fst f) provider operation (snd f) zero_time db in Ok db)
    fs (Ok db).

Lemma fail_run_snoc provider operation fs f db db' :
  fail_run provider operation (fs ++ [f]) db = Ok db' ->
  exists db1 s, fail_run provider operation fs db = Ok db1
    /\ RecordTransientFailure (fst f) provider operation (snd f) zero_time db1 = Ok (db', s).
Proof.
  unfold fail_run. rewrite fold_left_app. simpl. intros (db1 & -> & H)%rbind_ok.
  apply rbind_ok in H as ([db2 s] & H & [= <-]). eauto.
Qed.

(** ** Theorems *)

Section gate_theorems.
Context `{Unicode} `{HeaderTimes}.

(** C15. A quota cooldown or disable in effect is never shortened: whatever
    responses, failures, recoveries or further throttles the program records
    before [until], for any provider, a request the scope applies to is still
    refused at every moment before [until]. *)
Theorem cooldown_never_shortened until provider scope db db' now operation :
  held until (provider, scope) db ->
  gate_run (fun now => 0 <= now < until) db db' ->
  readable db' = true -> now < until ->
  scope = OperationAll \/ scope = operation ->
  match checkState false now provider operation db' with
  | Ok _ => False
  | Err (ErrCooldown _ p _ _ reset) => p = provider /\ until <= reset
  | Err (ErrDisabled p _) => p = provider
  | Err _ => False
  end.
Proof.
  intros Hheld Hrun Hread Hnow Hscope. apply (held_run until _ db db' Hrun) in Hheld as (s & Hs & _ & Hstate).
  unfold checkState, checkAvailability. set (auth := bool_decide _). set (scopes := [_; _; _]).
  destruct (check_scopes_meaning now provider auth scopes None db' Hread) as [Hm _]; [done|].
  assert (scope ∈ scopes) as Hin.
  { unfold scopes. destruct Hscope as [->| ->]; [left|by do 2 right; left]. }
  assert (Disabled s = false -> cooling now auth scope s) as Hcool.
  { intros Hd. destruct Hstate as [|[Hr Hu]]; [congruence|]. split_and!; [|done|lia].
    destruct Hscope as [->| ->]; [by left|]. unfold auth.
    destruct (decide (operation = OperationAuth)); [right; by rewrite bool_decide_true|by left]. }
  destruct (check_scopes _ _ _ _ _ _) as [u|[| | | | | |]]; simpl in Hm; try done.
  - destruct (Hm scope s Hin Hs) as [Hd Hn]. by apply Hn, Hcool.
  - destruct Hm as (_ & -> & _ & _ & Hm). split; [done|].
    destruct (Hm scope s Hin Hs) as [Hd Hle]. specialize (Hle (Hcool Hd)).
    destruct Hstate as [|[_ Hu]]; [congruence|lia].
  - by destruct Hm as [-> _].
Qed.

(** A preflight or final check decides exactly by the states of its
    scopes: it passes when none is disabled or cooling down; otherwise it
    reports a disable of one of them, or the cooldown with the latest reset.
    A cooldown of the auth scope stops only auth requests. *)
Theorem availability_check_meaning now provider auth scopes db :
  readable db = true ->
  check_meaning now provider auth scopes db (checkAvailability false now provider auth scopes db).
Proof. intros Hread. unfold checkAvailability. by apply check_scopes_meaning. Qed.

(** No cooldown outlasts the 48-hour cap: whatever resets providers
    report, at clock readings up to [bound] no scope ends up paused beyond 48
    hours after [bound]. *)
Theorem cooldowns_capped bound db db' :
  gate_run (fun now => 0 <= now <= bound) db db' ->
  (forall k s, rows db !! k = Some s -> ResetAt s <= bound + 48 * hour) ->
  forall k s, rows db' !! k = Some s -> ResetAt s <= bound + 48 * hour.
Proof. apply capped_run. Qed.

(** A refusal never saves a cooldown that is already over: whatever reset
    the provider reported (none, a past date, a year ahead), [PersistCooldown]
    returns a reset in the future, no earlier than the bounded one it was
    asked for, and leaves the scope disabled or exhausted until exactly that
    reset. *)
Theorem refusal_always_cools_down now c operation kind resetAt db db' reset :
  0 <= now -> PersistCooldown now c operation kind resetAt db = Ok (db', reset) ->
  now < reset
  /\ boundedReset now (cooldown_reset now c kind resetAt) <= reset
  /\ exists s, rows db' !! (ProviderID c, operation) = Some s
       /\ (Disabled s = true \/ Remaining s <= 0 /\ ResetAt s = reset).
Proof.
  intros Hnow Hp.
  assert (now < cooldown_reset now c kind resetAt) as Hf.
  { unfold cooldown_reset. cbv zeta. set (r := if now <? resetAt then _ else _).
    destruct (Z.ltb_spec now r); [done|]. unfold defaultCooldown, minute, second. lia. }
  pose proof (boundedReset_future now _ Hf) as Hb.
  unfold PersistCooldown in Hp. apply persist_exhausted in Hp; [|done|done|done|done].
  destruct Hp as [Hle Hs]. simpl in *. split_and!; [lia|done|done].
Qed.

(** Repeated failures escalate: after [n] consecutive failures the circuit
    counts [n] and, unless the provider is disabled, stays open at least 1, 5,
    15 and then 60 minutes after the last one; a complete answer then resets
    the count and closes a circuit the failures alone had opened. *)
Theorem failures_escalate provider operation fs now reason db db' old :
  0 <= now -> rows db !! (provider, operation) = Some old ->
  FailureAttempt old = 0 -> Disabled old = false ->
  fail_run provider operation (fs ++ [(now, reason)]) db = Ok db' ->
  exists s, rows db' !! (provider, operation) = Some s
    /\ FailureAttempt s = Z.of_nat (length fs) + 1
    /\ Remaining s <= 0
    /\ now + transientFailureDelays !!! Z.to_nat (Z.min (Z.of_nat (length fs)) 3) <= ResetAt s
    /\ forall db'', ResetTransientFailures provider operation db' = Ok db'' ->
         exists s', rows db'' !! (provider, operation) = Some s' /\ FailureAttempt s' = 0
           /\ (is_transient (Reason s) = true -> ResetAt s' = zero_time).
Proof.
  intros Hnow Hold Ha Hd Hrun. apply fail_run_snoc in Hrun as (db1 & s & Hrun & Hlast).
  assert (exists s1, rows db1 !! (provider, operation) = Some s1
            /\ FailureAttempt s1 = Z.of_nat (length fs) /\ Disabled s1 = false) as (s1 & H1 & Ha1 & Hd1).
  { clear Hlast. revert db1 Hrun. induction fs as [|f fs IH] using rev_ind; intros db1 Hrun.
    - injection Hrun as <-. by exists old.
    - apply fail_run_snoc in Hrun as (db0 & s0 & Hrun & [-> Hrows]%failure_ok).
      destruct (IH db0 Hrun) as (s1 & H1 & Ha1 & Hd1). rewrite Hrows, H1, lookup_insert_eq. simpl.
      match goal with |- context [failed_state ?n ?r ?z s1] =>
        destruct (failed_state_spec n r z s1 ltac:(lia)) as (Hc & Hds & _) end.
      eexists. split; [done|]. unfold stored. cbn [FailureAttempt Disabled].
      rewrite Hc, Hds, length_app. simpl. split; [lia|done]. }
  simpl in Hlast. apply failure_ok in Hlast as [-> Hrows]. rewrite H1 in Hrows. simpl in Hrows.
  destruct (failed_state_spec now reason zero_time s1 ltac:(lia)) as (Hc & Hds & Hs).
  destruct (Hs Hd1) as (Hrem & Hlt & Hge). rewrite Ha1 in *.
  set (st := failed_state now reason zero_time s1) in *.
  exists (stored st). rewrite Hrows, lookup_insert_eq. split; [done|]. simpl.
  rewrite stored_time_pos by lia. split_and!; [done|done|apply Hge; unfold zero_time, second; lia|].
  intros db'' Hreset. unfold ResetTransientFailures, GetProviderState in Hreset.
  destruct (readable db'); [|done]. simpl in Hreset. rewrite Hrows, lookup_insert_eq in Hreset.
  simpl in Hreset. destruct (Z.eqb_spec (FailureAttempt st) 0); [lia|].
  apply put_ok in Hreset as (-> & _). rewrite lookup_insert_eq. eexists. split; [done|].
  unfold recovered_state. simpl. destruct (is_transient (Reason st)); [by split|by split].
Qed.

(** What each response reports while the provider is not disabled and its
    states can be read and written: a network failure or 5xx always pauses the
    scope until a time in the future; a 429 does so whenever a header or the
    provider's fallback names a future reset; a 401 is an authentication
    error; no other status is an error. *)
Theorem response_outcome now c operation status h body db :
  0 <= now -> readable db = true -> writable db = true ->
  (forall s, rows db !! (ProviderID c, operation) = Some s ->
     Disabled s = false /\ 0 <= FailureAttempt s) ->
  let r := client_do now c operation (TripResponse status h body) db in
  if (500 <=? status) && (status <=? 599) then
    exists reason reset, r.2 = Some (ErrCooldown false (ProviderID c) operation reason reset) /\ now < reset
  else if status =? 429 then
    match response_window now c status h with
    | Some w => exists reset, r.2 = Some (ErrCooldown false (ProviderID c) operation (WSource w) reset)
                  /\ boundedReset now (WResetAt w) <= reset
    | None => r = (db, None)
    end
  else r.2 = if status =? 401 then Some ErrAuthentication else None.
Proof.
  intros Hnow Hrd Hwr Hrow r. unfold r, client_do.
  destruct ((500 <=? status) && (status <=? 599)) eqn:E5.
  { set (resetAt := match ParseRateLimit now h [] with Some _ => _ | None => _ end). clearbody resetAt.
    unfold fail_transiently, RecordTransientFailure, previousState, GetProviderState, PutProviderState.
    rewrite Hrd. simpl. rewrite Hwr.
    destruct (rows db !! (ProviderID c, operation)) as [s|] eqn:Es; simpl.
    - destruct (Hrow s eq_refl) as [Hd Ha].
      destruct (failed_state_spec now (http_reason status) resetAt s Ha) as (_ & _ & Hs).
      do 2 eexists. split; [done|]. by apply Hs.
    - destruct (failed_state_spec now (http_reason status) resetAt zero_state ltac:(done)) as (_ & _ & Hs).
      do 2 eexists. split; [done|]. by apply Hs. }
  assert (forall db1, readable db1 = true -> writable db1 = true ->
    (finish_response c operation status body db1).2 = if status =? 401 then Some ErrAuthentication else None) as Hf.
  { intros db1 Hr1 Hw1. unfold finish_response.
    destruct (_ && negb (refusalStatus status)); [|done].
    unfold ResetTransientFailures, GetProviderState, PutProviderState. rewrite Hr1, Hw1. simpl.
    destruct (rows db1 !! _) as [s1|]; [|done]. by destruct (FailureAttempt s1 =? 0). }
  destruct (response_window now c status h) as [w|] eqn:Ew.
  - assert (exists db1 reset, persist now (mkThrottle (ProviderID c) operation (WSource w) (WLimit w)
      (WRemaining w) (WResetAt w) false) db = Ok (db1, reset)
      /\ boundedReset now (WResetAt w) <= reset /\ readable db1 = true /\ writable db1 = true)
      as (db1 & reset & -> & Hle & Hr1 & Hw1).
    { unfold persist, previousState, GetProviderState, PutProviderState. rewrite Hrd. simpl. rewrite Hwr.
      destruct (rows db !! _) as [s|]; simpl; do 2 eexists; (split; [done|]; split; [|done]); simpl;
        match goal with |- context [if ?b then _ else _] => destruct b eqn:Eb end; bools; lia. }
    destruct (status =? 429); [by exists reset|]. by apply Hf.
  - destruct (Z.eqb_spec status 429) as [->|]; [|by apply Hf].
    unfold finish_response. by destruct body.
Qed.
End gate_theorems.

(** ** Witnesses *)

Definition sample_client : Client := mkClient (t "os") (t "OpenSubtitles").
Definition sample_now : instant := 1000 * hour.

(** A download quota of [sample_client] until ten hours from [sample_now]. *)
Definition sample_quota : StateStore :=
  mkStore {[ (t "os", OperationDownload) :=
    mkState (t "download_quota") 20 0 (sample_now + 10 * hour) false 0 ]} true true.

(** A successful download, a 503 and a full body read arrive meanwhile. *)
Definition sample_after : StateStore :=
  let ok := (client_do sample_now sample_client OperationDownload (TripResponse 200 no_headers true) sample_quota).1 in
  let bad := (client_do (sample_now + hour) sample_client OperationDownload (TripResponse 503 no_headers true) ok).1 in
  (body_end false (sample_now + 2 * hour) sample_client OperationDownload EndEOF bad).1.

Lemma sample_run :
  gate_run (fun now => 0 <= now < sample_now + 10 * hour) sample_quota sample_after.
Proof.
  eapply rtc_l; [exists sample_now; split; [vm_compute; split; [discriminate|reflexivity]|]; apply step_do|].
  eapply rtc_l; [exists (sample_now + hour); split; [vm_compute; split; [discriminate|reflexivity]|]; apply step_do|].
  apply rtc_once. exists (sample_now + 2 * hour). split; [vm_compute; split; [discriminate|reflexivity]|].
  apply step_body.
Qed.

Lemma cooldown_never_shortened_witness :
  match checkState false (sample_now + 9 * hour) (t "os") OperationDownload sample_after with
  | Ok _ => False
  | Err (ErrCooldown _ p _ _ reset) => p = t "os" /\ sample_now + 10 * hour <= reset
  | Err (ErrDisabled p _) => p = t "os"
  | Err _ => False
  end.
Proof.
  apply (cooldown_never_shortened (sample_now + 10 * hour) (t "os") OperationDownload sample_quota).
  - eexists. split; [vm_compute; reflexivity|]. split; [vm_compute; reflexivity|]. right.
    split; vm_compute; discriminate.
  - exact sample_run.
  - vm_compute. reflexivity.
  - vm_compute. reflexivity.
  - by right.
Defined.

Lemma availability_check_meaning_witness :
  check_meaning sample_now (t "os") false [OperationAll; OperationAuth; OperationDownload] sample_quota
    (checkAvailability false sample_now (t "os") false [OperationAll; OperationAuth; OperationDownload]
       sample_quota).
Proof. apply availability_check_meaning. reflexivity. Defined.

Lemma cooldowns_capped_witness :
  exists s, rows sample_after !! (t "os", OperationDownload) = Some s
    /\ ResetAt s <= sample_now + 10 * hour + 48 * hour.
Proof.
  eexists. split; [vm_compute; reflexivity|].
  refine (cooldowns_capped (sample_now + 10 * hour) sample_quota sample_after _ _
            (t "os", OperationDownload) _ _).
  - eapply (rtc_subrel _ _ _ _ _ sample_run). Unshelve.
    intros x y (now & Hnow & Hs). exists now. split; [lia|done].
  - intros k s Hs. unfold sample_quota in Hs. cbn [rows] in Hs.
    apply lookup_singleton_Some in Hs as [<- <-]. vm_compute. discriminate.
  - vm_compute. reflexivity.
Defined.

Lemma refusal_always_cools_down_witness :
  exists db reset, PersistCooldown sample_now sample_client OperationSearch CooldownRateLimit 0 sample_quota
                   = Ok (db, reset) /\ sample_now < reset.
Proof.
  do 2 eexists. split; [vm_compute; reflexivity|].
  refine (proj1 (refusal_always_cools_down sample_now sample_client OperationSearch CooldownRateLimit 0
    sample_quota _ _ _ eq_refl)). vm_compute. discriminate.
Defined.

Definition sample_failures : list (instant * text) := [(sample_now, t "network_error"); (sample_now + hour, [])].

Lemma failures_escalate_witness :
  exists db', fail_run (t "os") OperationSearch (sample_failures ++ [(sample_now + 2 * hour, t "http_502")])
    (mkStore {[ (t "os", OperationSearch) := zero_state ]} true true) = Ok db'
  /\ exists s, rows db' !! (t "os", OperationSearch) = Some s /\ FailureAttempt s = 3.
Proof.
  eexists. split; [vm_compute; reflexivity|].
  edestruct (failures_escalate (t "os") OperationSearch sample_failures (sample_now + 2 * hour) (t "http_502")
    (mkStore {[ (t "os", OperationSearch) := zero_state ]} true true)) as (s & Hs & Hc & _);
    [..|exists s; split; [exact Hs|exact Hc]]; try (vm_compute; reflexivity). vm_compute. discriminate.
Defined.

Lemma response_outcome_witness :
  exists reason reset,
    (client_do sample_now sample_client OperationSearch (TripResponse 502 no_headers true) sample_quota).2
    = Some (ErrCooldown false (t "os") OperationSearch reason reset) /\ sample_now < reset.
Proof.
  apply (response_outcome sample_now sample_client OperationSearch 502 no_headers true sample_quota).
  - vm_compute. discriminate.
  - reflexivity.
  - reflexivity.
  - intros s Hs. unfold sample_quota in Hs. cbn [rows] in Hs. apply lookup_singleton_Some in Hs as [[=] _].
Defined.
