(* ===== verification/MatchRelease.v ===== *)
(** * Release names (src/internal/match/release.go)

    What a release name says about a subtitle: the title, numbering, group,
    source, cut, picture variants, streaming service and resolution. The
    general parser (torrentname.Parse, a third-party package) is a parameter;
    everything the program derives around it is modelled. *)
From S2P Require Import Prelude GoText Regex Domain.

#[local] Open Scope Z_scope.

(** The fields of torrentname's result the program reads. *)
Record ParsedName := mkParsed {
  NTitle : text; NYear : Z; NSeason : Z; NEpisode : Z; NEpisodeEnd : Z; NGroup : text;
  NQuality : text; NSource : text; NEdition : text; NExtended : bool; NUnrated : bool;
  NResolution : text; NComplete : bool;
}.

(** [None] when the parser fails or returns nothing. *)
Class NameParser := torrentname_parse : text -> option ParsedName.

Record Release := mkRelease {
  Raw : text;
  Title : text;
  Year : Z;
  Season : Z;
  Episode : Z;
  REpisodeEnd : Z;
  AbsoluteEpisode : Z;
  RAbsoluteEpisodeEnd : Z;
  RGroup : text;
  RSource : text;
  REdition : text;
  Variants : Z;
  Service : text;
  RResolution : text;
  Complete : bool;
}.

Definition empty_release : Release :=
  mkRelease [] [] 0 0 0 0 0 0 [] [] [] 0 [] [] false.

(** [unicode.Z] above ASCII, as in Go's tables. *)
Definition unicode_separator (r : rune) : bool :=
  one_of [160; 5760; 8232; 8233; 8239; 8287; 12288]%N r || between 8192 8202 r.
Definition wide_space : regex := Chr (fun r => ascii_space r || unicode_separator r).

(** [[[:space:]\p{Z}]+/[[:space:]\p{Z}]+] *)
Definition releaseAlternativeSeparator : regex :=
  (Plus wide_space ++ lit (t "/") ++ Plus wide_space)%re.

Definition range_open (r : rune) : bool := perl_space r || one_of (t "._[(-") r.
Definition range_close (r : rune) : bool := perl_space r || one_of (t "._])") r.
Definition not_digit (r : rune) : bool := negb (ascii_digit r).

(** [(?:^|[\s._\[(-])(\d{2,4})-(\d{2,4})(?:[\s._\])]|$)] *)
Definition absoluteEpisodeRange : regex :=
  ((Bol || Chr range_open)
   ++ Group 1 (rep 2 4 dig) ++ lit (t "-") ++ Group 2 (rep 2 4 dig)
   ++ (Chr range_close || Eol))%re.

(** A rune outside a negated ASCII class under [(?i)]: the long s and the
    Kelvin sign fold into [a-z]. *)
Definition not_alnum_folded : regex :=
  Chr (fun r => negb (alnum r || (r =? 383)%N || (r =? 8490)%N)).

(** [(?i)(?:^|[^0-9a-z])(\d{1,2})x(\d{1,3})\.(\d{1,3})(?:[^0-9]|$)] *)
Definition seasonCrossEpisodeDotRange : regex :=
  ((Bol || not_alnum_folded)
   ++ Group 1 (rep 1 2 dig) ++ ilit (t "x") ++ Group 2 (rep 1 3 dig) ++ lit (t ".")
   ++ Group 3 (rep 1 3 dig)
   ++ (Chr not_digit || Eol))%re.

(** [(?i)(?:^|[^a-z0-9])(?:cd ?0?[1-9]|[2-9] ?cds?)(?:[^a-z0-9]|$)] *)
Definition multiDiscLabel : regex :=
  ((Bol || not_alnum_folded)
   ++ ((ilit (t "cd") ++ Opt (lit (t " ")) ++ Opt (lit (t "0")) ++ any_of (t "123456789"))
       || (any_of (t "23456789") ++ Opt (lit (t " ")) ++ ilit (t "cd") ++ Opt (ilit (t "s"))))
   ++ (not_alnum_folded || Eol))%re.

Definition maximumAbsoluteRangeSpan : Z := 10.

(** [Regexp.Split(s, -1)] for an expression that never matches the empty
    string. *)
Fixpoint split_spans (s : text) (from : nat) (ms : list span) : list text :=
  match ms with
  | [] => [drop from s]
  | m :: ms => slice s from (s_start m) :: split_spans s (s_end m) ms
  end.
Definition regex_split (re : regex) (s : text) : list text := split_spans s 0 (find_all re s).

(** [n, _ := strconv.Atoi(...)] of a submatch. *)
Definition group_int (s : text) (m : span) (n : nat) : Z := atoi0 (group_or_empty s m n).

Section release.
Context `{Unicode}.

(** The loop of [NormalizeIdentity]: the output so far in reverse and whether
    a separator is pending. *)
Fixpoint normalize_go (output : text) (space : bool) (s : text) : text :=
  match s with
  | [] => rev output
  | r :: s =>
      if is_letter r || is_digit r then
        let output := if space && negb (length output =? 0)%nat then 32%N :: output else output in
        normalize_go (r :: output) false s
      else if ((r =? 39) || (r =? 8217))%N then normalize_go output space s
      else normalize_go output true s
  end.
Definition NormalizeIdentity (value : text) : text :=
  normalize_go [] false (to_lower (trim_space value)).

Definition firstNonEmpty (values : list text) : text :=
  match List.find (fun v => negb (bool_decide (v = []))) values with Some v => v | None => [] end.

Definition has (needle : string) (s : text) : bool := contains (t needle) s.

Definition sourceToken (s : text) : text :=
  let s := to_lower s in
  if has "remux" s || has "bdmv" s || has "br-disk" s then t "remux"
  else if has "web-dl" s || has "webdl" s || has "web dl" s then t "web-dl"
  else if has "webrip" s || has "web-rip" s then t "webrip"
  else if has "bluray" s || has "blu-ray" s || has "bdrip" s then t "bluray"
  else if has "hdtv" s then t "hdtv"
  else [].

Definition sourceAliases : list (string * string) :=
  [("television", "hdtv"); ("televisionraw", "hdtv"); ("tv", "hdtv"); ("pdtv", "hdtv");
   ("web", "web-dl"); ("webdl", "web-dl"); ("dvd", "dvdrip"); ("brrip", "bluray");
   ("blurayraw", "remux"); ("bdremux", "remux"); ("brdisk", "remux"); ("br disk", "remux");
   ("bdmv", "remux")]%string.

Definition source_alias (name : text) : option text :=
  (fun kv => t (snd kv)) <$> List.find (fun kv => bool_decide (t (fst kv) = name)) sourceAliases.

Definition normalizeSource (value raw : text) : text :=
  match sourceToken raw with
  | [] =>
      match source_alias (NormalizeIdentity value) with
      | Some alias => alias
      | None => match sourceToken value with [] => NormalizeIdentity value | source => source end
      end
  | source => source
  end.

(** [strings.NewReplacer(".", " ", "_", " ", "-", " ")]. *)
Definition spaced (raw : text) : text :=
  map (fun r => if one_of (t "._-") r then 32%N else r) raw.

Fixpoint after_year (words all : list text) : text :=
  match words with
  | [] => join (t " ") all
  | w :: words =>
      match atoi w with
      | Some year =>
          if (length w =? 4)%nat && (1900 <=? year) && (year <=? 2099) then join (t " ") words
          else after_year words all
      | None => after_year words all
      end
  end.
Definition editionDescriptor (raw : text) : text :=
  let words := fields (spaced raw) in after_year words words.

Definition normalizeEdition (value raw : text) (extended unrated : bool) : text :=
  let joined := to_lower (value ++ t " " ++ editionDescriptor raw) in
  if has "director's cut" joined || has "directors cut" joined || has "director cut" joined
  then t "directors cut"
  else if has "final cut" joined then t "final cut"
  else if has "ultimate cut" joined then t "ultimate cut"
  else if has "ultimate edition" joined then t "ultimate edition"
  else if has "special edition" joined then t "special edition"
  else if has "anniversary edition" joined then t "anniversary edition"
  else if has "redux" joined then t "redux"
  else if extended || has "extended" joined then t "extended"
  else if unrated || has "unrated" joined then t "unrated"
  else if has "theatrical" joined then t "theatrical"
  else
    let named := NormalizeIdentity value in
    if existsb (fun w => bool_decide (w = t "cut")) (fields named) then named else [].

Definition variantIMAX : Z := 1.
Definition variantRemastered : Z := 2.
Definition variantRestored : Z := 4.
Definition variantOpenMatte : Z := 8.
Definition variantHybrid : Z := 16.

Definition variant_labels : list (Z * list string) :=
  [(variantIMAX, ["imax"]); (variantRemastered, ["remastered"; "remaster"; "rm4k"]);
   (variantRestored, ["restored"; "restoration"]); (variantOpenMatte, ["open matte"]);
   (variantHybrid, ["hybrid"])]%string.

Definition containsToken (haystack : text) (token : string) : bool :=
  contains (t " " ++ t token ++ t " ") haystack.

Definition editionVariants (s : text) : Z :=
  let words := t " " ++ NormalizeIdentity s ++ t " " in
  fold_left (fun variants label =>
    fold_left (fun variants word => if containsToken words word then Z.lor variants (fst label) else variants)
      (snd label) variants) variant_labels 0.

Definition streamingService (raw : text) : text :=
  let tokens := t " " ++ to_lower (spaced raw) ++ t " " in
  if containsToken tokens "nf" || has " netflix " tokens then t "netflix"
  else if containsToken tokens "amzn" || has " amazon " tokens then t "amazon"
  else if containsToken tokens "dsnp" || has " disney " tokens then t "disney+"
  else if containsToken tokens "atvp" || has " apple tv " tokens then t "apple tv+"
  else if containsToken tokens "hmax" || containsToken tokens "max" then t "max"
  else if containsToken tokens "hulu" then t "hulu"
  else [].

Context `{NameParser}.

(** The parser's part of a release. *)
Definition parsed_release (raw : text) : Release :=
  match torrentname_parse raw with
  | None => mkRelease raw [] 0 0 0 0 0 0 [] [] [] 0 [] [] false
  | Some p =>
      mkRelease raw (NormalizeIdentity (NTitle p)) (NYear p) (NSeason p) (NEpisode p) (NEpisodeEnd p)
        0 0 (NormalizeIdentity (NGroup p))
        (normalizeSource (firstNonEmpty [NQuality p; NSource p]) raw)
        (normalizeEdition (NEdition p) raw (NExtended p) (NUnrated p))
        0 [] (to_lower (NResolution p)) (NComplete p)
  end.

(** Season, episode and last episode, with the ["06x01.02"] form read over
    the parser. *)
Definition release_numbering (raw : text) (r : Release) : Z * Z * Z :=
  match find seasonCrossEpisodeDotRange raw with
  | Some m =>
      let '(season, first, last) := (group_int raw m 1, group_int raw m 2, group_int raw m 3) in
      if (0 <? season) && (0 <? first) && (first <? last) then (season, first, last)
      else (Season r, Episode r, REpisodeEnd r)
  | None => (Season r, Episode r, REpisodeEnd r)
  end.

Definition absolute_numbering (raw : text) (season : Z) : Z * Z :=
  if season =? 0 then
    match find absoluteEpisodeRange raw with
    | Some m =>
        let '(first, last) := (group_int raw m 1, group_int raw m 2) in
        let yearLike := (1900 <=? first) && (first <=? 2099) in
        if (0 <? first) && (first <? last) && (last - first <=? maximumAbsoluteRangeSpan) && negb yearLike
        then (first, last) else (0, 0)
    | None => (0, 0)
    end
  else (0, 0).

Definition ParseRelease (raw : text) : Release :=
  let r := parsed_release raw in
  let '(season, episode, episodeEnd) := release_numbering raw r in
  let '(first, last) := absolute_numbering raw season in
  mkRelease raw (Title r) (Year r) season episode episodeEnd first last (RGroup r)
    (match RSource r with [] => normalizeSource [] raw | s => s end)
    (match REdition r with [] => normalizeEdition [] raw false false | e => e end)
    (editionVariants (editionDescriptor raw)) (streamingService raw) (RResolution r) (Complete r).

Definition parseReleases (names : list text) : list Release :=
  concat (map (fun raw =>
    omap (fun alternative =>
      match trim_space alternative with [] => None | a => Some (ParseRelease a) end)
      (regex_split releaseAlternativeSeparator raw)) names).

Definition IsMultiDisc (name : text) : bool := matches multiDiscLabel name.
End release.

(** ** The identity of a title

    A reference definition: the words of the lowered text, apostrophes
    removed, joined by single spaces. *)
Section normalize.
Context `{Unicode}.

Definition apostrophe (r : rune) : bool := ((r =? 39) || (r =? 8217))%N.
Definition identity_rune (r : rune) : bool := is_letter r || is_digit r.

(** Runes [NormalizeIdentity] neither writes nor breaks words at. *)
Definition skipped (r : rune) : bool := apostrophe r && negb (identity_rune r).

Definition identity_words (value : text) : list text :=
  fields_func (fun r => negb (identity_rune r))
    (base.filter (fun r => skipped r = false) (to_lower (trim_space value))).

Lemma fields_go_head sep word s :
  word <> [] -> exists w ws, fields_go sep word s = (rev word ++ w) :: ws.
Proof.
  revert word. induction s as [|r s IH]; intros word Hw; simpl.
  - destruct word as [|a word]; [done|]. exists [], []. by rewrite app_nil_r.
  - destruct (sep r).
    + destruct word as [|a word]; [done|]. exists [], (fields_go sep [] s). by rewrite app_nil_r.
    + destruct (IH (r :: word)) as (w & ws & E); [done|]. rewrite E.
      exists ([r] ++ w), ws. simpl. by rewrite <- !app_assoc.
Qed.

Lemma join_cons sep w ws : join sep (w :: ws) = w ++ match ws with [] => [] | _ => sep ++ join sep ws end.
Proof. destruct ws; simpl; [by rewrite app_nil_r|done]. Qed.

(** The loop writes the words of the rest after what it has written: [done]
    words and, when no separator is pending, the word in progress. *)
Lemma normalize_go_words output word s :
  (forall r, r ∈ s -> skipped r = false) ->
  (word <> [] -> normalize_go (word ++ output) false s
                 = rev output ++ join [32%N] (fields_go (fun r => negb (identity_rune r)) word s))
  /\ (forall space, (output = [] \/ space = true) ->
        normalize_go output space s
        = rev output ++ match fields_func (fun r => negb (identity_rune r)) s with
                        | [] => []
                        | ws => (if (length output =? 0)%nat then [] else [32%N]) ++ join [32%N] ws
                        end).
Proof.
  set (sep := fun r => negb (identity_rune r)). revert output word.
  induction s as [|r s IH]; intros output word Hs.
  - split; [|intros; simpl; by rewrite app_nil_r].
    intros Hw. simpl. destruct word as [|a word]; [done|]. simpl.
    rewrite rev_app_distr. by rewrite app_assoc.
  - assert (forall q, q ∈ s -> skipped q = false) as Hs' by (intros q Hq; apply Hs; by right).
    assert (skipped r = false) as Hr by (apply Hs; left).
    assert (is_letter r || is_digit r = negb (sep r)) as Hsep by (unfold sep, identity_rune; by rewrite negb_involutive).
    split.
    + intros Hw. cbn [normalize_go fields_go]. rewrite Hsep. destruct (sep r) eqn:E; simpl.
      * assert (((r =? 39) || (r =? 8217))%N = false) as ->.
        { unfold skipped, apostrophe in Hr. unfold sep in E. rewrite E in Hr. by rewrite andb_true_r in Hr. }
        destruct (IH (word ++ output) [] Hs') as [_ IH2]. rewrite IH2 by by right.
        destruct word as [|a word]; [done|]. rewrite rev_app_distr, join_cons.
        change (fields_go sep [] s) with (fields_func sep s).
        destruct (fields_func sep s); simpl; [|rewrite <- ?app_assoc; simpl; by rewrite <- ?app_assoc].
        by rewrite !app_nil_r.
      * destruct (IH output (r :: word) Hs') as [IH1 _]. by apply IH1.
    + intros space Hsp. cbn [normalize_go]. unfold fields_func. cbn [fields_go].
      rewrite Hsep. destruct (sep r) eqn:E; simpl.
      * assert (((r =? 39) || (r =? 8217))%N = false) as ->.
        { unfold skipped, apostrophe in Hr. unfold sep in E. rewrite E in Hr. by rewrite andb_true_r in Hr. }
        destruct (IH output [] Hs') as [_ IH2]. apply IH2. by right.
      * destruct (IH (if space && negb (length output =? 0)%nat then 32%N :: output else output) [r] Hs')
          as [IH1 _].
        specialize (IH1 ltac:(done)). cbn [app] in IH1. rewrite IH1.
        destruct (fields_go_head sep [r] s) as (w & ws & ->); [done|].
        destruct Hsp as [->| ->]; simpl; [by rewrite andb_false_r|].
        destruct output; simpl; [done|]. by rewrite <- !app_assoc.
Qed.

Lemma normalize_go_filter output space s :
  normalize_go output space s
  = normalize_go output space (base.filter (fun r => skipped r = false) s).
Proof.
  revert output space. induction s as [|r s IH]; intros output space; [done|].
  rewrite filter_cons. destruct (decide (skipped r = false)) as [Hr|Hr]; cbn [normalize_go].
  - destruct (is_letter r || is_digit r); [apply IH|].
    destruct (_ || _)%N; apply IH.
  - apply not_false_iff_true in Hr. unfold skipped, apostrophe, identity_rune in Hr.
    apply andb_true_iff in Hr as [Ha Hi]. apply negb_true_iff in Hi. rewrite Hi, Ha. apply IH.
Qed.

Lemma NormalizeIdentity_words value : NormalizeIdentity value = join (t " ") (identity_words value).
Proof.
  unfold NormalizeIdentity. rewrite normalize_go_filter.
  destruct (normalize_go_words [] [] (base.filter (fun r => skipped r = false) (to_lower (trim_space value))))
    as [_ H1].
  { by intros r [Hr _]%list_elem_of_filter. }
  rewrite (H1 false) by by left. simpl. unfold identity_words. by destruct (fields_func _ _).
Qed.
End normalize.

(** ** Theorems *)

Section release_theorems.
Context `{Unicode}.

Lemma identity_words_ok value :
  Forall (fun w => w <> [] /\ Forall (fun r => negb (identity_rune r) = false) w) (identity_words value).
Proof.
  apply Forall_forall. intros w Hw. unfold identity_words, fields_func in Hw.
  apply (fields_go_no_sep _ [] _ _) in Hw; [|constructor]. tauto.
Qed.

(** [NormalizeIdentity] compares titles word by word: it is the words of
    the lowered title (letters and digits, apostrophes dropped) joined by
    single spaces, so two titles normalise equally exactly when they have the
    same words, and no word of it is empty or holds another rune. *)
Theorem normalize_identity_words a b :
  NormalizeIdentity a = join (t " ") (identity_words a)
  /\ Forall (fun w => w <> [] /\ Forall (fun r => identity_rune r = true) w) (identity_words a)
  /\ (NormalizeIdentity a = NormalizeIdentity b <-> identity_words a = identity_words b).
Proof.
  assert (forall v, fields_func (fun r => negb (identity_rune r)) (NormalizeIdentity v) = identity_words v) as Hf.
  { intros v. rewrite NormalizeIdentity_words. apply fields_join; [done|apply identity_words_ok]. }
  split_and!; [apply NormalizeIdentity_words| |].
  - eapply Forall_impl; [apply identity_words_ok|]. intros w [Hne Hw]. split; [done|].
    eapply Forall_impl; [exact Hw|]. intros r. apply negb_false_iff.
  - split; intros E; [by rewrite <- !Hf, E|by rewrite !NormalizeIdentity_words, E].
Qed.
End release_theorems.

Example identity_punctuation :
  NormalizeIdentity (t "Marvel's Jessica Jones") = NormalizeIdentity (t "Marvels.Jessica-Jones").
Proof. vm_compute. reflexivity. Qed.

Example multi_disc_labels :
  map (fun n => IsMultiDisc (t n))
    ["Gods and Generals CD1"; "Gods.and.Generals.2003.DVDRip.XviD-CD1"; "DVDRip.XviD 2cd";
     "Show.CDDHD"; "x-CDR"]%string
  = [true; true; true; false; false].
Proof. vm_compute. reflexivity. Qed.
