(* ===== verification/MatchScore.v ===== *)
(** * Scoring and ranking (src/internal/match/score.go, affinity.go)

    How a candidate is judged against a media file: the reasons to reject it,
    the weighted evidence of its score, and the order of the ranking. The
    theorems bound the score, show that a rejected candidate can never be
    eligible, state exactly when a candidate is rejected and why, that the
    evidence accepted for a multi-episode file covers every episode of it, and
    that ranking is a stable sort. *)
From S2P Require Import Prelude GoText GoFloat Regex Domain MatchRelease.

#[local] Open Scope Z_scope.

Record EvaluatedCandidate := mkEvaluated {
  ECandidate : Candidate;
  EScore : Score;
  ProviderPriority : Z;
}.

Definition boolPoints (value : bool) (points : Z) : Z := if value then points else 0.

Definition contribution (signal : string) (points : Z) (label : string) : Contribution :=
  mkContribution (t signal) points
    (if 0 <? points then t label ++ t " matched" else t label ++ t " did not match or was unknown").

Definition clamp (value : float64) : float64 :=
  if flt value 0 then 0%Q else if flt 1 value then 1%Q else value.

Definition Eligible (score : Score) (minimum : Z) : bool :=
  bool_decide (RejectedReasons score = []) && (minimum <=? Total score).

(** ** Episodes and packs *)

Definition coversTarget (media : Media) (candidate : Candidate) (releases : list Release) : bool :=
  ExactHash candidate
  || match Pack candidate with
     | Some pack =>
         match Scope pack with
         | PackRange =>
             let standard := ((PSeason pack =? 0) || (PSeason pack =? MSeason media))
               && (0 <? EpisodeFrom pack) && (EpisodeFrom pack <=? MEpisode media)
               && (EpisodeEnd media <=? EpisodeTo pack) in
             let absolute := (0 <? AbsoluteEpisodeEnd media) && (0 <? AbsoluteFrom pack)
               && (AbsoluteFrom pack <=? MAbsoluteEpisode media)
               && (AbsoluteEpisodeEnd media <=? AbsoluteTo pack) in
             standard || absolute
         | _ => false
         end
     | None => false
     end
  || existsb (fun release =>
       let end_ := Z.max (REpisodeEnd release) (Episode release) in
       ((Season release =? MSeason media) && (0 <? Episode release)
        && (Episode release <=? MEpisode media) && (EpisodeEnd media <=? end_))
       || ((0 <? AbsoluteEpisodeEnd media) && (0 <? AbsoluteEpisode release)
           && (AbsoluteEpisode release <=? MAbsoluteEpisode media)
           && (AbsoluteEpisodeEnd media <=? RAbsoluteEpisodeEnd release))) releases.

Definition episodeInTarget (media : Media) (episode : Z) : bool :=
  if IsEpisodeRange media then (MEpisode media <=? episode) && (episode <=? EpisodeEnd media)
  else episode =? MEpisode media.

Definition packContains (pack : option PackInfo) (media : Media) : bool :=
  match pack with
  | None => false
  | Some pack =>
      match Scope pack with
      | PackSeason => PSeason pack =? MSeason media
      | PackRange =>
          let standard := ((PSeason pack =? 0) || (PSeason pack =? MSeason media))
            && (EpisodeFrom pack <=? MEpisode media) && (MEpisode media <=? EpisodeTo pack) in
          let absolute := (0 <? MAbsoluteEpisode media)
            && (AbsoluteFrom pack <=? MAbsoluteEpisode media)
            && (MAbsoluteEpisode media <=? AbsoluteTo pack) in
          standard || absolute
      | _ => false
      end
  end.

Definition packSeasonConflicts (pack : option PackInfo) (media : Media) : bool :=
  match pack with
  | None => false
  | Some pack =>
      if (PSeason pack =? 0) || (PSeason pack =? MSeason media) then false
      else negb (match Scope pack with PackRange => true | _ => false end
                 && (0 <? MAbsoluteEpisode media)
                 && (AbsoluteFrom pack <=? MAbsoluteEpisode media)
                 && (MAbsoluteEpisode media <=? AbsoluteTo pack))
  end.

Definition episodeEvidenceMatches (media : Media) (candidate : Candidate) (releases : list Release) : bool :=
  if negb (bool_decide (RefKind (MRef media) = MediaEpisode)) then false
  else if IsEpisodeRange media then coversTarget media candidate releases
  else
    ((CSeason candidate =? MSeason media) && (CEpisode candidate =? MEpisode media)
     && (0 <? MSeason media) && (0 <? MEpisode media))
    || ((0 <? MAbsoluteEpisode media) && (CAbsoluteEpisode candidate =? MAbsoluteEpisode media))
    || packContains (Pack candidate) media
    || existsb (fun release =>
         let end_ := if REpisodeEnd release =? 0 then Episode release else REpisodeEnd release in
         (Season release =? MSeason media) && (0 <? Episode release)
         && (Episode release <=? MEpisode media) && (MEpisode media <=? end_)) releases.

(** ** Identity *)

Section identity.
Context `{Unicode}.

Definition comparable (value : text) : text := NormalizeIdentity (trim_space value).
Definition same (a b : text) : bool := bool_decide (comparable a = comparable b).
Definition blank (a : text) : bool := bool_decide (a = []).

Definition imdb_known (m c : ExternalIDs) : bool := negb (blank (IMDb m)) && negb (blank (IMDb c)).
Definition tmdb_known (m c : ExternalIDs) : bool := negb (TMDB m =? 0) && negb (TMDB c =? 0).
Definition tvdb_known (m c : ExternalIDs) : bool := negb (TVDB m =? 0) && negb (TVDB c =? 0).

Definition externalConflicts (m c : ExternalIDs) : list string :=
  (if imdb_known m c && negb (same (IMDb m) (IMDb c))
   then ["candidate IMDb identity conflicts with target"%string] else [])
  ++ (if tmdb_known m c && negb (TMDB m =? TMDB c)
      then ["candidate TMDB identity conflicts with target"%string] else [])
  ++ (if tvdb_known m c && negb (TVDB m =? TVDB c)
      then ["candidate TVDB identity conflicts with target"%string] else []).

Definition matchingExternalID (m c : ExternalIDs) : bool :=
  (imdb_known m c && same (IMDb m) (IMDb c))
  || (tmdb_known m c && (TMDB m =? TMDB c))
  || (tvdb_known m c && (TVDB m =? TVDB c)).

Definition titleMatches (media : Media) (candidate : Candidate) (releases : list Release) : bool :=
  let wanted := NormalizeIdentity (MTitle media) :: map NormalizeIdentity (MAlternateTitles media) in
  let known title := negb (blank title) && bool_decide (title ∈ wanted) in
  known (NormalizeIdentity (CTitle candidate))
  || existsb (fun title => known (NormalizeIdentity title)) (CAlternateTitles candidate)
  || existsb (fun release => known (Title release)) releases.

Definition releaseFieldMatches (releases : list Release) (wanted : text) (field : Release -> text) : bool :=
  let wanted := comparable wanted in
  negb (blank wanted) && existsb (fun release => bool_decide (comparable (field release) = wanted)) releases.

Definition mediaSource (media : Media) : text :=
  let quality := to_lower (Quality media) in
  if has "remux" quality || has "br-disk" quality || has "brdisk" quality then t "remux"
  else normalizeSource (Source media) [].

Definition releaseSourceMatches (releases : list Release) (media : Media) : bool :=
  releaseFieldMatches releases (mediaSource media) RSource.

Definition editionMatches (releases : list Release) (edition : text) : bool :=
  match comparable (normalizeEdition edition [] false false) with
  | [] =>
      let variants := editionVariants edition in
      negb (variants =? 0)
      && existsb (fun release => Z.land (Variants release) variants =? variants) releases
  | wanted => existsb (fun release => bool_decide (comparable (REdition release) = wanted)) releases
  end.

Definition equivalentReleaseGroups : list (list string) :=
  [["framestor"; "w4nk3r"; "bhdstudio"]; ["lol"; "dimension"]; ["asap"; "immerse"; "fleet"];
   ["avs"; "sva"]]%string.

Definition accepted_groups (wanted : text) : list text :=
  wanted :: concat (map (fun group =>
    let aliases := map (fun alias => comparable (t alias)) group in
    if bool_decide (wanted ∈ aliases) then aliases else []) equivalentReleaseGroups).

Definition releaseGroupMatches (releases : list Release) (wanted : text) : bool :=
  let wanted := comparable wanted in
  negb (blank wanted)
  && existsb (fun release => bool_decide (comparable (RGroup release) ∈ accepted_groups wanted)) releases.
End identity.

(** ** Evaluation *)

Section evaluate.
Context `{Unicode} `{NameParser} `{LanguageTags}.

Definition candidateReleases (candidate : Candidate) : list Release :=
  parseReleases (ReleaseNames candidate)
  ++ map (fun group => mkRelease [] [] 0 0 0 0 0 0 group [] [] 0 [] [] false) (ReleaseGroups candidate)
  ++ map (fun resolution => mkRelease [] [] 0 0 0 0 0 0 [] [] [] 0 [] resolution false)
       (Resolutions candidate).

Definition HasEpisodeEvidence (media : Media) (candidate : Candidate) : bool :=
  episodeEvidenceMatches media candidate (candidateReleases candidate).

Definition HasMatchingEdition (media : Media) (candidate : Candidate) : bool :=
  if blank (normalizeEdition (Edition media) [] false false) && (editionVariants (Edition media) =? 0)
  then true
  else editionMatches (candidateReleases candidate) (Edition media).

(** The season and episode reasons. *)
Definition numberingRejections (media : Media) (candidate : Candidate) (externalMatch selectedMember : bool)
    : list string :=
  if bool_decide (RefKind (MRef media) = MediaMovie) then
    if negb (MYear media =? 0) && negb (CYear candidate =? 0)
       && (1 <? Z.abs (MYear media - CYear candidate)) && negb externalMatch
    then ["candidate movie year differs by more than one"%string] else []
  else if packSeasonConflicts (Pack candidate) media
  then ["candidate pack season conflicts with target"%string]
  else if negb (packContains (Pack candidate) media) then
    (if negb (CSeason candidate =? 0) && negb (CSeason candidate =? MSeason media)
     then ["candidate season conflicts with target"%string] else [])
    ++ (if negb selectedMember && negb (CEpisode candidate =? 0)
           && negb (episodeInTarget media (CEpisode candidate))
           && negb (CEpisode candidate =? MAbsoluteEpisode media)
        then ["candidate episode conflicts with target"%string] else [])
  else [].

Definition editionRejections (media : Media) (candidate : Candidate) (releases : list Release) : list string :=
  let wantedEdition := comparable (normalizeEdition (Edition media) [] false false) in
  if negb (blank wantedEdition) && negb (ExactHash candidate) then
    let known := existsb (fun release => negb (blank (REdition release))) releases in
    let matched := existsb (fun release => negb (blank (REdition release))
                     && bool_decide (comparable (REdition release) = wantedEdition)) releases in
    if known && negb matched then ["candidate edition conflicts with target"%string] else []
  else [].

Definition identityRejections (media : Media) (candidate : Candidate) (requestedLanguage : Language)
    (releases : list Release) (selectedMember : bool) : list string :=
  (if negb (EquivalentLanguage (CLanguage candidate) requestedLanguage)
   then ["candidate language conflicts with requested language"%string] else [])
  ++ (if negb (bool_decide (Kind candidate = KindUnset))
         && negb (bool_decide (Kind candidate = RefKind (MRef media)))
      then ["candidate media kind conflicts with target"%string] else [])
  ++ (if Forced candidate
      then ["forced-only candidate does not satisfy a full-language request"%string] else [])
  ++ externalConflicts (MExternalIDs media) (CExternalIDs candidate)
  ++ numberingRejections media candidate
       (matchingExternalID (MExternalIDs media) (CExternalIDs candidate)) selectedMember
  ++ (if IsEpisodeRange media && negb (ExactHash candidate) && negb selectedMember
         && negb (coversTarget media candidate releases)
      then ["candidate episode range does not cover target"%string] else [])
  ++ editionRejections media candidate releases
  ++ (if negb (ExactHash candidate) && existsb (fun release => matches multiDiscLabel (Raw release)) releases
      then ["candidate is one disc of a multi-disc release"%string] else []).

Definition evidence (media : Media) (candidate : Candidate) (releases : list Release)
    (selectedMember : bool) : list Contribution :=
  let externalMatch := matchingExternalID (MExternalIDs media) (CExternalIDs candidate) in
  let titleMatch := titleMatches media candidate releases in
  let yearMatch :=
    (negb (CYear candidate =? 0) && negb (MYear media =? 0) && (CYear candidate =? MYear media))
    || existsb (fun release => negb (Year release =? 0) && (Year release =? MYear media)) releases in
  [contribution "external_id" (boolPoints externalMatch 20) "matching IMDb, TMDB, or TVDB identity";
   contribution "title_year" (boolPoints (titleMatch && yearMatch) 15) "normalized title and year";
   contribution "episode" (boolPoints (selectedMember || episodeEvidenceMatches media candidate releases) 20)
     "episode or containing pack";
   contribution "release_group" (boolPoints (releaseGroupMatches releases (ReleaseGroup media)) 25)
     "release group";
   contribution "source" (boolPoints (releaseSourceMatches releases media) 15) "media source";
   contribution "edition" (boolPoints (editionMatches releases (Edition media)) 10) "edition or cut";
   contribution "streaming_service"
     (boolPoints (releaseFieldMatches releases (StreamingService media) Service) 5) "streaming service";
   contribution "resolution"
     (boolPoints (releaseFieldMatches releases (Resolution media) RResolution) 5) "resolution";
   contribution "provider_rating" (math_round (fmul (clamp (Rating candidate)) 3))
     "normalized provider rating";
   contribution "popularity" (math_round (fmul (clamp (Popularity candidate)) 2))
     "normalized provider popularity"]%string.

Definition points (l : list Contribution) : Z := foldr (fun c n => Points c + n) 0 l.

Definition evaluate (media : Media) (candidate : Candidate) (requestedLanguage : Language)
    (selectedMember : bool) : Score :=
  let releases := candidateReleases candidate in
  let rejected := identityRejections media candidate requestedLanguage releases selectedMember in
  if negb (bool_decide (rejected = [])) then mkScore 0 [] (map t rejected)
  else if ExactHash candidate then
    mkScore 100 [mkContribution (t "exact_hash") 100 (t "provider verified the exact media-file hash")] []
  else
    let contributions := evidence media candidate releases selectedMember in
    let total := points contributions in
    mkScore (if 100 <? total then 100 else total) contributions [].

Definition Evaluate (media : Media) (candidate : Candidate) (requestedLanguage : Language) : Score :=
  evaluate media candidate requestedLanguage false.

Definition EvaluateSelectedPackMember (media : Media) (candidate : Candidate) (language : Language) : Score :=
  if negb (bool_decide (RefKind (MRef media) = MediaEpisode)) || ExactHash candidate
  then Evaluate media candidate language
  else evaluate media candidate language true.

Definition ReleaseAffinity (media : Media) (name : text) : Z :=
  let releases := [ParseRelease name] in
  boolPoints (releaseGroupMatches releases (ReleaseGroup media)) 25
  + boolPoints (releaseSourceMatches releases media) 15
  + boolPoints (editionMatches releases (Edition media)) 10
  + boolPoints (releaseFieldMatches releases (StreamingService media) Service) 5
  + boolPoints (releaseFieldMatches releases (Resolution media) RResolution) 5.
End evaluate.

(** ** Ranking *)

Definition rank_less (left right : EvaluatedCandidate) : bool :=
  let l := ECandidate left in let r := ECandidate right in
  if negb (Total (EScore left) =? Total (EScore right)) then Total (EScore right) <? Total (EScore left)
  else if negb (ProviderPriority left =? ProviderPriority right)
  then ProviderPriority left <? ProviderPriority right
  else if negb (feq (Rating l) (Rating r)) then flt (Rating r) (Rating l)
  else if negb (DownloadCount l =? DownloadCount r) then DownloadCount r <? DownloadCount l
  else if negb (bool_decide (ProviderID l = ProviderID r)) then text_lt (ProviderID l) (ProviderID r)
  else text_lt (ResultID l) (ResultID r).

Definition Rank (items : list EvaluatedCandidate) : list EvaluatedCandidate := stable_sort rank_less items.

(** ** Lemmas: points *)

Lemma math_round_mono x y : (0 <= x)%Q -> (x <= y)%Q -> math_round x <= math_round y.
Proof.
  intros Hx Hxy. unfold math_round.
  assert (forall z, (0 <= z)%Q -> flt z 0 = false) as Hf.
  { intros z Hz. destruct (flt z 0) eqn:E; [|done]. apply flt_spec in E. exfalso. lra. }
  rewrite !Hf by lra. apply Qfloor_resp_le. lra.
Qed.

Lemma clamp_bounds x : (0 <= clamp x <= 1)%Q.
Proof.
  unfold clamp. destruct (flt x 0) eqn:E1; [split; discriminate|].
  destruct (flt 1 x) eqn:E2; [split; discriminate|].
  split; apply Qnot_lt_le; rewrite <- flt_spec; congruence.
Qed.

Lemma fmul_comm x y : fmul x y = fmul y x.
Proof. unfold fmul. f_equal. unfold Qmult. by rewrite Z.mul_comm, Pos.mul_comm. Qed.

Lemma scaled_bounds x n :
  0 <= n -> math_round (fmul (inject_Z n) 0) <= math_round (fmul (clamp x) (inject_Z n))
            <= math_round (fmul (inject_Z n) 1).
Proof.
  intros Hn. rewrite (fmul_comm (clamp x)). destruct (clamp_bounds x) as [Hlo Hhi].
  assert (0 <= inject_Z n)%Q as Hq by (rewrite <- (Zle_Qle 0); lia).
  split; apply math_round_mono.
  - apply round_nonneg, Qmult_le_0_compat; [done|apply Qle_refl].
  - apply fmul_mono_l; [done|apply Qle_refl|done].
  - by apply round_nonneg, Qmult_le_0_compat.
  - by apply fmul_mono_l.
Qed.

Lemma boolPoints_bounds b n : 0 <= n -> 0 <= boolPoints b n <= n.
Proof. destruct b; simpl; lia. Qed.

Lemma points_cons c l : points (c :: l) = Points c + points l.
Proof. done. Qed.

(** ** Lemmas: rejections *)

Lemma if_nil {A} (b : bool) (x : A) : (if b then [x] else []) = [] <-> b = false.
Proof. by destruct b. Qed.

Lemma existsb_false {A} (f : A -> bool) l : existsb f l = false <-> forall x, x ∈ l -> f x = false.
Proof.
  rewrite <- not_true_iff_false, existsb_exists. split.
  - intros Hn x Hx. destruct (f x) eqn:E; [|done]. destruct Hn. exists x. by rewrite <- list_elem_of_In.
  - intros Hf (x & Hx%list_elem_of_In & E). rewrite Hf in E; done.
Qed.

Lemma and_iff (A A' B B' : Prop) : (A <-> A') -> (B <-> B') -> (A /\ B <-> A' /\ B').
Proof. tauto. Qed.

(** An identifier known on both sides must agree. *)
Lemma conflict_nil {A} (x : A) (u v w : bool) (U V W : Prop) :
  (u = true <-> U) -> (v = true <-> V) -> (w = true <-> W) ->
  (if negb u && negb v && negb w then [x] else []) = [] <-> (~ U -> ~ V -> W).
Proof. intros <- <- <-. destruct u, v, w; simpl; intuition congruence. Qed.

Section acceptable.
Context `{Unicode} `{NameParser} `{LanguageTags}.
Context (media : Media) (candidate : Candidate).

(** No provider identifier contradicts the file's. *)
Definition ids_agree : Prop :=
  let m := MExternalIDs media in
  let c := CExternalIDs candidate in
  (IMDb m <> [] -> IMDb c <> [] -> comparable (IMDb m) = comparable (IMDb c))
  /\ (TMDB m <> 0 -> TMDB c <> 0 -> TMDB m = TMDB c)
  /\ (TVDB m <> 0 -> TVDB c <> 0 -> TVDB m = TVDB c).

(** The numbering the provider states is compatible with the target. *)
Definition numbering_agrees (selectedMember : bool) : Prop :=
  if bool_decide (RefKind (MRef media) = MediaMovie) then
    MYear media = 0 \/ CYear candidate = 0 \/ Z.abs (MYear media - CYear candidate) <= 1
    \/ matchingExternalID (MExternalIDs media) (CExternalIDs candidate) = true
  else
    packSeasonConflicts (Pack candidate) media = false
    /\ (packContains (Pack candidate) media = true
        \/ (CSeason candidate = 0 \/ CSeason candidate = MSeason media)
           /\ (selectedMember = true \/ CEpisode candidate = 0
               \/ episodeInTarget media (CEpisode candidate) = true
               \/ CEpisode candidate = MAbsoluteEpisode media)).

(** No release of the candidate names another cut unless one names the file's. *)
Definition edition_agrees (releases : list Release) : Prop :=
  let wanted := comparable (normalizeEdition (Edition media) [] false false) in
  wanted = [] \/ ExactHash candidate = true
  \/ (forall r, r ∈ releases -> REdition r = [])
  \/ exists r, r ∈ releases /\ REdition r <> [] /\ comparable (REdition r) = wanted.

Definition acceptable (language : Language) (releases : list Release) (selectedMember : bool) : Prop :=
  EquivalentLanguage (CLanguage candidate) language = true
  /\ (Kind candidate = KindUnset \/ Kind candidate = RefKind (MRef media))
  /\ Forced candidate = false
  /\ ids_agree
  /\ numbering_agrees selectedMember
  /\ (IsEpisodeRange media = true -> ExactHash candidate = true \/ selectedMember = true
      \/ coversTarget media candidate releases = true)
  /\ edition_agrees releases
  /\ (ExactHash candidate = true
      \/ forall r, r ∈ releases -> matches multiDiscLabel (Raw r) = false).

Lemma externalConflicts_nil :
  externalConflicts (MExternalIDs media) (CExternalIDs candidate) = [] <-> ids_agree.
Proof.
  unfold externalConflicts, ids_agree, imdb_known, tmdb_known, tvdb_known, same, blank.
  rewrite !app_nil. repeat apply and_iff; apply conflict_nil.
  all: rewrite ?bool_decide_eq_true, ?Z.eqb_eq; done.
Qed.

Lemma numberingRejections_nil selectedMember :
  numberingRejections media candidate
    (matchingExternalID (MExternalIDs media) (CExternalIDs candidate)) selectedMember = []
  <-> numbering_agrees selectedMember.
Proof.
  unfold numberingRejections, numbering_agrees.
  destruct (bool_decide (RefKind (MRef media) = MediaMovie)).
  - rewrite if_nil, !andb_false_iff, !negb_false_iff, !Z.eqb_eq, Z.ltb_ge. tauto.
  - destruct (packSeasonConflicts (Pack candidate) media); [split; [done|by intros [? _]]|].
    destruct (packContains (Pack candidate) media); simpl; [tauto|].
    rewrite app_nil, !if_nil, !andb_false_iff, !negb_false_iff, !Z.eqb_eq.
    split; [tauto|]. intros [_ [|]]; [done|tauto].
Qed.

Lemma editionRejections_nil releases :
  editionRejections media candidate releases = [] <-> edition_agrees releases.
Proof.
  unfold editionRejections, edition_agrees, blank. set (wanted := comparable _).
  destruct (decide (wanted = [])) as [->|Hw]; [split; [by left|done]|].
  rewrite bool_decide_false by done. simpl.
  destruct (ExactHash candidate); simpl; [split; [by right; left|done]|].
  destruct (existsb (fun r => negb (bool_decide (REdition r = []))) releases) eqn:Ek; simpl.
  - destruct (existsb (fun r => negb _ && _) releases) eqn:Em; simpl.
    + apply existsb_exists in Em as (r & Hr%list_elem_of_In & Hm). bools.
      split; [|done]. intros _. do 3 right. by exists r.
    + split; [done|]. rewrite existsb_false in Em.
      apply existsb_exists in Ek as (r & Hr%list_elem_of_In & Hk). bools.
      intros [|[|[Hn|(q & Hq & Hne & Heq)]]]; [done|done|by rewrite Hn in Hk|].
      specialize (Em q Hq). rewrite bool_decide_false, bool_decide_true in Em by done. done.
  - rewrite existsb_false in Ek. split; [|done]. intros _. do 2 right. left. intros r Hr.
    specialize (Ek r Hr). by bools.
Qed.

Lemma identityRejections_nil language releases selectedMember :
  identityRejections media candidate language releases selectedMember = []
  <-> acceptable language releases selectedMember.
Proof.
  unfold identityRejections, acceptable. rewrite !app_nil.
  apply and_iff; [by destruct (EquivalentLanguage _ _)|].
  apply and_iff.
  { rewrite if_nil, andb_false_iff, !negb_false_iff, !bool_decide_eq_true. done. }
  apply and_iff; [by destruct (Forced candidate)|].
  apply and_iff; [apply externalConflicts_nil|]. apply and_iff; [apply numberingRejections_nil|].
  apply and_iff.
  { rewrite if_nil. destruct (IsEpisodeRange media), (ExactHash candidate), selectedMember,
      (coversTarget media candidate releases); simpl; intuition congruence. }
  apply and_iff; [apply editionRejections_nil|].
  rewrite if_nil. destruct (ExactHash candidate); simpl; [split; [by left|done]|].
  rewrite existsb_false. intuition congruence.
Qed.
End acceptable.

(** ** Lemmas: ranking *)

#[export] Instance Qcompare_ordering : Ordering Qcompare.
Proof.
  split.
  - intros x y. symmetry. apply Qcompare_antisym.
  - intros x y z E. apply Qeq_alt in E. by rewrite E.
  - intros x y z. rewrite <- !Qlt_alt. apply Qlt_trans.
Qed.

(** The ranking as a composed comparison. *)
Definition rank_order : EvaluatedCandidate -> EvaluatedCandidate -> comparison :=
  lex (desc (fun e => Total (EScore e)) Z.compare)
  (lex (asc ProviderPriority Z.compare)
  (lex (desc (fun e => Rating (ECandidate e)) Qcompare)
  (lex (desc (fun e => DownloadCount (ECandidate e)) Z.compare)
  (lex (asc (fun e => ProviderID (ECandidate e)) text_compare)
       (asc (fun e => ResultID (ECandidate e)) text_compare))))).

Lemma rank_less_order x y : rank_less x y = less_of rank_order x y.
Proof.
  unfold rank_less, less_of, rank_order, lex, asc, desc, text_lt. cbv beta zeta.
  destruct (Z.compare_spec (Total (EScore y)) (Total (EScore x))) as [E|E|E];
    [rewrite E, Z.eqb_refl|destruct (Z.eqb_spec (Total (EScore x)) (Total (EScore y))); [lia|];
     destruct (Z.ltb_spec (Total (EScore y)) (Total (EScore x))); simpl; lia || done..]. simpl.
  destruct (Z.compare_spec (ProviderPriority x) (ProviderPriority y)) as [E1|E1|E1];
    [rewrite E1, Z.eqb_refl|destruct (Z.eqb_spec (ProviderPriority x) (ProviderPriority y)); [lia|];
     destruct (Z.ltb_spec (ProviderPriority x) (ProviderPriority y)); simpl; lia || done..]. simpl.
  set (rx := Rating (ECandidate x)). set (ry := Rating (ECandidate y)). unfold feq, flt.
  destruct (Qcompare_spec ry rx) as [E2|E2|E2].
  - assert (Qeq_bool rx ry = true) as -> by (apply Qeq_bool_iff; lra). simpl.
    destruct (Z.compare_spec (DownloadCount (ECandidate y)) (DownloadCount (ECandidate x))) as [E3|E3|E3];
      [rewrite E3, Z.eqb_refl|
       destruct (Z.eqb_spec (DownloadCount (ECandidate x)) (DownloadCount (ECandidate y))); [lia|];
       destruct (Z.ltb_spec (DownloadCount (ECandidate y)) (DownloadCount (ECandidate x))); simpl; lia || done..].
    simpl. destruct (text_compare (ProviderID (ECandidate x)) (ProviderID (ECandidate y))) eqn:E4.
    + apply text_compare_eq in E4. by rewrite bool_decide_true.
    + rewrite bool_decide_false; [done|]. intros Heq%text_compare_eq. congruence.
    + rewrite bool_decide_false; [done|]. intros Heq%text_compare_eq. congruence.
  - destruct (Qeq_bool rx ry) eqn:Eq; [apply Qeq_bool_iff in Eq; exfalso; lra|]. simpl.
    destruct (Qle_bool rx ry) eqn:El; [apply Qle_bool_iff in El; exfalso; lra|done].
  - destruct (Qeq_bool rx ry) eqn:Eq; [apply Qeq_bool_iff in Eq; exfalso; lra|]. simpl.
    assert (Qle_bool rx ry = true) as -> by (apply Qle_bool_iff; lra). done.
Qed.

Lemma rank_less_asym x y : rank_less x y = true -> rank_less y x = false.
Proof. rewrite !rank_less_order. apply less_of_total; apply _. Qed.

Lemma rank_less_trans x y z :
  not_after rank_less x y -> not_after rank_less y z -> not_after rank_less x z.
Proof. unfold not_after. rewrite !rank_less_order. apply less_of_trans; apply _. Qed.

(** ** Theorems *)

Section score_theorems.
Context `{Unicode} `{NameParser} `{LanguageTags}.

Lemma evidence_points media candidate releases selected :
  0 <= points (evidence media candidate releases selected)
  /\ Forall (fun c => 0 <= Points c <= 25) (evidence media candidate releases selected).
Proof.
  assert (Forall (fun c => 0 <= Points c <= 25) (evidence media candidate releases selected)) as Hf.
  { unfold evidence.
    pose proof (scaled_bounds (Rating candidate) 3 ltac:(lia)) as Hr.
    pose proof (scaled_bounds (Popularity candidate) 2 ltac:(lia)) as Hp.
    change (math_round (fmul (inject_Z 3) 0)) with 0 in Hr. change (math_round (fmul (inject_Z 3) 1)) with 3 in Hr.
    change (math_round (fmul (inject_Z 2) 0)) with 0 in Hp. change (math_round (fmul (inject_Z 2) 1)) with 2 in Hp.
    change (inject_Z 3) with 3%Q in Hr. change (inject_Z 2) with 2%Q in Hp.
    repeat (apply Forall_cons_2;
      [simpl Points;
       try (match goal with |- context [boolPoints ?b ?n] => pose proof (boolPoints_bounds b n ltac:(lia)) end);
       lia|]). by apply Forall_nil_2. }
  split; [|done]. induction Hf as [|c l Hc _ IH]; [done|]. rewrite points_cons. lia.
Qed.

Lemma rejected_reasons media candidate language selected :
  RejectedReasons (evaluate media candidate language selected) = []
  <-> identityRejections media candidate language (candidateReleases candidate) selected = [].
Proof.
  unfold evaluate. cbv zeta. generalize (evidence media candidate (candidateReleases candidate) selected).
  intros ev. destruct (identityRejections _ _ _ _ _); [|done].
  rewrite bool_decide_true by done. cbn [negb]. by destruct (ExactHash candidate).
Qed.

(** A score is well formed: between 0 and 100; a rejected candidate
    scores 0 with no evidence; otherwise the score is the sum of its
    contributions capped at 100, none of them negative, and a verified file
    hash scores 100. *)
Theorem score_well_formed media candidate language selected :
  let s := evaluate media candidate language selected in
  0 <= Total s <= 100
  /\ (RejectedReasons s <> [] -> Total s = 0 /\ Contributions s = [])
  /\ (RejectedReasons s = [] -> Total s = Z.min 100 (points (Contributions s))
      /\ Forall (fun c => 0 <= Points c) (Contributions s)
      /\ (ExactHash candidate = true -> Total s = 100)).
Proof.
  intros s. unfold s, evaluate.
  destruct (evidence_points media candidate (candidateReleases candidate) selected) as [Hp Hf].
  cbv zeta. set (ev := evidence _ _ _ _) in *. clearbody ev.
  destruct (identityRejections _ _ _ _ _) as [|reason rejected].
  - rewrite bool_decide_true by done. cbn [negb].
    destruct (ExactHash candidate); cbn [Total Contributions RejectedReasons].
    + split_and!; [lia..|done|]. intros _. split_and!; [done| |done]. repeat constructor; simpl; lia.
    + set (p := points _) in *. split_and!; [destruct (Z.ltb_spec 100 p); lia..|done|].
      intros _. split_and!; [destruct (Z.ltb_spec 100 p); lia| |done].
      eapply Forall_impl; [exact Hf|]. simpl. lia.
  - rewrite bool_decide_false by done. cbn [negb Total Contributions RejectedReasons map].
    by split_and!; [lia|lia|..].
Qed.

(** A candidate is eligible exactly when nothing contradicts it and its
    score reaches the minimum: its language is the requested one, its kind
    and every known identifier agree, it is not forced-only, its numbering
    fits the target, for a multi-episode file it covers the whole range, no
    other cut is named, and it is not one disc of several. *)
Theorem eligible_exactly_when_acceptable media candidate language minimum :
  let s := Evaluate media candidate language in
  Eligible s minimum = true
  <-> acceptable media candidate language (candidateReleases candidate) false /\ minimum <= Total s.
Proof.
  intros s. unfold Eligible. rewrite andb_true_iff, bool_decide_eq_true, Z.leb_le.
  apply and_iff; [|done]. rewrite <- identityRejections_nil. apply rejected_reasons.
Qed.

(** A subtitle accepted for a multi-episode file without a verified hash
    carries evidence of every episode in it: a pack range or a release range,
    by standard or absolute numbers, that contains the whole range of the
    file. *)
Theorem accepted_range_covers_every_episode media candidate language minimum :
  IsEpisodeRange media = true -> ExactHash candidate = false ->
  Eligible (Evaluate media candidate language) minimum = true ->
  (exists first last,
     ((exists p, Pack candidate = Some p /\ Scope p = PackRange /\ first = EpisodeFrom p /\ last = EpisodeTo p
                 /\ (PSeason p = 0 \/ PSeason p = MSeason media))
      \/ (exists r, r ∈ candidateReleases candidate /\ Season r = MSeason media /\ first = Episode r
                    /\ last = Z.max (REpisodeEnd r) (Episode r)))
     /\ forall e, MEpisode media <= e <= EpisodeEnd media -> 0 < first <= e /\ e <= last)
  \/ (exists first last,
     ((exists p, Pack candidate = Some p /\ Scope p = PackRange /\ first = AbsoluteFrom p /\ last = AbsoluteTo p)
      \/ (exists r, r ∈ candidateReleases candidate /\ first = AbsoluteEpisode r
                    /\ last = RAbsoluteEpisodeEnd r))
     /\ forall e, MAbsoluteEpisode media <= e <= AbsoluteEpisodeEnd media -> 0 < first <= e /\ e <= last).
Proof.
  intros Hrange Hexact Helig.
  assert (coversTarget media candidate (candidateReleases candidate) = true) as Hc.
  { unfold Eligible in Helig. apply andb_true_iff in Helig as [Hrej _]. bools.
    pose proof (proj1 (rejected_reasons _ _ _ _) Hrej) as Hnil.
    apply identityRejections_nil in Hnil as (_ & _ & _ & _ & _ & Hr & _).
    destruct (Hr Hrange) as [|[|]]; congruence. }
  unfold coversTarget in Hc. rewrite Hexact in Hc. simpl in Hc. apply orb_true_iff in Hc as [Hc|Hc].
  - destruct (Pack candidate) as [p|]; [|done]. destruct (Scope p) eqn:Es; try done.
    apply orb_true_iff in Hc as [Hc|Hc]; bools.
    + left. exists (EpisodeFrom p), (EpisodeTo p). split; [|intros; lia]. left. exists p.
      match goal with Hs : _ || _ = true |- _ => apply orb_true_iff in Hs as [?|?] end; bools; auto 10.
    + right. exists (AbsoluteFrom p), (AbsoluteTo p). split; [|intros; lia]. left. by exists p.
  - apply existsb_exists in Hc as (r & Hr%list_elem_of_In & Hc).
    apply orb_true_iff in Hc as [Hc|Hc]; bools.
    + left. exists (Episode r), (Z.max (REpisodeEnd r) (Episode r)). split; [|intros; lia]. right. by exists r.
    + right. exists (AbsoluteEpisode r), (RAbsoluteEpisodeEnd r). split; [|intros; lia]. right. by exists r.
Qed.

(** Ranking only reorders the candidates, is in order by score,
    provider priority, rating, download count and identity, keeps the order
    of candidates it cannot tell apart, and puts a best score first. *)
Theorem rank_is_stable_sort items :
  Rank items ≡ₚ items
  /\ StronglySorted (not_after rank_less) (Rank items)
  /\ (forall x, base.filter (fun y => tied rank_less x y = true) (Rank items)
                = base.filter (fun y => tied rank_less x y = true) items)
  /\ (forall best rest x, Rank items = best :: rest -> x ∈ items ->
        Total (EScore x) <= Total (EScore best)).
Proof.
  pose proof (stable_sort_sorted rank_less rank_less_asym rank_less_trans items) as Hs.
  split_and!; [apply stable_sort_perm|done| |].
  - intros x. apply stable_sort_stable, rank_less_trans.
  - intros best rest x Hr Hx. unfold Rank in *. rewrite Hr in Hs.
    apply StronglySorted_inv in Hs as [_ Hall]. rewrite <- (stable_sort_perm rank_less items), Hr in Hx.
    apply elem_of_cons in Hx as [->|Hx]; [done|].
    rewrite Forall_forall in Hall. specialize (Hall x Hx). unfold not_after, rank_less in Hall.
    destruct (Z.eqb_spec (Total (EScore x)) (Total (EScore best))); simpl in Hall; bools; lia.
Qed.
End score_theorems.

(** ** Witnesses *)

#[local] Existing Instance sample_tags.
#[local] Instance no_parser : NameParser := fun _ => None.

(** Episodes 2 and 3 of a first season in one file. *)
Definition sample_range_media : Media :=
  {| SeriesID := 1; EntityID := 1; MRef := mkMediaRef (t "sonarr") MediaEpisode 1;
     Fingerprint := mkFingerprint (t "/tv/show.mkv") 1 1 0; MTitle := t "Show"; EpisodeTitle := [];
     MAlternateTitles := []; MYear := 2010; MSeason := 1; MEpisode := 2; MAbsoluteEpisode := 0;
     EpisodeEnd := 3; AbsoluteEpisodeEnd := 0; MExternalIDs := mkExternalIDs [] 0 0;
     OriginalFilename := []; ReleaseName := []; ReleaseGroup := t "LOL"; Source := t "television";
     Resolution := t "720p"; StreamingService := []; Edition := []; Quality := []; MDuration := 0;
     Unsupported := []; ReleasedAt := 0; SeriesType := [] |}.

Definition sample_range_candidate : Candidate :=
  {| ProviderID := t "os"; ResultID := t "1"; CLanguage := t "en"; Kind := MediaEpisode; CTitle := t "Show";
     CAlternateTitles := []; EvidenceVersion := []; CYear := 2010; CSeason := 1; CEpisode := 2;
     CAbsoluteEpisode := 0; CExternalIDs := mkExternalIDs [] 0 0;
     ReleaseNames := [t "Show.1x02.03.720p.HDTV"]; ReleaseGroups := [t "DIMENSION"]; Resolutions := [];
     ExactHash := false; Forced := false; HearingImpaired := false; Rating := (1 # 2)%Q; Popularity := 2%Q;
     DownloadCount := 10; DownloadRef := []; DownloadVersion := []; Pack := None; ReleaseNumbered := false |}.

Example sample_range_score :
  Total (Evaluate sample_range_media sample_range_candidate (t "en")) = 15 + 20 + 25 + 15 + 2 + 2.
Proof. vm_compute. reflexivity. Qed.

Lemma accepted_range_covers_every_episode_witness :
  Eligible (Evaluate sample_range_media sample_range_candidate (t "en")) 35 = true
  /\ ((exists first last,
        ((exists p, Pack sample_range_candidate = Some p /\ Scope p = PackRange /\ first = EpisodeFrom p
                    /\ last = EpisodeTo p /\ (PSeason p = 0 \/ PSeason p = MSeason sample_range_media))
         \/ (exists r, r ∈ candidateReleases sample_range_candidate /\ Season r = MSeason sample_range_media
                       /\ first = Episode r /\ last = Z.max (REpisodeEnd r) (Episode r)))
        /\ forall e, 2 <= e <= 3 -> 0 < first <= e /\ e <= last)
      \/ (exists first last,
        ((exists p, Pack sample_range_candidate = Some p /\ Scope p = PackRange /\ first = AbsoluteFrom p
                    /\ last = AbsoluteTo p)
         \/ (exists r, r ∈ candidateReleases sample_range_candidate /\ first = AbsoluteEpisode r
                       /\ last = RAbsoluteEpisodeEnd r))
        /\ forall e, 0 <= e <= 0 -> 0 < first <= e /\ e <= last)).
Proof.
  assert (Eligible (Evaluate sample_range_media sample_range_candidate (t "en")) 35 = true) as He
    by (vm_compute; reflexivity).
  split; [exact He|].
  exact (accepted_range_covers_every_episode sample_range_media sample_range_candidate (t "en") 35
           eq_refl eq_refl He).
Defined.
