(* ===== verification/PackEvidence.v ===== *)
(** * Episode evidence in file names (src/internal/pack/select.go)

    What the name of a subtitle file says about the episode it is for: SxxEyy
    and 1x02 tokens, ranges, absolute numbers, compact three-digit numbers,
    numbered sets, the title left over, and the similarity of two titles.
    Positions count runes; every position the program computes is a match
    boundary, where bytes and runes cut the same text. *)
From S2P Require Import Prelude GoText GoFloat Regex Domain MatchRelease.

#[local] Open Scope Z_scope.

(** ** Patterns *)

Definition title_sep (r : rune) : bool := one_of (t " ._-") r.

Definition se_token : regex :=
  (ilit (t "s") ++ Group 1 (rep 1 3 dig) ++ Opt (lit (t ".")) ++ ilit (t "e") ++ Group 2 (rep 1 4 dig))%re.

(** [(?i)(?:s(\d{1,3})\.?e(\d{1,4})|(\d{1,3})x(\d{1,4}))] *)
Definition episodeTokenPattern : regex :=
  (se_token || (Group 3 (rep 1 3 dig) ++ ilit (t "x") ++ Group 4 (rep 1 4 dig)))%re.

(** [s1e2-e3], [s1e2-s1e3] and [1x2-1x3]. *)
Definition episodeRangePatterns : list regex :=
  [(se_token ++ lit (t "-") ++ ilit (t "e") ++ Group 3 (rep 1 4 dig))%re;
   (se_token ++ lit (t "-") ++ ilit (t "s") ++ Group 3 (rep 1 3 dig) ++ Opt (lit (t "."))
    ++ ilit (t "e") ++ Group 4 (rep 1 4 dig))%re;
   (Group 1 (rep 1 3 dig) ++ ilit (t "x") ++ Group 2 (rep 1 4 dig) ++ lit (t "-")
    ++ Group 3 (rep 1 3 dig) ++ ilit (t "x") ++ Group 4 (rep 1 4 dig))%re].

(** [s1e2], [1x2] or [e2], with [lo] digits at least in the episode. *)
Definition endpoint (lo : nat) : regex :=
  ((ilit (t "s") ++ rep 1 3 dig ++ Opt (lit (t ".")) ++ ilit (t "e") ++ rep lo 4 dig)
   || (rep 1 3 dig ++ ilit (t "x") ++ rep lo 4 dig)
   || (ilit (t "e") ++ rep lo 4 dig))%re.

Definition rangeEndpointBeforePattern : regex := (endpoint 1 ++ Eol)%re.
Definition rangeEndpointAfterPattern : regex := (Bol ++ endpoint 1 ++ (Eol || not_alnum_folded))%re.
Definition episodeContinuationPattern : regex := (Bol ++ endpoint 0)%re.

(** [\bEP] or [\bABS(?:OLUTE)?] and separators, then [(\d{2,5})\b], under [(?i)]. *)
Definition absolutePattern : regex :=
  (((WordB ++ ilit (t "ep")) || (WordB ++ ilit (t "abs") ++ Opt (ilit (t "olute")) ++ Many (Chr title_sep)))
   ++ Group 1 (rep 2 5 dig) ++ WordB)%re.

(** [(?i)(?:^|[ ._-])forced(?:[ ._-]|$)] *)
Definition forcedPattern : regex :=
  ((Bol || Chr title_sep) ++ ilit (t "forced") ++ (Chr title_sep || Eol))%re.

Definition spaces : regex := Chr perl_space.
Definition space_or (chars : text) (r : rune) : bool := perl_space r || one_of chars r.
Definition not_space (r : rune) : bool := negb (perl_space r).
Definition not_bracket (r : rune) : bool := negb (r =? 93)%N.

(** [^(\d{1,2})-(\d{1,3})[\s._]] *)
Definition seasonEpisodePrefix : regex :=
  (Bol ++ Group 1 (rep 1 2 dig) ++ lit (t "-") ++ Group 2 (rep 1 3 dig) ++ Chr (space_or (t "._")))%re.
(** [(?i)(?:^|[\s._-])part[\s._-]*(\d{1,2})(?:[\s._-]|$)] *)
Definition partNumber : regex :=
  ((Bol || Chr (space_or (t "._-"))) ++ ilit (t "part") ++ Many (Chr (space_or (t "._-")))
   ++ Group 1 (rep 1 2 dig) ++ (Chr (space_or (t "._-")) || Eol))%re.
(** [^ +- +$] *)
Definition titleAfterSpacedDash : regex :=
  (Bol ++ Plus (lit (t " ")) ++ lit (t "-") ++ Plus (lit (t " ")) ++ Eol)%re.
(** [^(\d{1,3})\s*[-.]\s+\S] *)
Definition leadingNumber : regex :=
  (Bol ++ Group 1 (rep 1 3 dig) ++ Many spaces ++ any_of (t "-.") ++ Plus spaces ++ Chr not_space)%re.
(** A leading bracketed tag. *)
Definition leadingGroupTag : regex :=
  (Bol ++ Many spaces ++ lit (t "[") ++ Group 1 (Many (Chr not_bracket)) ++ lit (t "]"))%re.
(** [\s-\s+$] *)
Definition spacedDashBefore : regex := (spaces ++ lit (t "-") ++ Plus spaces ++ Eol)%re.

(** The text with the match replaced by a space. *)
Definition blank_out (name : text) (m : span) : text :=
  take (s_start m) name ++ t " " ++ drop (s_end m) name.

Section evidence.
Context `{Unicode}.

(** [^\s+-\s+\pL] *)
Definition titleDashAfter : regex := (Bol ++ Plus spaces ++ lit (t "-") ++ Plus spaces ++ Chr is_letter)%re.

Definition isAlphaNumeric (r : rune) : bool := is_letter r || is_number r.

(** ** Tokens and ranges *)

Definition hasRangeStartBoundary (name : text) (start : nat) : bool :=
  match rev (take start name) with
  | [] => true
  | previous :: _ => negb (isAlphaNumeric previous)
  end.

Definition completeRangeToken (name : text) (start end_ : nat) : bool :=
  hasRangeStartBoundary name start
  && match drop end_ name with
     | next :: _ => negb (isAlphaNumeric next)
     | [] => true
     end.

(** The season and episode of a token match. *)
Definition token_numbers (name : text) (m : span) : Z * Z :=
  match group m 1 with
  | Some _ => (group_int name m 1, group_int name m 2)
  | None => (group_int name m 3, group_int name m 4)
  end.

Definition complete_tokens (name : text) : list span :=
  filter (fun m => completeRangeToken name (s_start m) (s_end m) = true) (find_all episodeTokenPattern name).

Definition episodeToken (name : text) : option (Z * Z) :=
  token_numbers name <$> head (complete_tokens name).

Definition rangeIsChained (name : text) (start end_ : nat) : bool :=
  let before := match rev (take start name) with
                | 45%N :: rest => matches rangeEndpointBeforePattern (rev rest)
                | _ => false
                end in
  let after := match drop end_ name with
               | 45%N :: rest => matches rangeEndpointAfterPattern rest
               | _ => false
               end in
  before || after.

Definition continuation_sep (r : rune) : bool := is_space r || one_of (t "._-") r.

Definition episodeContinuation (name : text) (offset : nat) : bool :=
  let rest := drop offset name in
  let suffix := trim_left continuation_sep rest in
  match find episodeContinuationPattern suffix with
  | None => false
  | Some m =>
      let skipped := take (length rest - length suffix) rest in
      let matched := slice suffix (s_start m) (s_end m) in
      let tail := drop (s_end m) suffix in
      if matches titleAfterSpacedDash skipped && negb (existsb ascii_digit matched) && has_prefix (t " ") tail
      then false
      else
        match tail with
        | [] => true
        | next :: _ =>
            let last := List.last matched 0%N in
            let markedLetter := one_of (t "Ee") last && is_mark next in
            negb (isAlphaNumeric next) && negb markedLetter
        end
  end.

(** A range-like match and the pattern that found it. *)
Definition rangeLikeEpisodeMatches (name : text) : list (span * nat) :=
  concat (imap (fun i p =>
    (fun m => (m, i)) <$>
      filter (fun m => completeRangeToken name (s_start m) (s_end m) = true) (find_all p name))
    episodeRangePatterns).

(** Season, first and last episode, and the season of the end. *)
Definition parseRangeMatch (name : text) (m : span) (patternIndex : nat) : Z * Z * Z * Z :=
  match patternIndex with
  | O => (group_int name m 1, group_int name m 2, group_int name m 3, group_int name m 1)
  | _ => (group_int name m 1, group_int name m 2, group_int name m 4, group_int name m 3)
  end.

Definition acceptedEpisodeRange (name : text) (m : span) (patternIndex : nat) : option (Z * Z * Z) :=
  if negb (completeRangeToken name (s_start m) (s_end m)) || rangeIsChained name (s_start m) (s_end m)
     || episodeContinuation name (s_end m)
  then None
  else
    let '(season, from, to, endSeason) := parseRangeMatch name m patternIndex in
    if (season <=? 0) || (from <=? 0) || (to <=? 0) || negb (endSeason =? season) || (to <? from)
    then None else Some (season, from, to).

Definition acceptedEpisodeRangeMatch (name : text) : option (span * (Z * Z * Z)) :=
  match rangeLikeEpisodeMatches name with
  | [(m, i)] => (fun r => (m, r)) <$> acceptedEpisodeRange name m i
  | _ => None
  end.

Definition episodeRange (name : text) : option (Z * Z * Z) := snd <$> acceptedEpisodeRangeMatch name.

Definition hasMalformedHyphenatedRangeEvidence (name : text) : bool :=
  existsb (fun p =>
    existsb (fun m =>
      hasRangeStartBoundary name (s_start m)
      && match drop (s_end m) name with next :: _ => isAlphaNumeric next | [] => false end)
      (find_all p name)) episodeRangePatterns.

Definition hasInvalidOrAmbiguousRangeEvidence (name : text) : bool :=
  if hasMalformedHyphenatedRangeEvidence name then true
  else
    let accepted := acceptedEpisodeRangeMatch name in
    existsb (fun m => episodeContinuation name (s_end m)
                      && match accepted with
                         | Some (ranged, _) => negb (s_start m =? s_start ranged)%nat
                         | None => true
                         end) (complete_tokens name)
    || (negb (bool_decide (rangeLikeEpisodeMatches name = [])) && negb (bool_decide (is_Some accepted))).

Definition absoluteEpisode (name : text) : option Z :=
  match find absolutePattern name with
  | Some m => let value := group_int name m 1 in if 0 <? value then Some value else None
  | None => None
  end.

Definition hasEpisodeEvidence (name : text) : bool :=
  matches episodeTokenPattern name || bool_decide (is_Some (episodeRange name))
  || bool_decide (is_Some (absoluteEpisode name)).

(** The absolute numbers of a name agree with [absolute] (0: unknown) and with
    each other. *)
Fixpoint absolute_conflict (absolute : Z) (values : list Z) : bool :=
  match values with
  | [] => false
  | value :: values =>
      if (0 <? absolute) && negb (value =? absolute) then true else absolute_conflict value values
  end.

Definition absolute_values (name : text) : list Z :=
  (fun m => group_int name m 1) <$> find_all absolutePattern name.

(** The token text read on its own: [episodeToken(name[i:j])], with the zero
    numbers when it holds none. *)
Definition token_alone (name : text) (m : span) : Z * Z :=
  default (0, 0) (episodeToken (slice name (s_start m) (s_end m))).

Definition conflictingEpisodeEvidence (name : text) (media : Media) : bool :=
  if hasInvalidOrAmbiguousRangeEvidence name then true
  else
    let check name :=
      existsb (fun m => negb (bool_decide (token_alone name m = (MSeason media, MEpisode media))))
        (complete_tokens name)
      || absolute_conflict (MAbsoluteEpisode media) (absolute_values name) in
    match acceptedEpisodeRangeMatch name with
    | Some (m, (season, from, to)) =>
        if negb (season =? MSeason media) || (MEpisode media <? from) || (to <? MEpisode media)
        then true else check (blank_out name m)
    | None => check name
    end.

Definition contradictsRange (name : text) (media : Media) : bool :=
  if hasInvalidOrAmbiguousRangeEvidence name then true
  else
    let check name :=
      existsb (fun m =>
        let '(season, episode) := token_alone name m in
        negb (season =? MSeason media) || (episode <? MEpisode media) || (EpisodeEnd media <? episode))
        (complete_tokens name) in
    match acceptedEpisodeRangeMatch name with
    | Some (m, (season, from, to)) =>
        if negb (season =? MSeason media) || (MEpisode media <? from) || (to <? EpisodeEnd media)
        then true else check (blank_out name m)
    | None => check name
    end.

(** Range, found and invalid. *)
Definition ReleaseEpisodeRange (name : text) : option (Z * Z * Z) * bool :=
  if hasInvalidOrAmbiguousRangeEvidence name then (None, true) else (episodeRange name, false).

(** ** Titles *)

Fixpoint normalize_title_go (output : text) (space : bool) (s : text) : text :=
  match s with
  | [] => rev output
  | r :: s =>
      if ascii_lower r || ascii_digit r || (127 <? r)%N then
        let output := if space && negb (length output =? 0)%nat then 32%N :: output else output in
        normalize_title_go (r :: output) false s
      else normalize_title_go output true s
  end.
Definition normalizeTitle (value : text) : text := normalize_title_go [] false (to_lower value).

Definition removeAcceptedEpisodeRanges (name : text) : text :=
  match acceptedEpisodeRangeMatch name with
  | Some (m, _) => blank_out name m
  | None => name
  end.

Definition filenameTitle (name seriesTitle : text) : text :=
  let stem := trim_suffix (path_ext name) (path_base name) in
  let stem := removeAcceptedEpisodeRanges stem in
  let stem := replace_all episodeTokenPattern stem (t " ") in
  let stem := replace_all absolutePattern stem (t " ") in
  let stem := replace_all forcedPattern stem (t " ") in
  let normalized := normalizeTitle stem in
  let series := normalizeTitle seriesTitle in
  if negb (bool_decide (series = [])) && has_prefix (series ++ t " ") normalized
  then trim_space (trim_prefix series normalized) else normalized.

(** One row of the edit-distance table after the rune [a]: [previous] starts
    with the value diagonal to the one computed, [left] is the value before. *)
Fixpoint next_row (a : rune) (left : Z) (previous : list Z) (b : text) : list Z :=
  match previous, b with
  | diagonal :: (above :: _) as previous', r :: b =>
      let cost := if (a =? r)%N then 0 else 1 in
      let v := Z.min (left + 1) (Z.min (above + 1) (diagonal + cost)) in
      v :: next_row a v previous' b
  | _, _ => []
  end.

Definition edit_row (previous : list Z) (i : Z) (a : rune) (b : text) : list Z :=
  (i + 1) :: next_row a (i + 1) previous b.

Definition edit_rows (a b : text) : list Z :=
  snd (fold_left (fun '(i, previous) r => (i + 1, edit_row previous i r b)) a
         (0, Z.of_nat <$> seq 0 (S (length b)))).

Definition edit_distance (a b : text) : Z := List.last (edit_rows a b) 0.

Definition similarity (left right : text) : float64 :=
  let maximum := Z.max (Z.of_nat (length left)) (Z.of_nat (length right)) in
  if maximum =? 0 then 1%Q
  else fsub 1 (fdiv (of_int (edit_distance left right)) (of_int maximum)).

(** [similarity(a, b) >= 0.98]. *)
Definition similar (a b : text) : bool := Qle_bool (round (98 # 100)) (similarity a b).

(** ** Compact numbers *)

Definition animeGroupTagged (name : text) : bool :=
  match find leadingGroupTag name with
  | None => false
  | Some m =>
      let tag := to_lower (group_or_empty name m 1) in
      negb (contains (t ".") tag) && negb (contains (t "www") tag)
  end.

Definition compactVideoNumbers : list text := map t ["264"; "265"; "480"; "576"; "720"]%string.

Record compactNumber := mkCompact { cvalue : Z; cseason : Z; cepisode : Z; cabsolute : bool }.

(** The maximal runs of ASCII digits, as spans. *)
Fixpoint digit_runs (i : nat) (start : option nat) (s : text) : list (nat * nat) :=
  let close := match start with Some j => [(j, i)] | None => [] end in
  match s with
  | [] => close
  | r :: s => if ascii_digit r then digit_runs (S i) (Some (default i start)) s
              else close ++ digit_runs (S i) None s
  end.

(** The three-digit numbers of a digit run. *)
Definition run_parts (run : text) : list text :=
  match run with
  | [_; _; _] => [run]
  | [a; b; c; d; e; f] =>
      if (a =? d)%N && text_lt [b; c] [e; f] then [[a; b; c]; [d; e; f]] else []
  | _ => []
  end.

Definition run_separated (name : text) (start end_ : nat) : bool :=
  match rev (take start name) with r :: _ => one_of (t " ._-[(") r | [] => true end
  && match drop end_ name with r :: _ => one_of (t " ._-])") r | [] => true end.

Definition compactNumbers (name title : text) (anime : bool) : list compactNumber :=
  if hasEpisodeEvidence name then []
  else
    let titleDigits := filter (fun r => ascii_digit r = true) title in
    let groupTagged := animeGroupTagged name in
    concat (map (fun '(start, end_) =>
      let absolute := groupTagged
        || (anime && matches spacedDashBefore (take start name)
            && negb (matches titleDashAfter (drop end_ name))) in
      omap (fun part =>
        if bool_decide (head part = Some 48%N) || bool_decide (part ∈ compactVideoNumbers)
           || (negb (bool_decide (titleDigits = [])) && contains part titleDigits)
        then None
        else let value := atoi0 part in Some (mkCompact value (value / 100) (value mod 100) absolute))
        (if run_separated name start end_ then run_parts (slice name start end_) else []))
      (digit_runs 0 None name)).

Definition compactNamesTarget (number : compactNumber) (media : Media) : bool :=
  if (MSeason media <? 1) || (9 <? MSeason media) || (MEpisode media <? 1) || (99 <? MEpisode media)
  then false
  else if negb (cseason number =? MSeason media) || negb (cepisode number =? MEpisode media) then false
  else
    let absolute := MAbsoluteEpisode media in
    if (0 <? absolute) && (cvalue number =? absolute) then true
    else if cabsolute number then false
    else (absolute <=? 0) || (100 <=? cvalue number - absolute).

Definition compactEpisodeMatches (name : text) (media : Media) : bool :=
  match compactNumbers name (MTitle media) (Anime media) with
  | [number] => compactNamesTarget number media
  | _ => false
  end.

Definition compactNamesOtherEpisode (name : text) (media : Media) : bool :=
  let numbers := compactNumbers name (MTitle media) (Anime media) in
  existsb (fun number =>
    negb (cvalue number =? MAbsoluteEpisode media)
    && ((1 <? length numbers)%nat || negb (compactNamesTarget number media))) numbers.

(** ** Numbered sets *)

Definition numberedEpisode (name : text) (season : Z) : option Z :=
  let base := path_base (replace_rune 92%N slash name) in
  if hasEpisodeEvidence base || hasInvalidOrAmbiguousRangeEvidence base then None
  else
    match find seasonEpisodePrefix base with
    | Some m =>
        let episode := group_int base m 2 in
        if (group_int base m 1 =? season) && (0 <? episode) then Some episode else None
    | None =>
        if negb (season =? 1) then None
        else
          let stem := trim_suffix (path_ext base) base in
          let read m := let episode := group_int stem m 1 in if 0 <? episode then Some episode else None in
          match find partNumber stem with
          | Some m => read m
          | None => match find leadingNumber stem with Some m => read m | None => None end
          end
    end.
End evidence.

(** ** Edit distance *)

(** [edits a b n]: [b] is obtained from [a] by [n] insertions, deletions and
    replacements of single runes. *)
Inductive edits : text -> text -> Z -> Prop :=
| edits_nil : edits [] [] 0
| edits_keep r a b n : edits a b n -> edits (r :: a) (r :: b) n
| edits_replace r q a b n : edits a b n -> edits (r :: a) (q :: b) (n + 1)
| edits_delete r a b n : edits a b n -> edits (r :: a) b (n + 1)
| edits_insert r a b n : edits a b n -> edits a (r :: b) (n + 1).

(** The recurrence the table is filled by. *)
Fixpoint lev (a : text) : text -> Z :=
  match a with
  | [] => fun b => Z.of_nat (length b)
  | x :: a' =>
      fix row b :=
        match b with
        | [] => Z.of_nat (S (length a'))
        | y :: b' =>
            Z.min (row b' + 1) (Z.min (lev a' b + 1) (lev a' b' + if (x =? y)%N then 0 else 1))
        end
  end.

Lemma lev_nil_r a : lev a [] = Z.of_nat (length a).
Proof. by destruct a. Qed.

Lemma lev_cons x a y b :
  lev (x :: a) (y :: b)
  = Z.min (lev (x :: a) b + 1) (Z.min (lev a (y :: b) + 1) (lev a b + if (x =? y)%N then 0 else 1)).
Proof. done. Qed.

Lemma lev_cons_l x a b : lev (x :: a) b <= lev a b + 1.
Proof. destruct b; [rewrite !lev_nil_r; cbn [length]|rewrite lev_cons]; lia. Qed.

Lemma lev_cons_r a y b : lev a (y :: b) <= lev a b + 1.
Proof. destruct a; [cbn [lev length]|rewrite lev_cons]; lia. Qed.

Lemma lev_least a b n : edits a b n -> lev a b <= n.
Proof.
  induction 1 as [|r a b n _ IH|r q a b n _ IH|r a b n _ IH|r a b n _ IH].
  - done.
  - rewrite lev_cons, N.eqb_refl. lia.
  - rewrite lev_cons. destruct (r =? q)%N; lia.
  - pose proof (lev_cons_l r a b). lia.
  - pose proof (lev_cons_r a r b). lia.
Qed.

Lemma edits_eq a b n m : edits a b n -> n = m -> edits a b m.
Proof. by intros H <-. Qed.

Lemma edits_insert_all b : edits [] b (Z.of_nat (length b)).
Proof.
  induction b as [|y b IH]; [constructor|].
  eapply edits_eq; [by apply edits_insert|cbn [length]; lia].
Qed.

Lemma edits_delete_all a : edits a [] (Z.of_nat (length a)).
Proof.
  induction a as [|x a IH]; [constructor|].
  eapply edits_eq; [by apply edits_delete|cbn [length]; lia].
Qed.

Lemma lev_edits a b : edits a b (lev a b).
Proof.
  revert b. induction a as [|x a IHa]; intros b; [apply edits_insert_all|].
  induction b as [|y b IHb]; [rewrite lev_nil_r; apply edits_delete_all|].
  rewrite lev_cons.
  apply Z.min_case_strong; intros _; [by apply edits_insert|].
  apply Z.min_case_strong; intros _; [apply edits_delete, IHa|].
  destruct (N.eqb_spec x y) as [->|].
  - rewrite Z.add_0_r. apply edits_keep, IHa.
  - apply edits_replace, IHa.
Qed.

Lemma edits_app a1 b1 n a2 b2 m : edits a1 b1 n -> edits a2 b2 m -> edits (a1 ++ a2) (b1 ++ b2) (n + m).
Proof.
  intros H1 H2. induction H1; cbn [app].
  - done.
  - by apply edits_keep.
  - eapply edits_eq; [by apply edits_replace|lia].
  - eapply edits_eq; [by apply edits_delete|lia].
  - eapply edits_eq; [by apply edits_insert|lia].
Qed.

Lemma edits_rev a b n : edits a b n -> edits (rev a) (rev b) n.
Proof.
  assert (forall a' b' n' m' u v, edits a' b' n' -> edits u v m' ->
            edits (a' ++ u) (b' ++ v) (n' + m')) as Happ by (intros; by apply edits_app).
  induction 1 as [|r a b n _ IH|r q a b n _ IH|r a b n _ IH|r a b n _ IH]; cbn [rev].
  - constructor.
  - eapply edits_eq; [eapply Happ; [exact IH|apply edits_keep, edits_nil]|lia].
  - eapply Happ; [exact IH|]. apply (edits_replace _ _ _ _ 0), edits_nil.
  - rewrite <- (app_nil_r (rev b)). eapply Happ; [exact IH|]. apply (edits_delete _ _ _ 0), edits_nil.
  - rewrite <- (app_nil_r (rev a)). eapply Happ; [exact IH|]. apply (edits_insert _ _ _ 0), edits_nil.
Qed.

Lemma edits_zero a b n : edits a b n -> 0 <= n /\ (n = 0 -> a = b).
Proof.
  induction 1; destruct_and?; split; try lia; intros; f_equal; auto; lia.
Qed.

Lemma edits_refl a : edits a a 0.
Proof. induction a; by constructor. Qed.

Lemma edits_at_most_longest a b : exists n, edits a b n /\ n <= Z.max (Z.of_nat (length a)) (Z.of_nat (length b)).
Proof.
  revert b. induction a as [|x a IH]; intros [|y b].
  - exists 0. split; [constructor|done].
  - exists (Z.of_nat (S (length b))). split; [apply edits_insert_all|cbn [length]; lia].
  - exists (Z.of_nat (S (length a))). split; [apply edits_delete_all|cbn [length]; lia].
  - destruct (IH b) as (n & Hn & Hle). exists (n + 1). split; [by apply edits_replace|].
    cbn [length]. lia.
Qed.

(** The row of the table for the runes [a] read so far (last first): its
    values for the prefixes of the other word, of which [rb] is read. *)
Fixpoint lev_row (a rb b : text) : list Z :=
  lev a rb :: match b with [] => [] | y :: b => lev_row a (y :: rb) b end.

Lemma lev_row_head a rb b : exists l, lev_row a rb b = lev a rb :: l.
Proof. destruct b; eauto. Qed.

Lemma next_row_lev x a rb b :
  lev (x :: a) rb :: next_row x (lev (x :: a) rb) (lev_row a rb b) b = lev_row (x :: a) rb b.
Proof.
  revert rb. induction b as [|y b IH]; intros rb; [done|].
  cbn [lev_row next_row]. rewrite <- (IH (y :: rb)).
  destruct (lev_row_head a (y :: rb) b) as [l El]. by rewrite El in *.
Qed.

Lemma lev_row_start rb b :
  Z.of_nat <$> seq (length rb) (S (length b)) = lev_row [] rb b.
Proof.
  revert rb. induction b as [|y b IH]; intros rb; [done|].
  cbn [lev_row]. rewrite <- (IH (y :: rb)). done.
Qed.

Lemma lev_row_last a rb b : List.last (lev_row a rb b) 0 = lev a (rev b ++ rb).
Proof.
  revert rb. induction b as [|y b IH]; intros rb; [done|].
  cbn [lev_row rev]. destruct (lev_row_head a (y :: rb) b) as [l El].
  rewrite <- app_assoc. cbn [app]. rewrite <- IH, El. done.
Qed.

Lemma edit_rows_lev a b ra :
  fold_left (fun '(i, previous) r => (i + 1, edit_row previous i r b)) a
    (Z.of_nat (length ra), lev_row ra [] b)
  = (Z.of_nat (length (rev a ++ ra)), lev_row (rev a ++ ra) [] b).
Proof.
  revert ra. induction a as [|x a IH]; intros ra; [done|].
  cbn [fold_left rev]. rewrite <- app_assoc. cbn [app]. rewrite <- IH. f_equal.
  f_equal; [cbn [length]; lia|unfold edit_row].
  replace (Z.of_nat (length ra) + 1) with (lev (x :: ra) []) by (rewrite lev_nil_r; cbn [length]; lia).
  apply next_row_lev.
Qed.

(** The table computes the recurrence on the reversed words. *)
Lemma edit_distance_lev a b : edit_distance a b = lev (rev a) (rev b).
Proof.
  unfold edit_distance, edit_rows.
  change (seq 0 (S (length b))) with (seq (length (@nil rune)) (S (length b))).
  rewrite lev_row_start. pose proof (edit_rows_lev a b []) as E.
  change (Z.of_nat (length (@nil rune))) with 0 in E. rewrite E. cbn [snd].
  by rewrite lev_row_last, !app_nil_r.
Qed.

Lemma edit_distance_attained a b : edits a b (edit_distance a b).
Proof.
  rewrite edit_distance_lev. pose proof (edits_rev _ _ _ (lev_edits (rev a) (rev b))) as H.
  by rewrite !rev_involutive in H.
Qed.

Lemma edit_distance_least a b n : edits a b n -> edit_distance a b <= n.
Proof. intros H. rewrite edit_distance_lev. by apply lev_least, edits_rev. Qed.

Lemma edit_distance_zero a b : edit_distance a b = 0 <-> a = b.
Proof.
  split; [apply edits_zero, edit_distance_attained|]. intros ->.
  pose proof (edit_distance_least b b 0 (edits_refl b)).
  pose proof (edits_zero _ _ _ (edit_distance_attained b b)). lia.
Qed.

Lemma edit_distance_bound a b :
  0 <= edit_distance a b <= Z.max (Z.of_nat (length a)) (Z.of_nat (length b)).
Proof.
  split; [apply (edits_zero _ _ _ (edit_distance_attained a b))|].
  destruct (edits_at_most_longest a b) as (n & Hn & Hle).
  pose proof (edit_distance_least a b n Hn). lia.
Qed.

(** ** Similarity *)

Lemma similarity_refl a : Qle_bool (round (98 # 100)) (similarity a a) = true.
Proof.
  unfold similarity. destruct (Z.max _ _ =? 0); [by vm_compute|].
  rewrite (proj2 (edit_distance_zero a a) eq_refl). apply Qle_bool_iff. unfold fsub.
  apply round_mono_nonneg; [done|].
  set (m := of_int (Z.max _ _)).
  assert (of_int 0 / m == 0)%Q as E0 by (change (of_int 0) with 0%Q; unfold Qdiv; apply Qmult_0_l).
  assert (fdiv (of_int 0) m <= round 0)%Q as Hd by (apply round_mono_nonneg; rewrite E0; apply Qle_refl).
  change (round 0) with 0%Q in Hd. lra.
Qed.

(** One edit in fewer than fifty runes is below the threshold. *)
Lemma similarity_of_distance d m :
  1 <= d <= m -> m < 50 -> (fsub 1 (fdiv (of_int d) (of_int m)) < round (98 # 100))%Q.
Proof.
  intros Hd Hm.
  assert (0 < inject_Z m)%Q as Hm0 by (rewrite <- (Zlt_Qlt 0); lia).
  assert (inject_Z 1 <= inject_Z d)%Q as Hd1 by (rewrite <- Zle_Qle; lia).
  assert (inject_Z d <= inject_Z m)%Q as Hdm by (rewrite <- Zle_Qle; lia).
  assert (inject_Z m <= inject_Z 49)%Q as Hm49 by (rewrite <- Zle_Qle; lia).
  assert (of_int d / of_int m == inject_Z d / inject_Z m)%Q as Eq.
  { rewrite (of_int_exact d), (of_int_exact m) by lia. reflexivity. }
  assert (1 # 49 <= of_int d / of_int m)%Q as Hlow.
  { rewrite Eq. apply Qle_shift_div_l; [done|]. change (inject_Z 49) with 49%Q in Hm49.
    change (inject_Z 1) with 1%Q in Hd1. lra. }
  assert (of_int d / of_int m <= 1)%Q as Hhigh.
  { rewrite Eq. apply Qle_shift_div_r; [done|]. lra. }
  pose proof (round_mono_nonneg (1 # 49) _ ltac:(done) Hlow) as Hr.
  pose proof (round_mono_nonneg (of_int d / of_int m) 1 ltac:(lra) Hhigh) as Hr1.
  change (round (of_int d / of_int m)) with (fdiv (of_int d) (of_int m)) in Hr, Hr1.
  assert (round 1 == 1)%Q as E1 by (apply Qeq_bool_iff; by vm_compute).
  apply Qle_lt_trans with (round (1 - round (1 # 49))).
  - apply round_mono_nonneg; lra.
  - apply flt_spec. by vm_compute.
Qed.

(** The title rule's table computes the edit distance: [edit_distance a b]
    insertions, deletions and replacements turn [a] into [b], and no fewer do;
    it is 0 exactly for equal titles. The similarity threshold of 0.98 in
    float64 arithmetic therefore accepts equal titles, and nothing else when
    both titles are shorter than fifty runes. *)
Theorem title_similarity_spec (a b : text) :
  edits a b (edit_distance a b)
  /\ (forall n, edits a b n -> edit_distance a b <= n)
  /\ (edit_distance a b = 0 <-> a = b)
  /\ (a = b -> similar a b = true)
  /\ ((length a < 50)%nat -> (length b < 50)%nat -> similar a b = true -> a = b).
Proof.
  split; [apply edit_distance_attained|]. split; [apply edit_distance_least|].
  split; [apply edit_distance_zero|]. split; [intros ->; apply similarity_refl|].
  intros Ha Hb Hs. destruct (decide (a = b)) as [|Hab]; [done|exfalso].
  pose proof (edit_distance_bound a b) as [H0 Hmax].
  assert (edit_distance a b <> 0) by by rewrite edit_distance_zero.
  unfold similar, similarity in Hs. destruct (Z.eqb_spec (Z.max (Z.of_nat (length a)) (Z.of_nat (length b))) 0); [lia|].
  apply Qle_bool_iff in Hs.
  pose proof (similarity_of_distance (edit_distance a b) (Z.max (Z.of_nat (length a)) (Z.of_nat (length b)))
    ltac:(lia) ltac:(lia)) as Hlt.
  by apply Qlt_not_le in Hlt.
Qed.

(** ** Compact numbers *)

Lemma slice_snoc s j i r rest :
  (j <= i)%nat -> drop i s = r :: rest -> slice s j (S i) = slice s j i ++ [r].
Proof.
  intros Hji Hd. unfold slice.
  replace (S i - j)%nat with (S (i - j)) by lia.
  apply take_S_r. rewrite lookup_drop. replace (j + (i - j))%nat with (i + 0)%nat by lia.
  by rewrite <- lookup_drop, Hd.
Qed.

Lemma slice_empty s i : slice s i i = [].
Proof. unfold slice. by rewrite Nat.sub_diag. Qed.

Lemma digit_runs_digits name s i start j k :
  drop i name = s ->
  (forall j, start = Some j -> (j <= i)%nat /\ Forall (fun r => ascii_digit r = true) (slice name j i)) ->
  (j, k) ∈ digit_runs i start s -> Forall (fun r => ascii_digit r = true) (slice name j k).
Proof.
  revert i start. induction s as [|r s IH]; intros i start Hs Hstart Hin; cbn [digit_runs] in Hin.
  - destruct start as [j'|]; [|by apply elem_of_nil in Hin].
    apply list_elem_of_singleton in Hin. simplify_eq. by apply Hstart.
  - assert (drop (S i) name = s) as Hs' by (rewrite <- Nat.add_1_r, <- drop_drop, Hs; done).
    destruct (ascii_digit r) eqn:Er.
    + eapply IH; [exact Hs'| |exact Hin]. intros j' [= <-].
      assert (default i start <= i)%nat as Hle.
      { destruct start as [j'|]; cbn; [by apply Hstart|lia]. }
      split; [lia|]. rewrite (slice_snoc _ _ _ _ _ Hle Hs).
      apply Forall_app. split; [|by repeat constructor].
      destruct start as [j'|]; cbn; [by apply Hstart|rewrite slice_empty; constructor].
    + apply elem_of_app in Hin as [Hin|Hin].
      * destruct start as [j'|]; [|by apply elem_of_nil in Hin].
        apply list_elem_of_singleton in Hin. simplify_eq. by apply Hstart.
      * eapply IH; [exact Hs'| |exact Hin]. by intros j' [=].
Qed.

Lemma run_parts_three run part :
  Forall (fun r => ascii_digit r = true) run -> part ∈ run_parts run ->
  exists a b c, part = [a; b; c] /\ ascii_digit a = true /\ ascii_digit b = true /\ ascii_digit c = true.
Proof.
  intros Hrun Hin. unfold run_parts in Hin.
  destruct run as [|a [|b [|c [|d [|e [|f [|]]]]]]]; try by apply elem_of_nil in Hin.
  - apply list_elem_of_singleton in Hin as ->. rewrite !Forall_cons in Hrun. naive_solver.
  - destruct (_ && _); [|by apply elem_of_nil in Hin]. rewrite !Forall_cons in Hrun.
    apply elem_of_cons in Hin as [->|Hin]; [naive_solver|].
    apply list_elem_of_singleton in Hin as ->. naive_solver.
Qed.

Lemma digit_value_range r : ascii_digit r = true -> 0 <= digit_value r <= 9.
Proof. unfold ascii_digit, between, digit_value. rewrite andb_true_iff, !N.leb_le. lia. Qed.

Lemma atoi0_three a b c :
  ascii_digit a = true -> ascii_digit b = true -> ascii_digit c = true ->
  atoi0 [a; b; c] = 100 * digit_value a + 10 * digit_value b + digit_value c.
Proof.
  intros Ha Hb Hc. pose proof (digit_value_range a Ha). pose proof (digit_value_range b Hb).
  pose proof (digit_value_range c Hc). unfold atoi0, atoi.
  assert (match [a; b; c] with 45%N :: s' => (-1, s') | 43%N :: s' => (1, s') | _ => (1, [a; b; c]) end
          = (1, [a; b; c])) as ->.
  { unfold ascii_digit, between in Ha. apply andb_true_iff in Ha as [Ha _]. apply N.leb_le in Ha.
    destruct (decide (a = 45%N)) as [->|]; [done|]. destruct (decide (a = 43%N)) as [->|]; [done|].
    repeat (case_match; try done). }
  cbn [forallb length]. rewrite Ha, Hb, Hc. cbn [andb negb orb Nat.eqb].
  unfold decimal. cbn [fold_left].
  set (v := 1 * _). assert (v = 100 * digit_value a + 10 * digit_value b + digit_value c) as Ev
    by (subst v; lia).
  rewrite Ev. destruct (Z.leb_spec (- 2 ^ 63) (100 * digit_value a + 10 * digit_value b + digit_value c));
    [|lia].
  destruct (Z.leb_spec (100 * digit_value a + 10 * digit_value b + digit_value c) (2 ^ 63 - 1)); [done|lia].
Qed.

Section compact.
Context `{Unicode}.

(** Every compact number is a three-digit number without a leading zero, read
    as season and episode, in a name without other episode evidence. *)
Lemma compactNumbers_elem name title anime n :
  n ∈ compactNumbers name title anime ->
  hasEpisodeEvidence name = false /\ 100 <= cvalue n <= 999
  /\ cvalue n = 100 * cseason n + cepisode n /\ 1 <= cseason n <= 9 /\ 0 <= cepisode n <= 99.
Proof.
  unfold compactNumbers. destruct (hasEpisodeEvidence name); [by intros Hn%elem_of_nil|].
  intros Hn. split; [done|].
  apply list_elem_of_In, in_concat in Hn as (l & Hl & Hn). apply in_map_iff in Hl as ([s e] & <- & Hrun).
  apply list_elem_of_In in Hrun, Hn. apply list_elem_of_omap in Hn as (part & Hpart & Hn).
  destruct (run_separated name s e); [|by apply elem_of_nil in Hpart].
  apply run_parts_three in Hpart as (a & b & c & -> & Ha & Hb & Hc);
    [|eapply (digit_runs_digits name name 0%nat None); [done|by intros ? [=]|exact Hrun]].
  destruct (bool_decide (head [a; b; c] = Some 48%N)) eqn:E0; [done|].
  destruct (_ || _) eqn:E1; [done|]. apply (inj Some) in Hn as <-.
  rewrite atoi0_three by done. cbn [cvalue cseason cepisode].
  set (v := 100 * digit_value a + 10 * digit_value b + digit_value c).
  pose proof (digit_value_range a Ha). pose proof (digit_value_range b Hb).
  pose proof (digit_value_range c Hc).
  assert (1 <= digit_value a) as Ha1.
  { apply bool_decide_eq_false in E0. cbn [head] in E0. unfold digit_value in *.
    assert (a <> 48%N) by congruence. lia. }
  assert (100 <= v <= 999) by lia.
  pose proof (Z.div_mod v 100). pose proof (Z.mod_pos_bound v 100).
  split_and!; lia.
Qed.

(** A member selected by its compact number carries exactly one such
    number, of three digits and in a name without any other episode evidence;
    the number is the target's season and episode as Sxx (1 to 9) followed by
    two digits, and it cannot be the absolute number of another episode: it is
    the target's own absolute number, or the name does not follow the absolute
    convention and the number lies at least a hundred above the target's
    absolute one (or the show has none). Such a member never counts as naming
    another episode. *)
Theorem compact_match_sound (name : text) (media : Media) (Hmatch : compactEpisodeMatches name media = true) :
  (exists n, compactNumbers name (MTitle media) (Anime media) = [n]
     /\ hasEpisodeEvidence name = false /\ 100 <= cvalue n <= 999
     /\ cvalue n = 100 * MSeason media + MEpisode media
     /\ 1 <= MSeason media <= 9 /\ 1 <= MEpisode media <= 99
     /\ ((0 < MAbsoluteEpisode media /\ cvalue n = MAbsoluteEpisode media)
         \/ (cabsolute n = false
             /\ (MAbsoluteEpisode media <= 0 \/ 100 <= cvalue n - MAbsoluteEpisode media))))
  /\ compactNamesOtherEpisode name media = false.
Proof.
  unfold compactEpisodeMatches, compactNamesOtherEpisode in *.
  destruct (compactNumbers name (MTitle media) (Anime media)) as [|n [|]] eqn:En; try done.
  assert (n ∈ compactNumbers name (MTitle media) (Anime media)) as Hn by (rewrite En; left).
  apply compactNumbers_elem in Hn. destruct_and!. split.
  - exists n. split; [done|]. unfold compactNamesTarget in Hmatch. split_ifs; bools;
      split_and!; try done; try lia; try (apply orb_true_iff in Hmatch as [Hm|Hm]; bools; right; split; [done|lia]).
  - cbn [existsb length]. rewrite Hmatch. cbn. by rewrite andb_false_r.
Qed.
End compact.

(** An episode of a show, as the examples use it. *)
Definition sample_episode (season episode absolute : Z) : Media :=
  {| SeriesID := 1; EntityID := 1; MRef := mkMediaRef (t "sonarr") MediaEpisode 1;
     Fingerprint := mkFingerprint (t "/tv/show.mkv") 1 1 0; MTitle := t "Show"; EpisodeTitle := t "Homecoming";
     MAlternateTitles := []; MYear := 2010; MSeason := season; MEpisode := episode;
     MAbsoluteEpisode := absolute; EpisodeEnd := episode; AbsoluteEpisodeEnd := absolute;
     MExternalIDs := mkExternalIDs [] 0 0; OriginalFilename := []; ReleaseName := []; ReleaseGroup := [];
     Source := []; Resolution := []; StreamingService := []; Edition := []; Quality := []; MDuration := 0;
     Unsupported := []; ReleasedAt := 0; SeriesType := [] |}.

Lemma compact_match_sound_witness :
  compactEpisodeMatches (t "Show.105.720p-GRP.srt") (sample_episode 1 5 0) = true
  /\ compactNamesOtherEpisode (t "Show.105.720p-GRP.srt") (sample_episode 1 5 0) = false.
Proof.
  assert (compactEpisodeMatches (t "Show.105.720p-GRP.srt") (sample_episode 1 5 0) = true) as Hm
    by by vm_compute.
  split; [exact Hm|]. exact (proj2 (compact_match_sound _ _ Hm)).
Defined.
