(* ===== verification/PackSelect.v ===== *)
(** * Selecting an archive's member (src/internal/pack)

    Which file of a subtitle archive is for the target: the strict selector of
    select.go with its rules in order, the single-file variant, the versions of
    one episode (alternatives.go) or movie (movie_versions.go) that timing may
    choose between, and the pack classification of runtime.go. *)
From S2P Require Import Prelude GoText GoFloat Regex Domain MatchRelease MatchScore PackEvidence.

#[local] Open Scope Z_scope.

Record Member := mkMember {
  SafeName : text;
  NormalizedPath : text;
  Checksum : text;
  ByteSize : Z;
  MemSeason : Z;
  MemFrom : Z;
  MemTo : Z;
  MemAbsoluteFrom : Z;
  MemAbsoluteTo : Z;
  NormalizedTitle : text;
  MemForced : bool;
  SelectionRule : text;
  SelectionEvidence : text;
}.

Record Manifest := mkManifest {
  RuntimePack : bool;
  ManProviderID : text;
  ManResultID : text;
  ManLanguage : Language;
  ManChecksum : text;
  ArchiveType : text;
  ManCandidate : Candidate;
  Members : list Member;
  SkippedMembers : Z;
}.

(** A [SelectionError], or an error of the caller's [tried] callback. *)
Inductive SelectError :=
| SelectionError (reason rule archiveType : text) (memberCount matching : nat)
| TriedError.

Definition with_forced (forced : bool) (m : Member) : Member :=
  {| SafeName := SafeName m; NormalizedPath := NormalizedPath m; Checksum := Checksum m;
     ByteSize := ByteSize m; MemSeason := MemSeason m; MemFrom := MemFrom m; MemTo := MemTo m;
     MemAbsoluteFrom := MemAbsoluteFrom m; MemAbsoluteTo := MemAbsoluteTo m;
     NormalizedTitle := NormalizedTitle m; MemForced := forced; SelectionRule := SelectionRule m;
     SelectionEvidence := SelectionEvidence m |}.

Definition with_rule (rule evidence : text) (m : Member) : Member :=
  {| SafeName := SafeName m; NormalizedPath := NormalizedPath m; Checksum := Checksum m;
     ByteSize := ByteSize m; MemSeason := MemSeason m; MemFrom := MemFrom m; MemTo := MemTo m;
     MemAbsoluteFrom := MemAbsoluteFrom m; MemAbsoluteTo := MemAbsoluteTo m;
     NormalizedTitle := NormalizedTitle m; MemForced := MemForced m; SelectionRule := rule;
     SelectionEvidence := evidence |}.

Definition with_members (ms : list Member) (m : Manifest) : Manifest :=
  mkManifest (RuntimePack m) (ManProviderID m) (ManResultID m) (ManLanguage m) (ManChecksum m)
    (ArchiveType m) (ManCandidate m) ms (SkippedMembers m).

(** [fmt]'s [%02d]. *)
Definition two_digits (n : Z) : text := pad_left 2 (itoa n).
Definition episode_label (season episode : Z) : text :=
  t "S" ++ two_digits season ++ t "E" ++ two_digits episode.

Definition selectionError (manifest : Manifest) (rule : text) (matching : nat) (reason : text) : SelectError :=
  SelectionError reason rule (ArchiveType manifest) (length (Members manifest)) matching.

(** [None] when the rule matched no member: the next rule is tried. *)
Definition uniqueRule (manifest : Manifest) (found : list Member) (rule evidence : text)
    : option (result SelectError Member) :=
  match found with
  | [] => None
  | [selected] => Some (Ok (with_rule rule evidence selected))
  | _ => Some (Err (selectionError manifest rule (length found) (rule ++ t " matched multiple members")))
  end.

(** A rule: its name, the members it matches and the evidence it records. *)
Definition rule : Type := text * list Member * text.

(** The rules in order, then the final refusal. *)
Fixpoint first_rule (manifest : Manifest) (rules : list rule) (none : SelectError)
    : result SelectError Member :=
  match rules with
  | [] => Err none
  | (name, found, evidence) :: rules =>
      match uniqueRule manifest found name evidence with
      | Some r => r
      | None => first_rule manifest rules none
      end
  end.

Section select.
Context `{Unicode}.

Definition is_forced (m : Member) : bool := MemForced m || matches forcedPattern (SafeName m).

Definition eligibleMembers (members : list Member) (wantForced : bool) : list Member :=
  with_forced wantForced <$> filter (fun m => is_forced m = wantForced) members.

Definition directMatchesMedia (direct : PackMemberRef) (media : Media) : bool :=
  ((RefEpisode direct =? MEpisode media)
   && ((RefSeason direct =? 0) || (RefSeason direct =? MSeason media)))
  || ((0 <? MAbsoluteEpisode media) && (RefAbsolute direct =? MAbsoluteEpisode media)).

(** The members a provider's direct references name, each name once. *)
Definition direct_matches (pack : PackInfo) (members : list Member) (media : Media) : list Member :=
  snd (fold_left (fun '(seen, found) direct =>
    if negb (directMatchesMedia direct media) then (seen, found)
    else fold_left (fun '(seen, found) member =>
           if equal_fold (path_base (RefFilename direct)) (SafeName member) then
             let key := to_lower (SafeName member) in
             if bool_decide (key ∈ seen) then (seen, found) else (key :: seen, found ++ [member])
           else (seen, found)) members (seen, found))
    (DirectMembers pack) ([], [])).

Definition token_is (name : text) (season episode : Z) : bool :=
  bool_decide (episodeToken name = Some (season, episode)).

Definition no_range (name : text) : bool := negb (bool_decide (is_Some (episodeRange name))).

(** An episode token of the target, and no range. *)
Definition by_token (media : Media) (m : Member) : bool :=
  negb (hasInvalidOrAmbiguousRangeEvidence (SafeName m)) && no_range (SafeName m)
  && token_is (SafeName m) (MSeason media) (MEpisode media).

Definition by_range (media : Media) (m : Member) : bool :=
  negb (hasInvalidOrAmbiguousRangeEvidence (SafeName m))
  && match episodeRange (SafeName m) with
     | Some (season, from, to) => (season =? MSeason media) && (from <=? MEpisode media) && (MEpisode media <=? to)
     | None => false
     end.

Definition by_absolute (media : Media) (m : Member) : bool :=
  (0 <? MAbsoluteEpisode media) && bool_decide (absoluteEpisode (SafeName m) = Some (MAbsoluteEpisode media)).

Definition by_title (media : Media) (m : Member) : bool :=
  (4 <? length (normalizeTitle (EpisodeTitle media)))%nat
  && negb (hasInvalidOrAmbiguousRangeEvidence (SafeName m)) && negb (hasEpisodeEvidence (SafeName m))
  && negb (bool_decide (NormalizedTitle m = []))
  && similar (normalizeTitle (EpisodeTitle media)) (normalizeTitle (NormalizedTitle m)).

Definition numberedEpisodeMatches (members : list Member) (media : Media) : list Member :=
  let numbered := filter (fun m => is_Some (numberedEpisode (SafeName m) (MSeason media))) members in
  if (length numbered <? 3)%nat then []
  else filter (fun m => numberedEpisode (SafeName m) (MSeason media) = Some (MEpisode media)) members.

Definition packUsesArrNumbering (members : list Member) (arrSeason releaseSeason : Z) : bool :=
  let '(releaseLast, arrLast) :=
    fold_left (fun '(releaseLast, arrLast) m =>
      if negb (no_range (SafeName m)) then (releaseLast, arrLast)
      else match episodeToken (SafeName m) with
           | None => (releaseLast, arrLast)
           | Some (season, episode) =>
               if (season =? releaseSeason) && (releaseLast <? episode) then (episode, arrLast)
               else if (season =? arrSeason) && (arrLast <? episode) then (releaseLast, episode)
               else (releaseLast, arrLast)
           end) members (0, 0) in
  releaseLast <? arrLast.

Definition ReleaseEpisode (media : Media) : option (Z * Z) :=
  let name := match ReleaseName media with [] => path_base (OriginalFilename media) | n => n end in
  if bool_decide (name = []) || bool_decide (name = t ".") || hasInvalidOrAmbiguousRangeEvidence name
  then None
  else if negb (no_range name) then None
  else if negb (length (complete_tokens name) =? 1)%nat then None
  else match episodeToken name with
       | None => None
       | Some (season, episode) =>
           if (season =? 0) || (season =? MSeason media) then None else Some (season, episode)
       end.

(** The members naming the release's own number, when the pack is not numbered
    the way Arr numbers the show. *)
Definition release_rule (unfiltered : list Member) (media : Media) : list rule :=
  match ReleaseEpisode media with
  | None => []
  | Some (season, episode) =>
      if packUsesArrNumbering unfiltered (MSeason media) season then []
      else
        [(t "release_episode_token",
          filter (fun m => negb (conflictingEpisodeEvidence (SafeName m) (with_numbering media season episode))
                           && no_range (SafeName m) && token_is (SafeName m) season episode = true) unfiltered,
          t "filename identifies " ++ episode_label season episode ++ t ", the media release's own number")]
  end.

Definition consistent_members (members : list Member) (media : Media) : list Member :=
  filter (fun m => conflictingEpisodeEvidence (SafeName m) media = false) members.

(** The rules for a single-episode target in order. [members] satisfy the
    forced policy. *)
Definition select_rules (members : list Member) (candidate : Candidate) (media : Media) : list rule :=
  let consistent := consistent_members members media in
  match Pack candidate with
  | Some pack => [(t "provider_direct", direct_matches pack consistent media,
                   t "provider supplied a direct member for the target episode")]
  | None => []
  end
  ++ [(t "episode_token", filter (fun m => by_token media m = true) consistent,
       t "filename identifies " ++ episode_label (MSeason media) (MEpisode media));
      (t "episode_range", filter (fun m => by_range media m = true) consistent,
       t "filename range contains " ++ episode_label (MSeason media) (MEpisode media));
      (t "absolute_episode", filter (fun m => by_absolute media m = true) consistent,
       t "filename identifies absolute episode " ++ itoa (MAbsoluteEpisode media));
      (t "compact_episode", filter (fun m => compactEpisodeMatches (SafeName m) media = true) consistent,
       t "filename numbers the episode " ++ itoa (MSeason media) ++ two_digits (MEpisode media));
      (t "numbered_episode", numberedEpisodeMatches consistent media,
       t "numbered set without episode tokens identifies episode " ++ itoa (MEpisode media));
      (t "episode_title", filter (fun m => by_title media m = true) consistent,
       t "normalized episode title similarity is at least 0.98")]
  ++ release_rule members media.

Definition covers_range (media : Media) (m : Member) : bool :=
  negb (contradictsRange (SafeName m) media)
  && match episodeRange (SafeName m) with
     | Some (season, from, to) => (season =? MSeason media) && (from <=? MEpisode media) && (EpisodeEnd media <=? to)
     | None => false
     end.

Definition selectRange (manifest : Manifest) (members : list Member) (media : Media) : result SelectError Member :=
  first_rule manifest
    [(t "episode_range", filter (fun m => covers_range media m = true) members,
      t "filename range covers " ++ episode_label (MSeason media) (MEpisode media)
      ++ t "-E" ++ two_digits (EpisodeEnd media))]
    (selectionError manifest (t "none") 0 (t "no unique member covers the target episode range")).

Definition none_error (manifest : Manifest) : SelectError :=
  selectionError manifest (t "none") 0 (t "no unique member identifies the target episode").

Definition Select (manifest : Manifest) (candidate : Candidate) (media : Media) (wantForced : bool)
    : result SelectError Member :=
  let members := eligibleMembers (Members manifest) wantForced in
  match members with
  | [] => Err (selectionError manifest (t "forced_policy") 0 (t "no members satisfy the forced-subtitle policy"))
  | _ =>
      if IsEpisodeRange media then selectRange manifest members media
      else first_rule manifest (select_rules members candidate media) (none_error manifest)
  end.

(** [SelectSingleEpisode] after the strict selector refused with [err]. *)
Definition lone_member (manifest : Manifest) (candidate : Candidate) (media : Media) (wantForced : bool)
    (err : SelectError) : result SelectError Member :=
  match Pack candidate, eligibleMembers (Members manifest) wantForced with
  | None, [m] =>
      if IsEpisodeRange media then
        if contradictsRange (SafeName m) media then Err err
        else Ok (with_rule (t "single_range")
                   (t "single subtitle member does not contradict the target episode range") m)
      else if (SkippedMembers manifest =? 0) && negb (hasInvalidOrAmbiguousRangeEvidence (SafeName m))
              && negb (hasEpisodeEvidence (SafeName m)) && negb (compactNamesOtherEpisode (SafeName m) media)
      then Ok (with_rule (t "single_generic")
                 (t "single subtitle member has no conflicting episode evidence") m)
      else Err err
  | _, _ => Err err
  end.

Definition SelectSingleEpisode (manifest : Manifest) (candidate : Candidate) (media : Media) (wantForced : bool)
    : result SelectError Member :=
  match Select manifest candidate media wantForced with
  | Ok selected =>
      if bool_decide (SelectionRule selected = t "release_episode_token")
      then lone_member manifest candidate media wantForced (none_error manifest)
      else Ok selected
  | Err err => lone_member manifest candidate media wantForced err
  end.

(** ** Reading a member's name *)

Definition memberEvidence (name seriesTitle : text) : Member :=
  let '(season, from, to, absolute) :=
    match episodeRange name with
    | Some (season, from, to) => (season, from, to, 0)
    | None =>
        match episodeToken name with
        | Some (season, episode) => (season, episode, episode, 0)
        | None => (0, 0, 0, default 0 (absoluteEpisode name))
        end
    end in
  {| SafeName := name; NormalizedPath := []; Checksum := []; ByteSize := 0; MemSeason := season;
     MemFrom := from; MemTo := to; MemAbsoluteFrom := absolute; MemAbsoluteTo := absolute;
     NormalizedTitle := filenameTitle name seriesTitle; MemForced := matches forcedPattern name;
     SelectionRule := []; SelectionEvidence := [] |}.

(** ** Runtime packs *)

Definition IsRuntimePack (manifest : Manifest) : bool :=
  if negb (bool_decide (Kind (ManCandidate manifest) = MediaEpisode))
     || bool_decide (is_Some (Pack (ManCandidate manifest)))
  then false
  else (1 <? length (Members manifest))%nat
       || existsb (fun m => match episodeRange (SafeName m) with
                            | Some (_, from, to) => from <? to
                            | None => false
                            end) (Members manifest).

(** The season the tokens of a name agree on, starting from [season]. *)
Fixpoint token_season (name : text) (tokens : list span) (season : Z) : option Z :=
  match tokens with
  | [] => Some season
  | m :: tokens =>
      if negb (completeRangeToken name (s_start m) (s_end m)) then None
      else
        let '(s, e) := token_alone name m in
        if (s <=? 0) || (e <=? 0) || (negb (season =? 0) && negb (season =? s)) then None
        else token_season name tokens s
  end.

Fixpoint members_season (members : list Member) (season : Z) : option Z :=
  match members with
  | [] => Some season
  | m :: members =>
      if hasInvalidOrAmbiguousRangeEvidence (SafeName m) then None
      else match token_season (SafeName m) (find_all episodeTokenPattern (SafeName m)) season with
           | Some season => members_season members season
           | None => None
           end
  end.

Definition RuntimeCacheSeason (manifest : Manifest) : option Z :=
  let c := ManCandidate manifest in
  if ExactHash c || (bool_decide (CExternalIDs c = mkExternalIDs [] 0 0) && bool_decide (trim_space (CTitle c) = []))
  then None
  else if CSeason c <? 0 then None
  else match members_season (Members manifest) (CSeason c) with
       | Some season => if 0 <? season then Some season else None
       | None => None
       end.
End select.

(** ** Rules in order *)

(** The first rule that matches any member decides. *)
Lemma first_rule_decides manifest pre name found evidence post none :
  Forall (fun r : rule => r.1.2 = []) pre -> found <> [] ->
  uniqueRule manifest found name evidence = Some (first_rule manifest (pre ++ (name, found, evidence) :: post) none).
Proof.
  intros Hpre Hfound. induction pre as [|[[n f] e] pre IH]; cbn [app first_rule].
  - destruct found as [|m [|]]; done.
  - apply Forall_cons in Hpre as [Hf Hpre]. cbn in Hf. subst f. cbn [uniqueRule]. by apply IH.
Qed.

Lemma first_rule_none manifest rules none :
  Forall (fun r : rule => r.1.2 = []) rules -> first_rule manifest rules none = Err none.
Proof.
  induction 1 as [|[[n f] e] rules Hf _ IH]; [done|]. cbn in Hf. subst f. done.
Qed.

Lemma rules_split (rules : list rule) :
  Forall (fun r : rule => r.1.2 = []) rules
  \/ exists pre name found evidence post,
       rules = pre ++ (name, found, evidence) :: post
       /\ Forall (fun r : rule => r.1.2 = []) pre /\ found <> [].
Proof.
  induction rules as [|[[n f] e] rules IH]; [by left|].
  destruct f as [|m f].
  - destruct IH as [IH|(pre & n' & f' & e' & post & -> & Hpre & Hf)]; [left; by constructor|].
    right. exists ((n, [], e) :: pre), n', f', e', post. split; [done|]. split; [by constructor|done].
  - right. by exists [], n, (m :: f), e, rules.
Qed.

Lemma first_rule_ok manifest rules none m :
  first_rule manifest rules none = Ok m ->
  exists name m0 evidence, (name, [m0], evidence) ∈ rules /\ m = with_rule name evidence m0.
Proof.
  induction rules as [|[[n f] e] rules IH]; [done|]. cbn [first_rule].
  destruct f as [|m0 [|m1 f]]; cbn [uniqueRule]; intros Hr.
  - destruct (IH Hr) as (name & m0 & evidence & Hin & ->). exists name, m0, evidence. split; [by right|done].
  - simplify_eq. exists n, m0, e. split; [left|done].
  - done.
Qed.

Section select_lemmas.
Context `{Unicode}.

Lemma eligibleMembers_elem members wantForced m :
  m ∈ eligibleMembers members wantForced <->
  exists m0, m0 ∈ members /\ is_forced m0 = wantForced /\ m = with_forced wantForced m0.
Proof.
  unfold eligibleMembers. rewrite list_elem_of_fmap.
  split; intros (m0 & H1 & H2); exists m0; rewrite list_elem_of_filter in *; naive_solver.
Qed.

(** *** What a name that does not conflict says *)

(** The numbers of [name] outside an accepted range all identify the target. *)
Record agrees (name : text) (media : Media) : Prop := {
  agrees_range m season from to :
    acceptedEpisodeRangeMatch name = Some (m, (season, from, to)) ->
    season = MSeason media /\ from <= MEpisode media <= to;
  agrees_tokens tok :
    let rest := match acceptedEpisodeRangeMatch name with Some (m, _) => blank_out name m | None => name end in
    tok ∈ complete_tokens rest -> token_alone rest tok = (MSeason media, MEpisode media);
  agrees_absolute v :
    let rest := match acceptedEpisodeRangeMatch name with Some (m, _) => blank_out name m | None => name end in
    0 < MAbsoluteEpisode media -> v ∈ absolute_values rest -> v = MAbsoluteEpisode media;
  agrees_valid : hasInvalidOrAmbiguousRangeEvidence name = false;
}.

Lemma absolute_conflict_false absolute values :
  0 < absolute -> absolute_conflict absolute values = false -> Forall (fun v => v = absolute) values.
Proof.
  intros Habs. induction values as [|v values IH]; [by constructor|]. cbn [absolute_conflict].
  destruct (_ && _) eqn:E; [done|]. intros Hc.
  apply andb_false_iff in E as [E|E]; bools; [lia|]. subst v. constructor; [done|]. by apply IH.
Qed.

Lemma existsb_not_in {A} (f : A -> bool) l x : existsb f l = false -> x ∈ l -> f x = false.
Proof.
  intros Hf Hx. destruct (f x) eqn:E; [|done].
  assert (existsb f l = true); [|congruence]. apply existsb_exists. exists x. by rewrite list_elem_of_In in Hx.
Qed.

Lemma not_conflicting_agrees name media :
  conflictingEpisodeEvidence name media = false -> agrees name media.
Proof.
  unfold conflictingEpisodeEvidence. destruct (hasInvalidOrAmbiguousRangeEvidence name) eqn:Ei; [done|].
  cbv beta zeta. intros Hc.
  set (rest := match acceptedEpisodeRangeMatch name with Some (m, _) => blank_out name m | None => name end).
  assert (existsb (fun m => negb (bool_decide (token_alone rest m = (MSeason media, MEpisode media))))
            (complete_tokens rest)
          || absolute_conflict (MAbsoluteEpisode media) (absolute_values rest) = false) as Hrest.
  { subst rest. destruct (acceptedEpisodeRangeMatch name) as [[m [[season from] to]]|]; [|done].
    destruct (_ || _ || _); [done|exact Hc]. }
  apply orb_false_iff in Hrest as [Htok Habs]. split.
  - intros m season from to E. rewrite E in Hc. destruct (_ || _ || _) eqn:E2; [done|]. bools. lia.
  - intros tok rest' Hin. pose proof (existsb_not_in _ _ _ Htok Hin) as Hn.
    by apply negb_false_iff, bool_decide_eq_true in Hn.
  - intros v rest' H0 Hin. apply absolute_conflict_false in Habs; [|done].
    rewrite Forall_forall in Habs. by apply Habs.
  - done.
Qed.
(** *** The rules *)

Definition direct_names (pack : PackInfo) (media : Media) (m : Member) : Prop :=
  exists direct, direct ∈ DirectMembers pack /\ directMatchesMedia direct media = true
    /\ equal_fold (path_base (RefFilename direct)) (SafeName m) = true.

Lemma direct_matches_elem pack members media m :
  m ∈ direct_matches pack members media -> m ∈ members /\ direct_names pack media m.
Proof.
  unfold direct_matches, direct_names.
  assert (forall direct ms acc,
    directMatchesMedia direct media = true -> direct ∈ DirectMembers pack -> ms ⊆ members ->
    Forall (fun m => m ∈ members /\ direct_names pack media m) acc.2 ->
    Forall (fun m => m ∈ members /\ direct_names pack media m)
      (fold_left (fun '(seen, found) member =>
           if equal_fold (path_base (RefFilename direct)) (SafeName member) then
             let key := to_lower (SafeName member) in
             if bool_decide (key ∈ seen) then (seen, found) else (key :: seen, found ++ [member])
           else (seen, found)) ms acc).2) as Hinner.
  { intros direct ms acc Hd Hin Hms. revert acc.
    induction ms as [|x ms IH]; intros acc Hacc; [done|]. cbn [fold_left]. apply IH; [set_solver|].
    destruct acc as [seen found]. cbn [snd] in Hacc.
    destruct (equal_fold _ _) eqn:Ef; [|done]. cbv zeta. destruct (bool_decide _); [done|]. cbn [snd].
    apply Forall_app. split; [done|]. repeat constructor; [set_solver|]. by exists direct. }
  assert (forall ds acc, ds ⊆ DirectMembers pack ->
    Forall (fun m => m ∈ members /\ direct_names pack media m) acc.2 ->
    Forall (fun m => m ∈ members /\ direct_names pack media m)
      (fold_left (fun '(seen, found) direct =>
        if negb (directMatchesMedia direct media) then (seen, found)
        else fold_left (fun '(seen, found) member =>
           if equal_fold (path_base (RefFilename direct)) (SafeName member) then
             let key := to_lower (SafeName member) in
             if bool_decide (key ∈ seen) then (seen, found) else (key :: seen, found ++ [member])
           else (seen, found)) members (seen, found)) ds acc).2) as Houter.
  { intros ds. induction ds as [|d ds IH]; intros acc Hds Hacc; [done|]. cbn [fold_left].
    apply IH; [set_solver|]. destruct acc as [seen found].
    destruct (directMatchesMedia d media) eqn:Ed; cbn [negb]; [|done].
    apply (Hinner d members (seen, found)); [done|set_solver|done|done]. }
  intros Hm. specialize (Houter (DirectMembers pack) ([], []) ltac:(done) ltac:(constructor)).
  rewrite Forall_forall in Houter. by apply Houter.
Qed.

Lemma numberedEpisodeMatches_elem members media m :
  m ∈ numberedEpisodeMatches members media ->
  m ∈ members /\ numberedEpisode (SafeName m) (MSeason media) = Some (MEpisode media)
  /\ (3 <= length (filter (fun m => is_Some (numberedEpisode (SafeName m) (MSeason media))) members))%nat.
Proof.
  unfold numberedEpisodeMatches. destruct (Nat.ltb_spec
    (length (filter (fun m => is_Some (numberedEpisode (SafeName m) (MSeason media))) members)) 3);
    [by intros ?%elem_of_nil|].
  rewrite list_elem_of_filter. naive_solver.
Qed.

(** Why the member named [name] is the target's, by the rule that chose it. *)
Inductive identified (members : list Member) (candidate : Candidate) (media : Media) (m : Member) :
    text -> Prop :=
| by_provider_direct pack :
    Pack candidate = Some pack -> direct_names pack media m -> agrees (SafeName m) media ->
    identified members candidate media m (t "provider_direct")
| by_episode_token :
    episodeToken (SafeName m) = Some (MSeason media, MEpisode media) -> episodeRange (SafeName m) = None ->
    agrees (SafeName m) media -> identified members candidate media m (t "episode_token")
| by_episode_range from to :
    episodeRange (SafeName m) = Some (MSeason media, from, to) -> from <= MEpisode media <= to ->
    agrees (SafeName m) media -> identified members candidate media m (t "episode_range")
| by_absolute_episode :
    0 < MAbsoluteEpisode media -> absoluteEpisode (SafeName m) = Some (MAbsoluteEpisode media) ->
    agrees (SafeName m) media -> identified members candidate media m (t "absolute_episode")
| by_compact_episode :
    compactEpisodeMatches (SafeName m) media = true ->
    agrees (SafeName m) media -> identified members candidate media m (t "compact_episode")
| by_numbered_episode :
    numberedEpisode (SafeName m) (MSeason media) = Some (MEpisode media) ->
    (3 <= length (filter (fun m => is_Some (numberedEpisode (SafeName m) (MSeason media))) members))%nat ->
    agrees (SafeName m) media -> identified members candidate media m (t "numbered_episode")
| by_episode_title :
    hasEpisodeEvidence (SafeName m) = false -> (4 < length (normalizeTitle (EpisodeTitle media)))%nat ->
    similar (normalizeTitle (EpisodeTitle media)) (normalizeTitle (NormalizedTitle m)) = true ->
    agrees (SafeName m) media -> identified members candidate media m (t "episode_title")
| by_release_episode season episode :
    ReleaseEpisode media = Some (season, episode) -> season <> MSeason media ->
    packUsesArrNumbering members (MSeason media) season = false ->
    episodeToken (SafeName m) = Some (season, episode) -> episodeRange (SafeName m) = None ->
    agrees (SafeName m) (with_numbering media season episode) ->
    identified members candidate media m (t "release_episode_token").

Lemma no_range_spec name : no_range name = true <-> episodeRange name = None.
Proof.
  unfold no_range. rewrite negb_true_iff, bool_decide_eq_false.
  destruct (episodeRange name); split; intros H1; [destruct H1; eauto|done|done|by intros []].
Qed.

Lemma ReleaseEpisode_other_season media season episode :
  ReleaseEpisode media = Some (season, episode) -> season <> MSeason media /\ season <> 0.
Proof.
  unfold ReleaseEpisode. destruct (_ || _ || _); [done|]. destruct (negb (no_range _)); [done|].
  destruct (negb (_ =? 1)%nat); [done|]. destruct (episodeToken _) as [[s e]|]; [|done].
  destruct (_ || _) eqn:E; [done|]. intros [= <- <-]. bools. done.
Qed.

Lemma consistent_elem members media m :
  m ∈ consistent_members members media -> m ∈ members /\ agrees (SafeName m) media.
Proof.
  unfold consistent_members. rewrite list_elem_of_filter. intros [Hc Hm]. split; [done|].
  by apply not_conflicting_agrees.
Qed.
Lemma filter_filter_length {A} (P Q : A -> Prop) `{!forall x, Decision (P x), !forall x, Decision (Q x)}
    (l : list A) :
  (length (filter P (filter Q l)) <= length (filter P l))%nat.
Proof.
  induction l as [|x l IH]; [done|]. rewrite (filter_cons Q).
  destruct (decide (Q x)); rewrite !(filter_cons P); destruct (decide (P x)); cbn [length]; lia.
Qed.

Lemma by_filter (test : Media -> Member -> bool) members media m :
  m ∈ filter (fun m => test media m = true) (consistent_members members media) ->
  m ∈ members /\ test media m = true /\ agrees (SafeName m) media.
Proof. rewrite list_elem_of_filter. intros [Ht [Hm Ha]%consistent_elem]. done. Qed.

Lemma rule_identifies members candidate media name found evidence m :
  (name, found, evidence) ∈ select_rules members candidate media -> m ∈ found ->
  m ∈ members /\ identified members candidate media m name.
Proof.
  unfold select_rules. rewrite !elem_of_app, !elem_of_cons, elem_of_nil. intros Hrule Hm.
  destruct Hrule as [Hr|[Hr|Hr]].
  - destruct (Pack candidate) as [pack|] eqn:Ep; [|by apply elem_of_nil in Hr].
    apply list_elem_of_singleton in Hr. simplify_eq.
    apply direct_matches_elem in Hm as [[Hm Ha]%consistent_elem Hd]. split; [done|].
    by eapply by_provider_direct.
  - destruct_or! Hr; simplify_eq.
    + apply by_filter in Hm as (Hm & Ht & Ha). split; [done|]. unfold by_token, token_is in Ht.
      rewrite !andb_true_iff, no_range_spec, bool_decide_eq_true in Ht. destruct Ht as [[_ Hr] Ht].
      by apply by_episode_token.
    + apply by_filter in Hm as (Hm & Ht & Ha). split; [done|]. unfold by_range in Ht.
      apply andb_true_iff in Ht as [_ Ht].
      destruct (episodeRange (SafeName m)) as [[[season from] to]|] eqn:Er; [|done]. bools. subst season.
      eapply by_episode_range; [exact Er|lia|done].
    + apply by_filter in Hm as (Hm & Ht & Ha). split; [done|]. unfold by_absolute in Ht. bools.
      by apply by_absolute_episode.
    + apply (by_filter (fun media m => compactEpisodeMatches (SafeName m) media)) in Hm as (Hm & Ht & Ha).
      split; [done|]. by apply by_compact_episode.
    + apply numberedEpisodeMatches_elem in Hm as ([Hm Ha]%consistent_elem & He & Hl). split; [done|].
      apply by_numbered_episode; [done| |done]. etrans; [exact Hl|]. apply filter_filter_length.
    + apply by_filter in Hm as (Hm & Ht & Ha). split; [done|]. unfold by_title in Ht.
      rewrite !andb_true_iff, Nat.ltb_lt, !negb_true_iff in Ht. destruct Ht as [[[[Hl _] Hn] _] Hs].
      by apply by_episode_title.
  - unfold release_rule in Hr. destruct (ReleaseEpisode media) as [[season episode]|] eqn:Er;
      [|by apply elem_of_nil in Hr].
    destruct (packUsesArrNumbering members (MSeason media) season) eqn:Ep; [by apply elem_of_nil in Hr|].
    apply list_elem_of_singleton in Hr. simplify_eq. apply list_elem_of_filter in Hm as [Ht Hm].
    split; [done|]. unfold token_is in Ht.
    rewrite !andb_true_iff, no_range_spec, bool_decide_eq_true, negb_true_iff in Ht. destruct Ht as [[Hc Hn] Ht].
    pose proof (ReleaseEpisode_other_season _ _ _ Er) as [Hs _].
    apply (by_release_episode _ _ _ _ season episode); try done. by apply not_conflicting_agrees.
Qed.

(** A name that covers the whole target range. *)
Lemma covers_range_spec media m :
  covers_range media m = true ->
  contradictsRange (SafeName m) media = false
  /\ exists from to, episodeRange (SafeName m) = Some (MSeason media, from, to)
                    /\ from <= MEpisode media /\ EpisodeEnd media <= to.
Proof.
  unfold covers_range. intros Hc. bools. split; [done|].
  destruct (episodeRange (SafeName m)) as [[[season from] to]|]; [|done]. bools. subst season.
  exists from, to. split; [done|lia].
Qed.

Lemma Select_evidence manifest candidate media wantForced m :
  Select manifest candidate media wantForced = Ok m ->
  exists m1, m1 ∈ eligibleMembers (Members manifest) wantForced
    /\ m = with_rule (SelectionRule m) (SelectionEvidence m) m1
    /\ if IsEpisodeRange media then SelectionRule m = t "episode_range" /\ covers_range media m1 = true
       else identified (eligibleMembers (Members manifest) wantForced) candidate media m1 (SelectionRule m).
Proof.
  unfold Select. set (members := eligibleMembers (Members manifest) wantForced). intros Hok.
  assert ((if IsEpisodeRange media then selectRange manifest members media
           else first_rule manifest (select_rules members candidate media) (none_error manifest)) = Ok m) as Hr
    by by destruct members.
  clear Hok. destruct (IsEpisodeRange media).
  - unfold selectRange in Hr. apply first_rule_ok in Hr as (name & m1 & evidence & Hrule & ->).
    apply list_elem_of_singleton in Hrule. injection Hrule as -> Hf ->.
    assert (m1 ∈ [m1]) as Hm1 by left. rewrite Hf in Hm1. apply list_elem_of_filter in Hm1 as [Hc Hm1].
    by exists m1.
  - apply first_rule_ok in Hr as (name & m1 & evidence & Hrule & ->).
    pose proof (rule_identifies _ _ _ _ _ _ m1 Hrule ltac:(left)) as [Hm1 Hi].
    exists m1. split; [done|]. split; [done|]. exact Hi.
Qed.

(** C39. The strict selector picks a file of the archive that satisfies the
    forced policy, changing only its recorded rule and evidence, and only on
    evidence. For a multi-episode target the file names a range of the right
    season that covers every episode of it and nothing in the name lies
    outside. For one episode the rule recorded identifies it (a provider's
    reference, an episode token, a range, an absolute or compact number, a
    numbered set of at least three, the title, or the release's own number in
    a pack not numbered like the library) and every other number in its name
    agrees with that episode. *)
Theorem select_sound (manifest : Manifest) (candidate : Candidate) (media : Media) (wantForced : bool) (m : Member)
    (Hok : Select manifest candidate media wantForced = Ok m) :
  exists m0, m0 ∈ Members manifest /\ is_forced m0 = wantForced
    /\ m = with_rule (SelectionRule m) (SelectionEvidence m) (with_forced wantForced m0)
    /\ if IsEpisodeRange media
        then SelectionRule m = t "episode_range" /\ contradictsRange (SafeName m) media = false
             /\ exists from to, episodeRange (SafeName m) = Some (MSeason media, from, to)
                               /\ from <= MEpisode media /\ EpisodeEnd media <= to
        else identified (eligibleMembers (Members manifest) wantForced) candidate media m (SelectionRule m).
Proof.
  apply Select_evidence in Hok as (m1 & Hm1 & Em & Hev).
  apply eligibleMembers_elem in Hm1 as (m0 & Hm0 & Hforced & ->). exists m0. rewrite Em.
  split; [done|]. split; [done|]. split; [done|]. destruct (IsEpisodeRange media).
  - destruct Hev as [Hrule Hc]. split; [done|]. by apply covers_range_spec in Hc.
  - cbn [SelectionRule with_rule]. destruct Hev; by econstructor.
Qed.

(** For one episode the rules are tried in order and the first that matches
    any file decides: it selects the file when it matches exactly one, and
    refuses the archive when it matches several, even where a later rule would
    match one. Only an archive no rule matches is refused as unidentified. *)
Theorem select_strict (manifest : Manifest) (candidate : Candidate) (media : Media) (wantForced : bool)
    (Hone : IsEpisodeRange media = false)
    (Hsome : eligibleMembers (Members manifest) wantForced <> []) :
  let rules := select_rules (eligibleMembers (Members manifest) wantForced) candidate media in
  (forall m, Select manifest candidate media wantForced = Ok m <->
     exists pre name m0 evidence post, rules = pre ++ (name, [m0], evidence) :: post
       /\ Forall (fun r : rule => r.1.2 = []) pre /\ m = with_rule name evidence m0)
  /\ (forall e, Select manifest candidate media wantForced = Err e <->
     (Forall (fun r : rule => r.1.2 = []) rules /\ e = none_error manifest)
     \/ exists pre name found evidence post, rules = pre ++ (name, found, evidence) :: post
          /\ Forall (fun r : rule => r.1.2 = []) pre /\ (2 <= length found)%nat
          /\ e = selectionError manifest name (length found) (name ++ t " matched multiple members")).
Proof.
  intros rules.
  assert (Select manifest candidate media wantForced = first_rule manifest rules (none_error manifest)) as ->.
  { unfold Select. rewrite Hone. subst rules. by destruct (eligibleMembers _ _). }
  clearbody rules.
  assert (forall pre name found evidence post, rules = pre ++ (name, found, evidence) :: post ->
            Forall (fun r : rule => r.1.2 = []) pre -> found <> [] ->
            Some (first_rule manifest rules (none_error manifest)) = uniqueRule manifest found name evidence)
    as Hdec by (intros; subst; symmetry; by apply first_rule_decides).
  split.
  - intros m. split.
    + intros Hm. destruct (rules_split rules) as [Hall|(pre & name & found & evidence & post & E & Hpre & Hne)].
      { by rewrite first_rule_none in Hm. }
      pose proof (Hdec _ _ _ _ _ E Hpre Hne) as Hu. rewrite Hm in Hu.
      destruct found as [|m0 [|]]; simplify_eq/=. by exists pre, name, m0, evidence, post.
    + intros (pre & name & m0 & evidence & post & E & Hpre & ->).
      pose proof (Hdec _ _ _ _ _ E Hpre ltac:(done)) as Hu. by simplify_eq/=.
  - intros e. split.
    + intros He. destruct (rules_split rules) as [Hall|(pre & name & found & evidence & post & E & Hpre & Hne)].
      { rewrite first_rule_none in He by done. left. by simplify_eq. }
      pose proof (Hdec _ _ _ _ _ E Hpre Hne) as Hu. rewrite He in Hu. right.
      exists pre, name, found, evidence, post. destruct found as [|m0 [|m1 found]]; simplify_eq/=.
      split_and!; try done. lia.
    + intros [[Hall ->]|(pre & name & found & evidence & post & E & Hpre & Hl & ->)];
        [by apply first_rule_none|].
      destruct found as [|m0 [|m1 found]]; cbn [length] in Hl; [lia|lia|].
      pose proof (Hdec _ _ _ _ _ E Hpre ltac:(done)) as Hu. by simplify_eq/=.
Qed.

(** A subtitle published for one episode is taken either by the strict
    selector, never by the release's own numbering, or because it is the only
    file that satisfies the forced policy, the provider did not publish a pack
    and the file's name contradicts nothing: for a range target it does not
    contradict the range; for one episode the archive skipped no file and the
    name carries no episode evidence, valid or not, and no compact number of
    another episode. *)
Theorem select_single_sound (manifest : Manifest) (candidate : Candidate) (media : Media) (wantForced : bool)
    (m : Member) (Hok : SelectSingleEpisode manifest candidate media wantForced = Ok m) :
  SelectionRule m <> t "release_episode_token"
  /\ (Select manifest candidate media wantForced = Ok m
      \/ Pack candidate = None /\ exists m0,
          eligibleMembers (Members manifest) wantForced = [m0]
          /\ if IsEpisodeRange media
             then contradictsRange (SafeName m0) media = false
                  /\ m = with_rule (t "single_range")
                           (t "single subtitle member does not contradict the target episode range") m0
             else SkippedMembers manifest = 0 /\ hasInvalidOrAmbiguousRangeEvidence (SafeName m0) = false
                  /\ hasEpisodeEvidence (SafeName m0) = false
                  /\ compactNamesOtherEpisode (SafeName m0) media = false
                  /\ m = with_rule (t "single_generic")
                           (t "single subtitle member has no conflicting episode evidence") m0).
Proof.
  assert ((Select manifest candidate media wantForced = Ok m /\ SelectionRule m <> t "release_episode_token")
          \/ exists err, lone_member manifest candidate media wantForced err = Ok m) as [[Hs Hr]|[err Hl]].
  { unfold SelectSingleEpisode in Hok.
    destruct (Select manifest candidate media wantForced) as [m'|err]; [|by right; exists err].
    destruct (bool_decide _) eqn:E; [by right; eexists|]. left. simplify_eq. by bools. }
  { by split; [|left]. }
  unfold lone_member in Hl. destruct (Pack candidate); [done|].
  destruct (eligibleMembers (Members manifest) wantForced) as [|m0 [|]]; try done.
  destruct (IsEpisodeRange media).
  - destruct (contradictsRange (SafeName m0) media) eqn:Ec; [done|]. simplify_eq.
    split; [done|]. right. split; [done|]. by exists m0.
  - destruct (_ && _ && _ && _) eqn:Ec; [|done]. simplify_eq. bools.
    split; [done|]. right. split; [done|]. by exists m0.
Qed.
(** *** The numbering a pack uses *)

(** [m] names one episode, as a token outside any range. *)
Definition numbers (m : Member) (season episode : Z) : Prop :=
  episodeRange (SafeName m) = None /\ episodeToken (SafeName m) = Some (season, episode).

Definition last_episode (members : list Member) (season last0 last : Z) : Prop :=
  last0 <= last /\ (last = last0 \/ exists m, m ∈ members /\ numbers m season last)
  /\ forall m e, m ∈ members -> numbers m season e -> e <= last.

Lemma last_episode_other members m season last0 last :
  (forall e, ~ numbers m season e) -> last_episode members season last0 last ->
  last_episode (m :: members) season last0 last.
Proof.
  intros Hno (Hle & Hin & Hmax). split; [done|]. split.
  - destruct Hin as [|(m' & Hm' & Hn)]; [by left|]. right. exists m'. split; [by right|done].
  - intros m' e [->|Hm']%elem_of_cons Hn; [by apply Hno in Hn|by eapply Hmax].
Qed.

Lemma last_episode_here members m season e last0 last :
  numbers m season e -> last_episode members season (Z.max last0 e) last ->
  last_episode (m :: members) season last0 last.
Proof.
  intros Hn (Hle & Hin & Hmax). split; [lia|]. split.
  - destruct Hin as [->|(m' & Hm' & Hn')].
    + destruct (Z.max_spec last0 e) as [[_ ->]|[_ ->]]; [|by left]. right. exists m. split; [left|done].
    + right. exists m'. split; [by right|done].
  - intros m' e' [->|Hm']%elem_of_cons Hn'; [|by eapply Hmax].
    destruct Hn as [_ Hn], Hn' as [_ Hn']. assert (e' = e) by congruence. lia.
Qed.

Lemma numbering_fold members arr release r a :
  arr <> release ->
  let '(r', a') := fold_left (fun '(releaseLast, arrLast) m =>
      if negb (no_range (SafeName m)) then (releaseLast, arrLast)
      else match episodeToken (SafeName m) with
           | None => (releaseLast, arrLast)
           | Some (season, episode) =>
               if (season =? release) && (releaseLast <? episode) then (episode, arrLast)
               else if (season =? arr) && (arrLast <? episode) then (releaseLast, episode)
               else (releaseLast, arrLast)
           end) members (r, a) in
  last_episode members release r r' /\ last_episode members arr a a'.
Proof.
  intros Hne. revert r a. induction members as [|m members IH]; intros r a; cbn [fold_left].
  { split; (split; [lia|]); (split; [by left|]); intros ? ? ?%elem_of_nil; done. }
  assert (forall s, (episodeRange (SafeName m) <> None \/ episodeToken (SafeName m) = None
                     \/ exists s' e', episodeToken (SafeName m) = Some (s', e') /\ s' <> s) ->
            forall e, ~ numbers m s e) as Hno by (unfold numbers; naive_solver).
  destruct (no_range (SafeName m)) eqn:En; cbn [negb].
  2: { specialize (IH r a). case_match; destruct_and!.
       assert (episodeRange (SafeName m) <> None) by (rewrite <- no_range_spec; congruence).
       split; (apply last_episode_other; [|done]); apply Hno; by left. }
  apply no_range_spec in En. destruct (episodeToken (SafeName m)) as [[s e]|] eqn:Et.
  2: { specialize (IH r a). case_match; destruct_and!.
       split; (apply last_episode_other; [|done]); apply Hno; right; by left. }
  destruct (decide (s = release)) as [->|Hsr].
  - rewrite Z.eqb_refl, (proj2 (Z.eqb_neq release arr)) by done. cbn [andb].
    specialize (IH (Z.max r e) a).
    assert ((if r <? e then (e, a) else (r, a)) = (Z.max r e, a)) as ->
      by (destruct (Z.ltb_spec r e); f_equal; lia).
    case_match; destruct_and!. split.
    + by apply (last_episode_here _ _ _ e).
    + apply last_episode_other; [|done]. apply Hno. right; right. exists release, e. by split.
  - rewrite (proj2 (Z.eqb_neq s release)) by done. cbn [andb].
    destruct (decide (s = arr)) as [->|Hsa].
    + rewrite Z.eqb_refl. cbn [andb]. specialize (IH r (Z.max a e)).
      assert ((if a <? e then (r, e) else (r, a)) = (r, Z.max a e)) as ->
        by (destruct (Z.ltb_spec a e); f_equal; lia).
      case_match; destruct_and!. split.
      * apply last_episode_other; [|done]. apply Hno. right; right. by exists arr, e.
      * by apply (last_episode_here _ _ _ e).
    + rewrite (proj2 (Z.eqb_neq s arr)) by done. cbn [andb]. specialize (IH r a).
      case_match; destruct_and!.
      split; (apply last_episode_other; [|done]); apply Hno; right; right; by exists s, e.
Qed.

(** A pack is taken to be numbered the way the library numbers the show
    exactly when some file names an episode of the library's season higher
    than every episode of the release's season any file names; the release's
    own number is then not used. *)
Theorem pack_numbering_spec (members : list Member) (arrSeason releaseSeason : Z)
    (Hne : arrSeason <> releaseSeason) :
  packUsesArrNumbering members arrSeason releaseSeason = true <->
  exists m e, m ∈ members /\ numbers m arrSeason e /\ 0 < e
    /\ forall m' e', m' ∈ members -> numbers m' releaseSeason e' -> e' < e.
Proof.
  unfold packUsesArrNumbering. pose proof (numbering_fold members arrSeason releaseSeason 0 0 Hne) as Hf.
  cbv zeta in Hf. destruct (fold_left _ members (0, 0)) as [r a].
  destruct Hf as [(Hr0 & Hr & Hrmax) (Ha0 & Ha & Hamax)]. rewrite Z.ltb_lt. split.
  - intros Hlt. destruct Ha as [->|(m & Hm & Hn)]; [lia|].
    exists m, a. split; [done|]. split; [done|]. split; [lia|].
    intros m' e' Hm' Hn'. pose proof (Hrmax m' e' Hm' Hn'). lia.
  - intros (m & e & Hm & Hn & He & Hall). pose proof (Hamax m e Hm Hn).
    destruct Hr as [->|(m' & Hm' & Hn')]; [lia|]. pose proof (Hall m' r Hm' Hn'). lia.
Qed.

(** *** The season a runtime pack is cached for *)

Lemma token_season_sound name tokens season s :
  token_season name tokens season = Some s ->
  (season = 0 \/ s = season)
  /\ Forall (fun m => completeRangeToken name (s_start m) (s_end m) = true
                      /\ exists e, token_alone name m = (s, e) /\ 0 < s /\ 0 < e) tokens.
Proof.
  revert season. induction tokens as [|m tokens IH]; intros season Hs; cbn [token_season] in Hs.
  { simplify_eq. by split; [right|constructor]. }
  destruct (completeRangeToken name (s_start m) (s_end m)) eqn:Ec; cbn [negb] in Hs; [|done].
  destruct (token_alone name m) as [s' e] eqn:Et. destruct (_ || _ || _) eqn:E; [done|].
  apply IH in Hs as [Hs Hall]. bools. destruct Hs as [-> | ->]; [lia|]. split.
  - apply andb_false_iff in H1 as [H1|H1]; bools; [by left|by right].
  - constructor; [|done]. split; [done|]. by exists e.
Qed.

Lemma members_season_sound members season s :
  members_season members season = Some s ->
  (season = 0 \/ s = season)
  /\ Forall (fun m => hasInvalidOrAmbiguousRangeEvidence (SafeName m) = false
        /\ Forall (fun tok => completeRangeToken (SafeName m) (s_start tok) (s_end tok) = true
              /\ exists e, token_alone (SafeName m) tok = (s, e) /\ 0 < s /\ 0 < e)
             (find_all episodeTokenPattern (SafeName m))) members.
Proof.
  revert season. induction members as [|m members IH]; intros season Hs; cbn [members_season] in Hs.
  { simplify_eq. by split; [right|constructor]. }
  destruct (hasInvalidOrAmbiguousRangeEvidence (SafeName m)) eqn:Ei; [done|].
  destruct (token_season _ _ season) as [season'|] eqn:Et; [|done].
  apply token_season_sound in Et as [Hs' Htok]. apply IH in Hs as [Hs Hall].
  destruct (decide (season' = 0)) as [->|Hne].
  - split; [destruct Hs' as [Hs'|Hs']; by left|]. constructor; [|done]. split; [done|].
    eapply Forall_impl; [exact Htok|]. intros tok (Hc & e & He & H0 & _). lia.
  - destruct Hs as [-> | ->]; [done|]. split; [done|]. by constructor.
Qed.
(** A runtime pack is cached for a season only when its candidate is not an
    exact-hash match and every file agrees: no name holds an invalid range,
    every episode token in every name is complete and of that positive season,
    and so is the season the candidate states, if any. *)
Theorem runtime_season_agreed (manifest : Manifest) (season : Z)
    (Hs : RuntimeCacheSeason manifest = Some season) :
  0 < season /\ ExactHash (ManCandidate manifest) = false
  /\ (CSeason (ManCandidate manifest) = 0 \/ CSeason (ManCandidate manifest) = season)
  /\ forall m, m ∈ Members manifest ->
       hasInvalidOrAmbiguousRangeEvidence (SafeName m) = false
       /\ forall tok, tok ∈ find_all episodeTokenPattern (SafeName m) ->
            completeRangeToken (SafeName m) (s_start tok) (s_end tok) = true
            /\ exists episode, token_alone (SafeName m) tok = (season, episode) /\ 0 < episode.
Proof.
  unfold RuntimeCacheSeason in Hs. destruct (ExactHash (ManCandidate manifest)); [done|].
  cbn [orb] in Hs. destruct (_ && _); [done|]. destruct (CSeason _ <? 0); [done|].
  destruct (members_season _ _) as [s|] eqn:E; [|done]. destruct (Z.ltb_spec 0 s); [|done].
  simplify_eq. apply members_season_sound in E as [Hc Hall]. split; [done|]. split; [done|]. split.
  { by destruct Hc; [left|right]. }
  intros m Hm. rewrite Forall_forall in Hall. destruct (Hall m Hm) as [Hi Htok]. split; [done|].
  intros tok Hin. rewrite Forall_forall in Htok. destruct (Htok tok Hin) as (Hcomp & e & He & _ & H0').
  split; [done|]. by exists e.
Qed.
End select_lemmas.

(** ** Concrete archives *)

Definition sample_candidate (title : text) (season : Z) : Candidate :=
  {| ProviderID := t "os"; ResultID := t "1"; CLanguage := t "en"; Kind := MediaEpisode; CTitle := title;
     CAlternateTitles := []; EvidenceVersion := []; CYear := 2010; CSeason := season; CEpisode := 0;
     CAbsoluteEpisode := 0; CExternalIDs := mkExternalIDs [] 0 0; ReleaseNames := []; ReleaseGroups := [];
     Resolutions := []; ExactHash := false; Forced := false; HearingImpaired := false; Rating := 0%Q;
     Popularity := 0%Q; DownloadCount := 0; DownloadRef := []; DownloadVersion := []; Pack := None;
     ReleaseNumbered := false |}.

Definition sample_member (name checksum : text) : Member :=
  {| SafeName := name; NormalizedPath := name; Checksum := checksum; ByteSize := 100; MemSeason := 0;
     MemFrom := 0; MemTo := 0; MemAbsoluteFrom := 0; MemAbsoluteTo := 0;
     NormalizedTitle := filenameTitle name (t "Show"); MemForced := false; SelectionRule := [];
     SelectionEvidence := [] |}.

Definition sample_archive (names : list text) : Manifest :=
  {| RuntimePack := true; ManProviderID := t "os"; ManResultID := t "1"; ManLanguage := t "en";
     ManChecksum := t "c"; ArchiveType := t "zip"; ManCandidate := sample_candidate (t "Show") 1;
     Members := (fun name => sample_member name name) <$> names; SkippedMembers := 0 |}.

Definition sample_names : list text := map t ["Show.S01E04.srt"; "Show.S01E05.srt"; "Show.S01E06.srt"]%string.

Definition sample_selected : Member :=
  with_rule (t "episode_token") (t "filename identifies S01E05")
    (sample_member (t "Show.S01E05.srt") (t "Show.S01E05.srt")).

Example sample_select :
  Select (sample_archive sample_names) (sample_candidate (t "Show") 1) (sample_episode 1 5 0) false
  = Ok sample_selected.
Proof. by vm_compute. Qed.

Lemma select_sound_witness :
  identified (eligibleMembers (Members (sample_archive sample_names)) false)
    (sample_candidate (t "Show") 1) (sample_episode 1 5 0) sample_selected (t "episode_token").
Proof.
  destruct (select_sound _ _ _ _ _ sample_select) as (m0 & _ & _ & _ & H). exact H.
Defined.

Definition ambiguous_archive : Manifest := sample_archive (sample_names ++ [t "Show.S01E05.v2.srt"]).

Lemma select_strict_witness :
  IsEpisodeRange (sample_episode 1 5 0) = false
  /\ Select ambiguous_archive (sample_candidate (t "Show") 1) (sample_episode 1 5 0) false
     = Err (selectionError ambiguous_archive (t "episode_token") 2
              (t "episode_token" ++ t " matched multiple members")).
Proof.
  split; [done|].
  assert (eligibleMembers (Members ambiguous_archive) false <> []) as Hne by by vm_compute.
  apply (proj2 (select_strict _ (sample_candidate (t "Show") 1) (sample_episode 1 5 0) false eq_refl Hne)).
  right. exists [], (t "episode_token"),
    (map (fun name => sample_member name name) [t "Show.S01E05.srt"; t "Show.S01E05.v2.srt"]),
    (t "filename identifies S01E05"). eexists.
  split; [vm_compute; reflexivity|]. split; [constructor|]. split; [vm_compute; lia|]. reflexivity.
Defined.

Definition sample_lone : Member := sample_member (t "subtitle.srt") (t "subtitle.srt").

Lemma select_single_sound_witness :
  SelectSingleEpisode (sample_archive [t "subtitle.srt"]) (sample_candidate (t "Show") 1) (sample_episode 1 5 0) false
  = Ok (with_rule (t "single_generic") (t "single subtitle member has no conflicting episode evidence") sample_lone)
  /\ SelectionRule (with_rule (t "single_generic")
       (t "single subtitle member has no conflicting episode evidence") sample_lone) <> t "release_episode_token".
Proof.
  assert (SelectSingleEpisode (sample_archive [t "subtitle.srt"]) (sample_candidate (t "Show") 1)
    (sample_episode 1 5 0) false
    = Ok (with_rule (t "single_generic") (t "single subtitle member has no conflicting episode evidence") sample_lone))
    as Hs by by vm_compute.
  split; [exact Hs|]. exact (proj1 (select_single_sound _ _ _ _ _ Hs)).
Defined.

Lemma pack_numbering_spec_witness :
  exists m e, m ∈ Members (sample_archive [t "Show.S02E01.srt"; t "Show.S01E09.srt"])
    /\ numbers m 1 e /\ 0 < e
    /\ forall m' e', m' ∈ Members (sample_archive [t "Show.S02E01.srt"; t "Show.S01E09.srt"]) ->
         numbers m' 2 e' -> e' < e.
Proof.
  apply (proj1 (pack_numbering_spec (Members (sample_archive [t "Show.S02E01.srt"; t "Show.S01E09.srt"])) 1 2
    ltac:(lia))). by vm_compute.
Defined.

Lemma runtime_season_agreed_witness :
  RuntimeCacheSeason (sample_archive sample_names) = Some 1
  /\ forall m, m ∈ Members (sample_archive sample_names) ->
       hasInvalidOrAmbiguousRangeEvidence (SafeName m) = false.
Proof.
  assert (RuntimeCacheSeason (sample_archive sample_names) = Some 1) as Hs by by vm_compute.
  split; [exact Hs|]. intros m Hm.
  exact (proj1 (proj2 (proj2 (proj2 (runtime_season_agreed _ _ Hs))) m Hm)).
Defined.
