(* ===== verification/PackVersions.v ===== *)
(** * Versions of one subtitle (src/internal/pack/alternatives.go, movie_versions.go)

    When an archive holds several versions of the target episode or movie,
    these functions return the versions timing may rank. *)
From S2P Require Import Prelude GoText Regex Domain MatchRelease MatchScore PackEvidence PackSelect.

#[local] Open Scope Z_scope.

Definition maxEpisodeVersions : nat := 3.

(** Keep the first member of every known checksum; members without one stay. *)
Fixpoint distinct_checksums (seen : list text) (members : list Member) : list Member :=
  match members with
  | [] => []
  | m :: members =>
      if negb (bool_decide (Checksum m = [])) && bool_decide (Checksum m ∈ seen)
      then distinct_checksums seen members
      else m :: distinct_checksums (Checksum m :: seen) members
  end.

Definition by_name (a b : Member) : bool := text_lt (SafeName a) (SafeName b).

Section versions.
Context `{Unicode} `{NameParser}.

(** The rules whose several matches are versions of one episode. *)
Definition version_rule (rule : text) : bool :=
  bool_decide (rule = t "episode_token") || bool_decide (rule = t "compact_episode")
  || bool_decide (rule = t "release_episode_token").

(** The members the selector picks by [rule] when alone in the archive. *)
Definition alone_matches (manifest : Manifest) (candidate : Candidate) (media : Media) (wantForced : bool)
    (rule : text) : list Member :=
  omap (fun m =>
    match Select (with_members [m] manifest) candidate media wantForced with
    | Ok selected => if bool_decide (SelectionRule selected = rule) then Some selected else None
    | Err _ => None
    end) (Members manifest).

Definition by_affinity (media : Media) (a b : Member) : bool :=
  ReleaseAffinity media (SafeName b) <? ReleaseAffinity media (SafeName a).

(** Split by the [tried] callback, whose error stops the loop. *)
Fixpoint split_tried (tried : Member -> result SelectError bool) (members : list Member)
    : result SelectError (list Member * list Member) :=
  match members with
  | [] => Ok ([], [])
  | m :: members =>
      let! b := tried m in
      let! (untried, rejected) := split_tried tried members in
      Ok (if b then (untried, m :: rejected) else (m :: untried, rejected))
  end.

(** [slices.SortFunc] orders by name; members of equal names may come out in
    either order, the model keeps theirs. *)
Definition SelectUntriedAlternatives (manifest : Manifest) (candidate : Candidate) (media : Media)
    (wantForced : bool) (tried : option (Member -> result SelectError bool))
    : result SelectError (list Member * bool) :=
  match Select manifest candidate media wantForced with
  | Ok m => Ok ([m], false)
  | Err (SelectionError reason rule archive count matching as err) =>
      if ExactHash candidate || negb (version_rule rule) then Err err
      else
        let found := distinct_checksums [] (alone_matches manifest candidate media wantForced rule) in
        if bool_decide (found = []) then Err err
        else
          let found := stable_sort by_name found in
          if (length found <=? maxEpisodeVersions)%nat then Ok (found, false)
          else
            let found := stable_sort (by_affinity media) found in
            let! (untried, rejected) :=
              match tried with
              | None => Ok (found, [])
              | Some tried => split_tried tried found
              end in
            Ok (take maxEpisodeVersions (untried ++ rejected), (maxEpisodeVersions <? length untried)%nat)
  | Err err => Err err
  end.

(** The members [SelectUntriedAlternatives] asks its callback about, in
    order. *)
Definition asked_versions (manifest : Manifest) (candidate : Candidate) (media : Media) (wantForced : bool)
    : list Member :=
  match Select manifest candidate media wantForced with
  | Err (SelectionError _ rule _ _ _) =>
      if ExactHash candidate || negb (version_rule rule) then []
      else
        let found := stable_sort by_name (distinct_checksums [] (alone_matches manifest candidate media wantForced rule)) in
        if (length found <=? maxEpisodeVersions)%nat then [] else stable_sort (by_affinity media) found
  | _ => []
  end.

Lemma split_tried_ext (f g : Member -> result SelectError bool) members :
  (forall m, m ∈ members -> f m = g m) -> split_tried f members = split_tried g members.
Proof using.
  induction members as [|m members IH]; intros Hfg; [done|]. cbn [split_tried].
  rewrite (Hfg m) by (by left). destruct (g m); [|done]. cbn [rbind]. rewrite IH; [done|].
  intros y Hy. apply Hfg. by right.
Qed.

(** The callback matters on [asked_versions] only. *)
Lemma untried_asks_only manifest candidate media wantForced f g :
  (forall m, m ∈ asked_versions manifest candidate media wantForced -> f m = g m) ->
  SelectUntriedAlternatives manifest candidate media wantForced (Some f)
  = SelectUntriedAlternatives manifest candidate media wantForced (Some g).
Proof.
  unfold asked_versions, SelectUntriedAlternatives. destruct (Select _ _ _ _) as [m|[]]; [done| |done].
  destruct (_ || _); [done|]. cbv zeta. destruct (bool_decide _); [done|].
  destruct (_ <=? _)%nat; [done|]. intros Hfg. by rewrite (split_tried_ext f g).
Qed.

Definition SelectAlternatives (manifest : Manifest) (candidate : Candidate) (media : Media)
    (wantForced : bool) : result SelectError (list Member) :=
  let! (members, _) := SelectUntriedAlternatives manifest candidate media wantForced None in Ok members.

(** ** Movies *)

Definition extraWords : list text :=
  map t ["commentary"; "trailer"; "featurette"; "featurettes"; "extras"; "bonus"; "short"; "shorts"]%string.

Definition languageWords : list (text * Language) :=
  map (fun kv => (t (fst kv), t (snd kv)))
    [("en", "en"); ("eng", "en"); ("english", "en"); ("hr", "hr"); ("hrv", "hr"); ("cro", "hr");
     ("croatian", "hr"); ("hrvatski", "hr"); ("sr", "sr"); ("srp", "sr"); ("serbian", "sr");
     ("srpski", "sr"); ("bs", "bs"); ("bos", "bs"); ("bosnian", "bs")]%string.

Definition letter_words (s : text) : list text := fields_func (fun r => negb (is_letter r)) s.
Definition nameWords (name : text) : list text := letter_words (to_lower name).

Definition isExtra (name : text) (titleWords : list text) : bool :=
  existsb (fun word => bool_decide (word ∈ extraWords) && negb (bool_decide (word ∈ titleWords)))
    (nameWords name).

(** The first word that tags a language: not a title word, and a two-letter
    code only in capitals or last. *)
Fixpoint tag_of (words titleWords : list text) : option Language :=
  match words with
  | [] => None
  | word :: words =>
      let lower := to_lower word in
      match assoc lower languageWords with
      | None => tag_of words titleWords
      | Some language =>
          if bool_decide (lower ∈ titleWords) then tag_of words titleWords
          else if (length word =? 2)%nat && negb (bool_decide (word = to_upper word))
                  && negb (bool_decide (words = []))
          then tag_of words titleWords
          else Some language
      end
  end.
Definition languageTag (name : text) (titleWords : list text) : option Language :=
  tag_of (letter_words (trim_suffix (path_ext name) name)) titleWords.

Definition preferWhere (members : list Member) (keep : Member -> bool) : list Member :=
  match filter (fun m => keep m = true) members with [] => members | kept => kept end.

(** The members left after bonus material and other languages are set aside. *)
Definition preferred_members (members : list Member) (candidate : Candidate) : list Member :=
  let titleWords := nameWords (CTitle candidate) in
  let tag m := languageTag (SafeName m) titleWords in
  let members := preferWhere members (fun m => negb (isExtra (SafeName m) titleWords)) in
  let members := preferWhere members (fun m => bool_decide (tag m = Some (CLanguage candidate))) in
  preferWhere members (fun m => match tag m with
                                | None => true
                                | Some language => bool_decide (language = CLanguage candidate)
                                end).

Definition SelectMovieAlternatives (manifest : Manifest) (candidate : Candidate) (wantForced : bool)
    : result SelectError (list Member) :=
  let members := eligibleMembers (Members manifest) wantForced in
  if (Forced candidate && negb wantForced) || bool_decide (members = []) then
    Err (selectionError manifest (t "forced_policy") 0 (t "no members satisfy the forced-subtitle policy"))
  else
    let unique := distinct_checksums [] (preferred_members members candidate) in
    let refuse reason := Err (selectionError manifest (t "single_movie") (length unique) (t reason)) in
    if existsb (fun m => IsMultiDisc (SafeName m)) unique then refuse "movie subtitle is split across discs"%string
    else if ExactHash candidate && (1 <? length unique)%nat then
      refuse "movie candidate must contain exactly one eligible subtitle member"%string
    else
      match unique with
      | [m] => Ok [with_rule (t "single_movie") (t "single movie subtitle member satisfies subtitle policy") m]
      | _ =>
          if (length unique <=? 3)%nat then
            Ok (with_rule (t "movie_versions")
                  (t "one of up to three movie subtitle versions, ranked by timing")
                <$> stable_sort by_name unique)
          else refuse "movie candidate has more subtitle versions than can be ranked"%string
      end.
End versions.

(** ** Checksums *)

Definition known_checksums (members : list Member) : list text :=
  filter (fun c => c <> []) (Checksum <$> members).

Lemma distinct_checksums_spec seen members :
  NoDup (known_checksums (distinct_checksums seen members))
  /\ forall m, m ∈ distinct_checksums seen members -> m ∈ members /\ (Checksum m <> [] -> Checksum m ∉ seen).
Proof.
  revert seen. induction members as [|m members IH]; intros seen; cbn [distinct_checksums].
  { split; [constructor|]. by intros ? ?%elem_of_nil. }
  destruct (_ && _) eqn:E.
  - destruct (IH seen) as [Hnd Hin]. split; [done|]. intros x Hx.
    destruct (Hin x Hx). split; [by right|done].
  - destruct (IH (Checksum m :: seen)) as [Hnd Hin]. split.
    + unfold known_checksums in *. rewrite fmap_cons, filter_cons.
      destruct (decide (Checksum m <> [])) as [Hc|]; [|done]. constructor; [|done].
      rewrite list_elem_of_filter, list_elem_of_fmap. intros [_ (x & Ex & Hx)].
      destruct (Hin x Hx) as [_ Hns]. rewrite <- Ex in Hns. apply Hns; [done|left].
    + intros x [->|Hx]%elem_of_cons.
      * split; [left|]. intros Hc. apply andb_false_iff in E as [E|E]; bools; [|done]. by destruct (Checksum m).
      * destruct (Hin x Hx) as [Hm Hns]. split; [by right|]. intros Hc Hs. apply (Hns Hc). by right.
Qed.

Lemma distinct_checksums_ne members : members <> [] -> distinct_checksums [] members <> [].
Proof.
  destruct members as [|m members]; [done|]. intros _. cbn [distinct_checksums].
  rewrite (bool_decide_eq_false_2 (Checksum m ∈ [])) by (by intros ?%elem_of_nil). by rewrite andb_false_r.
Qed.

#[global] Instance known_checksums_proper : Proper (Permutation ==> Permutation) known_checksums.
Proof. intros l1 l2 E. unfold known_checksums. by rewrite E. Qed.

Lemma known_checksums_app l1 l2 : known_checksums (l1 ++ l2) = known_checksums l1 ++ known_checksums l2.
Proof. unfold known_checksums. by rewrite fmap_app, filter_app. Qed.

Lemma known_checksums_take n l : NoDup (known_checksums l) -> NoDup (known_checksums (take n l)).
Proof. rewrite <- (take_drop n l) at 1. rewrite known_checksums_app. by intros [? _]%NoDup_app. Qed.

(** ** Splitting by attempts *)

(** The callback answered [b]. *)
Definition answered (b : bool) (r : result SelectError bool) : bool :=
  match r with Ok b' => Bool.eqb b b' | Err _ => false end.

Lemma split_tried_ok (tried : Member -> result SelectError bool) members untried rejected :
  split_tried tried members = Ok (untried, rejected) ->
  untried = filter (fun m => answered false (tried m) = true) members
  /\ rejected = filter (fun m => answered true (tried m) = true) members
  /\ forall m, m ∈ members -> m ∈ untried \/ m ∈ rejected.
Proof.
  revert untried rejected. induction members as [|m members IH]; intros untried rejected; cbn [split_tried].
  { intros [= <- <-]. split_and!; [done|done|]. intros m Hm. by apply elem_of_nil in Hm. }
  intros Hr. apply rbind_ok in Hr as (b & Hb & Hr). apply rbind_ok in Hr as ([u r] & Hur & Hr).
  destruct (IH u r Hur) as (Hu & Hr' & Hall). rewrite !filter_cons, <- Hu, <- Hr'.
  rewrite Hb. destruct b; simplify_eq; cbn [answered Bool.eqb]; (split; [done|]); (split; [done|]);
    intros x [->|Hx]%elem_of_cons; try destruct (Hall x Hx); rewrite ?elem_of_cons; tauto.
Qed.

Lemma sorted_take_drop {A} (R : A -> A -> Prop) n l x y :
  StronglySorted R l -> x ∈ take n l -> y ∈ drop n l -> R x y.
Proof.
  revert n. induction l as [|z l IH]; intros n Hs Hx Hy.
  { rewrite take_nil in Hx. by apply elem_of_nil in Hx. }
  apply StronglySorted_inv in Hs as [Hs Hz]. destruct n as [|n]; [by apply elem_of_nil in Hx|].
  cbn [take drop] in Hx, Hy. apply elem_of_cons in Hx as [->|Hx]; [|by eapply IH].
  rewrite Forall_forall in Hz. apply Hz. rewrite <- (take_drop n l). apply elem_of_app. by right.
Qed.

Lemma sorted_filter {A} (R : A -> A -> Prop) (P : A -> Prop) `{!forall x, Decision (P x)} l :
  StronglySorted R l -> StronglySorted R (filter P l).
Proof.
  induction 1 as [|x l Hl IH Hx]; [constructor|]. rewrite filter_cons. case_decide; [|done].
  constructor; [done|]. rewrite Forall_forall in *. intros y [_ Hy]%list_elem_of_filter. by apply Hx.
Qed.

(** The first [n] of two lists in turn. *)
Lemma take_two {A} n (l1 l2 : list A) x :
  x ∈ take n (l1 ++ l2) <-> x ∈ take n l1 \/ x ∈ take (n - length l1) l2.
Proof. by rewrite take_app, elem_of_app. Qed.

Lemma take_all_elem {A} n (l : list A) x : x ∈ l -> x ∉ take n l -> x ∈ drop n l /\ (n < length l)%nat.
Proof.
  intros Hx Hn. destruct (decide (n < length l)%nat).
  - rewrite <- (take_drop n l) in Hx. apply elem_of_app in Hx as [Hx|Hx]; [done|by split].
  - rewrite take_ge in Hn by lia. done.
Qed.

Section version_lemmas.
Context `{Unicode} `{NameParser}.

(** The versions of the episode: the distinct members the selector picks by
    [rule] when each is alone. *)
Definition versions_of (manifest : Manifest) (candidate : Candidate) (media : Media) (wantForced : bool)
    (rule : text) : list Member :=
  distinct_checksums [] (alone_matches manifest candidate media wantForced rule).

Lemma alone_matches_elem manifest candidate media wantForced rule x :
  x ∈ alone_matches manifest candidate media wantForced rule ->
  SelectionRule x = rule
  /\ exists m, m ∈ Members manifest /\ Select (with_members [m] manifest) candidate media wantForced = Ok x.
Proof.
  unfold alone_matches. rewrite list_elem_of_omap. intros (m & Hm & Hx).
  destruct (Select (with_members [m] manifest) candidate media wantForced) as [s|] eqn:Es; [|done].
  destruct (bool_decide _) eqn:E; [|done]. simplify_eq. apply bool_decide_eq_true in E.
  split; [done|]. by exists m.
Qed.

Lemma versions_of_spec manifest candidate media wantForced rule :
  NoDup (known_checksums (versions_of manifest candidate media wantForced rule))
  /\ forall x, x ∈ versions_of manifest candidate media wantForced rule ->
       SelectionRule x = rule
       /\ exists m, m ∈ Members manifest /\ Select (with_members [m] manifest) candidate media wantForced = Ok x.
Proof.
  destruct (distinct_checksums_spec [] (alone_matches manifest candidate media wantForced rule)) as [Hnd Hin].
  split; [done|]. intros x Hx. apply (alone_matches_elem _ candidate). by apply Hin.
Qed.

(** The result is read off the versions. *)
Lemma alternatives_shape manifest candidate media wantForced tried ms more :
  SelectUntriedAlternatives manifest candidate media wantForced tried = Ok (ms, more) ->
  (exists m, Select manifest candidate media wantForced = Ok m /\ ms = [m] /\ more = false)
  \/ exists reason rule archive count matching,
      Select manifest candidate media wantForced = Err (SelectionError reason rule archive count matching)
      /\ ExactHash candidate = false /\ version_rule rule = true
      /\ let found := versions_of manifest candidate media wantForced rule in
         found <> []
         /\ ((length found <= maxEpisodeVersions)%nat /\ ms = stable_sort by_name found /\ more = false
             \/ (maxEpisodeVersions < length found)%nat
                /\ exists untried rejected,
                   ms = take maxEpisodeVersions (untried ++ rejected)
                   /\ more = (maxEpisodeVersions <? length untried)%nat
                   /\ match tried with
                      | None => untried = stable_sort (by_affinity media) (stable_sort by_name found) /\ rejected = []
                      | Some tried => split_tried tried (stable_sort (by_affinity media) (stable_sort by_name found))
                                      = Ok (untried, rejected)
                      end).
Proof.
  unfold SelectUntriedAlternatives.
  destruct (Select manifest candidate media wantForced) as [m|[reason rule archive count matching|]] eqn:Es.
  - intros [= <- <-]. left. by exists m.
  - destruct (ExactHash candidate) eqn:Eh; [done|]. destruct (version_rule rule) eqn:Er; [|done].
    cbn [negb orb]. fold (versions_of manifest candidate media wantForced rule).
    set (found := versions_of manifest candidate media wantForced rule).
    destruct (bool_decide (found = [])) eqn:Ef; [done|]. apply bool_decide_eq_false in Ef. cbv zeta.
    rewrite stable_sort_length. intros Hok. right. exists reason, rule, archive, count, matching.
    split; [done|]. split; [done|]. split; [done|]. fold found. split; [done|].
    destruct (Nat.leb_spec (length found) maxEpisodeVersions) as [Hle|Hgt].
    + left. by simplify_eq.
    + right. split; [done|]. apply rbind_ok in Hok as ([untried rejected] & Ht & Hok).
      injection Hok as <- <-. exists untried, rejected. split; [done|]. split; [done|].
      destruct tried as [tried|]; [done|]. by simplify_eq.
  - done.
Qed.

Lemma sorted_versions_perm media (found : list Member) :
  stable_sort (by_affinity media) (stable_sort by_name found) ≡ₚ found.
Proof. by rewrite !stable_sort_perm. Qed.

Lemma split_perm tried (l untried rejected : list Member) :
  split_tried tried l = Ok (untried, rejected) -> untried ++ rejected ≡ₚ l.
Proof.
  revert untried rejected. induction l as [|m l IH]; intros untried rejected; cbn [split_tried].
  { by intros [= <- <-]. }
  intros Hr. apply rbind_ok in Hr as (b & Hb & Hr). apply rbind_ok in Hr as ([u r] & Hur & Hr).
  pose proof (IH u r Hur) as Hp. destruct b; simplify_eq; [by rewrite <- Permutation_middle, Hp|].
  cbn [app]. by rewrite Hp.
Qed.
Lemma take_versions manifest candidate media wantForced rule n (l : list Member) :
  l ≡ₚ versions_of manifest candidate media wantForced rule ->
  NoDup (known_checksums (take n l))
  /\ forall x, x ∈ take n l ->
       SelectionRule x = rule
       /\ exists m, m ∈ Members manifest /\ Select (with_members [m] manifest) candidate media wantForced = Ok x.
Proof.
  intros Hp. destruct (versions_of_spec manifest candidate media wantForced rule) as [Hnd Hin]. split.
  - apply known_checksums_take. by rewrite Hp.
  - intros x Hx. apply Hin. rewrite <- Hp, <- (take_drop n l). apply elem_of_app. by left.
Qed.

(** The versions handed to the timing stage are at least one and at most
    three. One is the strict selector's own choice. Otherwise the candidate is
    not an exact-hash match, the selector found several files by one of the
    rules that versions may share, and every version is a file of the archive
    that the same rule selects when the file is alone; no two have the same
    checksum. *)
Theorem alternatives_sound (manifest : Manifest) (candidate : Candidate) (media : Media) (wantForced : bool)
    (tried : option (Member -> result SelectError bool)) (ms : list Member) (more : bool)
    (Hok : SelectUntriedAlternatives manifest candidate media wantForced tried = Ok (ms, more)) :
  (1 <= length ms <= 3)%nat
  /\ NoDup (known_checksums ms)
  /\ ((exists m, Select manifest candidate media wantForced = Ok m /\ ms = [m])
      \/ ExactHash candidate = false /\ exists rule, version_rule rule = true
         /\ (exists reason archive count matching,
              Select manifest candidate media wantForced = Err (SelectionError reason rule archive count matching))
         /\ forall x, x ∈ ms -> SelectionRule x = rule
              /\ exists m, m ∈ Members manifest
                   /\ Select (with_members [m] manifest) candidate media wantForced = Ok x).
Proof.
  apply alternatives_shape in Hok as [(m & Hm & -> & ->)|(reason & rule & archive & count & matching & Hs & Hh & Hr & Hok)].
  { split; [cbn; lia|]. split; [|by left; exists m].
    unfold known_checksums. cbn [fmap list_fmap]. rewrite filter_cons.
    case_decide; repeat constructor; by intros ?%elem_of_nil. }
  cbv zeta in Hok. destruct Hok as [Hne Hok].
  assert (exists l, ms = take maxEpisodeVersions l
            /\ l ≡ₚ versions_of manifest candidate media wantForced rule) as (l & -> & Hp).
  { destruct Hok as [(Hle & -> & ->)|(Hgt & untried & rejected & -> & -> & Ht)].
    - exists (stable_sort by_name (versions_of manifest candidate media wantForced rule)).
      split; [|apply stable_sort_perm]. rewrite take_ge; [done|by rewrite stable_sort_length].
    - exists (untried ++ rejected). split; [done|].
      etrans; [|apply (sorted_versions_perm media)]. destruct tried as [tried|]; [by eapply split_perm|].
      destruct Ht as [-> ->]. by rewrite app_nil_r. }
  destruct (take_versions _ _ _ _ _ maxEpisodeVersions _ Hp) as [Hnd Hin].
  split.
  { rewrite length_take, Hp. unfold maxEpisodeVersions.
    destruct (versions_of manifest candidate media wantForced rule); [done|]. cbn [length]. lia. }
  split; [done|]. right. split; [done|]. exists rule. split; [done|]. split; [by eexists _, _, _, _|done].
Qed.

Lemma by_affinity_asym media x y : by_affinity media x y = true -> by_affinity media y x = false.
Proof. unfold by_affinity. rewrite Z.ltb_lt, Z.ltb_ge. lia. Qed.

Lemma by_affinity_trans media x y z :
  not_after (by_affinity media) x y -> not_after (by_affinity media) y z -> not_after (by_affinity media) x z.
Proof. unfold not_after, by_affinity. rewrite !Z.ltb_ge. lia. Qed.

Lemma filter_top_affinity media (P : Member -> Prop) `{!forall m, Decision (P m)} n (l : list Member) x y :
  x ∈ take n (filter P (stable_sort (by_affinity media) l)) -> y ∈ l -> P y ->
  y ∉ take n (filter P (stable_sort (by_affinity media) l)) ->
  ReleaseAffinity media (SafeName y) <= ReleaseAffinity media (SafeName x).
Proof.
  intros Hx Hy HPy Hny.
  pose proof (stable_sort_sorted (by_affinity media) (by_affinity_asym media) (by_affinity_trans media) l) as Hs.
  apply (sorted_filter _ P) in Hs.
  assert (y ∈ filter P (stable_sort (by_affinity media) l)) as Hyf.
  { apply list_elem_of_filter. split; [done|]. by rewrite stable_sort_perm. }
  destruct (take_all_elem n _ y Hyf Hny) as [Hd _].
  pose proof (sorted_take_drop _ _ _ _ _ Hs Hx Hd) as Hxy.
  unfold not_after, by_affinity in Hxy. by apply Z.ltb_ge in Hxy.
Qed.

(** When an ambiguous archive holds more than three versions, a version
    already rejected never takes the place of one not tried yet, the flag
    reports exactly whether more than three are untried, and among
    versions of one kind those closest to the media's release are kept. *)
Theorem alternatives_prefer_untried (manifest : Manifest) (candidate : Candidate) (media : Media)
    (wantForced : bool) (tried : Member -> result SelectError bool) (rejected : Member -> bool)
    (reason rule archive : text) (count matching : nat) (ms : list Member) (more : bool)
    (Hambiguous : Select manifest candidate media wantForced = Err (SelectionError reason rule archive count matching))
    (Htried : forall m, tried m = Ok (rejected m))
    (Hmany : (3 < length (versions_of manifest candidate media wantForced rule))%nat)
    (Hok : SelectUntriedAlternatives manifest candidate media wantForced (Some tried) = Ok (ms, more)) :
  let versions := versions_of manifest candidate media wantForced rule in
  length ms = 3%nat
  /\ (more = true <-> (3 < length (filter (fun m => rejected m = false) versions))%nat)
  /\ (forall x y, x ∈ ms -> rejected x = true -> y ∈ versions -> rejected y = false -> y ∈ ms)
  /\ (forall x y, x ∈ ms -> y ∈ versions -> y ∉ ms -> rejected x = rejected y ->
        ReleaseAffinity media (SafeName y) <= ReleaseAffinity media (SafeName x)).
Proof.
  intros versions.
  apply alternatives_shape in Hok as [(m & Hm & _)|(reason' & rule' & archive' & count' & matching' & Hs & _ & _ & Hok)];
    [by rewrite Hambiguous in Hm|].
  rewrite Hambiguous in Hs. injection Hs as <- <- <- <- <-. cbv zeta in Hok. fold versions in Hok, Hmany.
  clearbody versions.
  destruct Hok as [_ [(Hle & _)|(_ & untried & rejs & -> & -> & Ht)]]; [unfold maxEpisodeVersions in Hle; lia|].
  set (sorted := stable_sort (by_affinity media) (stable_sort by_name versions)) in *.
  pose proof (sorted_versions_perm media versions) as Hp. fold sorted in Hp.
  pose proof (split_perm _ _ _ _ Ht) as Hsp.
  apply split_tried_ok in Ht as (Hu & Hr & _).
  assert (untried = filter (fun m => rejected m = false) sorted) as Hu'.
  { rewrite Hu. apply list_filter_iff. intros m. rewrite Htried. by destruct (rejected m). }
  assert (rejs = filter (fun m => rejected m = true) sorted) as Hr'.
  { rewrite Hr. apply list_filter_iff. intros m. rewrite Htried. by destruct (rejected m). }
  clear Hu Hr. unfold maxEpisodeVersions in *.
  assert (forall y, y ∈ versions -> rejected y = false -> y ∈ untried) as Hin_u.
  { intros y Hy Hf. rewrite Hu', list_elem_of_filter, Hp. done. }
  assert (forall y, y ∈ versions -> rejected y = true -> y ∈ rejs) as Hin_r.
  { intros y Hy Hf. rewrite Hr', list_elem_of_filter, Hp. done. }
  assert (forall x, x ∈ untried -> rejected x = false) as Hfalse
    by (intros x; rewrite Hu', list_elem_of_filter; tauto).
  assert (forall x, x ∈ rejs -> rejected x = true) as Htrue
    by (intros x; rewrite Hr', list_elem_of_filter; tauto).
  assert (forall (x : Member) n l, x ∈ take n l -> x ∈ l) as Htake
    by (intros x n l Hx; rewrite <- (take_drop n l), elem_of_app; by left).
  split_and!.
  - rewrite length_take, Hsp, Hp. lia.
  - rewrite Nat.ltb_lt. by rewrite Hu', Hp.
  - intros x y Hx Hrx Hy Hry. apply take_two. left. apply take_two in Hx as [Hx|Hx].
    { apply Htake, Hfalse in Hx. congruence. }
    rewrite take_ge; [by apply Hin_u|]. destruct (decide (length untried <= 3)%nat) as [|Hgt]; [done|].
    replace (3 - length untried)%nat with 0%nat in Hx by lia. by apply elem_of_nil in Hx.
  - intros x y Hx Hy Hny Heq. rewrite take_two in Hx, Hny. destruct Hx as [Hx|Hx].
    + assert (rejected y = false) as Hry by (rewrite <- Heq; apply Hfalse; by eapply Htake).
      subst untried sorted. eapply filter_top_affinity; [exact Hx|by rewrite stable_sort_perm|done|tauto].
    + assert (rejected y = true) as Hry by (rewrite <- Heq; apply Htrue; by eapply Htake).
      subst rejs sorted. eapply filter_top_affinity; [exact Hx|by rewrite stable_sort_perm|done|tauto].
Qed.
(** *** Movies *)

Lemma preferWhere_elem members keep x :
  x ∈ preferWhere members keep ->
  x ∈ members /\ forall y, y ∈ members -> keep y = true -> keep x = true.
Proof.
  unfold preferWhere. destruct (filter (fun m => keep m = true) members) as [|k kept] eqn:E.
  - intros Hx. split; [done|]. intros y Hy Hk.
    assert (y ∈ filter (fun m => keep m = true) members) as Hin by by apply list_elem_of_filter.
    rewrite E in Hin. by apply elem_of_nil in Hin.
  - rewrite <- E, list_elem_of_filter. by intros [Hk Hx].
Qed.

Lemma preferWhere_keeps members keep y :
  y ∈ members -> keep y = true -> y ∈ preferWhere members keep.
Proof.
  intros Hy Hk. unfold preferWhere.
  assert (y ∈ filter (fun m => keep m = true) members) as Hin by by apply list_elem_of_filter.
  destruct (filter (fun m => keep m = true) members) eqn:E; [by apply elem_of_nil in Hin|done].
Qed.

Lemma preferWhere_ne members keep : members <> [] -> preferWhere members keep <> [].
Proof. unfold preferWhere. by destruct (filter (fun m => keep m = true) members). Qed.

Definition tag_in (candidate : Candidate) (m : Member) : option Language :=
  languageTag (SafeName m) (nameWords (CTitle candidate)).
Definition extra_in (candidate : Candidate) (m : Member) : bool :=
  isExtra (SafeName m) (nameWords (CTitle candidate)).

(** [x] may stand for the movie among [members]: bonus material and other
    languages only when nothing else remains. *)
Definition preferred (candidate : Candidate) (members : list Member) (x : Member) : Prop :=
  (forall y, y ∈ members -> extra_in candidate y = false -> extra_in candidate x = false)
  /\ (forall y, y ∈ members -> extra_in candidate y = false ->
        tag_in candidate y = Some (CLanguage candidate) -> tag_in candidate x = Some (CLanguage candidate))
  /\ (forall y, y ∈ members -> extra_in candidate y = false -> tag_in candidate y = None ->
        tag_in candidate x = None \/ tag_in candidate x = Some (CLanguage candidate)).

Lemma preferred_members_spec members candidate x :
  x ∈ preferred_members members candidate -> x ∈ members /\ preferred candidate members x.
Proof.
  unfold preferred_members. cbv zeta. intros Hx.
  apply preferWhere_elem in Hx as [Hx3 H3]. pose proof Hx3 as Hx2.
  apply preferWhere_elem in Hx2 as [Hx2 H2]. pose proof Hx2 as Hx1.
  apply preferWhere_elem in Hx1 as [Hx1 H1']. split; [done|]. unfold preferred, tag_in, extra_in. split_and!.
  - intros y Hy He. apply negb_true_iff, (H1' y); [done|]. by apply negb_true_iff.
  - intros y Hy He Ht. apply (bool_decide_eq_true (languageTag (SafeName x) _ = _)), (H2 y).
    + apply preferWhere_keeps; [done|]. by apply negb_true_iff.
    + by apply bool_decide_eq_true.
  - intros y Hy He Ht.
    destruct (languageTag (SafeName x) (nameWords (CTitle candidate))) as [l|] eqn:El; [|by left]. right.
    assert (y ∈ preferWhere members (fun m => negb (isExtra (SafeName m) (nameWords (CTitle candidate))))) as Hy1
      by (apply preferWhere_keeps; [done|by apply negb_true_iff]).
    destruct (decide (l = CLanguage candidate)) as [->|Hl]; [done|exfalso].
    assert (y ∈ preferWhere (preferWhere members
        (fun m => negb (isExtra (SafeName m) (nameWords (CTitle candidate)))))
        (fun m => bool_decide (languageTag (SafeName m) (nameWords (CTitle candidate))
                               = Some (CLanguage candidate)))) as Hy2.
    { unfold preferWhere at 1. destruct (filter _ _) as [|k kept] eqn:E; [done|exfalso].
      assert (k ∈ k :: kept) as Hk by left. rewrite <- E in Hk. apply list_elem_of_filter in Hk as [Hk Hk1].
      pose proof (H2 k Hk1 Hk) as Hx'. apply bool_decide_eq_true in Hx'. congruence. }
    pose proof (H3 y Hy2) as Hx'. cbv beta in Hx'. rewrite Ht in Hx'. specialize (Hx' eq_refl).
    by apply bool_decide_eq_true in Hx'.
Qed.
Lemma known_checksums_with_rule rule evidence members :
  known_checksums (with_rule rule evidence <$> members) = known_checksums members.
Proof. unfold known_checksums. by rewrite <- list_fmap_compose. Qed.

Lemma movie_versions_shape manifest candidate wantForced ms :
  SelectMovieAlternatives manifest candidate wantForced = Ok ms ->
  let unique := distinct_checksums [] (preferred_members (eligibleMembers (Members manifest) wantForced) candidate) in
  (Forced candidate = true -> wantForced = true)
  /\ existsb (fun m => IsMultiDisc (SafeName m)) unique = false
  /\ (ExactHash candidate = true -> length unique = 1%nat) /\ (1 <= length unique <= 3)%nat
  /\ exists rule evidence l, ms = with_rule rule evidence <$> l /\ l ≡ₚ unique
       /\ (rule = t "single_movie" \/ rule = t "movie_versions").
Proof.
  unfold SelectMovieAlternatives. set (members := eligibleMembers _ _). cbv zeta.
  destruct (_ || bool_decide (members = [])) eqn:E0; [done|]. apply orb_false_iff in E0 as [E0 E1].
  assert (distinct_checksums [] (preferred_members members candidate) <> []) as Hne.
  { apply distinct_checksums_ne. unfold preferred_members. apply bool_decide_eq_false in E1.
    by repeat apply preferWhere_ne. }
  set (unique := distinct_checksums _ _) in *.
  destruct (existsb _ unique) eqn:Ed; [done|]. destruct (_ && (1 <? _)%nat) eqn:Eh; [done|].
  intros Hok. split; [by intros Hf; rewrite Hf in E0; destruct wantForced|]. split; [done|].
  assert (length unique <> 0)%nat as Hl by by destruct unique.
  split.
  { intros Hh. rewrite Hh in Eh. cbn [andb] in Eh. apply Nat.ltb_ge in Eh. lia. }
  clearbody unique. destruct unique as [|m [|m' unique]]; [done| |].
  - injection Hok as <-. split; [cbn; lia|]. eexists _, _, [m].
    split; [reflexivity|]. split; [done|by left].
  - destruct (Nat.leb_spec (length (m :: m' :: unique)) 3) as [Hle|]; [|done]. split; [cbn [length] in *; lia|].
    injection Hok as <-. eexists _, _, (stable_sort by_name (m :: m' :: unique)).
    split; [reflexivity|]. split; [apply stable_sort_perm|by right].
Qed.

(** The versions of a movie are one to three files of the archive that
    satisfy the forced policy, changed only in their recorded rule; no two have
    the same checksum and none is one disc of several; an exact-hash match has
    a single version and a forced candidate is refused unless forced subtitles
    are wanted. Bonus material and files tagged with another language are
    among them only when the archive holds nothing else. *)
Theorem movie_versions_sound (manifest : Manifest) (candidate : Candidate) (wantForced : bool) (ms : list Member)
    (Hok : SelectMovieAlternatives manifest candidate wantForced = Ok ms) :
  (1 <= length ms <= 3)%nat
  /\ (ExactHash candidate = true -> length ms = 1%nat)
  /\ (Forced candidate = true -> wantForced = true)
  /\ NoDup (known_checksums ms)
  /\ forall x, x ∈ ms ->
       IsMultiDisc (SafeName x) = false
       /\ preferred candidate (eligibleMembers (Members manifest) wantForced) x
       /\ exists m, m ∈ Members manifest /\ is_forced m = wantForced
            /\ x = with_rule (SelectionRule x) (SelectionEvidence x) (with_forced wantForced m).
Proof.
  apply movie_versions_shape in Hok as (Hf & Hdisc & Hhash & Hlen & rule & evidence & l & -> & Hl & _).
  destruct (distinct_checksums_spec [] (preferred_members (eligibleMembers (Members manifest) wantForced) candidate))
    as [Hnd Hin].
  rewrite length_fmap, Hl, known_checksums_with_rule. split_and!; try done; try lia; try (by rewrite Hl).
  intros x (u & -> & Hu)%list_elem_of_fmap. rewrite Hl in Hu.
  pose proof (existsb_not_in _ _ _ Hdisc Hu) as Hd. split; [done|].
  destruct (Hin u Hu) as [Hp _]. apply preferred_members_spec in Hp as [He Hp]. split; [exact Hp|].
  apply eligibleMembers_elem in He as (m & Hm & Hforced & ->). by exists m.
Qed.
End version_lemmas.

(** ** Concrete archives *)

#[local] Instance no_parser : NameParser := fun _ => None.

Definition versions_archive : Manifest :=
  sample_archive (map t ["Show.S01E05.WEB-DL.srt"; "Show.S01E05.BluRay.srt"; "Show.S01E05.HDTV.srt";
                         "Show.S01E05.DVDRip.srt"; "Show.S01E06.srt"]%string).
Definition bluray_tried (m : Member) : bool := bool_decide (SafeName m = t "Show.S01E05.BluRay.srt").

Lemma alternatives_sound_witness :
  exists ms more, SelectUntriedAlternatives versions_archive (sample_candidate (t "Show") 1)
                    (sample_episode 1 5 0) false None = Ok (ms, more)
  /\ (1 <= length ms <= 3)%nat.
Proof.
  destruct (SelectUntriedAlternatives versions_archive (sample_candidate (t "Show") 1)
    (sample_episode 1 5 0) false None) as [[ms more]|e] eqn:E; [|vm_compute in E; discriminate].
  exists ms, more. split; [reflexivity|]. exact (proj1 (alternatives_sound _ _ _ _ _ _ _ E)).
Defined.

Lemma alternatives_prefer_untried_witness :
  exists ms more, SelectUntriedAlternatives versions_archive (sample_candidate (t "Show") 1)
                    (sample_episode 1 5 0) false (Some (fun m => Ok (bluray_tried m))) = Ok (ms, more)
  /\ length ms = 3%nat.
Proof.
  destruct (SelectUntriedAlternatives versions_archive (sample_candidate (t "Show") 1)
    (sample_episode 1 5 0) false (Some (fun m => Ok (bluray_tried m)))) as [[ms more]|e] eqn:E;
    [|vm_compute in E; discriminate].
  exists ms, more. split; [reflexivity|].
  refine (proj1 (alternatives_prefer_untried versions_archive (sample_candidate (t "Show") 1)
    (sample_episode 1 5 0) false _ bluray_tried (t "episode_token matched multiple members") (t "episode_token")
    (t "zip") 5 4 ms more _ (fun m => eq_refl) _ E)).
  - vm_compute. reflexivity.
  - vm_compute. lia.
Defined.

Definition movie_archive : Manifest :=
  sample_archive (map t ["Movie.2010.en.srt"; "Movie.2010.commentary.srt"; "Movie.2010.hr.srt"]%string).

Lemma movie_versions_sound_witness :
  exists x, SelectMovieAlternatives movie_archive (sample_candidate (t "Movie") 0) false = Ok [x]
  /\ SafeName x = t "Movie.2010.en.srt" /\ IsMultiDisc (SafeName x) = false.
Proof.
  destruct (SelectMovieAlternatives movie_archive (sample_candidate (t "Movie") 0) false) as [[|x [|]]|e] eqn:E;
    try (vm_compute in E; discriminate).
  exists x. split; [reflexivity|]. split.
  - vm_compute in E. injection E as <-. reflexivity.
  - exact (proj1 (proj2 (proj2 (proj2 (proj2 (movie_versions_sound _ _ _ _ E)))) x ltac:(left))).
Defined.
