(* ===== verification/Workflow.v ===== *)
(** * Workflow state and the upgrade policy (src/internal/workflow)

    The request, result and installation records of the workflow service, its
    error values, and the decisions about an installed subtitle: whether a
    candidate replaces it and when it is next checked (upgrade.go,
    provider_tiers.go). *)
From S2P Require Import ProviderGate Prelude GoText GoFloat Domain MatchRelease MatchScore SearchQueue Schedule.

#[local] Open Scope Z_scope.

(** ** Data *)

(** What decoding the stored [ScoreJSON] gives: nothing stored (or an empty
    object), undecodable bytes, or a score. *)
Inductive ScoreJSON :=
| NoScoreJSON
| BadScoreJSON
| ScoreIs (s : Score).

Record Installation := mkInstallation {
  IFallback : bool;
  IMediaID : Z;
  ILanguage : Language;
  IPath : text;
  IChecksum : text;
  IProviderID : text;
  ICandidateID : text;
  ICandidateSignature : text;
  IArtifactChecksum : text;
  IScoreJSON : ScoreJSON;
  ISyncResultJSON : text;
  IRollbackPath : text;
  IMediaPath : text;
  IMediaFileID : Z;
  IMediaSize : Z;
  IMediaModTimeNS : Z;
  IPendingInstallID : Z;
  IInstalledAt : instant;
}.

Definition no_installation : Installation :=
  mkInstallation false 0 [] [] [] [] [] [] [] NoScoreJSON [] [] [] 0 0 0 0 zero_time.

Record RemovalRequest := mkRemoval {
  VInstallation : Installation;
  VMedia : Media;
  VManual : bool;
  VReason : text;
}.

(** What settling a record against the current media file did. *)
Record Reconciliation := mkReconciliation {
  Changed : bool;
  RemovedSidecar : bool;
  Deferred : bool;
  DeferredUntil : instant;
}.

Inductive WorkflowOutcome :=
| OutcomeUnset
| OutcomeSatisfied
| OutcomeInstalled
| OutcomeNoResult
| OutcomeRejected
| OutcomeThrottled
| OutcomeRemoved.

#[export] Instance WorkflowOutcome_eq_dec : EqDecision WorkflowOutcome.
Proof. solve_decision. Defined.

(** A download that delivered the provider's own message ([ProviderResponseError]
    in provider_response.go), and the kind of pause a refusal records, [None]
    when it names none. *)
Record ProviderResponse := mkResponse {
  RsReason : text;
  RsRefusal : bool;
  RsLimit : bool;
  RsCooldown : option CooldownKind;
}.

(** The error values the workflow tells apart by [errors.As] or a type
    assertion; [JoinE] is [errors.Join] and [WrapE] any other error that wraps
    one. A [ProviderResponseError] is a shared object a later refusal writes to,
    so it is a reference, see Refusals.v. *)
Inductive WorkflowError :=
| CooldownE (reset : instant)
| QuotaE (reset : instant)
| DisabledE
| AvailabilityE
| SearchPersistenceE
| MediaUnavailableE (missing : bool)
| JobTimedOutE
| CanceledE
| ScoreDecodeE
| InvalidResumeE
| OtherE (message : text)
| ExhaustedE (e : WorkflowError)
| WrapE (e : WorkflowError)
| JoinE (es : list WorkflowError)
| VerdictE (verdict : text)
| TooFewCuesE
| InvalidOutputE
| NoSpeechE
| ProcessExitE (code : Z) (stdoutEmpty stderrEmpty : bool)
| TimeoutE
| ProbeTimedOutE
| ManagedChangedE
| SelectionE (rule : text)
| ContentE
| SubtitleE (code : text)
| ResponseE (ref : nat) (m : ProviderResponse).

Record WorkflowDecision := mkDecision {
  DStage : text;
  DProviderID : text;
  DResultID : text;
  DReason : text;
  DReasonCode : text;
}.

Record Result := mkResult {
  ROutcome : WorkflowOutcome;
  RCandidate : Candidate;
  RScore : Score;
  RInstallation : Installation;
  RRetryAt : instant;
  RNextUpgrade : instant;
  RDecisions : list WorkflowDecision;
  RProviderErrors : gmap text WorkflowError;
  RResumeProviders : list text;
  RResumeRouteSignature : text;
  RRemovedAfter : WorkflowOutcome;
  RRemovalDeferred : bool;
  RcleanEmptyProviders : list text;
  RupgradeRecovery : bool;
  RretainedInstallation : bool;
}.

Record Request := mkRequest {
  QMediaID : Z;
  QMedia : Media;
  QLanguage : Language;
  QManual : bool;
  QUpgradeAttempt : Z;
  QResumeProviders : list text;
  QResumeRouteSignature : text;
  QReplaceInstalled : bool;
}.

(** The service's settings, one clock reading and one random unit. [None] is a
    nil [preferredProviderOrder]. *)
Record Service := mkService {
  ProviderOrder : list text;
  FallbackProviderOrder : list text;
  preferredProviderOrder : option (list text);
  hasFallbackSearcher : bool;
  MinimumUpgradeDelta : Z;
  MaxUpgradeChecks : Z;
  SAgedAfter : duration;
  SNow : instant;
  SRandomUnit : float64;
}.

Definition with_next_upgrade (next : instant) (recovery : bool) (r : Result) : Result :=
  {| ROutcome := ROutcome r; RCandidate := RCandidate r; RScore := RScore r;
     RInstallation := RInstallation r; RRetryAt := RRetryAt r; RNextUpgrade := next;
     RDecisions := RDecisions r; RProviderErrors := RProviderErrors r;
     RResumeProviders := RResumeProviders r; RResumeRouteSignature := RResumeRouteSignature r;
     RRemovedAfter := RRemovedAfter r; RRemovalDeferred := RRemovalDeferred r;
     RcleanEmptyProviders := RcleanEmptyProviders r; RupgradeRecovery := recovery;
     RretainedInstallation := RretainedInstallation r |}.

(** ** Upgrade decisions *)

Definition DefaultMinimumUpgradeDelta : Z := 10.

Definition zero_score : Score := mkScore 0 [] [].

Definition exact_contribution (s : Score) : bool :=
  existsb (fun c => bool_decide (Signal c = t "exact_hash") && (Points c =? 100)) (Contributions s).

Definition installedScore (i : Installation) : result WorkflowError (Score * bool) :=
  match IScoreJSON i with
  | NoScoreJSON => Ok (zero_score, false)
  | BadScoreJSON => Err ScoreDecodeE
  | ScoreIs s => Ok (s, exact_contribution s)
  end.

Definition ShouldUpgrade (existing : Installation) (candidate : Score) (candidateExact : bool)
    (minimumDelta : Z) : result WorkflowError bool :=
  let minimumDelta := if minimumDelta <=? 0 then DefaultMinimumUpgradeDelta else minimumDelta in
  let! (current, exact) := installedScore existing in
  if exact then Ok false
  else if candidateExact then Ok true
  else Ok (Total current + minimumDelta <=? Total candidate).

Definition InstallationMatchesMedia (i : Installation) (media : Media) : bool :=
  let f := Fingerprint media in
  bool_decide (path_clean (IMediaPath i) = path_clean (FpPath f))
  && (IMediaFileID i =? FpFileID f) && (IMediaSize i =? FpSize f)
  && (IMediaModTimeNS i =? FpModTime f).

Definition ShouldUpgradeForMedia (existing : Installation) (media : Media) (candidate : Score)
    (candidateExact : bool) (minimumDelta : Z) : result WorkflowError bool :=
  if negb (InstallationMatchesMedia existing media) then Ok true
  else ShouldUpgrade existing candidate candidateExact minimumDelta.

Definition day : duration := 24 * hour.

Definition NextUpgradeAt (now : instant) (score : Score) (exact : bool) : instant :=
  if exact then zero_time
  else if 85 <=? Total score then now + 90 * day
  else if 60 <=? Total score then now + 30 * day
  else now + 7 * day.

Section service.
Context (s : Service).

Definition isFallbackProvider (id : text) : bool := bool_decide (id ∈ FallbackProviderOrder s).

Definition nextUpgradeAt (now : instant) (score : Score) (candidate : Candidate) : instant :=
  if isFallbackProvider (ProviderID candidate) then now + 7 * day
  else NextUpgradeAt now score (ExactHash candidate).

Definition shouldUpgrade (existing : Installation) (media : Media) (candidate : Candidate) (score : Score)
    : result WorkflowError bool :=
  if negb (InstallationMatchesMedia existing media) then Ok true
  else
    let preferred := match preferredProviderOrder s with None => ProviderOrder s | Some l => l end in
    if isFallbackProvider (IProviderID existing) && bool_decide (ProviderID candidate ∈ preferred) then Ok true
    else if bool_decide (IProviderID existing ∈ preferred) && isFallbackProvider (ProviderID candidate) then Ok false
    else ShouldUpgrade existing score (ExactHash candidate) (MinimumUpgradeDelta s).

Definition cacheProviderAllowed (id : text) : bool :=
  if (length (FallbackProviderOrder s) =? 0)%nat then true else bool_decide (id ∈ ProviderOrder s).

(** ** When to check next *)

Definition recentFallbackChecks : Z := 4.

Definition recentRelease (releasedAt at_ : instant) : bool :=
  (0 <? SAgedAfter s) && negb (is_zero releasedAt) && negb (is_zero at_)
  && negb (at_ <? releasedAt) && (time_sub at_ releasedAt <? SAgedAfter s).

Definition randomUnit : float64 :=
  let unit := if flt 1 (SRandomUnit s) then 1%Q else SRandomUnit s in
  if flt unit 0 then 0%Q else unit.

(** Each step of the loop over 14, 30, 60 and 90 days. *)
Definition lengthen (acc : duration * Z) (days : Z) : duration * Z :=
  let '(base, attempt) := acc in
  let delay := days * day in
  if (0 <? attempt) && (base <? delay) then (delay, attempt - 1) else (base, attempt).

Definition upgrade_base (base : duration) (attempt : Z) : duration :=
  fst (fold_left lengthen [14; 30; 60; 90] (base, attempt)).

(** [time.Duration(float64(base)*0.1*(2*unit-1))], without fused
    multiply-add. *)
Definition upgrade_jitter (base : duration) : duration :=
  trunc (fmul (fmul (of_int base) (round (1 # 10))) (fsub (fmul 2 randomUnit) 1)).

Definition scheduleUpgrade (r : Result) (attempt : Z) (releasedAt installedAt : instant) : Result :=
  if is_zero (RNextUpgrade r) then r
  else
    let now := SNow s in
    let base := time_sub (nextUpgradeAt now (RScore r) (RCandidate r)) now in
    let attempt := if bool_decide (ROutcome r = OutcomeSatisfied) then attempt else 0 in
    let fallback := isFallbackProvider (ProviderID (RCandidate r)) in
    if fallback && recentRelease releasedAt now && (attempt <? recentFallbackChecks) then
      let next := now + MissingDelay (attempt + 1) randomUnit in
      if negb (RupgradeRecovery r) || (next <? RNextUpgrade r)
      then with_next_upgrade next (RupgradeRecovery r) r else r
    else if RupgradeRecovery r then r
    else
      let attempt := if fallback && recentRelease releasedAt installedAt
                     then Z.max 0 (attempt - recentFallbackChecks) else attempt in
      if (0 <? MaxUpgradeChecks s) && (MaxUpgradeChecks s <=? attempt) && negb fallback
      then with_next_upgrade zero_time (RupgradeRecovery r) r
      else
        let base := upgrade_base base attempt in
        with_next_upgrade (now + (base + upgrade_jitter base)) (RupgradeRecovery r) r.
End service.

(** ** Upgrades strictly improve *)

Section upgrades.
Context `{Unicode} `{LanguageTags} `{NameParser}.
Context (s : Service) (media : Media).

Definition preferred_of : list text :=
  match preferredProviderOrder s with None => ProviderOrder s | Some l => l end.

(** With two tiers, 2 for a preferred provider, 1 for a fallback and 0 for one
    no longer configured; with one tier all are alike. *)
Definition tier (id : text) : Z :=
  if (length (FallbackProviderOrder s) =? 0)%nat then 0
  else if bool_decide (id ∈ FallbackProviderOrder s) then 1
  else if bool_decide (id ∈ preferred_of) then 2 else 0.

(** A provider some tier searches. *)
Definition configured (id : text) : Prop :=
  FallbackProviderOrder s = [] \/ id ∈ FallbackProviderOrder s \/ id ∈ preferred_of.

Definition score_rank (j : ScoreJSON) : Z :=
  match j with
  | ScoreIs sc => if exact_contribution sc then 101 else Total sc
  | _ => 0
  end.

(** A stored total, as [Evaluate] gives it. *)
Definition stored_ok (i : Installation) : Prop :=
  match IScoreJSON i with ScoreIs sc => 0 <= Total sc <= 100 | _ => True end.

Definition rank (i : Installation) : Z := 102 * tier (IProviderID i) + score_rank (IScoreJSON i).

(** A score of a candidate, as the evaluations give it. *)
Definition score_ok (c : Candidate) (sc : Score) : Prop :=
  0 <= Total sc <= 100 /\ (RejectedReasons sc = [] -> exact_contribution sc = ExactHash c).

Lemma evaluate_score_ok c language selected : score_ok c (evaluate media c language selected).
Proof.
  unfold score_ok, evaluate. destruct (bool_decide (identityRejections _ _ _ _ _ = [])) eqn:E; cbn [negb].
  - destruct (ExactHash c); [by split; [cbn; lia|]|].
    destruct (evidence_points media c (candidateReleases c) selected) as [Hp _].
    cbv zeta. split; [cbn [Total]; case_match; lia|done].
  - apply bool_decide_eq_false in E. cbn [RejectedReasons Total]. split; [lia|]. by destruct (identityRejections _ _ _ _ _).
Qed.

Lemma tier_bounds id : 0 <= tier id <= 2.
Proof. unfold tier. repeat case_match; lia. Qed.

Lemma score_rank_bounds i : stored_ok i -> 0 <= score_rank (IScoreJSON i) <= 101.
Proof. unfold stored_ok, score_rank. intros Hi. repeat case_match; lia. Qed.

Lemma rank_bounds i : stored_ok i -> 0 <= rank i <= 305.
Proof.
  intros Hi. unfold rank. pose proof (score_rank_bounds i Hi). pose proof (tier_bounds (IProviderID i)). lia.
Qed.

(** Inside a tier: an exact match over a nonexact one, or a better score. *)
Lemma ShouldUpgrade_improves i sc exact minimum :
  stored_ok i -> 0 <= Total sc <= 100 -> ShouldUpgrade i sc exact minimum = Ok true ->
  score_rank (IScoreJSON i) < if exact then 101 else Total sc.
Proof.
  unfold ShouldUpgrade, installedScore, stored_ok, DefaultMinimumUpgradeDelta. intros Hi Hsc.
  destruct (IScoreJSON i) as [| |sc0]; cbn [rbind score_rank]; [|done|].
  - destruct exact; [lia|]. intros [= Hle%Z.leb_le]. cbn [zero_score Total] in Hle. revert Hle. case_match; bools; lia.
  - destruct (exact_contribution sc0); [done|]. destruct exact; [lia|].
    intros [= Hle%Z.leb_le]. revert Hle. case_match; bools; lia.
Qed.

(** What the policy prefers for the same file has a higher rank. *)
Lemma upgrade_raises_rank i i' c sc :
  (forall id, id ∈ preferred_of -> id ∈ FallbackProviderOrder s -> False) -> stored_ok i ->
  InstallationMatchesMedia i media = true -> score_ok c sc -> RejectedReasons sc = [] -> configured (ProviderID c) ->
  shouldUpgrade s i media c sc = Ok true ->
  IProviderID i' = ProviderID c -> IScoreJSON i' = ScoreIs sc -> rank i < rank i'.
Proof.
  intros Hdisj Hi Hm [Hsc Hx] Hr Hc Hu Hp Hs. specialize (Hx Hr). pose proof (score_rank_bounds _ Hi).
  assert (stored_ok i') as Hi' by (unfold stored_ok; by rewrite Hs). pose proof (score_rank_bounds _ Hi').
  assert (ShouldUpgrade i sc (ExactHash c) (MinimumUpgradeDelta s) = Ok true ->
          score_rank (IScoreJSON i) < score_rank (IScoreJSON i')) as Hscore.
  { intros Hsu. rewrite Hs. cbn [score_rank]. rewrite Hx. by eapply ShouldUpgrade_improves. }
  unfold shouldUpgrade in Hu. rewrite Hm in Hu. cbn [negb] in Hu. fold preferred_of in Hu.
  unfold rank. rewrite Hp. clear Hs. unfold isFallbackProvider, tier, configured in *.
  destruct (FallbackProviderOrder s) as [|first rest] eqn:Ef.
  { cbn [length Nat.eqb]. rewrite !bool_decide_eq_false_2 in Hu by apply not_elem_of_nil.
    rewrite andb_false_r in Hu. specialize (Hscore Hu). lia. }
  cbn [length Nat.eqb]. rewrite <- Ef in *.
  destruct (bool_decide_reflect (IProviderID i ∈ FallbackProviderOrder s)) as [HiF|HiF];
    destruct (bool_decide_reflect (IProviderID i ∈ preferred_of)) as [HiP|HiP];
    destruct (bool_decide_reflect (ProviderID c ∈ FallbackProviderOrder s)) as [HcF|HcF];
    destruct (bool_decide_reflect (ProviderID c ∈ preferred_of)) as [HcP|HcP];
    cbn [andb] in Hu; try (exfalso; exact (Hdisj _ HiP HiF)); try (exfalso; exact (Hdisj _ HcP HcF)); try done;
    try (specialize (Hscore Hu)); try lia;
    destruct Hc as [Hc|[Hc|Hc]]; try done; by rewrite Hc in Ef.
Qed.
End upgrades.

(** ** The next check *)

Section next_check.
Context (s : Service).

Definition upgrade_intervals : list duration := map (fun d => d * day) [7; 14; 30; 60; 90].

Lemma randomUnit_bounds : (0 <= randomUnit s <= 1)%Q.
Proof.
  unfold randomUnit. destruct (flt 1 (SRandomUnit s)) eqn:E1.
  - by vm_compute.
  - destruct (flt (SRandomUnit s) 0) eqn:E2; [split; discriminate|].
    split; apply Qnot_lt_le; rewrite <- flt_spec; congruence.
Qed.

(** The jitter is at most a tenth of the interval, either way. *)
Lemma upgrade_jitter_bounds base :
  base ∈ upgrade_intervals -> - (base / 10) <= upgrade_jitter s base <= base / 10.
Proof.
  intros Hb. unfold upgrade_jitter. pose proof randomUnit_bounds as [Hu0 Hu1].
  assert (-1 <= fsub (fmul 2 (randomUnit s)) 1 <= 1)%Q as Hx.
  { apply round_unit.
    assert (0 <= fmul 2 (randomUnit s))%Q as H0 by (apply round_nonneg; lra).
    assert (fmul 2 (randomUnit s) <= fmul 2 1)%Q as H2 by (apply fmul_mono_l; [discriminate|done|done]).
    assert (fmul 2 1 == 2)%Q as E2 by (apply Qeq_bool_iff; by vm_compute). lra. }
  assert (0 <= fmul (of_int base) (round (1 # 10)))%Q as Ha.
  { apply round_nonneg, Qmult_le_0_compat; [|by vm_compute].
    unfold of_int. apply round_nonneg. rewrite <- (Zle_Qle 0).
    unfold upgrade_intervals in Hb. cbn [map] in Hb. rewrite !elem_of_cons, elem_of_nil in Hb.
    destruct_or! Hb; subst; done. }
  pose proof (trunc_fmul_unit _ _ Ha Hx) as Ht.
  assert (trunc (fmul (fmul (of_int base) (round (1 # 10))) 1) = base / 10) as E; [|rewrite E in Ht; lia].
  unfold upgrade_intervals in Hb. cbn [map] in Hb. rewrite !elem_of_cons, elem_of_nil in Hb.
  destruct_or! Hb; subst; by vm_compute.
Qed.

Lemma lengthen_in base attempt days :
  base ∈ upgrade_intervals -> days * day ∈ upgrade_intervals ->
  fst (lengthen (base, attempt) days) ∈ upgrade_intervals /\ base <= fst (lengthen (base, attempt) days).
Proof. intros Hb Hd. unfold lengthen. case_match; bools; cbn [fst]; split; (done || lia). Qed.

Lemma upgrade_base_spec base attempt :
  base ∈ upgrade_intervals ->
  upgrade_base base attempt ∈ upgrade_intervals /\ base <= upgrade_base base attempt <= 90 * day
  /\ (attempt <= 0 -> upgrade_base base attempt = base)
  /\ (4 <= attempt -> upgrade_base base attempt = 90 * day)
  /\ upgrade_base base attempt <= upgrade_base base (attempt + 1).
Proof.
  intros Hb. unfold upgrade_base.
  unfold upgrade_intervals in *. cbn [map] in *. rewrite !elem_of_cons, elem_of_nil in *.
  cbn [fold_left]. unfold lengthen, day in *.
  destruct_or! Hb; subst;
    repeat (match goal with |- context [if ?b then _ else _] => destruct b eqn:? end; cbn [fst] in *; try lia);
    bools; unfold hour, minute, second in *; split_and!; lia || tauto || auto.
Qed.
Lemma interval_bounds base : base ∈ upgrade_intervals -> 7 * day <= base <= 90 * day.
Proof.
  unfold upgrade_intervals. cbn [map]. rewrite !elem_of_cons, elem_of_nil. intros Hb.
  destruct_or! Hb; subst; split; done.
Qed.

Lemma nextUpgradeAt_interval score candidate :
  isFallbackProvider s (ProviderID candidate) = true \/ ExactHash candidate = false ->
  exists base, base ∈ upgrade_intervals /\ nextUpgradeAt s (SNow s) score candidate = SNow s + base
    /\ time_sub (nextUpgradeAt s (SNow s) score candidate) (SNow s) = base.
Proof.
  intros Hc.
  assert (exists base, base ∈ upgrade_intervals /\ nextUpgradeAt s (SNow s) score candidate = SNow s + base)
    as (base & Hb & E).
  { unfold nextUpgradeAt, NextUpgradeAt.
    destruct (isFallbackProvider s (ProviderID candidate)); [exists (7 * day); split; [|done]|].
    - unfold upgrade_intervals. cbn [map]. left.
    - destruct Hc as [|Hc]; [done|]. rewrite Hc. unfold upgrade_intervals. cbn [map].
      destruct (85 <=? Total score); [exists (90 * day); split; [do 4 right; left|done]|].
      destruct (60 <=? Total score); [exists (30 * day); split; [do 2 right; left|done]|].
      exists (7 * day). split; [left|done]. }
  exists base. split; [done|]. split; [done|]. rewrite E. pose proof (interval_bounds _ Hb).
  rewrite time_sub_small; [lia|]. unfold day, hour, minute, second, min_duration, max_duration in *. lia.
Qed.

(** When a finished search asks for another check, the recheck is spread
    out but bounded. A check moved forward for a recovering preferred provider
    is never delayed. Checks end only after the configured number of unchanged
    ones, and never for a fallback subtitle. Otherwise the next check is at
    least six hours (the search cache) and at most 99 days ahead: for a
    fallback subtitle of a recent release by the missing-search delay, else
    within a tenth of an interval that starts at 7, 30 or 90 days by score
    and reaches 90 days after four unchanged checks. *)
Theorem upgrade_checks_bounded (r : Result) (attempt : Z) (releasedAt installedAt : instant)
    (Hnow : 0 <= SNow s) (Hattempt : 0 <= attempt)
    (Hwanted : is_zero (RNextUpgrade r) = false)
    (Hcandidate : isFallbackProvider s (ProviderID (RCandidate r)) = true \/ ExactHash (RCandidate r) = false) :
  let r' := scheduleUpgrade s r attempt releasedAt installedAt in
  let fallback := isFallbackProvider s (ProviderID (RCandidate r)) in
  let unchanged := if bool_decide (ROutcome r = OutcomeSatisfied) then attempt else 0 in
  (RupgradeRecovery r = true -> RNextUpgrade r' <= RNextUpgrade r)
  /\ (RNextUpgrade r' = zero_time ->
        fallback = false /\ 0 < MaxUpgradeChecks s <= attempt /\ ROutcome r = OutcomeSatisfied)
  /\ (RupgradeRecovery r = false -> RNextUpgrade r' <> zero_time ->
        SNow s + 6 * hour <= RNextUpgrade r' <= SNow s + 99 * day)
  /\ (RupgradeRecovery r = false -> fallback = true -> recentRelease s releasedAt (SNow s) = true ->
        unchanged < 4 -> RNextUpgrade r' = SNow s + MissingDelay (unchanged + 1) (randomUnit s))
  /\ (RupgradeRecovery r = false -> fallback = false -> RNextUpgrade r' <> zero_time ->
        exists base, base ∈ upgrade_intervals
          /\ nextUpgradeAt s (SNow s) (RScore r) (RCandidate r) <= SNow s + base
          /\ (4 <= unchanged -> base = 90 * day)
          /\ SNow s + (base - base / 10) <= RNextUpgrade r' <= SNow s + (base + base / 10)).
Proof.
  destruct (nextUpgradeAt_interval (RScore r) (RCandidate r) Hcandidate) as (base0 & Hb0 & Hnext & Hsub).
  cbv zeta. set (fallback := isFallbackProvider s (ProviderID (RCandidate r))) in *.
  set (n := if bool_decide (ROutcome r = OutcomeSatisfied) then attempt else 0).
  assert (0 <= n) as Hn by (subst n; case_match; lia).
  unfold scheduleUpgrade. rewrite Hwanted, Hsub. fold fallback. cbv zeta. fold n.
  assert (6 * hour <= MissingDelay (n + 1) (randomUnit s) <= 99 * day) as Hmissing.
  { destruct (missing_delay_bounds (n + 1) (randomUnit s)) as [H1 [H2 H3]]; [lia|].
    assert (missing_step (n + 1) <= 336 * hour).
    { unfold missing_step. destruct (retry_index (n + 1)) as (i & Hi & ->); [lia|]. rewrite Nat2Z.id.
      do 8 (destruct i; [try lia; by vm_compute|]). lia. }
    assert (missing_step (n + 1) / 5 <= 68 * hour)
      by (apply Z.div_le_upper_bound; unfold hour, minute, second in *; lia).
    unfold day, hour, minute, second in *. lia. }
  assert (zero_time < 0 /\ 0 < hour) as [Hz Hh] by done.
  assert (RNextUpgrade r <> zero_time) as Hwant by by apply Z.eqb_neq.
  destruct (fallback && recentRelease s releasedAt (SNow s) && (n <? recentFallbackChecks)) eqn:Eearly.
  { apply andb_true_iff in Eearly as [[Ef Er]%andb_true_iff Elt]. apply Z.ltb_lt in Elt.
    rewrite Ef. destruct (RupgradeRecovery r) eqn:Erec; cbn [negb orb].
    - destruct (SNow s + MissingDelay (n + 1) (randomUnit s) <? RNextUpgrade r) eqn:Elt2; bools;
        cbn [with_next_upgrade RNextUpgrade]; split_and!; intros; try done; try lia.
    - cbn [with_next_upgrade RNextUpgrade]. split_and!; intros; try done; lia. }
  assert (fallback = true -> recentRelease s releasedAt (SNow s) = true -> n < 4 -> False) as Hearly.
  { intros Hf Hr Hlt. rewrite Hf, Hr in Eearly. cbn [andb] in Eearly. apply Z.ltb_ge in Eearly.
    unfold recentFallbackChecks in Eearly. lia. }
  destruct (RupgradeRecovery r) eqn:Erec.
  { split_and!; intros; done || lia. }
  set (m := if fallback && recentRelease s releasedAt installedAt then Z.max 0 (n - recentFallbackChecks) else n).
  assert (fallback = false -> m = n) as Hm by (intros ->; done).
  destruct ((0 <? MaxUpgradeChecks s) && (MaxUpgradeChecks s <=? m) && negb fallback) eqn:Eend.
  { cbn [with_next_upgrade RNextUpgrade]. bools. specialize (Hm ltac:(done)).
    split_and!; try done; try (intros; exfalso; by eapply Hearly); intros; split_and!; try done; try lia;
      unfold n in *; case_bool_decide; try lia; done. }
  cbn [with_next_upgrade RNextUpgrade].
  destruct (upgrade_base_spec base0 m Hb0) as (Hin & [Hle Hge] & _ & H90 & _).
  pose proof (upgrade_jitter_bounds _ Hin) as Hj. pose proof (interval_bounds _ Hin) as Hib.
  set (b := upgrade_base base0 m) in *. set (j := upgrade_jitter s b) in *.
  assert (b / 10 <= 9 * day) by (apply Z.div_le_upper_bound; unfold day, hour, minute, second in *; lia).
  pose proof (Z.mul_div_le b 10 ltac:(lia)).
  assert (SNow s + 6 * hour <= SNow s + (b + j) <= SNow s + 99 * day) as Hbound
    by (unfold day, hour, minute, second in *; lia).
  split_and!; try done.
  - intros Hzero. exfalso. unfold hour, minute, second in *. lia.
  - intros _ Hf Hr Hlt. exfalso. by apply Hearly.
  - intros _ Hf _. exists b. split; [done|]. split; [lia|]. split; [rewrite (Hm Hf) in *; auto|lia].
Qed.
End next_check.

(** ** Concrete upgrades *)

#[local] Existing Instance sample_tags.
#[local] Instance no_parser : NameParser := fun _ => None.

(** "subdl" is the fallback of "os". *)
Definition tiered_service : Service := mkService [t "os"] [t "subdl"] None true 10 8 0 (1000 * hour) (1 # 2)%Q.

Definition installed_by (provider : text) (score : ScoreJSON) : Installation :=
  mkInstallation false 1 (t "en") (t "/tv/show.en.srt") [] provider (t "1") [] [] score [] []
    (t "/tv/./show.mkv") 1 1 0 0 0.

Definition sample_installed : Installation := installed_by (t "subdl") NoScoreJSON.
Definition sample_satisfied : Result :=
  {| ROutcome := OutcomeSatisfied; RCandidate := sample_range_candidate; RScore := mkScore 79 [] [];
     RInstallation := no_installation; RRetryAt := zero_time; RNextUpgrade := 2000 * hour; RDecisions := [];
     RProviderErrors := ∅; RResumeProviders := []; RResumeRouteSignature := []; RRemovedAfter := OutcomeUnset;
     RRemovalDeferred := false; RcleanEmptyProviders := []; RupgradeRecovery := false;
     RretainedInstallation := false |}.

Lemma upgrade_checks_bounded_witness :
  RNextUpgrade (scheduleUpgrade tiered_service sample_satisfied 1 0 0) = 1000 * hour + 60 * day
  /\ 1000 * hour + 6 * hour <= RNextUpgrade (scheduleUpgrade tiered_service sample_satisfied 1 0 0)
     <= 1000 * hour + 99 * day.
Proof.
  split; [vm_compute; reflexivity|].
  refine (proj1 (proj2 (proj2 (upgrade_checks_bounded tiered_service sample_satisfied 1 0 0 _ _ _ _))) _ _);
    try (vm_compute; reflexivity); try (vm_compute; discriminate).
  right. reflexivity.
Defined.
