(* ===== verification/Coordinator.v ===== *)
(** * Provider searches (src/internal/provider/coordinator.go)

    One search over the providers of a language: which providers take part,
    the search cache in front of each, merging repeated results, and collecting
    the answers that arrive in any order. A provider is a record of the
    interface methods the coordinator calls. *)
From S2P Require Import Prelude GoText GoFloat Domain Workflow.

#[local] Open Scope Z_scope.

Inductive SearchMode := SearchExactHash | SearchBroad.

#[export] Instance SearchMode_eq_dec : EqDecision SearchMode.
Proof. solve_decision. Defined.

Record SearchQuery := mkQuery {
  QryMedia : Media;
  QryLanguage : Language;
  QryMode : SearchMode;
  QrySkipProviders : list text;
}.

Record Capabilities := mkCapabilities {
  MediaKinds : list MediaKind;
  ExactFileHash : bool;
  SeasonPacks : bool;
  DirectPackMember : bool;
  SingleEpisodeOnly : bool;
}.

(** An adapter: its methods. [pd_version] is its cache version, empty without
    one; the availability methods return the classified error, if any. *)
Record ProviderAdapter := mkAdapter {
  pd_id : text;
  pd_capabilities : Capabilities;
  pd_supports : Language -> bool;
  pd_version : text;
  pd_download_available : option WorkflowError;
  pd_search_available : option WorkflowError;
  pd_search : SearchQuery -> result WorkflowError (list Candidate);
}.

Record SearchResult := mkSearchResult {
  SCandidates : list Candidate;
  SErrors : gmap text WorkflowError;
  SApplicableProviders : list text;
  SEmptyProviders : list text;
}.

Definition no_results : SearchResult := mkSearchResult [] ∅ [] [].

Definition SupportsMediaKind (p : ProviderAdapter) (kind : MediaKind) : bool :=
  match MediaKinds (pd_capabilities p) with
  | [] => true
  | kinds => existsb (fun k => bool_decide (k = kind)) kinds
  end.

Definition SupportsMedia (p : ProviderAdapter) (media : Media) : bool :=
  if negb (SupportsMediaKind p (RefKind (MRef media))) then false
  else negb (IsEpisodeRange media) || negb (SingleEpisodeOnly (pd_capabilities p)).

(** ** Merging repeated results *)

Definition append_unique (existing additions : list text) : list text :=
  fold_left (fun existing value =>
    if bool_decide (value = []) || bool_decide (value ∈ existing) then existing else existing ++ [value])
    additions existing.

Definition first_text (a b : text) : text := if bool_decide (a = []) then b else a.
Definition first_int (a b : Z) : Z := if a =? 0 then b else a.
Definition fmax (a b : float64) : float64 := if flt a b then b else a.

Definition merge (merged candidate : Candidate) : Candidate :=
  {| ProviderID := ProviderID merged; ResultID := ResultID merged;
     CLanguage := first_text (CLanguage merged) (CLanguage candidate);
     Kind := if bool_decide (Kind merged = KindUnset) then Kind candidate else Kind merged;
     CTitle := first_text (CTitle merged) (CTitle candidate);
     CAlternateTitles := append_unique (CAlternateTitles merged) (CAlternateTitles candidate);
     EvidenceVersion := first_text (EvidenceVersion merged) (EvidenceVersion candidate);
     CYear := first_int (CYear merged) (CYear candidate);
     CSeason := first_int (CSeason merged) (CSeason candidate);
     CEpisode := first_int (CEpisode merged) (CEpisode candidate);
     CAbsoluteEpisode := first_int (CAbsoluteEpisode merged) (CAbsoluteEpisode candidate);
     CExternalIDs := mkExternalIDs
       (first_text (IMDb (CExternalIDs merged)) (IMDb (CExternalIDs candidate)))
       (first_int (TMDB (CExternalIDs merged)) (TMDB (CExternalIDs candidate)))
       (first_int (TVDB (CExternalIDs merged)) (TVDB (CExternalIDs candidate)));
     ReleaseNames := append_unique (ReleaseNames merged) (ReleaseNames candidate);
     ReleaseGroups := append_unique (ReleaseGroups merged) (ReleaseGroups candidate);
     Resolutions := append_unique (Resolutions merged) (Resolutions candidate);
     ExactHash := ExactHash merged || ExactHash candidate;
     Forced := Forced merged || Forced candidate;
     HearingImpaired := HearingImpaired merged || HearingImpaired candidate;
     Rating := fmax (Rating merged) (Rating candidate);
     Popularity := fmax (Popularity merged) (Popularity candidate);
     DownloadCount := Z.max (DownloadCount merged) (DownloadCount candidate);
     DownloadRef := first_text (DownloadRef merged) (DownloadRef candidate);
     DownloadVersion := first_text (DownloadVersion merged) (DownloadVersion candidate);
     Pack := match Pack merged with None => Pack candidate | pack => pack end;
     ReleaseNumbered := ReleaseNumbered merged |}.

(** The identity two results share: provider and result id around a NUL. *)
Definition identity (c : Candidate) : option text :=
  if bool_decide (ProviderID c = []) || bool_decide (ResultID c = []) then None
  else Some (ProviderID c ++ [0%N] ++ ResultID c).

(** The results so far and the position of each identity. *)
Definition dedupe_step (acc : list Candidate * gmap text nat) (c : Candidate)
    : list Candidate * gmap text nat :=
  let '(results, indices) := acc in
  match identity c with
  | None => (results ++ [c], indices)
  | Some key =>
      match indices !! key with
      | None => (results ++ [c], <[key := length results]> indices)
      | Some index => (alter (fun merged => merge merged c) index results, indices)
      end
  end.

Definition dedupe_fold (candidates : list Candidate) : list Candidate * gmap text nat :=
  fold_left dedupe_step candidates ([], ∅).

Definition DeduplicateCandidates (candidates : list Candidate) : list Candidate :=
  fst (dedupe_fold candidates).

(** ** The search cache *)

(** The parts of [net/url] the sanitizer uses: [None] when [url.Parse] fails,
    otherwise whether the scheme is http or https and the URL printed without
    its query and fragment. *)
Class UrlParser := url_parse : text -> option (bool * text).

Record CachedResults := mkCached {
  CachedVersion : Z;
  CachedCandidates : list Candidate;
  RequiresRefresh : bool;
}.

Record CacheEntry := mkEntry {
  CEProvider : text;
  CEResults : option CachedResults;
  CEExpires : instant;
}.

(** The provider_cache table; [None] entries hold JSON that does not decode.
    The flags say whether reads and writes succeed. *)
Record CacheStore := mkCache {
  cache_rows : gmap text CacheEntry;
  cache_readable : bool;
  cache_writable : bool;
}.

Definition searchCacheTTL : duration := 6 * hour.

Definition GetProviderCache (key : text) (now : instant) (db : CacheStore)
    : result WorkflowError (option CacheEntry) :=
  if negb (cache_readable db) then Err SearchPersistenceE
  else match cache_rows db !! key with
       | Some e => Ok (if now <? CEExpires e then Some e else None)
       | None => Ok None
       end.

Definition PutProviderCache (key : text) (e : CacheEntry) (db : CacheStore)
    : result WorkflowError CacheStore :=
  if cache_writable db then Ok (mkCache (<[key := e]> (cache_rows db)) (cache_readable db) true)
  else Err SearchPersistenceE.

Section coordinator.
Context `{UrlParser}.
(** [providerCacheKey]: a hexadecimal SHA-256 of the JSON of the provider, the
    query and the media's identity. *)
Context (cache_key : text -> SearchQuery -> text).

Definition stripCandidateQuery (raw : text) : text :=
  match url_parse raw with
  | None => fst (fst (cut 63%N raw))
  | Some (_, stripped) => stripped
  end.

Definition safe_reference (raw : text) : text :=
  match url_parse raw with
  | Some (true, _) => []
  | _ => stripCandidateQuery raw
  end.

Definition safe_member (m : PackMemberRef) : PackMemberRef :=
  mkMemberRef (RefID m) (RefFilename m) [] (RefSeason m) (RefEpisode m) (RefAbsolute m).

Definition safe_pack (p : PackInfo) : PackInfo :=
  mkPackInfo (Scope p) (PSeason p) (EpisodeFrom p) (EpisodeTo p) (AbsoluteFrom p) (AbsoluteTo p)
    (safe_member <$> DirectMembers p).

Definition cache_safe (c : Candidate) : Candidate :=
  {| ProviderID := ProviderID c; ResultID := stripCandidateQuery (ResultID c); CLanguage := CLanguage c;
     Kind := Kind c; CTitle := CTitle c; CAlternateTitles := CAlternateTitles c;
     EvidenceVersion := EvidenceVersion c; CYear := CYear c; CSeason := CSeason c; CEpisode := CEpisode c;
     CAbsoluteEpisode := CAbsoluteEpisode c; CExternalIDs := CExternalIDs c;
     ReleaseNames := ReleaseNames c; ReleaseGroups := ReleaseGroups c; Resolutions := Resolutions c;
     ExactHash := ExactHash c; Forced := Forced c; HearingImpaired := HearingImpaired c;
     Rating := Rating c; Popularity := Popularity c; DownloadCount := DownloadCount c;
     DownloadRef := safe_reference (DownloadRef c); DownloadVersion := DownloadVersion c;
     Pack := safe_pack <$> Pack c; ReleaseNumbered := ReleaseNumbered c |}.

Definition cacheSafeCandidates (candidates : list Candidate) : list Candidate := cache_safe <$> candidates.

(** Whether sanitizing changed a reference of the candidate. *)
Definition reference_changed (c safe : Candidate) : bool :=
  negb (bool_decide (ResultID c = ResultID safe)) || negb (bool_decide (DownloadRef c = DownloadRef safe))
  || match Pack c, Pack safe with
     | Some p, Some p' =>
         existsb (fun mm => negb (bool_decide (RefDownload (fst mm) = RefDownload (snd mm))))
           (combine (DirectMembers p) (DirectMembers p'))
     | _, _ => false
     end.

Definition cacheReferencesChanged (original safe : list Candidate) : bool :=
  existsb (fun cs => reference_changed (fst cs) (snd cs)) (combine original safe).

(** The result and whether the provider was asked. *)
Definition searchProvider (p : ProviderAdapter) (query : SearchQuery) (now : instant) (cache : option CacheStore)
    : result WorkflowError (list Candidate) * option CacheStore * bool :=
  match pd_download_available p with
  | Some e => (Err e, cache, false)
  | None =>
      let key := cache_key (pd_id p) query ++
                 (if bool_decide (pd_version p = []) then [] else t ":" ++ pd_version p) in
      let ask := 
        match pd_search_available p with
        | Some e => (Err e, cache, false)
        | None =>
            match pd_search p query with
            | Err e => (Err e, cache, true)
            | Ok found =>
                let candidates := DeduplicateCandidates found in
                match cache with
                | None => (Ok candidates, cache, true)
                | Some db =>
                    let safe := cacheSafeCandidates candidates in
                    match PutProviderCache key
                            (mkEntry (pd_id p)
                               (Some (mkCached 1 safe (cacheReferencesChanged candidates safe)))
                               (now + searchCacheTTL)) db with
                    | Err e => (Err e, cache, true)
                    | Ok db => (Ok candidates, Some db, true)
                    end
                end
            end
        end in
      match cache with
      | None => ask
      | Some db =>
          match GetProviderCache key now db with
          | Err e => (Err e, cache, false)
          | Ok (Some (mkEntry _ (Some cached) _)) =>
              if (CachedVersion cached =? 1) && negb (RequiresRefresh cached)
              then (Ok (DeduplicateCandidates (CachedCandidates cached)), cache, false)
              else ask
          | Ok _ => ask
          end
      end
  end.

(** ** The two modes *)

Definition applicable (query : SearchQuery) (p : ProviderAdapter) : bool :=
  match QryMode query with
  | SearchExactHash => ExactFileHash (pd_capabilities p)
  | SearchBroad => true
  end
  && pd_supports p (QryLanguage query) && SupportsMedia p (QryMedia query)
  && negb (bool_decide (pd_id p ∈ filter (fun id => id <> []) (QrySkipProviders query))).

(** One provider's answer added to the result. *)
Definition add_exact (acc : SearchResult) (id : text) (answer : result WorkflowError (list Candidate))
    : SearchResult :=
  match answer with
  | Err e => mkSearchResult (SCandidates acc) (<[id := e]> (SErrors acc))
               (SApplicableProviders acc ++ [id]) (SEmptyProviders acc)
  | Ok candidates =>
      mkSearchResult (SCandidates acc ++ filter (fun c => ExactHash c = true) candidates) (SErrors acc)
        (SApplicableProviders acc ++ [id])
        (SEmptyProviders acc ++ if bool_decide (candidates = []) then [id] else [])
  end.

(** Exact searches run one provider after the other. *)
Fixpoint searchExact (query : SearchQuery) (now : instant) (providers : list ProviderAdapter)
    (cache : option CacheStore) (acc : SearchResult) : SearchResult * option CacheStore :=
  match providers with
  | [] => (acc, cache)
  | p :: providers =>
      if applicable query p then
        let '(answer, cache, _) := searchProvider p query now cache in
        searchExact query now providers cache (add_exact acc (pd_id p) answer)
      else searchExact query now providers cache acc
  end.

(** A broad answer as it arrives: the provider's index and id. *)
Record broadResult := mkBroad {
  b_index : nat;
  b_provider : text;
  b_answer : result WorkflowError (list Candidate);
}.

(** The slots of the providers, filled by the answers in arrival order. *)
Definition ordered_results (n : nat) (arrivals : list broadResult) : list (option broadResult) :=
  fold_left (fun slots item => <[b_index item := Some item]> slots) arrivals (replicate n None).

Definition add_broad (acc : SearchResult) (slot : option broadResult) : SearchResult :=
  match slot with
  | None => acc
  | Some item =>
      if bool_decide (b_provider item = []) then acc
      else
        match b_answer item with
        | Err e => mkSearchResult (SCandidates acc) (<[b_provider item := e]> (SErrors acc))
                     (SApplicableProviders acc) (SEmptyProviders acc)
        | Ok candidates =>
            mkSearchResult (SCandidates acc ++ candidates) (delete (b_provider item) (SErrors acc))
              (SApplicableProviders acc)
              (SEmptyProviders acc ++ if bool_decide (candidates = []) then [b_provider item] else [])
        end
  end.

(** [searchBroad] once the started searches have answered in some order. *)
Definition collectBroad (query : SearchQuery) (providers : list ProviderAdapter) (arrivals : list broadResult)
    : SearchResult :=
  fold_left add_broad (ordered_results (length providers) arrivals)
    (mkSearchResult [] ∅ (pd_id <$> filter (fun p => applicable query p = true) providers) []).
End coordinator.

(** ** Merging keeps the evidence *)

Lemma append_unique_spec existing additions n :
  n ∈ append_unique existing additions <-> n ∈ existing \/ (n ∈ additions /\ n <> []).
Proof.
  unfold append_unique. revert existing. induction additions as [|v additions IH]; intros existing; cbn [fold_left].
  { rewrite elem_of_nil. tauto. }
  rewrite IH, elem_of_cons. destruct (bool_decide (v = [])) eqn:E1; cbn [orb]; bools.
  - subst v. split; [tauto|]. intros [?|[[->|?] ?]]; tauto.
  - destruct (bool_decide (v ∈ existing)) eqn:E2; bools.
    + split; [tauto|]. intros [?|[[->|?] ?]]; tauto.
    + rewrite elem_of_app, list_elem_of_singleton. split; [|tauto].
      intros [[?| ->]|[? ?]]; tauto.
Qed.

(** [m] holds what [c] said: its names, flags and counts, and something where
    [c] has something. *)
Record absorbs (m c : Candidate) : Prop := {
  absorbs_id : identity m = identity c;
  absorbs_releases n : n ∈ ReleaseNames c -> n <> [] -> n ∈ ReleaseNames m;
  absorbs_titles n : n ∈ CAlternateTitles c -> n <> [] -> n ∈ CAlternateTitles m;
  absorbs_groups n : n ∈ ReleaseGroups c -> n <> [] -> n ∈ ReleaseGroups m;
  absorbs_exact : ExactHash c = true -> ExactHash m = true;
  absorbs_forced : Forced c = true -> Forced m = true;
  absorbs_title : CTitle c <> [] -> CTitle m <> [];
  absorbs_reference : DownloadRef c <> [] -> DownloadRef m <> [];
  absorbs_pack : is_Some (Pack c) -> is_Some (Pack m);
  absorbs_count : DownloadCount c <= DownloadCount m;
}.

Lemma absorbs_refl c : absorbs c c.
Proof. by split. Qed.

Lemma identity_merge m c : identity (merge m c) = identity m.
Proof. done. Qed.

Lemma first_text_l a b : a <> [] -> first_text a b <> [].
Proof. unfold first_text. by case_bool_decide. Qed.
Lemma first_text_r a b : b <> [] -> first_text a b <> [].
Proof. unfold first_text. by case_bool_decide. Qed.

Lemma merge_keeps m c c0 : absorbs m c0 -> absorbs (merge m c) c0.
Proof.
  intros []. split; cbn [merge ReleaseNames CAlternateTitles ReleaseGroups ExactHash Forced CTitle DownloadRef Pack DownloadCount];
    try (intros; apply append_unique_spec; by auto).
  - by rewrite identity_merge.
  - intros Hx. by rewrite absorbs_exact0.
  - intros Hx. by rewrite absorbs_forced0.
  - intros Hx. by apply first_text_l, absorbs_title0.
  - intros Hx. by apply first_text_l, absorbs_reference0.
  - intros Hx. destruct (absorbs_pack0 Hx) as [p ->]. by eexists.
  - lia.
Qed.

Lemma merge_takes m c : identity m = identity c -> absorbs (merge m c) c.
Proof.
  intros Hid. split; cbn [merge ReleaseNames CAlternateTitles ReleaseGroups ExactHash Forced CTitle DownloadRef Pack DownloadCount];
    try (intros; apply append_unique_spec; by auto).
  - by rewrite identity_merge.
  - intros ->. by rewrite orb_true_r.
  - intros ->. by rewrite orb_true_r.
  - apply first_text_r.
  - apply first_text_r.
  - intros Hx. by destruct (Pack m).
  - lia.
Qed.

(** The names and the exact match of [m] come from results of its identity. *)
Definition sourced (inputs : list Candidate) (m : Candidate) : Prop :=
  (forall n, n ∈ ReleaseNames m -> exists c, c ∈ inputs /\ identity c = identity m /\ n ∈ ReleaseNames c)
  /\ (ExactHash m = true -> exists c, c ∈ inputs /\ identity c = identity m /\ ExactHash c = true).

(** The state after the results [inputs]. *)
Record dedupe_inv (inputs : list Candidate) (acc : list Candidate * gmap text nat) : Prop := {
  inv_index key i : acc.2 !! key = Some i <-> exists m, acc.1 !! i = Some m /\ identity m = Some key;
  inv_absorbs c : c ∈ inputs -> exists m, m ∈ acc.1 /\ absorbs m c;
  inv_sourced m : m ∈ acc.1 -> sourced inputs m;
  inv_plain : filter (fun c => identity c = None) acc.1 = filter (fun c => identity c = None) inputs;
}.

Lemma sourced_mono inputs c m : sourced inputs m -> sourced (inputs ++ [c]) m.
Proof.
  intros [Hn He]. split.
  - intros n Hin. destruct (Hn n Hin) as (c' & Hc & ?). exists c'. rewrite elem_of_app. by split; [left|].
  - intros Hx. destruct (He Hx) as (c' & Hc & ?). exists c'. rewrite elem_of_app. by split; [left|].
Qed.

Lemma sourced_self inputs c : sourced (inputs ++ [c]) c.
Proof.
  split; intros; exists c; rewrite elem_of_app, list_elem_of_singleton; split_and!; auto.
Qed.

Lemma sourced_merge inputs m c :
  sourced (inputs ++ [c]) m -> identity m = identity c -> sourced (inputs ++ [c]) (merge m c).
Proof.
  intros [Hn He] Hid. split; rewrite identity_merge; cbn [merge ReleaseNames ExactHash].
  - intros n [Hin|[Hin _]]%append_unique_spec; [by apply Hn|].
    exists c. rewrite elem_of_app, list_elem_of_singleton. by split_and!; [right| |].
  - intros [Hx|Hx]%orb_true_iff; [by apply He|].
    exists c. rewrite elem_of_app, list_elem_of_singleton. by split_and!; [right| |].
Qed.

Lemma filter_alter_same {A} (P : A -> Prop) `{!forall x, Decision (P x)} (f : A -> A) (l : list A) (i : nat) x :
  l !! i = Some x -> ~ P x -> ~ P (f x) -> filter P (alter f i l) = filter P l.
Proof.
  revert i. induction l as [|y l IH]; intros [|i] Hl Hx Hf; [done|done|..].
  - injection Hl as ->. change (alter f 0%nat (x :: l)) with (f x :: l). by rewrite !filter_cons_False.
  - change (alter f (S i) (y :: l)) with (y :: alter f i l). rewrite !filter_cons. by rewrite (IH i Hl Hx Hf).
Qed.

(** A result with a new identity, or without one, is appended. *)
Lemma dedupe_append inputs res idx idx' c :
  dedupe_inv inputs (res, idx) ->
  (forall key i, idx' !! key = Some i <->
     idx !! key = Some i \/ (identity c = Some key /\ i = length res)) ->
  dedupe_inv (inputs ++ [c]) (res ++ [c], idx').
Proof.
  intros [Hidx Habs Hsrc Hplain] Hidx'. cbn [fst snd] in *. split; cbn [fst snd].
  - intros k j. rewrite Hidx', Hidx. split.
    + intros [(x & Hx & Hk)|[Hk ->]].
      * exists x. split; [by apply lookup_app_l_Some|done].
      * exists c. split; [by apply list_lookup_middle|done].
    + intros (x & [Hx|[Hge Hx]]%lookup_app_Some & Hk); [left; by exists x|].
      apply list_lookup_singleton_Some in Hx as [Hj <-]. right. split; [done|lia].
  - intros c0 [Hc0|Hc0]%elem_of_app.
    + destruct (Habs c0 Hc0) as (x & Hx & Hxa). exists x. rewrite elem_of_app. by split; [left|].
    + apply list_elem_of_singleton in Hc0 as ->. exists c. rewrite elem_of_app, list_elem_of_singleton.
      split; [by right|apply absorbs_refl].
  - intros x [Hx|Hx]%elem_of_app; [by apply sourced_mono, Hsrc|].
    apply list_elem_of_singleton in Hx as ->. apply sourced_self.
  - by rewrite !filter_app, Hplain.
Qed.

Lemma lookup_merged c i (res : list Candidate) m j x :
  res !! i = Some m -> alter (fun merged => merge merged c) i res !! j = Some x ->
  exists y, res !! j = Some y /\ identity x = identity y /\ (x = y \/ (y = m /\ x = merge m c)).
Proof.
  intros Hm. destruct (decide (j = i)) as [->|Hj].
  - rewrite list_lookup_alter_eq, Hm. intros [= <-]. exists m. split_and!; auto.
  - rewrite list_lookup_alter_ne by done. intros Hx. exists x. auto.
Qed.

(** A result of a known identity is merged into the one found first. *)
Lemma dedupe_merge inputs res idx c i m :
  dedupe_inv inputs (res, idx) -> res !! i = Some m -> identity m = identity c -> is_Some (identity c) ->
  dedupe_inv (inputs ++ [c]) (alter (fun merged => merge merged c) i res, idx).
Proof.
  intros [Hidx Habs Hsrc Hplain] Hm Hmc [key Hid]. cbn [fst snd] in *.
  assert (alter (fun merged => merge merged c) i res !! i = Some (merge m c)) as Hi
    by by rewrite list_lookup_alter_eq, Hm.
  split; cbn [fst snd].
  - intros k j. rewrite Hidx. split.
    + intros (x & Hx & Hk). destruct (decide (j = i)) as [->|Hj].
      * exists (merge m c). split; [done|]. rewrite identity_merge. congruence.
      * exists x. by rewrite list_lookup_alter_ne.
    + intros (x & Hx & Hk). destruct (lookup_merged _ _ _ _ _ _ Hm Hx) as (y & Hy & Hxy & _).
      exists y. split; [done|congruence].
  - intros c0 [Hc0|Hc0]%elem_of_app.
    + destruct (Habs c0 Hc0) as (x & (j & Hx)%list_elem_of_lookup & Hxa).
      destruct (decide (j = i)) as [->|Hj].
      * assert (x = m) as -> by congruence. exists (merge m c). split; [by eapply list_elem_of_lookup_2|by apply merge_keeps].
      * exists x. split; [|done]. apply list_elem_of_lookup. exists j. by rewrite list_lookup_alter_ne.
    + apply list_elem_of_singleton in Hc0 as ->. exists (merge m c).
      split; [by eapply list_elem_of_lookup_2|by apply merge_takes].
  - intros x (j & Hx)%list_elem_of_lookup.
    destruct (lookup_merged _ _ _ _ _ _ Hm Hx) as (y & Hy%list_elem_of_lookup_2 & _ & [->|[-> ->]]).
    + by apply sourced_mono, Hsrc.
    + apply sourced_merge; [|done]. by apply sourced_mono, Hsrc.
  - rewrite filter_app, (filter_cons_False _ c) by congruence. rewrite app_nil_r, <- Hplain.
    eapply filter_alter_same; [exact Hm|congruence|]. cbv beta. rewrite identity_merge. congruence.
Qed.

Lemma dedupe_step_inv inputs acc c :
  dedupe_inv inputs acc -> dedupe_inv (inputs ++ [c]) (dedupe_step acc c).
Proof.
  intros Hinv. destruct acc as [res idx]. unfold dedupe_step.
  destruct (identity c) as [key|] eqn:Hid; [destruct (idx !! key) as [i|] eqn:Hi|].
  - pose proof Hi as (m & Hm & Hmid)%(inv_index _ _ Hinv). eapply dedupe_merge; [done|exact Hm|congruence|by rewrite Hid].
  - apply (dedupe_append _ _ idx); [done|]. intros k j. rewrite Hid.
    destruct (decide (k = key)) as [->|Hk].
    + rewrite lookup_insert_eq, Hi. naive_solver.
    + rewrite lookup_insert_ne by done. naive_solver.
  - apply (dedupe_append _ _ idx); [done|]. intros k j. rewrite Hid. naive_solver.
Qed.

Lemma dedupe_fold_inv inputs : dedupe_inv inputs (dedupe_fold inputs).
Proof.
  unfold dedupe_fold. induction inputs as [|c inputs IH] using rev_ind.
  - split; cbn [fold_left fst snd]; [|by intros ? ?%elem_of_nil..|done].
    intros k i. rewrite lookup_empty. split; [done|]. by intros (m & Hm & _).
  - rewrite fold_left_app. by apply dedupe_step_inv.
Qed.

Lemma dedupe_distinct inputs i j m m' key :
  DeduplicateCandidates inputs !! i = Some m -> DeduplicateCandidates inputs !! j = Some m' ->
  identity m = Some key -> identity m' = Some key -> i = j.
Proof.
  intros Hm Hm' Hk Hk'. pose proof (inv_index _ _ (dedupe_fold_inv inputs)) as Hidx.
  assert ((dedupe_fold inputs).2 !! key = Some i) as Hi by (apply Hidx; eauto).
  assert ((dedupe_fold inputs).2 !! key = Some j) as Hj by (apply Hidx; eauto). congruence.
Qed.

(** Results of distinct identities are left alone. *)
Lemma dedupe_distinct_id inputs :
  (forall i j m m' key, inputs !! i = Some m -> inputs !! j = Some m' ->
     identity m = Some key -> identity m' = Some key -> i = j) ->
  (dedupe_fold inputs).1 = inputs.
Proof.
  induction inputs as [|c inputs IH] using rev_ind; intros Hd; [done|].
  assert ((dedupe_fold inputs).1 = inputs) as E.
  { apply IH. intros i j m m' key Hi Hj. apply (Hd i j m m' key); by apply lookup_app_l_Some. }
  pose proof (inv_index _ _ (dedupe_fold_inv inputs)) as Hidx. rewrite E in Hidx.
  unfold dedupe_fold in *. rewrite fold_left_app. cbn [fold_left]. unfold dedupe_step at 1.
  destruct (fold_left dedupe_step inputs ([], ∅)) as [res idx]. cbn [fst snd] in *. subst res.
  destruct (identity c) as [key|] eqn:Hid; [|done]. destruct (idx !! key) as [i|] eqn:Hi; [exfalso|done].
  apply Hidx in Hi as (m & Hm & Hk).
  assert (i = length inputs); [|by apply lookup_lt_Some in Hm; lia].
  eapply (Hd _ _ m c key); [by apply lookup_app_l_Some|by apply list_lookup_middle|done|done].
Qed.

(** Merging repeated results loses nothing and invents nothing: every
    result is absorbed by one of its identity, which keeps all its non-empty
    names, its exact-hash and forced flags and the rest of its evidence; the
    release names and the exact match of a merged result come from results of
    the same identity; results without an identity pass through in order; no
    two merged results share an identity, and merging again changes nothing. *)
Theorem merging_keeps_evidence (candidates : list Candidate) :
  (forall c, c ∈ candidates -> exists m, m ∈ DeduplicateCandidates candidates /\ absorbs m c)
  /\ (forall m, m ∈ DeduplicateCandidates candidates -> sourced candidates m)
  /\ filter (fun c => identity c = None) (DeduplicateCandidates candidates)
     = filter (fun c => identity c = None) candidates
  /\ (forall i j m m' key, DeduplicateCandidates candidates !! i = Some m ->
        DeduplicateCandidates candidates !! j = Some m' ->
        identity m = Some key -> identity m' = Some key -> i = j)
  /\ DeduplicateCandidates (DeduplicateCandidates candidates) = DeduplicateCandidates candidates.
Proof.
  destruct (dedupe_fold_inv candidates) as [Hidx Habs Hsrc Hplain].
  split_and!; [done|done|done|apply dedupe_distinct|].
  apply dedupe_distinct_id, dedupe_distinct.
Qed.

(** ** Answers in any order *)

Section broad.
Context (query : SearchQuery) (providers : list ProviderAdapter).
(** What each started search returns. *)
Context (answers : ProviderAdapter -> result WorkflowError (list Candidate)).

Definition slot_of (i : nat) (p : ProviderAdapter) : option broadResult :=
  if applicable query p then Some (mkBroad i (pd_id p) (answers p)) else None.

(** The searches started, by index. *)
Definition started : list broadResult := omap id (imap slot_of providers).

Definition searched : list ProviderAdapter := filter (fun p => applicable query p = true) providers.

Lemma fill_slots arrivals (slots : list (option broadResult)) i :
  NoDup (b_index <$> arrivals) ->
  let filled := fold_left (fun slots item => <[b_index item := Some item]> slots) arrivals slots in
  length filled = length slots
  /\ (forall item, item ∈ arrivals -> b_index item = i -> (i < length slots)%nat -> filled !! i = Some (Some item))
  /\ ((forall item, item ∈ arrivals -> b_index item <> i) -> filled !! i = slots !! i).
Proof.
  cbv zeta. revert slots. induction arrivals as [|a arrivals IH]; intros slots Hnd; cbn [fold_left].
  { split_and!; [done|by intros ? ?%elem_of_nil|done]. }
  rewrite fmap_cons in Hnd. apply NoDup_cons in Hnd as [Ha Hnd].
  destruct (IH (<[b_index a := Some a]> slots) Hnd) as (Hlen & Hin & Hout). rewrite length_insert in *.
  split_and!; [done| |].
  - intros item [->|Hitem]%elem_of_cons Hi Hlt; [|by apply Hin].
    rewrite Hout; [by rewrite Hi, list_lookup_insert_eq|].
    intros item' Hitem' Hi'. apply Ha. rewrite Hi, <- Hi'. by apply list_elem_of_fmap_2.
  - intros Hno. rewrite Hout by (intros item Hitem; apply Hno; by right).
    rewrite list_lookup_insert_ne; [done|]. apply Hno. left.
Qed.

Lemma started_elem item :
  item ∈ started <-> exists i p, providers !! i = Some p /\ slot_of i p = Some item.
Proof.
  unfold started. rewrite list_elem_of_omap. split.
  - intros (slot & (i & Hi)%list_elem_of_lookup & Hslot). cbn in Hslot. subst slot.
    rewrite list_lookup_imap in Hi. destruct (providers !! i) as [p|] eqn:Hp; [|done].
    cbn in Hi. injection Hi as Hi. by exists i, p.
  - intros (i & p & Hp & Hs). exists (Some item). split; [|done].
    apply list_elem_of_lookup. exists i. rewrite list_lookup_imap, Hp. cbn. by rewrite Hs.
Qed.

Lemma slot_index i p item : slot_of i p = Some item -> b_index item = i.
Proof. unfold slot_of. destruct (applicable query p); [|done]. by intros [= <-]. Qed.

Lemma started_indices : NoDup (b_index <$> started).
Proof.
  apply NoDup_fmap_2_strong.
  - intros x y (i & p & Hp & Hi)%started_elem (j & q & Hq & Hj)%started_elem E.
    pose proof (slot_index _ _ _ Hi). pose proof (slot_index _ _ _ Hj).
    assert (i = j) as -> by congruence. congruence.
  - unfold started.
    assert (forall (f : nat -> ProviderAdapter -> option broadResult) k,
      (forall i p item, f i p = Some item -> b_index item = (k + i)%nat) ->
      NoDup (omap id (imap f providers))) as Hnd; [|apply (Hnd _ 0%nat), slot_index].
    clear. induction providers as [|p ps IH]; intros f k Hf; [constructor|].
    rewrite imap_cons. cbn [omap list_omap id].
    assert (NoDup (omap id (imap (f ∘ S) ps))) as Hrest.
    { apply (IH _ (S k)). intros i q item Hq. apply Hf in Hq. lia. }
    destruct (f 0%nat p) as [item|] eqn:Hi; cbn; [|exact Hrest]. constructor; [|exact Hrest].
    rewrite list_elem_of_omap. intros (slot & (j & Hj)%list_elem_of_lookup & Hslot). cbn in Hslot. subst slot.
    rewrite list_lookup_imap in Hj. destruct (ps !! j) as [q|]; [|done]. injection Hj as Hj.
    apply Hf in Hi. apply Hf in Hj. lia.
Qed.

(** The slots hold the answers by provider, whatever order they came in. *)
Lemma ordered_started arrivals :
  arrivals ≡ₚ started -> ordered_results (length providers) arrivals = imap slot_of providers.
Proof.
  intros Hp. unfold ordered_results.
  assert (NoDup (b_index <$> arrivals)) as Hnd by (rewrite Hp; apply started_indices).
  apply list_eq. intros i.
  destruct (fill_slots arrivals (replicate (length providers) None) i Hnd) as (_ & Hin & Hout).
  rewrite length_replicate in *. rewrite list_lookup_imap.
  destruct (providers !! i) as [p|] eqn:Hpi; cbn.
  - assert (i < length providers)%nat as Hlt by by eapply lookup_lt_Some.
    destruct (slot_of i p) as [item|] eqn:Hs.
    + apply (Hin item); [|by eapply slot_index|done]. rewrite Hp. apply started_elem. eauto.
    + rewrite Hout; [by apply lookup_replicate_2|]. intros item Hitem Hi.
      rewrite Hp in Hitem. apply started_elem in Hitem as (j & q & Hq & Hj).
      pose proof (slot_index _ _ _ Hj). simplify_eq.
  - rewrite Hout.
    + apply lookup_ge_None. rewrite length_replicate. by apply lookup_ge_None.
    + intros item Hitem Hi. rewrite Hp in Hitem. apply started_elem in Hitem as (j & q & Hq & Hj).
      pose proof (slot_index _ _ _ Hj). simplify_eq.
Qed.
Definition found_by (p : ProviderAdapter) : list Candidate :=
  match answers p with Ok l => l | Err _ => [] end.
Definition empty_id (p : ProviderAdapter) : option text :=
  match answers p with Ok [] => Some (pd_id p) | _ => None end.
Definition failed_with (p : ProviderAdapter) : option (text * WorkflowError) :=
  match answers p with Err e => Some (pd_id p, e) | Ok _ => None end.

(** A provider that answered, added to a result that does not name it. *)
Lemma add_answer acc i p :
  pd_id p <> [] -> SErrors acc !! pd_id p = None ->
  add_broad acc (Some (mkBroad i (pd_id p) (answers p)))
  = mkSearchResult (SCandidates acc ++ found_by p)
      (match failed_with p with Some (id, e) => <[id := e]> (SErrors acc) | None => SErrors acc end)
      (SApplicableProviders acc)
      (SEmptyProviders acc ++ match empty_id p with Some id => [id] | None => [] end).
Proof.
  intros Hid Hno. unfold add_broad, found_by, failed_with, empty_id. cbn [b_provider b_answer].
  rewrite bool_decide_eq_false_2 by done. destruct (answers p) as [[|c l]|e].
  - rewrite delete_id by done. done.
  - rewrite delete_id by done. done.
  - by rewrite !app_nil_r.
Qed.

Definition failures (ps : list ProviderAdapter) : gmap text WorkflowError := list_to_map (omap failed_with ps).

Lemma failures_cons p ps :
  failures (p :: ps) = match failed_with p with Some (id, e) => <[id := e]> (failures ps) | None => failures ps end.
Proof. unfold failures. cbn. by destruct (failed_with p) as [[id e]|]. Qed.

Lemma failures_fresh p ps : pd_id p ∉ pd_id <$> ps -> failures ps !! pd_id p = None.
Proof.
  intros Hp. apply not_elem_of_list_to_map_1. intros (pe & E & Hpe)%list_elem_of_fmap.
  apply list_elem_of_omap in Hpe as (q & Hq & Hfq). unfold failed_with in Hfq.
  destruct (answers q); [done|]. injection Hfq as <-. cbn in E. apply Hp. rewrite E. by apply list_elem_of_fmap_2.
Qed.

Lemma failures_spec ps id e :
  NoDup (pd_id <$> ps) -> failures ps !! id = Some e <-> exists p, p ∈ ps /\ pd_id p = id /\ answers p = Err e.
Proof.
  induction ps as [|p ps IH]; intros Hnd.
  { change (failures []) with (∅ : gmap text WorkflowError). rewrite lookup_empty.
    split; [done|]. by intros (p & ?%elem_of_nil & _). }
  rewrite fmap_cons in Hnd. apply NoDup_cons in Hnd as [Hp Hnd]. specialize (IH Hnd).
  rewrite failures_cons. pose proof (failures_fresh p ps Hp) as Hf. unfold failed_with.
  assert (forall q, q ∈ ps -> pd_id q <> pd_id p) as Hne.
  { intros q Hq E. apply Hp. rewrite <- E. by apply list_elem_of_fmap_2. }
  destruct (answers p) as [l|e'] eqn:Ea; [|destruct (decide (id = pd_id p)) as [->|Hid]].
  - rewrite IH. split.
    + intros (q & Hq & Hrest). exists q. split; [by right|done].
    + intros (q & [->|Hq]%elem_of_cons & Hid & Ha); [congruence|by exists q].
  - rewrite lookup_insert_eq. split.
    + intros [= <-]. exists p. split_and!; [left|done|done].
    + intros (q & [->|Hq]%elem_of_cons & Hid & Ha); [congruence|]. by apply Hne in Hid.
  - rewrite lookup_insert_ne by done. rewrite IH. split.
    + intros (q & Hq & Hrest). exists q. split; [by right|done].
    + intros (q & [->|Hq]%elem_of_cons & Hqid & Ha); [by subst|by exists q].
Qed.

Lemma collect_slots ps (g : nat -> nat) acc :
  let part := filter (fun p => applicable query p = true) ps in
  (forall p, p ∈ part -> pd_id p <> []) -> NoDup (pd_id <$> part) ->
  (forall p, p ∈ part -> SErrors acc !! pd_id p = None) ->
  fold_left add_broad (imap (fun i => slot_of (g i)) ps) acc
  = mkSearchResult (SCandidates acc ++ concat (found_by <$> part)) (failures part ∪ SErrors acc)
      (SApplicableProviders acc) (SEmptyProviders acc ++ omap empty_id part).
Proof.
  cbv zeta. revert g acc. induction ps as [|p ps IH]; intros g acc Hid Hnd Hacc.
  { change (failures _) with (∅ : gmap text WorkflowError). rewrite (left_id_L ∅ (∪)).
    cbn. rewrite !app_nil_r. by destruct acc. }
  rewrite imap_cons. cbn [fold_left]. rewrite filter_cons in *.
  assert (slot_of (g 0%nat) p = if applicable query p then Some (mkBroad (g 0%nat) (pd_id p) (answers p)) else None)
    as -> by done.
  destruct (applicable query p) eqn:Ea.
  2: { rewrite decide_False in * by done. exact (IH (g ∘ S) acc Hid Hnd Hacc). }
  rewrite decide_True in * by done. rewrite fmap_cons in Hnd. apply NoDup_cons in Hnd as [Hp Hnd].
  rewrite add_answer by (first [apply Hid|apply Hacc]; left).
  rewrite (IH (g ∘ S)).
  - cbn [SCandidates SApplicableProviders SEmptyProviders SErrors fmap list_fmap concat].
    rewrite failures_cons, <- !app_assoc. f_equal.
    + destruct (failed_with p) as [[id e]|] eqn:Ef; [|done].
      unfold failed_with in Ef. destruct (answers p); [done|]. injection Ef as <- <-.
      rewrite <- insert_union_l, insert_union_r; [done|by apply failures_fresh].
    + cbn. by destruct (empty_id p).
  - intros q Hq. apply Hid. by right.
  - done.
  - intros q Hq. cbn [SErrors]. unfold failed_with. destruct (answers p); [apply Hacc; by right|].
    rewrite lookup_insert_ne; [apply Hacc; by right|]. intros E. apply Hp. rewrite E. by apply list_elem_of_fmap_2.
Qed.

(** C40. A broad search has the same result whatever order the providers answer
    in: the candidates follow the configured provider order, every provider
    taking part is listed, exactly those that failed have an error, and exactly
    those that answered without a candidate count as empty. *)
Theorem broad_search_deterministic (arrivals : list broadResult)
    (Hids : forall p, p ∈ searched -> pd_id p <> [])
    (Hnd : NoDup (pd_id <$> searched))
    (Harr : arrivals ≡ₚ started) :
  let r := collectBroad query providers arrivals in
  SCandidates r = concat (found_by <$> searched)
  /\ SApplicableProviders r = pd_id <$> searched
  /\ (forall id, id ∈ SEmptyProviders r <-> exists p, p ∈ searched /\ pd_id p = id /\ answers p = Ok [])
  /\ (forall id e, SErrors r !! id = Some e <-> exists p, p ∈ searched /\ pd_id p = id /\ answers p = Err e).
Proof.
  cbv zeta. unfold collectBroad. rewrite (ordered_started arrivals Harr).
  rewrite (collect_slots providers id); [|exact Hids|exact Hnd|intros p _; apply lookup_empty].
  fold searched. cbn [SCandidates SApplicableProviders SEmptyProviders SErrors]. cbn [app].
  split_and!; [done|done| |].
  - intros id. rewrite list_elem_of_omap. unfold empty_id. split.
    + intros (p & Hp & He). exists p. destruct (answers p) as [[|]|]; simplify_eq. done.
    + intros (p & Hp & <- & Ha). exists p. by rewrite Ha.
  - intros id e. rewrite (right_id_L ∅ (∪)). by apply failures_spec.
Qed.
End broad.

(** ** The cache *)

Section cache.
Context `{UrlParser} (cache_key : text -> SearchQuery -> text).

Lemma unchanged_members ms :
  existsb (fun mm => negb (bool_decide (RefDownload (fst mm) = RefDownload (snd mm))))
    (combine ms (safe_member <$> ms)) = false -> safe_member <$> ms = ms.
Proof.
  induction ms as [|m ms IH]; [done|]. cbn [fmap list_fmap combine existsb fst snd].
  intros [Hm Hms]%orb_false_iff. rewrite (IH Hms). f_equal. bools. by destruct m; cbn in Hm; subst.
Qed.

(** A candidate no reference of which changes is stored as it is. *)
Lemma unchanged_candidate c : reference_changed c (cache_safe c) = false -> cache_safe c = c.
Proof.
  unfold reference_changed. cbn [cache_safe ResultID DownloadRef Pack]. intros [[Hid Href]%orb_false_iff Hp]%orb_false_iff.
  bools. destruct c; cbn in *. unfold cache_safe. cbn. f_equal; try done.
  destruct Pack as [pack|]; [|done]. cbn in *. f_equal. destruct pack; unfold safe_pack; cbn in *. f_equal.
  by apply unchanged_members.
Qed.

Lemma unchanged_candidates cs :
  cacheReferencesChanged cs (cacheSafeCandidates cs) = false -> cacheSafeCandidates cs = cs.
Proof.
  unfold cacheReferencesChanged, cacheSafeCandidates. induction cs as [|c cs IH]; [done|].
  cbn [fmap list_fmap combine existsb fst snd]. intros [Hc Hcs]%orb_false_iff.
  by rewrite (unchanged_candidate c Hc), (IH Hcs).
Qed.

Definition entry_key (p : ProviderAdapter) (query : SearchQuery) : text :=
  cache_key (pd_id p) query ++ (if bool_decide (pd_version p = []) then [] else t ":" ++ pd_version p).

(** What an asked provider leaves in the cache. *)
Lemma asked_inversion p query now db cs cache' :
  searchProvider cache_key p query now (Some db) = (Ok cs, cache', true) ->
  exists found, cs = DeduplicateCandidates found /\ cache_readable db = true
    /\ cache' = Some (mkCache (<[entry_key p query := mkEntry (pd_id p)
          (Some (mkCached 1 (cacheSafeCandidates cs) (cacheReferencesChanged cs (cacheSafeCandidates cs))))
          (now + searchCacheTTL)]> (cache_rows db)) true true).
Proof.
  unfold searchProvider. destruct (pd_download_available p); [done|]. cbv zeta. fold (entry_key p query).
  set (ask := match pd_search_available p with Some e => _ | None => _ end).
  unfold GetProviderCache. destruct (cache_readable db) eqn:Hread; [|done]. cbn [negb].
  intros Hs. assert (ask = (Ok cs, cache', true)) as Hask.
  { destruct (cache_rows db !! entry_key p query) as [e|]; [|done]. destruct (now <? CEExpires e); [|done].
    destruct e as [prov [cached|] ex]; [|done]. by destruct (_ && _). }
  subst ask. clear Hs. destruct (pd_search_available p); [done|]. destruct (pd_search p query) as [found|]; [|done].
  unfold PutProviderCache in Hask. destruct (cache_writable db) eqn:Hw; [|done].
  injection Hask as Hcs <-. exists found. rewrite Hcs, Hread. done.
Qed.

(** After a provider was asked, the same search within six hours is served
    from the cache, with the same candidates and without asking again (even
    when its search quota is spent since) when storing them changed no
    reference; results whose references had to be sanitized are never served:
    the provider is asked again, or reports that it cannot be. *)
Theorem cache_serves_faithful_results (p p' : ProviderAdapter) (query : SearchQuery) (now now' : instant)
    (db : CacheStore) (cs : list Candidate) (cache' : option CacheStore)
    (Hasked : searchProvider cache_key p query now (Some db) = (Ok cs, cache', true))
    (Hsame : pd_id p' = pd_id p /\ pd_version p' = pd_version p)
    (Havailable : pd_download_available p' = None)
    (Hfresh : now' < now + 6 * hour) :
  let '(answer, cache'', asked) := searchProvider cache_key p' query now' cache' in
  if cacheReferencesChanged cs (cacheSafeCandidates cs)
  then asked = true \/ exists e, pd_search_available p' = Some e /\ answer = Err e
  else answer = Ok cs /\ cache'' = cache' /\ asked = false.
Proof.
  apply asked_inversion in Hasked as (found & Hcs & _ & ->).
  assert (entry_key p' query = entry_key p query) as Hkey by (unfold entry_key; by destruct Hsame as [-> ->]).
  unfold searchProvider. rewrite Havailable. cbv zeta. fold (entry_key p' query). rewrite Hkey.
  unfold GetProviderCache. cbn [cache_readable cache_rows negb]. rewrite lookup_insert_eq. cbn [CEExpires].
  unfold searchCacheTTL. destruct (Z.ltb_spec now' (now + 6 * hour)); [|lia].
  cbn [CachedVersion RequiresRefresh CachedCandidates].
  change (1 =? 1) with true.
  destruct (cacheReferencesChanged cs (cacheSafeCandidates cs)) eqn:Eref; cbn [negb andb].
  - destruct (pd_search_available p') as [e|]; [right; by exists e|].
    destruct (pd_search p' query) as [found'|]; [|by left]. destruct (PutProviderCache _ _ _); by left.
  - rewrite (unchanged_candidates cs Eref). subst cs. split_and!; [|done|done]. f_equal.
    apply dedupe_distinct_id, dedupe_distinct.
Qed.
End cache.

(** ** Concrete searches *)

Definition sample_capabilities : Capabilities := mkCapabilities [] false false false false.

Definition sample_found (provider result : text) : Candidate :=
  {| ProviderID := provider; ResultID := result; CLanguage := t "en"; Kind := MediaMovie; CTitle := t "Heat";
     CAlternateTitles := []; EvidenceVersion := []; CYear := 1995; CSeason := 0; CEpisode := 0;
     CAbsoluteEpisode := 0; CExternalIDs := mkExternalIDs [] 0 0; ReleaseNames := [t "Heat.1995"];
     ReleaseGroups := []; Resolutions := []; ExactHash := false; Forced := false; HearingImpaired := false;
     Rating := (0 # 1)%Q; Popularity := (0 # 1)%Q; DownloadCount := 0; DownloadRef := t "ref";
     DownloadVersion := []; Pack := None; ReleaseNumbered := false |}.

Definition sample_movie : Media :=
  {| SeriesID := 0; EntityID := 1; MRef := mkMediaRef (t "radarr") MediaMovie 1;
     Fingerprint := mkFingerprint (t "/movies/heat.mkv") 1 1 0; MTitle := t "Heat"; EpisodeTitle := [];
     MAlternateTitles := []; MYear := 1995; MSeason := 0; MEpisode := 0; MAbsoluteEpisode := 0;
     EpisodeEnd := 0; AbsoluteEpisodeEnd := 0; MExternalIDs := mkExternalIDs [] 0 0; OriginalFilename := [];
     ReleaseName := []; ReleaseGroup := []; Source := []; Resolution := []; StreamingService := [];
     Edition := []; Quality := []; MDuration := 0; Unsupported := []; ReleasedAt := 0; SeriesType := [] |}.

Definition sample_query : SearchQuery := mkQuery sample_movie (t "en") SearchBroad [].

Definition sample_adapter (id : text) (answer : result WorkflowError (list Candidate)) : ProviderAdapter :=
  mkAdapter id sample_capabilities (fun _ => true) [] None None (fun _ => answer).

Definition sample_adapters : list ProviderAdapter :=
  [sample_adapter (t "os") (Ok [sample_found (t "os") (t "1")]); sample_adapter (t "subdl") (Ok []);
   sample_adapter (t "titlovi") (Err DisabledE)].

Definition sample_answer (p : ProviderAdapter) : result WorkflowError (list Candidate) := pd_search p sample_query.

Lemma broad_search_deterministic_witness :
  SCandidates (collectBroad sample_query sample_adapters (rev (started sample_query sample_adapters sample_answer)))
  = [sample_found (t "os") (t "1")].
Proof.
  refine (eq_trans (proj1 (broad_search_deterministic sample_query sample_adapters sample_answer
    (rev (started sample_query sample_adapters sample_answer)) _ _ _)) _).
  - intros p Hp. unfold searched in Hp. apply list_elem_of_filter in Hp as [_ Hp].
    unfold sample_adapters in Hp. rewrite !elem_of_cons, elem_of_nil in Hp. destruct_or! Hp; subst p; done.
  - apply (bool_decide_unpack _). vm_compute. exact I.
  - symmetry. apply Permutation_rev.
  - reflexivity.
Defined.

#[local] Instance no_urls : UrlParser := fun raw => Some (false, raw).

Definition sample_key (provider : text) (_ : SearchQuery) : text := provider.
Definition empty_cache : CacheStore := mkCache ∅ true true.

Definition sample_first : ProviderAdapter := sample_adapter (t "os") (Ok [sample_found (t "os") (t "1")]).
(** The cache after the provider was asked once. *)
Definition sample_cached : option CacheStore :=
  (searchProvider sample_key sample_first sample_query 0 (Some empty_cache)).1.2.

Lemma sample_asked :
  searchProvider sample_key sample_first sample_query 0 (Some empty_cache)
  = (Ok [sample_found (t "os") (t "1")], sample_cached, true).
Proof.
  assert ((searchProvider sample_key sample_first sample_query 0 (Some empty_cache)).1.1
          = Ok [sample_found (t "os") (t "1")]) as E1 by (vm_compute; reflexivity).
  assert ((searchProvider sample_key sample_first sample_query 0 (Some empty_cache)).2 = true) as E2
    by (vm_compute; reflexivity).
  unfold sample_cached. rewrite <- E1, <- E2. by destruct (searchProvider _ _ _ _ _) as [[answer cache'] asked].
Qed.

Lemma cache_serves_faithful_results_witness :
  searchProvider sample_key (sample_adapter (t "os") (Err DisabledE)) sample_query (5 * hour) sample_cached
  = (Ok [sample_found (t "os") (t "1")], sample_cached, false).
Proof.
  pose proof (cache_serves_faithful_results sample_key sample_first (sample_adapter (t "os") (Err DisabledE))
    sample_query 0 (5 * hour) empty_cache [sample_found (t "os") (t "1")] sample_cached
    sample_asked ltac:(split; reflexivity) eq_refl ltac:(vm_compute; reflexivity)) as Hs.
  destruct (searchProvider sample_key (sample_adapter (t "os") (Err DisabledE)) sample_query (5 * hour)
              sample_cached) as [[answer cache''] asked].
  assert (cacheReferencesChanged [sample_found (t "os") (t "1")]
            (cacheSafeCandidates [sample_found (t "os") (t "1")]) = false) as E by (vm_compute; reflexivity).
  rewrite E in Hs. destruct Hs as (-> & -> & ->). reflexivity.
Defined.
