(* ===== verification/ProviderTiers.v ===== *)
(** * Provider tiers and resumed searches (src/internal/workflow)

    The preferred and the fallback tier of a language (provider_tiers.go) and
    the list of providers a retry may skip (provider_resume.go). The
    acquisition inside a tier (acquire in service.go: searching, downloading,
    timing and installing) is an argument: what it returns and whether the
    context was cancelled by then. *)
From S2P Require Import Prelude GoText GoFloat Domain MatchScore SearchQueue Workflow Coordinator.

#[local] Open Scope Z_scope.

(** ** Errors *)

(** [errors.As] and [errors.Is]: the first match in the tree of wrapped
    errors. *)
Fixpoint error_as {A} (f : WorkflowError -> option A) (e : WorkflowError) : option A :=
  match f e with
  | Some a => Some a
  | None =>
      match e with
      | ExhaustedE e | WrapE e => error_as f e
      | JoinE es => foldr (fun e rest => match error_as f e with Some a => Some a | None => rest end) None es
      | _ => None
      end
  end.

Definition is_exhausted (e : WorkflowError) : bool :=
  bool_decide (is_Some (error_as (fun e => match e with ExhaustedE _ => Some tt | _ => None end) e)).

Definition unavailableReset (failure : WorkflowError) : option instant :=
  match error_as (fun e => match e with CooldownE reset => Some reset | _ => None end) failure with
  | Some reset => Some reset
  | None =>
      match error_as (fun e => match e with QuotaE reset => Some reset | _ => None end) failure with
      | Some reset => Some reset
      | None =>
          match error_as (fun e => match e with DisabledE => Some tt | _ => None end) failure with
          | Some _ => Some zero_time
          | None => None
          end
      end
  end.

(** [None] when some failure is not an unavailability. *)
Fixpoint earliest_reset (failures : list WorkflowError) (earliest : instant) : option instant :=
  match failures with
  | [] => Some earliest
  | failure :: failures =>
      match unavailableReset failure with
      | None => None
      | Some reset =>
          earliest_reset failures
            (if negb (is_zero reset) && (is_zero earliest || (reset <? earliest)) then reset else earliest)
      end
  end.

Definition unavailableErrors (failures : list WorkflowError) : option instant :=
  match failures with [] => None | _ => earliest_reset failures zero_time end.

Definition join_errors (a b : option WorkflowError) : option WorkflowError :=
  match a, b with
  | None, None => None
  | Some a, None => Some (JoinE [a])
  | None, Some b => Some (JoinE [b])
  | Some a, Some b => Some (JoinE [a; b])
  end.

(** [classifyCandidateFailures]: the result and error of a run all of whose
    candidates failed; [None] without failures. *)
Definition with_outcome (outcome : WorkflowOutcome) (retry : instant) (r : Result) : Result :=
  {| ROutcome := outcome; RCandidate := RCandidate r; RScore := RScore r;
     RInstallation := RInstallation r; RRetryAt := retry; RNextUpgrade := RNextUpgrade r;
     RDecisions := RDecisions r; RProviderErrors := RProviderErrors r;
     RResumeProviders := RResumeProviders r; RResumeRouteSignature := RResumeRouteSignature r;
     RRemovedAfter := RRemovedAfter r; RRemovalDeferred := RRemovalDeferred r;
     RcleanEmptyProviders := RcleanEmptyProviders r; RupgradeRecovery := RupgradeRecovery r;
     RretainedInstallation := RretainedInstallation r |}.

Definition classifyCandidateFailures (r : Result) (failures : list WorkflowError)
    : option (Result * option WorkflowError) :=
  match failures with
  | [] => None
  | _ =>
      match unavailableErrors failures with
      | Some retry => Some (with_outcome OutcomeThrottled retry r, None)
      | None => Some (r, Some (ExhaustedE (JoinE failures)))
      end
  end.

(** ** Providers a retry may skip *)

Record providerPhaseEvidence := mkPhase {
  ph_applicable : gset text;
  ph_empty : gset text;
  ph_candidates : gset text;
  ph_errors : gset text;
}.

Definition no_phase : providerPhaseEvidence := mkPhase ∅ ∅ ∅ ∅.

Record providerResumeAccumulator := mkAccumulator { acc_exact : providerPhaseEvidence; acc_broad : providerPhaseEvidence }.

Definition no_evidence : providerResumeAccumulator := mkAccumulator no_phase no_phase.

Definition consume_phase (p : providerPhaseEvidence) (r : SearchResult) : providerPhaseEvidence :=
  mkPhase (ph_applicable p ∪ list_to_set (SApplicableProviders r))
    (ph_empty p ∪ list_to_set (SEmptyProviders r))
    (ph_candidates p ∪ list_to_set (filter (fun id => id <> []) (ProviderID <$> SCandidates r)))
    (ph_errors p ∪ dom (SErrors r)).

Definition consume (a : providerResumeAccumulator) (mode : SearchMode) (r : SearchResult)
    : providerResumeAccumulator :=
  match mode with
  | SearchExactHash => mkAccumulator (consume_phase (acc_exact a) r) (acc_broad a)
  | SearchBroad => mkAccumulator (acc_exact a) (consume_phase (acc_broad a) r)
  end.

Definition hasCleanEmpty (p : providerPhaseEvidence) (id : text) : bool :=
  bool_decide (id ∈ ph_applicable p) && bool_decide (id ∈ ph_empty p).
Definition hasCandidateOrError (p : providerPhaseEvidence) (id : text) : bool :=
  bool_decide (id ∈ ph_candidates p) || bool_decide (id ∈ ph_errors p).

Definition clean (a : providerResumeAccumulator) (id : text) : bool :=
  hasCleanEmpty (acc_broad a) id && negb (hasCandidateOrError (acc_broad a) id)
  && negb (hasCandidateOrError (acc_exact a) id)
  && negb (bool_decide (id ∈ ph_applicable (acc_exact a)) && negb (hasCleanEmpty (acc_exact a) id)).

Definition cleanEmpty (a : providerResumeAccumulator) (providerOrder : list text) : list text :=
  filter (fun id => clean a id = true) providerOrder.

Section resume.
(** Hexadecimal SHA-256 of a byte string. *)
Context (sha256_hex : list N -> text).

Definition providerRouteSignature (language : Language) (preferred fallback : list text) : text :=
  sha256_hex (resume_preimage
    (language :: concat (map (fun id => [t "preferred"; id]) preferred)
              ++ concat (map (fun id => [t "fallback"; id]) fallback))).

Definition RouteSignature (s : Service) (language : Language) : text :=
  providerRouteSignature language (ProviderOrder s) (FallbackProviderOrder s).

Definition ResumeSignature (s : Service) (language : Language) (f : MediaFingerprint) : text :=
  ProviderResumeSignature sha256_hex (RouteSignature s language) f.

Definition membership (s : Service) : list text := ProviderOrder s ++ FallbackProviderOrder s.

Definition with_resume_request (providers : list text) (signature : text) (q : Request) : Request :=
  mkRequest (QMediaID q) (QMedia q) (QLanguage q) (QManual q) (QUpgradeAttempt q) providers signature
    (QReplaceInstalled q).

(** Every id is configured and named once. *)
Fixpoint valid_resume (s : Service) (seen providers : list text) : bool :=
  match providers with
  | [] => true
  | id :: providers =>
      if bool_decide (id = []) || negb (bool_decide (id ∈ membership s)) || bool_decide (id ∈ seen) then false
      else valid_resume s (id :: seen) providers
  end.

Definition validatedResumeRequest (s : Service) (q : Request) : result WorkflowError Request :=
  if QManual q
     || negb (bool_decide (QResumeRouteSignature q
                           = ResumeSignature s (QLanguage q) (Fingerprint (QMedia q))))
  then Ok (with_resume_request [] [] q)
  else if valid_resume s [] (QResumeProviders q) then Ok q else Err InvalidResumeE.

Definition mergeResumeProviders (s : Service) (groups : list (list text)) : list text :=
  filter (fun id => id ∈ concat groups) (membership s).

Definition with_resume_result (providers : list text) (signature : text) (r : Result) : Result :=
  {| ROutcome := ROutcome r; RCandidate := RCandidate r; RScore := RScore r;
     RInstallation := RInstallation r; RRetryAt := RRetryAt r; RNextUpgrade := RNextUpgrade r;
     RDecisions := RDecisions r; RProviderErrors := RProviderErrors r;
     RResumeProviders := providers; RResumeRouteSignature := signature;
     RRemovedAfter := RRemovedAfter r; RRemovalDeferred := RRemovalDeferred r;
     RcleanEmptyProviders := []; RupgradeRecovery := RupgradeRecovery r;
     RretainedInstallation := RretainedInstallation r |}.

Definition finishProviderResume (s : Service) (q : Request) (installed : bool) (r : Result)
    (runErr : option WorkflowError) : Result :=
  let clean := RcleanEmptyProviders r in
  if installed || (negb (bool_decide (is_Some runErr)) && negb (bool_decide (ROutcome r = OutcomeThrottled)))
  then with_resume_result [] [] r
  else
    let providers := mergeResumeProviders s [QResumeProviders q; clean] in
    with_resume_result providers
      (if bool_decide (providers = []) then []
       else ResumeSignature s (QLanguage q) (Fingerprint (QMedia q))) r.
End resume.

(** ** The two tiers *)

(** What [acquire] left behind: its result and error, and the error of the
    context afterwards. *)
Record Acquired := mkAcquired {
  aq_result : Result;
  aq_err : option WorkflowError;
  aq_canceled : option WorkflowError;
}.

Definition tier_service (s : Service) : Service :=
  mkService (ProviderOrder s) (FallbackProviderOrder s)
    (match ProviderOrder s with [] => None | order => Some order end)
    (hasFallbackSearcher s) (MinimumUpgradeDelta s) (MaxUpgradeChecks s) (SAgedAfter s) (SNow s) (SRandomUnit s).

(** The fallback tier searches the fallback providers; the preferred order it
    compares with stays the primary one. *)
Definition fallback_service (s : Service) : Service :=
  mkService (FallbackProviderOrder s) (FallbackProviderOrder s)
    (match ProviderOrder s with [] => None | order => Some order end)
    (hasFallbackSearcher s) (MinimumUpgradeDelta s) (MaxUpgradeChecks s) (SAgedAfter s) (SNow s) (SRandomUnit s).

Definition with_clean (clean : list text) (decisions : list WorkflowDecision) (errors : gmap text WorkflowError)
    (r : Result) : Result :=
  {| ROutcome := ROutcome r; RCandidate := RCandidate r; RScore := RScore r;
     RInstallation := RInstallation r; RRetryAt := RRetryAt r; RNextUpgrade := RNextUpgrade r;
     RDecisions := decisions; RProviderErrors := errors;
     RResumeProviders := RResumeProviders r; RResumeRouteSignature := RResumeRouteSignature r;
     RRemovedAfter := RRemovedAfter r; RRemovalDeferred := RRemovalDeferred r;
     RcleanEmptyProviders := clean; RupgradeRecovery := RupgradeRecovery r;
     RretainedInstallation := RretainedInstallation r |}.

Definition consider (now : instant) (reset next : instant) : instant :=
  if (now <? reset) && (reset <? next) then reset else next.

(** The map of provider errors is read in its random order; the earliest reset
    does not depend on it. *)
Definition preferredRetryAt (r : Result) (now next : instant) : instant :=
  map_fold (fun _ e next =>
      match unavailableErrors [e] with Some reset => consider now reset next | None => next end)
    (consider now (RRetryAt r) next) (RProviderErrors r).

Definition minimal_candidate (provider result : text) (exact : bool) : Candidate :=
  {| ProviderID := provider; ResultID := result; CLanguage := []; Kind := KindUnset; CTitle := [];
     CAlternateTitles := []; EvidenceVersion := []; CYear := 0; CSeason := 0; CEpisode := 0;
     CAbsoluteEpisode := 0; CExternalIDs := mkExternalIDs [] 0 0; ReleaseNames := []; ReleaseGroups := [];
     Resolutions := []; ExactHash := exact; Forced := false; HearingImpaired := false; Rating := (0 # 1)%Q;
     Popularity := (0 # 1)%Q; DownloadCount := 0; DownloadRef := []; DownloadVersion := []; Pack := None;
     ReleaseNumbered := false |}.

Definition retainFallback (s : Service) (r : Result) (err : option WorkflowError) (existing : Installation)
    : Result * option WorkflowError :=
  if bool_decide (is_Some err) || bool_decide (ROutcome r = OutcomeThrottled) then (r, err)
  else
    let existing := if negb (IMediaID (RInstallation r) =? 0) then RInstallation r else existing in
    match installedScore existing with
    | Err e => (r, Some e)
    | Ok (score, exact) =>
        ({| ROutcome := OutcomeSatisfied;
            RCandidate := minimal_candidate (IProviderID existing) (ICandidateID existing) exact;
            RScore := score; RInstallation := existing; RRetryAt := RRetryAt r;
            RNextUpgrade := SNow s + 7 * day; RDecisions := RDecisions r;
            RProviderErrors := RProviderErrors r; RResumeProviders := RResumeProviders r;
            RResumeRouteSignature := RResumeRouteSignature r; RRemovedAfter := RRemovedAfter r;
            RRemovalDeferred := RRemovalDeferred r; RcleanEmptyProviders := RcleanEmptyProviders r;
            RupgradeRecovery := RupgradeRecovery r; RretainedInstallation := RretainedInstallation r |}, None)
    end.

Section tiers.
Context (sha256_hex : list N -> text).
Context (acquire : Service -> Request -> Installation -> bool -> Acquired).
Context (s : Service).

(** The body after both tiers ran. *)
Definition after_fallback (existing_active : bool) (existing : Installation) (first : Acquired) (second : Acquired)
    : Result * option WorkflowError :=
  let first_r := aq_result first in
  let second_r := aq_result second in
  let r := with_clean (mergeResumeProviders s [RcleanEmptyProviders first_r; RcleanEmptyProviders second_r])
             (RDecisions first_r ++ RDecisions second_r)
             (RProviderErrors first_r ∪ RProviderErrors second_r) second_r in
  match aq_canceled second with
  | Some e => (r, join_errors (aq_err second) (Some e))
  | None =>
      if match aq_err second with Some e => negb (is_exhausted e) | None => false end
      then (r, aq_err second)
      else if negb (bool_decide (is_Some (aq_err second))) && bool_decide (ROutcome r = OutcomeInstalled) then
        let next := preferredRetryAt first_r (SNow s) (RNextUpgrade r) in
        (with_next_upgrade next (next <? RNextUpgrade r) r, None)
      else if bool_decide (is_Some (aq_err first)) || bool_decide (is_Some (aq_err second))
      then (r, join_errors (aq_err first) (aq_err second))
      else
        let r := if bool_decide (ROutcome first_r = OutcomeThrottled) then
                   with_outcome OutcomeThrottled
                     (if negb (is_zero (RRetryAt first_r))
                         && (is_zero (RRetryAt r) || (RRetryAt first_r <? RRetryAt r))
                      then RRetryAt first_r else RRetryAt r) r
                 else r in
        if existing_active then retainFallback s r None existing
        else if bool_decide (ROutcome r = OutcomeNoResult) && bool_decide (ROutcome first_r = OutcomeRejected)
        then (with_outcome OutcomeRejected (RRetryAt r) r, None)
        else (r, None)
  end.

(** The body after the preferred tier: the answer, unless the fallback tier is
    searched. *)
Definition after_preferred (q : Request) (existing : Installation) (installed : bool) (first : Acquired)
    : option (Result * option WorkflowError) :=
  let active := installed && InstallationMatchesMedia existing (QMedia q) in
  match aq_canceled first with
  | Some e => Some (aq_result first, join_errors (aq_err first) (Some e))
  | None =>
      if match aq_err first with Some e => negb (is_exhausted e) | None => false end
      then Some (aq_result first, aq_err first)
      else if negb (bool_decide (is_Some (aq_err first)))
              && (bool_decide (ROutcome (aq_result first) = OutcomeInstalled)
                  || bool_decide (ROutcome (aq_result first) = OutcomeSatisfied))
      then Some (aq_result first, None)
      else if negb (hasFallbackSearcher s) || bool_decide (FallbackProviderOrder s = [])
      then Some (aq_result first, aq_err first)
      else if active && negb (isFallbackProvider s (IProviderID existing))
      then Some (aq_result first, aq_err first)
      else if active then
        match installedScore existing with
        | Err _ => Some (aq_result first, Some ScoreDecodeE)
        | Ok (_, true) => Some (retainFallback s (aq_result first) (aq_err first) existing)
        | Ok (_, false) => None
        end
      else None
  end.

(** [runProviderTiers] before its deferred resume step, and whether the
    fallback tier was tried. *)
Definition run_tiers (q : Request) (existing : Installation) (installed : bool)
    : Result * option WorkflowError * bool :=
  let first := acquire (tier_service s) q existing installed in
  match after_preferred q existing installed first with
  | Some answer => (answer, false)
  | None =>
      (after_fallback (installed && InstallationMatchesMedia existing (QMedia q)) existing first
         (acquire (fallback_service s) q existing installed), true)
  end.

Definition runProviderTiers (q : Request) (existing : Installation) (installed : bool)
    : Result * option WorkflowError * bool :=
  let q' := if installed then with_resume_request [] [] q else q in
  let '(r, err, asked) := run_tiers q' existing installed in
  (finishProviderResume sha256_hex s q' installed r err, err, asked).
End tiers.

(** ** Recovery of the preferred tier *)

Lemma consider_spec now reset next :
  consider now reset next <= next
  /\ (now < reset -> consider now reset next <= reset)
  /\ (consider now reset next = next \/ (consider now reset next = reset /\ now < reset)).
Proof. unfold consider. destruct (_ && _) eqn:E; bools; [lia|]. apply andb_false_iff in E as [E|E]; bools; lia. Qed.

Definition resets_of (r : Result) (reset : instant) : Prop :=
  reset = RRetryAt r \/ exists id e, RProviderErrors r !! id = Some e /\ unavailableErrors [e] = Some reset.

Lemma preferredRetryAt_spec r now next :
  let at_ := preferredRetryAt r now next in
  at_ <= next /\ (forall reset, resets_of r reset -> now < reset -> at_ <= reset)
  /\ (at_ = next \/ (now < at_ /\ resets_of r at_)).
Proof.
  cbv zeta. unfold preferredRetryAt, resets_of.
  apply (map_fold_weak_ind (fun at_ m =>
    at_ <= next
    /\ (forall reset, reset = RRetryAt r \/ (exists id e, m !! id = Some e /\ unavailableErrors [e] = Some reset) ->
          now < reset -> at_ <= reset)
    /\ (at_ = next \/ (now < at_
          /\ (at_ = RRetryAt r \/ exists id e, m !! id = Some e /\ unavailableErrors [e] = Some at_))))).
  - destruct (consider_spec now (RRetryAt r) next) as (H1 & H2 & H3). split_and!; [done| |].
    + intros reset [->|(id & e & He & _)] Hr; [auto|by rewrite lookup_empty in He].
    + destruct H3 as [H3|[H3 Hr]]; [by left|]. right. rewrite H3. split; [done|by left].
  - intros id e m at_ Hid (IH1 & IH2 & IH3).
    assert (forall x, (x = RRetryAt r \/ exists id e, m !! id = Some e /\ unavailableErrors [e] = Some x) ->
      x = RRetryAt r \/ exists id' e', <[id := e]> m !! id' = Some e' /\ unavailableErrors [e'] = Some x) as Hmono.
    { intros x [Hx|(id' & e' & He' & Hx)]; [by left|]. right. exists id', e'.
      rewrite lookup_insert_ne; [done|]. intros ->. congruence. }
    destruct (unavailableErrors [e]) as [reset|] eqn:Ee.
    + destruct (consider_spec now reset at_) as (H1 & H2 & H3). split_and!; [lia| |].
      * intros x [Hx|(id' & e' & He' & Hx)] Hnow.
        -- etrans; [exact H1|]. apply IH2; [by left|done].
        -- apply lookup_insert_Some in He' as [[_ <-]|[_ He']].
           ++ rewrite Ee in Hx. injection Hx as ->. auto.
           ++ etrans; [exact H1|]. apply IH2; [|done]. right. by exists id', e'.
      * destruct H3 as [->|[-> Hr]].
        -- destruct IH3 as [?|[? ?]]; [by left|right]. split; [done|by apply Hmono].
        -- right. split; [done|]. right. exists id, e. by rewrite lookup_insert_eq.
    + split_and!; [done| |].
      * intros x [Hx|(id' & e' & He' & Hx)] Hnow; [apply IH2; [by left|done]|].
        apply lookup_insert_Some in He' as [[_ <-]|[_ He']]; [congruence|].
        apply IH2; [|done]. right. by exists id', e'.
      * destruct IH3 as [?|[? ?]]; [by left|right]. split; [done|by apply Hmono].
Qed.

(** ** The tier policy *)

Lemma finish_keeps sha s q installed r err :
  let r' := finishProviderResume sha s q installed r err in
  ROutcome r' = ROutcome r /\ RRetryAt r' = RRetryAt r /\ RNextUpgrade r' = RNextUpgrade r
  /\ RCandidate r' = RCandidate r /\ RInstallation r' = RInstallation r.
Proof. unfold finishProviderResume. cbv zeta. by destruct (_ || _). Qed.

Section policy.
Context (sha256_hex : list N -> text).
Context (acquire : Service -> Request -> Installation -> bool -> Acquired).
Context (s : Service) (q : Request) (existing : Installation) (installed : bool).

Definition tier_request : Request := if installed then with_resume_request [] [] q else q.
Definition first_tier : Acquired := acquire (tier_service s) tier_request existing installed.
Definition second_tier : Acquired := acquire (fallback_service s) tier_request existing installed.
Definition active : bool := installed && InstallationMatchesMedia existing (QMedia q).

(** When the fallback providers may be searched. *)
Definition fallback_allowed : Prop :=
  aq_canceled first_tier = None
  /\ (forall e, aq_err first_tier = Some e -> is_exhausted e = true)
  /\ (aq_err first_tier = None -> ROutcome (aq_result first_tier) <> OutcomeInstalled
                                  /\ ROutcome (aq_result first_tier) <> OutcomeSatisfied)
  /\ FallbackProviderOrder s <> []
  /\ (active = true -> isFallbackProvider s (IProviderID existing) = true
        /\ exists score, installedScore existing = Ok (score, false)).

Lemma run_tiers_asked r err :
  run_tiers acquire s tier_request existing installed = (r, err, true) ->
  fallback_allowed /\ (r, err) = after_fallback s active existing first_tier second_tier.
Proof.
  assert (QMedia tier_request = QMedia q) as Hmedia by (unfold tier_request; by destruct installed).
  unfold run_tiers, after_preferred. cbv zeta. rewrite Hmedia. fold first_tier second_tier active.
  unfold fallback_allowed. generalize first_tier second_tier active. intros first second act.
  destruct (aq_canceled first) as [e|]; [done|].
  destruct (match aq_err first with Some e => negb (is_exhausted e) | None => false end) eqn:Eex; [done|].
  destruct (negb (bool_decide (is_Some (aq_err first))) && _) eqn:Eout; [done|].
  destruct (negb (hasFallbackSearcher s) || _) eqn:Efb; [done|].
  destruct (act && negb (isFallbackProvider s (IProviderID existing))) eqn:Epref; [done|].
  intros Hrun.
  assert ((act = true -> exists score, installedScore existing = Ok (score, false))
          /\ (r, err) = after_fallback s act existing first second) as [Hexact Hr].
  { destruct act; [|by injection Hrun as <-].
    destruct (installedScore existing) as [[score [|]]|e]; [done| |done].
    injection Hrun as <-. split; [by eauto|done]. }
  split; [|done]. split_and!; [done| | | |].
  - intros e He. rewrite He in Eex. by apply negb_false_iff in Eex.
  - intros Hnone. rewrite Hnone, (bool_decide_eq_false_2 (is_Some None)) in Eout by by intros [].
    cbn [negb andb] in Eout. apply orb_false_iff in Eout as [E1 E2]. by bools.
  - apply orb_false_iff in Efb as [_ E]. by bools.
  - intros ->. cbn in Epref. apply negb_false_iff in Epref. auto.
Qed.

Lemma after_fallback_installed act first second r err :
  (r, err) = after_fallback s act existing first second ->
  aq_canceled second = None -> aq_err second = None -> ROutcome (aq_result second) = OutcomeInstalled ->
  err = None /\ ROutcome r = OutcomeInstalled
  /\ RNextUpgrade r <= RNextUpgrade (aq_result second)
  /\ (forall reset, resets_of (aq_result first) reset -> SNow s < reset -> RNextUpgrade r <= reset)
  /\ RupgradeRecovery r = (RNextUpgrade r <? RNextUpgrade (aq_result second)).
Proof.
  unfold after_fallback. cbv zeta. intros Hr Hc He Ho. rewrite Hc, He in Hr. cbn [with_clean ROutcome] in Hr.
  rewrite Ho in Hr. cbn in Hr. injection Hr as -> ->.
  destruct (preferredRetryAt_spec (aq_result first) (SNow s) (RNextUpgrade (aq_result second))) as (H1 & H2 & _).
  by cbn [with_next_upgrade ROutcome RNextUpgrade RupgradeRecovery].
Qed.

(** No failure of either tier is reported as a plain result. *)
Lemma after_fallback_error act first second r :
  (r, None) = after_fallback s act existing first second ->
  aq_canceled second = None /\ aq_err second = None
  /\ (ROutcome (aq_result second) <> OutcomeInstalled -> aq_err first = None).
Proof.
  unfold after_fallback. cbv zeta. destruct (aq_canceled second) as [e|].
  { destruct (aq_err second); done. }
  destruct (aq_err second) as [e2|].
  - destruct (is_exhausted e2); cbn; [|done]. rewrite orb_true_r. destruct (aq_err first); done.
  - cbn. intros Hr. split_and!; [done|done|]. intros Hni. rewrite (bool_decide_eq_false_2 _ Hni) in Hr.
    destruct (aq_err first) as [e1|]; [|done]. done.
Qed.

Lemma after_fallback_throttled act first second r err :
  (r, err) = after_fallback s act existing first second ->
  aq_canceled second = None -> aq_err second = None -> ROutcome (aq_result second) <> OutcomeInstalled ->
  aq_err first = None -> ROutcome (aq_result first) = OutcomeThrottled ->
  err = None /\ ROutcome r = OutcomeThrottled
  /\ (RRetryAt r = RRetryAt (aq_result first) \/ RRetryAt r = RRetryAt (aq_result second))
  /\ (forall reset, reset = RRetryAt (aq_result first) \/ reset = RRetryAt (aq_result second) ->
        is_zero reset = false -> is_zero (RRetryAt r) = false /\ RRetryAt r <= reset).
Proof.
  unfold after_fallback. cbv zeta. intros Hr Hc Hs Hni Hf Ho. rewrite Hc, Hs, Hf, Ho in Hr. cbn in Hr.
  rewrite (bool_decide_eq_false_2 _ Hni) in Hr.
  assert (exists r0, (r, err) = (r0, None) /\ ROutcome r0 = OutcomeThrottled
    /\ RRetryAt r0 = (if negb (is_zero (RRetryAt (aq_result first)))
         && (is_zero (RRetryAt (aq_result second)) || (RRetryAt (aq_result first) <? RRetryAt (aq_result second)))
       then RRetryAt (aq_result first) else RRetryAt (aq_result second))) as (r0 & E & Ho0 & Hr0).
  { destruct act; cbn in Hr; rewrite Hr; eexists; split_and!; done. }
  injection E as -> ->. rewrite Hr0. split_and!; [done|done|case_match; auto|].
  intros reset Hreset Hz.
  destruct (is_zero (RRetryAt (aq_result first))) eqn:Ez1; destruct (is_zero (RRetryAt (aq_result second))) eqn:Ez2;
    cbn [negb andb orb]; try destruct (Z.ltb_spec (RRetryAt (aq_result first)) (RRetryAt (aq_result second)));
    destruct Hreset; subst reset; split; congruence || lia.
Qed.

(** The fallback providers are searched only after the preferred ones were
    exhausted: not after a cancellation or another failure, not when the
    preferred tier settled the search, and never to replace a preferred or an
    exact fallback subtitle of the same file. When the fallback installs a
    subtitle, the next check comes no later than planned and no later than any
    known reset of the preferred tier. A plain result means neither tier
    failed, except for what an installation made up for; and when the preferred
    tier was throttled the search stays throttled until the earliest reset
    either tier knows. *)
Theorem tier_policy :
  let '(r, err, asked) := runProviderTiers sha256_hex acquire s q existing installed in
  asked = true ->
  fallback_allowed
  /\ (aq_canceled second_tier = None -> aq_err second_tier = None ->
      ROutcome (aq_result second_tier) = OutcomeInstalled ->
      err = None /\ ROutcome r = OutcomeInstalled /\ RNextUpgrade r <= RNextUpgrade (aq_result second_tier)
      /\ forall reset, resets_of (aq_result first_tier) reset -> SNow s < reset -> RNextUpgrade r <= reset)
  /\ (err = None -> aq_canceled second_tier = None /\ aq_err second_tier = None
      /\ (ROutcome (aq_result second_tier) <> OutcomeInstalled -> aq_err first_tier = None))
  /\ (aq_canceled second_tier = None -> aq_err second_tier = None -> aq_err first_tier = None ->
      ROutcome (aq_result second_tier) <> OutcomeInstalled ->
      ROutcome (aq_result first_tier) = OutcomeThrottled ->
      err = None /\ ROutcome r = OutcomeThrottled
      /\ forall reset, reset = RRetryAt (aq_result first_tier) \/ reset = RRetryAt (aq_result second_tier) ->
           is_zero reset = false -> is_zero (RRetryAt r) = false /\ RRetryAt r <= reset).
Proof.
  unfold runProviderTiers. fold tier_request.
  destruct (run_tiers acquire s tier_request existing installed) as [[r err] asked] eqn:Hrun.
  intros ->. apply run_tiers_asked in Hrun as [Hallowed Hr].
  destruct (finish_keeps sha256_hex s tier_request installed r err) as (Eo & Er & En & _ & _).
  rewrite Eo, Er, En. split; [done|]. split_and!.
  - intros Hc He Ho. destruct (after_fallback_installed _ _ _ _ _ Hr Hc He Ho) as (H1 & H2 & H3 & H4 & _). done.
  - intros ->. by apply after_fallback_error in Hr.
  - intros Hc He Hf Hni Ho.
    destruct (after_fallback_throttled _ _ _ _ _ Hr Hc He Hni Hf Ho) as (H1 & H2 & _ & H4). done.
Qed.
End policy.

(** ** Skipped providers *)

Definition evidence_of (searches : list (SearchMode * SearchResult)) : providerResumeAccumulator :=
  fold_left (fun a mr => consume a mr.1 mr.2) searches no_evidence.

(** What a phase knows after the searches of its mode. *)
Record phase_of (mode : SearchMode) (searches : list (SearchMode * SearchResult)) (p : providerPhaseEvidence) : Prop := {
  phase_applicable id : id ∈ ph_applicable p <-> exists r, (mode, r) ∈ searches /\ id ∈ SApplicableProviders r;
  phase_empty id : id ∈ ph_empty p <-> exists r, (mode, r) ∈ searches /\ id ∈ SEmptyProviders r;
  phase_candidates id : id <> [] ->
    id ∈ ph_candidates p <-> exists r c, (mode, r) ∈ searches /\ c ∈ SCandidates r /\ ProviderID c = id;
  phase_errors id : id ∈ ph_errors p <-> exists r, (mode, r) ∈ searches /\ is_Some (SErrors r !! id);
}.

Lemma phase_skip mode mode' searches r p :
  mode <> mode' -> phase_of mode searches p -> phase_of mode (searches ++ [(mode', r)]) p.
Proof.
  intros Hne [Ha He Hc Her].
  assert (forall r', (mode, r') ∈ searches ++ [(mode', r)] <-> (mode, r') ∈ searches) as Hin.
  { intros r'. rewrite elem_of_app, list_elem_of_singleton. split; [intros [?|[= ? _]]; done|by left]. }
  split; intros; [rewrite Ha|rewrite He|rewrite Hc by done|rewrite Her]; by setoid_rewrite Hin.
Qed.

Lemma phase_consume mode searches r p :
  phase_of mode searches p -> phase_of mode (searches ++ [(mode, r)]) (consume_phase p r).
Proof.
  intros [Ha He Hc Her].
  assert (forall P : SearchResult -> Prop,
    (exists r', (mode, r') ∈ searches ++ [(mode, r)] /\ P r')
    <-> (exists r', (mode, r') ∈ searches /\ P r') \/ P r) as Hin.
  { intros P. setoid_rewrite elem_of_app. setoid_rewrite list_elem_of_singleton. split.
    - intros (r' & [Hr|[= ->]] & HP); [left; by exists r'|by right].
    - intros [(r' & Hr & HP)|HP]; [exists r'; auto|exists r; auto]. }
  split; cbn [consume_phase ph_applicable ph_empty ph_candidates ph_errors].
  - intros id. rewrite Hin, elem_of_union, Ha, elem_of_list_to_set. done.
  - intros id. rewrite Hin, elem_of_union, He, elem_of_list_to_set. done.
  - intros id Hid.
    assert (forall L : list (SearchMode * SearchResult),
      (exists r' c, (mode, r') ∈ L /\ c ∈ SCandidates r' /\ ProviderID c = id)
      <-> exists r', (mode, r') ∈ L /\ exists c, c ∈ SCandidates r' /\ ProviderID c = id) as Hswap.
    { intros L. split; [intros (r' & c & ? & ?); exists r'; split; [done|by exists c]|
                        intros (r' & ? & c & ?); by exists r', c]. }
    rewrite Hswap, Hin, elem_of_union, Hc, Hswap, elem_of_list_to_set, list_elem_of_filter, list_elem_of_fmap by done.
    naive_solver.
  - intros id. rewrite Hin, elem_of_union, Her, elem_of_dom. done.
Qed.

Lemma evidence_phases searches :
  phase_of SearchExactHash searches (acc_exact (evidence_of searches))
  /\ phase_of SearchBroad searches (acc_broad (evidence_of searches)).
Proof.
  induction searches as [|[mode r] searches IH] using rev_ind.
  { split; split; intros; cbn; (split; [by intros ?%elem_of_empty|]); intros (r & Hr);
      (destruct Hr as [?%elem_of_nil _] || destruct Hr as (c & ?%elem_of_nil & _)); done. }
  unfold evidence_of in *. rewrite fold_left_app. cbn [fold_left fst snd].
  destruct IH as [Hx Hb]. destruct mode; cbn [consume acc_exact acc_broad]; split;
    solve [by apply phase_consume | by apply phase_skip].
Qed.

(** A provider is put on the list a retry may skip only on clean evidence:
    a broad search was applicable to it and it answered one without a
    candidate; no search of the run, exact or broad, got a candidate or an
    error from it; and if an exact search applied to it, it answered one
    without a candidate too. Conversely such a provider is on the list. *)
Theorem resume_skips_only_clean_providers (searches : list (SearchMode * SearchResult)) (order : list text)
    (id : text) (Hid : id <> []) :
  id ∈ cleanEmpty (evidence_of searches) order <->
  id ∈ order
  /\ (exists r, (SearchBroad, r) ∈ searches /\ id ∈ SApplicableProviders r)
  /\ (exists r, (SearchBroad, r) ∈ searches /\ id ∈ SEmptyProviders r)
  /\ (forall mode r, (mode, r) ∈ searches ->
        SErrors r !! id = None /\ forall c, c ∈ SCandidates r -> ProviderID c <> id)
  /\ ((exists r, (SearchExactHash, r) ∈ searches /\ id ∈ SApplicableProviders r) ->
      exists r, (SearchExactHash, r) ∈ searches /\ id ∈ SEmptyProviders r).
Proof.
  destruct (evidence_phases searches) as [[Xa Xe Xc Xr] [Ba Be Bc Br]].
  unfold cleanEmpty, clean, hasCleanEmpty, hasCandidateOrError. rewrite list_elem_of_filter.
  rewrite !andb_true_iff, !negb_true_iff, !orb_false_iff, !andb_false_iff, negb_false_iff, andb_true_iff,
    !bool_decide_eq_true, !bool_decide_eq_false.
  rewrite Xa, Xe, Xc, Xr, Ba, Be, Bc, Br by done. split.
  - intros [[[[Hb [Hbc Hbr]] [Hxc Hxr]] Hx] Hin]. destruct Hb as [Hba Hbe].
    split_and!; [done|done|done| |].
    + intros mode r Hr. split.
      * destruct (SErrors r !! id) eqn:E; [exfalso|done].
        destruct mode; [apply Hxr|apply Hbr]; exists r; rewrite E; by eauto.
      * intros c Hc Hcid. destruct mode; [apply Hxc|apply Hbc]; by exists r, c.
    + intros Ha. destruct Hx as [Hx|[_ Hx]]; [by destruct Hx|done].
  - intros (Hin & Hba & Hbe & Hno & Hx).
    assert (forall mode, ~ (exists r c, (mode, r) ∈ searches /\ c ∈ SCandidates r /\ ProviderID c = id)) as Hc.
    { intros mode (r & c & Hr & Hc & Hcid). by apply (proj2 (Hno mode r Hr) c Hc). }
    assert (forall mode, ~ (exists r, (mode, r) ∈ searches /\ is_Some (SErrors r !! id))) as He.
    { intros mode (r & Hr & e & He). rewrite (proj1 (Hno mode r Hr)) in He. done. }
    split; [|done]. split_and!; try done; try apply Hc; try apply He.
    destruct (decide (id ∈ ph_applicable (acc_exact (evidence_of searches)))) as [Ha|Ha]; rewrite Xa in Ha.
    + right. split; [done|by apply Hx].
    + by left.
Qed.

(** ** Round trip through the queue *)

Lemma valid_resume_filter s (P : text -> Prop) `{!forall x, Decision (P x)} :
  NoDup (membership s) -> (forall id, id ∈ membership s -> id <> []) ->
  valid_resume s [] (filter P (membership s)) = true.
Proof.
  intros Hnd Hne.
  assert (forall l seen, NoDup l -> (forall id, id ∈ l -> id ∈ membership s /\ id ∉ seen) ->
            valid_resume s seen l = true) as Hv.
  { induction l as [|id l IH]; intros seen Hl Hin; [done|]. cbn [valid_resume].
    apply NoDup_cons in Hl as [Hid Hl]. destruct (Hin id ltac:(left)) as [Hm Hs].
    rewrite (bool_decide_eq_false_2 (id = [])) by by apply Hne.
    rewrite (bool_decide_eq_true_2 (id ∈ membership s)), (bool_decide_eq_false_2 (id ∈ seen)) by done.
    cbn [orb negb]. apply IH; [done|]. intros id' Hid'. destruct (Hin id' ltac:(by right)) as [Hm' Hs'].
    split; [done|]. intros [->|?]%elem_of_cons; done. }
  apply Hv; [by apply NoDup_filter|]. intros id [_ Hid]%list_elem_of_filter. split; [done|by intros ?%elem_of_nil].
Qed.

(** The list of a failed or throttled run names only configured providers,
    in the configured order: those the run was allowed to skip and those it
    found clean-empty. Given back by the queue for the same file and routes,
    the next request accepts it unchanged; for another file, language or
    provider route, or a manual search, it is dropped without an error. A run
    that finished, or had a subtitle installed, leaves no list. *)
Theorem resume_roundtrip (sha256_hex : list N -> text) (s : Service) (q q' : Request) (r : Result)
    (err : option WorkflowError) (installed : bool)
    (Hnd : NoDup (membership s)) (Hids : forall id, id ∈ membership s -> id <> []) :
  let r' := finishProviderResume sha256_hex s q installed r err in
  let back := with_resume_request (RResumeProviders r') (RResumeRouteSignature r') q' in
  (forall id, id ∈ RResumeProviders r' -> id ∈ membership s /\ (id ∈ QResumeProviders q \/ id ∈ RcleanEmptyProviders r))
  /\ RResumeProviders r' `sublist_of` membership s
  /\ (installed = true \/ (err = None /\ ROutcome r <> OutcomeThrottled) -> RResumeProviders r' = [])
  /\ (RResumeProviders r' <> [] -> QManual q' = false -> QLanguage q' = QLanguage q ->
      Fingerprint (QMedia q') = Fingerprint (QMedia q) ->
      validatedResumeRequest sha256_hex s back = Ok back)
  /\ (QManual q' = true \/ RResumeRouteSignature r'
        <> ResumeSignature sha256_hex s (QLanguage q') (Fingerprint (QMedia q')) ->
      validatedResumeRequest sha256_hex s back = Ok (with_resume_request [] [] q')).
Proof.
  cbv zeta. unfold finishProviderResume.
  destruct (installed || _) eqn:Eskip.
  - cbn [with_resume_result RResumeProviders RResumeRouteSignature].
    split_and!; [by intros id ?%elem_of_nil|apply sublist_nil_l|done|done|].
    intros Hor. unfold validatedResumeRequest. cbn [with_resume_request QManual QResumeRouteSignature QLanguage QMedia].
    destruct (QManual q'); [done|]. cbn [orb]. destruct Hor as [|Hsig]; [done|].
    by rewrite bool_decide_eq_false_2.
  - cbn [with_resume_result RResumeProviders RResumeRouteSignature].
    apply orb_false_iff in Eskip as [Hinst Hskip].
    set (providers := mergeResumeProviders s [QResumeProviders q; RcleanEmptyProviders r]).
    split_and!.
    + intros id Hid. unfold providers, mergeResumeProviders in Hid. apply list_elem_of_filter in Hid as [Hid Hm].
      split; [done|]. cbn in Hid. rewrite app_nil_r in Hid. by apply elem_of_app.
    + apply sublist_filter.
    + intros [Hi|[-> Ho]]; [by rewrite Hi in Hinst|]. exfalso.
      rewrite (bool_decide_eq_false_2 (is_Some None)), (bool_decide_eq_false_2 _ Ho) in Hskip by by intros [].
      done.
    + intros Hne Hman Hlang Hfp. rewrite (bool_decide_eq_false_2 _ Hne).
      unfold validatedResumeRequest. cbn [with_resume_request QManual QResumeRouteSignature QLanguage QMedia QResumeProviders].
      rewrite Hman, Hlang, Hfp. rewrite bool_decide_eq_true_2 by done. cbn [orb negb].
      unfold providers, mergeResumeProviders. by rewrite valid_resume_filter.
    + intros Hor. unfold validatedResumeRequest. cbn [with_resume_request QManual QResumeRouteSignature QLanguage QMedia].
      destruct (QManual q'); [done|]. cbn [orb]. destruct Hor as [|Hsig]; [done|].
      by rewrite bool_decide_eq_false_2.
Qed.

(** ** Concrete runs *)

Definition sample_service : Service := mkService [t "os"] [t "subdl"] None true 10 8 0 (1000 * hour) (1 # 2)%Q.

Definition sample_request : Request :=
  mkRequest 1 sample_movie (t "en") false 0 [] [] false.

Definition empty_result (outcome : WorkflowOutcome) : Result :=
  {| ROutcome := outcome; RCandidate := minimal_candidate [] [] false; RScore := zero_score;
     RInstallation := no_installation; RRetryAt := zero_time; RNextUpgrade := zero_time; RDecisions := [];
     RProviderErrors := ∅; RResumeProviders := []; RResumeRouteSignature := []; RRemovedAfter := OutcomeUnset;
     RRemovalDeferred := false; RcleanEmptyProviders := [t "subdl"]; RupgradeRecovery := false;
     RretainedInstallation := false |}.

(** The preferred tier finds nothing acceptable; the fallback tier is
    throttled for ten minutes. *)
Definition sample_acquire (s : Service) (_ : Request) (_ : Installation) (_ : bool) : Acquired :=
  if bool_decide (ProviderOrder s = [t "subdl"])
  then mkAcquired (with_outcome OutcomeThrottled (SNow s + 10 * minute) (empty_result OutcomeThrottled)) None None
  else mkAcquired (empty_result OutcomeNoResult) None None.

Definition sample_sha (_ : list N) : text := t "digest".

Lemma tier_policy_witness :
  fallback_allowed sample_acquire sample_service sample_request no_installation false.
Proof.
  pose proof (tier_policy sample_sha sample_acquire sample_service sample_request no_installation false) as Hp.
  assert ((runProviderTiers sample_sha sample_acquire sample_service sample_request no_installation false).2 = true)
    as Ha by (vm_compute; reflexivity).
  destruct (runProviderTiers sample_sha sample_acquire sample_service sample_request no_installation false)
    as [[r err] asked].
  exact (proj1 (Hp Ha)).
Defined.

Lemma resume_skips_only_clean_providers_witness :
  t "os" ∈ cleanEmpty (evidence_of [(SearchBroad, mkSearchResult [] ∅ [t "os"] [t "os"])]) [t "os"; t "subdl"].
Proof.
  apply (resume_skips_only_clean_providers [(SearchBroad, mkSearchResult [] ∅ [t "os"] [t "os"])]
           [t "os"; t "subdl"] (t "os")); [discriminate|].
  split; [left|]. split; [eexists; split; left|]. split; [eexists; split; left|]. split.
  - intros mode r Hr. apply list_elem_of_singleton in Hr. injection Hr as -> ->. split; [reflexivity|].
    intros c Hc. by apply elem_of_nil in Hc.
  - intros (r & Hr & _). apply list_elem_of_singleton in Hr. discriminate.
Defined.

Lemma resume_roundtrip_witness :
  let r' := finishProviderResume sample_sha sample_service sample_request false (empty_result OutcomeThrottled) None in
  RResumeProviders r' = [t "subdl"]
  /\ validatedResumeRequest sample_sha sample_service
       (with_resume_request (RResumeProviders r') (RResumeRouteSignature r') sample_request)
     = Ok (with_resume_request (RResumeProviders r') (RResumeRouteSignature r') sample_request).
Proof.
  cbv zeta. split; [vm_compute; reflexivity|].
  refine (proj1 (proj2 (proj2 (proj2 (resume_roundtrip sample_sha sample_service sample_request sample_request
    (empty_result OutcomeThrottled) None false _ _)))) _ _ _ _); try reflexivity.
  - apply (bool_decide_unpack _). vm_compute. exact I.
  - intros id Hid. unfold membership in Hid. cbn [ProviderOrder FallbackProviderOrder sample_service app] in Hid.
    rewrite !elem_of_cons, elem_of_nil in Hid. destruct_or! Hid; subst id; discriminate.
  - vm_compute. discriminate.
Defined.
