(* ===== verification/RouteGate.v ===== *)
(** * Paused routes

    workflow/route_availability.go, the router's PausedRoutes (app/app.go) and
    worker/route_gate.go: a language route whose providers can all not download
    now is excluded from the next search lease, for every file of a media kind
    or only for multi-episode files. *)
From S2P Require Import Prelude GoText GoFloat Domain MatchScore SearchQueue Schedule Workflow Coordinator ProviderTiers.

#[local] Open Scope Z_scope.

Record RouteStatus := mkRouteStatus {
  Paused : bool;
  RtResetAt : instant;
  ProviderCount : Z;
  RangesPaused : bool;
  RangesResetAt : instant;
}.

Record routeAvailability := mkAvailability { ra_count : Z; ra_available : bool; ra_resetAt : instant }.

Definition no_providers : routeAvailability := mkAvailability 0 false zero_time.

(** [reset] is [None] for a provider that can download. *)
Definition add (reset : option instant) (a : routeAvailability) : routeAvailability :=
  match reset with
  | None => mkAvailability (ra_count a + 1) true (ra_resetAt a)
  | Some reset =>
      mkAvailability (ra_count a + 1) (ra_available a)
        (if negb (is_zero reset) && (is_zero (ra_resetAt a) || (reset <? ra_resetAt a)) then reset else ra_resetAt a)
  end.

Definition paused (a : routeAvailability) : bool := (0 <? ra_count a) && negb (ra_available a).

(** The providers of a language, preferred and fallback, and what their ids
    name. *)
Record route := mkRoute {
  Providers : gmap text ProviderAdapter;
  ProviderOrder : list text;
  FallbackProviderOrder : list text;
}.

(** When a provider is back; a failure that does not say so ends the check. *)
Definition provider_reset (item : ProviderAdapter) : result WorkflowError (option instant) :=
  match pd_download_available item with
  | None => Ok None
  | Some e => match unavailableReset e with Some reset => Ok (Some reset) | None => Err e end
  end.

Fixpoint route_scan (r : route) (kind : MediaKind) (ids : list text) (all ranges : routeAvailability)
    : result WorkflowError (routeAvailability * routeAvailability) :=
  match ids with
  | [] => Ok (all, ranges)
  | id :: ids =>
      match Providers r !! id with
      | None => route_scan r kind ids all ranges
      | Some item =>
          if negb (SupportsMediaKind item kind) then route_scan r kind ids all ranges
          else
            let! reset := provider_reset item in
            route_scan r kind ids (add reset all)
              (if bool_decide (kind = MediaEpisode) && negb (SingleEpisodeOnly (pd_capabilities item))
               then add reset ranges else ranges)
      end
  end.

Definition RouteAvailability (r : route) (kind : MediaKind) : result WorkflowError RouteStatus :=
  let! (all, ranges) := route_scan r kind (ProviderOrder r ++ FallbackProviderOrder r) no_providers no_providers in
  Ok (if paused all then mkRouteStatus true (ra_resetAt all) (ra_count all) false zero_time
      else if paused ranges then mkRouteStatus false zero_time (ra_count ranges) true (ra_resetAt ranges)
      else mkRouteStatus false zero_time 0 false zero_time).

Record RoutePause := mkPause { PRouteKey : RouteKey; PResetAt : instant; PProviderCount : Z }.

Definition route_pause (language : Language) (kind : MediaKind) (s : RouteStatus) : list RoutePause :=
  if Paused s then [mkPause (mkRouteKey language kind false) (RtResetAt s) (ProviderCount s)]
  else if RangesPaused s then [mkPause (mkRouteKey language kind true) (RangesResetAt s) (ProviderCount s)]
  else [].

Fixpoint pauses_of (routes : list (Language * route)) : result WorkflowError (list RoutePause) :=
  match routes with
  | [] => Ok []
  | (language, r) :: routes =>
      let! episodes := RouteAvailability r MediaEpisode in
      let! movies := RouteAvailability r MediaMovie in
      let! rest := pauses_of routes in
      Ok (route_pause language MediaEpisode episodes ++ route_pause language MediaMovie movies ++ rest)
  end.

(** The routes of the configured languages, by language. *)
Definition PausedRoutes (router : gmap Language route) : result WorkflowError (list RoutePause) :=
  pauses_of (stable_sort (fun a b => text_lt a.1 b.1) (map_to_list router)).

(** The keys to exclude and the pauses remembered for the next check. [None] is
    a worker without a gate. *)
Definition pausedRouteKeys (routes : option (gmap Language route)) (known : list RoutePause)
    : result WorkflowError (list RouteKey * list RoutePause) :=
  match routes with
  | None => Ok ([], known)
  | Some router => let! pauses := PausedRoutes router in Ok (PRouteKey <$> pauses, pauses)
  end.

(** ** The providers of a route *)

(** The route's providers for a media kind, in order. *)
Definition serving (r : route) (kind : MediaKind) : list ProviderAdapter :=
  filter (fun p => SupportsMediaKind p kind = true) (omap (fun id => Providers r !! id) (ProviderOrder r ++ FallbackProviderOrder r)).
Definition covers_ranges (p : ProviderAdapter) : Prop := SingleEpisodeOnly (pd_capabilities p) = false.
#[export] Instance covers_ranges_dec p : Decision (covers_ranges p) := bool_eq_dec _ _.

(** It cannot download now. *)
Definition down (p : ProviderAdapter) : Prop := is_Some (pd_download_available p).

(** Nobody of a group can download. *)
Definition all_down (ps : list ProviderAdapter) : Prop := ps <> [] /\ Forall down ps.

Definition reset_of (p : ProviderAdapter) : option instant := pd_download_available p ≫= unavailableReset.
(** Failures that say when the provider is back, or that it is disabled. *)
Definition explained (p : ProviderAdapter) : Prop := is_Some (pd_download_available p) -> is_Some (reset_of p).

Definition counted (ps : list ProviderAdapter) (a : routeAvailability) : routeAvailability :=
  fold_left (fun a p => add (reset_of p) a) ps a.

Lemma provider_reset_spec p reset : provider_reset p = Ok reset -> explained p /\ reset_of p = reset.
Proof.
  unfold provider_reset, explained, reset_of. destruct (pd_download_available p) as [e|]; cbn.
  - destruct (unavailableReset e) as [x|]; [|done]. intros [= <-]. by split.
  - intros [= <-]. split; [by intros [? ?]|done].
Qed.

Lemma route_scan_spec r kind ids all ranges out :
  route_scan r kind ids all ranges = Ok out ->
  let ps := filter (fun p => SupportsMediaKind p kind = true) (omap (fun id => Providers r !! id) ids) in
  Forall explained ps
  /\ out = (counted ps all, if decide (kind = MediaEpisode) then counted (filter covers_ranges ps) ranges else ranges).
Proof.
  revert all ranges. induction ids as [|id ids IH]; intros all ranges; cbn [route_scan].
  { intros [= <-]. split; [by constructor|]. cbn. by destruct (decide _). }
  cbn [omap list_omap]. destruct (Providers r !! id) as [item|]; [|apply IH].
  rewrite filter_cons. destruct (SupportsMediaKind item kind) eqn:Es; cbn [negb];
    [rewrite decide_True by done|rewrite decide_False by done; apply IH].
  destruct (provider_reset item) as [reset|e] eqn:Er; [|done]. apply provider_reset_spec in Er as [He <-].
  cbn [rbind]. intros [Hes ->]%IH. split; [by constructor|]. cbn [counted fold_left]. f_equal.
  destruct (decide (kind = MediaEpisode)) as [->|Hk]; [rewrite bool_decide_true by done|by rewrite bool_decide_false].
  cbn [andb]. rewrite filter_cons. destruct (decide (covers_ranges item)) as [Hc|Hc]; unfold covers_ranges in Hc.
  - rewrite Hc. done.
  - apply not_false_iff_true in Hc. by rewrite Hc.
Qed.

Lemma counted_spec ps a : Forall explained ps ->
  ra_count (counted ps a) = ra_count a + Z.of_nat (length ps)
  /\ (ra_available (counted ps a) = false <-> ra_available a = false /\ Forall down ps).
Proof.
  revert a. induction ps as [|p ps IH]; intros a He; cbn [counted fold_left length].
  { split; [lia|]. split; [by split|by intros []]. }
  apply Forall_cons in He as [He Hes]. destruct (IH (add (reset_of p) a) Hes) as [Hc Ha].
  fold (counted ps (add (reset_of p) a)). rewrite Hc, Ha, Forall_cons. unfold explained, reset_of, down in *.
  destruct (pd_download_available p) as [e|]; cbn in *.
  - destruct He as [reset ->]; [by eexists|]. cbn. split; [lia|]. split; [intros []; by split_and!|intros (? & ? & ?); by split].
  - split; [lia|]. split; [by intros []|intros (_ & [? [=]] & _)].
Qed.

Lemma paused_spec ps : Forall explained ps -> paused (counted ps no_providers) = true <-> all_down ps.
Proof.
  intros He. destruct (counted_spec ps no_providers He) as [Hc Ha]. unfold paused, all_down. rewrite Hc.
  rewrite andb_true_iff, Z.ltb_lt, negb_true_iff, Ha. cbn [ra_count ra_available no_providers]. split.
  - intros (Hn & _ & Hd). split; [by intros ->|done].
  - intros [Hn Hd]. split; [destruct ps; [done|cbn [length]; lia]|by split].
Qed.

(** ** Which searches wait *)

Lemma filtered_forall (P Q : ProviderAdapter -> Prop) `{forall p, Decision (P p)} ps : Forall Q ps -> Forall Q (filter P ps).
Proof. rewrite !Forall_forall. intros Hall p [_ Hp]%list_elem_of_filter. auto. Qed.

Lemma availability_spec r kind s : RouteAvailability r kind = Ok s ->
  (Paused s = true <-> all_down (serving r kind))
  /\ (Paused s = false -> RangesPaused s = true <-> kind = MediaEpisode /\ all_down (filter covers_ranges (serving r kind))).
Proof.
  unfold RouteAvailability. destruct (route_scan _ _ _ _ _) as [[all ranges]|] eqn:E; [|done]. cbn [rbind].
  apply route_scan_spec in E as [He [= -> ->]]. fold (serving r kind) in *. intros [= <-].
  pose proof (paused_spec _ He) as Hp.
  pose proof (paused_spec (filter covers_ranges (serving r kind)) ltac:(by apply filtered_forall)) as Hr.
  destruct (paused (counted (serving r kind) no_providers)); cbn [Paused RangesPaused]; [split; [done|done]|].
  destruct (decide (kind = MediaEpisode)) as [->|Hk].
  - destruct (paused (counted (filter covers_ranges (serving r MediaEpisode)) no_providers)); cbn [Paused RangesPaused];
      (split; [done|]; intros _; split; [intros H|intros [_ H]]).
    all: first [split; [done|by apply Hr]|done|by apply Hr in H].
  - cbn. split; [done|]. intros _. split; [done|by intros []].
Qed.

(** A search of a file of [kind] is excluded. *)
Definition waits (kind : MediaKind) (range : bool) (r : route) : Prop :=
  all_down (serving r kind)
  \/ range = true /\ kind = MediaEpisode /\ all_down (filter covers_ranges (serving r kind)).

Lemma route_pause_keys language kind s r m l :
  RouteAvailability r kind = Ok s ->
  existsb (fun p => route_paused m l (PRouteKey p)) (route_pause language kind s) = true
  <-> l = language /\ media_kind m = kind /\ waits kind (media_episode m <? media_episode_end m) r.
Proof.
  intros [Hp Hr]%availability_spec. unfold route_pause, waits, route_paused.
  destruct (Paused s); cbn [existsb PRouteKey RLanguage RKind RangesOnly negb orb].
  - rewrite orb_false_r, andb_true_r, andb_true_iff, !bool_decide_eq_true.
    assert (all_down (serving r kind)) by by apply Hp. tauto.
  - assert (~ all_down (serving r kind)) as Hn by (intros H; by apply Hp in H).
    specialize (Hr eq_refl). destruct (RangesPaused s); cbn [existsb PRouteKey RLanguage RKind RangesOnly negb orb].
    + rewrite orb_false_r, !andb_true_iff, !bool_decide_eq_true.
      assert (kind = MediaEpisode /\ all_down (filter covers_ranges (serving r kind))) by by apply Hr. tauto.
    + split; [done|]. intros (_ & _ & [H|(_ & H)]); [done|]. by apply Hr in H.
Qed.

Lemma pauses_of_spec routes pauses m l :
  NoDup routes.*1 -> pauses_of routes = Ok pauses ->
  existsb (fun p => route_paused m l (PRouteKey p)) pauses = true
  <-> exists r, (l, r) ∈ routes /\ media_kind m <> KindUnset
                /\ waits (media_kind m) (media_episode m <? media_episode_end m) r.
Proof.
  revert pauses. induction routes as [|[language r] routes IH]; intros pauses; cbn [pauses_of].
  { intros _ [= <-]. cbn. split; [done|]. by intros (r & H%not_elem_of_nil & _). }
  intros [_ Hnd]%NoDup_cons. destruct (RouteAvailability r MediaEpisode) as [se|] eqn:Ee; [|done]. cbn [rbind].
  destruct (RouteAvailability r MediaMovie) as [sm|] eqn:Em; [|done]. cbn [rbind].
  destruct (pauses_of routes) as [rest|] eqn:Er; [|done]. cbn [rbind]. intros [= <-].
  rewrite !existsb_app, !orb_true_iff, (route_pause_keys _ _ _ _ _ _ Ee), (route_pause_keys _ _ _ _ _ _ Em), (IH rest Hnd eq_refl).
  split.
  - intros [(-> & Hk & Hw)|[(-> & Hk & Hw)|(r' & Hin & Hw)]].
    + exists r. rewrite Hk. split_and!; [left|done|done].
    + exists r. rewrite Hk. split_and!; [left|done|done].
    + exists r'. split; [by right|done].
  - intros (r' & [[= -> ->]|Hin]%elem_of_cons & Hk & Hw); [|right; right; by exists r'].
    destruct (media_kind m); [done|right; left|left]; by split_and!.
Qed.

(** A due search is left out of the next lease for its route exactly when no
    provider of its language could download for it now: every provider of its
    media kind is down, or, for a multi-episode file, every one that covers
    ranges. *)
Theorem route_waits_exactly (router : gmap Language route) known keys pauses (m : media_row) (l : Language) :
  pausedRouteKeys (Some router) known = Ok (keys, pauses) ->
  existsb (route_paused m l) keys = true
  <-> exists r, router !! l = Some r /\ media_kind m <> KindUnset
                /\ waits (media_kind m) (media_episode m <? media_episode_end m) r.
Proof.
  unfold pausedRouteKeys, PausedRoutes. destruct (pauses_of _) as [ps|] eqn:E; [|done]. cbn [rbind]. intros [= <- <-].
  assert (existsb (route_paused m l) (PRouteKey <$> ps) = existsb (fun p => route_paused m l (PRouteKey p)) ps) as ->.
  { clear E. induction ps as [|p ps IH]; [done|]. cbn. by rewrite IH. }
  rewrite (pauses_of_spec (stable_sort (fun a b => text_lt a.1 b.1) (map_to_list router)) ps m l); [|rewrite stable_sort_perm; apply NoDup_fst_map_to_list|exact E].
  split; intros (r & Hin & Hw); exists r; (split; [|done]); revert Hin; rewrite stable_sort_perm, elem_of_map_to_list; done.
Qed.

(** When the earliest of them is back; the zero time when all are disabled. *)
Definition is_earliest (reset : instant) (ps : list ProviderAdapter) : Prop :=
  (reset = zero_time \/ exists p, p ∈ ps /\ reset_of p = Some reset)
  /\ forall p x, p ∈ ps -> reset_of p = Some x -> x <> zero_time -> reset <> zero_time /\ reset <= x.

Lemma counted_reset ps a (qs : list ProviderAdapter) :
  is_earliest (ra_resetAt a) qs -> is_earliest (ra_resetAt (counted ps a)) (qs ++ ps).
Proof.
  revert a qs. induction ps as [|p ps IH]; intros a qs Ha; cbn [counted fold_left]; [by rewrite app_nil_r|].
  rewrite cons_middle, app_assoc. apply IH. destruct Ha as [Hin Hmin]. unfold add.
  assert (forall reset : instant, (reset = zero_time \/ exists p, p ∈ qs /\ reset_of p = Some reset) ->
    reset = zero_time \/ exists p0, p0 ∈ qs ++ [p] /\ reset_of p0 = Some reset) as Hweak.
  { intros reset [?|(p0 & ? & ?)]; [by left|right]. exists p0. split; [|done]. apply elem_of_app. by left. }
  destruct (reset_of p) as [x|] eqn:Ex; cbn [ra_resetAt].
  - destruct (negb (is_zero x) && (is_zero (ra_resetAt a) || (x <? ra_resetAt a))) eqn:Ec; unfold is_zero in Ec.
    + split.
      * right. exists p. split; [apply elem_of_app; right; left|done].
      * intros p' y [Hp|Hp]%elem_of_app Hy Hne.
        -- destruct (Hmin p' y Hp Hy Hne) as [Hn Hle]. apply andb_true_iff in Ec as [Ec1 Ec2].
           apply orb_true_iff in Ec2 as [Ec2|Ec2]; bools; [done|]. split; [done|lia].
        -- apply list_elem_of_singleton in Hp as ->. rewrite Ex in Hy. injection Hy as <-. bools. split; [done|lia].
    + split; [by apply Hweak|]. intros p' y [Hp|Hp]%elem_of_app Hy Hne; [by eapply Hmin|].
      apply list_elem_of_singleton in Hp as ->. rewrite Ex in Hy. injection Hy as <-.
      apply andb_false_iff in Ec as [Ec|Ec]; bools; [done|]. split; [done|lia].
  - split; [by apply Hweak|]. intros p' y [Hp|Hp]%elem_of_app Hy Hne; [by eapply Hmin|].
    apply list_elem_of_singleton in Hp as ->. congruence.
Qed.

(** A paused route is back when the first of its providers is. *)
Lemma paused_until_earliest r kind s :
  RouteAvailability r kind = Ok s -> Paused s = true -> is_earliest (RtResetAt s) (serving r kind).
Proof.
  unfold RouteAvailability. destruct (route_scan _ _ _ _ _) as [[all ranges]|] eqn:E; [|done]. cbn [rbind].
  apply route_scan_spec in E as [He [= -> ->]]. fold (serving r kind). intros [= <-].
  destruct (paused (counted (serving r kind) no_providers)); [intros _|by destruct (paused _)]. cbn [RtResetAt].
  apply (counted_reset _ no_providers []). split; [by left|]. by intros p x ?%not_elem_of_nil.
Qed.

(** Two providers, one of them for single episodes only. *)
Definition sample_adapter (single : bool) (failure : option WorkflowError) : ProviderAdapter :=
  mkAdapter [] (mkCapabilities [] true false false single) (fun _ => true) [] failure None (fun _ => Ok []).
Definition sample_route : route :=
  mkRoute {[ t "subdl" := sample_adapter true None; t "titlovi" := sample_adapter false (Some (CooldownE 900)) ]}
    [t "subdl"] [t "titlovi"].
Definition sample_range (last : Z) : media_row :=
  mkMediaRow false (t "sonarr") MediaEpisode 1 last [] (mkFingerprint (t "/tv/e1.mkv") 7 100 0) sample_order.

Lemma route_waits_exactly_witness :
  existsb (route_paused (sample_range 2) (t "en")) [mkRouteKey (t "en") MediaEpisode true] = true
  /\ existsb (route_paused (sample_range 0) (t "en")) [mkRouteKey (t "en") MediaEpisode true] = false.
Proof.
  assert (pausedRouteKeys (Some {[ t "en" := sample_route ]}) []
          = Ok ([mkRouteKey (t "en") MediaEpisode true], [mkPause (mkRouteKey (t "en") MediaEpisode true) 900 1])) as E.
  { by vm_compute. }
  split.
  - apply (route_waits_exactly _ _ _ _ (sample_range 2) (t "en") E). exists sample_route. split; [reflexivity|].
    split; [discriminate|]. right. split; [reflexivity|]. split; [reflexivity|].
    split; [discriminate|]. apply Forall_forall. intros p Hp. vm_compute in Hp.
    apply list_elem_of_singleton in Hp as ->. by eexists.
  - by vm_compute.
Defined.
