(* ===== verification/Rejections.v ===== *)
(** * Candidate rejections (src/internal/store, src/internal/workflow)

    A candidate that can never be installed for a file is recorded so that no
    later search tries it again: the [candidate_rejections] table and the
    strikes of [candidate_lapse_failures] (repository.go, user_rejection.go),
    and the workflow's side of service.go: which rows a lookup asks for, which
    failures are rejections, and which stored rows still count. The owner's
    rejections (reason [user_...]) are kept apart from subsyncd's own. *)
From S2P Require Import Prelude GoText Paths Regex GoFloat Domain MatchScore SearchQueue Schedule Workflow Coordinator ProviderTiers.

#[local] Open Scope Z_scope.

(** ** The tables *)

Record CandidateRejection := mkRejection {
  RjMediaID : Z;
  RjLanguage : Language;
  RjProviderID : text;
  RjResultID : text;
  RjCandidateSignature : text;
  RjArtifactChecksum : text;
  RjReasonCode : text;
  RjToolSignature : text;
  RjMediaPath : text;
  RjMediaFileID : Z;
  RjMediaSize : Z;
  RjMediaModTimeNS : Z;
  RjRejectedAt : instant;
}.

Record CandidateLapseFailure := mkLapseFailure {
  LfRejection : CandidateRejection;
  LfFailureSignature : text;
  LfObservedAt : instant;
}.

(** The columns of the unique index of each table. *)
Abbreviation file_id := (text * Z * Z * Z)%type.
Abbreviation row_key := (Z * text * text * text * text * text * text)%type.
Abbreviation strike_key := (row_key * file_id * text)%type.

Definition rejection_key (r : CandidateRejection) : row_key :=
  (RjMediaID r, RjLanguage r, RjProviderID r, RjResultID r, RjCandidateSignature r, RjArtifactChecksum r,
   RjToolSignature r).

Definition rejection_file (r : CandidateRejection) : file_id :=
  (RjMediaPath r, RjMediaFileID r, RjMediaSize r, RjMediaModTimeNS r).

Definition strike_key_of (f : CandidateLapseFailure) : strike_key :=
  (rejection_key (LfRejection f), rejection_file (LfRejection f), LfFailureSignature f).

(** A strike is its key and its occurrence count; the observation times are
    never read. *)
Record RejectionTables := mkTables {
  rejections : list CandidateRejection;
  strikes : list (strike_key * Z);
  known_media : gset Z;
}.

Inductive RejectionError := RejectionIncomplete | LapseFailureIncomplete | NotTheOwners | UnknownMedia.

Definition UserRejectionPrefix : text := t "user_".
Definition AnyCandidateSignature : text := t "*".

Definition IsUserRejection (reasonCode : text) : bool := has_prefix UserRejectionPrefix reasonCode.

(** [reason_code LIKE 'user\_%' ESCAPE '\']; [LIKE] ignores the case of ASCII
    letters. *)
Definition ascii_lower_rune (r : rune) : rune := if ascii_upper r then (r + 32)%N else r.
Definition userReasonSQL (reasonCode : text) : bool :=
  has_prefix UserRejectionPrefix (map ascii_lower_rune reasonCode).

Definition validateCandidateRejectionIdentity (r : CandidateRejection) : bool :=
  negb ((RjMediaID r <=? 0) || bool_decide (RjLanguage r = []) || bool_decide (RjProviderID r = [])
        || bool_decide (RjResultID r = []) || bool_decide (RjCandidateSignature r = [])
        || bool_decide (RjToolSignature r = []) || bool_decide (RjMediaPath r = [])).

Definition validateCandidateRejection (r : CandidateRejection) : bool :=
  validateCandidateRejectionIdentity r && negb (bool_decide (RjReasonCode r = [])) && negb (is_zero (RjRejectedAt r)).

Definition validateCandidateLapseFailure (f : CandidateLapseFailure) : bool :=
  let r := LfRejection f in
  negb (bool_decide (RjArtifactChecksum r = []) || bool_decide (LfFailureSignature f = [])
        || is_zero (LfObservedAt f))
  && negb ((RjMediaFileID r <=? 0) || (RjMediaSize r <? 0))
  && validateCandidateRejectionIdentity r.

Definition with_reason (reason : text) (at_ : instant) (r : CandidateRejection) : CandidateRejection :=
  mkRejection (RjMediaID r) (RjLanguage r) (RjProviderID r) (RjResultID r) (RjCandidateSignature r)
    (RjArtifactChecksum r) reason (RjToolSignature r) (RjMediaPath r) (RjMediaFileID r) (RjMediaSize r)
    (RjMediaModTimeNS r) at_.

(** The conflict clause of the upsert: the row takes the new file and time, and
    keeps its reason when that is the owner's. *)
Definition merge_rejection (old new : CandidateRejection) : CandidateRejection :=
  if userReasonSQL (RjReasonCode old) then with_reason (RjReasonCode old) (RjRejectedAt new) new else new.

Fixpoint upsert_rejection (new : CandidateRejection) (rows : list CandidateRejection) : list CandidateRejection :=
  match rows with
  | [] => [new]
  | old :: rows =>
      if bool_decide (rejection_key old = rejection_key new) then merge_rejection old new :: rows
      else old :: upsert_rejection new rows
  end.

Definition putCandidateRejection (r : CandidateRejection) (db : RejectionTables)
    : result RejectionError RejectionTables :=
  if bool_decide (RjMediaID r ∈ known_media db)
  then Ok (mkTables (upsert_rejection r (rejections db)) (strikes db) (known_media db))
  else Err UnknownMedia.

Definition PutCandidateRejection (r : CandidateRejection) (db : RejectionTables)
    : result RejectionError RejectionTables :=
  if validateCandidateRejection r then putCandidateRejection r db else Err RejectionIncomplete.

(** The rejection row of [RecordUserRejection]; its queue update is
    [queueUserRejection] of SearchQueue.v. *)
Definition putUserRejection (r : CandidateRejection) (db : RejectionTables)
    : result RejectionError RejectionTables :=
  if negb (validateCandidateRejection r) then Err RejectionIncomplete
  else if negb (IsUserRejection (RjReasonCode r)) then Err NotTheOwners
  else putCandidateRejection r db.

(** The occurrence count of a strike, 0 without a row. *)
Fixpoint strike_count (k : strike_key) (rows : list (strike_key * Z)) : Z :=
  match rows with
  | [] => 0
  | (k', n) :: rows => if bool_decide (k' = k) then n else strike_count k rows
  end.

Fixpoint set_strike (k : strike_key) (n : Z) (rows : list (strike_key * Z)) : list (strike_key * Z) :=
  match rows with
  | [] => [(k, n)]
  | (k', n') :: rows => if bool_decide (k' = k) then (k, n) :: rows else (k', n') :: set_strike k n rows
  end.

Definition lapse_repeated_empty_exit : text := t "lapse_repeated_empty_exit".

Definition RecordCandidateLapseFailure (f : CandidateLapseFailure) (db : RejectionTables)
    : result RejectionError (bool * RejectionTables) :=
  if negb (validateCandidateLapseFailure f) then Err LapseFailureIncomplete
  else if negb (bool_decide (RjMediaID (LfRejection f) ∈ known_media db)) then Err UnknownMedia
  else
    let k := strike_key_of f in
    let occurrences := if strike_count k (strikes db) =? 0 then 1 else Z.min 2 (strike_count k (strikes db) + 1) in
    if occurrences <? 2
    then Ok (false, mkTables (rejections db) (set_strike k occurrences (strikes db)) (known_media db))
    else
      let confirmed := with_reason lapse_repeated_empty_exit (LfObservedAt f) (LfRejection f) in
      let! db' := putCandidateRejection confirmed db in
      Ok (true, mkTables (rejections db') (filter (fun s => s.1 <> k) (strikes db)) (known_media db')).

Definition ClearCandidateRejections (mediaID : Z) (language : Language) (db : RejectionTables) : RejectionTables :=
  mkTables
    (filter (fun r => ~ (RjMediaID r = mediaID /\ RjLanguage r = language /\ userReasonSQL (RjReasonCode r) = false))
       (rejections db))
    (filter (fun s => ~ (s.1.1.1.1.1.1.1.1.1 = mediaID /\ s.1.1.1.1.1.1.1.1.2 = language)) (strikes db))
    (known_media db).

(** The rows [ClearUserRejections] removes, and how many. *)
Definition ClearUserRejectionRows (mediaID : Z) (language : Language) (db : RejectionTables)
    : Z * RejectionTables :=
  let gone r := RjMediaID r = mediaID /\ RjLanguage r = language /\ userReasonSQL (RjReasonCode r) = true in
  (Z.of_nat (length (filter gone (rejections db))),
   mkTables (filter (fun r => ~ gone r) (rejections db)) (strikes db) (known_media db)).

(** ** Lookups *)

Record CandidateRejectionLookup := mkLookup {
  LkMediaID : Z;
  LkLanguage : Language;
  LkProviderID : text;
  LkResultID : text;
  LkCandidateSignature : text;
  LkArtifactChecksum : text;
  LkToolSignature : text;
  LkFile : file_id;
  LkExcludeReasonCodes : list text;
  LkToolIndependentReasonCodes : list text;
}.

Definition user_row_matches (l : CandidateRejectionLookup) (r : CandidateRejection) : bool :=
  userReasonSQL (RjReasonCode r)
  && (bool_decide (RjCandidateSignature r = LkCandidateSignature l)
      || bool_decide (RjCandidateSignature r = AnyCandidateSignature)).

Definition system_row_matches (l : CandidateRejectionLookup) (r : CandidateRejection) : bool :=
  bool_decide (RjCandidateSignature r = LkCandidateSignature l)
  && (bool_decide (RjToolSignature r = LkToolSignature l)
      || bool_decide (RjReasonCode r ∈ LkToolIndependentReasonCodes l))
  && (bool_decide (LkArtifactChecksum l = []) || bool_decide (RjArtifactChecksum r = LkArtifactChecksum l))
  && negb (bool_decide (RjReasonCode r ∈ LkExcludeReasonCodes l)).

(** The [WHERE] clause of [GetCandidateRejection]. *)
Definition row_matches (l : CandidateRejectionLookup) (r : CandidateRejection) : bool :=
  (RjMediaID r =? LkMediaID l) && bool_decide (RjLanguage r = LkLanguage l)
  && bool_decide (RjProviderID r = LkProviderID l) && bool_decide (RjResultID r = LkResultID l)
  && bool_decide (rejection_file r = LkFile l)
  && (user_row_matches l r || system_row_matches l r).

(** The latest matching row; rows of one time come in an order SQLite does not
    promise, here the table's. *)
Definition GetCandidateRejection (l : CandidateRejectionLookup) (db : RejectionTables) : option CandidateRejection :=
  match filter (fun r => row_matches l r = true) (rejections db) with
  | [] => None
  | r :: rs => Some (best_by (fun a b => RjRejectedAt b <? RjRejectedAt a) r rs)
  end.

(** ** Which failures are rejections *)

Definition asserted {A} (f : WorkflowError -> option A) (e : WorkflowError) : bool :=
  bool_decide (is_Some (f e)).

(** [rejectionReasonCode]; the empty code is no rejection. *)
Definition rejectionReasonCode (failure : WorkflowError) : text :=
  let verdict := error_as (fun e => match e with VerdictE v => Some v | _ => None end) failure in
  let selection := error_as (fun e => match e with SelectionE r => Some r | _ => None end) failure in
  let content := error_as (fun e => match e with ContentE => Some tt | _ => None end) failure in
  let installContent := match failure with SubtitleE code => Some code | _ => None end in
  if asserted (fun e => match e with InvalidOutputE => Some tt | _ => None end) failure
  then t "lapse_invalid_output"
  else if asserted (fun e => match e with TooFewCuesE => Some tt | _ => None end) failure
  then t "lapse_too_few_cues"
  else if bool_decide (verdict = Some (t "unsure")) || bool_decide (verdict = Some (t "nothing"))
  then t "lapse_" ++ default [] verdict
  else if bool_decide (is_Some selection) then t "pack_selection"
  else match installContent with
       | Some (_ :: _ as code) => code
       | _ => if bool_decide (is_Some content) || bool_decide (is_Some installContent)
              then t "invalid_subtitle" else []
       end.

Definition isMediaValidationRejection (failure : WorkflowError) : bool :=
  bool_decide (is_Some (error_as (fun e => match e with NoSpeechE => Some tt | _ => None end) failure)).

Definition hasProcessExitError (failure : WorkflowError) : bool :=
  bool_decide (is_Some (error_as (fun e => match e with ProcessExitE _ _ _ => Some tt | _ => None end) failure)).

(** [singleProcessExitError]: along a chain of single wrappings only. *)
Fixpoint singleProcessExitError (failure : WorkflowError) : option (Z * bool * bool) :=
  match failure with
  | ProcessExitE code stdoutEmpty stderrEmpty => Some (code, stdoutEmpty, stderrEmpty)
  | WrapE e | ExhaustedE e => singleProcessExitError e
  | _ => None
  end.

(** ** Rules versions *)

Definition SubtitleRulesVersion : Z := 2.
Definition SelectionRulesVersion : Z := 3.

Definition subtitle_rules (version : Z) : text := t "/subtitle-rules-v" ++ itoa version.
Definition selection_rules (version : Z) : text := t "/pack-selection-v" ++ itoa version.

Definition rejectionRulesVersion (reasonCode : text) : text :=
  if bool_decide (reasonCode = t "invalid_subtitle") then subtitle_rules SubtitleRulesVersion
  else if bool_decide (reasonCode = t "pack_selection") then selection_rules SelectionRulesVersion
  else [].

Definition exhaustedRulesVersion : text :=
  rejectionRulesVersion (t "invalid_subtitle") ++ rejectionRulesVersion (t "pack_selection").

Definition versionedRejectionReasons : list text := [t "invalid_subtitle"; t "pack_selection"].
Definition toolIndependentRejectionReasons : list text :=
  [t "invalid_subtitle"; t "language_mismatch"; t "partial_coverage"].

Definition rejectionFollowsTool (reasonCode : text) : bool :=
  negb (bool_decide (reasonCode ∈ toolIndependentRejectionReasons)).

(** The suffix [recordCandidateRejection] adds to the candidate signature. *)
Definition recorded_suffix (failure : WorkflowError) : text :=
  let selection := error_as (fun e => match e with SelectionE r => Some r | _ => None end) failure in
  if bool_decide (selection = Some (t "versions_exhausted")) then exhaustedRulesVersion
  else rejectionRulesVersion (rejectionReasonCode failure).

Definition subtitleRulesInfix : regex := Cat (lit (t "/subtitle-rules-v")) (Cat (Plus dig) Eol).

Definition fingerprint_file (f : MediaFingerprint) : file_id :=
  (FpPath f, FpFileID f, FpSize f, FpModTime f).

(** [FindString]: the matched text, empty without a match. *)
Definition find_string (re : regex) (s : text) : text :=
  match find re s with Some m => slice s (s_start m) (s_end m) | None => [] end.

Definition RejectionActive (tool : text) (r : CandidateRejection) (f : MediaFingerprint) : bool :=
  if negb (bool_decide (rejection_file r = fingerprint_file f)) then false
  else if IsUserRejection (RjReasonCode r) then true
  else if rejectionFollowsTool (RjReasonCode r) && negb (bool_decide (RjToolSignature r = tool)) then false
  else
    let suffix := rejectionRulesVersion (RjReasonCode r) in
    if bool_decide (suffix = []) then true
    else if negb (has_suffix suffix (RjCandidateSignature r)) then false
    else
      match find_string subtitleRulesInfix (trim_suffix suffix (RjCandidateSignature r)) with
      | [] => true
      | version => bool_decide (version = rejectionRulesVersion (t "invalid_subtitle"))
      end.

(** ** Identities *)

Record LapsePolicy := mkPolicy {
  Mode : text;
  BypassScore : Z;
  RequireIdentityAnchor : bool;
  RequireEpisodeEvidence : bool;
  RequireReleaseGroup : bool;
  LapseForPacks : bool;
  LapseForUpgrades : bool;
}.

Definition DefaultLapsePolicy : LapsePolicy := mkPolicy (t "confidence") 75 true true true true true.

Definition normalized (p : LapsePolicy) : LapsePolicy :=
  if bool_decide (Mode p = []) then DefaultLapsePolicy
  else if BypassScore p =? 0
  then mkPolicy (Mode p) (BypassScore DefaultLapsePolicy) (RequireIdentityAnchor p) (RequireEpisodeEvidence p)
         (RequireReleaseGroup p) (LapseForPacks p) (LapseForUpgrades p)
  else p.

Definition syncDisabled (p : LapsePolicy) : bool := bool_decide (Mode p = t "never").

#[export] Instance PackMemberRef_eq_dec : EqDecision PackMemberRef.
Proof. solve_decision. Defined.

(** [slices.Compact]. *)
Fixpoint compact {A} `{EqDecision A} (l : list A) : list A :=
  match l with
  | x :: (y :: _) as l => if bool_decide (x = y) then compact l else x :: compact l
  | l => l
  end.

Definition sorted_set (l : list text) : list text := compact (stable_sort text_lt l).

(** The numbering evidence of an episode, the fields of the anonymous struct of
    [candidateSignature]; zero ends are left out of its encoding. *)
Record NumberingEvidence := mkNumbering {
  NeSeason : Z; NeEpisode : Z; NeAbsoluteEpisode : Z; NeEpisodeTitle : text;
  NeEpisodeEnd : Z; NeAbsoluteEpisodeEnd : Z;
}.

Section identity.
(** SHA-256 in hexadecimal, and [encoding/json]. *)
Context (sha256_hex : list N -> text).
Context (json_candidate : Candidate -> list N) (json_member : PackMemberRef -> list N)
        (json_numbering : NumberingEvidence -> list N) (json_policy : LapsePolicy -> list N).

Definition without_download (m : PackMemberRef) : PackMemberRef :=
  mkMemberRef (RefID m) (RefFilename m) [] (RefSeason m) (RefEpisode m) (RefAbsolute m).

Definition safe_pack (p : PackInfo) : PackInfo :=
  mkPackInfo (Scope p) (PSeason p) (EpisodeFrom p) (EpisodeTo p) (AbsoluteFrom p) (AbsoluteTo p)
    (compact (stable_sort (fun a b => text_lt (json_member a) (json_member b)) (without_download <$> DirectMembers p))).

(** What a signature is taken of: volatile fields cleared, lists sorted. *)
Definition signature_candidate (c : Candidate) : Candidate :=
  {| ProviderID := ProviderID c; ResultID := ResultID c; CLanguage := CLanguage c; Kind := Kind c;
     CTitle := CTitle c; CAlternateTitles := sorted_set (CAlternateTitles c);
     EvidenceVersion := EvidenceVersion c; CYear := CYear c; CSeason := CSeason c; CEpisode := CEpisode c;
     CAbsoluteEpisode := CAbsoluteEpisode c; CExternalIDs := CExternalIDs c;
     ReleaseNames := sorted_set (ReleaseNames c); ReleaseGroups := sorted_set (ReleaseGroups c);
     Resolutions := sorted_set (Resolutions c); ExactHash := ExactHash c; Forced := Forced c;
     HearingImpaired := HearingImpaired c; Rating := (0 # 1)%Q; Popularity := (0 # 1)%Q; DownloadCount := 0;
     DownloadRef := []; DownloadVersion := DownloadVersion c; Pack := safe_pack <$> Pack c;
     ReleaseNumbered := false |}.

Definition numbering_evidence (m : Media) : NumberingEvidence :=
  mkNumbering (MSeason m) (MEpisode m) (MAbsoluteEpisode m) (EpisodeTitle m)
    (if IsEpisodeRange m then EpisodeEnd m else 0) (if IsEpisodeRange m then AbsoluteEpisodeEnd m else 0).

(** The floats of a signed candidate are cleared, so encoding cannot fail. *)
Definition candidateSignature (c : Candidate) (m : Media) : text :=
  let payload := json_candidate (signature_candidate c) in
  sha256_hex
    (if bool_decide (RefKind (MRef m) = MediaEpisode)
     then payload ++ json_numbering (numbering_evidence m) ++ bytes_of (t "/episode-selection-v2")
     else payload).

(** The first 8 bytes of the digest, 16 hexadecimal digits. *)
Definition RejectionToolSignature (baseline : option text) (p : LapsePolicy) : text :=
  t "lapse-" ++ default (t "unknown") baseline ++ t "/policy-" ++ take 16 (sha256_hex (json_policy (normalized p))).

Definition scoped_signature (scope : text) (c : Candidate) (m : Media) : text :=
  candidateSignature c m ++ (if bool_decide (scope = []) then [] else t "/member-" ++ scope).

(** [candidateRejectionIdentity] under a tool signature; [scope] is the
    request's [memberScope]. *)
Definition candidateRejectionIdentity (tool : text) (q : Request) (scope : text) (c : Candidate)
    (artifactChecksum : text) : CandidateRejection :=
  let f := Fingerprint (QMedia q) in
  mkRejection (QMediaID q) (QLanguage q) (ProviderID c) (ResultID c) (scoped_signature scope c (QMedia q))
    artifactChecksum [] tool (FpPath f) (FpFileID f) (FpSize f) (FpModTime f) zero_time.

(** The lookups [candidateRejection] makes until one finds a row. *)
Definition rejection_lookups (id : CandidateRejection) : list CandidateRejectionLookup :=
  let lookup suffix excluded :=
    mkLookup (RjMediaID id) (RjLanguage id) (RjProviderID id) (RjResultID id) (RjCandidateSignature id ++ suffix)
      (RjArtifactChecksum id) (RjToolSignature id) (rejection_file id) excluded toolIndependentRejectionReasons in
  lookup [] versionedRejectionReasons
  :: ((fun suffix => lookup suffix [])
      <$> [rejectionRulesVersion (t "invalid_subtitle"); rejectionRulesVersion (t "pack_selection");
           exhaustedRulesVersion]).

Fixpoint first_rejection (ls : list CandidateRejectionLookup) (db : RejectionTables) : option CandidateRejection :=
  match ls with
  | [] => None
  | l :: ls => match GetCandidateRejection l db with Some r => Some r | None => first_rejection ls db end
  end.

Definition candidateRejection (tool : text) (q : Request) (scope : text) (c : Candidate) (artifactChecksum : text)
    (db : RejectionTables) : option CandidateRejection :=
  first_rejection (rejection_lookups (candidateRejectionIdentity tool q scope c artifactChecksum)) db.

(** The row [recordCandidateRejection] writes for a failure. *)
Definition rejection_row (tool : text) (q : Request) (scope : text) (c : Candidate) (artifactChecksum : text)
    (failure : WorkflowError) (now : instant) : CandidateRejection :=
  let f := Fingerprint (QMedia q) in
  mkRejection (QMediaID q) (QLanguage q) (ProviderID c) (ResultID c)
    (scoped_signature scope c (QMedia q) ++ recorded_suffix failure) artifactChecksum (rejectionReasonCode failure)
    tool (FpPath f) (FpFileID f) (FpSize f) (FpModTime f) now.
End identity.

(** ** Rules versions in signatures *)

Lemma has_suffix_spec e s : has_suffix e s = true <-> exists s', s = s' ++ e.
Proof.
  unfold has_suffix. rewrite has_prefix_spec. split; intros [s' Hs].
  - exists (rev s'). by rewrite <- (rev_involutive s), Hs, rev_app_distr, rev_involutive.
  - exists (rev s'). by rewrite Hs, rev_app_distr.
Qed.

Lemma split_last s e : no_slash e -> split_rune slash (s ++ slash :: e) = split_rune slash s ++ [e].
Proof.
  intros He. induction s as [|r s IH].
  - change ([] ++ slash :: e) with ([] ++ slash :: e). rewrite (split_app [] e); [|constructor].
    by rewrite split_no_slash.
  - simpl app. cbn [split_rune]. rewrite IH. destruct (N.eqb r slash); [done|].
    destruct (split_rune slash s) eqn:E; [by apply split_rune_nonempty in E|done].
Qed.

(** A text ends in one way after its last slash. *)
Lemma tail_inj s s' e e' : no_slash e -> no_slash e' -> s ++ slash :: e = s' ++ slash :: e' -> s = s' /\ e = e'.
Proof.
  intros He He' H. apply (f_equal (split_rune slash)) in H. rewrite !split_last in H by done.
  apply app_inj_tail in H as [H ->]. split; [|done].
  by rewrite <- (join_split slash s), <- (join_split slash s'), H.
Qed.

Lemma digits_no_slash ds : Forall (fun r => ascii_digit r = true) ds -> no_slash ds.
Proof.
  intros H. unfold no_slash. eapply Forall_impl; [exact H|]. intros r Hr. apply N.eqb_neq. intros ->. done.
Qed.

(** No rules version ends the signature yet. *)
Definition unversioned (s : text) : Prop :=
  forall a ds, Forall (fun r => ascii_digit r = true) ds ->
    s <> a ++ t "/subtitle-rules-v" ++ ds /\ s <> a ++ t "/pack-selection-v" ++ ds.

Definition hexadecimal (s : text) : Prop := Forall (fun r => (ascii_digit r || between 97 102 r) = true) s.

Lemma hexadecimal_no_slash s : hexadecimal s -> no_slash s.
Proof.
  intros H. eapply Forall_impl; [exact H|]. intros r Hr. apply N.eqb_neq. intros ->. done.
Qed.

Lemma no_slash_word w ds :
  no_slash (t w) -> Forall (fun r => ascii_digit r = true) ds -> no_slash (t w ++ ds).
Proof. intros Hw Hds. apply Forall_app. split; [done|by apply digits_no_slash]. Qed.

Ltac no_slash_literal := unfold no_slash; cbn; repeat constructor.

Lemma denotes_infix b w r :
  denotes subtitleRulesInfix b w r <->
  exists ds, w = t "/subtitle-rules-v" ++ ds /\ r = [] /\ ds <> [] /\ Forall (fun x => ascii_digit x = true) ds.
Proof.
  unfold subtitleRulesInfix. rewrite denotes_cat. setoid_rewrite denotes_lit.
  setoid_rewrite denotes_cat. setoid_rewrite denotes_plus_chr. setoid_rewrite denotes_eol. split.
  - intros (u & v & -> & -> & ds & v' & -> & [Hne Hds] & [-> ->]). exists ds. by rewrite (right_id_L [] (++)).
  - intros (ds & -> & -> & Hne & Hds). exists (t "/subtitle-rules-v"), ds.
    split_and!; [done|done|]. exists ds, []. by rewrite (right_id_L [] (++)).
Qed.

Lemma subtitle_tail a a' ds ds' :
  Forall (fun r => ascii_digit r = true) ds -> Forall (fun r => ascii_digit r = true) ds' ->
  a ++ t "/subtitle-rules-v" ++ ds = a' ++ t "/subtitle-rules-v" ++ ds' -> a = a' /\ ds = ds'.
Proof.
  intros Hds Hds' H.
  change (t "/subtitle-rules-v") with (slash :: t "subtitle-rules-v") in H.
  apply tail_inj in H as [Ha H]; [|apply (no_slash_word "subtitle-rules-v"); [no_slash_literal|done]..].
  by apply app_inv_head in H.
Qed.

Lemma selection_tail a a' ds ds' :
  Forall (fun r => ascii_digit r = true) ds -> Forall (fun r => ascii_digit r = true) ds' ->
  a ++ t "/pack-selection-v" ++ ds = a' ++ t "/pack-selection-v" ++ ds' -> a = a' /\ ds = ds'.
Proof.
  intros Hds Hds' H.
  change (t "/pack-selection-v") with (slash :: t "pack-selection-v") in H.
  apply tail_inj in H as [Ha H]; [|apply (no_slash_word "pack-selection-v"); [no_slash_literal|done]..].
  by apply app_inv_head in H.
Qed.

Lemma rules_differ a a' ds ds' :
  Forall (fun r => ascii_digit r = true) ds -> Forall (fun r => ascii_digit r = true) ds' ->
  a ++ t "/subtitle-rules-v" ++ ds <> a' ++ t "/pack-selection-v" ++ ds'.
Proof.
  intros Hds Hds' H.
  change (t "/subtitle-rules-v") with (slash :: t "subtitle-rules-v") in H.
  change (t "/pack-selection-v") with (slash :: t "pack-selection-v") in H.
  apply tail_inj in H as [_ H]; [done|apply (no_slash_word "subtitle-rules-v"); [no_slash_literal|done]|
    apply (no_slash_word "pack-selection-v"); [no_slash_literal|done]].
Qed.

Lemma find_infix_some a ds :
  ds <> [] -> Forall (fun r => ascii_digit r = true) ds ->
  find_string subtitleRulesInfix (a ++ t "/subtitle-rules-v" ++ ds) = t "/subtitle-rules-v" ++ ds.
Proof.
  intros Hne Hds. unfold find_string.
  destruct (find_complete subtitleRulesInfix a (t "/subtitle-rules-v" ++ ds) []) as [m Hm].
  { apply denotes_infix. by exists ds. }
  rewrite (right_id_L [] (++)) in Hm. rewrite Hm.
  apply find_denotes in Hm as (b & w & r & Hs & Hd & -> & ->).
  apply denotes_infix in Hd as (ds' & -> & -> & _ & Hds'). rewrite (right_id_L [] (++)) in Hs.
  apply subtitle_tail in Hs as [-> ->]; [|done..].
  unfold slice. rewrite drop_app_length. rewrite take_ge; [done|]. lia.
Qed.

Lemma find_infix_none s : unversioned s -> find_string subtitleRulesInfix s = [].
Proof.
  intros Hu. unfold find_string. destruct (find subtitleRulesInfix s) as [m|] eqn:E; [|done].
  apply find_denotes in E as (b & w & r & Hs & Hd & _).
  apply denotes_infix in Hd as (ds & -> & -> & _ & Hds). rewrite (right_id_L [] (++)) in Hs.
  by destruct (Hu b ds Hds) as [Hn _].
Qed.

Lemma hexadecimal_unversioned h : hexadecimal h -> unversioned h.
Proof.
  intros Hh%hexadecimal_no_slash a ds _. split; intros ->; apply Forall_app in Hh as [_ Hh];
    by inversion Hh.
Qed.

Lemma scoped_unversioned h scope :
  hexadecimal h -> hexadecimal scope -> unversioned (h ++ t "/member-" ++ scope).
Proof.
  intros Hh Hs a ds Hds. split; intros H; change (t "/member-") with (slash :: t "member-") in H;
    [change (t "/subtitle-rules-v") with (slash :: t "subtitle-rules-v") in H
    |change (t "/pack-selection-v") with (slash :: t "pack-selection-v") in H];
    (apply tail_inj in H as [_ H]; [done| |apply no_slash_word; [no_slash_literal|done]]);
    (apply Forall_app; split; [no_slash_literal|by apply hexadecimal_no_slash]).
Qed.

(** ** Which stored rows count *)

(** [r] was recorded for the candidate of signature [s], by this or an earlier
    version of the rules. [rec_bare] is a row of a version that did not name
    its rules. *)
Inductive recorded (s : text) (r : CandidateRejection) : Prop :=
| rec_owner :
    IsUserRejection (RjReasonCode r) = true ->
    RjCandidateSignature r = s \/ RjCandidateSignature r = AnyCandidateSignature -> recorded s r
| rec_plain :
    userReasonSQL (RjReasonCode r) = false -> RjReasonCode r ∉ versionedRejectionReasons ->
    RjCandidateSignature r = s -> recorded s r
| rec_bare :
    RjReasonCode r ∈ versionedRejectionReasons -> RjCandidateSignature r = s -> recorded s r
| rec_subtitle v :
    0 <= v -> RjReasonCode r = t "invalid_subtitle" -> RjCandidateSignature r = s ++ subtitle_rules v -> recorded s r
| rec_selection v :
    0 <= v -> RjReasonCode r = t "pack_selection" -> RjCandidateSignature r = s ++ selection_rules v -> recorded s r
| rec_exhausted v w :
    0 <= v -> 0 <= w -> RjReasonCode r = t "pack_selection" ->
    RjCandidateSignature r = s ++ subtitle_rules v ++ selection_rules w -> recorded s r.

(** The suffix part of a lookup. *)
Definition signature_matches (tool s suffix : text) (excluded : list text) (r : CandidateRejection) : bool :=
  (userReasonSQL (RjReasonCode r)
   && (bool_decide (RjCandidateSignature r = s ++ suffix)
       || bool_decide (RjCandidateSignature r = AnyCandidateSignature)))
  || (bool_decide (RjCandidateSignature r = s ++ suffix)
      && (bool_decide (RjToolSignature r = tool) || negb (rejectionFollowsTool (RjReasonCode r)))
      && negb (bool_decide (RjReasonCode r ∈ excluded))).

Definition some_lookup (tool s : text) (r : CandidateRejection) : bool :=
  signature_matches tool s [] versionedRejectionReasons r
  || signature_matches tool s (subtitle_rules 2) [] r
  || signature_matches tool s (selection_rules 3) [] r
  || signature_matches tool s (subtitle_rules 2 ++ selection_rules 3) [] r.

Lemma owner_is_sql reason : IsUserRejection reason = true -> userReasonSQL reason = true.
Proof.
  unfold IsUserRejection, userReasonSQL. rewrite !has_prefix_spec. intros [s ->].
  exists (map ascii_lower_rune s). by rewrite map_app.
Qed.

Lemma reason_not_sql reason : reason ∈ versionedRejectionReasons -> userReasonSQL reason = false.
Proof. unfold versionedRejectionReasons. set_unfold. by intros [->|[->|]]. Qed.

Lemma no_suffix s suffix : unversioned s -> suffix ∈ [subtitle_rules 2; selection_rules 3] -> has_suffix suffix s = false.
Proof.
  intros Hu Hin. apply not_true_iff_false. rewrite has_suffix_spec. intros [a ->].
  assert (Forall (fun r => ascii_digit r = true) (itoa 2) /\ Forall (fun r => ascii_digit r = true) (itoa 3)) as [H2 H3]
    by (split; apply itoa_digits; lia).
  revert Hin. set_unfold. intros [->|[->|[]]].
  - by destruct (Hu a _ H2) as [Hn _].
  - by destruct (Hu a _ H3) as [_ Hn].
Qed.

Lemma app_ne_self {A} (s e : list A) : e <> [] -> s ++ e = s -> False.
Proof. intros He H. apply He. rewrite <- (right_id_L [] (++) s) in H at 2. by apply app_inv_head in H. Qed.

(** The suffixes name their versions. *)
Lemma subtitle_rules_inj a a' v w :
  0 <= v -> 0 <= w -> a ++ subtitle_rules v = a' ++ subtitle_rules w -> a = a' /\ itoa v = itoa w.
Proof. intros. by apply subtitle_tail; [apply itoa_digits..|]. Qed.

Lemma selection_rules_inj a a' v w :
  0 <= v -> 0 <= w -> a ++ selection_rules v = a' ++ selection_rules w -> a = a' /\ itoa v = itoa w.
Proof. intros. by apply selection_tail; [apply itoa_digits..|]. Qed.

Lemma rules_disjoint a a' v w : 0 <= v -> 0 <= w -> a ++ subtitle_rules v = a' ++ selection_rules w -> False.
Proof. intros ?? H. by apply rules_differ in H; [|apply itoa_digits..]. Qed.

Lemma subtitle_nonempty v : subtitle_rules v <> [].
Proof. done. Qed.
Lemma selection_nonempty v : selection_rules v <> [].
Proof. done. Qed.
#[local] Hint Resolve subtitle_nonempty selection_nonempty : core.

Definition tool_holds (tool : text) (r : CandidateRejection) : bool :=
  bool_decide (RjToolSignature r = tool) || negb (rejectionFollowsTool (RjReasonCode r)).

(** What is left of a lookup for a row subsyncd recorded. *)
Lemma signature_matches_system tool s suffix excluded r :
  userReasonSQL (RjReasonCode r) = false ->
  signature_matches tool s suffix excluded r
  = bool_decide (RjCandidateSignature r = s ++ suffix) && tool_holds tool r
    && negb (bool_decide (RjReasonCode r ∈ excluded)).
Proof. intros Hu. unfold signature_matches, tool_holds. by rewrite Hu. Qed.

Lemma some_lookup_system tool s r :
  userReasonSQL (RjReasonCode r) = false ->
  some_lookup tool s r
  = tool_holds tool r
    && (bool_decide (RjCandidateSignature r = s) && negb (bool_decide (RjReasonCode r ∈ versionedRejectionReasons))
        || bool_decide (RjCandidateSignature r = s ++ subtitle_rules 2)
        || bool_decide (RjCandidateSignature r = s ++ selection_rules 3)
        || bool_decide (RjCandidateSignature r = s ++ subtitle_rules 2 ++ selection_rules 3)).
Proof.
  intros Hu. unfold some_lookup. rewrite !signature_matches_system, (right_id_L [] (++)) by done.
  rewrite (bool_decide_eq_false_2 (RjReasonCode r ∈ [])) by set_solver.
  by destruct (tool_holds tool r), (bool_decide (RjCandidateSignature r = s)),
    (bool_decide (RjCandidateSignature r = s ++ subtitle_rules 2)),
    (bool_decide (RjCandidateSignature r = s ++ selection_rules 3)),
    (bool_decide (RjCandidateSignature r = s ++ subtitle_rules 2 ++ selection_rules 3)),
    (bool_decide (RjReasonCode r ∈ versionedRejectionReasons)).
Qed.

(** [RejectionActive] once the file matches. *)
Definition suffix_holds (r : CandidateRejection) : bool :=
  let suffix := rejectionRulesVersion (RjReasonCode r) in
  bool_decide (suffix = [])
  || has_suffix suffix (RjCandidateSignature r)
     && (bool_decide (find_string subtitleRulesInfix (trim_suffix suffix (RjCandidateSignature r)) = [])
         || bool_decide (find_string subtitleRulesInfix (trim_suffix suffix (RjCandidateSignature r))
                         = subtitle_rules 2)).

Lemma RejectionActive_system tool r f :
  rejection_file r = fingerprint_file f -> IsUserRejection (RjReasonCode r) = false ->
  RejectionActive tool r f = tool_holds tool r && suffix_holds r.
Proof.
  intros Hf Hu. unfold RejectionActive, tool_holds, suffix_holds.
  rewrite (bool_decide_eq_true_2 _ Hf), Hu. cbn [negb].
  destruct (rejectionFollowsTool (RjReasonCode r)), (bool_decide (RjToolSignature r = tool)); cbn [negb andb orb]; try done.
  all: destruct (bool_decide (rejectionRulesVersion (RjReasonCode r) = [])); [done|]; cbn [orb];
    destruct (has_suffix _ _); [|done]; cbn [negb andb]; by destruct (find_string _ _).
Qed.

Lemma system_not_owner reason : userReasonSQL reason = false -> IsUserRejection reason = false.
Proof. intros H. destruct (IsUserRejection reason) eqn:E; [|done]. apply owner_is_sql in E. congruence. Qed.

Lemma version_invalid : rejectionRulesVersion (t "invalid_subtitle") = subtitle_rules 2.
Proof. done. Qed.
Lemma version_pack : rejectionRulesVersion (t "pack_selection") = selection_rules 3.
Proof. done. Qed.

Lemma versioned_cases reason :
  reason ∈ versionedRejectionReasons <-> reason = t "invalid_subtitle" \/ reason = t "pack_selection".
Proof. unfold versionedRejectionReasons. set_solver. Qed.

Lemma bare_suffix_fails s r :
  unversioned s -> RjReasonCode r ∈ versionedRejectionReasons -> RjCandidateSignature r = s -> suffix_holds r = false.
Proof.
  intros Hu Hin Hs. unfold suffix_holds. rewrite Hs.
  apply versioned_cases in Hin as [->| ->]; rewrite ?version_invalid, ?version_pack;
    rewrite no_suffix by (done || (unfold selection_rules; set_solver)); done.
Qed.

Lemma versions_equal v w : bool_decide (itoa v = itoa w) = true -> itoa v = itoa w.
Proof. apply bool_decide_eq_true. Qed.

(** A suffix that names its version is there exactly when the versions agree. *)
Lemma has_subtitle_suffix s v :
  0 <= v -> has_suffix (subtitle_rules 2) (s ++ subtitle_rules v) = bool_decide (itoa v = itoa 2).
Proof.
  intros Hv. apply eq_iff_eq_true. rewrite has_suffix_spec, bool_decide_eq_true. split.
  - intros [a H]. by apply subtitle_rules_inj in H as [_ H].
  - intros H. exists s. unfold subtitle_rules. by rewrite H.
Qed.

Lemma has_selection_suffix s v :
  0 <= v -> has_suffix (selection_rules 3) (s ++ selection_rules v) = bool_decide (itoa v = itoa 3).
Proof.
  intros Hv. apply eq_iff_eq_true. rewrite has_suffix_spec, bool_decide_eq_true. split.
  - intros [a H]. by apply selection_rules_inj in H as [_ H].
  - intros H. exists s. unfold selection_rules. by rewrite H.
Qed.

Lemma eq_subtitle s v : 0 <= v -> bool_decide (s ++ subtitle_rules v = s ++ subtitle_rules 2) = bool_decide (itoa v = itoa 2).
Proof.
  intros Hv. apply bool_decide_ext. split; [by intros [_ H]%subtitle_rules_inj|].
  intros H. unfold subtitle_rules. by rewrite H.
Qed.

Lemma eq_selection s v : 0 <= v -> bool_decide (s ++ selection_rules v = s ++ selection_rules 3) = bool_decide (itoa v = itoa 3).
Proof.
  intros Hv. apply bool_decide_ext. split; [by intros [_ H]%selection_rules_inj|].
  intros H. unfold selection_rules. by rewrite H.
Qed.

Ltac drop_sig :=
  repeat match goal with
    | |- context[bool_decide (?s ++ ?e = ?s)] =>
        rewrite (bool_decide_eq_false_2 (s ++ e = s)) by (intros ?%app_ne_self; done)
    | |- context[bool_decide (?s = ?s ++ ?e)] =>
        rewrite (bool_decide_eq_false_2 (s = s ++ e)) by (intros Hself; symmetry in Hself; by apply app_ne_self in Hself)
    end.

Lemma selection_ne_exhausted s v w :
  0 <= v -> s ++ selection_rules v = s ++ subtitle_rules w ++ selection_rules 3 -> False.
Proof.
  intros Hv H. rewrite (assoc_L (++)) in H. apply selection_rules_inj in H as [H _]; [|lia..].
  symmetry in H. by apply app_ne_self in H.
Qed.

Lemma suffix_holds_subtitle s r v :
  unversioned s -> 0 <= v -> RjReasonCode r = t "invalid_subtitle" -> RjCandidateSignature r = s ++ subtitle_rules v ->
  suffix_holds r = bool_decide (itoa v = itoa 2).
Proof.
  intros Hu Hv Hre Hs. unfold suffix_holds. rewrite Hre, version_invalid, Hs, has_subtitle_suffix by done.
  rewrite (bool_decide_eq_false_2 (subtitle_rules 2 = [])) by done. cbn [orb].
  case_bool_decide as Hi; [|done]. assert (subtitle_rules v = subtitle_rules 2) as -> by (unfold subtitle_rules; by rewrite Hi).
  by rewrite trim_suffix_app, (find_infix_none s Hu).
Qed.

Lemma suffix_holds_selection s r v :
  unversioned s -> 0 <= v -> RjReasonCode r = t "pack_selection" -> RjCandidateSignature r = s ++ selection_rules v ->
  suffix_holds r = bool_decide (itoa v = itoa 3).
Proof.
  intros Hu Hv Hre Hs. unfold suffix_holds. rewrite Hre, version_pack, Hs, has_selection_suffix by done.
  rewrite (bool_decide_eq_false_2 (selection_rules 3 = [])) by done. cbn [orb].
  case_bool_decide as Hi; [|done]. assert (selection_rules v = selection_rules 3) as -> by (unfold selection_rules; by rewrite Hi).
  by rewrite trim_suffix_app, (find_infix_none s Hu).
Qed.

Lemma suffix_holds_exhausted s r v w :
  unversioned s -> 0 <= v -> 0 <= w -> RjReasonCode r = t "pack_selection" ->
  RjCandidateSignature r = s ++ subtitle_rules v ++ selection_rules w ->
  suffix_holds r = bool_decide (itoa w = itoa 3) && bool_decide (itoa v = itoa 2).
Proof.
  intros Hu Hv Hw Hre Hs. rewrite (assoc_L (++)) in Hs.
  unfold suffix_holds. rewrite Hre, version_pack, Hs, has_selection_suffix by done.
  rewrite (bool_decide_eq_false_2 (selection_rules 3 = [])) by done. cbn [orb].
  case_bool_decide as Hi; [|done]. assert (selection_rules w = selection_rules 3) as -> by (unfold selection_rules; by rewrite Hi).
  rewrite trim_suffix_app.
  assert (find_string subtitleRulesInfix (s ++ subtitle_rules v) = subtitle_rules v) as ->
    by (apply find_infix_some; [by apply itoa_nonempty|by apply itoa_digits]).
  rewrite (bool_decide_eq_false_2 (_ = [])) by done. cbn [negb andb orb]. apply bool_decide_ext. unfold subtitle_rules.
  split; [by intros H%app_inv_head|by intros ->].
Qed.

Lemma row_agrees tool s r f :
  unversioned s -> recorded s r -> rejection_file r = fingerprint_file f ->
  RejectionActive tool r f = some_lookup tool s r.
Proof.
  intros Hu Hr Hf. destruct Hr as [Ho Hs|Hn Hv Hs|Hv Hs|v Hv Hre Hs|v Hv Hre Hs|v w Hv Hw Hre Hs].
  { unfold RejectionActive, some_lookup, signature_matches.
    rewrite (bool_decide_eq_true_2 _ Hf), Ho, (owner_is_sql _ Ho), (right_id_L [] (++)). cbn [negb andb].
    destruct Hs as [Hs|Hs]; rewrite (bool_decide_eq_true_2 _ Hs), ?orb_true_r; done. }
  { rewrite RejectionActive_system, some_lookup_system by (done || by apply system_not_owner).
    rewrite Hs, bool_decide_eq_true_2, (bool_decide_eq_false_2 _ Hv) by done. cbn [negb andb orb]. f_equal.
    unfold suffix_holds, rejectionRulesVersion. rewrite versioned_cases in Hv.
    rewrite (bool_decide_eq_false_2 (_ = t "invalid_subtitle")), (bool_decide_eq_false_2 (_ = t "pack_selection"))
      by tauto. done. }
  all: assert (RjReasonCode r ∈ versionedRejectionReasons) as Hin by (done || (apply versioned_cases; auto)).
  all: rewrite RejectionActive_system, some_lookup_system
    by (done || by apply reason_not_sql || by apply system_not_owner, reason_not_sql); f_equal.
  - rewrite (bare_suffix_fails s r Hu Hv Hs), Hs, (bool_decide_eq_true_2 _ Hv). drop_sig.
    by rewrite andb_false_r.
  - rewrite (suffix_holds_subtitle s r v) by done. rewrite Hs, eq_subtitle by done. drop_sig.
    rewrite (bool_decide_eq_false_2 (_ = s ++ selection_rules 3)) by (intros ?%rules_disjoint; done || lia).
    rewrite (bool_decide_eq_false_2 (_ = s ++ subtitle_rules 2 ++ _))
      by (rewrite (assoc_L (++)); intros ?%rules_disjoint; done || lia).
    by rewrite !orb_false_r.
  - rewrite (suffix_holds_selection s r v) by done. rewrite Hs, eq_selection by done. drop_sig.
    rewrite (bool_decide_eq_false_2 (_ = s ++ subtitle_rules 2)) by (intros He; symmetry in He; apply rules_disjoint in He; done || lia).
    rewrite (bool_decide_eq_false_2 (_ = s ++ subtitle_rules 2 ++ _)) by (intros ?%selection_ne_exhausted; done).
    by rewrite !orb_false_r.
  - rewrite (suffix_holds_exhausted s r v w) by done. rewrite Hs. drop_sig.
    rewrite (bool_decide_eq_false_2 (_ = s ++ subtitle_rules 2))
      by (rewrite (assoc_L (++)); intros He; symmetry in He; apply rules_disjoint in He; done || lia).
    rewrite (bool_decide_eq_false_2 (_ = s ++ selection_rules 3))
      by (rewrite (assoc_L (++)); intros [He _]%selection_rules_inj; [by apply app_ne_self in He|lia..]).
    cbn [andb orb]. apply eq_iff_eq_true. rewrite andb_true_iff, !bool_decide_eq_true. split.
    + intros [Hw3 Hv2]. unfold subtitle_rules, selection_rules. by rewrite Hw3, Hv2.
    + rewrite !(assoc_L (++)). intros [He ?]%selection_rules_inj; [|lia..].
      by apply subtitle_rules_inj in He as [_ ?]; [|lia..].
Qed.

(** Suffixes strip off. *)
Inductive rules_suffix : text -> Prop :=
| rules_none : rules_suffix []
| rules_subtitle v : 0 <= v -> rules_suffix (subtitle_rules v)
| rules_selection v : 0 <= v -> rules_suffix (selection_rules v)
| rules_both v w : 0 <= v -> 0 <= w -> rules_suffix (subtitle_rules v ++ selection_rules w).
#[local] Hint Constructors rules_suffix : core.

Lemma unversioned_subtitle s a v : unversioned s -> 0 <= v -> s = a ++ subtitle_rules v -> False.
Proof. intros Hu Hv H. by destruct (Hu a _ (itoa_digits v Hv)) as [Hn _]. Qed.

Lemma unversioned_selection s a v : unversioned s -> 0 <= v -> s = a ++ selection_rules v -> False.
Proof. intros Hu Hv H. by destruct (Hu a _ (itoa_digits v Hv)) as [_ Hn]. Qed.

Lemma strip_suffix s s' e e' :
  unversioned s -> unversioned s' -> rules_suffix e -> rules_suffix e' -> s ++ e = s' ++ e' -> s = s'.
Proof.
  intros Hu Hu' He He' H.
  destruct He as [|v Hv|v Hv|v w Hv Hw], He' as [|v' Hv'|v' Hv'|v' w' Hv' Hw'];
    rewrite ?(right_id_L [] (++)), ?(assoc_L (++)) in H; try done;
    try (by apply subtitle_rules_inj in H as [? _]);
    try (apply rules_disjoint in H; done);
    try (symmetry in H; apply rules_disjoint in H; done);
    try (by apply (unversioned_subtitle s) in H); try (by apply (unversioned_selection s) in H);
    try (symmetry in H; by apply (unversioned_subtitle s') in H);
    try (symmetry in H; by apply (unversioned_selection s') in H);
    apply selection_rules_inj in H as [H _]; try done.
  - by apply (unversioned_subtitle s) in H.
  - symmetry in H. by apply (unversioned_subtitle s') in H.
  - by apply subtitle_rules_inj in H as [? _].
Qed.

Lemma lookup_suffix tool s r :
  some_lookup tool s r = true ->
  (IsUserRejection (RjReasonCode r) = true /\ RjCandidateSignature r = AnyCandidateSignature)
  \/ userReasonSQL (RjReasonCode r) = true /\ RjCandidateSignature r = AnyCandidateSignature
  \/ exists e, rules_suffix e /\ RjCandidateSignature r = s ++ e.
Proof.
  unfold some_lookup, signature_matches. rewrite !orb_true_iff, !andb_true_iff, !orb_true_iff, !bool_decide_eq_true.
  assert (rules_suffix (subtitle_rules 2)) by (by constructor).
  assert (rules_suffix (selection_rules 3)) by (by constructor).
  assert (rules_suffix (subtitle_rules 2 ++ selection_rules 3)) by (by constructor).
  naive_solver.
Qed.

Lemma recorded_suffix_of s r :
  recorded s r -> RjCandidateSignature r = AnyCandidateSignature /\ IsUserRejection (RjReasonCode r) = true
    \/ exists e, rules_suffix e /\ RjCandidateSignature r = s ++ e.
Proof.
  intros [Ho [Hs|Hs]|Hn Hv Hs|Hv Hs|v Hv Hre Hs|v Hv Hre Hs|v w Hv Hw Hre Hs]; auto;
    right; eexists; (split; [|done || by rewrite (right_id_L [] (++))]); auto.
Qed.

(** A row a lookup finds was recorded for the signature it looks for. *)
Lemma lookup_recorded tool s s' r :
  unversioned s -> unversioned s' -> recorded s' r -> some_lookup tool s r = true -> recorded s r.
Proof.
  intros Hu Hu' Hr Hl.
  destruct (recorded_suffix_of s' r Hr) as [[Ha Ho]|(e' & He' & Hs')]; [apply rec_owner; auto|].
  destruct (lookup_suffix tool s r Hl) as [[Ho Ha]|[[Hq Ha]|(e & He & Hs)]]; [apply rec_owner; auto| |].
  - assert (IsUserRejection (RjReasonCode r) = true); [|apply rec_owner; auto].
    destruct Hr as [Ho _|Hn _ _|Hv _|v _ Hre _|v _ Hre _|v w _ _ Hre _]; [done|congruence|..];
      exfalso; rewrite reason_not_sql in Hq; done || (apply versioned_cases; auto).
  - rewrite (strip_suffix s s' e e'); [done|done..|congruence].
Qed.

Lemma GetCandidateRejection_some l db :
  is_Some (GetCandidateRejection l db) <-> exists r, r ∈ rejections db /\ row_matches l r = true.
Proof.
  unfold GetCandidateRejection. split.
  - destruct (filter _ (rejections db)) as [|r rs] eqn:E; [by intros []|]. intros _. exists r.
    assert (r ∈ filter (fun r => row_matches l r = true) (rejections db)) as Hr by (rewrite E; left).
    apply list_elem_of_filter in Hr. tauto.
  - intros (r & Hr & Hm). destruct (filter _ (rejections db)) eqn:E; [|by eexists].
    assert (r ∈ filter (fun r => row_matches l r = true) (rejections db)) as Hin
      by (apply list_elem_of_filter; done).
    rewrite E in Hin. by apply elem_of_nil in Hin.
Qed.

Lemma GetCandidateRejection_in l db r :
  GetCandidateRejection l db = Some r -> r ∈ rejections db /\ row_matches l r = true.
Proof.
  unfold GetCandidateRejection. destruct (filter _ (rejections db)) as [|r0 rs] eqn:E; [done|].
  intros [= <-]. pose proof (best_by_in (fun a b => RjRejectedAt b <? RjRejectedAt a) r0 rs) as Hb.
  rewrite <- E in Hb. apply list_elem_of_filter in Hb. tauto.
Qed.

Lemma first_rejection_some ls db :
  is_Some (first_rejection ls db) <-> exists r, r ∈ rejections db /\ existsb (fun l => row_matches l r) ls = true.
Proof.
  induction ls as [|l ls IH]; simpl.
  - split; [by intros []|]. naive_solver.
  - destruct (GetCandidateRejection l db) as [r|] eqn:E.
    + apply GetCandidateRejection_in in E as [Hin Hm]. split; [|by eexists]. intros _. exists r. by rewrite Hm.
    + rewrite IH. setoid_rewrite orb_true_iff.
      assert (~ exists r, r ∈ rejections db /\ row_matches l r = true) as Hno.
      { rewrite <- GetCandidateRejection_some, E. by intros []. }
      naive_solver.
Qed.

(** ** The owner's rejections, and strikes *)

(** A change of the tables that keeps the owner's rejections, where every
    rejection of media [m] is recorded for the file [F]. *)
Inductive rejection_step (m : Z) (F : file_id) (db db' : RejectionTables) : Prop :=
| step_put r :
    (RjMediaID r = m -> rejection_file r = F) -> PutCandidateRejection r db = Ok db' -> rejection_step m F db db'
| step_owner r :
    (RjMediaID r = m -> rejection_file r = F) -> putUserRejection r db = Ok db' -> rejection_step m F db db'
| step_strike f b :
    (RjMediaID (LfRejection f) = m -> rejection_file (LfRejection f) = F) ->
    RecordCandidateLapseFailure f db = Ok (b, db') -> rejection_step m F db db'
| step_clear media language : db' = ClearCandidateRejections media language db -> rejection_step m F db db'.

(** [r] is the owner's rejection of a candidate of media [m] for file [F]. *)
Definition owners_row (m : Z) (language : Language) (provider result signature : text) (F : file_id)
    (r : CandidateRejection) : Prop :=
  userReasonSQL (RjReasonCode r) = true /\ RjMediaID r = m /\ RjLanguage r = language
  /\ RjProviderID r = provider /\ RjResultID r = result /\ rejection_file r = F
  /\ (RjCandidateSignature r = signature \/ RjCandidateSignature r = AnyCandidateSignature).

Lemma upsert_in new rows :
  exists r, r ∈ upsert_rejection new rows /\ rejection_key r = rejection_key new
            /\ rejection_file r = rejection_file new
            /\ (r = new \/ userReasonSQL (RjReasonCode r) = true).
Proof.
  induction rows as [|old rows (r & Hr & Hk & Hf & Hc)]; simpl.
  - exists new. split_and!; auto. left.
  - case_bool_decide as Hk'; [|exists r; split_and!; auto; by right].
    exists (merge_rejection old new). split; [left|]. unfold merge_rejection.
    destruct (userReasonSQL (RjReasonCode old)) eqn:Eu; split_and!; auto.
Qed.

Lemma upsert_keeps_owner new rows r :
  r ∈ rows -> userReasonSQL (RjReasonCode r) = true ->
  exists r', r' ∈ upsert_rejection new rows /\ userReasonSQL (RjReasonCode r') = true
             /\ rejection_key r' = rejection_key r
             /\ (rejection_file r' = rejection_file r
                 \/ rejection_key r = rejection_key new /\ rejection_file r' = rejection_file new).
Proof.
  intros Hr Hu. induction rows as [|old rows IH]; [by apply elem_of_nil in Hr|]. simpl.
  apply elem_of_cons in Hr as [<-|Hr].
  - case_bool_decide as Hk; [|exists r; split_and!; auto; left].
    exists (merge_rejection r new). split; [left|]. unfold merge_rejection. rewrite Hu. split_and!; auto.
  - case_bool_decide as Hk; [exists r; split_and!; auto; by right|].
    destruct (IH Hr) as (r' & Hin & ?). exists r'. split; [by right|done].
Qed.

Lemma put_rejection_ok r db db' :
  putCandidateRejection r db = Ok db' ->
  rejections db' = upsert_rejection r (rejections db) /\ strikes db' = strikes db.
Proof. unfold putCandidateRejection. case_bool_decide; [|done]. by intros [= <-]. Qed.

(** A step leaves the rows as they are, upserts one, or drops subsyncd's. *)
Lemma step_rows m F db db' :
  rejection_step m F db db' ->
  rejections db' = rejections db
  \/ (exists r, rejections db' = upsert_rejection r (rejections db) /\ (RjMediaID r = m -> rejection_file r = F))
  \/ forall r, r ∈ rejections db -> userReasonSQL (RjReasonCode r) = true -> r ∈ rejections db'.
Proof.
  intros [r HF H|r HF H|f b HF H|media language ->].
  - unfold PutCandidateRejection in H. destruct (validateCandidateRejection r); [|done].
    apply put_rejection_ok in H as [H _]. right; left. by exists r.
  - unfold putUserRejection in H. destruct (negb (validateCandidateRejection r)); [done|].
    destruct (negb (IsUserRejection _)); [done|]. apply put_rejection_ok in H as [H _]. right; left. by exists r.
  - unfold RecordCandidateLapseFailure in H. destruct (negb (validateCandidateLapseFailure f)); [done|].
    destruct (negb (bool_decide _)); [done|]. cbv zeta in H.
    destruct (_ <? 2); [injection H as <- <-; by left|].
    apply rbind_ok in H as (db1 & Hp & H). injection H as <- <-. apply put_rejection_ok in Hp as [Hp _]. right; left.
    eexists. split; [exact Hp|done].
  - right; right. intros r Hr Hu. cbn [rejections ClearCandidateRejections]. apply list_elem_of_filter.
    split; [|done]. intros (_ & _ & Hn). congruence.
Qed.

Lemma owners_row_step m language provider result signature F db db' :
  rejection_step m F db db' ->
  (exists r, r ∈ rejections db /\ owners_row m language provider result signature F r) ->
  exists r, r ∈ rejections db' /\ owners_row m language provider result signature F r.
Proof.
  intros Hs (r & Hr & Ho). pose proof Ho as (Hu & Hm & Hl & Hp & Hres & Hf & Hsig).
  destruct (step_rows m F db db' Hs) as [->|[(new & -> & HF)|Hk]]; [by exists r| |exists r; auto].
  destruct (upsert_keeps_owner new _ r Hr Hu) as (r' & Hin & Hu' & Hk & Hfile).
  exists r'. split; [done|]. unfold rejection_key in Hk. injection Hk as Hk1 Hk2 Hk3 Hk4 Hk5 _ _.
  unfold owners_row. rewrite Hk1, Hk2, Hk3, Hk4, Hk5. split_and!; auto.
  destruct Hfile as [->|[Hkey ->]]; [done|]. apply HF. unfold rejection_key in Hkey. injection Hkey. congruence.
Qed.

(** C27. The owner's rejection holds: as long as the media file stays the same,
    whatever subsyncd records, whatever strikes it counts and however often its
    own rejections are cleared, every later lookup of that candidate finds a
    rejection, under any tool signature, artifact and excluded reasons. *)
Theorem owner_rejection_holds l db db' :
  (exists r, r ∈ rejections db
     /\ owners_row (LkMediaID l) (LkLanguage l) (LkProviderID l) (LkResultID l) (LkCandidateSignature l) (LkFile l) r) ->
  rtc (rejection_step (LkMediaID l) (LkFile l)) db db' ->
  is_Some (GetCandidateRejection l db').
Proof.
  intros Hr Hs. apply GetCandidateRejection_some.
  assert (exists r, r ∈ rejections db'
     /\ owners_row (LkMediaID l) (LkLanguage l) (LkProviderID l) (LkResultID l) (LkCandidateSignature l) (LkFile l) r)
    as (r & Hin & Hu & Hm & Hl & Hp & Hres & Hf & Hsig).
  { revert Hr. induction Hs as [|db1 db2 db3 H1 _ IH]; [done|]. intros Hr. by eapply IH, owners_row_step. }
  exists r. split; [done|]. unfold row_matches, user_row_matches.
  rewrite Hm, Hl, Hp, Hres, Hf, Hu, Z.eqb_refl, !bool_decide_eq_true_2 by done. cbn [andb].
  destruct Hsig as [Hsig|Hsig]; rewrite (bool_decide_eq_true_2 _ Hsig), ?orb_true_r; done.
Qed.

(** The owner's row takes the file of the next rejection of the same artifact:
    a rejection subsyncd records for a new file becomes the owner's, which
    clearing keeps. *)
Lemma system_rejection_becomes_owners old new db db' :
  old ∈ rejections db -> NoDup (rejection_key <$> rejections db) ->
  userReasonSQL (RjReasonCode old) = true -> rejection_key old = rejection_key new ->
  PutCandidateRejection new db = Ok db' ->
  forall media language, exists r,
    r ∈ rejections (ClearCandidateRejections media language db')
    /\ RjReasonCode r = RjReasonCode old /\ rejection_file r = rejection_file new.
Proof.
  intros Hold Hnd Hu Hk H media language. unfold PutCandidateRejection in H.
  destruct (validateCandidateRejection new); [|done]. apply put_rejection_ok in H as [H _].
  assert (merge_rejection old new ∈ upsert_rejection new (rejections db)) as Hin.
  { revert Hold Hnd. generalize (rejections db) as rows. induction rows as [|row rows IH]; [by rewrite elem_of_nil|].
    rewrite fmap_cons, NoDup_cons, elem_of_cons. intros [<-|Hin] [Hni Hnd]; simpl.
    - rewrite bool_decide_eq_true_2 by done. left.
    - rewrite bool_decide_eq_false_2; [right; by apply IH|]. intros Hrow. apply Hni, list_elem_of_fmap.
      exists old. split; [congruence|done]. }
  unfold merge_rejection in Hin. rewrite Hu in Hin.
  exists (with_reason (RjReasonCode old) (RjRejectedAt new) new). split; [|done].
  cbn [rejections ClearCandidateRejections]. apply list_elem_of_filter. rewrite H. split; [|exact Hin].
  intros (_ & _ & Hn). cbn [RjReasonCode with_reason] in Hn. congruence.
Qed.

(** Strikes never reach two: the second one is the rejection. *)
Definition strikes_pending (db : RejectionTables) : Prop :=
  forall k, strike_count k (strikes db) = 0 \/ strike_count k (strikes db) = 1.

Lemma set_strike_count k n rows k' :
  strike_count k' (set_strike k n rows) = if decide (k' = k) then n else strike_count k' rows.
Proof.
  induction rows as [|[k0 n0] rows IH]; simpl.
  - case_decide as Hk; [rewrite bool_decide_eq_true_2 by done; done|by rewrite bool_decide_eq_false_2].
  - case_bool_decide as H0; simpl.
    + case_decide as Hk; subst; [by rewrite bool_decide_eq_true_2|]. by rewrite !bool_decide_eq_false_2 by done.
    + case_bool_decide as H1; [|done]. subst. by rewrite decide_False.
Qed.

Lemma clear_strike_count k rows k' :
  strike_count k' (filter (fun s => s.1 <> k) rows) = if decide (k' = k) then 0 else strike_count k' rows.
Proof.
  induction rows as [|[k0 n0] rows IH]; [by case_decide|]. rewrite filter_cons. cbn [fst].
  destruct (decide (k0 <> k)) as [Hk|Hk].
  - cbn [strike_count]. rewrite IH. case_bool_decide as H0; [|done]. subst. by rewrite decide_False.
  - apply dec_stable in Hk as ->. rewrite IH. cbn [strike_count]. case_decide as H1; [done|].
    by rewrite bool_decide_eq_false_2.
Qed.

(** Silent exits of the timing program reject a candidate only on their
    second observation for the same file, artifact, tool and failure: the first
    one leaves a strike and no rejection, the second one records a rejection
    every lookup of that artifact finds and clears the strike, and no other
    strike is touched. *)
Theorem second_silent_exit_rejects f db b db' :
  strikes_pending db -> RecordCandidateLapseFailure f db = Ok (b, db') ->
  strikes_pending db'
  /\ (b = true <-> strike_count (strike_key_of f) (strikes db) = 1)
  /\ (forall k, k <> strike_key_of f -> strike_count k (strikes db') = strike_count k (strikes db))
  /\ (if b
      then strike_count (strike_key_of f) (strikes db') = 0
           /\ forall l, lapse_repeated_empty_exit ∉ LkExcludeReasonCodes l ->
                LkMediaID l = RjMediaID (LfRejection f) -> LkLanguage l = RjLanguage (LfRejection f) ->
                LkProviderID l = RjProviderID (LfRejection f) -> LkResultID l = RjResultID (LfRejection f) ->
                LkCandidateSignature l = RjCandidateSignature (LfRejection f) ->
                LkToolSignature l = RjToolSignature (LfRejection f) ->
                LkArtifactChecksum l = [] \/ LkArtifactChecksum l = RjArtifactChecksum (LfRejection f) ->
                LkFile l = rejection_file (LfRejection f) -> is_Some (GetCandidateRejection l db')
      else strike_count (strike_key_of f) (strikes db') = 1 /\ rejections db' = rejections db).
Proof.
  intros Hp H. unfold RecordCandidateLapseFailure in H.
  destruct (negb (validateCandidateLapseFailure f)); [done|]. destruct (negb (bool_decide _)); [done|]. cbv zeta in H.
  set (k := strike_key_of f) in *. destruct (Hp k) as [Hc|Hc]; rewrite Hc in H; cbn in H.
  - injection H as <- <-. unfold strikes_pending. cbn [strikes rejections].
    split_and!; [|split; [done|lia]| | |done].
    + intros k'. rewrite set_strike_count. case_decide; [by right|apply Hp].
    + intros k' Hk'. by rewrite set_strike_count, decide_False.
    + by rewrite set_strike_count, decide_True.
  - apply rbind_ok in H as (db1 & Hput & H). injection H as <- <-. unfold strikes_pending. cbn [strikes rejections].
    split_and!; [|done| | |].
    + intros k'. rewrite clear_strike_count. case_decide; [by left|apply Hp].
    + intros k' Hk'. by rewrite clear_strike_count, decide_False.
    + by rewrite clear_strike_count, decide_True.
    + intros l Hex Hm Hl Hpr Hr Hs Ht Ha Hf. apply GetCandidateRejection_some. apply put_rejection_ok in Hput as [Hput _].
      set (new := with_reason lapse_repeated_empty_exit (LfObservedAt f) (LfRejection f)) in *.
      destruct (upsert_in new (rejections db)) as (r & Hin & Hk & Hfile & Hc').
      exists r. cbn [rejections]. rewrite Hput. split; [done|].
      unfold rejection_key in Hk. injection Hk as Hk1 Hk2 Hk3 Hk4 Hk5 Hk6 Hk7.
      unfold row_matches. rewrite Hk1, Hk2, Hk3, Hk4, Hfile, Hm, Hl, Hpr, Hr, Hf. cbn [new with_reason].
      rewrite Z.eqb_refl, !bool_decide_eq_true_2 by done. cbn [andb].
      unfold user_row_matches, system_row_matches. rewrite Hk5, Hk6, Hk7, Hs, Ht.
      destruct Hc' as [->|Hu]; [|by rewrite Hu, bool_decide_eq_true_2].
      apply orb_true_iff. right. cbn [new with_reason RjReasonCode RjCandidateSignature RjArtifactChecksum RjToolSignature].
      assert (bool_decide (LkArtifactChecksum l = [])
              || bool_decide (RjArtifactChecksum (LfRejection f) = LkArtifactChecksum l) = true) as ->
        by (apply orb_true_iff; rewrite !bool_decide_eq_true; destruct Ha; auto).
      by rewrite (bool_decide_eq_false_2 _ Hex), !(bool_decide_eq_true_2 (_ = _)) by done.
Qed.

Section lookup.
Context (sha256_hex : list N -> text).
Context (json_candidate : Candidate -> list N) (json_member : PackMemberRef -> list N)
        (json_numbering : NumberingEvidence -> list N).
Context (sha_hex : forall bytes, hexadecimal (sha256_hex bytes)).

Abbreviation signature := (scoped_signature sha256_hex json_candidate json_member json_numbering).
Abbreviation identity := (candidateRejectionIdentity sha256_hex json_candidate json_member json_numbering).
Abbreviation lookup_rejection := (candidateRejection sha256_hex json_candidate json_member json_numbering).

Lemma signature_unversioned scope c m : hexadecimal scope -> unversioned (signature scope c m).
Proof using sha_hex.
  intros Hs. unfold scoped_signature. case_bool_decide.
  - rewrite (right_id_L [] (++)). apply hexadecimal_unversioned, sha_hex.
  - apply scoped_unversioned; [apply sha_hex|done].
Qed.

(** The columns a rejection is looked up by. *)
Definition names_candidate (q : Request) (c : Candidate) (r : CandidateRejection) : Prop :=
  RjMediaID r = QMediaID q /\ RjLanguage r = QLanguage q /\ RjProviderID r = ProviderID c
  /\ RjResultID r = ResultID c.

#[export] Instance names_candidate_dec q c r : Decision (names_candidate q c r).
Proof. unfold names_candidate. apply _. Defined.

Lemma lookups_row tool q scope c r :
  existsb (fun l => row_matches l r) (rejection_lookups (identity tool q scope c []))
  = bool_decide (names_candidate q c r) && bool_decide (rejection_file r = fingerprint_file (Fingerprint (QMedia q)))
    && some_lookup tool (signature scope c (QMedia q)) r.
Proof using.
  unfold rejection_lookups, some_lookup. cbn [existsb fmap list_fmap].
  unfold row_matches, user_row_matches, system_row_matches, signature_matches, rejectionFollowsTool.
  cbn [LkMediaID LkLanguage LkProviderID LkResultID LkCandidateSignature LkArtifactChecksum LkToolSignature
       LkFile LkExcludeReasonCodes LkToolIndependentReasonCodes candidateRejectionIdentity RjMediaID RjLanguage
       RjProviderID RjResultID RjCandidateSignature RjArtifactChecksum RjToolSignature].
  change (rejection_file (identity tool q scope c [])) with (fingerprint_file (Fingerprint (QMedia q))).
  change (exhaustedRulesVersion) with (subtitle_rules 2 ++ selection_rules 3).
  rewrite version_invalid, version_pack, negb_involutive.
  replace (bool_decide (names_candidate q c r)) with
    ((RjMediaID r =? QMediaID q) && bool_decide (RjLanguage r = QLanguage q)
     && bool_decide (RjProviderID r = ProviderID c) && bool_decide (RjResultID r = ResultID c)).
  - destruct ((RjMediaID r =? QMediaID q) && bool_decide (RjLanguage r = QLanguage q)
       && bool_decide (RjProviderID r = ProviderID c) && bool_decide (RjResultID r = ResultID c)),
      (bool_decide (rejection_file r = fingerprint_file (Fingerprint (QMedia q)))); cbn [andb orb];
      rewrite ?orb_false_r, ?andb_true_r, ?orb_assoc; done.
  - apply eq_iff_eq_true. rewrite !andb_true_iff, !bool_decide_eq_true, Z.eqb_eq. unfold names_candidate. tauto.
Qed.

(** C26. A candidate is passed over before its download exactly when a stored
    rejection of it is active: the lookups of [candidateRejection] find a row
    if and only if [RejectionActive] holds of a row recorded, by this or an
    earlier version of the rules, for that candidate. *)
Theorem passed_over_exactly_when_active tool q scope c db :
  hexadecimal scope ->
  (forall r, r ∈ rejections db -> exists s, unversioned s /\ recorded s r) ->
  is_Some (lookup_rejection tool q scope c [] db) <->
  exists r, r ∈ rejections db /\ names_candidate q c r /\ recorded (signature scope c (QMedia q)) r
            /\ RejectionActive tool r (Fingerprint (QMedia q)) = true.
Proof using sha_hex.
  intros Hscope Hrows. unfold candidateRejection. rewrite first_rejection_some.
  pose proof (signature_unversioned scope c (QMedia q) Hscope) as Hu.
  split; intros (r & Hr & H); exists r; (split; [done|]).
  - rewrite lookups_row, !andb_true_iff, !bool_decide_eq_true in H. destruct H as [[Hn Hf] Hl].
    destruct (Hrows r Hr) as (s & Hus & Hrec).
    assert (recorded (signature scope c (QMedia q)) r) as Hrec' by (by eapply lookup_recorded).
    split_and!; [done|done|]. by rewrite (row_agrees tool (signature scope c (QMedia q)) r _ Hu Hrec' Hf).
  - destruct H as (Hn & Hrec & Ha).
    assert (rejection_file r = fingerprint_file (Fingerprint (QMedia q))) as Hf.
    { unfold RejectionActive in Ha. destruct (bool_decide (rejection_file r = _)) eqn:E; [|done].
      by apply bool_decide_eq_true in E. }
    rewrite lookups_row, (bool_decide_eq_true_2 _ Hn), (bool_decide_eq_true_2 _ Hf).
    by rewrite <- (row_agrees tool (signature scope c (QMedia q)) r _ Hu Hrec Hf).
Qed.
End lookup.

(** ** Concrete runs *)

Definition sample_hex (_ : list N) : text := t "00ff".
Definition sample_json_candidate (_ : Candidate) : list N := [].
Definition sample_json_member (_ : PackMemberRef) : list N := [].
Definition sample_json_numbering (_ : NumberingEvidence) : list N := [].
Definition sample_tool : text := t "lapse-2/policy-0123456789abcdef".
Definition sample_rejected : Candidate := sample_found (t "os") (t "1").

(** The archive of [sample_rejected] held no subtitle of the episode, under
    some version of the selection rules. *)
Definition sample_row (version : Z) : CandidateRejection :=
  mkRejection 1 (t "en") (t "os") (t "1") (t "00ff" ++ selection_rules version) [] (t "pack_selection") sample_tool
    (FpPath (Fingerprint sample_movie)) (FpFileID (Fingerprint sample_movie)) (FpSize (Fingerprint sample_movie))
    (FpModTime (Fingerprint sample_movie)) (1000 * hour).

Definition sample_tables (version : Z) : RejectionTables := mkTables [sample_row version] [] {[1]}.

Example sample_current :
  candidateRejection sample_hex sample_json_candidate sample_json_member sample_json_numbering sample_tool
    sample_request [] sample_rejected [] (sample_tables 3) = Some (sample_row 3).
Proof. vm_compute. reflexivity. Qed.

(** An earlier version of the selection rules no longer counts. *)
Example sample_outdated :
  candidateRejection sample_hex sample_json_candidate sample_json_member sample_json_numbering sample_tool
    sample_request [] sample_rejected [] (sample_tables 2) = None.
Proof. vm_compute. reflexivity. Qed.

Lemma passed_over_exactly_when_active_witness :
  is_Some (candidateRejection sample_hex sample_json_candidate sample_json_member sample_json_numbering sample_tool
             sample_request [] sample_rejected [] (sample_tables 3)).
Proof.
  assert (unversioned (t "00ff")) as Hu by (apply hexadecimal_unversioned; unfold hexadecimal; repeat constructor).
  assert (recorded (t "00ff") (sample_row 3)) as Hrec by (apply (rec_selection _ _ 3); done).
  apply (passed_over_exactly_when_active sample_hex sample_json_candidate sample_json_member sample_json_numbering).
  - intros bytes. unfold hexadecimal. repeat constructor.
  - constructor.
  - intros r Hr. apply list_elem_of_singleton in Hr as ->. exists (t "00ff"). split; [exact Hu|exact Hrec].
  - exists (sample_row 3). split; [left|]. split; [done|]. split; [exact Hrec|]. vm_compute. reflexivity.
Defined.

Definition sample_owners : CandidateRejection :=
  with_reason (t "user_out_of_sync") (1000 * hour)
    (mkRejection 1 (t "en") (t "os") (t "1") (t "00ff") (t "ab") [] sample_tool (t "/m.mkv") 7 100 5 zero_time).

Definition sample_lookup : CandidateRejectionLookup :=
  mkLookup 1 (t "en") (t "os") (t "1") (t "00ff") [] (t "lapse-3/policy-0") (t "/m.mkv", 7, 100, 5)
    versionedRejectionReasons toolIndependentRejectionReasons.

Lemma owner_rejection_holds_witness :
  is_Some (GetCandidateRejection sample_lookup
             (ClearCandidateRejections 1 (t "en") (mkTables [sample_owners] [] {[1]}))).
Proof.
  apply (owner_rejection_holds sample_lookup (mkTables [sample_owners] [] {[1]})).
  - exists sample_owners. split; [left|]. unfold owners_row. split_and!; try reflexivity. by left.
  - eapply rtc_l; [|apply rtc_refl]. by eapply step_clear.
Defined.

Definition sample_exit : CandidateLapseFailure :=
  mkLapseFailure (mkRejection 1 (t "en") (t "os") (t "1") (t "00ff") (t "ab") [] sample_tool (t "/m.mkv") 7 100 5 zero_time)
    (t "exit_2_empty_output@2.1") (1000 * hour).

Definition sample_struck : RejectionTables := mkTables [] [(strike_key_of sample_exit, 1)] {[1]}.

Definition sample_after_exit : bool * RejectionTables :=
  match RecordCandidateLapseFailure sample_exit sample_struck with
  | Ok p => p
  | Err _ => (false, sample_struck)
  end.

Lemma second_silent_exit_rejects_witness :
  sample_after_exit.1 = true
  /\ strike_count (strike_key_of sample_exit) (strikes sample_after_exit.2) = 0.
Proof.
  pose proof (second_silent_exit_rejects sample_exit sample_struck sample_after_exit.1 sample_after_exit.2) as H.
  split; [vm_compute; reflexivity|].
  apply H.
  - intros k. cbn [strikes sample_struck strike_count]. case_bool_decide; [by right|by left].
  - vm_compute. reflexivity.
Defined.
