(* ===== verification/Inventory.v ===== *)
(** * Subtitle tracks of a media file (src/internal/inventory)

    The tracks next to and inside a media file, and what they say about a
    search: whether a language is covered by a track that is not ours, and
    whether the recorded subtitle is still there unedited. *)
From S2P Require Import ProviderGate Prelude GoText GoFloat Paths Domain MatchRelease MatchScore SearchQueue Schedule Workflow.

#[local] Open Scope Z_scope.

Record Track := mkTrack {
  TIndex : Z;
  TPath : text;
  TLanguage : Language;
  TCodec : text;
  TEmbedded : bool;
  TForced : bool;
  TDefault : bool;
  TSDH : bool;
  TProtected : bool;
  TSymlink : bool;
  TChecksum : text;
}.

Record Inventory := mkInventory {
  IvFingerprint : MediaFingerprint;
  Tracks : list Track;
}.

(** Path and text of the recorded subtitle. *)
Definition is_installation (i : Installation) (track : Track) : bool :=
  bool_decide (path_clean (TPath track) = path_clean (IPath i)) && bool_decide (TChecksum track = IChecksum i).

Section tracks.
Context `{Unicode, LanguageTags}.

Definition inventoryStopsSearch (current : Inventory) (language : Language) (allowHearingImpaired installed : bool)
    (i : Installation) : bool :=
  existsb (fun track =>
    TrackCoversLanguage (TLanguage track) (TForced track) (TSDH track) language allowHearingImpaired
    && (TEmbedded track || TProtected track || negb installed || negb (is_installation i track))) (Tracks current).

Definition managedInstallationPresent (current : Inventory) (i : Installation) : bool :=
  existsb (fun track =>
    negb (TEmbedded track) && negb (bool_decide (TPath track = [])) && is_installation i track) (Tracks current).
End tracks.
