(* ===== verification/RemovalBudget.v ===== *)
(** * The hourly budget of deletions (src/internal/workflow/removal_budget.go)

    How many sidecars of replaced media files one daemon deletes in any rolling
    hour. The budget is the list of the times taken; [None] is a nil budget,
    which never limits. *)
From S2P Require Import Prelude Domain Schedule.

#[local] Open Scope Z_scope.

Definition MaxReplacedRemovalsPerHour : Z := 20.
Definition replacedRemovalWindow : duration := hour.
Definition removalRetryMargin : duration := minute.

Record RemovalBudget := mkBudget {
  limit : Z;
  window : duration;
  taken : list instant;
}.

Definition NewReplacedRemovalBudget : RemovalBudget := mkBudget MaxReplacedRemovalsPerHour replacedRemovalWindow [].

Definition with_taken (l : list instant) (b : RemovalBudget) : RemovalBudget := mkBudget (limit b) (window b) l.

(** The deletions still in the window. *)
Definition live (now : instant) (b : RemovalBudget) : list instant :=
  filter (fun at_ => time_sub now at_ < window b) (taken b).

(** One deletion at [now], or [None] when the window is full. *)
Definition reserve_in (now : instant) (b : RemovalBudget) : RemovalBudget * bool :=
  let kept := live now b in
  if limit b <=? Z.of_nat (length kept) then (with_taken kept b, false) else (with_taken (kept ++ [now]) b, true).

(** The release gives the first deletion of that time back. *)
Fixpoint drop_first (now : instant) (l : list instant) : list instant :=
  match l with
  | [] => []
  | at_ :: l => if at_ =? now then l else at_ :: drop_first now l
  end.
Definition release_in (now : instant) (b : RemovalBudget) : RemovalBudget := with_taken (drop_first now (taken b)) b.

Definition reserve (now : instant) (b : option RemovalBudget) : option RemovalBudget * bool :=
  match b with None => (None, true) | Some b => let '(b, ok) := reserve_in now b in (Some b, ok) end.
Definition release (now : instant) (b : option RemovalBudget) : option RemovalBudget := release_in now <$> b.

Definition oldest (times : list instant) : instant :=
  fold_left (fun o at_ => if is_zero o || (at_ <? o) then at_ else o) times zero_time.

Definition nextSlot (now : instant) (b : option RemovalBudget) : instant :=
  match b with
  | None => now
  | Some b =>
      let kept := live now b in
      if Z.of_nat (length kept) <? limit b then now else oldest kept + window b
  end.

(** ** The rolling hour *)

(** Reservations and releases, in the order they are made. *)
Inductive budget_op := Reserve (now : instant) | Release (at_ : instant).

(** The budget and the deletions that happened or are under way. *)
Definition step (st : RemovalBudget * list instant) (op : budget_op) : RemovalBudget * list instant :=
  let '(b, log) := st in
  match op with
  | Reserve now => let '(b, ok) := reserve_in now b in (b, if ok then log ++ [now] else log)
  | Release at_ => (release_in at_ b, drop_first at_ log)
  end.

(** Reservations are made as the clock goes. *)
Fixpoint in_time (last : instant) (ops : list budget_op) : Prop :=
  match ops with
  | [] => True
  | Reserve now :: ops => last <= now /\ in_time now ops
  | Release _ :: ops => in_time last ops
  end.

Definition within_window (x w : Z) (at_ : instant) : bool := (x <=? at_) && (at_ <? x + w).
Definition count_in (x w : Z) (log : list instant) : Z := Z.of_nat (length (filter (fun a => within_window x w a = true) log)).

Lemma filter_drop_first (P : instant -> Prop) `{forall a, Decision (P a)} x l :
  filter P (drop_first x l) = if decide (P x) then drop_first x (filter P l) else filter P l.
Proof.
  induction l as [|a l IH]; cbn [drop_first]; [by case_decide|].
  destruct (Z.eqb_spec a x) as [->|Hne].
  - rewrite filter_cons. case_decide; [cbn [drop_first]; by rewrite Z.eqb_refl|done].
  - rewrite !filter_cons, IH. case_decide as Hx; case_decide as Ha; try done.
    cbn [drop_first]. by apply Z.eqb_neq in Hne as ->.
Qed.

Lemma drop_first_sublist x l : drop_first x l `sublist_of` l.
Proof.
  induction l as [|a l IH]; cbn [drop_first]; [done|]. destruct (a =? x); [by constructor|by constructor].
Qed.

Lemma count_drop x w y log : count_in x w (drop_first y log) <= count_in x w log.
Proof.
  unfold count_in. apply inj_le. rewrite filter_drop_first. case_decide; [|done].
  apply sublist_length, drop_first_sublist.
Qed.

Definition recent (w : duration) (n : instant) (at_ : instant) : Prop := n - at_ < w.
#[export] Instance recent_dec w n at_ : Decision (recent w n at_) := Z_lt_dec _ _.

Lemma live_recent now b : 0 < window b < 2 ^ 62 -> live now b = filter (recent (window b) now) (taken b).
Proof.
  intros Hw. unfold live. apply list_filter_iff. intros a. unfold recent, time_sub, min_duration, max_duration.
  split_ifs; bools; lia.
Qed.

(** What the pruned list of the budget still knows of the log. *)
Definition budget_inv (last : instant) (st : RemovalBudget * list instant) : Prop :=
  (forall n, last <= n -> filter (recent (window st.1) n) (taken st.1) = filter (recent (window st.1) n) st.2)
  /\ forall x, count_in x (window st.1) st.2 <= limit st.1.

Lemma filter_recent_later w n now (l : list instant) :
  now <= n -> filter (recent w n) (filter (recent w now) l) = filter (recent w n) l.
Proof.
  intros Hle. rewrite list_filter_filter. apply list_filter_iff. intros a. unfold recent. lia.
Qed.

Lemma filter_weaken_length {A} (P Q : A -> Prop) `{forall a, Decision (P a)} `{forall a, Decision (Q a)} (l : list A) :
  (forall a, P a -> Q a) -> (length (filter P l) <= length (filter Q l))%nat.
Proof.
  intros HPQ. induction l as [|a l IH]; [done|]. rewrite !filter_cons.
  destruct (decide (P a)) as [HP|]; destruct (decide (Q a)) as [HQ|HQ]; cbn [length]; try lia. by destruct HQ; auto.
Qed.

Lemma budget_reserve_inv last now b log :
  0 < window b < 2 ^ 62 -> last <= now -> budget_inv last (b, log) -> budget_inv now (step (b, log) (Reserve now)).
Proof.
  intros Hw Hle [Hlog Hcount]. cbn in Hlog, Hcount. unfold step, reserve_in. rewrite live_recent by done.
  set (kept := filter _ (taken b)).
  assert (forall n, now <= n -> filter (recent (window b) n) kept = filter (recent (window b) n) log) as Hkept.
  { intros n Hn. unfold kept. rewrite filter_recent_later by done. apply Hlog. lia. }
  destruct (Z.leb_spec (limit b) (Z.of_nat (length kept))) as [Hfull|Hroom]; [split; [done|exact Hcount]|].
  split; cbn; [intros n Hn; rewrite !filter_app; by rewrite Hkept|].
  intros x. unfold count_in in *. rewrite filter_app, length_app, filter_cons, filter_nil. cbn [length].
  case_decide as Hin; [|specialize (Hcount x); cbn; lia]. cbn [length].
  enough (length (filter (fun a => within_window x (window b) a = true) log) <= length kept)%nat by lia.
  etrans; [|apply (length_filter (recent (window b) now))]. rewrite (Hkept now) by done.
  apply filter_weaken_length. intros a Ha. unfold within_window in *. bools. unfold recent. lia.
Qed.

Lemma budget_release_inv last at_ b log :
  budget_inv last (b, log) -> budget_inv last (step (b, log) (Release at_)).
Proof.
  intros [Hlog Hcount]. split; cbn in *.
  - intros n Hn. rewrite !filter_drop_first, Hlog by done. done.
  - intros x. etrans; [apply count_drop|apply Hcount].
Qed.

Lemma step_settings st op : limit (step st op).1 = limit st.1 /\ window (step st op).1 = window st.1.
Proof. destruct st as [b log], op as [now|at_]; cbn; [unfold reserve_in; by destruct (_ <=? _)|done]. Qed.

Lemma steps_inv ops last st :
  0 < window st.1 < 2 ^ 62 -> in_time last ops -> budget_inv last st ->
  exists last', budget_inv last' (fold_left step ops st).
Proof.
  revert last st. induction ops as [|op ops IH]; intros last st Hw Ht Hi; [by exists last|].
  cbn [fold_left]. destruct (step_settings st op) as [_ Es]. destruct st as [b log].
  destruct op as [now|at_].
  - destruct Ht as [Hle Ht]. eapply (IH now); [by rewrite Es|done|]. by eapply budget_reserve_inv.
  - eapply (IH last); [by rewrite Es|done|]. by apply budget_release_inv.
Qed.

(** C38. No more than twenty sidecars of replaced files are deleted in any rolling
    hour, whichever deletions fail and give their slot back. *)
Theorem deletions_per_hour start ops x :
  in_time start ops ->
  count_in x hour (fold_left step ops (NewReplacedRemovalBudget, [])).2 <= 20.
Proof.
  intros Ht. destruct (steps_inv ops start (NewReplacedRemovalBudget, [])) as [last [_ Hc]]; [done|done| |].
  - split; [done|]. intros y. by vm_compute.
  - assert (forall ops st, window (fold_left step ops st).1 = window st.1 /\ limit (fold_left step ops st).1 = limit st.1) as Hs.
    { clear. intros ops. induction ops as [|op ops IH]; intros st; [done|]. cbn [fold_left].
      destruct (IH (step st op)) as [-> ->]. by destruct (step_settings st op). }
    destruct (Hs ops (NewReplacedRemovalBudget, [])) as [Ew El]. specialize (Hc x). by rewrite Ew, El in Hc.
Qed.

Lemma deletions_per_hour_witness :
  in_time 0 (repeat (Reserve 0) 25 ++ [Release 0; Reserve minute])
  /\ count_in 0 hour (fold_left step (repeat (Reserve 0) 25 ++ [Release 0; Reserve minute]) (NewReplacedRemovalBudget, [])).2 <= 20.
Proof.
  assert (in_time 0 (repeat (Reserve 0) 25 ++ [Release 0; Reserve minute])) as Ht.
  { cbn. repeat split; vm_compute; discriminate. }
  split; [exact Ht|exact (deletions_per_hour 0 _ 0 Ht)].
Defined.

Lemma oldest_in times o :
  fold_left (fun o at_ => if is_zero o || (at_ <? o) then at_ else o) times o ∈ o :: times.
Proof.
  revert o. induction times as [|a times IH]; intros o; cbn [fold_left]; [by left|].
  specialize (IH (if is_zero o || (a <? o) then a else o)). apply elem_of_cons in IH as [-> |IH].
  - destruct (_ || _); [right; left|left].
  - right. by right.
Qed.

(** A deletion put off until the next slot finds it free, when nothing else was
    deleted meanwhile. *)
Lemma next_slot_frees now b :
  0 < window b < 2 ^ 62 -> 0 < limit b -> Z.of_nat (length (taken b)) <= limit b -> zero_time ∉ taken b ->
  (reserve_in (nextSlot now (Some b)) b).2 = true.
Proof.
  intros Hw Hl Hn Hz. unfold nextSlot. destruct (Z.ltb_spec (Z.of_nat (length (live now b))) (limit b)) as [Hroom|Hfull].
  - unfold reserve_in. by destruct (Z.leb_spec (limit b) (Z.of_nat (length (live now b)))); [lia|].
  - set (o := oldest (live now b)).
    assert (o ∈ taken b) as Ho.
    { assert (o ∈ zero_time :: live now b) as Hin by apply oldest_in.
      assert (o <> zero_time) as Hne.
      { unfold o, oldest. destruct (live now b) as [|a l] eqn:El; [cbn in Hfull; lia|]. cbn [fold_left].
        replace (is_zero zero_time) with true by done. cbn [orb].
        pose proof (oldest_in l a) as Ha. intros E. rewrite E in Ha. apply Hz.
        assert (a :: l ⊆ taken b) as Hsub by (rewrite <- El; intros y Hy; by apply list_elem_of_filter in Hy as [_ ?]).
        by apply Hsub. }
      apply elem_of_cons in Hin as [?|Hin]; [done|]. by apply list_elem_of_filter in Hin as [_ ?]. }
    unfold reserve_in. rewrite live_recent by done. destruct (Z.leb_spec (limit b)
      (Z.of_nat (length (filter (recent (window b) (o + window b)) (taken b))))); [exfalso|done].
    apply list_elem_of_split in Ho as (l1 & l2 & El). rewrite El in *. rewrite filter_app, filter_cons in *.
    rewrite decide_False in * by (unfold recent; lia). rewrite !length_app in *. cbn [length] in Hn.
    pose proof (length_filter (recent (window b) (o + window b)) l1). pose proof (length_filter (recent (window b) (o + window b)) l2).
    lia.
Qed.
