(* ===== verification/Calls.v ===== *)
(** * Programs that call interfaces

    The workflow talks to everything through Go interfaces, files and the
    context. A run of it is a finite tree of calls: each call waits for an
    answer, and anything may be answered (a nil or any error, a result from a
    cache, a cancelled context). A theorem about a program is a theorem about
    all its runs, whatever the other side does.

    [wp pre p h Q] says that every run of [p] that continues the history [h]
    makes only calls [pre] allows and ends in [Q]; [runs] is the set of runs,
    and [wp_runs] relates the two. [acts] adds the state and the early returns
    of the workflow's functions. *)
From S2P Require Import Prelude.

Section prog.
Context {call : Type} {answer : call -> Type}.

Inductive prog (A : Type) : Type :=
| Ret (a : A)
| Do (c : call) (k : answer c -> prog A).
Arguments Ret {A} a.
Arguments Do {A} c k.

Fixpoint pbind {A B} (k : A -> prog B) (p : prog A) : prog B :=
  match p with
  | Ret a => k a
  | Do c k' => Do c (fun x => pbind k (k' x))
  end.

(** A call and its answer. *)
Record event := Event { ev_call : call; ev_answer : answer ev_call }.

Definition history := list event.

(** The complete runs of a program. *)
Inductive runs {A} : prog A -> history -> A -> Prop :=
| runs_ret a : runs (Ret a) [] a
| runs_do c k x h a : runs (k x) h a -> runs (Do c k) (Event c x :: h) a.

(** A run against a partner with a state. *)
Section execution.
Context {W : Type} (respond : forall c : call, W -> answer c * W).

Fixpoint execute {A} (p : prog A) (w : W) : history * A * W :=
  match p with
  | Ret a => ([], a, w)
  | Do c k =>
      let '(x, w) := respond c w in
      let '(h, a, w) := execute (k x) w in (Event c x :: h, a, w)
  end.

Lemma execute_runs {A} (p : prog A) w : runs p (execute p w).1.1 (execute p w).1.2.
Proof using.
  revert w. induction p as [a|c k IH]; intros w; simpl; [constructor|].
  destruct (respond c w) as [x w']. pose proof (IH x w') as Hr. destruct (execute (k x) w') as [[h a] w''].
  by constructor.
Qed.
End execution.

Section wp.
Context (pre : history -> call -> Prop).

Fixpoint wp {A} (p : prog A) (h : history) (Q : history -> A -> Prop) : Prop :=
  match p with
  | Ret a => Q h a
  | Do c k => pre h c /\ forall x, wp (k x) (h ++ [Event c x]) Q
  end.

Lemma wp_consequence {A} (p : prog A) h (Q Q' : history -> A -> Prop) :
  wp p h Q -> (forall h' a, h `prefix_of` h' -> Q h' a -> Q' h' a) -> wp p h Q'.
Proof using.
  revert h. induction p as [a|c k IH]; intros h; simpl; [by auto|].
  intros [Hp H] HQ. split; [done|]. intros x. eapply IH; [apply H|].
  intros h' a Hpre. apply HQ. etrans; [|exact Hpre]. by apply prefix_app_r.
Qed.

Lemma wp_then {A B} (p : prog A) (k : A -> prog B) h Q :
  wp p h (fun h' a => wp (k a) h' Q) -> wp (pbind k p) h Q.
Proof using.
  revert h. induction p as [a|c k' IH]; intros h; simpl; [done|].
  intros [Hp H]. split; [done|]. intros x. by apply IH.
Qed.

(** Every call of a run was allowed, and its end satisfies the postcondition. *)
Lemma wp_runs {A} (p : prog A) h Q t a :
  runs p t a -> wp p h Q ->
  Q (h ++ t) a /\ forall i e, t !! i = Some e -> pre (h ++ take i t) (ev_call e).
Proof using.
  intros Hr. revert h. induction Hr as [a|c k x t a Hr IH]; intros h; simpl.
  - rewrite (right_id_L [] (++)). by split.
  - intros [Hp H]. destruct (IH _ (H x)) as [HQ Hall]. rewrite <- (assoc_L (++)) in HQ. split; [done|].
    intros [|i] e; simpl.
    + intros [= <-]. by rewrite (right_id_L [] (++)).
    + intros Hi. specialize (Hall i e Hi). by rewrite <- (assoc_L (++)) in Hall.
Qed.
End wp.

(** A program within a longer history: [J] is what its own part keeps. *)
Lemma wp_frame {A} (pre pre' : history -> call -> Prop) (J : history -> Prop) (p : prog A) h0 h Q (Q' : history -> A -> Prop) :
  wp pre p h Q -> J h ->
  (forall h c x, J h -> pre h c -> J (h ++ [Event c x])) ->
  (forall h c, J h -> pre h c -> pre' (h0 ++ h) c) ->
  (forall h a, J h -> Q h a -> Q' (h0 ++ h) a) -> wp pre' p (h0 ++ h) Q'.
Proof using.
  intros Hw HJ HJs Hpre HQ. revert h Hw HJ. induction p as [a|c k IH]; intros h; simpl; [by intros; apply HQ|].
  intros [Hp Hk] HJ. split; [by apply Hpre|]. intros x. rewrite <- (assoc_L (++)). apply IH; [apply Hk|by apply HJs].
Qed.

Lemma wp_weaken {A} (pre pre' : history -> call -> Prop) (p : prog A) h Q :
  (forall h c, pre h c -> pre' h c) -> wp pre p h Q -> wp pre' p h Q.
Proof using.
  intros Hpre. revert h. induction p as [a|c k IH]; intros h; simpl; [done|].
  intros [Hp H]. split; [by apply Hpre|]. intros x. by apply IH.
Qed.
End prog.

Arguments prog {call} answer A.
Arguments Ret {call answer A} a.
Arguments Do {call answer A} c k.
Arguments event {call} answer.
Arguments history {call} answer.
Arguments Event {call answer} ev_call ev_answer.

(** ** Programs with a state and early returns

    [act S E A] is a function of Go that reads and writes the state [S] and
    ends normally with an [A] or early with an [E]. *)
Section acts.
Context {call : Type} {answer : call -> Type} {S E : Type}.

Definition act (A : Type) : Type := S -> prog answer (S * result E A).

Definition done {A} (a : A) : act A := fun s => Ret (s, Ok a).
Definition stop {A} (e : E) : act A := fun s => Ret (s, Err e).
Definition ask (c : call) : act (answer c) := fun s => Do c (fun x => Ret (s, Ok x)).
Definition get : act S := fun s => Ret (s, Ok s).
Definition modify (f : S -> S) : act unit := fun s => Ret (f s, Ok tt).

Definition next {A B} (m : act A) (k : A -> act B) : act B :=
  fun s => pbind (fun r => match r.2 with Ok a => k a r.1 | Err e => Ret (r.1, Err e) end) (m s).

(** Whatever way [m] ends. *)
Definition outcome_of {A} (m : act A) : act (result E A) :=
  fun s => pbind (fun r => Ret (r.1, Ok r.2)) (m s).

Fixpoint each {A} (f : A -> act unit) (l : list A) : act unit :=
  match l with
  | [] => done tt
  | x :: l => next (f x) (fun _ => each f l)
  end.

(** What a run of [m] from [s] makes of a history: [Q] gets the history, the
    state and how it ended. *)
Definition awp (pre : history answer -> call -> Prop) {A} (m : act A) (s : S) (h : history answer)
    (Q : history answer -> S -> result E A -> Prop) : Prop :=
  wp pre (m s) h (fun h' r => Q h' r.1 r.2).

Context (pre : history answer -> call -> Prop).

Lemma awp_done {A} (a : A) s h (Q : _ -> _ -> _ -> Prop) : Q h s (Ok a) -> awp pre (done a) s h Q.
Proof using. done. Qed.

Lemma awp_stop {A} e s h (Q : _ -> _ -> result E A -> Prop) : Q h s (Err e) -> awp pre (stop e) s h Q.
Proof using. done. Qed.

Lemma awp_ask c s h Q :
  pre h c -> (forall x, Q (h ++ [Event c x]) s (Ok x)) -> awp pre (ask c) s h Q.
Proof using. intros Hp HQ. by split. Qed.

Lemma awp_get s h Q : Q h s (Ok s) -> awp pre get s h Q.
Proof using. done. Qed.

Lemma awp_modify f s h Q : Q h (f s) (Ok tt) -> awp pre (modify f) s h Q.
Proof using. done. Qed.

Lemma awp_mono {A} (m : act A) s h (Q Q' : _ -> _ -> _ -> Prop) :
  awp pre m s h Q -> (forall h' s' r, h `prefix_of` h' -> Q h' s' r -> Q' h' s' r) -> awp pre m s h Q'.
Proof using. intros H HQ. eapply wp_consequence; [exact H|]. intros h' [s' r]. apply HQ. Qed.

Lemma awp_next {A B} (m : act A) (k : A -> act B) s h Q :
  awp pre m s h (fun h' s' r => match r with Ok a => awp pre (k a) s' h' Q | Err e => Q h' s' (Err e) end) ->
  awp pre (next m k) s h Q.
Proof using.
  intros H. apply wp_then. eapply wp_consequence; [exact H|]. intros h' [s' [a|e]] _; cbn; auto.
Qed.

Lemma awp_call {B} c (k : answer c -> act B) s h Q :
  pre h c -> (forall x, awp pre (k x) s (h ++ [Event c x]) Q) -> awp pre (next (ask c) k) s h Q.
Proof using. intros Hp Hk. split; [done|]. intros x. apply (Hk x). Qed.

Lemma awp_outcome_of {A} (m : act A) s h Q :
  awp pre m s h (fun h' s' r => Q h' s' (Ok r)) -> awp pre (outcome_of m) s h Q.
Proof using.
  intros H. apply wp_then. eapply wp_consequence; [exact H|]. intros h' [s' r] _ HQ. exact HQ.
Qed.

(** A loop keeps an invariant that its early ends satisfy too. *)
Lemma awp_each {A} (f : A -> act unit) l (I : history answer -> S -> Prop) (X : history answer -> S -> E -> Prop) s h :
  (forall x s h, x ∈ l -> I h s ->
     awp pre (f x) s h (fun h' s' r => match r with Ok _ => I h' s' | Err e => X h' s' e end)) ->
  I h s -> awp pre (each f l) s h (fun h' s' r => match r with Ok _ => I h' s' | Err e => X h' s' e end).
Proof using.
  revert s h. induction l as [|x l IH]; intros s h Hf HI; [done|]. simpl. apply awp_next.
  eapply awp_mono; [apply Hf; [left|exact HI]|]. intros h' s' [[]|e] _; [|done].
  intros HI'. apply IH; [|done]. intros y s1 h1 Hy. apply Hf. by right.
Qed.
End acts.

Arguments act {call} answer S E A.

(** One call; its answer type may be displayed reduced. *)
Ltac call_step := match goal with |- awp _ (next (ask ?c) ?k) _ _ _ => apply (awp_call _ c k) end.

Notation "'do!' x ':=' m 'in' k" := (next m (fun x => k))
  (at level 10, x pattern, m at level 100, k at level 200).
Notation "'then!' m 'in' k" := (next m (fun _ => k)) (at level 10, m at level 100, k at level 200).

(** The same program, with its early ends renamed. *)
Definition map_stop {call : Type} {answer : call -> Type} {S E E' A} (f : E -> E') (m : act answer S E A)
    : act answer S E' A :=
  fun s => pbind (fun r => Ret (r.1, match r.2 with Ok a => Ok a | Err e => Err (f e) end)) (m s).

Lemma awp_map_stop {call : Type} {answer : call -> Type} {S E E' A} (f : E -> E') (m : act answer S E A) pre s h Q :
  awp pre m s h (fun h' s' r => Q h' s' (match r with Ok a => Ok a | Err e => Err (f e) end)) ->
  awp pre (map_stop f m) s h Q.
Proof.
  intros H. apply wp_then. eapply wp_consequence; [exact H|]. intros h' [s' r] _ HQ. exact HQ.
Qed.

(** ** Programs of harmless calls

    [makes K p Q]: every call of [p] is in [K] and [p] ends in [Q], whatever is
    answered; [quiet K R m] is that of a function, whose state moves along the
    preorder [R]. Being quiet follows the structure of the program, so it is
    found by search ([quiet]). *)
Section quiet.
Context {call : Type} {answer : call -> Type}.

Fixpoint makes (K : call -> Prop) {A} (p : prog answer A) (Q : A -> Prop) : Prop :=
  match p with
  | Ret a => Q a
  | Do c k => K c /\ forall x, makes K (k x) Q
  end.

Lemma makes_mono K {A} (p : prog answer A) (Q Q' : A -> Prop) : makes K p Q -> (forall a, Q a -> Q' a) -> makes K p Q'.
Proof.
  intros H HQ. induction p as [a|c k IH]; simpl in *; [by apply HQ|].
  destruct H as [Hc H]. split; [done|]. intros x. by apply IH.
Qed.

Lemma makes_bind K {A B} (p : prog answer A) (k : A -> prog answer B) Q :
  makes K p (fun a => makes K (k a) Q) -> makes K (pbind k p) Q.
Proof.
  intros H. induction p as [a|c k' IH]; simpl in *; [done|].
  destruct H as [Hc H]. split; [done|]. intros x. by apply IH.
Qed.

(** An invariant of histories that calls in [K] keep. *)
Lemma makes_wp K (pre : history answer -> call -> Prop) (J : history answer -> Prop) {A} (p : prog answer A) Q h :
  makes K p Q -> J h -> (forall h c, J h -> K c -> pre h c) ->
  (forall h c x, J h -> K c -> J (h ++ [Event c x])) ->
  wp pre p h (fun h' a => h `prefix_of` h' /\ J h' /\ Q a).
Proof.
  intros Hm HJ Hpre Hstep. revert h HJ. induction p as [a|c k IH]; intros h HJ; simpl in *; [done|].
  destruct Hm as [Hc Hm]. split; [by apply Hpre|]. intros x.
  eapply wp_consequence; [apply IH; [apply Hm|by apply Hstep]|].
  intros h' a _ (Hp & HJ' & HQ). split_and!; [|done|done]. etrans; [|exact Hp]. by apply prefix_app_r.
Qed.

Context {S E : Type} (K : call -> Prop) (R : S -> S -> Prop) `{!PreOrder R}.

Definition quiet {A} (m : act answer S E A) : Prop := forall s, makes K (m s) (fun r => R s r.1).

Lemma quiet_done {A} (a : A) : quiet (done a).
Proof using All. intros s. simpl. reflexivity. Qed.
Lemma quiet_stop {A} (e : E) : quiet (stop (A:=A) e).
Proof using All. intros s. simpl. reflexivity. Qed.
Lemma quiet_get : quiet get.
Proof using All. intros s. simpl. reflexivity. Qed.
Lemma quiet_ask c : K c -> quiet (ask c).
Proof using All. intros Hc s. simpl. split; [done|]. intros _. reflexivity. Qed.
Lemma quiet_modify f : (forall s, R s (f s)) -> quiet (modify f).
Proof using Type. intros Hf s. apply Hf. Qed.

Lemma quiet_next {A B} (m : act answer S E A) (k : A -> act answer S E B) :
  quiet m -> (forall a, quiet (k a)) -> quiet (next m k).
Proof using All.
  intros Hm Hk s. apply makes_bind. eapply makes_mono; [apply Hm|]. intros [s' [a|e]] HR; simpl in *; [|done].
  eapply makes_mono; [apply Hk|]. intros r Hr. etrans; [exact HR|exact Hr].
Qed.

Lemma quiet_outcome_of {A} (m : act answer S E A) : quiet m -> quiet (outcome_of m).
Proof using Type. intros Hm s. apply makes_bind. eapply makes_mono; [apply Hm|]. by intros [s' r]. Qed.

Lemma quiet_each {A} (f : A -> act answer S E unit) l : (forall x, quiet (f x)) -> quiet (each f l).
Proof using All.
  intros Hf. induction l as [|x l IH]; [apply quiet_done|]. by apply quiet_next.
Qed.
End quiet.

Lemma quiet_map_stop {call : Type} {answer : call -> Type} {S E E'} (K : call -> Prop) (R : S -> S -> Prop)
    (f : E -> E') {A} (m : act answer S E A) : quiet K R m -> quiet K R (map_stop f m).
Proof. intros Hm s. apply makes_bind. eapply makes_mono; [apply Hm|]. by intros [s' r]. Qed.
