(* ===== verification/Refusals.v ===== *)
(** * Provider messages in place of subtitles (src/internal/workflow/provider_response.go)

    A provider that refuses a download often serves its message as the file: an
    HTML page, a JSON body, Titlovi's placeholder subtitle. The first half
    recognizes them; the second is the ledger that lets a refusal pause a
    provider only when a second candidate confirms it. *)
From S2P Require Import ProviderGate Prelude GoText Regex Domain PackSelect Workflow.

#[local] Open Scope Z_scope.

(** ** Recognizing a message *)

Definition sniffLimit : Z := 64 * 1024.
Definition loginFormTextLimit : Z := 2 * 1024.
Definition refusalWindow : duration := 30 * minute.
Definition titloviPlaceholder : text := t "titlovi_titl_plugin_message.srt".

(** [pack.HasArchiveMagic]: the first bytes of a ZIP or RAR file. *)
Definition zipMagic : list N := [80; 75; 3; 4]%N.
Definition rarMagic : list N := [82; 97; 114; 33; 26; 7]%N.
Definition HasArchiveMagic (payload : list N) : bool := has_prefix zipMagic payload || has_prefix rarMagic payload.

Definition spaces : regex := Plus (Chr perl_space).
Definition nonspaces : regex := Plus (Chr (fun r => negb (perl_space r))).

(** The words of a phrase, with any run of spaces between them. *)
Fixpoint spaced_words (words : list text) : regex :=
  match words with
  | [] => Eps
  | [w] => lit w
  | w :: words => Cat (lit w) (Cat spaces (spaced_words words))
  end.

Fixpoint alternatives (res : list regex) : regex :=
  match res with
  | [] => Eps
  | [re] => re
  | re :: res => Alt re (alternatives res)
  end.

Definition phrasePattern (phrases : list string) : regex :=
  Cat WordB (Cat (alternatives (map (fun p => spaced_words (fields_func ascii_space (t p))) phrases)) WordB).

Definition limitPhrases : regex :=
  phrasePattern ["download limit"; "daily limit"; "limit reached"; "limit exceeded"; "quota"; "too many requests";
                 "too many downloads"]%string.
Definition rateLimitPhrases : regex := phrasePattern ["too many requests"; "rate limit"; "rate limited"]%string.
Definition quotaPhrases : regex :=
  phrasePattern ["download limit"; "daily limit"; "quota"; "too many downloads"]%string.
Definition loginPhrases : regex :=
  phrasePattern ["not authorized"; "log in to"; "login required"; "please log in"; "please login"; "sign in to"]%string.

(** [a{0,n}?] *)
Fixpoint lazy_up_to (n : nat) (a : regex) : regex :=
  match n with O => Eps | S n => Alt Eps (Cat a (lazy_up_to n a)) end.

Definition unauthorized_word : regex :=
  Cat (lit (t "unauthori")) (Cat (any_of (t "sz")) (lit (t "ed"))).
Definition access_word : regex := alternatives (map (fun w => lit (t w)) ["access"; "download"; "downloads"; "downloading"]%string).
Definition few_words : regex := lazy_up_to 2 (Cat spaces nonspaces).

Definition unauthorizedAccess : regex :=
  Alt (Cat WordB (Cat unauthorized_word (Cat few_words (Cat spaces (Cat access_word WordB)))))
      (Cat WordB (Cat access_word (Cat few_words (Cat spaces (Cat unauthorized_word WordB))))).

Definition not_close : regex := Many (Chr (fun r => negb (r =? 62)%N)).
Definition quote_mark (r : rune) : bool := ((r =? 34) || (r =? 39))%N.

Definition passwordField : regex :=
  Cat (lit (t "<input")) (Cat WordB (Cat not_close (Cat WordB (Cat (lit (t "type"))
    (Cat (Many (Chr perl_space)) (Cat (lit (t "=")) (Cat (Many (Chr perl_space))
      (Cat (Opt (Chr quote_mark)) (Cat (lit (t "password")) WordB))))))))).

Definition any_rune : regex := Chr (fun _ => true).
Definition hidden_tag : regex :=
  alternatives (map (fun w => lit (t w)) ["script"; "style"; "noscript"; "textarea"; "template"]%string).

Definition hiddenElement : regex :=
  Alt (Cat (lit (t "<")) (Cat (Group 1 hidden_tag) (Cat WordB (Cat (Lazy any_rune)
        (Alt (Cat (lit (t "</")) (Cat hidden_tag (Cat (Many (Chr perl_space)) (lit (t ">"))))) Eol)))))
      (Cat (lit (t "<!--")) (Cat (Lazy any_rune) (Alt (lit (t "-->")) Eol))).

Definition markupTag : regex := Cat (lit (t "<")) (Cat not_close (lit (t ">"))).

(** A decoded JSON body; the fields of an object in the order the map yields
    them. *)
Inductive json : Type :=
| JString (s : text)
| JObject (fields : list (text * json))
| JArray (items : list json)
| JOther.

Section responses.
Context `{Unicode}.
(** [json.Unmarshal] of a body ([None] is an error, as for [json.Valid]),
    [html.UnescapeString], and the media type [mime.ParseMediaType] reads. *)
Context (json_parse : list N -> option json) (html_unescape : text -> text) (media_type : text -> text).

Definition jsonMessageFields : list text := [t "error"; t "message"; t "status"; t "detail"].

Fixpoint collect_message (value : json) (message : bool) : list text :=
  match value with
  | JString s => if message then [s] else []
  | JObject fields =>
      (fix go (fields : list (text * json)) : list text :=
         match fields with
         | [] => []
         | (key, field) :: fields =>
             (if bool_decide (to_lower key ∈ jsonMessageFields) then collect_message field true else []) ++ go fields
         end) fields
  | JArray items =>
      (fix go (items : list json) : list text :=
         match items with
         | [] => []
         | item :: items => collect_message item message ++ go items
         end) items
  | JOther => []
  end.

Definition jsonMessage (body : list N) : text :=
  match json_parse body with
  | None => []
  | Some value => join (t " ") (collect_message value false)
  end.

(** [strings.ReplaceAll(_, "_", " ")] *)
Definition underscores_spaced (s : text) : text := replace_rune 95 32 s.

Definition refusalCooldown (message : text) : CooldownKind :=
  if matches rateLimitPhrases message && negb (matches quotaPhrases message) then CooldownRateLimit
  else CooldownDownloadQuota.

Definition refusalDocument (body : text) : bool * CooldownKind :=
  let markup := replace_all hiddenElement (to_lower body) (t " ") in
  let visible := join (t " ") (fields (html_unescape (replace_all markupTag markup (t " ")))) in
  let message := underscores_spaced visible in
  if matches limitPhrases message || matches unauthorizedAccess message then (true, refusalCooldown message)
  else ((byte_len visible <? loginFormTextLimit)
        && (matches loginPhrases message || matches passwordField markup), CooldownDownloadQuota).

Definition html_page (refusal : bool) (kind : option CooldownKind) : ProviderResponse :=
  mkResponse (t "HTML page") refusal false kind.

Definition byte_order_mark : list N := [239; 187; 191]%N.

(** [checkProviderResponse] of the bytes of a download; [None] is a nil error. *)
Definition checkProviderResponse (payload : list N) (contentType : text) : option ProviderResponse :=
  let head := take (Z.to_nat (sniffLimit + 1)) payload in
  if HasArchiveMagic head then None
  else
    let body := trim_left (one_of [32; 9; 13; 10]%N) (trim_prefix byte_order_mark head) in
    let low := to_lower (utf8_decode (take 32 body)) in
    if has_prefix (t "<!doctype html") low || has_prefix (t "<html") low then
      let '(refusal, kind) := refusalDocument (utf8_decode body) in Some (html_page refusal (Some kind))
    else if has_prefix (t "<head") low || has_prefix (t "<body") low then Some (html_page false None)
    else if bool_decide (media_type contentType = t "text/html") && has_prefix (t "<") low
    then Some (html_page false None)
    else if (Z.of_nat (length head) <=? sniffLimit)
            && (has_prefix (t "{") low || has_prefix (t "[") low)
            && bool_decide (is_Some (json_parse body)) then
      let message := underscores_spaced (to_lower (jsonMessage body)) in
      let limit := matches limitPhrases message in
      Some (mkResponse (t "JSON body") (limit || matches loginPhrases message || matches unauthorizedAccess message)
              limit (Some (refusalCooldown message)))
    else None.

Definition checkPlaceholderMembers (m : Manifest) : option ProviderResponse :=
  if bool_decide (Members m = [])
     || negb (forallb (fun x => equal_fold (path_base (replace_rune 92 47 (SafeName x))) titloviPlaceholder) (Members m))
  then None
  else Some (mkResponse (t "Titlovi placeholder message (client_blocked)") true false (Some CooldownClientBlocked)).
End responses.

(** ** The ledger *)

(** A refusal: the candidate, when, in which run, and the error value of that
    run it produced. *)
Record refusalWitness := mkWitness {
  rw_resultID : text;
  rw_at : instant;
  rw_run : Z;
  rw_err : nat;
}.

Abbreviation RefusalLedger := (gmap text refusalWitness).

(** [witness]: the ledger afterwards, and the earlier refusal of another
    candidate that confirms this one. *)
Definition witness (providerID : text) (current : refusalWitness) (l : RefusalLedger)
    : RefusalLedger * option refusalWitness :=
  let l : RefusalLedger := filter (fun kw => time_sub (rw_at current) (rw_at kw.2) <= refusalWindow) l in
  match l !! providerID with
  | None => (<[providerID := current]> l, None)
  | Some earlier =>
      if bool_decide (rw_resultID earlier = rw_resultID current) then
        let current := if rw_run earlier =? rw_run current
                       then mkWitness (rw_resultID current) (rw_at current) (rw_run current) (rw_err earlier)
                       else current in
        (<[providerID := current]> l, None)
      else (delete providerID l, Some earlier)
  end.

(** The refusals of several runs in the order they reach the ledger. *)
Fixpoint witness_all (refusals : list (text * refusalWitness)) (l : RefusalLedger)
    : RefusalLedger * list (option refusalWitness) :=
  match refusals with
  | [] => (l, [])
  | (p, w) :: refusals =>
      let '(l, r) := witness p w l in
      let '(l, rs) := witness_all refusals l in (l, r :: rs)
  end.

(** ** Two candidates confirm a refusal *)

Definition ledger_after (refusals : list (text * refusalWitness)) : RefusalLedger := (witness_all refusals ∅).1.

Lemma witness_all_snoc refusals p w l :
  (witness_all (refusals ++ [(p, w)]) l).1 = (witness p w (witness_all refusals l).1).1.
Proof.
  revert l. induction refusals as [|[q v] refusals IH]; intros l; simpl.
  - by destruct (witness p w l) as [l' r].
  - destruct (witness q v l) as [l' r]. specialize (IH l').
    destruct (witness_all (refusals ++ [(p, w)]) l') as [l1 rs1], (witness_all refusals l') as [l2 rs2]. done.
Qed.

Lemma ledger_after_snoc refusals p w : ledger_after (refusals ++ [(p, w)]) = (witness p w (ledger_after refusals)).1.
Proof. apply witness_all_snoc. Qed.

(** The same refusal, whose error may be one its run produced earlier. *)
Definition same_refusal (w w' : refusalWitness) : Prop :=
  rw_resultID w = rw_resultID w' /\ rw_at w = rw_at w' /\ rw_run w = rw_run w'.

Lemma witness_other p q w l e : p <> q -> (witness q w l).1 !! p = Some e -> l !! p = Some e.
Proof.
  intros Hne. unfold witness. cbv zeta.
  assert (filter (fun kw : text * refusalWitness => time_sub (rw_at w) (rw_at kw.2) <= refusalWindow) l !! p = Some e
          -> l !! p = Some e) as Hf by (intros Hl; by apply map_lookup_filter_Some in Hl as [Hl _]).
  destruct (filter _ l !! q) as [e0|]; cbn [fst]; [|by rewrite lookup_insert_ne].
  case_bool_decide; cbn [fst]; [by rewrite lookup_insert_ne|].
  by rewrite lookup_delete_ne.
Qed.

Lemma witness_keeps p q w l e :
  p <> q -> l !! p = Some e -> time_sub (rw_at w) (rw_at e) <= refusalWindow -> (witness q w l).1 !! p = Some e.
Proof.
  intros Hne Hl Ht. unfold witness. cbv zeta.
  assert (filter (fun kw : text * refusalWitness => time_sub (rw_at w) (rw_at kw.2) <= refusalWindow) l !! p = Some e)
    as Hf by (by apply map_lookup_filter_Some).
  destruct (filter _ l !! q) as [e0|]; cbn [fst]; [|by rewrite lookup_insert_ne].
  case_bool_decide; cbn [fst]; [by rewrite lookup_insert_ne|].
  by rewrite lookup_delete_ne.
Qed.

Lemma witness_own p w l e : (witness p w l).1 !! p = Some e -> same_refusal w e.
Proof.
  unfold witness. cbv zeta. destruct (filter _ l !! p) as [e0|]; cbn [fst]; [|by rewrite lookup_insert_eq; intros [= <-]].
  case_bool_decide; cbn [fst]; [|by rewrite lookup_delete_eq].
  rewrite lookup_insert_eq. case_match; intros [= <-]; by split_and!.
Qed.

(** An unconfirmed refusal is left in the ledger. *)
Lemma witness_unconfirmed p w l :
  (witness p w l).2 = None -> exists e, (witness p w l).1 !! p = Some e /\ same_refusal w e.
Proof.
  intros Hn. assert (exists e, (witness p w l).1 !! p = Some e) as [e He]; [|exists e; split; [done|by eapply witness_own]].
  revert Hn. unfold witness. cbv zeta. destruct (filter _ l !! p) as [e0|]; cbn [fst snd]; [|intros _; eexists; apply lookup_insert_eq].
  case_bool_decide; cbn [fst snd]; [|done]. intros _. eexists. apply lookup_insert_eq.
Qed.

Lemma ledger_holds_last refusals p e :
  ledger_after refusals !! p = Some e ->
  exists before w0 after, refusals = before ++ (p, w0) :: after /\ same_refusal w0 e /\ Forall (fun x => x.1 <> p) after.
Proof.
  induction refusals as [|[q v] refusals IH] using rev_ind; [done|]. rewrite ledger_after_snoc. intros Hl.
  destruct (decide (p = q)) as [->|Hne].
  - exists refusals, v, []. split_and!; [done|by apply witness_own in Hl|done].
  - apply witness_other in Hl; [|done]. destruct (IH Hl) as (before & w0 & after & -> & Hs & Hf).
    exists before, w0, (after ++ [(q, v)]). rewrite <- (assoc_L (++)). split_and!; [done|done|].
    apply Forall_app. split; [done|]. by repeat constructor.
Qed.

Lemma ledger_keeps before p w0 after e :
  ledger_after (before ++ [(p, w0)]) !! p = Some e -> same_refusal w0 e ->
  Forall (fun x => x.1 <> p /\ time_sub (rw_at x.2) (rw_at w0) <= refusalWindow) after ->
  ledger_after (before ++ (p, w0) :: after) !! p = Some e.
Proof.
  intros Hl Hs. induction after as [|[q v] after IH] using rev_ind; intros Hf; [done|].
  apply Forall_app in Hf as [Hf Hq]. apply Forall_cons in Hq as [[Hne Ht] _].
  change (before ++ (p, w0) :: after ++ [(q, v)]) with (before ++ ((p, w0) :: after) ++ [(q, v)]).
  rewrite (assoc_L (++)), ledger_after_snoc. apply witness_keeps; [done|by apply IH|].
  destruct Hs as (_ & <- & _). done.
Qed.

(** One candidate's page never pauses a provider, two do: a refusal is
    confirmed only by the provider's latest earlier refusal, of another
    candidate and at most thirty minutes before; and it is confirmed by every
    such refusal that was not itself a confirmation, whatever other providers
    refuse in between. *)
Theorem refusal_confirmed_exactly past p w :
  (forall earlier, (witness p w (ledger_after past)).2 = Some earlier ->
     exists before w0 after, past = before ++ (p, w0) :: after /\ same_refusal w0 earlier
       /\ Forall (fun x => x.1 <> p) after /\ rw_resultID w0 <> rw_resultID w
       /\ time_sub (rw_at w) (rw_at w0) <= refusalWindow)
  /\ (forall before w0 after, past = before ++ (p, w0) :: after ->
        (witness p w0 (ledger_after before)).2 = None -> rw_resultID w0 <> rw_resultID w ->
        time_sub (rw_at w) (rw_at w0) <= refusalWindow ->
        Forall (fun x => x.1 <> p /\ time_sub (rw_at x.2) (rw_at w0) <= refusalWindow) after ->
        exists earlier, (witness p w (ledger_after past)).2 = Some earlier /\ same_refusal w0 earlier).
Proof.
  split.
  - intros earlier. unfold witness at 1. cbv zeta.
    destruct (filter _ _ !! p) as [e|] eqn:Hl; [|done]. case_bool_decide as Hr; [done|]. intros [= <-].
    apply map_lookup_filter_Some in Hl as [Hl Ht].
    destruct (ledger_holds_last past p e Hl) as (before & w0 & after & -> & Hs & Hf).
    pose proof Hs as (Hid & Hat & _). exists before, w0, after. rewrite Hid, Hat. by split_and!.
  - intros before w0 after -> Hn Hne Ht Hf. destruct (witness_unconfirmed _ _ _ Hn) as (e & He & Hs).
    rewrite <- ledger_after_snoc in He. pose proof (ledger_keeps before p w0 after e He Hs Hf) as Hl.
    exists e. split; [|done]. destruct Hs as (Hid & Hat & _). unfold witness. cbv zeta.
    replace (filter _ _ !! p) with (Some e).
    + by rewrite bool_decide_eq_false_2 by congruence.
    + symmetry. apply map_lookup_filter_Some. split; [done|]. cbn [snd]. by rewrite <- Hat.
Qed.

(** ** Concrete runs *)

Definition sample_check (body : string) : option ProviderResponse :=
  checkProviderResponse (fun _ => None) (fun s => s) (fun s => s) (t body) (t "text/html").

Example limit_page :
  sample_check "<!DOCTYPE html><html><script>var quota=1</script><p>Daily   limit reached.</p></html>"
  = Some (mkResponse (t "HTML page") true false (Some CooldownDownloadQuota)).
Proof. vm_compute. reflexivity. Qed.

(** The word in a script is not the page's message. *)
Example script_page :
  sample_check "<html><script>var quota=1</script><p>Not found.</p></html>"
  = Some (mkResponse (t "HTML page") false false (Some CooldownDownloadQuota)).
Proof. vm_compute. reflexivity. Qed.

Example subtitle_text : sample_check "1" = None.
Proof. vm_compute. reflexivity. Qed.

Definition sample_refused (result : string) (at_ : duration) : refusalWitness := mkWitness (t result) (1000 * hour + at_) 1 0.

Lemma refusal_confirmed_exactly_witness :
  exists earlier, (witness (t "titlovi") (sample_refused "2" minute)
                     (ledger_after [(t "titlovi", sample_refused "1" 0); (t "subdl", sample_refused "1" second)])).2
                  = Some earlier
                  /\ same_refusal (sample_refused "1" 0) earlier.
Proof.
  apply (proj2 (refusal_confirmed_exactly [(t "titlovi", sample_refused "1" 0); (t "subdl", sample_refused "1" second)]
                  (t "titlovi") (sample_refused "2" minute))
           [] (sample_refused "1" 0) [(t "subdl", sample_refused "1" second)]).
  - reflexivity.
  - vm_compute. reflexivity.
  - discriminate.
  - vm_compute. discriminate.
  - repeat constructor; [discriminate|]. vm_compute. discriminate.
Defined.
