(* ===== verification/LangCheck.v ===== *)
(** * Subtitle language check (src/internal/langcheck)

    Croatian and Bosnian subtitles whose text is Serbian, or not South Slavic
    at all, are told apart by their words. *)
From S2P Require Import Prelude GoText GoFloat Domain.

#[local] Open Scope Z_scope.

Definition wordSet (words : string) : list text := fields_func ascii_space (u8 words).

Definition ijekavian : list text :=
  wordSet "gdje ovdje ondje nigdje negdje svugdje uvijek vrijeme lijep lijepa lijepo lijepe lijepi lijepu lijepog lijepom dijete djeca djece djeci djecom mjesto mjesta mjestu mjestom".
Definition ekavian : list text :=
  wordSet "gde ovde onde nigde negde svugde uvek vreme lep lepa lepo lepe lepi lepu lepog lepom dete deca dece deci decom mesto mesta mestu mestom".
Definition functionWords : list text :=
  wordSet "je da se ne u na sam si smo ste su nije nisam nisi bi bih će ću ćeš ćemo li ali ili što šta kako ovo ono tako sve ja ti ona mi vi oni te ga mu joj nas vas ih za od sa s iz po pa još samo kad kada gdje gde tu tamo bilo bio bila biti ima nema možda hvala dobro".

Definition minimumEkavian : Z := 5.
Definition ekavianRatio : Z := 10.
Definition minimumFunctionShare : float64 := round (12 # 100).
Definition minimumWords : Z := 200.
Definition ReasonEkavian : text := t "serbian_ekavian".
Definition ReasonNotSouthSlavic : text := t "not_south_slavic".

Definition count_in (words set : list text) : Z := Z.of_nat (length (filter (fun w => w ∈ set) words)).

(** The counts of [Check]'s loop; the switch counts a word once. *)
Definition word_counts (words : list text) : Z * Z * Z * Z :=
  (count_in words ijekavian, count_in (filter (fun w => w ∉ ijekavian) words) ekavian,
   count_in words functionWords, Z.of_nat (length words)).

Section check.
Context `{Unicode}.

(** [None] is no mismatch. *)
Definition Check (language s : text) : option text :=
  let '(base, _, _) := cut 45 (to_lower language) in
  if negb (bool_decide (base = t "hr")) && negb (bool_decide (base = t "bs")) then None
  else
    let '(ij, ek, function, total) := word_counts (fields_func (fun r => negb (is_letter r)) (to_lower s)) in
    if (minimumWords <=? total) && flt (of_int function) (fmul minimumFunctionShare (of_int total))
    then Some ReasonNotSouthSlavic
    else if (minimumEkavian <=? ek) && (ij * ekavianRatio <=? ek) then Some ReasonEkavian
    else None.

(** A short text without five Serbian forms passes whatever its tag. *)
Lemma short_text_passes language s :
  let words := fields_func (fun r => negb (is_letter r)) (to_lower s) in
  Z.of_nat (length words) < minimumWords -> count_in words ekavian < minimumEkavian -> Check language s = None.
Proof.
  cbv zeta. intros Hl He. unfold Check. destruct (cut 45 (to_lower language)) as [[base ?] ?].
  destruct (negb _ && negb _); [done|]. unfold word_counts.
  set (words := fields_func _ _) in *.
  assert (count_in (filter (fun w => w ∉ ijekavian) words) ekavian <= count_in words ekavian) as Hle.
  { unfold count_in. apply inj_le. apply submseteq_length, sublist_submseteq.
    clear. induction words as [|w words IH]; [done|]. rewrite !filter_cons.
    case_decide; rewrite ?filter_cons; case_decide; [by constructor|done|by constructor|done]. }
  destruct (Z.leb_spec minimumWords (Z.of_nat (length words))); [lia|]. cbn [andb].
  destruct (Z.leb_spec minimumEkavian (count_in (filter (fun w => w ∉ ijekavian) words) ekavian)); [lia|done].
Qed.
End check.

Example serbian_text :
  Check (t "hr-HR") (u8 "Gde je dete? Uvek je lepo ovde, vreme je.") = Some ReasonEkavian.
Proof. vm_compute. reflexivity. Qed.

Example croatian_text : Check (t "hr") (u8 "Gdje je dijete? Uvijek je lijepo ovdje.") = None.
Proof. vm_compute. reflexivity. Qed.
