(* ===== verification/ReleaseNumbering.v ===== *)
(** * Release numbering (src/internal/workflow/release_numbering.go)

    An episode under its release's own numbering, and how the results of the
    search under it join those of the search in Arr's numbering. *)
From S2P Require Import Prelude GoText GoFloat Domain MatchRelease PackEvidence PackSelect Workflow Coordinator ProviderTiers.

#[local] Open Scope Z_scope.

(** [release.Season, release.Episode = ...] with the range and absolute numbers
    cleared. *)
Definition with_release_numbering (season episode : Z) (m : Media) : Media :=
  {| SeriesID := SeriesID m; EntityID := EntityID m; MRef := MRef m; Fingerprint := Fingerprint m;
     MTitle := MTitle m; EpisodeTitle := EpisodeTitle m; MAlternateTitles := MAlternateTitles m;
     MYear := MYear m; MSeason := season; MEpisode := episode; MAbsoluteEpisode := 0; EpisodeEnd := 0;
     AbsoluteEpisodeEnd := 0; MExternalIDs := MExternalIDs m; OriginalFilename := OriginalFilename m;
     ReleaseName := ReleaseName m; ReleaseGroup := ReleaseGroup m; Source := Source m;
     Resolution := Resolution m; StreamingService := StreamingService m; Edition := Edition m;
     Quality := Quality m; MDuration := MDuration m; Unsupported := Unsupported m;
     ReleasedAt := ReleasedAt m; SeriesType := SeriesType m |}.

Definition releaseNumberedMedia `{Unicode} (m : Media) : option Media :=
  if negb (bool_decide (RefKind (MRef m) = MediaEpisode)) || IsEpisodeRange m then None
  else match ReleaseEpisode m with
       | None => None
       | Some (season, episode) => Some (with_release_numbering season episode m)
       end.

(** [Request.candidateMedia]; [release] is the request's [releaseMedia]. *)
Definition candidateMedia (media : Media) (release : option Media) (c : Candidate) : Media :=
  match release with
  | Some r => if ReleaseNumbered c then r else media
  | None => media
  end.

Definition candidateSeason (c : Candidate) : Z :=
  match Pack c with
  | Some p => if PSeason p =? 0 then CSeason c else PSeason p
  | None => CSeason c
  end.

Definition tag_numbered (c : Candidate) : Candidate :=
  {| ProviderID := ProviderID c; ResultID := ResultID c; CLanguage := CLanguage c; Kind := Kind c;
     CTitle := CTitle c; CAlternateTitles := CAlternateTitles c; EvidenceVersion := EvidenceVersion c;
     CYear := CYear c; CSeason := CSeason c; CEpisode := CEpisode c; CAbsoluteEpisode := CAbsoluteEpisode c;
     CExternalIDs := CExternalIDs c; ReleaseNames := ReleaseNames c; ReleaseGroups := ReleaseGroups c;
     Resolutions := Resolutions c; ExactHash := ExactHash c; Forced := Forced c;
     HearingImpaired := HearingImpaired c; Rating := Rating c; Popularity := Popularity c;
     DownloadCount := DownloadCount c; DownloadRef := DownloadRef c; DownloadVersion := DownloadVersion c;
     Pack := Pack c; ReleaseNumbered := true |}.

Definition result_key (c : Candidate) : text * text := (ProviderID c, ResultID c).

(** The position the index map holds for a key: its last occurrence. *)
Fixpoint last_index (key : text * text) (l : list Candidate) : option nat :=
  match l with
  | [] => None
  | c :: l =>
      match last_index key l with
      | Some n => Some (S n)
      | None => if bool_decide (result_key c = key) then Some 0%nat else None
      end
  end.

Section merge.
Context (releaseSeason arrSeason : Z).

Definition names_release (c : Candidate) : bool :=
  (candidateSeason c =? releaseSeason) && negb (candidateSeason c =? arrSeason).

(** One step of the loop over the release search's candidates. *)
Definition merge_step (acc : list Candidate * gset text) (c : Candidate) : list Candidate * gset text :=
  let '(merged, found) := acc in
  match last_index (result_key c) merged with
  | Some position =>
      if names_release c then (<[position := tag_numbered c]> merged, {[ProviderID c]} ∪ found) else (merged, found)
  | None => (merged ++ [tag_numbered c], {[ProviderID c]} ∪ found)
  end.

Definition mergeReleaseNumberedSearch (search release : SearchResult) : SearchResult :=
  let '(merged, found) := fold_left merge_step (SCandidates release) (SCandidates search, ∅) in
  let errors := SErrors search
                ∪ filter (fun kv => is_Some (unavailableReset kv.2)) (SErrors release) in
  mkSearchResult merged errors (SApplicableProviders search)
    (filter (fun id => id ∉ found /\ errors !! id = None) (SEmptyProviders search)).
End merge.

(** ** What the merge keeps *)

Section merge_lemmas.
Context (releaseSeason arrSeason : Z).
Abbreviation step := (merge_step releaseSeason arrSeason).

Lemma last_index_some key l n : last_index key l = Some n -> exists c, l !! n = Some c /\ result_key c = key.
Proof.
  revert n. induction l as [|c l IH]; intros n; simpl; [done|].
  destruct (last_index key l) as [m|]; [intros [= <-]; by apply IH|].
  case_bool_decide; [|done]. intros [= <-]. by exists c.
Qed.

Lemma last_index_none key l : last_index key l = None <-> key ∉ (result_key <$> l).
Proof.
  induction l as [|c l IH]; simpl; [split; [intros _; apply not_elem_of_nil|done]|].
  rewrite not_elem_of_cons. destruct (last_index key l) as [m|].
  - split; [done|]. intros [_ Hn]. by apply IH in Hn.
  - case_bool_decide as Hk; split; try done; [naive_solver|]. intros _. split; [done|]. by apply IH.
Qed.

(** Every step keeps the identities in their order and may add one. *)
Lemma step_keys merged found c :
  let merged' := (step (merged, found) c).1 in
  result_key <$> merged' = (result_key <$> merged)
    ++ (if bool_decide (result_key c ∈ result_key <$> merged) then [] else [result_key c]).
Proof.
  unfold merge_step. destruct (last_index (result_key c) merged) as [n|] eqn:E.
  - apply last_index_some in E as (c0 & Hc0 & Hk).
    rewrite bool_decide_eq_true_2 by (apply list_elem_of_fmap; exists c0; split; [done|by eapply list_elem_of_lookup_2]).
    rewrite (right_id_L [] (++)). destruct (names_release _ _ c); [|done]. cbn [fst].
    rewrite list_fmap_insert. apply list_insert_id. rewrite list_lookup_fmap, Hc0. simpl. by rewrite Hk.
  - apply last_index_none in E. rewrite bool_decide_eq_false_2 by done. cbn [fst]. by rewrite fmap_app.
Qed.

(** A candidate of the merge is one of the first search, untouched, or one of
    the release search, tagged; a tagged one either is new or names the
    release's season. *)
Definition origin (search release : list Candidate) (c : Candidate) : Prop :=
  c ∈ search
  \/ exists c0, c0 ∈ release /\ c = tag_numbered c0
       /\ (result_key c0 ∉ (result_key <$> search) \/ names_release releaseSeason arrSeason c0 = true).

Lemma merge_origin search release merged found :
  fold_left step release (search, ∅) = (merged, found) ->
  (forall c, c ∈ merged -> origin search release c)
  /\ (result_key <$> search) `prefix_of` (result_key <$> merged)
  /\ (forall c, c ∈ release -> result_key c ∈ (result_key <$> merged))
  /\ (forall c, c ∈ merged -> c ∈ search \/ ProviderID c ∈ found).
Proof.
  revert merged found. induction release as [|c release IH] using rev_ind; intros merged found.
  { simpl. intros [= <- <-]. split_and!; [by left|done|intros c Hc; by apply elem_of_nil in Hc|by left]. }
  rewrite fold_left_app. destruct (fold_left step release (search, ∅)) as [merged0 found0] eqn:E0.
  destruct (IH _ _ eq_refl) as (Ho & Hp & Hr & Hf). cbn [fold_left]. intros Hstep.
  pose proof (step_keys merged0 found0 c) as Hkeys. rewrite Hstep in Hkeys. cbn [fst] in Hkeys.
  assert (forall c, origin search release c -> forall c', origin search (release ++ [c']) c) as Hmono.
  { intros c1 [H1|(c0 & H0 & H2)] c'; [by left|]. right. exists c0. split; [apply elem_of_app; by left|done]. }
  split_and!.
  - intros x Hx. unfold merge_step in Hstep. destruct (last_index (result_key c) merged0) as [n|] eqn:El.
    + destruct (names_release _ _ c) eqn:En; injection Hstep as <- <-; [|by apply Hmono, Ho].
      apply list_elem_of_lookup in Hx as [i Hi]. apply list_lookup_insert_Some in Hi as [(_ & <- & _)|[_ Hi]].
      * right. exists c. split; [apply elem_of_app; right; left|]. by split; [|right].
      * by apply Hmono, Ho; eapply list_elem_of_lookup_2.
    + injection Hstep as <- <-. apply elem_of_app in Hx as [Hx|Hx]; [by apply Hmono, Ho|].
      apply list_elem_of_singleton in Hx as ->. right. exists c. split; [apply elem_of_app; right; left|]. split; [done|].
      left. apply last_index_none in El. intros Hin. apply El. destruct Hp as [rest ->]. by apply elem_of_app; left.
  - rewrite Hkeys. etrans; [exact Hp|]. by apply prefix_app_r.
  - intros x [Hx|Hx]%elem_of_app; rewrite Hkeys; apply elem_of_app; [left; by apply Hr|].
    apply list_elem_of_singleton in Hx as ->. case_bool_decide; [by left|right; left].
  - intros x Hx. unfold merge_step in Hstep. destruct (last_index (result_key c) merged0) as [n|] eqn:El.
    + destruct (names_release _ _ c) eqn:En; injection Hstep as <- <-; [|by apply Hf].
      apply list_elem_of_lookup in Hx as [i Hi]. apply list_lookup_insert_Some in Hi as [(_ & <- & _)|[_ Hi]].
      * right. set_solver.
      * apply list_elem_of_lookup_2, Hf in Hi. set_solver.
    + injection Hstep as <- <-. apply elem_of_app in Hx as [Hx|Hx]; [apply Hf in Hx; set_solver|].
      apply list_elem_of_singleton in Hx as ->. right. set_solver.
Qed.

(** Joining the release-numbered search loses nothing and confuses no
    numbering: every result of either search is in the merge and those of the
    first keep their places; a result is a first-search result unchanged, or a
    release-search result tagged as such, which the first search did not return
    or which names the release's season and not Arr's; a provider counts as
    empty only when the first search said so, no result of it was added and it
    did not fail; and of the release search's errors exactly the cooldowns,
    quotas and disables of providers that had not failed are kept. *)
Theorem release_search_joins search release :
  let merged := mergeReleaseNumberedSearch releaseSeason arrSeason search release in
  (result_key <$> SCandidates search) `prefix_of` (result_key <$> SCandidates merged)
  /\ (forall c, c ∈ SCandidates release -> result_key c ∈ (result_key <$> SCandidates merged))
  /\ (forall c, c ∈ SCandidates merged -> origin (SCandidates search) (SCandidates release) c)
  /\ (forall id, id ∈ SEmptyProviders merged ->
        id ∈ SEmptyProviders search /\ SErrors merged !! id = None
        /\ forall c, c ∈ SCandidates merged -> ProviderID c = id -> c ∈ SCandidates search)
  /\ (forall id e, SErrors merged !! id = Some e <->
        SErrors search !! id = Some e
        \/ SErrors search !! id = None /\ SErrors release !! id = Some e /\ is_Some (unavailableReset e)).
Proof.
  cbv zeta. unfold mergeReleaseNumberedSearch.
  destruct (fold_left step (SCandidates release) (SCandidates search, ∅)) as [merged found] eqn:E.
  destruct (merge_origin _ _ _ _ E) as (Ho & Hp & Hr & Hf). cbn [SCandidates SEmptyProviders SErrors].
  split_and!; [done|done|done| |].
  - intros id Hid. apply list_elem_of_filter in Hid as [[Hn He] Hin]. split_and!; [done|done|].
    intros c Hc <-. by destruct (Hf c Hc).
  - intros id e. rewrite lookup_union_Some_raw, map_lookup_filter_Some. done.
Qed.
End merge_lemmas.

(** The file Sonarr calls S01E10 is released as S02E02: a provider that ignores
    the season returns the same pack to both searches, another one an episode
    only the release search finds. *)
Example release_join :
  let part2 := mkPackInfo PackSeason 2 0 0 0 0 [] in
  let found provider result pack season :=
    {| ProviderID := t provider; ResultID := t result; CLanguage := t "en"; Kind := MediaEpisode; CTitle := [];
       CAlternateTitles := []; EvidenceVersion := []; CYear := 0; CSeason := season; CEpisode := 0;
       CAbsoluteEpisode := 0; CExternalIDs := mkExternalIDs [] 0 0; ReleaseNames := []; ReleaseGroups := [];
       Resolutions := []; ExactHash := false; Forced := false; HearingImpaired := false; Rating := (0 # 1)%Q;
       Popularity := (0 # 1)%Q; DownloadCount := 0; DownloadRef := []; DownloadVersion := []; Pack := pack;
       ReleaseNumbered := false |} in
  let merged := mergeReleaseNumberedSearch 2 1
    (mkSearchResult [found "a" "pack" (Some part2) 1] ∅ [t "a"; t "b"] [t "b"])
    (mkSearchResult [found "a" "pack" (Some part2) 1; found "b" "7" None 2] ∅ [t "a"; t "b"] []) in
  ReleaseNumbered <$> SCandidates merged = [true; true] /\ SEmptyProviders merged = [].
Proof. vm_compute. done. Qed.
