(* ===== verification/Jobs.v ===== *)
(** * Search jobs (src/internal/worker)

    What the worker does with one leased search (worker.go, runSearchLease):
    the request it gives the workflow, how each outcome becomes a completion,
    and the resume list it carries to the next attempt. The workflow, the media
    table read, the lease renewal and the clock are arguments of a run; logging
    and goroutines are left out. *)
From S2P Require Import Prelude GoText GoFloat Domain SearchQueue Schedule Workflow Coordinator ProviderTiers.

#[local] Open Scope Z_scope.

(** ** Display titles (observability/privacy.go) *)

Section title.
Context `{Unicode}.

Definition is_control (r : rune) : bool := (r <? 32)%N || between 127 159 r.

Definition maximumTextRunes : nat := 2048.

(** A text is valid UTF-8 already. *)
Definition SafeText (value : text) : text :=
  let value := map (fun r => if is_control r || (r =? 8232)%N || (r =? 8233)%N then 32%N else r) value in
  let value := join (t " ") (fields value) in
  if (length value <=? maximumTextRunes)%nat then value else take maximumTextRunes value.

Definition MediaTitle (m : Media) : text :=
  let title := trim_space (MTitle m) in
  let title :=
    match RefKind (MRef m) with
    | MediaMovie =>
        if negb (bool_decide (title = [])) && (0 <? MYear m)
        then title ++ t " (" ++ itoa (MYear m) ++ t ")" else title
    | MediaEpisode =>
        let title :=
          if (0 <? MSeason m) || (0 <? MEpisode m) then
            title ++ t " - S" ++ pad_left 2 (itoa (MSeason m)) ++ t "E" ++ pad_left 2 (itoa (MEpisode m))
            ++ (if IsEpisodeRange m then t "-E" ++ pad_left 2 (itoa (EpisodeEnd m)) else [])
          else title in
        let episode := trim_space (EpisodeTitle m) in
        if bool_decide (episode = []) then title else title ++ t " - " ++ episode
    | _ => title
    end in
  SafeText title.
End title.

(** ** Outcomes *)

Definition outcome_text (o : WorkflowOutcome) : text :=
  match o with
  | OutcomeUnset => []
  | OutcomeSatisfied => t "satisfied"
  | OutcomeInstalled => t "installed"
  | OutcomeNoResult => t "no_result"
  | OutcomeRejected => t "rejected"
  | OutcomeThrottled => t "throttled"
  | OutcomeRemoved => t "removed"
  end.

Definition MediaUnavailable (e : WorkflowError) : bool :=
  bool_decide (is_Some (error_as (fun e => match e with MediaUnavailableE m => Some m | _ => None end) e)).

(** The first such error decides. *)
Definition MediaMissing (e : WorkflowError) : bool :=
  match error_as (fun e => match e with MediaUnavailableE m => Some m | _ => None end) e with
  | Some missing => missing
  | None => false
  end.

Definition is_job_timeout (e : WorkflowError) : bool :=
  bool_decide (is_Some (error_as (fun e => match e with JobTimedOutE => Some tt | _ => None end) e)).

(** The settings of [Worker] that decide schedules. *)
Record WorkerPolicy := mkWorkerPolicy { WRandomUnit : float64; WAgedAfter : duration }.

Definition scheduler (w : WorkerPolicy) (now : instant) : Scheduler :=
  mkScheduler now (WRandomUnit w) (WAgedAfter w).

Definition minimumThrottleDelay : duration := minute.
Definition unknownThrottleDelay : duration := 6 * hour.

Definition unit_interval (u : float64) : float64 := if flt u 0 then 0%Q else if flt 1 u then 1%Q else u.

(** [time.Duration(float64(delay) * 0.1 * unit)]. *)
Definition throttle_jitter (delay : duration) (u : float64) : duration :=
  trunc (fmul (fmul (of_int delay) (round (1 # 10))) (unit_interval u)).

Definition throttleRetryAt (w : WorkerPolicy) (now reset : instant) : instant :=
  let reset := if is_zero reset then now + unknownThrottleDelay else reset in
  let delay := time_sub reset now in
  if delay <? minimumThrottleDelay then now + minimumThrottleDelay
  else reset + throttle_jitter delay (WRandomUnit w).

Section jobs.
Context `{Unicode}.
Context (w : WorkerPolicy).

Definition searchHistory (m : Media) (r : Result) : HistoryDetail :=
  mkHistoryDetail (MediaTitle m) (ProviderID (RCandidate r))
    (match ReleaseNames (RCandidate r) with name :: _ => name | [] => [] end) [] false.

Definition with_resume_completion (providers : list text) (signature : text) (saved : instant)
    (c : SearchCompletion) : SearchCompletion :=
  {| JobID := JobID c; Outcome := Outcome c; NextAttemptAt := NextAttemptAt c;
     AdvanceMissingAttempt := AdvanceMissingAttempt c; AdvanceUpgradeAttempt := AdvanceUpgradeAttempt c;
     AdvanceFailureAttempt := AdvanceFailureAttempt c; ResetMissingAttempt := ResetMissingAttempt c;
     MissingAttemptFloor := MissingAttemptFloor c; ResetFailureAttempt := ResetFailureAttempt c;
     CPriority := CPriority c; ResumeProviders := providers; ResumeRouteSignature := signature;
     PreserveResume := true; ResumeSavedAt := saved; PreserveQueueOrder := PreserveQueueOrder c;
     CHistory := CHistory c; FinishedAt := FinishedAt c; ClearReplaceInstalled := ClearReplaceInstalled c |}.

Definition preserveProviderResume (lease : SearchLease) (r : Result) (now : instant) (c : SearchCompletion)
    : SearchCompletion :=
  if (lease_priority lease =? SearchPriorityUpgrade) || bool_decide (RResumeProviders r = [])
     || bool_decide (RResumeRouteSignature r = [])
  then c
  else with_resume_completion (RResumeProviders r) (RResumeRouteSignature r)
         (if negb (bool_decide (lease_resume_providers lease = []))
             && negb (is_zero (lease_resume_saved_at lease))
          then lease_resume_saved_at lease else now) c.

(** The completion of a settled subtitle: installed, or kept. *)
Definition settled (lease : SearchLease) (r : Result) (advance : bool) : SearchCompletion :=
  {| JobID := lease_job lease; Outcome := outcome_text (ROutcome r); NextAttemptAt := RNextUpgrade r;
     AdvanceMissingAttempt := false; AdvanceUpgradeAttempt := advance; AdvanceFailureAttempt := false;
     ResetMissingAttempt := negb advance; MissingAttemptFloor := 0; ResetFailureAttempt := true;
     CPriority := if is_zero (RNextUpgrade r) then 0 else SearchPriorityUpgrade;
     ResumeProviders := []; ResumeRouteSignature := []; PreserveResume := false; ResumeSavedAt := zero_time;
     PreserveQueueOrder := false; CHistory := None; FinishedAt := zero_time; ClearReplaceInstalled := false |}.

Definition upgrade_lease (lease : SearchLease) : bool := lease_priority lease =? SearchPriorityUpgrade.

(** [None] is the error of an unsupported outcome. *)
Definition workflowCompletion (lease : SearchLease) (r : Result) (m : Media) (now : instant)
    : option SearchCompletion :=
  match ROutcome r with
  | OutcomeSatisfied =>
      Some (settled lease r (upgrade_lease lease && negb (is_zero (RNextUpgrade r))))
  | OutcomeInstalled => Some (settled lease r false)
  | OutcomeNoResult | OutcomeRejected | OutcomeRemoved =>
      let attempt := if upgrade_lease lease then 1 else lease_attempt lease + 1 in
      let c := Missing (scheduler w now) (lease_job lease) attempt (ReleasedAt m) in
      Some {| JobID := JobID c; Outcome := outcome_text (ROutcome r); NextAttemptAt := NextAttemptAt c;
              AdvanceMissingAttempt := AdvanceMissingAttempt c;
              AdvanceUpgradeAttempt := AdvanceUpgradeAttempt c;
              AdvanceFailureAttempt := AdvanceFailureAttempt c; ResetMissingAttempt := upgrade_lease lease;
              MissingAttemptFloor := MissingAttemptFloor c; ResetFailureAttempt := ResetFailureAttempt c;
              CPriority := SearchPriorityMissing; ResumeProviders := ResumeProviders c;
              ResumeRouteSignature := ResumeRouteSignature c; PreserveResume := PreserveResume c;
              ResumeSavedAt := ResumeSavedAt c; PreserveQueueOrder := PreserveQueueOrder c;
              CHistory := CHistory c; FinishedAt := FinishedAt c;
              ClearReplaceInstalled := ClearReplaceInstalled c |}
  | OutcomeThrottled =>
      Some (preserveProviderResume lease r now
        {| JobID := lease_job lease; Outcome := outcome_text (ROutcome r);
           NextAttemptAt := throttleRetryAt w now (RRetryAt r); AdvanceMissingAttempt := false;
           AdvanceUpgradeAttempt := false; AdvanceFailureAttempt := false; ResetMissingAttempt := false;
           MissingAttemptFloor := 0; ResetFailureAttempt := false; CPriority := 0; ResumeProviders := [];
           ResumeRouteSignature := []; PreserveResume := false; ResumeSavedAt := zero_time;
           PreserveQueueOrder := true; CHistory := None; FinishedAt := zero_time;
           ClearReplaceInstalled := false |})
  | OutcomeUnset => None
  end.

(** The fields [runSearchLease] sets on a completion. *)
Definition finished_with (history : option HistoryDetail) (finished : instant) (order clear : bool)
    (c : SearchCompletion) : SearchCompletion :=
  {| JobID := JobID c; Outcome := Outcome c; NextAttemptAt := NextAttemptAt c;
     AdvanceMissingAttempt := AdvanceMissingAttempt c; AdvanceUpgradeAttempt := AdvanceUpgradeAttempt c;
     AdvanceFailureAttempt := AdvanceFailureAttempt c; ResetMissingAttempt := ResetMissingAttempt c;
     MissingAttemptFloor := MissingAttemptFloor c; ResetFailureAttempt := ResetFailureAttempt c;
     CPriority := CPriority c; ResumeProviders := ResumeProviders c;
     ResumeRouteSignature := ResumeRouteSignature c; PreserveResume := PreserveResume c;
     ResumeSavedAt := ResumeSavedAt c; PreserveQueueOrder := PreserveQueueOrder c || order;
     CHistory := history; FinishedAt := finished;
     ClearReplaceInstalled := ClearReplaceInstalled c || clear |}.

(** ** One job *)

(** A resume list past its lifetime is forgotten. [None] is the index panic of
    [ResumeTTL], which no attempt of a well-formed row reaches. *)
Definition expire_resume (lease : SearchLease) (m : Media) (started : instant) : option SearchLease :=
  if is_zero (lease_resume_saved_at lease) then Some lease
  else
    match ResumeTTL (scheduler w started) (lease_attempt lease) (ReleasedAt m) with
    | None => None
    | Some ttl =>
        Some (if ttl <=? time_sub started (lease_resume_saved_at lease)
              then mkLease (lease_key lease) (lease_job lease) (lease_attempt lease)
                     (lease_failure_attempt lease) (lease_expiry lease) (lease_priority lease)
                     [] [] zero_time (lease_replace_installed lease)
              else lease)
    end.

Definition job_request (lease : SearchLease) (m : Media) : Request :=
  mkRequest (fst (lease_key lease)) m (snd (lease_key lease)) false
    (if upgrade_lease lease then lease_attempt lease + 1 else 0)
    (if upgrade_lease lease then [] else lease_resume_providers lease)
    (if upgrade_lease lease then [] else lease_resume_signature lease)
    (lease_replace_installed lease).

Definition empty_workflow_result : Result :=
  mkResult OutcomeUnset (minimal_candidate [] [] false) zero_score no_installation zero_time zero_time []
    ∅ [] [] OutcomeUnset false [] false false.

(** How a run ended: the workflow's result and error, whether it was abandoned
    past its limit, and the state of its lease and contexts. *)
Record JobRun := mkRun {
  run_started : instant;
  run_finished : instant;
  run_media : result WorkflowError Media;
  run_workflow : Request -> Result * option WorkflowError * bool;
  run_timed_out : bool;
  run_renewal : option WorkflowError;
  run_canceled : bool;
}.

Inductive JobEffect :=
| LeaseLost (err : WorkflowError)
| Released
| Completes (c : SearchCompletion) (err : option WorkflowError)
| Unfinished (r : Result).

(** The completion of media that cannot have subtitles. *)
Definition unsupported_completion (lease : SearchLease) (reason : text) : SearchCompletion :=
  zero_completion (lease_job lease) reason.

Definition failed_completion (lease : SearchLease) (m : Media) (r : Result) (now : instant)
    (e : WorkflowError) : SearchCompletion :=
  preserveProviderResume lease r now
    (finished_with (Some (searchHistory m empty_workflow_result)) now (MediaUnavailable e) false
       (Failure (scheduler w now) (lease_job lease) (lease_failure_attempt lease) (t "workflow_error"))).

Definition finished_completion (lease : SearchLease) (m : Media) (r : Result) (now : instant)
    : option SearchCompletion :=
  finished_with (if bool_decide (ROutcome r = OutcomeRemoved) then None else Some (searchHistory m r)) now false
    (lease_replace_installed lease && negb (bool_decide (ROutcome r = OutcomeThrottled)))
  <$> workflowCompletion lease r m now.

(** The part after the workflow returned. *)
Definition after_workflow (run : JobRun) (lease : SearchLease) (m : Media) (r : Result)
    (err : option WorkflowError) : JobEffect :=
  match (if negb (run_timed_out run) || negb (bool_decide (is_Some err)) then run_renewal run else None) with
  | Some lost => LeaseLost lost
  | None =>
      let err := if run_timed_out run
                 then (fun e => if is_job_timeout e then e else JobTimedOutE) <$> err else err in
      if run_canceled run && negb (run_timed_out run) then Released
      else
        match err with
        | Some e => Completes (failed_completion lease m r (run_finished run) e) (Some e)
        | None =>
            match finished_completion lease m r (run_finished run) with
            | Some c => Completes c None
            | None => Unfinished r
            end
        end
  end.

(** The lease after expiry, the media and what the workflow answered. *)
Definition job_answer (lease : SearchLease) (run : JobRun)
    : option (SearchLease * Media * Result * option WorkflowError) :=
  match run_media run with
  | Err e => Some (lease, no_media, empty_workflow_result, Some e)
  | Ok m =>
      match expire_resume lease m (run_started run) with
      | None => None
      | Some lease =>
          let '(r, err, abandoned) := run_workflow run (job_request lease m) in
          Some (if abandoned then (lease, m, empty_workflow_result, Some JobTimedOutE) else (lease, m, r, err))
      end
  end.

Definition unsupported_media (run : JobRun) : option text :=
  match run_media run with
  | Ok m => if bool_decide (Unsupported m = []) then None else Some (Unsupported m)
  | Err _ => None
  end.

Definition job_effect (lease : SearchLease) (run : JobRun) : option JobEffect :=
  match unsupported_media run with
  | Some reason =>
      Some (match run_renewal run with
            | Some lost => LeaseLost lost
            | None => if run_canceled run then Released
                      else Completes (unsupported_completion lease reason) None
            end)
  | None =>
      match job_answer lease run with
      | None => None
      | Some (lease, m, r, err) => Some (after_workflow run lease m r err)
      end
  end.

(** ** Against the queue *)

Context (sha256_hex : list N -> text) (repo : Repository).

(** A lease that could not be completed or released is left to expire. *)
Definition apply_effect (wall : instant) (job : text) (effect : JobEffect) (db : DB) : DB :=
  match effect with
  | Completes c _ =>
      match CompleteSearch sha256_hex repo wall c db with Ok (db, _) => db | Err _ => db end
  | Released => match ReleaseSearchLease job db with Ok db => db | Err _ => db end
  | LeaseLost _ | Unfinished _ => db
  end.

Definition runSearchLease (wall : instant) (lease : SearchLease) (run : JobRun) (db : DB) : option DB :=
  (fun effect => apply_effect wall (lease_job lease) effect db) <$> job_effect lease run.
End jobs.

(** ** Throttles *)

Lemma time_sub_lt a b d : - 2 ^ 63 < d <= 2 ^ 63 - 1 -> time_sub a b < d <-> a - b < d.
Proof. intros Hd. unfold time_sub, min_duration, max_duration. split_ifs; bools; lia. Qed.

Lemma unit_interval_bounds u : (0 <= unit_interval u <= 1)%Q.
Proof. apply (clamp_unit u). Qed.

Lemma tenth_nonneg d : 0 <= d -> (0 <= fmul (of_int d) (round (1 # 10)))%Q.
Proof.
  intros Hd. apply round_nonneg, Qmult_le_0_compat; [|by vm_compute].
  apply round_nonneg. unfold Qle. simpl. lia.
Qed.

(** The jitter is between nothing and a tenth, rounded up, for delays of up
    to 52 days. *)
Lemma throttle_jitter_bounds d u :
  0 <= d -> 0 <= throttle_jitter d u /\ (d <= 2 ^ 52 -> throttle_jitter d u <= d / 10 + 1).
Proof.
  intros Hd. unfold throttle_jitter. pose proof (unit_interval_bounds u) as Hu.
  pose proof (tenth_nonneg d Hd) as Ha. set (a := fmul (of_int d) (round (1 # 10))) in *.
  split.
  - rewrite trunc_nonneg by (apply round_nonneg, Qmult_le_0_compat; lra).
    rewrite <- (Qfloor_Z 0). apply Qfloor_resp_le, round_nonneg, Qmult_le_0_compat; lra.
  - intros Hmax. pose proof (trunc_fmul_unit a (unit_interval u) Ha ltac:(lra)) as [_ Hle].
    etrans; [exact Hle|]. set (n := d / 10 + 1).
    assert (0 <= n <= 2 ^ 53) as Hn by (pose proof (Z.div_pos d 10); pose proof (Z.div_le_upper_bound d 10 d); lia).
    assert (of_int n == inject_Z n)%Q as En by by apply of_int_exact.
    assert (a <= inject_Z n)%Q as Han.
    { rewrite <- En. apply round_mono_nonneg.
      - apply Qmult_le_0_compat; [|by vm_compute]. apply round_nonneg. unfold Qle. simpl. lia.
      - rewrite (of_int_exact d) by lia.
        assert (inject_Z d * round (1 # 10) <= inject_Z (d + 1) * (1 # 10))%Q as H1.
        { assert (round (1 # 10) == (1 # 10) + (1 # 180143985094819840))%Q as Er
            by (apply Qeq_bool_iff; by vm_compute).
          rewrite Er. assert (inject_Z d <= inject_Z (2 ^ 52))%Q as Hq by by rewrite <- Zle_Qle.
          rewrite inject_Z_plus. change (inject_Z (2 ^ 52)) with (4503599627370496 # 1)%Q in Hq.
          change (inject_Z 1) with 1%Q. lra. }
        eapply Qle_trans; [exact H1|]. assert (inject_Z (d + 1) <= inject_Z (10 * n))%Q as H2.
        { rewrite <- Zle_Qle. unfold n. pose proof (Z.mul_succ_div_gt d 10). lia. }
        rewrite (inject_Z_mult 10 n) in H2. change (inject_Z 10) with (10 # 1)%Q in H2. lra. }
    assert (fmul a 1 <= inject_Z n)%Q as H1.
    { rewrite <- En. apply round_mono_nonneg; lra. }
    rewrite trunc_nonneg by (apply round_nonneg; lra). rewrite <- (Qfloor_Z n). by apply Qfloor_resp_le.
Qed.

(** A throttled search waits at least a minute, never less than the reported
    reset, and six hours without one. *)
Lemma throttle_retry_bounds w now reset :
  now + minute <= throttleRetryAt w now reset
  /\ (is_zero reset = false -> reset <= throttleRetryAt w now reset)
  /\ (is_zero reset = true -> now + 6 * hour <= throttleRetryAt w now reset)
  /\ (is_zero reset = false -> minute <= reset - now <= 2 ^ 52 ->
      throttleRetryAt w now reset <= reset + (reset - now) / 10 + 1).
Proof.
  unfold throttleRetryAt. set (reset' := if is_zero reset then now + unknownThrottleDelay else reset).
  cbv zeta. destruct (time_sub reset' now <? minimumThrottleDelay) eqn:E.
  - apply Z.ltb_lt in E. rewrite time_sub_lt in E by (unfold minimumThrottleDelay, minute, second; lia).
    unfold reset', unknownThrottleDelay, minimumThrottleDelay, hour, minute, second in *.
    destruct (is_zero reset); split_and!; try done; lia.
  - apply Z.ltb_ge in E.
    assert (minute <= reset' - now) as Hr.
    { apply Z.nlt_ge. intros H. apply Z.nlt_ge in E. apply E. unfold minimumThrottleDelay.
      apply time_sub_lt; [unfold minute, second; lia|done]. }
    assert (0 <= time_sub reset' now) as Hd by (unfold minimumThrottleDelay, minute, second in E; lia).
    destruct (throttle_jitter_bounds _ (WRandomUnit w) Hd) as [H0 H1].
    unfold reset', unknownThrottleDelay, minute, second in *. destruct (is_zero reset) eqn:Ez; split_and!; try done; try lia.
    intros _ [Hlo Hhi]. rewrite !time_sub_small in * by (unfold min_duration, max_duration; lia). specialize (H1 Hhi).
    unfold minute, second in *. lia.
Qed.

(** ** What a finished job does to its search *)

(** The row after a job, by what its workflow answered. *)
Definition settles (lease : SearchLease) (r : Result) (err : option WorkflowError) (now : instant)
    (row row' : search_row) : Prop :=
  match err, ROutcome r with
  | Some e, _ =>
      state row' = StatePending /\ last_outcome row' = t "workflow_error"
      /\ now + minute <= next_attempt_at_ns row' <= now + 24 * hour
      /\ attempt row' = attempt row /\ failure_attempt row' = failure_attempt row + 1
      /\ priority row' = priority row /\ replace_installed row' = replace_installed row
      /\ queue_order_ns row' = (if MediaUnavailable e then queue_order_ns row else next_attempt_at_ns row')
  | None, OutcomeThrottled =>
      state row' = StatePending
      /\ now + minute <= next_attempt_at_ns row'
      /\ (is_zero (RRetryAt r) = false -> RRetryAt r <= next_attempt_at_ns row')
      /\ (is_zero (RRetryAt r) = true -> now + 6 * hour <= next_attempt_at_ns row')
      /\ attempt row' = attempt row /\ failure_attempt row' = failure_attempt row
      /\ priority row' = priority row /\ replace_installed row' = replace_installed row
      /\ queue_order_ns row' = queue_order_ns row
  | None, (OutcomeNoResult | OutcomeRejected | OutcomeRemoved) =>
      state row' = StatePending /\ now + 6 * hour <= next_attempt_at_ns row'
      /\ (if upgrade_lease lease then 1 else attempt row + 1) <= attempt row' <= Z.max AgedMissingAttempt (attempt row + 1)
      /\ failure_attempt row' = 0 /\ priority row' = SearchPriorityMissing
      /\ queue_order_ns row' = next_attempt_at_ns row'
      /\ replace_installed row' = (if lease_replace_installed lease then false else replace_installed row)
  | None, (OutcomeSatisfied | OutcomeInstalled) =>
      (if is_zero (RNextUpgrade r)
       then state row' = StateComplete /\ next_attempt_at_ns row' = 0 /\ priority row' = priority row
       else state row' = StatePending /\ next_attempt_at_ns row' = RNextUpgrade r
            /\ priority row' = SearchPriorityUpgrade)
      /\ attempt row' = (if bool_decide (ROutcome r = OutcomeSatisfied) && upgrade_lease lease
                            && negb (is_zero (RNextUpgrade r)) then attempt row + 1 else 0)
      /\ failure_attempt row' = 0 /\ queue_order_ns row' = next_attempt_at_ns row'
      /\ replace_installed row' = (if lease_replace_installed lease then false else replace_installed row)
  | None, OutcomeUnset => False
  end.

(** The media was deleted meanwhile: the search is closed. *)
Definition closes_deleted (row row' : search_row) : Prop :=
  state row' = StateComplete /\ last_outcome row' = t "deleted" /\ next_attempt_at_ns row' = 0 /\ queue_order_ns row' = 0
  /\ attempt row' = attempt row /\ failure_attempt row' = failure_attempt row /\ priority row' = priority row
  /\ replace_installed row' = false.

(** Another search was requested meanwhile: it starts over, when and where the
    request put it. *)
Definition starts_over (row row' : search_row) : Prop :=
  state row' = StatePending /\ last_outcome row' = [] /\ next_attempt_at_ns row' = next_attempt_at_ns row
  /\ queue_order_ns row' = queue_order_ns row /\ attempt row' = 0 /\ failure_attempt row' = 0 /\ priority row' = priority row
  /\ replace_installed row' = replace_installed row /\ resume row' = no_resume.

(** Media that cannot have subtitles: the search is closed, for this reason. *)
Definition closes_unsupported (reason : text) (row row' : search_row) : Prop :=
  state row' = StateComplete /\ last_outcome row' = reason /\ next_attempt_at_ns row' = 0 /\ queue_order_ns row' = 0
  /\ attempt row' = attempt row /\ failure_attempt row' = failure_attempt row /\ priority row' = priority row
  /\ replace_installed row' = replace_installed row /\ resume row' = no_resume.

Lemma workflow_failure_bounds n : minute <= WorkflowFailureDelay n <= 24 * hour.
Proof.
  assert (Forall (fun d => minute <= d <= 24 * hour) workflowFailureDelays) as Hall
    by (repeat constructor; unfold hour, minute, second; lia).
  rewrite Forall_forall in Hall. apply Hall, delayAt_in. done.
Qed.

Section settle.
Context `{Unicode}.
Context (sha256_hex : list N -> text) (repo : Repository) (w : WorkerPolicy).

(** Completing a job writes its row and no other. *)
Lemma complete_writes wall c db db' res k row mr :
  CompleteSearch sha256_hex repo wall c db = Ok (db', res) ->
  searches db !! k = Some row -> lease_owner row = Some (JobID c) ->
  media db !! fst k = Some mr ->
  exists saved, searches db' !! k = Some (if deleted mr then deleted_row row else completed_row c saved row)
                /\ (forall k', k' <> k -> searches db' !! k' = searches db !! k').
Proof.
  intros Hc Hk Ho Hm. apply complete_inversion in Hc as (_ & k0 & r0 & m0 & saved & Hown & Hm0 & _ & Hs & _).
  assert ((k, row) ∈ owned_keys (JobID c) db) as Hin by by apply owned_keys_spec.
  pose proof Hin as Hin'. rewrite Hown, list_elem_of_singleton in Hin. simplify_eq.
  exists saved. rewrite Hs. split; [case_match; by apply update_owned_hit|].
  intros k' Hne. unfold update_owned. simpl. rewrite lookup_fmap.
  destruct (searches db !! k') as [r'|] eqn:E; simpl; [|done]. destruct (owned_by (JobID c) r') eqn:Eo; [|done].
  exfalso. apply Hne. unfold owned_by in Eo. apply bool_decide_eq_true in Eo.
  assert ((k', r') ∈ owned_keys (JobID c) db) as Hin2 by by apply owned_keys_spec.
  rewrite Hown, list_elem_of_singleton in Hin2. by simplify_eq.
Qed.

(** The fields of [completed_row] when nothing changed meanwhile. *)
Lemma completed_row_fields c saved row :
  rerun_requested row = false ->
  let row' := completed_row c saved row in
  let advance := bump (AdvanceMissingAttempt c || AdvanceUpgradeAttempt c) in
  lease_owner row' = None /\ lease_until_ns row' = None /\ rerun_requested row' = false
  /\ last_outcome row' = Outcome c
  /\ state row' = (if is_zero (NextAttemptAt c) then StateComplete else StatePending)
  /\ next_attempt_at_ns row' = (if is_zero (NextAttemptAt c) then 0 else NextAttemptAt c)
  /\ queue_order_ns row' = (if PreserveQueueOrder c then queue_order_ns row else next_attempt_at_ns row')
  /\ attempt row' = Z.max (MissingAttemptFloor c)
       (if ResetMissingAttempt c then advance else attempt row + advance)
  /\ failure_attempt row' = (if ResetFailureAttempt c then 0
                             else failure_attempt row + bump (AdvanceFailureAttempt c))
  /\ priority row' = (if CPriority c =? 0 then priority row else CPriority c)
  /\ replace_installed row' = (if ClearReplaceInstalled c then false else replace_installed row).
Proof. intros Hr. unfold completed_row. rewrite Hr. simpl. split_and!; try done; by destruct (PreserveQueueOrder c). Qed.

(** Keeping the resume list changes nothing else of a completion. *)
Lemma preserve_fields lease r now c :
  let c' := preserveProviderResume lease r now c in
  JobID c' = JobID c /\ Outcome c' = Outcome c /\ NextAttemptAt c' = NextAttemptAt c
  /\ AdvanceMissingAttempt c' = AdvanceMissingAttempt c /\ AdvanceUpgradeAttempt c' = AdvanceUpgradeAttempt c
  /\ AdvanceFailureAttempt c' = AdvanceFailureAttempt c /\ ResetMissingAttempt c' = ResetMissingAttempt c
  /\ MissingAttemptFloor c' = MissingAttemptFloor c /\ ResetFailureAttempt c' = ResetFailureAttempt c
  /\ CPriority c' = CPriority c /\ PreserveQueueOrder c' = PreserveQueueOrder c
  /\ ClearReplaceInstalled c' = ClearReplaceInstalled c.
Proof. unfold preserveProviderResume. destruct (_ || _ || _); done. Qed.

Lemma not_zero_later now x : 0 <= now -> now + minute <= x -> is_zero x = false.
Proof. intros. unfold is_zero, zero_time, minute, second in *. apply Z.eqb_neq. lia. Qed.

Lemma missing_wait lease m now n :
  1 <= n -> let c := Missing (scheduler w now) (lease_job lease) n (ReleasedAt m) in
  now + 6 * hour <= NextAttemptAt c /\ 0 <= MissingAttemptFloor c <= AgedMissingAttempt.
Proof.
  intros Hn c. split.
  - unfold c. rewrite missing_next.
    destruct (missing_delay_bounds (effective_attempt (scheduler w now) n (ReleasedAt m)) (RandomUnit (scheduler w now)))
      as [H1 H2]; [unfold effective_attempt; destruct (aged _ _ _); lia|]. cbn [Now scheduler]. lia.
  - cbn [c Missing MissingAttemptFloor]. unfold AgedMissingAttempt. destruct (_ && _); lia.
Qed.

(** A failure keeps the attempt and the priority and is retried within a day. *)
Lemma failure_settles lease m r now e saved row :
  0 <= now -> rerun_requested row = false -> 0 <= attempt row ->
  let c := failed_completion w lease m r now e in
  JobID c = lease_job lease /\ settles lease r (Some e) now row (completed_row c saved row).
Proof.
  intros Hnow Hrerun Hat c. unfold c, failed_completion.
  match goal with |- context [preserveProviderResume lease r now ?c0] => set (c0' := c0) end.
  destruct (preserve_fields lease r now c0') as (F1 & F2 & F3 & F4 & F5 & F6 & F7 & F8 & F9 & F10 & F11 & F12).
  split; [done|]. set (c' := preserveProviderResume lease r now c0') in *.
  destruct (completed_row_fields c' saved row Hrerun) as (_ & _ & _ & G4 & G5 & G6 & G7 & G8 & G9 & G10 & G11).
  pose proof (workflow_failure_bounds (lease_failure_attempt lease)) as Hb.
  set (row' := completed_row c' saved row) in *. clearbody row'.
  rewrite F2 in G4. rewrite F3 in G5, G6. rewrite F11 in G7. rewrite F4, F5, F7, F8 in G8. rewrite F6, F9 in G9.
  rewrite F10 in G10. rewrite F12 in G11. unfold c0' in *. cbn in G4, G5, G6, G7, G8, G9, G10, G11.
  assert (is_zero (now + WorkflowFailureDelay (lease_failure_attempt lease)) = false) as Hz
    by (apply (not_zero_later now); lia).
  rewrite Hz in G5, G6. cbn [settles]. rewrite G6, G8. split_and!; try done; try lia. by rewrite <- G6.
Qed.

Lemma throttle_settles lease m r now saved row c :
  0 <= now -> rerun_requested row = false -> 0 <= attempt row -> ROutcome r = OutcomeThrottled ->
  finished_completion w lease m r now = Some c ->
  JobID c = lease_job lease /\ settles lease r None now row (completed_row c saved row).
Proof.
  intros Hnow Hrerun Hat Ho. unfold finished_completion, workflowCompletion. rewrite Ho. cbn [fmap option_fmap option_map].
  intros [= <-].
  match goal with |- context [preserveProviderResume lease r now ?c0] => set (c0' := c0) end.
  destruct (preserve_fields lease r now c0') as (F1 & F2 & F3 & F4 & F5 & F6 & F7 & F8 & F9 & F10 & F11 & F12).
  split; [done|]. set (c' := preserveProviderResume lease r now c0') in *.
  match goal with |- settles _ _ _ _ _ (completed_row ?c1 _ _) => set (c2 := c1) end.
  destruct (completed_row_fields c2 saved row Hrerun) as (_ & _ & _ & _ & G5 & G6 & G7 & G8 & G9 & G10 & G11).
  destruct (throttle_retry_bounds w now (RRetryAt r)) as (Hmin & Hreset & Hnone & _).
  set (row' := completed_row c2 saved row) in *. clearbody row'.
  unfold c2 in *. cbn [finished_with NextAttemptAt PreserveQueueOrder AdvanceMissingAttempt AdvanceUpgradeAttempt
    ResetMissingAttempt MissingAttemptFloor ResetFailureAttempt AdvanceFailureAttempt CPriority
    ClearReplaceInstalled] in G5, G6, G7, G8, G9, G10, G11.
  rewrite F3 in G5, G6. rewrite F11 in G7. rewrite F4, F5, F7, F8 in G8. rewrite F6, F9 in G9.
  rewrite F10 in G10. rewrite F12 in G11. unfold c0' in *. cbn in G5, G6, G7, G8, G9, G10, G11.
  rewrite (not_zero_later now) in G5, G6 by lia. rewrite andb_false_r in G11.
  cbn [settles]. rewrite Ho, G6, G8. split_and!; try done; lia.
Qed.

Lemma missing_settles lease m r now saved row c :
  0 <= now -> rerun_requested row = false -> 0 <= attempt row -> 0 <= lease_attempt lease ->
  ROutcome r = OutcomeNoResult \/ ROutcome r = OutcomeRejected \/ ROutcome r = OutcomeRemoved ->
  finished_completion w lease m r now = Some c ->
  JobID c = lease_job lease /\ settles lease r None now row (completed_row c saved row).
Proof.
  intros Hnow Hrerun Hat Hla Ho.
  destruct (missing_wait lease m now (if upgrade_lease lease then 1 else lease_attempt lease + 1)) as [Hwait Hfloor];
    [destruct (upgrade_lease lease); lia|].
  set (n := if upgrade_lease lease then 1 else lease_attempt lease + 1) in *.
  assert (forall c, finished_completion w lease m r now = Some c ->
    JobID c = lease_job lease /\ NextAttemptAt c = NextAttemptAt (Missing (scheduler w now) (lease_job lease) n (ReleasedAt m))
    /\ MissingAttemptFloor c = MissingAttemptFloor (Missing (scheduler w now) (lease_job lease) n (ReleasedAt m))
    /\ AdvanceMissingAttempt c = true /\ ResetMissingAttempt c = upgrade_lease lease
    /\ ResetFailureAttempt c = true /\ CPriority c = SearchPriorityMissing /\ PreserveQueueOrder c = false
    /\ ClearReplaceInstalled c = lease_replace_installed lease) as Hc.
  { intros c'. unfold finished_completion, workflowCompletion. fold n.
    destruct Ho as [-> | [-> | ->]]; intros [= <-]; cbn; by rewrite andb_true_r. }
  intros (F1 & F2 & F3 & F4 & F5 & F6 & F7 & F8 & F9)%Hc. split; [done|].
  destruct (completed_row_fields c saved row Hrerun) as (_ & _ & _ & _ & G5 & G6 & G7 & G8 & G9 & G10 & G11).
  set (row' := completed_row c saved row) in *. clearbody row'.
  rewrite F2 in G5, G6. rewrite F8 in G7. rewrite F3, F4, F5 in G8. rewrite F6 in G9.
  rewrite F7 in G10. rewrite F9 in G11. unfold hour, minute, second in *.
  rewrite (not_zero_later now) in G5, G6 by (unfold minute, second; lia). cbn [bump orb] in G8.
  destruct Ho as [Ho | [Ho | Ho]]; cbn [settles]; rewrite Ho, G6, G8; unfold AgedMissingAttempt in *;
    (split_and!; [done|unfold hour, minute, second; lia|destruct (upgrade_lease lease); lia
                 |destruct (upgrade_lease lease); lia|done|done|by rewrite <- G6|done]).
Qed.

Lemma installed_settles lease m r now saved row c :
  rerun_requested row = false -> 0 <= attempt row ->
  ROutcome r = OutcomeSatisfied \/ ROutcome r = OutcomeInstalled ->
  finished_completion w lease m r now = Some c ->
  JobID c = lease_job lease /\ settles lease r None now row (completed_row c saved row).
Proof.
  intros Hrerun Hat Ho. set (advance := bool_decide (ROutcome r = OutcomeSatisfied) && upgrade_lease lease
                                     && negb (is_zero (RNextUpgrade r))).
  assert (forall c, finished_completion w lease m r now = Some c ->
    JobID c = lease_job lease /\ NextAttemptAt c = RNextUpgrade r /\ MissingAttemptFloor c = 0
    /\ AdvanceMissingAttempt c = false /\ AdvanceUpgradeAttempt c = advance /\ ResetMissingAttempt c = negb advance
    /\ ResetFailureAttempt c = true
    /\ CPriority c = (if is_zero (RNextUpgrade r) then 0 else SearchPriorityUpgrade) /\ PreserveQueueOrder c = false
    /\ ClearReplaceInstalled c = lease_replace_installed lease) as Hc.
  { intros c'. unfold finished_completion, workflowCompletion, advance.
    destruct Ho as [-> | ->]; intros [= <-]; cbn; by rewrite andb_true_r. }
  intros (F1 & F2 & F3 & F4 & F4' & F5 & F6 & F7 & F8 & F9)%Hc. split; [done|].
  destruct (completed_row_fields c saved row Hrerun) as (_ & _ & _ & _ & G5 & G6 & G7 & G8 & G9 & G10 & G11).
  set (row' := completed_row c saved row) in *. clearbody row'.
  rewrite F2 in G5, G6. rewrite F8 in G7. rewrite F3, F4, F4', F5 in G8. rewrite F6 in G9.
  rewrite F7 in G10. rewrite F9 in G11. cbn [orb] in G8.
  assert (attempt row' = if advance then attempt row + 1 else 0) as Ga
    by (rewrite G8; destruct advance; cbn [negb bump]; lia).
  destruct Ho as [Ho | Ho]; unfold settles; fold advance; rewrite Ho; clearbody advance;
    (split; [destruct (is_zero (RNextUpgrade r)); by rewrite G5, G6, G10|done]).
Qed.

(** Forgetting an expired list changes nothing else of a lease. *)
Lemma job_answer_lease lease run lease' m r err :
  job_answer w lease run = Some (lease', m, r, err) ->
  lease_job lease' = lease_job lease /\ lease_attempt lease' = lease_attempt lease
  /\ lease_priority lease' = lease_priority lease
  /\ lease_replace_installed lease' = lease_replace_installed lease.
Proof.
  unfold job_answer. destruct (run_media run) as [m0|e]; [|by intros [= <- _ _ _]].
  unfold expire_resume. destruct (is_zero (lease_resume_saved_at lease)).
  - destruct (run_workflow run (job_request lease m0)) as [[r0 err0] []]; by intros [= <- _ _ _].
  - destruct (ResumeTTL _ _ _) as [ttl|]; [|done].
    match goal with |- context [run_workflow run (job_request ?l m0)] =>
      destruct (run_workflow run (job_request l m0)) as [[r0 err0] []] end;
      intros [= <- _ _ _]; by destruct (_ <=? _).
Qed.

(** What [after_workflow] completes with, by the error it reports. *)
Lemma after_workflow_completes run lease m r err c e' :
  after_workflow w run lease m r err = Completes c e' ->
  match e' with
  | Some e => c = failed_completion w lease m r (run_finished run) e
  | None => finished_completion w lease m r (run_finished run) = Some c
  end.
Proof.
  unfold after_workflow.
  destruct (if negb (run_timed_out run) || negb (bool_decide (is_Some err)) then run_renewal run else None); [done|].
  cbv zeta. destruct (run_canceled run && negb (run_timed_out run)); [done|].
  destruct (if run_timed_out run then _ else err); [by intros [= <- <-]|].
  destruct (finished_completion w lease m r (run_finished run)) as [c0|]; [|done]. by intros [= <- <-].
Qed.

Lemma completion_settles lease m r now e' saved row c :
  0 <= now -> rerun_requested row = false -> 0 <= attempt row -> 0 <= lease_attempt lease ->
  match e' with
  | Some e => c = failed_completion w lease m r now e
  | None => finished_completion w lease m r now = Some c
  end ->
  JobID c = lease_job lease /\ settles lease r e' now row (completed_row c saved row).
Proof.
  intros Hnow Hrerun Hat Hla Hc. destruct e' as [e|].
  - subst c. by apply failure_settles.
  - destruct (ROutcome r) eqn:Ho.
    + unfold finished_completion, workflowCompletion in Hc. by rewrite Ho in Hc.
    + eapply installed_settles; eauto.
    + eapply installed_settles; eauto.
    + eapply missing_settles; eauto.
    + eapply missing_settles; eauto.
    + eapply throttle_settles; eauto.
    + eapply missing_settles; eauto.
Qed.

Lemma completes_its_job lease m r now e' c :
  0 <= now -> 0 <= lease_attempt lease ->
  match e' with
  | Some e => c = failed_completion w lease m r now e
  | None => finished_completion w lease m r now = Some c
  end -> JobID c = lease_job lease.
Proof. intros Hn Hl Hc. by apply (completion_settles lease m r now e' no_resume (new_row StatePending 0 [] 0 (mkQueueOrder 0 [] 0 0 0)) c). Qed.

(** C28. Every job that completes settles its search as its outcome requires: a
    failure is retried within a minute to a day, one failure later, and one that
    could not read its media keeps its queue place; a throttle waits at least a
    minute and for the reported reset (six hours without one) and keeps its
    counters and place; a search without a result advances its attempt and waits
    at least the six-hour cache; an installed or kept subtitle is closed, or
    waits for its next upgrade check. What happened meanwhile goes before the
    outcome: the search of media deleted meanwhile is closed, and one that was
    requested again starts over when and where the request put it. The search of
    media that cannot have subtitles is closed for that reason. The lease ends
    and no other search changes. *)
Theorem finished_job_settles wall lease run c e' db db' res k row mr
    (Heffect : job_effect w lease run = Some (Completes c e'))
    (Hc : CompleteSearch sha256_hex repo wall c db = Ok (db', res))
    (Hrow : searches db !! k = Some row) (Howner : lease_owner row = Some (lease_job lease))
    (Hmedia : media db !! fst k = Some mr) (Hattempt : 0 <= attempt row)
    (Hlease : 0 <= lease_attempt lease) (Hnow : 0 <= run_finished run) :
  runSearchLease w sha256_hex repo wall lease run db = Some db'
  /\ exists row', searches db' !! k = Some row'
       /\ lease_owner row' = None /\ lease_until_ns row' = None /\ rerun_requested row' = false
       /\ (if deleted mr then closes_deleted row row'
           else if rerun_requested row then starts_over row row'
           else match unsupported_media run with
                | Some reason => closes_unsupported reason row row'
                | None => exists lease' m r err, job_answer w lease run = Some (lease', m, r, err)
                                                 /\ settles lease r e' (run_finished run) row row'
                end)
       /\ forall k', k' <> k -> searches db' !! k' = searches db !! k'.
Proof.
  split; [unfold runSearchLease; rewrite Heffect; cbn; by rewrite Hc|]. unfold job_effect in Heffect.
  assert (JobID c = lease_job lease /\ (rerun_requested row = false -> forall saved,
    match unsupported_media run with
    | Some reason => closes_unsupported reason row (completed_row c saved row)
    | None => exists lease' m r err, job_answer w lease run = Some (lease', m, r, err)
                                     /\ settles lease r e' (run_finished run) row (completed_row c saved row)
    end)) as [Hjob Hsettles].
  { destruct (unsupported_media run) as [reason|].
    - destruct (run_renewal run); [done|]. destruct (run_canceled run); [done|]. injection Heffect as <- <-.
      split; [done|]. intros Hr saved. unfold closes_unsupported, completed_row. rewrite Hr. cbn. split_and!; try done; lia.
    - destruct (job_answer w lease run) as [[[[lease' m] r] err]|] eqn:Ha; [|done]. injection Heffect as Heffect.
      destruct (job_answer_lease _ _ _ _ _ _ Ha) as (Hj & Hla & Hpr & Hrep).
      apply after_workflow_completes in Heffect. split; [rewrite <- Hj; by eapply completes_its_job; [|rewrite Hla|]|].
      intros Hr saved. exists lease', m, r, err. split; [done|].
      destruct (completion_settles lease' m r (run_finished run) e' saved row c) as [_ Hs]; [done..|by rewrite Hla|done|].
      unfold settles, upgrade_lease in *. by rewrite Hpr, Hrep in Hs. }
  destruct (complete_writes wall c db db' res k row mr Hc Hrow) as (saved & Hrow' & Hothers); [by rewrite Hjob|done|].
  eexists. split; [exact Hrow'|]. destruct (deleted mr); [by split_and!|].
  split_and!; try done. destruct (rerun_requested row) eqn:Hr; [|by apply Hsettles].
  unfold starts_over, completed_row. by rewrite Hr.
Qed.

End settle.

(** ** How old a skipped provider's answer is *)

Section fresh.
Context `{Unicode}.
Context (sha256_hex : list N -> text) (w : WorkerPolicy) (s : Service).
Context (acquire : Service -> Request -> Installation -> bool -> Acquired).
Context (existing : Installation) (installed : bool).

(** The workflow as far as resumed searches go: the request is validated, the
    tiers are searched. *)
Definition resumed_workflow (q : Request) : Result * option WorkflowError * bool :=
  match validatedResumeRequest sha256_hex s q with
  | Err e => (empty_workflow_result, Some e, false)
  | Ok q => let '(r, err, _) := runProviderTiers sha256_hex acquire s q existing installed in (r, err, false)
  end.

(** A provider some acquisition of the run reported clean-empty. *)
Definition answered_clean (id : text) : Prop :=
  exists sv q, id ∈ RcleanEmptyProviders (aq_result (acquire sv q existing installed)).

Lemma run_tiers_clean q r err asked id :
  run_tiers acquire s q existing installed = (r, err, asked) -> id ∈ RcleanEmptyProviders r -> answered_clean id.
Proof.
  unfold run_tiers. set (first := acquire (tier_service s) q existing installed).
  set (second := acquire (fallback_service s) q existing installed).
  assert (forall id, id ∈ RcleanEmptyProviders (aq_result first) -> answered_clean id) as Hfirst
    by (intros; by exists (tier_service s), q).
  assert (forall id, id ∈ RcleanEmptyProviders (aq_result second) -> answered_clean id) as Hsecond
    by (intros; by exists (fallback_service s), q).
  intros Hrun Hid.
  assert (RcleanEmptyProviders r = RcleanEmptyProviders (aq_result first)
          \/ RcleanEmptyProviders r
             = mergeResumeProviders s [RcleanEmptyProviders (aq_result first); RcleanEmptyProviders (aq_result second)])
    as [Hr | Hr].
  { clear - Hrun. unfold after_preferred, after_fallback, retainFallback in Hrun. repeat case_match; simplify_eq; auto. }
  - rewrite Hr in Hid. by apply Hfirst.
  - rewrite Hr in Hid. unfold mergeResumeProviders in Hid. apply list_elem_of_filter in Hid as [Hid _].
    cbn in Hid. rewrite app_nil_r, elem_of_app in Hid. destruct Hid; auto.
Qed.

Lemma resumed_providers q r err abandoned id :
  resumed_workflow q = (r, err, abandoned) -> id ∈ RResumeProviders r ->
  abandoned = false /\ (id ∈ QResumeProviders q \/ answered_clean id).
Proof.
  unfold resumed_workflow. destruct (validatedResumeRequest sha256_hex s q) as [q'|e] eqn:Eq.
  2:{ intros [= <- <- <-]. by intros ?%elem_of_nil. }
  assert (forall id, id ∈ QResumeProviders q' -> id ∈ QResumeProviders q) as Hq.
  { revert Eq. unfold validatedResumeRequest. destruct (_ || _); [intros [= <-]; by intros ? ?%elem_of_nil|].
    destruct (valid_resume _ _ _); [by intros [= <-]|done]. }
  unfold runProviderTiers. set (q0 := if installed then with_resume_request [] [] q' else q').
  assert (forall id, id ∈ QResumeProviders q0 -> id ∈ QResumeProviders q') as Hq0
    by (unfold q0; destruct installed; [by intros ? ?%elem_of_nil|done]).
  destruct (run_tiers acquire s q0 existing installed) as [[r0 err0] asked] eqn:Er.
  intros [= <- _ <-] Hid. split; [done|]. unfold finishProviderResume in Hid.
  destruct (installed || _); cbn [with_resume_result RResumeProviders] in Hid; [by apply elem_of_nil in Hid|].
  unfold mergeResumeProviders in Hid. apply list_elem_of_filter in Hid as [Hid _].
  cbn in Hid. rewrite app_nil_r, elem_of_app in Hid. destruct Hid as [Hid|Hid]; [auto|].
  right. by eapply run_tiers_clean.
Qed.

(** The list a completion keeps, and its date. *)
Lemma completion_resume lease m r now e' c :
  match e' with
  | Some e => c = failed_completion w lease m r now e
  | None => finished_completion w lease m r now = Some c
  end ->
  (PreserveResume c = false /\ ResumeProviders c = [])
  \/ (PreserveResume c = true /\ upgrade_lease lease = false /\ ResumeProviders c = RResumeProviders r
      /\ ResumeSavedAt c = if negb (bool_decide (lease_resume_providers lease = []))
                               && negb (is_zero (lease_resume_saved_at lease))
                            then lease_resume_saved_at lease else now).
Proof.
  assert (forall c0, PreserveResume c0 = false -> ResumeProviders c0 = [] ->
    let c := preserveProviderResume lease r now c0 in
    (PreserveResume c = false /\ ResumeProviders c = [])
    \/ (PreserveResume c = true /\ upgrade_lease lease = false /\ ResumeProviders c = RResumeProviders r
      /\ ResumeSavedAt c = if negb (bool_decide (lease_resume_providers lease = []))
                               && negb (is_zero (lease_resume_saved_at lease))
                            then lease_resume_saved_at lease else now)) as Hp.
  { intros c0 H1 H2 c1. unfold c1, preserveProviderResume, upgrade_lease.
    destruct (lease_priority lease =? SearchPriorityUpgrade); cbn [orb]; [by left|].
    destruct (bool_decide _ || bool_decide _); [by left|]. by right. }
  destruct e' as [e|]; [intros ->; by apply Hp|].
  unfold finished_completion, workflowCompletion.
  destruct (ROutcome r); intros Heq; try done; injection Heq as <-; try by left.
  match goal with |- context [preserveProviderResume lease r now ?c0] => exact (Hp c0 eq_refl eq_refl) end.
Qed.

Lemma resume_ttl_small sch n rel ttl : ResumeTTL sch n rel = Some ttl -> 0 <= ttl <= 14 * 24 * hour.
Proof.
  assert (Forall (fun d => 0 <= d <= 14 * 24 * hour) missingIntervals) as Hall
    by (repeat constructor; unfold hour, minute, second; lia).
  unfold ResumeTTL. cbv zeta. destruct (_ <? 0); [done|].
  match goal with |- context [missingIntervals !! ?i] => destruct (missingIntervals !! i) as [d|] eqn:E end; [|done].
  intros [= <-]. eapply Forall_lookup_1 in Hall; [|exact E]. cbn in Hall. unfold hour, minute, second in *. lia.
Qed.

(** The answer of a resumed run: the list is still the lease's, and young
    enough, or it is gone; what the run saves is of the list or clean. *)
Lemma answered_lists lease run lease' m m' r err :
  run_media run = Ok m -> (forall q, run_workflow run q = resumed_workflow q) ->
  job_answer w lease run = Some (lease', m', r, err) ->
  m' = m
  /\ (lease_resume_providers lease' = []
      \/ lease' = lease /\ (is_zero (lease_resume_saved_at lease) = true
           \/ exists ttl, ResumeTTL (scheduler w (run_started run)) (lease_attempt lease) (ReleasedAt m) = Some ttl
                /\ time_sub (run_started run) (lease_resume_saved_at lease) < ttl))
  /\ (forall id, id ∈ RResumeProviders r -> id ∈ lease_resume_providers lease' \/ answered_clean id).
Proof.
  intros Hm Hw Ha. unfold job_answer in Ha. rewrite Hm in Ha.
  assert (forall lease0, (let '(r, err, abandoned) := run_workflow run (job_request lease0 m) in
      Some (if abandoned then (lease0, m, empty_workflow_result, Some JobTimedOutE) else (lease0, m, r, err)))
      = Some (lease', m', r, err) ->
      lease' = lease0 /\ m' = m /\ forall id, id ∈ RResumeProviders r -> id ∈ lease_resume_providers lease0 \/ answered_clean id)
    as Hrun.
  { intros lease0. rewrite Hw. destruct (resumed_workflow (job_request lease0 m)) as [[r0 err0] abandoned] eqn:Er.
    pose proof (fun id => resumed_providers _ _ _ _ id Er) as Hid.
    destruct abandoned; intros [= <- <- <- _]; (split_and!; [done|done|]).
    - by intros id ?%elem_of_nil.
    - intros id Hin. destruct (Hid id Hin) as [_ [Hq | Hq]]; [left|by right].
      revert Hq. cbn. destruct (upgrade_lease lease0); [by intros ?%elem_of_nil|done]. }
  unfold expire_resume in Ha. destruct (is_zero (lease_resume_saved_at lease)) eqn:Ez.
  - apply Hrun in Ha as (-> & -> & Hids). split_and!; [done|right; split; [done|by left]|done].
  - destruct (ResumeTTL _ _ _) as [ttl|] eqn:Et; [|done].
    destruct (ttl <=? time_sub (run_started run) (lease_resume_saved_at lease)) eqn:Elt; bools;
      apply Hrun in Ha as (-> & -> & Hids).
    + split_and!; [done|by left|done].
    + split_and!; [done|right; split; [done|right; by exists ttl]|done].
Qed.

(** A provider is skipped only on a recent answer. Let every list be dated
    so that each of its providers answered clean-empty no earlier than one job
    length before that date, as the queue leases it. Then every provider the
    job's request skips answered less than the missing schedule's next step,
    plus one job length, before the job started; and the list the job saves is
    dated in the same way, however often it is carried over, so the bound
    holds at every later attempt. *)
Theorem skipped_answers_are_fresh lease run lease' m m' r err c e' (answered : text -> instant) (length_ : duration)
    (Hmedia : run_media run = Ok m) (Hsupported : Unsupported m = [])
    (Hworkflow : forall q, run_workflow run q = resumed_workflow q)
    (Hanswer : job_answer w lease run = Some (lease', m', r, err))
    (Heffect : job_effect w lease run = Some (Completes c e'))
    (Hclean : forall id, answered_clean id -> run_started run <= answered id)
    (Hdated : lease_resume_providers lease <> [] ->
       is_zero (lease_resume_saved_at lease) = false /\ lease_resume_saved_at lease <= run_started run)
    (Hlist : forall id, id ∈ lease_resume_providers lease -> lease_resume_saved_at lease - length_ <= answered id)
    (Hlength : run_started run <= run_finished run <= run_started run + length_) :
  (forall id, id ∈ QResumeProviders (job_request lease' m) ->
     exists ttl, ResumeTTL (scheduler w (run_started run)) (lease_attempt lease) (ReleasedAt m) = Some ttl
       /\ run_started run - answered id < ttl + length_)
  /\ (PreserveResume c = true -> ResumeSavedAt c <= run_finished run)
  /\ (forall id, id ∈ ResumeProviders c -> ResumeSavedAt c - length_ <= answered id).
Proof.
  assert (unsupported_media run = None) as Hun by (unfold unsupported_media; by rewrite Hmedia, Hsupported).
  unfold job_effect in Heffect. rewrite Hun, Hanswer in Heffect. injection Heffect as Heffect.
  apply after_workflow_completes, completion_resume in Heffect.
  destruct (answered_lists _ _ _ _ _ _ _ Hmedia Hworkflow Hanswer) as (-> & Hkept & Hids).
  split; [|destruct Heffect as [[Hp Hr] | (Hp & Hup & Hr & Hs)]].
  - intros id Hid.
    assert (id ∈ lease_resume_providers lease') as Hin
      by (revert Hid; cbn; destruct (upgrade_lease lease'); [by intros ?%elem_of_nil|done]).
    destruct Hkept as [Hnil | [-> Hyoung]]; [rewrite Hnil in Hin; by apply elem_of_nil in Hin|].
    destruct (Hdated ltac:(intros Hnil; rewrite Hnil in Hin; by apply elem_of_nil in Hin)) as [Hz _].
    destruct Hyoung as [Hz' | (ttl & Httl & Hlt)]; [congruence|]. exists ttl. split; [done|].
    apply time_sub_lt in Hlt; [|pose proof (resume_ttl_small _ _ _ _ Httl); unfold hour, minute, second in *; lia].
    pose proof (Hlist id Hin). lia.
  - rewrite Hp, Hr. split; [done|]. by intros id ?%elem_of_nil.
  - rewrite Hr, Hs. destruct (bool_decide_reflect (lease_resume_providers lease' = [])) as [Hnil | Hne]; cbn [negb andb].
    + split; [lia|]. intros id [Hin | Hin]%Hids; [rewrite Hnil in Hin; by apply elem_of_nil in Hin|].
      pose proof (Hclean id Hin). lia.
    + destruct Hkept as [Hnil | [-> _]]; [done|]. destruct (Hdated Hne) as [Hz Hpast]. rewrite Hz. cbn [negb].
      split; [lia|]. intros id [Hin | Hin]%Hids; [by apply Hlist|]. pose proof (Hclean id Hin). lia.
Qed.
End fresh.

(** ** Concrete jobs *)

Definition sample_policy : WorkerPolicy := mkWorkerPolicy (1 # 2)%Q (1000 * hour).

(** A throttled search of the leased movie, without a reported reset. *)
Definition sample_run : JobRun :=
  mkRun (21 * second) (22 * second) (Ok sample_movie) (fun _ => (empty_result OutcomeThrottled, None, false))
    false None false.
Definition throttled_lease : SearchLease := mkLease SearchQueue.sample_key (t "job-1") 0 0 0 SearchPriorityMissing [] [] zero_time false.

Definition throttled_completion : SearchCompletion :=
  match job_effect sample_policy throttled_lease sample_run with
  | Some (Completes c _) => c
  | _ => zero_completion [] []
  end.

Definition throttled_db : DB :=
  match CompleteSearch no_digest sample_repo 0 throttled_completion sample_leased with
  | Ok (db, _) => db
  | Err _ => sample_db
  end.

Lemma throttled_answer :
  job_answer sample_policy throttled_lease sample_run
  = Some (throttled_lease, sample_movie, empty_result OutcomeThrottled, None).
Proof. reflexivity. Qed.

Lemma throttled_effect :
  job_effect sample_policy throttled_lease sample_run = Some (Completes throttled_completion None).
Proof. vm_compute. reflexivity. Qed.

Lemma throttled_completes :
  CompleteSearch no_digest sample_repo 0 throttled_completion sample_leased
  = Ok (throttled_db, mkCompletionResult false 0).
Proof. vm_compute. reflexivity. Qed.

Lemma sample_leased_row :
  searches sample_leased !! SearchQueue.sample_key = Some (sample_row (searches sample_leased !! SearchQueue.sample_key)).
Proof. vm_compute. reflexivity. Qed.

Lemma finished_job_settles_witness :
  exists row', searches throttled_db !! SearchQueue.sample_key = Some row'
    /\ settles throttled_lease (empty_result OutcomeThrottled) None (22 * second)
         (sample_row (searches sample_leased !! SearchQueue.sample_key)) row'.
Proof.
  destruct (finished_job_settles no_digest sample_repo sample_policy 0 throttled_lease sample_run throttled_completion None
    sample_leased throttled_db (mkCompletionResult false 0) SearchQueue.sample_key
    (sample_row (searches sample_leased !! SearchQueue.sample_key)) sample_media throttled_effect throttled_completes sample_leased_row)
    as (_ & row' & Hrow & _ & _ & _ & Hs & _); [vm_compute; reflexivity..|vm_compute; discriminate|vm_compute; discriminate|vm_compute; discriminate|].
  exists row'. split; [exact Hrow|].
  assert (rerun_requested (sample_row (searches sample_leased !! SearchQueue.sample_key)) = false) as Hr by (vm_compute; reflexivity).
  assert (unsupported_media sample_run = None) as Hu by (vm_compute; reflexivity).
  change (deleted sample_media) with false in Hs. rewrite Hr, Hu in Hs.
  destruct Hs as (lease' & m & r & err & Ha & Hs). rewrite throttled_answer in Ha.
  injection Ha as _ _ <- _. exact Hs.
Defined.

(** A search leased with a list of the preferred provider: the preferred tier
    is searched again, the fallback tier throttled. *)
Definition resumed_lease : SearchLease :=
  mkLease SearchQueue.sample_key (t "job-1") 1 0 0 SearchPriorityMissing [t "os"] (t "digest") (10 * hour) false.
Definition resumed_run : JobRun :=
  mkRun (14 * hour) (15 * hour) (Ok sample_movie)
    (resumed_workflow sample_sha sample_service sample_acquire no_installation false) false None false.

Definition resumed_answer : SearchLease * Media * Result * option WorkflowError :=
  default (resumed_lease, sample_movie, empty_workflow_result, None) (job_answer sample_policy resumed_lease resumed_run).

Definition resumed_completion : SearchCompletion :=
  match job_effect sample_policy resumed_lease resumed_run with
  | Some (Completes c _) => c
  | _ => zero_completion [] []
  end.

Lemma skipped_answers_are_fresh_witness :
  ResumeProviders resumed_completion = [t "os"; t "subdl"]
  /\ ResumeSavedAt resumed_completion = 10 * hour
  /\ forall id, id ∈ ResumeProviders resumed_completion ->
       ResumeSavedAt resumed_completion - hour <= (if bool_decide (id = t "os") then 9 * hour else 14 * hour).
Proof.
  split; [vm_compute; reflexivity|]. split; [vm_compute; reflexivity|].
  refine (proj2 (proj2 (skipped_answers_are_fresh sample_sha sample_policy sample_service sample_acquire
    no_installation false resumed_lease resumed_run resumed_lease sample_movie sample_movie resumed_answer.1.2 None
    resumed_completion None (fun id => if bool_decide (id = t "os") then 9 * hour else 14 * hour) hour
    _ _ _ _ _ _ _ _ _))); try (vm_compute; reflexivity).
  - intros id (sv & q & Hid). unfold sample_acquire in Hid.
    assert (id = t "subdl") as -> by (destruct (bool_decide _); by apply list_elem_of_singleton in Hid).
    vm_compute. discriminate.
  - intros _. vm_compute. split; [reflexivity|discriminate].
  - intros id Hid. apply list_elem_of_singleton in Hid. subst id. vm_compute. discriminate.
  - vm_compute. split; discriminate.
Defined.
