(* ===== verification/MediaBreaker.v ===== *)
(** * Unreadable storage (src/internal/worker/media_breaker.go)

    The breaker that pauses the search queue when several searches in a row
    could not read their media, and the look at a mount that tells one dead file
    from a storage outage. What a directory lists is a parameter of the file
    system's state: it lists an entry, does not exist, or neither (an empty mount
    point, an error, or no answer in time). *)
From S2P Require Import Prelude GoText Domain SearchQueue Schedule Workflow Paths Jobs.

#[local] Open Scope Z_scope.

Definition mediaBreakerThreshold : Z := 3.
Definition mediaBreakerPause : duration := minute.
Definition mediaBreakerMaxPause : duration := 30 * minute.

Record MediaBreaker := mkBreaker {
  mediaFailures : Z;
  mediaPause : duration;
  mediaPausedUntil : instant;
}.

(** ** The mount of a media file *)

Inductive listing := Listed | Absent | Unlisted.

#[export] Instance listing_eq_dec : EqDecision listing.
Proof. solve_decision. Defined.

Section mount.
(** What a directory lists, and what a symbolic link points to, each within its
    timeout. *)
Context (lists : text -> listing) (read_link : text -> option text).

Definition LinkTarget (path : text) : option text :=
  match read_link path with
  | None | Some [] => None
  | Some target => Some (path_clean (if rooted target then target else filepath_join [path_dir path; target]))
  end.

Fixpoint lists_up_to (fuel : nat) (directory root : text) : bool :=
  match fuel with
  | O => false
  | S fuel =>
      match lists directory with
      | Listed => true
      | Unlisted => false
      | Absent =>
          let parent := path_dir directory in
          if bool_decide (directory = root) || bool_decide (parent = directory) then false
          else lists_up_to fuel parent root
      end
  end.

(** Every parent is shorter. *)
Definition listsUpTo (directory root : text) : bool := lists_up_to (length directory) directory root.

Definition topDirectories (directory : text) : text :=
  match split_n slash 3 (trim_prefix (t "/") directory) with
  | [] | [] :: _ => t "/"
  | parts => t "/" ++ filepath_join (take 2 parts)
  end.

Definition under_root (root path : text) : bool :=
  match path_rel root (path_clean path) with
  | Some relative => negb (bool_decide (relative = t "..")) && negb (has_prefix (t "../") relative)
  | None => false
  end.

Definition containingRoot (path : text) (roots : list text) : text :=
  fold_left (fun best root =>
    let root := path_clean root in
    if under_root root path && (byte_len best <? byte_len root) then root else best) roots [].

Definition mediaMountReadable (mediaPath : text) (roots : list text) : bool :=
  if bool_decide (roots = []) || bool_decide (mediaPath = []) then false
  else
    let root := containingRoot mediaPath roots in
    if bool_decide (root = []) then false
    else match LinkTarget mediaPath with
         | None => listsUpTo (path_dir (path_clean mediaPath)) root
         | Some target =>
             let directory := path_dir target in
             let top := topDirectories directory in
             let configured := containingRoot target roots in
             listsUpTo directory (if byte_len top <? byte_len configured then configured else top)
         end.

(** ** The breaker *)

Definition record_unreadable (now : instant) (b : MediaBreaker) : MediaBreaker :=
  let failures := mediaFailures b + 1 in
  if failures <? mediaBreakerThreshold then mkBreaker failures (mediaPause b) (mediaPausedUntil b)
  else
    let pause := Z.min (Z.max (2 * mediaPause b) mediaBreakerPause) mediaBreakerMaxPause in
    mkBreaker 0 pause (now + pause).

Definition record_read (b : MediaBreaker) : MediaBreaker := mkBreaker 0 0 (mediaPausedUntil b).

Definition recordSearchResult (now : instant) (roots : list text) (err : option WorkflowError) (mediaPath : text)
    (b : MediaBreaker) : MediaBreaker :=
  match err with
  | Some e =>
      if MediaUnavailable e then
        if MediaMissing e && mediaMountReadable mediaPath roots then b else record_unreadable now b
      else record_read b
  | None => record_read b
  end.

Definition mediaPaused (now : instant) (b : MediaBreaker) : bool := now <? mediaPausedUntil b.
Definition Snapshot (now : instant) (b : MediaBreaker) : instant :=
  if now <? mediaPausedUntil b then mediaPausedUntil b else zero_time.
End mount.

(** ** Walking up *)

Lemma of_elements_inj a b : Forall plain a -> Forall plain b -> of_elements a = of_elements b -> a = b.
Proof.
  intros Ha Hb E%(app_inv_head (t "/")).
  assert (forall c, Forall plain c -> c <> [] -> join (t "/") c <> []) as Hne.
  { intros [|e c] Hc Hn; [done|]. apply Forall_cons in Hc as [(_ & He & _) _]. destruct c as [|e' c]; [done|].
    change (join (t "/") (e :: e' :: c)) with (e ++ t "/" ++ join (t "/") (e' :: c)). by destruct e. }
  destruct (decide (a = [])) as [->|Hna], (decide (b = [])) as [->|Hnb].
  - done.
  - symmetry in E. by apply Hne in E.
  - by apply Hne in E.
  - rewrite <- (split_join a), <- (split_join b) by (done || by apply plain_no_slash). by rewrite E.
Qed.

Lemma path_dir_snoc es e : Forall plain es -> plain e -> path_dir (of_elements (es ++ [e])) = of_elements es.
Proof.
  intros Hes He. rewrite <- join_of_elements by done. apply path_dir_join; [by exists es|apply He].
Qed.

Lemma of_elements_length es : Forall plain es -> (length es < length (of_elements es))%nat.
Proof.
  intros Hes. unfold of_elements. rewrite length_app. change (length (t "/")) with 1%nat.
  assert (length es <= length (join (t "/") es))%nat; [|lia].
  induction Hes as [|e es (_ & He & _) Hes IH]; [done|].
  destruct es as [|e' es]; [destruct e; [done|]; simpl; lia|].
  change (join (t "/") (e :: e' :: es)) with (e ++ t "/" ++ join (t "/") (e' :: es)).
  rewrite !length_app. change (length (t "/")) with 1%nat. cbn [length] in *. destruct e; [done|]. cbn [length]. lia.
Qed.

(** The directories from [es] up to the root, the deepest first. *)
Lemma lists_up_to_spec lists fuel es rs :
  Forall plain es -> rs `prefix_of` es -> (length es - length rs < fuel)%nat ->
  lists_up_to lists fuel (of_elements es) (of_elements rs) = true
  <-> exists n, (length rs <= n <= length es)%nat /\ lists (of_elements (take n es)) = Listed
        /\ forall m, (n < m <= length es)%nat -> lists (of_elements (take m es)) = Absent.
Proof.
  revert es. induction fuel as [|fuel IH]; intros es Hes Hrs Hf; [lia|]. cbn [lists_up_to].
  pose proof (prefix_length _ _ Hrs) as Hlen.
  destruct (lists (of_elements es)) eqn:El.
  - split; [intros _|done]. exists (length es). rewrite firstn_all. split_and!; [lia|done..|]. intros m. lia.
  - destruct (decide (es = rs)) as [->|Hne].
    { rewrite bool_decide_true by done. split; [done|]. intros (n & Hn & Hl & _).
      assert (n = length rs) as -> by lia. rewrite firstn_all in Hl. congruence. }
    assert (Forall plain rs) as Hprs by (destruct Hrs as [k ->]; by apply Forall_app in Hes as [? _]).
    destruct Hrs as [k Ek]. destruct (decide (k = [])) as [->|Hk]; [by rewrite app_nil_r in Ek|].
    destruct (exists_last Hk) as (k' & e & ->). rewrite app_assoc in Ek. subst es. clear Hk.
    pose proof Hes as Hes0. apply Forall_app in Hes as [Hes He]. apply Forall_cons in He as [He _].
    rewrite path_dir_snoc by done.
    rewrite (bool_decide_false (of_elements _ = of_elements rs)) by (intros E%of_elements_inj; done).
    rewrite bool_decide_false.
    2: { intros E%of_elements_inj; [|done..]. apply (f_equal (@length text)) in E. rewrite !length_app in E. cbn [length] in E. lia. }
    cbn [orb].
    assert (length ((rs ++ k') ++ [e]) = length (rs ++ k') + 1)%nat as Hsnoc by by rewrite length_app.
    assert (length rs <= length (rs ++ k'))%nat as Hle by (rewrite length_app; lia).
    rewrite Hsnoc in *. rewrite IH; [|done|by eexists|lia].
    split; intros (n & Hn & Hl & Ha).
    + exists n. rewrite take_app_le by lia. split_and!; [lia|lia|done|]. intros m Hm.
      destruct (decide (m = length (rs ++ k') + 1)%nat) as [->|].
      * rewrite take_ge; [done|lia].
      * rewrite take_app_le by lia. apply Ha. lia.
    + destruct (decide (n = length (rs ++ k') + 1)%nat) as [->|].
      * rewrite take_ge in Hl by lia. congruence.
      * exists n. rewrite take_app_le in Hl by lia. split_and!; [lia|lia|done|]. intros m Hm.
        specialize (Ha m ltac:(lia)). by rewrite take_app_le in Ha by lia.
  - split; [done|]. intros (n & Hn & Hl & Ha). destruct (decide (n = length es)) as [->|].
    + rewrite firstn_all in Hl. congruence.
    + specialize (Ha (length es) ltac:(lia)). rewrite firstn_all in Ha. congruence.
Qed.

(** A mount counts as readable exactly when the nearest existing directory
    between the media file's and the mount's root lists an entry. *)
Theorem mount_walk_meaning lists es rs :
  Forall plain es -> rs `prefix_of` es ->
  listsUpTo lists (of_elements es) (of_elements rs) = true
  <-> exists n, (length rs <= n <= length es)%nat /\ lists (of_elements (take n es)) = Listed
        /\ forall m, (n < m <= length es)%nat -> lists (of_elements (take m es)) = Absent.
Proof.
  intros Hes Hrs. apply lists_up_to_spec; [done..|]. pose proof (of_elements_length es Hes). lia.
Qed.

(** ** When the queue pauses *)

(** One search's result as the breaker sees it. *)
Inductive seen := Unreadable | DeadFile | Read.

Section breaker.
Context (lists : text -> listing) (read_link : text -> option text) (roots : list text).

Definition see (err : option WorkflowError) (mediaPath : text) : seen :=
  match err with
  | Some e => if MediaUnavailable e
              then if MediaMissing e && mediaMountReadable lists read_link mediaPath roots then DeadFile else Unreadable
              else Read
  | None => Read
  end.

(** The results of searches, in the order they finish: when, the error and the
    media path. *)
Abbreviation finished := (instant * option WorkflowError * text)%type.

Definition record_finished (b : MediaBreaker) (f : finished) : MediaBreaker :=
  recordSearchResult lists read_link f.1.1 roots f.1.2 f.2 b.
Definition seen_in (f : finished) : seen := see f.1.2 f.2.
Definition unreadable (f : finished) : bool := match seen_in f with Unreadable => true | _ => false end.

Lemma record_seen b f :
  record_finished b f = match seen_in f with
                        | Unreadable => record_unreadable f.1.1 b
                        | DeadFile => b
                        | Read => record_read b
                        end.
Proof.
  unfold record_finished, recordSearchResult, seen_in, see. destruct f.1.2 as [e|]; [|done].
  destruct (MediaUnavailable e); [|done]. by destruct (_ && _).
Qed.

(** The pause after [n] unreadable searches in a row. *)
Definition pause_after (n : Z) : duration :=
  if n <? mediaBreakerThreshold then 0 else Z.min (minute * 2 ^ (n / 3 - 1)) mediaBreakerMaxPause.

Definition failures_in (l : list finished) : Z := Z.of_nat (length (filter (fun f => unreadable f = true) l)).

Lemma failures_snoc l f : failures_in (l ++ [f]) = failures_in l + (if unreadable f then 1 else 0).
Proof.
  unfold failures_in. rewrite filter_app, length_app, filter_cons, filter_nil.
  destruct (unreadable f); [rewrite decide_True by done|rewrite decide_False by done]; cbn [length]; lia.
Qed.

Lemma pause_doubles n : 0 <= n -> (n + 1) mod 3 = 0 ->
  Z.min (Z.max (2 * pause_after n) mediaBreakerPause) mediaBreakerMaxPause = pause_after (n + 1)
  /\ 3 <= n + 1.
Proof.
  intros Hn Hm. assert (exists k, n = 3 * k + 2 /\ 0 <= k) as (k & -> & Hk).
  { exists ((n + 1) / 3 - 1). pose proof (Z.div_mod (n + 1) 3 ltac:(lia)). lia. }
  unfold pause_after, mediaBreakerThreshold, mediaBreakerPause.
  rewrite (proj2 (Z.ltb_ge (3 * k + 2 + 1) 3)) by lia.
  assert ((3 * k + 2 + 1) / 3 = k + 1) as -> by (symmetry; apply (Z.div_unique _ 3 _ 0); lia).
  replace (k + 1 - 1) with k by lia.
  destruct (Z.ltb_spec (3 * k + 2) 3).
  - assert (k = 0) as -> by lia. by vm_compute.
  - assert ((3 * k + 2) / 3 = k) as -> by (symmetry; apply (Z.div_unique _ 3 _ 2); lia).
    replace (2 ^ k) with (2 * 2 ^ (k - 1)) by (rewrite <- Z.pow_succ_r by lia; f_equal; lia).
    assert (0 < 2 ^ (k - 1)) by (apply Z.pow_pos_nonneg; lia).
    unfold mediaBreakerMaxPause, minute, second. lia.
Qed.

(** The queue pauses at exactly each third search in a row that could not
    read its media, dead files left out and searches that read it starting the
    count again; the pauses double from one minute to at most thirty. *)
Theorem breaker_pauses_each_third (l : list finished) until :
  Forall (fun f => seen_in f <> Read) l ->
  let b := fold_left record_finished l (mkBreaker 0 0 until) in
  mediaFailures b = failures_in l mod 3
  /\ mediaPause b = pause_after (failures_in l)
  /\ (failures_in l < 3 -> mediaPausedUntil b = until)
  /\ forall l' f, l = l' ++ [f] -> seen_in f = Unreadable -> failures_in l mod 3 = 0 ->
       mediaPausedUntil b = f.1.1 + pause_after (failures_in l).
Proof.
  induction l as [|f l IH] using rev_ind; intros Hl; cbn zeta.
  { split_and!; [done|done|done|]. by intros [|] ?. }
  apply Forall_app in Hl as [Hl Hf]. apply Forall_cons in Hf as [Hf _]. specialize (IH Hl). cbn zeta in IH.
  destruct IH as (Hn & Hp & Hu & _). rewrite fold_left_app. cbn [fold_left].
  set (b := fold_left record_finished l (mkBreaker 0 0 until)) in *.
  rewrite failures_snoc, record_seen. unfold unreadable. assert (0 <= failures_in l) as H0 by (unfold failures_in; lia).
  destruct (seen_in f) eqn:Es; [|rewrite Z.add_0_r; split_and!; [done..|]|done].
  2: { intros l' f' [_ [= <-]]%app_inj_2 Hs; [congruence|done]. }
  unfold record_unreadable. rewrite Hn, Hp.
  pose proof (Z.mod_pos_bound (failures_in l) 3 ltac:(lia)) as Hb.
  pose proof (Z.add_mod (failures_in l) 1 3 ltac:(lia)) as Ha. change (1 mod 3) with 1 in Ha.
  destruct (Z.ltb_spec (failures_in l mod 3 + 1) mediaBreakerThreshold) as [Hlt|Hge]; unfold mediaBreakerThreshold in *;
    cbn [mediaFailures mediaPause mediaPausedUntil].
  - rewrite (Z.mod_small (failures_in l mod 3 + 1)) in Ha by lia. split_and!; [done| |intros; apply Hu; lia|intros; lia].
    unfold pause_after, mediaBreakerThreshold.
    assert ((failures_in l + 1) / 3 = failures_in l / 3) as ->.
    { symmetry. apply (Z.div_unique _ 3 _ (failures_in l mod 3 + 1)); [lia|].
      pose proof (Z.div_mod (failures_in l) 3 ltac:(lia)). lia. }
    pose proof (Z.div_mod (failures_in l) 3 ltac:(lia)).
    destruct (Z.ltb_spec (failures_in l) 3), (Z.ltb_spec (failures_in l + 1) 3); [done| |lia|done].
    exfalso. assert (failures_in l = 2) as E by lia. rewrite E in Hlt. by vm_compute in Hlt.
  - assert (failures_in l mod 3 = 2) as E by lia. rewrite E in Ha. change ((2 + 1) mod 3) with 0 in Ha.
    destruct (pause_doubles (failures_in l) H0 Ha) as [-> Hn3].
    split_and!; [done|done|lia|]. intros l' f' [_ [= <-]]%app_inj_2 _ _; done.
Qed.
End breaker.

Definition sample_lists (p : text) : listing :=
  if bool_decide (p = t "/media/tv") then Listed else if bool_decide (p = t "/media/tv/Show") then Absent else Unlisted.
Definition sample_failure (at_ : instant) : instant * option WorkflowError * text :=
  (at_, Some (MediaUnavailableE false), t "/media/tv/Show/e1.mkv").
Definition sample_dead (at_ : instant) : instant * option WorkflowError * text :=
  (at_, Some (MediaUnavailableE true), t "/media/tv/Show/e1.mkv").
Definition sample_results : list (instant * option WorkflowError * text) :=
  [sample_failure 1; sample_dead 2; sample_failure 3; sample_failure 4].

Lemma breaker_pauses_each_third_witness :
  mediaPausedUntil (fold_left (record_finished sample_lists (fun _ => None) [t "/media"]) sample_results (mkBreaker 0 0 0))
  = 4 + minute.
Proof.
  destruct (breaker_pauses_each_third sample_lists (fun _ => None) [t "/media"] sample_results 0) as (_ & _ & _ & H).
  - repeat constructor; by vm_compute.
  - apply (H [sample_failure 1; sample_dead 2; sample_failure 3] (sample_failure 4)); [reflexivity|by vm_compute..].
Defined.

Lemma mount_walk_meaning_witness :
  listsUpTo sample_lists (of_elements [t "media"; t "tv"; t "Show"]) (of_elements [t "media"]) = true.
Proof.
  apply (mount_walk_meaning sample_lists [t "media"; t "tv"; t "Show"] [t "media"]).
  - repeat constructor; by vm_compute.
  - by exists [t "tv"; t "Show"].
  - exists 2%nat. split; [simpl; lia|]. split; [by vm_compute|]. intros m Hm. simpl in Hm.
    assert (m = 3)%nat as -> by lia. by vm_compute.
Defined.
