(* ===== verification/Daemon.v ===== *)
(** * The worker daemon (src/internal/worker/worker.go)

    Run, the loop of the daemon: it dispatches due searches into at most
    MaxWorkflows running jobs, keeps one maintenance pass going on every tick,
    and drains both at shutdown within two timeouts. The loop is a step
    relation: its own steps are the branches of its [select], interleaved with
    jobs that end, transactions of the queue and the cancellation of its
    context. Dispatching leases through the transactions of SearchQueue.v,
    behind the media breaker and the paused routes. The file also holds the
    settings ([prepare]) and the pacing of catalog reconciliations. *)
From S2P Require Import Prelude GoText GoFloat Domain MatchScore SearchQueue Schedule Workflow Coordinator ProviderTiers RouteGate Paths Jobs MediaBreaker.

#[local] Open Scope Z_scope.

(** ** Settings *)

Definition defaultPollInterval : duration := 30 * second.
Definition defaultLeaseDuration : duration := 5 * minute.
Definition defaultRenewInterval : duration := minute.
Definition defaultShutdownTimeout : duration := 30 * second.
Definition defaultReconcileInterval : duration := 6 * hour.
Definition defaultSearchBatch : Z := 10.
Definition defaultMaxWorkflows : Z := 1.
Definition maximumWorkflows : Z := 8.
Definition defaultNotificationBatch : Z := 10.

Record WorkerConfig := mkWorkerConfig {
  PollInterval : duration;
  LeaseDuration : duration;
  RenewInterval : duration;
  ShutdownTimeout : duration;
  ReconcileInterval : duration;
  SearchBatch : Z;
  MaxWorkflows : Z;
  NotificationBatch : Z;
}.

Definition or_default (x d : Z) : Z := if x <=? 0 then d else x.
Definition at_most (x limit : Z) : Z := if limit <? x then limit else x.

(** [None] when the renewal would come too late for the lease. *)
Definition prepare (w : WorkerConfig) : option WorkerConfig :=
  let lease := or_default (LeaseDuration w) defaultLeaseDuration in
  let renew := or_default (RenewInterval w) defaultRenewInterval in
  if lease <=? renew then None
  else Some {|
    PollInterval := or_default (PollInterval w) defaultPollInterval;
    LeaseDuration := lease;
    RenewInterval := renew;
    ShutdownTimeout := or_default (ShutdownTimeout w) defaultShutdownTimeout;
    ReconcileInterval := or_default (ReconcileInterval w) defaultReconcileInterval;
    SearchBatch := at_most (or_default (SearchBatch w) defaultSearchBatch) defaultSearchBatch;
    MaxWorkflows := at_most (or_default (MaxWorkflows w) defaultMaxWorkflows) maximumWorkflows;
    NotificationBatch := at_most (or_default (NotificationBatch w) defaultNotificationBatch) defaultNotificationBatch;
  |}.

(** The next poll, jittered by a tenth either way. *)
Definition pollDelay (w : WorkerConfig) (unit : float64) : duration :=
  trunc (fmul (of_int (PollInterval w)) (fadd (round (9 # 10)) (fmul (round (1 # 5)) (unit_interval unit)))).

Record settings_ok (w : WorkerConfig) : Prop := {
  ok_poll : 0 < PollInterval w;
  ok_renew : 0 < RenewInterval w < LeaseDuration w;
  ok_shutdown : 0 < ShutdownTimeout w;
  ok_reconcile : 0 < ReconcileInterval w;
  ok_search : 1 <= SearchBatch w <= 10;
  ok_workflows : 1 <= MaxWorkflows w <= 8;
  ok_notifications : 1 <= NotificationBatch w <= 10;
}.

Lemma or_default_pos x d : 0 < d -> 0 < or_default x d.
Proof. intros Hd. unfold or_default. destruct (Z.leb_spec x 0); lia. Qed.

Lemma or_default_id x d : 0 < x -> or_default x d = x.
Proof. intros Hx. unfold or_default. destruct (Z.leb_spec x 0); lia. Qed.

Lemma at_most_bounds x n : 0 < x -> 0 < n -> 1 <= at_most x n <= n.
Proof. intros Hx Hn. unfold at_most. destruct (Z.ltb_spec n x); lia. Qed.

Lemma bounded_id x d n : 0 < d -> 0 < n ->
  at_most (or_default (at_most (or_default x d) n) d) n = at_most (or_default x d) n.
Proof.
  intros Hd Hn. pose proof (at_most_bounds (or_default x d) n (or_default_pos x d Hd) Hn).
  rewrite or_default_id by lia. unfold at_most at 1. destruct (Z.ltb_spec n (at_most (or_default x d) n)); lia.
Qed.

(** Whatever the configuration, a worker that starts has usable settings, and
    preparing them again changes nothing. *)
Lemma prepared_settings w w' : prepare w = Some w' -> settings_ok w' /\ prepare w' = Some w'.
Proof.
  unfold prepare. destruct (_ <=? _) eqn:E; [done|]. pose proof E as Hlt. apply Z.leb_gt in Hlt. intros [= <-].
  pose proof (or_default_pos (RenewInterval w) defaultRenewInterval eq_refl).
  split.
  - split; cbn; try (by apply or_default_pos); try lia; by apply at_most_bounds; [apply or_default_pos|].
  - cbn. rewrite !(or_default_id (or_default _ _)) by by apply or_default_pos. rewrite E. by rewrite !bounded_id.
Qed.

(** ** The loop *)

Section daemon.
Context `{Unicode} (sha : list N -> text) (repo : Repository) (cfg : WorkerConfig).

(** Where the loop is: selecting, draining with the graceful or the hard timer,
    or returned. *)
Inductive phase := Selecting | Graceful | Hard | Returned.

#[export] Instance phase_eq_dec : EqDecision phase.
Proof. solve_decision. Defined.

Record daemon := mkDaemon {
  dm_phase : phase;
  dm_canceled : bool;               (** the context of Run is done *)
  dm_stopped : bool;                (** the jobs' context was canceled *)
  dm_active : Z;                    (** activeSearches *)
  dm_maintaining : bool;            (** maintenanceActive *)
  dm_jobs : list SearchLease;       (** running jobs *)
  dm_results : Z;                   (** results waiting in searchesDone *)
  dm_passes : Z;                    (** running maintenance passes *)
  dm_finished : Z;                  (** results waiting in maintenanceDone *)
  dm_breaker : MediaBreaker;
  dm_db : DB;
}.

Definition with_jobs (db : DB) (leases : list SearchLease) (canceled : bool) (d : daemon) : daemon :=
  mkDaemon (dm_phase d) canceled (dm_stopped d) (dm_active d + Z.of_nat (length leases)) (dm_maintaining d)
    (dm_jobs d ++ leases) (dm_results d) (dm_passes d) (dm_finished d) (dm_breaker d) db.

(** What a dispatch meets: the clock, the gate's answer, random job ids, and how
    many jobs it starts before the context ends. *)
Record dispatch_world := mkDispatch {
  at_now : instant;
  gate : option (list RouteKey);
  job_ids : list text;
  ends_after : option nat;
}.

Definition dispatch (x : dispatch_world) (d : daemon) : daemon :=
  if dm_canceled d then d
  else
    let available := MaxWorkflows cfg - dm_active d in
    if (available <=? 0) || mediaPaused (at_now x) (dm_breaker d) then d
    else match gate x with
         | None => d
         | Some paused =>
             match LeaseDueSearchesExcept sha repo (at_now x) available (LeaseDuration cfg) paused (job_ids x) (dm_db d) with
             | Err _ => d
             | Ok (db, leases) =>
                 match ends_after x with
                 | Some n => with_jobs db (take n leases) true d
                 | None => with_jobs db leases false d
                 end
             end
         end.

Definition startMaintenance (d : daemon) : daemon :=
  if dm_canceled d || dm_maintaining d then d
  else mkDaemon (dm_phase d) (dm_canceled d) (dm_stopped d) (dm_active d) true (dm_jobs d) (dm_results d)
         (dm_passes d + 1) (dm_finished d) (dm_breaker d) (dm_db d).

Definition receive_search (d : daemon) : daemon :=
  mkDaemon (dm_phase d) (dm_canceled d) (dm_stopped d) (dm_active d - 1) (dm_maintaining d) (dm_jobs d)
    (dm_results d - 1) (dm_passes d) (dm_finished d) (dm_breaker d) (dm_db d).
Definition receive_maintenance (d : daemon) : daemon :=
  mkDaemon (dm_phase d) (dm_canceled d) (dm_stopped d) (dm_active d) false (dm_jobs d) (dm_results d)
    (dm_passes d) (dm_finished d - 1) (dm_breaker d) (dm_db d).
Definition in_phase (p : phase) (d : daemon) : daemon :=
  mkDaemon p (dm_canceled d) (dm_stopped d) (dm_active d) (dm_maintaining d) (dm_jobs d) (dm_results d)
    (dm_passes d) (dm_finished d) (dm_breaker d) (dm_db d).
(** The graceful timer: the jobs are canceled and the hard timer starts. *)
Definition stop_jobs (d : daemon) : daemon :=
  mkDaemon Hard (dm_canceled d) true (dm_active d) (dm_maintaining d) (dm_jobs d) (dm_results d)
    (dm_passes d) (dm_finished d) (dm_breaker d) (dm_db d).

Definition idle (d : daemon) : bool := (dm_active d <=? 0) && negb (dm_maintaining d).

(** Before the loop: the first dispatch and the first maintenance. *)
Definition start (x : dispatch_world) (b : MediaBreaker) (db : DB) : daemon :=
  startMaintenance (dispatch x (mkDaemon Selecting false false 0 false [] 0 0 0 b db)).

(** The loop's own steps: the branches of its [select]s. *)
Inductive loop_step (d : daemon) : daemon -> Prop :=
| on_search x : dm_phase d = Selecting -> 0 < dm_results d -> loop_step d (dispatch x (receive_search d))
| on_maintenance : dm_phase d = Selecting -> 0 < dm_finished d -> loop_step d (receive_maintenance d)
| on_wake x : dm_phase d = Selecting -> loop_step d (dispatch x d)
| on_tick x : dm_phase d = Selecting -> loop_step d (startMaintenance (dispatch x d))
| on_done : dm_phase d = Selecting -> dm_canceled d = true -> loop_step d (in_phase Graceful d)
| drained : dm_phase d = Graceful \/ dm_phase d = Hard -> idle d = true -> loop_step d (in_phase Returned d)
| drain_search : dm_phase d = Graceful \/ dm_phase d = Hard -> idle d = false -> 0 < dm_results d ->
    loop_step d (receive_search d)
| drain_maintenance : dm_phase d = Graceful \/ dm_phase d = Hard -> idle d = false -> 0 < dm_finished d ->
    loop_step d (receive_maintenance d)
| drain_timeout : dm_phase d = Graceful -> idle d = false -> loop_step d (stop_jobs d)
| drain_abandoned : dm_phase d = Hard -> idle d = false -> loop_step d (in_phase Returned d).

(** Everything else: jobs and maintenance passes end, searches feed the
    breaker, other transactions change the queue, the context is canceled. *)
Inductive outside_step (d : daemon) : daemon -> Prop :=
| job_ends l1 job l2 b : dm_jobs d = l1 ++ job :: l2 ->
    outside_step d (mkDaemon (dm_phase d) (dm_canceled d) (dm_stopped d) (dm_active d) (dm_maintaining d) (l1 ++ l2)
                      (dm_results d + 1) (dm_passes d) (dm_finished d) b (dm_db d))
| pass_ends : 0 < dm_passes d ->
    outside_step d (mkDaemon (dm_phase d) (dm_canceled d) (dm_stopped d) (dm_active d) (dm_maintaining d) (dm_jobs d)
                      (dm_results d) (dm_passes d - 1) (dm_finished d + 1) (dm_breaker d) (dm_db d))
| queue_changes db : queue_step sha (dm_db d) db ->
    outside_step d (mkDaemon (dm_phase d) (dm_canceled d) (dm_stopped d) (dm_active d) (dm_maintaining d) (dm_jobs d)
                      (dm_results d) (dm_passes d) (dm_finished d) (dm_breaker d) db)
| breaker_changes b :
    outside_step d (mkDaemon (dm_phase d) (dm_canceled d) (dm_stopped d) (dm_active d) (dm_maintaining d) (dm_jobs d)
                      (dm_results d) (dm_passes d) (dm_finished d) b (dm_db d))
| canceled :
    outside_step d (mkDaemon (dm_phase d) true (dm_stopped d) (dm_active d) (dm_maintaining d) (dm_jobs d)
                      (dm_results d) (dm_passes d) (dm_finished d) (dm_breaker d) (dm_db d)).

Definition daemon_step (d d' : daemon) : Prop := loop_step d d' \/ outside_step d d'.

Inductive daemon_reachable : daemon -> Prop :=
| reach_start x b db : daemon_reachable (start x b db)
| reach_step d d' : daemon_reachable d -> daemon_step d d' -> daemon_reachable d'.

(** ** What every state of the daemon keeps *)

Record daemon_inv (d : daemon) : Prop := {
  inv_active : dm_active d = Z.of_nat (length (dm_jobs d)) + dm_results d;
  inv_results : 0 <= dm_results d;
  inv_limit : dm_active d <= MaxWorkflows cfg;
  inv_passes : 0 <= dm_passes d /\ 0 <= dm_finished d
               /\ dm_passes d + dm_finished d = if dm_maintaining d then 1 else 0;
}.

(** What a dispatch does: nothing, or it starts jobs for searches that are due
    on a route that is not paused, while the storage answers. *)
Lemma dispatch_spec x d :
  dispatch x d = d
  \/ exists paused db started canceled,
       dispatch x d = with_jobs db started canceled d
       /\ dm_canceled d = false /\ mediaPaused (at_now x) (dm_breaker d) = false /\ gate x = Some paused
       /\ dm_active d + Z.of_nat (length started) <= MaxWorkflows cfg
       /\ NoDup (lease_key <$> started)
       /\ forall l, l ∈ started -> exists r, searches (dm_db d) !! lease_key l = Some r
            /\ due repo (at_now x) paused (dm_db d) (lease_key l, r) = true.
Proof.
  unfold dispatch. destruct (dm_canceled d) eqn:Ec; [by left|].
  destruct (MaxWorkflows cfg - dm_active d <=? 0) eqn:Ea; [by left|]. cbn [orb].
  destruct (mediaPaused (at_now x) (dm_breaker d)) eqn:Em; [by left|]. destruct (gate x) as [paused|] eqn:Eg; [|by left].
  destruct (LeaseDueSearchesExcept _ _ _ _ _ _ _ _) as [[db leases]|e] eqn:El; [|by left].
  apply lease_effect in El as (Hlim & Hlen & _ & _ & Hnd & rows & Hkeys & _ & Hrows).
  assert (forall l, l ∈ leases -> exists r, searches (dm_db d) !! lease_key l = Some r
            /\ due repo (at_now x) paused (dm_db d) (lease_key l, r) = true) as Hdue.
  { intros l Hl. apply (list_elem_of_fmap_2 lease_key) in Hl. rewrite Hkeys in Hl.
    apply list_elem_of_fmap in Hl as ([k r] & -> & Hin). exists r. by apply Hrows. }
  right. destruct (ends_after x) as [n|].
  - exists paused, db, (take n leases), true. split_and!; [done..| |by rewrite fmap_take; eapply sublist_NoDup; [|apply sublist_take]|].
    + rewrite length_take. lia.
    + intros l (k & Hk & _)%elem_of_take. by apply Hdue, (list_elem_of_lookup_2 _ k).
  - exists paused, db, leases, false. split_and!; [done..|lia|done|done].
Qed.

Lemma dispatch_inv x d : daemon_inv d -> daemon_inv (dispatch x d).
Proof.
  intros Hi. destruct (dispatch_spec x d) as [->|(paused & db & started & c & -> & _ & _ & _ & Hl & _)]; [done|].
  destruct Hi as [H1 H2 H3 H4]. split; cbn; [rewrite length_app; lia|done|lia|done].
Qed.

Lemma maintenance_inv d : daemon_inv d -> daemon_inv (startMaintenance d).
Proof.
  intros Hi. unfold startMaintenance. destruct (dm_canceled d || dm_maintaining d) eqn:E; [done|].
  apply orb_false_iff in E as [_ E]. destruct Hi as [H1 H2 H3 H4]. rewrite E in H4. split; cbn; try done. lia.
Qed.

Lemma receive_inv d : 0 < dm_results d -> daemon_inv d -> daemon_inv (receive_search d).
Proof. intros Hr [H1 H2 H3 H4]. split; cbn; [lia|lia|lia|done]. Qed.

Lemma receive_maintenance_inv d : 0 < dm_finished d -> daemon_inv d -> daemon_inv (receive_maintenance d).
Proof. intros Hr [H1 H2 H3 H4]. split; cbn; [done|done|done|]. destruct (dm_maintaining d); lia. Qed.

Lemma phase_inv p d : daemon_inv d -> daemon_inv (in_phase p d).
Proof. by intros []. Qed.

Lemma daemon_step_inv d d' : daemon_inv d -> daemon_step d d' -> daemon_inv d'.
Proof.
  intros Hi [Hs|Hs]; destruct Hs;
    auto using dispatch_inv, maintenance_inv, receive_inv, receive_maintenance_inv, phase_inv.
  - by destruct Hi.
  - destruct Hi as [H1 H2 H3 H4]. split; cbn; [|lia|done|done].
    rewrite H1, H0, !length_app. cbn [length]. lia.
  - destruct Hi as [H1 H2 H3 H4]. split; cbn; [done..|lia].
  - by destruct Hi.
  - by destruct Hi.
  - by destruct Hi.
Qed.

Lemma start_inv x b db : 0 <= MaxWorkflows cfg -> daemon_inv (start x b db).
Proof. intros Hw. apply maintenance_inv, dispatch_inv. by split. Qed.

(** The loop leaves its selection only when its context is done. *)
Definition ending (d : daemon) : Prop := dm_phase d <> Selecting -> dm_canceled d = true.

Lemma canceled_dispatch x d : dm_canceled d = true -> dispatch x d = d.
Proof. intros H'. unfold dispatch. by rewrite H'. Qed.

Lemma dispatch_keeps x d : dm_phase (dispatch x d) = dm_phase d /\ (dm_canceled d = true -> dm_canceled (dispatch x d) = true).
Proof. split; [|intros H'; by rewrite canceled_dispatch]. by destruct (dispatch_spec x d) as [->|(? & ? & ? & ? & -> & _)]. Qed.

Lemma maintenance_keeps d : dm_phase (startMaintenance d) = dm_phase d /\ dm_canceled (startMaintenance d) = dm_canceled d.
Proof. unfold startMaintenance. by destruct (_ || _). Qed.

Lemma daemon_step_ending d d' : ending d -> daemon_step d d' -> ending d'.
Proof.
  unfold ending. intros He [Hs|Hs]; [destruct Hs as [x Hp|Hp|x Hp|x Hp|Hp Hc|Hp|Hp|Hp|Hp|Hp]|by destruct Hs]; cbn; try done; intros Hne.
  - by rewrite (proj1 (dispatch_keeps _ _)) in Hne.
  - by rewrite (proj1 (dispatch_keeps _ _)) in Hne.
  - by rewrite (proj1 (maintenance_keeps _)), (proj1 (dispatch_keeps _ _)) in Hne.
  - apply He. destruct Hp as [-> | ->]; done.
  - apply He. by rewrite Hp.
  - apply He. by rewrite Hp.
Qed.

Lemma start_ending x b db : ending (start x b db).
Proof. unfold ending, start. by rewrite (proj1 (maintenance_keeps _)), (proj1 (dispatch_keeps _ _)). Qed.

(** What runs after the context is done ran before. *)
Definition winds_down (d d' : daemon) : Prop :=
  dm_canceled d' = true /\ dm_jobs d' `sublist_of` dm_jobs d /\ dm_passes d' <= dm_passes d.

Lemma canceled_step d d' : dm_canceled d = true -> daemon_step d d' -> winds_down d d'.
Proof.
  unfold winds_down. intros Hc [Hs|Hs]; destruct Hs; cbn; rewrite ?canceled_dispatch by done; cbn; try (by split_and!; [done| |lia]).
  - unfold startMaintenance. rewrite Hc. by split_and!.
  - split_and!; [done| |lia]. rewrite H0. apply sublist_app; [done|]. by apply sublist_cons.
Qed.

Lemma canceled_steps d d' : dm_canceled d = true -> rtc daemon_step d d' -> winds_down d d'.
Proof.
  intros Hc Hs. revert Hc. induction Hs as [d|d d1 d' Hs _ IH]; intros Hc; [by split_and!|].
  destruct (canceled_step _ _ Hc Hs) as (Hc1 & Hj1 & Hp1). destruct (IH Hc1) as (? & Hj & Hp).
  split_and!; [done|by etrans|lia].
Qed.

(** C32. At most MaxWorkflows searches run at once, however dispatches, job ends,
    cancellation and changes of the queue interleave; at most one maintenance
    pass runs; neither a finished job nor a finished pass ever waits to report,
    since the result channels have room; and once the context of Run is done,
    which it is when the loop drains or has returned, no search and no
    maintenance pass starts any more, whatever follows. *)
Theorem daemon_bounded d :
  settings_ok cfg -> daemon_reachable d ->
  Z.of_nat (length (dm_jobs d)) + dm_results d <= MaxWorkflows cfg <= 8
  /\ dm_passes d + dm_finished d <= 1
  /\ (dm_jobs d <> [] -> dm_results d < MaxWorkflows cfg)
  /\ (0 < dm_passes d -> dm_finished d = 0)
  /\ (dm_phase d <> Selecting -> dm_canceled d = true)
  /\ (dm_canceled d = true -> forall d', rtc daemon_step d d' ->
        dm_canceled d' = true /\ dm_jobs d' `sublist_of` dm_jobs d /\ dm_passes d' <= dm_passes d).
Proof.
  intros Hok Hr. pose proof (ok_workflows _ Hok) as Hw.
  assert (daemon_inv d /\ ending d) as [[H1 H2 H3 (H4 & H5 & H6)] He].
  { induction Hr as [x b db|d d' _ [IH1 IH2] Hstep]; [split; [apply start_inv; lia|apply start_ending]|].
    split; [by eapply daemon_step_inv|by eapply daemon_step_ending]. }
  split_and!; [lia|lia|destruct (dm_maintaining d); lia| |destruct (dm_maintaining d); lia|exact He|].
  - destruct (dm_jobs d); [done|]. cbn [length] in *. lia.
  - intros Hc d' Hs. by apply canceled_steps.
Qed.

(** ** Shutdown *)

(** How far a draining loop is from returning. *)
Definition drain_rank (d : daemon) : nat :=
  match dm_phase d with
  | Returned => 0
  | Hard => 1
  | Graceful => 2
  | Selecting => 3
  end + Z.to_nat (dm_active d) + (if dm_maintaining d then 1 else 0).

Definition draining (d : daemon) : Prop := dm_phase d = Graceful \/ dm_phase d = Hard.

Lemma drain_rank_decreases d d' :
  daemon_inv d -> draining d -> loop_step d d' -> (drain_rank d' < drain_rank d)%nat /\ (draining d' \/ dm_phase d' = Returned).
Proof.
  intros Hi Hd Hs. destruct Hi as [H1 H2 H3 (H4 & H5 & H6)]. unfold draining, drain_rank in *.
  destruct Hs as [x Hp|Hp|x Hp|x Hp|Hp|Hp|Hp Hn Hr|Hp Hn Hr|Hp Hn|Hp Hn]; cbn;
    try (exfalso; destruct Hd as [Hd|Hd]; congruence).
  - destruct Hd as [-> | ->]; (split; [lia|by right]).
  - split; [|by left]. destruct Hd as [-> | ->]; lia.
  - assert (dm_maintaining d = true) as -> by (destruct (dm_maintaining d); [done|lia]).
    split; [|by left]. destruct Hd as [-> | ->]; lia.
  - rewrite Hp. split; [lia|left; by right].
  - rewrite Hp. split; [lia|by right].
Qed.

(** C31. Shutdown ends: once the context of Run is done nothing new is started;
    the loop's next step can be to drain; and while it drains it always has a
    step that waits for no job (a result or a timer), each of which brings it
    nearer to returning, so it returns after at most two timeouts and as many
    results as searches and maintenance were running. *)
Theorem shutdown_returns d :
  settings_ok cfg -> daemon_reachable d ->
  (dm_canceled d = true -> forall d', loop_step d d' -> dm_jobs d' = dm_jobs d /\ dm_passes d' = dm_passes d)
  /\ (dm_canceled d = true -> dm_phase d = Selecting -> loop_step d (in_phase Graceful d))
  /\ (draining d ->
        (exists d', loop_step d d')
        /\ (forall d', loop_step d d' -> (drain_rank d' < drain_rank d)%nat /\ (draining d' \/ dm_phase d' = Returned))
        /\ (forall d', outside_step d d' -> drain_rank d' = drain_rank d)
        /\ Z.of_nat (drain_rank d) <= MaxWorkflows cfg + 3).
Proof.
  intros Hok Hr. pose proof (ok_workflows _ Hok) as Hw.
  assert (daemon_inv d) as Hi.
  { induction Hr as [x b db|d d' _ IH Hstep]; [apply start_inv; lia|by eapply daemon_step_inv]. }
  split_and!.
  - intros Hc d' Hs. destruct Hs; rewrite ?canceled_dispatch by done; try done.
    unfold startMaintenance. by rewrite Hc.
  - intros Hc Hp. by apply on_done.
  - intros Hd. split_and!.
    + destruct (idle d) eqn:Ei.
      * exists (in_phase Returned d). by apply drained.
      * destruct Hd as [Hp|Hp]; [exists (stop_jobs d); by apply drain_timeout|].
        exists (in_phase Returned d). by apply drain_abandoned.
    + intros d' Hs. by apply drain_rank_decreases.
    + intros d' Hs. by destruct Hs.
    + destruct Hi as [H1 H2 H3 H4]. unfold drain_rank. destruct Hd as [-> | ->]; destruct (dm_maintaining d); lia.
Qed.
End daemon.

(** ** Catalog reconciliations *)

Record ReconcileTiming := mkTiming {
  LastAttempt : instant;
  RtFailures : Z;
  RtDeferred : bool;
}.

Definition never : ReconcileTiming := mkTiming zero_time 0 false.

Definition reconcileDeferredDelay : duration := hour.
Definition reconcileFailureDelays : list duration := [5 * minute; 15 * minute; hour; 6 * hour].

Definition failure_delay (failures : Z) : duration :=
  default 0 (reconcileFailureDelays !! Z.to_nat (Z.min (failures - 1) (Z.of_nat (length reconcileFailureDelays) - 1))).

Definition reconcile_delay (interval : duration) (a : ReconcileTiming) : duration :=
  if 0 <? RtFailures a then failure_delay (RtFailures a)
  else if RtDeferred a then Z.min interval reconcileDeferredDelay
  else interval.

Definition reconcile_due (interval : duration) (now : instant) (a : ReconcileTiming) : bool :=
  is_zero (LastAttempt a) || negb (now <? LastAttempt a + reconcile_delay interval a).

(** How a reconciliation of an instance ended. *)
Inductive reconcile_answer := ReconcileDone | HistoryDeferred | ReconcileFailed.

Definition attempted (now : instant) (r : reconcile_answer) (a : ReconcileTiming) : ReconcileTiming :=
  match r with
  | ReconcileDone => mkTiming now 0 false
  | HistoryDeferred => mkTiming now 0 true
  | ReconcileFailed =>
      mkTiming now (if RtFailures a <? Z.of_nat (length reconcileFailureDelays) then RtFailures a + 1 else RtFailures a) false
  end.

(** The timings in memory and the saved ones; the answers of the instances,
    whether their timing is saved, and whether the context ends before one. *)
Record reconcile_state := mkReconcile {
  rs_attempts : gmap text ReconcileTiming;
  rs_saved : gmap text ReconcileTiming;
}.

Section reconcile.
Context (interval : duration) (priorities : gmap text Z) (reconcilers : list text).
Context (answers : text -> reconcile_answer) (saves : text -> bool) (ended : text -> bool).

Definition setReconcileAttempt (name : text) (a : ReconcileTiming) (s : reconcile_state) : reconcile_state :=
  mkReconcile (<[name := a]> (rs_attempts s)) (if saves name then <[name := a]> (rs_saved s) else rs_saved s).

Definition priority_of (name : text) : Z := default 0 (priorities !! name).
Definition reconcile_order : list text :=
  stable_sort (less_of (lex (desc priority_of Z.compare) (asc (fun n : text => n) text_compare))) reconcilers.

(** The instances that ran, in order, and those that failed. *)
Fixpoint reconcile_instances (now : instant) (names : list text) (s : reconcile_state)
    : reconcile_state * list text * list text :=
  match names with
  | [] => (s, [], [])
  | name :: names =>
      if ended name then (s, [], [])
      else
        let attempt := default never (rs_attempts s !! name) in
        if negb (reconcile_due interval now attempt) then reconcile_instances now names s
        else
          let s := setReconcileAttempt name (attempted now (answers name) attempt) s in
          let '(s, ran, failed) := reconcile_instances now names s in
          (s, name :: ran, match answers name with ReconcileFailed => name :: failed | _ => failed end)
  end.

(** At the first pass: an instance whose discovery is pending again is due. *)
Definition releasePendingDiscoveries (pending : text -> bool) (attempts : gmap text ReconcileTiming)
    : gmap text ReconcileTiming :=
  filter (fun kv => (is_zero (LastAttempt kv.2) || (0 <? RtFailures kv.2) || RtDeferred kv.2
                     || negb (bool_decide (kv.1 ∈ reconcilers)) || negb (pending kv.1)) = true) attempts.

(** [memory] is [None] before the first pass; [locked] is the fence of a scan;
    [readable] whether the saved timings can be read. *)
Definition reconcileDue (locked readable : bool) (pending : text -> bool) (now : instant)
    (memory : option (gmap text ReconcileTiming)) (saved : gmap text ReconcileTiming)
    : option (gmap text ReconcileTiming) * gmap text ReconcileTiming * list text * list text :=
  if locked then (memory, saved, [], [])
  else
    match memory, readable with
    | None, false => (None, saved, [], [])
    | _, _ =>
        let attempts := match memory with Some m => m | None => releasePendingDiscoveries pending saved end in
        let '(s, ran, failed) := reconcile_instances now reconcile_order (mkReconcile attempts saved) in
        (Some (rs_attempts s), rs_saved s, ran, failed)
    end.

Lemma reconcile_instances_spec now names s :
  NoDup names -> (forall n, n ∈ names -> ended n = false) ->
  let '(s', ran, failed) := reconcile_instances now names s in
  let timing n := default never (rs_attempts s !! n) in
  ran = filter (fun n => reconcile_due interval now (timing n) = true) names
  /\ failed = filter (fun n => match answers n with ReconcileFailed => true | _ => false end = true) ran
  /\ forall n, rs_attempts s' !! n = if decide (n ∈ ran) then Some (attempted now (answers n) (timing n)) else rs_attempts s !! n.
Proof.
  revert s. induction names as [|name names IH]; intros s Hnd He; cbn [reconcile_instances].
  { split_and!; [done|done|]. intros n. by rewrite decide_False by apply not_elem_of_nil. }
  apply NoDup_cons in Hnd as [Hn Hnd]. rewrite He by left. rewrite filter_cons.
  destruct (reconcile_due interval now (default never (rs_attempts s !! name))) eqn:Ed; cbn [negb].
  - set (s1 := setReconcileAttempt _ _ s). specialize (IH s1 Hnd (fun n Hin => He n (list_elem_of_further n name names Hin))).
    destruct (reconcile_instances now names s1) as [[s' ran] failed]. destruct IH as (Hran & Hfailed & Hs).
    assert (forall n, n ∈ names -> rs_attempts s1 !! n = rs_attempts s !! n) as Hsame.
    { intros n Hin. unfold s1. cbn. apply lookup_insert_ne. by intros ->. }
    assert (ran = filter (fun n => reconcile_due interval now (default never (rs_attempts s !! n)) = true) names) as Hran'.
    { rewrite Hran. clear - Hsame. induction names as [|n names IH]; [done|]. rewrite !filter_cons.
      rewrite (Hsame n) by left. rewrite IH; [done|]. intros n' Hin. apply Hsame. by right. }
    rewrite decide_True by done. split_and!; [by f_equal|rewrite filter_cons, Hfailed|].
    + by destruct (answers name).
    + intros n. rewrite Hs. destruct (decide (n = name)) as [->|Hne].
      * rewrite decide_False, decide_True by (left || (rewrite Hran'; by intros [_ ?]%list_elem_of_filter)).
        unfold s1. cbn. by rewrite lookup_insert_eq.
      * destruct (decide (n ∈ ran)) as [Hin|Hin].
        -- rewrite decide_True by by right. rewrite Hran' in Hin. apply list_elem_of_filter in Hin as [_ Hin]. by rewrite Hsame.
        -- rewrite decide_False by (intros [?|?]%elem_of_cons; done). unfold s1. cbn. by rewrite lookup_insert_ne.
  - specialize (IH s Hnd (fun n Hin => He n (list_elem_of_further n name names Hin))).
    destruct (reconcile_instances now names s) as [[s' ran] failed]. by rewrite decide_False by done.
Qed.

Lemma reconcile_order_perm : reconcile_order ≡ₚ reconcilers.
Proof. apply stable_sort_perm. Qed.

Lemma failure_delay_bounds failures : 0 < failures -> 5 * minute <= failure_delay failures <= 6 * hour.
Proof.
  intros Hf. unfold failure_delay. change (Z.of_nat (length reconcileFailureDelays) - 1) with 3.
  assert (0 <= Z.min (failures - 1) 3 <= 3) as Hi by lia. revert Hi.
  generalize (Z.min (failures - 1) 3) as k. intros k Hk.
  assert (k = 0 \/ k = 1 \/ k = 2 \/ k = 3) as [-> |[-> |[-> | ->]]] by lia; by vm_compute.
Qed.

Lemma attempted_waits now r a now' :
  now <> zero_time -> 0 <= RtFailures a -> now' < now + Z.min interval (5 * minute) ->
  reconcile_due interval now' (attempted now r a) = false.
Proof.
  intros Hz Hf Hlt. unfold reconcile_due. apply orb_false_iff. split.
  - destruct r; cbn; by apply Z.eqb_neq.
  - apply negb_false_iff, Z.ltb_lt. unfold reconcile_delay. destruct r; cbn [attempted RtFailures RtDeferred LastAttempt].
    + cbn. lia.
    + cbn. unfold reconcileDeferredDelay, hour, minute, second in *. lia.
    + set (f := if RtFailures a <? Z.of_nat (length reconcileFailureDelays) then RtFailures a + 1 else RtFailures a).
      assert (0 < f) as Hp.
      { unfold f. destruct (Z.ltb_spec (RtFailures a) (Z.of_nat (length reconcileFailureDelays))) as [|Hle]; [lia|].
        change (Z.of_nat (length reconcileFailureDelays)) with 4 in Hle. lia. }
      destruct (Z.ltb_spec 0 f); [|lia]. pose proof (failure_delay_bounds f Hp). lia.
Qed.

(** A reconciliation pass that is not cut short runs exactly the instances
    that are due, the highest priority first, and none of them is due again
    within five minutes or the interval. *)
Theorem reconciliations_are_paced pending now m saved :
  NoDup reconcilers -> (forall n, ended n = false) -> now <> zero_time ->
  (forall n a, m !! n = Some a -> 0 <= RtFailures a) ->
  exists m' saved' ran failed,
    reconcileDue false true pending now (Some m) saved = (Some m', saved', ran, failed)
    /\ ran = filter (fun n => reconcile_due interval now (default never (m !! n)) = true) reconcile_order
    /\ failed = filter (fun n => match answers n with ReconcileFailed => true | _ => false end = true) ran
    /\ (forall n now', n ∈ ran -> now' < now + Z.min interval (5 * minute) ->
          exists a, m' !! n = Some a /\ reconcile_due interval now' a = false)
    /\ forall n, n ∉ ran -> m' !! n = m !! n.
Proof.
  intros Hnd He Hz Hm. unfold reconcileDue.
  pose proof (reconcile_instances_spec now reconcile_order (mkReconcile m saved)
    ltac:(by rewrite reconcile_order_perm) (fun n _ => He n)) as Hs.
  destruct (reconcile_instances now reconcile_order (mkReconcile m saved)) as [[s ran] failed].
  destruct Hs as (Hran & Hfailed & Hs). cbn [rs_attempts] in *.
  exists (rs_attempts s), (rs_saved s), ran, failed. split_and!; [done|done|done| |].
  - intros n now' Hin Hlt. rewrite Hs, decide_True by done. eexists. split; [done|].
    apply attempted_waits; [done| |done]. destruct (m !! n) as [a|] eqn:Em; [by eapply Hm|done].
  - intros n Hin. by rewrite Hs, decide_False.
Qed.
End reconcile.

(** ** A daemon and a pass *)

Definition sample_config : WorkerConfig := mkWorkerConfig 0 0 0 0 0 0 2 0.
Definition sample_settings : WorkerConfig := default sample_config (prepare sample_config).

Lemma sample_settings_ok : settings_ok sample_settings.
Proof. apply (prepared_settings sample_config). by vm_compute. Qed.

Abbreviation sample_repository := (mkRepository None None).
Abbreviation no_digest := (fun _ : list N => [] : text).
Definition sample_dispatch : dispatch_world := mkDispatch 5 (Some []) [] None.
Definition sample_start : daemon :=
  start no_digest sample_repository sample_settings sample_dispatch (mkBreaker 0 0 0) empty_db.

(** The context ends and the loop starts to drain. *)
Definition sample_canceled : daemon :=
  mkDaemon (dm_phase sample_start) true (dm_stopped sample_start) (dm_active sample_start)
    (dm_maintaining sample_start) (dm_jobs sample_start) (dm_results sample_start) (dm_passes sample_start)
    (dm_finished sample_start) (dm_breaker sample_start) (dm_db sample_start).
Definition sample_draining : daemon := in_phase Graceful sample_canceled.

Lemma sample_reachable : daemon_reachable no_digest sample_repository sample_settings sample_draining.
Proof.
  apply (reach_step _ _ _ sample_canceled); [|left; apply on_done; by vm_compute].
  apply (reach_step _ _ _ sample_start); [apply reach_start|right; apply canceled].
Qed.

Lemma daemon_bounded_witness : dm_passes sample_draining = 1 /\ dm_finished sample_draining = 0.
Proof.
  split; [by vm_compute|].
  destruct (daemon_bounded no_digest sample_repository sample_settings sample_draining sample_settings_ok sample_reachable)
    as (_ & _ & _ & Hf & _). apply Hf. by vm_compute.
Defined.

Lemma shutdown_returns_witness :
  exists d', loop_step no_digest sample_repository sample_settings sample_draining d'.
Proof.
  destruct (shutdown_returns no_digest sample_repository sample_settings sample_draining sample_settings_ok sample_reachable)
    as (_ & _ & Hd). apply Hd. by left.
Defined.

Lemma reconciliations_are_paced_witness :
  exists m' saved' ran failed,
    reconcileDue hour ∅ [t "sonarr"; t "radarr"] (fun _ => ReconcileFailed) (fun _ => true) (fun _ => false) false true
      (fun _ => false) 1000 (Some ∅) ∅ = (Some m', saved', ran, failed)
    /\ ran = [t "radarr"; t "sonarr"].
Proof.
  destruct (reconciliations_are_paced hour ∅ [t "sonarr"; t "radarr"] (fun _ => ReconcileFailed) (fun _ => true) (fun _ => false)
    (fun _ => false) 1000 ∅ ∅) as (m' & saved' & ran & failed & E & Hran & _).
  - apply NoDup_cons. split; [intros H%list_elem_of_singleton; by vm_compute in H|apply NoDup_singleton].
  - reflexivity.
  - discriminate.
  - intros n a H. by rewrite lookup_empty in H.
  - exists m', saved', ran, failed. split; [exact E|]. rewrite Hran. by vm_compute.
Defined.
