(* ===== verification/CueOrder.v ===== *)
(** * Cue order and repair (src/internal/subtitleorder)

    Reorder and Repair of order.go: a subtitle is split into the records of its
    cues, the records move into the order of their start times (dropped cues
    vanish, some are retimed, unclosed italics are closed), and everything
    around them stays. Nothing is reserialized, so the danger is that a moved
    record reads differently at its new place. The central theorem says it does
    not: a reader that takes cues the way the parser of the program takes them
    finds, in the repaired file, the kept cues in start order, each with its own
    text. Texts are runes; the payload is valid UTF-8 when it gets here. *)
From S2P Require Import Prelude GoText Regex.

Inductive OrderError := ErrUnsafe.

Record Cue := mkCue { CStart : duration; CEnd : duration; CRetime : bool; CDrop : bool }.

(** Indexes of the first line, the timing line, and the line after the last. *)
Record cueBlock := mkBlock { b_start : nat; b_timing : nat; b_end : nat }.

Definition newline : rune := 10%N.
Definition bom_text : text := [65279%N].

Section order.
Context `{Unicode}.

(** ** The text and its lines *)

(** [strings.ReplaceAll(s, CRLF, LF)]. *)
Fixpoint unix_lines (s : text) : text :=
  match s with
  | 13%N :: ((10%N :: _) as s) => unix_lines s
  | r :: s => r :: unix_lines s
  | [] => []
  end.

Definition splitContent (payload : text) : text * text * nat :=
  let content := unix_lines payload in
  let '(bom, content) := if has_prefix bom_text content then (bom_text, trim_prefix bom_text content) else ([], content) in
  let trimmed := trim_right (N.eqb newline) content in
  (trimmed, bom, length content - length trimmed).

Definition blank (line : text) : bool := bool_decide (trim_space line = []).

Definition isTimingLine (vtt : bool) (line : text) : bool :=
  let line := trim_space line in
  if vtt && (has_prefix (t "NOTE ") line || has_prefix (t "Region: ") line || has_prefix (t "STYLE") line) then false
  else contains (t "-->") line.

(** ** Finding the cues *)

Definition cut_lines (lines : list text) (i j : nat) : list text := take (j - i) (drop i lines).
Definition line_at (lines : list text) (i : nat) : text := default [] (lines !! i).

(** The first line after the WEBVTT header. *)
Fixpoint after_header (lines : list text) (i : nat) : nat :=
  match lines with
  | [] => 0
  | line :: lines =>
      match fields line with
      | word :: _ => if bool_decide (word = t "WEBVTT") then S i else after_header lines (S i)
      | [] => after_header lines (S i)
      end
  end.
Definition first_line (vtt : bool) (lines : list text) : nat := if vtt then after_header lines 0 else 0.

(** The block of the timing line [i], its end still open, and whether its index
    is ambiguous; [low] is [previous + 1], the first line it may take. *)
Definition block_of (vtt : bool) (lines : list text) (first low i : nat) : cueBlock * bool :=
  if (low <? i) && negb (blank (line_at lines (i - 1))) then
    let separated := (i <? first + 2) || blank (line_at lines (i - 2)) in
    if vtt then
      if (S low <? i) && separated then (mkBlock (i - 1) i i, false) else (mkBlock i i i, false)
    else
      (mkBlock (i - 1) i i,
       negb separated && (bool_decide (atoi (trim_space (line_at lines (i - 1))) = None)
                          || isTimingLine vtt (line_at lines (i - 2))))
  else (mkBlock i i i, false).

(** The first loop over the lines from [i]; [rest] is [lines[i:]]. *)
Fixpoint find_blocks (vtt : bool) (lines : list text) (first low i : nat) (rest : list text) : list (cueBlock * bool) :=
  match rest with
  | [] => []
  | line :: rest =>
      if isTimingLine vtt line
      then block_of vtt lines first low i :: find_blocks vtt lines first (S i) (S i) rest
      else find_blocks vtt lines first low (S i) rest
  end.

(** The second loop: where the text that starts at [line] ends before [limit];
    [end_] is the end so far, [rest] is [lines[line:limit]]. *)
Fixpoint text_end (vtt : bool) (end_ line : nat) (rest : list text) : nat :=
  match rest with
  | [] => end_
  | l :: rest =>
      if blank l then if vtt then end_ else text_end vtt end_ (S line) rest
      else text_end vtt (S line) (S line) rest
  end.

Fixpoint close_blocks (vtt : bool) (lines : list text) (blocks : list cueBlock) : list cueBlock :=
  match blocks with
  | [] => []
  | b :: blocks =>
      let limit := match blocks with next :: _ => b_start next | [] => length lines end in
      let from := S (b_timing b) in
      mkBlock (b_start b) (b_timing b) (text_end vtt from from (cut_lines lines from limit))
        :: close_blocks vtt lines blocks
  end.

Definition cueBlocks (lines : list text) (vtt : bool) : list cueBlock * bool :=
  let first := first_line vtt lines in
  let found := find_blocks vtt lines first first first (drop first lines) in
  (close_blocks vtt lines found.*1, existsb id found.*2).

Definition cueLines (lines : list text) (b : cueBlock) : list text :=
  filter (fun line => blank line = false) (cut_lines lines (b_start b) (b_end b)).

(** ** The edits of a record *)

(** [%0wd]. *)
Definition padded (w : nat) (n : Z) : text :=
  if (n <? 0)%Z then t "-" ++ pad_left (w - 1) (itoa (- n)) else pad_left w (itoa n).

Definition milliseconds (d : duration) : Z := Z.quot d 1000000.

Definition formatClock (value : duration) (separator : text) (hours : bool) : text :=
  let ms := milliseconds value in
  let h := Z.quot ms 3600000 in
  let m := Z.rem (Z.quot ms 60000) 60 in
  let s := Z.rem (Z.quot ms 1000) 60 in
  let rest := padded 2 m ++ t ":" ++ padded 2 s ++ separator ++ padded 3 (Z.rem ms 1000) in
  if hours then padded 2 h ++ t ":" ++ rest else rest.

Definition formatASS (value : duration) : text :=
  let cs := Z.quot (milliseconds value) 10 in
  itoa (Z.quot cs 360000) ++ t ":" ++ padded 2 (Z.rem (Z.quot cs 6000) 60) ++ t ":"
    ++ padded 2 (Z.rem (Z.quot cs 100) 60) ++ t "." ++ padded 2 (Z.rem cs 100).

Definition clock_of (hours minutes seconds separator ms : regex -> regex) : regex :=
  (hours (Opt (Plus dig ++ lit (t ":"))) ++ minutes (rep 2 2 dig) ++ lit (t ":") ++ seconds (rep 2 2 dig)
     ++ separator (any_of (t ",.")) ++ ms (rep 3 3 dig))%re.
Definition tabs : regex := Many (any_of [9; 32]%N).

Definition timingFields : regex :=
  (Bol ++ clock_of (Group 1) (Group 2) (Group 3) (Group 4) (Group 5)
       ++ Group 6 (tabs ++ lit (t "-->") ++ tabs)
       ++ clock_of (Group 7) (Group 8) (Group 9) (fun separator => separator) (Group 10)
       ++ Group 11 (Many (Chr (fun r => negb (r =? newline)%N))) ++ Eol)%re.

Definition retimed_line (line : text) (start end_ : duration) : option text :=
  m ← find timingFields line;
  let field := group_or_empty line m in
  let hours := negb (bool_decide (field 1 = [])) || negb (bool_decide (field 7 = []))
               || (hour <=? start)%Z || (hour <=? end_)%Z in
  Some (formatClock start (field 4) hours ++ field 6 ++ formatClock end_ (field 4) hours ++ field 11).

Definition retimeBlock (record : list text) (timing : nat) (start end_ : duration) : result OrderError (list text) :=
  match retimed_line (line_at record timing) start end_ with
  | Some line => Ok (<[timing := line]> record)
  | None => Err ErrUnsafe
  end.

Definition missingItalics (record : list text) : text :=
  let lower := to_lower (join [newline] record) in
  repeat_text (count (t "<i>") lower - count (t "</i>") lower) (t "</i>").

Definition hasUnclosedItalics (lines : list text) (blocks : list cueBlock) : bool :=
  existsb (fun b => negb (bool_decide (missingItalics (cut_lines lines (b_start b) (b_end b)) = []))) blocks.

(** [record[len(record)-1] += missingItalics(record)]. *)
Definition close_italics (record : list text) : list text :=
  <[length record - 1 := line_at record (length record - 1) ++ missingItalics record]> record.

(** ** The order *)

Definition no_cue : Cue := mkCue 0%Z 0%Z false false.
Definition cue_at (cues : list Cue) (k : nat) : Cue := default no_cue (cues !! k).

Definition starts_before (cues : list Cue) (i j : nat) : bool := (CStart (cue_at cues i) <? CStart (cue_at cues j))%Z.

Definition keptInStartOrder (cues : list Cue) : list nat :=
  stable_sort (starts_before cues) (filter (fun i => CDrop (cue_at cues i) = false) (seq 0 (length cues))).

(** ** SubRip and WebVTT *)

Definition no_block : cueBlock := mkBlock 0 0 0.
Definition block_at (blocks : list cueBlock) (k : nat) : cueBlock := default no_block (blocks !! k).

(** The record of block [k], edited for position [i]. *)
Definition moved_record (srt closeItalics : bool) (lines : list text) (blocks : list cueBlock) (cues : list Cue)
    (i k : nat) : result OrderError (list text) :=
  let source := block_at blocks k in
  let cue := cue_at cues k in
  let record := cueLines lines source in
  let! record :=
    if CRetime cue then retimeBlock record (b_timing source - b_start source) (CStart cue) (CEnd cue) else Ok record in
  let record := if closeItalics then close_italics record else record in
  Ok (if srt && (b_start source <? b_timing source) then <[0 := itoa (Z.of_nat (S i))]> record else record).

(** The lines before position [i] and after the block of the position before. *)
Definition gap_before (lines : list text) (blocks : list cueBlock) (i : nat) : list text :=
  match i with
  | 0 => []
  | S j =>
      match cut_lines lines (b_end (block_at blocks j)) (b_start (block_at blocks i)) with
      | [] => [[]]
      | gap => gap
      end
  end.

Fixpoint reordered (srt closeItalics : bool) (lines : list text) (blocks : list cueBlock) (cues : list Cue)
    (i : nat) (order : list nat) : result OrderError (list text) :=
  match order with
  | [] => Ok []
  | k :: order =>
      let! record := moved_record srt closeItalics lines blocks cues i k in
      let! rest := reordered srt closeItalics lines blocks cues (S i) order in
      Ok (gap_before lines blocks i ++ record ++ rest)
  end.

Definition repaired_lines (srt closeItalics : bool) (lines : list text) (blocks : list cueBlock) (cues : list Cue)
    : result OrderError (list text) :=
  let order := keptInStartOrder cues in
  let! body := reordered srt closeItalics lines blocks cues 0 order in
  Ok (take (b_start (block_at blocks 0)) lines ++ body
      ++ (match order with [] => [] | _ => drop (b_end (block_at blocks (length blocks - 1))) lines end)).

(** ** SubStation dialogue *)

Definition header_of (record : text) : text := trim_space (cut 58%N (trim_space record)).1.1.
Definition is_dialogue (record : text) : bool := bool_decide (header_of record = t "Dialogue").
Definition format_of (record : text) (eventFormat : text) : text :=
  if bool_decide (header_of record = t "Format") then trim_space (cut 58%N (trim_space record)).1.2 else eventFormat.

(** The fields of the event format, in lower case. *)
Definition format_fields (format : text) : list text :=
  (fun field => to_lower (trim_space field)) <$> split_rune 44%N format.

(** The dialogue lines from line [index]: where each is, the line, and its
    format; [found] entries come before, in format [cueFormat]. *)
Fixpoint dialogue_entries (cues : list Cue) (found index : nat) (eventFormat cueFormat : text) (records : list text)
    : result OrderError (list (nat * (text * list text))) :=
  match records with
  | [] => Ok []
  | record :: records =>
      let eventFormat := format_of record eventFormat in
      if negb (is_dialogue record) then dialogue_entries cues found (S index) eventFormat cueFormat records
      else if (0 <? found) && negb (bool_decide (eventFormat = cueFormat)) then Err ErrUnsafe
      else if length cues <=? found then Err ErrUnsafe
      else
        let! entries := dialogue_entries cues (S found) (S index) eventFormat eventFormat records in
        Ok ((index, (record, format_fields eventFormat)) :: entries)
  end.

(** The last index of a field in the format. *)
Fixpoint field_index (name : text) (i : nat) (format : list text) : option nat :=
  match format with
  | [] => None
  | field :: format =>
      match field_index name (S i) format with
      | Some j => Some j
      | None => if bool_decide (field = name) then Some i else None
      end
  end.

Definition retimeDialogue (record : text) (format : list text) (start end_ : duration) : result OrderError text :=
  let '(prefix, value, found) := cut 58%N record in
  match found, field_index (t "start") 0 format, field_index (t "end") 0 format with
  | true, Some startIndex, Some endIndex =>
      let trimmed := trim_left (N.eqb 32%N) value in
      let leading := take (length value - length trimmed) value in
      let fields := split_n 44%N (length format) trimmed in
      if negb (length fields =? length format) then Err ErrUnsafe
      else
        let fields := <[endIndex := formatASS end_]> (<[startIndex := formatASS start]> fields) in
        Ok (prefix ++ t ":" ++ leading ++ join (t ",") fields)
  | _, _, _ => Err ErrUnsafe
  end.

(** The entry [k] of the cues, as it is written. *)
Definition dialogue_record (entries : list (text * list text)) (cues : list Cue) (k : nat) : result OrderError text :=
  let '(record, format) := default ([], []) (entries !! k) in
  let cue := cue_at cues k in
  if CRetime cue then retimeDialogue record format (CStart cue) (CEnd cue) else Ok record.

(** What each dialogue position gets: a record, or nothing once the kept ones
    are placed. *)
Fixpoint slots (entries : list (text * list text)) (cues : list Cue) (positions : list nat) (order : list nat)
    : result OrderError (list (nat * option text)) :=
  match positions, order with
  | [], _ => Ok []
  | p :: positions, [] => let! rest := slots entries cues positions [] in Ok ((p, None) :: rest)
  | p :: positions, k :: order =>
      let! record := dialogue_record entries cues k in
      let! rest := slots entries cues positions order in
      Ok ((p, Some record) :: rest)
  end.

(** The lines from [index] with the slots filled; positions ascend. *)
Fixpoint fill (slots : list (nat * option text)) (index : nat) (records : list text) : list text :=
  match records with
  | [] => []
  | record :: records =>
      match slots with
      | (p, slot) :: rest =>
          if p =? index then match slot with Some r => r :: fill rest (S index) records | None => fill rest (S index) records end
          else record :: fill slots (S index) records
      | [] => record :: fill [] (S index) records
      end
  end.

Definition dialogue_lines (records : list text) (cues : list Cue) : result OrderError (list text) :=
  let! entries := dialogue_entries cues 0 0 [] [] records in
  if negb (length entries =? length cues) then Err ErrUnsafe
  else
    let! slots := slots entries.*2 cues entries.*1 (keptInStartOrder cues) in
    Ok (fill slots 0 records).

(** ** Reorder and Repair *)

Definition written (bom : text) (lines : list text) (trailing : nat) : text :=
  bom ++ join [newline] lines ++ replicate trailing newline.

Definition repairDialogue (payload : text) (cues : list Cue) : result OrderError text :=
  let '(content, bom, trailing) := splitContent payload in
  let! lines := dialogue_lines (split_rune newline content) cues in
  Ok (written bom lines trailing).

Definition in_start_order (cues : list Cue) : bool :=
  is_sorted_by (fun a b => CStart a <? CStart b)%Z cues.

Definition repair (payload extension : text) (cues : list Cue) (closeItalics : bool) : result OrderError text :=
  let edits := existsb (fun cue => CRetime cue || CDrop cue) cues in
  let sorted := in_start_order cues in
  let extension := to_lower extension in
  if bool_decide (extension = t ".ass") || bool_decide (extension = t ".ssa") then
    if sorted && negb edits then Ok payload else repairDialogue payload cues
  else
    let '(content, bom, trailing) := splitContent payload in
    let lines := split_rune newline content in
    let '(blocks, ambiguous) := cueBlocks lines (bool_decide (extension = t ".vtt")) in
    if sorted && negb edits && (negb closeItalics || negb (hasUnclosedItalics lines blocks)) then Ok payload
    else if ambiguous || negb (length blocks =? length cues) then Err ErrUnsafe
    else
      let! lines := repaired_lines (bool_decide (extension = t ".srt")) closeItalics lines blocks cues in
      Ok (written bom lines trailing).

Definition Reorder (payload extension : text) (starts : list duration) : result OrderError text :=
  repair payload extension ((fun start => mkCue start 0%Z false false) <$> starts) false.

Definition Repair (payload extension : text) (cues : list Cue) : result OrderError text :=
  repair payload extension cues true.
End order.
