(* ===== verification/CueReading.v ===== *)
(** * Reading a repaired subtitle (src/internal/subtitleorder)

    A reader that takes cues the way the parser of the program takes them, and
    what it finds in the texts CueOrder.v produces. The lines of a subtitle are
    a prefix and a row of pieces (index, timing line, text, gap); the program's
    blocks are exactly those pieces, and moving records around keeps a row a
    row, so the reader finds the moved cues. *)
From S2P Require Import Prelude GoText Regex CueOrder.

Section reading.
Context `{Unicode}.

(** ** The reader

    How the parser takes cues: a timing line starts one; its text is the lines
    up to the first blank one (WebVTT), or the non-blank lines up to the next
    timing line, the last of which is that cue's index (SubRip). *)
Fixpoint split_at_timing (vtt : bool) (lines : list text) : list text * list (text * list text) :=
  match lines with
  | [] => ([], [])
  | line :: lines =>
      let '(segment, cues) := split_at_timing vtt lines in
      if isTimingLine vtt line then ([], (line, segment) :: cues) else (line :: segment, cues)
  end.

Definition visible (lines : list text) : list text := filter (fun line => blank line = false) lines.
Fixpoint until_blank (lines : list text) : list text :=
  match lines with [] => [] | line :: lines => if blank line then [] else line :: until_blank lines end.

Definition cue_body (vtt last : bool) (cue : text * list text) : list text :=
  cue.1 :: (if vtt then until_blank cue.2 else visible (if last then cue.2 else removelast cue.2)).

Fixpoint cue_bodies (vtt : bool) (cues : list (text * list text)) : list (list text) :=
  match cues with
  | [] => []
  | cue :: rest => cue_body vtt (match rest with [] => true | _ => false end) cue :: cue_bodies vtt rest
  end.

Definition read_cues (vtt : bool) (lines : list text) : list (list text) :=
  cue_bodies vtt (split_at_timing vtt (drop (first_line vtt lines) lines)).2.

(** ** Pieces

    The lines from the first cue on are a row of pieces: an index or identifier
    line that may be missing, the timing line, the text, and the lines before
    the next piece. *)
Record piece := mkPiece { p_index : list text; p_timing : text; p_text : list text; p_gap : list text }.

Definition shown (p : piece) : list text := p_index p ++ p_timing p :: p_text p.
Definition flat (p : piece) : list text := shown p ++ p_gap p.
Definition row (ps : list piece) : list text := concat (flat <$> ps).

Definition untimed (vtt : bool) (lines : list text) : Prop := Forall (fun l => isTimingLine vtt l = false) lines.

Record piece_ok (vtt : bool) (p : piece) : Prop := {
  ok_timing : isTimingLine vtt (p_timing p) = true;
  ok_index : untimed vtt (p_index p) /\ length (p_index p) <= 1 /\ Forall (fun l => blank l = false) (p_index p);
  ok_text : untimed vtt (p_text p);
  ok_gap : untimed vtt (p_gap p);
  ok_ends : if vtt then Forall (fun l => blank l = false) (p_text p)
                        /\ match p_gap p with [] => True | l :: _ => blank l = true end
            else Forall (fun l => blank l = true) (p_gap p);
}.

(** The lines between two pieces are read as the first one's. *)
Definition apart (vtt : bool) (p q : piece) : Prop :=
  if vtt then p_index q <> [] -> p_gap p <> [] else p_index q = [] -> p_text p = [] \/ p_gap p <> [].

Fixpoint row_ok (vtt : bool) (ps : list piece) : Prop :=
  match ps with
  | [] => True
  | p :: rest => piece_ok vtt p /\ match rest with q :: _ => apart vtt p q | [] => True end /\ row_ok vtt rest
  end.

Fixpoint blocks_of (from : nat) (ps : list piece) : list cueBlock :=
  match ps with
  | [] => []
  | p :: ps =>
      let timing := from + length (p_index p) in
      mkBlock from timing (S timing + length (p_text p)) :: blocks_of (from + length (flat p)) ps
  end.

Definition body_of (p : piece) : list text := p_timing p :: visible (p_text p).

Lemma untimed_app vtt a b : untimed vtt (a ++ b) <-> untimed vtt a /\ untimed vtt b.
Proof. apply Forall_app. Qed.

Lemma split_untimed vtt seg rest : untimed vtt seg ->
  split_at_timing vtt (seg ++ rest)
  = (seg ++ (split_at_timing vtt rest).1, (split_at_timing vtt rest).2).
Proof.
  induction 1 as [|l seg Hl _ IH]; cbn; [by destruct (split_at_timing vtt rest)|]. by rewrite IH, Hl.
Qed.

Lemma split_piece vtt p rest : piece_ok vtt p ->
  split_at_timing vtt (flat p ++ rest)
  = (p_index p, (p_timing p, p_text p ++ p_gap p ++ (split_at_timing vtt rest).1) :: (split_at_timing vtt rest).2).
Proof.
  intros [Ht (Hi & _) Hx Hg _]. unfold flat, shown. rewrite <- !app_assoc. rewrite (split_untimed vtt _ _ Hi).
  cbn [app split_at_timing]. rewrite (split_untimed vtt _ _ Hx), (split_untimed vtt _ _ Hg). cbn.
  by rewrite Ht, app_nil_r.
Qed.

Lemma visible_app a b : visible (a ++ b) = visible a ++ visible b.
Proof. apply filter_app. Qed.

Lemma visible_blank lines : Forall (fun l => blank l = true) lines -> visible lines = [].
Proof. induction 1 as [|l ls Hl _ IH]; [done|]. unfold visible in *. rewrite filter_cons_False by congruence. done. Qed.

Lemma visible_all lines : Forall (fun l => blank l = false) lines -> visible lines = lines.
Proof. induction 1 as [|l ls Hl _ IH]; [done|]. unfold visible in *. rewrite filter_cons_True by done. by f_equal. Qed.

Lemma until_blank_app a b : Forall (fun l => blank l = false) a -> until_blank (a ++ b) = a ++ until_blank b.
Proof. induction 1 as [|l ls Hl _ IH]; [done|]. cbn. by rewrite Hl, IH. Qed.

(** What the reader makes of a piece: [next] is the index line of the piece
    that follows it. *)
Lemma piece_body vtt p next last :
  piece_ok vtt p -> length next <= 1 -> (last = true -> next = []) ->
  (last = false -> if vtt then next <> [] -> p_gap p <> [] else next = [] -> p_text p = [] \/ p_gap p <> []) ->
  cue_body vtt last (p_timing p, p_text p ++ p_gap p ++ next) = body_of p.
Proof.
  intros [_ _ _ _ He] Hn Hlast Hap. unfold cue_body, body_of. cbn [fst snd]. f_equal. destruct vtt.
  - destruct He as [Hv Hg]. rewrite until_blank_app, visible_all by done.
    destruct (p_gap p) as [|l g] eqn:Eg; cbn.
    + destruct next as [|x next]; [by rewrite app_nil_r|].
      destruct last; [by specialize (Hlast eq_refl)|]. by specialize (Hap eq_refl ltac:(done)).
    + by rewrite Hg, app_nil_r.
  - destruct last.
    + rewrite (Hlast eq_refl), app_nil_r, visible_app, (visible_blank _ He), app_nil_r. done.
    + destruct next as [|x [|y next]]; [|rewrite app_assoc, removelast_last, visible_app, (visible_blank _ He), app_nil_r; done|cbn in Hn; lia].
      rewrite app_nil_r. destruct (Hap eq_refl eq_refl) as [->|Hg]; cbn [app].
      * rewrite visible_blank; [done|]. apply Forall_forall. intros l Hl. rewrite Forall_forall in He. apply He.
        destruct (p_gap p) as [|g gs] using rev_ind; [done|]. rewrite removelast_last in Hl. apply elem_of_app. by left.
      * destruct (p_gap p) as [|g gs] using rev_ind; [done|]. rewrite app_assoc, removelast_last, visible_app.
        apply Forall_app in He as [He _]. by rewrite (visible_blank _ He), app_nil_r.
Qed.

Lemma row_bodies vtt ps : row_ok vtt ps ->
  cue_bodies vtt (split_at_timing vtt (row ps)).2 = body_of <$> ps
  /\ (split_at_timing vtt (row ps)).1 = match ps with p :: _ => p_index p | [] => [] end.
Proof.
  induction ps as [|p ps IH]; [done|]. intros (Hp & Hap & Hr). destruct (IH Hr) as [IHb IHi].
  unfold row. cbn [fmap list_fmap concat]. fold (row ps). rewrite split_piece by done. cbn [fst snd cue_bodies].
  split; [|done]. rewrite IHi, IHb. cbn [fmap list_fmap]. f_equal.
  destruct ps as [|q qs].
  - apply piece_body; [done|cbn; lia|done|done].
  - assert (exists c cs, (split_at_timing vtt (row (q :: qs))).2 = c :: cs) as (c & cs & ->).
    { destruct Hr as [Hq _]. unfold row. cbn [fmap list_fmap concat]. rewrite split_piece by done. cbn. eauto. }
    apply piece_body; [done|apply Hr|done|intros _; exact Hap].
Qed.

(** ** The blocks of a text are a row of pieces

    The first loop finds the pieces with their gaps still part of the text. *)
Fixpoint open_of (from : nat) (ps : list piece) : list cueBlock :=
  match ps with
  | [] => []
  | p :: ps =>
      let timing := from + length (p_index p) in
      mkBlock from timing timing :: open_of (from + length (flat p)) ps
  end.

(** The lines before a piece, when it has an index and when it has none. *)
Definition joined (vtt : bool) (head : list text) (index : list text) : Prop :=
  if vtt then index <> [] -> exists a l, head = a ++ [l] /\ blank l = true
  else index = [] -> head = [] \/ exists a l, head = a ++ [l] /\ blank l = true.

Record open_ok (vtt : bool) (p : piece) : Prop := {
  open_timing : isTimingLine vtt (p_timing p) = true;
  open_index : untimed vtt (p_index p) /\ length (p_index p) <= 1 /\ Forall (fun l => blank l = false) (p_index p);
  open_text : untimed vtt (p_text p);
  open_gap : p_gap p = [];
}.

Fixpoint open_row (vtt : bool) (head : list text) (ps : list piece) : Prop :=
  match ps with
  | [] => True
  | p :: ps => joined vtt head (p_index p) /\ open_ok vtt p /\ open_row vtt (p_text p) ps
  end.

Lemma first_timing vtt lines :
  untimed vtt lines \/ exists seg l rest, lines = seg ++ l :: rest /\ untimed vtt seg /\ isTimingLine vtt l = true.
Proof.
  induction lines as [|l ls [IH|(seg & x & rest & -> & IH & Hx)]]; [left; constructor| |];
    (destruct (isTimingLine vtt l) eqn:E; [right; eexists [], l, _; split_and!; [done|constructor|done]|]).
  - left. by constructor.
  - right. exists (l :: seg), x, rest. split_and!; [done|by constructor|done].
Qed.

Lemma find_blocks_skip vtt lines first low i seg rest : untimed vtt seg ->
  find_blocks vtt lines first low i (seg ++ rest) = find_blocks vtt lines first low (i + length seg) rest.
Proof.
  intros Hs. revert i. induction Hs as [|l seg Hl _ IH]; intros i; cbn; [by rewrite Nat.add_0_r|].
  rewrite Hl, IH. f_equal. lia.
Qed.

Lemma line_at_app a l b i : i = length a -> line_at (a ++ l :: b) i = l.
Proof. intros ->. unfold line_at. by rewrite list_lookup_middle. Qed.

(** The block of a timing line after [seg]: its last line may be the index. *)
Lemma block_of_cases vtt pre seg l rest first :
  let lines := pre ++ seg ++ l :: rest in
  let i := length pre + length seg in
  first <= length pre -> untimed vtt seg ->
  exists head index, seg = head ++ index /\ length index <= 1 /\ Forall (fun l => blank l = false) index
    /\ joined vtt head index
    /\ (block_of vtt lines first (length pre) i).1 = mkBlock (length pre + length head) i i.
Proof.
  intros lines i Hf Hu. unfold block_of.
  destruct seg as [|x seg _] using rev_ind.
  { exists [], []. subst i. cbn [length]. rewrite Nat.add_0_r, (proj2 (Nat.ltb_ge _ _)) by lia. split_and!; [done|lia|done| |done].
    destruct vtt; cbn; [done|by left]. }
  assert (line_at lines (i - 1) = x) as ->.
  { subst lines i. rewrite length_app. cbn. rewrite <- app_assoc. rewrite (app_assoc pre). apply line_at_app. rewrite length_app. lia. }
  subst i. rewrite length_app. cbn [length].
  assert ((length pre <? length pre + (length seg + 1)) = true) as -> by (apply Nat.ltb_lt; lia).
  assert (forall y, seg <> [] -> line_at lines (length pre + (length seg + 1) - 2) = y -> exists a, seg = a ++ [y]) as Hprev.
  { intros y Hne Hy. destruct seg as [|z seg _] using rev_ind; [done|]. exists seg. f_equal. f_equal.
    rewrite <- Hy. symmetry. subst lines. rewrite length_app. cbn. rewrite <- !app_assoc. rewrite (app_assoc pre). cbn.
    apply line_at_app. rewrite length_app. lia. }
  apply Forall_app in Hu as [Hu _].
  destruct (blank x) eqn:Ex; cbn [andb negb].
  { exists (seg ++ [x]), []. rewrite app_nil_r, length_app. cbn. split_and!; [done|lia|done| |f_equal; lia].
    destruct vtt; cbn; [done|]. right. by exists seg, x. }
  destruct vtt; cbn [negb].
  - destruct (_ && _) eqn:E; cbn [fst].
    + apply andb_true_iff in E as [E1%Nat.ltb_lt E2]. apply orb_true_iff in E2 as [E2|E2]; [apply Nat.ltb_lt in E2; lia|].
      exists seg, [x]. split_and!; [done|done|by constructor| |f_equal; lia].
      intros _. destruct (Hprev _ ltac:(intros ->; cbn in E1; lia) eq_refl) as [a Ha]. eauto.
    + exists (seg ++ [x]), []. rewrite app_nil_r, length_app. cbn. split_and!; [done|lia|done|done|f_equal; lia].
  - exists seg, [x]. split_and!; [done|done|by constructor| |cbn [fst]; f_equal; lia]. by intros ?.
Qed.

Lemma find_blocks_row vtt n : forall pre suf first, length suf <= n -> first <= length pre ->
  exists head ps, suf = head ++ row ps /\ untimed vtt head /\ open_row vtt head ps
    /\ (find_blocks vtt (pre ++ suf) first (length pre) (length pre) suf).*1 = open_of (length pre + length head) ps.
Proof.
  induction n as [|n IH]; intros pre suf first Hn Hf.
  { destruct suf; [|cbn in Hn; lia]. exists [], []. split_and!; [done|constructor|done|done]. }
  destruct (first_timing vtt suf) as [Hu|(seg & l & rest & -> & Hu & Hl)].
  { exists suf, []. cbn. rewrite app_nil_r. split_and!; [done|done|done|].
    rewrite <- (app_nil_r suf) at 2. by rewrite find_blocks_skip. }
  destruct (block_of_cases vtt pre seg l rest first Hf Hu) as (head & index & -> & Hi1 & Hi2 & Hj & Hb).
  destruct (IH (pre ++ (head ++ index) ++ [l]) rest first) as (head' & ps & -> & Hu' & Ho & Hfind).
  { rewrite length_app in Hn. cbn in Hn. lia. }
  { rewrite length_app. lia. }
  apply untimed_app in Hu as [Hu1 Hu2].
  exists head, (mkPiece index l head' [] :: ps). unfold row. cbn [fmap list_fmap concat]. fold (row ps).
  unfold flat, shown. cbn [p_index p_timing p_text p_gap]. rewrite app_nil_r. split_and!.
  - by rewrite <- !app_assoc.
  - done.
  - repeat split; done.
  - rewrite find_blocks_skip by (by apply untimed_app). cbn [find_blocks]. rewrite Hl. cbn [fmap list_fmap open_of]. rewrite Hb.
    cbn [p_index]. rewrite length_app. f_equal; [f_equal; lia|].
    replace (pre ++ (head ++ index) ++ l :: head' ++ row ps) with ((pre ++ (head ++ index) ++ [l]) ++ head' ++ row ps)
      by (by rewrite <- !app_assoc).
    replace (S (length pre + (length head + length index))) with (length (pre ++ (head ++ index) ++ [l]))
      by (rewrite !length_app; cbn; lia).
    rewrite Hfind. f_equal. unfold flat, shown. cbn [p_index p_timing p_text p_gap]. rewrite !length_app. cbn. lia.
Qed.

(** The second loop divides the lines after a timing line into text and gap. *)
Definition divided (vtt : bool) (text_ gap : list text) : Prop :=
  if vtt then Forall (fun l => blank l = false) text_ /\ match gap with [] => True | l :: _ => blank l = true end
  else Forall (fun l => blank l = true) gap /\ (text_ = [] \/ exists a l, text_ = a ++ [l] /\ blank l = false).

Lemma text_end_spec vtt rest : forall e line, (vtt = true -> e = line) ->
  exists text_ gap, rest = text_ ++ gap /\ divided vtt text_ gap
    /\ text_end vtt e line rest = match text_ with [] => e | _ => line + length text_ end.
Proof.
  induction rest as [|l rest IH]; intros e line He.
  { exists [], []. split_and!; [done| |done]. destruct vtt; cbn; [by split|]. split; [constructor|by left]. }
  cbn [text_end]. destruct (blank l) eqn:El.
  - destruct vtt.
    + exists [], (l :: rest). split_and!; [done|done|done].
    + destruct (IH e (S line) ltac:(done)) as (x & gap & -> & [Hg Hx] & ->).
      destruct x as [|y x].
      * exists [], (l :: gap). split_and!; [done| |done]. split; [by constructor|by left].
      * exists (l :: y :: x), gap. split_and!; [done| |cbn; lia]. split; [done|right].
        destruct Hx as [?|(a & z & -> & Hz)]; [done|]. by exists (l :: a), z.
  - destruct (IH (S line) (S line) ltac:(done)) as (x & gap & -> & Hd & ->).
    exists (l :: x), gap. split_and!; [done| |destruct x; cbn; lia].
    destruct vtt; cbn in *.
    + destruct Hd. split; [by constructor|done].
    + destruct Hd as [Hg Hx]. split; [done|right]. destruct Hx as [->|(a & z & -> & Hz)]; [by exists [], l|by exists (l :: a), z].
Qed.

Lemma cut_lines_app a b c i j : i = length a -> j = i + length b -> cut_lines (a ++ b ++ c) i j = b.
Proof.
  intros -> ->. unfold cut_lines. rewrite drop_app_length. replace (length a + length b - length a) with (length b) by lia.
  apply take_app_length.
Qed.

Lemma divided_apart vtt text_ gap q : divided vtt text_ gap -> joined vtt (text_ ++ gap) (p_index q) ->
  forall p, p_text p = text_ -> p_gap p = gap -> apart vtt p q.
Proof.
  intros Hd Hj p Hx Hg. unfold apart, joined, divided in *. rewrite Hx, Hg. destruct vtt.
  - intros Hq E. destruct (Hj Hq) as (a & l & Ha & Hl). rewrite E, app_nil_r in Ha.
    destruct Hd as [Hd _]. rewrite Ha in Hd. apply Forall_app in Hd as [_ Hd]. inversion Hd; subst. congruence.
  - intros Hq. destruct gap as [|g gap]; [|by right]. left. rewrite app_nil_r in Hj. destruct (Hj Hq) as [?|(a & l & Ha & Hl)]; [done|].
    destruct Hd as [_ [?|(a' & l' & Ha' & Hl')]]; [done|]. rewrite Ha' in Ha. apply app_inj_tail in Ha as [_ ->]. congruence.
Qed.

Lemma close_row vtt ps : forall pre head, open_row vtt head ps ->
  exists ps', row ps' = row ps /\ row_ok vtt ps' /\ length ps' = length ps
    /\ match ps', ps with p' :: _, p :: _ => p_index p' = p_index p | [], [] => True | _, _ => False end
    /\ close_blocks vtt (pre ++ row ps) (open_of (length pre) ps) = blocks_of (length pre) ps'.
Proof.
  induction ps as [|p ps IH]; intros pre head Ho.
  { exists []. done. }
  destruct Ho as (_ & [Ht Hi Hx Hg] & Ho).
  destruct (IH (pre ++ flat p) (p_text p) Ho) as (ps' & Hrow & Hok & Hlen & Hhead & Hclose).
  destruct (text_end_spec vtt (p_text p) (S (length pre + length (p_index p))) (S (length pre + length (p_index p))) ltac:(done))
    as (text_ & gap & Hsplit & Hd & Hend).
  set (p' := mkPiece (p_index p) (p_timing p) text_ gap).
  assert (flat p' = flat p) as Hflat.
  { unfold flat, shown. cbn. rewrite Hg, app_nil_r, Hsplit, <- app_assoc. done. }
  unfold untimed in Hx. rewrite Hsplit in Hx. apply Forall_app in Hx as [Hx1 Hx2].
  exists (p' :: ps'). cbn [row_ok length]. split_and!.
  - unfold row in *. cbn [fmap list_fmap concat]. by rewrite Hflat, Hrow.
  - split; [done|done|done|done|]. unfold divided in Hd. destruct vtt; [done|apply Hd].
  - destruct ps' as [|q' ps']; [done|]. destruct ps as [|q ps]; [done|]. destruct Ho as (Hj & _ & _).
    rewrite Hsplit, <- Hhead in Hj. by apply (divided_apart vtt text_ gap).
  - done.
  - by rewrite Hlen.
  - done.
  - cbn [open_of close_blocks blocks_of]. cbn [b_timing b_start].
    assert (pre ++ row (p :: ps) = (pre ++ flat p) ++ row ps) as Hlines.
    { unfold row. cbn [fmap list_fmap concat]. by rewrite app_assoc. }
    assert (match open_of (length pre + length (flat p)) ps with next :: _ => b_start next | [] => length (pre ++ row (p :: ps)) end
            = length (pre ++ flat p)) as ->.
    { destruct ps; cbn [open_of b_start]; [|by rewrite length_app]. unfold row. cbn [fmap list_fmap concat]. by rewrite app_nil_r. }
    assert (cut_lines (pre ++ row (p :: ps)) (S (length pre + length (p_index p))) (length (pre ++ flat p)) = p_text p) as ->.
    { replace (pre ++ row (p :: ps)) with ((pre ++ p_index p ++ [p_timing p]) ++ p_text p ++ row ps).
      - apply cut_lines_app; [rewrite !length_app; cbn; lia|]. unfold flat, shown. rewrite Hg, !length_app. cbn. lia.
      - unfold row. cbn [fmap list_fmap concat]. unfold flat at 2, shown. rewrite Hg, app_nil_r. rewrite <- !app_assoc. cbn. done. }
    rewrite Hend, Hlines, <- (length_app pre (flat p)), Hclose, Hflat, <- (length_app pre (flat p)). f_equal.
    subst p'. cbn [p_index p_text]. f_equal. destruct text_; cbn [length]; lia.
Qed.

Lemma after_header_le lines : forall i, after_header lines i <= i + length lines.
Proof.
  induction lines as [|l ls IH]; intros i; cbn; [lia|]. specialize (IH (S i)). destruct (fields l); [lia|].
  destruct (bool_decide _); lia.
Qed.

Lemma first_line_le vtt lines : first_line vtt lines <= length lines.
Proof. unfold first_line. destruct vtt; [|lia]. apply (after_header_le lines 0). Qed.

(** The blocks the program finds cut the lines into a prefix and such a row. *)
Lemma cueBlocks_row lines vtt :
  exists prefix ps, lines = prefix ++ row ps /\ row_ok vtt ps
    /\ first_line vtt lines <= length prefix /\ untimed vtt (drop (first_line vtt lines) prefix)
    /\ (cueBlocks lines vtt).1 = blocks_of (length prefix) ps.
Proof.
  set (first := first_line vtt lines).
  assert (first <= length lines) as Hle by apply first_line_le.
  destruct (find_blocks_row vtt _ (take first lines) (drop first lines) first (le_n _)) as (head & ps & Hsuf & Hu & Ho & Hf).
  { rewrite length_take. lia. }
  assert (length (take first lines) = first) as Hlen by (rewrite length_take; lia).
  rewrite take_drop, Hlen in Hf.
  destruct (close_row vtt ps (take first lines ++ head) head Ho) as (ps' & Hrow & Hok & _ & _ & Hclose).
  assert (lines = (take first lines ++ head) ++ row ps) as Hl by (by rewrite <- app_assoc, <- Hsuf, take_drop).
  exists (take first lines ++ head), ps'. rewrite length_app, Hlen. split_and!.
  - by rewrite Hrow.
  - done.
  - lia.
  - by rewrite drop_app_length'.
  - unfold cueBlocks. cbn [fst]. fold first. rewrite length_app, Hlen in Hclose. rewrite Hf, <- Hclose. by rewrite <- Hl.
Qed.

(** ** Edited lines *)

Lemma blank_spec l : blank l = true <-> Forall (fun r => is_space r = true) l.
Proof.
  unfold blank, trim_space, trim, trim_right. rewrite bool_decide_eq_true, <- (trim_left_nil is_space l). split.
  - intros E. destruct (trim_left is_space l) as [|r s] eqn:El; [done|]. exfalso.
    assert (trim_left is_space (rev (r :: s)) = []) as Hn%trim_left_nil.
    { rewrite <- (rev_involutive (trim_left _ _)), E. done. }
    cbn in Hn. apply Forall_app in Hn as [_ Hr]. inversion Hr as [|? ? Hr' _]; subst.
    assert (is_space r = false); [|congruence].
    clear -El. revert El. induction l as [|x l IH]; cbn; [done|]. destruct (is_space x) eqn:Ex; [done|]. by intros [= -> ->].
  - by intros ->.
Qed.

Lemma arrow_not_space : Forall (fun r => is_space r = false) (t "-->").
Proof. by repeat constructor. Qed.

Lemma contains_arrow_trim l : contains (t "-->") (trim_space l) = contains (t "-->") l.
Proof. apply trim_contains; [done|apply arrow_not_space]. Qed.

Lemma timing_arrow vtt l : isTimingLine vtt l = true -> contains (t "-->") l = true.
Proof. unfold isTimingLine. rewrite contains_arrow_trim. by destruct (_ && _). Qed.

Lemma timing_not_blank vtt l : isTimingLine vtt l = true -> blank l = false.
Proof.
  intros Ha%timing_arrow. apply not_true_iff_false. intros Hb%blank_spec. apply contains_spec in Ha as (a & b & ->).
  apply Forall_app in Hb as [_ Hb]. apply Forall_app in Hb as [Hb _]. by inversion Hb.
Qed.

(** A prefix without an arrow is decided before the arrow. *)
Lemma has_prefix_arrow p w x : contains (t "-->") p = false -> contains (t "-->") w = true ->
  has_prefix p (w ++ x) = has_prefix p w.
Proof.
  intros Hp Hw. apply eq_true_iff_eq. rewrite !has_prefix_spec. split.
  - intros [s E]. apply app_eq_app in E as [k [[-> _]|[-> _]]]; [by exists k|]. exfalso.
    apply contains_spec in Hw as (a & b & ->). apply not_true_iff_false in Hp. apply Hp, contains_spec.
    exists a, (b ++ k). by rewrite <- !app_assoc.
  - intros [s ->]. exists (s ++ x). by rewrite <- app_assoc.
Qed.

Lemma trim_left_app f l c : trim_left f l <> [] -> trim_left f (l ++ c) = trim_left f l ++ c.
Proof. induction l as [|r l IH]; cbn; [done|]. destruct (f r); [done|done]. Qed.

Definition closing (n : nat) : text := repeat_text n (t "</i>").

Lemma closing_shape n : n = 0 /\ closing n = [] \/ exists c, closing n = 60%N :: c.
Proof. destruct n; [by left|right]. cbn. by eexists. Qed.

Lemma closing_no_dash n : Forall (fun r => r <> 45%N) (closing n).
Proof. unfold closing. induction n as [|n IH]; [constructor|]. cbn [repeat_text]. apply Forall_app. split; [by repeat constructor|done]. Qed.

Lemma closing_arrow l n : contains (t "-->") (l ++ closing n) = contains (t "-->") l.
Proof.
  apply eq_true_iff_eq. rewrite !contains_spec. split.
  - intros (a & b & E).
    assert ((l ++ closing n) !! (length a + 1) = Some 45%N) as H1.
    { rewrite E, lookup_app_r by lia. replace (length a + 1 - length a) with 1 by lia. done. }
    assert ((l ++ closing n) !! (length a + 2) = Some 62%N) as H2.
    { rewrite E, lookup_app_r by lia. replace (length a + 2 - length a) with 2 by lia. done. }
    assert (length a + 1 < length l) as Hl1.
    { destruct (Nat.lt_ge_cases (length a + 1) (length l)) as [?|Hge]; [done|]. rewrite lookup_app_r in H1 by done.
      by eapply Forall_lookup_1 in H1; [|apply closing_no_dash]. }
    assert (length a + 2 < length l) as Hl2.
    { destruct (Nat.lt_ge_cases (length a + 2) (length l)) as [?|Hge]; [done|]. rewrite lookup_app_r in H2 by done.
      replace (length a + 2 - length l) with 0 in H2 by lia. destruct (closing_shape n) as [[_ Hc]|[c Hc]]; by rewrite Hc in H2. }
    exists a, (take (length l - length a - 3) b).
    assert (l = take (length l) (l ++ closing n)) as -> by (by rewrite take_app_length).
    rewrite E, length_take. rewrite Nat.min_l by (rewrite <- E, length_app; lia).
    rewrite take_app_ge by lia. f_equal. rewrite take_app_ge by (cbn [length t]; cbn; lia). done.
  - intros (a & b & ->). exists a, (b ++ closing n). by rewrite <- !app_assoc.
Qed.

Lemma timing_prefix p l : contains (t "-->") p = false -> contains (t "-->") l = true ->
  has_prefix p (trim_space l) = has_prefix p (trim_left is_space l).
Proof.
  intros Hp Hl. unfold trim_space, trim. destruct (trim_right_split is_space (trim_left is_space l)) as [b E].
  rewrite E at 2. symmetry. apply has_prefix_arrow; [done|].
  change (contains (t "-->") (trim_space l) = true). by rewrite contains_arrow_trim.
Qed.

(** Closing tags appended to a line do not change what kind of line it is. *)
Lemma timing_closing vtt l n : isTimingLine vtt (l ++ closing n) = isTimingLine vtt l.
Proof.
  unfold isTimingLine. rewrite !contains_arrow_trim, closing_arrow.
  destruct (contains (t "-->") l) eqn:Hl; [|by repeat destruct (_ && _)].
  assert (trim_left is_space l <> []) as Hne.
  { intros Hn. assert (contains (t "-->") (trim_left is_space l) = true) as Hc.
    { by rewrite trim_left_contains by (done || apply arrow_not_space). }
    by rewrite Hn in Hc. }
  assert (forall p, contains (t "-->") p = false ->
            has_prefix p (trim_space (l ++ closing n)) = has_prefix p (trim_space l)) as Hpre.
  { intros p Hp. rewrite !timing_prefix by (done || by rewrite closing_arrow). rewrite trim_left_app by done.
    apply has_prefix_arrow; [done|]. by rewrite trim_left_contains by (done || apply arrow_not_space). }
  by rewrite !Hpre.
Qed.

Lemma blank_closing l n : blank l = false -> blank (l ++ closing n) = false.
Proof. rewrite <- !not_true_iff_false, !blank_spec, Forall_app. tauto. Qed.

Definition clock_rune (r : rune) : Prop := ascii_digit r = true \/ r = 45%N.

Lemma pad_left_head w n : (0 <= n)%Z -> exists r s, pad_left w (itoa n) = r :: s /\ clock_rune r.
Proof.
  intros Hn. unfold pad_left. destruct (w - length (itoa n)); cbn [replicate app]; [|by eexists _, _; split; [done|by left]].
  pose proof (itoa_digits n Hn) as Hd. pose proof (itoa_nonempty n Hn) as Hne. destruct (itoa n) as [|r s]; [done|]. inversion Hd; subst. eexists _, _. split; [done|by left].
Qed.

Lemma padded_head w n : exists r s, padded w n = r :: s /\ clock_rune r.
Proof.
  unfold padded. destruct (Z.ltb_spec n 0); [|by apply pad_left_head]. cbn. eexists _, _. split; [done|by right].
Qed.

Lemma clock_head value sep hours : exists r s, formatClock value sep hours = r :: s /\ clock_rune r.
Proof.
  unfold formatClock. set (h := Z.quot (milliseconds value) 3600000). set (m := Z.rem (Z.quot (milliseconds value) 60000) 60).
  destruct hours.
  - destruct (padded_head 2 h) as (r & s & E & Hr). rewrite E. by eexists _, _.
  - destruct (padded_head 2 m) as (r & s & E & Hr). rewrite E. by eexists _, _.
Qed.

Lemma clock_rune_not_space r : clock_rune r -> is_space r = false.
Proof.
  intros [Hd| ->]; [|done]. unfold ascii_digit, between in Hd. apply andb_true_iff in Hd as [H1%N.leb_le H2%N.leb_le].
  unfold is_space, with_ascii. rewrite (proj2 (N.ltb_lt _ _)) by lia. unfold ascii_space, between.
  rewrite (proj2 (N.leb_gt r 13)) by lia. rewrite andb_false_r. apply N.eqb_neq. lia.
Qed.

(** A retimed line is a timing line again. *)
Lemma retimed_timing vtt line start end_ line' :
  retimed_line line start end_ = Some line' -> isTimingLine vtt line' = true.
Proof.
  unfold retimed_line. destruct (find timingFields line) as [m|] eqn:E; [|done]. cbn.
  destruct (find_captures timingFields line m 6 E eq_refl) as (a & b & r & Ha & Hd).
  assert (contains (t "-->") (group_or_empty line m 6) = true) as Harrow.
  { cbn in Ha. repeat (apply elem_of_cons in Ha as [Ha|Ha]; [try discriminate Ha|]); [|by apply elem_of_nil in Ha].
    injection Ha as ->. apply denotes_cat in Hd as (u & v & -> & _ & Hd). apply denotes_cat in Hd as (w & x & -> & Hw & _).
    apply (denotes_lit (t "-->")) in Hw as ->. apply contains_spec. by eexists u, x. }
  set (hours := _ || _). intros [= <-].
  destruct (clock_head start (group_or_empty line m 4) hours) as (x & s & -> & Hx).
  set (line' := (x :: s) ++ _).
  assert (contains (t "-->") line' = true) as Hl.
  { apply contains_spec in Harrow as (y & z & Harrow). subst line'. rewrite Harrow. apply contains_spec.
    eexists ((x :: s) ++ y), (z ++ _). by rewrite <- !app_assoc. }
  unfold isTimingLine. rewrite contains_arrow_trim, Hl. rewrite !timing_prefix by done.
  assert (trim_left is_space line' = line') as -> by (subst line'; cbn; by rewrite clock_rune_not_space).
  assert (forall c p, c = 78%N \/ c = 82%N \/ c = 83%N -> has_prefix (c :: p) line' = false) as Hpre.
  { intros c p Hc. subst line'. cbn [app has_prefix]. rewrite (proj2 (N.eqb_neq c x)); [done|]. intros ->.
    destruct Hx as [Hx|Hx]; destruct Hc as [Hc|[Hc|Hc]]; rewrite Hc in Hx; done. }
  change (t "NOTE ") with (78%N :: t "OTE "). change (t "Region: ") with (82%N :: t "egion: ").
  change (t "STYLE") with (83%N :: t "TYLE"). rewrite !Hpre by auto. by rewrite andb_false_r.
Qed.

(** ** The edited record *)

(** [record[len(record)-1] += tail]. *)
Definition append_last (record : list text) (tail_ : text) : list text :=
  <[length record - 1 := line_at record (length record - 1) ++ tail_]> record.

(** The cue as it is shown after the edits: its timing line retimed when asked
    for, and closing tags after its last line. *)
Definition edited (closeItalics : bool) (cue : Cue) (body body' : list text) : Prop :=
  exists line n, (if CRetime cue then retimed_line (line_at body 0) (CStart cue) (CEnd cue) = Some line else line = line_at body 0)
    /\ (closeItalics = false -> n = 0) /\ body' = append_last (line :: tail body) (closing n).

Lemma append_last_snoc a x c : append_last (a ++ [x]) c = a ++ [x ++ c].
Proof.
  unfold append_last. rewrite length_app. cbn [length]. replace (length a + 1 - 1) with (length a + 0) by lia.
  rewrite (line_at_app a x []) by lia. by rewrite insert_app_r.
Qed.

Lemma append_last_app a b c : b <> [] -> append_last (a ++ b) c = a ++ append_last b c.
Proof.
  destruct b as [|x b _] using rev_ind; [done|]. intros _. by rewrite app_assoc, !append_last_snoc, <- app_assoc.
Qed.

Lemma append_last_nil a : a <> [] -> append_last a [] = a.
Proof. destruct a as [|x a _] using rev_ind; [done|]. intros _. by rewrite append_last_snoc, app_nil_r. Qed.

Definition readable_lines (lines : list text) : Prop := Forall (fun l => blank l = false) lines.

Lemma edited_shape vtt closeItalics cue line vis body' :
  isTimingLine vtt line = true -> untimed vtt vis -> readable_lines vis -> edited closeItalics cue (line :: vis) body' ->
  exists line' vis', body' = line' :: vis' /\ isTimingLine vtt line' = true /\ untimed vtt vis' /\ readable_lines vis'.
Proof.
  intros Hl Hu Hv (line1 & n & Hline & _ & ->). cbn [tail].
  assert (isTimingLine vtt line1 = true) as Hl1.
  { destruct (CRetime cue); [by eapply retimed_timing|by subst]. }
  destruct vis as [|x vis _] using rev_ind.
  - exists (line1 ++ closing n), []. rewrite timing_closing. split_and!; [apply (append_last_snoc [])|done|constructor|constructor].
  - rewrite app_comm_cons, append_last_snoc. exists line1, (vis ++ [x ++ closing n]).
    apply Forall_app in Hu as [Hu Hx]. apply Forall_app in Hv as [Hv Hx']. inversion Hx; subst. inversion Hx'; subst.
    split_and!; [done|done|apply Forall_app; split; [done|]; constructor; [by rewrite timing_closing|constructor]|].
    apply Forall_app; split; [done|]. constructor; [by apply blank_closing|constructor].
Qed.

Lemma itoa_index n : (0 <= n)%Z -> isTimingLine false (itoa n) = false /\ blank (itoa n) = false.
Proof.
  intros Hn. pose proof (itoa_digits n Hn) as Hd. pose proof (itoa_nonempty n Hn) as Hne. split.
  - unfold isTimingLine. cbn [andb]. rewrite contains_arrow_trim. apply not_true_iff_false. intros (a & b & E)%contains_spec.
    rewrite E in Hd. apply Forall_app in Hd as [_ Hd]. by inversion Hd.
  - apply not_true_iff_false. intros Hb%blank_spec. destruct (itoa n) as [|r s]; [done|]. inversion Hb; subst. inversion Hd; subst.
    assert (is_space r = false) by (apply clock_rune_not_space; by left). congruence.
Qed.

(** A moved record: an index of the same kind, then the cue edited. *)
Lemma moved_record_spec vtt srt closeItalics lines blocks cues i k p o record :
  (srt = true -> vtt = false) -> piece_ok vtt p ->
  block_at blocks k = mkBlock o (o + length (p_index p)) (S (o + length (p_index p)) + length (p_text p)) ->
  cueLines lines (block_at blocks k) = p_index p ++ body_of p ->
  moved_record srt closeItalics lines blocks cues i k = Ok record ->
  exists index body', record = index ++ body' /\ edited closeItalics (cue_at cues k) (body_of p) body'
    /\ untimed vtt index /\ length index <= 1 /\ readable_lines index.
Proof.
  intros Hsrt Hp Hb Hlines. unfold moved_record. rewrite Hlines, Hb. cbn [b_timing b_start].
  replace (o + length (p_index p) - o) with (length (p_index p)) by lia.
  intros (record1 & Hr1 & Hr)%rbind_ok. injection Hr as <-.
  assert (exists line, record1 = p_index p ++ line :: visible (p_text p)
            /\ (if CRetime (cue_at cues k) then retimed_line (line_at (body_of p) 0) (CStart (cue_at cues k)) (CEnd (cue_at cues k)) = Some line
                else line = line_at (body_of p) 0)) as (line & -> & Hline).
  { unfold body_of in *. destruct (CRetime _).
    - unfold retimeBlock in Hr1. rewrite line_at_app in Hr1 by done. destruct (retimed_line _ _ _) as [line|] eqn:E; [|done].
      injection Hr1 as <-. exists line. split; [|done]. rewrite <- (Nat.add_0_r (length (p_index p))), insert_app_r. done.
    - injection Hr1 as <-. by exists (p_timing p). }
  set (n := count (t "<i>") (to_lower (join [newline] (p_index p ++ line :: visible (p_text p))))
            - count (t "</i>") (to_lower (join [newline] (p_index p ++ line :: visible (p_text p))))).
  assert ((if closeItalics then close_italics (p_index p ++ line :: visible (p_text p)) else p_index p ++ line :: visible (p_text p))
          = p_index p ++ append_last (line :: visible (p_text p)) (closing (if closeItalics then n else 0))) as ->.
  { destruct closeItalics; [|by rewrite append_last_nil].
    change (append_last (p_index p ++ line :: visible (p_text p)) (closing n) = p_index p ++ append_last (line :: visible (p_text p)) (closing n)).
    by rewrite append_last_app. }
  set (body' := append_last _ _).
  assert (edited closeItalics (cue_at cues k) (body_of p) body') as He.
  { exists line, (if closeItalics then n else 0). split_and!; [done|by intros ->|done]. }
  destruct (ok_index _ _ Hp) as (Hi1 & Hi2 & Hi3).
  destruct srt; cbn [andb]; [|by exists (p_index p), body'].
  destruct (Nat.ltb_spec o (o + length (p_index p))); [|by exists (p_index p), body'].
  destruct (p_index p) as [|x [|y index]] eqn:Ei; [cbn in *; lia| |cbn in *; lia].
  rewrite (Hsrt eq_refl). destruct (itoa_index (Z.of_nat (S i)) ltac:(lia)) as [H1 H2].
  exists [itoa (Z.of_nat (S i))], body'. split_and!; [done|done|by constructor|done|by constructor].
Qed.

(** ** Where the pieces lie *)

Lemma row_app a b : row (a ++ b) = row a ++ row b.
Proof. unfold row. by rewrite fmap_app, concat_app. Qed.

Lemma row_cons p ps : row (p :: ps) = flat p ++ row ps.
Proof. done. Qed.

Lemma block_at_row pre a p c :
  block_at (blocks_of (length pre) (a ++ p :: c)) (length a)
  = mkBlock (length (pre ++ row a)) (length (pre ++ row a) + length (p_index p))
      (S (length (pre ++ row a) + length (p_index p)) + length (p_text p)).
Proof.
  revert pre. induction a as [|x a IH]; intros pre; cbn [app length blocks_of].
  - unfold block_at. cbn [lookup list_lookup]. unfold row. cbn. by rewrite app_nil_r.
  - specialize (IH (pre ++ flat x)). rewrite length_app in IH. unfold block_at in *. cbn [lookup list_lookup].
    etransitivity; [exact IH|]. by rewrite row_cons, <- app_assoc.
Qed.

Lemma piece_lines vtt pre a p c : piece_ok vtt p ->
  cueLines (pre ++ row (a ++ p :: c)) (block_at (blocks_of (length pre) (a ++ p :: c)) (length a)) = p_index p ++ body_of p.
Proof.
  intros Hp. rewrite block_at_row. unfold cueLines. cbn [b_start b_end].
  assert (pre ++ row (a ++ p :: c) = (pre ++ row a) ++ shown p ++ p_gap p ++ row c) as ->.
  { rewrite row_app, row_cons. unfold flat. by rewrite <- !app_assoc. }
  rewrite cut_lines_app; [|done|unfold shown; rewrite !length_app; cbn; lia].
  unfold shown, body_of. destruct (ok_index _ _ Hp) as (_ & _ & Hi).
  change (visible (p_index p ++ p_timing p :: p_text p) = p_index p ++ p_timing p :: visible (p_text p)).
  rewrite visible_app, (visible_all _ Hi). f_equal. unfold visible. rewrite filter_cons_True; [done|].
  by eapply timing_not_blank, ok_timing.
Qed.

Lemma gap_of_row pre a p q c :
  gap_before (pre ++ row (a ++ p :: q :: c)) (blocks_of (length pre) (a ++ p :: q :: c)) (S (length a))
  = match p_gap p with [] => [[]] | gap => gap end.
Proof.
  unfold gap_before. rewrite block_at_row. cbn [b_end].
  assert (block_at (blocks_of (length pre) (a ++ p :: q :: c)) (S (length a))
          = mkBlock (length (pre ++ row (a ++ [p]))) (length (pre ++ row (a ++ [p])) + length (p_index q))
              (S (length (pre ++ row (a ++ [p])) + length (p_index q)) + length (p_text q))) as ->.
  { rewrite <- (block_at_row pre (a ++ [p]) q c). rewrite <- app_assoc. f_equal. rewrite length_app. cbn. lia. }
  cbn [b_start].
  assert (pre ++ row (a ++ p :: q :: c) = (pre ++ row a ++ shown p) ++ p_gap p ++ row (q :: c)) as ->.
  { rewrite row_app, row_cons. unfold flat. by rewrite <- !app_assoc. }
  rewrite cut_lines_app; [done| |].
  - unfold shown. rewrite !length_app. cbn. lia.
  - rewrite row_app. unfold row at 2, flat, shown. cbn. rewrite app_nil_r, !length_app. cbn. lia.
Qed.

Lemma rest_of_row pre a p :
  drop (b_end (block_at (blocks_of (length pre) (a ++ [p])) (length a))) (pre ++ row (a ++ [p])) = p_gap p.
Proof.
  rewrite block_at_row. cbn [b_end].
  assert (pre ++ row (a ++ [p]) = (pre ++ row a ++ shown p) ++ p_gap p) as ->.
  { rewrite row_app. unfold row at 2, flat. cbn. by rewrite app_nil_r, <- !app_assoc. }
  apply drop_app_length'. unfold shown. rewrite !length_app. cbn. lia.
Qed.

Lemma blocks_of_length from ps : length (blocks_of from ps) = length ps.
Proof. revert from. induction ps as [|p ps IH]; intros from; cbn; [done|by rewrite IH]. Qed.

(** ** Reading the repaired lines *)

Lemma row_ok_lookup vtt ps k p : row_ok vtt ps -> ps !! k = Some p -> piece_ok vtt p.
Proof.
  revert k. induction ps as [|q ps IH]; intros k; [done|]. intros (Hq & _ & Hr). destruct k; [by intros [= ->]|by apply IH].
Qed.

Definition gap_ok (vtt : bool) (gap : list text) : Prop :=
  untimed vtt gap /\ if vtt then match gap with [] => True | l :: _ => blank l = true end else Forall (fun l => blank l = true) gap.

Lemma empty_gap_ok vtt : gap_ok vtt [[]].
Proof. split; [constructor; [by destruct vtt|constructor]|]. destruct vtt; [done|]. by constructor. Qed.

Lemma piece_gap_ok vtt p : piece_ok vtt p -> gap_ok vtt (p_gap p).
Proof. intros [_ _ _ Hg He]. split; [done|]. destruct vtt; [apply He|done]. Qed.

Lemma gap_before_ok vtt pre ps j : row_ok vtt ps -> S j < length ps ->
  let gap := gap_before (pre ++ row ps) (blocks_of (length pre) ps) (S j) in gap <> [] /\ gap_ok vtt gap.
Proof.
  intros Hr Hj. destruct (lookup_lt_is_Some_2 ps j ltac:(lia)) as [p Hp]. destruct (lookup_lt_is_Some_2 ps (S j) Hj) as [q Hq].
  assert (exists a c, ps = a ++ p :: q :: c /\ length a = j) as (a & c & -> & Ha).
  { exists (take j ps), (drop (S (S j)) ps). rewrite length_take. split; [|lia].
    rewrite <- (take_drop_middle ps j p Hp) at 1. f_equal. f_equal.
    rewrite <- (take_drop_middle (drop (S j) ps) 0 q) by (rewrite lookup_drop, Nat.add_0_r; done).
    rewrite drop_drop. rewrite take_0. cbn [app]. f_equal. f_equal. lia. }
  subst j. cbv zeta. rewrite gap_of_row. pose proof (piece_gap_ok vtt p (row_ok_lookup _ _ _ _ Hr Hp)) as Hg.
  destruct (p_gap p); [split; [done|apply empty_gap_ok]|done].
Qed.

(** A record that moved, with the lines that follow it, is a piece. *)
Lemma edited_piece vtt closeItalics cue p index body' gap :
  piece_ok vtt p -> untimed vtt index -> length index <= 1 -> readable_lines index ->
  edited closeItalics cue (body_of p) body' -> gap_ok vtt gap ->
  exists p', index ++ body' ++ gap = flat p' /\ piece_ok vtt p' /\ p_gap p' = gap /\ body_of p' = body'.
Proof.
  intros Hp Hi1 Hi2 Hi3 He [Hg1 Hg2].
  assert (untimed vtt (visible (p_text p)) /\ readable_lines (visible (p_text p))) as [Hu Hv].
  { split; apply Forall_forall; intros l [Hl Hin]%list_elem_of_filter; [|done].
    pose proof (ok_text _ _ Hp) as Ht. unfold untimed in Ht. rewrite Forall_forall in Ht. by apply Ht. }
  destruct (edited_shape vtt _ _ _ _ _ (ok_timing _ _ Hp) Hu Hv He) as (line & vis & -> & Hl & Hu' & Hv').
  exists (mkPiece index line vis gap). unfold flat, shown, body_of. cbn [p_index p_timing p_text p_gap]. split_and!.
  - by rewrite <- app_assoc.
  - split; cbn; [done|done|done|done|]. destruct vtt; done.
  - done.
  - by rewrite (visible_all _ Hv').
Qed.

Section moved.
Context (vtt srt closeItalics : bool) (pre : list text) (ps : list piece) (cues : list Cue).
Context (Hsrt : srt = true -> vtt = false) (Hrow : row_ok vtt ps).
Let lines := pre ++ row ps.
Let blocks := blocks_of (length pre) ps.
Let rest := drop (b_end (block_at blocks (length ps - 1))) lines.

Lemma rest_gap_ok : ps <> [] -> gap_ok vtt rest.
Proof using Hrow.
  destruct ps as [|p a _] eqn:E using rev_ind; [done|]. intros _. subst rest lines blocks.
  rewrite length_app. cbn [length]. replace (length a + 1 - 1) with (length a) by lia. rewrite rest_of_row.
  eapply piece_gap_ok, (row_ok_lookup _ _ (length a)); [done|]. by rewrite list_lookup_middle.
Qed.

Definition moved_to (k : nat) (p' : piece) : Prop :=
  exists p, ps !! k = Some p /\ edited closeItalics (cue_at cues k) (body_of p) (body_of p').

Lemma reordered_row order : forall i body,
  order <> [] -> i + length order <= length ps -> Forall (fun k => k < length ps) order ->
  reordered srt closeItalics lines blocks cues i order = Ok body ->
  exists ps', body ++ rest = gap_before lines blocks i ++ row ps' /\ row_ok vtt ps' /\ Forall2 moved_to order ps'.
Proof using Hsrt Hrow.
  induction order as [|k order IH]; intros i body Hne Hi Hk; [done|]. cbn [reordered].
  intros (record & Hrec & (body' & Hbody & [= <-])%rbind_ok)%rbind_ok. inversion Hk as [|? ? Hk1 Hk2]; subst.
  destruct (lookup_lt_is_Some_2 ps k Hk1) as [p Hp].
  assert (piece_ok vtt p) as Hpok by by eapply row_ok_lookup.
  assert (exists a c, ps = a ++ p :: c /\ length a = k) as (a & c & Hps & Ha).
  { exists (take k ps), (drop (S k) ps). rewrite length_take, take_drop_middle by done. split; [done|lia]. }
  destruct (moved_record_spec vtt srt closeItalics lines blocks cues i k p (length (pre ++ row a)) record) as
    (index & shown' & -> & He & Hi1 & Hi2 & Hi3); [done|done| | |done|].
  { subst blocks. rewrite Hps, <- Ha. apply block_at_row. }
  { subst lines blocks. rewrite Hps, <- Ha. by apply (piece_lines vtt). }
  destruct order as [|k' order].
  - injection Hbody as <-.
    destruct (edited_piece vtt closeItalics _ p index shown' rest Hpok Hi1 Hi2 Hi3 He) as (p' & Hflat & Hok & Hgap & Hb).
    { apply rest_gap_ok. intros E. by rewrite E in Hk1; cbn in Hk1; lia. }
    exists [p']. rewrite row_cons, <- Hflat. unfold row. cbn. rewrite !app_nil_r, <- !app_assoc. split_and!; [done|done|done|done|].
    constructor; [|constructor]. exists p. by rewrite Hb.
  - destruct (IH (S i) body' ltac:(done) ltac:(cbn in *; lia) Hk2 Hbody) as (ps' & Hrest & Hok' & Hmoved).
    destruct (gap_before_ok vtt pre ps i Hrow ltac:(cbn in *; lia)) as [Hgne Hgok].
    destruct (edited_piece vtt closeItalics _ p index shown' _ Hpok Hi1 Hi2 Hi3 He Hgok) as (p' & Hflat & Hok & Hgap & Hb).
    exists (p' :: ps'). rewrite row_cons, <- Hflat, <- !app_assoc, Hrest. split_and!; [done| |].
    + cbn [row_ok]. split_and!; [done| |done]. destruct ps' as [|q ps']; [done|].
      unfold apart. rewrite Hgap. destruct vtt; [done|by right].
    + constructor; [|done]. exists p. by rewrite Hb.
Qed.
End moved.

Lemma after_header_pos lines : forall i, after_header lines i = 0 \/ i < after_header lines i.
Proof.
  induction lines as [|l ls IH]; intros i; cbn; [by left|]. destruct (IH (S i)) as [E|E];
    destruct (fields l); [by left|destruct (bool_decide _); [right; lia|by left]|right; lia|destruct (bool_decide _); right; lia].
Qed.

Lemma after_header_prefix pre x y : forall i, after_header (pre ++ x) i <> 0 -> after_header (pre ++ x) i <= i + length pre ->
  after_header (pre ++ y) i = after_header (pre ++ x) i.
Proof.
  induction pre as [|l pre IH]; intros i Hne Hle; cbn in *.
  - destruct (after_header_pos x i); lia.
  - destruct (fields l); [apply IH; [done|lia]|]. destruct (bool_decide _); [done|]. apply IH; [done|lia].
Qed.

(** The reader takes a prefix without cues and a row of pieces apart. *)
Lemma read_row vtt pre ps : row_ok vtt ps -> first_line vtt (pre ++ row ps) <= length pre ->
  untimed vtt (drop (first_line vtt (pre ++ row ps)) pre) ->
  read_cues vtt (pre ++ row ps) = body_of <$> ps.
Proof.
  intros Hr Hf Hu. unfold read_cues. rewrite drop_app_le by done. rewrite split_untimed by done. cbn [snd]. by apply row_bodies.
Qed.

(** What the program takes for cues is what the reader takes for cues. *)
Lemma cueBlocks_read lines vtt :
  (fun b => line_at lines (b_timing b) :: visible (cut_lines lines (S (b_timing b)) (b_end b))) <$> (cueBlocks lines vtt).1
  = read_cues vtt lines.
Proof.
  destruct (cueBlocks_row lines vtt) as (pre & ps & -> & Hr & Hf & Hu & ->). rewrite read_row by done.
  apply list_eq. intros k. rewrite !list_lookup_fmap. destruct (ps !! k) as [p|] eqn:Ep.
  - assert (exists a c, ps = a ++ p :: c /\ length a = k) as (a & c & -> & <-).
    { exists (take k ps), (drop (S k) ps). rewrite take_drop_middle, length_take by done. apply lookup_lt_Some in Ep. split; [done|lia]. }
    pose proof (block_at_row pre a p c) as Hb. unfold block_at in Hb.
    destruct (blocks_of (length pre) (a ++ p :: c) !! length a) as [b|] eqn:Eb.
    + cbn in Hb |- *. subst b. cbn [b_timing b_end]. f_equal. unfold body_of.
      assert (pre ++ row (a ++ p :: c) = (pre ++ row a ++ p_index p) ++ p_timing p :: p_text p ++ p_gap p ++ row c) as ->.
      { rewrite row_app, row_cons. unfold flat, shown. by rewrite <- !app_assoc. }
      rewrite line_at_app by (rewrite !length_app; lia). f_equal. f_equal.
      change (p_timing p :: p_text p ++ p_gap p ++ row c) with ([p_timing p] ++ p_text p ++ p_gap p ++ row c).
      rewrite (app_assoc _ [_]). apply cut_lines_app; rewrite !length_app; cbn; lia.
    + apply lookup_ge_None in Eb. rewrite blocks_of_length, length_app in Eb. cbn in Eb. lia.
  - apply lookup_ge_None in Ep. rewrite (proj2 (lookup_ge_None _ _)); [done|]. by rewrite blocks_of_length.
Qed.

Lemma kept_bounds cues : Forall (fun k => k < length cues) (keptInStartOrder cues) /\ length (keptInStartOrder cues) <= length cues.
Proof.
  unfold keptInStartOrder. split.
  - apply Forall_forall. intros k Hk. rewrite stable_sort_perm in Hk. apply list_elem_of_filter in Hk as [_ Hk].
    apply elem_of_seq in Hk. lia.
  - rewrite stable_sort_length. etransitivity; [apply length_filter|]. by rewrite length_seq.
Qed.

Lemma kept_sorted cues :
  StronglySorted (fun i j => CStart (cue_at cues i) <= CStart (cue_at cues j))%Z (keptInStartOrder cues).
Proof.
  unfold keptInStartOrder. set (l := filter _ _). clearbody l.
  assert (StronglySorted (not_after (starts_before cues)) (stable_sort (starts_before cues) l)) as Hs
    by (apply stable_sort_sorted; unfold not_after, starts_before; intros; lia).
  induction Hs as [|k ks _ IH Hk]; constructor; [done|]. eapply Forall_impl; [exact Hk|].
  unfold not_after, starts_before. intros. lia.
Qed.

(** Position by position, the cue that a repaired text shows is the kept cue of
    that position, edited. *)
Definition shows (closeItalics : bool) (cues : list Cue) (bodies_ : list (list text)) (k : nat) (body' : list text) : Prop :=
  exists body, bodies_ !! k = Some body /\ edited closeItalics (cue_at cues k) body body'.

Lemma repaired_lines_read vtt srt closeItalics lines cues out :
  (srt = true -> vtt = false) -> (vtt = true -> first_line vtt lines <> 0) ->
  length (cueBlocks lines vtt).1 = length cues ->
  repaired_lines srt closeItalics lines (cueBlocks lines vtt).1 cues = Ok out ->
  Forall2 (shows closeItalics cues (read_cues vtt lines)) (keptInStartOrder cues) (read_cues vtt out).
Proof.
  intros Hsrt Hhead Hlen. destruct (cueBlocks_row lines vtt) as (pre & ps & -> & Hr & Hf & Hu & Hblocks).
  rewrite read_row by done. rewrite Hblocks in *. rewrite blocks_of_length in Hlen. unfold repaired_lines.
  rewrite blocks_of_length. intros (body & Hbody & [= <-])%rbind_ok. destruct (kept_bounds cues) as [Hk1 Hk2].
  assert (take (b_start (block_at (blocks_of (length pre) ps) 0)) (pre ++ row ps) = pre \/ keptInStartOrder cues = [] /\ ps = []) as Hpre.
  { destruct ps as [|p ps]; [right|left; apply take_app_length].
    split; [|done]. cbn in Hlen. destruct (keptInStartOrder cues) as [|k o]; [done|]. inversion Hk1; lia. }
  assert (forall ps', row_ok vtt ps' -> read_cues vtt (pre ++ row ps') = body_of <$> ps') as Hread.
  { intros ps' Hr'. assert (first_line vtt (pre ++ row ps') = first_line vtt (pre ++ row ps)) as E.
    { unfold first_line in *. destruct vtt; [|done]. apply after_header_prefix; [by apply Hhead|done]. }
    apply read_row; [done| |]; by rewrite E. }
  destruct (keptInStartOrder cues) as [|k order] eqn:Eo.
  - injection Hbody as <-. cbn [app]. destruct Hpre as [-> | [_ ->]].
    + rewrite app_nil_r. specialize (Hread [] I). unfold row in Hread. cbn in Hread. rewrite app_nil_r in Hread. rewrite Hread. constructor.
    + unfold block_at, row. cbn. rewrite take_0. unfold read_cues.
      destruct vtt; constructor.
  - destruct Hpre as [-> | [? _]]; [|done].
    destruct (reordered_row vtt srt closeItalics pre ps cues Hsrt Hr (k :: order) 0 body) as (ps' & Hbody' & Hr' & Hm);
      [done|lia|by rewrite Hlen|done|].
    rewrite Hbody'. cbn [gap_before app]. rewrite Hread by done.
    clear -Hm. induction Hm as [|j p' js qs (p & Hp & He) _ IH]; [constructor|]. cbn. constructor; [|done].
    exists (body_of p). by rewrite list_lookup_fmap, Hp.
Qed.

Definition vtt_of (extension : text) : bool := bool_decide (to_lower extension = t ".vtt").
Definition dialogue_file (extension : text) : bool :=
  bool_decide (to_lower extension = t ".ass") || bool_decide (to_lower extension = t ".ssa").

(** C33. A repaired SubRip or WebVTT file shows exactly the kept cues in the order
    of their start times: either nothing needed to change and the payload is
    returned as it is, or a reader of the result finds, cue by cue, the text of
    the kept cue of that position, with its timing line rewritten when it was to
    be retimed and closing italics tags added, and nothing else. No text is
    lost, duplicated or moved to another cue. *)
Theorem repair_reads_back payload extension cues closeItalics out :
  dialogue_file extension = false ->
  let '(content, bom, trailing) := splitContent payload in
  let lines := split_rune newline content in
  let vtt := vtt_of extension in
  (vtt = true -> first_line vtt lines <> 0) ->
  repair payload extension cues closeItalics = Ok out ->
  keptInStartOrder cues ≡ₚ filter (fun k => CDrop (cue_at cues k) = false) (seq 0 (length cues))
  /\ StronglySorted (fun i j => CStart (cue_at cues i) <= CStart (cue_at cues j))%Z (keptInStartOrder cues)
  /\ (out = payload /\ in_start_order cues = true /\ (forall cue, cue ∈ cues -> CRetime cue = false /\ CDrop cue = false)
      \/ exists lines', out = written bom lines' trailing /\ length (read_cues vtt lines) = length cues
           /\ Forall2 (shows closeItalics cues (read_cues vtt lines)) (keptInStartOrder cues) (read_cues vtt lines')).
Proof.
  intros Hext. destruct (splitContent payload) as [[content bom] trailing] eqn:Es. cbv zeta. intros Hhead.
  unfold repair. fold (dialogue_file extension). rewrite Hext, Es. fold (vtt_of extension).
  destruct (cueBlocks (split_rune newline content) (vtt_of extension)) as [blocks ambiguous] eqn:Eb.
  intros Hout. split_and!; [apply stable_sort_perm| |].
  { apply kept_sorted. }
  destruct (_ && (negb closeItalics || _)) eqn:E.
  - left. injection Hout as <-. apply andb_true_iff in E as [[E1 E2]%andb_true_iff _]. split_and!; [done|done|].
    intros cue Hcue. apply negb_true_iff, not_true_iff_false in E2.
    destruct (CRetime cue || CDrop cue) eqn:Ec; [|by apply orb_false_iff].
    destruct E2. apply existsb_exists. exists cue. split; [by apply list_elem_of_In|done].
  - right. destruct (ambiguous || _) eqn:Ea; [done|]. apply orb_false_iff in Ea as [_ Hlen%negb_false_iff%Nat.eqb_eq].
    apply rbind_ok in Hout as (lines' & Hlines & [= <-]). exists lines'.
    assert (blocks = (cueBlocks (split_rune newline content) (vtt_of extension)).1) as -> by (by rewrite Eb).
    split_and!; [done|by rewrite <- cueBlocks_read, length_fmap|].
    eapply repaired_lines_read; [|done|done|exact Hlines].
    intros Hsrt%bool_decide_eq_true. unfold vtt_of. by rewrite Hsrt.
Qed.

(** ** SubStation dialogue

    The lines with their dialogue lines replaced in order; those past the last
    replacement are left out. *)
Fixpoint with_dialogues (new : list text) (records : list text) : list text :=
  match records with
  | [] => []
  | record :: records =>
      if is_dialogue record then
        match new with r :: new => r :: with_dialogues new records | [] => with_dialogues [] records end
      else record :: with_dialogues new records
  end.

Definition dialogues (records : list text) : list text := filter (fun r => is_dialogue r = true) records.

Lemma dialogues_cons_true record records : is_dialogue record = true ->
  dialogues (record :: records) = record :: dialogues records.
Proof. intros E. unfold dialogues. by rewrite filter_cons_True. Qed.

Lemma dialogues_cons_false record records : is_dialogue record = false -> dialogues (record :: records) = dialogues records.
Proof. intros E. unfold dialogues. rewrite filter_cons_False; [done|congruence]. Qed.

(** Where the dialogue lines are, from line [index]. *)
Fixpoint dialogue_positions (index : nat) (records : list text) : list nat :=
  match records with
  | [] => []
  | record :: records =>
      if is_dialogue record then index :: dialogue_positions (S index) records else dialogue_positions (S index) records
  end.

Lemma positions_from records : forall index, Forall (fun p => index <= p) (dialogue_positions index records).
Proof.
  induction records as [|r rs IH]; intros index; cbn; [constructor|].
  assert (Forall (fun p => index <= p) (dialogue_positions (S index) rs)).
  { eapply Forall_impl; [apply IH|]. cbn. lia. }
  destruct (is_dialogue r); [by constructor|done].
Qed.

Lemma dialogue_entries_spec cues records : forall found index ef cf entries,
  dialogue_entries cues found index ef cf records = Ok entries ->
  entries.*1 = dialogue_positions index records /\ entries.*2.*1 = dialogues records.
Proof.
  induction records as [|r rs IH]; intros found index ef cf entries; cbn [dialogue_entries dialogue_positions]; [by intros [= <-]|].
  destruct (is_dialogue r) eqn:Er; cbn [negb].
  - destruct (_ && _); [done|]. destruct (_ <=? _); [done|]. intros (es & Hes & [= <-])%rbind_ok.
    destruct (IH _ _ _ _ _ Hes) as [H1 H2]. rewrite dialogues_cons_true by done. cbn [fmap list_fmap fst snd]. by rewrite H1, H2.
  - intros Hes. rewrite dialogues_cons_false by done. by eapply IH.
Qed.

Lemma fill_dialogues records : forall index new missing,
  length new + missing = length (dialogue_positions index records) ->
  fill (zip (dialogue_positions index records) ((Some <$> new) ++ replicate missing None)) index records
  = with_dialogues new records.
Proof.
  induction records as [|r rs IH]; intros index new missing; cbn [dialogue_positions with_dialogues]; [done|].
  destruct (is_dialogue r).
  - cbn [length]. destruct new as [|x new]; cbn [length fmap list_fmap app zip zip_with].
    + destruct missing as [|missing]; [done|]. intros E. cbn. rewrite Nat.eqb_refl. apply (IH (S index) [] missing). cbn. lia.
    + intros E. cbn. rewrite Nat.eqb_refl. f_equal. apply IH. lia.
  - intros E. specialize (IH (S index) new missing E). pose proof (positions_from rs (S index)) as Hp.
    set (os := (Some <$> new) ++ replicate missing None) in *.
    destruct (dialogue_positions (S index) rs) as [|p ps]; [cbn in *; f_equal; exact IH|].
    destruct os as [|o os]; [cbn in *; f_equal; exact IH|]. inversion Hp; subst. cbn [zip zip_with] in *. cbn [fill].
    rewrite (proj2 (Nat.eqb_neq p index)) by lia. by f_equal.
Qed.

Lemma slots_spec entries cues positions : forall order out, length order <= length positions ->
  slots entries cues positions order = Ok out ->
  exists new, Forall2 (fun k r => dialogue_record entries cues k = Ok r) order new
    /\ out = zip positions ((Some <$> new) ++ replicate (length positions - length order) None).
Proof.
  induction positions as [|p ps IH]; intros [|k order] out Hle; cbn [slots]; [by intros [= <-]; exists []|cbn in Hle; lia| |].
  - intros (rest & Hrest & [= <-])%rbind_ok. destruct (IH [] rest ltac:(cbn; lia) Hrest) as (new & Hn & ->).
    inversion Hn; subst. exists []. split; [constructor|]. cbn. by rewrite Nat.sub_0_r.
  - intros (r & Hr & (rest & Hrest & [= <-])%rbind_ok)%rbind_ok. destruct (IH order rest ltac:(cbn in Hle; lia) Hrest) as (new & Hn & ->).
    exists (r :: new). split; [by constructor|done].
Qed.

(** Every line that is not a dialogue line stays, in order; the dialogue lines
    are the kept ones, in start order. *)
Lemma dialogue_lines_spec records cues out :
  dialogue_lines records cues = Ok out ->
  exists new entries, entries.*1 = dialogues records /\ length entries = length cues
    /\ Forall2 (fun k r => dialogue_record entries cues k = Ok r) (keptInStartOrder cues) new
    /\ out = with_dialogues new records.
Proof.
  unfold dialogue_lines. intros (entries & He & Hout)%rbind_ok. destruct (negb _) eqn:El; [done|].
  apply negb_false_iff, Nat.eqb_eq in El. apply rbind_ok in Hout as (out' & Hs & [= <-]).
  destruct (dialogue_entries_spec _ _ _ _ _ _ _ He) as [Hp Hd]. destruct (kept_bounds cues) as [_ Hle].
  destruct (slots_spec entries.*2 cues entries.*1 (keptInStartOrder cues) out') as (new & Hn & ->);
    [by rewrite length_fmap, El|done|].
  exists new, entries.*2. rewrite length_fmap. split_and!; [done|done|done|].
  pose proof (Forall2_length _ _ _ Hn) as Hlen. rewrite length_fmap, El, Hp. apply fill_dialogues.
  rewrite <- Hp, length_fmap, El. lia.
Qed.
End reading.

(** ** A witness *)

Definition sample_file : text :=
  join [newline] (t <$> ["1"; "00:00:05,000 --> 00:00:06,000"; "second"; ""; "2"; "00:00:01,000 --> 00:00:02,000"; "<i>first"; ""]%string).
Definition sample_cues : list Cue :=
  [mkCue (5 * second)%Z (6 * second)%Z false false; mkCue second (2 * second + 500000000)%Z true false].
Definition sample_repaired : list text :=
  t <$> ["1"; "00:00:01,000 --> 00:00:02,500"; "<i>first</i>"; ""; "2"; "00:00:05,000 --> 00:00:06,000"; "second"]%string.

Lemma repair_reads_back_witness :
  exists lines', written [] sample_repaired 1 = written [] lines' 1
    /\ Forall2 (shows true sample_cues (read_cues false (split_rune newline (splitContent sample_file).1.1))) [1; 0] (read_cues false lines').
Proof.
  pose proof (repair_reads_back sample_file (t ".srt") sample_cues true (written [] sample_repaired 1) eq_refl) as H.
  destruct (splitContent sample_file) as [[content bom] trailing] eqn:E.
  destruct H as (_ & _ & [(Heq & _) | (lines' & Hout & _ & Hshows)]).
  - by intros Hv; vm_compute in Hv.
  - by vm_compute.
  - by vm_compute in Heq.
  - assert (bom = [] /\ trailing = 1) as [-> ->] by (vm_compute in E; by injection E as _ <- <-).
    exists lines'. split; [exact Hout|]. exact Hshows.
Defined.
