(* ===== verification/CueRepair.v ===== *)
(** * Planning cue repairs (src/internal/pack/repair.go)

    [planRepairs] decides, for the cues of a downloaded subtitle in file order,
    which to drop and which to retime before CueOrder.v puts them in start
    order; a subtitle whose cues overlap too much is two subtitles in one file.
    MicroDVD subtitles, timed in frames, are converted to SubRip. The items are
    those of go-astisub: the fields the plan reads, with their text a parameter. *)
From S2P Require Import Prelude GoText Regex GoFloat CueOrder.

#[local] Open Scope Z_scope.

(** ** The parser's items *)

Record StyleAttributes := mkStyle {
  SRTPosition : Z; SRTItalics : bool; WebVTTItalics : bool;
  WebVTTLine : text; WebVTTPosition : bool; WebVTTTags : list text;
}.
Record LineItem := mkLineItem { LText : text; LStyle : option StyleAttributes }.
Record Item := mkItem {
  StartAt : duration; EndAt : duration; IStyle : option StyleAttributes; ILines : list (list LineItem);
}.

Definition millisecond : duration := 1000000.
Definition typoDisorder : duration := 10 * second.
Definition mistypedEndDuration : duration := 15 * second.
Definition maximumMergedOverlap : float64 := (1 # 4)%Q.

(** ** Cues set apart from dialogue *)

Definition until (c : rune) : regex := Many (Chr (fun r => negb (r =? c)%N)).
Definition backslash : regex := lit [92%N].
Definition overrideTags : regex := (lit (t "{") ++ backslash ++ until 125 ++ lit (t "}"))%re.
Definition positionTag : regex :=
  (lit (t "{") ++ until 125 ++ backslash
   ++ ((lit (t "an") ++ Chr (between 49 57)) || (lit (t "a") ++ Chr (between 49 57)) || lit (t "pos(")))%re.
Definition italicOn : regex :=
  (Bol ++ Many (lit (t "{") ++ until 125 ++ lit (t "}"))
   ++ lit (t "{") ++ until 125 ++ backslash ++ lit (t "i1") ++ until 125 ++ lit (t "}"))%re.
Definition italicOff : regex := (lit (t "{") ++ until 125 ++ backslash ++ lit (t "i0") ++ until 125 ++ lit (t "}"))%re.

Definition styledItalic (style : option StyleAttributes) : bool :=
  match style with
  | None => false
  | Some s => SRTItalics s || WebVTTItalics s || existsb (fun name => bool_decide (name = t "i")) (WebVTTTags s)
  end.

Section plan.
Context `{Unicode}.

Definition assItalicLine (line : text) : bool :=
  if negb (matches italicOn line) then false
  else match find italicOff line with
       | None => true
       | Some off => bool_decide (trim_space (replace_all overrideTags (drop (s_start off) line) []) = [])
       end.

Definition visible (i : LineItem) : bool := negb (bool_decide (trim_space (replace_all overrideTags (LText i) []) = [])).
Definition positioned (style : option StyleAttributes) : bool :=
  match style with Some s => negb (SRTPosition s =? 0) | None => false end.

(** One line: apart on its own, or whether it keeps the cue italic. *)
Definition line_apart (line : list LineItem) (italic : bool) : option bool :=
  let shown := base.filter (fun i => visible i = true) line in
  if existsb (fun i => positioned (LStyle i)) shown then None
  else
    let lineItalic := forallb (fun i => styledItalic (LStyle i)) shown in
    let raw := trim_space (concat (map LText line)) in
    if matches positionTag raw then None
    else
      let plain := trim_space (replace_all overrideTags raw []) in
      if existsb (one_of [9834; 9835]%N) plain || has_prefix (t "#") plain || has_suffix (t "#") plain then None
      else if bool_decide (plain = []) then Some italic
      else Some (italic && (lineItalic || assItalicLine raw)).

Fixpoint lines_apart (lines : list (list LineItem)) (italic : bool) : option bool :=
  match lines with
  | [] => Some italic
  | line :: lines =>
      match line_apart line italic with
      | None => None
      | Some italic => lines_apart lines italic
      end
  end.

(** [item.String()] of go-astisub. *)
Context (item_string : Item -> text).

Definition heldApart (item : Item) : bool :=
  match IStyle item with
  | Some s => negb (bool_decide (WebVTTLine s = [])) || WebVTTPosition s
  | None => false
  end
  || match lines_apart (ILines item) true with
     | None => true
     | Some italic => italic && negb (bool_decide (trim_space (item_string item) = []))
     end.

(** ** The plan *)

Definition readingTime (s : text) : duration :=
  Z.min (second + Z.of_nat (length (join (t " ") (fields s))) * (50 * millisecond)) (7 * second).

(** The cue that set the furthest start so far is kept as its end. *)
Record planning := mkPlanning {
  leader : option duration; latest : duration; seen : list (duration * duration * text); planned : list (Item * text * Cue);
}.

Definition plan_item (ass : bool) (st : planning) (item : Item) : planning :=
  let s := trim_space (item_string item) in
  let key := (StartAt item, EndAt item, s) in
  if bool_decide (s = []) || negb ass && bool_decide (key ∈ seen st) then
    mkPlanning (leader st) (latest st) (seen st) (planned st ++ [(item, s, mkCue (StartAt item) (EndAt item) false true)])
  else
    let mistyped :=
      match leader st with
      | None => None
      | Some leader_end =>
          if negb ass && (StartAt item <? wrap64 (latest st - typoDisorder)) && (latest st <=? EndAt item)
             && (EndAt item <=? wrap64 (latest st + typoDisorder)) && (leader_end <? EndAt item)
             && (readingTime s <=? wrap64 (EndAt item - leader_end))
          then Some leader_end else None
      end in
    let cue := match mistyped with
               | Some leader_end => mkCue leader_end (EndAt item) true false
               | None => mkCue (StartAt item) (EndAt item) false false
               end in
    let leads := match leader st with None => true | Some _ => latest st <=? CStart cue end in
    mkPlanning (if leads then Some (EndAt item) else leader st) (if leads then CStart cue else latest st)
      (key :: seen st) (planned st ++ [(item, s, cue)]).

Definition first_plan (ass : bool) (items : list Item) : list (Item * text * Cue) :=
  planned (fold_left (plan_item ass) items (mkPlanning None 0 [] [])).

(** The next start after [start], if any. *)
Definition nextStart (starts : list duration) (start : duration) : option duration :=
  head (base.filter (fun s => (start <? s) = true) starts).

Definition plan_end (ass : bool) (starts : list duration) (p : Item * text * Cue) : Cue :=
  let '(item, s, cue) := p in
  if CDrop cue then cue
  else
    let reading := readingTime s in
    if CEnd cue <? CStart cue then
      let end_ := wrap64 (CStart cue + reading) in
      let end_ := match nextStart starts (CStart cue) with
                  | Some next => if next <? end_ then Z.max next (wrap64 (CStart cue + 500 * millisecond)) else end_
                  | None => end_
                  end in
      mkCue (CStart cue) end_ true false
    else
      let lasting := wrap64 (CEnd cue - CStart cue) in
      match nextStart starts (CStart cue) with
      | Some next =>
          if negb ass && (wrap64 (next + typoDisorder) <? CEnd cue) && (3 * reading <? lasting)
             && (mistypedEndDuration <? lasting) && negb (heldApart item)
          then mkCue (CStart cue) (Z.max next (wrap64 (CStart cue + reading))) true false
          else cue
      | None => cue
      end.

(** ** Overlap *)

Definition event_lt (a b : duration * Z) : bool :=
  if a.1 =? b.1 then a.2 <? b.2 else a.1 <? b.1.

Definition overlap_events (cues : list Cue) : list (duration * Z) :=
  stable_sort event_lt
    (concat (map (fun c => if negb (CDrop c) && (CStart c <? CEnd c) then [(CStart c, 1); (CEnd c, -1)] else []) cues)).

(** The sweep: the time since the previous event is covered when a cue is on,
    and overlapped when two are. *)
Fixpoint sweep (previous : option duration) (depth covered overlapped : Z) (events : list (duration * Z)) : Z * Z :=
  match events with
  | [] => (covered, overlapped)
  | (at_, delta) :: events =>
      let span := match previous with Some p => if 0 <? depth then at_ - p else 0 | None => 0 end in
      sweep (Some at_) (depth + delta) (covered + span) (if 1 <? depth then overlapped + span else overlapped) events
  end.

Definition overlapShare (cues : list Cue) : float64 :=
  let '(covered, overlapped) := sweep None 0 0 0 (overlap_events cues) in
  if covered =? 0 then 0%Q else fdiv (of_int overlapped) (of_int covered).

Inductive RepairError := EMerged (share : float64).

Definition isASS (extension : text) : bool := bool_decide (extension = t ".ass") || bool_decide (extension = t ".ssa").

Definition planRepairs (items : list Item) (extension : text) : result RepairError (list Cue) :=
  let ass := isASS extension in
  let plan := first_plan ass items in
  let starts := stable_sort Z.ltb (CStart <$> base.filter (fun c => CDrop c = false) plan.*2) in
  let cues := map (plan_end ass starts) plan in
  if ass then Ok cues
  else
    let overlap := overlapShare cues in
    if flt maximumMergedOverlap overlap then Err (EMerged overlap) else Ok cues.
End plan.

(** ** What the plan keeps *)

Section plan_facts.
Context `{Unicode} (item_string : Item -> text).

Definition key_of (item : Item) : duration * duration * text := (StartAt item, EndAt item, trim_space (item_string item)).
Definition kept_entry (p : Item * text * Cue) : Prop := CDrop p.2 = false.

(** An entry of the first pass, after the ones before it. *)
Record planned_well (ass : bool) (before : list (Item * text * Cue)) (p : Item * text * Cue) : Prop := {
  pw_text : p.1.2 = trim_space (item_string p.1.1);
  pw_end : CEnd p.2 = EndAt p.1.1;
  pw_dropped : CDrop p.2 = true ->
    p.1.2 = [] \/ ass = false /\ exists q, q ∈ before /\ kept_entry q /\ key_of q.1.1 = key_of p.1.1;
  pw_start : CRetime p.2 = false -> CStart p.2 = StartAt p.1.1;
  pw_moved : CRetime p.2 = true ->
    ass = false /\ CDrop p.2 = false /\ CStart p.2 < CEnd p.2 /\ exists q, q ∈ before /\ kept_entry q /\ CStart p.2 = EndAt q.1.1;
}.

Record planning_well (ass : bool) (items : list Item) (st : planning) : Prop := {
  pl_items : (planned st).*1.*1 = items;
  pl_entries : forall i p, planned st !! i = Some p -> planned_well ass (take i (planned st)) p;
  pl_seen : forall key, key ∈ seen st -> exists q, q ∈ planned st /\ kept_entry q /\ key_of q.1.1 = key;
  pl_leader : forall e, leader st = Some e -> exists q, q ∈ planned st /\ kept_entry q /\ EndAt q.1.1 = e;
}.

(** Adding an entry. *)
Lemma planning_snoc ass items st item p leader' latest' seen' :
  planning_well ass items st -> p.1.1 = item -> planned_well ass (planned st) p ->
  (forall key, key ∈ seen' -> key ∈ seen st \/ kept_entry p /\ key = key_of item) ->
  (forall e, leader' = Some e -> leader st = Some e \/ kept_entry p /\ e = EndAt item) ->
  planning_well ass (items ++ [item]) (mkPlanning leader' latest' seen' (planned st ++ [p])).
Proof.
  intros [Hi He Hs Hl] Hp Hw Hseen Hlead. constructor; cbn [planned seen leader].
  - rewrite !fmap_app, Hi. cbn. by rewrite Hp.
  - intros i q [Hq|[Hlen Hq]]%lookup_app_Some.
    + rewrite take_app_le by (apply lookup_lt_Some in Hq; lia). by apply He.
    + apply list_lookup_singleton_Some in Hq as [Hz <-]. assert (i = length (planned st)) as -> by lia. by rewrite take_app_length.
  - intros key [Hk|[Hk ->]]%Hseen.
    + apply Hs in Hk as (q & Hq & ?). exists q. split; [apply elem_of_app; by left|done].
    + exists p. split_and!; [apply elem_of_app; right; by left|done|by rewrite Hp].
  - intros e [Hk|[Hk ->]]%Hlead.
    + apply Hl in Hk as (q & Hq & ?). exists q. split; [apply elem_of_app; by left|done].
    + exists p. split_and!; [apply elem_of_app; right; by left|done|by rewrite Hp].
Qed.

Lemma plan_item_well ass items st item :
  planning_well ass items st -> planning_well ass (items ++ [item]) (plan_item item_string ass st item).
Proof.
  intros Hw. unfold plan_item. fold (key_of item). set (s := trim_space (item_string item)).
  destruct (bool_decide (s = []) || negb ass && bool_decide (key_of item ∈ seen st)) eqn:Ed.
  - apply planning_snoc; try done; [|by left|by left]. constructor; try done. intros _. cbn.
    apply orb_true_iff in Ed as [Ed%bool_decide_eq_true|[Ea Ed%bool_decide_eq_true]%andb_true_iff]; [by left|right].
    apply negb_true_iff in Ea. split; [done|]. by apply (pl_seen _ _ _ Hw).
  - match goal with |- context [match ?m with Some _ => mkCue _ _ true false | None => _ end] => set (mistyped := m) end.
    assert (forall e, mistyped = Some e -> ass = false /\ leader st = Some e /\ e < EndAt item) as Hm.
    { unfold mistyped. intros e E. destruct (leader st) as [l|]; [|done].
      match type of E with (if ?b then _ else _) = _ => destruct b eqn:Eb; [|done] end. injection E as ->. bools. by destruct ass. }
    apply planning_snoc; try done.
    + destruct mistyped as [e|]; [|by constructor]. destruct (Hm e eq_refl) as (Ha & Hl & Hlt). constructor; try done.
      intros _. cbn. split_and!; [done..|]. apply (pl_leader _ _ _ Hw) in Hl as (q & ? & ? & ?). eauto.
    + intros key [->|Hk]%elem_of_cons; [right|by left]. split; [by destruct mistyped|done].
    + intros e. match goal with |- (if ?b then _ else _) = _ -> _ => destruct b end; [|by left].
      intros [= <-]. right. split; [by destruct mistyped|done].
Qed.

Lemma first_plan_well ass items : planning_well ass items (fold_left (plan_item item_string ass) items (mkPlanning None 0 [] [])).
Proof.
  induction items as [|item items IH] using rev_ind; [constructor; try done; intros ? Hk; by inversion Hk|].
  rewrite fold_left_app. by apply plan_item_well.
Qed.

Lemma readingTime_bounds s : 0 < readingTime s <= 7 * second.
Proof. unfold readingTime, millisecond, second. lia. Qed.

Definition sane (z : duration) : Prop := 0 <= z < 2 ^ 62.

(** The second pass moves ends only, and never before their start. *)
Lemma plan_end_ordered ass starts p : sane (CStart p.2) -> CDrop p.2 = false ->
  let c := plan_end item_string ass starts p in
  CDrop c = false /\ CStart c = CStart p.2 /\ CStart c <= CEnd c /\ (CRetime c = false -> c = p.2)
  /\ (ass = true -> CStart p.2 <= CEnd p.2 -> c = p.2).
Proof.
  destruct p as [[item s] cue]. cbn [fst snd]. intros [Hlo Hhi] Hd. cbn [plan_end]. rewrite Hd.
  pose proof (readingTime_bounds s) as Hr. unfold second in Hr.
  assert (wrap64 (CStart cue + readingTime s) = CStart cue + readingTime s) as -> by (apply wrap64_small; lia).
  assert (wrap64 (CStart cue + 500 * millisecond) = CStart cue + 500 * millisecond) as -> by (apply wrap64_small; unfold millisecond; lia).
  destruct (CEnd cue <? CStart cue) eqn:Ee.
  - apply Z.ltb_lt in Ee. cbn. split_and!; try done; [|lia].
    destruct (nextStart starts (CStart cue)) as [next|]; [|lia]. unfold millisecond. destruct (next <? _); lia.
  - apply Z.ltb_ge in Ee. destruct (nextStart starts (CStart cue)) as [next|]; [|done].
    match goal with |- context [if ?b then _ else _] => destruct b eqn:Eb end; [|done]. cbn. split_and!; try done; [lia|].
    by intros ->.
Qed.

Lemma plan_end_drop ass starts p : CDrop (plan_end item_string ass starts p) = CDrop p.2.
Proof.
  destruct p as [[item s] cue]. cbn [plan_end snd]. destruct (CDrop cue) eqn:Ed; [done|].
  destruct (CEnd cue <? CStart cue); [done|]. destruct (nextStart _ _); [|done].
  by match goal with |- context [if ?b then _ else _] => destruct b end.
Qed.

(** Entries and items have the same places. *)
Lemma entry_at ass items p i : first_plan item_string ass items !! i = Some p -> items !! i = Some p.1.1.
Proof.
  intros Hp. rewrite <- (pl_items _ _ _ (first_plan_well ass items)), !list_lookup_fmap.
  unfold first_plan in Hp. by rewrite Hp.
Qed.

Lemma entry_of ass items item i : items !! i = Some item -> exists p, first_plan item_string ass items !! i = Some p /\ p.1.1 = item.
Proof.
  intros Hi. rewrite <- (pl_items _ _ _ (first_plan_well ass items)), !list_lookup_fmap in Hi. unfold first_plan.
  destruct (planned _ !! i) as [p|]; [|done]. injection Hi as Hi. by exists p.
Qed.

(** An earlier entry is an earlier item. *)
Lemma earlier_entry ass items q i : q ∈ take i (first_plan item_string ass items) ->
  exists j, (j < i)%nat /\ first_plan item_string ass items !! j = Some q /\ items !! j = Some q.1.1.
Proof.
  intros (j & Hj)%list_elem_of_lookup. apply lookup_take_Some in Hj as [Hj Hlt]. exists j. split_and!; [done..|]. by eapply entry_at.
Qed.

Lemma planRepairs_cues items extension cues : planRepairs item_string items extension = Ok cues ->
  exists starts, cues = map (plan_end item_string (isASS extension) starts) (first_plan item_string (isASS extension) items).
Proof.
  unfold planRepairs. intros E. destruct (isASS extension); [injection E as <-; by eexists|].
  destruct (flt _ _); [done|injection E as <-; by eexists].
Qed.

(** C24. A repair plan loses no line and breaks no time: a cue is dropped only
    when it has no text or repeats an earlier kept cue (never in ASS); every
    other cue is kept, ends no earlier than it starts, keeps its times unless
    it is marked for retiming, and starts where it did or, for a mistyped
    start, where an earlier cue ends. *)
Theorem plan_keeps_every_line items extension cues :
  Forall (fun i => sane (StartAt i) /\ sane (EndAt i)) items ->
  planRepairs item_string items extension = Ok cues ->
  length cues = length items /\
  forall i item cue, items !! i = Some item -> cues !! i = Some cue ->
    (CDrop cue = true ->
       trim_space (item_string item) = []
       \/ isASS extension = false /\ exists j item' cue', (j < i)%nat /\ items !! j = Some item' /\ cues !! j = Some cue'
          /\ CDrop cue' = false /\ key_of item' = key_of item) /\
    (CDrop cue = false ->
       CStart cue <= CEnd cue
       /\ (CRetime cue = false -> CStart cue = StartAt item /\ CEnd cue = EndAt item)
       /\ (CStart cue = StartAt item
           \/ isASS extension = false /\ exists j item', (j < i)%nat /\ items !! j = Some item' /\ CStart cue = EndAt item')
       /\ (isASS extension = true -> StartAt item <= EndAt item -> CRetime cue = false)).
Proof.
  intros Hsane [starts Ec]%planRepairs_cues. set (ass := isASS extension) in *.
  assert (length (first_plan item_string ass items) = length items) as Hlen.
  { rewrite <- (pl_items _ _ _ (first_plan_well ass items)) at 2. by rewrite !length_fmap. }
  assert (forall i p, first_plan item_string ass items !! i = Some p ->
    planned_well ass (take i (first_plan item_string ass items)) p) as Hall by apply (pl_entries _ _ _ (first_plan_well ass items)).
  rewrite Forall_forall in Hsane. split; [by rewrite Ec, length_map|].
  intros i item cue (p & Hp & <-)%(entry_of ass) Hc.
  assert (cue = plan_end item_string ass starts p) as Ecue.
  { rewrite Ec in Hc. change (map ?f ?l) with (f <$> l) in Hc. rewrite list_lookup_fmap, Hp in Hc. by injection Hc. }
  pose proof (Hall _ _ Hp) as [Ht He Hd Hs Hm]. pose proof (plan_end_drop ass starts p) as Edrop. rewrite <- Ecue in Edrop.
  split; intros Hcd.
  - rewrite Hcd in Edrop. destruct (Hd (eq_sym Edrop)) as [E|(Ha & q & Hq & Hk & Eq)]; [left; by rewrite <- Ht|right].
    split; [done|]. apply earlier_entry in Hq as (j & Hj & Eqj & Hij). exists j, q.1.1, (plan_end item_string ass starts q).
    split_and!; [done..| |by rewrite plan_end_drop|done].
    rewrite Ec. change (map ?f ?l) with (f <$> l). by rewrite list_lookup_fmap, Eqj.
  - rewrite Hcd in Edrop.
    assert (CStart p.2 = StartAt p.1.1 \/ ass = false /\ exists j item', (j < i)%nat /\ items !! j = Some item' /\ CStart p.2 = EndAt item') as Hstart.
    { destruct (CRetime p.2) eqn:Er; [right|left; by apply Hs]. destruct (Hm eq_refl) as (Ha & _ & _ & q & Hq & _ & Eq). split; [done|].
      apply earlier_entry in Hq as (j & Hj & _ & Hij). eauto. }
    assert (sane (CStart p.2)) as Hsp.
    { destruct Hstart as [->|(_ & j & item' & _ & Hj & ->)].
      - apply (Hsane p.1.1). by eapply list_elem_of_lookup_2, entry_at.
      - apply (Hsane item'). by eapply list_elem_of_lookup_2. }
    destruct (plan_end_ordered ass starts p Hsp (eq_sym Edrop)) as (_ & Es & Hle & Hret & Hass). rewrite <- Ecue in Es, Hle, Hret, Hass.
    split_and!; [done| | |].
    + intros Hr. pose proof (Hret Hr) as ->. split; [by apply Hs|done].
    + by rewrite Es.
    + intros Ha Hord. destruct (CRetime p.2) eqn:Er; [by destruct (Hm eq_refl); congruence|].
      rewrite Hass; [done|done|]. by rewrite Hs, He.
Qed.
End plan_facts.

(** ** The sweep measures instants *)

Definition on_at (x : Z) (c : Cue) : bool := negb (CDrop c) && (CStart c <=? x) && (x <? CEnd c).
(** How many kept cues are on at an instant. *)
Definition depth_at (cues : list Cue) (x : Z) : Z := Z.of_nat (length (base.filter (fun c => on_at x c = true) cues)).
(** How many instants of [lo, hi) satisfy a test. *)
Definition instants (lo hi : Z) (test : Z -> bool) : Z := Z.of_nat (length (base.filter (fun x => test x = true) (seqZ lo (hi - lo)))).

Lemma instants_split lo mid hi test : lo <= mid <= hi -> instants lo hi test = instants lo mid test + instants mid hi test.
Proof.
  intros Hm. unfold instants. replace (hi - lo) with ((mid - lo) + (hi - mid)) by lia.
  rewrite seqZ_app by lia. replace (lo + (mid - lo)) with mid by lia. rewrite filter_app, length_app. lia.
Qed.

Lemma instants_const lo hi test b : lo <= hi -> (forall x, lo <= x < hi -> test x = b) ->
  instants lo hi test = if b then hi - lo else 0.
Proof.
  intros Hle Hb. unfold instants.
  assert (base.filter (fun x => test x = true) (seqZ lo (hi - lo)) = if b then seqZ lo (hi - lo) else []) as ->.
  { assert (forall x, x ∈ seqZ lo (hi - lo) -> test x = b) as Hx by (intros x ?%elem_of_seqZ; apply Hb; lia).
    induction (seqZ lo (hi - lo)) as [|x l IH]; [by destruct b|].
    pose proof (Hx x ltac:(by left)) as Ex. rewrite filter_cons. rewrite IH by (intros; apply Hx; by right).
    destruct b; [by rewrite decide_True|by rewrite decide_False by (rewrite Ex; done)]. }
  destruct b; [rewrite length_seqZ; lia|done].
Qed.

Lemma instants_ext lo hi test test' : (forall x, lo <= x < hi -> test x = test' x) -> instants lo hi test = instants lo hi test'.
Proof.
  intros Ht. unfold instants. do 2 f_equal.
  assert (forall x, x ∈ seqZ lo (hi - lo) -> test x = test' x) as Hx by (intros x ?%elem_of_seqZ; apply Ht; lia). clear Ht.
  induction (seqZ lo (hi - lo)) as [|x l IH]; [done|]. pose proof (Hx x ltac:(by left)) as Ex.
  rewrite !filter_cons, Ex, IH by (intros; apply Hx; by right). done.
Qed.

(** The depth the events up to an instant add up to. *)
Definition delta_upto (events : list (duration * Z)) (x : Z) : Z :=
  foldr (fun e acc => (if e.1 <=? x then e.2 else 0) + acc) 0 events.

Lemma delta_upto_cons a delta es x : delta_upto ((a, delta) :: es) x = (if a <=? x then delta else 0) + delta_upto es x.
Proof. done. Qed.

Lemma delta_upto_perm es es' x : es ≡ₚ es' -> delta_upto es x = delta_upto es' x.
Proof. unfold delta_upto. induction 1; cbn in *; lia. Qed.

Lemma delta_upto_before es x : Forall (fun e => x < e.1) es -> delta_upto es x = 0.
Proof. induction 1 as [|[a delta] es He _ IH]; [done|]. rewrite delta_upto_cons, IH. cbn in *. destruct (Z.leb_spec a x); lia. Qed.

Lemma delta_upto_after es x : Forall (fun e => e.1 <= x) es -> delta_upto es x = foldr (fun e acc => e.2 + acc) 0 es.
Proof. induction 1 as [|[a delta] es He _ IH]; [done|]. rewrite delta_upto_cons, IH. cbn in *. destruct (Z.leb_spec a x); lia. Qed.

(** The sweep from an instant on, at a depth. *)
Lemma sweep_measures es p depth covered overlapped hi :
  StronglySorted (fun a b => a.1 <= b.1) es -> Forall (fun e => p <= e.1 <= hi) es -> p <= hi ->
  depth + foldr (fun e acc => e.2 + acc) 0 es = 0 ->
  sweep (Some p) depth covered overlapped es
  = (covered + instants p hi (fun x => 0 <? depth + delta_upto es x),
     overlapped + instants p hi (fun x => 1 <? depth + delta_upto es x)).
Proof.
  intros Hs. revert p depth covered overlapped. induction Hs as [|[a delta] es Hs IH Hle]; intros p depth covered overlapped Hin Hp Hd.
  - cbn in *. rewrite !(instants_const p hi _ false) by (lia || (intros; lia)). f_equal; lia.
  - apply Forall_cons in Hin as [Ha Hin]. cbn [fst] in *. cbn [sweep].
    assert (Forall (fun e => a <= e.1 <= hi) es) as Hin'.
    { rewrite Forall_forall in *. intros e He. specialize (Hin e He). specialize (Hle e He). cbn in Hle. lia. }
    rewrite IH; [|done|lia|cbn in Hd; lia].
    assert (forall k, instants p hi (fun x => k <? depth + delta_upto ((a, delta) :: es) x)
      = (if k <? depth then a - p else 0) + instants a hi (fun x => k <? depth + delta + delta_upto es x)) as Hsplit.
    { intros k. rewrite (instants_split p a hi) by lia. f_equal.
      - apply instants_const; [lia|]. intros x Hx. f_equal. rewrite delta_upto_cons. destruct (Z.leb_spec a x); [lia|].
        rewrite delta_upto_before; [lia|]. eapply Forall_impl; [exact Hin'|]. cbn. lia.
      - apply instants_ext. intros x Hx. f_equal. rewrite delta_upto_cons. destruct (Z.leb_spec a x); lia. }
    rewrite !Hsplit. f_equal; destruct (Z.ltb_spec 0 depth), (Z.ltb_spec 1 depth); lia.
Qed.

Lemma depth_at_delta cues x :
  delta_upto (concat (map (fun c => if negb (CDrop c) && (CStart c <? CEnd c) then [(CStart c, 1); (CEnd c, -1)] else []) cues)) x
  = depth_at cues x.
Proof.
  induction cues as [|c cues IH]; [done|]. cbn [map concat]. unfold depth_at in *. rewrite filter_cons.
  destruct (CDrop c) eqn:Ed; cbn [negb andb app].
  - rewrite decide_False by (unfold on_at; rewrite Ed; done). exact IH.
  - destruct (Z.ltb_spec (CStart c) (CEnd c)) as [Hlt|Hge]; cbn [app].
    + rewrite !delta_upto_cons, IH. destruct (decide (on_at x c = true)) as [Ho|Ho]; unfold on_at in Ho; rewrite Ed in Ho; cbn [negb andb length] in *;
        destruct (Z.leb_spec (CStart c) x), (Z.leb_spec (CEnd c) x), (Z.ltb_spec x (CEnd c)); cbn in Ho; (done || lia).
    + rewrite decide_False; [exact IH|]. unfold on_at. intros Ho. bools. lia.
Qed.

Lemma event_delta_total cues :
  foldr (fun e acc => e.2 + acc) 0
    (concat (map (fun c => if negb (CDrop c) && (CStart c <? CEnd c) then [(CStart c, 1); (CEnd c, -1)] else []) cues)) = 0.
Proof.
  induction cues as [|c cues IH]; [done|]. cbn [map concat]. rewrite foldr_app, IH.
  by destruct (negb (CDrop c) && (CStart c <? CEnd c)).
Qed.

Lemma sum_perm (es es' : list (duration * Z)) : es ≡ₚ es' -> foldr (fun e acc => e.2 + acc) 0 es = foldr (fun e acc => e.2 + acc) 0 es'.
Proof. induction 1; cbn; lia. Qed.

(** Every kept cue lies within [lo, hi]. *)
Definition within_times (lo hi : Z) (cues : list Cue) : Prop :=
  lo <= hi /\ Forall (fun c => CDrop c = false -> lo <= CStart c /\ CEnd c <= hi) cues.

Lemma overlap_events_sorted cues : StronglySorted (fun a b : duration * Z => a.1 <= b.1) (overlap_events cues).
Proof.
  assert (StronglySorted (not_after event_lt) (overlap_events cues)) as Hs.
  { apply stable_sort_sorted; unfold not_after, event_lt.
    - intros [a d] [b e]. cbn. destruct (Z.eqb_spec a b), (Z.eqb_spec b a); lia.
    - intros [a d] [b e] [c f]. cbn. destruct (Z.eqb_spec b a), (Z.eqb_spec c b), (Z.eqb_spec c a); lia. }
  induction Hs as [|[a d] es Hs IH Hle]; constructor; [done|]. eapply Forall_impl; [exact Hle|].
  intros [b e]. unfold not_after, event_lt. cbn. destruct (Z.eqb_spec b a); lia.
Qed.

Lemma overlap_sweep cues lo hi : within_times lo hi cues ->
  sweep None 0 0 0 (overlap_events cues)
  = (instants lo hi (fun x => 0 <? depth_at cues x), instants lo hi (fun x => 1 <? depth_at cues x)).
Proof.
  intros [Hlo Hin].
  assert (forall es, sweep None 0 0 0 es = sweep (Some lo) 0 0 0 es) as -> by (by intros [|[a d] es]).
  rewrite (sweep_measures _ lo 0 0 0 hi); [|apply overlap_events_sorted| |done|].
  - rewrite !Z.add_0_l. f_equal; apply instants_ext; intros x _; rewrite <- depth_at_delta, Z.add_0_l;
      f_equal; apply delta_upto_perm, stable_sort_perm.
  - apply Forall_forall. intros e He. unfold overlap_events in He. rewrite stable_sort_perm in He.
    apply elem_of_concat in He as (l & Hl & He). apply list_elem_of_In, in_map_iff in Hl as (c & <- & Hc). apply list_elem_of_In in Hc.
    rewrite Forall_forall in Hin. specialize (Hin c Hc). destruct (CDrop c); [by inversion He|].
    destruct (Z.ltb_spec (CStart c) (CEnd c)); [|by inversion He]. specialize (Hin eq_refl).
    cbn in He. apply elem_of_cons in He as [->|He]; [cbn; lia|]. apply list_elem_of_singleton in He as ->. cbn. lia.
  - rewrite Z.add_0_l. erewrite sum_perm by apply stable_sort_perm. apply event_delta_total.
Qed.

(** Rounding does not hide an excess over a quarter. *)
Definition just_over : Q := (9007199254740992 # 36028797018963964)%Q.

Lemma just_over_rounds : (maximumMergedOverlap < round just_over)%Q.
Proof. by vm_compute. Qed.

Lemma ratio_exact o c : 0 <= o <= c -> 0 < c < 2 ^ 53 ->
  (of_int o / of_int c == inject_Z o / inject_Z c)%Q.
Proof. intros Ho Hc. by rewrite !of_int_exact by lia. Qed.

Lemma quarter_exact o c : 0 <= o <= c -> 0 < c < 2 ^ 53 ->
  flt maximumMergedOverlap (fdiv (of_int o) (of_int c)) = (c <? 4 * o).
Proof.
  intros Ho Hc. pose proof (ratio_exact o c Ho Hc) as Er.
  assert (0 < inject_Z c)%Q as Hcq by (rewrite <- (Zlt_Qlt 0); lia).
  apply eq_true_iff_eq. rewrite flt_spec, Z.ltb_lt. unfold fdiv. split.
  - intros Hlt. destruct (Z.lt_ge_cases c (4 * o)) as [|Hge]; [done|exfalso].
    assert (round (of_int o / of_int c) <= round maximumMergedOverlap)%Q as Hr.
    { apply round_mono_nonneg; rewrite Er.
      - apply Qle_shift_div_l; [done|]. rewrite Qmult_0_l. change 0%Q with (inject_Z 0). rewrite <- Zle_Qle. lia.
      - apply Qle_shift_div_r; [done|]. unfold maximumMergedOverlap.
        assert (inject_Z (4 * o) <= inject_Z c)%Q as Hq by (by rewrite <- Zle_Qle). rewrite inject_Z_mult in Hq. change (inject_Z 4) with 4%Q in Hq. lra. }
    assert (round maximumMergedOverlap == maximumMergedOverlap)%Q as E by (by vm_compute). rewrite E in Hr. lra.
  - intros Hlt. eapply Qlt_le_trans; [apply just_over_rounds|]. apply round_mono_nonneg; [by vm_compute|]. rewrite Er.
    apply Qle_shift_div_l; [done|].
    assert (inject_Z (c + 1) <= inject_Z (4 * o))%Q as Hq by (rewrite <- Zle_Qle; lia).
    assert (inject_Z c <= inject_Z 9007199254740991)%Q as Hm by (rewrite <- Zle_Qle; lia).
    rewrite inject_Z_mult, inject_Z_plus in Hq. change (inject_Z 4) with 4%Q in Hq. change (inject_Z 1) with 1%Q in Hq.
    change (inject_Z 9007199254740991) with (9007199254740991 # 1)%Q in Hm. unfold just_over. lra.
Qed.

Lemma instants_le lo hi (test test' : Z -> bool) : (forall x, test x = true -> test' x = true) -> instants lo hi test <= instants lo hi test'.
Proof.
  intros Ht. unfold instants. apply inj_le. induction (seqZ lo (hi - lo)) as [|x l IH]; [done|].
  rewrite !filter_cons. specialize (Ht x). repeat case_decide; cbn; naive_solver lia.
Qed.

Lemma instants_bound lo hi test : lo <= hi -> 0 <= instants lo hi test <= hi - lo.
Proof.
  intros Hle. unfold instants. split; [lia|].
  pose proof (length_filter (fun x => test x = true) (seqZ lo (hi - lo))). rewrite length_seqZ in *. lia.
Qed.

(** C25. The overlap test is exact: over times of less than 104 days it refuses
    a subtitle exactly when more than a quarter of the instants at which a cue
    is on have two or more on, however the cues lie and whatever float64
    arithmetic rounds. *)
Theorem overlap_test_exact cues lo hi :
  within_times lo hi cues -> hi - lo < 2 ^ 53 ->
  flt maximumMergedOverlap (overlapShare cues)
  = (instants lo hi (fun x => 1 <=? depth_at cues x) <? 4 * instants lo hi (fun x => 2 <=? depth_at cues x)).
Proof.
  intros Hw Hh. pose proof Hw as [Hle _]. unfold overlapShare. rewrite (overlap_sweep _ lo hi Hw).
  rewrite (instants_ext lo hi (fun x => 1 <=? _) (fun x => 0 <? depth_at cues x)) by (intros; lia).
  rewrite (instants_ext lo hi (fun x => 2 <=? _) (fun x => 1 <? depth_at cues x)) by (intros; lia).
  pose proof (instants_le lo hi (fun x => 1 <? depth_at cues x) (fun x => 0 <? depth_at cues x) ltac:(intros x; cbn beta; lia)) as Hm.
  pose proof (instants_bound lo hi (fun x => 0 <? depth_at cues x) Hle) as Hc.
  pose proof (instants_bound lo hi (fun x => 1 <? depth_at cues x) Hle) as Ho.
  set (covered := instants lo hi (fun x => 0 <? depth_at cues x)) in *.
  set (overlapped := instants lo hi (fun x => 1 <? depth_at cues x)) in *.
  destruct (Z.eqb_spec covered 0) as [E|E]; [|apply quarter_exact; lia].
  rewrite E. assert (overlapped = 0) as -> by lia. by vm_compute.
Qed.

(** ** MicroDVD *)

Definition microDVDLine : regex :=
  (Bol ++ lit (t "{") ++ Group 1 (Plus dig) ++ lit (t "}{") ++ Group 2 (Many dig) ++ lit (t "}")
   ++ Group 3 (Many (Chr (fun r => negb (r =? newline)%N))) ++ Eol)%re.
Definition microDVDStyle : regex := (lit (t "{") ++ Chr ascii_letter ++ lit (t ":") ++ until 125 ++ lit (t "}"))%re.
Definition microDVDYStyle : regex :=
  (lit (t "{") ++ Group 1 (any_of (t "yY")) ++ lit (t ":") ++ Group 2 (until 125) ++ lit (t "}"))%re.

(** What [strconv.ParseFloat] gives; a frame rate is a finite number or NaN,
    which no comparison refuses. *)
Inductive parsed_float := Finite (q : float64) | NotANumber | Infinite.

(** [strconv.Atoi] of digits with its error ignored: no digits are 0, too many
    the greatest integer. *)
Definition frame_number (digits : text) : Z :=
  if bool_decide (digits = []) then 0 else Z.min (decimal digits) (2 ^ 63 - 1).

(** [int64(f)] of a value that may be out of range. *)
Definition int64_of (f : parsed_float) : Z :=
  match f with
  | Finite q => if (- 2 ^ 63 <=? trunc q) && (trunc q <? 2 ^ 63) then trunc q else - 2 ^ 63
  | _ => - 2 ^ 63
  end.

Definition scaled (frame : Z) (fps : parsed_float) : parsed_float :=
  match fps with
  | Finite q => Finite (fmul (fdiv (of_int frame) q) 1000)
  | _ => NotANumber
  end.

Definition srtClock (frame : Z) (fps : parsed_float) : text :=
  let milliseconds := int64_of (scaled frame fps) in
  padded 2 (Z.quot milliseconds 3600000) ++ t ":" ++ padded 2 (Z.rem (Z.quot milliseconds 60000) 60) ++ t ":"
  ++ padded 2 (Z.rem (Z.quot milliseconds 1000) 60) ++ t "," ++ padded 3 (Z.rem milliseconds 1000).

Section microdvd.
Context `{Unicode} (parse_float : text -> option parsed_float).

Definition strip_bom (line : text) : text := trim_space (trim_prefix bom_text line).

Fixpoint first_shown (lines : list text) : option text :=
  match lines with
  | [] => None
  | line :: lines =>
      let line := strip_bom line in
      if bool_decide (line = []) then first_shown lines else Some line
  end.

Definition isMicroDVD (content : text) : bool :=
  match first_shown (split_rune newline content) with
  | Some line => matches microDVDLine line
  | None => false
  end.

Definition italic_code (line letter : text) : bool :=
  existsb (fun m => bool_decide (group_or_empty line m 1 = letter) && bool_decide (105%N ∈ to_lower (group_or_empty line m 2)))
    (find_all microDVDYStyle line).

Definition microDVDText (content : text) : text :=
  let italicAll := italic_code content (t "Y") in
  join [newline] (map (fun line =>
      let italicLine := italicAll || italic_code line (t "y") in
      let line := trim_space (replace_all microDVDStyle line []) in
      if has_prefix (t "/") line || italicLine then t "<i>" ++ trim_space (trim_prefix (t "/") line) ++ t "</i>" else line)
    (split_rune 124 content)).

Inductive MicroDVDError := EMalformed | EFrameRate | ENoFrameRate | ENoCues.

(** A header's rate: [value < 10 || value > 120] refuses it. *)
Definition frame_rate (s : text) : option parsed_float :=
  match parse_float (replace_rune 44 46 (trim_space s)) with
  | Some (Finite q) => if flt q (of_int 10) || flt (of_int 120) q then None else Some (Finite q)
  | Some NotANumber => Some NotANumber
  | Some Infinite | None => None
  end.

Definition srt_cue (number : Z) (start end_ : Z) (fps : parsed_float) (body : text) : text :=
  itoa number ++ [newline] ++ srtClock start fps ++ t " --> " ++ srtClock end_ fps ++ [newline]
  ++ microDVDText body ++ [newline; newline].

Fixpoint microdvd_lines (lines : list text) (fps : option parsed_float) (number : Z) (output : text) : result MicroDVDError (Z * text) :=
  match lines with
  | [] => Ok (number, output)
  | raw :: lines =>
      let line := strip_bom raw in
      if bool_decide (line = []) then microdvd_lines lines fps number output
      else match find microDVDLine line with
           | None => Err EMalformed
           | Some m =>
               let start := frame_number (group_or_empty line m 1) in
               let end_ := frame_number (group_or_empty line m 2) in
               match fps with
               | None =>
                   if (start <=? 1) && (end_ <=? 1) then
                     match frame_rate (group_or_empty line m 3) with
                     | Some value => microdvd_lines lines (Some value) number output
                     | None => Err EFrameRate
                     end
                   else Err ENoFrameRate
               | Some rate =>
                   let end_ := if bool_decide (group_or_empty line m 2 = [])
                               then wrap64 (start + int64_of match rate with Finite q => Finite (fmul q 2) | f => f end)
                               else end_ in
                   microdvd_lines lines fps (number + 1) (output ++ srt_cue (number + 1) start end_ rate (group_or_empty line m 3))
               end
           end
  end.

Definition microDVDToSRT (content : text) : result MicroDVDError text :=
  let lines := split_rune newline (trim_right (one_of [26; 32; 9; 13; 10]%N) content) in
  let! converted := microdvd_lines lines None 0 [] in
  if converted.1 =? 0 then Err ENoCues else Ok (trim_right (N.eqb newline) converted.2 ++ [newline]).
End microdvd.

(** ** Examples *)

Definition sample_rate (s : text) : option parsed_float :=
  if bool_decide (s = t "25.000") then Some (Finite 25) else if bool_decide (s = t "nan") then Some NotANumber else None.

Example microdvd_converted :
  microDVDToSRT sample_rate (t "{1}{1}25,000" ++ [newline] ++ t "{25}{50}{y:i}Hi|there" ++ [newline] ++ t "{90}{}/Bye")
  = Ok (t "1" ++ [newline] ++ t "00:00:01,000 --> 00:00:02,000" ++ [newline] ++ t "<i>Hi</i>" ++ [newline] ++ t "there" ++ [newline; newline]
        ++ t "2" ++ [newline] ++ t "00:00:03,600 --> 00:00:05,600" ++ [newline] ++ t "<i>Bye</i>" ++ [newline]).
Proof. by vm_compute. Qed.

(** A header of NaN is taken for a frame rate; its clock is no time. *)
Example microdvd_nan : srtClock 25 NotANumber = t "-2562047788015:-12:-55,-808".
Proof. by vm_compute. Qed.

Definition plain_text (i : Item) : text := join [newline] (map (fun line => concat (map LText line)) (ILines i)).
Definition spoken (start end_ : Z) (s : text) : Item :=
  mkItem (start * second) (end_ * second) None [[mkLineItem s None]].

(** A mistyped start, a repeated cue, an empty cue, and an end before its start. *)
Definition sample_items : list Item :=
  [spoken 60 62 (t "one"); spoken 120 123 (t "two"); spoken 64 126 (t "three"); spoken 120 123 (t "two"); spoken 130 131 []; spoken 140 139 (t "four")].

Example sample_plan : planRepairs plain_text sample_items (t ".srt") =
  Ok [mkCue (60 * second) (62 * second) false false; mkCue (120 * second) (123 * second) false false;
      mkCue (123 * second) (126 * second) true false; mkCue (120 * second) (123 * second) false true;
      mkCue (130 * second) (131 * second) false true; mkCue (140 * second) (140 * second + 1200 * millisecond) true false].
Proof. by vm_compute. Qed.

Lemma plan_keeps_every_line_witness : exists cues, planRepairs plain_text sample_items (t ".srt") = Ok cues /\ length cues = 6%nat.
Proof.
  eexists. split; [exact sample_plan|].
  refine (proj1 (plan_keeps_every_line plain_text sample_items (t ".srt") _ _ sample_plan)).
  repeat apply List.Forall_cons; try apply List.Forall_nil; unfold sane; split_and!; by vm_compute.
Defined.

(** Two cues a second apart that overlap by a third of their time. *)
Definition overlapping : list Cue := [mkCue 0 4 false false; mkCue 2 6 false false].

Lemma overlap_test_exact_witness : flt maximumMergedOverlap (overlapShare overlapping) = true.
Proof.
  rewrite (overlap_test_exact overlapping 0 6).
  - by vm_compute.
  - split; [lia|]. repeat constructor; cbn; lia.
  - lia.
Defined.
