(* ===== verification/Archive.v ===== *)
(** * Subtitle archives (src/internal/pack/archive.go)

    What a downloaded payload holds: ZIP and RAR archives are read within
    limits on their entries, files, depth and expanded size, anything else is
    one subtitle; a member's text is decoded to UTF-8, parsed, and its cues are
    repaired (CueRepair.v, CueOrder.v). The archive formats, the character sets
    of golang.org/x/text and go-astisub's parsers are parameters. Payloads and
    members are bytes, names and decoded texts are runes. *)
From S2P Require Import Prelude GoText Paths Regex GoFloat Domain CueOrder CueRepair.

#[local] Open Scope Z_scope.
#[local] Arguments N.eqb : simpl never.

Definition bytes := list N.
Definition size (b : bytes) : Z := Z.of_nat (length b).

Definition zipMagic : bytes := [80; 75; 3; 4]%N.
Definition rarMagic : bytes := [82; 97; 114; 33; 26; 7]%N.
Definition maxArchiveEntries : Z := 10000.

Record Limits := mkLimits { MaxCompressed : Z; MaxExpanded : Z; MaxFiles : Z; MaxDepth : Z }.
Definition DefaultLimits : Limits := mkLimits (20 * 2 ^ 20) (100 * 2 ^ 20) 100 3.

(** The bits of [fs.FileMode] that are not permissions. *)
Definition ModeDir : Z := 2 ^ 31.
Definition ModeSymlink : Z := 2 ^ 27.
Definition ModeType : Z := ModeDir + ModeSymlink + 2 ^ 26 + 2 ^ 25 + 2 ^ 24 + 2 ^ 21 + 2 ^ 19.
Definition has_mode (mode bits : Z) : bool := negb (Z.land mode bits =? 0).

Record archiveMember := mkArchiveMember { am_name : text; am_mode : Z; am_body : bytes }.

(** An entry of a ZIP archive: [ze_open] is [None] when it cannot be opened,
    otherwise what reading at most that many bytes and closing gives. *)
Record zipEntry := mkZipEntry {
  ze_name : text; ze_mode : Z; ze_uncompressed : Z; ze_open : option (Z -> option bytes);
}.
(** A header of a RAR archive and what reading at most that many bytes gives. *)
Record rarHeader := mkRarHeader {
  rh_name : text; rh_link : Z; rh_encrypted : bool; rh_header_encrypted : bool; rh_mode : Z; rh_dir : bool;
  rh_unknown_size : bool; rh_unpacked : Z; rh_read : Z -> option bytes;
}.

Inductive ContentError :=
| EAbsolutePath | EEscapes | EDepth | ENoSafeName
| EOpenArchive | EHeader | ENotRegular (name : text) | EEntries | EExpanded | ENested | EOpenMember | EReadMember
| EMemberExpands | EFiles | EPlainSize | EInterrupted
| EEncoding | ENul | EMicroDVD (e : MicroDVDError) | EExtension | ESyntax | ETooManyCues | ETimestamps
| EPlan (e : RepairError) | EOrder (e : OrderError)
| EDuplicateName (name : text) | EUnreadable (name : text) (e : ContentError) | ENoSubtitles.

Definition check (ok : bool) (e : ContentError) : result ContentError unit := if ok then Ok tt else Err e.

(** ** Names *)

(** The path with "/" separators. *)
Definition slashed (name : text) : text := replace_rune 92%N slash name.

Definition drive (s : text) : bool :=
  match s with
  | letter :: colon :: sep :: _ => ascii_letter letter && (colon =? 58)%N && (sep =? slash)%N
  | _ => false
  end.

Definition validateArchivePath (name : text) (maxDepth : Z) : result ContentError unit :=
  let normalized := slashed name in
  if has_prefix (t "/") normalized || rooted name || drive normalized then Err EAbsolutePath
  else
    let clean := path_clean normalized in
    if bool_decide (clean = t "..") || has_prefix (t "../") clean then Err EEscapes
    else if maxDepth <? Z.of_nat (length (split_rune slash (trim (N.eqb slash) clean))) - 1 then Err EDepth
    else Ok tt.

Definition safeMemberName (name : text) (maxDepth : Z) : result ContentError text :=
  let! _ := validateArchivePath name maxDepth in
  let base := path_base (slashed name) in
  if bool_decide (base = t ".") || bool_decide (base = []) then Err ENoSafeName else Ok base.

Definition macOSMetadata (name : text) : bool :=
  existsb (fun part => bool_decide (part = t "__MACOSX") || has_prefix (t "._") part) (split_rune slash (slashed name)).

Definition HasArchiveMagic (payload : bytes) : bool := has_prefix zipMagic payload || has_prefix rarMagic payload.

Definition payloadType (payload : bytes) : text :=
  if has_prefix zipMagic payload then t "zip" else if has_prefix rarMagic payload then t "rar" else t "plain".

Section archive.
Context `{Unicode}.

Definition isSubtitleExtension (name : text) : bool :=
  bool_decide (to_lower (path_ext name) ∈ [t ".srt"; t ".ass"; t ".ssa"; t ".vtt"; t ".sub"]).
Definition isArchiveExtension (name : text) : bool :=
  bool_decide (to_lower (path_ext name) ∈ [t ".zip"; t ".rar"; t ".7z"; t ".tar"; t ".gz"; t ".bz2"; t ".xz"]).

Definition validateLimits (l : Limits) : bool :=
  (0 <? MaxCompressed l) && (0 <? MaxExpanded l) && (0 <? MaxFiles l) && (0 <=? MaxDepth l).

(** ** Reading archives

    [ctx_done i] is whether the context is done when the [i]-th entry is looked
    at. *)
Section decode.
Context (limits : Limits) (ctx_done : nat -> bool).

(** The counters of both loops. *)
Record counters := mkCounters { declared : Z; expanded : Z; files : Z; entries : Z }.

Fixpoint zip_loop (i : nat) (c : counters) (members : list archiveMember) (es : list zipEntry)
    : result ContentError (list archiveMember) :=
  match es with
  | [] => Ok members
  | e :: es =>
      let! _ := check (negb (ctx_done i)) EInterrupted in
      if macOSMetadata (ze_name e) then zip_loop (S i) c members es
      else
        let! _ := validateArchivePath (ze_name e) (MaxDepth limits) in
        let! _ := check (negb (has_mode (ze_mode e) ModeSymlink || has_mode (ze_mode e) ModeType && negb (has_mode (ze_mode e) ModeDir)))
                    (ENotRegular (ze_name e)) in
        if has_mode (ze_mode e) ModeDir then zip_loop (S i) c members es
        else
          let! _ := check (entries c + 1 <=? maxArchiveEntries) EEntries in
          let declared_ := wrap64 (declared c + wrap64 (ze_uncompressed e)) in
          let! _ := check (declared_ <=? MaxExpanded limits) EExpanded in
          let! _ := check (negb (isArchiveExtension (ze_name e))) ENested in
          match ze_open e with
          | None => Err EOpenMember
          | Some read =>
              let remaining := MaxExpanded limits - expanded c in
              match read (remaining + 1) with
              | None => Err EReadMember
              | Some body =>
                  let! _ := check (size body <=? remaining) EMemberExpands in
                  let expanded_ := expanded c + size body in
                  let! _ := check (expanded_ <=? MaxExpanded limits) EExpanded in
                  let! _ := check (negb (HasArchiveMagic body)) ENested in
                  if negb (isSubtitleExtension (ze_name e)) then
                    zip_loop (S i) (mkCounters declared_ expanded_ (files c) (entries c + 1)) members es
                  else
                    let! _ := check (files c + 1 <=? MaxFiles limits) EFiles in
                    zip_loop (S i) (mkCounters declared_ expanded_ (files c + 1) (entries c + 1))
                      (members ++ [mkArchiveMember (ze_name e) (ze_mode e) body]) es
              end
          end
  end.

(** The size of a RAR member is counted as its header declares it, or as it was
    read when the header does not know it. *)
Fixpoint rar_loop (i : nat) (c : counters) (members : list archiveMember) (hs : list (option rarHeader))
    : result ContentError (list archiveMember) :=
  let! _ := check (negb (ctx_done i)) EInterrupted in
  match hs with
  | [] => Ok members
  | None :: _ => Err EHeader
  | Some h :: hs =>
      if macOSMetadata (rh_name h) then rar_loop (S i) c members hs
      else
        let! _ := validateArchivePath (rh_name h) (MaxDepth limits) in
        let! _ := check (negb (negb (rh_link h =? 0) || rh_encrypted h || rh_header_encrypted h || has_mode (rh_mode h) ModeType && negb (rh_dir h)))
                    (ENotRegular (rh_name h)) in
        if rh_dir h then rar_loop (S i) c members hs
        else
          let! _ := check (entries c + 1 <=? maxArchiveEntries) EEntries in
          let expanded_ := if rh_unknown_size h then expanded c else wrap64 (expanded c + rh_unpacked h) in
          let! _ := check (rh_unknown_size h || (expanded_ <=? MaxExpanded limits)) EExpanded in
          let! _ := check (negb (isArchiveExtension (rh_name h))) ENested in
          let memberLimit := if rh_unknown_size h then wrap64 (MaxExpanded limits - expanded_) else rh_unpacked h in
          match rh_read h (wrap64 (memberLimit + 1)) with
          | None => Err EMemberExpands
          | Some body =>
              let! _ := check (size body <=? memberLimit) EMemberExpands in
              let expanded_ := if rh_unknown_size h then wrap64 (expanded_ + size body) else expanded_ in
              let! _ := check (negb (HasArchiveMagic body)) ENested in
              if negb (isSubtitleExtension (rh_name h)) then
                rar_loop (S i) (mkCounters 0 expanded_ (files c) (entries c + 1)) members hs
              else
                let! _ := check (files c + 1 <=? MaxFiles limits) EFiles in
                rar_loop (S i) (mkCounters 0 expanded_ (files c + 1) (entries c + 1))
                  (members ++ [mkArchiveMember (rh_name h) (rh_mode h) body]) hs
          end
  end.

Definition nothing_yet : counters := mkCounters 0 0 0 0.

(** [zip.NewReader] and [rardecode.NewReader] with the headers [Next] gives. *)
Context (zip_entries : bytes -> option (list zipEntry)) (rar_headers : bytes -> option (list (option rarHeader))).

Definition decodeZIP (payload : bytes) : result ContentError (list archiveMember) :=
  match zip_entries payload with
  | None => Err EOpenArchive
  | Some es => zip_loop 0 nothing_yet [] es
  end.

Definition decodeRAR (payload : bytes) : result ContentError (list archiveMember) :=
  match rar_headers payload with
  | None => Err EOpenArchive
  | Some hs => rar_loop 0 nothing_yet [] hs
  end.

Definition decodePayload (payload : bytes) (candidate : Candidate) : result ContentError (list archiveMember) :=
  if has_prefix zipMagic payload then decodeZIP payload
  else if has_prefix rarMagic payload then decodeRAR payload
  else if MaxExpanded limits <? size payload then Err EPlainSize
  else
    let name := path_base (default [] (head (split_rune 63%N (DownloadRef candidate)))) in
    let name := if bool_decide (name ∈ [t "."; t "/"; []]) then t "subtitle.srt" else name in
    Ok [mkArchiveMember name 384 payload].
End decode.

(** ** Subtitle text *)

Section subtitle.
(** The UTF-16 and Windows-1250 decoders of golang.org/x/text, and go-astisub's
    readers: [None] is an error. *)
Context (utf16_decode cp1250_decode : bytes -> option bytes).
Context (read_srt read_ssa read_vtt : text -> option (list Item)) (item_string : Item -> text).
Context (parse_float : text -> option parsed_float).

Definition decodeText (payload : bytes) : result ContentError bytes :=
  let! payload :=
    (if has_prefix [255; 254]%N payload || has_prefix [254; 255]%N payload then
       match utf16_decode payload with
       | Some decoded => if utf8_valid decoded then Ok decoded else Err EEncoding
       | None => Err EEncoding
       end
     else Ok payload) in
  if bool_decide (0%N ∈ payload) then Err ENul
  else if utf8_valid payload then Ok payload
  else match cp1250_decode payload with
       | Some decoded => if utf8_valid decoded then Ok decoded else Err EEncoding
       | None => Err EEncoding
       end.

(** The text as runes, with unix line ends and without a byte order mark. *)
Definition decodeSubtitle (payload : bytes) : result ContentError text :=
  let! decoded := decodeText payload in
  Ok (trim_prefix bom_text (replace_rune 13 newline (unix_lines (utf8_decode decoded)))).

(** A line with a negative time. *)
Definition negativeTiming : regex :=
  ((Bol ++ tabs ++ lit (t "-") ++ dig ++ until newline ++ lit (t "-->")) || (lit (t "-->") ++ tabs ++ lit (t "-") ++ dig))%re.
Definition negative_timing (content : text) : bool := existsb (matches negativeTiming) (split_rune newline content).

Definition parse_as (extension content : text) : option (list Item) :=
  if bool_decide (extension = t ".srt") then read_srt content
  else if isASS extension then read_ssa content
  else if bool_decide (extension = t ".vtt") then read_vtt content
  else None.

(** The first format that reads any cue. *)
Fixpoint first_format (extensions : list text) (content : text) : option (text * list Item) :=
  match extensions with
  | [] => None
  | extension :: extensions =>
      match parse_as extension content with
      | Some ((_ :: _) as items) => Some (extension, items)
      | _ => first_format extensions content
      end
  end.

Definition parsed (content extension : text) : option (text * list Item) :=
  if bool_decide (extension = []) then first_format [t ".srt"; t ".vtt"; t ".ass"] content
  else first_format [extension] content.

(** The cues already play in file order, and no kept one needs new times. *)
Fixpoint tidies (previous : duration) (items : list Item) (cues : list Cue) : bool :=
  match items, cues with
  | item :: items, cue :: cues =>
      if (StartAt item <? previous) || (EndAt item <? StartAt item) then false
      else if negb (CDrop cue) && CRetime cue then false
      else tidies (StartAt item) items cues
  | _, _ => true
  end.
Definition onlyTidies (items : list Item) (cues : list Cue) : bool := tidies 0 items cues.

Definition validateSubtitle (content extension : text) : result ContentError (text * text) :=
  match parsed content extension with
  | None => Err ESyntax
  | Some (extension, items) =>
      let! _ := check (Z.of_nat (length items) <=? 100000) ETooManyCues in
      let! _ := check (negb (negb (isASS extension) && negative_timing content)) ETimestamps in
      let! _ := check (negb (existsb (fun item => (StartAt item <? 0) || (EndAt item <? 0)) items)) ETimestamps in
      match planRepairs item_string items extension with
      | Err e => Err (EPlan e)
      | Ok cues =>
          match Repair content extension cues with
          | Ok repaired => Ok (repaired, extension)
          | Err e => if onlyTidies items cues then Ok (content, extension) else Err (EOrder e)
          end
      end
  end.

Definition converted (content : text) : result ContentError text :=
  match microDVDToSRT parse_float content with Ok srt => Ok srt | Err e => Err (EMicroDVD e) end.

Definition normalizeSubtitle (payload : bytes) (extension : text) : result ContentError (text * text) :=
  let! content := decodeSubtitle payload in
  let extension := to_lower extension in
  if bool_decide (extension = t ".sub") || bool_decide (extension = []) && isMicroDVD content then
    let! srt := converted content in validateSubtitle srt (t ".srt")
  else validateSubtitle content extension.
End subtitle.
End archive.

(** ** What a decoded archive is *)

(** A relative path inside a folder: at most [depth] folders and a name. *)
Definition confined (depth : Z) (name : text) : Prop :=
  exists es, Forall plain es /\ Z.of_nat (length es) <= depth + 1
  /\ path_clean (slashed name) = match es with [] => t "." | _ => join (t "/") es end.

(** The stack of a relative path: climbing elements below plain ones. *)
Lemma clean_relative es stack ups :
  Forall no_slash es -> Forall plain stack -> exists plains n, Forall plain plains
  /\ fold_left (clean_step false) es (stack ++ replicate ups (t "..")) = plains ++ replicate n (t "..").
Proof.
  intros Hes. revert stack ups. induction Hes as [|e es He _ IH]; intros stack ups Hst; [by exists stack, ups|].
  cbn [fold_left]. unfold clean_step.
  destruct (decide (e = [])) as [->|H1]; [by apply IH|]. rewrite (bool_decide_false (e = [])) by done.
  destruct (decide (e = t ".")) as [->|H2]; [by apply IH|]. rewrite (bool_decide_false (e = t ".")) by done. cbn [orb].
  destruct (decide (e = t "..")) as [->|H3].
  - rewrite bool_decide_true by done. destruct Hst as [|top stack Ht Hst]; cbn [app].
    + destruct ups as [|ups]; [by apply (IH [] 1%nat)|]. cbn [replicate]. rewrite bool_decide_true by done. by apply (IH [] (S (S ups))).
    + rewrite bool_decide_false by apply Ht. by apply IH.
  - rewrite bool_decide_false by done. apply (IH (e :: stack)). by constructor.
Qed.

Lemma join_first es : Forall plain es -> es <> [] -> exists r s, join (t "/") es = r :: s /\ (slash =? r)%N = false.
Proof.
  intros Hes Hne. destruct Hes as [|e es (Hs & He & _) _]; [done|]. destruct e as [|r e]; [done|].
  apply Forall_cons in Hs as [Hr _]. rewrite N.eqb_sym in Hr. destruct es as [|e' es]; [by exists r, e|].
  exists r. eexists. split; [|exact Hr]. change (join (t "/") ((r :: e) :: e' :: es)) with ((r :: e) ++ slash :: join (t "/") (e' :: es)).
  reflexivity.
Qed.

Lemma join_last es : Forall plain es -> es <> [] -> exists r s, join (t "/") es = s ++ [r] /\ (slash =? r)%N = false.
Proof.
  intros Hes Hne. destruct (exists_last Hne) as (es' & e & ->). apply Forall_app in Hes as [_ [He _]%Forall_cons].
  apply plain_last in He as (s & r & -> & Hr). rewrite join_snoc. exists r. destruct es' as [|e' es']; [by exists s|].
  eexists. split; [|exact Hr]. rewrite !app_assoc. reflexivity.
Qed.

Lemma trim_join es : Forall plain es -> es <> [] -> trim (N.eqb slash) (join (t "/") es) = join (t "/") es.
Proof.
  intros Hes Hne. unfold trim, trim_right. destruct (join_first es Hes Hne) as (r & s & E & Hr). rewrite E, trim_left_stop by done. rewrite <- E.
  destruct (join_last es Hes Hne) as (r' & s' & E' & Hr'). rewrite E', rev_app_distr. cbn [rev app].
  rewrite trim_left_stop by done. cbn [rev]. by rewrite rev_involutive.
Qed.

(** A relative path is climbing elements and then plain ones. *)
Lemma clean_unrooted s : rooted s = false -> exists n plains, Forall plain plains
  /\ path_clean s = match replicate n (t "..") ++ plains with [] => t "." | es => join (t "/") es end.
Proof.
  intros Hr. destruct (clean_relative (split_rune slash s) [] 0) as (plains & n & Hp & E); [apply split_elements_no_slash|done|].
  cbn [app replicate] in E. exists n, (rev plains). split; [by apply Forall_rev|].
  unfold path_clean. change (has_prefix (t "/") s) with (rooted s). rewrite Hr, E, rev_app_distr.
  assert (rev (replicate n (t "..")) = replicate n (t "..")) as ->.
  { clear. induction n as [|n IH]; [done|]. cbn [replicate rev]. rewrite IH. symmetry. exact (replicate_cons_app n (t "..")). }
  destruct (replicate n (t "..") ++ rev plains) as [|e es] eqn:Ees; [done|].
  rewrite bool_decide_false; [done|]. intros Ej. apply (f_equal (@length rune)) in Ej. revert Ej.
  assert (e <> []) as He.
  { assert (Forall (fun e => e <> []) (replicate n (t "..") ++ rev plains)) as Hall.
    { apply Forall_app. split; [by apply Forall_replicate|]. apply Forall_rev. eapply Forall_impl; [exact Hp|]. by intros x (_ & ? & _). }
    rewrite Ees in Hall. by apply Forall_cons in Hall as []. }
  destruct e as [|r e]; [done|]. destruct es; cbn; lia.
Qed.

Lemma validateArchivePath_ok name depth : validateArchivePath name depth = Ok tt -> confined depth name.
Proof.
  unfold validateArchivePath. destruct (has_prefix (t "/") (slashed name) || rooted name || drive (slashed name)) eqn:Ea; [done|].
  apply orb_false_iff in Ea as [[Hr _]%orb_false_iff _].
  destruct (bool_decide _ || _) eqn:Eup; [done|]. apply orb_false_iff in Eup as [E1%bool_decide_eq_false E2].
  destruct (depth <? _) eqn:Ed; [done|]. apply Z.ltb_ge in Ed. intros _.
  destruct (clean_unrooted (slashed name) Hr) as (n & plains & Hp & E). rewrite E in E1, E2, Ed. exists plains.
  assert (n = 0%nat) as ->.
  { destruct n as [|n]; [done|]. exfalso. cbn [replicate app] in E1, E2. destruct (replicate n (t "..") ++ plains) as [|e es]; [done|].
    change (join (t "/") (t ".." :: e :: es)) with (t "../" ++ join (t "/") (e :: es)) in E2.
    apply not_true_iff_false in E2. apply E2, has_prefix_spec. by eexists. }
  cbn [replicate app] in E, Ed. destruct plains as [|e plains]; [split_and!; [done|cbn in *; lia|done]|]. split_and!; [done| |done].
  rewrite trim_join, split_join in Ed by (done || by apply plain_no_slash). lia.
Qed.

(** ** The limits hold *)

Lemma check_ok b e : check b e = Ok tt <-> b = true.
Proof. by destruct b. Qed.

(** Steps through a check that passed. *)
Ltac passed E :=
  lazymatch type of E with
  | rbind (check _ _) _ = Ok _ =>
      let Hc := fresh "Hc" in apply rbind_ok in E as ([] & Hc & E); apply check_ok in Hc
  | rbind (validateArchivePath _ _) _ = Ok _ =>
      let Hp := fresh "Hp" in apply rbind_ok in E as ([] & Hp & E); apply validateArchivePath_ok in Hp
  end.

Definition total (members : list archiveMember) : Z := foldr (fun m acc => size (am_body m) + acc) 0 members.

Lemma total_snoc members m : total (members ++ [m]) = total members + size (am_body m).
Proof. unfold total. induction members as [|x l IH]; cbn in *; lia. Qed.

Section limits.
Context `{Unicode} (limits : Limits) (ctx_done : nat -> bool).

(** A subtitle of an archive as it may be read on. *)
Definition good_member (m : archiveMember) : Prop :=
  confined (MaxDepth limits) (am_name m) /\ isSubtitleExtension (am_name m) = true
  /\ macOSMetadata (am_name m) = false /\ HasArchiveMagic (am_body m) = false.

Record within_limits (members : list archiveMember) (expanded_ files_ : Z) : Prop := {
  wl_total : 0 <= total members <= expanded_;
  wl_expanded : expanded_ <= MaxExpanded limits;
  wl_files : Z.of_nat (length members) = files_ /\ files_ <= MaxFiles limits;
  wl_good : Forall good_member members;
}.

Lemma size_nonneg b : 0 <= size b.
Proof. unfold size. lia. Qed.

(** Reading a file that is not kept, and one that is. *)
Lemma within_skip members e f body : within_limits members e f -> e + size body <= MaxExpanded limits ->
  within_limits members (e + size body) f.
Proof. intros [] ?. pose proof (size_nonneg body). constructor; (lia || done). Qed.

Lemma within_keep members e f name mode body : within_limits members e f -> e + size body <= MaxExpanded limits ->
  f + 1 <= MaxFiles limits -> good_member (mkArchiveMember name mode body) ->
  within_limits (members ++ [mkArchiveMember name mode body]) (e + size body) (f + 1).
Proof.
  intros [] ???. pose proof (size_nonneg body). constructor; [rewrite total_snoc; cbn; lia|lia| |by apply Forall_app_2; [|constructor]].
  rewrite length_app. cbn [length]. lia.
Qed.

Lemma zip_loop_within es : forall i c members out, within_limits members (expanded c) (files c) ->
  zip_loop limits ctx_done i c members es = Ok out -> exists e f, within_limits out e f.
Proof.
  induction es as [|entry es IH]; intros i c members out Hw E; cbn [zip_loop] in E; [injection E as <-; by eauto|].
  passed E. destruct (macOSMetadata (ze_name entry)) eqn:Emac; [by eauto|]. do 2 passed E.
  destruct (has_mode (ze_mode entry) ModeDir); [by eauto|]. do 3 passed E.
  destruct (ze_open entry) as [read|]; [|done]. destruct (read _) as [body|]; [|done]. do 3 passed E.
  apply negb_true_iff in Hc6.
  destruct (negb (isSubtitleExtension (ze_name entry))) eqn:Esub.
  - eapply IH in E; [exact E|]. cbn [expanded files]. apply within_skip; [done|lia].
  - passed E. apply negb_false_iff in Esub. eapply IH in E; [exact E|]. cbn [expanded files]. apply within_keep; [done|lia|lia|done].
Qed.

(** The sizes RAR headers declare, short of those that overflow a sum. *)
Definition declared_sanely (hs : list (option rarHeader)) : Prop :=
  Forall (fun h => match h with Some h => - 2 ^ 63 <= rh_unpacked h <= 2 ^ 62 | None => True end) hs.

Lemma rar_loop_within hs : MaxExpanded limits < 2 ^ 62 -> declared_sanely hs ->
  forall i c members out, within_limits members (expanded c) (files c) ->
  rar_loop limits ctx_done i c members hs = Ok out -> exists e f, within_limits out e f.
Proof.
  intros Hmax. induction hs as [|h hs IH]; intros Hs i c members out Hw E; cbn [rar_loop] in E; passed E; [injection E as <-; by eauto|].
  apply Forall_cons in Hs as [Hh Hs]. specialize (IH Hs). destruct h as [h|]; [|done].
  destruct (macOSMetadata (rh_name h)) eqn:Emac; [by eauto|]. do 2 passed E.
  destruct (rh_dir h); [by eauto|]. passed E. pose proof Hw as [Ht He _ _].
  destruct (rh_unknown_size h) eqn:Eun; do 2 passed E.
  - rewrite !(wrap64_small (MaxExpanded limits - expanded c)) in E by lia. destruct (rh_read h _) as [body|]; [|done]. do 2 passed E.
    pose proof (size_nonneg body). rewrite (wrap64_small (expanded c + size body)) in E by lia. apply negb_true_iff in Hc5.
    destruct (negb (isSubtitleExtension (rh_name h))) eqn:Esub.
    + eapply IH in E; [exact E|]. cbn [expanded files]. apply within_skip; [done|lia].
    + passed E. apply negb_false_iff in Esub. eapply IH in E; [exact E|]. cbn [expanded files]. apply within_keep; [done|lia|lia|done].
  - rewrite (wrap64_small (expanded c + rh_unpacked h)) in E, Hc2 by lia. destruct (rh_read h _) as [body|]; [|done]. do 2 passed E.
    pose proof (size_nonneg body). apply negb_true_iff in Hc5. cbn [orb] in Hc2.
    assert (forall f members', within_limits members' (expanded c + size body) f -> within_limits members' (expanded c + rh_unpacked h) f) as Hup.
    { intros f members' []. constructor; (lia || done). }
    destruct (negb (isSubtitleExtension (rh_name h))) eqn:Esub.
    + eapply IH in E; [exact E|]. cbn [expanded files]. apply Hup, within_skip; [done|lia].
    + passed E. apply negb_false_iff in Esub. eapply IH in E; [exact E|]. cbn [expanded files]. apply Hup, within_keep; [done|lia|lia|done].
Qed.
End limits.

(** However sizes are declared, no more files are kept than permitted. *)
Section files.
Context `{Unicode} (limits : Limits) (ctx_done : nat -> bool).

Definition files_kept (members : list archiveMember) (c : counters) : Prop :=
  Z.of_nat (length members) = files c /\ files c <= MaxFiles limits.

Lemma files_keep members c m d e n : files_kept members c -> files c + 1 <= MaxFiles limits ->
  files_kept (members ++ [m]) (mkCounters d e (files c + 1) n).
Proof. unfold files_kept. rewrite length_app. cbn. lia. Qed.

Lemma zip_loop_files es : forall i c members out, files_kept members c ->
  zip_loop limits ctx_done i c members es = Ok out -> Z.of_nat (length out) <= MaxFiles limits.
Proof.
  induction es as [|entry es IH]; intros i c members out Hf E; cbn [zip_loop] in E; [injection E as <-; unfold files_kept in Hf; lia|].
  passed E. destruct (macOSMetadata (ze_name entry)); [eapply IH; [|exact E]; exact Hf|]. do 2 passed E.
  destruct (has_mode (ze_mode entry) ModeDir); [eapply IH; [|exact E]; exact Hf|]. do 3 passed E.
  destruct (ze_open entry) as [read|]; [|done]. destruct (read _) as [body|]; [|done]. do 3 passed E.
  destruct (negb (isSubtitleExtension (ze_name entry))); [eapply IH; [|exact E]; exact Hf|]. passed E. eapply IH; [|exact E]. apply files_keep; [done|lia].
Qed.

Lemma rar_loop_files hs : forall i c members out, files_kept members c ->
  rar_loop limits ctx_done i c members hs = Ok out -> Z.of_nat (length out) <= MaxFiles limits.
Proof.
  induction hs as [|h hs IH]; intros i c members out Hf E; cbn [rar_loop] in E; passed E; [injection E as <-; unfold files_kept in Hf; lia|].
  destruct h as [h|]; [|done]. destruct (macOSMetadata (rh_name h)); [eapply IH; [|exact E]; exact Hf|]. do 2 passed E.
  destruct (rh_dir h); [eapply IH; [|exact E]; exact Hf|]. do 3 passed E. destruct (rh_read h _) as [body|]; [|done]. do 2 passed E.
  destruct (negb (isSubtitleExtension (rh_name h))); [eapply IH; [|exact E]; exact Hf|]. passed E. eapply IH; [|exact E]. apply files_keep; [done|lia].
Qed.

Lemma decoded_files zip_entries rar_headers payload candidate members : validateLimits limits = true ->
  decodePayload limits ctx_done zip_entries rar_headers payload candidate = Ok members -> Z.of_nat (length members) <= MaxFiles limits.
Proof.
  unfold validateLimits, decodePayload, decodeZIP, decodeRAR. intros Hl E. bools.
  assert (files_kept [] nothing_yet) as Hf by (unfold files_kept; cbn; lia).
  destruct (has_prefix zipMagic payload); [destruct (zip_entries payload); [by eapply zip_loop_files|done]|].
  destruct (has_prefix rarMagic payload); [destruct (rar_headers payload); [by eapply rar_loop_files|done]|].
  destruct (MaxExpanded limits <? size payload); [done|]. injection E as <-. cbn. lia.
Qed.
End files.

(** C23. What a payload decodes to keeps the limits: its members hold at most
    the permitted bytes together, they are at most as many as permitted, and
    those of an archive are subtitles on relative paths that stay inside at most
    the permitted number of folders, no archives themselves. A RAR archive is
    only held to its limit while no header declares more than 2^62 bytes. *)
Theorem archive_within_limits `{Unicode} limits ctx_done zip_entries rar_headers payload candidate members :
  validateLimits limits = true -> MaxExpanded limits < 2 ^ 62 ->
  (forall hs, rar_headers payload = Some hs -> declared_sanely hs) ->
  decodePayload limits ctx_done zip_entries rar_headers payload candidate = Ok members ->
  total members <= MaxExpanded limits /\ Z.of_nat (length members) <= MaxFiles limits
  /\ (HasArchiveMagic payload = true -> Forall (good_member limits) members).
Proof.
  unfold validateLimits. intros Hl Hmax Hrar E. bools.
  assert (within_limits limits [] (expanded nothing_yet) (files nothing_yet)) as Hw0 by (constructor; cbn; (done || lia)).
  unfold decodePayload, HasArchiveMagic in *. destruct (has_prefix zipMagic payload).
  { unfold decodeZIP in E. destruct (zip_entries payload) as [es|]; [|done]. eapply zip_loop_within in E as (e & f & []); [|done]. split_and!; (lia || done). }
  destruct (has_prefix rarMagic payload).
  { unfold decodeRAR in E. destruct (rar_headers payload) as [hs|] eqn:Eh; [|done].
    eapply rar_loop_within in E as (e & f & []); [|done|by apply Hrar|done]. split_and!; (lia || done). }
  destruct (MaxExpanded limits <? size payload) eqn:Es; [done|]. injection E as <-. cbn. apply Z.ltb_ge in Es. split_and!; (lia || done).
Qed.

(** ** Examples *)

(** [io.ReadAll(io.LimitReader(_, n))] of a content. *)
Definition sample_read (content : bytes) (n : Z) : option bytes := Some (take (Z.to_nat n) content).
Definition sample_limits : Limits := mkLimits 100 10 5 1.
Definition never (i : nat) : bool := false.

Definition sample_zip : list zipEntry :=
  [mkZipEntry (t "__MACOSX/Show/._e1.srt") 420 9 (Some (sample_read (t "metadata!")));
   mkZipEntry (t "Show/") (ModeDir + 493) 0 (Some (sample_read []));
   mkZipEntry (t "Show\e1.srt") 420 4 (Some (sample_read (t "1234")));
   mkZipEntry (t "Show/info.nfo") 420 3 (Some (sample_read (t "nfo")))].

Definition sample_decode (entries_ : list zipEntry) : result ContentError (list archiveMember) :=
  decodeZIP sample_limits never (fun _ => Some entries_) zipMagic.

Example zip_decoded : sample_decode sample_zip = Ok [mkArchiveMember (t "Show\e1.srt") 420 (t "1234")].
Proof. by vm_compute. Qed.
Example zip_traversal : sample_decode [mkZipEntry (t "a/../../e1.srt") 420 4 (Some (sample_read (t "1234")))] = Err EEscapes.
Proof. by vm_compute. Qed.
Example zip_bomb : sample_decode [mkZipEntry (t "e1.srt") 420 4 (Some (sample_read (replicate 1000 65%N)))] = Err EMemberExpands.
Proof. by vm_compute. Qed.

Definition sample_rar (name : text) (declared_ : Z) (content : bytes) : option rarHeader :=
  Some (mkRarHeader name 0 false false 420 false false declared_ (sample_read content)).

(** Declared sizes whose sum overflows lift the limit: ten bytes are allowed,
    a hundred and one are read. *)
Example rar_limit_overflows :
  match decodeRAR sample_limits never
    (fun _ => Some [sample_rar (t "a.srt") 1 (t "x"); sample_rar (t "b.srt") (2 ^ 63 - 1) []; sample_rar (t "c.srt") 100 (replicate 100 65%N)])
    rarMagic with
  | Ok members => total members
  | Err _ => 0
  end = 101.
Proof. by vm_compute. Qed.

Definition any_candidate : Candidate :=
  mkCandidate [] [] [] MediaEpisode [] [] [] 0 0 0 0 (mkExternalIDs [] 0 0) [] [] [] false false false 0%Q 0%Q 0 [] [] None false.

Lemma archive_within_limits_witness :
  total [mkArchiveMember (t "Show\e1.srt") 420 (t "1234")] <= 10
  /\ good_member sample_limits (mkArchiveMember (t "Show\e1.srt") 420 (t "1234")).
Proof.
  destruct (archive_within_limits sample_limits never (fun _ => Some sample_zip) (fun _ => None) zipMagic any_candidate
    [mkArchiveMember (t "Show\e1.srt") 420 (t "1234")] eq_refl ltac:(by vm_compute) ltac:(done) zip_decoded) as (Ht & _ & Hg).
  split; [exact Ht|]. pose proof (Hg eq_refl) as Hf. inversion Hf. assumption.
Defined.
