(* ===== verification/Extraction.v ===== *)
(** * Extracting a payload (src/internal/pack/archive.go)

    [assignMemberNames] gives the subtitles of an archive file names that differ
    whatever the case; [Extract] decodes a payload, keeps its readable subtitles
    under those names, writes them to a staging directory and renames it into
    place. The files it touches are calls of a program (Calls.v): every answer
    of the file system and every cancellation is a run. *)
From S2P Require Import Prelude GoText Paths GoFloat Domain PackSelect CueOrder CueRepair Archive Calls.

#[local] Open Scope Z_scope.
#[local] Arguments N.eqb : simpl never.

(** ** Names *)

Record extractedMember := mkExtracted { em_path : text; em_name : text; em_text : text; em_sum : text }.

Definition dash : text := t " - ".
Definition maximumName : Z := 255.

(** The folders of an archive path, outermost first. *)
Definition memberFolders (name : text) : list text :=
  base.filter (fun folder => folder <> t "." /\ folder <> []) (split_rune slash (path_dir (slashed name))).

Section names.
Context `{Unicode}.

Definition last_n {A} (n : nat) (l : list A) : list A := drop (length l - n) l.

(** The prefixes of the [count] innermost folders. *)
Definition prefixes_at (count : nat) (folders : list (list text)) : list text :=
  map (fun path => match path with [] => [] | _ => join dash (last_n count path) ++ dash end) folders.

Fixpoint distinct_folded (seen : list text) (prefixes : list text) : bool :=
  match prefixes with
  | [] => true
  | p :: prefixes => negb (bool_decide (to_lower p ∈ seen)) && distinct_folded (to_lower p :: seen) prefixes
  end.

(** From [count] folders on, for [rest] more counts after it. *)
Fixpoint shortest_prefixes (count rest : nat) (folders : list (list text)) : list text :=
  let prefixes := prefixes_at count folders in
  match rest with
  | O => prefixes
  | S rest => if distinct_folded [] prefixes then prefixes else shortest_prefixes (S count) rest folders
  end.

Definition distinguishingPrefixes (folders : list (list text)) : list text :=
  match foldr Nat.max 0%nat (map length folders) with
  | O => map (fun _ => []) folders
  | S depth => shortest_prefixes 1 depth folders
  end.

Definition name_key (s : extractedMember) : text := to_lower (em_name s).

(** Distinct keys in order of first appearance. *)
Fixpoint new_keys (seen : list text) (subs : list extractedMember) : list text :=
  match subs with
  | [] => []
  | s :: subs => if bool_decide (name_key s ∈ seen) then new_keys seen subs else name_key s :: new_keys (name_key s :: seen) subs
  end.

Definition indexed (subs : list extractedMember) : list (nat * extractedMember) := imap pair subs.

Definition member_less (a b : nat * extractedMember) : bool :=
  if bool_decide (em_path a.2 = em_path b.2) then text_lt (em_sum a.2) (em_sum b.2) else text_lt (em_path a.2) (em_path b.2).

(** One of each text. *)
Fixpoint distinct_texts (kept : list text) (group : list (nat * extractedMember)) : list (nat * extractedMember) :=
  match group with
  | [] => []
  | m :: group => if bool_decide (em_sum m.2 ∈ kept) then distinct_texts kept group else m :: distinct_texts (em_sum m.2 :: kept) group
  end.

Definition numbered_name (name : text) (number : nat) : text :=
  let extension := path_ext name in
  trim_suffix extension name ++ t " (" ++ itoa (Z.of_nat number) ++ t ")" ++ extension.

(** The first number whose name is free; [fuel] numbers are tried. *)
Fixpoint free_number (fuel number : nat) (name : text) (taken : list text) : option text :=
  match fuel with
  | O => None
  | S fuel =>
      let candidate := numbered_name name number in
      if bool_decide (to_lower candidate ∈ taken) then free_number fuel (S number) name taken else Some candidate
  end.

(** One more name than there are taken ones: one is free. *)
Definition number_name (name : text) (taken : list text) : text :=
  default name (free_number (S (length taken)) 2 name taken).

(** The name of a member beside others of its name, and whether the bare name
    is used now. *)
Definition settled_name (prefix name : text) (taken : list text) (bareUsed : bool) : text * bool :=
  if bool_decide (prefix = []) || bool_decide (to_lower (prefix ++ name) ∈ taken) || (maximumName <? byte_len (prefix ++ name)) then
    (if bareUsed then number_name name taken else name, true)
  else (prefix ++ name, bareUsed).

Fixpoint name_group (taken : list text) (bareUsed : bool) (group : list ((nat * extractedMember) * text))
    : result ContentError (list text * list (nat * text)) :=
  match group with
  | [] => Ok (taken, [])
  | ((i, s), prefix) :: group =>
      let '(name, bareUsed) := settled_name prefix (em_name s) taken bareUsed in
      if maximumName <? byte_len name then Err (EDuplicateName (em_name s))
      else
        let! rest := name_group (to_lower name :: taken) bareUsed group in
        Ok (rest.1, (i, name) :: rest.2)
  end.

(** The members that share a key: their indexes and names. *)
Definition group_names (subs : list extractedMember) (key : text) (taken : list text)
    : result ContentError (list text * list (nat * text)) :=
  let group := stable_sort member_less (base.filter (fun m => name_key m.2 = key) (indexed subs)) in
  let distinct := distinct_texts [] group in
  if (length distinct <? 2)%nat then Ok (taken, map (fun m => (m.1, em_name m.2)) distinct)
  else name_group taken false (zip distinct (distinguishingPrefixes (map (fun m => memberFolders (em_path m.2)) distinct))).

Fixpoint all_names (subs : list extractedMember) (keys : list text) (taken : list text) : result ContentError (list (nat * text)) :=
  match keys with
  | [] => Ok []
  | key :: keys =>
      let! group := group_names subs key taken in
      let! rest := all_names subs keys group.1 in
      Ok (group.2 ++ rest)
  end.

Fixpoint name_at (i : nat) (names : list (nat * text)) : option text :=
  match names with
  | [] => None
  | (j, name) :: names => if (i =? j)%nat then Some name else name_at i names
  end.

Definition renamed (s : extractedMember) (name : text) : extractedMember := mkExtracted (em_path s) name (em_text s) (em_sum s).

(** The members that keep a name, in the order of the archive. *)
Definition assignMemberNames (subs : list extractedMember) : result ContentError (list extractedMember) :=
  let keys := stable_sort text_lt (new_keys [] subs) in
  let! names := all_names subs keys keys in
  Ok (omap (fun '(i, s) => renamed s <$> name_at i names) (indexed subs)).
End names.

(** ** Names differ *)

Lemma decimal_digits_go fuel n acc : (0 <= n < 10 ^ Z.of_nat fuel)%Z ->
  decimal (digits_go fuel n acc) = fold_left (fun acc r => acc * 10 + digit_value r) acc n.
Proof.
  unfold decimal. revert n acc. induction fuel as [|fuel IH]; intros n acc Hn; [cbn in *; f_equal; lia|].
  cbn [digits_go]. pose proof (Z.mod_pos_bound n 10 ltac:(lia)) as Hm. pose proof (Z.div_mod n 10 ltac:(lia)) as Hd.
  assert (digit_value (Z.to_N (n mod 10 + 48)) = n mod 10) as Hv by (unfold digit_value; lia).
  destruct (Z.ltb_spec n 10).
  - cbn [fold_left]. rewrite Hv, (Z.mod_small n 10) by lia. reflexivity.
  - rewrite IH; [cbn [fold_left]; rewrite Hv; f_equal; lia|].
    rewrite Nat2Z.inj_succ, Z.pow_succ_r in Hn by lia. split; [apply Z.div_pos; lia|]. apply Z.div_lt_upper_bound; lia.
Qed.

Lemma itoa_inj m n : 0 <= m < 10 ^ 20 -> 0 <= n < 10 ^ 20 -> itoa m = itoa n -> m = n.
Proof.
  intros Hm Hn E. unfold itoa in E. destruct (Z.ltb_spec m 0), (Z.ltb_spec n 0); [lia..|].
  apply (f_equal decimal) in E. rewrite !decimal_digits_go in E by (cbn; lia). exact E.
Qed.

Section names_differ.
Context `{Unicode}.

Lemma to_lower_app a b : to_lower (a ++ b) = to_lower a ++ to_lower b.
Proof. apply map_app. Qed.

Lemma lower_digits s : Forall (fun r => ascii_digit r = true) s -> to_lower s = s.
Proof.
  unfold to_lower. induction 1 as [|r s Hr _ IH]; [done|]. cbn [map]. rewrite IH. f_equal. unfold lower, with_ascii.
  unfold ascii_digit, between in Hr. apply andb_true_iff in Hr as [H1%N.leb_le H2%N.leb_le].
  assert ((r <? 128)%N = true) as -> by (apply N.ltb_lt; lia). unfold ascii_upper, between.
  assert ((65 <=? r)%N = false) as -> by (apply N.leb_gt; lia). done.
Qed.

Lemma numbered_name_inj name m n : Z.of_nat m < 10 ^ 20 -> Z.of_nat n < 10 ^ 20 ->
  to_lower (numbered_name name m) = to_lower (numbered_name name n) -> m = n.
Proof.
  unfold numbered_name. intros Hm Hn E. rewrite !to_lower_app in E. apply app_inv_head, app_inv_head in E.
  apply app_inv_tail in E. rewrite !lower_digits in E by (apply itoa_digits; lia).
  apply itoa_inj in E; lia.
Qed.

Lemma free_number_total fuel number name taken : Z.of_nat (number + fuel) < 10 ^ 20 ->
  (exists c, free_number fuel number name taken = Some c /\ to_lower c ∉ taken)
  \/ (free_number fuel number name taken = None /\ Forall (fun k => to_lower (numbered_name name k) ∈ taken) (seq number fuel)).
Proof.
  revert number. induction fuel as [|fuel IH]; intros number Hb; cbn [free_number seq]; [by right|].
  case_bool_decide as Hin; [|left; by eexists]. destruct (IH (S number)) as [?|[? ?]]; [lia|by left|right]. split; [done|by constructor].
Qed.

(** One more number than there are taken names: one is free. *)
Lemma number_name_free name taken : Z.of_nat (length taken) < 10 ^ 19 -> to_lower (number_name name taken) ∉ taken.
Proof.
  intros Hl. unfold number_name. destruct (free_number_total (S (length taken)) 2 name taken) as [(c & -> & Hc)|[_ Hall]]; [lia|exact Hc|exfalso].
  assert (NoDup ((fun k => to_lower (numbered_name name k)) <$> seq 2 (S (length taken)))) as Hnd.
  { apply NoDup_fmap_2_strong; [|apply NoDup_seq]. intros m n Hm%elem_of_seq Hn%elem_of_seq. apply numbered_name_inj; lia. }
  assert ((fun k => to_lower (numbered_name name k)) <$> seq 2 (S (length taken)) ⊆ taken) as Hsub.
  { intros x (k & -> & Hk)%list_elem_of_fmap. rewrite Forall_forall in Hall. by apply Hall. }
  pose proof (NoDup_submseteq _ _ Hnd Hsub) as Hlen%submseteq_length. rewrite length_fmap, length_seq in Hlen. lia.
Qed.

Definition low_names (names : list (nat * text)) : list text := (fun p => to_lower p.2) <$> names.

(** Members of one key get names of their own: none that is taken, except that
    one of them may have the key itself. *)
Lemma name_group_spec key group : forall taken bare taken' names,
  key ∈ taken -> Forall (fun m => name_key m.1.2 = key) group -> Z.of_nat (length taken + length group) < 10 ^ 19 ->
  name_group taken bare group = Ok (taken', names) ->
  names.*1 = (fun m => m.1.1) <$> group /\ NoDup (low_names names)
  /\ Forall (fun n => n ∈ taken' /\ (n ∉ taken \/ bare = false /\ n = key)) (low_names names)
  /\ (forall n, n ∈ taken -> n ∈ taken') /\ length taken' = (length taken + length group)%nat.
Proof.
  induction group as [|[[i s] prefix] group IH]; intros taken bare taken' names Hk Hg Hl E; cbn [name_group] in E.
  { injection E as <- <-. split_and!; [done|constructor|constructor|done|cbn; lia]. }
  apply Forall_cons in Hg as [Hs Hg]. cbn [fst snd] in Hs. destruct (settled_name prefix (em_name s) taken bare) as [name bare'] eqn:En.
  destruct (maximumName <? byte_len name); [done|]. apply rbind_ok in E as ([t1 ns] & E & [= <- <-]). cbn [fst snd].
  cbn [length] in Hl.
  assert (to_lower name ∉ taken /\ bare' = bare \/ bare = false /\ bare' = true /\ to_lower name = key
          \/ to_lower name ∉ taken /\ bare' = true) as Hname.
  { unfold settled_name in En. destruct (bool_decide (prefix = []) || _ || _) eqn:Eb.
    - injection En as <- <-. destruct bare; [|by right; left]. right. right. split; [apply number_name_free; lia|done].
    - injection En as <- <-. left. apply orb_false_iff in Eb as [[_ Eb%bool_decide_eq_false]%orb_false_iff _]. done. }
  apply IH in E as (Hi & Hn & Hf & Hsub & Hlen); [|by right|done|cbn [length]; lia].
  rewrite Forall_forall in Hf. unfold low_names in *. cbn [fmap list_fmap length] in *. split_and!.
  - by rewrite Hi.
  - cbn. apply NoDup_cons. split; [|exact Hn]. intros Hin. destruct (Hf _ Hin) as [_ [Hx|[Hb Hx]]]; [by apply Hx; left|].
    destruct Hname as [[Hnt _]|[(_ & -> & _)|[_ ->]]]; [|done..]. exact (Hnt (eq_ind_r (fun k => k ∈ taken) Hk Hx)).
  - constructor.
    + split; [apply Hsub; by left|]. cbn. destruct Hname as [[? _]|[(? & _ & ?)|[? _]]]; [by left|by right|by left].
    + apply Forall_forall. intros x Hx. destruct (Hf x Hx) as [Hx1 [Hx2|[Hb Hx2]]]; (split; [done|]).
      * left. intros Hx'. apply Hx2. by right.
      * destruct Hname as [[_ <-]|[(_ & -> & _)|[_ ->]]]; [by right|done..].
  - intros x Hx. apply Hsub. by right.
  - lia.
Qed.

Lemma distinguishingPrefixes_length folders : length (distinguishingPrefixes folders) = length folders.
Proof.
  unfold distinguishingPrefixes. destruct (foldr _ _ _) as [|depth]; [by rewrite length_map|].
  generalize 1%nat. induction depth as [|depth IH]; intros count; cbn [shortest_prefixes]; [by unfold prefixes_at; rewrite length_map|].
  destruct (distinct_folded _ _); [by unfold prefixes_at; rewrite length_map|apply IH].
Qed.

Lemma distinct_texts_sub kept group : distinct_texts kept group `sublist_of` group.
Proof.
  revert kept. induction group as [|m group IH]; intros kept; cbn; [done|]. case_bool_decide; by constructor.
Qed.

Lemma distinct_texts_all kept group m : m ∈ group -> em_sum m.2 ∈ kept \/ exists m', m' ∈ distinct_texts kept group /\ em_sum m'.2 = em_sum m.2.
Proof.
  revert kept. induction group as [|x group IH]; intros kept Hm; [by inversion Hm|]. cbn.
  apply elem_of_cons in Hm as [->|Hm].
  - case_bool_decide as Hx; [by left|]. right. exists x. split; [by left|done].
  - case_bool_decide as Hx; [by apply IH|]. destruct (IH (em_sum x.2 :: kept) Hm) as [[E|E]%elem_of_cons|(m' & Hm' & E)].
    + right. exists x. split; [by left|done].
    + by left.
    + right. exists m'. split; [by right|done].
Qed.

Lemma indexed_lookup subs i s : (i, s) ∈ indexed subs <-> subs !! i = Some s.
Proof.
  unfold indexed. rewrite elem_of_lookup_imap. split; [by intros (j & x & [= -> ->] & ?)|by intros; eauto].
Qed.

Lemma indexed_indices subs : (indexed subs).*1 = seq 0 (length subs).
Proof.
  unfold indexed. rewrite fmap_imap. apply list_eq. intros i. rewrite list_lookup_imap.
  destruct (subs !! i) as [s|] eqn:Es; cbn.
  - apply lookup_lt_Some in Es. by rewrite lookup_seq_lt.
  - apply lookup_ge_None in Es. by rewrite lookup_seq_ge.
Qed.

Lemma indexed_NoDup subs : NoDup (indexed subs).
Proof. apply (NoDup_fmap_1 fst). rewrite indexed_indices. apply NoDup_seq. Qed.

Definition sharing (subs : list extractedMember) (key : text) : list (nat * extractedMember) :=
  base.filter (fun m => name_key m.2 = key) (indexed subs).

(** What one group settles. *)
Record group_settled (subs : list extractedMember) (key : text) (taken taken' : list text) (names : list (nat * text)) : Prop := {
  gs_members : forall i name, (i, name) ∈ names -> exists s, subs !! i = Some s /\ name_key s = key;
  gs_indices : NoDup names.*1;
  gs_differ : NoDup (low_names names);
  gs_free : Forall (fun n => n ∈ taken' /\ (n ∉ taken \/ n = key)) (low_names names);
  gs_taken : forall n, n ∈ taken -> n ∈ taken';
  gs_length : (length taken' <= length taken + length (sharing subs key))%nat;
  gs_texts : forall i s, subs !! i = Some s -> name_key s = key ->
    exists j name s', (j, name) ∈ names /\ subs !! j = Some s' /\ name_key s' = key /\ em_sum s' = em_sum s;
}.

Lemma group_names_settled subs key taken taken' names :
  key ∈ taken -> Z.of_nat (length taken + length (sharing subs key)) < 10 ^ 19 ->
  group_names subs key taken = Ok (taken', names) -> group_settled subs key taken taken' names.
Proof.
  intros Hk Hl E. unfold group_names in E. fold (sharing subs key) in E.
  set (group := stable_sort member_less (sharing subs key)) in *. set (distinct := distinct_texts [] group) in *.
  assert (group ≡ₚ sharing subs key) as Hperm by apply stable_sort_perm.
  pose proof (distinct_texts_sub [] group) as Hsub. fold distinct in Hsub.
  assert (forall m, m ∈ distinct -> subs !! m.1 = Some m.2 /\ name_key m.2 = key) as Hin.
  { intros [i s] Hm. eapply elem_of_sublist in Hm; [|exact Hsub]. rewrite Hperm in Hm. unfold sharing in Hm.
    apply list_elem_of_filter in Hm as [Hkey Hm%indexed_lookup]. done. }
  assert (length distinct <= length (sharing subs key))%nat as Hlen by (rewrite <- Hperm; by apply sublist_length).
  assert (NoDup distinct.*1) as Hnd.
  { eapply sublist_NoDup; [|by apply fmap_sublist]. rewrite Hperm. eapply sublist_NoDup; [|apply fmap_sublist, sublist_filter].
    rewrite indexed_indices. apply NoDup_seq. }
  assert (forall i s, subs !! i = Some s -> name_key s = key -> exists m, m ∈ distinct /\ em_sum m.2 = em_sum s) as Htexts.
  { intros i s Hi Hs. assert ((i, s) ∈ group) as Hg by (rewrite Hperm; apply list_elem_of_filter; split; [done|by apply indexed_lookup]).
    by destruct (distinct_texts_all [] group _ Hg) as [Hx|?]; [inversion Hx|]. }
  destruct (length distinct <? 2)%nat eqn:E2.
  - injection E as <- <-. apply Nat.ltb_lt in E2. constructor.
    + intros i name (m & [= -> ->] & Hm)%list_elem_of_fmap. destruct (Hin m Hm). eauto.
    + by rewrite <- list_fmap_compose.
    + destruct distinct as [|m [|m' rest]]; [constructor|apply NoDup_singleton|cbn in E2; lia].
    + apply Forall_forall. intros n Hn. unfold low_names in Hn. rewrite <- list_fmap_compose in Hn.
      apply list_elem_of_fmap in Hn as (m & En & Hm). destruct (Hin m Hm) as [_ Hkm].
      change (n = name_key m.2) in En. rewrite En, Hkm. by split; [|right].
    + done.
    + lia.
    + intros i s Hi Hs. destruct (Htexts i s Hi Hs) as (m & Hm & Hsum). destruct (Hin m Hm). exists m.1, (em_name m.2), m.2.
      split_and!; [|done..]. apply list_elem_of_fmap. by exists m.
  - set (prefixes := distinguishingPrefixes _) in *.
    assert (length prefixes = length distinct) as Hpl by (unfold prefixes; by rewrite distinguishingPrefixes_length, length_map).
    assert ((zip distinct prefixes).*1 = distinct) as Hzip by (apply fst_zip; lia).
    apply (name_group_spec key) in E as (Hi & Hn & Hf & Ht & Hlt); [|done|..].
    + assert (names.*1 = distinct.*1) as Hidx.
      { rewrite Hi. rewrite <- Hzip at 2. by rewrite <- list_fmap_compose. }
      rewrite length_zip in Hlt. constructor; try done.
      * intros i name Hm. assert (i ∈ distinct.*1) as (m & -> & Hm')%list_elem_of_fmap.
        { rewrite <- Hidx. apply list_elem_of_fmap. by exists (i, name). }
        destruct (Hin m Hm'). eauto.
      * by rewrite Hidx.
      * eapply Forall_impl; [exact Hf|]. cbn. intros n [? [?|[_ ?]]]; (split; [done|]); [by left|by right].
      * lia.
      * intros i s Hi' Hs. destruct (Htexts i s Hi' Hs) as (m & Hm & Hsum). destruct (Hin m Hm).
        assert (m.1 ∈ names.*1) as ([j name] & Ej & Hj)%list_elem_of_fmap by (rewrite Hidx; apply list_elem_of_fmap; by exists m).
        exists m.1, name, m.2. rewrite Ej at 1. by split_and!.
    + apply Forall_forall. intros [m prefix] Hm. cbn. apply Hin. rewrite <- Hzip. apply list_elem_of_fmap. by exists (m, prefix).
    + rewrite length_zip. lia.
Qed.

Definition load (subs : list extractedMember) (keys : list text) : nat := foldr (fun k acc => (length (sharing subs k) + acc)%nat) 0%nat keys.

Lemma load_bound subs keys : NoDup keys -> (load subs keys <= length subs)%nat.
Proof.
  intros Hnd. assert (load subs keys = length (base.filter (fun m => name_key m.2 ∈ keys) (indexed subs))) as ->.
  - induction Hnd as [|k keys Hk _ IH]; cbn [load foldr].
    + induction (indexed subs) as [|m l IHl]; [done|]. rewrite filter_cons_False; [exact IHl|]. intros Hm. by inversion Hm.
    + fold (load subs keys). rewrite IH. unfold sharing. clear IH. induction (indexed subs) as [|m l IH]; [done|].
      rewrite !filter_cons. destruct (decide (name_key m.2 = k)) as [E|E].
      * rewrite (decide_True (P:=name_key m.2 ∈ k :: keys)) by (rewrite E; by left). rewrite decide_False by (by rewrite E). cbn. lia.
      * destruct (decide (name_key m.2 ∈ keys)) as [Hm|Hm].
        -- rewrite decide_True by (by right). cbn. lia.
        -- rewrite decide_False by (by intros [?|?]%elem_of_cons). done.
  - etrans; [apply length_filter|]. unfold indexed. by rewrite length_imap.
Qed.

Record names_settled (subs : list extractedMember) (keys taken : list text) (names : list (nat * text)) : Prop := {
  ns_members : forall i name, (i, name) ∈ names -> exists s, subs !! i = Some s /\ name_key s ∈ keys;
  ns_indices : NoDup names.*1;
  ns_differ : NoDup (low_names names);
  ns_free : forall n, n ∈ low_names names -> n ∉ taken \/ n ∈ keys;
  ns_texts : forall i s, subs !! i = Some s -> name_key s ∈ keys ->
    exists j name s', (j, name) ∈ names /\ subs !! j = Some s' /\ name_key s' = name_key s /\ em_sum s' = em_sum s;
}.

Lemma all_names_settled subs keys : NoDup keys -> forall taken names,
  (forall k, k ∈ keys -> k ∈ taken) -> Z.of_nat (length taken + load subs keys) < 10 ^ 19 ->
  all_names subs keys taken = Ok names -> names_settled subs keys taken names.
Proof.
  induction 1 as [|key keys Hkey Hnd IH]; intros taken names Hk Hl E; cbn [all_names] in E.
  { injection E as <-. constructor; try constructor; try (intros; by inversion H0); intros; by inversion H1. }
  apply rbind_ok in E as ([taken1 ns1] & E1 & E). apply rbind_ok in E as (ns2 & E2 & [= <-]). cbn [fst snd] in *.
  cbn [load foldr] in Hl. fold (load subs keys) in Hl.
  apply group_names_settled in E1 as [M1 I1 D1 F1 T1 L1 X1]; [|apply Hk; by left|lia].
  apply IH in E2 as [M2 I2 D2 F2 X2]; [|intros k ?; apply T1, Hk; by right|lia].
  rewrite Forall_forall in F1. constructor.
  - intros i name [Hm|Hm]%elem_of_app; [destruct (M1 _ _ Hm) as (s & ? & <-)|destruct (M2 _ _ Hm) as (s & ? & ?)]; exists s; (split; [done|]); [by left|by right].
  - rewrite fmap_app. apply NoDup_app. split_and!; [done| |done].
    intros i ([i1 n1] & -> & H1)%list_elem_of_fmap ([i2 n2] & Ei & H2)%list_elem_of_fmap. cbn in Ei. subst i2.
    destruct (M1 _ _ H1) as (s & Hs & Es), (M2 _ _ H2) as (s' & Hs' & Es'). simplify_eq. done.
  - unfold low_names in *. rewrite fmap_app. apply NoDup_app. split_and!; [done| |done].
    intros n Hn1 Hn2. destruct (F1 _ Hn1) as [Ht1 Hor]. destruct (F2 _ Hn2) as [Hx|Hx]; [done|].
    destruct Hor as [Hx' | ->]; [|done]. apply Hx', Hk. by right.
  - unfold low_names in *. rewrite fmap_app. intros n [Hn|Hn]%elem_of_app.
    + destruct (F1 _ Hn) as [_ [? | ->]]; [by left|right; by left].
    + destruct (F2 _ Hn) as [Hx|Hx]; [left; intros Hx'; by apply Hx, T1|right; by right].
  - intros i s Hi [Es|Es]%elem_of_cons.
    + destruct (X1 i s Hi Es) as (j & name & s' & Hj & ? & ? & ?). exists j, name, s'. split_and!; [apply elem_of_app; by left|done|congruence|done].
    + destruct (X2 i s Hi Es) as (j & name & s' & Hj & ?). exists j, name, s'. split; [apply elem_of_app; by right|done].
Qed.

Lemma new_keys_spec seen subs : NoDup (new_keys seen subs) /\ (length (new_keys seen subs) <= length subs)%nat
  /\ (forall k, k ∈ new_keys seen subs -> k ∉ seen) /\ (forall s, s ∈ subs -> name_key s ∈ seen \/ name_key s ∈ new_keys seen subs).
Proof.
  revert seen. induction subs as [|x subs IH]; intros seen; cbn [new_keys].
  { split_and!; [constructor|done|intros k Hk; by inversion Hk|intros s Hs; by inversion Hs]. }
  case_bool_decide as Hx.
  - destruct (IH seen) as (? & ? & ? & Hs). split_and!; [done|cbn; lia|done|]. intros s [->|Hin]%elem_of_cons; [by left|by apply Hs].
  - destruct (IH (name_key x :: seen)) as (? & ? & Hk & Hs). split_and!.
    + constructor; [|done]. intros Hin. apply (Hk _ Hin). by left.
    + cbn. lia.
    + intros k [->|Hin]%elem_of_cons; [done|]. intros Hin'. apply (Hk _ Hin). by right.
    + intros s [->|Hin]%elem_of_cons; [right; by left|]. destruct (Hs s Hin) as [[->|?]%elem_of_cons|?]; [right; by left|by left|right; by right].
Qed.

Lemma name_at_in i names name : name_at i names = Some name -> (i, name) ∈ names.
Proof.
  induction names as [|[j n] names IH]; cbn; [done|]. destruct (Nat.eqb_spec i j) as [->|]; [intros [= ->]; by left|]. intros ?. right. by apply IH.
Qed.

Lemma name_at_of i names name : NoDup names.*1 -> (i, name) ∈ names -> name_at i names = Some name.
Proof.
  induction names as [|[j n] names IH]; intros Hnd Hin; [by inversion Hin|]. cbn in *. apply NoDup_cons in Hnd as [Hj Hnd].
  apply elem_of_cons in Hin as [[= -> ->]|Hin]; [by rewrite Nat.eqb_refl|].
  destruct (Nat.eqb_spec i j) as [->|]; [|by apply IH]. exfalso. apply Hj, list_elem_of_fmap. by exists (j, name).
Qed.

Lemma NoDup_omap_key {A B} (f : A -> option B) (g : B -> text) l : NoDup l ->
  (forall x y a b, x ∈ l -> y ∈ l -> f x = Some a -> f y = Some b -> g a = g b -> x = y) -> NoDup (g <$> omap f l).
Proof.
  induction 1 as [|x l Hx Hnd IH]; intros Hf; [constructor|]. cbn [omap list_omap].
  assert (NoDup (g <$> omap f l)) as Hl by (apply IH; intros x' y' a b Hx' Hy'; apply Hf; by right).
  destruct (f x) as [b|] eqn:Eb; [|exact Hl]. cbn. constructor; [|exact Hl].
  intros (b' & Eg & Hin)%list_elem_of_fmap. apply list_elem_of_omap in Hin as (y & Hy & Ey).
  assert (x = y) as -> by (apply (Hf x y b b'); [by left|by right|done..]). done.
Qed.

(** The members get names that differ whatever the case; each is one of the
    archive's with its path and text, and no text is lost. *)
Lemma assigned_names_differ subs named : Z.of_nat (length subs) <= maxArchiveEntries ->
  assignMemberNames subs = Ok named ->
  NoDup ((fun m => to_lower (em_name m)) <$> named)
  /\ Forall (fun m => exists s, s ∈ subs /\ m = renamed s (em_name m)) named
  /\ (forall s, s ∈ subs -> exists m, m ∈ named /\ em_sum m = em_sum s).
Proof.
  intros Hl E. unfold maxArchiveEntries in Hl. unfold assignMemberNames in E. set (keys := stable_sort text_lt (new_keys [] subs)) in *.
  apply rbind_ok in E as (names & E & [= <-]). destruct (new_keys_spec [] subs) as (Hnd & Hlen & _ & Hkeys).
  assert (keys ≡ₚ new_keys [] subs) as Hperm by apply stable_sort_perm. rewrite <- Hperm in Hnd, Hlen.
  apply all_names_settled in E as [M I D F X]; [|done|done|pose proof (load_bound subs keys Hnd); lia].
  split_and!.
  - apply NoDup_omap_key; [apply indexed_NoDup|]. intros [i s] [j s'] a b Hi%indexed_lookup Hj%indexed_lookup Ea Eb Eg.
    destruct (name_at i names) as [n|] eqn:En; [|done]. destruct (name_at j names) as [n'|] eqn:En'; [|done].
    injection Ea as <-. injection Eb as <-. cbn in Eg. apply name_at_in, list_elem_of_lookup in En as (k & Hk).
    apply name_at_in, list_elem_of_lookup in En' as (k' & Hk').
    assert (k = k') as ->.
    { eapply (proj1 (NoDup_alt _) D k k' (to_lower n)); unfold low_names; rewrite list_lookup_fmap; [by rewrite Hk|rewrite Hk'; exact (f_equal Some (eq_sym Eg))]. }
    simplify_eq. done.
  - apply Forall_forall. intros m ([i s] & Hi%indexed_lookup & E)%list_elem_of_omap. destruct (name_at i names); [|done]. injection E as <-.
    exists s. split; [by eapply list_elem_of_lookup_2|done].
  - intros s Hs. destruct (Hkeys s Hs) as [Hx|Hx]; [by inversion Hx|]. rewrite <- Hperm in Hx. apply list_elem_of_lookup in Hs as [i Hi].
    destruct (X i s Hi Hx) as (j & name & s' & Hj & Hs' & _ & Esum). exists (renamed s' name). split; [|exact Esum].
    apply list_elem_of_omap. exists (j, s'). split; [by apply indexed_lookup|]. by rewrite (name_at_of j names name).
Qed.
End names_differ.

(** ** Extract *)

(** The calls of an extraction and their answers: whether they succeeded, and
    what they found. *)
Inductive extract_call :=
| ReadPayload (limit : Z)
| ContextDone
| EntryLooks
| MkdirAll (path : text)
| MkdirTemp (parent : text)
| WriteFile (path content : text)
| LstatTarget (path : text)
| RenameTree (from to : text)
| RemoveTree (path : text).

Inductive lstat_answer := TargetThere | TargetMissing | TargetFailed.

Definition extract_answer (c : extract_call) : Type :=
  match c with
  | ReadPayload _ => option bytes
  | ContextDone => bool
  | EntryLooks => nat -> bool
  | MkdirAll _ | WriteFile _ _ | RenameTree _ _ | RemoveTree _ => bool
  | MkdirTemp _ => option text
  | LstatTarget _ => lstat_answer
  end.

Inductive ExtractError :=
| ELimits | ETooLarge | ERead | EContext | EContent (e : ContentError) | EParent | EStaging | EWrite | ETargetExists | ETargetInspect | EPublish.

Abbreviation eact := (act extract_answer unit ExtractError).

Section extract.
Context `{Unicode} `{MatchRelease.NameParser}.
Context (zip_entries : bytes -> option (list zipEntry)) (rar_headers : bytes -> option (list (option rarHeader))).
Context (utf16_decode cp1250_decode : bytes -> option bytes).
Context (read_srt read_ssa read_vtt : text -> option (list Item)) (item_string : Item -> text).
Context (parse_float : text -> option parsed_float) (sha256_hex : list N -> text).

Abbreviation decode_subtitle := (decodeSubtitle utf16_decode cp1250_decode).
Abbreviation validate_subtitle := (validateSubtitle read_srt read_ssa read_vtt item_string).
Abbreviation normalize_subtitle := (normalizeSubtitle utf16_decode cp1250_decode read_srt read_ssa read_vtt item_string parse_float).

Definition checksum (content : text) : text := sha256_hex (bytes_of content).

(** A member that is read is kept; one that cannot be read is counted, or only
    explains an archive with nothing else in it, or is no subtitle at all. *)
Inductive member_outcome :=
| Ignored
| Explains (e : ContentError)
| Unreadable (e : ContentError)
| Readable (m : extractedMember).

Definition is_sub (extension : text) : bool := equal_fold extension (t ".sub").

Definition read_text (body : bytes) (safeName : text) : member_outcome + (result ContentError (text * text)) :=
  if is_sub (path_ext safeName) then
    match decode_subtitle body with
    | Err _ => inl Ignored
    | Ok content =>
        if negb (isMicroDVD content) then inl Ignored
        else match converted parse_float content with
             | Err e => inl (Explains (EUnreadable safeName e))
             | Ok srt => inr (validate_subtitle srt (t ".srt"))
             end
    end
  else inr (normalize_subtitle body (path_ext safeName)).

Definition read_member (raw : archiveMember) (maxDepth : Z) : result ContentError member_outcome :=
  if macOSMetadata (am_name raw) then Ok Ignored
  else
    let! safeName := safeMemberName (am_name raw) maxDepth in
    match read_text (am_body raw) safeName with
    | inl outcome => Ok outcome
    | inr (Err e) => Ok (Unreadable (EUnreadable safeName e))
    | inr (Ok (content, extension)) =>
        let name := if bool_decide (path_ext safeName = []) || is_sub (path_ext safeName) then safeName ++ extension else safeName in
        Ok (Readable (mkExtracted (slashed (am_name raw)) name content (checksum content)))
    end.

(** What the loop over the members gathers. *)
Record gathered := mkGathered { subtitles : list extractedMember; skipped : Z; firstUnreadable : option ContentError }.

Definition first_error (known : option ContentError) (e : ContentError) : option ContentError :=
  match known with Some e => Some e | None => Some e end.

Definition gather_member (g : gathered) (o : member_outcome) : gathered :=
  match o with
  | Ignored => g
  | Explains e => mkGathered (subtitles g) (skipped g) (first_error (firstUnreadable g) e)
  | Unreadable e => mkGathered (subtitles g) (skipped g + 1) (first_error (firstUnreadable g) e)
  | Readable m => mkGathered (subtitles g ++ [m]) (skipped g) (firstUnreadable g)
  end.

Fixpoint gather_members (maxDepth : Z) (g : gathered) (members : list archiveMember) : eact gathered :=
  match members with
  | [] => done g
  | raw :: members =>
      do! cancelled := ask ContextDone in
      if (cancelled : bool) then stop EContext
      else match read_member raw maxDepth with
           | Err e => stop (EContent e)
           | Ok o => gather_members maxDepth (gather_member g o) members
           end
  end.

Definition in_staging (staging name : text) : text := filepath_join [staging; name].

Fixpoint write_members (staging : text) (members : list extractedMember) : eact unit :=
  match members with
  | [] => done tt
  | m :: members =>
      do! written := ask (WriteFile (in_staging staging (em_name m)) (em_text m)) in
      if (written : bool) then write_members staging members else stop EWrite
  end.

Definition manifest_member (candidate : Candidate) (dst : text) (m : extractedMember) : Member :=
  let evidence := memberEvidence (em_name m) (CTitle candidate) in
  {| SafeName := em_name m; NormalizedPath := in_staging dst (em_name m); Checksum := em_sum m; ByteSize := byte_len (em_text m);
     MemSeason := MemSeason evidence; MemFrom := MemFrom evidence; MemTo := MemTo evidence;
     MemAbsoluteFrom := MemAbsoluteFrom evidence; MemAbsoluteTo := MemAbsoluteTo evidence;
     NormalizedTitle := NormalizedTitle evidence; MemForced := MemForced evidence;
     SelectionRule := SelectionRule evidence; SelectionEvidence := SelectionEvidence evidence |}.

Definition with_runtime_pack (m : Manifest) : Manifest :=
  {| RuntimePack := IsRuntimePack m; ManProviderID := ManProviderID m; ManResultID := ManResultID m; ManLanguage := ManLanguage m;
     ManChecksum := ManChecksum m; ArchiveType := ArchiveType m; ManCandidate := ManCandidate m; Members := Members m;
     SkippedMembers := SkippedMembers m |}.

Definition the_manifest (candidate : Candidate) (payload : bytes) (dst : text) (members : list extractedMember) (skipped_ : Z) : Manifest :=
  with_runtime_pack
    {| RuntimePack := false; ManProviderID := ProviderID candidate; ManResultID := ResultID candidate;
       ManLanguage := CLanguage candidate; ManChecksum := sha256_hex payload; ArchiveType := payloadType payload;
       ManCandidate := candidate; Members := manifest_member candidate dst <$> members; SkippedMembers := skipped_ |}.

(** From the staging directory to the published one. *)
Definition stage_and_publish (candidate : Candidate) (payload : bytes) (members : list archiveMember) (staging dst : text) (limits : Limits)
    : eact Manifest :=
  do! g := gather_members (MaxDepth limits) (mkGathered [] 0 None) members in
  match assignMemberNames (subtitles g) with
  | Err e => stop (EContent e)
  | Ok named =>
      then! write_members staging named in
      match named with
      | [] => stop (EContent (default ENoSubtitles (firstUnreadable g)))
      | _ =>
          do! target := ask (LstatTarget dst) in
          match target with
          | TargetThere => stop ETargetExists
          | TargetFailed => stop ETargetInspect
          | TargetMissing =>
              do! published := ask (RenameTree staging dst) in
              if (published : bool) then done (the_manifest candidate payload dst named (skipped g)) else stop EPublish
          end
      end
  end.

Definition Extract (candidate : Candidate) (contentLength : Z) (dst : text) (limits : Limits) : eact Manifest :=
  if negb (validateLimits limits) then stop ELimits
  else if MaxCompressed limits <? contentLength then stop ETooLarge
  else
    do! read := ask (ReadPayload (wrap64 (MaxCompressed limits + 1))) in
    match read with
    | None => stop ERead
    | Some payload =>
        if MaxCompressed limits <? size payload then stop ETooLarge
        else
          do! cancelled := ask ContextDone in
          if (cancelled : bool) then stop EContext
          else
            do! looks := ask EntryLooks in
            match decodePayload limits looks zip_entries rar_headers payload candidate with
            | Err e =>
                do! cancelled := ask ContextDone in
                if (cancelled : bool) then stop EContext else stop (EContent e)
            | Ok members =>
                let parent := path_dir dst in
                do! made := ask (MkdirAll parent) in
                if negb (made : bool) then stop EParent
                else
                  do! staging := ask (MkdirTemp parent) in
                  match staging with
                  | None => stop EStaging
                  | Some staging =>
                      do! r := outcome_of (stage_and_publish candidate payload members staging dst limits) in
                      match r with
                      | Ok manifest => done manifest
                      | Err e => then! ask (RemoveTree staging) in stop e
                      end
                  end
            end
    end.
End extract.

(** ** Names are file names *)

Lemma path_base_no_slash s : has_prefix (t "/") s = false -> no_slash (path_base s).
Proof.
  intros Hp. unfold path_base. destruct s as [|r s]; [by repeat constructor|].
  destruct (trim_right (N.eqb slash) (r :: s)) as [|r' s'] eqn:Et.
  - exfalso. destruct (trim_right_split (N.eqb slash) (r :: s)) as [b Eb]. rewrite Et in Eb. cbn [app] in Eb.
    unfold trim_right in Et. apply (f_equal (@rev rune)) in Et. rewrite rev_involutive in Et. cbn [rev] in Et.
    apply trim_left_nil in Et. apply Forall_app in Et as [_ Hr]. apply Forall_cons in Hr as [Hr%N.eqb_eq _]. subst r.
    assert (has_prefix (t "/") (slash :: s) = true) as Ht by (apply has_prefix_spec; by exists s). by rewrite Ht in Hp.
  - pose proof (split_elements_no_slash (r' :: s')) as Hall. rewrite Forall_forall in Hall. apply Hall.
    pose proof (split_rune_nonempty slash (r' :: s')) as Hne. destruct (exists_last Hne) as (l & x & ->).
    rewrite List.last_last. apply elem_of_app. right. by left.
Qed.

Lemma plain_long s : no_slash s -> (2 < length s)%nat -> plain s.
Proof. intros Hs Hl. split_and!; [done|by intros ->; cbn in Hl; lia|by intros ->; cbn in Hl; lia|by intros ->; cbn in Hl; lia]. Qed.

Lemma no_slash_app a b : no_slash (a ++ b) <-> no_slash a /\ no_slash b.
Proof. apply Forall_app. Qed.

Lemma no_slash_digits s : Forall (fun r => ascii_digit r = true) s -> no_slash s.
Proof.
  intros Hs. eapply Forall_impl; [exact Hs|]. intros r Hr. unfold ascii_digit, between, slash in *. apply N.eqb_neq. intros ->. done.
Qed.

Section plain_names.
Context `{Unicode}.

Lemma numbered_plain name number : no_slash name -> plain (numbered_name name number).
Proof.
  intros Hn. unfold numbered_name.
  assert (no_slash (path_ext name)) as He.
  { unfold path_ext. rewrite split_no_slash by done. cbn [List.last]. destruct (index_of _ _); [|constructor].
    unfold no_slash. by apply Forall_drop. }
  assert (no_slash (trim_suffix (path_ext name) name)) as Hst.
  { unfold trim_suffix. destruct (has_suffix _ _); [|done]. unfold no_slash. by apply Forall_take. }
  pose proof (itoa_digits (Z.of_nat number) ltac:(lia)) as Hd. apply plain_long.
  - rewrite !no_slash_app. split_and!; [done|by repeat constructor|by apply no_slash_digits|by repeat constructor|done].
  - rewrite !length_app. cbn [length t String.list_ascii_of_string fmap list_fmap]. lia.
Qed.

Lemma free_number_plain fuel number name taken c : no_slash name -> free_number fuel number name taken = Some c -> plain c.
Proof.
  intros Hn. revert number. induction fuel as [|fuel IH]; intros number; cbn [free_number]; [done|].
  case_bool_decide; [by apply IH|]. intros [= <-]. by apply numbered_plain.
Qed.

Lemma settled_plain prefix name taken bare : plain name -> no_slash prefix -> (prefix = [] \/ 2 < length prefix)%nat ->
  plain (settled_name prefix name taken bare).1.
Proof.
  intros Hn Hp Hl. unfold settled_name. destruct (bool_decide (prefix = []) || _ || _) eqn:Eb.
  - destruct bare; [|done]. unfold number_name. destruct (free_number _ _ _ _) eqn:Ef; [|done].
    eapply free_number_plain; [|exact Ef]. apply Hn.
  - apply orb_false_iff in Eb as [[Eb%bool_decide_eq_false _]%orb_false_iff _]. destruct Hl as [|Hl]; [done|]. cbn [fst].
    apply plain_long; [apply no_slash_app; split; [done|apply Hn]|]. rewrite length_app. lia.
Qed.

Definition good_prefix (p : text) : Prop := no_slash p /\ (p = [] \/ 2 < length p)%nat.

Lemma join_no_slash sep words : no_slash sep -> Forall no_slash words -> no_slash (join sep words).
Proof.
  intros Hs Hw. induction Hw as [|w ws Hw Hws IH]; [constructor|]. destruct ws as [|w' ws]; [exact Hw|].
  change (join sep (w :: w' :: ws)) with (w ++ sep ++ join sep (w' :: ws)). by rewrite !no_slash_app.
Qed.

Lemma prefixes_good count folders : Forall (Forall no_slash) folders -> Forall good_prefix (prefixes_at count folders).
Proof.
  intros Hf. unfold prefixes_at. apply Forall_map. eapply Forall_impl; [exact Hf|]. intros path Hp. cbn.
  destruct path as [|f path]; [split; [constructor|by left]|]. split.
  - apply no_slash_app. split; [|by repeat constructor]. apply join_no_slash; [by repeat constructor|]. unfold last_n. by apply Forall_drop.
  - right. rewrite length_app. unfold dash. cbn [length t String.list_ascii_of_string fmap list_fmap]. lia.
Qed.

Lemma distinguishing_good folders : Forall (Forall no_slash) folders -> Forall good_prefix (distinguishingPrefixes folders).
Proof.
  intros Hf. unfold distinguishingPrefixes. destruct (foldr _ _ _) as [|depth].
  - apply Forall_map, Forall_true. intros path. split; [constructor|by left].
  - generalize 1%nat. induction depth as [|depth IH]; intros count; cbn [shortest_prefixes]; [by apply prefixes_good|].
    destruct (distinct_folded _ _); [by apply prefixes_good|apply IH].
Qed.

Lemma name_group_plain group : forall taken bare taken' names,
  Forall (fun m => plain (em_name m.1.2) /\ good_prefix m.2) group ->
  name_group taken bare group = Ok (taken', names) -> Forall (fun n => plain n.2) names.
Proof.
  induction group as [|[[i s] prefix] group IH]; intros taken bare taken' names Hg E; cbn [name_group] in E; [by injection E as <- <-|].
  apply Forall_cons in Hg as [[Hs [Hp1 Hp2]] Hg]. cbn [fst snd] in *.
  pose proof (settled_plain prefix (em_name s) taken bare Hs Hp1 Hp2) as Hn. destruct (settled_name prefix (em_name s) taken bare) as [name bare'].
  destruct (maximumName <? byte_len name); [done|]. apply rbind_ok in E as ([t1 ns] & E & [= <- <-]). constructor; [exact Hn|]. by eapply IH.
Qed.

Lemma memberFolders_no_slash path : Forall no_slash (memberFolders path).
Proof.
  unfold memberFolders. apply Forall_forall. intros e [_ He]%list_elem_of_filter.
  pose proof (split_elements_no_slash (path_dir (slashed path))) as Hall. rewrite Forall_forall in Hall. by apply Hall.
Qed.

Lemma all_names_plain subs keys : Forall (fun s => plain (em_name s)) subs -> forall taken names,
  all_names subs keys taken = Ok names -> Forall (fun n => plain n.2) names.
Proof.
  intros Hp. rewrite Forall_forall in Hp. induction keys as [|key keys IH]; intros taken names E; cbn [all_names] in E; [by injection E as <-|].
  apply rbind_ok in E as ([t1 ns1] & E1 & E). apply rbind_ok in E as (ns2 & E2 & [= <-]). apply Forall_app. split; [|by eapply IH].
  unfold group_names in E1. set (distinct := distinct_texts [] _) in *.
  assert (forall m, m ∈ distinct -> plain (em_name m.2)) as Hd.
  { intros [i s] Hm. apply Hp. eapply elem_of_sublist in Hm; [|apply distinct_texts_sub]. rewrite stable_sort_perm in Hm.
    apply list_elem_of_filter in Hm as [_ Hm%indexed_lookup]. by eapply list_elem_of_lookup_2. }
  destruct (length distinct <? 2)%nat.
  - injection E1 as <- <-. apply Forall_map, Forall_forall. intros m Hm. by apply Hd.
  - eapply name_group_plain; [|exact E1]. apply Forall_forall. intros [m prefix] Hm. cbn.
    split; [by apply Hd; eapply elem_of_zip_l|].
    assert (Forall good_prefix (distinguishingPrefixes (map (fun m => memberFolders (em_path m.2)) distinct))) as Hg.
    { apply distinguishing_good, Forall_map, Forall_true. intros ?. apply memberFolders_no_slash. }
    rewrite Forall_forall in Hg. apply Hg. by eapply elem_of_zip_r.
Qed.

Lemma assigned_names_plain subs named : Forall (fun s => plain (em_name s)) subs -> assignMemberNames subs = Ok named ->
  Forall (fun m => plain (em_name m)) named.
Proof.
  intros Hp E. unfold assignMemberNames in E. apply rbind_ok in E as (names & E & [= <-]). apply all_names_plain in E; [|done].
  rewrite Forall_forall in E. apply Forall_forall. intros m ([i s] & _ & Em)%list_elem_of_omap.
  destruct (name_at i names) as [n|] eqn:En; [|done]. injection Em as <-. cbn. by apply (E (i, n)), name_at_in.
Qed.
End plain_names.

(** ** Every extraction is published whole or not at all *)

Section extract_facts.
Context `{Unicode} `{MatchRelease.NameParser}.
Context (zip_entries : bytes -> option (list zipEntry)) (rar_headers : bytes -> option (list (option rarHeader))).
Context (utf16_decode cp1250_decode : bytes -> option bytes).
Context (read_srt read_ssa read_vtt : text -> option (list Item)) (item_string : Item -> text).
Context (parse_float : text -> option parsed_float) (sha256_hex : list N -> text).

Abbreviation read_member_ :=
  (read_member utf16_decode cp1250_decode read_srt read_ssa read_vtt item_string parse_float sha256_hex).

Lemma parsed_extension content extension extension' items :
  parsed read_srt read_ssa read_vtt content extension = Some (extension', items) ->
  extension' ∈ [t ".srt"; t ".ass"; t ".ssa"; t ".vtt"] /\ (extension = [] \/ extension' = extension).
Proof.
  assert (forall es e is_, first_format read_srt read_ssa read_vtt es content = Some (e, is_) ->
    e ∈ es /\ e ∈ [t ".srt"; t ".ass"; t ".ssa"; t ".vtt"]) as Hf.
  { intros es e is_. induction es as [|x es IH]; cbn; [done|].
    assert (forall l, parse_as read_srt read_ssa read_vtt x content = Some l -> x ∈ [t ".srt"; t ".ass"; t ".ssa"; t ".vtt"]) as Hx.
    { intros l. unfold parse_as, isASS. case_bool_decide as E1; [intros _; rewrite E1; by left|].
      case_bool_decide as E2; [intros _; rewrite E2; right; by left|].
      case_bool_decide as E3; [intros _; rewrite E3; do 2 right; by left|]. cbn.
      case_bool_decide as E4; [intros _; rewrite E4; do 3 right; by left|done]. }
    destruct (parse_as _ _ _ x content) as [[|i l]|].
    - intros [? ?]%IH. split; [by right|done].
    - intros [= <- _]. split; [by left|by eapply Hx].
    - intros [? ?]%IH. split; [by right|done]. }
  unfold parsed. case_bool_decide as Ee; intros [H1 H2]%Hf; (split; [exact H2|]); [by left|right].
  by apply list_elem_of_singleton in H1.
Qed.

Lemma validated_extension content extension content' extension' :
  validateSubtitle read_srt read_ssa read_vtt item_string content extension = Ok (content', extension') ->
  extension' ∈ [t ".srt"; t ".ass"; t ".ssa"; t ".vtt"] /\ (extension = [] \/ extension' = extension).
Proof.
  unfold validateSubtitle. destruct (parsed _ _ _ content extension) as [[e items]|] eqn:Ep; [|done].
  apply parsed_extension in Ep. intros E. do 3 (apply rbind_ok in E as (? & _ & E)).
  destruct (planRepairs _ _ _) as [cues|]; [|done]. destruct (Repair _ _ _); [by injection E as <- <-|].
  destruct (onlyTidies _ _); [by injection E as <- <-|done].
Qed.

Lemma subtitle_extension_long e : e ∈ [t ".srt"; t ".ass"; t ".ssa"; t ".vtt"] -> no_slash e /\ (2 < length e)%nat.
Proof.
  intros He. repeat (apply elem_of_cons in He as [->|He]; [split; [by repeat constructor|cbn; lia]|]). by inversion He.
Qed.

Lemma safeMemberName_ok name depth base : safeMemberName name depth = Ok base -> no_slash base /\ base <> [] /\ base <> t ".".
Proof.
  unfold safeMemberName. intros E. apply rbind_ok in E as ([] & Ev & E).
  destruct (bool_decide _ || _) eqn:Eb; [done|]. injection E as <-. apply orb_false_iff in Eb as [E1%bool_decide_eq_false E2%bool_decide_eq_false].
  split_and!; [|done|done]. apply path_base_no_slash. unfold validateArchivePath in Ev.
  destruct (has_prefix (t "/") (slashed name)); [done|done].
Qed.

Lemma read_member_plain raw depth m : read_member_ raw depth = Ok (Readable m) -> plain (em_name m).
Proof.
  unfold read_member. destruct (macOSMetadata (am_name raw)); [done|]. intros E. apply rbind_ok in E as (safe & Es & E).
  apply safeMemberName_ok in Es as (Hs & Hne & Hdot).
  destruct (read_text _ _ _ _ _ _ _ _ safe) as [o|[[content extension]|e]] eqn:Et; [|injection E as <-; cbn [em_name]|done].
  { injection E as ->. unfold read_text in Et. destruct (is_sub _); [|done]. destruct (decodeSubtitle _ _ _); [|done].
    destruct (negb _); [done|]. by destruct (converted _ _). }
  assert (extension ∈ [t ".srt"; t ".ass"; t ".ssa"; t ".vtt"]
    /\ (path_ext safe = [] \/ is_sub (path_ext safe) = true \/ (2 < length (path_ext safe))%nat)) as [Hext Hor].
  { unfold read_text in Et. destruct (is_sub (path_ext safe)) eqn:Esub.
    - destruct (decodeSubtitle _ _ _); [|done]. destruct (negb _); [done|]. destruct (converted _ _); [|done].
      injection Et as Et. apply validated_extension in Et as [? _]. split; [done|]. right. by left.
    - injection Et as Et. unfold normalizeSubtitle in Et. apply rbind_ok in Et as (c & _ & Et).
      destruct (bool_decide _ || _) eqn:Eb.
      + apply rbind_ok in Et as (srt & _ & Et). apply validated_extension in Et as [? _]. split; [done|].
        apply orb_true_iff in Eb as [Eb%bool_decide_eq_true|[Eb%bool_decide_eq_true _]%andb_true_iff].
        * do 2 right. apply (f_equal (@length rune)) in Eb. unfold to_lower in Eb. rewrite length_map in Eb. cbn in Eb. lia.
        * left. by destruct (path_ext safe).
      + apply validated_extension in Et as [Hx [Ee|Ee]]; (split; [done|]); [left; by destruct (path_ext safe)|do 2 right].
        apply subtitle_extension_long in Hx as [_ Hx]. rewrite Ee in Hx. unfold to_lower in Hx. by rewrite length_map in Hx. }
  apply subtitle_extension_long in Hext as [Hx1 Hx2].
  destruct (bool_decide (path_ext safe = []) || is_sub (path_ext safe)) eqn:Eb.
  - apply plain_long; [by apply no_slash_app|]. rewrite length_app. lia.
  - apply orb_false_iff in Eb as [E1%bool_decide_eq_false E2]. destruct Hor as [?|[?|Hl]]; [done|congruence|].
    split_and!; [done..|]. intros ->. vm_compute in Hl. lia.
Qed.

(** ** Histories *)

Abbreviation ehistory := (history extract_answer).

(** The staging directory was made, and nothing was published. *)
Definition made (h : ehistory) (staging : text) : Prop := exists parent, Event (MkdirTemp parent) (Some staging) ∈ h.
Definition publishes (e : event extract_answer) : bool :=
  match e with Event c x => match c as c return extract_answer c -> bool with RenameTree _ _ => fun b => b | _ => fun _ => false end x end.
Definition published (h : ehistory) : Prop := exists e, e ∈ h /\ publishes e = true.
Definition staged (h : ehistory) (staging : text) : Prop := (forall s, made h s <-> s = staging) /\ ~ published h.
Definition unstaged (h : ehistory) : Prop := (forall s, ~ made h s) /\ ~ published h.

(** What an extraction may do: write plain names in its staging directory, move
    that directory to a target that is not there, and remove it. *)
Definition may_call (dst : text) (h : ehistory) (c : extract_call) : Prop :=
  match c with
  | WriteFile path _ => exists staging name, made h staging /\ plain name /\ path = in_staging staging name
  | RenameTree from to => made h from /\ to = dst /\ Event (LstatTarget dst) TargetMissing ∈ h
  | RemoveTree path => made h path
  | _ => True
  end.

Definition harmless (c : extract_call) : Prop := match c with MkdirTemp _ | RenameTree _ _ => False | _ => True end.

Lemma made_snoc h c x s : harmless c -> made (h ++ [Event c x]) s <-> made h s.
Proof.
  intros Hc. unfold made. split; intros [parent Hin]; exists parent; [|apply elem_of_app; by left].
  apply elem_of_app in Hin as [?|Hin]; [done|]. apply list_elem_of_singleton in Hin. injection Hin as <-. done.
Qed.

Lemma published_snoc h c x : harmless c -> published (h ++ [Event c x]) <-> published h.
Proof.
  intros Hc. unfold published. split; intros (e & Hin & He); exists e; (split; [|done]); [|apply elem_of_app; by left].
  apply elem_of_app in Hin as [?|Hin]; [done|]. apply list_elem_of_singleton in Hin. subst e. by destruct c.
Qed.

Lemma staged_snoc h c x s : harmless c -> staged h s -> staged (h ++ [Event c x]) s.
Proof.
  intros Hc [H1 H2]. split; [intros s'; by rewrite made_snoc|]. by rewrite published_snoc.
Qed.

Lemma unstaged_snoc h c x : harmless c -> unstaged h -> unstaged (h ++ [Event c x]).
Proof. intros Hc [H1 H2]. split; [intros s'; by rewrite made_snoc|]. by rewrite published_snoc. Qed.

Lemma in_snoc {A} (x : A) l y : x ∈ l -> x ∈ l ++ [y].
Proof. intros ?. apply elem_of_app. by left. Qed.

Lemma gather_members_ok dst depth members : forall g h s,
  staged h s -> Forall (fun m => plain (em_name m)) (subtitles g) ->
  awp (may_call dst) (gather_members utf16_decode cp1250_decode read_srt read_ssa read_vtt item_string parse_float sha256_hex depth g members) tt h
    (fun h' _ r => staged h' s /\ match r with
       | Ok g' => Forall (fun m => plain (em_name m)) (subtitles g') /\ (length (subtitles g') <= length (subtitles g) + length members)%nat
       | Err _ => True end).
Proof.
  induction members as [|raw members IH]; intros g h s Hst Hg; cbn [gather_members].
  { apply awp_done. split_and!; [done|done|cbn; lia]. }
  call_step; [done|]. intros [|].
  { apply awp_stop. split; [by apply staged_snoc|done]. }
  destruct (read_member_ raw depth) as [o|e] eqn:Er; [|apply awp_stop; split; [by apply staged_snoc|done]].
  eapply awp_mono; [apply IH; [by apply staged_snoc|]|].
  - destruct o; [done..|]. cbn. apply Forall_app_2; [done|]. constructor; [by eapply read_member_plain|constructor].
  - intros h' s' r _ [? Hr]. split; [done|]. destruct r; [|done]. destruct Hr as [? Hl]. split; [done|].
    assert (length (subtitles (gather_member g o)) <= S (length (subtitles g)))%nat by (destruct o; cbn; rewrite ?length_app; cbn; lia).
    cbn [length]. lia.
Qed.

Definition wrote (staging : text) (h : ehistory) (m : extractedMember) : Prop :=
  Event (WriteFile (in_staging staging (em_name m)) (em_text m)) true ∈ h.

Lemma write_members_ok dst s members : Forall (fun m => plain (em_name m)) members -> forall h, staged h s ->
  awp (may_call dst) (write_members s members) tt h
    (fun h' _ r => staged h' s /\ h `prefix_of` h' /\ match r with Ok _ => Forall (wrote s h') members | Err _ => True end).
Proof.
  induction 1 as [|m members Hm _ IH]; intros h Hst; cbn [write_members]; [by apply awp_done|].
  call_step. { exists s, (em_name m). split_and!; [by apply Hst|done|done]. }
  intros [|].
  - eapply awp_mono; [apply IH; by apply staged_snoc|]. intros h' s' r _ (Hst' & Hpre & Hr).
    split_and!; [done|etrans; [by apply prefix_app_r|exact Hpre]|]. destruct r; [|done]. constructor; [|done].
    unfold wrote. destruct Hpre as [tl ->]. apply elem_of_app. left. apply elem_of_app. right. by left.
  - apply awp_stop. split_and!; [by apply staged_snoc|by apply prefix_app_r|done].
Qed.

(** A publication: the last call moved the complete staging directory. *)
Definition whole (candidate : Candidate) (dst : text) (h : ehistory) (manifest : Manifest) : Prop :=
  exists h' staging named,
    h = h' ++ [Event (RenameTree staging dst) true] /\ made h' staging /\ ~ published h'
    /\ named <> [] /\ Forall (wrote staging h') named
    /\ NoDup ((fun m => to_lower (em_name m)) <$> named) /\ Forall (fun m => plain (em_name m)) named
    /\ Members manifest = manifest_member candidate dst <$> named.

Lemma stage_and_publish_ok candidate payload members dst limits s h :
  staged h s -> Z.of_nat (length members) <= maxArchiveEntries ->
  awp (may_call dst) (stage_and_publish utf16_decode cp1250_decode read_srt read_ssa read_vtt item_string parse_float sha256_hex
      candidate payload members s dst limits) tt h
    (fun h' _ r => match r with Ok manifest => whole candidate dst h' manifest | Err _ => staged h' s end).
Proof.
  intros Hst Hl. unfold stage_and_publish. apply awp_next.
  eapply awp_mono; [apply gather_members_ok; [exact Hst|constructor]|].
  intros h1 [] [g|e] _ [Hst1 Hg]; [|done]. destruct Hg as [Hplain Hlen]. cbn [subtitles length] in Hlen.
  destruct (assignMemberNames (subtitles g)) as [named|e] eqn:En; [|by apply awp_stop].
  pose proof (assigned_names_plain _ _ Hplain En) as Hnp. apply assigned_names_differ in En as (Hdiff & _ & _); [|lia].
  apply awp_next. eapply awp_mono; [by apply write_members_ok|].
  intros h2 [] [[]|e] _ (Hst2 & _ & Hw); [|done]. destruct named as [|m named]; [by apply awp_stop|].
  call_step; [done|]. intros [| |]; [apply awp_stop; by apply staged_snoc| |apply awp_stop; by apply staged_snoc].
  call_step. { split_and!; [apply made_snoc; [done|by apply Hst2]|done|apply elem_of_app; right; by left]. }
  intros [|].
  - apply awp_done. exists (h2 ++ [Event (LstatTarget dst) TargetMissing]), s, (m :: named). split_and!; try done.
    + apply made_snoc; [done|by apply Hst2].
    + rewrite published_snoc by done. apply Hst2.
    + eapply Forall_impl; [exact Hw|]. intros x Hx. by apply in_snoc.
  - apply awp_stop. destruct Hst2 as [Hm Hp]. split.
    + intros s'. rewrite <- Hm. unfold made. split; intros [parent Hin]; exists parent.
      * do 2 (apply elem_of_app in Hin as [Hin|Hin]; [|by apply list_elem_of_singleton in Hin]). done.
      * by do 2 apply in_snoc.
    + intros (e & Hin & He). do 2 (apply elem_of_app in Hin as [Hin|Hin]; [|apply list_elem_of_singleton in Hin; by subst e]).
      apply Hp. by exists e.
Qed.

Definition temp_answer (e : event extract_answer) : option text :=
  match e with Event c x => match c as c return extract_answer c -> option text with MkdirTemp _ => fun o => o | _ => fun _ => None end x end.

Lemma made_temp h parent o s : made (h ++ [Event (MkdirTemp parent) o]) s <-> made h s \/ o = Some s.
Proof.
  unfold made. split.
  - intros [q Hin]. apply elem_of_app in Hin as [Hin|Hin]; [left; by exists q|right].
    apply list_elem_of_singleton, (f_equal temp_answer) in Hin. by symmetry.
  - intros [[q Hin]| ->]; [exists q; by apply in_snoc|]. exists parent. apply elem_of_app. right. by left.
Qed.

Lemma published_temp h parent o : published (h ++ [Event (MkdirTemp parent) o]) <-> published h.
Proof.
  split; intros (e & Hin & He); [|exists e; split; [by apply in_snoc|done]].
  apply elem_of_app in Hin as [Hin|Hin]; [by exists e|]. apply list_elem_of_singleton in Hin. by subst e.
Qed.

Lemma staged_made h parent s : unstaged h -> staged (h ++ [Event (MkdirTemp parent) (Some s)]) s.
Proof.
  intros [Hm Hp]. split; [|by rewrite published_temp]. intros s'. rewrite made_temp. specialize (Hm s'). naive_solver.
Qed.

Lemma unstaged_failed h parent : unstaged h -> unstaged (h ++ [Event (MkdirTemp parent) None]).
Proof.
  intros [Hm Hp]. split; [|by rewrite published_temp]. intros s'. rewrite made_temp. specialize (Hm s'). naive_solver.
Qed.

Definition settled_extraction (candidate : Candidate) (dst : text) (h : ehistory) (r : result ExtractError Manifest) : Prop :=
  match r with
  | Ok manifest => whole candidate dst h manifest
  | Err _ => ~ published h /\ forall staging, made h staging -> exists b, Event (RemoveTree staging) b ∈ h
  end.

Lemma unstaged_settled candidate dst h e : unstaged h -> settled_extraction candidate dst h (Err e).
Proof. intros [Hm Hp]. split; [done|]. intros s Hs. by destruct (Hm s). Qed.

Lemma removed_settled candidate dst h s b e : staged h s -> settled_extraction candidate dst (h ++ [Event (RemoveTree s) b]) (Err e).
Proof.
  intros [Hm Hp]. split; [by rewrite published_snoc|]. intros s' Hs. rewrite made_snoc in Hs by done. apply Hm in Hs as ->.
  exists b. apply elem_of_app. right. by left.
Qed.

Lemma Extract_settles candidate contentLength dst limits : MaxFiles limits <= maxArchiveEntries ->
  awp (may_call dst) (Extract zip_entries rar_headers utf16_decode cp1250_decode read_srt read_ssa read_vtt item_string parse_float sha256_hex
    candidate contentLength dst limits) tt [] (fun h _ r => settled_extraction candidate dst h r).
Proof.
  intros Hmax. assert (unstaged []) as Hu by (split; [intros s [? Hin]; by inversion Hin|intros (? & Hin & _); by inversion Hin]).
  unfold Extract. destruct (validateLimits limits) eqn:El; cbn [negb]; [|by apply awp_stop, unstaged_settled].
  destruct (MaxCompressed limits <? contentLength); [by apply awp_stop, unstaged_settled|].
  call_step; [done|]. intros [payload|]; [|by apply awp_stop, unstaged_settled, unstaged_snoc].
  destruct (MaxCompressed limits <? size payload); [by apply awp_stop, unstaged_settled, unstaged_snoc|].
  call_step; [done|]. intros [|]; [by apply awp_stop, unstaged_settled; repeat apply unstaged_snoc|].
  call_step; [done|]. intros looks. destruct (decodePayload _ _ _ _ _ _) as [members|e] eqn:Ed.
  2: { call_step; [done|]. intros [|]; by apply awp_stop, unstaged_settled; repeat apply unstaged_snoc. }
  apply decoded_files in Ed; [|done].
  call_step; [done|]. intros [|]; [|by apply awp_stop, unstaged_settled; repeat apply unstaged_snoc]. cbn [negb].
  call_step; [done|]. intros [staging|]; [|by apply awp_stop, unstaged_settled, unstaged_failed; repeat apply unstaged_snoc].
  apply awp_next, awp_outcome_of. eapply awp_mono; [apply stage_and_publish_ok; [apply staged_made; by repeat apply unstaged_snoc|lia]|].
  intros h' [] [manifest|e] _ Hr; [by apply awp_done|].
  call_step; [by apply Hr|]. intros b. by apply awp_stop, removed_settled.
Qed.

(** C22. Whatever the payload, the file system and cancellations do, an
    extraction publishes all of its subtitles or none: it writes only plain
    names inside its staging directory, moves that directory once and only to a
    target it found missing; a manifest is returned exactly after that last
    move, when every member was written with the text its checksum is of, under
    names that differ whatever the case; and after a failure nothing is
    published and the staging directory was removed. *)
Theorem extraction_is_whole candidate contentLength dst limits h r :
  MaxFiles limits <= maxArchiveEntries ->
  runs (Extract zip_entries rar_headers utf16_decode cp1250_decode read_srt read_ssa read_vtt item_string parse_float sha256_hex
    candidate contentLength dst limits tt) h r ->
  (forall i e, h !! i = Some e -> may_call dst (take i h) (ev_call e))
  /\ match r.2 with
     | Ok manifest => whole candidate dst h manifest
     | Err _ => ~ published h /\ forall staging, made h staging -> exists b, Event (RemoveTree staging) b ∈ h
     end.
Proof.
  intros Hmax Hr. pose proof (Extract_settles candidate contentLength dst limits Hmax) as Hw.
  destruct (wp_runs _ _ _ _ _ _ Hr Hw) as [HQ Hcalls]. split; [exact Hcalls|]. exact HQ.
Qed.
End extract_facts.

(** ** An extraction *)

Section sample_extraction.
#[local] Existing Instance latin1.
#[local] Instance no_parser : MatchRelease.NameParser := fun _ => None.

Definition sample_srt (line : text) : text :=
  t "1" ++ [newline] ++ t "00:00:01,000 --> 00:00:02,000" ++ [newline] ++ line ++ [newline].
Definition sample_file (name line : text) : zipEntry :=
  mkZipEntry name 420 (size (bytes_of (sample_srt line))) (Some (sample_read (bytes_of (sample_srt line)))).
Definition sample_archive : list zipEntry :=
  [sample_file (t "Show/A/e1.srt") (t "Hi"); sample_file (t "Show\B\E1.SRT") (t "Ho"); sample_file (t "Show/C/e1.srt") (t "Hi");
   mkZipEntry (t "Show/C/e2.srt") 420 3 (Some (sample_read (t "nil")))].
Definition sample_srt_reader (content : text) : option (list Item) :=
  if has_prefix (t "1") content then Some [spoken 1 2 (t "Hi")] else None.
Definition extraction_limits : Limits := mkLimits 1000 1000 5 3.

(** A file system on which every call succeeds and the target is missing. *)
Definition sample_respond (c : extract_call) (w : unit) : extract_answer c * unit :=
  (match c as c return extract_answer c with
   | ReadPayload _ => Some zipMagic
   | ContextDone => false
   | EntryLooks => never
   | MkdirAll _ => true
   | MkdirTemp parent => Some (parent ++ t "/.stage")
   | WriteFile _ _ | RenameTree _ _ | RemoveTree _ => true
   | LstatTarget _ => TargetMissing
   end, w).

Definition sample_extract : prog extract_answer (unit * result ExtractError Manifest) :=
  Extract (fun _ => Some sample_archive) (fun _ => None) (fun _ => None) (fun _ => None) sample_srt_reader (fun _ => None) (fun _ => None)
    plain_text sample_rate (fun content => content) any_candidate 4 (t "/packs/one") extraction_limits tt.
Definition sample_extraction := execute sample_respond sample_extract tt.
Definition sample_names (r : result ExtractError Manifest) : list text :=
  match r with Ok manifest => SafeName <$> Members manifest | Err _ => [] end.

(** The two texts keep names of their own, a repeated text is dropped and the
    file without cues is counted. *)
Example extraction_names : sample_names sample_extraction.1.2.2 = [t "A - e1.srt"; t "B - E1.SRT"].
Proof. vm_compute. reflexivity. Qed.

Lemma sample_extraction_runs : runs sample_extract sample_extraction.1.1 sample_extraction.1.2.
Proof. apply execute_runs. Qed.

Lemma extraction_is_whole_witness :
  exists manifest, sample_extraction.1.2.2 = Ok manifest /\ whole any_candidate (t "/packs/one") sample_extraction.1.1 manifest.
Proof.
  pose proof (extraction_is_whole _ _ _ _ _ _ _ _ _ _ any_candidate 4 (t "/packs/one") extraction_limits _ _
    ltac:(by vm_compute) sample_extraction_runs) as [_ Hw].
  destruct (sample_extraction.1.2.2) as [manifest|e] eqn:E; [by exists manifest|].
  exfalso. apply (f_equal (fun r => length (sample_names r))) in E. vm_compute in E. discriminate.
Defined.
End sample_extraction.
