(* ===== verification/Watermark.v ===== *)
(** * Advert cues (src/internal/watermark)

    Strip of watermark.go: cues whose text is a subtitle site's address, an
    advert or a site signature are removed from a SubRip text, address lines
    are dropped from the other cues, and the rest is renumbered. The theorem
    says what is lost: only cues and lines that match, never the whole text,
    and the text written reads back as exactly the cues that were kept. Texts
    are runes; the payload is valid UTF-8. *)
From S2P Require Import Prelude GoText Regex CueOrder CueReading.

(** ** The expressions *)

Definition spaces : regex := Many (Chr perl_space).
Definition dot : regex := lit (t ".").
Definition site : regex :=
  ((Opt (ilit (t "divx-")) ++ ilit (t "ti") ++ Opt (ilit (t "t")) ++ ilit (t "lovi") ++ spaces ++ any_of (t ".-") ++ spaces ++ ilit (t "com"))
   || (Opt dot ++ ilit (t "addic7ed") ++ Opt (spaces ++ any_of (t ".-") ++ spaces ++ ilit (t "com")) ++ Opt dot)
   || (ilit (t "subscene") ++ Opt (spaces ++ dot ++ spaces ++ ilit (t "com")))
   || (ilit (t "prijevodi-online") ++ spaces ++ dot ++ spaces ++ ilit (t "org"))
   || (ilit (t "podnapisi") ++ spaces ++ dot ++ spaces ++ ilit (t "net")))%re.

Definition siteWatermark : regex :=
  (Bol
   ++ Opt (ilit (t "preuzeto") ++ Plus (Chr perl_space) ++ ilit (t "s") ++ Opt (ilit (t "a")) ++ Plus (Chr perl_space))
   ++ (lit (t "@")
       || (Opt (ilit (t "http") ++ Opt (ilit (t "s")) ++ lit (t "://"))
           ++ Opt (ilit (t "www") ++ spaces ++ any_of (t ".-") ++ spaces)))
   ++ site ++ Opt (lit (t "/")) ++ Eol)%re.

Definition openSubtitlesAdvert : regex :=
  (ilit (t "opensubtitles") ++ spaces ++ dot ++ spaces ++ (ilit (t "org") || ilit (t "com")))%re.

Definition downloadedFrom : regex :=
  (Bol ++ ilit (t "preuzeto") ++ Plus (Chr perl_space) ++ ilit (t "s") ++ Opt (ilit (t "a")) ++ Eol)%re.

Definition cueMarkup : regex :=
  ((lit (t "<") ++ Many (Chr (fun r => negb (r =? 62)%N)) ++ lit (t ">"))
   || (lit (t "{") ++ Many (Chr (fun r => negb (r =? 125)%N)) ++ lit (t "}")))%re.

Definition release_kind : regex :=
  ((ilit (t "web") ++ Opt (lit (t "-")) ++ ilit (t "dl"))
   || (ilit (t "web") ++ Opt (lit (t "-")) ++ ilit (t "rip"))
   || (ilit (t "blu") ++ Opt (lit (t "-")) ++ ilit (t "ray"))
   || (ilit (t "b") ++ (ilit (t "d") || ilit (t "r")) ++ Opt (lit (t "-")) ++ ilit (t "rip"))
   || ilit (t "hdtv")
   || (ilit (t "dvd") ++ Opt (lit (t "-")) ++ ilit (t "rip")))%re.

Definition credit_kind : regex :=
  ((Opt (ilit (t "re") ++ Opt (lit (t "-"))) ++ ilit (t "sync") ++ Opt (ilit (t "ed")))
   || (ilit (t "subtitle") ++ Opt (ilit (t "s")))
   || (ilit (t "correction") ++ Opt (ilit (t "s")))
   || ilit (t "corrected")
   || ilit (t "provided"))%re.

Definition signatureCredit : regex :=
  (Bol
   ++ ((Opt (release_kind ++ Plus (Chr perl_space)) ++ credit_kind
          ++ Opt (spaces ++ (ilit (t "and") || lit (t "&")) ++ spaces ++ ilit (t "correct") ++ (ilit (t "ed") || ilit (t "ions")))
          ++ Plus (Chr perl_space) ++ ilit (t "by"))
       || (Opt (ilit (t "hvala") ++ Plus (Chr perl_space) ++ ilit (t "na") ++ Plus (Chr perl_space))
             ++ ilit (t "transkript") ++ Opt (ilit (t "a") || ilit (t "u"))))
   ++ Plus (Chr perl_space) ++ Chr (fun r => negb (perl_space r)))%re.

Section watermark.
Context `{Unicode}.

Definition without_markup (s : text) : text := replace_all cueMarkup s [].

Definition plainLine (line : text) : text := trim (one_of [45; 32; 9]%N) (trim_space (without_markup line)).

Definition is_address (line : text) : bool := matches siteWatermark (plainLine line).

(** [isSignature]: the loop with what it found so far. *)
Fixpoint is_signature (address : bool) (lines : list text) : bool :=
  match lines with
  | [] => address
  | line :: lines =>
      if bool_decide (plainLine line = []) then is_signature address lines
      else if is_address line then is_signature true lines
      else if matches signatureCredit (plainLine line) then is_signature address lines
      else false
  end.
Definition isSignature (lines : list text) : bool := is_signature false lines.

(** The lines of a cue that stay. *)
Fixpoint other_lines (lines : list text) : list text :=
  match lines with
  | [] => []
  | line :: rest =>
      if is_address line then other_lines rest
      else if matches downloadedFrom (plainLine line)
              && match rest with next :: _ => is_address next | [] => false end
      then other_lines rest
      else line :: other_lines rest
  end.

Definition withoutAddressLines (lines : list text) : list text * bool :=
  let kept := other_lines lines in
  if (length kept =? length lines) || (length kept =? 0) then (lines, false) else (kept, true).

(** ** The blocks of a text *)

(** The blocks of non-blank lines; [current] is the open one, in reverse. *)
Fixpoint blocks_from (current : list text) (lines : list text) : list (list text) :=
  match lines with
  | [] => match current with [] => [] | _ => [rev current] end
  | line :: lines =>
      if blank line then match current with [] => blocks_from [] lines | _ => rev current :: blocks_from [] lines end
      else blocks_from (line :: current) lines
  end.
Definition text_blocks (body : text) : list (list text) := blocks_from [] (split_rune newline body).

Definition is_cue (lines : list text) : bool :=
  match lines with _ :: timing :: _ :: _ => contains (t "-->") timing | _ => false end.

Definition is_advert (lines : list text) : bool :=
  let cue := trim_space (without_markup (join [32%N] (drop 2 lines))) in
  matches siteWatermark cue || matches openSubtitlesAdvert cue || isSignature (drop 2 lines).

(** What is kept of a block, and whether anything went. *)
Definition cleaned (lines : list text) : option (list text) * bool :=
  if is_cue lines then
    if is_advert lines then (None, true)
    else let '(kept, dropped) := withoutAddressLines (drop 2 lines) in
         if dropped then (Some (take 2 lines ++ kept), true) else (Some lines, false)
  else (Some lines, false).

Definition renumbered (index : nat) (lines : list text) : list text :=
  match lines with
  | first :: ((timing :: _) as rest) =>
      if bool_decide (is_Some (atoi (trim_space first))) && contains (t "-->") timing
      then itoa (Z.of_nat (S index)) :: rest else lines
  | _ => lines
  end.

(** The text of the kept blocks from [index]: a blank line before each but the
    first. *)
Fixpoint blocks_text (index : nat) (kept : list (list text)) : text :=
  match kept with
  | [] => []
  | lines :: kept =>
      (if 0 <? index then [newline] else []) ++ join [newline] (renumbered index lines) ++ [newline]
        ++ blocks_text (S index) kept
  end.

(** [strings.ReplaceAll(s, LF, newline)]. *)
Definition with_newlines (nl : text) (s : text) : text :=
  concat (map (fun r => if (r =? newline)%N then nl else [r]) s).

Definition crlf : text := [13; 10]%N.

Definition Strip (extension payload : text) : text :=
  if negb (bool_decide (to_lower extension = t ".srt")) then payload
  else
    let nl := if contains crlf payload then crlf else [newline] in
    let body := unix_lines payload in
    let '(bom, body) := if has_prefix bom_text body then (bom_text, trim_prefix bom_text body) else ([], body) in
    let results := cleaned <$> text_blocks body in
    let kept := omap id results.*1 in
    if negb (existsb id results.*2) || (length kept =? 0) then payload
    else with_newlines nl (bom ++ blocks_text 0 kept).

(** ** What a strip removes *)

(** The lines [kept] of a cue: the others are addresses, or introduce one. *)
Inductive without_addresses : list text -> list text -> Prop :=
| wa_nil : without_addresses [] []
| wa_keep line lines kept : without_addresses lines kept -> without_addresses (line :: lines) (line :: kept)
| wa_address line lines kept : is_address line = true -> without_addresses lines kept -> without_addresses (line :: lines) kept
| wa_intro line next lines kept : matches downloadedFrom (plainLine line) = true -> is_address next = true ->
    without_addresses (next :: lines) kept -> without_addresses (line :: next :: lines) kept.

(** The blocks [kept] of a text: the others are adverts. *)
Inductive stripped : list (list text) -> list (list text) -> Prop :=
| st_nil : stripped [] []
| st_keep lines blocks kept : stripped blocks kept -> stripped (lines :: blocks) (lines :: kept)
| st_advert lines blocks kept : is_cue lines = true -> is_advert lines = true -> stripped blocks kept ->
    stripped (lines :: blocks) kept
| st_lines lines text_ blocks kept : is_cue lines = true -> text_ <> [] -> without_addresses (drop 2 lines) text_ ->
    stripped blocks kept -> stripped (lines :: blocks) ((take 2 lines ++ text_) :: kept).

Lemma other_lines_spec lines : without_addresses lines (other_lines lines).
Proof.
  induction lines as [|line lines IH]; cbn [other_lines]; [constructor|].
  destruct (is_address line) eqn:Ea; [by apply wa_address|].
  destruct (matches downloadedFrom (plainLine line)) eqn:Ed; cbn [andb]; [|by constructor].
  destruct lines as [|next lines]; [by constructor|]. destruct (is_address next) eqn:En; [by apply wa_intro|by constructor].
Qed.

Lemma cleaned_stripped blocks : stripped blocks (omap id (cleaned <$> blocks).*1).
Proof.
  induction blocks as [|lines blocks IH]; [constructor|]. cbn [fmap list_fmap].
  unfold cleaned at 1. destruct (is_cue lines) eqn:Ec; [|by constructor].
  destruct (is_advert lines) eqn:Ea; [by apply st_advert|].
  unfold withoutAddressLines. destruct (_ || _) eqn:E; [by constructor|]. apply orb_false_iff in E as [_ E%Nat.eqb_neq].
  cbn. apply st_lines; [done| |apply other_lines_spec|done]. intros En. by rewrite En in E.
Qed.

(** ** Reading the text back *)

Definition plain_line (line : text) : Prop := blank line = false /\ Forall (fun r => r <> newline) line.
Definition plain_block (lines : list text) : Prop := lines <> [] /\ Forall plain_line lines.

Lemma split_line line s : Forall (fun r => r <> newline) line ->
  split_rune newline (line ++ newline :: s) = line :: split_rune newline s.
Proof.
  induction 1 as [|r line Hr _ IH]; cbn; [done|]. rewrite IH. destruct (N.eqb_spec r newline); [done|done].
Qed.

Lemma split_no_newline s : Forall (Forall (fun r => r <> newline)) (split_rune newline s).
Proof.
  induction s as [|r s IH]; cbn; [by repeat constructor|]. destruct (N.eqb_spec r newline); [by constructor|].
  destruct (split_rune newline s) as [|w ws]; [by repeat constructor|]. inversion IH; subst. constructor; [by constructor|done].
Qed.

Lemma blocks_from_plain lines : forall current,
  Forall plain_line current -> Forall (Forall (fun r => r <> newline)) lines ->
  Forall plain_block (blocks_from current lines).
Proof.
  assert (forall c : list text, Forall plain_line c -> c <> [] -> plain_block (rev c)) as Hrev.
  { intros c Hc Hne. split; [|by apply List.Forall_rev]. intros E. apply Hne. by rewrite <- (rev_involutive c), E. }
  induction lines as [|line lines IH]; intros current Hc Hl; cbn [blocks_from].
  - destruct current; [constructor|]. constructor; [by apply Hrev|constructor].
  - inversion Hl; subst. destruct (blank line) eqn:Eb.
    + destruct current; [by apply IH|]. constructor; [by apply Hrev|by apply IH].
    + apply IH; [|done]. by constructor.
Qed.

Lemma text_blocks_plain body : Forall plain_block (text_blocks body).
Proof. apply blocks_from_plain; [constructor|apply split_no_newline]. Qed.

Lemma without_addresses_lines lines kept (P : text -> Prop) : without_addresses lines kept -> Forall P lines -> Forall P kept.
Proof. induction 1; intros Hl; [done| | |]; inversion Hl; subst; auto. Qed.

Lemma stripped_plain blocks kept : stripped blocks kept -> Forall plain_block blocks -> Forall plain_block kept.
Proof.
  induction 1 as [|lines blocks kept _ IH|lines blocks kept _ _ _ IH|lines x blocks kept Hc Hne Hw _ IH]; intros Hb;
    [done|inversion Hb; subst..]; [by constructor; auto|by auto|].
  match goal with H : plain_block lines |- _ => destruct H as [Hl1 Hl2] end.
  constructor; [|by auto]. split; [by destruct lines as [|? [|? ?]]|].
  apply Forall_app. split; [by apply Forall_take|]. eapply without_addresses_lines; [done|by apply Forall_drop].
Qed.

Lemma renumbered_plain index lines : plain_block lines -> plain_block (renumbered index lines).
Proof.
  intros [Hne Hl]. unfold renumbered. destruct lines as [|first [|timing rest]]; [done|done|].
  destruct (_ && _); [|done]. split; [done|]. inversion Hl; subst. constructor; [|done].
  destruct (itoa_index (Z.of_nat (S index)) ltac:(lia)) as [_ Hb]. split; [done|].
  eapply Forall_impl; [apply itoa_digits; lia|]. cbn. intros r Hr ->. done.
Qed.

Lemma blocks_of_lines lines : forall current rest, Forall plain_line lines ->
  blocks_from current (lines ++ rest) = blocks_from (rev lines ++ current) rest.
Proof.
  induction lines as [|line lines IH]; intros current rest Hl; [done|]. inversion Hl as [|? ? [Hb _] Hl']; subst.
  cbn [app blocks_from rev]. rewrite Hb, IH by done. by rewrite <- app_assoc.
Qed.

Lemma split_block lines s : plain_block lines ->
  split_rune newline (join [newline] lines ++ newline :: s) = lines ++ split_rune newline s.
Proof.
  intros [Hne Hl]. induction lines as [|line lines IH]; [done|]. inversion Hl as [|? ? [_ Hn] Hl']; subst.
  destruct lines as [|next lines]; [by apply split_line|].
  change (join [newline] (line :: next :: lines)) with (line ++ newline :: join [newline] (next :: lines)).
  rewrite <- app_assoc. cbn [app]. rewrite split_line, IH by done. done.
Qed.

(** The text of the kept blocks reads back as those blocks, renumbered. *)
Lemma blocks_text_read kept : forall index, Forall plain_block kept ->
  text_blocks (blocks_text index kept) = imap (fun i lines => renumbered (index + i) lines) kept.
Proof.
  induction kept as [|lines kept IH]; intros index Hk; [done|]. inversion Hk; subst.
  assert (plain_block (renumbered index lines)) as Hp by by apply renumbered_plain.
  unfold text_blocks in *. cbn [blocks_text imap]. rewrite Nat.add_0_r.
  assert (imap ((fun i l => renumbered (index + i) l) ∘ S) kept = imap (fun i l => renumbered (S index + i) l) kept) as ->.
  { apply imap_ext. intros i l _. cbn. f_equal. lia. }
  rewrite <- IH by done.
  assert (forall s, blocks_from [] (split_rune newline ((if 0 <? index then [newline] else []) ++ s))
                    = blocks_from [] (split_rune newline s)) as ->.
  { intros s. by destruct (0 <? index). }
  assert (exists rest, split_rune newline (blocks_text (S index) kept) = [] :: rest) as [rest Hrest].
  { destruct kept; cbn; by eexists. }
  cbn [app]. rewrite split_block by done. rewrite blocks_of_lines by apply Hp. rewrite app_nil_r, Hrest.
  cbn [blocks_from]. destruct (rev (renumbered index lines)) as [|r rs] eqn:Er.
  - exfalso. destruct Hp as [Hne _]. apply Hne. by rewrite <- (rev_involutive (renumbered index lines)), Er.
  - cbn [blank]. change (blank []) with true. cbv iota. f_equal. by rewrite <- Er, rev_involutive.
Qed.

Lemma unix_with_newlines s : unix_lines (with_newlines crlf s) = s.
Proof.
  induction s as [|r s IH]; [done|]. unfold with_newlines in *. cbn [map concat].
  destruct (N.eqb_spec r newline) as [->|Hr].
  - unfold crlf at 1. cbn [app]. change (unix_lines (13%N :: 10%N :: concat (map (fun r => if (r =? newline)%N then crlf else [r]) s)))
      with (10%N :: unix_lines (concat (map (fun r => if (r =? newline)%N then crlf else [r]) s))). by rewrite IH.
  - cbn [app]. set (w := concat _) in *. destruct (decide (r = 13%N)) as [->|Hr'].
    + assert (unix_lines (13%N :: w) = 13%N :: unix_lines w) as ->; [|by rewrite IH].
      destruct w as [|x w'] eqn:Ew; [done|]. destruct (decide (x = 10%N)) as [->|Hx].
      * exfalso. subst w. destruct s as [|y s]; [done|]. cbn in Ew. destruct (N.eqb_spec y newline); [done|].
        injection Ew as -> _. done.
      * cbn. repeat case_match; done.
    + assert (unix_lines (r :: w) = r :: unix_lines w) as ->; [|by rewrite IH].
      cbn. repeat case_match; try done; congruence.
Qed.

Lemma lf_with_newlines s : with_newlines [newline] s = s.
Proof.
  induction s as [|r s IH]; [done|]. unfold with_newlines in *. cbn [map concat]. rewrite IH.
  by destruct (N.eqb_spec r newline) as [->|].
Qed.

(** C34. Stripping removes nothing but adverts. A payload is returned as it is, or
    it is a SubRip text of which whole cues that are adverts are gone, and from
    other cues only the lines that are a site's address or introduce one; at
    least one block stays; and the text written, with the line endings of the
    payload, reads back as exactly the blocks that were kept, renumbered. *)
Theorem strip_removes_only_adverts extension payload :
  Strip extension payload = payload
  \/ exists bom body kept,
       to_lower extension = t ".srt" /\ unix_lines payload = bom ++ body
       /\ stripped (text_blocks body) kept /\ kept <> []
       /\ (let written_ := bom ++ blocks_text 0 kept in
           if contains crlf payload then unix_lines (Strip extension payload) = written_ else Strip extension payload = written_)
       /\ text_blocks (blocks_text 0 kept) = imap renumbered kept.
Proof.
  unfold Strip. destruct (bool_decide_reflect (to_lower extension = t ".srt")) as [Hext|]; [|by left]. cbn [negb].
  set (split_ := if has_prefix bom_text (unix_lines payload) then _ else _).
  assert (unix_lines payload = split_.1 ++ split_.2) as Hsplit.
  { subst split_. destruct (has_prefix bom_text (unix_lines payload)) eqn:E; [|done]. cbn [fst snd].
    unfold trim_prefix. rewrite E. apply has_prefix_spec in E as [s' ->]. done. }
  destruct split_ as [bom body]. cbn [fst snd] in Hsplit.
  set (kept := omap id (cleaned <$> text_blocks body).*1).
  destruct (_ || (length kept =? 0)) eqn:E; [by left|]. right. apply orb_false_iff in E as [_ E%Nat.eqb_neq].
  exists bom, body, kept. pose proof (cleaned_stripped (text_blocks body)) as Hst. fold kept in Hst.
  split_and!; [done|done|done|by intros Hk; rewrite Hk in E| |].
  - cbv zeta. destruct (contains crlf payload); [apply unix_with_newlines|apply lf_with_newlines].
  - rewrite blocks_text_read; [done|]. eapply stripped_plain; [done|apply text_blocks_plain].
Qed.
End watermark.

(** ** A sample *)

Definition sample_advert : text :=
  join [newline] (t <$> ["1"; "00:00:36,936 --> 00:00:40,936"; "Preuzeto sa"; "www.titlovi.com"; ""; "2";
    "00:00:43,936 --> 00:00:47,064"; "Preveo Ivan"; "www. titlovi. com"; ""; "3"; "00:00:47,189 --> 00:00:51,093"; "A"; ""]%string).

Example advert_stripped :
  Strip (t ".SRT") sample_advert
  = join [newline] (t <$> ["1"; "00:00:43,936 --> 00:00:47,064"; "Preveo Ivan"; ""; "2"; "00:00:47,189 --> 00:00:51,093"; "A"; ""]%string).
Proof. by vm_compute. Qed.
