(* ===== verification/Outbox.v ===== *)
(** * The notification outbox (src/internal/store, src/internal/worker)

    The [notifications] table: intents queued in the transaction of the change
    they announce, leased by the worker, delivered, and pruned once finished.
    A dedupe key collapses replays of a pending intent; a coalescing key names
    a target (an Arr rescan of one series) instead of a change. The second half
    is the worker's side: grouping a leased batch, and how the answer of a
    delivery completes an intent. *)
From S2P Require Import Prelude GoText Domain SearchQueue Schedule.

#[local] Open Scope Z_scope.

(** ** The table *)

Record intent_row := mkIntent {
  n_notifier : text;
  n_payload : text;
  n_attempt : Z;
  n_next : Z;
  n_result : text;
  n_owner : option text;
  n_until : option Z;
  n_key : option text;
  n_finished : option Z;
}.

(** Rows by their [INTEGER PRIMARY KEY]. *)
Abbreviation outbox := (gmap Z intent_row).

Record NotificationRequest := mkNotification {
  NNotifier : text;
  NDedupeKey : text;
  NPayload : text;
  NNextAttemptAt : instant;
  NCoalesce : bool;
}.

Record NotificationLease := mkNotificationLease {
  LID : Z;
  LNotifier : text;
  LPayload : text;
  LAttempt : Z;
  LJobID : text;
  LUntil : Z;
}.

Record NotificationCompletion := mkNotificationCompletion {
  NCJobID : text;
  NCResult : text;
  NCNextAttemptAt : instant;
  NCFinishedAt : instant;
}.

Definition NotificationRetention : duration := 30 * 24 * hour.

Inductive OutboxError := InvalidNotification | OutboxArguments | NoJobID | OutboxLeaseNotFound.

(** SQLite's rowid of an insert: one more than the largest. *)
Definition next_rowid {A} (db : gmap Z A) : Z := 1 + foldr Z.max 0 (map_to_list db).*1.

Definition with_intent_lease (owner : option text) (until : option Z) (r : intent_row) : intent_row :=
  mkIntent (n_notifier r) (n_payload r) (n_attempt r) (n_next r) (n_result r) owner until (n_key r) (n_finished r).
Definition with_intent_key (key : option text) (r : intent_row) : intent_row :=
  mkIntent (n_notifier r) (n_payload r) (n_attempt r) (n_next r) (n_result r) (n_owner r) (n_until r) key
    (n_finished r).

Definition keyed_rows (key : text) (db : outbox) : list (Z * intent_row) :=
  base.filter (fun kr => bool_decide (n_key (snd kr) = Some key) = true) (map_to_list db).

Section outbox.
(** [json.Valid]. *)
Context (json_valid : text -> bool).

Definition validateNotificationRequest (q : NotificationRequest) : bool :=
  negb (bool_decide (NNotifier q = []) || bool_decide (NDedupeKey q = []) || negb (json_valid (NPayload q))
        || is_zero (NNextAttemptAt q)).

Definition new_intent (q : NotificationRequest) : intent_row :=
  mkIntent (NNotifier q) (NPayload q) 0 (NNextAttemptAt q) [] None None (Some (NDedupeKey q)) None.

(** [INSERT ... ON CONFLICT DO NOTHING] under the unique index on the keys. *)
Definition insert_intent (q : NotificationRequest) (db : outbox) : outbox * bool :=
  match keyed_rows (NDedupeKey q) db with
  | [] => (<[next_rowid db := new_intent q]> db, true)
  | _ => (db, false)
  end.

Definition enqueueNotification (q : NotificationRequest) (db : outbox) : outbox * bool :=
  if NCoalesce q then
    match keyed_rows (NDedupeKey q) db with
    | [] => insert_intent q db
    | (id, r) :: _ =>
        if bool_decide (n_owner r = None) then (db, false)
        else insert_intent q (alter (with_intent_key None) id db)
    end
  else insert_intent q db.

Definition EnqueueNotification (q : NotificationRequest) (db : outbox) : result OutboxError (outbox * bool) :=
  if validateNotificationRequest q then Ok (enqueueNotification q db) else Err InvalidNotification.
End outbox.

(** ** Leasing *)

Definition intent_unleased (now : Z) (r : intent_row) : bool :=
  match n_until r with None => true | Some u => u <=? now end.

Definition intent_due (now : Z) (kr : Z * intent_row) : bool :=
  (0 <? n_next (snd kr)) && (n_next (snd kr) <=? now) && intent_unleased now (snd kr).

Definition intent_order : Z * intent_row -> Z * intent_row -> comparison :=
  lex (asc (fun kr => n_next (snd kr)) Z.compare) (asc fst Z.compare).

Definition due_intents (now : Z) (limit : nat) (db : outbox) : list (Z * intent_row) :=
  take limit (stable_sort (less_of intent_order) (base.filter (fun kr => intent_due now kr = true) (map_to_list db))).

(** The claim loop; [ids] are the random job ids. *)
Fixpoint claim_intents (now until : Z) (ids : list text) (rows : list (Z * intent_row)) (db : outbox)
    {struct rows} : result OutboxError (outbox * list NotificationLease) :=
  match rows with
  | [] => Ok (db, [])
  | (id, r) :: rows =>
      match ids with
      | [] => Err NoJobID
      | job :: ids =>
          let claim := match db !! id with Some current => intent_unleased now current | None => false end in
          let db := if claim then alter (with_intent_lease (Some job) (Some until)) id db else db in
          let! (db, leases) := claim_intents now until ids rows db in
          Ok (db, (if claim then [mkNotificationLease id (n_notifier r) (n_payload r) (n_attempt r) job until]
                   else []) ++ leases)
      end
  end.

Definition LeaseDueNotifications (now : instant) (limit : Z) (d : duration) (ids : list text) (db : outbox)
    : result OutboxError (outbox * list NotificationLease) :=
  if (limit <=? 0) || (d <=? 0) then Err OutboxArguments
  else claim_intents now (now + d) ids (due_intents now (Z.to_nat limit) db) db.

(** [UPDATE notifications SET f WHERE lease_owner = job]. *)
Definition intent_owned (job : text) (r : intent_row) : bool := bool_decide (n_owner r = Some job).
Definition update_intents (job : text) (f : intent_row -> intent_row) (db : outbox) : outbox :=
  (fun r => if intent_owned job r then f r else r) <$> db.
Definition owned_intents (job : text) (db : outbox) : nat := size (filter (fun kr => n_owner kr.2 = Some job) db).

(** The statement runs alone: its update stands even when [requireOneRow]
    then fails. *)
Definition require_one (job : text) (db db' : outbox) : outbox * option OutboxError :=
  (db', if (owned_intents job db =? 1)%nat then None else Some OutboxLeaseNotFound).

Definition RenewNotificationLease (job : text) (now : instant) (d : duration) (db : outbox)
    : outbox * option OutboxError :=
  if bool_decide (job = []) || (d <=? 0) then (db, Some OutboxArguments)
  else require_one job db (update_intents job (fun r => with_intent_lease (n_owner r) (Some (now + d)) r) db).

Definition completed_intent (c : NotificationCompletion) (finished : instant) (r : intent_row) : intent_row :=
  let next := if is_zero (NCNextAttemptAt c) then 0 else NCNextAttemptAt c in
  mkIntent (n_notifier r) (n_payload r) (n_attempt r + 1) next (NCResult c) None None
    (if next =? 0 then None else n_key r) (if next =? 0 then Some finished else None).

(** [wall] is the clock read when the completion has no time of its own. *)
Definition CompleteNotification (wall : instant) (c : NotificationCompletion) (db : outbox)
    : outbox * option OutboxError :=
  let finished := if is_zero (NCFinishedAt c) then wall else NCFinishedAt c in
  require_one (NCJobID c) db (update_intents (NCJobID c) (completed_intent c finished) db).

Definition ReleaseNotificationLease (job : text) (db : outbox) : outbox * option OutboxError :=
  if bool_decide (job = []) then (db, Some OutboxArguments)
  else (update_intents job (with_intent_lease None None) db, None).

Definition prunable (before : Z) (kr : Z * intent_row) : bool :=
  (n_next (snd kr) =? 0) && bool_decide (n_owner (snd kr) = None)
  && match n_finished (snd kr) with Some f => f <? before | None => false end.

Definition finished_order : Z * intent_row -> Z * intent_row -> comparison :=
  asc (fun kr => default 0 (n_finished (snd kr))) Z.compare.

Definition PruneFinishedNotifications (before : instant) (limit : Z) (db : outbox)
    : result OutboxError (outbox * Z) :=
  if limit <=? 0 then Err OutboxArguments
  else
    let rows := take (Z.to_nat limit) (stable_sort (less_of finished_order)
                  (base.filter (fun kr => prunable before kr = true) (map_to_list db))) in
    Ok (foldr (fun kr db => delete kr.1 db) db rows, Z.of_nat (length rows)).

(** ** Delivery (worker.go) *)

(** What a notifier answered. *)
Inductive DeliveryAnswer :=
| Delivered
| Skipped (reason : text)
| Failed (retryable refused : bool)
| Undeliverable.

Definition completeNotification (now : instant) (l : NotificationLease) (answer : DeliveryAnswer)
    : NotificationCompletion :=
  let done (result : text) := mkNotificationCompletion (LJobID l) result zero_time now in
  match answer with
  | Delivered => done (t "success")
  | Skipped _ => done (t "skipped")
  | Failed true _ =>
      mkNotificationCompletion (LJobID l) (t "retryable_error") (now + FailureDelay (LAttempt l)) now
  | Failed false true => done (t "refused")
  | Failed false false | Undeliverable => done (t "permanent_error")
  end.

Section delivery.
(** A notifier's coalescing key of a payload; [None] for a notifier that does
    not coalesce, a payload that does not decode or a key it refuses. *)
Context (coalesce_key : NotificationLease -> option text).

Definition notificationCoalesceKey (l : NotificationLease) : option text :=
  (fun key => LNotifier l ++ [0%N] ++ key) <$> coalesce_key l.

Definition coalesce_step (acc : list (list NotificationLease) * gmap text nat) (l : NotificationLease)
    : list (list NotificationLease) * gmap text nat :=
  let '(groups, by_key) := acc in
  match notificationCoalesceKey l with
  | Some key =>
      match by_key !! key with
      | Some i => (alter (fun g => g ++ [l]) i groups, by_key)
      | None => (groups ++ [[l]], <[key := length groups]> by_key)
      end
  | None => (groups ++ [[l]], by_key)
  end.

Definition coalesceNotifications (leases : list NotificationLease) : list (list NotificationLease) :=
  fst (fold_left coalesce_step leases ([], ∅)).

(** A group's delivery: the first lease is delivered; every member whose lease
    is still held is completed with that answer. A group whose leader lost its
    lease completes nothing. *)
Definition complete_group (wall now : instant) (held : text -> bool) (answer : DeliveryAnswer)
    (group : list NotificationLease) (db : outbox) : outbox :=
  match group with
  | [] => db
  | leader :: _ =>
      if held (LJobID leader) then
        fold_left (fun db l => if held (LJobID l)
                               then fst (CompleteNotification wall (completeNotification now l answer) db) else db)
          group db
      else db
  end.

Definition processNotifications (wall now : instant) (held : text -> bool)
    (deliver : NotificationLease -> DeliveryAnswer) (leases : list NotificationLease) (db : outbox) : outbox :=
  fold_left (fun db g => match g with
                         | [] => db
                         | leader :: _ => complete_group wall now held (deliver leader) g db
                         end) (coalesceNotifications leases) db.
End delivery.

(** ** Steps *)

Inductive outbox_event := IntentLeased (id : Z) (job : text) | IntentFinished (job : text).

Definition lease_events (leases : list NotificationLease) : list outbox_event :=
  (fun l => IntentLeased (LID l) (LJobID l)) <$> leases.

Definition job_unused (db : outbox) (job : text) : Prop := forall id r, db !! id = Some r -> n_owner r <> Some job.

(** One constructor per statement; times are after 1970 and job ids random. *)
Inductive outbox_step (json_valid : text -> bool) (db : outbox) : list outbox_event -> outbox -> Prop :=
| outbox_enqueue q db' inserted :
    0 < NNextAttemptAt q -> EnqueueNotification json_valid q db = Ok (db', inserted) -> outbox_step json_valid db [] db'
| outbox_lease now limit d ids db' leases :
    NoDup ids -> Forall (job_unused db) ids ->
    LeaseDueNotifications now limit d ids db = Ok (db', leases) -> outbox_step json_valid db (lease_events leases) db'
| outbox_renew job now d : outbox_step json_valid db [] (RenewNotificationLease job now d db).1
| outbox_release job : outbox_step json_valid db [] (ReleaseNotificationLease job db).1
| outbox_complete wall c :
    is_zero (NCNextAttemptAt c) = true \/ 0 < NCNextAttemptAt c ->
    outbox_step json_valid db (if is_zero (NCNextAttemptAt c) then [IntentFinished (NCJobID c)] else [])
      (CompleteNotification wall c db).1
| outbox_prune before limit db' n :
    PruneFinishedNotifications before limit db = Ok (db', n) -> outbox_step json_valid db [] db'.

Inductive outbox_trace (json_valid : text -> bool) : outbox -> list outbox_event -> outbox -> Prop :=
| trace_nil db : outbox_trace json_valid db [] db
| trace_snoc db t1 db1 t2 db2 :
    outbox_trace json_valid db t1 db1 -> outbox_step json_valid db1 t2 db2 ->
    outbox_trace json_valid db (t1 ++ t2) db2.

(** ** The invariant *)

(** A finished intent has no key; an owner comes with an expiry. *)
Definition intent_ok (r : intent_row) : Prop :=
  0 <= n_next r /\ (n_next r = 0 -> n_key r = None) /\ (n_owner r = None <-> n_until r = None).

(** At most one intent per key. *)
Definition outbox_inv (db : outbox) : Prop :=
  (forall id r, db !! id = Some r -> intent_ok r)
  /\ (forall id1 id2 r1 r2 key, db !! id1 = Some r1 -> db !! id2 = Some r2 ->
        n_key r1 = Some key -> n_key r2 = Some key -> id1 = id2).

Lemma keyed_rows_spec key db id r : (id, r) ∈ keyed_rows key db <-> db !! id = Some r /\ n_key r = Some key.
Proof.
  unfold keyed_rows. rewrite list_elem_of_filter, elem_of_map_to_list, bool_decide_eq_true. simpl. tauto.
Qed.

Lemma keyed_rows_nil key db : keyed_rows key db = [] <-> forall id r, db !! id = Some r -> n_key r <> Some key.
Proof.
  split.
  - intros Hnil id r Hr Hk. assert ((id, r) ∈ keyed_rows key db) as Hin by by apply keyed_rows_spec.
    rewrite Hnil in Hin. by apply elem_of_nil in Hin.
  - intros Hno. destruct (keyed_rows key db) as [|[id r] l] eqn:E; [done|].
    assert ((id, r) ∈ keyed_rows key db) as [Hr Hk]%keyed_rows_spec by (rewrite E; left).
    by destruct (Hno id r Hr).
Qed.

Lemma foldr_max_le (l : list Z) x : x ∈ l -> x <= foldr Z.max 0 l.
Proof. induction 1; simpl; lia. Qed.

Lemma next_rowid_pos {A} (db : gmap Z A) : 0 < next_rowid db.
Proof.
  unfold next_rowid. assert (0 <= foldr Z.max 0 (map_to_list db).*1); [|lia].
  generalize ((map_to_list db).*1) as l. induction l; simpl; lia.
Qed.

Lemma next_rowid_fresh {A} (db : gmap Z A) : db !! next_rowid db = None.
Proof.
  destruct (db !! next_rowid db) as [r|] eqn:E; [|done].
  assert (next_rowid db ∈ (map_to_list db).*1) as Hin%foldr_max_le.
  { apply list_elem_of_fmap. exists (next_rowid db, r). split; [done|by apply elem_of_map_to_list]. }
  unfold next_rowid in *. lia.
Qed.

(** Rows keep their identity, change in place, and lose their key at most. *)
Lemma outbox_inv_pointwise db db' :
  outbox_inv db ->
  (forall id r', db' !! id = Some r' -> exists r, db !! id = Some r /\ intent_ok r'
                                              /\ (n_key r' = n_key r \/ n_key r' = None)) ->
  outbox_inv db'.
Proof.
  intros [Hok Hkey] Hpt. split.
  - intros id r' Hr'. by destruct (Hpt id r' Hr') as (r & _ & ? & _).
  - intros id1 id2 r1 r2 key H1 H2 K1 K2.
    destruct (Hpt _ _ H1) as (r1' & ? & _ & [E1 | E1]); [|congruence].
    destruct (Hpt _ _ H2) as (r2' & ? & _ & [E2 | E2]); [|congruence].
    eapply (Hkey id1 id2 r1' r2' key); congruence.
Qed.

Lemma insert_intent_inv q db db' b :
  0 < NNextAttemptAt q -> outbox_inv db -> insert_intent q db = (db', b) -> outbox_inv db'.
Proof.
  intros Hpos [Hok Hkey]. unfold insert_intent. destruct (keyed_rows (NDedupeKey q) db) as [|? ?] eqn:E; intros [= <- <-].
  2:{ by split. }
  pose proof (proj1 (keyed_rows_nil _ _) E) as Hno. split.
  - intros id r [[<- <-] | [_ Hr]]%lookup_insert_Some; [|by eapply Hok].
    split_and!; simpl; [lia|lia|done].
  - intros id1 id2 r1 r2 key [[<- <-] | [? H1]]%lookup_insert_Some [[<- <-] | [? H2]]%lookup_insert_Some K1 K2;
      simpl in *; simplify_eq; try done.
    + by destruct (Hno _ _ H2).
    + by destruct (Hno _ _ H1).
    + eauto.
Qed.

Lemma with_key_inv id db : outbox_inv db -> outbox_inv (alter (with_intent_key None) id db).
Proof.
  intros Hinv. eapply outbox_inv_pointwise; [done|]. intros id' r' Hr'.
  apply lookup_alter_Some in Hr' as [(-> & r & Hr & ->) | [_ Hr]].
  - exists r. split; [done|]. destruct (proj1 Hinv _ _ Hr) as (H1 & H2 & H3). split; [|by right].
    by split_and!.
  - exists r'. split; [done|]. split; [by eapply (proj1 Hinv)|by left].
Qed.

Lemma enqueue_inv q db db' b :
  0 < NNextAttemptAt q -> outbox_inv db -> enqueueNotification q db = (db', b) -> outbox_inv db'.
Proof.
  intros Hpos Hinv. unfold enqueueNotification. destruct (NCoalesce q); [|by apply insert_intent_inv].
  destruct (keyed_rows (NDedupeKey q) db) as [|[id r] l]; [by apply insert_intent_inv|].
  destruct (bool_decide (n_owner r = None)); [by intros [= <- <-]|].
  apply insert_intent_inv; [done|by apply with_key_inv].
Qed.

(** What one lease call did to a row. *)
Lemma claim_intents_rows now until ids rows db db' leases id :
  claim_intents now until ids rows db = Ok (db', leases) ->
  match db !! id with
  | None => db' !! id = None
  | Some r =>
      db' !! id = Some r
      \/ exists job, IntentLeased id job ∈ lease_events leases /\ job ∈ ids
           /\ db' !! id = Some (with_intent_lease (Some job) (Some until) r)
  end.
Proof.
  revert ids db leases. induction rows as [|[id0 r0] rows IH]; intros ids db leases; cbn [claim_intents].
  { intros [= <- <-]. destruct (db !! id); [by left|done]. }
  destruct ids as [|job ids]; [done|]. cbv zeta.
  set (claim := match db !! id0 with Some current => intent_unleased now current | None => false end).
  intros ([db1 leases1] & H1 & [= <- <-])%rbind_ok. specialize (IH _ _ _ H1).
  assert (forall job', IntentLeased id job' ∈ lease_events leases1 -> job' ∈ ids ->
    IntentLeased id job' ∈ lease_events ((if claim then [mkNotificationLease id0 (n_notifier r0) (n_payload r0) (n_attempt r0) job until] else []) ++ leases1)
    /\ job' ∈ job :: ids) as Hmono.
  { intros job' Hin Hids. split; [|by right]. unfold lease_events. rewrite fmap_app, elem_of_app. by right. }
  destruct claim eqn:Ec.
  - destruct (decide (id = id0)) as [-> | Hne].
    + rewrite lookup_alter_eq in IH. destruct (db !! id0) as [r|] eqn:Er; cbn [fmap option_fmap option_map] in IH; [|done].
      right. destruct IH as [Hsame | (job' & Hin & Hids & Hsome)].
      * exists job. split; [by left|]. split; [by left|done].
      * exists job'. destruct (Hmono job' Hin Hids). by split_and!.
    + rewrite lookup_alter_ne in IH by done. destruct (db !! id) as [r|]; [|done].
      destruct IH as [Hsame | (job' & Hin & Hids & Hsome)]; [by left|].
      right. exists job'. destruct (Hmono job' Hin Hids). by split_and!.
  - destruct (db !! id) as [r|]; [|done]. destruct IH as [Hsame | (job' & Hin & Hids & Hsome)]; [by left|].
    right. exists job'. destruct (Hmono job' Hin Hids). by split_and!.
Qed.

Lemma update_intents_lookup job f db id :
  update_intents job f db !! id = (fun r => if intent_owned job r then f r else r) <$> db !! id.
Proof. apply lookup_fmap. Qed.

Lemma update_intents_inv job f db :
  outbox_inv db ->
  (forall r, intent_ok r -> n_owner r = Some job -> intent_ok (f r) /\ (n_key (f r) = n_key r \/ n_key (f r) = None)) ->
  outbox_inv (update_intents job f db).
Proof.
  intros Hinv Hf. eapply outbox_inv_pointwise; [done|]. intros id r'. rewrite update_intents_lookup.
  intros (r & Hr & Heq)%fmap_Some. pose proof (proj1 Hinv id r Hr) as Hok. exists r. split; [done|].
  subst r'. unfold intent_owned. destruct (bool_decide_reflect (n_owner r = Some job)) as [Ho|_]; [by apply Hf|].
  split; [done|by left].
Qed.

(** What pruning keeps. *)
Lemma prune_lookup (rows : list (Z * intent_row)) (db : outbox) id :
  foldr (fun kr db => delete kr.1 db) db rows !! id = if bool_decide (id ∈ rows.*1) then None else db !! id.
Proof.
  induction rows as [|[id0 r0] rows IH]; cbn [foldr fmap list_fmap fst]; [done|].
  destruct (decide (id = id0)) as [-> | Hne].
  - rewrite lookup_delete_eq, bool_decide_eq_true_2; [done|by left].
  - rewrite lookup_delete_ne, IH by done. apply Z.eqb_neq in Hne as Hne'.
    assert (bool_decide (id ∈ id0 :: rows.*1) = bool_decide (id ∈ rows.*1)) as ->; [|done].
    apply bool_decide_ext. rewrite elem_of_cons. naive_solver.
Qed.

Lemma prune_rows before limit db db' n id r :
  PruneFinishedNotifications before limit db = Ok (db', n) -> db !! id = Some r -> n_next r <> 0 -> db' !! id = Some r.
Proof.
  unfold PruneFinishedNotifications. destruct (_ <=? 0); [done|]. cbv zeta. intros [= <- <-] Hr Hnext.
  rewrite prune_lookup. case_bool_decide as Hin; [|done]. exfalso.
  apply list_elem_of_fmap in Hin as ([id' r'] & -> & Hin). cbn [fst] in Hr.
  apply elem_of_take in Hin as (i & Hin & _). apply list_elem_of_lookup_2 in Hin.
  rewrite stable_sort_perm in Hin. apply list_elem_of_filter in Hin as [Hp Hin%elem_of_map_to_list].
  simplify_eq. unfold prunable in Hp. cbn [snd] in Hp. bools. done.
Qed.

Lemma prune_inv before limit db db' n :
  outbox_inv db -> PruneFinishedNotifications before limit db = Ok (db', n) -> outbox_inv db'.
Proof.
  intros Hinv. unfold PruneFinishedNotifications. destruct (_ <=? 0); [done|]. cbv zeta. intros [= <- <-].
  eapply outbox_inv_pointwise; [done|]. intros id r'. rewrite prune_lookup. case_bool_decide; [done|].
  intros Hr. exists r'. split; [done|]. split; [by eapply (proj1 Hinv)|by left].
Qed.

Lemma outbox_step_inv json_valid db ev db' :
  outbox_step json_valid db ev db' -> outbox_inv db -> outbox_inv db'.
Proof.
  intros Hstep Hinv. destruct Hstep as [q db' b Hpos Hq | now limit d ids db' leases Hnd Hun Hl | job now d | job | wall c Hc
    | before limit db' n Hp].
  - unfold EnqueueNotification in Hq. destruct (validateNotificationRequest _ _); [|done].
    injection Hq as Hq. by eapply enqueue_inv.
  - unfold LeaseDueNotifications in Hl. destruct (_ || _); [done|].
    eapply outbox_inv_pointwise; [done|]. intros id r' Hr'. pose proof (claim_intents_rows _ _ _ _ _ _ _ id Hl) as Hrow.
    destruct (db !! id) as [r|] eqn:Er; [|congruence]. exists r. split; [done|].
    destruct (proj1 Hinv _ _ Er) as (H1 & H2 & H3).
    destruct Hrow as [Hsame | (job & _ & _ & Hsome)]; [assert (r' = r) as -> by congruence; split; [done|by left]|].
    rewrite Hsome in Hr'. injection Hr' as <-. split; [|by left]. by split_and!.
  - unfold RenewNotificationLease. destruct (_ || _); [done|]. apply update_intents_inv; [done|].
    intros r (H1 & H2 & H3) Ho. split; [|by left]. split_and!; [done|done|]. simpl. rewrite Ho. done.
  - unfold ReleaseNotificationLease. destruct (bool_decide _); [done|]. apply update_intents_inv; [done|].
    intros r (H1 & H2 & H3) Ho. split; [|by left]. by split_and!.
  - unfold CompleteNotification. apply update_intents_inv; [done|]. intros r (H1 & H2 & H3) Ho. split.
    + unfold completed_intent, intent_ok. simpl. destruct Hc as [-> | Hc]; [by split_and!|].
      destruct (is_zero _); [by split_and!|]. split_and!; [lia|lia|done].
    + simpl. destruct (_ =? 0); [by right|by left].
  - by eapply prune_inv.
Qed.

(** ** No change is lost *)

(** Intent [id] is still to be delivered, and whoever leases it did so in the
    trace. *)
Definition awaits (id : Z) (notifier payload : text) (trace : list outbox_event) (db : outbox) : Prop :=
  exists r, db !! id = Some r /\ 0 < n_next r /\ n_notifier r = notifier /\ n_payload r = payload
    /\ (forall job, n_owner r = Some job -> IntentLeased id job ∈ trace).

(** It was leased after the start of the trace and finished under that
    lease. *)
Definition delivered_in (id : Z) (trace : list outbox_event) : Prop :=
  exists job t1 t2 t3, trace = t1 ++ IntentLeased id job :: t2 ++ IntentFinished job :: t3.

Lemma delivered_app id t1 t2 : delivered_in id t1 -> delivered_in id (t1 ++ t2).
Proof.
  intros (job & a & b & c & ->). exists job, a, b, (c ++ t2). by rewrite <- !app_assoc, <- !app_comm_cons, <- app_assoc.
Qed.

Lemma awaits_same id notifier payload t1 t2 db db' :
  awaits id notifier payload t1 db -> db' !! id = db !! id -> awaits id notifier payload (t1 ++ t2) db'.
Proof.
  intros (r & Hr & H1 & H2 & H3 & H4) Heq. exists r. rewrite Heq. split_and!; try done.
  intros job Hj. rewrite elem_of_app. left. by apply H4.
Qed.

Lemma insert_intent_keeps q db db' b id r :
  insert_intent q db = (db', b) -> db !! id = Some r -> db' !! id = Some r.
Proof.
  unfold insert_intent. destruct (keyed_rows _ _); intros [= <- <-] Hr; [|done].
  rewrite lookup_insert_ne; [done|]. intros <-. by rewrite next_rowid_fresh in Hr.
Qed.

(** Queueing keeps every intent; at most it takes its key away. *)
Lemma enqueue_keeps q db db' b id r :
  enqueueNotification q db = (db', b) -> db !! id = Some r ->
  db' !! id = Some r \/ db' !! id = Some (with_intent_key None r).
Proof.
  unfold enqueueNotification. intros Hq Hr.
  destruct (NCoalesce q); [|left; by eapply insert_intent_keeps].
  destruct (keyed_rows (NDedupeKey q) db) as [|[id0 r0] l]; [left; by eapply insert_intent_keeps|].
  destruct (bool_decide (n_owner r0 = None)); [injection Hq as <- <-; by left|].
  destruct (decide (id = id0)) as [-> | Hne].
  - right. eapply insert_intent_keeps; [exact Hq|]. by rewrite lookup_alter_eq, Hr.
  - left. eapply insert_intent_keeps; [exact Hq|]. by rewrite lookup_alter_ne.
Qed.

Lemma update_intents_awaits job f id notifier payload t1 t2 db :
  (forall r, n_notifier (f r) = n_notifier r /\ n_payload (f r) = n_payload r /\ (0 < n_next r -> 0 < n_next (f r))
             /\ (n_owner (f r) = None \/ n_owner (f r) = n_owner r)) ->
  awaits id notifier payload t1 db -> awaits id notifier payload (t1 ++ t2) (update_intents job f db).
Proof.
  intros Hf (r & Hr & H1 & H2 & H3 & H4). destruct (Hf r) as (F1 & F2 & F3 & F4).
  exists (if intent_owned job r then f r else r). rewrite update_intents_lookup, Hr. split; [done|].
  destruct (intent_owned job r); (split_and!; [auto|congruence|congruence|]);
    intros job' Hj; rewrite elem_of_app; left; apply H4; [|done].
  destruct F4 as [F4 | F4]; congruence.
Qed.

Lemma awaits_step json_valid id notifier payload t1 db t2 db' :
  outbox_step json_valid db t2 db' -> awaits id notifier payload t1 db ->
  awaits id notifier payload (t1 ++ t2) db' \/ delivered_in id (t1 ++ t2).
Proof.
  intros Hstep Haw. destruct Hstep as [q db' b Hpos Hq | now limit d ids db' leases Hnd Hun Hl | job now d | job | wall c Hc
    | before limit db' n Hp]; try (left; by apply update_intents_awaits).
  - left. unfold EnqueueNotification in Hq. destruct (validateNotificationRequest _ _); [|done]. injection Hq as Hq.
    destruct Haw as (r & Hr & H1 & H2 & H3 & H4). rewrite app_nil_r.
    destruct (enqueue_keeps _ _ _ _ _ _ Hq Hr) as [E | E]; eexists; (split; [exact E|]); by split_and!.
  - left. unfold LeaseDueNotifications in Hl. destruct (_ || _); [done|].
    pose proof (claim_intents_rows _ _ _ _ _ _ _ id Hl) as Hrow. destruct Haw as (r & Hr & H1 & H2 & H3 & H4).
    rewrite Hr in Hrow. destruct Hrow as [Hsame | (job & Hin & _ & Hsome)].
    + exists r. rewrite Hsame. split_and!; try done. intros job Hj. rewrite elem_of_app. left. by apply H4.
    + eexists. rewrite Hsome. split_and!; try done. intros job' [= <-]. rewrite elem_of_app. by right.
  - left. unfold RenewNotificationLease. destruct (_ || _); [by apply (awaits_same _ _ _ _ _ db)|].
    apply update_intents_awaits; [|done]. intros r. split_and!; try done. by right.
  - left. unfold ReleaseNotificationLease. destruct (bool_decide _); [by apply (awaits_same _ _ _ _ _ db)|].
    apply update_intents_awaits; [|done]. intros r. split_and!; try done. by left.
  - unfold CompleteNotification. cbn [fst require_one]. destruct (is_zero (NCNextAttemptAt c)) eqn:Ez.
    + destruct Haw as (r & Hr & H1 & H2 & H3 & H4).
      destruct (decide (n_owner r = Some (NCJobID c))) as [Ho | Ho].
      * right. apply H4 in Ho. apply list_elem_of_split in Ho as (a & b & ->).
        exists (NCJobID c), a, b, []. by rewrite <- app_assoc, <- app_comm_cons.
      * left. apply (awaits_same _ _ _ _ _ db); [by exists r|].
        rewrite update_intents_lookup, Hr. cbn. unfold intent_owned. by rewrite bool_decide_eq_false_2.
    + left. destruct Hc as [Hc | Hc]; [congruence|]. apply update_intents_awaits; [|done].
      intros r. unfold completed_intent. cbn. rewrite Ez. split_and!; try done. by left.
  - left. destruct Haw as (r & Hr & H1 & H2 & H3 & H4). rewrite app_nil_r. exists r. split_and!; try done.
    eapply prune_rows; [exact Hp|done|lia].
Qed.

Lemma awaits_trace json_valid id notifier payload db t db' :
  outbox_trace json_valid db t db' -> awaits id notifier payload [] db ->
  awaits id notifier payload t db' \/ delivered_in id t.
Proof.
  induction 1 as [db | db t1 db1 t2 db2 Htrace IH Hstep]; intros Haw; [by left|].
  destruct (IH Haw) as [H1 | H1]; [|right; by apply delivered_app].
  by eapply awaits_step.
Qed.

(** Where a queued change waits: an intent with its key, not yet being sent. *)
Lemma enqueue_awaits q db db' b :
  outbox_inv db -> 0 < NNextAttemptAt q -> enqueueNotification q db = (db', b) ->
  NCoalesce q = true \/ b = true ->
  exists id r, db' !! id = Some r /\ n_key r = Some (NDedupeKey q) /\ n_owner r = None /\ 0 < n_next r
    /\ (b = true -> r = new_intent q /\ db !! id = None) /\ (b = false -> db !! id = Some r).
Proof.
  intros [Hok Hkey] Hpos Hq Hor.
  assert (forall db0, insert_intent q db0 = (db', b) -> keyed_rows (NDedupeKey q) db0 = [] ->
            (forall id, db0 !! id = None -> db !! id = None) ->
            exists id r, db' !! id = Some r /\ n_key r = Some (NDedupeKey q) /\ n_owner r = None /\ 0 < n_next r
              /\ (b = true -> r = new_intent q /\ db !! id = None) /\ (b = false -> db !! id = Some r)) as Hins.
  { intros db0 Hi Hnil Hdom. unfold insert_intent in Hi. rewrite Hnil in Hi. injection Hi as <- <-.
    exists (next_rowid db0), (new_intent q). rewrite lookup_insert_eq. split_and!; try done.
    intros _. split; [done|]. apply Hdom, next_rowid_fresh. }
  unfold enqueueNotification in Hq. destruct (NCoalesce q) eqn:Ec.
  - destruct (keyed_rows (NDedupeKey q) db) as [|[id r] l] eqn:E; [by eapply Hins|].
    assert ((id, r) ∈ keyed_rows (NDedupeKey q) db) as [Hr Hk]%keyed_rows_spec by (rewrite E; left).
    destruct (Hok id r Hr) as (Hn & Hfin & _).
    destruct (bool_decide_reflect (n_owner r = None)) as [Ho | Ho].
    + injection Hq as <- <-. exists id, r. split_and!; try done. destruct (decide (n_next r = 0)) as [E0 | E0]; [|lia].
      apply Hfin in E0. congruence.
    + eapply Hins; [exact Hq| |].
      * apply keyed_rows_nil. intros id' r' Hr' Hk'.
        apply lookup_alter_Some in Hr' as [(-> & r0 & Hr0 & ->) | [Hne Hr']]; [done|].
        apply Hne. eapply Hkey; done.
      * intros id'. destruct (decide (id' = id)) as [-> | Hne]; [by rewrite lookup_alter_eq, Hr|].
        by rewrite lookup_alter_ne.
  - destruct Hor as [|Hb]; [done|]. subst b. pose proof Hq as Hq'. unfold insert_intent in Hq'.
    destruct (keyed_rows (NDedupeKey q) db) eqn:E; [|done]. by eapply Hins.
Qed.

(** C21. No announced change is lost, and a coalescing one is never served by a
    delivery that began before it. A queued change that was inserted, or that
    coalesces, waits in an intent that carries its key and is not being sent.
    Whatever happens next (other changes, leases that expire or are taken over,
    retries, releases at shutdown, pruning), that intent is still there to be
    sent, unless it was leased after the change and finished by that lease. *)
Theorem queued_change_is_delivered json_valid q db db0 inserted trace db' :
  outbox_inv db -> 0 < NNextAttemptAt q ->
  EnqueueNotification json_valid q db = Ok (db0, inserted) ->
  NCoalesce q = true \/ inserted = true ->
  outbox_trace json_valid db0 trace db' ->
  outbox_inv db'
  /\ exists id r, db0 !! id = Some r /\ n_key r = Some (NDedupeKey q) /\ n_owner r = None
       /\ (inserted = true -> r = new_intent q /\ db !! id = None)
       /\ ((exists r', db' !! id = Some r' /\ 0 < n_next r' /\ n_notifier r' = n_notifier r /\ n_payload r' = n_payload r)
           \/ delivered_in id trace).
Proof.
  intros Hinv Hpos Hq Hor Htrace. unfold EnqueueNotification in Hq.
  destruct (validateNotificationRequest _ _); [|done]. injection Hq as Hq. split.
  { pose proof (enqueue_inv _ _ _ _ Hpos Hinv Hq) as Hinv0. clear - Htrace Hinv0.
    induction Htrace; [done|]. eapply outbox_step_inv; eauto. }
  destruct (enqueue_awaits _ _ _ _ Hinv Hpos Hq Hor) as (id & r & Hr & Hk & Ho & Hn & Hnew & _).
  exists id, r. split_and!; try done.
  assert (awaits id (n_notifier r) (n_payload r) [] db0) as Haw.
  { exists r. split_and!; try done. intros job Hj. congruence. }
  destruct (awaits_trace _ _ _ _ _ _ _ Htrace Haw) as [(r' & Hr' & H1 & H2 & H3 & _) | Hd]; [left|by right].
  by exists r'.
Qed.

(** ** One batch *)

Lemma concat_alter_snoc {A} (x : A) i (gs : list (list A)) g :
  gs !! i = Some g -> concat (alter (fun g => g ++ [x]) i gs) ≡ₚ concat gs ++ [x].
Proof.
  revert i. induction gs as [|g0 gs IH]; intros [|i]; cbn [lookup list_lookup alter list_alter concat]; try done.
  - intros _. rewrite <- !app_assoc. apply Permutation_app_head, Permutation_app_comm.
  - intros Hi. change (list_alter (fun g => g ++ [x]) i gs) with (alter (fun g => g ++ [x]) i gs).
    rewrite (IH _ Hi). by rewrite app_assoc.
Qed.

Section batch.
Context (coalesce_key : NotificationLease -> option text).
Abbreviation key_of := (notificationCoalesceKey coalesce_key).

(** A group: its leader, and followers with the leader's key. *)
Definition group_ok (g : list NotificationLease) : Prop :=
  exists leader followers, g = leader :: followers
    /\ forall l, l ∈ followers -> exists key, key_of l = Some key /\ key_of leader = Some key.

Record grouped (leases : list NotificationLease) (acc : list (list NotificationLease) * gmap text nat) : Prop := {
  grouped_all : concat acc.1 ≡ₚ leases;
  grouped_ok : Forall group_ok acc.1;
  grouped_index key i : acc.2 !! key = Some i ->
    exists leader followers, acc.1 !! i = Some (leader :: followers) /\ key_of leader = Some key;
}.

Lemma group_snoc leases acc l : grouped leases acc -> grouped (leases ++ [l]) (coalesce_step coalesce_key acc l).
Proof.
  intros [Hall Hok Hidx]. destruct acc as [groups by_key]. cbn [fst snd] in *. unfold coalesce_step.
  assert (forall by_key', (forall key i, by_key' !! key = Some i -> by_key !! key = Some i \/
            (key_of l = Some key /\ i = length groups)) ->
            grouped (leases ++ [l]) (groups ++ [[l]], by_key')) as Hnew.
  { intros by_key' Hb. split; cbn [fst snd].
    - rewrite concat_app. cbn. by rewrite Hall.
    - apply Forall_app. split; [done|]. constructor; [|done]. exists l, []. split; [done|]. by intros l' ?%elem_of_nil.
    - intros key i [Hi | [Hk ->]]%Hb.
      + destruct (Hidx key i Hi) as (leader & fs & Hg & Hk). exists leader, fs. split; [|done].
        by apply lookup_app_l_Some.
      + exists l, []. split; [|done]. by rewrite lookup_app_r, Nat.sub_diag by done. }
  destruct (key_of l) as [key|] eqn:Ek; [|apply Hnew; by left].
  destruct (by_key !! key) as [i|] eqn:Ei.
  - destruct (Hidx key i Ei) as (leader & fs & Hg & Hk). split; cbn [fst snd].
    + by rewrite (concat_alter_snoc l i groups _ Hg), Hall.
    + apply Forall_forall. intros g Hin. apply list_elem_of_lookup in Hin as [j Hj].
      rewrite Forall_lookup in Hok. destruct (decide (i = j)) as [<- | Hne].
      * rewrite list_lookup_alter_eq, Hg in Hj. injection Hj as <-. destruct (Hok i _ Hg) as (l0 & fs0 & [= <- <-] & Hf).
        exists leader, (fs ++ [l]). split; [done|]. intros l' [Hl' | ->%list_elem_of_singleton]%elem_of_app; [by apply Hf|].
        by exists key.
      * rewrite list_lookup_alter_ne in Hj by done. by eapply Hok.
    + intros key' j Hj. destruct (Hidx key' j Hj) as (l0 & fs0 & Hg0 & Hk0).
      destruct (decide (i = j)) as [<- | Hne].
      * exists l0, (fs0 ++ [l]). by rewrite list_lookup_alter_eq, Hg0.
      * exists l0, fs0. by rewrite list_lookup_alter_ne.
  - apply Hnew. intros key' j [[<- <-] | [_ Hj]]%lookup_insert_Some; [by right|by left].
Qed.

Lemma coalesce_grouped leases : grouped leases (fold_left (coalesce_step coalesce_key) leases ([], ∅)).
Proof.
  induction leases as [|l leases IH] using rev_ind.
  - split; cbn; [done|done|]. intros key i Hi. by rewrite lookup_empty in Hi.
  - rewrite fold_left_app. cbn [fold_left]. by apply group_snoc.
Qed.

(** ** Completing it *)

Definition finish_all (wall now : instant) (db : outbox) (ps : list (NotificationLease * DeliveryAnswer)) : outbox :=
  fold_left (fun db p => (CompleteNotification wall (completeNotification now p.1 p.2) db).1) ps db.

Lemma completion_job now l a : NCJobID (completeNotification now l a) = LJobID l.
Proof. destruct a as [| |[] []|]; done. Qed.

Lemma complete_lookup wall c db id :
  (CompleteNotification wall c db).1 !! id
  = (fun r => if intent_owned (NCJobID c) r
              then completed_intent c (if is_zero (NCFinishedAt c) then wall else NCFinishedAt c) r else r) <$> db !! id.
Proof. apply update_intents_lookup. Qed.

Lemma finish_all_row wall now ps db id r :
  NoDup (LJobID ∘ fst <$> ps) -> db !! id = Some r ->
  finish_all wall now db ps !! id = Some
    (match base.filter (fun p => n_owner r = Some (LJobID p.1)) ps with
     | p :: _ => let c := completeNotification now p.1 p.2 in
                 completed_intent c (if is_zero (NCFinishedAt c) then wall else NCFinishedAt c) r
     | [] => r
     end).
Proof.
  revert db r. induction ps as [|[l a] ps IH]; intros db r Hnd Hr; [done|].
  change (finish_all wall now db ((l, a) :: ps))
    with (finish_all wall now (CompleteNotification wall (completeNotification now l a) db).1 ps).
  cbn [filter list_filter].
  apply NoDup_cons in Hnd as [Hnew Hnd].
  set (c := completeNotification now l a). pose proof (complete_lookup wall c db id) as Hc. rewrite Hr in Hc.
  cbn [fmap option_fmap option_map] in Hc. unfold intent_owned in Hc.
  assert (NCJobID c = LJobID l) as Hj by apply completion_job. rewrite Hj in Hc. cbn [fst].
  fold c.
  destruct (decide (n_owner r = Some (LJobID l))) as [Ho | Ho].
  - rewrite bool_decide_eq_true_2 in Hc by done. rewrite (IH _ _ Hnd Hc).
    match goal with |- Some (match ?f with _ => _ end) = _ => assert (f = []) as -> end; [|done].
    clear. induction ps as [|p ps IH]; [done|]. cbn [filter list_filter]. rewrite decide_False by done. exact IH.
  - rewrite bool_decide_eq_false_2 in Hc by done. exact (IH _ _ Hnd Hc).
Qed.

(** The answer each lease of a group is completed with. *)
Definition group_answers (deliver : NotificationLease -> DeliveryAnswer) (g : list NotificationLease)
    : list (NotificationLease * DeliveryAnswer) :=
  match g with [] => [] | leader :: _ => (fun l => (l, deliver leader)) <$> g end.

Lemma process_finish_all wall now deliver leases db :
  processNotifications coalesce_key wall now (fun _ => true) deliver leases db
  = finish_all wall now db (concat (group_answers deliver <$> coalesceNotifications coalesce_key leases)).
Proof.
  unfold processNotifications. generalize (coalesceNotifications coalesce_key leases) as groups.
  intros groups. revert db. induction groups as [|g groups IH]; intros db; [done|].
  cbn [fold_left fmap list_fmap concat]. rewrite IH.
  assert (forall ps1 ps2, finish_all wall now db (ps1 ++ ps2) = finish_all wall now (finish_all wall now db ps1) ps2) as ->
    by (intros; apply fold_left_app).
  f_equal. destruct g as [|leader followers]; [done|]. cbn [complete_group group_answers].
  generalize (leader :: followers) as g. intros g. clear IH. revert db. induction g as [|l g IHg]; intros db; [done|].
  cbn [fold_left fmap list_fmap]. apply IHg.
Qed.

(** A leased batch is delivered once per target: its leases are split into
    groups of one coalescing key, each group's first lease is sent, and every
    intent of the batch is completed with the answer to its own group's
    request. Only a retryable failure keeps the intent, due again after its own
    attempt's delay with its key and one more attempt; any other answer
    finishes it and frees the key. *)
Theorem batch_completes wall now deliver leases db
    (Hjobs : NoDup (LJobID <$> leases)) (Hnow : 0 <= now) :
  concat (coalesceNotifications coalesce_key leases) ≡ₚ leases
  /\ forall l r, l ∈ leases -> db !! LID l = Some r -> n_owner r = Some (LJobID l) ->
     exists leader, leader ∈ leases
       /\ (leader = l \/ exists key, key_of leader = Some key /\ key_of l = Some key)
       /\ exists r', processNotifications coalesce_key wall now (fun _ => true) deliver leases db !! LID l = Some r'
            /\ n_notifier r' = n_notifier r /\ n_payload r' = n_payload r
            /\ n_owner r' = None /\ n_until r' = None /\ n_attempt r' = n_attempt r + 1
            /\ match deliver leader with
               | Failed true _ => n_next r' = now + FailureDelay (LAttempt l) /\ n_key r' = n_key r /\ n_finished r' = None
               | _ => n_next r' = 0 /\ n_key r' = None /\ n_finished r' = Some now
               end.
Proof.
  destruct (coalesce_grouped leases) as [Hall Hok _]. fold (coalesceNotifications coalesce_key leases) in Hall, Hok.
  set (groups := coalesceNotifications coalesce_key leases) in *. split; [done|]. intros l r Hl Hr Ho.
  set (ps := concat (group_answers deliver <$> groups)).
  assert (fst <$> ps = concat groups) as Hps.
  { unfold ps. clear - groups. induction groups as [|g groups IH]; [done|]. cbn [fmap list_fmap concat].
    rewrite fmap_app, IH. f_equal. destruct g as [|leader fs]; [done|]. unfold group_answers. rewrite <- list_fmap_compose.
    apply list_fmap_id. }
  assert (NoDup (LJobID ∘ fst <$> ps)) as Hnd by by rewrite list_fmap_compose, Hps, Hall.
  assert (exists leader, (l, deliver leader) ∈ ps /\ leader ∈ leases
          /\ (leader = l \/ exists key, key_of leader = Some key /\ key_of l = Some key)) as (leader & Hp & Hlead & Hkey).
  { rewrite <- Hall in Hl. apply elem_of_concat in Hl as (g & Hg & Hl). rewrite Forall_forall in Hok.
    destruct (Hok g Hg) as (leader & fs & -> & Hf). exists leader. split_and!.
    - unfold ps. apply elem_of_concat. exists (group_answers deliver (leader :: fs)).
      split; [by apply list_elem_of_fmap_2|]. cbn [group_answers]. apply list_elem_of_fmap. by exists l.
    - rewrite <- Hall. apply elem_of_concat. exists (leader :: fs). split; [done|by left].
    - apply elem_of_cons in Hl as [-> | Hl]; [by left|]. destruct (Hf l Hl) as (key & H1 & H2). right. by exists key. }
  exists leader. split; [done|]. split; [done|].
  assert (base.filter (fun p => n_owner r = Some (LJobID p.1)) ps = [(l, deliver leader)]) as Hfilter.
  { rewrite Ho. clear - Hp Hnd. induction ps as [|p ps IH]; [by apply elem_of_nil in Hp|].
    apply NoDup_cons in Hnd as [Hnew Hnd]. cbn [filter list_filter].
    apply elem_of_cons in Hp as [<- | Hp].
    - rewrite decide_True by done. f_equal. cbn [compose fst] in Hnew. clear - Hnew. induction ps as [|p ps IH]; [done|].
      cbn [filter list_filter]. rewrite not_elem_of_cons in Hnew. destruct Hnew as [H1 H2].
      rewrite decide_False; [by apply IH|]. intros [= H]. by apply H1.
    - rewrite decide_False; [by apply IH|]. intros [= H]. apply Hnew. cbn [compose]. rewrite <- H.
      apply list_elem_of_fmap. exists (l, deliver leader). by split. }
  rewrite process_finish_all. fold groups. fold ps.
  eexists. split; [rewrite (finish_all_row wall now ps db (LID l) r Hnd Hr), Hfilter; reflexivity|].
  cbv zeta. cbn [fst snd]. unfold completed_intent. cbn [n_notifier n_payload n_owner n_until n_attempt n_next n_key n_finished].
  assert (is_zero now = false) as Hz by (unfold is_zero, zero_time, second; apply Z.eqb_neq; lia).
  split_and!; try done.
  assert (minute <= FailureDelay (LAttempt l)) as Hd.
  { assert (Forall (fun d => minute <= d) failureDelays) as Hf
      by (repeat constructor; unfold hour, minute, second; lia).
    rewrite Forall_forall in Hf. apply Hf, delayAt_in. done. }
  destruct (deliver leader) as [| |[] []|]; cbn; rewrite ?Hz; try done;
    (assert (is_zero (now + FailureDelay (LAttempt l)) = false) as ->
      by (unfold is_zero, zero_time, minute, second in *; apply Z.eqb_neq; lia));
    (assert (now + FailureDelay (LAttempt l) =? 0 = false) as ->
      by (unfold minute, second in *; apply Z.eqb_neq; lia)); done.
Qed.
End batch.

(** ** Concrete runs *)

Definition any_json (_ : text) : bool := true.

(** A rescan is being sent when a second change of its series is queued. *)
Definition sample_rescan : NotificationRequest := mkNotification (t "arr_rescan") (t "series") (t "{}") (60 * second) true.
Definition sample_in_flight : outbox :=
  {[ 1 := mkIntent (t "arr_rescan") (t "{}") 0 second [] (Some (t "job-1")) (Some (300 * second)) (Some (t "series")) None ]}.
Definition sample_queued : outbox := (enqueueNotification sample_rescan sample_in_flight).1.
Definition sample_sent : outbox :=
  (CompleteNotification 0 (mkNotificationCompletion (t "job-1") (t "success") zero_time (70 * second)) sample_queued).1.

Lemma queued_change_is_delivered_witness :
  exists id r, sample_queued !! id = Some r /\ n_owner r = None
    /\ exists r', sample_sent !! id = Some r' /\ 0 < n_next r'.
Proof.
  assert (outbox_trace any_json sample_queued ([] ++ [IntentFinished (t "job-1")]) sample_sent) as Htrace.
  { eapply trace_snoc; [apply trace_nil|].
    apply (outbox_complete any_json sample_queued 0
             (mkNotificationCompletion (t "job-1") (t "success") zero_time (70 * second))). by left. }
  destruct (queued_change_is_delivered any_json sample_rescan sample_in_flight sample_queued true [IntentFinished (t "job-1")] sample_sent)
    as (_ & id & r & Hr & _ & Ho & _ & [(r' & Hr' & Hn & _) | (job & t1 & t2 & t3 & Heq)]).
  - split.
    + intros id r Hr. unfold sample_in_flight in Hr. apply lookup_singleton_Some in Hr as [<- <-].
      split_and!; vm_compute; done.
    + intros id1 id2 r1 r2 key H1 H2 _ _. unfold sample_in_flight in *.
      apply lookup_singleton_Some in H1 as [<- _], H2 as [<- _]. done.
  - vm_compute. reflexivity.
  - vm_compute. reflexivity.
  - by left.
  - exact Htrace.
  - exists id, r. split; [done|]. split; [done|]. by exists r'.
  - destruct t1 as [|? [|? ?]]; discriminate.
Defined.

(** Two leased rescans of one series, answered once, to be retried. *)
Definition sample_batch : list NotificationLease :=
  [mkNotificationLease 1 (t "arr_rescan") (t "{}") 0 (t "job-1") (300 * second);
   mkNotificationLease 2 (t "arr_rescan") (t "{}") 0 (t "job-2") (300 * second)].
Definition sample_batch_row (job : text) : intent_row :=
  mkIntent (t "arr_rescan") (t "{}") 0 second [] (Some job) (Some (300 * second)) None None.
Definition sample_batch_db : outbox := {[ 1 := sample_batch_row (t "job-1"); 2 := sample_batch_row (t "job-2") ]}.
Definition busy (_ : NotificationLease) : DeliveryAnswer := Failed true false.

Lemma batch_completes_witness :
  exists r', processNotifications (fun _ => Some (t "series")) 0 (10 * second) (fun _ => true) busy sample_batch
               sample_batch_db !! 2 = Some r'
    /\ n_next r' = 10 * second + FailureDelay 0 /\ n_owner r' = None.
Proof.
  destruct (batch_completes (fun _ => Some (t "series")) 0 (10 * second) busy sample_batch sample_batch_db) as [_ Hall].
  - apply (bool_decide_unpack _). vm_compute. exact I.
  - vm_compute. discriminate.
  - destruct (Hall (mkNotificationLease 2 (t "arr_rescan") (t "{}") 0 (t "job-2") (300 * second))
                (sample_batch_row (t "job-2"))) as (leader & _ & _ & r' & Hr' & _ & _ & Ho & _ & _ & Hn & _).
    + right. left.
    + reflexivity.
    + reflexivity.
    + exists r'. split; [exact Hr'|]. split; [exact Hn|exact Ho].
Defined.
