(* ===== verification/InstallStore.v ===== *)
(** * Installation records (src/internal/store)

    The [installations] and [pending_installs] tables and their transactions:
    recording an install with its notification intents, removing, dropping and
    rebasing a record while it is still exactly the one read, and the rows that
    mark an install or a removal in progress. Every operation is one SQLite
    transaction: it returns the new tables, or an error and no tables. *)
From S2P Require Import Prelude GoText GoFloat Domain MatchScore SearchQueue Schedule Workflow Paths Outbox.

#[local] Open Scope Z_scope.

(** ** The tables *)

Record PendingInstall := mkPending {
  PID : Z;
  PMediaID : Z;
  PLanguage : Language;
  PDestination : text;
  PChecksum : text;
  PStagedPath : text;
  PRollbackPath : text;
  PPublishedInode : Z;
  PCreatedAt : instant;
}.

Record install_db := mkInstallDB {
  idb_media : gmap Z media_row;
  idb_installs : gmap (Z * Language) Installation;
  idb_pending : gmap Z PendingInstall;
  idb_outbox : outbox;
  idb_history : list history_row;
  idb_events : list (text * Z * text * Z);
}.

Inductive StoreError :=
| BadNotification
| NoSuchMedia
| CorruptUnsupportedReason
| UnsupportedMedia
| MediaChanged
| PendingArguments
| InstallationChanged.

Definition install_key (i : Installation) : Z * Language := (IMediaID i, ILanguage i).

Definition with_installs (f : gmap (Z * Language) Installation) (db : install_db) : install_db :=
  mkInstallDB (idb_media db) f (idb_pending db) (idb_outbox db) (idb_history db) (idb_events db).
Definition with_pending (p : gmap Z PendingInstall) (db : install_db) : install_db :=
  mkInstallDB (idb_media db) (idb_installs db) p (idb_outbox db) (idb_history db) (idb_events db).
Definition with_outbox (o : outbox) (db : install_db) : install_db :=
  mkInstallDB (idb_media db) (idb_installs db) (idb_pending db) o (idb_history db) (idb_events db).
Definition with_history (h : list history_row) (db : install_db) : install_db :=
  mkInstallDB (idb_media db) (idb_installs db) (idb_pending db) (idb_outbox db) h (idb_events db).
Definition with_event (e : text * Z * text * Z) (db : install_db) : install_db :=
  mkInstallDB (idb_media db) (idb_installs db) (idb_pending db) (idb_outbox db) (idb_history db)
    (e :: idb_events db).

Definition validUnsupportedReason (reason : text) : bool :=
  bool_decide (reason = []) || bool_decide (reason = UnsupportedMultiEpisode).

(** The columns a record stores: an empty JSON column is [{}], the pending row
    it settles is not stored, and [now] is the time of the record. *)
Definition stored_installation (now : instant) (i : Installation) : Installation :=
  {| IFallback := IFallback i; IMediaID := IMediaID i; ILanguage := ILanguage i; IPath := IPath i;
     IChecksum := IChecksum i; IProviderID := IProviderID i; ICandidateID := ICandidateID i;
     ICandidateSignature := ICandidateSignature i; IArtifactChecksum := IArtifactChecksum i;
     IScoreJSON := IScoreJSON i;
     ISyncResultJSON := if bool_decide (ISyncResultJSON i = []) then t "{}" else ISyncResultJSON i;
     IRollbackPath := IRollbackPath i; IMediaPath := IMediaPath i; IMediaFileID := IMediaFileID i;
     IMediaSize := IMediaSize i; IMediaModTimeNS := IMediaModTimeNS i; IPendingInstallID := 0;
     IInstalledAt := now |}.

Definition relocated (path mediaPath rollback : text) (fileID : Z) (i : Installation) : Installation :=
  {| IFallback := IFallback i; IMediaID := IMediaID i; ILanguage := ILanguage i; IPath := path;
     IChecksum := IChecksum i; IProviderID := IProviderID i; ICandidateID := ICandidateID i;
     ICandidateSignature := ICandidateSignature i; IArtifactChecksum := IArtifactChecksum i;
     IScoreJSON := IScoreJSON i; ISyncResultJSON := ISyncResultJSON i; IRollbackPath := rollback;
     IMediaPath := mediaPath; IMediaFileID := fileID; IMediaSize := IMediaSize i;
     IMediaModTimeNS := IMediaModTimeNS i; IPendingInstallID := IPendingInstallID i;
     IInstalledAt := IInstalledAt i |}.

(** The columns [UpdateInstallationAssessment] sets. *)
Definition assessed (read row : Installation) : Installation :=
  {| IFallback := IFallback read; IMediaID := IMediaID row; ILanguage := ILanguage row; IPath := IPath row;
     IChecksum := IChecksum row; IProviderID := IProviderID row; ICandidateID := ICandidateID row;
     ICandidateSignature := ICandidateSignature row; IArtifactChecksum := IArtifactChecksum row;
     IScoreJSON := IScoreJSON read; ISyncResultJSON := ISyncResultJSON read;
     IRollbackPath := IRollbackPath row; IMediaPath := IMediaPath row; IMediaFileID := IMediaFileID row;
     IMediaSize := IMediaSize row; IMediaModTimeNS := IMediaModTimeNS row;
     IPendingInstallID := IPendingInstallID row; IInstalledAt := IInstalledAt row |}.

(** [installationGuard]: the row is still exactly the record read. *)
Definition same_record (read row : Installation) : bool :=
  bool_decide (IPath row = IPath read) && bool_decide (IChecksum row = IChecksum read)
  && bool_decide (IProviderID row = IProviderID read) && bool_decide (ICandidateID row = ICandidateID read)
  && bool_decide (IRollbackPath row = IRollbackPath read).

Definition guarded (read : Installation) (also : Installation -> bool) (db : install_db) : bool :=
  match idb_installs db !! install_key read with
  | Some row => same_record read row && also row
  | None => false
  end.

Section store.
Context (json_valid : text -> bool).
(** The wall clock a transaction reads. *)
Context (wall : instant).

Fixpoint enqueue_all (requests : list NotificationRequest) (o : outbox) : outbox * list bool :=
  match requests with
  | [] => (o, [])
  | q :: requests =>
      let '(o, inserted) := enqueueNotification q o in
      let '(o, rest) := enqueue_all requests o in (o, inserted :: rest)
  end.

Definition enqueue_in (requests : list NotificationRequest) (db : install_db) : install_db * list bool :=
  let '(o, results) := enqueue_all requests (idb_outbox db) in (with_outbox o db, results).

Definition GetInstallation (media : Z) (language : Language) (db : install_db) : option Installation :=
  idb_installs db !! (media, language).

(** The media row a record must belong to, unchanged since the fingerprint. *)
Definition installable (i : Installation) (db : install_db) : result StoreError unit :=
  match idb_media db !! IMediaID i with
  | None => Err NoSuchMedia
  | Some m =>
      let f := media_fingerprint m in
      if deleted m then Err NoSuchMedia
      else if negb (validUnsupportedReason (unsupported_reason m)) then Err CorruptUnsupportedReason
      else if negb (bool_decide (unsupported_reason m = [])) then Err UnsupportedMedia
      else if bool_decide (FpPath f = IMediaPath i) && (FpFileID f =? IMediaFileID i)
              && (FpSize f =? IMediaSize i) && (FpModTime f =? IMediaModTimeNS i)
      then Ok tt else Err MediaChanged
  end.

Definition recorded_db (i : Installation) (db : install_db) : install_db :=
  with_installs (<[install_key i := stored_installation wall i]> (idb_installs db))
    (with_event (t "subtitle_installed", IMediaID i, t "success", wall) db).

Definition settled_db (id : Z) (db : install_db) : install_db :=
  if id =? 0 then db else with_pending (delete id (idb_pending db)) db.

Definition RecordInstallationWithNotifications (i : Installation) (requests : list NotificationRequest)
    (db : install_db) : result StoreError (install_db * list bool) :=
  if negb (forallb (validateNotificationRequest json_valid) requests) then Err BadNotification
  else
    let! _ := installable i db in
    let '(db', results) := enqueue_in requests (recorded_db i db) in
    Ok (settled_db (IPendingInstallID i) db', results).

Definition UpdateInstallationAssessment (i : Installation) (db : install_db) : result StoreError install_db :=
  match idb_installs db !! install_key i with
  | Some row =>
      if bool_decide (IProviderID row = IProviderID i) && bool_decide (ICandidateID row = ICandidateID i)
         && bool_decide (IChecksum row = IChecksum i) && bool_decide (IMediaPath row = IMediaPath i)
         && (IMediaFileID row =? IMediaFileID i) && (IMediaSize row =? IMediaSize i)
         && (IMediaModTimeNS row =? IMediaModTimeNS i)
      then Ok (with_installs (<[install_key i := assessed i row]> (idb_installs db)) db)
      else Err InstallationChanged
  | None => Err InstallationChanged
  end.

(** [insertSearchHistory] finds the media row, deleted or not. *)
Definition insert_history (id : Z) (language : Language) (outcome : text) (h : HistoryDetail) (at_ : instant)
    (db : install_db) : result StoreError install_db :=
  match idb_media db !! id with
  | Some _ => Ok (with_history (mkHistoryRow id language outcome h at_ :: idb_history db) db)
  | None => Err NoSuchMedia
  end.

Definition without_record (i : Installation) (db : install_db) : install_db :=
  with_installs (delete (install_key i) (idb_installs db)) db.

Definition RemoveInstallation (i : Installation) (h : HistoryDetail) (at_ : instant)
    (requests : list NotificationRequest) (db : install_db) : result StoreError (install_db * list bool) :=
  if negb (forallb (validateNotificationRequest json_valid) requests) then Err BadNotification
  else
    let at_ := if is_zero at_ then wall else at_ in
    if guarded i (fun _ => true) db then
      let db := with_event (t "subtitle_removed", IMediaID i, t "success", at_) (without_record i db) in
      let! db := insert_history (IMediaID i) (ILanguage i) (t "removed") h at_ db in
      Ok (enqueue_in requests db)
    else Err InstallationChanged.

Definition DropInstallation (i : Installation) (reason : text) (at_ : instant) (db : install_db)
    : result StoreError install_db :=
  let at_ := if is_zero at_ then wall else at_ in
  if guarded i (fun _ => true) db
  then Ok (with_event (t "subtitle_record_dropped", IMediaID i, reason, at_) (without_record i db))
  else Err InstallationChanged.

Definition update_record (i : Installation) (f : Installation -> Installation) (db : install_db) : install_db :=
  with_installs (alter f (install_key i) (idb_installs db)) db.

Definition RebaseInstallationWithNotifications (i : Installation) (path mediaPath : text)
    (requests : list NotificationRequest) (db : install_db) : result StoreError (install_db * list bool) :=
  if negb (forallb (validateNotificationRequest json_valid) requests) then Err BadNotification
  else if guarded i (fun row => bool_decide (IMediaPath row = IMediaPath i)) db then
    Ok (enqueue_in requests (update_record i (fun row =>
          relocated path mediaPath (IRollbackPath row) (IMediaFileID row) row) db))
  else Err InstallationChanged.

Definition RebaseInstallation (i : Installation) (path mediaPath : text) (db : install_db)
    : result StoreError install_db :=
  let! r := RebaseInstallationWithNotifications i path mediaPath [] db in Ok r.1.

Definition ReattachInstallation (i : Installation) (path : text) (fileID : Z) (db : install_db)
    : result StoreError install_db :=
  if guarded i (fun row => (IMediaFileID row =? IMediaFileID i) && (IMediaSize row =? IMediaSize i)) db
  then Ok (update_record i (fun row => relocated path (IMediaPath row) (IRollbackPath row) fileID row) db)
  else Err InstallationChanged.

(** [WHERE rollback_path = rollback]; a record that names another copy stays. *)
Definition ClearInstallationRollback (media : Z) (language : Language) (rollback : text) (db : install_db)
    : install_db :=
  if bool_decide (rollback = []) then db
  else with_installs (alter (fun row =>
         if bool_decide (IRollbackPath row = rollback)
         then relocated (IPath row) (IMediaPath row) [] (IMediaFileID row) row else row)
         (media, language) (idb_installs db)) db.

Record RollbackCopy := mkRollbackCopy {
  RCMediaID : Z;
  RCLanguage : Language;
  RCPath : text;
  RCRollbackPath : text;
}.

(** In the table's iteration order, which stands for the order of the ids. *)
Definition ListRollbackCopies (db : install_db) : list RollbackCopy :=
  (fun kr => mkRollbackCopy (IMediaID kr.2) (ILanguage kr.2) (IPath kr.2) (IRollbackPath kr.2)) <$>
  base.filter (fun kr => bool_decide (IRollbackPath kr.2 = []) = false) (map_to_list (idb_installs db)).

(** ** Pending installs *)

Definition BeginPendingInstall (p : PendingInstall) (db : install_db) : result StoreError (install_db * Z) :=
  if (PMediaID p <=? 0) || bool_decide (PLanguage p = []) || bool_decide (PDestination p = [])
     || bool_decide (PChecksum p = [])
  then Err PendingArguments
  else
    let id := next_rowid (idb_pending db) in
    let created := if is_zero (PCreatedAt p) then wall else PCreatedAt p in
    let row := mkPending id (PMediaID p) (PLanguage p) (PDestination p) (PChecksum p) (PStagedPath p)
                 (PRollbackPath p) (PPublishedInode p) created in
    Ok (with_pending (<[id := row]> (idb_pending db)) db, id).

Definition FinishPendingInstall (id : Z) (db : install_db) : install_db :=
  with_pending (delete id (idb_pending db)) db.

(** [ORDER BY id]. *)
Definition ListPendingInstalls (db : install_db) : list PendingInstall :=
  snd <$> stable_sort (less_of (asc (fst : Z * PendingInstall -> Z) Z.compare)) (map_to_list (idb_pending db)).
End store.

(** ** Sidecar names after a rename *)

Definition path_stem (media : text) : text := trim_suffix (path_ext media) (path_base media).

Definition RebaseSidecarPath (sidecar oldMediaPath newMediaPath : text) : text :=
  if negb (bool_decide (path_clean (path_dir sidecar) = path_clean (path_dir oldMediaPath))) then sidecar
  else
    let base := path_base sidecar in
    if negb (has_prefix (path_stem oldMediaPath ++ t ".") base) then sidecar
    else path_clean (path_join (path_dir newMediaPath)
           (path_stem newMediaPath ++ trim_prefix (path_stem oldMediaPath) base)).

Definition rebaseSiblingPath (path oldMediaPath newMediaPath : text) : text :=
  if bool_decide (path = []) || negb (bool_decide (path_clean (path_dir path) = path_clean (path_dir oldMediaPath)))
  then path
  else path_clean (path_join (path_dir newMediaPath) (path_base path)).

(** ** Lemmas *)

Lemma list_pending_empty db : idb_pending db = ∅ -> ListPendingInstalls db = [].
Proof. unfold ListPendingInstalls. by intros ->. Qed.

Lemma list_pending_singleton db id p : idb_pending db = {[id := p]} -> ListPendingInstalls db = [p].
Proof. unfold ListPendingInstalls. intros ->. by rewrite map_to_list_singleton. Qed.

Lemma enqueue_in_spec requests db :
  (enqueue_in requests db).1 = with_outbox (enqueue_all requests (idb_outbox db)).1 db.
Proof. unfold enqueue_in. by destruct (enqueue_all requests (idb_outbox db)). Qed.

(** A recorded install: its row of [installations], its notifications, and its
    pending row gone. *)
Lemma record_spec json_valid wall x requests db db' r :
  RecordInstallationWithNotifications json_valid wall x requests db = Ok (db', r) ->
  idb_installs db' = <[install_key x := stored_installation wall x]> (idb_installs db)
  /\ idb_pending db' = (if IPendingInstallID x =? 0 then idb_pending db
                       else delete (IPendingInstallID x) (idb_pending db))
  /\ idb_outbox db' = (enqueue_all requests (idb_outbox db)).1
  /\ idb_media db' = idb_media db.
Proof.
  unfold RecordInstallationWithNotifications. destruct (negb _); [done|].
  destruct (installable x db) as [[]|e]; [|done]. cbn [rbind].
  pose proof (enqueue_in_spec requests (recorded_db wall x db)) as He.
  destruct (enqueue_in requests (recorded_db wall x db)) as [db1 res]. cbn in He. intros [= <- <-]. subst db1.
  unfold settled_db. by destruct (_ =? 0).
Qed.
