(* ===== verification/Disk.v ===== *)
(** * The file system and its failures

    The state the installer works on: directory entries (names) over files
    (inodes), beside the database of InstallStore.v. A hard link is two names
    of one inode; an inode number is free again once no name carries it.

    Every system call or transaction is one step of the monad [M]: a schedule
    of faults decides whether it works, fails without effect, or whether the
    process is gone before it ([Crash]). A write may also be short. The
    schedule is arbitrary, so a theorem about every schedule covers a full disk,
    a hung mount, a cancelled context (which makes later calls fail) and a kill
    at any point; an exhausted schedule means that everything works. Names and
    contents written before a crash are there after it: the model crashes the
    process, not the machine, and flushing is a step that may fail.

    [wp] is the weakest precondition of a program over a class of schedules:
    what holds when it returns and what holds in every state it can be killed
    in. *)
From S2P Require Import Prelude GoText Domain SearchQueue Workflow Paths Outbox InstallStore.

#[local] Open Scope Z_scope.

(** ** Files *)

Inductive file_kind := Regular | Symlink | Directory.

#[export] Instance file_kind_eq_dec : EqDecision file_kind.
Proof. solve_decision. Defined.

Record node := mkNode {
  f_kind : file_kind;
  f_data : text;
  f_mode : N;
  f_mtime : instant;
}.

Record disk := mkDisk {
  d_names : gmap text Z;
  d_nodes : gmap Z node;
}.

Record world := mkWorld {
  w_disk : disk;
  w_db : install_db;
}.

Definition on_disk (d : disk) (w : world) : world := mkWorld d (w_db w).
Definition in_db (db : install_db) (w : world) : world := mkWorld (w_disk w) db.

(** What a name shows. *)
Definition look (d : disk) (p : text) : option node := d_names d !! p ≫= fun i => d_nodes d !! i.

(** Every name has a file. *)
Definition disk_ok (d : disk) : Prop := forall p i, d_names d !! p = Some i -> is_Some (d_nodes d !! i).

Lemma disk_ok_names_dec d :
  bool_decide (map_Forall (fun _ ino => is_Some (d_nodes d !! ino)) (d_names d)) = true -> disk_ok d.
Proof. intros H%bool_decide_eq_true p ino Hp. by apply (H p ino). Qed.

(** An unused inode number. *)
Definition free_inode (d : disk) : Z := 1 + foldr Z.max 0 (map_to_list (d_names d)).*2.

(** ** Errors *)

(** Why a call failed: the errors the program tells apart, and the rest. *)
Inductive errno := Generic | CrossDevice | Unsupported.

Inductive InstallError :=
| EArguments
| EOutside
| EValidation (code reason : text)
| EProtected
| EManagedChanged
| EStore (e : StoreError)
| ENotExist
| EExist
| EIO (e : errno)
| EShortWrite
| EContext
| EStage
| EText (reason : text)
| EJoin (causes : list InstallError).

(** ** The monad *)

Inductive fault := Works | Short (n : nat) | Fails (e : errno) | Crash.

Inductive outcome (A : Type) :=
| Done (a : A) (w : world) (fs : list fault)
| Down (w : world).
Arguments Done {A} a w fs.
Arguments Down {A} w.

(** The state a run ends in, or is killed in. *)
Definition after {A} (o : outcome A) : world := match o with Done _ w _ => w | Down w => w end.

Definition M (A : Type) : Type := world -> list fault -> outcome A.

#[export] Instance M_ret : MRet M := fun A a w fs => Done a w fs.
#[export] Instance M_bind : MBind M := fun A B k m w fs =>
  match m w fs with
  | Done a w' fs' => k a w' fs'
  | Down w' => Down w'
  end.

Definition io (A : Type) : Type := M (result InstallError A).

Definition okay {A} (a : A) : io A := mret (Ok a).
Definition fail {A} (e : InstallError) : io A := mret (Err e).
Definition otherwise {A B} (m : io A) (k : A -> io B) : io B :=
  mbind (M:=M) (fun r => match r with Ok a => k a | Err e => fail e end) m.

Notation "'try!' x ':=' m 'in' k" := (otherwise m (fun x => k))
  (at level 10, x pattern, m at level 100, k at level 200).

(** One step; [failure] is the error of a call that fails. *)
Definition call {A} (failure : errno -> InstallError) (f : world -> result InstallError A * world) : io A :=
  fun w fs =>
    match fs with
    | Fails e :: fs => Done (Err (failure e)) w fs
    | Crash :: _ => Down w
    | _ => Done (f w).1 (f w).2 (tail fs)
    end.

(** A call that only looks. *)
Definition query {A} (f : world -> result InstallError A) : io A := call EIO (fun w => (f w, w)).

(** A call that changes files. *)
Definition change {A} (f : disk -> result InstallError (A * disk)) : io A :=
  call EIO (fun w => match f (w_disk w) with
                     | Ok (a, d) => (Ok a, on_disk d w)
                     | Err e => (Err e, w)
                     end).

(** A database transaction: it commits, or fails and rolls back. *)
Definition transaction {A} (f : install_db -> result StoreError (install_db * A)) : io A :=
  call EIO (fun w => match f (w_db w) with
                     | Ok (db, a) => (Ok a, in_db db w)
                     | Err e => (Err (EStore e), w)
                     end).

(** [ctx.Err()]: a cancelled context. *)
Definition ctx_err : io unit := call (fun _ => EContext) (fun w => (Ok tt, w)).

(** ** System calls *)

Section calls.
(** [filepath.EvalSymlinks]; the directory tree's links do not change. *)
Context (eval_symlinks : text -> option text).
(** The random numbers [os.CreateTemp] draws for a prefix. *)
Context (draws : text -> nat -> N).
(** The time stamp of new files. *)
Context (stamp : instant).

Definition exists_or {A} (o : option A) : result InstallError A :=
  match o with Some a => Ok a | None => Err ENotExist end.

Record FileInfo := mkInfo { i_inode : Z; i_node : node }.
Definition is_regular (i : FileInfo) : bool := bool_decide (f_kind (i_node i) = Regular).
Definition SameFile (a b : FileInfo) : bool := i_inode a =? i_inode b.
Definition i_size (i : FileInfo) : Z := Z.of_nat (length (f_data (i_node i))).

Definition info_of (d : disk) (p : text) : option FileInfo :=
  i ← d_names d !! p; mkInfo i <$> d_nodes d !! i.

Definition Lstat (p : text) : io FileInfo := query (fun w => exists_or (info_of (w_disk w) p)).

(** [os.Stat] follows symbolic links. *)
Definition Stat (p : text) : io FileInfo :=
  query (fun w => exists_or (eval_symlinks p ≫= info_of (w_disk w))).

Definition EvalSymlinks (p : text) : io text := query (fun _ => exists_or (eval_symlinks p)).

Definition readable (n : node) : result InstallError text :=
  if bool_decide (f_kind n = Regular) then Ok (f_data n) else Err (EIO Generic).

Definition ReadFile (p : text) : io text :=
  query (fun w =>
    match look (w_disk w) p with
    | Some n =>
        if bool_decide (f_kind n = Symlink)
        then let! target := exists_or (eval_symlinks p ≫= look (w_disk w)) in readable target
        else readable n
    | None => Err ENotExist
    end).

(** [os.CreateTemp]: the first of at most 10000 names that is free. *)
Definition temp_name (dir prefix : text) (n : nat) : text :=
  path_join dir (prefix ++ itoa (Z.of_N (draws prefix n))).

Fixpoint first_free (d : disk) (dir prefix : text) (tries n : nat) : option text :=
  match tries with
  | O => None
  | S tries =>
      let p := temp_name dir prefix n in
      match d_names d !! p with
      | None => Some p
      | Some _ => first_free d dir prefix tries (S n)
      end
  end.

Definition temp_tries : nat := Z.to_nat 10000.

Definition CreateTemp (dir prefix : text) : io (text * Z) :=
  change (fun d =>
    match first_free d dir prefix temp_tries 0 with
    | Some p =>
        let i := free_inode d in
        Ok (p, i, mkDisk (<[p := i]> (d_names d)) (<[i := mkNode Regular [] 384 stamp]> (d_nodes d)))
    | None => Err EExist
    end).

(** The calls on an open file name its inode. *)
Definition update_node (i : Z) (f : node -> node) (d : disk) : disk :=
  mkDisk (d_names d) (alter f i (d_nodes d)).

Definition append_data (data : text) (n : node) : node :=
  mkNode (f_kind n) (f_data n ++ data) (f_mode n) stamp.

(** [File.Write]: the bytes written; a short write is not an error. *)
Definition Write (i : Z) (data : text) : io nat := fun w fs =>
  match fs with
  | Fails e :: fs => Done (Err (EIO e)) w fs
  | Crash :: _ => Down w
  | Short n :: fs =>
      let n := Nat.min n (length data) in
      Done (Ok n) (on_disk (update_node i (append_data (take n data)) (w_disk w)) w) fs
  | _ => Done (Ok (length data)) (on_disk (update_node i (append_data data) (w_disk w)) w) (tail fs)
  end.

Definition Sync (i : Z) : io unit := query (fun _ => Ok tt).
Definition Close (i : Z) : io unit := query (fun _ => Ok tt).
Definition Chown (i : Z) (uid gid : Z) : io unit := query (fun _ => Ok tt).
Definition Chmod (i : Z) (mode : N) : io unit :=
  change (fun d => Ok (tt, update_node i (fun n => mkNode (f_kind n) (f_data n) mode (f_mtime n)) d)).
Definition Fstat (i : Z) : io FileInfo :=
  query (fun w => exists_or (mkInfo i <$> d_nodes (w_disk w) !! i)).

Definition unlink (p : text) (d : disk) : disk := mkDisk (delete p (d_names d)) (d_nodes d).

Definition Remove (p : text) : io unit :=
  change (fun d => match d_names d !! p with
                   | Some _ => Ok (tt, unlink p d)
                   | None => Err ENotExist
                   end).

(** [rename(2)] of a file: two names of one file stay as they are, and a
    directory is not replaced. *)
Definition rename_entry (old new : text) (d : disk) : result InstallError (unit * disk) :=
  match d_names d !! old with
  | None => Err ENotExist
  | Some i =>
      if bool_decide (d_names d !! new = Some i) then Ok (tt, d)
      else match look d new with
           | Some n => if bool_decide (f_kind n = Directory) then Err EExist
                       else Ok (tt, mkDisk (<[new := i]> (delete old (d_names d))) (d_nodes d))
           | None => Ok (tt, mkDisk (<[new := i]> (delete old (d_names d))) (d_nodes d))
           end
  end.

Definition Rename (old new : text) : io unit := change (rename_entry old new).

(** [renameat2] with [RENAME_NOREPLACE]. *)
Definition rename_no_replace (old new : text) : io unit :=
  change (fun d => match d_names d !! new with
                   | Some _ => Err EExist
                   | None => rename_entry old new d
                   end).

(** [link(2)] never replaces a name. *)
Definition link_entry (old new : text) (d : disk) : result InstallError (unit * disk) :=
  match d_names d !! old with
  | None => Err ENotExist
  | Some i =>
      match d_names d !! new with
      | Some _ => Err EExist
      | None => Ok (tt, mkDisk (<[new := i]> (d_names d)) (d_nodes d))
      end
  end.

Definition Link (old new : text) : io unit := change (link_entry old new).

(** Opening and flushing a directory. *)
Definition syncDirectory (p : text) : io unit :=
  try! _ := query (fun _ => Ok tt) in query (fun _ => Ok tt).

(** [writeAll]: writes until everything is written; each round writes a byte
    or ends the loop. *)
Fixpoint write_all (fuel : nat) (i : Z) (payload : text) : io unit :=
  match payload with
  | [] => okay tt
  | _ =>
      match fuel with
      | O => fail EShortWrite
      | S fuel =>
          try! written := Write i payload in
          if (written =? 0)%nat then fail EShortWrite else write_all fuel i (drop written payload)
      end
  end.

Definition writeAll (i : Z) (payload : text) : io unit := write_all (length payload) i payload.
End calls.

(** ** Weakest preconditions *)

Section wp.
Context (p : fault -> Prop).

Definition wp {A} (m : M A) (Q : A -> world -> Prop) (C : world -> Prop) (w : world) : Prop :=
  forall fs, Forall p fs ->
    match m w fs with
    | Done a w' fs' => Q a w' /\ Forall p fs'
    | Down w' => C w'
    end.

Lemma wp_ret {A} (a : A) Q C w : Q a w -> wp (mret a) Q C w.
Proof. by intros H fs Hfs. Qed.

Lemma wp_bind {A B} (m : M A) (k : A -> M B) Q C w :
  wp m (fun a => wp (k a) Q C) C w -> wp (mbind k m) Q C w.
Proof.
  intros H fs Hfs. specialize (H fs Hfs). unfold mbind, M_bind.
  destruct (m w fs) as [a w' fs'|w']; [|done]. destruct H as [H Hfs']. by apply H.
Qed.

Lemma wp_mono {A} (m : M A) (Q Q' : A -> world -> Prop) (C C' : world -> Prop) w :
  wp m Q C w -> (forall a w', Q a w' -> Q' a w') -> (forall w', C w' -> C' w') -> wp m Q' C' w.
Proof.
  intros H HQ HC fs Hfs. specialize (H fs Hfs).
  destruct (m w fs) as [a w' fs'|w']; [|by apply HC]. destruct H as [H ?]. split; [by apply HQ|done].
Qed.

Lemma wp_otherwise {A B} (m : io A) (k : A -> io B) Q C w :
  wp m (fun r w' => match r with Ok a => wp (k a) Q C w' | Err e => Q (Err e) w' end) C w ->
  wp (otherwise m k) Q C w.
Proof.
  intros H. apply wp_bind. eapply wp_mono; [exact H| |done].
  intros [a|e] w' Hw'; [exact Hw'|]. by apply wp_ret.
Qed.

Lemma wp_call {A} failure (f : world -> result InstallError A * world) Q C w :
  Q (f w).1 (f w).2 -> (forall e, p (Fails e) -> Q (Err (failure e)) w) -> (p Crash -> C w) -> wp (call failure f) Q C w.
Proof.
  intros HQ HF HC fs Hfs. unfold call.
  destruct Hfs as [|x fs Hx Hfs]; [by split|]. destruct x; simpl; [by split|by split|split; [by apply HF|done]|by apply HC].
Qed.

Lemma wp_query {A} (f : world -> result InstallError A) Q C w :
  Q (f w) w -> (forall e, p (Fails e) -> Q (Err (EIO e)) w) -> (p Crash -> C w) -> wp (query f) Q C w.
Proof. intros. by apply wp_call. Qed.

Lemma wp_change {A} (f : disk -> result InstallError (A * disk)) Q C w :
  match f (w_disk w) with Ok (a, d) => Q (Ok a) (on_disk d w) | Err e => Q (Err e) w end ->
  (forall e, p (Fails e) -> Q (Err (EIO e)) w) -> (p Crash -> C w) -> wp (change f) Q C w.
Proof. intros H ??. apply wp_call; [|done..]. by destruct (f (w_disk w)) as [[a d]|e]. Qed.

Lemma wp_transaction {A} (f : install_db -> result StoreError (install_db * A)) Q C w :
  match f (w_db w) with Ok (db, a) => Q (Ok a) (in_db db w) | Err e => Q (Err (EStore e)) w end ->
  (forall e, p (Fails e) -> Q (Err (EIO e)) w) -> (p Crash -> C w) -> wp (transaction f) Q C w.
Proof. intros H ??. apply wp_call; [|done..]. by destruct (f (w_db w)) as [[db a]|e]. Qed.
End wp.

(** Every schedule, and the one on which everything works. *)
Definition any_fault (_ : fault) : Prop := True.
Definition no_fault (f : fault) : Prop := f = Works.

Lemma any_schedule fs : Forall any_fault fs.
Proof. by apply Forall_true. Qed.

#[export] Hint Resolve any_schedule : subsync.

(** Looking at a state does not change it. *)
Lemma wp_sync p dir (Q : result InstallError unit -> world -> Prop) C w :
  Q (Ok tt) w -> (forall e, p (Fails e) -> Q (Err (EIO e)) w) -> (p Crash -> C w) -> wp p (syncDirectory dir) Q C w.
Proof. intros. apply wp_otherwise, wp_query; [|done..]. by apply wp_query. Qed.

(** ** Files and names *)

Lemma look_info d p i : info_of d p = Some i -> look d p = Some (i_node i) /\ d_names d !! p = Some (i_inode i).
Proof.
  unfold info_of, look. destruct (d_names d !! p) as [n|]; [|done]. simpl.
  destruct (d_nodes d !! n) as [x|]; [|done]. simpl. by intros [= <-].
Qed.

Lemma look_none d p : disk_ok d -> look d p = None <-> d_names d !! p = None.
Proof.
  intros Hok. unfold look. split; [|by intros ->].
  destruct (d_names d !! p) as [i|] eqn:E; [|done]. destruct (Hok p i E) as [n Hn]. simpl. by rewrite Hn.
Qed.

Lemma info_none d p : disk_ok d -> info_of d p = None <-> look d p = None.
Proof.
  intros Hok. rewrite look_none by done. unfold info_of. split; [|by intros ->].
  destruct (d_names d !! p) as [i|] eqn:E; [|done]. destruct (Hok p i E) as [n Hn]. simpl. by rewrite Hn.
Qed.

Lemma free_inode_fresh d p : d_names d !! p <> Some (free_inode d).
Proof.
  intros H. assert (free_inode d ∈ (map_to_list (d_names d)).*2) as Hin%foldr_max_le.
  { apply list_elem_of_fmap. exists (p, free_inode d). split; [done|by apply elem_of_map_to_list]. }
  unfold free_inode in *. lia.
Qed.

Lemma free_inode_pos d : 0 < free_inode d.
Proof.
  unfold free_inode. assert (0 <= foldr Z.max 0 (map_to_list (d_names d)).*2); [|lia].
  generalize ((map_to_list (d_names d)).*2) as l. induction l; simpl; lia.
Qed.

Lemma disk_ok_names d names :
  disk_ok d -> (forall p i, names !! p = Some i -> exists q, d_names d !! q = Some i) -> disk_ok (mkDisk names (d_nodes d)).
Proof. intros Hok H p i Hp. destruct (H p i Hp) as [q Hq]. by apply (Hok q). Qed.

Lemma disk_ok_update i f d : disk_ok d -> disk_ok (update_node i f d).
Proof.
  intros Hok p j Hp. simpl in *. destruct (Hok p j Hp) as [n Hn].
  destruct (decide (i = j)) as [->|]; [rewrite lookup_alter_eq, Hn|rewrite lookup_alter_ne, Hn by done]; by eexists.
Qed.

Lemma disk_ok_create d p n :
  disk_ok d -> disk_ok (mkDisk (<[p := free_inode d]> (d_names d)) (<[free_inode d := n]> (d_nodes d))).
Proof.
  intros Hok q j. simpl. destruct (decide (free_inode d = j)) as [<-|Hj].
  - intros _. rewrite lookup_insert_eq. by eexists.
  - rewrite (lookup_insert_ne (d_nodes d)) by done. destruct (decide (p = q)) as [->|].
    + rewrite lookup_insert_eq. by intros [= ?].
    + rewrite lookup_insert_ne by done. apply Hok.
Qed.

(** What each change shows. *)

Lemma look_unlink d q p : look (unlink q d) p = if decide (p = q) then None else look d p.
Proof.
  unfold look, unlink. simpl. destruct (decide (p = q)) as [->|]; [by rewrite lookup_delete_eq|].
  by rewrite lookup_delete_ne.
Qed.

Lemma look_insert d q i p :
  look (mkDisk (<[q := i]> (d_names d)) (d_nodes d)) p = if decide (p = q) then d_nodes d !! i else look d p.
Proof.
  unfold look. simpl. destruct (decide (p = q)) as [->|]; [by rewrite lookup_insert_eq|].
  by rewrite lookup_insert_ne.
Qed.

Lemma look_create d q n p :
  look (mkDisk (<[q := free_inode d]> (d_names d)) (<[free_inode d := n]> (d_nodes d))) p
  = if decide (p = q) then Some n else look d p.
Proof.
  unfold look. simpl. destruct (decide (p = q)) as [->|].
  - rewrite lookup_insert_eq. simpl. by rewrite lookup_insert_eq.
  - rewrite lookup_insert_ne by done. destruct (d_names d !! p) as [i|] eqn:E; [|done]. simpl.
    rewrite lookup_insert_ne; [done|]. intros <-. by apply free_inode_fresh in E.
Qed.

Lemma look_update d i f p :
  look (update_node i f d) p = if decide (d_names d !! p = Some i) then f <$> look d p else look d p.
Proof.
  unfold look, update_node. simpl. destruct (d_names d !! p) as [j|]; [|by destruct (decide _)]. simpl.
  destruct (decide (Some j = Some i)) as [[= ->]|Hj]; [by rewrite lookup_alter_eq|].
  rewrite lookup_alter_ne; congruence.
Qed.

Lemma disk_ok_unlink q d : disk_ok d -> disk_ok (unlink q d).
Proof.
  intros Hok. apply disk_ok_names; [done|]. intros p i. simpl.
  intros Hp. exists p. by apply lookup_delete_Some in Hp as [_ ?].
Qed.

Lemma disk_ok_link old new d d' u : disk_ok d -> link_entry old new d = Ok (u, d') -> disk_ok d'.
Proof.
  intros Hok. unfold link_entry. destruct (d_names d !! old) as [i|] eqn:Eo; [|done].
  destruct (d_names d !! new); [done|]. intros [= _ <-]. apply disk_ok_names; [done|].
  intros p j. destruct (decide (new = p)) as [->|]; [rewrite lookup_insert_eq; intros [= <-]; eauto|].
  rewrite lookup_insert_ne by done. eauto.
Qed.

(** A rename of a file over a file or a free name. *)
Lemma rename_spec old new d i n :
  d_names d !! old = Some i -> look d old = Some n -> d_names d !! new <> Some i ->
  (forall n', look d new = Some n' -> f_kind n' <> Directory) ->
  exists d', rename_entry old new d = Ok (tt, d')
    /\ d_names d' = <[new := i]> (delete old (d_names d)) /\ d_nodes d' = d_nodes d.
Proof.
  intros Ho Hn Hne Hdir. unfold rename_entry. rewrite Ho, bool_decide_false by done.
  destruct (look d new) as [n'|]; [|by eexists]. rewrite bool_decide_false by by apply Hdir. by eexists.
Qed.

Lemma disk_ok_rename old new d d' u : disk_ok d -> rename_entry old new d = Ok (u, d') -> disk_ok d'.
Proof.
  intros Hok. unfold rename_entry. destruct (d_names d !! old) as [i|] eqn:Eo; [|done].
  assert (disk_ok (mkDisk (<[new := i]> (delete old (d_names d))) (d_nodes d))) as Hd.
  { apply disk_ok_names; [done|]. intros p j. destruct (decide (new = p)) as [->|].
    - rewrite lookup_insert_eq. intros [= <-]. eauto.
    - rewrite lookup_insert_ne by done. intros [_ ?]%lookup_delete_Some. eauto. }
  destruct (bool_decide _); [by intros [= _ <-]|].
  destruct (look d new) as [n'|]; [destruct (bool_decide _)|]; try done; by intros [= _ <-].
Qed.

Lemma disk_ok_look d p i : disk_ok d -> d_names d !! p = Some i -> exists n, look d p = Some n /\ d_nodes d !! i = Some n.
Proof. intros Hok Hp. destruct (Hok p i Hp) as [n Hn]. exists n. unfold look. by rewrite Hp. Qed.

Lemma look_named d p n : look d p = Some n -> exists i, d_names d !! p = Some i /\ d_nodes d !! i = Some n.
Proof. unfold look. destruct (d_names d !! p) as [i|]; [|done]. by exists i. Qed.

Lemma info_some d p i n : d_names d !! p = Some i -> d_nodes d !! i = Some n -> info_of d p = Some (mkInfo i n).
Proof. unfold info_of. intros -> H. simpl. by rewrite H. Qed.

Lemma first_free_spec draws d dir prefix tries n q :
  first_free draws d dir prefix tries n = Some q -> d_names d !! q = None /\ exists k, q = temp_name draws dir prefix k.
Proof.
  revert n. induction tries as [|tries IH]; intros n; [done|]. cbn [first_free].
  destruct (d_names d !! temp_name draws dir prefix n) eqn:E; [apply IH|]. intros [= <-]. eauto.
Qed.

#[export] Hint Resolve disk_ok_unlink disk_ok_update disk_ok_create disk_ok_link disk_ok_rename : subsync.
