(* ===== verification/Install.v ===== *)
(** * Installing subtitles (src/internal/workflow)

    install.go, identical_install.go, notification.go and the recovery of
    pending_install.go, as programs of the monad of Disk.v: a subtitle is
    validated, staged beside its destination, announced by a pending row,
    published by a link or a rename, and recorded with its notification intents
    in one transaction that clears the row. Every failure after the row undoes
    what was done; a crash leaves the row to the startup recovery. *)
From S2P Require Import Prelude GoText GoFloat Domain MatchScore SearchQueue Schedule Workflow Paths Outbox InstallStore Disk.

#[local] Open Scope Z_scope.

(** ** Data *)

Definition maximumInstallBytes : Z := Z.shiftl 100 20.
Definition rollbackPrefix : text := t ".subsyncd-rollback-".
Definition stagePrefix : text := t ".subsyncd-stage-".
Definition minimumRangeCoverage : float64 := (3 # 4)%Q.

Inductive InstallStage :=
| StageCreate | StageWrite | StageFileSync | StageChmod | StageRename | StageDirectorySync | StageDatabase
| StageCleanup.

(** [QSyncResult] is the JSON encoding of the synchronization result, [None]
    when it has none. *)
Record InstallRequest := mkInstallRequest {
  QFallback : bool;
  QMediaID : Z;
  QMedia : Media;
  QLanguage : Language;
  QSourcePath : text;
  QDestinationPath : text;
  QCandidate : Candidate;
  QScore : Score;
  QSyncResult : option text;
  QCandidateSignature : text;
  QArtifactChecksum : text;
}.

(** [FaultAt] is the test hook [Fault]: the stages at which it fails. *)
Record Installer := mkInstaller {
  MediaRoots : list text;
  Mode : N;
  UID : option Z;
  GID : option Z;
  FaultAt : InstallStage -> bool;
  NotifierNames : list text;
  ArrRescanInstances : text -> bool;
  StripWatermarks : bool;
}.

(** ** Subtitle text *)

Record cue := mkCue { StartAt : duration; EndAt : duration }.

(** The order of the cues' starts and the end of the last one. *)
Fixpoint cue_times (previous last : duration) (items : list cue) : option duration :=
  match items with
  | [] => Some last
  | item :: items =>
      if (StartAt item <? 0) || (EndAt item <? StartAt item) || (StartAt item <? previous) then None
      else cue_times (StartAt item) (Z.max (EndAt item) last) items
  end.

Definition rangeCoverageError (last : duration) (media : Media) : result InstallError unit :=
  if negb (IsEpisodeRange media) || (MDuration media <=? 0)
     || negb (flt (of_int last) (fmul (of_int (MDuration media)) minimumRangeCoverage))
  then Ok tt else Err (EValidation (t "partial_coverage") (t "subtitle ends early")).

Section installer.
(** The environment: the working directory, the resolution of symbolic links,
    the random numbers of temporary names and one reading of the clock. *)
Context (cwd : text) (eval_symlinks : text -> option text) (draws : text -> nat -> N) (now : instant).
(** [sha256] in hexadecimal, [json.Valid], the JSON encoding of a notification
    payload, and the subtitle parsers by extension ([None] is an error). *)
Context (checksumBytes : text -> text) (json_valid : text -> bool) (encode_payload : Media -> text -> text).
Context (parse_srt parse_ssa parse_vtt : text -> option (list cue)).
(** [watermark.Strip] of an extension and a text. *)
Context (strip : text -> text -> text).
Context (i : Installer).

(** The parser of an extension; [None] for one subsyncd does not install. *)
Definition parseSubtitlePayload (path payload : text) : option (option (list cue)) :=
  let ext := to_lower (path_ext path) in
  if bool_decide (ext = t ".srt") then Some (parse_srt payload)
  else if bool_decide (ext = t ".ass") || bool_decide (ext = t ".ssa") then Some (parse_ssa payload)
  else if bool_decide (ext = t ".vtt") then Some (parse_vtt payload)
  else None.

Definition invalid (reason : string) : result InstallError unit := Err (EValidation [] (t reason)).

Definition validateSubtitlePayload (path payload : text) (media : Media) : result InstallError unit :=
  match parseSubtitlePayload path payload with
  | None => invalid "installation source has unsupported extension"
  | Some None | Some (Some []) => invalid "installation source subtitle syntax is invalid"
  | Some (Some (first :: _ as items)) =>
      if Z.of_nat (length items) >? 100000 then invalid "installation source subtitle syntax is invalid"
      else match cue_times (StartAt first) 0 items with
           | None => invalid "installation source timestamps are invalid"
           | Some last =>
               if (0 <? MDuration media) && (MDuration media + 5 * minute <? last)
               then invalid "installation source extends more than five minutes past media duration"
               else rangeCoverageError last media
           end
  end.

(** ** Paths and files *)

Fixpoint any_root (roots : list text) (parent : text) : io bool :=
  match roots with
  | [] => okay false
  | root :: roots =>
      mbind (M:=M) (fun r => match r with
        | Ok resolved => if within resolved parent then okay true else any_root roots parent
        | Err _ => any_root roots parent
        end) (EvalSymlinks eval_symlinks (path_abs cwd root))
  end.

Definition containedDestination (path : text) (roots : list text) : io (text * text) :=
  if bool_decide (roots = []) then fail (EText (t "at least one media root is required"))
  else
    let destination := path_abs cwd path in
    let parent := path_dir destination in
    try! resolvedParent := EvalSymlinks eval_symlinks parent in
    try! contained := any_root roots resolvedParent in
    if contained then okay (destination, parent) else fail EOutside.

Definition readSubtitleSource (path : text) : io text :=
  mbind (M:=M) (fun r => match r with
    | Ok info =>
        if negb (is_regular info) then fail (EText (t "installation source is not a regular file"))
        else if (i_size info <=? 0) || (maximumInstallBytes <? i_size info)
        then fail (EValidation [] (t "installation source size is invalid"))
        else
          try! payload := ReadFile eval_symlinks path in
          if negb (utf8_valid payload) || bool_decide (0%N ∈ payload)
          then fail (EValidation [] (t "installation source is not UTF-8 text"))
          else okay payload
    | Err _ => fail (EText (t "installation source is not a regular file"))
    end) (Lstat path).

Definition media_changed : InstallError := EText (t "media changed before subtitle publication").

Definition verifyMediaUnchanged (f : MediaFingerprint) : io unit :=
  mbind (M:=M) (fun r => match r with
    | Err _ => fail media_changed
    | Ok resolved =>
        mbind (M:=M) (fun r => match r with
          | Err _ => fail (EText (t "media is outside configured roots before subtitle publication"))
          | Ok _ =>
              mbind (M:=M) (fun r => match r with
                | Ok info =>
                    if is_regular info && (i_size info =? FpSize f) && (f_mtime (i_node info) =? FpModTime f)
                    then okay tt else fail media_changed
                | Err _ => fail media_changed
                end) (Stat eval_symlinks (FpPath f))
          end) (containedDestination resolved (MediaRoots i))
    end) (EvalSymlinks eval_symlinks (FpPath f)).

(** Whether the destination holds the subtitle the record names. *)
Definition replacementState (destination : text) (existing : option Installation) : io bool :=
  mbind (M:=M) (fun r => match r with
    | Err ENotExist => okay false
    | Err e => fail e
    | Ok info =>
        if negb (is_regular info) then fail EProtected
        else match existing with
             | None => fail EProtected
             | Some e =>
                 if negb (bool_decide (path_clean (IPath e) = path_clean destination)) then fail EProtected
                 else
                   try! payload := ReadFile eval_symlinks destination in
                   if bool_decide (checksumBytes payload = IChecksum e) then okay true else fail EProtected
             end
    end) (Lstat destination).

Definition verifyReplacementUnchanged (destination : text) (existing : Installation) (replacing : bool) : io unit :=
  if negb replacing then
    mbind (M:=M) (fun r => match r with Err ENotExist => okay tt | _ => fail EProtected end) (Lstat destination)
  else
    mbind (M:=M) (fun r => match r with
      | Ok info =>
          if negb (is_regular info) then fail EProtected
          else mbind (M:=M) (fun r => match r with
                 | Ok payload => if bool_decide (checksumBytes payload = IChecksum existing) then okay tt
                                 else fail EProtected
                 | Err _ => fail EProtected
                 end) (ReadFile eval_symlinks destination)
      | Err _ => fail EProtected
      end) (Lstat destination).

Definition removeContainedFile (path parent : text) : io unit :=
  let absolute := path_abs cwd path in
  if negb (bool_decide (path_dir absolute = path_clean parent))
  then fail (EText (t "cleanup path is outside subtitle directory"))
  else
    mbind (M:=M) (fun r => match r with
      | Err ENotExist => okay tt
      | Err _ => fail (EText (t "cleanup path is not a regular file"))
      | Ok info => if is_regular info then Remove absolute
                   else fail (EText (t "cleanup path is not a regular file"))
      end) (Lstat absolute).

Definition inject (stage : InstallStage) : io unit := if FaultAt i stage then fail EStage else okay tt.

(** [publishStaged]: a fresh install links, so an existing file is never
    replaced; a file system without hard links renames. *)
Definition publish_rename (stagedPath destination : text) : io unit := Rename stagedPath destination.

Definition publishStaged (stagedPath destination : text) (replacing : bool) : io unit :=
  if negb replacing then
    mbind (M:=M) (fun r => match r with
      | Ok _ => mbind (M:=M) (fun _ => okay tt) (Remove stagedPath)
      | Err EExist => fail EProtected
      | Err _ => publish_rename stagedPath destination
      end) (Link stagedPath destination)
  else publish_rename stagedPath destination.

(** [copyRollback]: a copy of the current subtitle, removed again on failure. *)
Definition discard_copy {A} (path : text) (ino : Z) (e : InstallError) : io A :=
  mbind (M:=M) (fun _ => mbind (M:=M) (fun _ => fail e) (Remove path)) (Close ino).

Definition on_error {A B} (m : io A) (failed : InstallError -> io B) (k : A -> io B) : io B :=
  mbind (M:=M) (fun r => match r with Ok a => k a | Err e => failed e end) m.

Definition copyRollback (source parent : text) : io text :=
  on_error (Lstat source) (fun _ => fail (EText (t "subtitle rollback source is not a regular file"))) (fun info =>
  if negb (is_regular info) then fail (EText (t "subtitle rollback source is not a regular file"))
  else
    try! payload := ReadFile eval_symlinks source in
    try! (path, ino) := CreateTemp draws now parent rollbackPrefix in
    on_error (writeAll now ino payload) (discard_copy path ino) (fun _ =>
    on_error (Sync ino) (discard_copy path ino) (fun _ =>
    on_error (Chmod ino (N.land (f_mode (i_node info)) 511)) (discard_copy path ino) (fun _ =>
    on_error (Close ino) (discard_copy path ino) (fun _ => okay path))))).

(** ** Notifications *)

Definition ArrRescanName : text := t "arr_rescan".
Definition ArrRescanDelay : duration := 60 * second.

Definition kind_text (k : MediaKind) : text :=
  match k with KindUnset => [] | MediaMovie => t "movie" | MediaEpisode => t "episode" end.

Definition RescanID (media : Media) : option Z :=
  match RefKind (MRef media) with
  | MediaEpisode => if 0 <? SeriesID media then Some (SeriesID media) else None
  | MediaMovie => if 0 <? EntityID media then Some (EntityID media) else None
  | KindUnset => None
  end.

Definition RescanCoalesceKey (media : Media) : option text :=
  (fun id => Instance_ (MRef media) ++ [0%N] ++ kind_text (RefKind (MRef media)) ++ [0%N] ++ itoa id)
  <$> RescanID media.

Definition notificationDue (name : text) : instant :=
  if bool_decide (name = ArrRescanName) then now + ArrRescanDelay else now.

Definition notificationRequest (name : text) (media : Media) (raw payload : text) : NotificationRequest :=
  let '(raw, coalesce) :=
    if bool_decide (name = ArrRescanName) then
      match RescanCoalesceKey media with
      | Some key => (name ++ [0%N] ++ key, true)
      | None => (raw, false)
      end
    else (raw, false) in
  mkNotification name (checksumBytes (bytes_of raw)) payload (notificationDue name) coalesce.

Definition changeNotifierNames (media : Media) : list text :=
  if negb (ArrRescanInstances i (Instance_ (MRef media))) then NotifierNames i
  else match RescanID media with
       | None => NotifierNames i
       | Some _ => NotifierNames i ++ [ArrRescanName]
       end.

Definition notificationRequests (media : Media) (inst : Installation) (names : list text)
    : list NotificationRequest :=
  (fun name =>
     let raw := join [0%N] [name; itoa (IMediaID inst); ILanguage inst; IChecksum inst; IPath inst;
                            IMediaPath inst; itoa (IMediaFileID inst); itoa (IMediaSize inst);
                            itoa (IMediaModTimeNS inst)] in
     notificationRequest name media raw (encode_payload media (IPath inst)))
  <$> stable_sort text_lt names.

Definition changeNotificationRequests (what : text) (media : Media) (inst : Installation) (names : list text)
    : list NotificationRequest :=
  (fun name =>
     let raw := join [0%N] [what; name; itoa (IMediaID inst); ILanguage inst; IChecksum inst; IPath inst; itoa now] in
     notificationRequest name media raw (encode_payload media (IPath inst)))
  <$> stable_sort text_lt names.

(** ** The database calls *)

Definition get_installation (media : Z) (language : Language) : io (option Installation) :=
  query (fun w => Ok (GetInstallation media language (w_db w))).

Definition record_installation (inst : Installation) (requests : list NotificationRequest) : io (list bool) :=
  transaction (RecordInstallationWithNotifications json_valid now inst requests).

Definition beginPendingInstall (p : PendingInstall) : io Z := transaction (BeginPendingInstall now p).

Definition finish_row (id : Z) : io unit := transaction (fun db => Ok (FinishPendingInstall id db, tt)).

Definition finishPendingInstall (id : Z) : M unit :=
  if id =? 0 then mret tt else mbind (M:=M) (fun _ => mret tt) (finish_row id).

(** ** The install *)

(** The record of [request]'s subtitle at [destination]. *)
Definition installed_record (q : InstallRequest) (destination checksum rollback sync : text) : Installation :=
  let f := Fingerprint (QMedia q) in
  {| IFallback := QFallback q; IMediaID := QMediaID q; ILanguage := QLanguage q; IPath := destination;
     IChecksum := checksum; IProviderID := ProviderID (QCandidate q); ICandidateID := ResultID (QCandidate q);
     ICandidateSignature := QCandidateSignature q; IArtifactChecksum := QArtifactChecksum q;
     IScoreJSON := ScoreIs (QScore q); ISyncResultJSON := sync; IRollbackPath := rollback;
     IMediaPath := FpPath f; IMediaFileID := FpFileID f; IMediaSize := FpSize f; IMediaModTimeNS := FpModTime f;
     IPendingInstallID := 0; IInstalledAt := zero_time |}.

Definition with_pending_id (id : Z) (x : Installation) : Installation :=
  {| IFallback := IFallback x; IMediaID := IMediaID x; ILanguage := ILanguage x; IPath := IPath x;
     IChecksum := IChecksum x; IProviderID := IProviderID x; ICandidateID := ICandidateID x;
     ICandidateSignature := ICandidateSignature x; IArtifactChecksum := IArtifactChecksum x;
     IScoreJSON := IScoreJSON x; ISyncResultJSON := ISyncResultJSON x; IRollbackPath := IRollbackPath x;
     IMediaPath := IMediaPath x; IMediaFileID := IMediaFileID x; IMediaSize := IMediaSize x;
     IMediaModTimeNS := IMediaModTimeNS x; IPendingInstallID := id; IInstalledAt := IInstalledAt x |}.

Definition with_rollback (rollback : text) (x : Installation) : Installation :=
  relocated (IPath x) (IMediaPath x) rollback (IMediaFileID x) x.

(** The existing record with the provenance of an identical subtitle. *)
Definition refreshed_record (q : InstallRequest) (sync : text) (x : Installation) : Installation :=
  let f := Fingerprint (QMedia q) in
  {| IFallback := QFallback q; IMediaID := IMediaID x; ILanguage := ILanguage x; IPath := IPath x;
     IChecksum := IChecksum x; IProviderID := ProviderID (QCandidate q); ICandidateID := ResultID (QCandidate q);
     ICandidateSignature := QCandidateSignature q; IArtifactChecksum := QArtifactChecksum q;
     IScoreJSON := ScoreIs (QScore q); ISyncResultJSON := sync; IRollbackPath := IRollbackPath x;
     IMediaPath := FpPath f; IMediaFileID := FpFileID f; IMediaSize := FpSize f; IMediaModTimeNS := FpModTime f;
     IPendingInstallID := IPendingInstallID x; IInstalledAt := IInstalledAt x |}.

Definition encoded_sync (q : InstallRequest) : io text :=
  match QSyncResult q with Some sync => okay sync | None => fail (EText (t "encode synchronization result")) end.

Definition refreshIdenticalInstallation (q : InstallRequest) (existing : Installation) : io Installation :=
  try! sync := encoded_sync q in
  let inst := refreshed_record q sync existing in
  let requests := if InstallationMatchesMedia existing (QMedia q) then []
                  else notificationRequests (QMedia q) inst (NotifierNames i) in
  try! _ := inject StageDatabase in
  try! _ := ctx_err in
  try! _ := verifyReplacementUnchanged (IPath inst) existing true in
  try! _ := verifyMediaUnchanged (Fingerprint (QMedia q)) in
  try! _ := record_installation inst requests in
  okay inst.

Definition sameInstallationRecord (a b : Installation) : bool :=
  bool_decide (path_clean (IPath a) = path_clean (IPath b)) && bool_decide (IChecksum a = IChecksum b)
  && bool_decide (IRollbackPath a = IRollbackPath b) && bool_decide (IProviderID a = IProviderID b)
  && bool_decide (ICandidateID a = ICandidateID b).

(** What one install knows once its subtitle is staged: the staged file, the
    destination, the record it read and the pending row it wrote. *)
Record publication := mkPublication {
  u_destination : text;
  u_parent : text;
  u_existing : option Installation;
  u_replacing : bool;
  u_staged : text;
  u_inode : Z;
  u_rollback : text;
  u_pending : Z;
}.

Definition ownsPublication (q : InstallRequest) (u : publication) : io bool :=
  mbind (M:=M) (fun r => match r with
    | Err ENotExist => okay false
    | Err e => if u_replacing u then fail e else okay true
    | Ok info =>
        if negb (is_regular info) || negb (i_inode info =? u_inode u) then okay false
        else if negb (u_replacing u) then okay true
        else
          try! current := get_installation (QMediaID q) (QLanguage q) in
          okay (eqb (bool_decide (is_Some current)) (bool_decide (is_Some (u_existing u)))
                && sameInstallationRecord (default no_installation current)
                     (default no_installation (u_existing u)))
    end) (Lstat (u_destination u)).

(** [errors] of a step that appends its error and goes on. *)
Definition collect (m : io unit) : M (list InstallError) :=
  mbind (M:=M) (fun r => mret (match r with Ok _ => [] | Err e => [e] end)) m.

(** The rollback decision: undo the publication, and the errors so far; the
    copy is kept while it is unknown whose subtitle is there. *)
Inductive undo_decision := UndoPublished | UndoNothing | UndoUnsure (e : InstallError).

Definition undo_kind (q : InstallRequest) (u : publication) (committedFile : bool) : M undo_decision :=
  if committedFile then
    mbind (M:=M) (fun r => mret (match r with
      | Err e => UndoUnsure e
      | Ok true => UndoPublished
      | Ok false => UndoNothing
      end)) (ownsPublication q u)
  else mret UndoNothing.

Definition undo_published (u : publication) : M (list InstallError) :=
  if bool_decide (u_rollback u = [])
  then collect (try! _ := Remove (u_destination u) in syncDirectory (u_parent u))
  else collect (try! _ := Rename (u_rollback u) (u_destination u) in syncDirectory (u_parent u)).

Definition restore (q : InstallRequest) (u : publication) (committedFile : bool) (cause : InstallError)
    : io Installation :=
  mbind (M:=M) (fun decision =>
  mbind (M:=M) (fun errors =>
  mbind (M:=M) (fun _ =>
  mbind (M:=M) (fun _ => fail (EJoin (cause :: errors)))
    (if bool_decide (errors = []) then finishPendingInstall (u_pending u) else mret tt))
    (Remove (u_staged u)))
    (match decision with
     | UndoPublished => undo_published u
     | UndoNothing => if bool_decide (u_rollback u = []) then mret [] else collect (Remove (u_rollback u))
     | UndoUnsure e => mret [e]
     end))
    (undo_kind q u committedFile).

(** [removeRollbackCopy] and [discardRollback]. *)
Definition removeRollbackCopy (path parent : text) : io unit :=
  if negb (has_prefix rollbackPrefix (path_base path)) then fail (EText (t "rollback copy has an unexpected name"))
  else on_error (removeContainedFile path parent)
         (fun e => match e with ENotExist => okay tt | _ => fail e end) (fun _ => okay tt).

Definition clear_rollback (inst : Installation) (path : text) : io unit :=
  transaction (fun db => Ok (ClearInstallationRollback (IMediaID inst) (ILanguage inst) path db, tt)).

Definition discardRollback (inst : Installation) (parent : text) : M text :=
  let path := IRollbackPath inst in
  if bool_decide (path = []) then mret []
  else
    mbind (M:=M) (fun r => mret (match r with Ok _ => [] | Err _ => path end))
      (try! _ := inject StageCleanup in
       try! _ := removeRollbackCopy path parent in
       clear_rollback inst path).

(** After the record: an older rollback copy and the one of this install go. *)
Definition cleaned (u : publication) (inst : Installation) : io Installation :=
  let old := match u_existing u with Some e => IRollbackPath e | None => [] end in
  mbind (M:=M) (fun _ =>
  mbind (M:=M) (fun rollback => okay (with_rollback rollback inst)) (discardRollback inst (u_parent u)))
    (if negb (bool_decide (old = [])) && negb (bool_decide (path_clean old = path_clean (u_rollback u)))
     then mbind (M:=M) (fun r => match r with
            | Ok _ => mbind (M:=M) (fun _ => mret tt) (removeContainedFile old (u_parent u))
            | Err _ => mret tt
            end) (inject StageCleanup)
     else mret tt).

(** From the pending row on: publish, record, or undo. *)
Definition commit (q : InstallRequest) (u : publication) (payload : text) : io Installation :=
  let back {A} (m : io A) (committed : bool) (k : A -> io Installation) : io Installation :=
    on_error m (restore q u committed) k in
  back (verifyReplacementUnchanged (u_destination u) (default no_installation (u_existing u)) (u_replacing u)) false (fun _ =>
  back (inject StageRename) false (fun _ =>
  back (verifyMediaUnchanged (Fingerprint (QMedia q))) false (fun _ =>
  back ctx_err false (fun _ =>
  back (publishStaged (u_staged u) (u_destination u) (u_replacing u)) false (fun _ =>
  back (inject StageDirectorySync) true (fun _ =>
  back (syncDirectory (u_parent u)) true (fun _ =>
  back (encoded_sync q) true (fun sync =>
  let inst := installed_record q (u_destination u) (checksumBytes payload) (u_rollback u) sync in
  let requests := notificationRequests (QMedia q) inst (changeNotifierNames (QMedia q)) in
  back (inject StageDatabase) true (fun _ =>
  back (record_installation (with_pending_id (u_pending u) inst) requests) true (fun _ =>
  cleaned u inst)))))))))).

(** [defer os.Remove(stagedPath)]. *)
Definition removing_staged {A} (staged : text) (m : io A) : io A :=
  mbind (M:=M) (fun r => mbind (M:=M) (fun _ => mret r) (Remove staged)) m.

Definition failStaging {A} (staged : text) (open : option Z) (cause : InstallError) : io A :=
  mbind (M:=M) (fun _ => mbind (M:=M) (fun _ => fail cause) (Remove staged))
    (match open with Some ino => Close ino | None => okay tt end).

Definition file_mode : N := if (N.land (Mode i) 511 =? 0)%N then 420%N else N.land (Mode i) 511.

Definition chown_staged (ino : Z) : io unit :=
  match UID i, GID i with
  | None, None => okay tt
  | uid, gid => Chown ino (default (-1) uid) (default (-1) gid)
  end.

(** The staged file: its content, flushed, its mode and owner, and its inode. *)
Definition stage_file (staged : text) (ino : Z) (payload : text) : io FileInfo :=
  let open := failStaging staged (Some ino) in
  on_error (inject StageWrite) open (fun _ =>
  on_error (writeAll now ino payload) open (fun _ =>
  on_error (inject StageFileSync) open (fun _ =>
  on_error (Sync ino) open (fun _ =>
  on_error (inject StageChmod) open (fun _ =>
  on_error (Chmod ino file_mode) open (fun _ =>
  on_error (chown_staged ino) open (fun _ =>
  on_error (Fstat ino) open (fun info =>
  on_error (Close ino) (failStaging staged None) (fun _ => okay info))))))))).

(** Staging, the rollback copy and the pending row. *)
Definition publish (q : InstallRequest) (destination parent : text) (existing : option Installation)
    (replacing : bool) (payload staged : text) (ino : Z) : io Installation :=
  try! info := stage_file staged ino payload in
  on_error (if replacing then copyRollback destination parent else okay []) (failStaging staged None) (fun rollback =>
  on_error (beginPendingInstall (mkPending 0 (QMediaID q) (QLanguage q) destination (checksumBytes payload) staged
                                   rollback (i_inode info) now))
    (fun e => mbind (M:=M) (fun _ => failStaging staged None e)
                (if bool_decide (rollback = []) then okay tt else Remove rollback))
    (fun id => commit q (mkPublication destination parent existing replacing staged (i_inode info) rollback id)
                 payload)).

Definition Install (q : InstallRequest) : io Installation :=
  if (QMediaID q <=? 0) || bool_decide (QLanguage q = []) then fail EArguments
  else
    try! (destination, parent) := containedDestination (QDestinationPath q) (MediaRoots i) in
    try! payload := readSubtitleSource (QSourcePath q) in
    let payload := if StripWatermarks i then strip (path_ext (QSourcePath q)) payload else payload in
    try! _ := mret (M:=M) (validateSubtitlePayload (QSourcePath q) payload (QMedia q)) in
    try! existing := get_installation (QMediaID q) (QLanguage q) in
    try! replacing := replacementState destination existing in
    let unchanged := match existing with Some e => bool_decide (checksumBytes payload = IChecksum e) | None => false end in
    if replacing && unchanged then refreshIdenticalInstallation q (default no_installation existing)
    else
      try! _ := inject StageCreate in
      try! (staged, ino) := CreateTemp draws now parent stagePrefix in
      removing_staged staged (publish q destination parent existing replacing payload staged ino).
End installer.
