(* ===== verification/Candidates.v ===== *)
(** * Preparing candidates (src/internal/workflow)

    From a ranked candidate to a subtitle file ready to install: the rejection
    lookups and records of service.go, the download and selection of archive
    members, the language and coverage checks, timing with LAPSE or the policy
    that skips it (prepareCandidate), and the versions of one archive
    (member_preparation.go), as programs of Calls.v.

    The calls are what these functions ask of others: the store, the providers,
    the timing program, files of the private workspace, the media file, the
    clock and the context. Log events are left out. *)
From S2P Require Import ProviderGate Prelude GoText GoFloat Paths Domain MatchRelease MatchScore PackEvidence PackSelect PackVersions SearchQueue Schedule Outbox InstallStore Disk Install Workflow Coordinator ProviderTiers Rejections Refusals LangCheck ReleaseNumbering Inventory Calls.

#[local] Open Scope Z_scope.

(** ** Data *)

Record SyncResult := mkSync {
  Verdict : text;
  SyncMode : text;
  Reference : text;
  OffsetMS : Z;
  Ratio : float64;
  Confidence : float64;
  Sigma : float64;
  Margin : float64;
  Agreement : float64;
  Coverage : float64;
  Parts : Z;
  Splits : Z;
}.

Record downloadedCandidate := mkDownloaded {
  memberIndex : Z;
  memberCount : Z;
  moreVersions : bool;
  fromCache : bool;
  dl_scope : text;
  dl_runtimePack : bool;
  dl_candidate : Candidate;
  dl_score : Score;
  dl_priority : Z;
  dl_path : text;
}.

Record preparedCandidate := mkPrepared {
  groupMayReject : bool;
  pr_item : downloadedCandidate;
  pr_sync : SyncResult;
  pr_output : text;
  pr_bypass : bool;
}.

(** A candidate as recorded for the [candidates] table, its JSON columns as the
    values they encode. *)
Record CandidateRecord := mkRecord {
  RecProviderID : text;
  RecResultID : text;
  RecMetadata : Candidate;
  RecScore : Score;
  RecEligible : bool;
}.

(** A cached pack entry and a member of it (internal/store, internal/pack). *)
Record PackCacheEntry := mkEntry {
  EntID : Z;
  EntProviderID : text;
  EntResultID : text;
  EntSeason : Z;
  EntLanguage : text;
  EntContentChecksum : text;
  EntManifestPath : text;
}.

Record CachedMember := mkCached {
  CmMemberScoped : bool;
  CmMoreVersions : bool;
  CmRuntimePack : bool;
  CmPath : text;
  CmChecksum : text;
  CmCandidate : Candidate;
}.

(** ** Calls *)

(** [os.Stat] of the media file, and reading it. *)
Inductive media_answer := MediaMissing | MediaGone | MediaFailed | MediaIrregular | MediaThere (size : Z).
(** Which of the probe, the timer and the context is ready first. *)
Inductive race_answer := ProbeFinished | ProbeTimedOut | ProbeCanceled (e : WorkflowError).
Inductive remove_answer := Removed | RemoveMissing | RemoveFailed.

(** What a provider wrote into the bounded writer (each chunk with what the
    file took of it: how much, and whether it failed), the metadata of the
    response and the error of the download. *)
Record download_answer := mkDownload {
  da_writes : list (list N * (nat * bool));
  da_filename : text;
  da_content_type : text;
  da_error : option WorkflowError;
}.

Inductive lstat_answer := LsMissing | LsFailed | LsSymlink | LsRegular | LsOther.

(** The result of a [Searcher], and whether it lists the applicable providers
    (a nil list otherwise). *)
Definition search_answer : Type := SearchResult * bool.

Inductive call :=
| CtxErr
| ClockNow
| StatMedia (path : text)
| MediaRace
| OpenMedia (path : text)
| StatOpened
| ReadMedia (offset : Z)
| MkdirTemp
| RemoveAll (path : text)
| RemoveFile (path : text)
| ReadArtifact (path : text)
| RenameFile (old new : text)
| CreatePayload (path : text)
| SyncPayload
| ClosePayload
| ReadPayload (path : text)
| StatPayload (path : text)
| OpenPayload (path : text)
| CheckDownload (provider : text)
| Download (c : Candidate)
| Extract (c : Candidate) (payload destination : text)
| RecordRefusal (provider : text) (kind : CooldownKind)
| WitnessRefusal (provider : text) (w : refusalWitness)
| GetRejection (l : CandidateRejectionLookup)
| PutRejection (r : CandidateRejection)
| RecordLapseFailure (f : CandidateLapseFailure)
| Synchronize (c : Candidate) (media source output : text)
| ListReusablePacks (m : Media) (language : Language) (now : instant)
| LstatCache (path : text)
| ReadCache (path : text)
| DeletePack (id : Z)
| TouchPack (id : Z) (now : instant)
| PutPack (m : Manifest) (expiresAt : instant)
| SearchProviders (fallback : bool) (q : SearchQuery)
| RecordCandidates (mediaID : Z) (language : Language) (records : list CandidateRecord)
| UpdateAssessment (i : Installation)
| InstallSubtitle (r : InstallRequest) (sync : SyncResult)
| RefreshInventory (mediaID : Z) (m : Media) (forceProbe : bool)
| ReadInstallation (mediaID : Z) (language : Language)
| Reconcile (r : RemovalRequest)
| RemoveSubtitle (r : RemovalRequest)
| RandomUnit.

(** File operations answer whether they succeeded. *)
Definition answer (c : call) : Type :=
  match c with
  | CtxErr => option WorkflowError
  | ClockNow => instant
  | StatMedia _ | OpenMedia _ | StatOpened | ReadMedia _ => media_answer
  | MediaRace => race_answer
  | MkdirTemp => option text
  | RemoveFile _ => remove_answer
  | ReadArtifact _ | ReadCache _ => option (list N)
  | RemoveAll _ | RenameFile _ _ | CreatePayload _ | SyncPayload | ClosePayload | ReadPayload _ | StatPayload _
  | OpenPayload _ => bool
  | CheckDownload _ | PutRejection _ | DeletePack _ | TouchPack _ _ | PutPack _ _ | RecordCandidates _ _ _
  | UpdateAssessment _ | RecordRefusal _ _ => option WorkflowError
  | Download _ => download_answer
  | Extract _ _ _ => result WorkflowError Manifest
  | WitnessRefusal _ _ => option refusalWitness
  | GetRejection _ => result WorkflowError (option CandidateRejection)
  | RecordLapseFailure _ => result WorkflowError bool
  | Synchronize _ _ _ _ => result WorkflowError SyncResult
  | ListReusablePacks _ _ _ => result WorkflowError (list PackCacheEntry)
  | LstatCache _ => lstat_answer
  | SearchProviders _ _ => search_answer
  | InstallSubtitle _ _ => result WorkflowError Installation
  | RefreshInventory _ _ _ => result WorkflowError Inventory
  | ReadInstallation _ _ => result WorkflowError (option Installation)
  | Reconcile _ => result WorkflowError Reconciliation
  | RemoveSubtitle _ => option WorkflowError
  | RandomUnit => float64
  end.

(** The end of a function before its last statement: [acquire]'s
    [return result, nil], or an error. *)
Inductive stopped := Returned | Failed (e : WorkflowError).

(** The variables of a run: the result, the evidence of its searches and the
    candidate failures of the tier, and what both tiers share (the attempted
    artifacts, the LAPSE timeout, the error values a later refusal may write
    to, by reference, and the candidate records already written). *)
Record acquiring := mkAcquiring {
  a_result : Result;
  a_resume : providerResumeAccumulator;
  a_failures : list WorkflowError;
  a_attempted : gset (row_key * file_id);
  a_latch : option WorkflowError;
  a_responses : list (option WorkflowError);
  a_records : list CandidateRecord;
}.

Abbreviation acts := (act answer acquiring stopped).

Definition with_result (f : Result -> Result) (s : acquiring) : acquiring :=
  mkAcquiring (f (a_result s)) (a_resume s) (a_failures s) (a_attempted s) (a_latch s) (a_responses s) (a_records s).
Definition with_resume (f : providerResumeAccumulator -> providerResumeAccumulator) (s : acquiring) : acquiring :=
  mkAcquiring (a_result s) (f (a_resume s)) (a_failures s) (a_attempted s) (a_latch s) (a_responses s) (a_records s).
Definition with_failures (f : list WorkflowError -> list WorkflowError) (s : acquiring) : acquiring :=
  mkAcquiring (a_result s) (a_resume s) (f (a_failures s)) (a_attempted s) (a_latch s) (a_responses s) (a_records s).
Definition with_attempted (k : row_key * file_id) (s : acquiring) : acquiring :=
  mkAcquiring (a_result s) (a_resume s) (a_failures s) ({[k]} ∪ a_attempted s) (a_latch s) (a_responses s) (a_records s).
Definition with_latch (e : WorkflowError) (s : acquiring) : acquiring :=
  mkAcquiring (a_result s) (a_resume s) (a_failures s) (a_attempted s) (Some e) (a_responses s) (a_records s).
Definition with_responses (f : list (option WorkflowError) -> list (option WorkflowError)) (s : acquiring) : acquiring :=
  mkAcquiring (a_result s) (a_resume s) (a_failures s) (a_attempted s) (a_latch s) (f (a_responses s))
    (a_records s).

Definition with_records (records : list CandidateRecord) (s : acquiring) : acquiring :=
  mkAcquiring (a_result s) (a_resume s) (a_failures s) (a_attempted s) (a_latch s) (a_responses s) records.

Definition add_decisions (ds : list WorkflowDecision) (r : Result) : Result :=
  with_clean (RcleanEmptyProviders r) (RDecisions r ++ ds) (RProviderErrors r) r.

(** [result.Decisions = append(result.Decisions, ...)] *)
Definition decide_ (ds : list WorkflowDecision) : acts unit := modify (with_result (add_decisions ds)).
Definition fail {A} (e : WorkflowError) : acts A := stop (Failed e).

(** [if err := f(); err != nil { return err }] *)
Definition ask_error (e : option WorkflowError) : acts unit :=
  match e with Some e => fail e | None => done tt end.
Definition ask_result {A} (r : result WorkflowError A) : acts A :=
  match r with Ok a => done a | Err e => fail e end.

(** The error of [m], which the caller inspects. *)
Definition caught {A} (m : acts A) : acts (result WorkflowError A) :=
  do! r := outcome_of m in
  match r with
  | Ok a => done (Ok a)
  | Err (Failed e) => done (Err e)
  | Err Returned => stop Returned
  end.

Definition check_context : acts unit := do! e := ask CtxErr in ask_error e.
Definition note (stage : string) (c : Candidate) (reason : text) : WorkflowDecision :=
  mkDecision (t stage) (ProviderID c) (ResultID c) reason [].

(** ** Settings *)

(** What a tier's service and one run of it have: the settings, whether there
    is a pack cache, the tool that times subtitles ([None] has no rejection
    baseline), the adapters by provider, the installation a replacement search
    installs over, and which run it is. *)
Record Acquisition := mkAcquisition {
  service : Service;
  fallbackTier : bool;
  MinimumScore : Z;
  PackTTL : duration;
  policy : LapsePolicy;
  AllowHearingImpaired : bool;
  hasPackCache : bool;
  rejectionBaseline : option text;
  lapseVersion : text;
  adapters : gset text;
  adapterSupports : text -> bool;
  canReuse : Candidate -> bool;
  replacing : option Installation;
  refusalRun : Z;
}.

Definition minimumScore (env : Acquisition) : Z := if MinimumScore env <=? 0 then 35 else MinimumScore env.
Definition packTTL (env : Acquisition) : duration := if PackTTL env <=? 0 then 24 * hour else PackTTL env.

(** ** Whether LAPSE may be skipped *)

Section bypass.
Context `{Unicode} `{NameParser}.

Definition lapseMaySkip (p : LapsePolicy) (c : Candidate) (runtimePack : bool) (members : nat) : bool :=
  if ExactHash c then false
  else
    let p := normalized p in
    if syncDisabled p then true
    else bool_decide (Mode p = t "confidence") && negb runtimePack && (members =? 1)%nat
         && negb (bool_decide (is_Some (Pack c)) && LapseForPacks p).

(** The two flags of the loop over the contributions. *)
Definition evidence_flags (flags : bool * bool) (k : Contribution) : bool * bool :=
  let '(identity, releaseGroup) := flags in
  if bool_decide (Signal k = t "external_id") || bool_decide (Signal k = t "title_year")
  then (identity || (0 <? Points k), releaseGroup)
  else if bool_decide (Signal k = t "release_group") then (identity, 0 <? Points k)
  else flags.

Definition canBypassLapse (media : Media) (c : Candidate) (score : Score) (installed : bool) (p : LapsePolicy) : bool :=
  if negb (bool_decide (Mode p = t "confidence")) || (installed && LapseForUpgrades p)
     || (bool_decide (is_Some (Pack c)) && LapseForPacks p) || (Total score <? BypassScore p)
  then false
  else
    let '(identity, releaseGroup) := fold_left evidence_flags (Contributions score) (false, false) in
    if (RequireIdentityAnchor p && negb identity) || (RequireReleaseGroup p && negb releaseGroup) then false
    else if negb (HasMatchingEdition media c) then false
    else negb (RequireEpisodeEvidence p) || negb (bool_decide (RefKind (MRef media) = MediaEpisode))
         || HasEpisodeEvidence media c.
End bypass.

(** The results installed without running LAPSE. *)
Definition bypass_sync (verdict reference : string) (unit : float64) (parts : Z) : SyncResult :=
  mkSync (t verdict) (t "bypass") (t reference) 0 unit unit 0%Q 0%Q unit unit parts 0.
Definition exact_hash_sync : SyncResult := bypass_sync "exact_hash" "provider_hash" 1%Q 1.
Definition sync_disabled_sync : SyncResult := bypass_sync "sync_disabled" "policy" 0%Q 0.
Definition score_bypass_sync : SyncResult := bypass_sync "score_bypass" "release_evidence" 0%Q 0.

Definition sameInstalledCandidate (existing : Installation) (media : Media) (c : Candidate) : bool :=
  InstallationMatchesMedia existing media && bool_decide (IProviderID existing = ProviderID c)
  && bool_decide (ICandidateID existing = ResultID c).

Definition lapseFailureDecision (failure : WorkflowError) : text :=
  if hasProcessExitError failure then t "error"
  else if asserted (fun e => match e with TooFewCuesE => Some tt | _ => None end) failure then t "non-solid"
  else if bool_decide (is_Some (error_as (fun e => match e with VerdictE v => Some v | _ => None end) failure))
  then t "non-solid" else t "error".

(** [boundedDownloadWriter]. *)
Record boundedDownloadWriter := mkBounded { remaining : Z; exceeded : bool; writeErr : bool }.

Definition maxCompressed : Z := Z.shiftl 20 20.

(** One [Write]: what reaches the file. *)
Definition bounded_write (w : boundedDownloadWriter) (payload : list N) (took : nat) (failed : bool)
    : boundedDownloadWriter * list N :=
  if writeErr w then (w, [])
  else
    let over := remaining w <? Z.of_nat (length payload) in
    if over && (remaining w =? 0) then (mkBounded 0 true false, [])
    else
      let payload := if over then take (Z.to_nat (remaining w)) payload else payload in
      let written := take took payload in
      (mkBounded (remaining w - Z.of_nat (length written)) (exceeded w || over)
         (failed || (length written <? length payload)%nat), written).

Fixpoint bounded_writes (w : boundedDownloadWriter) (writes : list (list N * (nat * bool)))
    : boundedDownloadWriter * list N :=
  match writes with
  | [] => (w, [])
  | (payload, (took, failed)) :: writes =>
      let '(w, written) := bounded_write w payload took failed in
      let '(w, rest) := bounded_writes w writes in (w, written ++ rest)
  end.

(** [filepath.Join] of a directory and a name. *)
Definition in_dir (dir name : text) : text := path_clean (path_join dir name).

(** Whether [removeWorkflowArtifact] may remove [path]. *)
Definition workflow_artifact (workspace path : text) : bool :=
  bool_decide (path_dir path = path_clean workspace)
  && (has_prefix (t "selected-") (path_base path) || has_prefix (t "synchronized-") (path_base path)).

Definition removeWorkflowArtifact (workspace path : text) : acts unit :=
  if negb (workflow_artifact workspace path) then done tt
  else
    do! r := ask (RemoveFile path) in
    match r with RemoveFailed => fail (OtherE (t "remove candidate scratch")) | _ => done tt end.

(** ** One request *)

Section request.
Context `{Unicode} `{NameParser} `{LanguageTags}.
(** SHA-256 in hexadecimal and [encoding/json] (Rejections.v), the reading of
    provider messages (Refusals.v), and the subtitle parsers (Install.v). *)
Context (sha256_hex : list N -> text) (json_candidate : Candidate -> list N) (json_member : PackMemberRef -> list N)
        (json_numbering : NumberingEvidence -> list N) (json_policy : LapsePolicy -> list N).
Context (json_parse : list N -> option json) (html_unescape : text -> text) (media_type : text -> text).
Context (parse_srt parse_ssa parse_vtt : text -> option (list cue)).
(** The text of an error. *)
Context (error_text : WorkflowError -> text).
Context (env : Acquisition) (q : Request).

Definition media : Media := QMedia q.
Definition media_path : text := FpPath (Fingerprint media).
Definition tool : text := RejectionToolSignature sha256_hex json_policy (rejectionBaseline env) (policy env).

(** [candidateRejectionIdentity]; [scope] is the request's [memberScope]. *)
Definition identity (scope : text) (c : Candidate) (checksum : text) : CandidateRejection :=
  candidateRejectionIdentity sha256_hex json_candidate json_member json_numbering tool q scope c checksum.

Definition fileChecksum (path : text) : acts text :=
  do! payload := ask (ReadArtifact path) in
  match payload with
  | None => fail (OtherE (t "checksum candidate artifact"))
  | Some payload => done (sha256_hex payload)
  end.

(** *** The media file *)

Definition checkMediaAvailable : acts unit :=
  do! m := ask (StatMedia media_path) in
  match m with
  | MediaMissing => fail (MediaUnavailableE true)
  | MediaGone => fail (MediaUnavailableE false)
  | MediaFailed => fail (OtherE (t "media file cannot be inspected"))
  | MediaIrregular => fail (OtherE (t "media path is not a regular file"))
  | MediaThere _ => done tt
  end.

Definition markIfMediaUnreadable (e : WorkflowError) : acts WorkflowError :=
  if bool_decide (is_Some (error_as (fun e => match e with MediaUnavailableE m => Some m | _ => None end) e)) then done e
  else if bool_decide (is_Some (error_as (fun e => match e with ProbeTimedOutE => Some tt | _ => None end) e))
  then done (MediaUnavailableE false)
  else
    do! m := ask (StatMedia media_path) in
    match m with
    | MediaMissing => done (MediaUnavailableE true)
    | MediaGone => done (MediaUnavailableE false)
    | _ => done e
    end.

Definition unreadable {A} (message : string) : acts A :=
  do! e := markIfMediaUnreadable (OtherE (t message)) in fail e.

(** One [ReadAt]; the end of the file is no error. *)
Definition read_probe (offset : Z) : acts unit :=
  do! m := ask (ReadMedia offset) in
  match m with
  | MediaThere _ => done tt
  | MediaMissing | MediaGone => fail (MediaUnavailableE false)
  | _ => unreadable "read media"
  end.

Definition probeMediaReads : acts unit :=
  then! checkMediaAvailable in
  do! opened := ask (OpenMedia media_path) in
  match opened with
  | MediaThere _ =>
      do! info := ask StatOpened in
      match info with
      | MediaThere size => then! read_probe 0 in read_probe (size / 2)
      | _ => unreadable "inspect media"
      end
  | _ => unreadable "open media"
  end.

(** The probe runs in a goroutine of its own; when the timer or the context is
    ready first it is left behind, and what it does then is not seen. *)
Definition checkMediaReadable : acts unit :=
  do! first := ask MediaRace in
  match first with
  | ProbeFinished => probeMediaReads
  | ProbeTimedOut => fail (MediaUnavailableE false)
  | ProbeCanceled e => fail e
  end.

(** *** Rejections *)

Fixpoint look_up (ls : list CandidateRejectionLookup) : acts (option CandidateRejection) :=
  match ls with
  | [] => done None
  | l :: ls =>
      do! r := ask (GetRejection l) in
      do! found := ask_result r in
      match found with Some r => done (Some r) | None => look_up ls end
  end.

Definition candidateRejection (scope : text) (c : Candidate) (checksum : text) : acts (option CandidateRejection) :=
  do! _ := ask ClockNow in look_up (rejection_lookups (identity scope c checksum)).

Definition recordCandidateRejection (scope : text) (c : Candidate) (checksum : text) (failure : WorkflowError)
    : acts bool :=
  let reasonCode := rejectionReasonCode failure in
  if bool_decide (reasonCode = []) then done false
  else
    then! (if bool_decide (reasonCode = t "lapse_nothing") || bool_decide (reasonCode = t "lapse_unsure")
           then checkMediaReadable else done tt) in
    do! now := ask ClockNow in
    do! e := ask (PutRejection (rejection_row sha256_hex json_candidate json_member json_numbering tool q scope c
                                  checksum failure now)) in
    then! ask_error e in done true.

Definition add_failure (failure : WorkflowError) : acts unit := modify (with_failures (fun l => l ++ [failure])).

Definition silent_exit_signature : text := t "exit_2_empty_output@" ++ lapseVersion env.

Definition handleCandidateFailure (scope : text) (c : Candidate) (path : text) (failure : WorkflowError) : acts unit :=
  do! checksum := fileChecksum path in
  if hasProcessExitError failure then
    do! canceled := ask CtxErr in
    match canceled, singleProcessExitError failure with
    | None, Some (2, true, true) =>
        do! now := ask ClockNow in
        do! r := ask (RecordLapseFailure (mkLapseFailure (identity scope c checksum) silent_exit_signature now)) in
        do! confirmed := ask_result r in
        if (confirmed : bool) then done tt else add_failure failure
    | _, _ => add_failure failure
    end
  else
    do! recorded := recordCandidateRejection scope c checksum failure in
    if negb recorded && negb (isMediaValidationRejection failure) then add_failure failure else done tt.

(** Whether this artifact is attempted for the first time in this run. *)
Definition beginCandidatePreparation (scope : text) (c : Candidate) (path : text) : acts bool :=
  do! checksum := fileChecksum path in
  let id := identity scope c checksum in
  let key := (rejection_key id, rejection_file id) in
  do! s := get in
  if bool_decide (key ∈ a_attempted s) then done false
  else then! modify (with_attempted key) in done true.

(** *** Downloads *)

(** [refusedDownload] of a message just made into an error value. *)
Definition refusedDownload (c : Candidate) (m : ProviderResponse) : acts WorkflowError :=
  do! s := get in
  let ref := length (a_responses s) in
  let err := ResponseE ref m in
  then! modify (with_responses (fun l => l ++ [None])) in
  if negb (RsRefusal m) then done err
  else
    do! first := (if RsLimit m then done (Ok None)
                  else
                    do! now := ask ClockNow in
                    do! earlier := ask (WitnessRefusal (ProviderID c) (mkWitness (ResultID c) now (refusalRun env) ref)) in
                    done (match earlier with Some w => Ok (Some w) | None => Err tt end)) in
    match (first : result unit (option refusalWitness)) with
    | Err _ => done err
    | Ok first =>
        do! recorded := ask (RecordRefusal (ProviderID c) (default CooldownDownloadQuota (RsCooldown m))) in
        match recorded with
        | None => done err
        | Some e =>
            if bool_decide (error_as (fun e => match e with CooldownE reset => Some reset | _ => None end) e = None)
            then done AvailabilityE
            else
              then! (match first with
                     | Some w => if rw_run w =? refusalRun env
                                 then modify (with_responses (fun l => <[rw_err w := Some e]> l)) else done tt
                     | None => done tt
                     end) in
              done e
        end
    end.

(** The deferred removal of a download's payload and extracted files, whose
    failure replaces whatever [m] made. *)
Definition with_scratch {A} (payloadPath extractionPath : text) (m : acts A) : acts A :=
  do! r := outcome_of m in
  do! payload := ask (RemoveAll payloadPath) in
  do! extracted := ask (RemoveAll extractionPath) in
  if payload && extracted then match r with Ok a => done a | Err e => stop e end
  else fail (OtherE (t "cleanup candidate scratch")).

(** The [tried] callback on every member it is called for. *)
Fixpoint tried_answers (tried : text -> acts bool) (members : list Member) : acts (list (text * bool)) :=
  match members with
  | [] => done []
  | m :: members =>
      do! b := tried (Checksum m) in
      do! rest := tried_answers tried members in
      done ((Checksum m, b) :: rest)
  end.

Fixpoint answered_by (answers : list (text * bool)) (m : Member) : result SelectError bool :=
  match answers with
  | [] => Err TriedError
  | (checksum, b) :: answers => if bool_decide (checksum = Checksum m) then Ok b else answered_by answers m
  end.

Definition select_error (e : SelectError) : WorkflowError :=
  match e with
  | SelectionError _ rule _ _ _ => SelectionE rule
  | TriedError => OtherE (t "tried")
  end.

Definition ask_selection {A} (r : result SelectError A) : acts A :=
  match r with Ok a => done a | Err e => fail (select_error e) end.

Definition no_member : Member := mkMember [] [] [] 0 0 0 0 0 0 [] false [] [].

Definition with_download_ref (ref : text) (c : Candidate) : Candidate :=
  {| ProviderID := ProviderID c; ResultID := ResultID c; CLanguage := CLanguage c; Kind := Kind c;
     CTitle := CTitle c; CAlternateTitles := CAlternateTitles c; EvidenceVersion := EvidenceVersion c;
     CYear := CYear c; CSeason := CSeason c; CEpisode := CEpisode c; CAbsoluteEpisode := CAbsoluteEpisode c;
     CExternalIDs := CExternalIDs c; ReleaseNames := ReleaseNames c; ReleaseGroups := ReleaseGroups c;
     Resolutions := Resolutions c; ExactHash := ExactHash c; Forced := Forced c;
     HearingImpaired := HearingImpaired c; Rating := Rating c; Popularity := Popularity c;
     DownloadCount := DownloadCount c; DownloadRef := ref; DownloadVersion := DownloadVersion c;
     Pack := Pack c; ReleaseNumbered := ReleaseNumbered c |}.

Definition is_rejected (r : option CandidateRejection) : bool := bool_decide (is_Some r).

(** A version of a pack already rejected for this file. *)
Definition version_rejected (c : Candidate) (checksum : text) : acts bool :=
  do! r := candidateRejection checksum c checksum in done (is_rejected r).

(** The selection by kind of media and archive: the members to time, and whether
    the pack holds more versions. *)
Definition select_members (release : option Media) (c extractionCandidate : Candidate) (manifest : Manifest)
    : acts (list Member * bool) :=
  let selectionMedia := candidateMedia media release c in
  let episode := bool_decide (RefKind (MRef media) = MediaEpisode) in
  if episode && negb (bool_decide (is_Some (Pack c))) && negb (RuntimePack manifest)
     && (length (Members manifest) =? 1)%nat
  then
    do! m := ask_selection (SelectSingleEpisode manifest extractionCandidate selectionMedia false) in
    done ([m], false)
  else if episode then
    do! answers := tried_answers (version_rejected c) (asked_versions manifest extractionCandidate selectionMedia false) in
    do! (members, more) := ask_selection (SelectUntriedAlternatives manifest extractionCandidate selectionMedia false
                                            (Some (answered_by answers))) in
    if bool_decide (SelectionRule (default no_member (head members)) = t "release_episode_token")
       && lapseMaySkip (policy env) c (RuntimePack manifest) (length members)
    then fail (SelectionE (t "release_episode_token"))
    else done (members, more)
  else
    do! members := ask_selection (SelectMovieAlternatives manifest extractionCandidate false) in
    done (match members with [] => [no_member] | _ => members end, false).

(** The publication of a season pack in the cache. *)
Definition publish_pack (c : Candidate) (manifest : Manifest) : acts unit :=
  let cacheable := (if RuntimePack manifest then bool_decide (is_Some (RuntimeCacheSeason manifest))
                    else bool_decide (is_Some (Pack c))) && negb (ReleaseNumbered c) in
  if cacheable && hasPackCache env then
    do! now := ask ClockNow in
    do! e := ask (PutPack manifest (now + packTTL env)) in
    match e with
    | Some e => decide_ [note "pack_cache" c (t "cache normalized pack: " ++ error_text e)]
    | None => done tt
    end
  else done tt.

Definition selected_path (workspace : text) (index n : Z) (m : Member) : text :=
  in_dir workspace (t "selected-" ++ itoa index ++ t "-" ++ itoa n ++ path_ext (NormalizedPath m)).

Fixpoint keep_members (workspace : text) (index n : Z) (members : list Member) : acts (list text) :=
  match members with
  | [] => done []
  | m :: members =>
      let path := selected_path workspace index n m in
      do! ok := ask (RenameFile (NormalizedPath m) path) in
      if negb ok then fail (OtherE (t "rename"))
      else do! rest := keep_members workspace index (n + 1) members in done (path :: rest)
  end.

(** After the payload is on disk and known to be no message. *)
Definition extract_and_select (release : option Media) (c : Candidate) (workspace : text) (index : Z)
    (payloadPath extractionPath filename : text) : acts (list text * bool * bool) :=
  do! stat := ask (StatPayload payloadPath) in
  if negb stat then fail (OtherE (t "stat"))
  else
  do! opened := ask (OpenPayload payloadPath) in
  if negb opened then fail (OtherE (t "open"))
  else
  let extractionCandidate := if bool_decide (filename = []) then c else with_download_ref filename c in
  do! extracted := ask (Extract extractionCandidate payloadPath extractionPath) in
  do! closed := ask ClosePayload in
  do! removed := ask (RemoveFile payloadPath) in
  if negb closed || match removed with Removed => false | _ => true end
  then fail (OtherE (t "release downloaded payload"))
  else
  do! manifest := ask_result extracted in
  match checkPlaceholderMembers manifest with
  | Some m => do! e := refusedDownload c m in fail e
  | None =>
      if ReleaseNumbered c && syncDisabled (policy env) && negb (ExactHash c)
      then fail (SelectionE (t "release_numbered"))
      else
        do! (members, more) := select_members release c extractionCandidate manifest in
        then! publish_pack c manifest in
        do! selected := keep_members workspace index 0 members in
        done (selected, RuntimePack manifest, more)
  end.

Definition downloadAndSelectMembers (release : option Media) (c : Candidate) (workspace : text) (index : Z)
    : acts (list text * bool * bool) :=
  if negb (bool_decide (ProviderID c ∈ adapters env)) then fail (OtherE (t "provider is not available for download"))
  else
  do! unavailable := ask (CheckDownload (ProviderID c)) in
  then! ask_error unavailable in
  let payloadPath := in_dir workspace (t "download-" ++ itoa index) in
  do! created := ask (CreatePayload payloadPath) in
  if negb created then fail (OtherE (t "create payload"))
  else
  let extractionPath := in_dir workspace (t "extracted-" ++ itoa index) in
  with_scratch payloadPath extractionPath (
    do! d := ask (Download c) in
    let '(w, payload) := bounded_writes (mkBounded maxCompressed false false) (da_writes d) in
    do! synced := ask SyncPayload in
    do! closed := ask ClosePayload in
    if writeErr w || negb synced || negb closed then fail (OtherE (t "write or flush provider download"))
    else if exceeded w then fail ContentE
    else
    then! ask_error (da_error d) in
    do! readable := ask (ReadPayload payloadPath) in
    if negb readable then fail (OtherE (t "read provider download"))
    else
    match checkProviderResponse json_parse html_unescape media_type payload (da_content_type d) with
    | Some m => do! e := refusedDownload c m in fail e
    | None => extract_and_select release c workspace index payloadPath extractionPath (da_filename d)
    end).

Definition downloadAndSelect (c : Candidate) (workspace : text) (index : Z) : acts (text * bool) :=
  do! (paths, runtimePack, _) := downloadAndSelectMembers None c workspace index in
  done (default [] (head paths), runtimePack).

(** *** Preparation *)

(** An unreadable file is left to the installer. *)
Definition checkSubtitleLanguage (path : text) : acts unit :=
  do! payload := ask (ReadArtifact path) in
  match payload with
  | None => done tt
  | Some payload =>
      if maximumInstallBytes <? Z.of_nat (length payload) then done tt
      else match LangCheck.Check (QLanguage q) (utf8_decode payload) with
           | Some _ => fail (SubtitleE (t "language_mismatch"))
           | None => done tt
           end
  end.

Definition checkRangeCoverage (path : text) : acts unit :=
  if negb (IsEpisodeRange media) || (MDuration media <=? 0) then done tt
  else
    do! payload := ask (ReadArtifact path) in
    match payload with
    | None => done tt
    | Some payload =>
        match parseSubtitlePayload parse_srt parse_ssa parse_vtt path payload with
        | Some (Some items) =>
            match rangeCoverageError (fold_left Z.max (EndAt <$> items) 0) media with
            | Ok _ => done tt
            | Err _ => fail (SubtitleE (t "partial_coverage"))
            end
        | _ => done tt
        end
    end.

(** The score and upgrade checks [prepareCandidate] repeats. *)
Definition preparation_refused (item : downloadedCandidate) (installed : bool) (existing : Installation)
    : option WorkflowError :=
  let c := dl_candidate item in
  if negb (Eligible (dl_score item) (minimumScore env)) then Some (OtherE (t "candidate score is below threshold"))
  else if negb installed then None
  else if sameInstalledCandidate existing media c then Some (OtherE (t "provider candidate is already installed"))
  else match shouldUpgrade (service env) existing media c (dl_score item) with
       | Err e => Some e
       | Ok true => None
       | Ok false => Some (OtherE (t "candidate does not satisfy upgrade policy"))
       end.

Definition output_path (workspace : text) (index : Z) (path : text) : text :=
  in_dir workspace (t "synchronized-" ++ itoa index ++ to_lower (path_ext path)).

(** The deferred removal of a failed output. *)
Definition with_output {A} (workspace output : text) (m : acts A) : acts A :=
  do! r := outcome_of m in
  match r with
  | Ok a => done a
  | Err e =>
      do! removed := outcome_of (removeWorkflowArtifact workspace output) in
      match removed with Ok _ => stop e | Err _ => fail (OtherE (t "cleanup synchronized scratch")) end
  end.

Definition timed_out (e : WorkflowError) : bool :=
  bool_decide (is_Some (error_as (fun e => match e with TimeoutE => Some tt | _ => None end) e)).

(** The run of LAPSE. *)
Definition synchronize (item : downloadedCandidate) (output : text) : acts SyncResult :=
  do! s := get in
  match a_latch s with
  | Some e => fail e
  | None =>
      do! r := ask (Synchronize (dl_candidate item) media_path (dl_path item) output) in
      match r with
      | Err e => then! (if timed_out e then modify (with_latch TimeoutE) else done tt) in fail e
      | Ok sync => if bool_decide (Verdict sync = t "solid") then done sync
                   else fail (OtherE (t "LAPSE synchronization was not solid"))
      end
  end.

(** Which result a candidate is installed with unless LAPSE times it. *)
Definition bypass_of (item : downloadedCandidate) (installed : bool) : option SyncResult :=
  let c := dl_candidate item in
  if ExactHash c then Some exact_hash_sync
  else if syncDisabled (policy env) then Some sync_disabled_sync
  else if negb (dl_runtimePack item) && bool_decide (dl_scope item = []) && negb (ReleaseNumbered c)
          && canBypassLapse media c (dl_score item) installed (normalized (policy env))
  then Some score_bypass_sync else None.

Definition prepareCandidate (item : downloadedCandidate) (installed : bool) (existing : Installation)
    (workspace : text) (index : Z) : acts preparedCandidate :=
  match preparation_refused item installed existing with
  | Some e => fail e
  | None =>
      then! checkSubtitleLanguage (dl_path item) in
      then! (if ExactHash (dl_candidate item) then done tt else checkRangeCoverage (dl_path item)) in
      match bypass_of item installed with
      | Some sync => done (mkPrepared false item sync (dl_path item) true)
      | None =>
          let output := output_path workspace index (dl_path item) in
          do! sync := with_output workspace output (synchronize item output) in
          done (mkPrepared false item sync output false)
      end
  end.

(** *** The versions of one archive *)

Definition ambiguous_versions : text := t "multiple episode versions cannot be ranked when synchronization is disabled".

Fixpoint remove_artifacts (workspace : text) (paths : list text) : acts unit :=
  match paths with
  | [] => done tt
  | path :: paths => then! removeWorkflowArtifact workspace path in remove_artifacts workspace paths
  end.

(** A version, or the one member, after its checks: how it came out. *)
Inductive member_outcome := MemberReady (p : preparedCandidate) | MemberRejected | MemberFailed (rejected : bool) | MemberRepeated.

(** What happens to a member whose preparation failed. *)
Definition member_failed (item : downloadedCandidate) (scope path workspace : text) (e : WorkflowError)
    : acts member_outcome :=
  let c := dl_candidate item in
  then! checkMediaAvailable in
  then! (if fromCache item then decide_ [note "pack_cache" c (lapseFailureDecision e)] else done tt) in
  then! decide_ [note "lapse_prepare" c (lapseFailureDecision e)] in
  then! handleCandidateFailure scope c path e in
  do! checksum := fileChecksum path in
  do! r := candidateRejection scope c checksum in
  then! removeWorkflowArtifact workspace path in
  done (MemberFailed (is_rejected r)).

Definition with_member (item : downloadedCandidate) (path : text) (version : option (text * Z * Z)) : downloadedCandidate :=
  match version with
  | Some (checksum, n, count) =>
      mkDownloaded n count (moreVersions item) (fromCache item) checksum true (dl_candidate item) (dl_score item)
        (dl_priority item) path
  | None =>
      mkDownloaded (memberIndex item) (memberCount item) (moreVersions item) (fromCache item) (dl_scope item)
        (dl_runtimePack item) (dl_candidate item) (dl_score item) (dl_priority item) path
  end.

(** The part of the loop body after the rejection lookup. *)
Definition attempt_member (item : downloadedCandidate) (scope path : text) (installed : bool)
    (existing : Installation) (workspace : text) (index : Z) : acts member_outcome :=
  let c := dl_candidate item in
  do! first := beginCandidatePreparation scope c path in
  if negb first then then! removeWorkflowArtifact workspace path in done MemberRepeated
  else
    do! r := caught (prepareCandidate item installed existing workspace index) in
    then! check_context in
    match r with
    | Err e => member_failed item scope path workspace e
    | Ok p => then! (if pr_bypass p then done tt else decide_ [note "lapse_prepare" c (t "solid")]) in
              done (MemberReady p)
    end.

Definition prepare_member (item : downloadedCandidate) (path : text) (variants : bool) (n count : Z)
    (installed : bool) (existing : Installation) (workspace : text) (index : Z) : acts member_outcome :=
  then! check_context in
  then! checkMediaAvailable in
  if variants then
    do! checksum := fileChecksum path in
    do! rejection := candidateRejection checksum (dl_candidate item) checksum in
    match rejection with
    | Some r =>
        then! decide_ [note "candidate_rejection" (dl_candidate item) (RjReasonCode r)] in
        then! removeWorkflowArtifact workspace path in done MemberRejected
    | None => attempt_member (with_member item path (Some (checksum, n + 1, count))) checksum path installed existing workspace (index + n)
    end
  else attempt_member (with_member item path None) [] path installed existing workspace (index + n).

(** The loop: the prepared members, whether all were rejected and whether the
    group may be. *)
Fixpoint prepare_loop (item : downloadedCandidate) (variants : bool) (n count : Z) (paths : list text)
    (installed : bool) (existing : Installation) (workspace : text) (index : Z)
    (ready : list preparedCandidate) (allRejected groupMayReject : bool)
    : acts (list preparedCandidate * bool * bool) :=
  match paths with
  | [] => done (ready, allRejected, groupMayReject)
  | path :: paths =>
      do! o := prepare_member item path variants n count installed existing workspace index in
      let '(ready, allRejected, groupMayReject) :=
        match o with
        | MemberReady p => (ready ++ [p], false, groupMayReject)
        | MemberRejected => (ready, allRejected, groupMayReject)
        | MemberFailed rejected => (ready, allRejected && rejected, groupMayReject && rejected)
        | MemberRepeated => (ready, false, false)
        end in
      prepare_loop item variants (n + 1) count paths installed existing workspace index ready allRejected groupMayReject
  end.

Definition with_group (mayReject : bool) (p : preparedCandidate) : preparedCandidate :=
  mkPrepared mayReject (pr_item p) (pr_sync p) (pr_output p) (pr_bypass p).

Definition prepareMembers (item : downloadedCandidate) (paths : list text) (installed : bool)
    (existing : Installation) (workspace : text) (index : Z) : acts (list preparedCandidate) :=
  if (1 <? length paths)%nat && syncDisabled (policy env) then
    do! _ := recordCandidateRejection [] (dl_candidate item) [] (SelectionE (t "versions_ambiguous_without_sync")) in
    then! decide_ [note "pack_selection" (dl_candidate item) ambiguous_versions] in
    then! remove_artifacts workspace paths in done []
  else
    let variants := (1 <? length paths)%nat || negb (bool_decide (dl_scope item = [])) in
    do! (ready, allRejected, groupMayReject) :=
      prepare_loop item variants 0 (Z.of_nat (length paths)) paths installed existing workspace index [] true true in
    then! (if variants && allRejected && negb (moreVersions item)
           then do! _ := recordCandidateRejection [] (dl_candidate item) [] (SelectionE (t "versions_exhausted")) in done tt
           else done tt) in
    done (with_group groupMayReject <$> ready).

(** [rejectExhaustedVersions]: the map of groups is read in its random order,
    here the order of their first members. *)
Definition group_key (p : preparedCandidate) : text * text :=
  (ProviderID (dl_candidate (pr_item p)), ResultID (dl_candidate (pr_item p))).

Definition scoped (p : preparedCandidate) : bool := negb (bool_decide (dl_scope (pr_item p) = [])).

Fixpoint all_versions_rejected (group : list preparedCandidate) : acts bool :=
  match group with
  | [] => done true
  | p :: group =>
      if negb (groupMayReject p) then done false
      else
        let scope := dl_scope (pr_item p) in
        do! r := candidateRejection scope (dl_candidate (pr_item p)) scope in
        if is_rejected r then all_versions_rejected group else done false
  end.

Definition reject_group (group : list preparedCandidate) : acts unit :=
  match group with
  | [] => done tt
  | first :: _ =>
      do! all := all_versions_rejected group in
      if negb (moreVersions (pr_item first)) && all then
        do! _ := recordCandidateRejection [] (dl_candidate (pr_item first)) [] (SelectionE (t "versions_exhausted")) in
        done tt
      else done tt
  end.

Definition version_groups (items : list preparedCandidate) : list (list preparedCandidate) :=
  let items := filter (fun p => scoped p = true) items in
  (fun key => filter (fun p => group_key p = key) items) <$> remove_dups (group_key <$> items).

Definition rejectExhaustedVersions (items : list preparedCandidate) : acts unit := each reject_group (version_groups items).
End request.
