(* ===== verification/CachedPacks.v ===== *)
(** * The pack cache lookup (src/internal/pack/cache.go, src/internal/workflow/cache_rejections.go)

    [FindEligible] looks through the cached season packs of a series for a
    member of the wanted episode, with the workflow's callbacks that accept a
    member, tell whether it was rejected and record an exhausted pack. Entries
    whose files are gone or changed are deleted on the way.

    Publication ([Put]) and eviction are not modelled. *)
From S2P Require Import Prelude GoText Paths Domain MatchRelease MatchScore PackSelect PackVersions SearchQueue Workflow Coordinator ProviderTiers Rejections Calls Candidates.

#[local] Open Scope Z_scope.

Section cache.
Context `{Unicode} `{NameParser} `{LanguageTags}.
Context (sha256_hex : list N -> text) (json_candidate : Candidate -> list N) (json_member : PackMemberRef -> list N)
        (json_numbering : NumberingEvidence -> list N) (json_policy : LapsePolicy -> list N).
(** [json.Unmarshal] of a manifest file, the working directory, the root of the
    cache. *)
Context (decode_manifest : list N -> option Manifest) (cwd cacheRoot : text).
Context (error_text : WorkflowError -> text).
Context (env : Acquisition) (q : Request).

Abbreviation candidate_rejection :=
  (candidateRejection sha256_hex json_candidate json_member json_numbering json_policy env q).
Abbreviation record_rejection :=
  (recordCandidateRejection sha256_hex json_candidate json_member json_numbering json_policy env q).

(** ** Paths of the cache *)

Definition hex_digit (r : rune) : bool := ascii_digit r || between 97 102 r || between 65 70 r.

Definition ensureWithinRoot (path : text) : bool :=
  match path_rel cacheRoot (path_abs cwd path) with
  | None => false
  | Some relative => negb (bool_decide (relative = t "..")) && negb (has_prefix (t "../") relative)
                     && negb (bool_decide (relative = t "."))
  end.

(** The directory of a content-addressed path. *)
Definition cacheDirectory (path : text) : option text :=
  if negb (ensureWithinRoot path) then None
  else match split_rune slash (default [] (path_rel cacheRoot (path_abs cwd path))) with
       | [directory; _] => if (length directory =? 64)%nat && forallb hex_digit directory
                           then Some (in_dir cacheRoot directory) else None
       | _ => None
       end.

(** Why a cached path cannot be used. *)
Inductive path_answer := PathOk | PathMissing | PathBad.

Fixpoint secure_components (current : text) (components : list text) : acts path_answer :=
  match components with
  | [] => done PathOk
  | component :: components =>
      let current := in_dir current component in
      do! r := ask (LstatCache current) in
      match r with
      | LsMissing => done PathMissing
      | LsFailed | LsSymlink => done PathBad
      | _ => secure_components current components
      end
  end.

Definition secureRegularPath (path : text) : acts path_answer :=
  match cacheDirectory path with
  | None => done PathBad
  | Some _ =>
      do! r := secure_components cacheRoot (split_rune slash (default [] (path_rel cacheRoot path))) in
      match r with
      | PathOk =>
          do! r := ask (LstatCache path) in
          match r with
          | LsMissing => done PathMissing
          | LsRegular => done PathOk
          | _ => done PathBad
          end
      | _ => done r
      end
  end.

Definition cache_failed {A} : acts A := fail (OtherE (t "pack cache")).

Definition invalidateEntry (e : PackCacheEntry) : acts unit :=
  match cacheDirectory (EntManifestPath e) with
  | None => cache_failed
  | Some directory =>
      do! deleted := ask (DeletePack (EntID e)) in
      then! ask_error deleted in
      do! removed := ask (RemoveAll directory) in
      if (removed : bool) then done tt else cache_failed
  end.

(** ** The lookup *)

(** The lookup ends early with its own error, or with that of a callback. *)
Inductive cache_stop := CacheFailed (e : WorkflowError) | CallbackFailed (e : WorkflowError).

Abbreviation cacts := (act answer acquiring cache_stop).

Definition stop_error (s : stopped) : WorkflowError :=
  match s with Failed e => e | Returned => OtherE [] end.
Definition in_cache {A} : acts A -> cacts A := map_stop (fun s => CacheFailed (stop_error s)).
Definition in_callback {A} : acts A -> cacts A := map_stop (fun s => CallbackFailed (stop_error s)).

(** [Accept]: [cacheCandidateAllowed]. *)
Definition cacheCandidateAllowed (c : Candidate) : bool :=
  cacheProviderAllowed (service env) (ProviderID c) && canReuse env c.

(** [Rejected], which also notes the rejection. *)
Definition rejected_callback (scoped : bool) (c : Candidate) (checksum : text) : cacts bool :=
  in_callback (
    do! r := candidate_rejection (if scoped then checksum else []) c checksum in
    match r with
    | Some r => then! decide_ [note "candidate_rejection" c (RjReasonCode r)] in done true
    | None => done false
    end).

(** [Exhausted]. *)
Definition exhausted_callback (c : Candidate) : cacts unit :=
  in_callback (do! _ := record_rejection [] c [] (SelectionE (t "versions_exhausted")) in done tt).

(** Versions already asked about, by checksum. *)
Fixpoint remembered (memo : list (text * bool)) (checksum : text) : option bool :=
  match memo with
  | [] => None
  | (known, b) :: memo => if bool_decide (known = checksum) then Some b else remembered memo checksum
  end.

Definition ask_rejected (memo : list (text * bool)) (scoped : bool) (c : Candidate) (checksum : text)
    : cacts (bool * list (text * bool)) :=
  match remembered memo checksum with
  | Some b => done (b, memo)
  | None =>
      do! b := rejected_callback scoped c checksum in
      done (b, (checksum, b) :: memo)
  end.

Fixpoint ask_versions (memo : list (text * bool)) (c : Candidate) (members : list Member) : cacts (list (text * bool)) :=
  match members with
  | [] => done memo
  | m :: members =>
      do! (_, memo) := ask_rejected memo true c (Checksum m) in ask_versions memo c members
  end.

Definition by_memo (memo : list (text * bool)) (m : Member) : result SelectError bool :=
  match remembered memo (Checksum m) with Some b => Ok b | None => Err TriedError end.

Inductive entry_outcome :=
| EntryFound (m : CachedMember) (alternatives : list CachedMember)
| EntrySkipped
| EntryUnselected (e : SelectError).

Definition drop_entry (e : PackCacheEntry) : cacts entry_outcome :=
  then! in_cache (invalidateEntry e) in done EntrySkipped.

Definition cached_member (manifest : Manifest) (scoped more : bool) (m : Member) : CachedMember :=
  mkCached scoped more (RuntimePack manifest) (NormalizedPath m) (Checksum m) (ManCandidate manifest).

(** The loop over the selected members: [None] when one's file is gone or
    changed, else the accepted ones, how many were rejected and the first of
    them. *)
Fixpoint check_members (manifest : Manifest) (scoped more : bool) (memo : list (text * bool)) (members : list Member)
    (accepted : list CachedMember) (rejected : Z) (first : option CachedMember)
    : cacts (option (list CachedMember * Z * option CachedMember)) :=
  match members with
  | [] => done (Some (accepted, rejected, first))
  | m :: members =>
      do! path := in_cache (secureRegularPath (NormalizedPath m)) in
      match path with
      | PathOk =>
          do! payload := (ask (ReadCache (NormalizedPath m)) : cacts (option (list N))) in
          if negb (bool_decide (sha256_hex <$> payload = Some (Checksum m))) then done None
          else
            let cached := cached_member manifest scoped more m in
            if negb (cacheCandidateAllowed (CmCandidate cached))
            then check_members manifest scoped more memo members accepted rejected first
            else
              do! (b, memo) := ask_rejected memo scoped (CmCandidate cached) (CmChecksum cached) in
              if (b : bool)
              then check_members manifest scoped more memo members accepted (rejected + 1)
                     (if rejected =? 0 then Some cached else first)
              else check_members manifest scoped more memo members (accepted ++ [cached]) rejected first
      | _ => done None
      end
  end.

(** A manifest that still belongs to its entry. *)
Definition read_manifest (e : PackCacheEntry) (payload : list N) : option Manifest :=
  m ← decode_manifest payload;
  if bool_decide (ManProviderID m = EntProviderID e) && bool_decide (ManResultID m = EntResultID e)
     && bool_decide (ManLanguage m = EntLanguage e) && bool_decide (ManChecksum m = EntContentChecksum e)
  then Some (mkManifest (RuntimePack m || IsRuntimePack m) (ManProviderID m) (ManResultID m) (ManLanguage m)
               (ManChecksum m) (ArchiveType m) (ManCandidate m) (Members m) (SkippedMembers m))
  else None.

Definition season_mismatch (e : PackCacheEntry) (manifest : Manifest) : bool :=
  RuntimePack manifest
  && match RuntimeCacheSeason manifest with
     | Some season => negb (season =? MSeason (QMedia q)) || negb (season =? EntSeason e)
     | None => true
     end.

(** The strict selection; a release-name match is made only from a fresh
    download. *)
Definition select_cached (manifest : Manifest) (memo : list (text * bool)) : result SelectError (list Member * bool) :=
  let! (members, more) := SelectUntriedAlternatives manifest (ManCandidate manifest) (QMedia q) false (Some (by_memo memo)) in
  if bool_decide (SelectionRule (default no_member (head members)) = t "release_episode_token")
  then Err (selectionError manifest (t "none") 0 (t "no unique member identifies the target episode"))
  else Ok (members, more).

Definition use_members (e : PackCacheEntry) (now : instant) (members : list Member) (more : bool)
    (checked : list CachedMember * Z * option CachedMember) : cacts entry_outcome :=
  let '(accepted, rejected, first) := checked in
  match accepted with
  | [] =>
      match first with
      | Some m =>
          if (1 <? length members)%nat && negb more && (rejected =? Z.of_nat (length members))
          then then! exhausted_callback (CmCandidate m) in done EntrySkipped
          else done EntrySkipped
      | None => done EntrySkipped
      end
  | cached :: alternatives =>
      do! touched := ask (TouchPack (EntID e) now) in
      match touched with
      | Some e => stop (CacheFailed e)
      | None => done (EntryFound cached alternatives)
      end
  end.

Definition try_entry (now : instant) (e : PackCacheEntry) : cacts entry_outcome :=
  do! path := in_cache (secureRegularPath (EntManifestPath e)) in
  match path with
  | PathBad => in_cache cache_failed
  | PathMissing => drop_entry e
  | PathOk =>
      do! payload := ask (ReadCache (EntManifestPath e)) in
      match payload ≫= read_manifest e with
      | None => drop_entry e
      | Some manifest =>
          if season_mismatch e manifest then done EntrySkipped
          else
            do! memo := ask_versions [] (ManCandidate manifest)
                          (asked_versions manifest (ManCandidate manifest) (QMedia q) false) in
            match select_cached manifest memo with
            | Err err => done (EntryUnselected err)
            | Ok (members, more) =>
                do! checked := check_members manifest (1 <? length members)%nat more memo members [] 0 None in
                match checked with
                | None => drop_entry e
                | Some checked => use_members e now members more checked
                end
            end
      end
  end.

Fixpoint try_entries (now : instant) (entries : list PackCacheEntry) (failed : option SelectError)
    : cacts (option (CachedMember * list CachedMember)) :=
  match entries with
  | [] => match failed with Some e => stop (CacheFailed (select_error e)) | None => done None end
  | e :: entries =>
      do! o := try_entry now e in
      match o with
      | EntryFound m alternatives => done (Some (m, alternatives))
      | EntrySkipped => try_entries now entries failed
      | EntryUnselected err => try_entries now entries (Some err)
      end
  end.

Definition FindEligible : cacts (option (CachedMember * list CachedMember)) :=
  do! now := ask ClockNow in
  do! listed := ask (ListReusablePacks (QMedia q) (QLanguage q) now) in
  match listed with
  | Err e => stop (CacheFailed e)
  | Ok entries => try_entries now entries None
  end.

(** An error of a callback ends the run, one of the cache itself does not. *)
Definition findUnrejectedPack : acts (result WorkflowError (option (CachedMember * list CachedMember))) :=
  fun s => pbind (fun r => match r.2 with
    | Ok found => Ret (r.1, Ok (Ok found))
    | Err (CacheFailed e) => Ret (r.1, Ok (Err e))
    | Err (CallbackFailed e) => Ret (r.1, Err (Failed e))
    end) (FindEligible s).

Definition evaluate_candidate (m : Media) (c : Candidate) (language : Language) : Score :=
  let score := Evaluate m c language in
  if HearingImpaired c && negb (AllowHearingImpaired env)
  then mkScore (Total score) (Contributions score)
         (RejectedReasons score ++ [t "hearing-impaired candidate is disabled by policy"])
  else score.

Definition evaluateCachedMember (m : CachedMember) : Score :=
  if negb (CmRuntimePack m) then evaluate_candidate (QMedia q) (CmCandidate m) (QLanguage q)
  else
    let score := EvaluateSelectedPackMember (QMedia q) (CmCandidate m) (QLanguage q) in
    if HearingImpaired (CmCandidate m) && negb (AllowHearingImpaired env)
    then mkScore (Total score) (Contributions score)
           (RejectedReasons score ++ [t "hearing-impaired candidate is disabled by policy"])
    else score.
End cache.
