(* ===== verification/Acquire.v ===== *)
(** * Acquiring a subtitle (src/internal/workflow/service.go, acquisition.go)

    One provider tier of a search: the cached packs, the exact-hash results,
    the broad results and their tournament by score, up to the call of the
    installer, as programs of Calls.v over the state of Candidates.v.

    The result and the candidate failures are the state's; a run that ends
    [Returned] is Go's [return result, nil], [Failed e] is [return result, e].
    Log events are left out, and maps read in random order are read in the
    order of their keys where the order cannot matter. *)
From S2P Require Import ProviderGate Prelude GoText GoFloat Paths Domain MatchRelease MatchScore PackEvidence PackSelect PackVersions SearchQueue Schedule Outbox InstallStore Disk Install Workflow Coordinator ProviderTiers Rejections Refusals LangCheck ReleaseNumbering Inventory Calls Candidates CachedPacks.

#[local] Open Scope Z_scope.

(** ** Results *)

Definition with_found (c : Candidate) (score : Score) (installation : Installation) (next : instant) (r : Result) : Result :=
  {| ROutcome := ROutcome r; RCandidate := c; RScore := score; RInstallation := installation;
     RRetryAt := RRetryAt r; RNextUpgrade := next; RDecisions := RDecisions r;
     RProviderErrors := RProviderErrors r; RResumeProviders := RResumeProviders r;
     RResumeRouteSignature := RResumeRouteSignature r; RRemovedAfter := RRemovedAfter r;
     RRemovalDeferred := RRemovalDeferred r; RcleanEmptyProviders := RcleanEmptyProviders r;
     RupgradeRecovery := RupgradeRecovery r; RretainedInstallation := RretainedInstallation r |}.

Definition with_errors (f : gmap text WorkflowError -> gmap text WorkflowError) (r : Result) : Result :=
  with_clean (RcleanEmptyProviders r) (RDecisions r) (f (RProviderErrors r)) r.

Definition with_only_outcome (outcome : WorkflowOutcome) (r : Result) : Result := with_outcome outcome (RRetryAt r) r.

Definition with_installation (i : Installation) (r : Result) : Result :=
  with_found (RCandidate r) (RScore r) i (RNextUpgrade r) r.

Definition set_outcome (outcome : WorkflowOutcome) : acts unit := modify (with_result (with_only_outcome outcome)).

(** [return result, nil] *)
Definition finish {A} : acts A := stop Returned.
Definition finish_with {A} (f : Result -> Result) : acts A := then! modify (with_result f) in finish.

Definition get_result : acts Result := do! s := get in done (a_result s).

(** The error values of confirmed refusals wrap the cooldown they recorded. *)
Definition settled (responses : list (option WorkflowError)) (e : WorkflowError) : WorkflowError :=
  match e with
  | ResponseE ref _ => match responses !! ref with Some (Some cooldown) => WrapE cooldown | _ => e end
  | _ => e
  end.

(** [if classified, failureErr, found := classifyCandidateFailures(...); found
    { return classified, failureErr }] *)
Definition classify_failures : acts unit :=
  do! s := get in
  match classifyCandidateFailures (a_result s) (settled (a_responses s) <$> a_failures s) with
  | None => done tt
  | Some (r, None) => finish_with (fun _ => r)
  | Some (_, Some e) => fail e
  end.

Definition availability_failure (e : WorkflowError) : bool :=
  bool_decide (is_Some (error_as (fun e => match e with AvailabilityE => Some tt | _ => None end) e)).
Definition persistence_failure (e : WorkflowError) : bool :=
  bool_decide (is_Some (error_as (fun e => match e with SearchPersistenceE => Some tt | _ => None end) e)).

Definition searchPersistenceFailure (failures : gmap text WorkflowError) : option WorkflowError :=
  match filter (fun e => persistence_failure e || availability_failure e = true) (map_to_list failures).*2 with
  | [] => None
  | found => Some (JoinE found)
  end.

Definition allProvidersUnavailable (failures : gmap text WorkflowError) (expected : Z) : option instant :=
  let n := Z.of_nat (size failures) in
  if (n =? 0) || ((0 <? expected) && (n <? expected)) then None
  else unavailableErrors (map_to_list failures).*2.

(** The earliest known reset of a failed provider. *)
Definition earliest_retry (failures : list WorkflowError) : instant :=
  fold_left (fun earliest failure =>
    match unavailableReset failure with
    | Some reset => if negb (is_zero reset) && (is_zero earliest || (reset <? earliest)) then reset else earliest
    | None => earliest
    end) failures zero_time.

Definition skippedProviderRetry (failures : gmap text WorkflowError) (installed : bool) : option instant :=
  if installed then None
  else
    let earliest := earliest_retry (map_to_list failures).*2 in
    if is_zero earliest then None else Some earliest.

(** ** Records of candidates *)

Definition credentialFreeResultID (value : text) : text := (cut 35 (cut 63 value).1.1).1.1.

Definition with_identity_only (result : text) (pack : option PackInfo) (c : Candidate) : Candidate :=
  {| ProviderID := ProviderID c; ResultID := result; CLanguage := CLanguage c; Kind := Kind c;
     CTitle := CTitle c; CAlternateTitles := CAlternateTitles c; EvidenceVersion := EvidenceVersion c;
     CYear := CYear c; CSeason := CSeason c; CEpisode := CEpisode c; CAbsoluteEpisode := CAbsoluteEpisode c;
     CExternalIDs := CExternalIDs c; ReleaseNames := ReleaseNames c; ReleaseGroups := ReleaseGroups c;
     Resolutions := Resolutions c; ExactHash := ExactHash c; Forced := Forced c;
     HearingImpaired := HearingImpaired c; Rating := Rating c; Popularity := Popularity c;
     DownloadCount := DownloadCount c; DownloadRef := []; DownloadVersion := DownloadVersion c;
     Pack := pack; ReleaseNumbered := ReleaseNumbered c |}.

(** The first record of each identity. *)
Fixpoint merge_records (seen : list (text * text)) (records : list CandidateRecord) : list CandidateRecord :=
  match records with
  | [] => []
  | r :: records =>
      let key := (RecProviderID r, RecResultID r) in
      if bool_decide (key ∈ seen) then merge_records seen records else r :: merge_records (key :: seen) records
  end.

Definition mergeCandidateRecords (existing additional : list CandidateRecord) : list CandidateRecord :=
  merge_records [] (existing ++ additional).

(** ** Order of prepared candidates *)

Definition earlyAcceptConfidence : float64 := round (9 # 10).

Definition excellent (p : preparedCandidate) : bool :=
  let sync := pr_sync p in
  bool_decide (Verdict sync = t "solid") && negb (flt (Confidence sync) earlyAcceptConfidence)
  && negb (flt (Agreement sync) 1) && negb (flt (Coverage sync) 1).

Definition excellentSync (prepared : list preparedCandidate) : option preparedCandidate := List.find excellent prepared.

Definition prepared_less (a b : preparedCandidate) : bool :=
  let ca := dl_candidate (pr_item a) in
  let cb := dl_candidate (pr_item b) in
  if negb (feq (Confidence (pr_sync a)) (Confidence (pr_sync b)))
  then flt (Confidence (pr_sync b)) (Confidence (pr_sync a))
  else if negb (dl_priority (pr_item a) =? dl_priority (pr_item b)) then dl_priority (pr_item a) <? dl_priority (pr_item b)
  else if negb (feq (Rating ca) (Rating cb)) then flt (Rating cb) (Rating ca)
  else if negb (bool_decide (ProviderID ca = ProviderID cb)) then text_lt (ProviderID ca) (ProviderID cb)
  else text_lt (ResultID ca) (ResultID cb).

Definition sortPrepared (prepared : list preparedCandidate) : list preparedCandidate := stable_sort prepared_less prepared.

(** The last index of each provider in the order. *)
Definition priority_of (order : list text) (id : text) : Z :=
  fold_left (fun found '(i, id') => if bool_decide (id' = id) then i else found)
    (zip (seqZ 0 (Z.of_nat (length order))) order) (Z.of_nat (length order)).

Section acquire.
Context `{Unicode} `{NameParser} `{LanguageTags}.
(** As in Candidates.v and CachedPacks.v, and the JSON encoding of a
    synchronization result. *)
Context (sha256_hex : list N -> text) (json_candidate : Candidate -> list N) (json_member : PackMemberRef -> list N)
        (json_numbering : NumberingEvidence -> list N) (json_policy : LapsePolicy -> list N)
        (json_sync : SyncResult -> text).
Context (json_parse : list N -> option json) (html_unescape : text -> text) (media_type : text -> text).
Context (parse_srt parse_ssa parse_vtt : text -> option (list cue)).
Context (decode_manifest : list N -> option Manifest) (cwd cacheRoot : text).
(** The text of an error, and [fmt]'s [%.3f]. *)
Context (error_text : WorkflowError -> text) (format_3f : float64 -> text).
Context (env : Acquisition) (q : Request).

Abbreviation media := (media q).
Abbreviation identity := (identity sha256_hex json_candidate json_member json_numbering json_policy env q).
Abbreviation file_checksum := (fileChecksum sha256_hex).
Abbreviation check_media := (checkMediaAvailable q).
Abbreviation candidate_rejection :=
  (candidateRejection sha256_hex json_candidate json_member json_numbering json_policy env q).
Abbreviation record_rejection :=
  (recordCandidateRejection sha256_hex json_candidate json_member json_numbering json_policy env q).
Abbreviation handle_failure :=
  (handleCandidateFailure sha256_hex json_candidate json_member json_numbering json_policy env q).
Abbreviation begin_preparation :=
  (beginCandidatePreparation sha256_hex json_candidate json_member json_numbering json_policy env q).
Abbreviation download_members :=
  (downloadAndSelectMembers sha256_hex json_candidate json_member json_numbering json_policy json_parse html_unescape
     media_type error_text env q).
Abbreviation download_one :=
  (downloadAndSelect sha256_hex json_candidate json_member json_numbering json_policy json_parse html_unescape
     media_type error_text env q).
Abbreviation prepare_candidate := (prepareCandidate parse_srt parse_ssa parse_vtt env q).
Abbreviation prepare_members :=
  (prepareMembers sha256_hex json_candidate json_member json_numbering json_policy parse_srt parse_ssa parse_vtt env q).
Abbreviation reject_exhausted :=
  (rejectExhaustedVersions sha256_hex json_candidate json_member json_numbering json_policy env q).
Abbreviation find_pack :=
  (findUnrejectedPack sha256_hex json_candidate json_member json_numbering json_policy decode_manifest cwd cacheRoot
     env q).
Abbreviation evaluate := (evaluate_candidate env).
Abbreviation eligible := (fun score => Eligible score (minimumScore env)).

Definition subtitleDestination (mediaPath : text) (language : Language) (sourcePath : text) : text :=
  trim_suffix (path_ext mediaPath) mediaPath ++ t "." ++ language ++ to_lower (path_ext sourcePath).

Definition candidateRecord (c : Candidate) (score : Score) (eligible : bool) : CandidateRecord :=
  let result := credentialFreeResultID (ResultID c) in
  mkRecord (ProviderID c) result (with_identity_only result (safe_pack json_member <$> Pack c) c) score eligible.

(** ** Installation *)

Definition syncedOutputFailure (e : WorkflowError) (p : preparedCandidate) : WorkflowError :=
  match e with
  | SubtitleE code =>
      if pr_bypass p then e
      else if bool_decide (code = []) then SubtitleE (t "lapse_invalid_output")
      else if bool_decide (code = t "partial_coverage") then SubtitleE (t "lapse_partial_coverage")
      else e
  | _ => e
  end.

Definition no_install (p : preparedCandidate) (reason : string) : acts unit :=
  then! set_outcome OutcomeRejected in
  decide_ [note "installation" (dl_candidate (pr_item p)) (t reason)].

(** The installation a candidate goes over, when there is one. *)
Definition install_over (existing : Installation) (installed : bool) : option Installation :=
  match replacing env with Some r => Some r | None => if installed then Some existing else None end.

Definition install_destination (p : preparedCandidate) (over : option Installation) : text :=
  match over with
  | Some i => IPath i
  | None => subtitleDestination (FpPath (Fingerprint media)) (QLanguage q) (pr_output p)
  end.

Definition install_request (p : preparedCandidate) (over : option Installation) (checksum : text) : InstallRequest :=
  let item := pr_item p in
  let id := identity (dl_scope item) (dl_candidate item) checksum in
  mkInstallRequest (fallbackTier env) (QMediaID q) media (QLanguage q) (pr_output p) (install_destination p over)
    (dl_candidate item) (dl_score item) (Some (json_sync (pr_sync p))) (RjCandidateSignature id) (RjArtifactChecksum id).

Definition install_now (p : preparedCandidate) (over : option Installation) : acts unit :=
  do! checksum := file_checksum (dl_path (pr_item p)) in
  do! r := ask (InstallSubtitle (install_request p over checksum) (pr_sync p)) in
  match r with
  | Err e => fail (syncedOutputFailure e p)
  | Ok installation =>
      do! now := ask ClockNow in
      let item := pr_item p in
      modify (with_result (fun r =>
        with_only_outcome OutcomeInstalled
          (with_found (dl_candidate item) (dl_score item) installation
             (nextUpgradeAt (service env) now (dl_score item) (dl_candidate item)) r)))
  end.

Definition install (p : preparedCandidate) (existing : Installation) (installed : bool) : acts unit :=
  let over := install_over existing installed in
  if match over with Some i => negb (equal_fold (path_ext (IPath i)) (path_ext (pr_output p))) | None => false end
  then no_install p "format-changing upgrades are not supported"
  else
    match replacing env with
    | Some r =>
        do! checksum := file_checksum (pr_output p) in
        if bool_decide (checksum = IChecksum r) then no_install p "identical to the rejected subtitle"
        else install_now p over
    | None => install_now p over
    end.

(** Whether the result is final after an install. *)
Definition settled_outcome : acts bool :=
  do! r := get_result in
  done (bool_decide (ROutcome r = OutcomeInstalled) || bool_decide (ROutcome r = OutcomeSatisfied)).

(** An installation that failed: only the installer's own rejection of the text
    lets another candidate follow. *)
Definition install_failed (p : preparedCandidate) (e : WorkflowError) : acts unit :=
  match e with
  | SubtitleE _ =>
      then! check_context in
      handle_failure (dl_scope (pr_item p)) (dl_candidate (pr_item p)) (dl_path (pr_item p)) e
  | _ => fail e
  end.

(** ** Assessments *)

Definition with_assessment (c : Candidate) (score : Score) (existing : Installation) : Installation :=
  {| IFallback := IFallback existing; IMediaID := IMediaID existing; ILanguage := ILanguage existing;
     IPath := IPath existing; IChecksum := IChecksum existing; IProviderID := IProviderID existing;
     ICandidateID := ICandidateID existing; ICandidateSignature := ICandidateSignature existing;
     IArtifactChecksum := IArtifactChecksum existing; IScoreJSON := ScoreIs score;
     ISyncResultJSON := if ExactHash c then json_sync exact_hash_sync else ISyncResultJSON existing;
     IRollbackPath := IRollbackPath existing; IMediaPath := IMediaPath existing;
     IMediaFileID := IMediaFileID existing; IMediaSize := IMediaSize existing;
     IMediaModTimeNS := IMediaModTimeNS existing; IPendingInstallID := IPendingInstallID existing;
     IInstalledAt := IInstalledAt existing |}.

(** [updateInstallationAssessment], then [setReassessmentResult] and its
    decision. *)
Definition reassess (existing : Installation) (c : Candidate) (score : Score) : acts Installation :=
  let updated := with_assessment c score existing in
  do! e := ask (UpdateAssessment updated) in
  then! ask_error e in
  do! now := ask ClockNow in
  then! modify (with_result (with_found c score updated (nextUpgradeAt (service env) now score c))) in
  done updated.

Definition refreshed (c : Candidate) : acts unit :=
  decide_ [note "upgrade" c (t "refreshed assessment for installed provider candidate")].

(** ** Failed downloads *)

Definition candidateFailureDecision (stage : string) (c : Candidate) (e : WorkflowError) : WorkflowDecision :=
  let selection := error_as (fun e => match e with SelectionE r => Some r | _ => None end) e in
  mkDecision (t stage) (ProviderID c) (ResultID c) (error_text e)
    (if bool_decide (is_Some selection) then t "pack_selection" else []).

Definition download_failed (c : Candidate) (e : WorkflowError) : acts unit :=
  then! check_context in
  if availability_failure e then fail e
  else
    then! (if bool_decide (is_Some (unavailableErrors [e]))
           then modify (with_result (with_errors (fun errs => <[ProviderID c := e]> errs))) else done tt) in
    do! recorded := record_rejection [] c [] e in
    then! (if negb recorded && negb (isMediaValidationRejection e) then add_failure e else done tt) in
    decide_ [candidateFailureDecision "candidate" c e].

(** ** Cached packs *)

Definition downloaded (c : Candidate) (score : Score) (priority : Z) (runtimePack more cached : bool) (scope path : text)
    : downloadedCandidate :=
  mkDownloaded 0 0 more cached scope runtimePack c score priority path.

(** The prepared members of a cached pack in order: the first that installs
    ends the run. *)
Definition install_cached (workspace : text) (existing : Installation) (installed : bool) (p : preparedCandidate)
    : acts unit :=
  do! r := caught (install p existing installed) in
  then! (match r with
         | Err e => install_failed p e
         | Ok _ => do! final := settled_outcome in if (final : bool) then finish else done tt
         end) in
  then! removeWorkflowArtifact workspace (pr_output p) in
  set_outcome OutcomeUnset.

Definition use_cached (workspace : text) (existing : Installation) (installed : bool) (m : CachedMember)
    (alternatives : list CachedMember) (score : Score) : acts unit :=
  let scope := if CmMemberScoped m then t "versions" else [] in
  do! prepared := prepare_members (downloaded (CmCandidate m) score 0 (CmRuntimePack m) (CmMoreVersions m) true scope [])
                    (CmPath m :: (CmPath <$> alternatives)) installed existing workspace (-100) in
  let prepared := sortPrepared prepared in
  then! each (install_cached workspace existing installed) prepared in
  reject_exhausted prepared.

(** The installation the run goes on with, and whether its assessment was
    refreshed. *)
Definition cached_member_found (workspace : text) (existing : Installation) (installed : bool) (m : CachedMember)
    (alternatives : list CachedMember) : acts (Installation * bool) :=
  let c := CmCandidate m in
  do! rejection := candidate_rejection (if CmMemberScoped m then CmChecksum m else []) c (CmChecksum m) in
  match rejection with
  | Some r => then! decide_ [note "candidate_rejection" c (RjReasonCode r)] in done (existing, false)
  | None =>
      let score := evaluateCachedMember env q m in
      if negb (eligible score) then
        then! decide_ [note "pack_cache" c (t "cached candidate score is below threshold or identity was rejected")] in
        done (existing, false)
      else if installed && sameInstalledCandidate existing media c then
        do! updated := reassess existing c score in
        then! refreshed c in done (updated, true)
      else
        do! allowed := (if installed then ask_result (shouldUpgrade (service env) existing media c score) else done true) in
        then! (if (allowed : bool) then use_cached workspace existing installed m alternatives score else done tt) in
        done (existing, false)
  end.

Definition cached_phase (workspace : text) (existing : Installation) (installed : bool) : acts (Installation * bool) :=
  if bool_decide (RefKind (MRef media) = MediaEpisode) && hasPackCache env then
    do! found := find_pack in
    match found with
    | Err e => then! decide_ [mkDecision (t "pack_cache") [] [] (error_text e) []] in done (existing, false)
    | Ok None => done (existing, false)
    | Ok (Some (m, alternatives)) => cached_member_found workspace existing installed m alternatives
    end
  else done (existing, false).

(** ** Exact-hash results *)

(** The preparation and installation of one downloaded exact result. *)
Definition exact_downloaded (workspace : text) (existing : Installation) (installed : bool) (index : Z) (c : Candidate)
    (score : Score) (path : text) (runtimePack : bool) : acts unit :=
  then! check_media in
  do! first := begin_preparation [] c path in
  if negb first then removeWorkflowArtifact workspace path
  else
    let item := downloaded c score (priority_of (ProviderOrder (service env)) (ProviderID c)) runtimePack false false [] path in
    do! prepared := caught (prepare_candidate item installed existing workspace (- index - 2)) in
    match prepared with
    | Err e => then! handle_failure [] c path e in removeWorkflowArtifact workspace path
    | Ok p =>
        do! r := caught (install p existing installed) in
        match r with
        | Err e =>
            then! install_failed p e in
            then! removeWorkflowArtifact workspace path in
            decide_ [candidateFailureDecision "installation" c e]
        | Ok _ =>
            do! final := settled_outcome in
            if (final : bool) then finish
            else then! removeWorkflowArtifact workspace path in set_outcome OutcomeUnset
        end
    end.

Definition try_exact (workspace : text) (existing : Installation) (installed : bool) (item : Z * Candidate) : acts unit :=
  let '(index, c) := item in
  then! check_context in
  then! check_media in
  if negb (ExactHash c) then done tt
  else
    let score := evaluate media c (QLanguage q) in
    if negb (eligible score) then done tt
    else if installed && sameInstalledCandidate existing media c then
      do! _ := reassess existing c score in
      then! set_outcome OutcomeSatisfied in
      then! refreshed c in finish
    else
      do! rejection := candidate_rejection [] c [] in
      match rejection with
      | Some r => decide_ [note "candidate_rejection" c (RjReasonCode r)]
      | None =>
          do! d := caught (download_one c workspace (- index - 1)) in
          match d with
          | Err e => download_failed c e
          | Ok (path, runtimePack) => exact_downloaded workspace existing installed index c score path runtimePack
          end
      end.

(** [tierRepository.RecordCandidates]: the records of every tier that was tried;
    a failed write leaves them as they were. *)
Definition record_candidates (records : list CandidateRecord) : acts unit :=
  do! s := get in
  let merged := mergeCandidateRecords (a_records s) records in
  do! e := ask (RecordCandidates (QMediaID q) (QLanguage q) merged) in
  then! ask_error e in modify (with_records merged).

(** [tryExactCandidates]: the records it leaves; a final result ends the run. *)
Definition tryExactCandidates (workspace : text) (existing : Installation) (installed : bool) (found : list Candidate)
    : acts (list CandidateRecord) :=
  let records := (fun c => let score := evaluate media c (QLanguage q) in candidateRecord c score (eligible score))
                 <$> filter (fun c => ExactHash c = true) found in
  let records := mergeCandidateRecords [] records in
  then! (if bool_decide (records = []) then done tt
         else record_candidates records) in
  then! each (try_exact workspace existing installed) (zip (seqZ 0 (Z.of_nat (length found))) found) in
  done records.

(** ** The tournament *)

(** Download and preparation of one candidate of a tier. *)
Definition prepare_ranked (release : option Media) (workspace : text) (existing : Installation) (installed : bool)
    (item : Z * EvaluatedCandidate) : acts (list preparedCandidate) :=
  let '(index, item) := item in
  let c := ECandidate item in
  then! check_context in
  then! check_media in
  do! d := caught (download_members release c workspace index) in
  match d with
  | Err e => then! download_failed c e in done []
  | Ok (paths, runtimePack, more) =>
      prepare_members (downloaded c (EScore item) (ProviderPriority item) runtimePack more false [] []) paths
        installed existing workspace (index * 4)
  end.

Definition early_accept (p : preparedCandidate) (skipped : nat) : WorkflowDecision :=
  note "early_accept" (dl_candidate (pr_item p))
    (t "LAPSE confidence " ++ format_3f (Confidence (pr_sync p)) ++ t "; " ++ itoa (Z.of_nat skipped)
     ++ t " tied candidates not checked").

Fixpoint prepare_tier (release : option Media) (workspace : text) (existing : Installation) (installed : bool)
    (items : list (Z * EvaluatedCandidate)) : acts (list preparedCandidate) :=
  match items with
  | [] => done []
  | item :: items =>
      do! prepared := prepare_ranked release workspace existing installed item in
      match excellentSync prepared, items with
      | Some best, _ :: _ => then! decide_ [early_accept best (length items)] in done prepared
      | _, _ =>
          do! rest := prepare_tier release workspace existing installed items in done (prepared ++ rest)
      end
  end.

Definition early_stop (p : preparedCandidate) : WorkflowDecision :=
  note "early_stop" (dl_candidate (pr_item p))
    (t "installed from score " ++ itoa (Total (dl_score (pr_item p))) ++ t "; lower tiers skipped").

Definition fallback_decision (reason : string) : WorkflowDecision := mkDecision (t "fallback") [] [] (t reason) [].

(** [errors.Join] of the removal of both artifacts. *)
Definition remove_both (workspace path output : text) : acts unit :=
  do! a := outcome_of (removeWorkflowArtifact workspace path) in
  do! b := outcome_of (removeWorkflowArtifact workspace output) in
  match a, b with Ok _, Ok _ => done tt | _, _ => fail (OtherE (t "remove candidate scratch")) end.

Definition install_ranked (workspace : text) (existing : Installation) (installed : bool) (last : bool)
    (p : preparedCandidate) : acts unit :=
  then! check_context in
  do! r := caught (install p existing installed) in
  then! (match r with
         | Err e => then! install_failed p e in
                    decide_ [candidateFailureDecision "installation" (dl_candidate (pr_item p)) e]
         | Ok _ =>
             do! final := settled_outcome in
             if (final : bool) then then! decide_ [early_stop p] in finish else done tt
         end) in
  then! remove_both workspace (dl_path (pr_item p)) (pr_output p) in
  then! set_outcome OutcomeUnset in
  if last then done tt else decide_ [fallback_decision "next candidate in tier"].

Fixpoint install_tier (workspace : text) (existing : Installation) (installed : bool) (prepared : list preparedCandidate)
    : acts unit :=
  match prepared with
  | [] => done tt
  | p :: rest =>
      then! install_ranked workspace existing installed (bool_decide (rest = [])) p in
      install_tier workspace existing installed rest
  end.

(** The ranked candidates by score: runs of equal totals. *)
Fixpoint score_tiers (items : list (Z * EvaluatedCandidate)) : list (list (Z * EvaluatedCandidate)) :=
  match items with
  | [] => []
  | item :: items =>
      match score_tiers items with
      | (next :: tier) :: tiers =>
          if Total (EScore next.2) =? Total (EScore item.2) then (item :: next :: tier) :: tiers
          else [item] :: (next :: tier) :: tiers
      | tiers => [item] :: tiers
      end
  end.

Definition tier_decision (tier : list (Z * EvaluatedCandidate)) : WorkflowDecision :=
  mkDecision (t "tournament_tier") [] []
    (t "evaluating score " ++ itoa (default 0 (Total ∘ EScore ∘ snd <$> head tier))) [].

Definition run_tier (release : option Media) (workspace : text) (existing : Installation) (installed : bool)
    (tier : list (Z * EvaluatedCandidate)) : acts unit :=
  then! decide_ [tier_decision tier] in
  do! prepared := prepare_tier release workspace existing installed tier in
  let prepared := sortPrepared prepared in
  then! install_tier workspace existing installed prepared in
  reject_exhausted prepared.

Fixpoint run_tournament (release : option Media) (workspace : text) (existing : Installation) (installed : bool)
    (tiers : list (list (Z * EvaluatedCandidate))) : acts unit :=
  match tiers with
  | [] => done tt
  | [tier] => run_tier release workspace existing installed tier
  | tier :: tiers =>
      then! run_tier release workspace existing installed tier in
      then! check_context in
      then! decide_ [fallback_decision "next score tier"] in
      run_tournament release workspace existing installed tiers
  end.

(** At most three candidates, or the first exact one alone. *)
Definition contenders (items : list EvaluatedCandidate) : list EvaluatedCandidate :=
  match List.find (fun item => ExactHash (ECandidate item)) items with
  | Some item => [item]
  | None => take 3 items
  end.

(** ** Broad results *)

Definition consume_search (mode : SearchMode) (r : SearchResult) : acts unit :=
  modify (with_resume (fun a => consume a mode r)).

Definition search_query (m : Media) (mode : SearchMode) : SearchQuery :=
  mkQuery m (QLanguage q) mode (QResumeProviders q).

Definition no_persistence_failure (r : SearchResult) : acts unit := ask_error (searchPersistenceFailure (SErrors r)).

(** The broad search, with the second one under the release's numbering, and
    the media such candidates are judged against. *)
Definition broad_search : acts (search_answer * option Media) :=
  do! (search, listed) := ask (SearchProviders (fallbackTier env) (search_query media SearchBroad)) in
  match releaseNumberedMedia media with
  | Some release =>
      if negb (syncDisabled (policy env)) && negb (bool_decide (is_Some (searchPersistenceFailure (SErrors search)))) then
        do! canceled := ask CtxErr in
        if bool_decide (is_Some canceled) then done ((search, listed), None)
        else
          do! (found, _) := ask (SearchProviders (fallbackTier env) (search_query release SearchBroad)) in
          then! no_persistence_failure found in
          done ((mergeReleaseNumberedSearch (MSeason release) (MSeason media) search found, listed), Some release)
      else done ((search, listed), None)
  | None => done ((search, listed), None)
  end.

Definition applicableProviderCount (search : search_answer) : Z :=
  if search.2 then Z.of_nat (length (SApplicableProviders search.1))
  else Z.of_nat (length (filter (fun id =>
         negb (bool_decide (id ∈ QResumeProviders q))
         && (negb (bool_decide (id ∈ adapters env)) || adapterSupports env id) = true) (ProviderOrder (service env)))).

(** What a run without candidates left reports: each way it may end early. *)
Definition satisfied_by_assessment (existing : Installation) (assessed : bool) : acts unit :=
  if assessed
  then finish_with (fun r => with_only_outcome OutcomeSatisfied (with_installation existing r))
  else done tt.

Definition throttled_until (retry : option instant) : acts unit :=
  match retry with
  | Some retry => finish_with (with_outcome OutcomeThrottled retry)
  | None => done tt
  end.

(** The installation is for this very file. *)
Definition matching_installation (existing : Installation) (installed : bool) : bool :=
  installed && InstallationMatchesMedia existing media.

(** [len(search.Candidates) == 0] *)
Definition nothing_found (search : search_answer) (existing : Installation) (installed assessed : bool)
    (exactRecords : list CandidateRecord) : acts unit :=
  let errs := SErrors search.1 in
  let failed := Z.of_nat (size errs) in
  let providerCount := applicableProviderCount search in
  then! (if negb (bool_decide (exactRecords = [])) || (providerCount =? 0) || (failed <? providerCount)
         then record_candidates exactRecords else done tt) in
  then! satisfied_by_assessment existing assessed in
  then! throttled_until (allProvidersUnavailable errs providerCount) in
  if (0 <? providerCount) && (providerCount <=? failed)
  then fail (ExhaustedE (OtherE (t "all assigned subtitle providers failed")))
  else
    then! throttled_until (skippedProviderRetry errs (matching_installation existing installed)) in
    then! classify_failures in
    finish_with (with_only_outcome (if bool_decide (exactRecords = []) then OutcomeNoResult else OutcomeRejected)).

Definition evaluate_found (release : option Media) (c : Candidate) : EvaluatedCandidate :=
  mkEvaluated c (evaluate (candidateMedia media release c) c (QLanguage q))
    (priority_of (ProviderOrder (service env)) (ProviderID c)).

(** The refresh of the installed candidate's assessment, when it was found
    again. *)
Definition refresh_installed (existing : Installation) (installed assessed : bool) (ranked : list EvaluatedCandidate)
    : acts (Installation * bool) :=
  if matching_installation existing installed then
    match List.find (fun item => eligible (EScore item) && sameInstalledCandidate existing media (ECandidate item)) ranked with
    | Some item =>
        do! updated := reassess existing (ECandidate item) (EScore item) in
        then! refreshed (ECandidate item) in done (updated, true)
    | None => done (existing, assessed)
    end
  else done (existing, assessed).

(** Whether a ranked candidate may compete. *)
Definition may_compete (existing : Installation) (installed : bool) (item : EvaluatedCandidate) : acts bool :=
  let c := ECandidate item in
  if negb (eligible (EScore item)) then done false
  else if installed && sameInstalledCandidate existing media c then
    then! decide_ [note "upgrade" c (t "provider candidate is already installed")] in done false
  else
    do! allowed := (if installed then ask_result (shouldUpgrade (service env) existing media c (EScore item)) else done true) in
    if negb allowed then done false
    else
      do! rejection := candidate_rejection [] c [] in
      match rejection with
      | Some r => then! decide_ [note "candidate_rejection" c (RjReasonCode r)] in done false
      | None => done true
      end.

Fixpoint competing (existing : Installation) (installed : bool) (ranked : list EvaluatedCandidate)
    : acts (list EvaluatedCandidate) :=
  match ranked with
  | [] => done []
  | item :: ranked =>
      do! keep := may_compete existing installed item in
      do! rest := competing existing installed ranked in
      done (if (keep : bool) then item :: rest else rest)
  end.

(** [len(eligible) == 0] *)
Definition nothing_eligible (errs : gmap text WorkflowError) (existing : Installation) (installed assessed : bool)
    : acts unit :=
  then! satisfied_by_assessment existing assessed in
  then! throttled_until (skippedProviderRetry errs (matching_installation existing installed)) in
  then! classify_failures in
  finish_with (with_only_outcome OutcomeRejected).

Definition broad_phase (release : option Media) (search : search_answer) (workspace : text) (existing : Installation)
    (installed assessed : bool) (exactRecords : list CandidateRecord) : acts unit :=
  let evaluated := evaluate_found release <$> SCandidates search.1 in
  let records := (fun item => candidateRecord (ECandidate item) (EScore item) (eligible (EScore item))) <$> evaluated in
  then! record_candidates (mergeCandidateRecords exactRecords records) in
  let ranked := Rank evaluated in
  do! (existing, assessed) := refresh_installed existing installed assessed ranked in
  do! eligible := competing existing installed ranked in
  match eligible with
  | [] => nothing_eligible (SErrors search.1) existing installed assessed
  | _ =>
      let chosen := contenders eligible in
      then! run_tournament release workspace existing installed
              (score_tiers (zip (seqZ 0 (Z.of_nat (length chosen))) chosen)) in
      then! classify_failures in
      finish_with (with_only_outcome OutcomeRejected)
  end.

(** ** The whole tier *)

Definition acquire_in (workspace : text) (existing : Installation) (installed : bool) : acts unit :=
  do! (existing, assessed) := cached_phase workspace existing installed in
  do! (exact, _) := ask (SearchProviders (fallbackTier env) (search_query media SearchExactHash)) in
  then! consume_search SearchExactHash exact in
  then! no_persistence_failure exact in
  then! check_context in
  then! check_media in
  do! exactRecords := tryExactCandidates workspace existing installed (SCandidates exact) in
  do! (search, release) := broad_search in
  then! consume_search SearchBroad search.1 in
  then! no_persistence_failure search.1 in
  then! check_context in
  then! check_media in
  then! modify (with_result (with_errors (fun _ => SErrors search.1))) in
  if bool_decide (SCandidates search.1 = [])
  then nothing_found search existing installed assessed exactRecords
  else broad_phase release search workspace existing installed assessed exactRecords.

(** The deferred removal of the workspace, whose failure is ignored. *)
Definition acquire_body (existing : Installation) (installed : bool) : acts unit :=
  do! made := ask MkdirTemp in
  match made with
  | None => fail (OtherE (t "create candidate workspace"))
  | Some workspace =>
      do! r := outcome_of (acquire_in workspace existing installed) in
      do! _ := ask (RemoveAll workspace) in
      match r with Ok a => done a | Err e => stop e end
  end.

Definition empty_result : Result :=
  {| ROutcome := OutcomeUnset; RCandidate := minimal_candidate [] [] false; RScore := zero_score;
     RInstallation := no_installation; RRetryAt := zero_time; RNextUpgrade := zero_time; RDecisions := [];
     RProviderErrors := ∅; RResumeProviders := []; RResumeRouteSignature := []; RRemovedAfter := OutcomeUnset;
     RRemovalDeferred := false; RcleanEmptyProviders := []; RupgradeRecovery := false;
     RretainedInstallation := false |}.

(** What a run of both tiers shares. *)
Record shared := mkShared {
  sh_attempted : gset (row_key * file_id);
  sh_latch : option WorkflowError;
  sh_responses : list (option WorkflowError);
  sh_records : list CandidateRecord;
}.

Definition start_tier (sh : shared) : acquiring :=
  mkAcquiring empty_result no_evidence [] (sh_attempted sh) (sh_latch sh) (sh_responses sh)
    (sh_records sh).

(** [acquire]: the result, with its clean providers, and the error. *)
Definition acquire (existing : Installation) (installed : bool) (sh : shared)
    : prog answer (Result * option WorkflowError * shared) :=
  pbind (fun '(s, r) =>
    let result := with_clean (cleanEmpty (a_resume s) (ProviderOrder (service env))) (RDecisions (a_result s))
                    (RProviderErrors (a_result s)) (a_result s) in
    Ret (result, match r with Err (Failed e) => Some e | _ => None end,
         mkShared (a_attempted s) (a_latch s) (a_responses s) (a_records s)))
    (acquire_body existing installed (start_tier sh)).
End acquire.
