(* ===== verification/Run.v ===== *)
(** * A whole search (src/internal/workflow/service.go, provider_tiers.go)

    [Service.Run]: the inventory is refreshed, the recorded subtitle settled
    against the current media file, and, unless the language is already
    covered, both provider tiers are searched (Acquire.v). A subtitle the owner
    rejected is replaced, or removed after a search that found nothing.

    A run is a program of Calls.v; [Returned] is [return result, nil] and
    [Failed e] is [return result, e]. The clock and the random number are read
    at most once per decision. Log events are left out. *)
From S2P Require Import ProviderGate Prelude GoText GoFloat Paths Domain MatchRelease MatchScore PackEvidence PackSelect PackVersions SearchQueue Schedule Outbox InstallStore Disk Install Workflow Coordinator ProviderTiers Rejections Refusals LangCheck ReleaseNumbering Inventory Calls Candidates CachedPacks Acquire.

#[local] Open Scope Z_scope.

(** ** Requests and results *)

Definition with_file (f : MediaFingerprint) (m : Media) : Media :=
  {| SeriesID := SeriesID m; EntityID := EntityID m; MRef := MRef m; Fingerprint := f; MTitle := MTitle m;
     EpisodeTitle := EpisodeTitle m; MAlternateTitles := MAlternateTitles m; MYear := MYear m; MSeason := MSeason m;
     MEpisode := MEpisode m; MAbsoluteEpisode := MAbsoluteEpisode m; EpisodeEnd := EpisodeEnd m;
     AbsoluteEpisodeEnd := AbsoluteEpisodeEnd m; MExternalIDs := MExternalIDs m;
     OriginalFilename := OriginalFilename m; ReleaseName := ReleaseName m; ReleaseGroup := ReleaseGroup m;
     Source := Source m; Resolution := Resolution m; StreamingService := StreamingService m; Edition := Edition m;
     Quality := Quality m; MDuration := MDuration m; Domain.Unsupported := Domain.Unsupported m; ReleasedAt := ReleasedAt m;
     SeriesType := SeriesType m |}.

Definition request_for (f : MediaFingerprint) (q : Request) : Request :=
  mkRequest (QMediaID q) (with_file f (QMedia q)) (QLanguage q) (QManual q) (QUpgradeAttempt q) (QResumeProviders q)
    (QResumeRouteSignature q) (QReplaceInstalled q).

Definition incomplete (q : Request) : bool :=
  (QMediaID q <=? 0) || bool_decide (QLanguage q = []) || bool_decide (FpPath (Fingerprint (QMedia q)) = []).

(** The outcome that led to the removal, and [OutcomeRemoved]. *)
Definition with_removed (r : Result) : Result :=
  {| ROutcome := OutcomeRemoved; RCandidate := RCandidate r; RScore := RScore r; RInstallation := RInstallation r;
     RRetryAt := RRetryAt r; RNextUpgrade := zero_time; RDecisions := RDecisions r;
     RProviderErrors := RProviderErrors r; RResumeProviders := RResumeProviders r;
     RResumeRouteSignature := RResumeRouteSignature r; RRemovedAfter := ROutcome r;
     RRemovalDeferred := RRemovalDeferred r; RcleanEmptyProviders := RcleanEmptyProviders r;
     RupgradeRecovery := RupgradeRecovery r; RretainedInstallation := RretainedInstallation r |}.

Definition with_deferral (until : instant) (r : Result) : Result :=
  {| ROutcome := OutcomeThrottled; RCandidate := RCandidate r; RScore := RScore r; RInstallation := RInstallation r;
     RRetryAt := until; RNextUpgrade := RNextUpgrade r; RDecisions := RDecisions r;
     RProviderErrors := RProviderErrors r; RResumeProviders := RResumeProviders r;
     RResumeRouteSignature := RResumeRouteSignature r; RRemovedAfter := RRemovedAfter r;
     RRemovalDeferred := true; RcleanEmptyProviders := RcleanEmptyProviders r;
     RupgradeRecovery := RupgradeRecovery r; RretainedInstallation := RretainedInstallation r |}.

Definition with_retained (c : Candidate) (score : Score) (i : Installation) (next : instant) (r : Result) : Result :=
  {| ROutcome := OutcomeSatisfied; RCandidate := c; RScore := score; RInstallation := i;
     RRetryAt := RRetryAt r; RNextUpgrade := next; RDecisions := RDecisions r;
     RProviderErrors := RProviderErrors r; RResumeProviders := RResumeProviders r;
     RResumeRouteSignature := RResumeRouteSignature r; RRemovedAfter := RRemovedAfter r;
     RRemovalDeferred := RRemovalDeferred r; RcleanEmptyProviders := RcleanEmptyProviders r;
     RupgradeRecovery := RupgradeRecovery r; RretainedInstallation := true |}.

Definition reportRemovedBeforeSearch (r : Result) : Result :=
  match ROutcome r with
  | OutcomeNoResult | OutcomeRejected | OutcomeSatisfied => with_removed r
  | _ => r
  end.

(** ** Services *)

(** One reading of the clock and of the random source. *)
Definition clocked (s : Service) (now : instant) (unit : float64) : Service :=
  mkService (ProviderOrder s) (FallbackProviderOrder s) (preferredProviderOrder s) (hasFallbackSearcher s)
    (MinimumUpgradeDelta s) (MaxUpgradeChecks s) (SAgedAfter s) now unit.

(** The settings of a tier. *)
Definition tier_settings (env : Acquisition) (s : Service) (fallback : bool) (replacing : option Installation)
    : Acquisition :=
  mkAcquisition s fallback (MinimumScore env) (PackTTL env) (policy env) (AllowHearingImpaired env) (hasPackCache env)
    (rejectionBaseline env) (lapseVersion env) (adapters env) (adapterSupports env) (canReuse env) replacing
    (refusalRun env).

(** A program without state. *)
Definition lift {A} (p : prog answer A) : acts A := fun s => pbind (fun a => Ret (s, Ok a)) p.

Definition managed_changed (e : WorkflowError) : bool :=
  bool_decide (is_Some (error_as (fun e => match e with ManagedChangedE => Some tt | _ => None end) e)).

(** The provider errors in the order of the providers' names. *)
Definition sorted_errors (errors : gmap text WorkflowError) : list WorkflowError :=
  (stable_sort (fun a b => text_lt a.1 b.1) (map_to_list errors)).*2.

Section run.
Context `{Unicode} `{NameParser} `{LanguageTags}.
Context (sha256_hex : list N -> text) (json_candidate : Candidate -> list N) (json_member : PackMemberRef -> list N)
        (json_numbering : NumberingEvidence -> list N) (json_policy : LapsePolicy -> list N)
        (json_sync : SyncResult -> text).
Context (json_parse : list N -> option json) (html_unescape : text -> text) (media_type : text -> text).
Context (parse_srt parse_ssa parse_vtt : text -> option (list cue)).
Context (decode_manifest : list N -> option Manifest) (cwd cacheRoot : text).
Context (error_text : WorkflowError -> text) (format_3f : float64 -> text).
Context (env : Acquisition).

Abbreviation acquire_tier :=
  (acquire sha256_hex json_candidate json_member json_numbering json_policy json_sync json_parse html_unescape
     media_type parse_srt parse_ssa parse_vtt decode_manifest cwd cacheRoot error_text format_3f).

(** ** Both tiers *)

Definition no_shared : shared := mkShared ∅ None [] [].

Definition clock_now : acts Service := do! now := ask ClockNow in done (clocked (service env) now 0%Q).

Definition search_tiers (q : Request) (existing : Installation) (installed : bool) (replacing : option Installation)
    : acts (Result * option WorkflowError) :=
  do! (r1, e1, sh) := lift (acquire_tier (tier_settings env (tier_service (service env)) false replacing) q existing
                              installed no_shared) in
  do! canceled := ask CtxErr in
  do! s := clock_now in
  let first := mkAcquired r1 e1 canceled in
  match after_preferred s q existing installed first with
  | Some answer => done answer
  | None =>
      do! (r2, e2, _) := lift (acquire_tier (tier_settings env (fallback_service (service env)) true replacing) q
                                 existing installed sh) in
      do! canceled := ask CtxErr in
      do! s := clock_now in
      done (after_fallback s (installed && InstallationMatchesMedia existing (QMedia q)) existing first
              (mkAcquired r2 e2 canceled))
  end.

(** [runProviderTiers]; the result replaces the run's. *)
Definition provider_tiers (q : Request) (existing : Installation) (installed : bool) (replacing : option Installation)
    : acts unit :=
  let q := if installed then with_resume_request [] [] q else q in
  do! (r, err) := search_tiers q existing installed replacing in
  then! modify (with_result (fun _ => finishProviderResume sha256_hex (service env) q installed r err)) in
  ask_error err.

(** ** Rejected subtitles *)

Definition removeRejected (q : Request) (existing : Installation) : acts unit :=
  do! e := ask (RemoveSubtitle (mkRemoval existing (QMedia q) (QManual q) [])) in
  match e with
  | None => finish_with with_removed
  | Some e =>
      if managed_changed e
      then then! decide_ [mkDecision (t "removal") [] [] (t "managed subtitle changed on disk; kept") []] in finish
      else fail e
  end.

Definition schedule_upgrade (q : Request) (existing : Installation) : acts unit :=
  do! now := ask ClockNow in
  do! unit := ask RandomUnit in
  modify (with_result (fun r =>
    scheduleUpgrade (clocked (service env) now unit) r (QUpgradeAttempt q) (ReleasedAt (QMedia q)) (IInstalledAt existing))).

Definition replaceInstalled (q : Request) (existing : Installation) : acts unit :=
  then! provider_tiers q existing false (Some existing) in
  do! r := get_result in
  if bool_decide (ROutcome r = OutcomeNoResult) || bool_decide (ROutcome r = OutcomeRejected) then
    if bool_decide (RProviderErrors r = ∅) then removeRejected q existing
    else fail (WrapE (JoinE (WrapE <$> sorted_errors (RProviderErrors r))))
  else then! schedule_upgrade q existing in finish.

(** ** The search *)

Definition fail_resumed (q : Request) (e : WorkflowError) : acts unit :=
  then! modify (with_result (fun r => finishProviderResume sha256_hex (service env) q false r (Some e))) in fail e.

(** The refresh, with an unreadable media file marked. *)
Definition refresh (q : Request) (forceProbe : bool) : acts (result WorkflowError Inventory) :=
  do! r := ask (RefreshInventory (QMediaID q) (QMedia q) forceProbe) in
  match r with
  | Ok current => done (Ok current)
  | Err e => do! e := markIfMediaUnreadable q e in done (Err e)
  end.

(** An installed subtitle that finished a search without a better one. *)
Definition retain_installed (q : Request) (existing : Installation) (active : bool) : acts unit :=
  do! r := get_result in
  if active && InstallationMatchesMedia existing (QMedia q)
     && (bool_decide (ROutcome r = OutcomeNoResult) || bool_decide (ROutcome r = OutcomeRejected))
  then
    match installedScore existing with
    | Err e => fail e
    | Ok (score, exact) =>
        let c := minimal_candidate (IProviderID existing) (ICandidateID existing) exact in
        do! now := ask ClockNow in
        modify (with_result (with_retained c score existing (nextUpgradeAt (service env) now score c)))
    end
  else done tt.

(** An exact match of the preferred tier needs no search. *)
Definition satisfied_by_exact (q : Request) (existing : Installation) (active : bool) : result WorkflowError bool :=
  if active && InstallationMatchesMedia existing (QMedia q)
  then let! (_, exact) := installedScore existing in
       Ok (exact && negb (isFallbackProvider (service env) (IProviderID existing)))
  else Ok false.

Definition search (q : Request) (current : Inventory) (recorded : option Installation) : acts unit :=
  let existing := default no_installation recorded in
  let active := bool_decide (is_Some recorded) && managedInstallationPresent current existing in
  let replacing := QReplaceInstalled q && active in
  if inventoryStopsSearch current (QLanguage q) (AllowHearingImpaired env) active existing then
    then! set_outcome OutcomeSatisfied in
    if replacing then removeRejected q existing else finish
  else if replacing then replaceInstalled q existing
  else
    do! exact := ask_result (satisfied_by_exact q existing active) in
    if (exact : bool) then then! set_outcome OutcomeSatisfied in finish
    else
      then! provider_tiers q existing active None in
      then! retain_installed q existing active in
      then! schedule_upgrade q existing in finish.

(** A deferred change of the result when no error is returned. *)
Definition reporting (f : Result -> Result) (m : acts unit) : acts unit :=
  do! r := outcome_of m in
  match r with
  | Ok _ => modify (with_result f)
  | Err Returned => finish_with f
  | Err (Failed e) => fail e
  end.

(** The search after the record was settled; what changed is read again. *)
Definition settled_search (q : Request) (current : Inventory) (existing : Installation) (settled : Reconciliation)
    : acts unit :=
  if Changed settled then
    do! r := refresh q false in
    match r with
    | Err e => fail_resumed q (WrapE e)
    | Ok current =>
        do! recorded := ask (ReadInstallation (QMediaID q) (QLanguage q)) in
        match recorded with
        | Err e => fail_resumed q e
        | Ok recorded => search q current recorded
        end
    end
  else search q current (Some existing).

Definition recorded_search (q : Request) (current : Inventory) (recorded : option Installation) : acts unit :=
  match recorded with
  | None => search q current None
  | Some existing =>
      do! r := ask (Reconcile (mkRemoval existing (QMedia q) (QManual q) [])) in
      match r with
      | Err e => fail_resumed q (WrapE e)
      | Ok settled =>
          if Deferred settled then
            finish_with (fun r =>
              finishProviderResume sha256_hex (service env) q false (with_deferral (DeferredUntil settled) r) None)
          else if RemovedSidecar settled && QReplaceInstalled q
          then reporting reportRemovedBeforeSearch (settled_search q current existing settled)
          else settled_search q current existing settled
      end
  end.

Definition run_body (q : Request) (forceProbe : bool) : acts unit :=
  then! check_context in
  if incomplete q then fail (OtherE (t "workflow request identity is incomplete"))
  else
    do! q := ask_result (validatedResumeRequest sha256_hex (service env) q) in
    do! r := refresh q forceProbe in
    match r with
    | Err e => fail_resumed q (WrapE e)
    | Ok current =>
        do! q := (if bool_decide (FpPath (IvFingerprint current) = []) then done q
                  else ask_result (validatedResumeRequest sha256_hex (service env)
                                     (request_for (IvFingerprint current) q))) in
        do! recorded := ask (ReadInstallation (QMediaID q) (QLanguage q)) in
        match recorded with
        | Err e => fail_resumed q e
        | Ok recorded => recorded_search q current recorded
        end
    end.

Definition Run (q : Request) (forceProbe : bool) : prog answer (Result * option WorkflowError) :=
  pbind (fun '(s, r) => Ret (a_result s, match r with Err (Failed e) => Some e | _ => None end))
    (run_body q forceProbe (start_tier no_shared)).
End run.
