(* ===== verification/AcquireSafety.v ===== *)
(** * What a search may do (properties of Acquire.v)

    Whatever the store, the providers, the timing program, the files and the
    clock answer, a run of [acquire] installs only a subtitle that may be
    installed, at most one, and only while the media file could be read; it
    runs LAPSE no more after a timeout and records no rejection after a failed
    look at the media.

    The calls a run may make are stated by [allowed], over the history of calls
    so far; [acquire_allowed] shows that every run keeps to it, from one lemma
    per function. Functions whose calls need no permission are [quiet]. *)
From S2P Require Import ProviderGate Prelude GoText GoFloat Paths Domain MatchRelease MatchScore PackEvidence PackSelect PackVersions SearchQueue Schedule Outbox InstallStore Disk Install Workflow Coordinator ProviderTiers Rejections Refusals LangCheck ReleaseNumbering Inventory Calls Candidates CachedPacks Acquire.

#[local] Open Scope Z_scope.

(** ** Events *)

Abbreviation Ev := (@Event call answer).

Definition ev_case (f : forall c, answer c -> bool) (e : event answer) : bool := f (ev_call e) (ev_answer e).

(** The installer answered with an installation. *)
Definition installs : event answer -> bool :=
  ev_case (fun c => match c return answer c -> bool with
    | InstallSubtitle _ _ => fun r => match r with Ok _ => true | Err _ => false end
    | _ => fun _ => false
    end).

Definition media_there (m : media_answer) : bool := match m with MediaThere _ => true | _ => false end.

(** A look at the media file that failed. *)
Definition media_bad : event answer -> bool :=
  ev_case (fun c => match c return answer c -> bool with
    | StatMedia _ | OpenMedia _ | StatOpened | ReadMedia _ => fun m => negb (media_there m)
    | MediaRace => fun r => match r with ProbeFinished => false | _ => true end
    | _ => fun _ => false
    end).

(** LAPSE timed out. *)
Definition lapse_timeout : event answer -> bool :=
  ev_case (fun c => match c return answer c -> bool with
    | Synchronize _ _ _ _ => fun r => match r with Err e => timed_out e | Ok _ => false end
    | _ => fun _ => false
    end).

Definition never (f : event answer -> bool) (h : history answer) : Prop := existsb f h = false.
Definition once (f : event answer -> bool) (h : history answer) : Prop := existsb f h = true.

Lemma never_snoc f h e : never f (h ++ [e]) <-> never f h /\ f e = false.
Proof. unfold never. rewrite existsb_app. simpl. rewrite orb_false_r. apply orb_false_iff. Qed.

Lemma once_snoc f h e : once f (h ++ [e]) <-> once f h \/ f e = true.
Proof. unfold once. rewrite existsb_app. simpl. rewrite orb_false_r. apply orb_true_iff. Qed.

Lemma never_once f h : never f h -> once f h -> False.
Proof. unfold never, once. congruence. Qed.

Lemma never_app f h h' : never f (h ++ h') <-> never f h /\ never f h'.
Proof. unfold never. rewrite existsb_app. apply orb_false_iff. Qed.

Lemma never_spec f h : never f h <-> forall e, e ∈ h -> f e = false.
Proof.
  unfold never. induction h as [|e h IH]; simpl; [split; [by intros _ ? ?%elem_of_nil|done]|].
  rewrite orb_false_iff, IH. split.
  - intros [He Hall] x [-> |Hx]%elem_of_cons; auto.
  - intros Hall. split; [apply Hall; left|]. intros x Hx. apply Hall. by right.
Qed.

(** ** States *)

(** Calls a run may make as long as it may go on. *)
Definition plain (c : call) : Prop :=
  match c with
  | InstallSubtitle _ _ | Synchronize _ _ _ _
  | StatMedia _ | OpenMedia _ | StatOpened | ReadMedia _ | MediaRace
  | RefreshInventory _ _ _ | ReadInstallation _ _ | Reconcile _ | RemoveSubtitle _ | RandomUnit => False
  | _ => True
  end.

Definition not_installed (r : Result) : Prop := ROutcome r <> OutcomeInstalled.

(** The latch is kept and the result is not made an installed one. *)
Definition steady (s s' : acquiring) : Prop :=
  a_latch s' = a_latch s /\ (not_installed (a_result s) -> not_installed (a_result s')).

#[export] Instance steady_preorder : PreOrder steady.
Proof.
  split; [by intros s|]. intros s1 s2 s3 [L1 R1] [L2 R2]. split; [congruence|auto].
Qed.

Abbreviation calm := (@quiet call answer acquiring _ plain steady _).

Section calm_rules.
Context {E : Type}.
Abbreviation program := (act answer acquiring E).

Lemma calm_done {A} (a : A) : calm (done a : program A).
Proof using Type. apply quiet_done, _. Qed.
Lemma calm_stop {A} (e : E) : calm (stop e : program A).
Proof using Type. apply quiet_stop, _. Qed.
Lemma calm_get : calm (get : program acquiring).
Proof using Type. apply quiet_get, _. Qed.
Lemma calm_ask c : plain c -> calm (ask c : program (answer c)).
Proof using Type. apply quiet_ask, _. Qed.
Lemma calm_modify f : (forall s, steady s (f s)) -> calm (modify f : program unit).
Proof using Type. intros Hf. by apply quiet_modify. Qed.
Lemma calm_next {A B} (m : program A) (k : A -> program B) : calm m -> (forall a, calm (k a)) -> calm (next m k).
Proof using Type. apply quiet_next, _. Qed.
Lemma calm_outcome_of {A} (m : program A) : calm m -> calm (outcome_of m).
Proof using Type. apply quiet_outcome_of. Qed.
Lemma calm_each {A} (f : A -> program unit) l : (forall x, calm (f x)) -> calm (each f l).
Proof using Type. apply quiet_each, _. Qed.
End calm_rules.

Lemma calm_result f : (forall r, not_installed r -> not_installed (f r)) -> calm (modify (with_result f) : acts unit).
Proof. intros Hf. apply calm_modify. intros s. split; [done|apply Hf]. Qed.

Lemma calm_caught {A} (m : acts A) : calm m -> calm (caught m).
Proof.
  intros Hm. apply calm_next; [by apply calm_outcome_of|]. intros [a|[|e]];
    [apply calm_done|apply calm_stop|apply calm_done].
Qed.

Create HintDb calm.

Ltac steady := first [by split | split; [done|]; intros ?; done].

(** Follow the structure of a program. *)
Ltac calm_step :=
  match goal with
  | |- forall _, _ => intros ?
  | |- quiet _ _ (done _) => apply calm_done
  | |- quiet _ _ (stop _) => apply calm_stop
  | |- quiet _ _ (fail _) => apply calm_stop
  | |- quiet _ _ finish => apply calm_stop
  | |- quiet _ _ get => apply calm_get
  | |- quiet _ _ (ask _) => apply calm_ask; exact I
  | |- quiet _ _ (modify _) => apply calm_modify; intros ?; steady
  | |- quiet _ _ (next _ _) => apply calm_next
  | |- quiet _ _ (outcome_of _) => apply calm_outcome_of
  | |- quiet _ _ (each _ _) => apply calm_each
  | |- quiet _ _ (map_stop _ _) => apply quiet_map_stop
  | |- quiet _ _ (caught _) => apply calm_caught
  | |- quiet _ _ (with_scratch _ _ _) => unfold with_scratch
  | |- quiet _ _ (match ?x with _ => _ end) => destruct x
  end.
Ltac calm := repeat first [solve [auto with calm nocore] | calm_step].

(** ** Quiet functions *)

Lemma calm_ask_error e : calm (ask_error e).
Proof. unfold ask_error. calm. Qed.
Lemma calm_ask_result {A} (r : result WorkflowError A) : calm (ask_result r).
Proof. unfold ask_result. calm. Qed.
Lemma calm_ask_selection {A} (r : result SelectError A) : calm (ask_selection r).
Proof. unfold ask_selection. calm. Qed.
#[export] Hint Resolve calm_ask_error calm_ask_result calm_ask_selection : calm.

Lemma calm_decide ds : calm (decide_ ds).
Proof. apply calm_result. done. Qed.
Lemma calm_check_context : calm check_context.
Proof. unfold check_context. calm. Qed.
Lemma calm_add_failure e : calm (add_failure e).
Proof. apply calm_modify. intros s. by split. Qed.
Lemma calm_remove_artifact workspace path : calm (removeWorkflowArtifact workspace path).
Proof. unfold removeWorkflowArtifact. calm. Qed.
#[export] Hint Resolve calm_decide calm_check_context calm_add_failure calm_remove_artifact : calm.

Lemma calm_remove_artifacts workspace paths : calm (remove_artifacts workspace paths).
Proof. induction paths; simpl; calm. Qed.
Lemma calm_remove_both workspace path output : calm (remove_both workspace path output).
Proof. unfold remove_both. calm. Qed.
Lemma calm_set_outcome o : o <> OutcomeInstalled -> calm (set_outcome o).
Proof. intros Ho. by apply calm_result. Qed.
Lemma calm_keep_members workspace index n members : calm (keep_members workspace index n members).
Proof. revert n. induction members; simpl; calm. Qed.
#[export] Hint Resolve calm_remove_artifacts calm_remove_both calm_keep_members : calm.
#[export] Hint Extern 2 (quiet _ _ (set_outcome _)) => apply calm_set_outcome; discriminate : calm.

Section safety.
Context `{Unicode} `{NameParser} `{LanguageTags}.
Context (sha256_hex : list N -> text) (json_candidate : Candidate -> list N) (json_member : PackMemberRef -> list N)
        (json_numbering : NumberingEvidence -> list N) (json_policy : LapsePolicy -> list N)
        (json_sync : SyncResult -> text).
Context (json_parse : list N -> option json) (html_unescape : text -> text) (media_type : text -> text).
Context (parse_srt parse_ssa parse_vtt : text -> option (list cue)).
Context (decode_manifest : list N -> option Manifest) (cwd cacheRoot : text).
Context (error_text : WorkflowError -> text) (format_3f : float64 -> text).
Context (env : Acquisition) (q : Request).

Abbreviation identity := (identity sha256_hex json_candidate json_member json_numbering json_policy env q).
Abbreviation candidate_rejection :=
  (candidateRejection sha256_hex json_candidate json_member json_numbering json_policy env q).
Abbreviation record_rejection :=
  (recordCandidateRejection sha256_hex json_candidate json_member json_numbering json_policy env q).
Abbreviation handle_failure :=
  (handleCandidateFailure sha256_hex json_candidate json_member json_numbering json_policy env q).
Abbreviation begin_preparation :=
  (beginCandidatePreparation sha256_hex json_candidate json_member json_numbering json_policy env q).
Abbreviation download_members :=
  (downloadAndSelectMembers sha256_hex json_candidate json_member json_numbering json_policy json_parse html_unescape
     media_type error_text env q).
Abbreviation download_one :=
  (downloadAndSelect sha256_hex json_candidate json_member json_numbering json_policy json_parse html_unescape
     media_type error_text env q).

Lemma calm_checksum path : calm (fileChecksum sha256_hex path).
Proof using Type. unfold fileChecksum. calm. Qed.
#[local] Hint Resolve calm_checksum : calm.

Lemma calm_look_up ls : calm (look_up ls).
Proof using Type. induction ls; simpl; calm. Qed.
#[local] Hint Resolve calm_look_up : calm.

Lemma calm_rejection scope c checksum : calm (candidate_rejection scope c checksum).
Proof using Type. unfold candidateRejection. calm. Qed.
#[local] Hint Resolve calm_rejection : calm.

Lemma calm_begin scope c path : calm (begin_preparation scope c path).
Proof using Type. unfold beginCandidatePreparation. calm. Qed.

Lemma calm_refused c m : calm (refusedDownload env c m).
Proof using Type. unfold refusedDownload. calm. Qed.

Lemma calm_tried (tried : text -> acts bool) members : (forall c, calm (tried c)) -> calm (tried_answers tried members).
Proof using Type. intros Ht. induction members; simpl; calm. Qed.

Lemma calm_language path : calm (checkSubtitleLanguage q path).
Proof using Type. unfold checkSubtitleLanguage. calm. Qed.

Lemma calm_coverage path : calm (checkRangeCoverage parse_srt parse_ssa parse_vtt q path).
Proof using Type. unfold checkRangeCoverage. calm. Qed.
#[local] Hint Resolve calm_begin calm_refused calm_tried calm_language calm_coverage : calm.

Lemma calm_version_rejected c checksum :
  calm (version_rejected sha256_hex json_candidate json_member json_numbering json_policy env q c checksum).
Proof using Type. unfold version_rejected. calm. Qed.
#[local] Hint Resolve calm_version_rejected : calm.

Lemma calm_download release c workspace index : calm (download_members release c workspace index).
Proof using Type.
  unfold downloadAndSelectMembers, extract_and_select, select_members, publish_pack. calm.
Qed.
#[local] Hint Resolve calm_download : calm.

Lemma calm_download_one c workspace index : calm (download_one c workspace index).
Proof using Type. unfold downloadAndSelect. calm. Qed.
#[local] Hint Resolve calm_download_one : calm.

(** ** What is allowed *)

Context (installed : bool) (existing : Installation) (latched : option WorkflowError).

(** The installation the run compares with: the recorded one, possibly with
    refreshed assessments. *)
Inductive managed (h : history answer) : Installation -> Prop :=
| managed_start : managed h existing
| managed_assessed i c score :
    managed h i -> Ev (UpdateAssessment (with_assessment json_sync c score i)) None ∈ h ->
    managed h (with_assessment json_sync c score i).

(** No stored rejection of the candidate was found under any signature it could
    be recorded with; [scope] names the version of a pack. *)
Definition cleared (h : history answer) (scope : text) (c : Candidate) : Prop :=
  exists checksum, forall l, l ∈ rejection_lookups (identity scope c checksum) -> Ev (GetRejection l) (Ok None) ∈ h.

(** The text was read and is not in another language, unless it could not be
    read or is too large, which the installer refuses. *)
Definition language_checked (h : history answer) (path : text) : Prop :=
  exists a, Ev (ReadArtifact path) a ∈ h
    /\ forall payload, a = Some payload ->
         maximumInstallBytes < Z.of_nat (length payload) \/ LangCheck.Check (QLanguage q) (utf8_decode payload) = None.

(** How the timing of an installed text is known to fit. *)
Inductive timing (h : history answer) (item : downloadedCandidate) : SyncResult -> text -> Prop :=
| timing_bypass sync : bypass_of env q item installed = Some sync -> timing h item sync (dl_path item)
| timing_lapse sync output :
    Ev (Synchronize (dl_candidate item) (media_path q) (dl_path item) output) (Ok sync) ∈ h ->
    Verdict sync = t "solid" -> timing h item sync output.

(** An item's score is one its candidate was given. *)
Definition scored (item : downloadedCandidate) : Prop := score_ok (dl_candidate item) (dl_score item).

Definition prepared_ok (h : history answer) (i : Installation) (p : preparedCandidate) : Prop :=
  scored (pr_item p) /\ preparation_refused env q (pr_item p) installed i = None
  /\ language_checked h (dl_path (pr_item p))
  /\ timing h (pr_item p) (pr_sync p) (pr_output p).

(** Over another subtitle only with its own path and format, and never the
    rejected text again. *)
Definition over_ok (h : history answer) (i : Installation) (p : preparedCandidate) : Prop :=
  forall over, install_over env i installed = Some over ->
    equal_fold (path_ext (IPath over)) (path_ext (pr_output p)) = true
    /\ (replacing env = Some over ->
         exists payload, Ev (ReadArtifact (pr_output p)) (Some payload) ∈ h /\ sha256_hex payload <> IChecksum over).

Definition ready (h : history answer) (i : Installation) (p : preparedCandidate) : Prop :=
  prepared_ok h i p /\ cleared h (dl_scope (pr_item p)) (dl_candidate (pr_item p)).

Definition justified (h : history answer) (r : InstallRequest) (sync : SyncResult) : Prop :=
  exists p i checksum,
    r = install_request sha256_hex json_candidate json_member json_numbering json_policy json_sync env q p
          (install_over env i installed) checksum
    /\ sync = pr_sync p /\ managed h i /\ ready h i p /\ over_ok h i p.

Definition allowed (h : history answer) (c : call) : Prop :=
  match c with
  | CtxErr | ClockNow | RemoveFile _ | RemoveAll _ => True
  | InstallSubtitle r sync => never installs h /\ never media_bad h /\ justified h r sync
  | Synchronize _ _ _ _ => never installs h /\ never media_bad h /\ never lapse_timeout h /\ latched = None
  | PutRejection _ | RecordLapseFailure _ => never installs h /\ never media_bad h
  | RefreshInventory _ _ _ | ReadInstallation _ _ | Reconcile _ | RemoveSubtitle _ | RandomUnit => False
  | _ => never installs h
  end.

(** ** The invariant of a run *)

(** A timeout of LAPSE is remembered, for the fallback tier too. *)
Definition latch_kept (h : history answer) (s : acquiring) : Prop :=
  once lapse_timeout h \/ is_Some latched -> is_Some (a_latch s).

Definition inv (h : history answer) (s : acquiring) : Prop :=
  never installs h /\ never media_bad h /\ latch_kept h s /\ not_installed (a_result s).

(** What an early return leaves. *)
Definition installed_as (h : history answer) (r : Result) : Prop :=
  (never installs h /\ not_installed r)
  \/ (ROutcome r = OutcomeInstalled
      /\ exists rq sync i, Ev (InstallSubtitle rq sync) (Ok i) ∈ h
           /\ RInstallation r = i /\ RCandidate r = QCandidate rq /\ RScore r = QScore rq).

Definition left_early (h : history answer) (s : acquiring) (e : stopped) : Prop :=
  latch_kept h s
  /\ match e with Failed _ => never installs h /\ not_installed (a_result s) | Returned => installed_as h (a_result s) end.

(** A step from [h0] that keeps the invariant unless it ends the run. *)
Definition ends {A} (h0 : history answer) (P : history answer -> A -> Prop) (h : history answer) (s : acquiring)
    (r : result stopped A) : Prop :=
  h0 `prefix_of` h /\ match r with Ok a => inv h s /\ P h a | Err e => left_early h s e end.

(** A step that keeps it however it ends. *)
Definition keeps {E A} (h0 : history answer) (P : history answer -> A -> Prop) (h : history answer) (s : acquiring)
    (r : result E A) : Prop :=
  h0 `prefix_of` h /\ inv h s /\ forall a, r = Ok a -> P h a.

Lemma inv_left h s e : inv h s -> left_early h s e.
Proof using Type. intros (Hi & _ & Hl & Hr). split; [done|]. destruct e; [by left|done]. Qed.

Lemma keeps_ends {A} (m : acts A) s h h0 P :
  awp allowed m s h (keeps h0 P) -> awp allowed m s h (ends h0 P).
Proof using Type.
  intros Hm. eapply awp_mono; [exact Hm|]. intros h' s' [a|e] _ (Hp & Hi & HP); (split; [done|]).
  - split; [done|]. by apply HP.
  - by apply inv_left.
Qed.

Lemma ends_next {A B} (m : acts A) (k : A -> acts B) s h P Q :
  awp allowed m s h (ends h P) ->
  (forall a h' s', h `prefix_of` h' -> inv h' s' -> P h' a -> awp allowed (k a) s' h' (ends h' Q)) ->
  awp allowed (next m k) s h (ends h Q).
Proof using Type.
  intros Hm Hk. apply awp_next. eapply awp_mono; [exact Hm|]. intros h' s' [a|e] _ [Hp Hr]; [|by split].
  destruct Hr as [Hi HP]. eapply awp_mono; [by apply Hk|]. intros h2 s2 r _ [Hp2 Hr2].
  split; [by etrans|done].
Qed.

Lemma keeps_next {E A B} (m : act answer acquiring E A) (k : A -> act answer acquiring E B) s h P Q :
  awp allowed m s h (keeps h P) ->
  (forall a h' s', h `prefix_of` h' -> inv h' s' -> P h' a -> awp allowed (k a) s' h' (keeps h' Q)) ->
  awp allowed (next m k) s h (keeps h Q).
Proof using Type.
  intros Hm Hk. apply awp_next. eapply awp_mono; [exact Hm|]. intros h' s' [a|e] _ (Hp & Hi & HP).
  - eapply awp_mono; [by apply Hk; [..|apply HP]|]. intros h2 s2 r _ (Hp2 & Hi2 & HP2).
    split_and!; [by etrans|done|done].
  - by split_and!.
Qed.

Lemma keeps_done {E A} (a : A) s h (P : history answer -> A -> Prop) :
  inv h s -> P h a -> awp allowed (done a : act answer acquiring E A) s h (keeps h P).
Proof using Type. intros Hi HP. apply awp_done. split_and!; [done|done|by intros ? [= <-]]. Qed.

Lemma ends_done {A} (a : A) s h (P : history answer -> A -> Prop) :
  inv h s -> P h a -> awp allowed (done a : acts A) s h (ends h P).
Proof using Type. intros Hi HP. apply awp_done. by split_and!. Qed.

Lemma keeps_fail {A} e s h (P : history answer -> A -> Prop) : inv h s -> awp allowed (fail e) s h (keeps h P).
Proof using Type. intros Hi. apply awp_stop. by split_and!. Qed.

(** A call that needs no permission. *)
Lemma plain_events c x :
  plain c -> installs (Event c x) = false /\ media_bad (Event c x) = false /\ lapse_timeout (Event c x) = false.
Proof using Type. destruct c; done. Qed.

Lemma plain_step h s c x : plain c -> inv h s -> inv (h ++ [Ev c x]) s.
Proof using Type.
  intros Hc (Hi & Hm & Hl & Hr). destruct (plain_events c x Hc) as (E1 & E2 & E3).
  split_and!; [by apply never_snoc|by apply never_snoc| |done].
  intros [[Ho|Ho]%once_snoc|Ho]; [by apply Hl; left|congruence|by apply Hl; right].
Qed.

Lemma plain_allowed h c : never installs h -> never media_bad h -> plain c -> allowed h c.
Proof using Type. by destruct c. Qed.

Lemma calm_keeps {E A} (m : act answer acquiring E A) s h :
  calm m -> inv h s -> awp allowed m s h (keeps h (fun _ _ => True)).
Proof using Type.
  intros Hm (Hi & Hb & Hl & Hr).
  set (J h' := never installs h' /\ never media_bad h' /\ (once lapse_timeout h' -> once lapse_timeout h)).
  eapply wp_consequence; [apply (makes_wp _ _ J _ _ _ (Hm s))|].
  - by split_and!.
  - intros h' c (Hi' & Hb' & _) Hc. by apply plain_allowed.
  - intros h' c x (Hi' & Hb' & Hl') Hc. destruct (plain_events c x Hc) as (E1 & E2 & E3).
    split_and!; [by apply never_snoc|by apply never_snoc|]. intros [Ho|Ho]%once_snoc; [by apply Hl'|congruence].
  - intros h' [s' r] _ (Hp & (Hi' & Hb' & Hl') & [HL HR]). simpl in *. split_and!; [done| |done].
    split_and!; [done|done| |by apply HR]. unfold latch_kept. rewrite HL. intros [Ho|Ho]; apply Hl; [left; auto|by right].
Qed.

Lemma calm_ends {A} (m : acts A) s h : calm m -> inv h s -> awp allowed m s h (ends h (fun _ _ => True)).
Proof using Type. intros Hm Hi. by apply keeps_ends, calm_keeps. Qed.

Lemma keeps_caught {A} (m : acts A) s h P :
  awp allowed m s h (keeps h P) -> awp allowed (caught m) s h (keeps h (fun h r => forall a, r = Ok a -> P h a)).
Proof using Type.
  intros Hm. apply awp_next, awp_outcome_of. eapply awp_mono; [exact Hm|].
  intros h' s' [a|[|e]] _ (Hp & Hi & HP).
  - apply awp_done. split_and!; [done|done|]. intros ? [= <-] ? [= <-]. by apply HP.
  - apply awp_stop. by split_and!.
  - apply awp_done. split_and!; [done|done|]. by intros ? [= <-].
Qed.

(** ** What holds later too *)

Lemma prefix_elem (e : event answer) h h' : h `prefix_of` h' -> e ∈ h -> e ∈ h'.
Proof using Type. intros [t ->] He. apply elem_of_app. by left. Qed.

Lemma managed_later h h' i : h `prefix_of` h' -> managed h i -> managed h' i.
Proof using Type.
  intros Hp. induction 1 as [|i c score _ IH He]; [constructor|]. apply managed_assessed; [done|]. by eapply prefix_elem.
Qed.

Lemma cleared_later h h' scope c : h `prefix_of` h' -> cleared h scope c -> cleared h' scope c.
Proof using Type. intros Hp [checksum Hc]. exists checksum. intros l Hl. by eapply prefix_elem, Hc. Qed.

Lemma language_later h h' path : h `prefix_of` h' -> language_checked h path -> language_checked h' path.
Proof using Type. intros Hp [a [Ha Hc]]. exists a. split; [|done]. by eapply prefix_elem. Qed.

Lemma timing_later h h' item sync output : h `prefix_of` h' -> timing h item sync output -> timing h' item sync output.
Proof using Type.
  intros Hp [sync' Hb|sync' output' He Hv]; [by apply timing_bypass|]. apply timing_lapse; [|done]. by eapply prefix_elem.
Qed.

Lemma prepared_later h h' i p : h `prefix_of` h' -> prepared_ok h i p -> prepared_ok h' i p.
Proof using Type.
  intros Hp (Hs & Hr & Hl & Ht). split_and!; [done|done|by eapply language_later|by eapply timing_later].
Qed.

Lemma ready_later h h' i p : h `prefix_of` h' -> ready h i p -> ready h' i p.
Proof using Type. intros Hp [Hr Hc]. split; [by eapply prepared_later|by eapply cleared_later]. Qed.

(** ** The media file *)

Definition blameless (h : history answer) (s : acquiring) : Prop := latch_kept h s /\ not_installed (a_result s).

Definition gives_up {A} (h0 : history answer) (h : history answer) (s : acquiring) (r : result stopped A) : Prop :=
  h0 `prefix_of` h /\ never installs h /\ blameless h s /\ exists e, r = Err (Failed e).

Lemma gives_up_ends {A} (m : acts A) s h P : awp allowed m s h (gives_up h) -> awp allowed m s h (ends h P).
Proof using Type.
  intros Hm. eapply awp_mono; [exact Hm|]. intros h' s' r _ (Hp & Hi & [Hl Hr] & e & ->). by split.
Qed.

(** Only a timeout of LAPSE changes what the latch must say. *)
Lemma latch_snoc h s e : latch_kept h s -> lapse_timeout e = false -> latch_kept (h ++ [e]) s.
Proof using Type.
  intros Hl He [[Ho|Ho]%once_snoc|Ho]; [apply Hl; by left|congruence|apply Hl; by right].
Qed.

Lemma snoc_prefix (h : history answer) e : h `prefix_of` h ++ [e].
Proof using Type. by apply prefix_app_r. Qed.

Lemma unreadable_gives_up {A} message s h :
  never installs h -> blameless h s -> awp allowed (unreadable (A:=A) q message) s h (gives_up h).
Proof using Type.
  intros Hi Hl. unfold unreadable, markIfMediaUnreadable. apply awp_next. repeat case_bool_decide.
  - apply awp_done, awp_stop. by split_and!; [| | |eexists].
  - apply awp_done, awp_stop. by split_and!; [| | |eexists].
  - call_step; [done|]. intros m.
    assert (never installs (h ++ [Ev (StatMedia (media_path q)) m])) by (by apply never_snoc).
    assert (blameless (h ++ [Ev (StatMedia (media_path q)) m]) s) by (by destruct Hl; split; [apply latch_snoc|]).
    destruct m; apply awp_done, awp_stop; (split_and!; [apply snoc_prefix|done|done|by eexists]).
Qed.

(** One look at the media file: what follows a failed one must give up. *)
Lemma look_ends c {A} (k : answer c -> acts A) s h P :
  (forall x, installs (Ev c x) = false) -> (forall x, lapse_timeout (Ev c x) = false) ->
  (forall h, never installs h -> allowed h c) -> inv h s ->
  (forall x h', h `prefix_of` h' -> inv h' s -> media_bad (Ev c x) = false -> awp allowed (k x) s h' (ends h' P)) ->
  (forall x h', h `prefix_of` h' -> never installs h' -> blameless h' s -> media_bad (Ev c x) = true ->
     awp allowed (k x) s h' (gives_up h')) ->
  awp allowed (next (ask c) k) s h (ends h P).
Proof using Type.
  intros Hni Hnl Hall (Hi & Hm & Hl & Hr) Hok Hbad. call_step; [by apply Hall|]. intros x.
  assert (never installs (h ++ [Ev c x])) by (by apply never_snoc).
  assert (h `prefix_of` h ++ [Ev c x]) as Hp by apply snoc_prefix.
  assert (latch_kept (h ++ [Ev c x]) s) by (by apply latch_snoc).
  destruct (media_bad (Ev c x)) eqn:E.
  - eapply awp_mono; [by apply (Hbad x)|]. intros h' s' r _ (Hp' & Hi' & [Hl' Hr'] & e & ->). split; [by etrans|done].
  - eapply awp_mono; [apply (Hok x); [done| |done]|].
    + split_and!; [done|by apply never_snoc|done|done].
    + intros h' s' r _ [Hp' Hr']. split; [by etrans|done].
Qed.

Lemma fail_gives_up {A} e s h : never installs h -> blameless h s -> awp allowed (fail (A:=A) e) s h (gives_up h).
Proof using Type. intros Hi Hl. apply awp_stop. by split_and!; [| | |eexists]. Qed.
#[local] Hint Resolve fail_gives_up unreadable_gives_up : core.

Ltac look :=
  apply look_ends; [done|done|done|done| |]; intros []; cbn [media_bad ev_case ev_call ev_answer media_there negb];
  intros; try discriminate; auto using ends_done.

Lemma media_available_ends s h : inv h s -> awp allowed (checkMediaAvailable q) s h (ends h (fun _ _ => True)).
Proof using Type. intros Hi. unfold checkMediaAvailable. look. Qed.

Lemma read_probe_ends offset s h : inv h s -> awp allowed (read_probe q offset) s h (ends h (fun _ _ => True)).
Proof using Type. intros Hi. unfold read_probe. look. Qed.

Lemma probe_ends s h : inv h s -> awp allowed (probeMediaReads q) s h (ends h (fun _ _ => True)).
Proof using Type.
  intros Hi. unfold probeMediaReads. eapply ends_next; [by apply media_available_ends|].
  intros _ h1 s1 _ Hi1 _. look. look. eapply ends_next; [by apply read_probe_ends|].
  intros _ h4 s4 _ Hi4 _. by apply read_probe_ends.
Qed.

Lemma media_readable_ends s h : inv h s -> awp allowed (checkMediaReadable q) s h (ends h (fun _ _ => True)).
Proof using Type. intros Hi. unfold checkMediaReadable. look. by apply probe_ends. Qed.

(** ** Rejections *)

(** A call a run may make. *)
Lemma plain_ends c {A} (k : answer c -> acts A) s h P :
  plain c -> inv h s ->
  (forall x h', h `prefix_of` h' -> inv h' s -> awp allowed (k x) s h' (ends h' P)) ->
  awp allowed (next (ask c) k) s h (ends h P).
Proof using Type.
  intros Hc Hi Hk. call_step; [by apply plain_allowed; [apply Hi..|]|]. intros x.
  eapply awp_mono; [apply Hk; [apply snoc_prefix|by apply plain_step]|].
  intros h' s' r _ [Hp' Hr']. split; [|done]. etrans; [apply snoc_prefix|done].
Qed.

(** A quiet step, whose result nothing is said about. *)
Ltac calmly :=
  eapply ends_next; [apply calm_ends; [by calm|assumption]|]; intros ? ? ? _ ? _.

Lemma record_rejection_ends scope c checksum e s h :
  inv h s -> awp allowed (record_rejection scope c checksum e) s h (ends h (fun _ _ => True)).
Proof using Type.
  intros Hi. unfold recordCandidateRejection. case_bool_decide; [by apply ends_done|].
  eapply ends_next.
  { destruct (bool_decide _ || bool_decide _); [by apply media_readable_ends|by apply ends_done]. }
  intros _ h1 s1 _ Hi1 _. calmly. apply plain_ends; [done|done|]. intros x h3 _ Hi3. calmly. by apply ends_done.
Qed.

Lemma handle_failure_ends scope c path e s h :
  inv h s -> awp allowed (handle_failure scope c path e) s h (ends h (fun _ _ => True)).
Proof using Type.
  intros Hi. unfold handleCandidateFailure. calmly.
  destruct (hasProcessExitError e).
  - apply calm_ends; [calm|done].
  - eapply ends_next; [by apply record_rejection_ends|]. intros recorded h2 s2 _ Hi2 _.
    apply calm_ends; [calm|done].
Qed.

(** A lookup that finds nothing asked for every row. *)
Lemma look_up_keeps ls s h :
  inv h s ->
  awp allowed (look_up ls) s h
    (keeps h (fun h' r => r = None -> forall l, l ∈ ls -> Ev (GetRejection l) (Ok None) ∈ h')).
Proof using Type.
  revert s h. induction ls as [|l ls IH]; intros s h Hi; simpl.
  - apply keeps_done; [done|]. by intros _ l ?%elem_of_nil.
  - call_step; [apply Hi|]. intros x.
    assert (inv (h ++ [Ev (GetRejection l) x]) s) as Hi1 by (by apply plain_step).
    apply awp_next. destruct x as [[r|]|e]; cbn [ask_result].
    + apply awp_done, awp_done. split_and!; [apply snoc_prefix|done|by intros ? [= <-]].
    + apply awp_done. eapply awp_mono; [by apply IH|]. intros h' s' r _ (Hp & Hi' & HP).
      assert (h `prefix_of` h') by (etrans; [apply snoc_prefix|done]).
      split_and!; [done|done|]. intros a Ha -> l' [-> |Hl']%elem_of_cons.
      * eapply prefix_elem; [exact Hp|]. apply elem_of_app. right. by left.
      * by eapply HP.
    + apply awp_stop. split_and!; [apply snoc_prefix|done|done].
Qed.

Lemma rejection_keeps scope c checksum s h :
  inv h s ->
  awp allowed (candidate_rejection scope c checksum) s h (keeps h (fun h' r => r = None -> cleared h' scope c)).
Proof using Type.
  intros Hi. unfold candidateRejection. eapply keeps_next; [apply calm_keeps; [calm|done]|].
  intros _ h1 s1 _ Hi1 _. eapply awp_mono; [by apply look_up_keeps|]. intros h' s' r _ (Hp & Hi' & HP).
  split_and!; [done|done|]. intros a Ha Hn. exists checksum. by apply HP with a.
Qed.

(** ** Preparation *)

Lemma language_keeps path s h :
  inv h s -> awp allowed (checkSubtitleLanguage q path) s h (keeps h (fun h' _ => language_checked h' path)).
Proof using Type.
  intros Hi. unfold checkSubtitleLanguage. call_step; [apply Hi|]. intros x.
  assert (inv (h ++ [Ev (ReadArtifact path) x]) s) as Hi1 by (by apply plain_step).
  assert (Ev (ReadArtifact path) x ∈ h ++ [Ev (ReadArtifact path) x]) as He by (apply elem_of_app; right; by left).
  assert (forall P : Prop, P -> h `prefix_of` h ++ [Ev (ReadArtifact path) x] /\ inv (h ++ [Ev (ReadArtifact path) x]) s /\ P)
    as Hk by (intros P HP; split_and!; [apply snoc_prefix|done|done]).
  destruct x as [payload|].
  - destruct (Z.ltb_spec maximumInstallBytes (Z.of_nat (length payload))).
    + apply awp_done, Hk. intros _ _. exists (Some payload). split; [done|]. intros ? [= <-]. by left.
    + destruct (LangCheck.Check _ _) eqn:E; [by apply awp_stop, Hk|].
      apply awp_done, Hk. intros _ _. exists (Some payload). split; [done|]. intros ? [= <-]. by right.
  - apply awp_done, Hk. intros _ _. by exists None.
Qed.

(** LAPSE runs only while no run of it timed out. *)
Lemma synchronize_keeps item output s h :
  inv h s ->
  awp allowed (synchronize q item output) s h
    (keeps h (fun h' sync => Ev (Synchronize (dl_candidate item) (media_path q) (dl_path item) output) (Ok sync) ∈ h'
                             /\ Verdict sync = t "solid")).
Proof using Type.
  intros Hi. unfold synchronize. apply awp_next, awp_get.
  destruct (a_latch s) as [e|] eqn:E; [by apply keeps_fail|].
  destruct Hi as (Hi & Hm & Hl & Hr).
  assert (never lapse_timeout h /\ latched = None) as [Hn Hlat].
  { split.
    - destruct (existsb lapse_timeout h) eqn:Ex; [|done]. destruct (Hl (or_introl Ex)) as [? ?]. congruence.
    - unfold latch_kept in Hl. destruct latched; [|done]. destruct Hl as [? ?]; [by right|congruence]. }
  call_step; [done|]. intros x. set (h1 := h ++ _).
  assert (h `prefix_of` h1) as Hp by apply snoc_prefix.
  assert (never installs h1) by (by apply never_snoc). assert (never media_bad h1) by (by apply never_snoc).
  destruct x as [sync|e].
  - assert (inv h1 s) as Hi1.
    { split_and!; [done|done|by apply latch_snoc|done]. }
    case_bool_decide as Hv; [|by apply awp_stop].
    apply awp_done. split_and!; [done|done|]. intros ? [= <-]. split; [|done]. apply elem_of_app. right. by left.
  - apply awp_next. destruct (timed_out e) eqn:Et.
    + apply awp_modify, awp_stop. split_and!; [done| |done]. split_and!; [done|done|by intros _; eexists|done].
    + apply awp_done, awp_stop. split_and!; [done| |done]. split_and!; [done|done|by apply latch_snoc|done].
Qed.

Lemma with_output_keeps {A} workspace output (m : acts A) s h P :
  awp allowed m s h (keeps h P) -> (forall h h' a, h `prefix_of` h' -> P h a -> P h' a) ->
  awp allowed (with_output workspace output m) s h (keeps h P).
Proof using Type.
  intros Hm HP. unfold with_output. apply awp_next, awp_outcome_of. eapply awp_mono; [exact Hm|].
  intros h1 s1 r _ (Hp & Hi & Hr).
  enough (awp allowed (match r with
            | Ok a => done a
            | Err e => do! removed := outcome_of (removeWorkflowArtifact workspace output) in
                       match removed with Ok _ => stop e | Err _ => fail (OtherE (t "cleanup synchronized scratch")) end
            end) s1 h1 (keeps h1 P)) as Hk.
  { eapply awp_mono; [exact Hk|]. intros h2 s2 r2 _ (Hp2 & Hi2 & HP2). split_and!; [by etrans|done|done]. }
  destruct r as [a|e]; [apply keeps_done; [done|by apply Hr]|].
  eapply keeps_next; [apply calm_keeps; [calm|done]|]. intros r h2 s2 _ Hi2 _.
  destruct r; [|by apply keeps_fail]. apply awp_stop. by split_and!.
Qed.

Definition prepares (i : Installation) (item : downloadedCandidate) (h : history answer) (p : preparedCandidate) : Prop :=
  pr_item p = item /\ prepared_ok h i p.

Lemma prepare_keeps item i workspace index s h :
  inv h s -> scored item ->
  awp allowed (prepareCandidate parse_srt parse_ssa parse_vtt env q item installed i workspace index) s h
    (keeps h (prepares i item)).
Proof using Type.
  intros Hi Hsc. unfold prepareCandidate. destruct (preparation_refused _ _ _ _ _) eqn:Er; [by apply keeps_fail|].
  eapply keeps_next; [by apply language_keeps|]. intros [] h1 s1 _ Hi1 Hl.
  eapply keeps_next; [apply calm_keeps; [calm|done]|]. intros _ h2 s2 Hp2 Hi2 _.
  assert (language_checked h2 (dl_path item)) as Hl2 by (by eapply language_later).
  destruct (bypass_of _ _ _ _) as [sync|] eqn:Eb.
  - apply keeps_done; [done|]. split; [done|]. split_and!; [done|done|done|]. by apply timing_bypass.
  - eapply keeps_next.
    { apply with_output_keeps; [by apply synchronize_keeps|]. intros ha hb a Hp [He Hv]. split; [|done].
      by eapply prefix_elem. }
    intros sync h3 s3 Hp3 Hi3 [He Hv]. apply keeps_done; [done|]. split; [done|].
    split_and!; [done|done|by eapply language_later|by apply timing_lapse].
Qed.

(** ** The members of an archive *)

Abbreviation member_failed_ :=
  (member_failed sha256_hex json_candidate json_member json_numbering json_policy env q).
Abbreviation attempt_member_ :=
  (attempt_member sha256_hex json_candidate json_member json_numbering json_policy parse_srt parse_ssa parse_vtt env q).
Abbreviation prepare_member_ :=
  (prepare_member sha256_hex json_candidate json_member json_numbering json_policy parse_srt parse_ssa parse_vtt env q).
Abbreviation prepare_loop_ :=
  (prepare_loop sha256_hex json_candidate json_member json_numbering json_policy parse_srt parse_ssa parse_vtt env q).
Abbreviation prepare_members :=
  (prepareMembers sha256_hex json_candidate json_member json_numbering json_policy parse_srt parse_ssa parse_vtt env q).
Abbreviation reject_exhausted :=
  (rejectExhaustedVersions sha256_hex json_candidate json_member json_numbering json_policy env q).

Lemma member_failed_ends item scope path workspace e s h :
  inv h s ->
  awp allowed (member_failed_ item scope path workspace e) s h (ends h (fun _ o => forall p, o = MemberReady p -> False)).
Proof using Type.
  intros Hi. unfold member_failed. eapply ends_next; [by apply media_available_ends|]. intros _ h1 s1 _ Hi1 _.
  calmly. calmly. eapply ends_next; [by apply handle_failure_ends|]. intros _ h4 s4 _ Hi4 _.
  calmly. calmly. calmly. by apply ends_done.
Qed.

Definition ready_member (i : Installation) (item : downloadedCandidate) (h : history answer) (o : member_outcome) : Prop :=
  forall p, o = MemberReady p -> prepares i item h p.

Lemma attempt_ends item scope path i workspace index s h :
  inv h s -> scored item ->
  awp allowed (attempt_member_ item scope path installed i workspace index) s h (ends h (ready_member i item)).
Proof using Type.
  intros Hi Hsc. unfold attempt_member. calmly. match goal with |- context [if negb ?b then _ else _] => destruct b end; cbn [negb].
  - eapply ends_next; [apply keeps_ends, keeps_caught; by apply prepare_keeps|]. intros r h2 s2 Hp2 Hi2 Hr.
    eapply ends_next; [apply calm_ends; [calm|done]|]. intros _ h3 s3 Hp3 Hi3 _. destruct r as [p|e].
    + eapply ends_next; [apply calm_ends; [calm|done]|]. intros _ h4 s4 Hp4 Hi4 _.
      apply ends_done; [done|]. intros ? [= <-]. destruct (Hr p eq_refl) as [Hitem Hok].
      split; [done|]. eapply prepared_later; [|exact Hok]. by etrans.
    + eapply awp_mono; [by apply member_failed_ends|]. intros h9 s9 [o|e'] _ [Hp Hr']; (split; [done|]); [|done].
      destruct Hr' as [Hi' Ho]. split; [done|]. intros p Hop. by destruct (Ho p).
  - calmly. by apply ends_done.
Qed.

(** What a candidate's own lookups allow before its members are prepared. *)
Definition may_prepare (h : history answer) (item : downloadedCandidate) (paths : list text) : Prop :=
  dl_scope item = [] -> (length paths <= 1)%nat -> cleared h [] (dl_candidate item).

Lemma prepare_member_ends item path variants n count i workspace index s h :
  inv h s -> scored item -> (variants = false -> dl_scope item = [] /\ cleared h [] (dl_candidate item)) ->
  awp allowed (prepare_member_ item path variants n count installed i workspace index) s h
    (ends h (fun h' o => forall p, o = MemberReady p -> ready h' i p)).
Proof using Type.
  intros Hi Hsc Hv. unfold prepare_member. eapply ends_next; [apply calm_ends; [calm|done]|]. intros _ h1 s1 Hp1 Hi1 _.
  eapply ends_next; [by apply media_available_ends|]. intros _ h2 s2 Hp2 Hi2 _. destruct variants.
  - calmly. eapply ends_next; [apply keeps_ends; by apply rejection_keeps|].
    intros [r|] h4 s4 Hp4 Hi4 Hc.
    { calmly. calmly. by apply ends_done. }
    eapply awp_mono; [by apply attempt_ends|]. intros h9 s9 [o|e] _ [Hp Ho]; (split; [done|]); [|done].
    destruct Ho as [Hi' Ho]. split; [done|]. intros p ->. destruct (Ho p eq_refl) as [Hitem Hok]. split; [done|].
    rewrite Hitem. cbn [with_member dl_scope dl_candidate]. eapply cleared_later; [exact Hp|]. by apply Hc.
  - destruct (Hv eq_refl) as [Hscope Hc].
    eapply awp_mono; [by apply attempt_ends|]. intros h9 s9 [o|e] _ [Hp Ho]; (split; [done|]); [|done].
    destruct Ho as [Hi' Ho]. split; [done|]. intros p ->. destruct (Ho p eq_refl) as [Hitem Hok]. split; [done|].
    rewrite Hitem. cbn [with_member dl_scope dl_candidate]. rewrite Hscope.
    eapply cleared_later; [|exact Hc]. etrans; [exact Hp1|]. by etrans.
Qed.

Definition all_ready (i : Installation) (h : history answer) (ps : list preparedCandidate) : Prop := Forall (ready h i) ps.

Lemma all_ready_later i h h' ps : h `prefix_of` h' -> all_ready i h ps -> all_ready i h' ps.
Proof using Type. intros Hp Ha. eapply Forall_impl; [exact Ha|]. intros p. by apply ready_later. Qed.

Lemma prepare_loop_ends item variants n count paths i workspace index acc all may s h :
  inv h s -> scored item -> (variants = false -> dl_scope item = [] /\ cleared h [] (dl_candidate item)) -> all_ready i h acc ->
  awp allowed (prepare_loop_ item variants n count paths installed i workspace index acc all may) s h
    (ends h (fun h' r => all_ready i h' r.1.1)).
Proof using Type.
  revert n acc all may s h. induction paths as [|path paths IH]; intros n acc all may s h Hi Hsc Hv Hacc; simpl;
    [by apply ends_done|].
  eapply ends_next; [by apply prepare_member_ends|]. intros o h1 s1 Hp1 Hi1 Ho.
  assert (variants = false -> dl_scope item = [] /\ cleared h1 [] (dl_candidate item)) as Hv1.
  { intros E. destruct (Hv E) as [Hs Hc]. split; [done|]. by eapply cleared_later. }
  assert (all_ready i h1 acc) as Hacc1 by (by eapply all_ready_later).
  destruct o; apply IH; try done. apply Forall_app. split; [done|]. by apply Forall_singleton, Ho.
Qed.

Lemma prepare_members_ends item paths i workspace index s h :
  inv h s -> scored item -> may_prepare h item paths ->
  awp allowed (prepare_members item paths installed i workspace index) s h (ends h (all_ready i)).
Proof using Type.
  intros Hi Hsc Hm. unfold prepareMembers. destruct (_ && _).
  - eapply ends_next; [by apply record_rejection_ends|]. intros _ h1 s1 _ Hi1 _. calmly. calmly.
    apply ends_done; [done|]. by apply Forall_nil.
  - eapply ends_next.
    { apply prepare_loop_ends; [done|done| |by apply Forall_nil]. intros [Hl Hs]%orb_false_iff.
      apply negb_false_iff, bool_decide_eq_true in Hs. apply Nat.ltb_ge in Hl. split; [done|]. by apply Hm. }
    intros [[ready all] may] h1 s1 Hp1 Hi1 Hready.
    eapply (ends_next _ _ _ _ (fun _ _ => True)).
    { destruct (_ && _); [|by apply ends_done].
      eapply ends_next; [by apply record_rejection_ends|]. intros _ h2 s2 _ Hi2 _. by apply ends_done. }
    intros _ h2 s2 Hp2 Hi2 _. apply ends_done; [done|]. apply Forall_fmap. eapply Forall_impl; [exact Hready|].
    intros p Hp. exact (ready_later _ _ _ _ Hp2 Hp).
Qed.

Lemma reject_exhausted_ends items s h : inv h s -> awp allowed (reject_exhausted items) s h (ends h (fun _ _ => True)).
Proof using Type.
  intros Hi. unfold rejectExhaustedVersions.
  assert (forall group s h, inv h s ->
            awp allowed (reject_group sha256_hex json_candidate json_member json_numbering json_policy env q group) s h
              (ends h (fun _ _ => True))) as Hgroup.
  { clear - H H0. intros [|first group] s h Hi; [by apply ends_done|]. unfold reject_group.
    eapply ends_next; [apply calm_ends; [|done]|].
    - generalize (first :: group) as l. intros l. induction l; simpl; calm.
    - intros b h1 s1 _ Hi1 _. destruct (_ && _); [|by apply ends_done].
      eapply ends_next; [by apply record_rejection_ends|]. intros _ h2 s2 _ Hi2 _. by apply ends_done. }
  generalize (version_groups items) as groups. intros groups. revert s h Hi.
  induction groups as [|g groups IH]; intros s h Hi; simpl; [by apply ends_done|].
  eapply ends_next; [by apply Hgroup|]. intros _ h1 s1 _ Hi1 _. by apply IH.
Qed.

(** ** Installation *)

Abbreviation install_ :=
  (install sha256_hex json_candidate json_member json_numbering json_policy json_sync env q).
Abbreviation install_now_ :=
  (install_now sha256_hex json_candidate json_member json_numbering json_policy json_sync env q).
Abbreviation install_failed_ :=
  (install_failed sha256_hex json_candidate json_member json_numbering json_policy env q).

Lemma checksum_keeps path s h :
  inv h s ->
  awp allowed (fileChecksum sha256_hex path) s h
    (keeps h (fun h' sum => exists payload, Ev (ReadArtifact path) (Some payload) ∈ h' /\ sum = sha256_hex payload)).
Proof using Type.
  intros Hi. unfold fileChecksum. call_step; [apply Hi|]. intros x.
  assert (inv (h ++ [Ev (ReadArtifact path) x]) s) as Hi1 by (by apply plain_step).
  destruct x as [payload|].
  - apply awp_done. split_and!; [apply snoc_prefix|done|]. intros ? [= <-]. exists payload. split; [|done].
    apply elem_of_app. right. by left.
  - apply awp_stop. split_and!; [apply snoc_prefix|done|done].
Qed.

(** The installer just installed what the result names. *)
Definition just_installed (h : history answer) (s : acquiring) : Prop :=
  ROutcome (a_result s) = OutcomeInstalled /\ latch_kept h s /\ installed_as h (a_result s).

(** After [install]: nothing was installed and the run may go on, or the result
    is final. *)
Definition installs_at_most (h0 h : history answer) (s : acquiring) (r : result stopped unit) : Prop :=
  h0 `prefix_of` h /\ match r with Ok _ => inv h s \/ just_installed h s | Err _ => inv h s end.

Lemma keeps_installs {P} (m : acts unit) s h :
  awp allowed m s h (keeps h P) -> awp allowed m s h (installs_at_most h).
Proof using Type.
  intros Hm. eapply awp_mono; [exact Hm|]. intros h' s' [a|e] _ (Hp & Hi & _); (split; [done|]); by try left.
Qed.

Lemma installs_next {A} (m : acts A) (k : A -> acts unit) s h P :
  awp allowed m s h (keeps h P) ->
  (forall a h' s', h `prefix_of` h' -> inv h' s' -> P h' a -> awp allowed (k a) s' h' (installs_at_most h')) ->
  awp allowed (next m k) s h (installs_at_most h).
Proof using Type.
  intros Hm Hk. apply awp_next. eapply awp_mono; [exact Hm|]. intros h' s' [a|e] _ (Hp & Hi & HP); [|by split].
  eapply awp_mono; [by apply Hk; [..|apply HP]|]. intros h2 s2 r _ [Hp2 Hr]. split; [by etrans|done].
Qed.

Lemma install_now_installs p i s h :
  inv h s -> managed h i -> ready h i p -> over_ok h i p ->
  awp allowed (install_now_ p (install_over env i installed)) s h (installs_at_most h).
Proof using Type.
  intros Hi Hm Hr Ho. unfold install_now. eapply installs_next; [by apply checksum_keeps|].
  intros sum h1 s1 Hp1 Hi1 _. call_step.
  { split_and!; [apply Hi1|apply Hi1|]. exists p, i, sum. split_and!; [done|done|by eapply managed_later|by eapply ready_later|].
    intros over Hover. destruct (Ho over Hover) as [He Hc]. split; [done|]. intros Hrep.
    destruct (Hc Hrep) as (payload & Hpay & Hne). exists payload. split; [by eapply prefix_elem|done]. }
  intros x. set (h2 := h1 ++ _). assert (h1 `prefix_of` h2) as Hp2 by apply snoc_prefix.
  destruct x as [installation|e].
  - call_step; [done|]. intros now. apply awp_modify. set (h3 := h2 ++ _).
    split; [etrans; [exact Hp2|apply snoc_prefix]|]. right.
    split; [done|]. split; [apply latch_snoc; [|done]; apply latch_snoc; [apply Hi1|done]|].
    right. split; [done|]. eexists _, (pr_sync p), installation.
    split_and!; [apply elem_of_app; left; apply elem_of_app; right; by left|done|done|done].
  - apply awp_stop. split; [done|]. destruct Hi1 as (Hi1 & Hb & Hl & Hres).
    split_and!; [by apply never_snoc|by apply never_snoc|by apply latch_snoc|done].
Qed.

Lemma calm_no_install p reason : calm (no_install p reason).
Proof using Type. unfold no_install. calm. Qed.

Lemma install_installs p i s h :
  inv h s -> managed h i -> ready h i p -> awp allowed (install_ p i installed) s h (installs_at_most h).
Proof using Type.
  intros Hi Hm Hr. unfold install.
  destruct (match install_over env i installed with Some _ => _ | None => false end) eqn:Eext.
  { eapply keeps_installs, calm_keeps; [apply calm_no_install|done]. }
  assert (forall over, install_over env i installed = Some over ->
            equal_fold (path_ext (IPath over)) (path_ext (pr_output p)) = true) as Hext.
  { intros over Hover. rewrite Hover in Eext. by apply negb_false_iff in Eext. }
  destruct (replacing env) as [r|] eqn:Erep.
  - eapply installs_next; [by apply checksum_keeps|]. intros sum h1 s1 Hp1 Hi1 (payload & He & ->).
    case_bool_decide as Hsame; [eapply keeps_installs, calm_keeps; [apply calm_no_install|done]|].
    apply install_now_installs; [done|by eapply managed_later|by eapply ready_later|].
    intros over Hover. split; [by apply Hext|]. rewrite Erep. intros [= <-]. by exists payload.
  - apply install_now_installs; [done|done|done|]. intros over Hover. split; [by apply Hext|]. by rewrite Erep.
Qed.

(** [do! r := caught (install ...) in ...]: the continuation starts with the
    invariant, or after an install that the result names. *)
Lemma caught_install {A} p i (k : result WorkflowError unit -> acts A) s h Q :
  inv h s -> managed h i -> ready h i p ->
  (forall e h' s', h `prefix_of` h' -> inv h' s' -> awp allowed (k (Err e)) s' h' (ends h' Q)) ->
  (forall h' s', h `prefix_of` h' -> inv h' s' \/ just_installed h' s' -> awp allowed (k (Ok tt)) s' h' (ends h' Q)) ->
  awp allowed (next (caught (install_ p i installed)) k) s h (ends h Q).
Proof using Type.
  intros Hi Hm Hr Herr Hok. apply awp_next, awp_next, awp_outcome_of.
  eapply awp_mono; [by apply install_installs|]. intros h1 s1 [[]|[|e]] _ [Hp Hend].
  - apply awp_done. eapply awp_mono; [by apply Hok|]. intros h2 s2 r _ [Hp2 Hr2]. split; [by etrans|done].
  - apply awp_stop. split; [done|]. by apply inv_left.
  - apply awp_done. eapply awp_mono; [by apply Herr|]. intros h2 s2 r _ [Hp2 Hr2]. split; [by etrans|done].
Qed.

(** A final result ends the run. *)
Lemma settled_ends {A} (last rest : acts A) s h Q :
  inv h s \/ just_installed h s ->
  (forall s', ROutcome (a_result s') = ROutcome (a_result s) -> (inv h s' \/ just_installed h s') ->
     awp allowed last s' h (ends h Q)) ->
  (inv h s -> awp allowed rest s h (ends h Q)) ->
  awp allowed (do! final := settled_outcome in if (final : bool) then last else rest) s h (ends h Q).
Proof using Type.
  intros Hs Hlast Hrest. unfold settled_outcome, get_result. apply awp_next, awp_next, awp_next, awp_get, awp_done, awp_done.
  destruct (bool_decide _ || bool_decide _) eqn:E; [by apply Hlast|]. apply orb_false_iff in E as [E _].
  apply bool_decide_eq_false in E. destruct Hs as [Hi|[Hj _]]; [by apply Hrest|done].
Qed.

Lemma finish_ends {A} s h (Q : history answer -> A -> Prop) :
  inv h s \/ just_installed h s -> awp allowed finish s h (ends h Q).
Proof using Type.
  intros [Hi|[_ Hj]]; (apply awp_stop; split; [done|]); [by apply inv_left|done].
Qed.

(** A change of the result before the end that keeps what it says. *)
Lemma decide_finish_ends {A} ds s h (Q : history answer -> A -> Prop) :
  inv h s \/ just_installed h s -> awp allowed (then! decide_ ds in finish) s h (ends h Q).
Proof using Type.
  intros Hs. apply awp_next, awp_modify. apply finish_ends. destruct Hs as [Hi|[Hj Ha]]; [left|right].
  - destruct Hi as (? & ? & ? & ?). by split_and!.
  - destruct Ha as [Hl [[Hn Hr]|Ha]]; (split; [done|]; split; [done|]); [by left|by right].
Qed.

Lemma install_failed_ends p e s h : inv h s -> awp allowed (install_failed_ p e) s h (ends h (fun _ _ => True)).
Proof using Type.
  intros Hi. unfold install_failed.
  assert (forall e, awp allowed (fail e : acts unit) s h (ends h (fun _ _ => True))) as Hfail
    by (intros e'; by apply keeps_ends, keeps_fail).
  destruct e; try apply Hfail. calmly. by apply handle_failure_ends.
Qed.

(** ** Cached packs *)

Abbreviation reassess_ := (reassess json_sync env).
Abbreviation find_pack :=
  (findUnrejectedPack sha256_hex json_candidate json_member json_numbering json_policy decode_manifest cwd cacheRoot
     env q).
Abbreviation install_cached_ :=
  (install_cached sha256_hex json_candidate json_member json_numbering json_policy json_sync env q).
Abbreviation use_cached_ :=
  (use_cached sha256_hex json_candidate json_member json_numbering json_policy json_sync parse_srt parse_ssa parse_vtt env q).
Abbreviation cached_member_found_ :=
  (cached_member_found sha256_hex json_candidate json_member json_numbering json_policy json_sync parse_srt parse_ssa
     parse_vtt env q).
Abbreviation cached_phase_ :=
  (cached_phase sha256_hex json_candidate json_member json_numbering json_policy json_sync parse_srt parse_ssa parse_vtt
     decode_manifest cwd cacheRoot error_text env q).

Lemma calm_record_selection scope c checksum rule : calm (record_rejection scope c checksum (SelectionE rule)).
Proof using Type.
  unfold recordCandidateRejection. assert (rejectionReasonCode (SelectionE rule) = t "pack_selection") as -> by reflexivity.
  rewrite !bool_decide_eq_false_2 by done. cbn [orb]. calm.
Qed.

#[local] Hint Resolve calm_record_selection : calm.

Lemma calm_secure path : calm (secureRegularPath cwd cacheRoot path).
Proof using Type.
  unfold secureRegularPath. destruct (cacheDirectory cwd cacheRoot path); [|calm].
  apply calm_next; [|intros []; calm].
  generalize cacheRoot at 1 as current. intros current.
  generalize (split_rune slash (default [] (path_rel cacheRoot path))) as components. intros components.
  revert current. induction components as [|component components IH]; intros current; simpl; calm.
Qed.

Lemma calm_invalidate e : calm (invalidateEntry cwd cacheRoot e).
Proof using Type. unfold invalidateEntry, cache_failed. calm. Qed.
#[local] Hint Resolve calm_secure calm_invalidate : calm.

Lemma calm_find_pack : calm find_pack.
Proof using Type.
  enough (calm (FindEligible sha256_hex json_candidate json_member json_numbering json_policy decode_manifest cwd
                  cacheRoot env q)) as Hf.
  { intros s. apply makes_bind. eapply makes_mono; [apply Hf|]. by intros [s' [found|[e|e]]]. }
  assert (forall scoped c checksum,
    calm (rejected_callback sha256_hex json_candidate json_member json_numbering json_policy env q scoped c checksum)) as Hr
    by (intros; unfold rejected_callback, in_callback; calm).
  assert (forall memo scoped c checksum,
    calm (ask_rejected sha256_hex json_candidate json_member json_numbering json_policy env q memo scoped c checksum)) as Ha
    by (intros; unfold ask_rejected; calm).
  unfold FindEligible. calm_step; [calm|]. intros now. calm_step; [calm|]. intros [entries|]; [|calm].
  generalize (@None SelectError) as failed.
  induction entries as [|entry entries IH]; intros failed; simpl; [calm|].
  apply calm_next; [|calm]. unfold try_entry, in_cache, drop_entry, cache_failed, in_cache, use_members, exhausted_callback, in_callback.
  assert (forall memo c members,
    calm (ask_versions sha256_hex json_candidate json_member json_numbering json_policy env q memo c members)) as Hv.
  { intros memo c members. revert memo. induction members; intros memo; simpl; calm. }
  assert (forall manifest scoped more memo members accepted rejected first,
    calm (check_members sha256_hex json_candidate json_member json_numbering json_policy cwd cacheRoot env q manifest
            scoped more memo members accepted rejected first)) as Hc.
  { intros manifest scoped more memo members. revert memo.
    induction members; intros memo accepted rejected first; simpl; unfold in_cache; calm. }
  calm.
Qed.
#[local] Hint Resolve calm_find_pack : calm.

Lemma reassess_ends i c score s h :
  inv h s -> managed h i -> awp allowed (reassess_ i c score) s h (ends h managed).
Proof using Type.
  intros Hi Hm. unfold reassess. call_step; [apply Hi|]. intros x.
  set (h1 := h ++ _). assert (h `prefix_of` h1) as Hp1 by apply snoc_prefix.
  assert (inv h1 s) as Hi1 by (by apply plain_step).
  destruct x as [e|]; [apply awp_next, awp_stop; split; [done|by apply inv_left]|].
  apply awp_next, awp_done.
  assert (managed h1 (with_assessment json_sync c score i)) as Hm1.
  { apply managed_assessed; [by eapply managed_later|]. apply elem_of_app. right. by left. }
  eapply awp_mono.
  { eapply ends_next; [apply calm_ends; [calm|exact Hi1]|]. intros now h2 s2 Hp2 Hi2 _.
    eapply ends_next; [apply calm_ends; [|exact Hi2]|].
    - apply calm_result. done.
    - intros _ h3 s3 Hp3 Hi3 _. apply (ends_done _ _ _ managed); [done|].
      eapply managed_later; [|exact Hm1]. by etrans. }
  intros h' s' r _ [Hp Hr]. split; [by etrans|done].
Qed.

(** A loop over prepared candidates. *)
Lemma each_ends {A} (f : A -> acts unit) l s h (P : history answer -> A -> Prop) :
  inv h s -> Forall (P h) l ->
  (forall x h h', h `prefix_of` h' -> P h x -> P h' x) ->
  (forall x s h, inv h s -> P h x -> awp allowed (f x) s h (ends h (fun _ _ => True))) ->
  awp allowed (each f l) s h (ends h (fun _ _ => True)).
Proof using Type.
  intros Hi HP Hlater Hf. revert s h Hi HP. induction l as [|x l IH]; intros s h Hi HP; simpl; [by apply ends_done|].
  inversion_clear HP as [|? ? Hx Hl]. eapply ends_next; [by apply Hf|]. intros _ h1 s1 Hp1 Hi1 _.
  apply IH; [done|]. eapply Forall_impl; [exact Hl|]. intros y. by apply Hlater.
Qed.

Lemma sort_ready i h ps : all_ready i h ps -> all_ready i h (sortPrepared ps).
Proof using Type. intros Ha. unfold all_ready. by rewrite (stable_sort_perm prepared_less ps). Qed.

(** What a prepared candidate and its installation need. *)
Definition candidate_ok (i : Installation) (h : history answer) (p : preparedCandidate) : Prop := managed h i /\ ready h i p.

Lemma candidate_later i p h h' : h `prefix_of` h' -> candidate_ok i h p -> candidate_ok i h' p.
Proof using Type. intros Hp [Hm Hr]. split; [by eapply managed_later|by eapply ready_later]. Qed.

Lemma all_candidates i h ps : managed h i -> all_ready i h ps -> Forall (candidate_ok i h) ps.
Proof using Type. intros Hm Ha. eapply Forall_impl; [exact Ha|]. by intros p Hp. Qed.

Lemma install_cached_ends workspace i p s h :
  inv h s -> candidate_ok i h p ->
  awp allowed (install_cached_ workspace i installed p) s h (ends h (fun _ _ => True)).
Proof using Type.
  intros Hi [Hm Hr]. unfold install_cached. apply caught_install; [done..| |].
  - intros e h1 s1 Hp1 Hi1. eapply ends_next; [by apply install_failed_ends|]. intros _ h2 s2 _ Hi2 _.
    apply calm_ends; [calm|done].
  - intros h1 s1 Hp1 Hs1. eapply (ends_next _ _ _ _ (fun _ _ => True)).
    { apply settled_ends; [done| |intros Hi1; by apply ends_done]. intros s' _ Hs'. by apply finish_ends. }
    intros _ h2 s2 _ Hi2 _. apply calm_ends; [calm|done].
Qed.

Lemma use_cached_ends workspace i m alternatives score s h :
  inv h s -> managed h i -> score_ok (CmCandidate m) score ->
  (CmMemberScoped m = false -> alternatives = [] -> cleared h [] (CmCandidate m)) ->
  awp allowed (use_cached_ workspace i installed m alternatives score) s h (ends h (fun _ _ => True)).
Proof using Type.
  intros Hi Hm Hsc Hc. unfold use_cached. eapply ends_next.
  { apply (prepare_members_ends _ _ i); [done|done|]. intros Hscope Hlen. cbn [dl_candidate dl_scope downloaded] in *.
    destruct (CmMemberScoped m); [done|]. apply Hc; [done|]. simpl in Hlen. rewrite length_fmap in Hlen.
    destruct alternatives; [done|simpl in Hlen; lia]. }
  intros ps h1 s1 Hp1 Hi1 Hps. apply sort_ready in Hps. cbv zeta.
  eapply ends_next.
  { eapply (each_ends _ _ _ _ (candidate_ok i)); [done| |by intros; eapply candidate_later|].
    - apply all_candidates; [by eapply managed_later|done].
    - intros p s2 h2 Hi2 Hp. by apply install_cached_ends. }
  intros _ h2 s2 _ Hi2 _. by apply reject_exhausted_ends.
Qed.

Lemma refusing_score c sc reason : score_ok c sc -> score_ok c (mkScore (Total sc) (Contributions sc) (RejectedReasons sc ++ [reason])).
Proof using Type. intros [Ht _]. split; [done|]. cbn. by destruct (RejectedReasons sc). Qed.

Lemma candidate_score m c : score_ok c (evaluate_candidate env m c (QLanguage q)).
Proof using Type.
  unfold evaluate_candidate. destruct (_ && _); [apply refusing_score|]; apply evaluate_score_ok.
Qed.

Lemma cached_score m : score_ok (CmCandidate m) (evaluateCachedMember env q m).
Proof using Type.
  assert (score_ok (CmCandidate m) (EvaluateSelectedPackMember (QMedia q) (CmCandidate m) (QLanguage q))) as Hs
    by (unfold EvaluateSelectedPackMember; destruct (_ || _); apply evaluate_score_ok).
  unfold evaluateCachedMember. destruct (negb _); [apply candidate_score|]. destruct (_ && _); [by apply refusing_score|done].
Qed.

Lemma cached_found_ends workspace i m alternatives s h :
  inv h s -> managed h i ->
  awp allowed (cached_member_found_ workspace i installed m alternatives) s h (ends h (fun h' r => managed h' r.1)).
Proof using Type.
  intros Hi Hm. unfold cached_member_found. eapply ends_next; [apply keeps_ends; by apply rejection_keeps|].
  intros r h1 s1 Hp1 Hi1 Hr. assert (managed h1 i) as Hm1 by (by eapply managed_later).
  destruct r as [r|].
  { eapply ends_next; [apply calm_ends; [calm|done]|]. intros _ h2 s2 Hp2 Hi2 _.
    apply ends_done; [done|]. by eapply managed_later. }
  specialize (Hr eq_refl). destruct (negb _).
  { eapply ends_next; [apply calm_ends; [calm|done]|]. intros _ h2 s2 Hp2 Hi2 _.
    apply ends_done; [done|]. by eapply managed_later. }
  destruct (installed && sameInstalledCandidate _ _ _).
  { eapply ends_next; [by apply reassess_ends|]. intros updated h2 s2 Hp2 Hi2 Hu.
    eapply ends_next; [apply calm_ends; [unfold refreshed; calm|done]|]. intros _ h3 s3 Hp3 Hi3 _.
    apply ends_done; [done|]. by eapply managed_later. }
  eapply ends_next; [apply calm_ends; [calm|done]|]. intros allowed_ h2 s2 Hp2 Hi2 _.
  assert (managed h2 i) as Hm2 by (by eapply managed_later).
  eapply (ends_next _ _ _ _ (fun _ _ => True)).
  { destruct (allowed_ : bool); [|by apply ends_done]. apply use_cached_ends; [done|done|apply cached_score|].
    intros Hs _. rewrite Hs in Hr. by eapply cleared_later. }
  intros _ h3 s3 Hp3 Hi3 _. apply ends_done; [done|]. by eapply managed_later.
Qed.

Lemma cached_phase_ends workspace i s h :
  inv h s -> managed h i ->
  awp allowed (cached_phase_ workspace i installed) s h (ends h (fun h' r => managed h' r.1)).
Proof using Type.
  intros Hi Hm. unfold cached_phase. destruct (_ && _); [|by apply ends_done].
  eapply ends_next; [apply calm_ends; [calm|done]|]. intros found h1 s1 Hp1 Hi1 _.
  assert (managed h1 i) as Hm1 by (by eapply managed_later).
  destruct found as [[[m alternatives]|]|e]; [by apply cached_found_ends|by apply ends_done|].
  eapply ends_next; [apply calm_ends; [calm|done]|]. intros _ h2 s2 Hp2 Hi2 _.
  apply ends_done; [done|]. by eapply managed_later.
Qed.

(** ** Exact-hash results *)

Abbreviation download_failed_ :=
  (download_failed sha256_hex json_candidate json_member json_numbering json_policy error_text env q).
Abbreviation exact_downloaded_ :=
  (exact_downloaded sha256_hex json_candidate json_member json_numbering json_policy json_sync parse_srt parse_ssa
     parse_vtt error_text env q).
Abbreviation try_exact_ :=
  (try_exact sha256_hex json_candidate json_member json_numbering json_policy json_sync json_parse html_unescape
     media_type parse_srt parse_ssa parse_vtt error_text env q).
Abbreviation try_exacts :=
  (tryExactCandidates sha256_hex json_candidate json_member json_numbering json_policy json_sync json_parse html_unescape
     media_type parse_srt parse_ssa parse_vtt error_text env q).

Lemma calm_failure_decision stage c e : calm (decide_ [candidateFailureDecision error_text stage c e]).
Proof using Type. apply calm_decide. Qed.
#[local] Hint Resolve calm_failure_decision : calm.

Lemma download_failed_ends c e s h : inv h s -> awp allowed (download_failed_ c e) s h (ends h (fun _ _ => True)).
Proof using Type.
  intros Hi. unfold download_failed. calmly. destruct (availability_failure e); [by apply keeps_ends, keeps_fail|].
  eapply ends_next; [apply calm_ends; [|done]|].
  { destruct (bool_decide _); [by apply calm_result|calm]. }
  intros _ h2 s2 _ Hi2 _. eapply ends_next; [by apply record_rejection_ends|]. intros recorded h3 s3 _ Hi3 _.
  calmly. apply calm_ends; [calm|done].
Qed.

Lemma exact_downloaded_ends workspace i index c score path runtimePack s h :
  inv h s -> managed h i -> cleared h [] c -> score_ok c score ->
  awp allowed (exact_downloaded_ workspace i installed index c score path runtimePack) s h (ends h (fun _ _ => True)).
Proof using Type.
  intros Hi Hm Hc Hsc. unfold exact_downloaded. eapply ends_next; [by apply media_available_ends|]. intros _ h1 s1 Hp1 Hi1 _.
  eapply ends_next; [apply calm_ends; [calm|done]|]. intros first h2 s2 Hp2 Hi2 _.
  match goal with |- context [negb ?b] => destruct b end; cbn [negb]; [|apply calm_ends; [calm|done]].
  cbv zeta. eapply ends_next; [apply keeps_ends, keeps_caught; by apply prepare_keeps|]. intros r h3 s3 Hp3 Hi3 Hr.
  destruct r as [p|e].
  - destruct (Hr p eq_refl) as [Hitem Hok].
    assert (h `prefix_of` h3) as Hp by (etrans; [exact Hp1|]; by etrans).
    apply caught_install; [done|by eapply managed_later| | |].
    + split; [done|]. rewrite Hitem. cbn [dl_scope dl_candidate downloaded]. by eapply cleared_later.
    + intros e h4 s4 Hp4 Hi4. eapply ends_next; [by apply install_failed_ends|]. intros _ h5 s5 _ Hi5 _.
      calmly. apply calm_ends; [calm|done].
    + intros h4 s4 Hp4 Hs4. apply settled_ends; [done| |].
      * intros s' _ Hs'. by apply finish_ends.
      * intros Hi4. apply calm_ends; [calm|done].
  - eapply ends_next; [by apply handle_failure_ends|]. intros _ h4 s4 _ Hi4 _. apply calm_ends; [calm|done].
Qed.

Lemma try_exact_ends workspace i item s h :
  inv h s -> managed h i -> awp allowed (try_exact_ workspace i installed item) s h (ends h (fun _ _ => True)).
Proof using Type.
  intros Hi Hm. destruct item as [index c]. unfold try_exact.
  eapply ends_next; [apply calm_ends; [calm|done]|]. intros _ h1 s1 Hp1 Hi1 _.
  eapply ends_next; [by apply media_available_ends|]. intros _ h2 s2 Hp2 Hi2 _.
  assert (managed h2 i) as Hm2 by (eapply managed_later; [|exact Hm]; by etrans).
  destruct (negb (ExactHash c)); [by apply ends_done|]. cbv zeta. destruct (negb _); [by apply ends_done|].
  destruct (installed && _).
  { eapply ends_next; [by apply reassess_ends|]. intros updated h3 s3 Hp3 Hi3 _.
    eapply ends_next; [apply calm_ends; [by apply calm_set_outcome|done]|]. intros _ h4 s4 _ Hi4 _.
    eapply ends_next; [apply calm_ends; [unfold refreshed; calm|done]|]. intros _ h5 s5 _ Hi5 _.
    apply finish_ends. by left. }
  eapply ends_next; [apply keeps_ends; by apply rejection_keeps|]. intros r h3 s3 Hp3 Hi3 Hr.
  destruct r as [r|]; [apply calm_ends; [calm|done]|]. specialize (Hr eq_refl).
  eapply ends_next; [apply calm_ends; [calm|done]|]. intros d h4 s4 Hp4 Hi4 _.
  destruct d as [[path runtimePack]|e].
  - apply exact_downloaded_ends; [done| |by eapply cleared_later|apply candidate_score]. eapply managed_later; [|exact Hm2]. by etrans.
  - by apply download_failed_ends.
Qed.

Lemma calm_record records : calm (record_candidates q records).
Proof using Type. unfold record_candidates. calm. Qed.
#[local] Hint Resolve calm_record : calm.

Lemma try_exacts_ends workspace i found s h :
  inv h s -> managed h i -> awp allowed (try_exacts workspace i installed found) s h (ends h (fun _ _ => True)).
Proof using Type.
  intros Hi Hm. unfold tryExactCandidates. cbv zeta.
  eapply ends_next; [apply calm_ends; [calm|done]|]. intros _ h1 s1 Hp1 Hi1 _.
  eapply ends_next.
  { eapply (each_ends _ _ _ _ (fun h _ => managed h i)); [done| |by intros; eapply managed_later|].
    - apply Forall_forall. intros x _. by eapply managed_later.
    - intros x s2 h2 Hi2 Hm2. by apply try_exact_ends. }
  intros _ h2 s2 _ Hi2 _. by apply ends_done.
Qed.

(** ** The tournament *)

Abbreviation prepare_ranked_ :=
  (prepare_ranked sha256_hex json_candidate json_member json_numbering json_policy json_parse html_unescape media_type
     parse_srt parse_ssa parse_vtt error_text env q).
Abbreviation prepare_tier_ :=
  (prepare_tier sha256_hex json_candidate json_member json_numbering json_policy json_parse html_unescape media_type
     parse_srt parse_ssa parse_vtt error_text format_3f env q).
Abbreviation install_ranked_ :=
  (install_ranked sha256_hex json_candidate json_member json_numbering json_policy json_sync error_text env q).
Abbreviation install_tier_ :=
  (install_tier sha256_hex json_candidate json_member json_numbering json_policy json_sync error_text env q).
Abbreviation run_tier_ :=
  (run_tier sha256_hex json_candidate json_member json_numbering json_policy json_sync json_parse html_unescape
     media_type parse_srt parse_ssa parse_vtt error_text format_3f env q).
Abbreviation tournament :=
  (run_tournament sha256_hex json_candidate json_member json_numbering json_policy json_sync json_parse html_unescape
     media_type parse_srt parse_ssa parse_vtt error_text format_3f env q).

(** The lookups of a competing candidate found nothing. *)
Definition may_win (h : history answer) (item : EvaluatedCandidate) : Prop :=
  cleared h [] (ECandidate item) /\ score_ok (ECandidate item) (EScore item).
Definition competes (h : history answer) (item : Z * EvaluatedCandidate) : Prop := may_win h item.2.

Lemma competes_later h h' item : h `prefix_of` h' -> competes h item -> competes h' item.
Proof using Type. intros Hp [Hc Hs]. split; [by eapply cleared_later|done]. Qed.

Lemma prepare_ranked_ends release workspace i item s h :
  inv h s -> managed h i -> competes h item ->
  awp allowed (prepare_ranked_ release workspace i installed item) s h (ends h (all_ready i)).
Proof using Type.
  intros Hi Hm [Hc Hsc]. destruct item as [index item]. unfold prepare_ranked.
  eapply ends_next; [apply calm_ends; [calm|done]|]. intros _ h1 s1 Hp1 Hi1 _.
  eapply ends_next; [by apply media_available_ends|]. intros _ h2 s2 Hp2 Hi2 _.
  eapply ends_next; [apply calm_ends; [calm|done]|]. intros d h3 s3 Hp3 Hi3 _.
  destruct d as [[[paths runtimePack] more]|e].
  - apply prepare_members_ends; [done|done|]. intros _ _. cbn [dl_candidate downloaded].
    eapply cleared_later; [|exact Hc]. etrans; [exact Hp1|]. by etrans.
  - eapply ends_next; [by apply download_failed_ends|]. intros _ h4 s4 _ Hi4 _. apply ends_done; [done|]. by apply Forall_nil.
Qed.

Lemma prepare_tier_ends release workspace i items s h :
  inv h s -> managed h i -> Forall (competes h) items ->
  awp allowed (prepare_tier_ release workspace i installed items) s h (ends h (all_ready i)).
Proof using Type.
  revert s h. induction items as [|item items IH]; intros s h Hi Hm Hc; simpl; [apply ends_done; [done|by apply Forall_nil]|].
  inversion_clear Hc as [|? ? Hitem Hitems].
  eapply ends_next; [by apply prepare_ranked_ends|]. intros prepared h1 s1 Hp1 Hi1 Hready.
  assert (awp allowed (do! rest := prepare_tier_ release workspace i installed items in done (prepared ++ rest)) s1 h1
            (ends h1 (all_ready i))) as Hrest.
  { eapply ends_next.
    - apply IH; [done|by eapply managed_later|]. eapply Forall_impl; [exact Hitems|]. intros x. by apply competes_later.
    - intros rest h2 s2 Hp2 Hi2 Hrest. apply ends_done; [done|]. apply Forall_app. split; [|done].
      by eapply all_ready_later. }
  destruct (excellentSync prepared) as [best|]; [|exact Hrest]. destruct items; [exact Hrest|].
  eapply ends_next; [apply calm_ends; [calm|done]|]. intros _ h2 s2 Hp2 Hi2 _.
  apply ends_done; [done|]. by eapply all_ready_later.
Qed.

Lemma install_ranked_ends workspace i last p s h :
  inv h s -> candidate_ok i h p ->
  awp allowed (install_ranked_ workspace i installed last p) s h (ends h (fun _ _ => True)).
Proof using Type.
  intros Hi Hok. unfold install_ranked.
  eapply ends_next; [apply calm_ends; [calm|done]|]. intros _ h1 s1 Hp1 Hi1 _.
  destruct (candidate_later _ _ _ _ Hp1 Hok) as [Hm Hr].
  assert (forall s h, inv h s ->
    awp allowed (then! remove_both workspace (dl_path (pr_item p)) (pr_output p) in
                 then! set_outcome OutcomeUnset in
                 if last then done tt else decide_ [fallback_decision "next candidate in tier"]) s h
      (ends h (fun _ _ => True))) as Hnext by (intros s0 h0 Hi0; apply calm_ends; [calm|done]).
  apply caught_install; [done..| |].
  - intros e h2 s2 Hp2 Hi2. eapply (ends_next _ _ _ _ (fun _ _ => True)).
    { eapply ends_next; [by apply install_failed_ends|]. intros _ h3 s3 _ Hi3 _. apply calm_ends; [calm|done]. }
    intros _ h4 s4 _ Hi4 _. by apply Hnext.
  - intros h2 s2 Hp2 Hs2. eapply (ends_next _ _ _ _ (fun _ _ => True)).
    { apply settled_ends; [done| |intros Hi2; by apply ends_done]. intros s' _ Hs'. by apply decide_finish_ends. }
    intros _ h4 s4 _ Hi4 _. by apply Hnext.
Qed.

Lemma install_tier_ends workspace i ps s h :
  inv h s -> Forall (candidate_ok i h) ps ->
  awp allowed (install_tier_ workspace i installed ps) s h (ends h (fun _ _ => True)).
Proof using Type.
  revert s h. induction ps as [|p ps IH]; intros s h Hi Hps; simpl; [by apply ends_done|].
  inversion_clear Hps as [|? ? Hp Hrest]. eapply ends_next; [by apply install_ranked_ends|]. intros _ h1 s1 Hp1 Hi1 _.
  apply IH; [done|]. eapply Forall_impl; [exact Hrest|]. intros x. by apply candidate_later.
Qed.

Lemma run_tier_ends release workspace i tier s h :
  inv h s -> managed h i -> Forall (competes h) tier ->
  awp allowed (run_tier_ release workspace i installed tier) s h (ends h (fun _ _ => True)).
Proof using Type.
  intros Hi Hm Hc. unfold run_tier. eapply ends_next; [apply calm_ends; [calm|done]|]. intros _ h1 s1 Hp1 Hi1 _.
  assert (managed h1 i) as Hm1 by (by eapply managed_later).
  eapply ends_next.
  { apply prepare_tier_ends; [done|done|]. eapply Forall_impl; [exact Hc|]. intros x. by apply competes_later. }
  intros ps h2 s2 Hp2 Hi2 Hps. apply sort_ready in Hps. cbv zeta.
  eapply ends_next; [apply install_tier_ends; [done|]|].
  { apply all_candidates; [by eapply managed_later|done]. }
  intros _ h3 s3 _ Hi3 _. by apply reject_exhausted_ends.
Qed.

Lemma tournament_ends release workspace i tiers s h :
  inv h s -> managed h i -> Forall (Forall (competes h)) tiers ->
  awp allowed (tournament release workspace i installed tiers) s h (ends h (fun _ _ => True)).
Proof using Type.
  revert s h. induction tiers as [|tier tiers IH]; intros s h Hi Hm Hc; [by apply ends_done|].
  inversion_clear Hc as [|? ? Htier Htiers]. destruct tiers as [|tier' tiers]; [by apply run_tier_ends|].
  change (awp allowed (then! run_tier_ release workspace i installed tier in
    then! check_context in then! decide_ [fallback_decision "next score tier"] in
    tournament release workspace i installed (tier' :: tiers)) s h (ends h (fun _ _ => True))).
  eapply ends_next; [by apply run_tier_ends|]. intros _ h1 s1 Hp1 Hi1 _.
  eapply ends_next; [apply calm_ends; [calm|done]|]. intros _ h2 s2 Hp2 Hi2 _.
  eapply ends_next; [apply calm_ends; [calm|done]|]. intros _ h3 s3 Hp3 Hi3 _.
  assert (h `prefix_of` h3) as Hp by (etrans; [exact Hp1|]; by etrans).
  apply IH; [done|by eapply managed_later|]. eapply Forall_impl; [exact Htiers|]. intros l Hl.
  eapply Forall_impl; [exact Hl|]. intros x. by apply competes_later.
Qed.

(** ** Broad results *)

Abbreviation competing_ :=
  (competing sha256_hex json_candidate json_member json_numbering json_policy env q).
Abbreviation broad_phase_ :=
  (broad_phase sha256_hex json_candidate json_member json_numbering json_policy json_sync json_parse html_unescape
     media_type parse_srt parse_ssa parse_vtt error_text format_3f env q).
Abbreviation acquire_in_ :=
  (acquire_in sha256_hex json_candidate json_member json_numbering json_policy json_sync json_parse html_unescape
     media_type parse_srt parse_ssa parse_vtt decode_manifest cwd cacheRoot error_text format_3f env q).
Abbreviation acquire_ :=
  (acquire sha256_hex json_candidate json_member json_numbering json_policy json_sync json_parse html_unescape
     media_type parse_srt parse_ssa parse_vtt decode_manifest cwd cacheRoot error_text format_3f env q).

Lemma calm_finish_with {A} f : (forall r, not_installed r -> not_installed (f r)) -> calm (finish_with (A:=A) f).
Proof using Type. intros Hf. apply calm_next; [by apply calm_result|]. intros []. apply calm_stop. Qed.

Lemma calm_satisfied i assessed : calm (satisfied_by_assessment i assessed).
Proof using Type. destruct assessed; [|apply calm_done]. by apply calm_finish_with. Qed.

Lemma calm_throttled retry : calm (throttled_until retry).
Proof using Type. destruct retry; [|apply calm_done]. by apply calm_finish_with. Qed.

Lemma calm_classify : calm classify_failures.
Proof using Type.
  apply calm_next; [apply calm_get|]. intros s.
  destruct (classifyCandidateFailures _ _) as [[r [e|]]|] eqn:E; [apply calm_stop| |apply calm_done].
  apply calm_finish_with. intros _ _. unfold classifyCandidateFailures in E.
  destruct (_ <$> _); [done|]. destruct (unavailableErrors _); [|done]. by injection E as <-.
Qed.
#[local] Hint Resolve calm_satisfied calm_throttled calm_classify : calm.

Lemma calm_consume mode r : calm (consume_search mode r).
Proof using Type. apply calm_modify. intros s. by split. Qed.
#[local] Hint Resolve calm_consume : calm.

Lemma calm_rejected_or_none {A} b :
  calm (finish_with (A:=A) (with_only_outcome (if b : bool then OutcomeNoResult else OutcomeRejected))).
Proof using Type. apply calm_finish_with. by destruct b. Qed.

Lemma calm_nothing_found search i assessed records : calm (nothing_found env q search i installed assessed records).
Proof using Type. unfold nothing_found. calm. apply calm_rejected_or_none. Qed.

Lemma calm_nothing_eligible errs i assessed : calm (nothing_eligible q errs i installed assessed).
Proof using Type. unfold nothing_eligible. calm. by apply calm_finish_with. Qed.

Lemma calm_broad_search : calm (broad_search env q).
Proof using Type. unfold broad_search, no_persistence_failure. calm. Qed.

Lemma competing_ends i ranked s h :
  inv h s -> Forall (fun item => score_ok (ECandidate item) (EScore item)) ranked ->
  awp allowed (competing_ i installed ranked) s h
    (ends h (fun h' l => Forall (may_win h') l)).
Proof using Type.
  revert s h. induction ranked as [|item ranked IH]; intros s h Hi Hsc; simpl; [apply ends_done; [done|by apply Forall_nil]|].
  apply Forall_cons in Hsc as [Hsc1 Hsc].
  eapply (ends_next _ _ _ _ (fun h' keep => keep = true -> cleared h' [] (ECandidate item))).
  - unfold may_compete. cbv zeta. destruct (negb _); [by apply ends_done|]. destruct (installed && _).
    { eapply ends_next; [apply calm_ends; [calm|done]|]. intros _ h1 s1 _ Hi1 _. by apply ends_done. }
    eapply ends_next; [apply calm_ends; [calm|done]|]. intros allowed_ h1 s1 Hp1 Hi1 _.
    destruct (negb (allowed_ : bool)); [by apply ends_done|].
    eapply ends_next; [apply keeps_ends; by apply rejection_keeps|]. intros r h2 s2 Hp2 Hi2 Hr.
    destruct r as [r|]; [|apply ends_done; [done|]; intros _; by apply Hr].
    eapply ends_next; [apply calm_ends; [calm|done]|]. intros _ h3 s3 _ Hi3 _. by apply ends_done.
  - intros keep h1 s1 Hp1 Hi1 Hk. eapply ends_next; [by apply IH|]. intros rest h2 s2 Hp2 Hi2 Hrest.
    apply ends_done; [done|]. destruct keep; [|done]. apply Forall_cons. split; [|done].
    split; [|done]. eapply cleared_later; [exact Hp2|]. by apply Hk.
Qed.

Lemma score_tiers_forall (P : Z * EvaluatedCandidate -> Prop) items :
  Forall P items -> Forall (Forall P) (score_tiers items).
Proof using Type.
  induction 1 as [|item items Hitem _ IH]; simpl; [by apply Forall_nil|].
  assert (forall tiers, Forall (Forall P) tiers -> Forall (Forall P) ([item] :: tiers)) as Halone
    by (intros tiers Ht; apply Forall_cons; split; [by apply Forall_singleton|done]).
  destruct (score_tiers items) as [|[|next tier] tiers]; [by apply Halone..|].
  destruct (_ =? _); [|by apply Halone]. apply Forall_cons in IH as [Ht Hts].
  apply Forall_cons. split; [by apply Forall_cons|done].
Qed.

Lemma contenders_forall (P : EvaluatedCandidate -> Prop) items : Forall P items -> Forall P (contenders items).
Proof using Type.
  intros HP. unfold contenders. destruct (List.find _ _) as [item|] eqn:E; [|by apply Forall_take].
  apply List.find_some in E as [Hin _]. apply Forall_singleton. rewrite Forall_forall in HP. apply HP.
  by apply list_elem_of_In.
Qed.

Lemma refresh_ends i assessed ranked s h :
  inv h s -> managed h i ->
  awp allowed (refresh_installed json_sync env q i installed assessed ranked) s h (ends h (fun h' r => managed h' r.1)).
Proof using Type.
  intros Hi Hm. unfold refresh_installed. destruct (matching_installation _ _ _); [|by apply ends_done].
  destruct (List.find _ _) as [item|]; [|by apply ends_done].
  eapply ends_next; [by apply reassess_ends|]. intros updated h1 s1 Hp1 Hi1 Hu.
  eapply ends_next; [apply calm_ends; [unfold refreshed; calm|done]|]. intros _ h2 s2 Hp2 Hi2 _.
  apply ends_done; [done|]. by eapply managed_later.
Qed.

Lemma broad_phase_ends release search workspace i assessed records s h :
  inv h s -> managed h i ->
  awp allowed (broad_phase_ release search workspace i installed assessed records) s h (ends h (fun _ _ => True)).
Proof using Type.
  intros Hi Hm. unfold broad_phase. cbv zeta.
  eapply ends_next; [apply calm_ends; [calm|done]|]. intros _ h2 s2 Hp2 Hi2 _.
  assert (managed h2 i) as Hm2 by (by eapply managed_later).
  eapply ends_next; [by apply refresh_ends|]. intros [i' assessed'] h3 s3 Hp3 Hi3 Hm3. cbn [fst] in Hm3.
  eapply ends_next; [apply competing_ends; [done|]|].
  { unfold Rank. rewrite (stable_sort_perm rank_less _). apply Forall_fmap, Forall_forall. intros c _. apply candidate_score. }
  intros eligible h4 s4 Hp4 Hi4 Hc.
  destruct eligible as [|first eligible]; [apply calm_ends; [apply calm_nothing_eligible|done]|].
  eapply ends_next.
  { apply tournament_ends; [done|by eapply managed_later|]. apply score_tiers_forall.
    apply contenders_forall in Hc. revert Hc. generalize (contenders (first :: eligible)). intros chosen Hc.
    apply Forall_forall. intros [n x] Hx. rewrite Forall_forall in Hc. apply Hc.
    by apply elem_of_zip_r in Hx. }
  intros _ h5 s5 _ Hi5 _. eapply ends_next; [apply calm_ends; [calm|done]|]. intros _ h6 s6 _ Hi6 _.
  apply calm_ends; [by apply calm_finish_with|done].
Qed.

(** ** The whole tier *)

Lemma acquire_in_ends workspace s h :
  inv h s -> awp allowed (acquire_in_ workspace existing installed) s h (ends h (fun _ _ => True)).
Proof using Type.
  intros Hi. unfold acquire_in. eapply ends_next; [apply cached_phase_ends; [done|constructor]|].
  intros [i assessed] h1 s1 _ Hi1 Hm1. cbn [fst] in Hm1.
  eapply ends_next; [apply calm_ends; [calm|done]|]. intros [exact listed] h2 s2 Hp2 Hi2 _.
  eapply ends_next; [apply calm_ends; [calm|done]|]. intros _ h3 s3 Hp3 Hi3 _.
  eapply ends_next; [apply calm_ends; [unfold no_persistence_failure; calm|done]|]. intros _ h4 s4 Hp4 Hi4 _.
  eapply ends_next; [apply calm_ends; [calm|done]|]. intros _ h5 s5 Hp5 Hi5 _.
  eapply ends_next; [by apply media_available_ends|]. intros _ h6 s6 Hp6 Hi6 _.
  assert (managed h6 i) as Hm6 by (eapply managed_later; [|exact Hm1]; repeat (etrans; [eassumption|]); done).
  eapply ends_next; [by apply try_exacts_ends|]. intros records h7 s7 Hp7 Hi7 _.
  eapply ends_next; [apply calm_ends; [apply calm_broad_search|done]|]. intros [search release] h8 s8 Hp8 Hi8 _.
  eapply ends_next; [apply calm_ends; [calm|done]|]. intros _ h9 s9 Hp9 Hi9 _.
  eapply ends_next; [apply calm_ends; [unfold no_persistence_failure; calm|done]|]. intros _ h10 s10 Hp10 Hi10 _.
  eapply ends_next; [apply calm_ends; [calm|done]|]. intros _ h11 s11 Hp11 Hi11 _.
  eapply ends_next; [by apply media_available_ends|]. intros _ h12 s12 Hp12 Hi12 _.
  eapply ends_next; [apply calm_ends; [by apply calm_result|done]|]. intros _ h13 s13 Hp13 Hi13 _.
  case_bool_decide; [apply calm_ends; [apply calm_nothing_found|done]|].
  apply broad_phase_ends; [done|]. eapply managed_later; [|exact Hm6]. repeat (etrans; [eassumption|]); done.
Qed.
Lemma acquire_body_ends s h :
  inv h s -> awp allowed
    (acquire_body sha256_hex json_candidate json_member json_numbering json_policy json_sync json_parse html_unescape
       media_type parse_srt parse_ssa parse_vtt decode_manifest cwd cacheRoot error_text format_3f env q existing installed)
    s h (ends h (fun _ _ => True)).
Proof using Type.
  intros Hi. unfold acquire_body. eapply ends_next; [apply calm_ends; [calm|done]|]. intros made h1 s1 _ Hi1 _.
  destruct made as [workspace|]; [|apply calm_ends; [calm|done]].
  apply awp_next, awp_outcome_of. eapply awp_mono; [by apply acquire_in_ends|]. intros h2 s2 r _ [Hp2 Hr].
  call_step; [done|]. intros x.
  assert (forall e, left_early h2 s2 e -> left_early (h2 ++ [Ev (RemoveAll workspace) x]) s2 e) as Hleft.
  { intros [|e] [Hl He]; (split; [by apply latch_snoc|]); [|by destruct He; split; [apply never_snoc|]].
    destruct He as [[Hn Hr']|(Ho & rq & sync & i & He & Hres)]; [left; split; [by apply never_snoc|done]|right].
    split; [done|]. exists rq, sync, i. split; [apply elem_of_app; by left|done]. }
  destruct r as [a|e]; split.
  - etrans; [exact Hp2|]. by apply prefix_app_r.
  - split; [|done]. apply plain_step; [done|apply Hr].
  - etrans; [exact Hp2|]. by apply prefix_app_r.
  - by apply Hleft.
Qed.

(** What every end of a tier leaves: the latch, and a result that says whether
    something was installed. *)
Definition tier_end (h : history answer) (e : Result * option WorkflowError * shared) : Prop :=
  let '(result, err, sh) := e in
  (once lapse_timeout h \/ is_Some latched -> is_Some (sh_latch sh))
  /\ match err with
     | Some _ => never installs h /\ ROutcome result <> OutcomeInstalled
     | None => installed_as h result
     end.

Lemma acquire_allowed sh :
  sh_latch sh = latched -> wp allowed (acquire_ existing installed sh) [] tier_end.
Proof using Type.
  intros Hsh. unfold acquire. apply wp_then. eapply wp_consequence; [apply acquire_body_ends|].
  - split_and!; [done|done| |done]. intros [Ho|Ho]; [done|]. cbn. by rewrite Hsh.
  - intros h [s r] _ [_ Hr]. cbn in *. destruct r as [a|[|e]].
    + destruct Hr as [(Hn & _ & Hl & Hres) _]. split; [done|]. by left.
    + destruct Hr as [Hl Hi]. split; [done|]. exact Hi.
    + destruct Hr as [Hl Hn]. by split.
Qed.

End safety.
