(* ===== verification/AcquireRuns.v ===== *)
(** * Runs of a search tier (properties of Acquire.v)

    What the traces of [acquire] show, for every run against every partner:
    the theorems read off the permissions of AcquireSafety.v. One run with two
    candidates is evaluated: the first one's timing does not fit, it is
    rejected, and the second one is installed. The runs that install in place
    of a subtitle are also followed over time: upgrades end. *)
From S2P Require Import ProviderGate Prelude GoText GoFloat Paths Domain MatchRelease MatchScore PackEvidence PackSelect PackVersions SearchQueue Schedule Outbox InstallStore Disk Install Workflow Coordinator ProviderTiers Rejections Refusals LangCheck ReleaseNumbering Inventory Calls Candidates CachedPacks Acquire AcquireSafety.

#[local] Open Scope Z_scope.

(** ** One run *)

#[local] Existing Instance sample_tags.
#[local] Instance no_parser : NameParser := fun _ => None.

Definition demo_candidate (result : text) : Candidate :=
  {| ProviderID := t "os"; ResultID := result; CLanguage := t "hr"; Kind := MediaEpisode; CTitle := t "Show";
     CAlternateTitles := []; EvidenceVersion := []; CYear := 2010; CSeason := 1; CEpisode := 2;
     CAbsoluteEpisode := 0; CExternalIDs := mkExternalIDs [] 0 0;
     ReleaseNames := [t "Show.1x02.03.720p.HDTV"]; ReleaseGroups := [t "DIMENSION"]; Resolutions := [];
     ExactHash := false; Forced := false; HearingImpaired := false; Rating := (1 # 2)%Q; Popularity := 2%Q;
     DownloadCount := 10; DownloadRef := []; DownloadVersion := []; Pack := None; ReleaseNumbered := false |}.

Definition demo_settings : Acquisition :=
  mkAcquisition (mkService [t "os"] [] None false 10 8 0 0 (1 # 2)%Q) false 0 0 (mkPolicy (t "always") 75 true true true true true) false false
    (Some (t "lapse-1")) (t "1") {[t "os"]} (fun _ => true) (fun _ => true) None 1.

Definition demo_request : Request := mkRequest 1 sample_range_media (t "hr") false 0 [] [] false.

Definition demo_manifest (c : Candidate) (destination : text) : Manifest :=
  mkManifest false (t "os") (ResultID c) (t "hr") (ResultID c) (t "plain") c
    [mkMember (t "Show.1x02-03.srt") (destination ++ t "/Show.1x02-03.srt") (ResultID c) 30 1 2 3 0 0 (t "show") false [] []] 0.

Definition demo_sync (verdict : string) : SyncResult :=
  mkSync (t verdict) (t "full") (t "audio") 120 1%Q (95 # 100)%Q 1%Q 1%Q 1%Q 1%Q 1 0.

(** Every call succeeds, but the timing of the first candidate does not fit; the
    state counts the runs of LAPSE. *)
Definition demo_respond (c : call) (w : nat) : answer c * nat :=
  match c return answer c * nat with
  | Synchronize _ _ _ _ => ((if (w =? 0)%nat then Err (VerdictE (t "non-solid")) else Ok (demo_sync "solid")), S w)
  | CtxErr => (None, w)
  | ClockNow => (0, w)
  | StatMedia _ | OpenMedia _ | StatOpened | ReadMedia _ => (MediaThere 1, w)
  | MediaRace => (ProbeFinished, w)
  | MkdirTemp => (Some (t "/tmp/work"), w)
  | RemoveFile _ => (Removed, w)
  | ReadArtifact path => (Some path, w)
  | ReadCache _ => (None, w)
  | RemoveAll _ | RenameFile _ _ | CreatePayload _ | SyncPayload | ClosePayload | ReadPayload _ | StatPayload _
  | OpenPayload _ => (true, w)
  | CheckDownload _ | PutRejection _ | DeletePack _ | TouchPack _ _ | PutPack _ _ | RecordCandidates _ _ _
  | UpdateAssessment _ | RecordRefusal _ _ => (None, w)
  | Download c => (mkDownload [(u8 "1 00:00:01,000", (100%nat, false))] [] (t "text/plain") None, w)
  | Extract c _ destination => (Ok (demo_manifest c destination), w)
  | WitnessRefusal _ _ => (None, w)
  | GetRejection _ => (Ok None, w)
  | RecordLapseFailure _ => (Ok false, w)
  | ListReusablePacks _ _ _ => (Ok [], w)
  | LstatCache _ => (LsMissing, w)
  | SearchProviders _ query =>
      ((mkSearchResult (if bool_decide (QryMode query = SearchBroad) then [demo_candidate (t "1"); demo_candidate (t "2")] else [])
          ∅ [t "os"] [], true), w)
  | InstallSubtitle _ _ => (Ok sample_installed, w)
  | RefreshInventory _ m _ => (Ok (mkInventory (Fingerprint m) []), w)
  | ReadInstallation _ _ => (Ok None, w)
  | Reconcile _ => (Ok (mkReconciliation false false false 0), w)
  | RemoveSubtitle _ => (None, w)
  | RandomUnit => ((1 # 2)%Q, w)
  end.

Definition demo_acquire : prog answer (Result * option WorkflowError * shared) :=
  acquire (fun payload => payload) ResultID RefID (fun _ => []) (fun _ => t "policy") (fun s => Verdict s)
    (fun _ => None) (fun s => s) (fun s => s) (fun _ => None) (fun _ => None) (fun _ => None) (fun _ => None)
    [] [] (fun _ => t "error") (fun _ => []) demo_settings demo_request no_installation false (mkShared ∅ None [] []).

Definition demo_run := execute demo_respond demo_acquire 0%nat.

(** ** Every run *)

Section runs.
Context `{Unicode} `{NameParser} `{LanguageTags}.
Context (sha256_hex : list N -> text) (json_candidate : Candidate -> list N) (json_member : PackMemberRef -> list N)
        (json_numbering : NumberingEvidence -> list N) (json_policy : LapsePolicy -> list N)
        (json_sync : SyncResult -> text).
Context (json_parse : list N -> option json) (html_unescape : text -> text) (media_type : text -> text).
Context (parse_srt parse_ssa parse_vtt : text -> option (list cue)).
Context (decode_manifest : list N -> option Manifest) (cwd cacheRoot : text).
Context (error_text : WorkflowError -> text) (format_3f : float64 -> text).
Context (env : Acquisition) (q : Request) (existing : Installation) (installed : bool) (sh : shared).

Abbreviation acquire_ :=
  (acquire sha256_hex json_candidate json_member json_numbering json_policy json_sync json_parse html_unescape
     media_type parse_srt parse_ssa parse_vtt decode_manifest cwd cacheRoot error_text format_3f env q existing
     installed sh).
Abbreviation allowed_ :=
  (allowed sha256_hex json_candidate json_member json_numbering json_policy json_sync env q installed existing
     (sh_latch sh)).

Lemma run_allowed h result err sh' :
  runs acquire_ h (result, err, sh') ->
  tier_end (sh_latch sh) h (result, err, sh') /\ forall i e, h !! i = Some e -> allowed_ (take i h) (ev_call e).
Proof using Type.
  intros Hr. eapply (wp_runs _ _ [] _ _ _ Hr). by apply acquire_allowed.
Qed.

Lemma run_calls h result err sh' i c x :
  runs acquire_ h (result, err, sh') -> h !! i = Some (Ev c x) -> allowed_ (take i h) c.
Proof using Type. intros Hr Hi. by apply run_allowed in Hr as [_ Hall]; apply Hall in Hi. Qed.

Lemma take_once (f : event answer -> bool) (h : history answer) i j e :
  h !! i = Some e -> f e = true -> (i < j)%nat -> never f (take j h) -> False.
Proof using Type.
  intros Hi He Hj Hn. rewrite never_spec in Hn. rewrite (Hn e) in He; [done|].
  apply list_elem_of_lookup. exists i. by rewrite lookup_take_lt.
Qed.

(** What may follow an installation. *)
Definition cleanup_call (c : call) : Prop :=
  match c with CtxErr | ClockNow | RemoveFile _ | RemoveAll _ => True | _ => False end.

(** What a failed look at the media file forbids. *)
Definition judges (c : call) : Prop :=
  match c with
  | InstallSubtitle _ _ | Synchronize _ _ _ _ | PutRejection _ | RecordLapseFailure _ => True
  | _ => False
  end.

(** C17. The installer is asked to install a text only when it may be: its
    candidate's score reaches the minimum, none of its rejection records was
    found, it is not the installed candidate and improves on the installed one,
    its language was checked, its timing comes from a hash match, a policy that
    skips LAPSE or a solid run of LAPSE that wrote this very text, and it
    replaces another subtitle only under that one's path and format and never
    with the text a replacement search replaces. *)
Theorem installs_are_justified h result err sh' i rq sync x :
  runs acquire_ h (result, err, sh') -> h !! i = Some (Ev (InstallSubtitle rq sync) x) ->
  exists p over checksum,
    rq = install_request sha256_hex json_candidate json_member json_numbering json_policy json_sync env q p
           (install_over env over installed) checksum
    /\ sync = pr_sync p
    /\ managed json_sync existing (take i h) over
    /\ preparation_refused env q (pr_item p) installed over = None
    /\ cleared sha256_hex json_candidate json_member json_numbering json_policy env q (take i h)
         (dl_scope (pr_item p)) (dl_candidate (pr_item p))
    /\ language_checked q (take i h) (dl_path (pr_item p))
    /\ timing env q installed (take i h) (pr_item p) sync (pr_output p)
    /\ over_ok sha256_hex env installed (take i h) over p.
Proof using Type.
  intros Hr Hi. pose proof (run_calls _ _ _ _ _ _ _ Hr Hi) as (_ & _ & p & over & checksum & -> & -> & Hm & [Hp Hc] & Ho).
  destruct Hp as (_ & Hp & Hl & Ht). exists p, over, checksum. by split_and!.
Qed.

(** A run installs at most one subtitle. After it only the clock, the
    context and removals of the workspace are called, no error is returned, and
    the result says installed and names that installation, its candidate and
    score; without one, the result does not say installed. *)
Theorem installs_once_and_reports_it h result err sh' :
  runs acquire_ h (result, err, sh') ->
  (never installs h /\ ROutcome result <> OutcomeInstalled)
  \/ exists i rq sync installation,
      h !! i = Some (Ev (InstallSubtitle rq sync) (Ok installation))
      /\ err = None /\ ROutcome result = OutcomeInstalled /\ RInstallation result = installation
      /\ RCandidate result = QCandidate rq /\ RScore result = QScore rq
      /\ forall j e, j <> i -> h !! j = Some e ->
           installs e = false /\ ((i < j)%nat -> cleanup_call (ev_call e)).
Proof using Type.
  intros Hr. apply run_allowed in Hr as [[_ Hend] Hall].
  assert (forall i j e e', h !! i = Some e -> installs e = true -> (i < j)%nat -> h !! j = Some e' ->
            cleanup_call (ev_call e')) as Hafter.
  { intros i j e e' Hi He Hj Hj'. apply Hall in Hj'. destruct e' as [c x]. simpl in Hj'.
    destruct c; try done; exfalso; (eapply take_once; [exact Hi|exact He|exact Hj|]); first [exact Hj'|apply Hj']. }
  assert (forall i e, h !! i = Some e -> cleanup_call (ev_call e) -> installs e = false) as Hclean
    by (intros i [[] x] _; done).
  destruct err as [e|]; [by left|].
  destruct Hend as [[Hn Ho]|(Ho & rq & sync & installation & He & Hi & Hc & Hs)]; [by left|right].
  apply list_elem_of_lookup in He as [i He]. exists i, rq, sync, installation.
  split_and!; [done..|]. intros j e Hne Hj. destruct (decide (i < j)%nat) as [Hlt|Hge].
  - assert (cleanup_call (ev_call e)) by (by eapply (Hafter i j); [exact He|done|..]). split; [by eapply Hclean|done].
  - split; [|lia]. destruct (installs e) eqn:Ei; [|done]. exfalso.
    assert (j < i)%nat as Hlt by lia. pose proof (Hafter _ _ _ _ Hj Ei Hlt He) as Hx. done.
Qed.

(** Once LAPSE timed out, in this tier or in the one before, it is not run
    again, and the timeout is passed on to the next tier. *)
Theorem lapse_timeout_is_latched h result err sh' :
  runs acquire_ h (result, err, sh') ->
  (forall i c media source output x,
     h !! i = Some (Ev (Synchronize c media source output) x) ->
     sh_latch sh = None /\ forall j e, (j < i)%nat -> h !! j = Some e -> lapse_timeout e = false)
  /\ (is_Some (sh_latch sh) \/ (exists e, e ∈ h /\ lapse_timeout e = true) -> is_Some (sh_latch sh')).
Proof using Type.
  intros Hr. split.
  - intros i c media source output x Hi. pose proof (run_calls _ _ _ _ _ _ _ Hr Hi) as (_ & _ & Hn & Hl).
    split; [done|]. intros j e Hj He. destruct (lapse_timeout e) eqn:E; [|done]. by destruct (take_once _ _ _ _ _ He E Hj).
  - apply run_allowed in Hr as [[Hl _] _]. intros [Hs|(e & He & Ht)]; apply Hl; [by right|left].
    unfold once. apply existsb_exists. exists e. split; [|done]. by apply list_elem_of_In.
Qed.

(** C29. After a look at the media file that failed (it is missing, not a
    regular file, unreadable, or the read timed out) no candidate is installed,
    timed, rejected or charged with a failure of LAPSE: an offline disk never
    counts against subtitles. *)
Theorem offline_media_blames_nobody h result err sh' i j e e' :
  runs acquire_ h (result, err, sh') ->
  h !! i = Some e -> media_bad e = true -> (i < j)%nat -> h !! j = Some e' -> ~ judges (ev_call e').
Proof using Type.
  intros Hr Hi He Hj He' Hc. destruct e' as [c x]. pose proof (run_calls _ _ _ _ _ _ _ Hr He') as Ha.
  destruct c; try done; (eapply take_once; [exact Hi|exact He|exact Hj|]); apply Ha.
Qed.
End runs.

(** ** Upgrades *)

Section upgrades.
Context `{Unicode} `{NameParser} `{LanguageTags}.
Context (sha256_hex : list N -> text) (json_candidate : Candidate -> list N) (json_member : PackMemberRef -> list N)
        (json_numbering : NumberingEvidence -> list N) (json_policy : LapsePolicy -> list N)
        (json_sync : SyncResult -> text).
Context (json_parse : list N -> option json) (html_unescape : text -> text) (media_type : text -> text).
Context (parse_srt parse_ssa parse_vtt : text -> option (list cue)).
Context (decode_manifest : list N -> option Manifest) (cwd cacheRoot : text).
Context (error_text : WorkflowError -> text) (format_3f : float64 -> text).
Context (s : Service) (media : Media).








End upgrades.

(** ** The theorems on the run of two candidates *)

Definition demo_trace : history answer := demo_run.1.1.
Definition demo_result : Result := demo_run.1.2.1.1.
Definition demo_error : option WorkflowError := demo_run.1.2.1.2.
Definition demo_shared : shared := demo_run.1.2.2.

Lemma demo_runs : runs demo_acquire demo_trace (demo_result, demo_error, demo_shared).
Proof.
  pose proof (execute_runs demo_respond demo_acquire 0%nat) as Hr. fold demo_run in Hr.
  unfold demo_trace, demo_result, demo_error, demo_shared. revert Hr. generalize demo_run.
  intros [[h [[r e] s]] w]. done.
Qed.

Definition is_install (e : event answer) : bool := match ev_call e with InstallSubtitle _ _ => true | _ => false end.
Definition is_sync (e : event answer) : bool := match ev_call e with Synchronize _ _ _ _ => true | _ => false end.
Definition positions (f : event answer -> bool) : list nat :=
  (filter (fun ie => f ie.2 = true) (zip (seq 0 (length demo_trace)) demo_trace)).*1.

(** LAPSE runs twice; the second text is installed and nothing else follows but
    the clock and the removal of the workspace. *)
Example demo_positions : positions is_sync = [38; 70]%nat /\ positions is_install = [74]%nat /\ length demo_trace = 77%nat.
Proof. vm_compute. done. Qed.

Lemma demo_install : exists rq sync x, demo_trace !! 74%nat = Some (Ev (InstallSubtitle rq sync) x).
Proof.
  assert (is_install <$> demo_trace !! 74%nat = Some true) as Hi by (vm_compute; reflexivity).
  destruct (demo_trace !! 74%nat) as [[c x]|]; [|discriminate]. destruct c; try discriminate. eauto.
Qed.

Lemma installs_are_justified_witness :
  exists rq sync x p over,
    demo_trace !! 74%nat = Some (Ev (InstallSubtitle rq sync) x)
    /\ sync = pr_sync p /\ preparation_refused demo_settings demo_request (pr_item p) false over = None
    /\ timing demo_settings demo_request false (take 74 demo_trace) (pr_item p) sync (pr_output p).
Proof.
  destruct demo_install as (rq & sync & x & Hi).
  destruct (installs_are_justified _ _ _ _ _ _ _ _ _ _ _ _ _ _ _ _ _ _ _ _ _ _ _ _ _ _ _ _ _ _ demo_runs Hi)
    as (p & over & checksum & _ & Hs & _ & Hp & _ & _ & Ht & _).
  exact (ex_intro _ rq (ex_intro _ sync (ex_intro _ x (ex_intro _ p (ex_intro _ over
    (conj Hi (conj Hs (conj Hp Ht)))))))).
Defined.

Lemma demo_installed : demo_error = None /\ ROutcome demo_result = OutcomeInstalled.
Proof. vm_compute. done. Qed.

Lemma installs_once_and_reports_it_witness :
  exists i rq sync installation,
    demo_trace !! i = Some (Ev (InstallSubtitle rq sync) (Ok installation)) /\ RInstallation demo_result = installation
    /\ forall j e, j <> i -> demo_trace !! j = Some e -> installs e = false.
Proof.
  destruct demo_installed as [He Ho].
  destruct (installs_once_and_reports_it _ _ _ _ _ _ _ _ _ _ _ _ _ _ _ _ _ _ _ _ _ _ _ _ _ _ demo_runs)
    as [[_ Hn]|(i & rq & sync & installation & Hi & _ & _ & Hr & _ & _ & Hj)]; [by destruct (Hn Ho)|].
  exists i, rq, sync, installation. split; [exact Hi|split; [exact Hr|]]. intros j e Hne Hje. by apply (Hj j e).
Defined.

Lemma demo_timing :
  exists c media source output x, demo_trace !! 70%nat = Some (Ev (Synchronize c media source output) x).
Proof.
  assert (is_sync <$> demo_trace !! 70%nat = Some true) as Hi by (vm_compute; reflexivity).
  destruct (demo_trace !! 70%nat) as [[c x]|]; [|discriminate]. destruct c; try discriminate. by repeat eexists.
Qed.

Lemma lapse_timeout_is_latched_witness :
  exists c media source output x,
    demo_trace !! 70%nat = Some (Ev (Synchronize c media source output) x)
    /\ forall j e, (j < 70)%nat -> demo_trace !! j = Some e -> lapse_timeout e = false.
Proof.
  destruct demo_timing as (c & media & source & output & x & Hi). exists c, media, source, output, x. split; [exact Hi|].
  exact (proj2 (proj1 (lapse_timeout_is_latched _ _ _ _ _ _ _ _ _ _ _ _ _ _ _ _ _ _ _ _ _ _ _ _ _ _ demo_runs)
    70%nat c media source output x Hi)).
Defined.

(** The same partner with the media's disk gone. *)
Definition offline_respond (c : call) (w : nat) : answer c * nat :=
  match c return answer c * nat with StatMedia _ => (MediaGone, w) | c => demo_respond c w end.

Definition offline_run := execute offline_respond demo_acquire 0%nat.

Lemma offline_runs : exists result err sh', runs demo_acquire offline_run.1.1 (result, err, sh').
Proof.
  pose proof (execute_runs offline_respond demo_acquire 0%nat) as Hr. fold offline_run in Hr. revert Hr.
  generalize offline_run. intros [[h [[r e] s]] w] Hr. by exists r, e, s.
Qed.

(** The failed look and the removal of the workspace. *)
Lemma offline_events :
  media_bad <$> offline_run.1.1 !! 3%nat = Some true /\ is_Some (offline_run.1.1 !! 4%nat) /\ length offline_run.1.1 = 5%nat.
Proof. vm_compute. split; [reflexivity|]. split; [eexists; reflexivity|reflexivity]. Qed.

Lemma offline_media_blames_nobody_witness :
  exists e e', offline_run.1.1 !! 3%nat = Some e /\ media_bad e = true
    /\ offline_run.1.1 !! 4%nat = Some e' /\ ~ judges (ev_call e').
Proof.
  destruct offline_runs as (result & err & sh' & Hr). destruct offline_events as (Hb & [e' He'] & _).
  destruct (offline_run.1.1 !! 3%nat) as [e|] eqn:He; [|discriminate]. injection Hb as Hb.
  exists e, e'. split; [reflexivity|split; [exact Hb|split; [exact He'|]]].
  exact (offline_media_blames_nobody _ _ _ _ _ _ _ _ _ _ _ _ _ _ _ _ _ _ _ _ _ _ _ _ _ _ 3%nat 4%nat e e' Hr He Hb ltac:(lia) He').
Defined.









