(* ===== verification/RunSafety.v ===== *)
(** * What a whole search may do (properties of Run.v)

    For every behaviour of the store, the providers, LAPSE, the installer and
    the files: a search installs at most one subtitle over both tiers, or
    removes the rejected one, never both; it asks to remove only a subtitle the
    owner rejected, that is still unedited, after a search no provider failed; it
    searches only for a language the last inventory does not cover; and LAPSE
    is not run again after a timeout, in either tier.

    The tiers' own part comes from AcquireSafety.v, framed into the history of
    the run. The reconciliation with the media file, which comes first, removes
    subtitles of its own (Reconcile.v). *)
From S2P Require Import ProviderGate Prelude GoText GoFloat Paths Domain MatchRelease MatchScore PackEvidence PackSelect PackVersions SearchQueue Schedule Outbox InstallStore Disk Install Workflow Coordinator ProviderTiers Rejections Refusals LangCheck ReleaseNumbering Inventory Calls Candidates CachedPacks Acquire Run AcquireSafety AcquireRuns.

#[local] Open Scope Z_scope.

(** ** Events *)

(** The installer was asked to remove the managed subtitle. *)
Definition removal_asked : event answer -> bool :=
  ev_case (fun c => match c return answer c -> bool with RemoveSubtitle _ => fun _ => true | _ => fun _ => false end).

Definition inventory_of (e : event answer) : option Inventory :=
  match e with
  | Event c x => match c return answer c -> option Inventory with
      | RefreshInventory _ _ _ => fun r => match r with Ok current => Some current | Err _ => None end
      | _ => fun _ => None
      end x
  end.

Definition record_of (e : event answer) : option (option Installation) :=
  match e with
  | Event c x => match c return answer c -> option (option Installation) with
      | ReadInstallation _ _ => fun r => match r with Ok recorded => Some recorded | Err _ => None end
      | _ => fun _ => None
      end x
  end.

(** The last inventory and the last record read. *)
Definition last_inventory (h : history answer) : option Inventory := last (omap inventory_of h).
Definition last_record (h : history answer) : option (option Installation) := last (omap record_of h).

(** Calls within a tier: neither the inventory nor the record is read, nothing
    is settled or removed. *)
Definition tier_call (c : call) : Prop :=
  match c with
  | RefreshInventory _ _ _ | ReadInstallation _ _ | Reconcile _ | RemoveSubtitle _ | RandomUnit => False
  | _ => True
  end.

Definition tier_part (h : history answer) : Prop := Forall (fun e => tier_call (ev_call e)) h.

Lemma tier_part_snoc h c x : tier_part h -> tier_call c -> tier_part (h ++ [Ev c x]).
Proof. intros Hh Hc. apply Forall_app. split; [done|]. by constructor. Qed.

Lemma omap_none {A B} (f : A -> option B) l : Forall (fun x => f x = None) l -> omap f l = [].
Proof. induction 1 as [|x l Hx _ IH]; [done|]. csimpl. by rewrite Hx. Qed.

Lemma omap_skip {A B} (f : A -> option B) l l' : Forall (fun x => f x = None) l' -> omap f (l ++ l') = omap f l.
Proof. intros Hl. rewrite omap_app, (omap_none _ _ Hl). by rewrite (right_id_L [] (++)). Qed.

Lemma skip_inventory h e : inventory_of e = None -> last_inventory (h ++ [e]) = last_inventory h.
Proof. intros He. unfold last_inventory. rewrite omap_skip; [done|by constructor]. Qed.

Lemma skip_record h e : record_of e = None -> last_record (h ++ [e]) = last_record h.
Proof. intros He. unfold last_record. rewrite omap_skip; [done|by constructor]. Qed.

Lemma tier_part_reads h0 h :
  tier_part h -> last_inventory (h0 ++ h) = last_inventory h0 /\ last_record (h0 ++ h) = last_record h0.
Proof.
  intros Hh. unfold last_inventory, last_record. rewrite !omap_skip; [done|..];
    (eapply Forall_impl; [exact Hh|]; intros [[] x] Hc; done).
Qed.

Lemma tier_part_removals h : tier_part h -> never removal_asked h.
Proof. intros Hh. apply never_spec. intros e He. eapply Forall_forall in Hh; [|exact He]. by destruct e as [[] x]. Qed.

(** Only a timeout of LAPSE is one. *)
Definition nothing_yet (h : history answer) : Prop :=
  never installs h /\ never removal_asked h /\ never lapse_timeout h.

(** The result says exactly what was installed. *)
Definition reports (h : history answer) (r : Result) : Prop :=
  (never installs h /\ ROutcome r <> OutcomeInstalled)
  \/ (ROutcome r = OutcomeInstalled
      /\ exists rq sync i, Ev (InstallSubtitle rq sync) (Ok i) ∈ h /\ RInstallation r = i).

Lemma reports_same h r r' :
  reports h r -> ROutcome r' = ROutcome r -> RInstallation r' = RInstallation r -> reports h r'.
Proof.
  intros [[Hn Ho]|(Ho & rq & sync & i & He & Hi)] E1 E2; [left; split; [done|congruence]|right].
  split; [congruence|]. exists rq, sync, i. split; [done|congruence].
Qed.

Lemma reports_not h r r' : reports h r -> ROutcome r <> OutcomeInstalled -> ROutcome r' <> OutcomeInstalled -> reports h r'.
Proof. intros [[Hn _]|[Ho _]] Hne Hne'; [by left|done]. Qed.

(** ** The answers of both tiers *)

Lemma retain_not_installed s r err existing :
  ROutcome r <> OutcomeInstalled -> ROutcome (retainFallback s r err existing).1 <> OutcomeInstalled.
Proof.
  intros Hr. unfold retainFallback. destruct (_ || _); [done|]. by destruct (installedScore _) as [[]|].
Qed.

(** What the preferred tier installed is what its answer reports. *)
Lemma after_preferred_reports s q existing installed first r err :
  after_preferred s q existing installed first = Some (r, err) ->
  (ROutcome r = ROutcome (aq_result first) /\ RInstallation r = RInstallation (aq_result first))
  \/ (ROutcome (aq_result first) <> OutcomeInstalled /\ ROutcome r <> OutcomeInstalled)
  \/ (is_Some (aq_err first) /\ ROutcome r = ROutcome (aq_result first)).
Proof.
  unfold after_preferred. cbv zeta. destruct (aq_canceled first) as [e|]; [intros [= <- <-]; by left|].
  destruct (match aq_err first with Some _ => _ | None => _ end) eqn:Ee; [intros [= <- <-]; by left|].
  destruct (negb (bool_decide (is_Some (aq_err first))) && _) eqn:Eo; [intros [= <- <-]; by left|].
  destruct (negb (hasFallbackSearcher s) || _); [intros [= <- <-]; by left|].
  destruct (installed && _ && negb _); [intros [= <- <-]; by left|].
  destruct (installed && _); [|done]. destruct (installedScore existing) as [[score [|]]|e] eqn:Es; [|done|intros [= <- <-]; by left].
  intros [= Hr]. apply andb_false_iff in Eo as [Eo|Eo].
  - right. right. apply negb_false_iff, bool_decide_eq_true in Eo. split; [done|].
    unfold retainFallback in Hr. rewrite (bool_decide_eq_true_2 _ Eo) in Hr. cbn in Hr. by injection Hr as <- _.
  - apply orb_false_iff in Eo as [Eo _]. apply bool_decide_eq_false in Eo. right. left. split; [done|].
    pose proof (retain_not_installed s _ (aq_err first) existing Eo) as Hn. by rewrite Hr in Hn.
Qed.

Lemma after_preferred_none s q existing installed first :
  after_preferred s q existing installed first = None ->
  is_Some (aq_err first) \/ ROutcome (aq_result first) <> OutcomeInstalled.
Proof.
  unfold after_preferred. cbv zeta. destruct (aq_canceled first) as [e|]; [done|].
  destruct (match aq_err first with Some _ => _ | None => _ end) eqn:Ee; [done|].
  destruct (negb (bool_decide (is_Some (aq_err first))) && _) eqn:Eo; [done|]. intros _.
  apply andb_false_iff in Eo as [Eo|Eo].
  - left. by apply negb_false_iff, bool_decide_eq_true in Eo.
  - right. apply orb_false_iff in Eo as [Eo _]. by bools.
Qed.

Lemma after_fallback_reports s active existing first second r err :
  after_fallback s active existing first second = (r, err) ->
  (ROutcome r = ROutcome (aq_result second) /\ RInstallation r = RInstallation (aq_result second))
  \/ (aq_err second = None /\ ROutcome (aq_result second) <> OutcomeInstalled /\ ROutcome r <> OutcomeInstalled).
Proof.
  unfold after_fallback. cbv zeta. destruct (aq_canceled second) as [e|]; [intros [= <- <-]; by left|].
  destruct (match aq_err second with Some _ => _ | None => _ end) eqn:Ee; [intros [= <- <-]; by left|].
  destruct (negb (bool_decide (is_Some (aq_err second))) && _) eqn:Eo; [intros [= <- <-]; by left|].
  destruct (bool_decide (is_Some (aq_err first)) || _) eqn:Eerr; [intros [= <- <-]; by left|].
  apply orb_false_iff in Eerr as [_ Eerr]. rewrite Eerr in Eo. cbn in Eo. apply bool_decide_eq_false in Eo, Eerr.
  assert (aq_err second = None) as Hnone by (destruct (aq_err second); [by destruct Eerr|done]).
  intros Hr. right. split; [done|]. split; [done|]. revert Hr.
  set (r0 := if bool_decide (ROutcome (aq_result first) = OutcomeThrottled) then _ else _).
  assert (ROutcome r0 <> OutcomeInstalled) as Hr0 by (unfold r0; by case_bool_decide).
  destruct active.
  - intros Hr. pose proof (retain_not_installed s r0 None existing Hr0) as Hn. by rewrite Hr in Hn.
  - clearbody r0. destruct (bool_decide (ROutcome r0 = _) && _); by intros [= <- <-].
Qed.

Lemma schedule_keeps s r attempt released installed :
  let r' := scheduleUpgrade s r attempt released installed in
  ROutcome r' = ROutcome r /\ RInstallation r' = RInstallation r /\ RProviderErrors r' = RProviderErrors r.
Proof. cbv zeta. unfold scheduleUpgrade. repeat case_match; done. Qed.

Lemma finish_resume_keeps sha s q installed r err :
  let r' := finishProviderResume sha s q installed r err in
  ROutcome r' = ROutcome r /\ RInstallation r' = RInstallation r /\ RProviderErrors r' = RProviderErrors r.
Proof. unfold finishProviderResume. cbv zeta. by destruct (_ || _). Qed.

Lemma validated_keeps sha s q q' :
  validatedResumeRequest sha s q = Ok q' -> QLanguage q' = QLanguage q /\ QReplaceInstalled q' = QReplaceInstalled q.
Proof. unfold validatedResumeRequest. destruct (_ || _); [by intros [= <-]|]. destruct (valid_resume _ _ _); [by intros [= <-]|done]. Qed.

Section safety.
Context `{Unicode} `{NameParser} `{LanguageTags}.
Context (sha256_hex : list N -> text) (json_candidate : Candidate -> list N) (json_member : PackMemberRef -> list N)
        (json_numbering : NumberingEvidence -> list N) (json_policy : LapsePolicy -> list N)
        (json_sync : SyncResult -> text).
Context (json_parse : list N -> option json) (html_unescape : text -> text) (media_type : text -> text).
Context (parse_srt parse_ssa parse_vtt : text -> option (list cue)).
Context (decode_manifest : list N -> option Manifest) (cwd cacheRoot : text).
Context (error_text : WorkflowError -> text) (format_3f : float64 -> text).
Context (env : Acquisition) (language : Language) (replaces : bool).

(** ** What is allowed *)

(** The last inventory does not cover the language. *)
Definition uncovered (h : history answer) : Prop :=
  exists current recorded,
    last_inventory h = Some current /\ last_record h = Some recorded
    /\ let existing := default no_installation recorded in
       inventoryStopsSearch current language (AllowHearingImpaired env)
         (bool_decide (is_Some recorded) && managedInstallationPresent current existing) existing = false.

(** The last inventory shows the recorded subtitle, unedited. *)
Definition unedited (h : history answer) (i : Installation) : Prop :=
  last_record h = Some (Some i)
  /\ exists current, last_inventory h = Some current /\ managedInstallationPresent current i = true.

(** The context, the inventory and the record were looked at. *)
Definition looked (e : event answer) : Prop :=
  match ev_call e with
  | CtxErr | StatMedia _ | RefreshInventory _ _ _ | ReadInstallation _ _ => True
  | _ => False
  end.

Definition permitted (h : history answer) (c : call) : Prop :=
  match c with
  | InstallSubtitle _ _ | SearchProviders _ _ | Download _ => never installs h /\ never removal_asked h /\ uncovered h
  | Synchronize _ _ _ _ => never installs h /\ never lapse_timeout h /\ uncovered h
  | RemoveSubtitle r =>
      never installs h /\ never removal_asked h /\ replaces = true /\ unedited h (VInstallation r)
  | Reconcile r => nothing_yet h /\ Forall looked h /\ last_record h = Some (Some (VInstallation r))
  | RefreshInventory _ _ _ | ReadInstallation _ _ => nothing_yet h
  | _ => True
  end.

Abbreviation acquire_ :=
  (acquire sha256_hex json_candidate json_member json_numbering json_policy json_sync json_parse html_unescape
     media_type parse_srt parse_ssa parse_vtt decode_manifest cwd cacheRoot error_text format_3f).

(** A tier within the run. *)
Lemma tier_permitted tier q existing installed sh h0 :
  never installs h0 -> never removal_asked h0 -> uncovered h0 -> (sh_latch sh = None -> never lapse_timeout h0) ->
  wp permitted (acquire_ tier q existing installed sh) h0
    (fun h e => exists h1, h = h0 ++ h1 /\ tier_part h1 /\ tier_end (sh_latch sh) h1 e).
Proof using Type.
  intros Hi Hr Hu Hl. rewrite <- (right_id_L [] (++) h0) at 1.
  eapply (wp_frame _ _ tier_part); [by apply acquire_allowed|by constructor| | |].
  - intros h c x Hh Hc. apply tier_part_snoc; [done|]. by destruct c.
  - intros h c Hh Hc.
    assert (never installs h -> never installs (h0 ++ h) /\ never removal_asked (h0 ++ h) /\ uncovered (h0 ++ h)) as Hall.
    { intros Hn. split_and!; [by apply never_app|by apply never_app; split; [|apply tier_part_removals]|].
      destruct Hu as (current & recorded & Hc1 & Hc2 & Hs). exists current, recorded.
      destruct (tier_part_reads h0 h Hh) as [-> ->]. by split_and!. }
    destruct c; try done; try (by apply Hall, Hc).
    destruct Hc as (Hn & _ & Ht & Hlat). destruct (Hall Hn) as (H1' & _ & H2').
    split_and!; [done| |done]. apply never_app. split; [by apply Hl|done].
  - intros h e Hh He. by exists h.
Qed.

Lemma lift_wp {A} (p : prog answer A) s h (Q : history answer -> acquiring -> result stopped A -> Prop) :
  wp permitted p h (fun h' a => Q h' s (Ok a)) -> awp permitted (lift p) s h Q.
Proof using Type. intros Hp. apply wp_then. exact Hp. Qed.

Lemma tier_end_reports latched h0 h r e sh :
  never installs h0 -> tier_end latched h (r, e, sh) -> reports (h0 ++ h) r.
Proof using Type.
  intros Hn [_ He]. destruct e as [e|].
  - destruct He as [Hi Ho]. left. split; [by apply never_app|done].
  - destruct He as [[Hi Ho]|(Ho & rq & sync & i & He & Hi & _)]; [left; split; [by apply never_app|done]|right].
    split; [done|]. exists rq, sync, i. split; [|done]. apply elem_of_app. by right.
Qed.

(** A call between the tiers. *)
Lemma reports_snoc h e r : reports h r -> installs e = false -> reports (h ++ [e]) r.
Proof using Type.
  intros [[Hn Ho]|(Ho & rq & sync & i & He & Hi)] Hx; [left; split; [by apply never_snoc|done]|right].
  split; [done|]. exists rq, sync, i. split; [|done]. apply elem_of_app. by left.
Qed.
(** ** Both tiers *)

(** The tiers are done: nothing was removed, what is read is unchanged. *)
Definition tiers_done (h0 h : history answer) (r : Result) : Prop :=
  never removal_asked h /\ reports h r
  /\ last_inventory h = last_inventory h0 /\ last_record h = last_record h0.

(** A call of the clock or the context. *)
Definition idle (c : call) : Prop := match c with CtxErr | ClockNow => True | _ => False end.

Lemma idle_done h0 h r c x : idle c -> tiers_done h0 h r -> tiers_done h0 (h ++ [Ev c x]) r.
Proof using Type.
  intros Hc (Hr & Hp & Hi & Hl). destruct (tier_part_reads h [Ev c x]) as [Ei El]; [by constructor; [destruct c|]|].
  split_and!; [apply never_snoc; split; [done|by destruct c]|apply reports_snoc; [done|by destruct c]|congruence|congruence].
Qed.

Definition stable (P : history answer -> Prop) : Prop := forall h c x, idle c -> P h -> P (h ++ [Ev c x]).

Lemma idle_call {B} (P : history answer -> Prop) c (k : answer c -> acts B) s h Q :
  stable P -> idle c -> P h -> (forall x h', P h' -> awp permitted (k x) s h' Q) ->
  awp permitted (next (ask c) k) s h Q.
Proof using Type.
  intros HP Hc Hd Hk. apply awp_call; [by destruct c|]. intros x. apply Hk. by apply HP.
Qed.

(** After a tier with latch [sh]. *)
Definition tier_done (h0 : history answer) (r : Result) (sh : shared) (h : history answer) : Prop :=
  h0 `prefix_of` h /\ tiers_done h0 h r /\ (sh_latch sh = None -> never lapse_timeout h).

Lemma tier_done_stable h0 r sh : stable (tier_done h0 r sh).
Proof using Type.
  intros h c x Hc (Hp & Hd & Hl). split_and!; [etrans; [exact Hp|by apply prefix_app_r]|by apply idle_done|].
  intros Hs. apply never_snoc. split; [by apply Hl|by destruct c].
Qed.

Lemma tier_done_after h0 h1 r e sh latch :
  nothing_yet h0 -> tier_part h1 -> tier_end latch h1 (r, e, sh) -> tier_done h0 r sh (h0 ++ h1).
Proof using Type.
  intros (Hi & Hr & Ht) Hpart Hend. destruct (tier_part_reads h0 h1 Hpart).
  split_and!; [by apply prefix_app_r|split_and!|]; [|by eapply tier_end_reports|done|done|].
  - apply never_app. split; [done|by apply tier_part_removals].
  - intros Hs. apply never_app. split; [done|]. destruct (existsb lapse_timeout h1) eqn:E; [|done].
    destruct Hend as [Hl _]. destruct (Hl (or_introl E)). congruence.
Qed.

Lemma uncovered_later h h' :
  last_inventory h' = last_inventory h -> last_record h' = last_record h -> uncovered h -> uncovered h'.
Proof using Type. intros Hi Hl. unfold uncovered. by rewrite Hi, Hl. Qed.

Lemma tier_error_not_installed latch h r e sh :
  tier_end latch h (r, e, sh) -> is_Some e -> ROutcome r <> OutcomeInstalled.
Proof using Type. intros [_ He] [x ->]. by destruct He. Qed.

Abbreviation search_tiers_ :=
  (search_tiers sha256_hex json_candidate json_member json_numbering json_policy json_sync json_parse html_unescape
     media_type parse_srt parse_ssa parse_vtt decode_manifest cwd cacheRoot error_text format_3f env).

Lemma tiers_answer h0 h r r' :
  tiers_done h0 h r -> (reports h r -> reports h r') -> tiers_done h0 h r'.
Proof using Type. intros (Hr & Hp & Hl) Hrep. split_and!; [done|by apply Hrep|apply Hl|apply Hl]. Qed.

Lemma search_tiers_wp q existing installed replacing s h0 :
  nothing_yet h0 -> uncovered h0 ->
  awp permitted (search_tiers_ q existing installed replacing) s h0
    (fun h s' r => s' = s /\ exists result err, r = Ok (result, err) /\ tiers_done h0 h result).
Proof using Type.
  intros Hny Hu. unfold search_tiers. apply awp_next, lift_wp.
  eapply wp_consequence; [apply tier_permitted; [apply Hny|apply Hny|done|intros _; apply Hny]|].
  intros h [[r1 e1] sh] _ (h1 & -> & Hpart & Hend). pose proof (tier_error_not_installed _ _ _ _ _ Hend) as Herr.
  eapply (idle_call (tier_done h0 r1 sh)); [apply tier_done_stable|done|by eapply tier_done_after|].
  intros canceled h2 Hd2. unfold clock_now. apply awp_next.
  eapply (idle_call (tier_done h0 r1 sh)); [apply tier_done_stable|done|exact Hd2|]. clear h1 h2 Hpart Hend Hd2.
  intros now h3 (Hp & Hd & Hl). apply awp_done. destruct (after_preferred _ _ _ _ _) as [[r err]|] eqn:Ea.
  - apply awp_done. split; [done|]. exists r, err. split; [done|]. eapply tiers_answer; [exact Hd|]. intros Hrep.
    apply after_preferred_reports in Ea as [[Ho Hri]|[[Hn Hn']|[He Ho]]]; cbn in *.
    + by eapply reports_same.
    + by eapply reports_not.
    + eapply reports_not; [exact Hrep|by apply Herr|rewrite Ho; by apply Herr].
  - assert (ROutcome r1 <> OutcomeInstalled) as Hn1 by (apply after_preferred_none in Ea as [He|Hn]; [by apply Herr|done]).
    destruct Hd as (Hr3 & Hrep & Hli & Hlr).
    assert (never installs h3) as Hi3 by (by destruct Hrep as [[? _]|[? _]]).
    apply awp_next, lift_wp. eapply wp_consequence; [apply tier_permitted; [done|done|by eapply uncovered_later|done]|].
    clear Ea. intros h [[r2 e2] sh2] _ (h1 & -> & Hpart & Hend).
    assert (forall h, tiers_done h3 h r2 -> tiers_done h0 h r2) as Hback
      by (intros h (? & ? & ? & ?); split_and!; [done|done|congruence|congruence]).
    assert (tiers_done h3 (h3 ++ h1) r2) as Hd2.
    { destruct (tier_part_reads h3 h1 Hpart). split_and!; [|by eapply tier_end_reports|done|done].
      apply never_app. split; [done|by apply tier_part_removals]. }
    pose proof (tier_error_not_installed _ _ _ _ _ Hend) as Herr2.
    assert (stable (fun h => tiers_done h3 h r2)) as Hst by (intros ? ? ? ? ?; by apply idle_done).
    eapply (idle_call _ _ _ _ _ _ Hst); [done|exact Hd2|]. intros canceled2 h4 Hd4. unfold clock_now. apply awp_next.
    eapply (idle_call _ _ _ _ _ _ Hst); [done|exact Hd4|]. intros now2 h5 Hd5. apply awp_done, awp_done.
    split; [done|]. destruct (after_fallback _ _ _ _ _) as [r err] eqn:Ea. exists r, err. split; [done|].
    eapply tiers_answer; [by apply Hback|]. intros Hrep5.
    apply after_fallback_reports in Ea as [[Ho Hri]|(_ & Hn & Hn')]; [by eapply reports_same|by eapply reports_not].
Qed.

(** ** The ends of a run *)

(** Whatever way a run ends: the result tells what was installed, and a removal
    was asked for only without an installation and without a provider error. *)
Definition final (h : history answer) (s : acquiring) : Prop :=
  reports h (a_result s)
  /\ (once removal_asked h -> never installs h /\ RProviderErrors (a_result s) = ∅).

Abbreviation ends_well := (fun h s (_ : result stopped unit) => final h s).

Lemma final_tiers h0 h s : tiers_done h0 h (a_result s) -> final h s.
Proof using Type. intros (Hr & Hp & _). split; [done|]. intros Ho. by destruct (never_once _ _ Hr Ho). Qed.

(** A change of the result that keeps what it says about installations. *)
Lemma final_same h s s' :
  ROutcome (a_result s') = ROutcome (a_result s) -> RInstallation (a_result s') = RInstallation (a_result s) ->
  RProviderErrors (a_result s') = RProviderErrors (a_result s) -> final h s -> final h s'.
Proof using Type.
  intros E1 E2 E3 [Hp Hr]. split; [by eapply reports_same|]. intros Ho. destruct (Hr Ho). split; [done|congruence].
Qed.

Lemma begun_final h s : nothing_yet h -> ROutcome (a_result s) <> OutcomeInstalled -> final h s.
Proof using Type. intros (Hi & Hr & _) Ho. split; [by left|]. intros Hx. by destruct (never_once _ _ Hr Hx). Qed.

Lemma provider_tiers_wp q existing installed replacing s h0 :
  nothing_yet h0 -> uncovered h0 ->
  awp permitted
    (provider_tiers sha256_hex json_candidate json_member json_numbering json_policy json_sync json_parse html_unescape
       media_type parse_srt parse_ssa parse_vtt decode_manifest cwd cacheRoot error_text format_3f env q existing
       installed replacing) s h0
    (fun h s' _ => tiers_done h0 h (a_result s')).
Proof using Type.
  intros Hny Hu. unfold provider_tiers. cbv zeta. apply awp_next.
  eapply awp_mono; [by apply search_tiers_wp|]. intros h s' r _ [-> (result & err & -> & Hd)].
  apply awp_next, awp_modify. destruct (finish_resume_keeps sha256_hex (service env)
    (if installed then with_resume_request [] [] q else q) installed result err) as (E1 & E2 & _).
  assert (tiers_done h0 h (finishProviderResume sha256_hex (service env)
    (if installed then with_resume_request [] [] q else q) installed result err)) as Hf
    by (eapply tiers_answer; [exact Hd|]; intros Hrep; by eapply reports_same).
  destruct err as [e|]; [by apply awp_stop|by apply awp_done].
Qed.

Lemma schedule_wp q existing s h :
  final h s ->
  awp permitted (schedule_upgrade env q existing) s h (fun h' s' r => final h' s').
Proof using Type.
  intros [Hp Hr]. unfold schedule_upgrade. apply awp_call; [done|]. intros now. apply awp_call; [done|]. intros unit.
  apply awp_modify. destruct (schedule_keeps (clocked (service env) now unit) (a_result s) (QUpgradeAttempt q)
    (ReleasedAt (QMedia q)) (IInstalledAt existing)) as (E1 & E2 & E3).
  eapply final_same; [exact E1|exact E2|exact E3|]. split; [by apply reports_snoc; [apply reports_snoc|]|].
  intros [[Ho|Ho]%once_snoc|Ho]%once_snoc; [|done|done]. destruct (Hr Ho) as [Hn He].
  split; [by apply never_snoc; split; [apply never_snoc|]|done].
Qed.

Lemma remove_wp q existing s h :
  never installs h -> never removal_asked h -> replaces = true -> unedited h existing ->
  ROutcome (a_result s) <> OutcomeInstalled -> RProviderErrors (a_result s) = ∅ ->
  awp permitted (removeRejected q existing) s h ends_well.
Proof using Type.
  intros Hi Hr Hrep Hu Ho He. unfold removeRejected. apply awp_call; [by split_and!|]. intros x.
  assert (never installs (h ++ [Ev (RemoveSubtitle (mkRemoval existing (QMedia q) (QManual q) [])) x])) as Hi'
    by (by apply never_snoc).
  destruct x as [e|].
  - destruct (managed_changed e).
    + apply awp_next, awp_modify, awp_stop. split; [left; split; [done|exact Ho]|]. intros _. split; [done|exact He].
    + apply awp_stop. split; [left; by split|]. by intros _.
  - apply awp_next, awp_modify, awp_stop. split; [left; split; [done|discriminate]|]. intros _. split; [done|exact He].
Qed.

Lemma unedited_later h h' i :
  last_inventory h' = last_inventory h -> last_record h' = last_record h -> unedited h i -> unedited h' i.
Proof using Type. intros Hi Hl. unfold unedited. by rewrite Hi, Hl. Qed.

Lemma replace_wp q existing s h0 :
  nothing_yet h0 -> uncovered h0 -> replaces = true -> unedited h0 existing ->
  awp permitted
    (replaceInstalled sha256_hex json_candidate json_member json_numbering json_policy json_sync json_parse html_unescape
       media_type parse_srt parse_ssa parse_vtt decode_manifest cwd cacheRoot error_text format_3f env q existing)
    s h0 ends_well.
Proof using Type.
  intros Hny Hu Hrep Hed. unfold replaceInstalled. apply awp_next.
  eapply awp_mono; [by apply provider_tiers_wp|]. intros h s' r _ Hd. pose proof Hd as (Hr & Hp & Hli & Hlr).
  destruct r as [[]|e]; [|by eapply final_tiers]. unfold get_result. apply awp_next, awp_next, awp_get, awp_done.
  destruct (bool_decide _ || bool_decide _) eqn:E.
  - assert (ROutcome (a_result s') <> OutcomeInstalled) as Ho.
    { apply orb_true_iff in E as [E|E]; apply bool_decide_eq_true in E; by rewrite E. }
    assert (never installs h) as Hi by (by destruct Hp as [[? _]|[? _]]).
    clear E. case_bool_decide as He; [|apply awp_stop; by eapply final_tiers].
    apply remove_wp; [done|done|done|by eapply unedited_later|done|done].
  - apply awp_next. eapply awp_mono; [apply schedule_wp; by eapply final_tiers|].
    intros h' s2 [[]|e] _ Hf; [by apply awp_stop|done].
Qed.

(** ** The search *)

(** Before the tiers: the result is still empty. *)
Definition begun (h : history answer) (s : acquiring) : Prop := nothing_yet h /\ a_result s = empty_result.

Definition suits (q : Request) : Prop := QLanguage q = language /\ QReplaceInstalled q = replaces.

Lemma begun_ends h s : begun h s -> final h s.
Proof using Type. intros [Hn Hr]. apply begun_final; [done|]. by rewrite Hr. Qed.

Abbreviation search_ :=
  (search sha256_hex json_candidate json_member json_numbering json_policy json_sync json_parse html_unescape media_type
     parse_srt parse_ssa parse_vtt decode_manifest cwd cacheRoot error_text format_3f env).

(** What happens to the result after the tiers. *)
Lemma retain_wp q existing active s h :
  final h s -> awp permitted (retain_installed env q existing active) s h (fun h' s' _ => final h' s').
Proof using Type.
  intros Hf. unfold retain_installed, get_result. apply awp_next, awp_next, awp_get, awp_done.
  destruct (active && _ && _) eqn:E; [|by apply awp_done]. apply andb_true_iff in E as [_ E].
  assert (ROutcome (a_result s) <> OutcomeInstalled) as Ho
    by (apply orb_true_iff in E as [E|E]; apply bool_decide_eq_true in E; by rewrite E).
  destruct (installedScore existing) as [[score exact]|e]; [|by apply awp_stop].
  apply awp_call; [done|]. intros now. apply awp_modify. destruct Hf as [Hp Hr]. split.
  - eapply reports_not; [by apply reports_snoc|done|discriminate].
  - intros [Hx|Hx]%once_snoc; [|done]. destruct (Hr Hx). split; [by apply never_snoc|done].
Qed.

Lemma search_wp q current recorded s h :
  begun h s -> last_inventory h = Some current -> last_record h = Some recorded -> suits q ->
  awp permitted (search_ q current recorded) s h ends_well.
Proof using Type.
  intros [Hny Hs] Hli Hlr [Hlang Hrep]. unfold search. cbv zeta. set (existing := default no_installation recorded).
  set (active := bool_decide (is_Some recorded) && managedInstallationPresent current existing).
  assert (QReplaceInstalled q && active = true -> replaces = true /\ unedited h existing) as Hmay.
  { intros Hb. apply andb_true_iff in Hb as [Hb1 Hb2]. apply andb_true_iff in Hb2 as [Hb2 Hb3].
    split; [congruence|]. apply bool_decide_eq_true in Hb2 as [i ->]. split; [done|]. by exists current. }
  destruct (inventoryStopsSearch _ _ _ _ _) eqn:Estop.
  { apply awp_next, awp_modify. destruct (QReplaceInstalled q && active).
    - destruct (Hmay eq_refl). apply remove_wp; [apply Hny|apply Hny|done|done|done|by cbn; rewrite Hs].
    - apply awp_stop. by apply begun_final. }
  assert (uncovered h) as Hu by (exists current, recorded; split_and!; [done|done|by rewrite <- Hlang]).
  destruct (QReplaceInstalled q && active).
  { destruct (Hmay eq_refl). by apply replace_wp. }
  apply awp_next. destruct (satisfied_by_exact _ _ _ _) as [[]|e].
  - apply awp_done, awp_next, awp_modify, awp_stop. by apply begun_final.
  - apply awp_done, awp_next. eapply awp_mono; [by apply provider_tiers_wp|]. intros h1 s1 r _ Hd.
    apply final_tiers in Hd. destruct r as [[]|e]; [|done].
    apply awp_next. eapply awp_mono; [by apply retain_wp|]. intros h2 s2 [[]|e] _ Hf; [|done].
    apply awp_next. eapply awp_mono; [by apply schedule_wp|]. intros h3 s3 [[]|e] _ Hf3; [by apply awp_stop|done].
  - apply awp_stop. apply begun_ends. by split.
Qed.

(** A call before the tiers. *)
Lemma nothing_snoc h c x : nothing_yet h -> installs (Ev c x) = false -> removal_asked (Ev c x) = false ->
  lapse_timeout (Ev c x) = false -> nothing_yet (h ++ [Ev c x]).
Proof using Type. intros (Hi & Hr & Hl) E1 E2 E3. split_and!; by apply never_snoc. Qed.

Lemma fail_resumed_wp q e s h : begun h s -> awp permitted (fail_resumed sha256_hex env q e) s h ends_well.
Proof using Type.
  intros [Hny Hs]. unfold fail_resumed. apply awp_next, awp_modify, awp_stop.
  destruct (finish_resume_keeps sha256_hex (service env) q false (a_result s) (Some e)) as (E1 & _).
  apply begun_final; [done|]. unfold with_result. cbn [a_result]. rewrite E1. by rewrite Hs.
Qed.

Lemma mark_wp q e s h (Q : history answer -> acquiring -> result stopped WorkflowError -> Prop) :
  (forall h' e', h' = h \/ (exists m, h' = h ++ [Ev (StatMedia (media_path q)) m]) -> Q h' s (Ok e')) ->
  awp permitted (markIfMediaUnreadable q e) s h Q.
Proof using Type.
  intros HQ. unfold markIfMediaUnreadable. case_bool_decide; [apply awp_done, HQ; by left|].
  case_bool_decide; [apply awp_done, HQ; by left|]. call_step; [done|]. intros m.
  destruct m; apply awp_done, HQ; right; by eexists.
Qed.

Lemma looked_snoc h c x : Forall looked h -> looked (Ev c x) -> Forall looked (h ++ [Ev c x]).
Proof using Type. intros Hh Hc. apply Forall_app. split; [done|]. by constructor. Qed.

Lemma refresh_wp q force s h :
  begun h s ->
  awp permitted (refresh q force) s h
    (fun h' s' r => begun h' s' /\ last_record h' = last_record h /\ (Forall looked h -> Forall looked h')
       /\ exists r', r = Ok r' /\ forall current, r' = Ok current -> last_inventory h' = Some current).
Proof using Type.
  intros [Hny Hs]. unfold refresh. apply awp_call; [done|]. intros x.
  set (h1 := h ++ _). assert (nothing_yet h1) as Hny1 by (by apply nothing_snoc).
  assert (last_record h1 = last_record h) as Hl by (by apply skip_record).
  destruct x as [current|e].
  - apply awp_done. split; [by split|]. split; [done|]. split; [by intros; apply looked_snoc|]. exists (Ok current). split; [done|]. intros ? [= <-].
    unfold last_inventory, h1. rewrite omap_app. apply last_snoc.
  - apply awp_next. apply mark_wp. intros h' e' Hh. apply awp_done.
    split; [|split; [|split; [|by exists (Err e')]]].
    + destruct Hh as [->|[m ->]]; (split; [|done]); [done|by apply nothing_snoc].
    + destruct Hh as [->|[m ->]]; [done|]. rewrite <- Hl. by apply skip_record.
    + intros Hh0. destruct Hh as [->|[m ->]]; repeat apply looked_snoc; done.
Qed.

Lemma read_wp {B} q (k : result WorkflowError (option Installation) -> acts B) s h Q :
  begun h s ->
  (forall x h', begun h' s -> last_inventory h' = last_inventory h -> (Forall looked h -> Forall looked h') ->
     (forall recorded, x = Ok recorded -> last_record h' = Some recorded) -> awp permitted (k x) s h' Q) ->
  awp permitted (do! x := ask (ReadInstallation (QMediaID q) (QLanguage q)) in k x) s h Q.
Proof using Type.
  intros [Hny Hs] Hk. call_step; [done|]. intros x. apply Hk.
  - split; [by apply nothing_snoc|done].
  - by apply skip_inventory.
  - intros. by apply looked_snoc.
  - intros recorded ->. unfold last_record. rewrite omap_app. apply last_snoc.
Qed.

Lemma settled_wp q current existing settled s h :
  begun h s -> last_inventory h = Some current -> last_record h = Some (Some existing) -> suits q ->
  awp permitted
    (settled_search sha256_hex json_candidate json_member json_numbering json_policy json_sync json_parse html_unescape
       media_type parse_srt parse_ssa parse_vtt decode_manifest cwd cacheRoot error_text format_3f env q current
       existing settled) s h ends_well.
Proof using Type.
  intros Hb Hli Hlr Hq. unfold settled_search. destruct (Changed settled); [|by apply search_wp].
  apply awp_next. eapply awp_mono; [by apply refresh_wp|]. intros h1 s1 r _ (Hb1 & _ & _ & r' & -> & Hi).
  destruct r' as [current'|e]; [|by apply fail_resumed_wp].
  apply read_wp; [done|]. intros x h2 Hb2 Hi2 _ Hx. destruct x as [recorded|e]; [|by apply fail_resumed_wp].
  apply search_wp; [done| |by apply Hx|done]. rewrite Hi2. by apply Hi.
Qed.

Lemma reported_final h s : final h s -> final h (with_result reportRemovedBeforeSearch s).
Proof using Type.
  intros [Hp Hr]. unfold final. cbn.
  assert (RProviderErrors (reportRemovedBeforeSearch (a_result s)) = RProviderErrors (a_result s)) as ->
    by (unfold reportRemovedBeforeSearch; by destruct (ROutcome (a_result s))).
  split; [|done]. unfold reportRemovedBeforeSearch. destruct (ROutcome (a_result s)) eqn:E; [done| |done| | |done|done];
    (eapply reports_not; [exact Hp|by rewrite E|discriminate]).
Qed.

Lemma reporting_wp m s h :
  awp permitted m s h ends_well -> awp permitted (reporting reportRemovedBeforeSearch m) s h ends_well.
Proof using Type.
  intros Hm. unfold reporting. apply awp_next, awp_outcome_of. eapply awp_mono; [exact Hm|].
  intros h1 s1 [a|[|e]] _ Hf.
  - apply awp_modify. by apply reported_final.
  - apply awp_next, awp_modify, awp_stop. by apply reported_final.
  - by apply awp_stop.
Qed.

Lemma recorded_wp q current recorded s h :
  begun h s -> Forall looked h -> last_inventory h = Some current -> last_record h = Some recorded -> suits q ->
  awp permitted
    (recorded_search sha256_hex json_candidate json_member json_numbering json_policy json_sync json_parse html_unescape
       media_type parse_srt parse_ssa parse_vtt decode_manifest cwd cacheRoot error_text format_3f env q current
       recorded) s h ends_well.
Proof using Type.
  intros Hb Hlook Hli Hlr Hq. unfold recorded_search. destruct recorded as [existing|]; [|by apply search_wp].
  apply awp_call; [by split; [apply Hb|]|]. intros x. set (h1 := h ++ _).
  assert (begun h1 s) as Hb1 by (destruct Hb; split; [by apply nothing_snoc|done]).
  assert (last_inventory h1 = Some current) as Hli1 by (by unfold h1; rewrite skip_inventory).
  assert (last_record h1 = Some (Some existing)) as Hlr1 by (by unfold h1; rewrite skip_record).
  destruct x as [settled|e]; [|by apply fail_resumed_wp]. destruct (Deferred settled).
  - apply awp_next, awp_modify, awp_stop.
    destruct (finish_resume_keeps sha256_hex (service env) q false (with_deferral (DeferredUntil settled) (a_result s)) None)
      as (E1 & _). apply begun_final; [apply Hb1|]. unfold with_result. cbn [a_result]. by rewrite E1.
  - destruct (_ && _); [apply reporting_wp|]; by apply settled_wp.
Qed.

Lemma run_body_wp q force s :
  a_result s = empty_result -> suits q ->
  awp permitted
    (run_body sha256_hex json_candidate json_member json_numbering json_policy json_sync json_parse html_unescape
       media_type parse_srt parse_ssa parse_vtt decode_manifest cwd cacheRoot error_text format_3f env q force) s []
    ends_well.
Proof using Type.
  intros Hs Hq. unfold run_body, check_context. apply awp_next, awp_call; [done|]. intros canceled. set (h1 := [] ++ _).
  assert (begun h1 s) as Hb1 by (by split).
  assert (Forall looked h1) as Hlook1 by by repeat constructor.
  destruct canceled as [e|]; [by apply awp_stop, begun_ends|]. apply awp_done.
  destruct (incomplete q); [by apply awp_stop, begun_ends|]. apply awp_next.
  destruct (validatedResumeRequest sha256_hex (service env) q) as [q'|e] eqn:Ev; [|by apply awp_stop, begun_ends].
  apply awp_done. apply validated_keeps in Ev as [El Er].
  assert (suits q') as Hq' by (destruct Hq; split; congruence).
  apply awp_next. eapply awp_mono; [by apply refresh_wp|]. intros h2 s2 r _ (Hb2 & _ & Hlook2 & r' & -> & Hi). specialize (Hlook2 Hlook1).
  destruct r' as [current|e]; [|by apply fail_resumed_wp]. specialize (Hi current eq_refl). apply awp_next.
  assert (forall q2, suits q2 -> awp permitted
    (do! recorded := ask (ReadInstallation (QMediaID q2) (QLanguage q2)) in
     match recorded with
     | Err e => fail_resumed sha256_hex env q2 e
     | Ok recorded =>
         recorded_search sha256_hex json_candidate json_member json_numbering json_policy json_sync json_parse
           html_unescape media_type parse_srt parse_ssa parse_vtt decode_manifest cwd cacheRoot error_text format_3f env
           q2 current recorded
     end) s2 h2 ends_well) as Hrest.
  { intros q2 Hq2. apply read_wp; [done|]. intros x h3 Hb3 Hi3 Hlook3 Hx.
    destruct x as [recorded|e]; [|by apply fail_resumed_wp].
    apply recorded_wp; [done|by apply Hlook3|by rewrite Hi3|by apply Hx|done]. }
  case_bool_decide; [by apply awp_done, Hrest|].
  destruct (validatedResumeRequest _ _ (request_for _ _)) as [q2|e] eqn:Ev2; [|by apply awp_stop, begun_ends].
  apply awp_done, Hrest. apply validated_keeps in Ev2 as [El2 Er2]. cbn in El2, Er2.
  destruct Hq'. split; congruence.
Qed.

Abbreviation Run_ :=
  (Run sha256_hex json_candidate json_member json_numbering json_policy json_sync json_parse html_unescape media_type
     parse_srt parse_ssa parse_vtt decode_manifest cwd cacheRoot error_text format_3f env).

Lemma run_permitted q force :
  suits q ->
  wp permitted (Run_ q force) []
    (fun h e => reports h e.1 /\ (once removal_asked h -> never installs h /\ RProviderErrors e.1 = ∅)).
Proof using Type.
  intros Hq. unfold Run. apply wp_then. eapply wp_consequence; [by apply run_body_wp|].
  intros h [s r] _ Hf. exact Hf.
Qed.
End safety.

(** ** Every run *)

Section runs.
Context `{Unicode} `{NameParser} `{LanguageTags}.
Context (sha256_hex : list N -> text) (json_candidate : Candidate -> list N) (json_member : PackMemberRef -> list N)
        (json_numbering : NumberingEvidence -> list N) (json_policy : LapsePolicy -> list N)
        (json_sync : SyncResult -> text).
Context (json_parse : list N -> option json) (html_unescape : text -> text) (media_type : text -> text).
Context (parse_srt parse_ssa parse_vtt : text -> option (list cue)).
Context (decode_manifest : list N -> option Manifest) (cwd cacheRoot : text).
Context (error_text : WorkflowError -> text) (format_3f : float64 -> text).
Context (env : Acquisition) (q : Request) (force : bool).

Abbreviation run_ :=
  (Run sha256_hex json_candidate json_member json_numbering json_policy json_sync json_parse html_unescape media_type
     parse_srt parse_ssa parse_vtt decode_manifest cwd cacheRoot error_text format_3f env q force).

Lemma run_facts h result err :
  runs run_ h (result, err) ->
  reports h result /\ (once removal_asked h -> never installs h /\ RProviderErrors result = ∅)
  /\ forall i c x, h !! i = Some (Ev c x) -> permitted env (QLanguage q) (QReplaceInstalled q) (take i h) c.
Proof using Type.
  intros Hr. destruct (wp_runs _ _ [] _ _ _ Hr
    (run_permitted sha256_hex json_candidate json_member json_numbering json_policy json_sync json_parse html_unescape
       media_type parse_srt parse_ssa parse_vtt decode_manifest cwd cacheRoot error_text format_3f env (QLanguage q)
       (QReplaceInstalled q) q force (conj eq_refl eq_refl))) as [[Hp Hm] Hall].
  split_and!; [done|done|]. intros i c x Hi. apply Hall in Hi. exact Hi.
Qed.

(** C18. A search installs at most one subtitle over both provider tiers, and its
    result says installed exactly when it did, naming that installation. *)
Theorem search_installs_at_most_once h result err :
  runs run_ h (result, err) ->
  (ROutcome result = OutcomeInstalled
     <-> exists rq sync i, Ev (InstallSubtitle rq sync) (Ok i) ∈ h /\ RInstallation result = i)
  /\ (forall i j e e', h !! i = Some e -> h !! j = Some e' -> installs e = true -> installs e' = true -> i = j).
Proof using Type.
  intros Hr. destruct (run_facts _ _ _ Hr) as (Hp & _ & Hall). split.
  - split.
    + intros Ho. destruct Hp as [[_ Hn]|[_ He]]; [done|exact He].
    + intros (rq & sync & i & He & _). destruct Hp as [[Hn _]|[Ho _]]; [|done]. by rewrite never_spec in Hn; apply Hn in He.
  - assert (forall i j e e', (i < j)%nat -> h !! i = Some e -> h !! j = Some e' -> installs e = true ->
              installs e' = true -> False) as Hlt.
    { intros i j e [c x] Hij Hi Hj He He'. apply Hall in Hj. destruct c; try done.
      eapply (take_once installs h i j); [exact Hi|done|done|apply Hj]. }
    intros i j e e' Hi Hj He He'. destruct (Nat.lt_trichotomy i j) as [Hij|[->|Hij]]; [|done|]; exfalso; eauto.
Qed.

(** C19. Beside an installation, which replaces it, two calls of a search can take
    the managed subtitle away. Its removal is
    asked for only when the owner rejected it, it was recorded and unedited in
    the last inventory read, nothing was installed and no provider failed; and it
    is asked for once. Its reconciliation with the media file (which may remove
    it when the file was replaced or renamed, Reconcile.v) is asked for only
    about the record last read and before everything else: until then the search
    only looked at its context, the media file, the inventory and the record. *)
Theorem only_rejected_subtitles_are_removed h result err i c x :
  runs run_ h (result, err) -> h !! i = Some (Ev c x) ->
  match c with
  | RemoveSubtitle r =>
      QReplaceInstalled q = true
      /\ last_record (take i h) = Some (Some (VInstallation r))
      /\ (exists current, last_inventory (take i h) = Some current
             /\ managedInstallationPresent current (VInstallation r) = true)
      /\ never installs h /\ RProviderErrors result = ∅
      /\ forall j e, j <> i -> h !! j = Some e -> removal_asked e = false
  | Reconcile r => last_record (take i h) = Some (Some (VInstallation r)) /\ Forall looked (take i h)
  | _ => True
  end.
Proof using Type.
  intros Hr Hi. destruct (run_facts _ _ _ Hr) as (_ & Hm & Hall).
  destruct c; try done; [by split; apply (Hall _ _ _ Hi)|].
  pose proof (Hall _ _ _ Hi) as (_ & _ & Hrep & Hrec & Hinv).
  assert (once removal_asked h) as Ho
    by (apply existsb_exists; eexists; split; [eapply list_elem_of_In, list_elem_of_lookup; by exists i|done]).
  destruct (Hm Ho) as [Hn He].
  split_and!; [done|done|done|done|done|]. intros j [c y] Hne Hj.
  destruct (removal_asked (Ev c y)) eqn:E; [|done]. exfalso. destruct c; try done.
  destruct (decide (i < j)%nat) as [Hlt|Hge].
  - eapply (take_once removal_asked h i j); [exact Hi|done|done|apply (Hall _ _ _ Hj)].
  - eapply (take_once removal_asked h j i); [exact Hj|done|lia|apply (Hall _ _ _ Hi)].
Qed.

(** C20. Providers are searched, subtitles downloaded, timed or installed only
    while the last inventory read does not cover the language: no track of it
    is embedded, protected or other than the recorded subtitle. *)
Theorem covered_languages_are_left_alone h result err i c x :
  runs run_ h (result, err) -> h !! i = Some (Ev c x) ->
  match c with SearchProviders _ _ | Download _ | Synchronize _ _ _ _ | InstallSubtitle _ _ => True | _ => False end ->
  exists current recorded,
    last_inventory (take i h) = Some current /\ last_record (take i h) = Some recorded
    /\ forall track, track ∈ Tracks current ->
         TrackCoversLanguage (TLanguage track) (TForced track) (TSDH track) (QLanguage q) (AllowHearingImpaired env) = true ->
         TEmbedded track = false /\ TProtected track = false
         /\ exists existing, recorded = Some existing /\ is_installation existing track = true.
Proof using Type.
  intros Hr Hi Hc. destruct (run_facts _ _ _ Hr) as (_ & _ & Hall).
  assert (uncovered env (QLanguage q) (take i h)) as (current & recorded & Hli & Hlr & Hs)
    by (pose proof (Hall _ _ _ Hi) as Hp; destruct c; try done; apply Hp).
  exists current, recorded. split_and!; [done|done|]. intros track Ht Hcov. cbv zeta in Hs. unfold inventoryStopsSearch in Hs.
  assert (forall f (l : list Track), existsb f l = false -> track ∈ l -> f track = false) as Hex.
  { intros f l Hl Hin. destruct (f track) eqn:E; [|done]. exfalso.
    assert (existsb f l = true) by (apply existsb_exists; exists track; split; [by apply list_elem_of_In|done]). congruence. }
  apply (Hex _ _ Hs) in Ht. rewrite Hcov in Ht. cbn [andb] in Ht.
  apply orb_false_iff in Ht as [Ht Hown]. apply orb_false_iff in Ht as [Ht Hact]. apply orb_false_iff in Ht as [He Hpr].
  split_and!; [done|done|]. apply negb_false_iff in Hact, Hown. apply andb_true_iff in Hact as [Hrec _].
  apply bool_decide_eq_true in Hrec as [existing ->]. by exists existing.
Qed.

(** LAPSE is not run again after it timed out, in either tier of the run. *)
Theorem lapse_runs_stop_at_a_timeout h result err i j e c media source output x :
  runs run_ h (result, err) -> h !! i = Some e -> lapse_timeout e = true ->
  h !! j = Some (Ev (Synchronize c media source output) x) -> (j <= i)%nat.
Proof using Type.
  intros Hr Hi He Hj. destruct (run_facts _ _ _ Hr) as (_ & _ & Hall). destruct (decide (i < j)%nat) as [Hlt|]; [|lia].
  exfalso. eapply (take_once lapse_timeout h i j); [exact Hi|done|done|]. by apply (Hall _ _ _ Hj).
Qed.
End runs.

(** ** Three runs *)

#[local] Existing Instance sample_tags.
#[local] Instance no_parser : NameParser := fun _ => None.

Abbreviation demo_search q :=
  (Run (fun payload => payload) ResultID RefID (fun _ => []) (fun _ => t "policy") (fun s => Verdict s)
    (fun _ => None) (fun s => s) (fun s => s) (fun _ => None) (fun _ => None) (fun _ => None) (fun _ => None)
    [] [] (fun _ => t "error") (fun _ => []) demo_settings q false).

Lemma demo_search_runs {W} (respond : forall c : call, W -> answer c * W) q w :
  runs (demo_search q) (execute respond (demo_search q) w).1.1
    ((execute respond (demo_search q) w).1.2.1, (execute respond (demo_search q) w).1.2.2).
Proof.
  pose proof (execute_runs respond (demo_search q) w) as Hr. revert Hr.
  generalize (execute respond (demo_search q) w). intros [[h [r e]] w']. done.
Qed.

(** Two candidates, the second one installed, as in AcquireRuns.v. *)
Definition found := execute demo_respond (demo_search demo_request) 0%nat.

Definition first_at (f : event answer -> bool) (h : history answer) : nat :=
  match list_find (fun e => f e = true) h with Some (i, _) => i | None => 0%nat end.

Lemma search_installs_at_most_once_witness :
  ROutcome found.1.2.1 = OutcomeInstalled
  /\ exists rq sync i, Ev (InstallSubtitle rq sync) (Ok i) ∈ found.1.1 /\ RInstallation found.1.2.1 = i.
Proof.
  assert (ROutcome found.1.2.1 = OutcomeInstalled) as Ho by (vm_compute; reflexivity).
  split; [exact Ho|].
  exact (proj1 (proj1 (search_installs_at_most_once _ _ _ _ _ _ _ _ _ _ _ _ _ _ _ _ _ _ _ _ _ _ _
    (demo_search_runs demo_respond demo_request 0%nat))) Ho).
Defined.

(** The recorded subtitle, rejected by its owner, is alone beside the media
    file, and no provider has another. *)
Definition rejected_request : Request := mkRequest 1 sample_range_media (t "hr") false 0 [] [] true.
Definition rejected_installation : Installation :=
  mkInstallation false 1 (t "hr") (t "/tv/show.hr.srt") (t "sum") (t "os") (t "1") [] [] NoScoreJSON [] []
    (t "/tv/show.mkv") 1 1 0 0 0.
Definition rejected_inventory : Inventory :=
  mkInventory (Fingerprint sample_range_media)
    [mkTrack 0 (t "/tv/show.hr.srt") (t "hr") (t "srt") false false false false false false (t "sum")].

Definition rejected_respond (c : call) (w : nat) : answer c * nat :=
  match c return answer c * nat with
  | RefreshInventory _ _ _ => (Ok rejected_inventory, w)
  | ReadInstallation _ _ => (Ok (Some rejected_installation), w)
  | SearchProviders _ _ => ((mkSearchResult [] ∅ [t "os"] [], true), w)
  | c => demo_respond c w
  end.

Definition emptied := execute rejected_respond (demo_search rejected_request) 0%nat.
Definition removal_at : nat := first_at removal_asked emptied.1.1.

Lemma emptied_removes : exists r x, emptied.1.1 !! removal_at = Some (Ev (RemoveSubtitle r) x).
Proof.
  assert (removal_asked <$> emptied.1.1 !! removal_at = Some true) as Hi by (vm_compute; reflexivity).
  destruct (emptied.1.1 !! removal_at) as [[c x]|]; [|discriminate]. destruct c; try discriminate. by repeat eexists.
Qed.

Lemma only_rejected_subtitles_are_removed_witness :
  exists r x, emptied.1.1 !! removal_at = Some (Ev (RemoveSubtitle r) x)
    /\ last_record (take removal_at emptied.1.1) = Some (Some (VInstallation r))
    /\ ROutcome emptied.1.2.1 = OutcomeRemoved.
Proof.
  destruct emptied_removes as (r & x & Hi). exists r, x. split; [exact Hi|].
  split; [|vm_compute; reflexivity].
  exact (proj1 (proj2 (only_rejected_subtitles_are_removed _ _ _ _ _ _ _ _ _ _ _ _ _ _ _ _ _ _ _ _ _ _ _ _ _ _
    (demo_search_runs rejected_respond rejected_request 0%nat) Hi))).
Defined.

Definition is_search (e : event answer) : bool := match ev_call e with SearchProviders _ _ => true | _ => false end.
Definition search_at : nat := first_at is_search found.1.1.

Lemma found_searches : exists b query x, found.1.1 !! search_at = Some (Ev (SearchProviders b query) x).
Proof.
  assert (is_search <$> found.1.1 !! search_at = Some true) as Hi by (vm_compute; reflexivity).
  destruct (found.1.1 !! search_at) as [[c x]|]; [|discriminate]. destruct c; try discriminate. by repeat eexists.
Qed.

Lemma covered_languages_are_left_alone_witness :
  exists current, last_inventory (take search_at found.1.1) = Some current /\ Tracks current = [].
Proof.
  destruct found_searches as (b & query & x & Hi).
  destruct (covered_languages_are_left_alone _ _ _ _ _ _ _ _ _ _ _ _ _ _ _ _ _ _ _ _ _ _ _ _ _ _
    (demo_search_runs demo_respond demo_request 0%nat) Hi I) as (current & recorded & Hli & _).
  exists current. split; [exact Hli|]. revert Hli. vm_compute. intros Hli. by injection Hli as <-.
Defined.

(** LAPSE times out on the first candidate. *)
Definition slow_respond (c : call) (w : nat) : answer c * nat :=
  match c return answer c * nat with
  | Synchronize _ _ _ _ => (Err TimeoutE, S w)
  | c => demo_respond c w
  end.

Definition slow := execute slow_respond (demo_search demo_request) 0%nat.
Definition slow_at : nat := first_at is_sync slow.1.1.

Lemma slow_times_out :
  exists c media source output x, slow.1.1 !! slow_at = Some (Ev (Synchronize c media source output) x)
    /\ lapse_timeout (Ev (Synchronize c media source output) x) = true.
Proof.
  assert ((fun e => (is_sync e, lapse_timeout e)) <$> slow.1.1 !! slow_at = Some (true, true)) as Hi
    by (vm_compute; reflexivity).
  destruct (slow.1.1 !! slow_at) as [[c x]|]; [|discriminate]. destruct c; try discriminate.
  repeat eexists. injection Hi as Hi. exact Hi.
Qed.

(** The second candidate is not timed. *)
Lemma lapse_runs_stop_at_a_timeout_witness :
  exists e, slow.1.1 !! slow_at = Some e /\ lapse_timeout e = true
    /\ forall j c media source output x,
         slow.1.1 !! j = Some (Ev (Synchronize c media source output) x) -> (j <= slow_at)%nat.
Proof.
  destruct slow_times_out as (c & media & source & output & x & Hi & Ht).
  exists (Ev (Synchronize c media source output) x). split; [exact Hi|split; [exact Ht|]].
  intros j c' media' source' output' x' Hj.
  exact (lapse_runs_stop_at_a_timeout _ _ _ _ _ _ _ _ _ _ _ _ _ _ _ _ _ _ _ _ _ _ _ _ _ _ _ _ _ _ _
    (demo_search_runs slow_respond demo_request 0%nat) Hi Ht Hj).
Defined.
