(* ===== verification/Remove.v ===== *)
(** * Removing and moving subtitles (src/internal/workflow)

    remove.go and the file moves of installation_reconcile.go: a managed
    subtitle is moved to a hidden name under a pending row, its record deleted,
    and the hidden file removed; a sidecar Arr left at an old name is linked to
    the new one and recorded there. *)
From S2P Require Import Prelude GoText GoFloat Domain MatchScore SearchQueue Schedule Workflow Paths Outbox InstallStore Disk Jobs Install.

#[local] Open Scope Z_scope.

Definition removalPrefix : text := t ".subsyncd-removing-".

Definition digit16 (n : N) : rune := (if n <? 10 then n + 48 else n + 87)%N.
(** [hex.EncodeToString]. *)
Definition hex (bytes : list N) : text := concat (map (fun b => [digit16 (b / 16); digit16 (b mod 16)]) bytes).

(** [for]-like steps whose errors are joined. *)
Definition join_errors (errors : list InstallError) : result InstallError unit :=
  match errors with [] => Ok tt | _ => Err (EJoin errors) end.

Section remover.
Context (cwd : text) (eval_symlinks : text -> option text) (now : instant).
Context (checksumBytes : text -> text) (json_valid : text -> bool) (encode_payload : Media -> text -> text).
Context (i : Installer).
(** The eight random bytes of a hidden name. *)
Context (random_bytes : list N).

Definition removalPath (parent : text) : io text :=
  query (fun _ => Ok (path_clean (path_join parent (removalPrefix ++ hex random_bytes)))).

Definition managedFileMatches (path checksum : text) : io unit :=
  on_error (Lstat path) (fun e => match e with ENotExist => fail EManagedChanged | _ => fail e end) (fun info =>
  if negb (is_regular info) then fail EManagedChanged
  else
    try! payload := ReadFile eval_symlinks path in
    if bool_decide (checksum = []) || negb (bool_decide (checksumBytes payload = checksum))
    then fail EManagedChanged else okay tt).

Definition recreated : InstallError := EText (t "restore removed subtitle: destination was recreated").

(** A link never overwrites; without hard links a rename after a check. *)
Definition restoreRemoved (hidden destination parent : text) : io unit :=
  mbind (M:=M) (fun r => match r with
    | Ok _ => try! _ := Remove hidden in syncDirectory parent
    | Err EExist => fail recreated
    | Err _ =>
        mbind (M:=M) (fun r => match r with
          | Err ENotExist => try! _ := Rename hidden destination in syncDirectory parent
          | _ => fail recreated
          end) (Lstat destination)
    end) (Link hidden destination).

Definition remove_installation (removal : RemovalRequest) (requests : list NotificationRequest) : io (list bool) :=
  let inst := VInstallation removal in
  let h := mkHistoryDetail (MediaTitle (VMedia removal)) (IProviderID inst) [] (VReason removal) (VManual removal) in
  transaction (RemoveInstallation json_valid now inst h now requests).

(** The rollback copy of the record, when it lies beside the subtitle. *)
Definition sibling_rollback (inst : Installation) (parent : text) : text :=
  if bool_decide (IRollbackPath inst = []) then []
  else let absolute := path_abs cwd (IRollbackPath inst) in
       if bool_decide (path_dir absolute = parent) then absolute else [].

Definition restore_removed (hidden destination parent : text) (id : Z) (cause : InstallError) : io unit :=
  mbind (M:=M) (fun r => match r with
    | Err e => fail (EJoin [cause; e])
    | Ok _ => mbind (M:=M) (fun _ => fail cause) (finishPendingInstall id)
    end) (restoreRemoved hidden destination parent).

(** After the commit: the hidden file and the old copy go. *)
Definition remove_leftovers (hidden rollback parent : text) (id : Z) : io unit :=
  mbind (M:=M) (fun r => match r with
    | Err _ => okay tt
    | Ok _ =>
        mbind (M:=M) (fun e1 =>
        mbind (M:=M) (fun e2 =>
          match e1 ++ e2 with
          | [] => mbind (M:=M) (fun _ => mbind (M:=M) (fun _ => okay tt) (finishPendingInstall id)) (syncDirectory parent)
          | _ => okay tt
          end)
          (if bool_decide (rollback = []) then mret [] else collect (removeContainedFile cwd rollback parent)))
          (collect (removeContainedFile cwd hidden parent))
    end) (inject i StageCleanup).

Definition RemoveManaged (removal : RemovalRequest) : io unit :=
  let inst := VInstallation removal in
  if (IMediaID inst <=? 0) || bool_decide (ILanguage inst = []) || bool_decide (IPath inst = []) then fail EArguments
  else
    try! (destination, parent) := containedDestination cwd eval_symlinks (IPath inst) (MediaRoots i) in
    try! _ := managedFileMatches destination (IChecksum inst) in
    try! hidden := removalPath parent in
    let rollback := sibling_rollback inst parent in
    try! _ := ctx_err in
    try! id := beginPendingInstall now (mkPending 0 (IMediaID inst) (ILanguage inst) destination (IChecksum inst)
                                          rollback hidden 0 now) in
    on_error (Rename destination hidden)
      (fun e => mbind (M:=M) (fun _ => fail e) (finishPendingInstall id)) (fun _ =>
    let back {A : Type} (m : io A) (k : A -> io unit) : io unit :=
      on_error m (restore_removed hidden destination parent id) k in
    back (managedFileMatches hidden (IChecksum inst)) (fun _ =>
    back (syncDirectory parent) (fun _ =>
    let requests := changeNotificationRequests now checksumBytes encode_payload (t "removed") (VMedia removal) inst
                      (changeNotifierNames i (VMedia removal)) in
    back (inject i StageDatabase) (fun _ =>
    back (remove_installation removal requests) (fun _ =>
    remove_leftovers hidden rollback parent id))))).

(** ** Moves *)

(** How many names a file has. *)
Definition link_count (d : disk) (ino : Z) : Z := Z.of_nat (size (filter (fun kv => kv.2 = ino) (d_names d))).

(** Two names are two entries: in different directories, or both listed under
    different names in one. *)
Definition distinctEntries (path other : text) : io bool :=
  let parent := path_dir (path_clean path) in
  let otherParent := path_dir (path_clean other) in
  try! a := EvalSymlinks eval_symlinks parent in
  try! b := EvalSymlinks eval_symlinks otherParent in
  if negb (bool_decide (a = b)) then okay true
  else query (fun w =>
    let listed p := bool_decide (is_Some (d_names (w_disk w) !! path_join parent (path_base p))) in
    Ok (negb (bool_decide (path_base path = path_base other)) && listed path && listed other)).

Definition removeSameFile (path other : text) : io bool :=
  on_error (Lstat path) (fun e => match e with ENotExist => okay false | _ => fail e end) (fun info =>
  try! otherInfo := Lstat other in
  if negb (is_regular info) || negb (SameFile info otherInfo) then fail (EText (t "not the same file"))
  else
    try! links := query (fun w => Ok (link_count (w_disk w) (i_inode info))) in
    if bool_decide (path_clean path = path_clean other) || (links <? 2) then okay false
    else
      try! distinct := distinctEntries path other in
      if distinct then try! _ := Remove path in okay true else okay false).

(** ** Recovery of removals and moves *)

Inductive Settled :=
| Cleaned | Recorded | Undone | RemovalUndone | Removed | RemovalCleaned | MoveCleaned | MoveFinished.

Definition isPendingRemoval (p : PendingInstall) : bool := has_prefix removalPrefix (path_base (PRollbackPath p)).

Definition isPendingMove (p : PendingInstall) : bool :=
  bool_decide (PStagedPath p = []) && negb (bool_decide (PRollbackPath p = []))
  && negb (has_prefix removalPrefix (path_base (PRollbackPath p)))
  && negb (has_prefix rollbackPrefix (path_base (PRollbackPath p))).

Definition regularFile (path : text) : M bool :=
  mbind (M:=M) (fun r => mret (match r with Ok info => is_regular info | Err _ => false end)) (Lstat path).

(** The record names the subtitle of the row. *)
Definition row_recorded (p : PendingInstall) (destination : text) (inst : option Installation) : bool :=
  match inst with
  | Some x => bool_decide (path_clean (IPath x) = destination) && bool_decide (IChecksum x = PChecksum p)
  | None => false
  end.

Definition removal_cleanup (p : PendingInstall) (parent : text) (committed : bool) : io Settled :=
  mbind (M:=M) (fun e1 =>
  mbind (M:=M) (fun e2 =>
    match join_errors (e1 ++ e2) with
    | Ok _ => okay (if committed then Removed else RemovalCleaned)
    | Err e => fail e
    end)
    (if committed && negb (bool_decide (PStagedPath p = []))
     then collect (removeContainedFile cwd (PStagedPath p) parent) else mret []))
    (collect (removeContainedFile cwd (PRollbackPath p) parent)).

Definition recoverPendingRemoval (p : PendingInstall) (destination parent : text) : io Settled :=
  try! inst := get_installation (PMediaID p) (PLanguage p) in
  try! _ := ctx_err in
  let committed := negb (row_recorded p destination inst) in
  mbind (M:=M) (fun aside : bool =>
    if aside then
      mbind (M:=M) (fun r => match r with
        | Err ENotExist => try! _ := restoreRemoved (PRollbackPath p) destination parent in okay RemovalUndone
        | _ => removal_cleanup p parent committed
        end) (Lstat destination)
    else removal_cleanup p parent committed)
    (if committed then mret false else regularFile (PRollbackPath p)).

Definition recoverPendingMove (p : PendingInstall) (destination : text) : io Settled :=
  on_error (containedDestination cwd eval_symlinks (PRollbackPath p) (MediaRoots i)) (fun _ => okay MoveCleaned)
  (fun '(source, sourceParent) =>
  on_error (Lstat source) (fun e => match e with ENotExist => okay MoveCleaned | _ => fail e end) (fun info =>
  if negb (is_regular info) || (negb (PPublishedInode p =? 0) && negb (i_inode info =? PPublishedInode p))
  then okay MoveCleaned
  else
    on_error (managedFileMatches source (PChecksum p))
      (fun e => match e with EManagedChanged => okay MoveCleaned | _ => fail e end) (fun _ =>
    on_error (Lstat destination) (fun e => match e with ENotExist => okay MoveCleaned | _ => fail e end) (fun dinfo =>
    if negb (SameFile info dinfo) then okay MoveCleaned
    else
      try! _ := ctx_err in
      try! removed := removeSameFile source destination in
      if removed then try! _ := syncDirectory sourceParent in okay MoveFinished else okay MoveCleaned)))).
End remover.
