(* ===== verification/Recovery.v ===== *)
(** * Recovery at startup (src/internal/workflow)

    pending_install.go and rollback.go: settling every row an interrupted
    install, removal or move left behind, and deleting the rollback copies
    older builds kept. *)
From S2P Require Import Prelude GoText GoFloat Domain MatchScore SearchQueue Schedule Workflow Paths Outbox InstallStore Disk Install Remove.

#[local] Open Scope Z_scope.

Section recovery.
Context (cwd : text) (eval_symlinks : text -> option text).
Context (checksumBytes : text -> text).
Context (i : Installer).

(** The destination still holds the file the row's install published. *)
Definition pendingPublicationOwned (destination : text) (p : PendingInstall) : io bool :=
  on_error (Lstat destination) (fun e => match e with ENotExist => okay false | _ => fail e end) (fun info =>
  if negb (is_regular info) || (negb (PPublishedInode p =? 0) && negb (i_inode info =? PPublishedInode p))
  then okay false
  else
    try! payload := ReadFile eval_symlinks destination in
    okay (bool_decide (checksumBytes payload = PChecksum p))).

Definition undo_pending (p : PendingInstall) (destination parent : text) : io unit :=
  mbind (M:=M) (fun has_copy : bool =>
    try! _ := if has_copy then Rename (PRollbackPath p) destination else Remove destination in
    syncDirectory parent)
    (if bool_decide (PRollbackPath p = []) then mret false else regularFile (PRollbackPath p)).

(** What is left of the install: the staged file, and the copy unless the
    install was recorded. *)
Definition pending_cleanup (p : PendingInstall) (parent : text) (recorded : bool) : io unit :=
  mbind (M:=M) (fun e1 =>
  mbind (M:=M) (fun e2 => mret (join_errors (e1 ++ e2)))
    (if negb (bool_decide (PRollbackPath p = [])) && negb recorded
     then collect (removeContainedFile cwd (PRollbackPath p) parent) else mret []))
    (if bool_decide (PStagedPath p = []) then mret [] else collect (removeContainedFile cwd (PStagedPath p) parent)).

Definition recover_install (p : PendingInstall) (destination parent : text) : io Settled :=
  try! inst := get_installation (PMediaID p) (PLanguage p) in
  let recorded := row_recorded p destination inst in
  try! owned := if recorded then okay false else pendingPublicationOwned destination p in
  try! _ := ctx_err in
  try! _ := if owned then undo_pending p destination parent else okay tt in
  try! _ := ctx_err in
  try! _ := pending_cleanup p parent recorded in
  okay (if recorded then Recorded else if owned then Undone else Cleaned).

Definition recoverPendingInstall (p : PendingInstall) : io Settled :=
  try! (destination, parent) := containedDestination cwd eval_symlinks (PDestination p) (MediaRoots i) in
  if isPendingRemoval p then recoverPendingRemoval cwd p destination parent
  else if isPendingMove p then recoverPendingMove cwd eval_symlinks checksumBytes i p destination
  else recover_install p destination parent.

(** One row after the other; a row that cannot be settled is kept. *)
Fixpoint settle_rows (rows : list PendingInstall) (settled : Z) (failures : list InstallError)
    : M (Z * list InstallError) :=
  match rows with
  | [] => mret (settled, failures)
  | p :: rows =>
      mbind (M:=M) (fun r => match r with
        | Err e => mret (settled, failures ++ [e])
        | Ok _ =>
            mbind (M:=M) (fun r => match r with
              | Err e => settle_rows rows settled (failures ++ [e])
              | Ok _ =>
                  mbind (M:=M) (fun r => match r with
                    | Err e => settle_rows rows settled (failures ++ [e])
                    | Ok _ => settle_rows rows (settled + 1) failures
                    end) (finish_row (PID p))
              end) (recoverPendingInstall p)
        end) ctx_err
  end.

Definition list_pending : io (list PendingInstall) := query (fun w => Ok (ListPendingInstalls (w_db w))).

(** The settled count, and [errors.Join] of the failures ([] for nil). *)
Definition RecoverPendingInstalls : M (Z * list InstallError) :=
  mbind (M:=M) (fun r => match r with
    | Err e => mret (0, [e])
    | Ok rows => settle_rows rows 0 []
    end) list_pending.

(** ** Rollback copies *)

Record RollbackSweep := mkSweep { SwRemoved : Z; SwSkipped : Z }.

Definition rollbackCopyParent (c : RollbackCopy) : M (option text) :=
  mbind (M:=M) (fun r => match r with
    | Err _ => mret None
    | Ok (sidecar, parent) =>
        mbind (M:=M) (fun regular : bool =>
          let rollback := path_abs cwd (RCRollbackPath c) in
          mret (if regular && bool_decide (path_dir rollback = parent) && has_prefix rollbackPrefix (path_base rollback)
                then Some parent else None)) (regularFile sidecar)
    end) (containedDestination cwd eval_symlinks (RCPath c) (MediaRoots i)).

Definition unsettled (pending : list PendingInstall) (c : RollbackCopy) : bool :=
  existsb (fun p => (PMediaID p =? RCMediaID c) && bool_decide (PLanguage p = RCLanguage c)) pending.

(** The sweep so far, and the error that ends it. *)
Fixpoint sweep_copies (pending : list PendingInstall) (copies : list RollbackCopy) (s : RollbackSweep)
    : M (RollbackSweep * option InstallError) :=
  match copies with
  | [] => mret (s, None)
  | c :: copies =>
      let skip := sweep_copies pending copies (mkSweep (SwRemoved s) (SwSkipped s + 1)) in
      let stop {A} (m : io A) (k : A -> M (RollbackSweep * option InstallError)) :=
        mbind (M:=M) (fun r => match r with Ok a => k a | Err e => mret (s, Some e) end) m in
      stop ctx_err (fun _ =>
      if unsettled pending c then skip
      else
        mbind (M:=M) (fun parent => match parent with
          | None => skip
          | Some parent =>
              stop ctx_err (fun _ =>
              mbind (M:=M) (fun r => match r with
                | Err _ => skip
                | Ok _ =>
                    stop ctx_err (fun _ =>
                    stop (transaction (fun db =>
                            Ok (ClearInstallationRollback (RCMediaID c) (RCLanguage c) (RCRollbackPath c) db, tt)))
                      (fun _ => sweep_copies pending copies (mkSweep (SwRemoved s + 1) (SwSkipped s))))
                end) (removeRollbackCopy cwd (RCRollbackPath c) parent))
          end) (rollbackCopyParent c))
  end.

Definition DiscardRollbackCopies : M (RollbackSweep * option InstallError) :=
  mbind (M:=M) (fun r => match r with
    | Err e => mret (mkSweep 0 0, Some e)
    | Ok [] => mret (mkSweep 0 0, None)
    | Ok copies =>
        mbind (M:=M) (fun r => match r with
          | Err e => mret (mkSweep 0 0, Some e)
          | Ok pending => sweep_copies pending copies (mkSweep 0 0)
          end) list_pending
    end) (query (fun w => Ok (ListRollbackCopies (w_db w)))).
End recovery.
