(* ===== verification/InstallSpec.v ===== *)
(** * What the installer's steps do

    Specifications of the steps of Install.v over any class of fault
    schedules: which states they can leave, and what a result says about the
    state it was computed in. The steps that only look are collected under
    [looks]; [scribbled] is what writing to one open file does. *)
From S2P Require Import Prelude GoText GoFloat Domain MatchScore SearchQueue Schedule Workflow Paths Outbox InstallStore Disk Install Remove Recovery.

#[local] Open Scope Z_scope.

(** Some call fails; the process dies in a state of [I]. *)
Definition faulty (p : fault -> Prop) : Prop := exists e, p (Fails e).
Definition crashed (p : fault -> Prop) (I : world -> Prop) (w : world) : Prop := p Crash /\ I w.

Lemma no_fault_faulty : ~ faulty no_fault.
Proof. by intros [e [=]]. Qed.

(** ** Looking *)

Section looks.
Context (p : fault -> Prop).

Definition looks {A} (m : M A) (R : A -> Prop) (w : world) : Prop :=
  wp p m (fun a w' => w' = w /\ R a) (crashed p (eq w)) w.

Lemma wp_looks {A} (m : M A) (R : A -> Prop) Q C w :
  looks m R w -> (forall a, R a -> Q a w) -> (p Crash -> C w) -> wp p m Q C w.
Proof.
  intros H HQ HC. eapply wp_mono; [exact H| |].
  - intros a w' [-> Ha]. by apply HQ.
  - intros w' [Hc <-]. by apply HC.
Qed.

Lemma looks_mono {A} (m : M A) (R R' : A -> Prop) w : looks m R w -> (forall a, R a -> R' a) -> looks m R' w.
Proof. intros H HR. eapply wp_mono; [exact H| |done]. intros a w' [-> Ha]. split; [done|by apply HR]. Qed.

Lemma looks_ret {A} (a : A) (R : A -> Prop) w : R a -> looks (mret a) R w.
Proof. intros H. by apply wp_ret. Qed.

Lemma looks_bind {A B} (m : M A) (k : A -> M B) (R : A -> Prop) (S : B -> Prop) w :
  looks m R w -> (forall a, R a -> looks (k a) S w) -> looks (mbind k m) S w.
Proof.
  intros H Hk. apply wp_bind. eapply wp_looks; [exact H| |by intros Hc].
  intros a Ha. by apply Hk.
Qed.

Lemma looks_otherwise {A B} (m : io A) (k : A -> io B) (R : result InstallError A -> Prop) S w :
  looks m R w -> (forall a, R (Ok a) -> looks (k a) S w) -> (forall e, R (Err e) -> S (Err e)) ->
  looks (otherwise m k) S w.
Proof. intros H Hk He. eapply looks_bind; [exact H|]. intros [a|e] Ha; [by apply Hk|by apply looks_ret, He]. Qed.

Lemma looks_query {A} (f : world -> result InstallError A) (R : result InstallError A -> Prop) w :
  R (f w) -> (forall e, p (Fails e) -> R (Err (EIO e))) -> looks (query f) R w.
Proof. intros H He. apply wp_query; [by split|by intros e Hf; split; [|by apply He]|by intros Hc]. Qed.

Lemma looks_ctx (R : result InstallError unit -> Prop) w :
  R (Ok tt) -> (faulty p -> R (Err EContext)) -> looks ctx_err R w.
Proof. intros H He. apply wp_call; [by split|intros e Hf; split; [done|apply He; by exists e]|by intros Hc]. Qed.
End looks.

Definition trivially {A} (_ : A) : Prop := True.

Lemma looks_query_any {A} p (f : world -> result InstallError A) w : looks p (query f) trivially w.
Proof. by apply looks_query. Qed.

#[export] Hint Resolve looks_query_any : subsync.

Section steps.
Context (cwd : text) (eval_symlinks : text -> option text) (draws : text -> nat -> N) (now : instant).
Context (checksumBytes : text -> text).
Context (i : Installer) (p : fault -> Prop).

Lemma looks_lstat q w :
  looks p (Lstat q) (fun r => match r with
    | Ok info => info_of (w_disk w) q = Some info
    | Err ENotExist => info_of (w_disk w) q = None
    | Err _ => faulty p
    end) w.
Proof.
  apply looks_query; [|intros e He; by exists e]. by destruct (info_of (w_disk w) q).
Qed.

Lemma looks_read q n w :
  look (w_disk w) q = Some n -> f_kind n = Regular ->
  looks p (ReadFile eval_symlinks q) (fun r => match r with Ok x => x = f_data n | Err _ => faulty p end) w.
Proof.
  intros Hn Hk. apply looks_query; [|intros e He; by exists e]. rewrite Hn, bool_decide_false by congruence.
  unfold readable. by rewrite bool_decide_true.
Qed.

(** ** Containment *)

Definition contained (path : text) (roots : list text) : bool :=
  match eval_symlinks (path_dir (path_abs cwd path)) with
  | Some parent =>
      existsb (fun root => match eval_symlinks (path_abs cwd root) with
                           | Some resolved => within resolved parent
                           | None => false
                           end) roots
  | None => false
  end.

Lemma looks_any_root roots parent w :
  let inside := existsb (fun root => match eval_symlinks (path_abs cwd root) with
                                     | Some resolved => within resolved parent
                                     | None => false
                                     end) roots in
  looks p (any_root cwd eval_symlinks roots parent) (fun r => match r with
    | Ok true => inside = true
    | Ok false => inside = true -> faulty p
    | Err _ => False
    end) w.
Proof.
  induction roots as [|root roots IH]; cbn [any_root existsb]; [by apply looks_ret|].
  eapply looks_bind; [apply looks_query with (R := fun r => match r with
    | Ok resolved => eval_symlinks (path_abs cwd root) = Some resolved
    | Err _ => eval_symlinks (path_abs cwd root) = None \/ faulty p end)|].
  - destruct (eval_symlinks _); [done|by left].
  - intros e He. right. by exists e.
  - intros [resolved|e].
    + intros ->. destruct (within resolved parent); [by apply looks_ret|]. exact IH.
    + intros Hr. eapply looks_mono; [exact IH|]. intros [[]|]; [|..|done].
      * intros ->. by rewrite orb_true_r.
      * intros H Hin. apply orb_true_iff in Hin as [Hin|Hin]; [|by apply H].
        destruct Hr as [Hr|Hr]; [|done]. by rewrite Hr in Hin.
Qed.

Lemma looks_contained path roots w :
  looks p (containedDestination cwd eval_symlinks path roots) (fun r => match r with
    | Ok dp => dp = (path_abs cwd path, path_dir (path_abs cwd path)) /\ contained path roots = true
    | Err _ => contained path roots = true -> faulty p
    end) w.
Proof.
  unfold containedDestination, contained. destruct (decide (roots = [])) as [->|Hr].
  { rewrite bool_decide_true by done. apply looks_ret. by destruct (eval_symlinks _). }
  rewrite bool_decide_false by done.
  eapply looks_otherwise; [apply looks_query with (R := fun r => match r with
    | Ok resolved => eval_symlinks (path_dir (path_abs cwd path)) = Some resolved
    | Err _ => eval_symlinks (path_dir (path_abs cwd path)) = None \/ faulty p end)|..].
  - destruct (eval_symlinks _); [done|by left].
  - intros e He. right. by exists e.
  - intros parent ->. eapply looks_otherwise; [apply looks_any_root| |by intros ? []].
    intros [] H; by apply looks_ret.
  - intros e [-> | ?]; [done|by intros].
Qed.

(** ** Checks *)

Ltac look_step :=
  first [ apply looks_ret; done
        | eapply looks_otherwise; [apply looks_query_any| |done]; intros ? _
        | eapply looks_bind; [apply looks_query_any|]; intros ? _ ].

Lemma looks_source path w :
  looks p (readSubtitleSource eval_symlinks path) (fun r => match r with
    | Ok x => exists n, look (w_disk w) path = Some n /\ f_kind n = Regular /\ x = f_data n
    | Err _ => True
    end) w.
Proof.
  unfold readSubtitleSource. eapply looks_bind; [apply looks_lstat|]. intros [info|e] Hr; [|by apply looks_ret].
  unfold is_regular. destruct (decide (f_kind (i_node info) = Regular)) as [Hk|Hk];
    [rewrite bool_decide_true by done|rewrite bool_decide_false by done; by apply looks_ret].
  cbn [negb]. destruct (_ || _); [by apply looks_ret|]. apply look_info in Hr as [Hl _].
  eapply looks_otherwise; [by eapply looks_read| |done]. cbn. intros x ->.
  destruct (_ || _); apply looks_ret; [done|]. by exists (i_node info).
Qed.

Lemma looks_media f w : looks p (verifyMediaUnchanged cwd eval_symlinks i f) trivially w.
Proof.
  unfold verifyMediaUnchanged. look_step. destruct a as [resolved|e]; [|look_step].
  eapply looks_bind; [apply looks_contained|]. intros [dp|e] _; [|look_step].
  look_step. destruct a as [info|e]; [|look_step]. by destruct (_ && _); look_step.
Qed.

Lemma looks_unchanged d existing replacing w :
  looks p (verifyReplacementUnchanged eval_symlinks checksumBytes d existing replacing) trivially w.
Proof.
  unfold verifyReplacementUnchanged. destruct (negb replacing).
  - look_step. destruct a as [|[]]; look_step.
  - look_step. destruct a as [info|e]; [|look_step]. destruct (negb _); [look_step|].
    look_step. destruct a as [x|e]; [|look_step]. by destruct (bool_decide _); look_step.
Qed.

Lemma looks_replacement d existing w :
  disk_ok (w_disk w) ->
  looks p (replacementState eval_symlinks checksumBytes d existing) (fun r => match r with
    | Ok true => exists e n, existing = Some e /\ path_clean (IPath e) = path_clean d
                   /\ look (w_disk w) d = Some n /\ f_kind n = Regular /\ checksumBytes (f_data n) = IChecksum e
    | Ok false => look (w_disk w) d = None
    | Err _ => True
    end) w.
Proof.
  intros Hok. unfold replacementState. eapply looks_bind; [apply looks_lstat|]. intros [info|e] Hr.
  - unfold is_regular. destruct (decide (f_kind (i_node info) = Regular)) as [Hk|Hk];
      [rewrite bool_decide_true by done|rewrite bool_decide_false by done; by apply looks_ret].
    cbn [negb]. destruct existing as [x|]; [|by apply looks_ret].
    destruct (decide (path_clean (IPath x) = path_clean d)) as [Hp|Hp];
      [rewrite bool_decide_true by done|rewrite bool_decide_false by done; by apply looks_ret].
    apply look_info in Hr as [Hl _]. eapply looks_otherwise; [by eapply looks_read| |done].
    cbn. intros payload ->. destruct (decide (checksumBytes (f_data (i_node info)) = IChecksum x)) as [Hc|Hc];
      [rewrite bool_decide_true by done|rewrite bool_decide_false by done]; apply looks_ret; [|done].
    by exists x, (i_node info).
  - destruct e; try by apply looks_ret. apply looks_ret. by apply info_none in Hr.
Qed.

(** A file of the directory itself, regular or gone. *)
Definition tidy (q : text) (w : world) : Prop :=
  match look (w_disk w) q with Some n => f_kind n = Regular | None => True end.

Lemma wp_remove q w (Q : result InstallError unit -> world -> Prop) C :
  (d_names (w_disk w) !! q = None -> Q (Err ENotExist) w) ->
  (is_Some (d_names (w_disk w) !! q) -> Q (Ok tt) (on_disk (unlink q (w_disk w)) w)) ->
  (forall e, p (Fails e) -> Q (Err (EIO e)) w) -> (p Crash -> C w) ->
  wp p (Remove q) Q C w.
Proof.
  intros H1 H2 HE HC. apply wp_change; [|done..].
  destruct (d_names (w_disk w) !! q) eqn:E; [by apply H2|by apply H1].
Qed.

(** Whatever the path, at most that name goes. *)
Lemma wp_remove_contained_any q parent w (Q : result InstallError unit -> world -> Prop) C :
  (forall r, Q r w) -> Q (Ok tt) (on_disk (unlink (path_abs cwd q) (w_disk w)) w) -> (p Crash -> C w) ->
  wp p (removeContainedFile cwd q parent) Q C w.
Proof.
  intros H1 H2 HC. unfold removeContainedFile. destruct (negb _); [by apply wp_ret|].
  apply wp_bind. eapply wp_looks; [apply looks_lstat| |done]. intros [info|e] _; [|by destruct e; apply wp_ret].
  destruct (is_regular info); [|by apply wp_ret]. by apply wp_remove.
Qed.

Lemma wp_remove_contained q parent w (Q : result InstallError unit -> world -> Prop) C :
  disk_ok (w_disk w) -> path_abs cwd q = q -> path_dir q = path_clean parent -> tidy q w ->
  (look (w_disk w) q = None -> Q (Ok tt) w) ->
  Q (Ok tt) (on_disk (unlink q (w_disk w)) w) ->
  (forall e, faulty p -> Q (Err e) w) -> (p Crash -> C w) ->
  wp p (removeContainedFile cwd q parent) Q C w.
Proof.
  intros Hok Ha Hd Ht H1 H2 HE HC. unfold removeContainedFile. rewrite Ha, bool_decide_true by done. cbn [negb].
  apply wp_bind. eapply wp_looks; [apply looks_lstat| |done]. intros [info|e] Hr.
  - apply look_info in Hr as [Hl Hn]. unfold tidy in Ht. rewrite Hl in Ht. unfold is_regular.
    rewrite bool_decide_true by done. apply wp_remove; [congruence|done| |done].
    intros e He. apply HE. by exists e.
  - destruct e; try by apply wp_ret, HE. apply wp_ret, H1. by apply info_none.
Qed.

(** ** Writing one open file *)

Record scribbled (ino : Z) (w w' : world) : Prop := {
  scribbled_db : w_db w' = w_db w;
  scribbled_names : d_names (w_disk w') = d_names (w_disk w);
  scribbled_others : forall j, j <> ino -> d_nodes (w_disk w') !! j = d_nodes (w_disk w) !! j;
  scribbled_kind : forall n, d_nodes (w_disk w) !! ino = Some n ->
                     exists n', d_nodes (w_disk w') !! ino = Some n' /\ f_kind n' = f_kind n;
}.

#[export] Instance scribbled_preorder ino : PreOrder (scribbled ino).
Proof.
  split.
  - intros w. by split; eauto.
  - intros w1 w2 w3 [H1 H2 H3 H4] [H5 H6 H7 H8]. split; [congruence|congruence| |].
    + intros j Hj. by rewrite H7, H3.
    + intros n Hn. destruct (H4 n Hn) as (n2 & Hn2 & Hk2). destruct (H8 n2 Hn2) as (n3 & Hn3 & Hk3).
      exists n3. split; [done|congruence].
Qed.

Lemma scribbled_update ino f w :
  (forall n, f_kind (f n) = f_kind n) -> scribbled ino w (on_disk (update_node ino f (w_disk w)) w).
Proof.
  intros Hf. split; [done|done| |].
  - intros j Hj. simpl. by rewrite lookup_alter_ne.
  - intros n Hn. simpl. rewrite lookup_alter_eq, Hn. by exists (f n).
Qed.

Definition holds_data (ino : Z) (x : text) (w : world) : Prop :=
  exists n, d_nodes (w_disk w) !! ino = Some n /\ f_data n = x.

Lemma wp_write_one ino x y w (Q : result InstallError nat -> world -> Prop) C :
  holds_data ino y w ->
  (forall n w', (n <= length x)%nat -> scribbled ino w w' -> holds_data ino (y ++ take n x) w' -> Q (Ok n) w') ->
  (forall e, p (Fails e) -> Q (Err (EIO e)) w) -> (p Crash -> C w) ->
  wp p (Write now ino x) Q C w.
Proof.
  intros (n0 & Hn0 & Hy) HQ HF HC fs Hfs. unfold Write.
  assert (forall k, (k <= length x)%nat ->
    Q (Ok k) (on_disk (update_node ino (append_data now (take k x)) (w_disk w)) w)) as Hwrite.
  { intros k Hk. apply HQ; [done|by apply scribbled_update|].
    exists (append_data now (take k x) n0). simpl. rewrite lookup_alter_eq, Hn0. split; [done|]. simpl. by rewrite Hy. }
  pose proof (Hwrite (length x) ltac:(lia)) as Hall. rewrite firstn_all in Hall.
  destruct Hfs as [|f fs Hf Hfs]; [by split|]. destruct f as [|k|e|]; [by split| |by split; [apply HF|]|by apply HC].
  split; [|done]. apply Hwrite. lia.
Qed.

Lemma wp_write_all fuel ino x y w (Q : result InstallError unit -> world -> Prop) C :
  (length x <= fuel)%nat -> holds_data ino y w ->
  (forall w', scribbled ino w w' -> holds_data ino (y ++ x) w' -> Q (Ok tt) w') ->
  (forall e w', scribbled ino w w' -> Q (Err e) w') ->
  (forall w', p Crash -> scribbled ino w w' -> C w') ->
  wp p (write_all now fuel ino x) Q C w.
Proof.
  revert x y w. induction fuel as [|fuel IH]; intros x y w Hlen Hd HQ HE HC.
  { destruct x; [|simpl in *; lia]. apply wp_ret, HQ; [done|by rewrite app_nil_r]. }
  destruct x as [|r x]; [apply wp_ret, HQ; [done|by rewrite app_nil_r]|].
  cbn [write_all]. apply wp_otherwise. eapply wp_write_one; [done| |..].
  - intros n w' Hn Hs Hd'. destruct (Nat.eqb_spec n 0) as [->|Hn0]; [by apply wp_ret, HE|].
    eapply (IH _ (y ++ take n (r :: x))); [rewrite length_drop; cbn [length] in *; lia|done|..].
    + intros w'' Hs' Hd''. apply HQ; [by etrans|]. by rewrite <- app_assoc, take_drop in Hd''.
    + intros e w'' Hs'. apply HE. by etrans.
    + intros w'' Hc Hs'. apply HC; [done|]. by etrans.
  - intros e He. by apply HE.
  - intros Hc. by apply HC.
Qed.

(** [writeAll] writes everything or fails, and touches no other file. *)
Lemma wp_writeAll ino x y w (Q : result InstallError unit -> world -> Prop) C :
  holds_data ino y w ->
  (forall w', scribbled ino w w' -> holds_data ino (y ++ x) w' -> Q (Ok tt) w') ->
  (forall e w', scribbled ino w w' -> Q (Err e) w') ->
  (forall w', p Crash -> scribbled ino w w' -> C w') ->
  wp p (writeAll now ino x) Q C w.
Proof. intros. by eapply wp_write_all. Qed.

Lemma wp_chmod ino mode x w (Q : result InstallError unit -> world -> Prop) C :
  holds_data ino x w ->
  (forall w', scribbled ino w w' -> holds_data ino x w' ->
     (exists n, d_nodes (w_disk w') !! ino = Some n /\ f_mode n = mode) -> Q (Ok tt) w') ->
  (forall e, Q (Err e) w) -> (p Crash -> C w) ->
  wp p (Chmod ino mode) Q C w.
Proof.
  intros (n & Hn & Hx) HQ HE HC. apply wp_change; [|by intros|done]. apply HQ; [by apply scribbled_update|..].
  - eexists. simpl. rewrite lookup_alter_eq, Hn. split; [done|]. done.
  - eexists. simpl. rewrite lookup_alter_eq, Hn. split; [done|]. done.
Qed.

Lemma wp_create dir prefix w (Q : result InstallError (text * Z) -> world -> Prop) C :
  (forall q k, q = temp_name draws dir prefix k -> d_names (w_disk w) !! q = None ->
     Q (Ok (q, free_inode (w_disk w)))
       (on_disk (mkDisk (<[q := free_inode (w_disk w)]> (d_names (w_disk w)))
                        (<[free_inode (w_disk w) := mkNode Regular [] 384 now]> (d_nodes (w_disk w)))) w)) ->
  (forall e, Q (Err e) w) -> (p Crash -> C w) ->
  wp p (CreateTemp draws now dir prefix) Q C w.
Proof.
  intros HQ HE HC. apply wp_change; [|by intros|done].
  destruct (first_free _ _ _ _ _ _) as [q|] eqn:E; [|by apply HE].
  apply first_free_spec in E as [Hq [k Hk]]. by eapply HQ.
Qed.

Lemma wp_on_error {A B} (m : io A) (failed : InstallError -> io B) (k : A -> io B) Q C w :
  wp p m (fun r w' => match r with Ok a => wp p (k a) Q C w' | Err e => wp p (failed e) Q C w' end) C w ->
  wp p (on_error m failed k) Q C w.
Proof. intros H. apply wp_bind. eapply wp_mono; [exact H|by intros []|done]. Qed.

Lemma wp_collect m Q C w :
  wp p m (fun r w' => Q (match r with Ok _ => [] | Err e => [e] end) w') C w -> wp p (collect m) Q C w.
Proof. intros H. apply wp_bind. eapply wp_mono; [exact H| |done]. intros r w' HQ. by apply wp_ret. Qed.

Lemma wp_finish id w (Q : unit -> world -> Prop) C :
  Q tt w -> Q tt (in_db (FinishPendingInstall id (w_db w)) w) -> (p Crash -> C w) ->
  wp p (finishPendingInstall id) Q C w.
Proof.
  intros H1 H2 HC. unfold finishPendingInstall. destruct (id =? 0); [by apply wp_ret|].
  apply wp_bind, wp_transaction; [by apply wp_ret|by intros; apply wp_ret|done].
Qed.
End steps.
