(* ===== verification/Sidecars.v ===== *)
(** * Subtitles next to a media file (src/internal/inventory/sidecars.go)

    ScanSidecars over the file system of Disk.v, the language and flags read
    from a sidecar's name, and the ownership that Service.Refresh adds
    (inventory.go). The theorems relate them to the installer: the name it
    writes a subtitle under is read back as that language, and a sidecar is
    open to replacement only when the database records this very file. *)
From S2P Require Import Prelude GoText Paths Domain Workflow InstallStore Disk Install InstallSpec Inventory Acquire.

#[local] Open Scope Z_scope.

Record OwnedSidecar := mkOwned { OwPath : text; OwChecksum : text }.

Definition supportedSidecarExtensions : list text := [t ".srt"; t ".ass"; t ".ssa"; t ".vtt"].

Section sidecars.
Context `{Unicode, LanguageTags}.
Context (eval_symlinks : text -> option text) (checksum : text -> text).

(** The flags after the language. *)
Fixpoint suffix_flags (tokens : list text) (forced sdh : bool) : option (bool * bool) :=
  match tokens with
  | [] => Some (forced, sdh)
  | token :: tokens =>
      let token := to_lower token in
      if bool_decide (token = t "forced") then suffix_flags tokens true sdh
      else if bool_decide (token ∈ [t "sdh"; t "hi"; t "cc"]) then suffix_flags tokens forced true
      else None
  end.

Definition parseSidecarSuffix (raw : text) : option (Language * bool * bool) :=
  match split_rune 46%N raw with
  | [] => None
  | first :: rest =>
      match ParseLanguage first with
      | Err _ => None
      | Ok language => (fun '(forced, sdh) => (language, forced, sdh)) <$> suffix_flags rest false false
      end
  end.

(** [os.ReadDir]: what the directory holds, by name. *)
Definition ReadDir (directory : text) : io (list (text * node)) :=
  query (fun w =>
    let entries := omap (fun '(p, i) =>
        if bool_decide (path_dir p = directory) && negb (bool_decide (p = directory))
        then pair (path_base p) <$> d_nodes (w_disk w) !! i else None)
      (map_to_list (d_names (w_disk w))) in
    Ok (stable_sort (fun a b => text_lt a.1 b.1) entries)).

Definition checksumFile (path : text) : io text :=
  try! data := ReadFile eval_symlinks path in okay (checksum data).

(** The language and flags of a directory entry, unless it is skipped. *)
Definition entry_suffix (stem : text) (name : text) : option (Language * bool * bool) :=
  let extension := to_lower (path_ext name) in
  if negb (bool_decide (extension ∈ supportedSidecarExtensions)) then None
  else
    let base := trim_suffix (path_ext name) name in
    if negb (has_prefix (stem ++ t ".") base) then None
    else parseSidecarSuffix (trim_prefix (stem ++ t ".") base).

(** A symbolic link counts when it leads to a regular file. *)
Definition dangling (path : text) (symlink : bool) : io bool :=
  if symlink then
    mbind (M:=M) (fun r => match r with Ok info => okay (negb (is_regular info)) | Err _ => okay true end) (Stat eval_symlinks path)
  else okay false.

Definition sidecar_track (directory name : text) (symlink : bool) (l : Language * bool * bool)
    (ownership : gmap Language OwnedSidecar) (sum : text) : Track :=
  let '(language, forced, sdh) := l in
  let path := path_join directory name in
  let protected := symlink || match ownership !! language with
                              | None => true
                              | Some owned => negb (bool_decide (path_clean (OwPath owned) = path_clean path))
                                              || negb (bool_decide (OwChecksum owned = sum))
                              end in
  mkTrack 0 path language (trim_prefix (t ".") (to_lower (path_ext name))) false forced false sdh protected symlink sum.

Fixpoint scan_entries (directory stem : text) (ownership : gmap Language OwnedSidecar) (entries : list (text * node))
    : io (list Track) :=
  match entries with
  | [] => okay []
  | (name, n) :: entries =>
      if bool_decide (f_kind n = Directory) then scan_entries directory stem ownership entries
      else
        let symlink := bool_decide (f_kind n = Symlink) in
        match entry_suffix stem name with
        | None => scan_entries directory stem ownership entries
        | Some l =>
            let path := path_join directory name in
            try! skip := dangling path symlink in
            if skip then scan_entries directory stem ownership entries
            else
              try! sum := checksumFile path in
              try! tracks := scan_entries directory stem ownership entries in
              okay (sidecar_track directory name symlink l ownership sum :: tracks)
        end
  end.

Definition stem_of (mediaPath : text) : text := trim_suffix (path_ext mediaPath) (path_base mediaPath).

Definition ScanSidecars (mediaPath : text) (ownership : gmap Language OwnedSidecar) : io (list Track) :=
  let directory := path_dir mediaPath in
  try! entries := ReadDir directory in
  scan_entries directory (stem_of mediaPath) ownership entries.

(** ** Ownership *)

(** The record of the same language makes a sidecar the program's own. *)
Definition is_owned (track : Track) (i : option Installation) : bool :=
  match i with
  | None => false
  | Some i => negb (TSymlink track) && bool_decide (path_clean (IPath i) = path_clean (TPath track))
              && bool_decide (IChecksum i = TChecksum track)
  end.

Definition set_protected (b : bool) (x : Track) : Track :=
  mkTrack (TIndex x) (TPath x) (TLanguage x) (TCodec x) (TEmbedded x) (TForced x) (TDefault x) (TSDH x) b (TSymlink x) (TChecksum x).

Fixpoint own_sidecars (mediaID : Z) (tracks : list Track) : io (list Track) :=
  match tracks with
  | [] => okay []
  | track :: tracks =>
      try! i := query (fun w => Ok (GetInstallation mediaID (TLanguage track) (w_db w))) in
      try! rest := own_sidecars mediaID tracks in
      okay ((if is_owned track i then set_protected false track else track) :: rest)
  end.

(** What Refresh knows of the sidecars: the scan, without ownership, and the
    records. *)
Definition refresh_sidecars (mediaID : Z) (mediaPath : text) : io (list Track) :=
  try! sidecars := ScanSidecars mediaPath ∅ in own_sidecars mediaID sidecars.
End sidecars.

(** ** Names *)

Definition no_dot (s : text) : Prop := Forall (fun r => (r =? 46)%N = false) s.

Lemma index_of_absent r s : Forall (fun x => (x =? r)%N = false) s -> index_of [r] s = None.
Proof.
  induction 1 as [|x s Hx _ IH]; [done|]. cbn. rewrite N.eqb_sym, Hx. cbn. by rewrite IH.
Qed.

Lemma index_of_first r s u : Forall (fun x => (x =? r)%N = false) s -> index_of [r] (s ++ r :: u) = Some (length s).
Proof.
  induction 1 as [|x s Hx _ IH]; cbn; [by rewrite N.eqb_refl|]. rewrite N.eqb_sym, Hx. cbn. by rewrite IH.
Qed.

(** The extension of a last element: the last dot and what follows it. *)
Lemma path_ext_dot p base e : List.last (split_rune slash p) [] = base ++ 46%N :: e -> no_dot e -> path_ext p = 46%N :: e.
Proof.
  intros Hl He. unfold path_ext. rewrite Hl, rev_app_distr. cbn [rev]. rewrite <- app_assoc. cbn [app].
  rewrite index_of_first by (by apply List.Forall_rev). rewrite length_rev, length_app. cbn [length].
  replace (length base + S (length e) - S (length e))%nat with (length base) by lia. apply drop_app_length.
Qed.

Lemma index_of_some r s i : index_of [r] s = Some i -> exists a b, s = a ++ r :: b /\ length a = i.
Proof.
  revert i. induction s as [|x s IH]; intros i; cbn; [done|]. destruct (N.eqb_spec r x) as [<-|Hx]; cbn.
  - intros [= <-]. by exists [], s.
  - destruct (index_of [r] s) as [j|]; [|done]. intros [= <-]. destruct (IH j eq_refl) as (a & b & -> & <-). by exists (x :: a), b.
Qed.

(** The extension is a suffix of the last element. *)
Lemma path_ext_suffix p : exists base, List.last (split_rune slash p) [] = base ++ path_ext p.
Proof.
  unfold path_ext. set (name := List.last (split_rune slash p) []).
  destruct (index_of [46%N] (rev name)) as [i|]; [|exists name; by rewrite app_nil_r].
  exists (take (length name - S i) name). by rewrite take_drop.
Qed.

Lemma path_ext_last p q : List.last (split_rune slash p) [] = List.last (split_rune slash q) [] -> path_ext p = path_ext q.
Proof. unfold path_ext. by intros ->. Qed.

Lemma join_prefix d name : path_join d name = path_join d [] ++ name.
Proof. unfold path_join. destruct (has_suffix _ _); rewrite app_nil_r; [done|by rewrite <- app_assoc]. Qed.

Lemma clean_path_cases p : clean_path p -> p = t "/" \/ exists d name, clean_path d /\ plain name /\ p = path_join d name.
Proof.
  intros (es & Hes & ->). destruct es as [|e es _] using rev_ind; [by left|right].
  apply Forall_app in Hes as [Hes He]. inversion He; subst. exists (of_elements es), e.
  split_and!; [by exists es|done|by rewrite join_of_elements].
Qed.

(** ** The name the installer writes *)

Section installed_name.
Context `{Unicode, LanguageTags}.

(** A language as the program stores it: its own canonical tag, without dots
    or slashes. *)
Definition language_name (l : Language) : Prop := ParseLanguage l = Ok l /\ no_dot l /\ no_slash l.

Lemma supported_shape e : e ∈ supportedSidecarExtensions ->
  to_lower e = e /\ exists x, e = 46%N :: x /\ no_dot x /\ no_slash x /\ (3 <= length x)%nat.
Proof.
  unfold supportedSidecarExtensions. intros Hin.
  repeat (apply elem_of_cons in Hin as [->|Hin];
    [split; [by vm_compute|eexists; split_and!; [by vm_compute|by repeat constructor|by repeat constructor|by vm_compute; lia]]|]).
  by apply elem_of_nil in Hin.
Qed.

Definition destination_name (mediaName : text) (l : Language) (e : text) : text :=
  trim_suffix (path_ext mediaName) mediaName ++ t "." ++ l ++ e.

Lemma split_no_dot s : no_dot s -> split_rune 46%N s = [s].
Proof. induction 1 as [|r s Hr _ IH]; [done|]. cbn. by rewrite Hr, IH. Qed.

Lemma no_slash_prefix a b : no_slash (a ++ b) -> no_slash a.
Proof. unfold no_slash. intros [Ha _]%Forall_app. done. Qed.

Lemma path_ext_joined d name : clean_path d -> no_slash name -> path_ext (path_join d name) = path_ext name.
Proof. intros Hd Hn. apply path_ext_last. by rewrite last_joined, split_no_slash. Qed.

(** The extension is a suffix of the name itself. *)
Lemma stem_ext name : no_slash name -> name = trim_suffix (path_ext name) name ++ path_ext name.
Proof.
  intros Hn. destruct (path_ext_suffix name) as [base Hb]. rewrite split_no_slash in Hb by done. cbn in Hb.
  set (e := path_ext name) in *. clearbody e. by rewrite Hb, trim_suffix_app.
Qed.

Lemma destination_joined d name l out e :
  clean_path d -> no_slash name -> to_lower (path_ext out) = e ->
  subtitleDestination (path_join d name) l out = path_join d (destination_name name l e).
Proof.
  intros Hd Hn He. unfold subtitleDestination, destination_name. rewrite He, path_ext_joined by done.
  rewrite (join_prefix d name), (join_prefix d (_ ++ _)).
  assert (trim_suffix (path_ext name) (path_join d [] ++ name) = path_join d [] ++ trim_suffix (path_ext name) name) as ->.
  { rewrite (stem_ext name Hn) at 2. rewrite app_assoc. apply trim_suffix_app. }
  by rewrite <- app_assoc.
Qed.

Lemma destination_plain name l e : no_slash name -> no_slash l -> e ∈ supportedSidecarExtensions ->
  plain (destination_name name l e).
Proof.
  intros Hn Hl He. destruct (supported_shape e He) as (_ & x & -> & Hx1 & Hx2 & Hx3). unfold destination_name.
  rewrite (stem_ext name Hn) in Hn. apply no_slash_prefix in Hn.
  set (stem := trim_suffix _ _) in *. split; [|].
  - unfold no_slash in *. rewrite !Forall_app. split_and!; [done|by repeat constructor|done|by constructor].
  - assert (4 < length (stem ++ t "." ++ l ++ 46%N :: x))%nat as Hlen by (rewrite !length_app; cbn [length]; change (length (t ".")) with 1%nat; lia).
    split_and!; intros E; rewrite E in Hlen; cbn in Hlen; lia.
Qed.

(** A scan reads the language of the subtitle from that name, and no flag. *)
Lemma destination_suffix name l e : no_slash name -> language_name l -> e ∈ supportedSidecarExtensions ->
  entry_suffix (trim_suffix (path_ext name) name) (destination_name name l e) = Some (l, false, false).
Proof.
  intros Hn (Hp & Hd & Hs) He. destruct (supported_shape e He) as (Hlow & x & -> & Hx1 & Hx2 & _).
  pose proof (destination_plain name l _ Hn Hs He) as [Hplain _]. unfold entry_suffix, destination_name in *.
  set (stem := trim_suffix (path_ext name) name) in *.
  assert (path_ext (stem ++ t "." ++ l ++ 46%N :: x) = 46%N :: x) as ->.
  { apply (path_ext_dot _ (stem ++ t "." ++ l)); [|done]. rewrite split_no_slash by done. cbn. by rewrite <- !app_assoc. }
  rewrite Hlow, bool_decide_true by done. cbn [negb].
  assert (trim_suffix (46%N :: x) (stem ++ t "." ++ l ++ 46%N :: x) = (stem ++ t ".") ++ l) as ->.
  { replace (stem ++ t "." ++ l ++ 46%N :: x) with (((stem ++ t ".") ++ l) ++ 46%N :: x) by (by rewrite <- !app_assoc).
    apply trim_suffix_app. }
  assert (has_prefix (stem ++ t ".") ((stem ++ t ".") ++ l) = true) as -> by (apply has_prefix_spec; eauto). cbn [negb].
  rewrite trim_prefix_app. unfold parseSidecarSuffix. rewrite split_no_dot by done. by rewrite Hp.
Qed.
End installed_name.

(** ** What a scan finds *)

Section scan.
Context `{Unicode, LanguageTags}.
Context (eval_symlinks : text -> option text) (checksum : text -> text) (p : fault -> Prop) (w : world).

(** Every name of the file system is absolute and clean. *)
Definition clean_names : Prop := forall q i, d_names (w_disk w) !! q = Some i -> clean_path q.

Definition listed (directory : text) (entries : list (text * node)) : Prop :=
  (forall name n, (name, n) ∈ entries -> look (w_disk w) (path_join directory name) = Some n)
  /\ forall name n, plain name -> look (w_disk w) (path_join directory name) = Some n -> (name, n) ∈ entries.

Lemma looks_readdir directory : clean_names -> clean_path directory ->
  looks p (ReadDir directory) (fun r => match r with Ok entries => listed directory entries | Err _ => True end) w.
Proof.
  intros Hnames Hd. apply looks_query; [|done]. split.
  - intros name n Hin. rewrite stable_sort_perm in Hin. apply list_elem_of_omap in Hin as ([q i] & Hq & Hqn).
    apply elem_of_map_to_list in Hq. case_bool_decide as Hdir; [|done]. case_bool_decide as Hself; [done|]. cbn in Hqn.
    destruct (d_nodes (w_disk w) !! i) as [n'|] eqn:Ei; [|done]. injection Hqn as <- <-.
    assert (path_join directory (path_base q) = q) as ->; [|unfold look; by rewrite Hq].
    destruct (clean_path_cases q (Hnames q i Hq)) as [->|(d & x & Hd' & Hx & ->)].
    + destruct Hself. rewrite <- Hdir. by vm_compute.
    + rewrite path_base_join by done. rewrite path_dir_join in Hdir; [by subst|done|apply Hx].
  - intros name n Hname Hlook. rewrite stable_sort_perm. apply list_elem_of_omap. unfold look in Hlook.
    destruct (d_names (w_disk w) !! path_join directory name) as [i|] eqn:Ei; [|done]. cbn in Hlook.
    exists (path_join directory name, i). rewrite elem_of_map_to_list. split; [done|].
    assert (no_slash name) as Hns by apply Hname. rewrite path_dir_join, bool_decide_true by done.
    rewrite bool_decide_false.
    + cbn. rewrite Hlook. cbn. by rewrite path_base_join.
    + intros E. pose proof (path_dir_join directory name Hd Hns) as Hpd. rewrite E in Hpd.
      assert (path_base directory = name) as Hb by (rewrite <- E; by apply path_base_join).
      clear Hlook. rewrite join_prefix in E. assert (length (path_join directory [] ++ name) = length directory) as El by by rewrite E.
      rewrite length_app in El. assert (length directory <= length (path_join directory []))%nat as Hle.
      { unfold path_join. destruct (has_suffix _ _); rewrite ?length_app; lia. }
      destruct Hname as (_ & Hne & _). destruct name; [done|]. cbn in El. lia.
Qed.

(** One scanned track: where it comes from. *)
Definition scanned (directory stem : text) (own : gmap Language OwnedSidecar) (entries : list (text * node)) (track : Track) : Prop :=
  exists name n l sum, (name, n) ∈ entries /\ f_kind n <> Directory /\ entry_suffix stem name = Some l
    /\ track = sidecar_track directory name (bool_decide (f_kind n = Symlink)) l own sum
    /\ (f_kind n = Regular -> sum = checksum (f_data n)).

Lemma looks_dangling path symlink :
  looks p (dangling eval_symlinks path symlink) (fun r => symlink = false -> r = Ok false) w.
Proof.
  unfold dangling. destruct symlink; [|by apply looks_ret].
  eapply looks_bind; [apply (looks_query p _ (fun _ => True)); done|]. intros [info|e] _; by apply looks_ret.
Qed.

Lemma looks_checksum path n : look (w_disk w) path = Some n ->
  looks p (checksumFile eval_symlinks checksum path)
    (fun r => match r with Ok sum => f_kind n = Regular -> sum = checksum (f_data n) | Err _ => True end) w.
Proof.
  intros Hn. unfold checksumFile. destruct (decide (f_kind n = Regular)) as [Hk|Hk].
  - eapply looks_otherwise; [by apply looks_read| |done]. intros a Ha. apply looks_ret. by intros _; rewrite Ha.
  - eapply looks_otherwise; [by apply (looks_query p _ (fun _ => True))| |done]. intros a _. by apply looks_ret.
Qed.

Lemma looks_scan directory stem own entries :
  (forall name n, (name, n) ∈ entries -> look (w_disk w) (path_join directory name) = Some n) ->
  looks p (scan_entries eval_symlinks checksum directory stem own entries)
    (fun r => match r with
              | Ok tracks =>
                  Forall (scanned directory stem own entries) tracks
                  /\ forall name n l, (name, n) ∈ entries -> f_kind n = Regular -> entry_suffix stem name = Some l ->
                       sidecar_track directory name false l own (checksum (f_data n)) ∈ tracks
              | Err _ => True
              end) w.
Proof.
  induction entries as [|[name n] entries IH]; intros Hlook; cbn [scan_entries].
  { apply looks_ret. split; [constructor|]. by intros ??? ?%elem_of_nil. }
  specialize (IH ltac:(intros ?? Hin; apply Hlook; by right)).
  assert (forall tracks, Forall (scanned directory stem own entries) tracks ->
            Forall (scanned directory stem own ((name, n) :: entries)) tracks) as Hmore.
  { intros tracks Hf. eapply Forall_impl; [exact Hf|]. intros track (x & m & l & sum & Hin & Hrest).
    exists x, m, l, sum. split; [by right|done]. }
  assert (f_kind n = Directory \/ entry_suffix stem name = None ->
    looks p (scan_entries eval_symlinks checksum directory stem own entries)
    (fun r => match r with
              | Ok tracks =>
                  Forall (scanned directory stem own ((name, n) :: entries)) tracks
                  /\ forall name' n' l, (name', n') ∈ (name, n) :: entries -> f_kind n' = Regular -> entry_suffix stem name' = Some l ->
                       sidecar_track directory name' false l own (checksum (f_data n')) ∈ tracks
              | Err _ => True
              end) w) as Hskip.
  { intros Hno. eapply looks_mono; [exact IH|]. intros [tracks|e]; [|done]. intros [Hf Ha]. split; [by apply Hmore|].
    intros x m l [[= -> ->]|Hin]%elem_of_cons Hk Hs; [destruct Hno; congruence|by apply Ha]. }
  case_bool_decide as Hdir; [by apply Hskip; left|]. destruct (entry_suffix stem name) as [l|] eqn:Hs; [|by apply Hskip; right].
  eapply looks_otherwise; [apply looks_dangling| |done]. intros skip Hd. destruct skip.
  { eapply looks_mono; [exact IH|]. intros [tracks|e]; [|done]. intros [Hf Ha]. split; [by apply Hmore|].
    intros x m l' [[= -> ->]|Hin]%elem_of_cons Hk Hs'; [|by apply Ha]. rewrite bool_decide_false in Hd by congruence. by specialize (Hd eq_refl). }
  eapply looks_otherwise; [apply (looks_checksum _ n); apply Hlook; by left| |done]. intros sum Hsum.
  eapply looks_otherwise; [exact IH| |done]. intros tracks [Hf Ha]. apply looks_ret. split.
  - constructor; [|by apply Hmore]. exists name, n, l, sum. split_and!; [by left|done|done|done|done].
  - intros x m l' [[= -> ->]|Hin]%elem_of_cons Hk Hs'.
    + rewrite Hs in Hs'. injection Hs' as <-. rewrite (Hsum Hk), bool_decide_false by congruence. by left.
    + right. by apply Ha.
Qed.

Definition owned (mediaID : Z) (track : Track) : Track :=
  if is_owned track (GetInstallation mediaID (TLanguage track) (w_db w)) then set_protected false track else track.

Lemma looks_own mediaID tracks :
  looks p (own_sidecars mediaID tracks) (fun r => match r with Ok tracks' => tracks' = owned mediaID <$> tracks | Err _ => True end) w.
Proof.
  induction tracks as [|track tracks IH]; cbn [own_sidecars]; [by apply looks_ret|].
  eapply looks_otherwise; [apply (looks_query p _ (fun r => match r with Ok i => i = GetInstallation mediaID (TLanguage track) (w_db w) | Err _ => True end)); done| |done].
  intros i ->. eapply looks_otherwise; [exact IH| |done]. intros rest ->. by apply looks_ret.
Qed.

Lemma looks_refresh mediaID mediaPath : clean_names -> clean_path (path_dir mediaPath) ->
  looks p (refresh_sidecars eval_symlinks checksum mediaID mediaPath)
    (fun r => match r with
              | Ok tracks => exists found entries, tracks = owned mediaID <$> found /\ listed (path_dir mediaPath) entries
                  /\ Forall (scanned (path_dir mediaPath) (stem_of mediaPath) ∅ entries) found
                  /\ (forall name n l, (name, n) ∈ entries -> f_kind n = Regular -> entry_suffix (stem_of mediaPath) name = Some l ->
                        sidecar_track (path_dir mediaPath) name false l ∅ (checksum (f_data n)) ∈ found)
              | Err _ => True
              end) w.
Proof.
  intros Hnames Hd. unfold refresh_sidecars, ScanSidecars.
  eapply looks_otherwise with (R := fun r => match r with
      | Ok found => exists entries, listed (path_dir mediaPath) entries
                  /\ Forall (scanned (path_dir mediaPath) (stem_of mediaPath) ∅ entries) found
                  /\ (forall name n l, (name, n) ∈ entries -> f_kind n = Regular -> entry_suffix (stem_of mediaPath) name = Some l ->
                        sidecar_track (path_dir mediaPath) name false l ∅ (checksum (f_data n)) ∈ found)
      | Err _ => True end); [| |done].
  - eapply looks_otherwise; [by apply looks_readdir| |done]. intros entries Hl.
    eapply looks_mono; [apply looks_scan; apply Hl|]. intros [found|e]; [|done]. intros [Hf Ha]. by exists entries.
  - intros found (entries & Hl & Hf & Ha). eapply looks_mono; [apply looks_own|]. intros [tracks|e]; [|done]. intros ->. by exists found, entries.
Qed.
End scan.

(** ** The sidecars of a media file *)

Section refreshed.
Context `{Unicode, LanguageTags}.
Context (eval_symlinks : text -> option text) (checksum : text -> text) (p : fault -> Prop) (w : world).

(** C35. The name the installer writes is the name a scan reads: while the
    recorded subtitle lies unedited at the destination of a media file and a
    language, every refresh that succeeds finds it there, as that language,
    neither forced nor for the hearing impaired, open to replacement, and as
    the managed installation; so a search does not take its own subtitle for
    another's. *)
Theorem installed_subtitle_is_found mediaID d name l out fp i n :
  clean_names w -> clean_path d -> plain name -> language_name l ->
  to_lower (path_ext out) ∈ supportedSidecarExtensions ->
  look (w_disk w) (subtitleDestination (path_join d name) l out) = Some n -> f_kind n = Regular ->
  GetInstallation mediaID l (w_db w) = Some i ->
  IPath i = subtitleDestination (path_join d name) l out -> IChecksum i = checksum (f_data n) ->
  looks p (refresh_sidecars eval_symlinks checksum mediaID (path_join d name))
    (fun r => match r with
              | Ok tracks =>
                  managedInstallationPresent (mkInventory fp tracks) i = true
                  /\ exists track, track ∈ tracks /\ TPath track = IPath i /\ TLanguage track = l /\ TChecksum track = IChecksum i
                       /\ TForced track = false /\ TSDH track = false /\ TEmbedded track = false /\ TProtected track = false
              | Err _ => True
              end) w.
Proof.
  intros Hnames Hd Hname Hl He Hlook Hk Hi Hpath Hsum. pose proof Hname as (Hns & _). pose proof Hl as (_ & _ & Hls).
  rewrite (destination_joined d name l out _ Hd Hns eq_refl) in *. set (e := to_lower (path_ext out)) in *.
  assert (path_dir (path_join d name) = d) as Hdir by by apply path_dir_join.
  assert (stem_of (path_join d name) = trim_suffix (path_ext name) name) as Hstem.
  { unfold stem_of. by rewrite path_ext_joined, path_base_join. }
  eapply looks_mono; [apply looks_refresh; [done|by rewrite Hdir]|]. rewrite Hdir, Hstem.
  intros [tracks|err]; [|done]. intros (found & entries & -> & [_ Hlisted] & _ & Hfound).
  specialize (Hfound (destination_name name l e) n (l, false, false)
    (Hlisted _ _ (destination_plain name l e Hns Hls He) Hlook) Hk (destination_suffix name l e Hns Hl He)).
  set (track := sidecar_track _ _ _ _ _ _) in Hfound.
  assert (is_owned track (Some i) = true) as Hown.
  { unfold is_owned, track, sidecar_track. cbn. rewrite Hpath, Hsum. by rewrite !bool_decide_true. }
  assert (owned w mediaID track = set_protected false track) as Ht.
  { unfold owned. change (TLanguage track) with l. by rewrite Hi, Hown. }
  assert (set_protected false track ∈ owned w mediaID <$> found) as Hin.
  { rewrite <- Ht. by apply list_elem_of_fmap_2. }
  split.
  - unfold managedInstallationPresent. apply existsb_exists. exists (set_protected false track). split; [by apply list_elem_of_In|].
    cbn [TEmbedded TPath set_protected track sidecar_track negb andb]. rewrite bool_decide_false.
    + unfold is_installation, track, sidecar_track. cbn. by rewrite Hpath, Hsum, !bool_decide_true.
    + intros E. by apply (clean_path_nonempty (path_join d (destination_name name l e))); [apply clean_path_join; [|apply destination_plain]|].
  - exists (set_protected false track). split; [done|]. rewrite Hpath, Hsum. done.
Qed.

(** A sidecar is open to replacement only when the database records it: every
    other file next to the media file, every symbolic link and every edited
    subtitle comes out of a refresh protected. *)
Theorem only_recorded_sidecars_are_open mediaID mediaPath :
  clean_names w -> clean_path (path_dir mediaPath) ->
  looks p (refresh_sidecars eval_symlinks checksum mediaID mediaPath)
    (fun r => match r with
              | Ok tracks => forall track, track ∈ tracks -> TProtected track = false ->
                  exists i n, GetInstallation mediaID (TLanguage track) (w_db w) = Some i
                    /\ path_clean (IPath i) = path_clean (TPath track)
                    /\ look (w_disk w) (TPath track) = Some n /\ f_kind n = Regular /\ IChecksum i = checksum (f_data n)
              | Err _ => True
              end) w.
Proof.
  intros Hnames Hd. eapply looks_mono; [by apply looks_refresh|]. intros [tracks|err]; [|done].
  intros (found & entries & -> & [Hlook _] & Hscan & _) track (track0 & -> & Hin)%list_elem_of_fmap Hopen.
  rewrite Forall_forall in Hscan. destruct (Hscan _ Hin) as (name & n & [[l forced] sdh] & sum & Hentry & Hkind & _ & -> & Hsum).
  set (symlink := bool_decide (f_kind n = Symlink)) in *. set (track := sidecar_track _ _ _ _ _ _) in *.
  unfold owned in *. destruct (is_owned track _) eqn:Eo.
  - unfold is_owned in Eo. change (TLanguage track) with l in Eo. destruct (GetInstallation mediaID l (w_db w)) as [i|] eqn:Ei; [|done].
    apply andb_true_iff in Eo as [[Es Ep%bool_decide_eq_true]%andb_true_iff Ec%bool_decide_eq_true].
    assert (f_kind n = Regular) as Hreg.
    { destruct (f_kind n) eqn:Ek; [done|exfalso|done]. subst symlink track. cbn in Es. by rewrite bool_decide_true in Es. }
    exists i, n. cbn. split_and!; [done|exact Ep|by apply Hlook|done|]. rewrite Ec. by apply Hsum.
  - exfalso. unfold track, sidecar_track in Hopen. cbn in Hopen. rewrite lookup_empty in Hopen. by rewrite orb_true_r in Hopen.
Qed.
End refreshed.

(** ** Witnesses *)

Lemma clean_names_dec w :
  bool_decide (map_Forall (fun q (_ : Z) => rooted q = true /\ path_clean q = q) (d_names (w_disk w))) = true -> clean_names w.
Proof.
  intros H%bool_decide_eq_true q i Hq. destruct (H q i Hq) as [Hr <-]. by apply path_clean_clean.
Qed.

#[local] Existing Instance sample_tags.

Definition sample_sum (s : text) : text := t "digest of " ++ s.
Definition sample_sidecar (data : text) : node := mkNode Regular data 420 100.
Definition sample_shelf : disk :=
  mkDisk {[ t "/tv/Show/e1.mkv" := 1; t "/tv/Show/e1.hr.srt" := 2; t "/tv/Show/e1.en.forced.srt" := 3; t "/tv/Show" := 4 ]}
    {[ 1 := sample_sidecar (t "video"); 2 := sample_sidecar (t "cues"); 3 := sample_sidecar (t "signs"); 4 := mkNode Directory [] 493 1 ]}.
Definition sample_record : Installation :=
  mkInstallation false 9 (t "hr") (t "/tv/Show/e1.hr.srt") (sample_sum (t "cues")) (t "subsource") (t "c0") []
    [] NoScoreJSON (t "{}") [] (t "/tv/Show/e1.mkv") 7 3 100 0 50.
Definition sample_shelf_world : world :=
  mkWorld sample_shelf (mkInstallDB ∅ {[ (9, t "hr") := sample_record ]} ∅ ∅ [] []).
Definition sample_tracks : list Track :=
  match refresh_sidecars Some sample_sum 9 (t "/tv/Show/e1.mkv") sample_shelf_world [] with Done (Ok tracks) _ _ => tracks | _ => [] end.

Lemma sample_clean_shelf : clean_names sample_shelf_world.
Proof. apply clean_names_dec. by vm_compute. Qed.

Lemma sample_show : clean_path (t "/tv/Show").
Proof. apply (path_clean_clean (t "/tv/Show")). done. Qed.

Lemma sample_scanned :
  exists w fs, refresh_sidecars Some sample_sum 9 (t "/tv/Show/e1.mkv") sample_shelf_world [] = Done (Ok sample_tracks) w fs
    /\ length sample_tracks = 2%nat.
Proof. eexists _, _. split; [by vm_compute|by vm_compute]. Qed.

Lemma sample_language : language_name (t "hr").
Proof. split_and!; [by vm_compute|by repeat constructor|by repeat constructor]. Qed.

Lemma sample_plain : plain (t "e1.mkv").
Proof. split; [by repeat constructor|done]. Qed.

Lemma installed_subtitle_is_found_witness :
  managedInstallationPresent (mkInventory (mkFingerprint (t "/tv/Show/e1.mkv") 7 3 100) sample_tracks) sample_record = true.
Proof.
  destruct sample_scanned as (w & fs & E & _).
  pose proof (installed_subtitle_is_found Some sample_sum no_fault sample_shelf_world 9 (t "/tv/Show") (t "e1.mkv") (t "hr") (t "/work/x.SRT")
    (mkFingerprint (t "/tv/Show/e1.mkv") 7 3 100) sample_record (sample_sidecar (t "cues")) sample_clean_shelf sample_show sample_plain sample_language
    ltac:(by left) ltac:(by vm_compute) eq_refl ltac:(by vm_compute) ltac:(by vm_compute) eq_refl [] (List.Forall_nil _)) as H.
  change (path_join (t "/tv/Show") (t "e1.mkv")) with (t "/tv/Show/e1.mkv") in H. rewrite E in H. apply H.
Defined.

Lemma only_recorded_sidecars_are_open_witness :
  List.Forall (fun track => TProtected track = false -> TLanguage track = t "hr") sample_tracks.
Proof.
  apply Forall_forall.
  destruct sample_scanned as (w & fs & E & _).
  pose proof (only_recorded_sidecars_are_open Some sample_sum no_fault sample_shelf_world 9 (t "/tv/Show/e1.mkv") sample_clean_shelf
    ltac:(apply sample_show) [] (List.Forall_nil _)) as H.
  rewrite E in H. destruct H as [[_ H] _]. intros track Hin Hopen. destruct (H track Hin Hopen) as (i & n & Hi & _).
  unfold GetInstallation in Hi. cbn in Hi. apply lookup_singleton_Some in Hi as [[= <-] _]. done.
Defined.
