(* ===== verification/Probe.v ===== *)
(** * Embedded tracks and the inventory (src/internal/inventory)

    The subtitle streams ffprobe reports (ParseProbeTracks and the titles that
    mark forced tracks), the registry of probes stuck on a hung mount, and
    Service.Refresh, which ties the sidecars, the probe and the stored record
    together. JSON decoding is the standard library's and ffprobe a process
    outside: the decoded document and the outcome of a run are arguments. *)
From S2P Require Import Prelude GoText Paths Domain Workflow MediaBreaker InstallStore Disk InstallSpec Inventory Sidecars.

#[local] Open Scope Z_scope.

(** ** Tracks of a document *)

Record stream := mkStream {
  SIndex : Z; SCodecName : text; SCodecType : text; STagLanguage : text; STagTitle : text;
  SDefault : Z; SForced : Z; SHearingImpaired : Z;
}.

Section tracks.
Context `{Unicode, LanguageTags}.

(** Whether a later word of the clause takes the marker back. *)
Fixpoint marker_removed (removed : bool) (words : list text) : bool :=
  match words with
  | [] => removed
  | word :: words =>
      if bool_decide (word ∈ t <$> ["with"; "without"; "but"; "and"; "or"; "no"; "not"; "non"]%string) then removed
      else if bool_decide (word ∈ t <$> ["removed"; "excluded"; "stripped"; "free"]%string) then marker_removed true words
      else marker_removed removed words
  end.

Definition negations : list text :=
  t <$> ["no"; "not"; "non"; "without"; "remove"; "removed"; "exclude"; "excluded"; "strip"; "stripped"]%string.

Fixpoint forced_words (negative : bool) (words : list text) : bool :=
  match words with
  | [] => false
  | word :: words =>
      if bool_decide (word ∈ t <$> ["but"; "with"]%string) then forced_words false words
      else if bool_decide (word ∈ negations) then forced_words true words
      else if bool_decide (word = t "forced") then
        if negative then forced_words negative words
        else if marker_removed false words then forced_words negative words
        else true
      else forced_words negative words
  end.

Definition clause_break (r : rune) : bool := one_of (10%N :: t ";,()[]{}|") r.

Definition forcedTrackTitle (title : text) : bool :=
  existsb (fun clause => forced_words false (fields_func (fun r => negb (is_letter r) && negb (is_digit r)) clause))
    (fields_func clause_break title).

Definition stream_track (s : stream) : Track :=
  let language := match ParseLanguage (STagLanguage s) with Ok l => l | Err _ => [] end in
  let title := to_lower (STagTitle s) in
  mkTrack (SIndex s) [] language (SCodecName s) true
    (negb (SForced s =? 0) || forcedTrackTitle title) (negb (SDefault s =? 0))
    (negb (SHearingImpaired s =? 0) || contains (t "sdh") title || contains (t "hearing impaired") title
     || contains (t "closed caption") title)
    false false [].

Definition maxProbeOutput : Z := 8 * 2 ^ 20.

Inductive ProbeError := ProbeTimedOut | ProbeFailed | ProbeTooLarge | ProbeUndecodable | ProbeCanceled.

(** [payload] is the size of the output and the decoded document. *)
Definition ParseProbeTracks (size : Z) (document : option (list stream)) : result ProbeError (list Track) :=
  if maxProbeOutput <? size then Err ProbeTooLarge
  else match document with
       | None => Err ProbeUndecodable
       | Some streams => Ok (stream_track <$> filter (fun s => SCodecType s = t "subtitle") streams)
       end.

(** [Inventory.Satisfies]. *)
Definition Satisfies (i : Inventory) (language : Language) (allowHI : bool) : bool :=
  existsb (fun track => TrackCoversLanguage (TLanguage track) (TForced track) (TSDH track) language allowHI) (Tracks i).
End tracks.

(** ** Stuck probes *)

Definition maxStuckProbes : Z := 4.

Record probeRegistry := mkRegistry { pr_paths : gmap text Z; pr_mounts : gmap text Z }.
Record probeRun := mkRun { run_path : text; run_mount : text; run_finished : bool; run_abandoned : bool }.

Definition count_of (m : gmap text Z) (k : text) : Z := default 0 (m !! k).

Definition blocked (r : probeRegistry) (run : probeRun) : bool :=
  (0 <? count_of (pr_paths r) (run_path run)) || (maxStuckProbes <=? count_of (pr_mounts r) (run_mount run)).

Definition bump (k : text) (m : gmap text Z) : gmap text Z := <[k := count_of m k + 1]> m.
Definition drop_one (k : text) (m : gmap text Z) : gmap text Z :=
  let n := count_of m k - 1 in if n <=? 0 then delete k m else <[k := n]> m.

Definition abandon (r : probeRegistry) (run : probeRun) : probeRegistry * probeRun :=
  if run_finished run || run_abandoned run then (r, run)
  else (mkRegistry (bump (run_path run) (pr_paths r)) (bump (run_mount run) (pr_mounts r)),
        mkRun (run_path run) (run_mount run) (run_finished run) true).

Definition finish (r : probeRegistry) (run : probeRun) : probeRegistry * probeRun :=
  let done_ := mkRun (run_path run) (run_mount run) true (run_abandoned run) in
  if negb (run_abandoned run) then (r, done_)
  else (mkRegistry (drop_one (run_path run) (pr_paths r)) (drop_one (run_mount run) (pr_mounts r)), done_).

(** The first two directories of a path. *)
Definition first_directories (directory : text) : text :=
  match split_n slash 3 (trim_prefix (t "/") directory) with
  | [] | [] :: _ => t "/"
  | parts => t "/" ++ filepath_join (take 2 parts)
  end.

(** The longest root that holds the path. *)
Definition best_root (clean : text) (roots : list text) : option text :=
  fold_left (fun best root =>
    let root := path_clean root in
    if (bool_decide (clean = root) || has_prefix (root ++ t "/") clean || bool_decide (root = t "/"))
       && match best with None => true | Some mount => byte_len mount <? byte_len root end
    then Some root else best) roots None.

Definition probeMount (mediaPath : text) (roots : list text) : text :=
  let clean := path_clean mediaPath in
  match best_root clean roots with
  | None => first_directories (path_dir clean)
  | Some mount =>
      match path_rel mount (path_dir clean) with
      | None => mount
      | Some relative =>
          if bool_decide (relative = t ".") || has_prefix (t "..") relative then mount
          else filepath_join [mount; default [] (head (split_n slash 2 relative))]
      end
  end.

Section probe.
Context (read_link : text -> option text).

Definition mediaMount (mediaPath : text) (roots : list text) : text :=
  match LinkTarget read_link mediaPath with
  | Some target => probeMount target roots
  | None => probeMount mediaPath roots
  end.

Definition new_run (mediaPath : text) (roots : list text) : probeRun :=
  mkRun mediaPath (mediaMount mediaPath roots) false false.
End probe.

(** What the wait for a run ends with: its result, the timeout, or the end of
    the job; [expired] says that the timeout passed before a failed result. *)
Inductive probe_end :=
| RunReturned (error : bool) (expired : bool) (size : Z) (document : option (list stream))
| RunTimedOut
| JobCanceled.

Section probe_tracks.
Context `{Unicode, LanguageTags}.

(** [Probe.Tracks]: the registry afterwards and the answer; a run that returned
    has finished. *)
Definition probe_tracks (r : probeRegistry) (run : probeRun) (canceled : bool) (end_ : probe_end)
    : probeRegistry * result ProbeError (list Track) :=
  if canceled then (r, Err ProbeCanceled)
  else if blocked r run then (r, Err ProbeTimedOut)
  else match end_ with
       | RunReturned error expired size document =>
           let '(r, _) := finish r run in
           (r, if error then Err (if expired then ProbeTimedOut else ProbeFailed) else ParseProbeTracks size document)
       | RunTimedOut => let '(r, _) := abandon r run in (r, Err ProbeTimedOut)
       | JobCanceled => (r, Err ProbeCanceled)
       end.
End probe_tracks.

(** ** The registry counts the stuck runs *)

Record probes := mkProbes { ps_registry : probeRegistry; ps_runs : list probeRun }.

(** A run starts when it is not blocked; it is abandoned or finishes later, in
    any order and at any time. *)
Inductive probe_step : probes -> probes -> Prop :=
| probe_starts r runs path mount : blocked r (mkRun path mount false false) = false ->
    probe_step (mkProbes r runs) (mkProbes r (mkRun path mount false false :: runs))
| probe_abandoned r l1 run l2 :
    probe_step (mkProbes r (l1 ++ run :: l2)) (mkProbes (abandon r run).1 (l1 ++ (abandon r run).2 :: l2))
| probe_finishes r l1 run l2 : run_finished run = false ->
    probe_step (mkProbes r (l1 ++ run :: l2)) (mkProbes (finish r run).1 (l1 ++ (finish r run).2 :: l2)).

Inductive probes_reachable : probes -> Prop :=
| no_probes : probes_reachable (mkProbes (mkRegistry ∅ ∅) [])
| more_probes a b : probes_reachable a -> probe_step a b -> probes_reachable b.

Definition stuck (run : probeRun) : Prop := run_abandoned run = true /\ run_finished run = false.
#[export] Instance stuck_dec run : Decision (stuck run).
Proof. unfold stuck. apply _. Defined.

Definition stuck_at (key : probeRun -> text) (k : text) (runs : list probeRun) : Z :=
  Z.of_nat (length (filter (fun run => stuck run /\ key run = k) runs)).

Definition counts (m : gmap text Z) (key : probeRun -> text) (runs : list probeRun) : Prop :=
  forall k, count_of m k = stuck_at key k runs.

Lemma stuck_at_app key k l1 l2 : stuck_at key k (l1 ++ l2) = stuck_at key k l1 + stuck_at key k l2.
Proof. unfold stuck_at. rewrite filter_app, length_app. lia. Qed.

Lemma stuck_at_cons key k run l :
  stuck_at key k (run :: l) = (if decide (stuck run /\ key run = k) then 1 else 0) + stuck_at key k l.
Proof. unfold stuck_at. rewrite filter_cons. destruct (decide _); cbn [length]; lia. Qed.

Lemma stuck_at_pos key k runs : 0 <= stuck_at key k runs.
Proof. unfold stuck_at. lia. Qed.

Lemma count_bump k m k' : count_of (bump k m) k' = count_of m k' + (if decide (k = k') then 1 else 0).
Proof.
  unfold count_of, bump. destruct (decide (k = k')) as [->|Hne]; [rewrite lookup_insert_eq|rewrite lookup_insert_ne by done; lia].
  cbn. unfold count_of. lia.
Qed.

Lemma count_drop_one k m k' : 1 <= count_of m k -> count_of (drop_one k m) k' = count_of m k' - (if decide (k = k') then 1 else 0).
Proof.
  intros Hk. unfold drop_one. destruct (Z.leb_spec (count_of m k - 1) 0) as [Hle|Hlt].
  - destruct (decide (k = k')) as [->|Hne].
    + unfold count_of at 1. rewrite lookup_delete_eq. cbn. lia.
    + unfold count_of at 1. rewrite lookup_delete_ne by done. fold (count_of m k'). lia.
  - destruct (decide (k = k')) as [->|Hne].
    + unfold count_of at 1. rewrite lookup_insert_eq. cbn. lia.
    + unfold count_of at 1. rewrite lookup_insert_ne by done. fold (count_of m k'). lia.
Qed.

(** One table of the registry after a run is abandoned or finishes. *)
Lemma counts_abandoned m key l1 run l2 :
  (forall a b, key (mkRun (run_path run) (run_mount run) a b) = key run) ->
  run_finished run = false -> run_abandoned run = false -> counts m key (l1 ++ run :: l2) ->
  counts (bump (key run) m) key (l1 ++ mkRun (run_path run) (run_mount run) false true :: l2).
Proof.
  intros Hkey Hf Ha Hm k. rewrite count_bump, (Hm k), !stuck_at_app, !stuck_at_cons, Hkey.
  rewrite (decide_False (P := stuck run /\ key run = k)) by (intros [[? ?] ?]; congruence).
  destruct (decide (key run = k)) as [->|Hne].
  - rewrite decide_True by done. lia.
  - rewrite decide_False by (by intros []). lia.
Qed.

Lemma counts_finished m key l1 run l2 :
  (forall a b, key (mkRun (run_path run) (run_mount run) a b) = key run) ->
  run_finished run = false -> run_abandoned run = true -> counts m key (l1 ++ run :: l2) ->
  counts (drop_one (key run) m) key (l1 ++ mkRun (run_path run) (run_mount run) true true :: l2).
Proof.
  intros Hkey Hf Ha Hm k. assert (forall k', count_of m k' = stuck_at key k' l1 + ((if decide (key run = k') then 1 else 0) + stuck_at key k' l2)) as Hm'.
  { intros k'. rewrite (Hm k'), stuck_at_app, stuck_at_cons.
    destruct (decide (key run = k')) as [->|Hne]; [by rewrite decide_True|by rewrite decide_False by (by intros [])]. }
  rewrite count_drop_one.
  - rewrite (Hm' k), stuck_at_app, stuck_at_cons.
    rewrite (decide_False (P := stuck _ /\ _)) by (by intros [[]]). lia.
  - rewrite (Hm' (key run)), decide_True by done. pose proof (stuck_at_pos key (key run) l1). pose proof (stuck_at_pos key (key run) l2). lia.
Qed.

Definition probes_inv (s : probes) : Prop :=
  counts (pr_paths (ps_registry s)) run_path (ps_runs s) /\ counts (pr_mounts (ps_registry s)) run_mount (ps_runs s).

Lemma counts_same m key l1 run run' l2 : ~ stuck run -> ~ stuck run' -> counts m key (l1 ++ run :: l2) -> counts m key (l1 ++ run' :: l2).
Proof.
  intros Hr Hr' Hm k. rewrite (Hm k), !stuck_at_app, !stuck_at_cons, !decide_False by tauto. done.
Qed.

Lemma probe_step_inv a b : probes_inv a -> probe_step a b -> probes_inv b.
Proof.
  intros Hinv Hstep. revert Hinv. destruct Hstep as [r runs path mount _|r l1 run l2|r l1 run l2 Hf]; intros [Hp Hm]; cbn in Hp, Hm |- *.
  - split; intros k; cbn; rewrite stuck_at_cons, decide_False by (intros [[]]; done); [apply Hp|apply Hm].
  - unfold abandon. destruct (run_finished run) eqn:Ef; [by split|]. destruct (run_abandoned run) eqn:Ea; [by split|].
    split; cbn; by apply counts_abandoned.
  - unfold finish. destruct (run_abandoned run) eqn:Ea; cbn [negb].
    + split; cbn; by apply counts_finished.
    + split; (eapply counts_same; [| |done]); unfold stuck; cbn; intros [? ?]; congruence.
Qed.

(** The registry is exact whatever order probes start, time out and return
    in: a probe is refused exactly when an abandoned run that has not returned
    is stuck on the same file, or four are on its mount; when they return,
    nothing is left that would refuse another. *)
Theorem stuck_probes_counted s path mount :
  probes_reachable s ->
  blocked (ps_registry s) (mkRun path mount false false) = true
  <-> (exists run, run ∈ ps_runs s /\ stuck run /\ run_path run = path) \/ 4 <= stuck_at run_mount mount (ps_runs s).
Proof.
  intros Hr. assert (probes_inv s) as [Hp Hm].
  { induction Hr as [|a b _ IH Hstep]; [by split|by eapply probe_step_inv]. }
  unfold blocked. cbn [run_path run_mount]. rewrite orb_true_iff, Z.ltb_lt, Z.leb_le, (Hp path), (Hm mount).
  unfold maxStuckProbes. split; (intros [Hl|?]; [left|by right]).
  - unfold stuck_at in Hl. destruct (filter _ (ps_runs s)) as [|run l] eqn:E; [cbn in Hl; lia|].
    exists run. assert (run ∈ filter (fun run => stuck run /\ run_path run = path) (ps_runs s)) as Hin by (rewrite E; left).
    apply list_elem_of_filter in Hin as [[Hs Hpath] Hin]. done.
  - destruct Hl as (run & Hin & Hs & Hpath). unfold stuck_at.
    assert (run ∈ filter (fun run => stuck run /\ run_path run = path) (ps_runs s)) as Hf by (by apply list_elem_of_filter).
    destruct (filter _ (ps_runs s)); [by apply elem_of_nil in Hf|cbn; lia].
Qed.

Lemma stuck_probes_counted_witness :
  blocked (mkRegistry {[ t "/mnt/a.mkv" := 1 ]} {[ t "/mnt" := 1 ]}) (mkRun (t "/mnt/a.mkv") (t "/mnt") false false) = true.
Proof.
  apply (stuck_probes_counted (mkProbes (mkRegistry {[ t "/mnt/a.mkv" := 1 ]} {[ t "/mnt" := 1 ]})
    [mkRun (t "/mnt/a.mkv") (t "/mnt") false true])).
  - eapply more_probes; [eapply more_probes; [apply no_probes|by apply (probe_starts _ [] (t "/mnt/a.mkv") (t "/mnt"))]|].
    exact (probe_abandoned (mkRegistry ∅ ∅) [] (mkRun (t "/mnt/a.mkv") (t "/mnt") false false) []).
  - left. exists (mkRun (t "/mnt/a.mkv") (t "/mnt") false true). split; [left|done].
Defined.
