(* ===== verification/TrackStore.v ===== *)
(** * The stored inventory (src/internal/store, src/internal/inventory)

    GetTrackInventory and ReplaceTrackInventory of repository.go over the media
    rows, the searches, the installations and the track tables, and
    Service.Refresh of inventory.go between them: it looks at the media file,
    reads the stored record, probes or reuses the embedded tracks, scans the
    sidecars, looks again and replaces the record by compare and set. *)
From S2P Require Import Prelude GoText Paths Domain SearchQueue Workflow InstallStore Disk Inventory Sidecars Probe.

#[local] Open Scope Z_scope.

Record TrackRecord := mkTrackRecord {
  TrMediaID : Z; TrIndex : Z; TrPath : text; TrLanguage : text; TrCodec : text; TrEmbedded : bool; TrForced : bool;
  TrDefault : bool; TrSDH : bool; TrProtected : bool; TrChecksum : text;
}.

Record InventoryRecord := mkInventoryRecord {
  IrDeleted : bool; IrCatalog : MediaFingerprint; IrProbe : option MediaFingerprint; IrTracks : list TrackRecord;
}.

Definition fromStoreTrack (r : TrackRecord) : Track :=
  mkTrack (TrIndex r) (TrPath r) (TrLanguage r) (TrCodec r) (TrEmbedded r) (TrForced r) (TrDefault r) (TrSDH r)
    (TrProtected r) false (TrChecksum r).
Definition toStoreTrack (mediaID : Z) (x : Track) : TrackRecord :=
  mkTrackRecord mediaID (TIndex x) (TPath x) (TLanguage x) (TCodec x) (TEmbedded x) (TForced x) (TDefault x) (TSDH x)
    (TProtected x) (TChecksum x).

(** ** The tables *)

Record track_store := mkTrackStore {
  ts_queue : DB;
  ts_installs : gmap (Z * Language) Installation;
  ts_tracks : gmap Z (list TrackRecord);
  ts_probes : gmap Z MediaFingerprint;
}.

Definition GetTrackInventory (mediaID : Z) (ts : track_store) : option InventoryRecord :=
  m ← media (ts_queue ts) !! mediaID;
  Some (mkInventoryRecord (deleted m) (media_fingerprint m) (ts_probes ts !! mediaID) (default [] (ts_tracks ts !! mediaID))).

Definition with_fingerprint (fp : MediaFingerprint) (m : media_row) : media_row :=
  mkMediaRow (deleted m) (media_instance m) (media_kind m) (media_episode m) (media_episode_end m) (unsupported_reason m)
    fp (media_order m).

(** [invalidateInstallationTx] on one row. *)
Definition invalidated (i : Installation) : Installation :=
  mkInstallation false (IMediaID i) (ILanguage i) (IPath i) (IChecksum i) (IProviderID i) (ICandidateID i)
    (ICandidateSignature i) (IArtifactChecksum i) NoScoreJSON (t "{}") (IRollbackPath i) (IMediaPath i)
    (IMediaFileID i) (IMediaSize i) 0 (IPendingInstallID i) (IInstalledAt i).

(** The row of a search whose media file was replaced in place. *)
Definition replaced_search (now : Z) (r : search_row) : search_row :=
  mkRow StatePending (attempt r) (failure_attempt r) now now (last_outcome r) (lease_owner r) (lease_until_ns r)
    (Z.max (priority r) SearchPriorityImport) (rerun_requested r) (replace_installed r) (resume r) (order_key r).

Definition of_media (mediaID : Z) (k : Z * Language) : bool := k.1 =? mediaID.

Definition replace_search (now mediaID : Z) (contentChanged replacedInPlace : bool) (installs : gmap (Z * Language) Installation)
    (k : search_key) (r : search_row) : search_row :=
  if negb (of_media mediaID k) then r
  else
    let r := if contentChanged then with_resume (clear_resume (resume r)) r else r in
    if replacedInPlace && bool_decide (is_Some (installs !! k)) && unleased now r then replaced_search now r else r.

Inductive TrackError := StaleInventory.

Definition ReplaceTrackInventory (now mediaID : Z) (expected fp : MediaFingerprint) (tracks : list TrackRecord)
    (ts : track_store) : result TrackError track_store :=
  match media (ts_queue ts) !! mediaID with
  | None => Err StaleInventory
  | Some m =>
      if deleted m then Err StaleInventory
      else
        let existing := media_fingerprint m in
        if negb (bool_decide (existing = expected)) || negb (bool_decide (FpPath fp = FpPath expected))
           || negb (bool_decide (FpFileID fp = FpFileID expected))
        then Err StaleInventory
        else
          let contentChanged := negb (bool_decide (FpFileID existing = FpFileID fp)) || negb (FpSize existing =? FpSize fp)
                                || negb (FpModTime existing =? FpModTime fp) in
          let replacedInPlace := negb (FpSize existing =? FpSize fp) in
          let db := ts_queue ts in
          Ok (mkTrackStore
                (mkDB (<[mediaID := with_fingerprint fp m]> (media db))
                   (map_imap (fun k r => Some (replace_search now mediaID contentChanged replacedInPlace (ts_installs ts) k r)) (searches db))
                   (history db))
                (map_imap (fun k i => Some (if contentChanged && of_media mediaID k then invalidated i else i)) (ts_installs ts))
                (<[mediaID := tracks]> (ts_tracks ts)) (<[mediaID := fp]> (ts_probes ts)))
  end.

(** ** Refresh *)

Inductive RefreshError :=
| RfStat | RfNotRegular | RfRead | RfStale | RfProbe (e : ProbeError) | RfSidecars | RfRecheck.

Definition fingerprintsEqual (a b : MediaFingerprint) : bool :=
  bool_decide (path_clean (FpPath a) = path_clean (FpPath b)) && (FpFileID a =? FpFileID b) && (FpSize a =? FpSize b)
  && (FpModTime a =? FpModTime b).

(** What the calls of a refresh answer: the two looks at the media file, the
    stored record, the probe, and the sidecars with their ownership. *)
Record refresh_answers := mkAnswers {
  first_look : option FileInfo;
  stored_record : option InventoryRecord;
  probed : result ProbeError (list Track);
  sidecars_found : option (list Track);
  second_look : option FileInfo;
}.

Definition embedded_of (forceProbe : bool) (fp : MediaFingerprint) (stored : InventoryRecord)
    (probed : result ProbeError (list Track)) : result RefreshError (list Track) :=
  if negb forceProbe && match IrProbe stored with Some old => fingerprintsEqual old fp | None => false end
  then Ok (fromStoreTrack <$> filter (fun r => TrEmbedded r = true) (IrTracks stored))
  else match probed with Ok tracks => Ok tracks | Err e => Err (RfProbe e) end.

Definition same_content (a b : FileInfo) (fp : MediaFingerprint) : bool :=
  SameFile a b && (i_size b =? FpSize fp) && (f_mtime (i_node b) =? FpModTime fp).

(** [now] and [ts] are the clock and the database at the replacement. *)
Definition Refresh (mediaID : Z) (m : Media) (forceProbe : bool) (a : refresh_answers) (now : Z) (ts : track_store)
    : track_store * result RefreshError Inventory :=
  let outcome :=
    match first_look a with
    | None => Err RfStat
    | Some info =>
        if negb (is_regular info) then Err RfNotRegular
        else
          let fp := mkFingerprint (path_clean (FpPath (Fingerprint m))) (RefFileID (MRef m)) (i_size info) (f_mtime (i_node info)) in
          match stored_record a with
          | None => Err RfRead
          | Some stored =>
              if IrDeleted stored || negb (bool_decide (path_clean (FpPath (IrCatalog stored)) = FpPath fp))
                 || negb (FpFileID (IrCatalog stored) =? FpFileID fp)
              then Err RfStale
              else
                let! embedded := embedded_of forceProbe fp stored (probed a) in
                match sidecars_found a with
                | None => Err RfSidecars
                | Some sidecars =>
                    match second_look a with
                    | None => Err RfRecheck
                    | Some current =>
                        if negb (is_regular current) || negb (same_content info current fp) then Err RfStale
                        else Ok (IrCatalog stored, fp, embedded ++ sidecars)
                    end
                end
          end
    end in
  match outcome with
  | Err e => (ts, Err e)
  | Ok (expected, fp, tracks) =>
      match ReplaceTrackInventory now mediaID expected fp (toStoreTrack mediaID <$> tracks) ts with
      | Ok ts => (ts, Ok (mkInventory fp tracks))
      | Err StaleInventory => (ts, Err RfStale)
      end
  end.

(** ** Theorems *)

Lemma replace_ok now mediaID expected fp tracks ts ts' :
  ReplaceTrackInventory now mediaID expected fp tracks ts = Ok ts' ->
  exists row, media (ts_queue ts) !! mediaID = Some row /\ deleted row = false /\ media_fingerprint row = expected
    /\ media (ts_queue ts') = <[mediaID := with_fingerprint fp row]> (media (ts_queue ts))
    /\ ts_tracks ts' = <[mediaID := tracks]> (ts_tracks ts) /\ ts_probes ts' = <[mediaID := fp]> (ts_probes ts)
    /\ (forall k, searches (ts_queue ts') !! k
          = replace_search now mediaID (negb (bool_decide (FpFileID expected = FpFileID fp)) || negb (FpSize expected =? FpSize fp)
                                        || negb (FpModTime expected =? FpModTime fp))
              (negb (FpSize expected =? FpSize fp)) (ts_installs ts) k <$> searches (ts_queue ts) !! k).
Proof.
  unfold ReplaceTrackInventory. destruct (media (ts_queue ts) !! mediaID) as [row|] eqn:Em; [|done].
  destruct (deleted row) eqn:Ed; [done|]. destruct (_ || _ || _) eqn:E; [done|].
  apply orb_false_iff in E as [[E%negb_false_iff%bool_decide_eq_true _]%orb_false_iff _]. intros [= <-].
  exists row. cbn [ts_queue media searches ts_tracks ts_probes]. split_and!; [done..|].
  intros k. rewrite map_lookup_imap, E. by destruct (searches (ts_queue ts) !! k).
Qed.

(** An inventory is stored by compare and set. A refresh that fails changes
    nothing; one that succeeds saw the same regular file, size and time of
    change before and after its probe and scan, found the media row exactly as
    it was when it read the record, and leaves the row, the probe mark and the
    tracks of this very file; the embedded tracks are the probe's, or the
    stored ones of a probe of the same file. *)
Theorem refresh_guarded mediaID m forceProbe a now ts :
  match Refresh mediaID m forceProbe a now ts with
  | (ts', Err _) => ts' = ts
  | (ts', Ok iv) =>
      exists info current stored row embedded sidecars,
        first_look a = Some info /\ second_look a = Some current /\ is_regular info = true /\ is_regular current = true
        /\ i_inode info = i_inode current /\ i_size current = i_size info /\ f_mtime (i_node current) = f_mtime (i_node info)
        /\ IvFingerprint iv = mkFingerprint (path_clean (FpPath (Fingerprint m))) (RefFileID (MRef m)) (i_size info) (f_mtime (i_node info))
        /\ stored_record a = Some stored /\ media (ts_queue ts) !! mediaID = Some row /\ deleted row = false
        /\ media_fingerprint row = IrCatalog stored
        /\ Tracks iv = embedded ++ sidecars /\ sidecars_found a = Some sidecars
        /\ (probed a = Ok embedded
            \/ forceProbe = false /\ embedded = fromStoreTrack <$> filter (fun r => TrEmbedded r = true) (IrTracks stored)
               /\ exists old, IrProbe stored = Some old /\ fingerprintsEqual old (IvFingerprint iv) = true)
        /\ GetTrackInventory mediaID ts'
           = Some (mkInventoryRecord false (IvFingerprint iv) (Some (IvFingerprint iv)) (toStoreTrack mediaID <$> Tracks iv))
  end.
Proof.
  unfold Refresh. destruct (first_look a) as [info|]; [|done]. destruct (is_regular info) eqn:Hreg; cbn [negb]; [|done].
  set (fp := mkFingerprint _ _ _ _). destruct (stored_record a) as [stored|]; [|done].
  destruct (_ || _ || _); [done|]. unfold embedded_of.
  set (reuse := negb forceProbe && _).
  assert (forall embedded, (if reuse then Ok (fromStoreTrack <$> filter (fun r => TrEmbedded r = true) (IrTracks stored))
                            else match probed a with Ok tracks => Ok tracks | Err e => Err (RfProbe e) end) = Ok embedded ->
            probed a = Ok embedded
            \/ forceProbe = false /\ embedded = fromStoreTrack <$> filter (fun r => TrEmbedded r = true) (IrTracks stored)
               /\ exists old, IrProbe stored = Some old /\ fingerprintsEqual old fp = true) as Hembedded.
  { intros embedded. subst reuse. destruct (negb forceProbe && _) eqn:E.
    - intros [= <-]. right. apply andb_true_iff in E as [Hf%negb_true_iff E]. destruct (IrProbe stored) as [old|]; [|done]. by eauto 6.
    - destruct (probed a); [|done]. intros [= ->]. by left. }
  destruct (if reuse then _ else _) as [embedded|e]; [|done]. cbn [rbind].
  destruct (sidecars_found a) as [sidecars|]; [|done]. destruct (second_look a) as [current|]; [|done].
  destruct (is_regular current) eqn:Hreg'; cbn [negb orb]; [|done]. unfold same_content.
  destruct (SameFile info current && _ && _) eqn:E; cbn [negb]; [|done]. apply andb_true_iff in E as [[Hi%Z.eqb_eq Hs%Z.eqb_eq]%andb_true_iff Ht%Z.eqb_eq].
  destruct (ReplaceTrackInventory now mediaID (IrCatalog stored) fp (toStoreTrack mediaID <$> (embedded ++ sidecars)) ts) as [ts'|[]] eqn:Hr; [|done].
  apply replace_ok in Hr as (row & Hrow & Hdel & Hfp & Hmedia & Htracks & Hprobes & _).
  exists info, current, stored, row, embedded, sidecars. cbn [IvFingerprint Tracks].
  split_and!; try done; [by apply Hembedded|].
  unfold GetTrackInventory. rewrite Hmedia, Htracks, Hprobes, !lookup_insert_eq. cbn. by rewrite Hdel.
Qed.

(** A media file that was replaced in place is searched again, and only then:
    when the size changed, exactly the searches of that media whose language
    has a subtitle and that nobody holds become due now, at import priority,
    with their history kept; a new time stamp alone reschedules nothing; other
    media are not touched; and the queue keeps its invariant. *)
Theorem replaced_file_searched_again now mediaID expected fp tracks ts ts' k r :
  ReplaceTrackInventory now mediaID expected fp tracks ts = Ok ts' -> searches (ts_queue ts) !! k = Some r ->
  exists r', searches (ts_queue ts') !! k = Some r'
    /\ (queue_inv (ts_queue ts) -> queue_inv (ts_queue ts'))
    /\ (k.1 <> mediaID \/ expected = fp -> r' = r)
    /\ ((lease_owner r', lease_until_ns r', rerun_requested r', attempt r', failure_attempt r', last_outcome r')
        = (lease_owner r, lease_until_ns r, rerun_requested r, attempt r, failure_attempt r, last_outcome r))
    /\ let again := k.1 = mediaID /\ FpSize expected <> FpSize fp /\ is_Some (ts_installs ts !! k) /\ unleased now r = true in
       (again -> state r' = StatePending /\ next_attempt_at_ns r' = now /\ SearchPriorityImport <= priority r')
       /\ (~ again -> state r' = state r /\ next_attempt_at_ns r' = next_attempt_at_ns r /\ priority r' = priority r).
Proof.
  intros Hr Hk. apply replace_ok in Hr as (row & _ & _ & _ & _ & _ & _ & Hsearch).
  rewrite (Hsearch k), Hk. cbn. eexists. split; [done|].
  set (changed := negb _ || _ || _) in *. set (replaced := negb (FpSize expected =? FpSize fp)) in *.
  assert (forall k r, (lease_owner (replace_search now mediaID changed replaced (ts_installs ts) k r),
                       lease_until_ns (replace_search now mediaID changed replaced (ts_installs ts) k r),
                       rerun_requested (replace_search now mediaID changed replaced (ts_installs ts) k r),
                       attempt (replace_search now mediaID changed replaced (ts_installs ts) k r),
                       failure_attempt (replace_search now mediaID changed replaced (ts_installs ts) k r),
                       last_outcome (replace_search now mediaID changed replaced (ts_installs ts) k r))
                      = (lease_owner r, lease_until_ns r, rerun_requested r, attempt r, failure_attempt r, last_outcome r)) as Hkept.
  { intros k' r'. unfold replace_search. destruct (of_media mediaID k'); cbn [negb]; [|done].
    destruct changed; (destruct (_ && _ && _); done). }
  split_and!.
  - intros [Hok Howners]. split.
    + intros k' r' Hr'. rewrite Hsearch in Hr'. destruct (searches (ts_queue ts) !! k') as [r0|] eqn:E0; [|done]. injection Hr' as <-.
      specialize (Hok k' r0 E0). pose proof (Hkept k' r0) as Hq. injection Hq as Q1 Q2 Q3 Q4 Q5 _.
      destruct Hok as (O1 & O2 & O3 & O4 & O5 & O6). unfold row_ok. rewrite Q1, Q2, Q3, Q4, Q5. split_and!; [exact O1|exact O2| |exact O4|exact O5|].
      * unfold replace_search. destruct (negb (of_media mediaID k')); [done|]. destruct changed; (destruct (_ && _ && _); [done|exact O3]).
      * assert (forall x, validSearchPriority x = true -> validSearchPriority (Z.max x SearchPriorityImport) = true) as Hmax.
        { intros x. unfold validSearchPriority, SearchPriorityUpgrade, SearchPriorityMissing, SearchPriorityImport.
          rewrite !orb_true_iff, !Z.eqb_eq. lia. }
        unfold replace_search. destruct (negb (of_media mediaID k')); [done|].
        destruct changed; (destruct (_ && _ && _); [by apply Hmax|exact O6]).
    + intros k1 k2 r1 r2 job H1 H2 J1 J2. rewrite Hsearch in H1, H2.
      destruct (searches (ts_queue ts) !! k1) as [s1|] eqn:E1; [|done]. destruct (searches (ts_queue ts) !! k2) as [s2|] eqn:E2; [|done].
      injection H1 as <-. injection H2 as <-. pose proof (Hkept k1 s1) as Q1. pose proof (Hkept k2 s2) as Q2.
      injection Q1 as Q1 _ _ _ _ _. injection Q2 as Q2 _ _ _ _ _. rewrite Q1 in J1. rewrite Q2 in J2. by eapply Howners.
  - intros Hno. unfold replace_search, of_media. destruct Hno as [Hne|Heq]; [by rewrite (proj2 (Z.eqb_neq _ _) Hne)|].
    assert (changed = false) as -> by (unfold changed, replaced; by rewrite Heq, bool_decide_true, !Z.eqb_refl).
    assert (replaced = false) as -> by (unfold replaced; by rewrite Heq, Z.eqb_refl). by destruct (k.1 =? mediaID).
  - apply Hkept.
  - intros (Hm & Hsize & Hinst & Hun). unfold replace_search, of_media. rewrite Hm, Z.eqb_refl. cbn [negb].
    assert (replaced = true) as -> by (subst replaced; by apply negb_true_iff, Z.eqb_neq). rewrite bool_decide_true by done. cbn [andb].
    assert (unleased now (if changed then with_resume (clear_resume (resume r)) r else r) = true) as -> by by destruct changed.
    cbn. split_and!; [done|done|lia].
  - intros Hno. unfold replace_search, of_media. destruct (Z.eqb_spec k.1 mediaID) as [Hm|]; cbn [negb]; [|done].
    destruct (replaced && _ && _) eqn:E; [|by destruct changed]. exfalso. apply Hno.
    apply andb_true_iff in E as [[E1 E2%bool_decide_eq_true]%andb_true_iff E3]. subst replaced.
    apply negb_true_iff, Z.eqb_neq in E1. split_and!; [done|done|done|]. by destruct changed.
Qed.

(** ** A witness *)

Definition sample_path : text := t "/tv/Show/e1.mkv".
Definition sample_old : MediaFingerprint := mkFingerprint sample_path 7 3 100.
Definition sample_new : MediaFingerprint := mkFingerprint sample_path 7 4 200.
Definition sample_search : search_row :=
  mkRow StateComplete 2 0 0 0 (t "installed") None None SearchPriorityUpgrade false false no_resume sample_order.
Definition sample_store : track_store :=
  mkTrackStore
    (mkDB {[ 9 := mkMediaRow false (t "sonarr") MediaEpisode 1 0 [] sample_old sample_order ]}
       {[ (9, t "hr") := sample_search; (9, t "en") := sample_search ]} [])
    {[ (9, t "hr") := no_installation ]} ∅ ∅.

Lemma replaced_file_searched_again_witness :
  exists ts' r', ReplaceTrackInventory 50 9 sample_old sample_new [] sample_store = Ok ts'
    /\ searches (ts_queue ts') !! (9, t "hr") = Some r' /\ state r' = StatePending /\ next_attempt_at_ns r' = 50.
Proof.
  destruct (ReplaceTrackInventory 50 9 sample_old sample_new [] sample_store) as [ts'|] eqn:E; [|by vm_compute in E].
  destruct (replaced_file_searched_again 50 9 sample_old sample_new [] sample_store ts' (9, t "hr") sample_search E ltac:(by vm_compute))
    as (r' & Hr' & _ & _ & _ & Hagain & _).
  exists ts', r'. destruct Hagain as (H1 & H2 & _); [|done]. split_and!; [done|done|by vm_compute; eexists|done].
Defined.
