(* ===== verification/Library.v ===== *)
(** * The library of media files (src/internal/store)

    The [media] table of repository.go with the transactions that change it:
    events of the Arr applications (ApplyMediaEvent), pages of their history
    (CommitReconciliation), the enumeration of a library
    (library_discovery.go) and manual searches (UpsertMedia). A media row is a
    file of one movie or episode; its searches, installations, candidates and
    probe follow it. The triggers of the migrations on [events], [media] and
    [search_states] are part of the updates that fire them. A transaction is a
    function of the database; an error leaves the database as it was. *)
From S2P Require Import Prelude GoText Paths SearchQueue Workflow Rejections InstallStore Install TrackStore Domain.

#[local] Open Scope Z_scope.

(** ** The tables *)

(** [ct_media] holds the columns of a [domain.Media]; the release date is the
    column [released_at_ns], 0 when it is unknown. *)
Record catalog_row := mkCatalogRow {
  ct_media : Media; ct_released : Z; ct_deleted : bool; ct_deleted_at : Z; ct_entity_deleted_at : Z; ct_updated : Z;
}.

Record event_row := mkEventRow {
  ev_id : Z; ev_key : option text; ev_type : text; ev_instance : text; ev_kind : text; ev_file : Z; ev_entity : Z; ev_series : Z;
  ev_media : option Z; ev_outcome : text; ev_created : Z;
}.

(** The cursor is [zero_time] for the empty column. *)
Record instance_row := mkInstanceRow {
  in_type : text; in_url : text; in_cursor : instant; in_revision : Z; in_scope : text; in_rank : Z; in_updated : Z;
}.

Record candidate_row := mkCandidateRow {
  cd_provider : text; cd_result : text; cd_metadata : text; cd_score : text; cd_validation : text; cd_created : Z;
}.

Record library := mkLibrary {
  lb_media : gmap Z catalog_row;
  lb_searches : gmap search_key search_row;
  lb_history : list history_row;
  lb_installs : gmap (Z * Language) Installation;
  lb_probes : gmap Z MediaFingerprint;
  lb_candidates : gmap (Z * Language) (list candidate_row);
  lb_events : list event_row;
  lb_instances : gmap text instance_row;
  lb_replays : list (text * text);
}.

Definition with_media (x : gmap Z catalog_row) (lb : library) : library :=
  mkLibrary x (lb_searches lb) (lb_history lb) (lb_installs lb) (lb_probes lb) (lb_candidates lb) (lb_events lb) (lb_instances lb) (lb_replays lb).
Definition with_searches (x : gmap search_key search_row) (lb : library) : library :=
  mkLibrary (lb_media lb) x (lb_history lb) (lb_installs lb) (lb_probes lb) (lb_candidates lb) (lb_events lb) (lb_instances lb) (lb_replays lb).
Definition with_installations (x : gmap (Z * Language) Installation) (lb : library) : library :=
  mkLibrary (lb_media lb) (lb_searches lb) (lb_history lb) x (lb_probes lb) (lb_candidates lb) (lb_events lb) (lb_instances lb) (lb_replays lb).
Definition with_probes (x : gmap Z MediaFingerprint) (lb : library) : library :=
  mkLibrary (lb_media lb) (lb_searches lb) (lb_history lb) (lb_installs lb) x (lb_candidates lb) (lb_events lb) (lb_instances lb) (lb_replays lb).
Definition with_candidates (x : gmap (Z * Language) (list candidate_row)) (lb : library) : library :=
  mkLibrary (lb_media lb) (lb_searches lb) (lb_history lb) (lb_installs lb) (lb_probes lb) x (lb_events lb) (lb_instances lb) (lb_replays lb).
Definition with_events (x : list event_row) (lb : library) : library :=
  mkLibrary (lb_media lb) (lb_searches lb) (lb_history lb) (lb_installs lb) (lb_probes lb) (lb_candidates lb) x (lb_instances lb) (lb_replays lb).
Definition with_instances (x : gmap text instance_row) (lb : library) : library :=
  mkLibrary (lb_media lb) (lb_searches lb) (lb_history lb) (lb_installs lb) (lb_probes lb) (lb_candidates lb) (lb_events lb) x (lb_replays lb).
Definition with_replays (x : list (text * text)) (lb : library) : library :=
  mkLibrary (lb_media lb) (lb_searches lb) (lb_history lb) (lb_installs lb) (lb_probes lb) (lb_candidates lb) (lb_events lb) (lb_instances lb) x.

Inductive LibraryError :=
| LIncomplete | LSeriesIdentity | LType | LPriority | LRefMismatch | LEntityID | LUnsupported | LConflictingIdentities | LSearch (e : QueueError)
| LStale | LInstanceMismatch | LInstanceMissing | LDiscoveryArguments | LDiscoveryLanguage | LDiscoveryType | LDiscoveryIdentity
| LDiscoveryConflict | LNoMedia | LHashChanged | LCandidateEmpty | LKind.

(** [lower] of SQLite folds ASCII letters. *)
Definition sql_lower (s : text) : text := map ascii_lower_rune s.

(** [INTEGER PRIMARY KEY]: one more than the largest id. *)
Definition next_id (ids : list Z) : Z := foldr Z.max 0 ids + 1.

(** ** The queue's view *)

Definition search_order (rank : Z) (m : Media) : QueueOrder :=
  mkQueueOrder rank (sql_lower (MTitle m)) (SeriesID m)
    (if bool_decide (RefKind (MRef m) = MediaMovie) then MYear m else if MSeason m =? 0 then 1000000 else MSeason m) (MEpisode m).

Definition rank_of (lb : library) (instance : text) : Z :=
  match lb_instances lb !! instance with Some i => in_rank i | None => 0 end.

Definition queue_row (lb : library) (r : catalog_row) : media_row :=
  let m := ct_media r in
  mkMediaRow (ct_deleted r) (Instance_ (MRef m)) (RefKind (MRef m)) (MEpisode m) (EpisodeEnd m) (Domain.Unsupported m) (Fingerprint m)
    (search_order (rank_of lb (Instance_ (MRef m))) m).

Definition queue_of (lb : library) : DB := mkDB (queue_row lb <$> lb_media lb) (lb_searches lb) (lb_history lb).

(** ** Media rows *)

Definition releasedAtNS (m : Media) : Z := if is_zero (ReleasedAt m) then 0 else if ReleasedAt m =? 0 then 1 else ReleasedAt m.

(** The columns of a media file: the row has one file id. *)
Definition columns (m : Media) : Media :=
  mkMedia (SeriesID m) (EntityID m) (MRef m)
    (mkFingerprint (FpPath (Fingerprint m)) (RefFileID (MRef m)) (FpSize (Fingerprint m)) (FpModTime (Fingerprint m)))
    (MTitle m) (EpisodeTitle m) (MAlternateTitles m) (MYear m) (MSeason m) (MEpisode m) (MAbsoluteEpisode m) (EpisodeEnd m)
    (AbsoluteEpisodeEnd m) (MExternalIDs m) (OriginalFilename m) (ReleaseName m) (ReleaseGroup m) (Source m) (Resolution m)
    (StreamingService m) (Edition m) (Quality m) (MDuration m) (Domain.Unsupported m) zero_time (SeriesType m).

Definition with_series_type (s : text) (m : Media) : Media :=
  mkMedia (SeriesID m) (EntityID m) (MRef m) (Fingerprint m) (MTitle m) (EpisodeTitle m) (MAlternateTitles m) (MYear m) (MSeason m)
    (MEpisode m) (MAbsoluteEpisode m) (EpisodeEnd m) (AbsoluteEpisodeEnd m) (MExternalIDs m) (OriginalFilename m) (ReleaseName m)
    (ReleaseGroup m) (Source m) (Resolution m) (StreamingService m) (Edition m) (Quality m) (MDuration m) (Domain.Unsupported m)
    (ReleasedAt m) s.

Definition with_duration (d : duration) (m : Media) : Media :=
  mkMedia (SeriesID m) (EntityID m) (MRef m) (Fingerprint m) (MTitle m) (EpisodeTitle m) (MAlternateTitles m) (MYear m) (MSeason m)
    (MEpisode m) (MAbsoluteEpisode m) (EpisodeEnd m) (AbsoluteEpisodeEnd m) (MExternalIDs m) (OriginalFilename m) (ReleaseName m)
    (ReleaseGroup m) (Source m) (Resolution m) (StreamingService m) (Edition m) (Quality m) d (Domain.Unsupported m) (ReleasedAt m) (SeriesType m).

Definition with_release (released : instant) (m : Media) : Media :=
  mkMedia (SeriesID m) (EntityID m) (MRef m) (Fingerprint m) (MTitle m) (EpisodeTitle m) (MAlternateTitles m) (MYear m) (MSeason m)
    (MEpisode m) (MAbsoluteEpisode m) (EpisodeEnd m) (AbsoluteEpisodeEnd m) (MExternalIDs m) (OriginalFilename m) (ReleaseName m)
    (ReleaseGroup m) (Source m) (Resolution m) (StreamingService m) (Edition m) (Quality m) (MDuration m) (Domain.Unsupported m)
    released (SeriesType m).

Definition with_mod_time (time : instant) (m : Media) : Media :=
  mkMedia (SeriesID m) (EntityID m) (MRef m)
    (mkFingerprint (FpPath (Fingerprint m)) (FpFileID (Fingerprint m)) (FpSize (Fingerprint m)) time)
    (MTitle m) (EpisodeTitle m) (MAlternateTitles m) (MYear m) (MSeason m) (MEpisode m) (MAbsoluteEpisode m) (EpisodeEnd m)
    (AbsoluteEpisodeEnd m) (MExternalIDs m) (OriginalFilename m) (ReleaseName m) (ReleaseGroup m) (Source m) (Resolution m)
    (StreamingService m) (Edition m) (Quality m) (MDuration m) (Domain.Unsupported m) (ReleasedAt m) (SeriesType m).

(** The inserted row. *)
Definition inserted_row (m : Media) (updated : Z) : catalog_row := mkCatalogRow (columns m) (releasedAtNS m) false 0 0 updated.

(** The UPDATE of a known row: a release date or a series type that the source
    does not know is kept. *)
Definition updated_row (m : Media) (updated : Z) (r : catalog_row) : catalog_row :=
  mkCatalogRow (with_series_type (if bool_decide (SeriesType m = []) then SeriesType (ct_media r) else SeriesType m) (columns m))
    (if releasedAtNS m =? 0 then ct_released r else releasedAtNS m) false (ct_deleted_at r) (ct_entity_deleted_at r) updated.

(** ** Reading media *)

Definition of_instance (instance : text) (kind : MediaKind) (r : catalog_row) : bool :=
  bool_decide (Instance_ (MRef (ct_media r)) = instance) && bool_decide (RefKind (MRef (ct_media r)) = kind).
Definition of_entity (instance : text) (kind : MediaKind) (entityID : Z) (r : catalog_row) : bool :=
  of_instance instance kind r && (EntityID (ct_media r) =? entityID).
Definition of_file (instance : text) (kind : MediaKind) (fileID : Z) (r : catalog_row) : bool :=
  of_instance instance kind r && (RefFileID (MRef (ct_media r)) =? fileID).

Definition find_row (p : catalog_row -> bool) (lb : library) : option (Z * catalog_row) :=
  head (base.filter (fun kr => p kr.2 = true) (map_to_list (lb_media lb))).

Definition GetMedia (id : Z) (lb : library) : result LibraryError Media :=
  match lb_media lb !! id with
  | None => Err LNoMedia
  | Some r =>
      let m := ct_media r in
      if negb (validUnsupportedReason (Domain.Unsupported m)) then Err LUnsupported
      else Ok (with_release (if ct_released r =? 0 then zero_time else ct_released r) m)
  end.

Definition FindMedia (ref : MediaRef) (lb : library) : result LibraryError (Z * Media) :=
  match find_row (of_file (Instance_ ref) (RefKind ref) (RefFileID ref)) lb with
  | None => Err LNoMedia
  | Some (id, _) => let! m := GetMedia id lb in Ok (id, m)
  end.

Definition MediaActive (ref : MediaRef) (lb : library) : bool :=
  match find_row (of_file (Instance_ ref) (RefKind ref) (RefFileID ref)) lb with Some (_, r) => negb (ct_deleted r) | None => false end.

Definition FindMediaByEntity (instance : text) (kind : MediaKind) (entityID : Z) (lb : library)
    : result LibraryError (option (Z * Media)) :=
  if entityID <=? 0 then Err LEntityID
  else match find_row (of_entity instance kind entityID) lb with
       | None => Ok None
       | Some (id, _) => let! m := GetMedia id lb in Ok (Some (id, m))
       end.

Definition ListMediaByInstance (instance : text) (lb : library) : result LibraryError (list (Z * Media)) :=
  let ids := stable_sort Z.ltb
    (base.filter (fun kr => bool_decide (Instance_ (MRef (ct_media kr.2)) = instance) && negb (ct_deleted kr.2) = true)
       (map_to_list (lb_media lb))).*1 in
  foldr (fun id rest => let! m := GetMedia id lb in let! rest := rest in Ok ((id, m) :: rest)) (Ok []) ids.

(** The top-level identity: the series of an episode, the movie itself. *)
Definition identity_of (kind : MediaKind) (r : catalog_row) : Z :=
  match kind with MediaEpisode => SeriesID (ct_media r) | _ => EntityID (ct_media r) end.

Definition ListActiveCatalogIdentities `{Unicode} (instance : text) (kind : MediaKind) (lb : library) : result LibraryError (list Z) :=
  if bool_decide (trim_space instance = []) then Err LIncomplete
  else if bool_decide (kind = KindUnset) then Err LKind
  else
    Ok (stable_sort Z.ltb (remove_dups (identity_of kind <$>
          (base.filter (fun r => of_instance instance kind r && negb (ct_deleted r) && (0 <? identity_of kind r) = true)
             (map_to_list (lb_media lb)).*2)))).

Definition ListLegacyMultiEpisodeMedia (instance : text) (lb : library) : list MediaRef :=
  mkMediaRef instance MediaEpisode <$>
    stable_sort Z.ltb ((fun r => RefFileID (MRef (ct_media r))) <$>
      base.filter (fun r => of_instance instance MediaEpisode r && negb (ct_deleted r)
                            && bool_decide (Domain.Unsupported (ct_media r) = UnsupportedMultiEpisode) && (EpisodeEnd (ct_media r) =? 0) = true)
        (map_to_list (lb_media lb)).*2).

(** ** Triggers *)

(** [media_search_order]: the searches of a media file follow its sort columns;
    their rank stays. *)
Definition reordered (m : Media) (r : search_row) : search_row := with_order (search_order (instance_rank (order_key r)) m) r.

Definition sorts_alike (a b : Media) : bool :=
  bool_decide (MTitle a = MTitle b) && (SeriesID a =? SeriesID b) && (MYear a =? MYear b) && (MSeason a =? MSeason b) && (MEpisode a =? MEpisode b).

(** [invalidate_inventory_probe]. *)
Definition same_file_columns (a b : Media) : bool := bool_decide (Fingerprint a = Fingerprint b).

(** An UPDATE of all the columns of a media row, with both triggers. *)
Definition update_media (id : Z) (new : catalog_row) (lb : library) : library :=
  match lb_media lb !! id with
  | None => lb
  | Some old =>
      let lb := with_media (<[id := new]> (lb_media lb)) lb in
      let lb := if same_file_columns (ct_media old) (ct_media new) && negb (ct_deleted new) then lb
                else with_probes (delete id (lb_probes lb)) lb in
      if sorts_alike (ct_media old) (ct_media new) then lb
      else with_searches (map_imap (fun k r => Some (if of_media id k then reordered (ct_media new) r else r)) (lb_searches lb)) lb
  end.

(** ** Identities *)

Definition findMediaIdentityTx (m : Media) (lb : library) : result LibraryError (option (Z * catalog_row)) :=
  let ref := MRef m in
  let entity := find_row (of_entity (Instance_ ref) (RefKind ref) (EntityID m)) lb in
  let file := find_row (of_file (Instance_ ref) (RefKind ref) (RefFileID ref)) lb in
  match entity, file with
  | Some (e, _), Some (f, _) => if e =? f then Ok entity else Err LConflictingIdentities
  | Some _, None => Ok entity
  | None, Some _ => Err LConflictingIdentities
  | None, None => Ok None
  end.

(** The stored modification time wins while file and size stay. *)
Definition preserveAuthoritativeModTime (m : Media) (old : Media) : Media :=
  if (RefFileID (MRef old) =? FpFileID (Fingerprint m)) && (FpSize (Fingerprint old) =? FpSize (Fingerprint m))
  then with_mod_time (FpModTime (Fingerprint old)) m else m.

Definition content_differs (old m : Media) : bool :=
  negb (RefFileID (MRef old) =? FpFileID (Fingerprint m)) || negb (FpSize (Fingerprint old) =? FpSize (Fingerprint m))
  || negb (FpModTime (Fingerprint old) =? FpModTime (Fingerprint m)).

(** ** Installations of a media file *)

Definition invalidateInstallationTx (id : Z) (lb : library) : library :=
  with_installations (map_imap (fun k i => Some (if of_media id k then invalidated i else i)) (lb_installs lb)) lb.

Definition renamed_installation (oldPath newPath : text) (i : Installation) : Installation :=
  mkInstallation (IFallback i) (IMediaID i) (ILanguage i) (RebaseSidecarPath (IPath i) oldPath newPath) (IChecksum i) (IProviderID i)
    (ICandidateID i) (ICandidateSignature i) (IArtifactChecksum i) (IScoreJSON i) (ISyncResultJSON i)
    (rebaseSiblingPath (IRollbackPath i) oldPath newPath) (IMediaPath i) (IMediaFileID i) (IMediaSize i) (IMediaModTimeNS i)
    (IPendingInstallID i) (IInstalledAt i).

Definition rebaseInstallationPathsTx (id fileID : Z) (oldPath newPath : text) (lb : library) : library :=
  with_installations
    (map_imap (fun k i => Some (if of_media id k && ((IMediaFileID i =? fileID) || (IMediaFileID i =? 0))
                                then renamed_installation oldPath newPath i else i)) (lb_installs lb)) lb.

(** ** Upserts *)

(** What both upserts do before their installations: the id, the media with its
    modification time, and the row they found. *)
Definition settle_identity (m : Media) (lb : library) : result LibraryError (option (Z * catalog_row) * Media) :=
  if EntityID m <=? 0 then Err LEntityID
  else if negb (validUnsupportedReason (Domain.Unsupported m)) then Err LUnsupported
  else
    let! found := findMediaIdentityTx m lb in
    Ok (found, match found with Some (_, r) => preserveAuthoritativeModTime m (ct_media r) | None => m end).

Definition next_media_id (lb : library) : Z := next_id (map_to_list (lb_media lb)).*1.

(** The row written, its id, and whether the content changed. *)
Definition write_media (found : option (Z * catalog_row)) (m : Media) (updated : Z -> Z) (now : Z) (lb : library) : library * Z * bool :=
  match found with
  | None => let id := next_media_id lb in (with_media (<[id := inserted_row m now]> (lb_media lb)) lb, id, true)
  | Some (id, r) => (update_media id (updated_row m (updated (ct_updated r)) r) lb, id, content_differs (ct_media r) m)
  end.

(** Only a rename of the same file moves the sidecar records. *)
Definition follow_rename (found : option (Z * catalog_row)) (m : Media) (changed : bool) (lb : library) : library :=
  match found with
  | None => lb
  | Some (id, r) =>
      let oldPath := FpPath (Fingerprint (ct_media r)) in
      if negb (bool_decide (oldPath = FpPath (Fingerprint m))) && negb changed
      then rebaseInstallationPathsTx id (RefFileID (MRef (ct_media r))) oldPath (FpPath (Fingerprint m)) lb else lb
  end.

Definition upsertMediaTx (m : Media) (at_ : instant) (lb : library) : result LibraryError (library * Z * bool) :=
  let! settled := settle_identity m lb in
  let '(lb', id, changed) := write_media settled.1 settled.2 (fun updated => Z.max updated at_) at_ lb in
  Ok (follow_rename settled.1 settled.2 changed lb', id, changed).

(** [UpsertMedia] and whether the path or the content changed. *)
Definition UpsertMedia (m : Media) (now : instant) (lb : library) : result LibraryError (library * Z * bool) :=
  let! settled := settle_identity m lb in
  let '(lb', id, changed) := write_media settled.1 settled.2 (fun _ => now) now lb in
  let lb' := follow_rename settled.1 settled.2 changed lb' in
  let moved := match settled.1 with
               | Some (_, r) => negb (bool_decide (FpPath (Fingerprint (ct_media r)) = FpPath (Fingerprint settled.2)))
               | None => true end in
  Ok (if changed then invalidateInstallationTx id lb' else lb', id, moved || changed).

(** ** Media events *)

Record MediaEventMutation := mkMutation {
  MuSeriesID : Z; MuEventID : text; MuType : text; MuEntityID : Z; MuMedia : Media; MuRef : MediaRef; MuLanguages : list Language;
  MuAt : instant; MuPriority : Z; MuReplay : bool;
}.

Definition brings (m : MediaEventMutation) : bool := bool_decide (MuType m ∈ [t "import"; t "rename"]).
Definition deletes (m : MediaEventMutation) : bool := bool_decide (MuType m = t "delete").

Definition validateMediaMutation (m : MediaEventMutation) : result LibraryError unit :=
  let ref := MuRef m in
  if bool_decide (MuEventID m = []) || bool_decide (Instance_ ref = []) || bool_decide (RefKind ref = KindUnset) || is_zero (MuAt m)
  then Err LIncomplete
  else if brings m then
    if (MuEntityID m <=? 0) || (RefFileID ref <=? 0) || negb (EntityID (MuMedia m) =? MuEntityID m)
       || negb (bool_decide (MRef (MuMedia m) = ref))
    then Err LIncomplete else Ok tt
  else if deletes m then
    if negb (MuSeriesID m =? 0) then
      if (MuSeriesID m <? 0) || negb (bool_decide (RefKind ref = MediaEpisode)) || negb (RefFileID ref =? 0) || negb (MuEntityID m =? 0)
      then Err LSeriesIdentity else Ok tt
    else if (RefFileID ref <=? 0) && (MuEntityID m <=? 0) then Err LIncomplete else Ok tt
  else Err LType.

(** The [instances_event_revision] trigger. *)
Definition bump_revision (i : instance_row) : instance_row :=
  mkInstanceRow (in_type i) (in_url i) (in_cursor i) (in_revision i + 1) (in_scope i) (in_rank i) (in_updated i).

Definition has_event (key : text) (lb : library) : bool := existsb (fun e => bool_decide (ev_key e = Some key)) (lb_events lb).

(** The INSERT of the event, unless its id is recorded. *)
Definition insert_event (m : MediaEventMutation) (lb : library) : option library :=
  if has_event (MuEventID m) lb then None
  else
    let ref := MuRef m in
    let e := mkEventRow (next_id (ev_id <$> lb_events lb)) (Some (MuEventID m)) (MuType m) (Instance_ ref) (kind_text (RefKind ref))
               (RefFileID ref) (MuEntityID m) (MuSeriesID m) None (t "applied") (MuAt m) in
    Some (with_instances (alter bump_revision (Instance_ ref) (lb_instances lb)) (with_events (e :: lb_events lb) lb)).

Definition HasAppliedMediaEvent (key : text) (lb : library) : bool :=
  existsb (fun e => bool_decide (ev_key e = Some key) && bool_decide (ev_outcome e = t "applied")) (lb_events lb).

Definition linked (mediaID : Z) (file entity : option Z) (e : event_row) : event_row :=
  mkEventRow (ev_id e) (ev_key e) (ev_type e) (ev_instance e) (ev_kind e) (default (ev_file e) file) (default (ev_entity e) entity)
    (ev_series e) (Some mediaID) (ev_outcome e) (ev_created e).

Definition link_event (key : text) (mediaID : Z) (file entity : option Z) (lb : library) : library :=
  with_events ((fun e => if bool_decide (ev_key e = Some key) then linked mediaID file entity e else e) <$> lb_events lb) lb.

(** Whether a delete applied after the change removed its file or its entity. *)
Definition deletedAfterEventTx (m : MediaEventMutation) (lb : library) : bool :=
  existsb (fun kr =>
    let r := kr.2 in
    of_instance (Instance_ (MuRef m)) (RefKind (MuRef m)) r && ct_deleted r
    && ((RefFileID (MRef (ct_media r)) =? RefFileID (MuRef m)) && (MuAt m <? ct_deleted_at r)
        || (EntityID (ct_media r) =? MuEntityID m) && (MuAt m <? ct_entity_deleted_at r))) (map_to_list (lb_media lb)).

Definition replayOfAppliedImportTx (m : MediaEventMutation) (lb : library) : bool :=
  match find_row (of_file (Instance_ (MuRef m)) (RefKind (MuRef m)) (RefFileID (MuRef m))) lb with
  | None => false
  | Some (_, r) =>
      negb (ct_deleted r) && (EntityID (ct_media r) =? MuEntityID m)
      && bool_decide (FpPath (Fingerprint (ct_media r)) = FpPath (Fingerprint (MuMedia m)))
      && (FpSize (Fingerprint (ct_media r)) =? FpSize (Fingerprint (MuMedia m)))
      && bool_decide (Domain.Unsupported (ct_media r) = Domain.Unsupported (MuMedia m)) && (MuAt m <=? ct_updated r)
  end.

(** The searches of the configured languages. *)
Fixpoint schedule_languages (id : Z) (languages : list Language) (at_ : instant) (p : Z) (unsupported : text) (lb : library)
    : result LibraryError library :=
  match languages with
  | [] => Ok lb
  | language :: languages =>
      match scheduleMediaSearchTx id language at_ p unsupported (queue_of lb) with
      | Err e => Err (LSearch e)
      | Ok db => schedule_languages id languages at_ p unsupported (with_searches (searches db) lb)
      end
  end.

Definition without_media {A} (id : Z) (m : gmap (Z * Language) A) : gmap (Z * Language) A := base.filter (fun kv => of_media id kv.1 = false) m.

Definition apply_import (m : MediaEventMutation) (lb : library) : result LibraryError (library * bool) :=
  if negb (bool_decide (MRef (MuMedia m) = MuRef m)) then Err LRefMismatch
  else if deletedAfterEventTx m lb then Ok (lb, false)
  else
    let alreadyApplied := MuReplay m && replayOfAppliedImportTx m lb in
    let! upserted := upsertMediaTx (MuMedia m) (MuAt m) lb in
    let '(lb, id, contentChanged) := upserted in
    let lb := if contentChanged then invalidateInstallationTx id (with_candidates (without_media id (lb_candidates lb)) lb) else lb in
    let! lb := if alreadyApplied then Ok lb
               else schedule_languages id (MuLanguages m) (MuAt m) (MuPriority m) (Domain.Unsupported (MuMedia m)) lb in
    Ok (link_event (MuEventID m) id None None lb, true).

Definition deleted_row (at_ entityAt : Z) (r : catalog_row) : catalog_row :=
  mkCatalogRow (ct_media r) (ct_released r) true
    (if ct_deleted r then Z.max (ct_deleted_at r) at_ else at_)
    (if ct_deleted r then Z.max (ct_entity_deleted_at r) entityAt else entityAt) (Z.max (ct_updated r) at_).

(** [search_states] of a deleted media file. *)
Definition cancel_searches (id : Z) (lb : library) : library :=
  with_searches (map_imap (fun k r => Some (if of_media id k then cancelled_row r else r)) (lb_searches lb)) lb.

Definition apply_delete (m : MediaEventMutation) (lb : library) : library :=
  let ref := MuRef m in
  let found := if 0 <? RefFileID ref then find_row (of_file (Instance_ ref) (RefKind ref) (RefFileID ref)) lb
               else find_row (of_entity (Instance_ ref) (RefKind ref) (MuEntityID m)) lb in
  match found with
  | None => lb
  | Some (id, r) =>
      let entityDeletedAt := if RefFileID ref <=? 0 then MuAt m else 0 in
      let lb := cancel_searches id (update_media id (deleted_row (MuAt m) entityDeletedAt r) lb) in
      link_event (MuEventID m) id (Some (RefFileID (MRef (ct_media r)))) (Some (EntityID (ct_media r))) lb
  end.

(** The delete of one episode of a deleted series. *)
Definition series_child (m : MediaEventMutation) (entityID : Z) : MediaEventMutation :=
  mkMutation 0 (MuEventID m ++ t ":episode:" ++ itoa entityID) (MuType m) entityID (MuMedia m) (MuRef m) (MuLanguages m) (MuAt m)
    (MuPriority m) (MuReplay m).

Definition series_entities (instance : text) (seriesID : Z) (lb : library) : list Z :=
  stable_sort Z.ltb ((fun r => EntityID (ct_media r)) <$>
    base.filter (fun r => of_instance instance MediaEpisode r && (SeriesID (ct_media r) =? seriesID) = true) (map_to_list (lb_media lb)).*2).

(** [applyMediaMutationTx], the deletion of a series by [series]. *)
Definition apply_mutation (series : MediaEventMutation -> library -> result LibraryError library) (m : MediaEventMutation) (lb : library)
    : result LibraryError (library * bool) :=
  let! _ := validateMediaMutation m in
  if negb (validSearchPriority (MuPriority m)) then Err LPriority
  else match insert_event m lb with
       | None => Ok (lb, false)
       | Some lb =>
           if brings m then apply_import m lb
           else if deletes m then
             if 0 <? MuSeriesID m then let! lb := series m lb in Ok (lb, true)
             else Ok (apply_delete m lb, true)
           else Err LType
       end.

(** A child names no series: the deletion goes one level deep. *)
Fixpoint apply_children (m : MediaEventMutation) (entities : list Z) (lb : library) : result LibraryError library :=
  match entities with
  | [] => Ok lb
  | entityID :: entities =>
      let! applied := apply_mutation (fun _ lb => Ok lb) (series_child m entityID) lb in
      apply_children m entities applied.1
  end.

Definition applyMediaMutationTx : MediaEventMutation -> library -> result LibraryError (library * bool) :=
  apply_mutation (fun m lb => apply_children m (series_entities (Instance_ (MuRef m)) (MuSeriesID m) lb) lb).

(** The audit log keeps its newest ten thousand rows. *)
Definition newer_event (a b : event_row) : bool :=
  if ev_created a =? ev_created b then ev_id b <? ev_id a else ev_created b <? ev_created a.
Definition maximumEvents : nat := 10000.
Definition bound_events (lb : library) : library := with_events (take maximumEvents (stable_sort newer_event (lb_events lb))) lb.

Definition with_priority (p : Z) (m : MediaEventMutation) : MediaEventMutation :=
  if MuPriority m =? 0
  then mkMutation (MuSeriesID m) (MuEventID m) (MuType m) (MuEntityID m) (MuMedia m) (MuRef m) (MuLanguages m) (MuAt m) p (MuReplay m)
  else m.
Definition dated (now : instant) (m : MediaEventMutation) : MediaEventMutation :=
  if is_zero (MuAt m)
  then mkMutation (MuSeriesID m) (MuEventID m) (MuType m) (MuEntityID m) (MuMedia m) (MuRef m) (MuLanguages m) now (MuPriority m) (MuReplay m)
  else m.

(** An event that is not applied leaves no trace: its transaction is rolled back. *)
Definition ApplyMediaEvent (now : instant) (m : MediaEventMutation) (lb : library) : result LibraryError (library * bool) :=
  let! applied := applyMediaMutationTx (with_priority SearchPriorityImport (dated now m)) lb in
  if (applied.2 : bool) then Ok (bound_events applied.1, true) else Ok (lb, false).

(** ** Pages of history *)

Record ReconciliationState := mkReconciliationState { Cursor : instant; Revision : Z }.

Definition GetReconciliationState (instance : text) (lb : library) : option ReconciliationState :=
  (fun i => mkReconciliationState (in_cursor i) (in_revision i)) <$> lb_instances lb !! instance.

(** One mutation of a page: while the cursor is retained, the mutations a page
    applied are remembered. *)
Definition commit_mutation (instance : text) (retainCursor : bool) (m : MediaEventMutation) (lb : library) : result LibraryError library :=
  if negb (bool_decide (Instance_ (MuRef m) = instance)) then Err LInstanceMismatch
  else
    let m := with_priority SearchPriorityMissing m in
    if retainCursor then
      if existsb (fun r => bool_decide (r.1 = MuEventID m)) (lb_replays lb) then Ok lb
      else let! applied := applyMediaMutationTx m (with_replays ((MuEventID m, instance) :: lb_replays lb) lb) in Ok applied.1
    else if bool_decide ((MuEventID m, instance) ∈ lb_replays lb) then Ok lb
    else let! applied := applyMediaMutationTx m lb in Ok applied.1.

Fixpoint commit_mutations (instance : text) (retainCursor : bool) (mutations : list MediaEventMutation) (lb : library)
    : result LibraryError library :=
  match mutations with
  | [] => Ok lb
  | m :: mutations => let! lb := commit_mutation instance retainCursor m lb in commit_mutations instance retainCursor mutations lb
  end.

Definition advance_cursor (cursor : instant) (i : instance_row) : instance_row :=
  mkInstanceRow (in_type i) (in_url i) cursor (in_revision i) (in_scope i) (in_rank i) cursor.

Definition CommitReconciliation (instance : text) (expected : ReconciliationState) (cursor : instant) (mutations : list MediaEventMutation)
    (lb : library) : result LibraryError library :=
  match GetReconciliationState instance lb with
  | None => Err LInstanceMissing
  | Some current =>
      if negb (Revision current =? Revision expected) || negb (Cursor current =? Cursor expected) then Err LStale
      else
        let retainCursor := cursor =? Cursor expected in
        let! lb := commit_mutations instance retainCursor mutations lb in
        let lb := bound_events lb in
        if retainCursor then Ok lb
        else
          let lb := with_replays (base.filter (fun r => r.2 <> instance) (lb_replays lb)) lb in
          if bool_decide (is_Some (lb_instances lb !! instance))
          then Ok (with_instances (alter (advance_cursor cursor) instance (lb_instances lb)) lb)
          else Err LInstanceMissing
  end.

(** ** The enumeration of a library *)

Section discovery.
Context `{Unicode} `{LanguageTags} (sha256_hex : list N -> text).

Definition LibraryDiscoveryState (instance : text) (lb : library) : option (text * Z) :=
  (fun i => (in_scope i, in_revision i)) <$> lb_instances lb !! instance.

(** What a known row learns. *)
Definition backfilled (m : Media) (r : catalog_row) : catalog_row :=
  let media := ct_media r in
  let media := if bool_decide (SeriesType m = []) then media else with_series_type (SeriesType m) media in
  let media := if (0 <? MDuration m) && (RefFileID (MRef media) =? RefFileID (MRef m)) then with_duration (MDuration m) media else media in
  mkCatalogRow media (if releasedAtNS m =? 0 then ct_released r else releasedAtNS m) (ct_deleted r) (ct_deleted_at r)
    (ct_entity_deleted_at r) (ct_updated r).

Definition library_event_id (instance : text) (m : Media) : text :=
  t "library:" ++ sha256_hex (bytes_of (instance ++ [0%N] ++ kind_text (RefKind (MRef m)) ++ [0%N] ++ itoa (EntityID m) ++ [0%N]
                                        ++ itoa (RefFileID (MRef m)))).

Definition discovery_mutation (instance : text) (languages : list Language) (at_ : instant) (m : Media) : MediaEventMutation :=
  mkMutation 0 (library_event_id instance m) (t "import") (EntityID m) m (MRef m) languages at_ SearchPriorityMissing false.

(** The files and entities seen so far. *)
Fixpoint discover (instance : text) (kind : MediaKind) (languages : list Language) (at_ : instant) (files entities : gmap Z Z)
    (items : list Media) (lb : library) : result LibraryError library :=
  match items with
  | [] => Ok lb
  | m :: items =>
      let ref := MRef m in
      if negb (bool_decide (Instance_ ref = instance)) || negb (bool_decide (RefKind ref = kind)) || (EntityID m <=? 0)
         || (RefFileID ref <=? 0) || negb (FpFileID (Fingerprint m) =? RefFileID ref) || negb (validUnsupportedReason (Domain.Unsupported m))
      then Err LDiscoveryIdentity
      else if match files !! EntityID m with Some file => negb (file =? RefFileID ref) | None => false end then Err LDiscoveryIdentity
      else if match entities !! RefFileID ref with Some entity => negb (entity =? EntityID m) | None => false end then Err LDiscoveryIdentity
      else
        let files := <[EntityID m := RefFileID ref]> files in
        let entities := <[RefFileID ref := EntityID m]> entities in
        let! found := findMediaIdentityTx m lb in
        match found with
        | Some (id, _) => discover instance kind languages at_ files entities items (with_media (alter (backfilled m) id (lb_media lb)) lb)
        | None =>
            let! applied := applyMediaMutationTx (discovery_mutation instance languages at_ m) lb in
            if (applied.2 : bool) then discover instance kind languages at_ files entities items applied.1 else Err LDiscoveryConflict
        end
  end.

Definition canonical_language (language : Language) : bool :=
  match ParseLanguage language with Ok canonical => bool_decide (canonical = language) | Err _ => false end.

Definition complete_scope (scope : text) (at_ : instant) (i : instance_row) : instance_row :=
  mkInstanceRow (in_type i) (in_url i) (in_cursor i) (in_revision i) scope (in_rank i) at_.

(** An empty scope is that of a partial enumeration. *)
Definition commitLibraryDiscovery (instance scope : text) (revision : Z) (items : list Media) (languages : list Language) (at_ : instant)
    (lb : library) : result LibraryError library :=
  if bool_decide (trim_space instance = []) || (revision <? 0) || is_zero at_ then Err LDiscoveryArguments
  else if negb (forallb canonical_language languages) then Err LDiscoveryLanguage
  else match lb_instances lb !! instance with
       | None => Err LInstanceMissing
       | Some i =>
           if negb (in_revision i =? revision) then Err LStale
           else
             let! kind := if bool_decide (in_type i = t "radarr") then Ok MediaMovie
                          else if bool_decide (in_type i = t "sonarr") then Ok MediaEpisode else Err LDiscoveryType in
             let! lb := discover instance kind languages at_ ∅ ∅ items lb in
             let lb := bound_events lb in
             Ok (if bool_decide (scope = []) then lb
                 else with_instances (alter (complete_scope scope at_) instance (lb_instances lb)) lb)
       end.

Definition CommitLibraryDiscovery (instance scope : text) (revision : Z) (items : list Media) (languages : list Language) (at_ : instant)
    (lb : library) : result LibraryError library :=
  if bool_decide (trim_space scope = []) then Err LDiscoveryArguments
  else commitLibraryDiscovery instance scope revision items languages at_ lb.

Definition CommitPartialLibraryDiscovery (instance : text) (revision : Z) (items : list Media) (languages : list Language) (at_ : instant)
    (lb : library) : result LibraryError library :=
  commitLibraryDiscovery instance [] revision items languages at_ lb.
End discovery.

(** ** Instances and candidates *)

Definition EnsureInstance (name instanceType url : text) (now : instant) (lb : library) : library :=
  with_instances
    (<[name := match lb_instances lb !! name with
               | Some i => mkInstanceRow instanceType url (in_cursor i) (in_revision i) (in_scope i) (in_rank i) now
               | None => mkInstanceRow instanceType url zero_time 0 [] 0 now end]> (lb_instances lb)) lb.

Definition ranked (rank : Z) (i : instance_row) : instance_row :=
  mkInstanceRow (in_type i) (in_url i) (in_cursor i) (in_revision i) (in_scope i) rank (in_updated i).

Definition reranked (lb : library) (k : search_key) (r : search_row) : search_row :=
  match lb_media lb !! k.1 with
  | None => r
  | Some m =>
      let o := order_key r in
      with_order (mkQueueOrder (rank_of lb (Instance_ (MRef (ct_media m)))) (sort_title o) (sort_series o) (sort_season o) (sort_episode o)) r
  end.

Definition SetInstanceQueuePriorities (priorities : gmap text Z) (lb : library) : library :=
  let lb := with_instances (map_imap (fun name i => Some (ranked (default 0 (priorities !! name)) i)) (lb_instances lb)) lb in
  with_searches (map_imap (fun k r => Some (reranked lb k r)) (lb_searches lb)) lb.

(** What the workflow records for a language replaces what it recorded. *)
Definition RecordCandidates (mediaID : Z) (language : Language) (rows : list candidate_row) (now : instant) (lb : library)
    : result LibraryError library :=
  if existsb (fun c => bool_decide (cd_metadata c = []) || bool_decide (cd_score c = [])) rows then Err LCandidateEmpty
  else if negb (bool_decide (rows = [])) && bool_decide (lb_media lb !! mediaID = None) then Err LNoMedia
  else
    let stored := (fun c => mkCandidateRow (cd_provider c) (cd_result c) (cd_metadata c) (cd_score c)
                              (if bool_decide (cd_validation c = []) then t "{}" else cd_validation c) now) <$> rows in
    Ok (with_candidates (<[(mediaID, language) := stored]> (lb_candidates lb)) lb).
