(* ===== verification/LibrarySafety.v ===== *)
(** * What the library transactions keep (Library.v)

    The changes of the library as one executable function, the refinement of
    the search queue by them, the invariant of the media rows, deletions that
    stay, the fence of slow readers, and what a rename and a replacement do to
    the recorded subtitles. *)
From S2P Require Import Prelude GoText Paths SearchQueue Workflow Rejections InstallStore Install TrackStore Domain Library.

#[local] Open Scope Z_scope.

(** ** Changes *)

Section changes.
Context `{Unicode} `{LanguageTags} (sha256_hex : list N -> text).

Inductive change :=
| ApplyEvent (now : instant) (m : MediaEventMutation)
| CommitPage (instance : text) (expected : ReconciliationState) (cursor : instant) (mutations : list MediaEventMutation)
| CommitLibrary (instance scope : text) (revision : Z) (items : list Media) (languages : list Language) (at_ : instant)
| ManualUpsert (m : Media) (now : instant)
| SetInstance (name instanceType url : text) (now : instant)
| SetRanks (priorities : gmap text Z)
| SetCandidates (mediaID : Z) (language : Language) (rows : list candidate_row) (now : instant).

Definition run_change (c : change) (lb : library) : result LibraryError library :=
  match c with
  | ApplyEvent now m => let! r := ApplyMediaEvent now m lb in Ok r.1
  | CommitPage instance expected cursor mutations => CommitReconciliation instance expected cursor mutations lb
  | CommitLibrary instance scope revision items languages at_ =>
      commitLibraryDiscovery sha256_hex instance scope revision items languages at_ lb
  | ManualUpsert m now => let! r := UpsertMedia m now lb in Ok r.1.1
  | SetInstance name instanceType url now => Ok (EnsureInstance name instanceType url now lb)
  | SetRanks priorities => Ok (SetInstanceQueuePriorities priorities lb)
  | SetCandidates mediaID language rows now => RecordCandidates mediaID language rows now lb
  end.

(** A failed transaction changes nothing. *)
Definition perform (lb : library) (c : change) : library := match run_change c lb with Ok lb => lb | Err _ => lb end.
Definition perform_all (cs : list change) (lb : library) : library := fold_left perform cs lb.
End changes.

(** ** Rows *)

Lemma alter_known {A} (f : A -> A) (i : Z) (m : gmap Z A) x : m !! i = Some x -> alter f i m = <[i := f x]> m.
Proof.
  intros Hx. apply map_eq. intros j. rewrite lookup_alter, lookup_insert. destruct (decide (i = j)) as [<-|]; [by rewrite Hx|done].
Qed.

Lemma find_row_some p lb id r : find_row p lb = Some (id, r) -> lb_media lb !! id = Some r /\ p r = true.
Proof.
  unfold find_row. intros E. assert ((id, r) ∈ base.filter (fun kr => p kr.2 = true) (map_to_list (lb_media lb))) as Hin.
  { destruct (base.filter _ _); [done|]. injection E as ->. by left. }
  apply list_elem_of_filter in Hin as [Hp Hin%elem_of_map_to_list]. done.
Qed.

Lemma find_row_none p lb id r : find_row p lb = None -> lb_media lb !! id = Some r -> p r = false.
Proof.
  unfold find_row. intros E Hr. apply not_true_is_false. intros Hp.
  assert ((id, r) ∈ base.filter (fun kr => p kr.2 = true) (map_to_list (lb_media lb))) as Hin
    by (apply list_elem_of_filter; split; [done|by apply elem_of_map_to_list]).
  destruct (base.filter _ _); [by inversion Hin|done].
Qed.

Lemma max_below x l : x ∈ l -> x <= foldr Z.max 0 l.
Proof. induction 1 as [y l|x y l _ IH]; cbn; lia. Qed.

Lemma next_media_id_fresh lb : lb_media lb !! next_media_id lb = None.
Proof.
  destruct (lb_media lb !! next_media_id lb) as [r|] eqn:E; [exfalso|done].
  apply elem_of_map_to_list in E. apply (list_elem_of_fmap_2 fst) in E. apply max_below in E. unfold next_media_id, next_id in E. cbn in E. lia.
Qed.

(** Two rows of one instance and kind. *)
Definition alike (r s : catalog_row) : Prop :=
  Instance_ (MRef (ct_media r)) = Instance_ (MRef (ct_media s)) /\ RefKind (MRef (ct_media r)) = RefKind (MRef (ct_media s)).

Record rows_ok (ms : gmap Z catalog_row) : Prop := {
  ro_row : forall id r, ms !! id = Some r -> FpFileID (Fingerprint (ct_media r)) = RefFileID (MRef (ct_media r))
    /\ 0 < EntityID (ct_media r) /\ validUnsupportedReason (Domain.Unsupported (ct_media r)) = true;
  ro_entity : forall i j r s, ms !! i = Some r -> ms !! j = Some s -> alike r s -> EntityID (ct_media r) = EntityID (ct_media s) -> i = j;
  ro_file : forall i j r s, ms !! i = Some r -> ms !! j = Some s -> alike r s ->
    RefFileID (MRef (ct_media r)) = RefFileID (MRef (ct_media s)) -> i = j;
}.

(** The searches of a deleted media file are over. *)
Definition closed (ms : gmap Z catalog_row) (ss : gmap search_key search_row) : Prop :=
  forall k r s, ms !! k.1 = Some r -> ct_deleted r = true -> ss !! k = Some s -> state s = StateComplete /\ rerun_requested s = false.

Definition library_ok (lb : library) : Prop := rows_ok (lb_media lb) /\ closed (lb_media lb) (lb_searches lb).

Definition empty_library : library := mkLibrary ∅ ∅ [] ∅ ∅ ∅ [] ∅ [].

Lemma of_instance_spec instance kind r :
  of_instance instance kind r = true <-> Instance_ (MRef (ct_media r)) = instance /\ RefKind (MRef (ct_media r)) = kind.
Proof. unfold of_instance. by rewrite andb_true_iff, !bool_decide_eq_true. Qed.

Lemma of_entity_spec instance kind e r :
  of_entity instance kind e r = true
  <-> Instance_ (MRef (ct_media r)) = instance /\ RefKind (MRef (ct_media r)) = kind /\ EntityID (ct_media r) = e.
Proof. unfold of_entity. rewrite andb_true_iff, of_instance_spec, Z.eqb_eq. naive_solver. Qed.

Lemma of_file_spec instance kind f r :
  of_file instance kind f r = true
  <-> Instance_ (MRef (ct_media r)) = instance /\ RefKind (MRef (ct_media r)) = kind /\ RefFileID (MRef (ct_media r)) = f.
Proof. unfold of_file. rewrite andb_true_iff, of_instance_spec, Z.eqb_eq. naive_solver. Qed.

(** ** Identities *)

(** The row of a media file, when it has one: no other row has its entity or
    its file. *)
Definition identified (m : Media) (found : option (Z * catalog_row)) (lb : library) : Prop :=
  let ref := MRef m in
  match found with
  | Some (id, r) => lb_media lb !! id = Some r /\ of_entity (Instance_ ref) (RefKind ref) (EntityID m) r = true
      /\ forall j s, lb_media lb !! j = Some s -> of_file (Instance_ ref) (RefKind ref) (RefFileID ref) s = true -> rows_ok (lb_media lb) -> j = id
  | None => forall j s, lb_media lb !! j = Some s ->
      of_entity (Instance_ ref) (RefKind ref) (EntityID m) s = false /\ of_file (Instance_ ref) (RefKind ref) (RefFileID ref) s = false
  end.

Lemma find_identity m lb found : findMediaIdentityTx m lb = Ok found -> identified m found lb.
Proof.
  unfold findMediaIdentityTx, identified.
  destruct (find_row (of_entity _ _ _) lb) as [[e re]|] eqn:Ee; destruct (find_row (of_file _ _ _) lb) as [[f rf]|] eqn:Ef; [| |done|].
  - apply find_row_some in Ee as [Hre Hpe], Ef as [Hrf Hpf]. destruct (Z.eqb_spec e f) as [->|]; [|done]. intros [= <-].
    split_and!; [done..|]. intros j s Hs Hp Hok. apply (ro_file _ Hok j f s rf); [done..| |].
    + apply of_file_spec in Hp as (? & ? & ?), Hpf as (? & ? & ?). split; congruence.
    + apply of_file_spec in Hp as (? & ? & ?), Hpf as (? & ? & ?). congruence.
  - intros [= <-]. apply find_row_some in Ee as [Hre Hpe]. split_and!; [done..|]. intros j s Hs Hp _.
    by rewrite (find_row_none _ _ _ _ Ef Hs) in Hp.
  - intros [= <-] j s Hs. split; [by eapply find_row_none|by eapply find_row_none].
Qed.

Lemma settle_spec m lb found m' : settle_identity m lb = Ok (found, m') ->
  0 < EntityID m /\ validUnsupportedReason (Domain.Unsupported m) = true /\ identified m found lb
  /\ m' = match found with Some (_, r) => preserveAuthoritativeModTime m (ct_media r) | None => m end.
Proof.
  unfold settle_identity. destruct (EntityID m <=? 0) eqn:E; [done|]. destruct (validUnsupportedReason _) eqn:Ev; [|done]. cbn [negb].
  intros Hs. apply rbind_ok in Hs as (f & Hf%find_identity & [= <- <-]). split_and!; [lia|done..].
Qed.

Lemma preserved_same m old : exists time, preserveAuthoritativeModTime m old = with_mod_time time m.
Proof.
  unfold preserveAuthoritativeModTime. destruct (_ && _); [by eexists|]. exists (FpModTime (Fingerprint m)). by destruct m as [? ? ? []].
Qed.

(** ** The invariant of the rows *)

Lemma with_mod_time_keeps time m :
  MRef (with_mod_time time m) = MRef m /\ EntityID (with_mod_time time m) = EntityID m
  /\ Domain.Unsupported (with_mod_time time m) = Domain.Unsupported m.
Proof. done. Qed.

(** Writing a row of the same instance, kind, entity and a file of its own. *)
Lemma rows_write ms id r : rows_ok ms ->
  FpFileID (Fingerprint (ct_media r)) = RefFileID (MRef (ct_media r)) -> 0 < EntityID (ct_media r) ->
  validUnsupportedReason (Domain.Unsupported (ct_media r)) = true ->
  (forall j s, ms !! j = Some s -> alike r s -> EntityID (ct_media r) = EntityID (ct_media s) -> j = id) ->
  (forall j s, ms !! j = Some s -> alike r s -> RefFileID (MRef (ct_media r)) = RefFileID (MRef (ct_media s)) -> j = id) ->
  rows_ok (<[id := r]> ms).
Proof.
  intros [Hrow Hent Hfile] H1 H2 H3 He Hf.
  assert (forall x y, alike x y -> alike y x) as Hsym by (intros x y []; by split).
  split.
  - intros j s [[<- <-]|[_ Hs]]%lookup_insert_Some; [done|by eapply Hrow].
  - intros i j a b [[<- <-]|[Hi Ha]]%lookup_insert_Some [[<- <-]|[Hj Hb]]%lookup_insert_Some Hal E; [done| | |by eapply Hent].
    + symmetry. by eapply He.
    + apply (He _ _ Ha); [by apply Hsym|done].
  - intros i j a b [[<- <-]|[Hi Ha]]%lookup_insert_Some [[<- <-]|[Hj Hb]]%lookup_insert_Some Hal E; [done| | |by eapply Hfile].
    + symmetry. by eapply Hf.
    + apply (Hf _ _ Ha); [by apply Hsym|done].
Qed.

(** An UPDATE that keeps the identity of its row. *)
Lemma rows_keep ms id r r' : rows_ok ms -> ms !! id = Some r -> MRef (ct_media r') = MRef (ct_media r) ->
  EntityID (ct_media r') = EntityID (ct_media r) -> Fingerprint (ct_media r') = Fingerprint (ct_media r) ->
  Domain.Unsupported (ct_media r') = Domain.Unsupported (ct_media r) -> rows_ok (<[id := r']> ms).
Proof.
  intros Hok Hr Href He Hf Hu. destruct (ro_row _ Hok id r Hr) as (H1 & H2 & H3).
  apply rows_write; [done|by rewrite Hf, Href|by rewrite He|by rewrite Hu|..].
  - intros j s Hs [A1 A2] E. rewrite Href in A1, A2. apply (ro_entity _ Hok j id s r); [done..|by split|congruence].
  - intros j s Hs [A1 A2] E. rewrite Href in A1, A2, E. apply (ro_file _ Hok j id s r); [done..|by split|congruence].
Qed.

(** A search of the row [id] is closed when the row is deleted; other rows and
    searches are as before. *)
Lemma closed_write ms ss ss' id r : closed ms ss ->
  (ct_deleted r = true -> forall k s, k.1 = id -> ss' !! k = Some s -> state s = StateComplete /\ rerun_requested s = false) ->
  (forall k s', k.1 <> id -> ss' !! k = Some s' -> exists s, ss !! k = Some s /\ state s' = state s /\ rerun_requested s' = rerun_requested s) ->
  closed (<[id := r]> ms) ss'.
Proof.
  intros Hc Hid Hoth k x s Hx Hd Hs. destruct (decide (k.1 = id)) as [E|Hne].
  - rewrite E, lookup_insert_eq in Hx. injection Hx as <-. by eapply Hid.
  - rewrite lookup_insert_ne in Hx by done. destruct (Hoth k s Hne Hs) as (s0 & Hs0 & -> & ->). by eapply Hc.
Qed.

Lemma update_media_rows id new lb old : lb_media lb !! id = Some old -> lb_media (update_media id new lb) = <[id := new]> (lb_media lb).
Proof. unfold update_media. intros ->. cbv zeta. by destruct (_ && _), (sorts_alike _ _). Qed.

Lemma update_media_searches id new lb k s' : lb_searches (update_media id new lb) !! k = Some s' ->
  exists s, lb_searches lb !! k = Some s /\ (s' = s \/ exists o, s' = with_order o s).
Proof.
  unfold update_media. destruct (lb_media lb !! id) as [old|]; [|eauto]. cbv zeta.
  assert (forall lb0, lb_searches (if same_file_columns (ct_media old) (ct_media new) && negb (ct_deleted new) then lb0
            else with_probes (delete id (lb_probes lb0)) lb0) = lb_searches lb0) as Hp by (intros; by destruct (_ && _)).
  destruct (sorts_alike _ _); cbn [lb_searches with_searches]; rewrite Hp; cbn [lb_searches with_media]; [eauto|].
  intros (s & Hs & ->)%imap_lookup. exists s. split; [done|]. destruct (of_media id k); [right; by eexists|by left].
Qed.

Definition settled_row (m : Media) (r : catalog_row) : Prop :=
  MRef (ct_media r) = MRef m /\ EntityID (ct_media r) = EntityID m /\ Domain.Unsupported (ct_media r) = Domain.Unsupported m
  /\ FpFileID (Fingerprint (ct_media r)) = RefFileID (MRef m) /\ ct_deleted r = false.

(** What writing a settled media file does: its row is the known one or a new
    one, and the searches keep their state. *)
Lemma write_spec m lb found m' updated now lb' id changed : settle_identity m lb = Ok (found, m') ->
  write_media found m' updated now lb = (lb', id, changed) ->
  exists r, lb_media lb' = <[id := r]> (lb_media lb) /\ settled_row m r
    /\ match found with Some (j, _) => j = id | None => lb_media lb !! id = None end
    /\ (forall k s', lb_searches lb' !! k = Some s' -> exists s, lb_searches lb !! k = Some s /\ (s' = s \/ exists o, s' = with_order o s)).
Proof.
  intros (_ & _ & Hid & Em)%settle_spec. unfold write_media. destruct found as [[j r0]|]; intros [= <- <- <-].
  - destruct Hid as (Hr0 & _ & _). rewrite (update_media_rows _ _ _ _ Hr0).
    destruct (preserved_same m (ct_media r0)) as [time Ht]. rewrite Em, Ht.
    eexists. split_and!; [done|by split_and!|done|apply update_media_searches].
  - subst m'. eexists. split_and!; [done|by split_and!|apply next_media_id_fresh|eauto].
Qed.

Lemma written_ok m lb found m' updated now lb' id changed : settle_identity m lb = Ok (found, m') ->
  write_media found m' updated now lb = (lb', id, changed) -> library_ok lb -> library_ok lb'.
Proof.
  intros Hs Hw [Hok Hc]. destruct (write_spec _ _ _ _ _ _ _ _ _ Hs Hw) as (r & Hm & (R1 & R2 & R3 & R4 & R5) & Hj & Hss).
  apply settle_spec in Hs as (He & Hv & Hid & _). unfold library_ok. rewrite Hm. split.
  - apply rows_write; [done|by rewrite R1, R4|by rewrite R2|by rewrite R3|..].
    + intros j s Hj' [A1 A2] E. rewrite R1 in A1, A2. rewrite R2 in E. destruct found as [[i r0]|].
      * subst i. destruct Hid as (Hr0 & (P1 & P2 & P3)%of_entity_spec & _). apply (ro_entity _ Hok j id s r0); [done..| |congruence].
        split; congruence.
      * exfalso. destruct (Hid j s Hj') as [Hf _]. apply not_true_iff_false in Hf. apply Hf, of_entity_spec. done.
    + intros j s Hj' [A1 A2] E. rewrite R1 in A1, A2, E. destruct found as [[i r0]|].
      * subst i. destruct Hid as (_ & _ & Hf). apply (Hf j s Hj'); [|done]. by apply of_file_spec.
      * exfalso. destruct (Hid j s Hj') as [_ Hf]. apply not_true_iff_false in Hf. apply Hf, of_file_spec. done.
  - eapply closed_write; [exact Hc|by rewrite R5|]. intros k s' _ Hs'. destruct (Hss k s' Hs') as (s & ? & [->|[o ->]]); eauto.
Qed.

(** ** Writes beside the rows *)

(** The events an instance has had. *)
Definition revision (instance : text) (lb : library) : option Z := in_revision <$> lb_instances lb !! instance.

Definition no_less (a b : option Z) : Prop :=
  match a with None => True | Some x => match b with Some y => x <= y | None => False end end.

#[local] Instance no_less_preorder : PreOrder no_less.
Proof. split; [intros []; cbn; [lia|done]|intros [x|] [y|] [z|]; cbn; try done; lia]. Qed.

(** The same rows and searches, and no event forgotten. *)
Definition beside (lb lb' : library) : Prop :=
  lb_media lb' = lb_media lb /\ lb_searches lb' = lb_searches lb /\ lb_history lb' = lb_history lb
  /\ forall instance, no_less (revision instance lb) (revision instance lb').

Lemma beside_refl lb : beside lb lb.
Proof. done. Qed.

Lemma beside_trans a b c : beside a b -> beside b c -> beside a c.
Proof.
  intros (A1 & A2 & A3 & A4) (B1 & B2 & B3 & B4). split_and!; [congruence..|]. intros i. etrans; [apply A4|apply B4].
Qed.

Lemma beside_instances (lb : library) (f : gmap text instance_row) :
  (forall i, no_less (revision i lb) (revision i (with_instances f lb))) -> beside lb (with_instances f lb).
Proof. done. Qed.

Lemma revision_alter f j i lb : (forall x, in_revision x <= in_revision (f x)) ->
  no_less (revision i lb) (revision i (with_instances (alter f j (lb_instances lb)) lb)).
Proof.
  intros Hf. unfold revision. cbn [lb_instances with_instances]. rewrite lookup_alter. destruct (decide (j = i)) as [->|]; [|done].
  destruct (lb_instances lb !! i) as [x|]; cbn; [apply Hf|done].
Qed.

Lemma beside_alter f j lb : (forall x, in_revision x <= in_revision (f x)) ->
  beside lb (with_instances (alter f j (lb_instances lb)) lb).
Proof. intros Hf. apply beside_instances. intros i. by apply revision_alter. Qed.

Lemma beside_ok lb lb' : beside lb lb' -> library_ok lb -> library_ok lb'.
Proof. intros (H1 & H2 & _). unfold library_ok. by rewrite H1, H2. Qed.

Lemma follow_rename_beside found m changed lb : beside lb (follow_rename found m changed lb).
Proof. unfold follow_rename. destruct found as [[]|]; [|done]. by destruct (_ && _). Qed.

Lemma insert_event_beside m lb lb' : insert_event m lb = Some lb' -> beside lb lb'.
Proof. unfold insert_event. destruct (has_event _ _); [done|]. intros [= <-].
  set (lb1 := with_events _ lb). apply (beside_trans _ lb1); [done|]. apply (beside_alter _ _ lb1). intros x. cbn. lia.
Qed.

Lemma upsert_spec m at_ lb lb' id changed : upsertMediaTx m at_ lb = Ok (lb', id, changed) ->
  exists found m' lb1, settle_identity m lb = Ok (found, m')
    /\ write_media found m' (fun updated => Z.max updated at_) at_ lb = (lb1, id, changed)
    /\ lb' = follow_rename found m' changed lb1.
Proof.
  unfold upsertMediaTx. intros E. apply rbind_ok in E as ([found m'] & Hs & E). cbn [fst snd] in E.
  destruct (write_media _ _ _ _ _) as [[lb1 i] c] eqn:Ew. injection E as <- <- <-. by exists found, m', lb1.
Qed.

(** Scheduling a search of a row that is not deleted. *)
Lemma schedule_languages_spec id languages at_ p unsupported lb lb' :
  schedule_languages id languages at_ p unsupported lb = Ok lb' ->
  lb_media lb' = lb_media lb /\ lb_history lb' = lb_history lb
  /\ forall k, k.1 <> id -> lb_searches lb' !! k = lb_searches lb !! k.
Proof.
  revert lb. induction languages as [|l languages IH]; intros lb; cbn [schedule_languages]; [by intros [= <-]|].
  destruct (scheduleMediaSearchTx _ _ _ _ _ _) as [db|] eqn:E; [|done]. intros (Hm & Hh & Hs)%IH. split_and!; [done..|].
  intros k Hk. rewrite Hs by done. cbn [lb_searches with_searches]. unfold scheduleMediaSearchTx in E.
  destruct (negb _); [done|]. destruct (negb _); [done|].
  case_bool_decide; injection E as <-; cbn; (rewrite lookup_insert_ne; [done|]; intros <-; by apply Hk).
Qed.

Lemma schedule_ok id languages at_ p unsupported lb lb' r : library_ok lb -> lb_media lb !! id = Some r -> ct_deleted r = false ->
  schedule_languages id languages at_ p unsupported lb = Ok lb' -> library_ok lb'.
Proof.
  intros [Hok Hc] Hr Hd (Hm & _ & Hs)%schedule_languages_spec. split; [by rewrite Hm|].
  intros k x s Hx Hdx Hsx. rewrite Hm in Hx. destruct (decide (k.1 = id)) as [E|Hne]; [rewrite E in Hx; congruence|].
  rewrite (Hs k Hne) in Hsx. by eapply Hc.
Qed.

(** ** What a mutation does *)

(** An import or rename that is applied. *)
Definition imported (m : MediaEventMutation) (lb lb' : library) : Prop :=
  exists lb1 id changed lb2 lb3,
    upsertMediaTx (MuMedia m) (MuAt m) lb = Ok (lb1, id, changed)
    /\ lb2 = (if changed then invalidateInstallationTx id (with_candidates (without_media id (lb_candidates lb1)) lb1) else lb1)
    /\ (lb3 = lb2 \/ schedule_languages id (MuLanguages m) (MuAt m) (MuPriority m) (Domain.Unsupported (MuMedia m)) lb2 = Ok lb3)
    /\ lb' = link_event (MuEventID m) id None None lb3.

Lemma apply_import_spec m lb lb' b : apply_import m lb = Ok (lb', b) ->
  MRef (MuMedia m) = MuRef m
  /\ (deletedAfterEventTx m lb = true /\ b = false /\ lb' = lb \/ deletedAfterEventTx m lb = false /\ b = true /\ imported m lb lb').
Proof.
  unfold apply_import. destruct (bool_decide _) eqn:Eb; [|done]. apply bool_decide_eq_true in Eb. cbn [negb].
  destruct (deletedAfterEventTx m lb); [intros [= <- <-]; by auto|].
  intros E. split; [done|right]. apply rbind_ok in E as ([[lb1 id] changed] & Hu & E).
  set (lb2 := if changed then _ else lb1) in E. apply rbind_ok in E as (lb3 & H3 & [= <- <-]). split_and!; [done..|].
  exists lb1, id, changed, lb2, lb3. split_and!; [done..| |done]. destruct (_ && _); [injection H3 as <-; by left|by right].
Qed.

(** What an applied or ignored mutation did after recording its event. *)
Definition mutated (series : MediaEventMutation -> library -> result LibraryError library) (m : MediaEventMutation) (lb0 lb' : library) (b : bool)
    : Prop :=
  (brings m = true /\ EntityID (MuMedia m) = MuEntityID m /\ MRef (MuMedia m) = MuRef m
   /\ (deletedAfterEventTx m lb0 = true /\ b = false /\ lb' = lb0 \/ deletedAfterEventTx m lb0 = false /\ b = true /\ imported m lb0 lb'))
  \/ (deletes m = true /\ series m lb0 = Ok lb' /\ b = true)
  \/ (deletes m = true /\ lb' = apply_delete m lb0 /\ b = true).

Lemma apply_mutation_spec series m lb lb' b : apply_mutation series m lb = Ok (lb', b) ->
  (has_event (MuEventID m) lb = true /\ b = false /\ lb' = lb) \/ exists lb0, insert_event m lb = Some lb0 /\ mutated series m lb0 lb' b.
Proof.
  unfold apply_mutation. intros E. apply rbind_ok in E as ([] & Hv & E). destruct (negb _); [done|].
  destruct (insert_event m lb) as [lb0|] eqn:Ei.
  2: { injection E as <- <-. left. unfold insert_event in Ei. by destruct (has_event _ _). }
  right. exists lb0. split; [done|]. unfold mutated. destruct (brings m) eqn:Eb.
  - left. apply apply_import_spec in E as [Href E]. split_and!; [done| |done..].
    unfold validateMediaMutation in Hv. rewrite Eb in Hv. destruct (_ || is_zero _); [done|]. destruct (_ || _) eqn:Ev; [done|].
    by apply orb_false_iff in Ev as [[_ Ev%negb_false_iff%Z.eqb_eq]%orb_false_iff _].
  - right. destruct (deletes m); [|done]. destruct (0 <? MuSeriesID m).
    + left. apply rbind_ok in E as (lb1 & Hs & [= <- <-]). done.
    + right. by injection E as <- <-.
Qed.

Lemma deletes_brings m : deletes m = true -> brings m = false.
Proof. unfold deletes, brings. intros ->%bool_decide_eq_true. done. Qed.

(** ** Predicates every library transaction preserves *)

Record preserved (ok : MediaEventMutation -> library -> Prop) (P : library -> Prop) : Prop := {
  pr_beside : forall lb lb', beside lb lb' -> P lb -> P lb';
  pr_ok : forall m lb lb', beside lb lb' -> ok m lb -> ok m lb';
  pr_import : forall m lb lb', ok m lb -> EntityID (MuMedia m) = MuEntityID m -> MRef (MuMedia m) = MuRef m ->
    deletedAfterEventTx m lb = false -> imported m lb lb' -> P lb -> P lb';
  pr_delete : forall m lb, P lb -> P (apply_delete m lb);
  pr_backfill : forall m id r lb, lb_media lb !! id = Some r -> P lb -> P (with_media (<[id := backfilled m r]> (lb_media lb)) lb);
  pr_order : forall (o : search_key -> search_row -> QueueOrder) lb, P lb ->
    P (with_searches (map_imap (fun k r => Some (with_order (o k r) r)) (lb_searches lb)) lb);
}.

Section preservation.
Context (ok : MediaEventMutation -> library -> Prop) (P : library -> Prop) (HP : preserved ok P).

Lemma mutated_preserves series m lb0 lb' b :
  (brings m = true -> ok m lb0) -> (deletes m = true -> forall lb1, series m lb0 = Ok lb1 -> P lb1) -> mutated series m lb0 lb' b -> P lb0 -> P lb'.
Proof.
  intros Hok Hseries [(Hb & He & Href & [(_ & _ & ->)|(Hd & _ & Himp)])|[(Hdel & Hs & _)|(_ & -> & _)]] Hp; [done| | |].
  - eapply (pr_import _ _ HP m lb0); [by apply Hok|done..].
  - by eapply Hseries.
  - by apply (pr_delete _ _ HP).
Qed.

Lemma apply_mutation_preserves series m lb lb' b :
  (brings m = true -> ok m lb) -> (forall lb0 lb1, P lb0 -> series m lb0 = Ok lb1 -> P lb1) ->
  apply_mutation series m lb = Ok (lb', b) -> P lb -> P lb'.
Proof.
  intros Hok Hseries [(_ & _ & ->)|(lb0 & Hi%insert_event_beside & Hm)]%apply_mutation_spec Hp; [done|].
  pose proof (pr_beside _ _ HP _ _ Hi Hp) as Hp0. eapply mutated_preserves; [| |exact Hm|done].
  - intros Hb. eapply (pr_ok _ _ HP); [exact Hi|by apply Hok].
  - intros _ lb1. by apply Hseries.
Qed.

Lemma apply_children_preserves m entities lb lb' : brings m = false -> P lb -> apply_children m entities lb = Ok lb' -> P lb'.
Proof.
  intros Hb. revert lb. induction entities as [|e entities IH]; intros lb Hp; cbn [apply_children]; [by intros [= <-]|].
  intros E. apply rbind_ok in E as ([lb1 b] & E1 & E). apply (IH lb1); [|exact E].
  eapply (apply_mutation_preserves (fun _ lb => Ok lb)); [|by intros lb0 lb2 H0 [= <-]|exact E1|exact Hp].
  change (brings (series_child m e)) with (brings m). by rewrite Hb.
Qed.

Lemma apply_preserves m lb lb' b : (brings m = true -> ok m lb) -> applyMediaMutationTx m lb = Ok (lb', b) -> P lb -> P lb'.
Proof.
  intros Hok E Hp. destruct (brings m) eqn:Hb.
  - unfold applyMediaMutationTx, apply_mutation in E. apply rbind_ok in E as ([] & Hv & E). destruct (negb _) eqn:Ep; [done|].
    eapply (apply_mutation_preserves (fun _ lb => Ok lb) m lb lb' b); [intros _; by apply Hok|by intros lb0 lb2 H0 [= <-]| |exact Hp].
    unfold apply_mutation. rewrite Hv. cbn [rbind]. rewrite Ep, Hb. by rewrite Hb in E.
  - eapply apply_mutation_preserves; [by rewrite Hb| |exact E|exact Hp]. intros lb0 lb1 Hp0. by apply apply_children_preserves.
Qed.

Lemma bound_events_beside lb : beside lb (bound_events lb).
Proof. done. Qed.

Definition offered_ok (m : MediaEventMutation) : Prop := brings m = true -> forall lb, P lb -> ok m lb.

Lemma event_preserves now m lb lb' b : offered_ok (with_priority SearchPriorityImport (dated now m)) ->
  ApplyMediaEvent now m lb = Ok (lb', b) -> P lb -> P lb'.
Proof.
  unfold ApplyMediaEvent. intros Hok E Hp. apply rbind_ok in E as ([lb1 b1] & E1 & E). cbn [fst snd] in E.
  destruct b1; injection E as <- <-; [|done]. eapply (pr_beside _ _ HP); [apply bound_events_beside|].
  eapply apply_preserves; [intros Hb; by apply Hok|exact E1|exact Hp].
Qed.

Lemma commit_mutations_preserve instance retain mutations lb lb' :
  Forall (fun m => offered_ok (with_priority SearchPriorityMissing m)) mutations ->
  commit_mutations instance retain mutations lb = Ok lb' -> P lb -> P lb'.
Proof.
  intros Hall. revert lb. induction Hall as [|m mutations Hm _ IH]; intros lb; cbn [commit_mutations]; [by intros [= <-]|].
  intros E Hp. apply rbind_ok in E as (lb1 & E1 & E). apply (IH lb1 E). clear IH E. unfold commit_mutation in E1.
  destruct (negb _); [done|]. set (q := with_priority _ m) in *. destruct retain.
  - destruct (existsb _ _); [by injection E1 as <-|]. apply rbind_ok in E1 as ([lb2 b] & E2 & [= <-]).
    assert (P (with_replays ((MuEventID q, instance) :: lb_replays lb) lb)) as Hp' by (by apply (pr_beside _ _ HP lb)).
    eapply apply_preserves; [intros Hb; by apply Hm|exact E2|exact Hp'].
  - destruct (bool_decide _); [by injection E1 as <-|]. apply rbind_ok in E1 as ([lb2 b] & E2 & [= <-]).
    eapply apply_preserves; [intros Hb; by apply Hm|exact E2|exact Hp].
Qed.

Lemma page_preserves instance expected cursor mutations lb lb' :
  Forall (fun m => offered_ok (with_priority SearchPriorityMissing m)) mutations ->
  CommitReconciliation instance expected cursor mutations lb = Ok lb' -> P lb -> P lb'.
Proof.
  unfold CommitReconciliation. destruct (GetReconciliationState instance lb) as [current|]; [|done]. destruct (_ || _); [done|].
  intros Hall E Hp. apply rbind_ok in E as (lb1 & E1 & E). apply commit_mutations_preserve in E1; [|done..].
  assert (P (bound_events lb1)) as Hp2 by by apply (pr_beside _ _ HP lb1).
  destruct (cursor =? _); [by injection E as <-|]. destruct (bool_decide _); [|done]. injection E as <-.
  set (lb2 := with_replays _ _). apply (pr_beside _ _ HP lb2); [apply (beside_alter _ _ lb2); cbn; lia|by apply (pr_beside _ _ HP lb1)].
Qed.

Section changes.
Context `{Unicode} `{LanguageTags} (sha256_hex : list N -> text).

(** Media that discovery adds had no row. *)
Context (Hfresh : forall instance languages at_ m lb, findMediaIdentityTx m lb = Ok None -> P lb ->
  ok (discovery_mutation sha256_hex instance languages at_ m) lb).

Lemma discover_preserves instance kind languages at_ files entities items lb lb' :
  discover sha256_hex instance kind languages at_ files entities items lb = Ok lb' -> P lb -> P lb'.
Proof.
  revert files entities lb. induction items as [|m items IH]; intros files entities lb; cbn [discover]; [by intros [= <-]|].
  destruct (_ || _); [done|]. destruct (match files !! _ with Some _ => _ | None => _ end); [done|].
  destruct (match entities !! _ with Some _ => _ | None => _ end); [done|]. intros E Hp. apply rbind_ok in E as (found & Hf & E).
  destruct found as [[id r]|].
  - apply IH in E; [done|]. apply find_identity in Hf as (Hr & _). rewrite (alter_known _ _ _ _ Hr). by apply (pr_backfill _ _ HP).
  - apply rbind_ok in E as ([lb1 b] & E1 & E). cbn [fst snd] in E. destruct b; [|done]. apply IH in E; [done|].
    eapply apply_preserves; [intros _; by apply Hfresh|exact E1|exact Hp].
Qed.

Lemma discovery_preserves instance scope revision items languages at_ lb lb' :
  commitLibraryDiscovery sha256_hex instance scope revision items languages at_ lb = Ok lb' -> P lb -> P lb'.
Proof.
  unfold commitLibraryDiscovery. destruct (_ || _); [done|]. destruct (negb _); [done|].
  destruct (lb_instances lb !! instance) as [i|]; [|done]. destruct (negb _); [done|]. intros E Hp.
  apply rbind_ok in E as (kind & _ & E). apply rbind_ok in E as (lb1 & E1 & [= <-]). apply discover_preserves in E1; [|done].
  assert (P (bound_events lb1)) as Hp1 by by apply (pr_beside _ _ HP lb1). case_bool_decide; [done|].
  apply (pr_beside _ _ HP (bound_events lb1)); [apply (beside_alter _ _ (bound_events lb1)); cbn; lia|done].
Qed.

(** A change whose mutations are all right. *)
Definition admissible (c : change) : Prop :=
  match c with
  | ApplyEvent now m => offered_ok (with_priority SearchPriorityImport (dated now m))
  | CommitPage _ _ _ mutations => Forall (fun m => offered_ok (with_priority SearchPriorityMissing m)) mutations
  | ManualUpsert m now => forall lb r, UpsertMedia m now lb = Ok r -> P lb -> P r.1.1
  | _ => True
  end.

Lemma perform_preserves c lb : admissible c -> P lb -> P (perform sha256_hex lb c).
Proof.
  unfold perform. intros Hc Hp. destruct (run_change sha256_hex c lb) as [lb'|] eqn:E; [|done].
  destruct c as [now m|instance expected cursor mutations|instance scope rev items languages at_|m now|name ty url now|priorities|]; cbn [run_change] in E.
  - apply rbind_ok in E as ([lb1 b] & E & [= <-]). by eapply event_preserves.
  - by eapply page_preserves.
  - by eapply discovery_preserves.
  - apply rbind_ok in E as (r & E & [= <-]). by eapply Hc.
  - injection E as <-. apply (pr_beside _ _ HP lb); [|done]. apply beside_instances. intros i. unfold revision. cbn [lb_instances with_instances].
    rewrite lookup_insert. destruct (decide (name = i)) as [->|]; [|done]. destruct (lb_instances lb !! i); cbn; [lia|done].
  - injection E as <-. unfold SetInstanceQueuePriorities. set (lb1 := with_instances _ lb).
    assert (P lb1) as Hp1.
    { apply (pr_beside _ _ HP lb); [|done]. apply beside_instances. intros i. unfold revision. cbn [lb_instances with_instances].
      rewrite map_lookup_imap. destruct (lb_instances lb !! i); cbn; [lia|done]. }
    set (o := fun (k : search_key) (r : search_row) => order_key (reranked lb1 k r)).
    assert (map_imap (fun k r => Some (reranked lb1 k r)) (lb_searches lb1)
            = map_imap (fun k r => Some (with_order (o k r) r)) (lb_searches lb1)) as ->; [|by apply (pr_order _ _ HP)].
    apply map_imap_ext. intros k. destruct (lb_searches lb1 !! k) as [r|]; [|done]. cbn. do 2 f_equal. unfold o, reranked.
    destruct (lb_media lb1 !! k.1); [done|]. by destruct r.
  - unfold RecordCandidates in E. destruct (existsb _ _); [done|]. destruct (_ && _); [done|]. injection E as <-. by apply (pr_beside _ _ HP lb).
Qed.

Lemma perform_all_preserves cs lb : Forall admissible cs -> P lb -> P (perform_all sha256_hex cs lb).
Proof.
  unfold perform_all. intros Hall. revert lb. induction Hall as [|c cs Hc _ IH]; intros lb Hp; [done|]. cbn [fold_left].
  by apply IH, perform_preserves.
Qed.
End changes.
End preservation.

(** ** The invariant *)

Lemma imported_ok m lb lb' : imported m lb lb' -> library_ok lb -> library_ok lb'.
Proof.
  intros (lb1 & id & changed & lb2 & lb3 & (found & m' & lb0 & Hs & Hw & ->)%upsert_spec & -> & H3 & ->) Hok.
  pose proof (written_ok _ _ _ _ _ _ _ _ _ Hs Hw Hok) as Hok0.
  destruct (write_spec _ _ _ _ _ _ _ _ _ Hs Hw) as (r & Hm & (_ & _ & _ & _ & Hd) & _ & _).
  set (lb1 := follow_rename found m' changed lb0) in *. set (lb2 := if changed then _ else lb1) in *.
  assert (beside lb0 lb2) as Hb.
  { destruct (follow_rename_beside found m' changed lb0) as (B1 & B2 & B3). subst lb2. by destruct changed. }
  apply (beside_ok lb3); [done|]. destruct H3 as [->|H3]; [by eapply beside_ok|].
  eapply schedule_ok; [by eapply beside_ok| |exact Hd|exact H3]. destruct Hb as (-> & _ & _). by rewrite Hm, lookup_insert_eq.
Qed.

Lemma apply_delete_spec m lb : beside lb (apply_delete m lb) \/ exists id r at_ entityAt,
  lb_media lb !! id = Some r
  /\ beside (cancel_searches id (update_media id (deleted_row at_ entityAt r) lb)) (apply_delete m lb).
Proof.
  unfold apply_delete. set (found := if 0 <? _ then _ else _). destruct found as [[id r]|] eqn:E; [right|by left].
  exists id, r, (MuAt m), (if RefFileID (MuRef m) <=? 0 then MuAt m else 0). split; [|done].
  unfold found in E. destruct (0 <? _); by apply find_row_some in E as [? _].
Qed.

Lemma apply_delete_ok m lb : library_ok lb -> library_ok (apply_delete m lb).
Proof.
  intros Hok. destruct (apply_delete_spec m lb) as [Hb|(id & r & at_ & ea & Hr & Hb)]; [by eapply beside_ok|].
  eapply beside_ok; [exact Hb|]. destruct Hok as [Hok Hc]. split; cbn [lb_media cancel_searches with_searches]; rewrite (update_media_rows _ _ _ _ Hr).
  - by eapply rows_keep.
  - eapply closed_write; [exact Hc|..].
    + intros _ k s Hk (s0 & _ & ->)%imap_lookup. unfold of_media. by rewrite Hk, Z.eqb_refl.
    + intros k s' Hk (s0 & Hs0 & ->)%imap_lookup. unfold of_media. rewrite (proj2 (Z.eqb_neq _ _) Hk).
      destruct (update_media_searches _ _ _ _ _ Hs0) as (s & ? & [->|[o ->]]); eauto.
Qed.

Lemma ok_preserved : preserved (fun _ _ => True) library_ok.
Proof.
  split; [by apply beside_ok|done|by intros; eapply imported_ok|by intros; apply apply_delete_ok|..].
  - intros m id r lb Hr [Hok Hc]. split; cbn [lb_media with_media lb_searches].
    + eapply rows_keep; [done|exact Hr|..]; unfold backfilled; cbn; case_bool_decide; by destruct (_ && _).
    + eapply closed_write; [exact Hc| |eauto]. intros Hd k s Hk Hs. apply (Hc k r s); [by rewrite Hk|exact Hd|exact Hs].
  - intros o lb [Hok Hc]. split; [done|]. intros k r s Hr Hd (s0 & Hs & ->)%imap_lookup. by apply (Hc k r s0 Hr Hd Hs).
Qed.

Lemma manual_spec m now lb lb' id moved : UpsertMedia m now lb = Ok (lb', id, moved) ->
  exists found m' lb1 changed, settle_identity m lb = Ok (found, m') /\ write_media found m' (fun _ => now) now lb = (lb1, id, changed)
    /\ beside lb1 lb'.
Proof.
  unfold UpsertMedia. intros E. apply rbind_ok in E as ([found m'] & Hs & E). cbn [fst snd] in E.
  destruct (write_media _ _ _ _ _) as [[lb1 i] c] eqn:Ew. injection E as <- <- <-. exists found, m', lb1, c. split_and!; [done..|].
  destruct (follow_rename_beside found m' c lb1) as (B1 & B2 & B3). by destruct c.
Qed.

(** ** The queue *)

Section queue.
Context `{Unicode} (sha : list N -> text) (base : DB).

Abbreviation reaches lb := (rtc (queue_step sha) base (queue_of lb)).

Lemma other_media db db' : searches db' = searches db -> history db' = history db -> queue_step sha db db'.
Proof. destruct db', db. cbn. intros -> ->. apply (step_media sha (mkDB _ _ _)). Qed.

(** Another media table over the same searches. *)
Lemma reach_beside lb lb' : lb_searches lb' = lb_searches lb -> lb_history lb' = lb_history lb -> reaches lb -> reaches lb'.
Proof.
  intros Hs Hh Hr. eapply rtc_r; [exact Hr|by apply other_media].
Qed.

Lemma reach_order (o : search_key -> search_row -> QueueOrder) lb :
  reaches lb -> reaches (with_searches (map_imap (fun k r => Some (with_order (o k r) r)) (lb_searches lb)) lb).
Proof.
  intros Hr. eapply rtc_r; [eapply rtc_r; [exact Hr|apply (step_order sha _ o)]|by apply other_media].
Qed.

Lemma reach_update id new lb : reaches lb -> reaches (update_media id new lb).
Proof.
  intros Hr. unfold update_media. destruct (lb_media lb !! id) as [old|]; [|done]. cbv zeta.
  set (lb1 := if same_file_columns _ _ && _ then _ else _).
  assert (reaches lb1) as Hr1 by (apply (reach_beside lb); [by subst lb1; destruct (_ && _)..|done]).
  destruct (sorts_alike _ _); [done|].
  set (o := fun (k : search_key) (r : search_row) => order_key (if of_media id k then reordered (ct_media new) r else r)).
  assert (map_imap (fun k r => Some (if of_media id k then reordered (ct_media new) r else r)) (lb_searches lb1)
          = map_imap (fun k r => Some (with_order (o k r) r)) (lb_searches lb1)) as ->; [|by apply reach_order].
  apply map_imap_ext. intros k. destruct (lb_searches lb1 !! k) as [r|]; [|done]. cbn. do 2 f_equal. unfold o.
  destruct (of_media id k); [done|]. by destruct r.
Qed.

Lemma reach_write found m updated now lb lb' id changed :
  write_media found m updated now lb = (lb', id, changed) -> reaches lb -> reaches lb'.
Proof.
  unfold write_media. destruct found as [[j r]|]; intros [= <- <- <-]; [apply reach_update|by apply reach_beside].
Qed.

Lemma reach_schedule id languages at_ p unsupported lb lb' :
  schedule_languages id languages at_ p unsupported lb = Ok lb' -> reaches lb -> reaches lb'.
Proof.
  revert lb. induction languages as [|l languages IH]; intros lb; cbn [schedule_languages]; [by intros [= <-]|].
  destruct (scheduleMediaSearchTx _ _ _ _ _ _) as [db|] eqn:E; [|done]. intros E' Hr. apply (IH _ E'). clear IH E'.
  eapply rtc_r; [eapply rtc_r; [exact Hr|by eapply step_schedule]|].
  assert (history db = lb_history lb) as Hh.
  { unfold scheduleMediaSearchTx in E. destruct (negb _); [done|]. destruct (negb _); [done|]. by case_bool_decide; injection E as <-. }
  by apply other_media.
Qed.

Lemma reach_delete m lb : reaches lb -> reaches (apply_delete m lb).
Proof.
  intros Hr. destruct (apply_delete_spec m lb) as [(_ & Hs & Hh & _)|(id & r & at_ & ea & _ & (_ & Hs & Hh & _))]; [by apply (reach_beside lb)|].
  apply (reach_beside (cancel_searches id (update_media id (deleted_row at_ ea r) lb))); [done..|].
  eapply rtc_r; [eapply rtc_r; [by apply reach_update|apply (step_cancel sha _ id)]|by apply other_media].
Qed.

Lemma reach_imported m lb lb' : imported m lb lb' -> reaches lb -> reaches lb'.
Proof.
  intros (lb1 & id & changed & lb2 & lb3 & (found & m' & lb0 & _ & Hw & ->)%upsert_spec & -> & H3 & ->) Hr.
  apply (reach_beside lb3); [done..|]. eapply reach_write in Hr; [|exact Hw].
  set (lb2 := if changed then _ else _) in *.
  assert (reaches lb2) as Hr2.
  { destruct (follow_rename_beside found m' changed lb0) as (_ & B2 & B3 & _). apply (reach_beside lb0); [by subst lb2; destruct changed..|done]. }
  destruct H3 as [->|H3]; [done|by eapply reach_schedule].
Qed.

Lemma reach_preserved : preserved (fun _ _ => True) (fun lb => reaches lb).
Proof.
  split; [intros lb lb' (_ & Hs & Hh & _); by apply reach_beside|done|by intros; eapply reach_imported|by intros; apply reach_delete
    |by intros; apply (reach_beside lb)|by intros; apply reach_order].
Qed.
End queue.

Section reachable.
Context `{Unicode} `{LanguageTags} (sha sha256_hex : list N -> text).

Lemma perform_reaches base cs lb : rtc (queue_step sha) base (queue_of lb) ->
  rtc (queue_step sha) base (queue_of (perform_all sha256_hex cs lb)).
Proof.
  apply (perform_all_preserves _ _ (reach_preserved sha base)); [done|]. apply Forall_forall. intros c _.
  destruct c; cbn; try done; [by apply Forall_forall; intros|].
  intros lb0 [[lb1 id] moved] (found & m' & lb2 & changed & _ & Hw & (_ & Hs & Hh & _))%manual_spec Hr. cbn.
  apply (reach_beside sha base lb2); [done..|]. by eapply reach_write.
Qed.

Lemma perform_ok cs lb : library_ok lb -> library_ok (perform_all sha256_hex cs lb).
Proof.
  apply (perform_all_preserves _ _ ok_preserved); [done|]. apply Forall_forall. intros c _.
  destruct c; cbn; try done; [by apply Forall_forall; intros|].
  intros lb0 [[lb1 id] moved] (found & m' & lb2 & changed & Hs & Hw & Hb)%manual_spec Hok. cbn.
  eapply beside_ok; [exact Hb|]. by eapply written_ok.
Qed.
End reachable.

(** ** The fence *)

(** The tables that follow no media row. *)
Definition tables (lb : library) : gmap text instance_row * list (text * text) := (lb_instances lb, lb_replays lb).

Lemma update_media_tables id new lb : tables (update_media id new lb) = tables lb.
Proof. unfold update_media. destruct (lb_media lb !! id) as [old|]; [|done]. cbv zeta. by destruct (_ && _), (sorts_alike _ _). Qed.

Lemma schedule_languages_tables id languages at_ p unsupported lb lb' :
  schedule_languages id languages at_ p unsupported lb = Ok lb' -> tables lb' = tables lb.
Proof.
  revert lb. induction languages as [|l languages IH]; intros lb; cbn [schedule_languages]; [by intros [= <-]|].
  destruct (scheduleMediaSearchTx _ _ _ _ _ _) as [db|]; [|done]. by intros ->%IH.
Qed.

Lemma write_tables found m updated now lb lb' id changed :
  write_media found m updated now lb = (lb', id, changed) -> tables lb' = tables lb.
Proof. unfold write_media. destruct found as [[j r]|]; intros [= <- <- <-]; [apply update_media_tables|done]. Qed.

Lemma imported_tables m lb lb' : imported m lb lb' -> tables lb' = tables lb.
Proof.
  intros (lb1 & id & changed & lb2 & lb3 & (found & m' & lb0 & _ & Hw%write_tables & ->)%upsert_spec & -> & H3 & ->).
  change (tables (link_event (MuEventID m) id None None lb3)) with (tables lb3).
  assert (tables (follow_rename found m' changed lb0) = tables lb) as E1.
  { rewrite <- Hw. unfold follow_rename. destruct found as [[]|]; [|done]. by destruct (_ && _). }
  destruct H3 as [->|H3%schedule_languages_tables]; [|rewrite H3]; by destruct changed.
Qed.

Lemma apply_delete_tables m lb : tables (apply_delete m lb) = tables lb.
Proof. unfold apply_delete. destruct (if 0 <? _ then _ else _) as [[id r]|]; [|done]. apply (update_media_tables id _ lb). Qed.

Lemma tables_revision instance lb lb' : tables lb' = tables lb -> revision instance lb' = revision instance lb.
Proof. unfold tables, revision. by intros [= -> _]. Qed.

(** At least [n] events of the instance. *)
Lemma revision_preserved instance n : preserved (fun _ _ => True) (fun lb => no_less (Some n) (revision instance lb)).
Proof.
  split; [intros lb lb' (_ & _ & _ & Hr) Hn; etrans; [exact Hn|apply Hr]|done|..].
  - intros m lb lb' _ _ _ _ Hi%imported_tables. by rewrite (tables_revision _ _ _ Hi).
  - intros m lb. by rewrite (tables_revision _ _ _ (apply_delete_tables m lb)).
  - done.
  - done.
Qed.

Lemma apply_raises m lb lb' n : applyMediaMutationTx m lb = Ok (lb', true) -> revision (Instance_ (MuRef m)) lb = Some n ->
  no_less (Some (n + 1)) (revision (Instance_ (MuRef m)) lb').
Proof.
  set (i := Instance_ (MuRef m)). intros [(_ & ? & _)|(lb0 & Hi & Hm)]%apply_mutation_spec Hn; [done|].
  assert (no_less (Some (n + 1)) (revision i lb0)) as H0.
  { unfold insert_event in Hi. destruct (has_event _ _); [done|]. injection Hi as <-. fold i. revert Hn. unfold revision. cbn [lb_instances with_instances].
    rewrite lookup_alter_eq. cbn [lb_instances with_events]. destruct (lb_instances lb !! i); [|done]. intros [= <-]. cbn. lia. }
  eapply (mutated_preserves _ _ (revision_preserved i (n + 1))); [done| |exact Hm|exact H0].
  intros Hd lb1 Hs. eapply (apply_children_preserves _ _ (revision_preserved i (n + 1))); [by apply deletes_brings|exact H0|exact Hs].
Qed.

Lemma event_raises now m lb lb' n : ApplyMediaEvent now m lb = Ok (lb', true) -> revision (Instance_ (MuRef m)) lb = Some n ->
  no_less (Some (n + 1)) (revision (Instance_ (MuRef m)) lb').
Proof.
  unfold ApplyMediaEvent. set (q := with_priority _ (dated now m)). intros E Hi. apply rbind_ok in E as ([lb1 b] & E1 & E). cbn [fst snd] in E.
  destruct b; [|done]. injection E as <-.
  assert (MuRef q = MuRef m) as Hq by (unfold q, with_priority, dated; by destruct (is_zero _), (_ =? 0)).
  rewrite <- Hq in *. change (revision (Instance_ (MuRef q)) (bound_events lb1)) with (revision (Instance_ (MuRef q)) lb1). by eapply apply_raises.
Qed.

Section fence.
Context `{Unicode} `{LanguageTags} (sha256_hex : list N -> text).

Lemma perform_revision instance cs lb n : no_less (Some n) (revision instance lb) -> no_less (Some n) (revision instance (perform_all sha256_hex cs lb)).
Proof.
  apply (perform_all_preserves _ _ (revision_preserved instance n)); [done|]. apply Forall_forall. intros c _.
  destruct c; cbn -[no_less]; try done; [by apply Forall_forall; intros|].
  intros lb0 [[lb1 id] moved] (found & m' & lb2 & changed & _ & Hw & (_ & _ & _ & Hr))%manual_spec Hn. cbn -[no_less].
  etrans; [exact Hn|]. etrans; [|apply Hr]. by rewrite (tables_revision _ _ _ (write_tables _ _ _ _ _ _ _ _ Hw)).
Qed.

(** C8. A reader of Arr history or of a whole library that is overtaken commits
    nothing. Whatever transactions run after the reader took its state, once
    one of them applied an event of the same instance, the page of history and
    the enumeration the reader brings are refused, whatever they hold. *)
Theorem overtaken_readers_are_refused instance lb s before now m lb1 after cursor mutations scope items languages at_ :
  GetReconciliationState instance lb = Some s -> Instance_ (MuRef m) = instance ->
  ApplyMediaEvent now m (perform_all sha256_hex before lb) = Ok (lb1, true) ->
  let current := perform_all sha256_hex after lb1 in
  CommitReconciliation instance s cursor mutations current = Err LStale
  /\ exists e, commitLibraryDiscovery sha256_hex instance scope (Revision s) items languages at_ current = Err e.
Proof.
  intros Hs Hi He current.
  assert (revision instance lb = Some (Revision s)) as Hr.
  { unfold revision. unfold GetReconciliationState in Hs. destruct (lb_instances lb !! instance); [|done]. by injection Hs as <-. }
  assert (no_less (Some (Revision s)) (revision instance (perform_all sha256_hex before lb))) as Hb by (apply perform_revision; by rewrite Hr).
  destruct (revision instance (perform_all sha256_hex before lb)) as [n|] eqn:En; [|done]. rewrite <- Hi in En.
  pose proof (event_raises _ _ _ _ _ He En) as H1. rewrite Hi in H1. apply (perform_revision instance after) in H1. fold current in H1.
  unfold CommitReconciliation, commitLibraryDiscovery, GetReconciliationState. unfold revision in H1.
  destruct (lb_instances current !! instance) as [i|]; [|done]. cbn in *.
  assert ((in_revision i =? Revision s) = false) as -> by lia. split; [done|]. cbn [negb].
  destruct (_ || _); [by eexists|]. destruct (negb _); by eexists.
Qed.
End fence.

(** ** Deletions *)

Section deletion.
Context (instance : text) (kind : MediaKind) (entity : Z) (T : instant).

Abbreviation the_entity := (of_entity instance kind entity).

(** The movie or episode was removed at [T] or later. *)
Definition gone (lb : library) : Prop :=
  exists id r, lb_media lb !! id = Some r /\ the_entity r = true /\ ct_deleted r = true /\ T <= ct_entity_deleted_at r.

Definition about (m : MediaEventMutation) : Prop := Instance_ (MuRef m) = instance /\ RefKind (MuRef m) = kind /\ MuEntityID m = entity.

(** Not an import of the entity after [T]. *)
Definition not_later (m : MediaEventMutation) (lb : library) : Prop :=
  (about m -> MuAt m < T) \/ forall id r, lb_media lb !! id = Some r -> the_entity r = false.

Lemma gone_elsewhere lb lb' (j : Z) r' : gone lb -> lb_media lb' = <[j := r']> (lb_media lb) ->
  (forall r, lb_media lb !! j = Some r -> the_entity r = true -> ct_deleted r = true -> T <= ct_entity_deleted_at r ->
     the_entity r' = true /\ ct_deleted r' = true /\ T <= ct_entity_deleted_at r') -> gone lb'.
Proof.
  intros (id & r & Hr & He & Hd & Ht) Hm Hj. unfold gone. rewrite Hm. destruct (decide (j = id)) as [->|Hne].
  - exists id, r'. rewrite lookup_insert_eq. destruct (Hj r Hr He Hd Ht) as (? & ? & ?). done.
  - exists id, r. rewrite lookup_insert_ne by done. done.
Qed.

Lemma gone_import m lb lb' : not_later m lb -> EntityID (MuMedia m) = MuEntityID m -> MRef (MuMedia m) = MuRef m ->
  deletedAfterEventTx m lb = false -> imported m lb lb' -> gone lb -> gone lb'.
Proof.
  intros Hok He Href Hd (lb1 & id & changed & lb2 & lb3 & (found & m' & lb0 & Hs & Hw & ->)%upsert_spec & -> & H3 & ->) Hg.
  assert (lb_media (link_event (MuEventID m) id None None lb3) = lb_media lb0) as Hm3.
  { change (lb_media lb3 = lb_media lb0). set (lb2 := if changed then _ else _) in *.
    assert (lb_media lb2 = lb_media lb0) as H2.
    { destruct (follow_rename_beside found m' changed lb0) as (B1 & _). subst lb2. by destruct changed. }
    destruct H3 as [->|(-> & _)%schedule_languages_spec]; exact H2. }
  destruct (write_spec _ _ _ _ _ _ _ _ _ Hs Hw) as (r & Hm & _ & Hj & _). rewrite Hm in Hm3.
  apply (gone_elsewhere lb _ id r Hg Hm3). intros r0 Hr0 Hent Hdel Ht. exfalso.
  destruct Hok as [Hok|Habs]; [|by rewrite (Habs _ _ Hr0) in Hent].
  apply settle_spec in Hs as (_ & _ & Hid & _). destruct found as [[j q]|]; [subst j|congruence].
  destruct Hid as (Hq & Hqe & _). rewrite Hr0 in Hq. injection Hq as <-.
  apply of_entity_spec in Hqe as (Q1 & Q2 & Q3), Hent as (E1 & E2 & E3). rewrite Href in Q1, Q2. rewrite He in Q3.
  assert (MuAt m < T) as Hlt by (apply Hok; split_and!; congruence).
  assert (deletedAfterEventTx m lb = true) as Hx; [|congruence]. unfold deletedAfterEventTx. apply existsb_exists. exists (id, r0).
  split; [by apply list_elem_of_In, elem_of_map_to_list|]. cbn. rewrite Hdel.
  assert (of_instance (Instance_ (MuRef m)) (RefKind (MuRef m)) r0 = true) as -> by (apply of_instance_spec; by split). cbn [andb].
  apply orb_true_iff. right. lia.
Qed.

Lemma gone_preserved : preserved not_later gone.
Proof.
  split.
  - intros lb lb' (Hm & _) (id & r & Hr). exists id, r. by rewrite Hm.
  - intros m lb lb' (Hm & _) [?|Ha]; [by left|right]. by rewrite Hm.
  - intros m lb lb'. apply gone_import.
  - intros m lb Hg. destruct (apply_delete_spec m lb) as [(Hm & _)|(id & r & at_ & ea & Hr & (Hm & _))].
    + destruct Hg as (i & q & Hq). exists i, q. by rewrite Hm.
    + cbn [lb_media cancel_searches with_searches] in Hm. rewrite (update_media_rows _ _ _ _ Hr) in Hm.
      apply (gone_elsewhere lb _ id _ Hg Hm). intros r0 Hr0 He Hd Ht. rewrite Hr in Hr0. injection Hr0 as <-.
      split_and!; [exact He|done|]. cbn. rewrite Hd. lia.
  - intros m id r lb Hr Hg. apply (gone_elsewhere lb _ id (backfilled m r) Hg); [done|]. intros r0 Hr0 He Hd Ht. rewrite Hr in Hr0. injection Hr0 as <-.
    split_and!; [|exact Hd|exact Ht]. apply of_entity_spec in He as (? & ? & ?). apply of_entity_spec. unfold backfilled. cbn.
    case_bool_decide; by destruct (_ && _).
  - intros o lb (id & r & Hr). by exists id, r.
Qed.
End deletion.

Section final.
Context `{Unicode} `{LanguageTags} (sha256_hex : list N -> text).

(** A change that brings the entity back only as it was before [T]. *)
Definition spares (instance : text) (kind : MediaKind) (entity : Z) (T : instant) (c : change) : Prop :=
  let early m := brings m = true -> about instance kind entity m -> MuAt m < T in
  match c with
  | ApplyEvent now m => early (dated now m)
  | CommitPage _ _ _ mutations => Forall early mutations
  | ManualUpsert m _ => ~ (Instance_ (MRef m) = instance /\ RefKind (MRef m) = kind /\ EntityID m = entity)
  | _ => True
  end.

Lemma prioritized p m : MuAt (with_priority p m) = MuAt m /\ MuRef (with_priority p m) = MuRef m /\ MuEntityID (with_priority p m) = MuEntityID m
  /\ brings (with_priority p m) = brings m.
Proof. unfold with_priority. by destruct (MuPriority m =? 0). Qed.

Lemma spares_offered instance kind entity T p m :
  (brings m = true -> about instance kind entity m -> MuAt m < T) ->
  offered_ok (not_later instance kind entity T) (gone instance kind entity T) (with_priority p m).
Proof.
  intros Hm Hb lb _. destruct (prioritized p m) as (P1 & P2 & P3 & P4). rewrite P4 in Hb. left. unfold about. rewrite P1, P2, P3. by apply Hm.
Qed.

Lemma spared_admissible instance kind entity T c : spares instance kind entity T c ->
  admissible (not_later instance kind entity T) (gone instance kind entity T) c.
Proof.
  destruct c as [now m|? ? ? mutations| |m now| | |]; cbn; try done.
  - apply spares_offered.
  - intros Hall. eapply Forall_impl; [exact Hall|]. intros m. apply spares_offered.
  - intros Hm lb [[lb' id] moved] (found & m' & lb1 & changed & Hs & Hw & (Hb & _))%manual_spec Hg. cbn.
    destruct (write_spec _ _ _ _ _ _ _ _ _ Hs Hw) as (r & Hmedia & _ & Hj & _). rewrite Hmedia in Hb.
    apply (gone_elsewhere instance kind entity T lb _ id r Hg Hb). intros r0 Hr0 He _ _. exfalso.
    apply settle_spec in Hs as (_ & _ & Hid & _). destruct found as [[j q]|]; [subst j|congruence].
    destruct Hid as (Hq & Hqe & _). rewrite Hr0 in Hq. injection Hq as <-.
    apply of_entity_spec in Hqe as (Q1 & Q2 & Q3), He as (E1 & E2 & E3). apply Hm. split_and!; congruence.
Qed.

Lemma deleted_gone instance kind entity m lb id r : library_ok lb -> about instance kind entity m -> RefFileID (MuRef m) = 0 ->
  lb_media lb !! id = Some r -> of_entity instance kind entity r = true -> gone instance kind entity (MuAt m) (apply_delete m lb).
Proof.
  intros [Hok _] (H1 & H2 & H3) Hf Hr He. unfold apply_delete. rewrite Hf, H1, H2, H3. cbn [Z.ltb Z.compare Z.leb].
  destruct (find_row (of_entity instance kind entity) lb) as [[j q]|] eqn:E.
  2: { by rewrite (find_row_none _ _ _ _ E Hr) in He. }
  apply find_row_some in E as [Hq Hqe]. assert (j = id) as ->.
  { apply of_entity_spec in Hqe as (? & ? & ?), He as (? & ? & ?). apply (ro_entity _ Hok j id q r); [done..|split; congruence|congruence]. }
  rewrite Hr in Hq. injection Hq as <-. exists id, (deleted_row (MuAt m) (MuAt m) r).
  change (lb_media (link_event ?k ?i ?f ?e ?l)) with (lb_media l). cbn [lb_media cancel_searches with_searches].
  rewrite (update_media_rows _ _ _ _ Hr), lookup_insert_eq. split_and!; [done|exact He|done|]. cbn. destruct (ct_deleted r); lia.
Qed.

(** C5. A removed movie or episode stays removed. After the deletion of an
    entity of the library at a time [T] was applied, no sequence of events,
    pages of history, enumerations, manual searches of other media and changes
    of instances brings it back or leaves it a search to do, as long as every
    import of it is dated before [T]: a late or retried import, or a stale
    library listing, never revives it. *)
Theorem removed_media_stays_removed instance kind entity now m lb0 lb id0 r0 cs :
  library_ok lb0 -> deletes m = true -> about instance kind entity m -> RefFileID (MuRef m) = 0 -> MuSeriesID m = 0 ->
  lb_media lb0 !! id0 = Some r0 -> of_entity instance kind entity r0 = true ->
  ApplyMediaEvent now m lb0 = Ok (lb, true) -> Forall (spares instance kind entity (MuAt (dated now m))) cs ->
  exists id r, lb_media (perform_all sha256_hex cs lb) !! id = Some r /\ of_entity instance kind entity r = true /\ ct_deleted r = true
    /\ forall language s, lb_searches (perform_all sha256_hex cs lb) !! (id, language) = Some s -> state s = StateComplete.
Proof.
  intros Hok Hdel Habout Hfile Hseries Hr0 He0 E Hcs.
  assert (library_ok lb) as Hok1.
  { pose proof (perform_ok sha256_hex [ApplyEvent now m] lb0 Hok) as Hp. unfold perform_all, perform in Hp. cbn [fold_left run_change] in Hp. by rewrite E in Hp. }
  assert (gone instance kind entity (MuAt (dated now m)) lb) as Hg.
  { unfold ApplyMediaEvent in E. set (q := with_priority _ (dated now m)) in E.
    assert (deletes q = deletes m /\ about instance kind entity q /\ RefFileID (MuRef q) = 0 /\ MuSeriesID q = 0 /\ MuAt q = MuAt (dated now m)) as (Q1 & Q2 & Q3 & Q4 & Q5).
    { unfold q, with_priority, about, deletes. clear -Habout Hfile Hseries. unfold dated. destruct (is_zero (MuAt m)), (_ =? 0); cbn; done. }
    apply rbind_ok in E as ([lb1 b] & E1 & E). cbn [fst snd] in E. destruct b; [|done]. injection E as <-.
    apply (pr_beside _ _ (gone_preserved instance kind entity _) lb1); [done|].
    unfold applyMediaMutationTx, apply_mutation in E1. apply rbind_ok in E1 as ([] & _ & E1). destruct (negb _); [done|].
    destruct (insert_event q lb0) as [lb2|] eqn:Ei; [|done]. rewrite (deletes_brings q), Q1, Hdel, Q4 in E1 by by rewrite Q1. cbn in E1.
    injection E1 as <-. pose proof (insert_event_beside _ _ _ Ei) as Hb. rewrite <- Q5.
    eapply deleted_gone; [by eapply beside_ok|done..| |exact He0]. destruct Hb as (-> & _). exact Hr0. }
  assert (gone instance kind entity (MuAt (dated now m)) (perform_all sha256_hex cs lb)) as (id & r & Hr & He & Hd & _).
  { apply (perform_all_preserves _ _ (gone_preserved instance kind entity _)); [|by eapply Forall_impl; [exact Hcs|intros c; apply spared_admissible]|exact Hg].
    intros i languages at_ x lb2 Hf%find_identity _. unfold not_later, about. cbn [discovery_mutation MuRef MuEntityID MuAt].
    destruct (decide (Instance_ (MRef x) = instance /\ RefKind (MRef x) = kind /\ EntityID x = entity)) as [(<- & <- & <-)|Hne]; [right|by left].
    intros id r Hr. by destruct (Hf id r Hr) as [Hfe _]. }
  exists id, r. split_and!; [done..|]. intros language s Hs. by destruct (perform_ok sha256_hex cs lb Hok1) as [_ Hc]; apply (Hc (id, language) r s).
Qed.
End final.

(** ** Replays *)

Lemma mutated_replays series m lb lb' b :
  (forall lb0 lb1, series m lb0 = Ok lb1 -> lb_replays lb1 = lb_replays lb0) ->
  apply_mutation series m lb = Ok (lb', b) -> lb_replays lb' = lb_replays lb.
Proof.
  intros Hs [(_ & _ & ->)|(lb0 & Hi & Hm)]%apply_mutation_spec; [done|].
  assert (lb_replays lb0 = lb_replays lb) as <- by (unfold insert_event in Hi; destruct (has_event _ _); [done|]; by injection Hi as <-).
  destruct Hm as [(_ & _ & _ & [(_ & _ & ->)|(_ & _ & Hi2%imported_tables)])|[(_ & H1 & _)|(_ & -> & _)]]; [done|by injection Hi2|by apply Hs|].
  by pose proof (apply_delete_tables m lb0) as [= _ ->].
Qed.

Lemma apply_replays m lb lb' b : applyMediaMutationTx m lb = Ok (lb', b) -> lb_replays lb' = lb_replays lb.
Proof.
  apply mutated_replays. intros lb0 lb1. generalize (series_entities (Instance_ (MuRef m)) (MuSeriesID m) lb0). intros entities.
  revert lb0. induction entities as [|e entities IH]; intros lb0; cbn [apply_children]; [by intros [= <-]|].
  intros E. apply rbind_ok in E as ([lb2 b2] & E1 & E). rewrite (IH _ E). cbn. eapply mutated_replays; [|exact E1]. by intros ? ? [= <-].
Qed.

Lemma commit_mutation_replays instance m lb lb' : commit_mutation instance true m lb = Ok lb' ->
  Instance_ (MuRef m) = instance
  /\ (lb_replays lb' = lb_replays lb /\ existsb (fun r => bool_decide (r.1 = MuEventID m)) (lb_replays lb) = true
      \/ lb_replays lb' = (MuEventID m, instance) :: lb_replays lb).
Proof.
  unfold commit_mutation. destruct (bool_decide _) eqn:Ei; [|done]. apply bool_decide_eq_true in Ei. cbn [negb].
  assert (MuEventID (with_priority SearchPriorityMissing m) = MuEventID m) as Hid by (unfold with_priority; by destruct (_ =? 0)).
  rewrite Hid. destruct (existsb _ _) eqn:Ex; [intros [= <-]; by auto|]. intros E. apply rbind_ok in E as ([lb1 b] & E%apply_replays & [= <-]). by auto.
Qed.

(** Every mutation of a committed page is remembered. *)
Lemma page_remembered instance mutations lb lb' : commit_mutations instance true mutations lb = Ok lb' ->
  (forall r, r ∈ lb_replays lb -> r.1 ∈ (MuEventID <$> mutations) -> r.2 = instance) ->
  Forall (fun m => Instance_ (MuRef m) = instance /\ (MuEventID m, instance) ∈ lb_replays lb') mutations
  /\ forall r, r ∈ lb_replays lb -> r ∈ lb_replays lb'.
Proof.
  revert lb. induction mutations as [|m mutations IH]; intros lb; cbn [commit_mutations]; [intros [= <-] _; by auto|].
  intros E Hown. apply rbind_ok in E as (lb1 & E1%commit_mutation_replays & E). destruct E1 as [Hi Hr].
  assert ((MuEventID m, instance) ∈ lb_replays lb1 /\ forall r, r ∈ lb_replays lb -> r ∈ lb_replays lb1) as [Hm Hsub].
  { destruct Hr as [[-> Hx]| ->]; [|split; [by left|intros; by right]]. split; [|done].
    apply existsb_exists in Hx as ([key i] & Hin%list_elem_of_In & Hk%bool_decide_eq_true). cbn in Hk. subst key.
    by rewrite <- (Hown _ Hin ltac:(by left)). }
  destruct (IH lb1 E) as [Hall Hsub2].
  { intros r Hr1 Hin. destruct Hr as [[Er _]|Er]; rewrite Er in Hr1; [apply Hown; [done|by right]|].
    apply elem_of_cons in Hr1 as [->|Hr1]; [done|]. apply Hown; [done|by right]. }
  split; [constructor; [split; [done|by apply Hsub2]|done]|]. intros r Hr0. by apply Hsub2, Hsub.
Qed.

Lemma remembered_ignored instance retain mutations lb :
  Forall (fun m => Instance_ (MuRef m) = instance /\ (MuEventID m, instance) ∈ lb_replays lb) mutations ->
  commit_mutations instance retain mutations lb = Ok lb.
Proof.
  induction 1 as [|m mutations [Hi Hm] _ IH]; [done|]. cbn [commit_mutations]. unfold commit_mutation. rewrite (bool_decide_true _ Hi). cbn [negb].
  assert (MuEventID (with_priority SearchPriorityMissing m) = MuEventID m) as -> by (unfold with_priority; by destruct (_ =? 0)).
  destruct retain.
  - assert (existsb (fun r => bool_decide (r.1 = MuEventID m)) (lb_replays lb) = true) as ->; [|exact IH].
    apply existsb_exists. exists (MuEventID m, instance). split; [by apply list_elem_of_In|]. by apply bool_decide_true.
  - rewrite bool_decide_true by done. exact IH.
Qed.

(** C10. A page of history that keeps its cursor, because one of its entities
    could not be read, is applied once however often it is replayed: committed
    again it changes no media, search or installation and records no event,
    even after the audit log dropped its events, and when the cursor advances
    at last the page is passed over as well and forgotten. *)
Theorem deferred_pages_apply_once instance s mutations lb lb1 s1 cursor :
  CommitReconciliation instance s (Cursor s) mutations lb = Ok lb1 -> GetReconciliationState instance lb1 = Some s1 ->
  (forall r, r ∈ lb_replays lb -> r.1 ∈ (MuEventID <$> mutations) -> r.2 = instance) ->
  exists lb2, CommitReconciliation instance s1 cursor mutations lb1 = Ok lb2
    /\ lb_media lb2 = lb_media lb1 /\ lb_searches lb2 = lb_searches lb1 /\ lb_installs lb2 = lb_installs lb1
    /\ lb_events lb2 = lb_events (bound_events lb1)
    /\ if cursor =? Cursor s1 then tables lb2 = tables lb1
       else Cursor <$> GetReconciliationState instance lb2 = Some cursor /\ forall key, (key, instance) ∉ lb_replays lb2.
Proof.
  intros E Hs1 Hown. assert (Forall (fun m => Instance_ (MuRef m) = instance /\ (MuEventID m, instance) ∈ lb_replays lb1) mutations) as Hall.
  { unfold CommitReconciliation in E. destruct (GetReconciliationState instance lb); [|done]. destruct (_ || _); [done|].
    rewrite Z.eqb_refl in E. apply rbind_ok in E as (lb0 & E0 & [= <-]). by apply page_remembered in E0 as [H0 _]. }
  unfold CommitReconciliation. rewrite Hs1, !Z.eqb_refl. cbn [negb orb]. rewrite remembered_ignored by done. cbn [rbind].
  destruct (cursor =? Cursor s1) eqn:Ec; [by eexists|].
  unfold GetReconciliationState in Hs1. destruct (lb_instances lb1 !! instance) as [i|] eqn:Ei; [|done].
  rewrite bool_decide_true by (cbn; by rewrite Ei). eexists. split_and!; [done|done|done|done|done| |].
  { unfold GetReconciliationState. cbn. by rewrite lookup_alter_eq, Ei. }
  intros key [Hne _]%list_elem_of_filter. by apply Hne.
Qed.

(** ** One file at a time *)

(** What an import or rename does to the record of an installed subtitle. *)
Definition installation_after (id : Z) (old m : Media) (k : Z * Language) (i : Installation) : Installation :=
  let m := preserveAuthoritativeModTime m old in
  if negb (k.1 =? id) then i
  else if content_differs old m then invalidated i
  else if negb (bool_decide (FpPath (Fingerprint old) = FpPath (Fingerprint m)))
          && ((IMediaFileID i =? RefFileID (MRef old)) || (IMediaFileID i =? 0))
  then renamed_installation (FpPath (Fingerprint old)) (FpPath (Fingerprint m)) i else i.

Lemma schedule_languages_installs id languages at_ p unsupported lb lb' :
  schedule_languages id languages at_ p unsupported lb = Ok lb' -> lb_installs lb' = lb_installs lb.
Proof.
  revert lb. induction languages as [|l languages IH]; intros lb; cbn [schedule_languages]; [by intros [= <-]|].
  destruct (scheduleMediaSearchTx _ _ _ _ _ _) as [db|]; [|done]. by intros ->%IH.
Qed.

Lemma write_installs found m updated now lb lb' id changed :
  write_media found m updated now lb = (lb', id, changed) -> lb_installs lb' = lb_installs lb.
Proof.
  unfold write_media. destruct found as [[j r]|]; intros [= <- <- <-]; [|done]. unfold update_media.
  destruct (lb_media lb !! j); [|done]. cbv zeta. by destruct (_ && _), (sorts_alike _ _).
Qed.

Lemma write_searches_elsewhere found m updated now lb lb' id changed k :
  write_media found m updated now lb = (lb', id, changed) -> k.1 <> id -> lb_searches lb' !! k = lb_searches lb !! k.
Proof.
  unfold write_media. destruct found as [[j r]|]; intros [= <- <- <-] Hk; [|done]. unfold update_media.
  destruct (lb_media lb !! j); [|done]. cbv zeta. destruct (_ && _), (sorts_alike _ _); cbn; try done;
    (rewrite map_lookup_imap; unfold of_media; rewrite (proj2 (Z.eqb_neq _ _) Hk); by destruct (lb_searches lb !! k)).
Qed.

Lemma imported_known m lb lb' id r : library_ok lb -> imported m lb lb' -> lb_media lb !! id = Some r ->
  of_entity (Instance_ (MRef (MuMedia m))) (RefKind (MRef (MuMedia m))) (EntityID (MuMedia m)) r = true ->
  (exists r', lb_media lb' = <[id := r']> (lb_media lb) /\ settled_row (MuMedia m) r')
  /\ (forall k, k.1 <> id -> lb_searches lb' !! k = lb_searches lb !! k)
  /\ forall k, lb_installs lb' !! k = installation_after id (ct_media r) (MuMedia m) k <$> lb_installs lb !! k.
Proof.
  intros [Hok _] (lb1 & i & changed & lb2 & lb3 & (found & m' & lb0 & Hs & Hw & ->)%upsert_spec & -> & H3 & ->) Hr He.
  destruct (write_spec _ _ _ _ _ _ _ _ _ Hs Hw) as (r' & Hm & Hrow & Hj & _). pose proof Hs as (_ & _ & Hid & Em)%settle_spec.
  assert (found = Some (id, r)) as ->.
  { destruct found as [[j q]|].
    - destruct Hid as (Hq & Hqe & _). apply of_entity_spec in Hqe as (Q1 & Q2 & Q3), He as (E1 & E2 & E3).
      assert (j = id) as -> by (apply (ro_entity _ Hok j id q r); [done..|split; congruence|congruence]). congruence.
    - by rewrite (proj1 (Hid id r Hr)) in He. }
  subst i. assert (changed = content_differs (ct_media r) m') as Hch by by (unfold write_media in Hw; injection Hw).
  set (lb1 := follow_rename _ _ _ lb0) in *. set (lb2 := if changed then _ else lb1) in *.
  assert (lb_media lb2 = lb_media lb0 /\ lb_searches lb2 = lb_searches lb0) as [M2 S2].
  { destruct (follow_rename_beside (Some (id, r)) m' changed lb0) as (B1 & B2 & _). subst lb2. by destruct changed. }
  assert (forall k, lb_installs lb2 !! k = installation_after id (ct_media r) (MuMedia m) k <$> lb_installs lb !! k) as I2.
  { intros k. rewrite <- (write_installs _ _ _ _ _ _ _ _ Hw). unfold installation_after. cbv zeta. rewrite <- Em, <- Hch. subst lb2 lb1.
    unfold follow_rename. cbv beta iota. unfold of_media. destruct changed; cbn [negb]; rewrite ?andb_false_r, ?andb_true_r.
    - cbn [lb_installs invalidateInstallationTx with_installations with_candidates]. rewrite map_lookup_imap. unfold of_media.
      destruct (lb_installs lb0 !! k); cbn; [|done]. by destruct (k.1 =? id).
    - destruct (bool_decide _) eqn:Eb; cbn [negb andb].
      + destruct (lb_installs lb0 !! k); cbn; [|done]. by destruct (k.1 =? id).
      + cbn [lb_installs rebaseInstallationPathsTx with_installations]. rewrite map_lookup_imap. unfold of_media.
        destruct (lb_installs lb0 !! k); cbn; [|done]. by destruct (k.1 =? id). }
  change (lb_media (link_event ?a ?b ?c ?d ?l)) with (lb_media l). change (lb_searches (link_event ?a ?b ?c ?d ?l)) with (lb_searches l).
  change (lb_installs (link_event ?a ?b ?c ?d ?l)) with (lb_installs l).
  destruct H3 as [->|H3].
  - rewrite M2, S2. split_and!; [by exists r'|intros k Hk; by eapply write_searches_elsewhere|exact I2].
  - pose proof (schedule_languages_spec _ _ _ _ _ _ _ H3) as (M3 & _ & S3). rewrite M3, M2, (schedule_languages_installs _ _ _ _ _ _ _ H3).
    split_and!; [by exists r'| |exact I2]. intros k Hk. rewrite S3, S2 by done. by eapply write_searches_elsewhere.
Qed.

(** C9. An import or rename of a known movie or episode changes that media
    file alone: its row takes the new columns, no other row, search or recorded
    subtitle changes, and no recorded subtitle is dropped. When the file's
    content changed, every subtitle recorded for it loses its evidence; when
    the same file was renamed, the subtitles recorded for that file are
    recorded under its new name; otherwise the records stay as they are. *)
Theorem arrival_changes_one_file now m lb lb' id r :
  library_ok lb -> brings m = true -> ApplyMediaEvent now m lb = Ok (lb', true) -> lb_media lb !! id = Some r ->
  of_entity (Instance_ (MuRef m)) (RefKind (MuRef m)) (MuEntityID m) r = true ->
  (exists r', lb_media lb' = <[id := r']> (lb_media lb) /\ settled_row (MuMedia m) r')
  /\ (forall k, k.1 <> id -> lb_searches lb' !! k = lb_searches lb !! k)
  /\ forall k, lb_installs lb' !! k = installation_after id (ct_media r) (MuMedia m) k <$> lb_installs lb !! k.
Proof.
  intros Hok Hb E Hr He. unfold ApplyMediaEvent in E. set (q := with_priority _ (dated now m)) in E.
  assert (MuMedia q = MuMedia m /\ MuRef q = MuRef m /\ MuEntityID q = MuEntityID m /\ brings q = brings m) as (Q1 & Q2 & Q3 & Q4).
  { unfold q, with_priority, dated, brings. by destruct (is_zero _), (_ =? 0). }
  apply rbind_ok in E as ([lb1 b] & E1 & E). cbn [fst snd] in E. destruct b; [|done]. injection E as <-.
  apply apply_mutation_spec in E1 as [(_ & ? & _)|(lb0 & Hi & Hm)]; [done|].
  assert (lb_installs lb0 = lb_installs lb) as Hinst by (unfold insert_event in Hi; destruct (has_event _ _); [done|]; by injection Hi as <-).
  pose proof (insert_event_beside _ _ _ Hi) as Hbe.
  destruct Hm as [(_ & M1 & M2 & [(_ & ? & _)|(_ & _ & Himp)])|[(Hd & _)|(Hd & _)]]; [done| |by apply deletes_brings in Hd; rewrite Q4, Hb in Hd..].
  destruct (imported_known q lb0 lb1 id r) as (H1 & H2 & H3); [by eapply beside_ok|done|by destruct Hbe as (-> & _)| |].
  { rewrite M1, M2, Q2, Q3. exact He. }
  destruct Hbe as (Hm0 & Hs0 & _). rewrite Hm0, Q1 in H1. rewrite Q1, Hinst in H3. split_and!; [exact H1| |exact H3].
  intros k Hk. rewrite <- Hs0. by apply H2.
Qed.

Section steps.
Context `{Unicode} `{LanguageTags} (sha sha256_hex : list N -> text).

(** C7. The library transactions implement the queue and keep the media table:
    from an empty database on, whatever events, pages, enumerations and manual
    searches come, failed ones included, every change of the searches is a
    sequence of the queue's own transactions, so that what is proved of every
    reachable queue holds; no two rows share an entity or a file of one
    instance; and a deleted media file has no search left to do. *)
Theorem library_refines_queue cs :
  let lb := perform_all sha256_hex cs empty_library in
  rtc (queue_step sha) empty_db (queue_of lb) /\ rows_ok (lb_media lb) /\ closed (lb_media lb) (lb_searches lb).
Proof.
  intros lb. split; [|apply perform_ok; split; [split; intros *; cbn; by rewrite lookup_empty|intros k r s; cbn; by rewrite lookup_empty]].
  apply perform_reaches. unfold queue_of, empty_library, empty_db. cbn. rewrite fmap_empty. apply rtc_refl.
Qed.
End steps.

(** ** A movie *)

Section sample.
#[local] Existing Instance latin1.
#[local] Existing Instance sample_tags.

Definition movie_ref : MediaRef := mkMediaRef (t "radarr") MediaMovie 31.
Definition movie (path : text) (size : Z) : Media :=
  mkMedia 0 7 movie_ref (mkFingerprint path 31 size 5) (t "Heat") [] [] 1995 0 0 0 0 0 (mkExternalIDs [] 0 0) [] [] [] [] [] [] [] [] 0 [] zero_time [].
Definition heat : text := t "/m/Heat.mkv".
Definition moved_heat : text := t "/m/Heat (1995).mkv".
Definition movie_event (id type : text) (m : Media) (at_ : instant) : MediaEventMutation :=
  mkMutation 0 id type 7 m movie_ref [t "en"] at_ 0 false.
Definition movie_deleted (id : text) (at_ : instant) : MediaEventMutation :=
  mkMutation 0 id (t "delete") 7 (movie heat 100) (mkMediaRef (t "radarr") MediaMovie 0) [] at_ 0 false.
Definition no_hash : list N -> text := fun _ => t "0".

Definition movie_import : change := ApplyEvent 0 (movie_event (t "e1") (t "import") (movie heat 100) 100).
Definition start : library := perform_all no_hash [SetInstance (t "radarr") (t "radarr") [] 1; movie_import] empty_library.
Definition after_delete : library := perform_all no_hash [ApplyEvent 0 (movie_deleted (t "e2") 200)] start.
Definition late_import : change := ApplyEvent 0 (movie_event (t "e3") (t "import") (movie heat 200) 150).
Definition listing : change := CommitLibrary (t "radarr") (t "scope") 2 [movie heat 100] [t "en"] 300.

Definition row_states (lb : library) : list (bool * option SearchState) :=
  (fun kr => (ct_deleted kr.2, state <$> lb_searches lb !! (kr.1, t "en"))) <$> map_to_list (lb_media lb).

Example imported_movie : row_states start = [(false, Some StatePending)].
Proof. vm_compute. reflexivity. Qed.
Example deleted_movie : row_states after_delete = [(true, Some StateComplete)].
Proof. vm_compute. reflexivity. Qed.
(** A late import and a listing leave it deleted; an import of a later time
    brings it back. *)
Example late_movie : row_states (perform_all no_hash [late_import; listing] after_delete) = [(true, Some StateComplete)].
Proof. vm_compute. reflexivity. Qed.
Example later_movie :
  row_states (perform_all no_hash [ApplyEvent 0 (movie_event (t "e4") (t "import") (movie heat 200) 250)] after_delete) = [(false, Some StatePending)].
Proof. vm_compute. reflexivity. Qed.

Lemma library_ok_start : library_ok start.
Proof. apply perform_ok. split; [split; intros *; cbn; by rewrite lookup_empty|intros k r s; cbn; by rewrite lookup_empty]. Qed.

Lemma removed_media_stays_removed_witness : exists id r,
  lb_media (perform_all no_hash [late_import; listing] after_delete) !! id = Some r /\ ct_deleted r = true.
Proof.
  destruct (removed_media_stays_removed no_hash (t "radarr") MediaMovie 7 0 (movie_deleted (t "e2") 200) start after_delete 1
    (inserted_row (movie heat 100) 100) [late_import; listing]) as (id & r & Hr & _ & Hd & _).
  - apply library_ok_start.
  - by vm_compute.
  - by vm_compute.
  - done.
  - done.
  - by vm_compute.
  - by vm_compute.
  - by vm_compute.
  - repeat constructor; intros; vm_compute; reflexivity.
  - by exists id, r.
Defined.

Definition start_state : ReconciliationState := mkReconciliationState zero_time 1.

Lemma overtaken_readers_are_refused_witness :
  CommitReconciliation (t "radarr") start_state 900 [] (perform_all no_hash [] after_delete) = Err LStale.
Proof.
  apply (overtaken_readers_are_refused no_hash (t "radarr") start start_state [] 0 (movie_deleted (t "e2") 200) after_delete [] 900 [] [] [] [] 0);
    by vm_compute.
Defined.

Lemma arrival_changes_one_file_witness : exists r',
  lb_media (perform_all no_hash [ApplyEvent 0 (movie_event (t "e3") (t "rename") (movie moved_heat 100) 300)] start) = <[1 := r']> (lb_media start).
Proof.
  destruct (arrival_changes_one_file 0 (movie_event (t "e3") (t "rename") (movie moved_heat 100) 300) start
    (perform_all no_hash [ApplyEvent 0 (movie_event (t "e3") (t "rename") (movie moved_heat 100) 300)] start) 1 (inserted_row (movie heat 100) 100)
    library_ok_start) as ((r' & Hr & _) & _); [by vm_compute..|]. by exists r'.
Defined.

Definition deferred : library := perform_all no_hash [CommitPage (t "radarr") (mkReconciliationState zero_time 1) zero_time
  [movie_event (t "h1") (t "import") (movie heat 200) 120]] start.

Lemma deferred_pages_apply_once_witness : exists lb2,
  CommitReconciliation (t "radarr") (mkReconciliationState zero_time 2) 900 [movie_event (t "h1") (t "import") (movie heat 200) 120] deferred = Ok lb2
  /\ lb_media lb2 = lb_media deferred.
Proof.
  destruct (deferred_pages_apply_once (t "radarr") (mkReconciliationState zero_time 1) [movie_event (t "h1") (t "import") (movie heat 200) 120] start
    deferred (mkReconciliationState zero_time 2) 900) as (lb2 & E & Hm & _); [by vm_compute|by vm_compute|by intros r Hr; inversion Hr|].
  by exists lb2.
Defined.
End sample.
