(* ===== verification/Webhook.v ===== *)
(** * Webhooks of the Arr applications (src/internal/catalog, src/internal/store)

    NormalizeWebhook reads the events of a payload, WebhookHandler.HandleAt
    applies them to the library (Library.v), and the webhook inbox holds an
    accepted payload until it was applied: the acceptor stores it, Drain applies
    what is due in arrival order, retries failures with backoff and gives a
    payload up after its seventh failure. JSON decoding, SHA-256, and the Arr
    client are parameters. Between any two calls other transactions may change
    the library, webhooks may arrive in the inbox and the processors of other
    instances may settle theirs, and any call may fail. *)
From S2P Require Import Prelude GoText SearchQueue Schedule Install Domain Library LibrarySafety.

#[local] Open Scope Z_scope.

(** ** Payloads *)

Record webhookFile := mkWebhookFile {
  wf_id : Z; wf_size : Z; wf_path : text; wf_relative : text; wf_previous : text; wf_scene : text; wf_quality : text; wf_group : text;
}.

Record webhookPayload := mkWebhookPayload {
  wp_series : Z; wp_movie : Z; wp_event : text; wp_upgrade : bool; wp_movie_file : webhookFile; wp_episode_file : webhookFile;
  wp_episode_files : list webhookFile; wp_renamed_episodes : list webhookFile; wp_renamed_movies : list webhookFile;
}.

Inductive WebhookError := WIgnored | WInvalid | WRead | WHydrate | WApply.

Record WebhookEvent := mkWebhookEvent {
  we_series : Z; we_entity : Z; we_id : text; we_type : text; we_ref : MediaRef; we_remote : text; we_previous : text; we_upgrade : bool;
  we_filename : text; we_quality : text; we_group : text;
}.

Inductive files_error := UnsupportedEvent | UnknownInstanceType.

Section webhook.
Context `{Unicode} (sha256_hex : list N -> text) (decode_payload : list N -> option webhookPayload).

Definition bool_text (b : bool) : text := if b then t "true" else t "false".
Definition join_zero (parts : list text) : text := join [0%N] parts.
(** The first sixteen bytes of the sum. *)
Definition short_sum (s : text) : text := take 32 (sha256_hex (bytes_of s)).

Definition stableEventID (instance eventType : text) (kind : MediaKind) (f : webhookFile) (upgrade : bool) : text :=
  short_sum (join_zero [instance; to_lower eventType; kind_text kind; itoa (wf_id f); itoa (wf_size f); wf_path f; wf_relative f;
                        wf_previous f; wf_scene f; wf_group f; bool_text upgrade]).

Definition webhookFiles (instanceType : text) (p : webhookPayload) : result files_error (MediaKind * list webhookFile * text) :=
  let event := to_lower (wp_event p) in
  let instanceType := to_lower instanceType in
  if bool_decide (instanceType = t "sonarr") then
    if bool_decide (event = t "download") then
      Ok (MediaEpisode,
          match wp_episode_files p with
          | [] => if 0 <? wf_id (wp_episode_file p) then [wp_episode_file p] else []
          | files => files
          end, t "import")
    else if bool_decide (event = t "rename") then Ok (MediaEpisode, wp_renamed_episodes p, t "rename")
    else if bool_decide (event = t "episodefiledelete") then Ok (MediaEpisode, [wp_episode_file p], t "delete")
    else Err UnsupportedEvent
  else if bool_decide (instanceType = t "radarr") then
    if bool_decide (event = t "download") then Ok (MediaMovie, [wp_movie_file p], t "import")
    else if bool_decide (event = t "rename") then Ok (MediaMovie, wp_renamed_movies p, t "rename")
    else if bool_decide (event = t "moviefiledelete") then Ok (MediaMovie, [wp_movie_file p], t "delete")
    else Err UnsupportedEvent
  else Err UnknownInstanceType.

Definition file_event (instance : text) (p : webhookPayload) (kind : MediaKind) (type : text) (f : webhookFile) : WebhookEvent :=
  mkWebhookEvent 0 0 (stableEventID instance (wp_event p) kind f (wp_upgrade p)) type (mkMediaRef instance kind (wf_id f))
    (if bool_decide (wf_path f = []) then wf_relative f else wf_path f) (wf_previous f) (wp_upgrade p) (wf_scene f) (wf_quality f) (wf_group f).

(** The removal of a movie or a series, named by the Arr identity. *)
Definition removal_event (instance marker : text) (kind : MediaKind) (series entity : Z) : WebhookEvent :=
  mkWebhookEvent series entity (short_sum (join_zero [instance; marker; kind_text kind; itoa (if series =? 0 then entity else series)]))
    (t "delete") (mkMediaRef instance kind 0) [] [] false [] [] [].

Definition NormalizeWebhook (instance instanceType : text) (body : list N) : result WebhookError (list WebhookEvent) :=
  match decode_payload body with
  | None => Err WInvalid
  | Some p =>
      if equal_fold (wp_event p) (t "test") then Err WIgnored
      else if equal_fold instanceType (t "radarr") && equal_fold (wp_event p) (t "MovieDelete") then
        if wp_movie p <=? 0 then Err WInvalid else Ok [removal_event instance (t "moviedelete") MediaMovie 0 (wp_movie p)]
      else if equal_fold instanceType (t "sonarr") && equal_fold (wp_event p) (t "SeriesDelete") then
        if wp_series p <=? 0 then Err WInvalid else Ok [removal_event instance (t "seriesdelete") MediaEpisode (wp_series p) 0]
      else
        match webhookFiles instanceType p with
        | Err UnsupportedEvent => Err WIgnored
        | Err UnknownInstanceType => Err WInvalid
        | Ok (kind, files, type) =>
            match file_event instance p kind type <$> base.filter (fun f => 0 < wf_id f) files with
            | [] => Err WInvalid
            | events => Ok events
            end
        end
  end.

(** ** The inbox *)

Record WebhookInboxItem := mkItem {
  wi_id : Z; wi_instance : text; wi_body : list N; wi_received : instant; wi_attempt : Z; wi_next : instant;
}.

Definition webhookInboxBatch : nat := 20.
Definition webhookInboxPoll : duration := minute.
Definition maxWebhookAttempts : Z := 7.
Definition webhookInboxErrorDelay : duration := 5 * second.
Definition webhookInboxMaxErrorDelay : duration := 5 * minute.

Definition nextWebhookErrorDelay (previous : duration) : duration :=
  Z.min (Z.max (wrap64 (2 * previous)) webhookInboxErrorDelay) webhookInboxMaxErrorDelay.

Definition EnqueueWebhook (instance : text) (body : list N) (receivedAt : instant) (items : list WebhookInboxItem)
    : option (list WebhookInboxItem * Z) :=
  if bool_decide (instance = []) || bool_decide (body = []) || is_zero receivedAt then None
  else let id := next_id (wi_id <$> items) in Some (items ++ [mkItem id instance body receivedAt 0 receivedAt], id).

Definition waiting (instance : text) (now : instant) (i : WebhookInboxItem) : bool :=
  bool_decide (wi_instance i = instance) && (wi_next i <=? now).
Definition older (a b : WebhookInboxItem) : bool := wi_id a <? wi_id b.

Definition DueWebhooks (instance : text) (now : instant) (limit : nat) (items : list WebhookInboxItem) : list WebhookInboxItem :=
  take limit (stable_sort older (base.filter (fun i => waiting instance now i = true) items)).

Definition NextWebhookAt (instance : text) (items : list WebhookInboxItem) : option instant :=
  match wi_next <$> base.filter (fun i => wi_instance i = instance) items with
  | [] => None
  | next :: rest => Some (foldr Z.min next rest)
  end.

Definition DeleteWebhook (id : Z) (items : list WebhookInboxItem) : list WebhookInboxItem := base.filter (fun i => wi_id i <> id) items.

Definition RetryWebhook (id : Z) (next : instant) (items : list WebhookInboxItem) : list WebhookInboxItem :=
  (fun i => if wi_id i =? id then mkItem (wi_id i) (wi_instance i) (wi_body i) (wi_received i) (wi_attempt i + 1) next else i) <$> items.

Definition WebhookInboxCount (instance : text) (items : list WebhookInboxItem) : nat :=
  length (base.filter (fun i => wi_instance i = instance) items).

(** What happens to the inbox beside a processor: a webhook of any instance
    arrives, or the processor of another instance settles a payload of its own. *)
Inductive inbox_change :=
| Arrives (instance : text) (body : list N) (receivedAt : instant)
| SettledElsewhere (id : Z)
| RetriedElsewhere (id : Z) (next : instant).

(** ** Applying a payload *)

Inductive hydration := Hydrated (m : Media) | OutsideScope | Unavailable.

(** The world of a processor, by the number of calls made so far: what Arr
    answers, what other transactions did to the library and to the inbox before
    a call, which database calls fail, the clock, and whether the context is
    done. *)
Record world := mkWorld {
  w_media : nat -> MediaRef -> hydration;
  w_between : nat -> library -> library;
  w_inbox : nat -> list inbox_change;
  w_fails : nat -> bool;
  w_now : nat -> instant;
  w_done : nat -> bool;
}.

Context (w : world).

Record WebhookResult := mkWebhookResult { EventCount : Z; AppliedCount : Z; Queued : bool }.

Record WebhookHandler := mkHandler { hd_instance : text; hd_type : text; hd_languages : list Language }.

(** Calls made so far, the library, and the wakes of the workers. *)
Record handling := mkHandling { hs_calls : nat; hs_library : library; hs_wakes : Z }.

Definition has_applied (key : text) (s : handling) : handling * option bool :=
  let n := hs_calls s in
  let lb := w_between w n (hs_library s) in
  (mkHandling (S n) lb (hs_wakes s), if w_fails w n then None else Some (HasAppliedMediaEvent key lb)).

Definition get_media (ref : MediaRef) (s : handling) : handling * hydration :=
  (mkHandling (S (hs_calls s)) (hs_library s) (hs_wakes s), w_media w (hs_calls s) ref).

Definition apply_event (m : MediaEventMutation) (s : handling) : handling * option bool :=
  let n := hs_calls s in
  let lb := w_between w n (hs_library s) in
  if w_fails w n then (mkHandling (S n) lb (hs_wakes s), None)
  else match ApplyMediaEvent (w_now w n) m lb with
       | Ok (lb, applied) => (mkHandling (S n) lb (hs_wakes s), Some applied)
       | Err _ => (mkHandling (S n) lb (hs_wakes s), None)
       end.

Definition event_mutation (h : WebhookHandler) (now : instant) (e : WebhookEvent) (media : option Media) : MediaEventMutation :=
  mkMutation (we_series e) (we_id e) (we_type e) (match media with Some m => EntityID m | None => we_entity e end)
    (default no_media media) (we_ref e) (hd_languages h) now 0 false.

(** What the loop over the events counts. *)
Record progress := mkProgress { pg_applied : Z; pg_ignored : Z }.

Fixpoint handle_events (h : WebhookHandler) (now : instant) (events : list WebhookEvent) (p : progress) (s : handling)
    : handling * progress * option WebhookError :=
  match events with
  | [] => (s, p, None)
  | e :: events =>
      let '(s, committed) := has_applied (we_id e) s in
      match committed with
      | None => (s, p, Some WRead)
      | Some true => handle_events h now events p s
      | Some false =>
          let hydrated :=
            if bool_decide (we_type e = t "delete") then (s, Some (Ok None))
            else let '(s, answer) := get_media (we_ref e) s in
                 (s, match answer with Hydrated m => Some (Ok (Some m)) | OutsideScope => None | Unavailable => Some (Err WHydrate) end) in
          match hydrated with
          | (s, None) => handle_events h now events (mkProgress (pg_applied p) (pg_ignored p + 1)) s
          | (s, Some (Err e)) => (s, p, Some e)
          | (s, Some (Ok media)) =>
              let '(s, applied) := apply_event (event_mutation h now e media) s in
              match applied with
              | None => (s, p, Some WApply)
              | Some applied => handle_events h now events (mkProgress (if applied then pg_applied p + 1 else pg_applied p) (pg_ignored p)) s
              end
          end
      end
  end.

Definition HandleAt (h : WebhookHandler) (body : list N) (receivedAt : instant) (s : handling)
    : handling * WebhookResult * option WebhookError :=
  match NormalizeWebhook (hd_instance h) (hd_type h) body with
  | Err e => (s, mkWebhookResult 0 0 false, Some e)
  | Ok events =>
      let count := Z.of_nat (length events) in
      let '(s, p, e) := handle_events h receivedAt events (mkProgress 0 0) s in
      let s := if 0 <? pg_applied p then mkHandling (hs_calls s) (hs_library s) (hs_wakes s + 1) else s in
      (s, mkWebhookResult count (pg_applied p) false,
       match e with Some e => Some e | None => if pg_ignored p =? count then Some WIgnored else None end)
  end.

(** ** Accepting *)

(** The acceptor: a payload that can never be applied is refused at once, any
    other is stored. *)
Definition Accept (h : WebhookHandler) (body : list N) (now : instant) (items : list WebhookInboxItem)
    : list WebhookInboxItem * WebhookResult * option WebhookError :=
  match NormalizeWebhook (hd_instance h) (hd_type h) body with
  | Err e => (items, mkWebhookResult 0 0 false, Some e)
  | Ok events =>
      match EnqueueWebhook (hd_instance h) body now items with
      | None => (items, mkWebhookResult (Z.of_nat (length events)) 0 false, Some WRead)
      | Some (items, _) => (items, mkWebhookResult (Z.of_nat (length events)) 0 true, None)
      end
  end.

(** ** Draining

    The log of a processor: the payloads it settled and how their handling
    ended; and the payloads that arrived since it began. *)

Inductive fate := Applied | Abandoned | Retried.
Abbreviation settled := (WebhookInboxItem * option WebhookError)%type.
Record draining := mkDraining {
  dr_handling : handling; dr_items : list WebhookInboxItem; dr_log : list settled; dr_arrived : list WebhookInboxItem;
}.

Inductive DrainError := DCanceled | DStore.

Definition calls_of (s : draining) : nat := hs_calls (dr_handling s).

(** A change of the inbox beside the processor of the instance [own]. *)
Definition change_inbox (own : text) (s : draining) (c : inbox_change) : draining :=
  match c with
  | Arrives instance body receivedAt =>
      match EnqueueWebhook instance body receivedAt (dr_items s) with
      | Some (items, id) => mkDraining (dr_handling s) items (dr_log s) (dr_arrived s ++ [mkItem id instance body receivedAt 0 receivedAt])
      | None => s
      end
  | SettledElsewhere id =>
      mkDraining (dr_handling s) (base.filter (fun i => wi_instance i = own \/ wi_id i <> id) (dr_items s)) (dr_log s) (dr_arrived s)
  | RetriedElsewhere id next =>
      mkDraining (dr_handling s) ((fun i => if bool_decide (wi_instance i = own) then i else
                                    if wi_id i =? id then mkItem (wi_id i) (wi_instance i) (wi_body i) (wi_received i) (wi_attempt i + 1) next else i) <$> dr_items s)
        (dr_log s) (dr_arrived s)
  end.

(** The handling went on to [hs]; what happened to the inbox meanwhile. *)
Definition move_on (own : text) (hs : handling) (s : draining) : draining :=
  foldl (change_inbox own) (mkDraining hs (dr_items s) (dr_log s) (dr_arrived s))
    (mjoin (w_inbox w <$> seq (calls_of s) (hs_calls hs - calls_of s))).

(** One call. *)
Definition tick (own : text) (s : draining) : draining :=
  move_on own (mkHandling (S (calls_of s)) (hs_library (dr_handling s)) (hs_wakes (dr_handling s))) s.

Definition ctx_error (own : text) (s : draining) : draining * bool := (tick own s, w_done w (calls_of s)).

(** A write of the inbox with its entry of the log. *)
Definition write_inbox (own : text) (f : list WebhookInboxItem -> list WebhookInboxItem) (entry : settled) (s : draining) : draining * bool :=
  let n := calls_of s in
  let s := tick own s in
  if w_fails w n then (s, false) else (mkDraining (dr_handling s) (f (dr_items s)) (entry :: dr_log s) (dr_arrived s), true).

(** What becomes of a handled payload. *)
Definition fate_of (item : WebhookInboxItem) (e : option WebhookError) : fate :=
  match e with
  | None | Some WIgnored => Applied
  | Some WInvalid => Abandoned
  | Some _ => if maxWebhookAttempts <=? wi_attempt item + 1 then Abandoned else Retried
  end.

Definition settle_item (own : text) (item : WebhookInboxItem) (e : option WebhookError) (s : draining) : draining * option DrainError :=
  let f := fate_of item e in
  let '(s, written) :=
    match f with
    | Retried =>
        let now := w_now w (calls_of s) in
        write_inbox own (RetryWebhook (wi_id item) (now + WorkflowFailureDelay (wi_attempt item))) (item, e) (tick own s)
    | _ => write_inbox own (DeleteWebhook (wi_id item)) (item, e) s
    end in
  (s, if written then None else Some DStore).

Fixpoint drain_items (h : WebhookHandler) (items : list WebhookInboxItem) (s : draining) : draining * option DrainError :=
  match items with
  | [] => (s, None)
  | item :: items =>
      let '(s, canceled) := ctx_error (hd_instance h) s in
      if canceled then (s, Some DCanceled)
      else
        let '(hs, _, e) := HandleAt h (wi_body item) (wi_received item) (dr_handling s) in
        let '(s, canceled) := ctx_error (hd_instance h) (move_on (hd_instance h) hs s) in
        if canceled then (s, Some DCanceled)
        else
          match settle_item (hd_instance h) item e s with
          | (s, Some e) => (s, Some e)
          | (s, None) => drain_items h items s
          end
  end.

(** [None] when more batches are due than the fuel allows. *)
Fixpoint Drain (fuel : nat) (h : WebhookHandler) (s : draining) : option (draining * option DrainError) :=
  match fuel with
  | O => None
  | S fuel =>
      let now := w_now w (calls_of s) in
      let s := tick (hd_instance h) s in
      if w_fails w (calls_of s) then Some (tick (hd_instance h) s, Some DStore)
      else
        let s := tick (hd_instance h) s in
        match DueWebhooks (hd_instance h) now webhookInboxBatch (dr_items s) with
        | [] => Some (s, None)
        | batch =>
            match drain_items h batch s with
            | (s, Some e) => Some (s, Some e)
            | (s, None) => Drain fuel h s
            end
        end
  end.

(** Between two drains a processor waits: longer after each failed one, during
    which no new webhook wakes it, and else until the next payload is due. The
    result is the wait, whether a webhook ends it, and the next error delay. *)
Definition next_wait (h : WebhookHandler) (failed : bool) (errorDelay : duration) (s : draining) : draining * (duration * bool * duration) :=
  if failed then let delay := nextWebhookErrorDelay errorDelay in (s, (delay, false, delay))
  else
    let n := calls_of s in
    let s := tick (hd_instance h) s in
    match if w_fails w n then None else NextWebhookAt (hd_instance h) (dr_items s) with
    | None => (s, (webhookInboxPoll, true, 0))
    | Some next => (tick (hd_instance h) s, (Z.min (Z.max (time_sub next (w_now w (calls_of s))) 0) webhookInboxPoll, true, 0))
    end.

(** ** No payload is lost *)

Definition same_payload (i j : WebhookInboxItem) : Prop :=
  wi_id i = wi_id j /\ wi_instance i = wi_instance j /\ wi_body i = wi_body j /\ wi_received i = wi_received j /\ wi_attempt i <= wi_attempt j.

Definition items_ok (own : text) (items : list WebhookInboxItem) : Prop :=
  NoDup (wi_id <$> items) /\ Forall (fun i => wi_instance i = own -> 0 <= wi_attempt i < maxWebhookAttempts) items.

(** The handlings an item of the instance can still have. *)
Definition attempts_left (own : text) (i : WebhookInboxItem) : nat :=
  if bool_decide (wi_instance i = own) then Z.to_nat (maxWebhookAttempts - wi_attempt i) else 0.
Definition pending_attempts (own : text) (items : list WebhookInboxItem) : nat := sum_list_with (attempts_left own) items.

(** The webhooks that arrive between two calls, of whatever instance. *)
Definition is_arrival (c : inbox_change) : bool := match c with Arrives _ _ _ => true | _ => false end.
Definition changes (m n : nat) : list inbox_change := mjoin (w_inbox w <$> seq m (n - m)).
Definition arrivals (m n : nat) : nat := length (base.filter (fun c => is_arrival c = true) (changes m n)).

Lemma arrivals_split m n k : (m <= n)%nat -> (n <= k)%nat -> arrivals m k = (arrivals m n + arrivals n k)%nat.
Proof.
  intros H1 H2. unfold arrivals, changes. replace (k - m)%nat with ((n - m) + (k - n))%nat by lia.
  rewrite seq_app, fmap_app, join_app, filter_app, length_app. by replace (m + (n - m))%nat with n by lia.
Qed.

Lemma arrivals_bounded m n k : (m <= n)%nat -> (forall j, (n <= j)%nat -> w_inbox w j = []) -> (arrivals m k <= arrivals m n)%nat.
Proof.
  intros Hm Hnone. destruct (Nat.le_gt_cases m k) as [Hk|Hk].
  2: { unfold arrivals at 1, changes. replace (k - m)%nat with 0%nat by lia. cbn. lia. }
  destruct (Nat.le_gt_cases n k) as [Hn|Hn]; [|rewrite (arrivals_split m k n) by lia; lia].
  rewrite (arrivals_split m n k) by done. enough (arrivals n k = 0)%nat by lia. unfold arrivals, changes.
  assert (forall j, j ∈ seq n (k - n) -> w_inbox w j = []) as Hseq by (intros j Hj%elem_of_seq; apply Hnone; lia).
  induction (seq n (k - n)) as [|j js IH]; [done|]. cbn. rewrite (Hseq j) by by left. apply IH. intros i Hi. apply Hseq. by right.
Qed.

Lemma pending_perm own l1 l2 : l1 ≡ₚ l2 -> pending_attempts own l1 = pending_attempts own l2.
Proof. unfold pending_attempts. induction 1; cbn; lia. Qed.

Lemma items_ok_perm own l1 l2 : l1 ≡ₚ l2 -> items_ok own l1 -> items_ok own l2.
Proof. intros Hp [Hn Hf]. split; [by rewrite <- Hp|by rewrite <- Hp]. Qed.

Lemma others_kept item rest : NoDup (wi_id <$> item :: rest) -> Forall (fun j => wi_id j <> wi_id item) rest.
Proof.
  rewrite fmap_cons. intros [Hni _]%NoDup_cons. apply Forall_forall. intros j Hj E. apply Hni. rewrite <- E. by apply list_elem_of_fmap_2.
Qed.

Lemma delete_perm item rest items : items ≡ₚ item :: rest -> NoDup (wi_id <$> items) -> DeleteWebhook (wi_id item) items ≡ₚ rest.
Proof.
  intros Hp Hn. rewrite Hp in Hn. unfold DeleteWebhook. rewrite Hp. rewrite filter_cons_False by tauto.
  apply others_kept in Hn. clear Hp. induction Hn as [|j rest Hj _ IH]; [done|]. rewrite filter_cons_True by done. by constructor.
Qed.

Lemma NoDup_fmap_id items (Hn : NoDup (wi_id <$> items)) i j : i ∈ items -> j ∈ items -> wi_id i = wi_id j -> i = j.
Proof.
  intros [a Ha]%list_elem_of_lookup [b Hb]%list_elem_of_lookup E.
  assert (a = b) as -> by (apply (NoDup_lookup (wi_id <$> items) a b (wi_id i)); [done|by rewrite list_lookup_fmap, Ha|by rewrite list_lookup_fmap, Hb, E]).
  congruence.
Qed.

Definition retried (next : instant) (i : WebhookInboxItem) : WebhookInboxItem :=
  mkItem (wi_id i) (wi_instance i) (wi_body i) (wi_received i) (wi_attempt i + 1) next.

Lemma retry_perm item rest items next : items ≡ₚ item :: rest -> NoDup (wi_id <$> items) ->
  RetryWebhook (wi_id item) next items ≡ₚ retried next item :: rest.
Proof.
  intros Hp Hn. rewrite Hp in Hn. unfold RetryWebhook. rewrite Hp, fmap_cons, Z.eqb_refl. constructor.
  apply others_kept in Hn. clear Hp. induction Hn as [|j rest Hj _ IH]; [done|]. rewrite fmap_cons, (proj2 (Z.eqb_neq _ _) Hj). by constructor.
Qed.

Lemma same_refl i : same_payload i i.
Proof. by split_and!. Qed.

Lemma same_trans i j k : same_payload i j -> same_payload j k -> same_payload i k.
Proof. intros (? & ? & ? & ? & ?) (? & ? & ? & ? & ?). split_and!; congruence || lia. Qed.

Lemma has_applied_calls key s : hs_calls (has_applied key s).1 = S (hs_calls s).
Proof. done. Qed.

Lemma apply_event_calls m s : hs_calls (apply_event m s).1 = S (hs_calls s).
Proof. unfold apply_event. destruct (w_fails w _); [done|]. by destruct (ApplyMediaEvent _ _ _) as [[]|]. Qed.

Lemma handle_events_calls h now events p s : (hs_calls s <= hs_calls (handle_events h now events p s).1.1)%nat.
Proof.
  revert p s. induction events as [|e events IH]; intros p s; cbn [handle_events]; [done|].
  destruct (has_applied (we_id e) s) as [s1 committed] eqn:E1. pose proof (has_applied_calls (we_id e) s) as C1. rewrite E1 in C1. cbn in C1.
  destruct committed as [[|]|]; [etrans; [|apply IH]; lia| |cbn; lia].
  set (hydrated := if bool_decide _ then _ else _).
  assert (hs_calls s1 <= hs_calls hydrated.1)%nat as Ch by (unfold hydrated, get_media; case_bool_decide; cbn; lia).
  destruct hydrated as [s2 [[media|]|]]; cbn [fst] in Ch; [|cbn; lia|etrans; [|apply IH]; lia].
  destruct (apply_event _ s2) as [s3 applied] eqn:E3. pose proof (apply_event_calls (event_mutation h now e media) s2) as C3. rewrite E3 in C3. cbn in C3.
  destruct applied; [etrans; [|apply IH]; lia|cbn; lia].
Qed.

Lemma HandleAt_calls h body at_ s : (hs_calls s <= hs_calls (HandleAt h body at_ s).1.1)%nat.
Proof.
  unfold HandleAt. destruct (NormalizeWebhook _ _ _) as [events|]; [|done].
  pose proof (handle_events_calls h at_ events (mkProgress 0 0) s) as Hc. destruct (handle_events _ _ _ _ _) as [[s1 p] e]. cbn in *.
  by destruct (0 <? pg_applied p).
Qed.

Section lossless.
Context (h : WebhookHandler).
#[local] Abbreviation own := (hd_instance h).

(** A payload is still stored or settled for good. *)
Definition safe (i : WebhookInboxItem) (s : draining) : Prop :=
  (exists j, j ∈ dr_items s /\ same_payload i j) \/ exists j e, (j, e) ∈ dr_log s /\ same_payload i j /\ fate_of j e <> Retried.

(** What every part of a drain keeps: no payload of the instance is lost, also
    none that arrived, and the attempts left grow by arrivals only. *)
Record drained (s s' : draining) (settled_one : bool) : Prop := {
  dd_items : items_ok own (dr_items s');
  dd_log : forall entry, entry ∈ dr_log s -> entry ∈ dr_log s';
  dd_lost : exists new, dr_arrived s' = dr_arrived s ++ new
    /\ forall i, i ∈ dr_items s \/ i ∈ new -> wi_instance i = own -> safe i s';
  dd_calls : (calls_of s <= calls_of s')%nat;
  dd_measure : (pending_attempts own (dr_items s') + (if settled_one then 1 else 0)
                <= pending_attempts own (dr_items s) + Z.to_nat maxWebhookAttempts * arrivals (calls_of s) (calls_of s'))%nat;
}.

Lemma stored_safe i s : i ∈ dr_items s -> safe i s.
Proof. intros Hi. left. exists i. split; [done|apply same_refl]. Qed.

Lemma drained_refl s : items_ok own (dr_items s) -> drained s s false.
Proof.
  intros Hok. split; [done..| |lia|lia]. exists []. split; [by rewrite app_nil_r|]. intros i [Hi|Hi] _; [by apply stored_safe|by inversion Hi].
Qed.

Lemma drained_trans s1 s2 s3 b1 b2 : drained s1 s2 b1 -> drained s2 s3 b2 -> drained s1 s3 (b1 || b2).
Proof.
  intros [_ L1 (n1 & A1 & S1) C1 M1] [O2 L2 (n2 & A2 & S2) C2 M2]. split; [done|auto| |lia|].
  - exists (n1 ++ n2). split; [by rewrite A2, A1, app_assoc|]. intros i Hi Hown.
    assert (i ∈ n2 \/ safe i s2) as [Hn|[(j & Hj & Hs)|(j & e & Hj & Hs & Hf)]].
    { destruct Hi as [Hi|[Hi|Hi]%elem_of_app]; [right|right|by left]; apply S1; auto. }
    + apply S2; auto.
    + pose proof Hs as (_ & Hi2 & _). destruct (S2 j) as [(k & Hk & Hs2)|(k & e & Hk & Hs2 & Hf2)]; [by left|congruence| |].
      * left. exists k. split; [done|by eapply same_trans].
      * right. exists k, e. split_and!; [done|by eapply same_trans|done].
    + right. exists j, e. split_and!; auto.
  - rewrite (arrivals_split _ (calls_of s2)) by done. destruct b1, b2; cbn [orb] in *; lia.
Qed.

Lemma drained_weaken s s' b : drained s s' b -> drained s s' false.
Proof. intros [? ? ? ? M]. split; [done..|]. destruct b; lia. Qed.

(** *** What happens beside the processor *)

(** The inbox after the changes of others. *)
Record beside (s s' : draining) (n : nat) : Prop := {
  bs_items : items_ok own (dr_items s');
  bs_log : dr_log s' = dr_log s;
  bs_lost : exists new, dr_arrived s' = dr_arrived s ++ new /\ forall i, i ∈ new -> wi_instance i = own -> i ∈ dr_items s';
  bs_stored : forall i, i ∈ dr_items s -> wi_instance i = own -> i ∈ dr_items s';
  bs_handling : dr_handling s' = dr_handling s;
  bs_measure : (pending_attempts own (dr_items s') <= pending_attempts own (dr_items s) + Z.to_nat maxWebhookAttempts * n)%nat;
}.

Lemma pending_filter items (P : WebhookInboxItem -> Prop) `{forall i, Decision (P i)} :
  (pending_attempts own (base.filter P items) <= pending_attempts own items)%nat.
Proof.
  unfold pending_attempts. induction items as [|i items IH]; [done|]. destruct (decide (P i)).
  - rewrite filter_cons_True by done. cbn. lia.
  - rewrite filter_cons_False by done. cbn. lia.
Qed.

Lemma beside_change s c : items_ok own (dr_items s) -> beside s (change_inbox own s c) (if is_arrival c then 1 else 0).
Proof.
  intros [Hn Hf]. destruct c as [instance body receivedAt|id|id next]; cbn [change_inbox is_arrival].
  - unfold EnqueueWebhook. destruct (_ || _).
    { split; [done..| | done|done|lia]. exists []. split; [by rewrite app_nil_r|]. intros i Hi. by inversion Hi. }
    set (id := next_id _). set (new := mkItem id instance body receivedAt 0 receivedAt).
    split; cbn [dr_items dr_log dr_arrived dr_handling]; [|done| | |done|].
    + split.
      * rewrite fmap_app. apply NoDup_app. split_and!; [done| |apply NoDup_singleton].
        intros x Hx ->%list_elem_of_singleton. apply max_below in Hx. subst id new. cbn in Hx. unfold next_id in Hx. lia.
      * apply Forall_app_2; [done|]. constructor; [|done]. unfold maxWebhookAttempts. cbn. lia.
    + exists [new]. split; [done|]. intros i Hi _. apply elem_of_app. by right.
    + intros i Hi _. apply elem_of_app. by left.
    + unfold pending_attempts. rewrite sum_list_with_app. cbn. unfold attempts_left at 2. case_bool_decide; unfold maxWebhookAttempts; cbn; lia.
  - split; cbn [dr_items dr_log dr_arrived dr_handling]; [|done| | |done|pose proof (pending_filter (dr_items s) (fun i => wi_instance i = own \/ wi_id i <> id)); lia].
    + split; [eapply sublist_NoDup; [exact Hn|]; apply fmap_sublist, sublist_filter|]. apply Forall_forall. intros i [_ Hi]%list_elem_of_filter. by apply (proj1 (Forall_forall _ _) Hf).
    + exists []. split; [by rewrite app_nil_r|]. intros i Hi. by inversion Hi.
    + intros i Hi Ho. apply list_elem_of_filter. auto.
  - set (f := fun i => if bool_decide (wi_instance i = own) then i else _).
    assert (forall i, wi_id (f i) = wi_id i /\ wi_instance (f i) = wi_instance i /\ (wi_instance i = own -> f i = i)) as Hfi.
    { intros i. unfold f. case_bool_decide; [done|]. by destruct (wi_id i =? id). }
    split; cbn [dr_items dr_log dr_arrived dr_handling]; [|done| | |done|].
    + split.
      * rewrite <- list_fmap_compose. erewrite list_fmap_ext; [exact Hn|]. intros ? i _. apply Hfi.
      * apply Forall_fmap. eapply Forall_impl; [exact Hf|]. intros i Hi Ho. cbn in *.
        destruct (Hfi i) as (_ & Hinst & Hid). rewrite Hinst in Ho. rewrite Hid by done. by apply Hi.
    + exists []. split; [by rewrite app_nil_r|]. intros i Hi. by inversion Hi.
    + intros i Hi Ho. destruct (Hfi i) as (_ & _ & <-); [|done]. by apply list_elem_of_fmap_2.
    + assert (pending_attempts own (f <$> dr_items s) = pending_attempts own (dr_items s)) as ->; [|lia].
      unfold pending_attempts. induction (dr_items s) as [|i items IH]; [done|]. rewrite fmap_cons. cbn [sum_list_with].
      assert (attempts_left own (f i) = attempts_left own i) as ->; [|apply NoDup_cons in Hn as [_ Hn]; apply Forall_cons in Hf as [_ Hf]; by rewrite IH].
      unfold attempts_left. destruct (Hfi i) as (_ & -> & Hid). case_bool_decide; [by rewrite Hid|done].
Qed.

Lemma beside_fold changes s : items_ok own (dr_items s) ->
  beside s (foldl (change_inbox own) s changes) (length (base.filter (fun c => is_arrival c = true) changes)).
Proof.
  revert s. induction changes as [|c changes IH]; intros s Hok; cbn [foldl].
  { split; [done..| |done|done|cbn; lia]. exists []. split; [by rewrite app_nil_r|]. intros i Hi. by inversion Hi. }
  pose proof (beside_change s c Hok) as [O1 L1 (n1 & A1 & N1) S1 H1 M1]. destruct (IH _ O1) as [O2 L2 (n2 & A2 & N2) S2 H2 M2].
  split; [done|congruence| |auto|congruence|].
  - exists (n1 ++ n2). split; [by rewrite A2, A1, app_assoc|]. intros i [Hi|Hi]%elem_of_app; auto.
  - destruct (is_arrival c) eqn:E; [rewrite filter_cons_True by done|rewrite filter_cons_False by congruence]; cbn [length]; lia.
Qed.

Lemma drained_move_on s hs : items_ok own (dr_items s) -> (calls_of s <= hs_calls hs)%nat -> drained s (move_on own hs s) false.
Proof.
  intros Hok Hc. unfold move_on. set (s1 := mkDraining hs _ _ _).
  destruct (beside_fold (changes (calls_of s) (hs_calls hs)) s1 Hok) as [O L (new & A & N) S Hh M].
  assert (calls_of (foldl (change_inbox own) s1 (changes (calls_of s) (hs_calls hs))) = hs_calls hs) as Hcalls by (unfold calls_of at 1; by rewrite Hh).
  split; fold (changes (calls_of s) (hs_calls hs)); [done|by rewrite L| |by rewrite Hcalls|rewrite Hcalls; unfold arrivals; change (dr_items s1) with (dr_items s) in M; lia].
  exists new. split; [done|]. intros i [Hi|Hi] Ho; apply stored_safe; auto.
Qed.

(** The payloads of the instance stay where they are. *)
Lemma move_on_stored s hs i : items_ok own (dr_items s) -> i ∈ dr_items s -> wi_instance i = own -> i ∈ dr_items (move_on own hs s).
Proof. intros Hok. by apply (bs_stored _ _ _ (beside_fold _ (mkDraining hs (dr_items s) (dr_log s) (dr_arrived s)) Hok)). Qed.

Lemma calls_move_on s hs : items_ok own (dr_items s) -> calls_of (move_on own hs s) = hs_calls hs.
Proof. intros Hok. unfold calls_of, move_on. by rewrite (bs_handling _ _ _ (beside_fold _ (mkDraining hs _ _ _) Hok)). Qed.

Lemma drained_tick s : items_ok own (dr_items s) -> drained s (tick own s) false.
Proof. intros Hok. apply drained_move_on; [done|]. cbn. lia. Qed.

Lemma calls_tick s : items_ok own (dr_items s) -> calls_of (tick own s) = S (calls_of s).
Proof. intros Hok. by apply calls_move_on. Qed.

(** *** Settling *)

(** A settled item leaves the inbox, or stays with one attempt more. *)
Lemma drained_settled s item items' e :
  items_ok own (dr_items s) -> item ∈ dr_items s -> wi_instance item = own ->
  (fate_of item e <> Retried /\ items' = DeleteWebhook (wi_id item) (dr_items s)
   \/ wi_attempt item + 1 < maxWebhookAttempts /\ exists next, items' = RetryWebhook (wi_id item) next (dr_items s)) ->
  drained s (mkDraining (dr_handling s) items' ((item, e) :: dr_log s) (dr_arrived s)) true
  /\ forall j, j ∈ dr_items s -> wi_id j <> wi_id item -> j ∈ items'.
Proof.
  intros Hok Hin Hown Hcase. destruct (proj1 (elem_of_Permutation _ _) Hin) as [rest Hp]. pose proof Hok as [Hn _].
  assert (exists kept, items' ≡ₚ kept ++ rest /\ items_ok own (kept ++ rest) /\ (pending_attempts own kept + 1 <= attempts_left own item)%nat
    /\ (fate_of item e <> Retried \/ exists j, j ∈ kept /\ same_payload item j)) as (kept & Hp' & Hok' & Hm & Hs).
  { apply (items_ok_perm _ _ _ Hp) in Hok as [Hn2 [Ha Hf]%Forall_cons]. specialize (Ha Hown).
    pose proof Hn2 as Hn3. rewrite fmap_cons in Hn3. apply NoDup_cons in Hn3 as [_ Hnr].
    assert (attempts_left own item = Z.to_nat (maxWebhookAttempts - wi_attempt item)) as -> by (unfold attempts_left; by rewrite bool_decide_true).
    unfold maxWebhookAttempts in *. destruct Hcase as [[Hfate ->]|[Hlt [next ->]]].
    - exists []. split_and!; [by apply delete_perm|by split|cbn; lia|by left].
    - exists [retried next item]. split_and!; [by apply retry_perm| | |].
      + split; [exact Hn2|]. constructor; [unfold maxWebhookAttempts; cbn; lia|done].
      + unfold pending_attempts, attempts_left, maxWebhookAttempts. cbn. case_bool_decide; lia.
      + right. exists (retried next item). split; [by apply list_elem_of_singleton|]. split_and!; cbn; (done || lia). }
  assert (forall j, j ∈ dr_items s -> wi_id j <> wi_id item -> j ∈ items') as Hothers.
  { intros j Hj Hne. rewrite Hp in Hj. rewrite Hp'. apply elem_of_cons in Hj as [->|?]; [done|]. apply elem_of_app. by right. }
  split; [|done]. split; cbn [dr_items dr_log dr_arrived].
  - by eapply items_ok_perm.
  - intros entry He. by right.
  - exists []. split; [by rewrite app_nil_r|]. intros i [Hi|Hi] _; [|by inversion Hi].
    destruct (decide (wi_id i = wi_id item)) as [Hid|Hne]; [|by apply stored_safe, Hothers].
    assert (i = item) as -> by by eapply NoDup_fmap_id. destruct Hs as [Hs|(j & Hj & Hs)].
    + right. exists item, e. split_and!; [by left|apply same_refl|done].
    + left. exists j. split; [|done]. cbn. rewrite Hp'. apply elem_of_app. by left.
  - done.
  - rewrite (pending_perm _ _ _ Hp), (pending_perm _ _ _ Hp'). unfold pending_attempts in *. rewrite sum_list_with_app. cbn. lia.
Qed.

Lemma settle_step item e s s' o :
  items_ok own (dr_items s) -> item ∈ dr_items s -> wi_instance item = own -> settle_item own item e s = (s', o) ->
  drained s s' (bool_decide (o = None))
  /\ forall j, j ∈ dr_items s -> wi_instance j = own -> wi_id j <> wi_id item -> j ∈ dr_items s'.
Proof.
  intros Hok Hin Hown E. pose proof (drained_tick s Hok) as H1. pose proof (dd_items _ _ _ H1) as Hok1.
  assert (forall hs j, j ∈ dr_items s -> wi_instance j = own -> j ∈ dr_items (move_on own hs s)) as Hk1 by (intros; by apply move_on_stored).
  unfold settle_item, write_inbox in E. destruct (fate_of item e) eqn:Efate.
  1,2: destruct (w_fails w _); injection E as <- <-; [split; [by rewrite bool_decide_false|by intros; apply Hk1]|];
    (destruct (drained_settled (tick own s) item (DeleteWebhook (wi_id item) (dr_items (tick own s))) e Hok1 (Hk1 _ _ Hin Hown) Hown) as [H2 Ho];
      [left; by rewrite Efate|]);
    (split; [rewrite bool_decide_true by done; exact (drained_trans _ _ _ _ _ H1 H2)|]); intros j Hj Hjo Hne; apply Ho; [by apply Hk1|done].
  pose proof (drained_trans _ _ _ _ _ H1 (drained_tick _ Hok1)) as H2. pose proof (dd_items _ _ _ H2) as Hok2.
  assert (forall j, j ∈ dr_items s -> wi_instance j = own -> j ∈ dr_items (tick own (tick own s))) as Hk2.
  { intros j Hj Hjo. apply move_on_stored; [done|by apply Hk1|done]. }
  destruct (w_fails w _); injection E as <- <-; [split; [by rewrite bool_decide_false|by intros; apply Hk2]|].
  set (next := _ + _). assert (wi_attempt item + 1 < maxWebhookAttempts) as Hlt.
  { unfold fate_of in Efate. destruct e as [[]|]; try done; by destruct (Z.leb_spec maxWebhookAttempts (wi_attempt item + 1)). }
  destruct (drained_settled (tick own (tick own s)) item (RetryWebhook (wi_id item) next (dr_items (tick own (tick own s)))) e Hok2 (Hk2 _ Hin Hown) Hown)
    as [H3 Ho]; [right; split; [done|by exists next]|].
  split; [rewrite bool_decide_true by done; exact (drained_trans _ _ _ _ _ H2 H3)|]. intros j Hj Hjo Hne. apply Ho; [by apply Hk2|done].
Qed.

Lemma drain_items_ok items s s' o : items_ok own (dr_items s) -> NoDup (wi_id <$> items) ->
  (forall i, i ∈ items -> i ∈ dr_items s /\ wi_instance i = own) ->
  drain_items h items s = (s', o) -> drained s s' (bool_decide (o = None) && negb (bool_decide (items = []))).
Proof.
  revert s. induction items as [|item items IH]; intros s Hok Hn Hin; cbn [drain_items].
  { intros [= <- <-]. by apply drained_refl. }
  unfold ctx_error. pose proof (drained_tick s Hok) as H1. pose proof (dd_items _ _ _ H1) as Hok1.
  destruct (w_done w (calls_of s)); [intros [= <- <-]; by rewrite bool_decide_false|].
  pose proof (HandleAt_calls h (wi_body item) (wi_received item) (dr_handling (tick own s))) as Hc.
  destruct (HandleAt h (wi_body item) (wi_received item) (dr_handling (tick own s))) as [[hs r] e]. cbn [fst snd] in Hc.
  pose proof (drained_move_on _ hs Hok1 Hc) as H2. set (s2 := move_on own hs (tick own s)) in *. pose proof (dd_items _ _ _ H2) as Hok2.
  pose proof (drained_tick s2 Hok2) as H3. pose proof (dd_items _ _ _ H3) as Hok3.
  pose proof (drained_trans _ _ _ _ _ (drained_trans _ _ _ _ _ H1 H2) H3) as Hd. cbn [orb] in Hd.
  assert (forall j, j ∈ dr_items s -> wi_instance j = own -> j ∈ dr_items (tick own s2)) as Hkept.
  { intros j Hj Ho. apply move_on_stored; [done| |done]. apply move_on_stored; [done| |done]. by apply move_on_stored. }
  destruct (w_done w (calls_of s2)); [intros [= <- <-]; by rewrite bool_decide_false|].
  destruct (Hin item) as [Hi Hio]; [by left|].
  destruct (settle_item own item e (tick own s2)) as [s4 o4] eqn:E4.
  destruct (settle_step _ _ _ _ _ Hok3 (Hkept _ Hi Hio) Hio E4) as [H4 Hothers].
  pose proof (drained_trans _ _ _ _ _ Hd H4) as H5. cbn [orb] in H5.
  destruct o4 as [err|]; [intros [= <- <-]; by rewrite bool_decide_false in H5 |- *|]. intros E.
  rewrite fmap_cons in Hn. apply NoDup_cons in Hn as [Hni Hn].
  apply IH in E; [|by apply (dd_items _ _ _ H5)|done|].
  - pose proof (drained_trans _ _ _ _ _ H5 E) as H6. rewrite (bool_decide_true (None = None)) in H6 by done. cbn [orb] in H6.
    destruct (bool_decide (o = None) && negb (bool_decide (item :: items = []))); [exact H6|]. exact (drained_weaken _ _ _ H6).
  - intros i Hi2. destruct (Hin i) as [Hi3 Hio3]; [by right|]. split; [|done]. apply Hothers; [by apply Hkept|done|].
    intros Hid. apply Hni. rewrite <- Hid. by apply list_elem_of_fmap_2.
Qed.

Lemma due_spec now limit items : items_ok own items ->
  NoDup (wi_id <$> DueWebhooks own now limit items) /\ forall i, i ∈ DueWebhooks own now limit items -> i ∈ items /\ wi_instance i = own.
Proof.
  intros [Hn _]. unfold DueWebhooks. set (l := stable_sort older _).
  assert (l ≡ₚ base.filter (fun i => waiting own now i = true) items) as Hp by apply stable_sort_perm.
  assert (NoDup (wi_id <$> l)) as Hnl.
  { rewrite Hp. eapply sublist_NoDup; [exact Hn|]. apply fmap_sublist, sublist_filter. }
  split.
  - eapply sublist_NoDup; [exact Hnl|]. apply fmap_sublist, sublist_take.
  - intros i Hi. eapply elem_of_sublist in Hi; [|apply sublist_take]. rewrite Hp in Hi. apply list_elem_of_filter in Hi as [Hw Hi].
    split; [done|]. unfold waiting in Hw. by apply andb_true_iff in Hw as [Hw%bool_decide_eq_true _].
Qed.

Lemma none_due instance now limit items : (0 < limit)%nat -> DueWebhooks instance now limit items = [] ->
  forall i, i ∈ items -> wi_instance i = instance -> now < wi_next i.
Proof.
  unfold DueWebhooks. intros Hl E i Hi Hinst. destruct (Z.ltb_spec now (wi_next i)); [done|exfalso].
  assert (i ∈ stable_sort older (base.filter (fun i => waiting instance now i = true) items)) as Hin.
  { rewrite stable_sort_perm. apply list_elem_of_filter. split; [|done]. unfold waiting. rewrite bool_decide_true by done. cbn [andb]. lia. }
  destruct (stable_sort _ _) as [|x l]; [by inversion Hin|]. destruct limit; [lia|done].
Qed.

(** Enough fuel: one batch per attempt left. *)
Lemma Drain_ends fuel s : items_ok own (dr_items s) ->
  (forall n, pending_attempts own (dr_items s) + Z.to_nat maxWebhookAttempts * arrivals (calls_of s) n < fuel)%nat ->
  exists s' o, Drain fuel h s = Some (s', o) /\ drained s s' false
    /\ (o = None -> exists n, (calls_of s <= n < calls_of s')%nat
         /\ forall i, i ∈ dr_items s' -> wi_instance i = own -> w_now w n < wi_next i).
Proof.
  revert s. induction fuel as [|fuel IH]; intros s Hok Hfuel; [specialize (Hfuel 0%nat); lia|]. cbn [Drain].
  pose proof (drained_tick s Hok) as H1. pose proof (dd_items _ _ _ H1) as Hok1.
  pose proof (drained_trans _ _ _ _ _ H1 (drained_tick _ Hok1)) as H2. pose proof (dd_items _ _ _ H2) as Hok2.
  set (s2 := tick own (tick own s)) in *. destruct (w_fails w _); [by exists s2, (Some DStore)|].
  destruct (due_spec (w_now w (calls_of s)) webhookInboxBatch (dr_items s2) Hok2) as [Hn Hin].
  destruct (DueWebhooks _ _ _ _) as [|item batch] eqn:Ed.
  { exists s2, None. split_and!; [done..|]. intros _. exists (calls_of s).
    split; [unfold s2; rewrite !calls_tick by done; lia|]. eapply none_due; [|exact Ed]. unfold webhookInboxBatch. lia. }
  destruct (drain_items h (item :: batch) s2) as [s3 o3] eqn:E3. apply drain_items_ok in E3; [|done..].
  pose proof (drained_trans _ _ _ _ _ H2 E3) as H3. cbn [orb] in H3.
  destruct o3 as [err|]; [exists s3, (Some err); split_and!; [done|by eapply drained_weaken|done]|].
  cbn in H3. destruct (IH s3) as (s' & o & E & H4 & Hd); [apply (dd_items _ _ _ H3)| |].
  - intros n. pose proof (dd_measure _ _ _ H3) as M. cbn in M. pose proof (dd_calls _ _ _ H3) as C. destruct (Nat.le_gt_cases (calls_of s3) n) as [Hle|Hgt].
    + specialize (Hfuel n). rewrite (arrivals_split _ (calls_of s3)) in Hfuel by done. lia.
    + specialize (Hfuel (calls_of s3)). unfold arrivals at 1, changes. replace (n - calls_of s3)%nat with 0%nat by lia. cbn. lia.
  - exists s', o. split_and!; [done|apply (drained_weaken _ _ true), (drained_trans _ _ _ true false H3 H4)|].
    intros Ho. destruct (Hd Ho) as (n & Hn2 & Hnone). exists n. split; [|done]. pose proof (dd_calls _ _ _ H3). lia.
Qed.
End lossless.

(** C11. Draining the inbox ends and loses no payload. Whatever the payloads, the
    Arr applications, failing database calls, other transactions and a
    cancellation do, and while further webhooks arrive, a drain ends within one
    batch per attempt that the payloads of its instance have left, those that
    arrive meanwhile included; then every payload of the instance that it began
    with or that arrived during it is still stored, with its body and time, or
    was settled for good: applied, recognized as irrelevant or invalid, or given
    up at its seventh attempt. A drain that ends without an error left no payload
    of its instance that was due by its last look at the clock. *)
Theorem no_webhook_is_lost h fuel s :
  items_ok (hd_instance h) (dr_items s) -> dr_log s = [] -> dr_arrived s = [] ->
  (forall n, pending_attempts (hd_instance h) (dr_items s) + Z.to_nat maxWebhookAttempts * arrivals (calls_of s) n < fuel)%nat ->
  exists s' o, Drain fuel h s = Some (s', o)
    /\ (forall i, i ∈ dr_items s \/ i ∈ dr_arrived s' -> wi_instance i = hd_instance h ->
         (exists j, j ∈ dr_items s' /\ same_payload i j)
         \/ exists j e, (j, e) ∈ dr_log s' /\ same_payload i j
             /\ (e = None \/ e = Some WIgnored \/ e = Some WInvalid \/ maxWebhookAttempts <= wi_attempt j + 1))
    /\ (o = None -> exists n, (calls_of s <= n < calls_of s')%nat
         /\ forall i, i ∈ dr_items s' -> wi_instance i = hd_instance h -> w_now w n < wi_next i).
Proof.
  intros Hok _ Ha Hfuel. destruct (Drain_ends h fuel s Hok Hfuel) as (s' & o & E & [_ _ (new & Hnew & Hl) _ _] & Hd).
  exists s', o. split_and!; [done| |done]. rewrite Hnew, Ha. intros i Hi Ho.
  destruct (Hl i Hi Ho) as [?|(j & e & ? & ? & Hf)]; [by left|right]. exists j, e. split_and!; [done..|].
  unfold fate_of in Hf. destruct e as [[]|]; try by auto. all: destruct (Z.leb_spec maxWebhookAttempts (wi_attempt j + 1)); [by auto|congruence].
Qed.
End webhook.

(** ** A processor *)

Section sample.
#[local] Existing Instance latin1.

Definition no_file : webhookFile := mkWebhookFile 0 0 [] [] [] [] [] [].
Definition heat_file : webhookFile := mkWebhookFile 31 100 heat [] [] [] [] [].
Definition movie_payload (event : text) (movie : Z) (file : webhookFile) (renamed : list webhookFile) : webhookPayload :=
  mkWebhookPayload 0 movie event false file no_file [] [] renamed.

(** Bodies 1 to 4: an import, a removal, a test and something unreadable. *)
Definition sample_decoder (body : list N) : option webhookPayload :=
  match body with
  | [1%N] => Some (movie_payload (t "Download") 0 heat_file [])
  | [2%N] => Some (movie_payload (t "MovieDelete") 7 no_file [])
  | [3%N] => Some (movie_payload (t "Test") 0 no_file [])
  | _ => None
  end.
(** A hash that tells the texts of the samples apart by their ends. *)
Definition plain_hash (s : list N) : text := reverse s.

(** Arr cannot be reached at first; webhooks arrive during the drain. *)
Definition sample_world : world :=
  mkWorld (fun n _ => if (n <? 8)%nat then Unavailable else Hydrated (movie heat 100)) (fun _ lb => lb)
    (fun n => if (n =? 5)%nat then [Arrives (t "radarr") [2%N] 300; Arrives (t "sonarr") [4%N] 310; SettledElsewhere 4] else []) (fun _ => false)
    (fun n => 1000 + Z.of_nat n * minute) (fun _ => false).
Definition radarr : WebhookHandler := mkHandler (t "radarr") (t "Radarr") [t "en"].

Definition waiting_items : list WebhookInboxItem :=
  [mkItem 1 (t "radarr") [1%N] 100 0 100; mkItem 2 (t "radarr") [3%N] 110 0 110; mkItem 3 (t "radarr") [2%N] 120 0 120;
   mkItem 4 (t "sonarr") [4%N] 130 0 130].
Definition before : draining := mkDraining (mkHandling 0 empty_library 0) waiting_items [] [].

(** The removal that arrives meanwhile is drained too. The import fails, and is applied when the removal that arrived after it
    already was: a retried payload loses its place. *)
Definition outcomes (r : option (draining * option DrainError)) : list (Z * fate) :=
  match r with Some (s, None) => (fun p => (wi_id p.1, fate_of p.1 p.2)) <$> dr_log s | _ => [] end.
Example drained_outcomes :
  outcomes (Drain plain_hash sample_decoder sample_world 40 radarr before) = [(5, Applied); (1, Applied); (3, Applied); (2, Applied); (1, Retried)].
Proof. vm_compute. reflexivity. Qed.

Lemma no_webhook_is_lost_witness : exists s' o, Drain plain_hash sample_decoder sample_world 40 radarr before = Some (s', o).
Proof.
  destruct (no_webhook_is_lost plain_hash sample_decoder sample_world radarr 40 before) as (s' & o & E & _).
  - split; [apply (bool_decide_unpack _); by vm_compute|]. repeat constructor; vm_compute; discriminate.
  - done.
  - done.
  - intros n. assert (arrivals sample_world 0 n <= 2)%nat as Hn; [|vm_compute (pending_attempts _ _); vm_compute (Z.to_nat _); change (calls_of before) with 0%nat; lia].
    etrans; [apply (arrivals_bounded _ 0 6); [lia|]|by vm_compute]. intros j Hj. cbn. by rewrite (proj2 (Nat.eqb_neq j 5)) by lia.
  - by exists s', o.
Defined.

(** An event is known by its names alone: of three renames between two names
    the third is taken for the first, and the library keeps the old name. *)
Definition rename_decoder (body : list N) : option webhookPayload :=
  let renamed path previous := movie_payload (t "Rename") 0 no_file [mkWebhookFile 31 100 path [] previous [] [] []] in
  match body with [1%N] => Some (renamed moved_heat heat) | _ => Some (renamed heat moved_heat) end.
Definition renaming (path : text) (body : list N) (at_ : instant) (s : handling) : handling :=
  (HandleAt plain_hash rename_decoder (mkWorld (fun _ _ => Hydrated (movie path 100)) (fun _ lb => lb) (fun _ => []) (fun _ => false) (fun _ => at_) (fun _ => false))
     radarr body at_ s).1.1.
Example third_rename_is_missed :
  (fun kr => FpPath (Fingerprint (ct_media kr.2))) <$> map_to_list (lb_media (hs_library
     (renaming moved_heat [1%N] 600 (renaming heat [2%N] 500 (renaming moved_heat [1%N] 400 (mkHandling 0 start 0)))))) = [heat].
Proof. vm_compute. reflexivity. Qed.
End sample.
