(* ===== verification/Config.v ===== *)
(** * Configuration (src/internal/config/config.go)

    What [Load] accepts and what it makes of it: the YAML document as a tree,
    environment references, defaults, and the validation every other component
    builds on. YAML itself (gopkg.in/yaml.v3) and the parts of [net/url] the
    validation reads are parameters; floating-point settings are binary64
    values of [SpecFloat], with infinities and NaN. *)
From Stdlib Require Import SpecFloat.
From S2P Require Import Prelude GoText Paths Domain.

#[local] Open Scope Z_scope.

(** ** Binary64 *)

Definition binary64 := spec_float.
Definition b64 (z : Z) : binary64 := binary_normalize 53 1024 z 0 false.
Definition is_nan (f : binary64) : bool := match f with S754_nan => true | _ => false end.
Definition is_inf (f : binary64) : bool := match f with S754_infinity _ => true | _ => false end.

(** Conversion to [int64]: truncation; a value out of range gives the least
    integer, as amd64 does. *)
Definition to_int64 (f : binary64) : Z :=
  match f with
  | S754_finite s m e =>
      let magnitude := if 0 <=? e then Zpos m * 2 ^ e else Zpos m / 2 ^ (- e) in
      let v := if s then - magnitude else magnitude in
      if (- 2 ^ 63 <=? v) && (v <? 2 ^ 63) then v else - 2 ^ 63
  | S754_zero _ => 0
  | _ => - 2 ^ 63
  end.

(** ** Network addresses *)

(** The fields of a [url.URL] the validation reads. *)
Record URL := mkURL {
  UScheme : text; UHost : text; UHostname : text; UUser : option text;
  URawQuery : text; UForceQuery : bool; UFragment : text;
}.
Class UrlSyntax := { url_Parse : text -> option URL; url_ParseRequestURI : text -> option URL }.

(** [strings.LastIndexByte]. *)
Definition last_index (r : rune) (s : text) : option nat :=
  match index_of [r] (rev s) with
  | Some i => Some (length s - 1 - i)%nat
  | None => None
  end.

(** [net.SplitHostPort]. *)
Definition SplitHostPort (hostport : text) : option (text * text) :=
  match last_index 58%N hostport with
  | None => None
  | Some i =>
      if has_prefix (t "[") hostport then
        match index_of (t "]") hostport with
        | None => None
        | Some close =>
            if negb (S close =? i)%nat then None
            else if contains (t "[") (drop 1 hostport) || contains (t "]") (drop (S close) hostport) then None
            else Some (drop 1 (take close hostport), drop (S i) hostport)
        end
      else if contains (t ":") (take i hostport) then None
      else if contains (t "[") hostport || contains (t "]") hostport then None
      else Some (take i hostport, drop (S i) hostport)
  end.

(** ** YAML documents *)

Inductive Kind := DocumentNode | SequenceNode | MappingNode | ScalarNode | AliasNode.
#[export] Instance Kind_eq_dec : EqDecision Kind.
Proof. solve_decision. Defined.

Inductive Node := mkNode {
  NKind : Kind; NStyle : Z; NTag : text; NValue : text; NAnchor : text; NContent : list Node;
}.

Definition emptyYAMLDocument (node : Node) : bool :=
  match NContent node with
  | [] => true
  | [only] =>
      bool_decide (NKind node = DocumentNode) && bool_decide (NKind only = ScalarNode)
      && bool_decide (NTag only = t "!!null") && bool_decide (NValue only = [])
      && (NStyle only =? 0) && bool_decide (NAnchor only = [])
  | _ => false
  end.

(** ** The configuration *)

Record ServerConfig := mkServer { Listen : text; WebhookBaseURL : text }.
Record LoggingConfig := mkLogging { Level : text }.
Record WorkerConfig := mkWorkerConfig { WMaxConcurrent : Z }.
Record PathMapping := mkMapping { MapRemote : text; MapLocal : text }.
Record InstanceConfig := mkInstance {
  IName : text; IType : text; IURL : text; IAPIKey : text;
  IPathMappings : list PathMapping; QueuePriority : Z; RescanAfterChanges : option bool;
}.
Record ProviderSpec := mkProviderSpec {
  PType : text; RequestsPerSecond : binary64; Burst : Z; PMaxConcurrent : Z; Settings : Node;
}.
Record LanguageConfig := mkLanguageConfig { LProviders : list text; LFallbackProviders : list text }.
Record ProviderHTTPConfig := mkProviderHTTP { SharedOriginMaxConcurrent : Z }.
Record LapseCacheConfig := mkLapseCache { LapseTTL : duration }.
Record PackCacheConfig := mkPackCache { PackTTL : duration; MaxBytes : Z }.
Record SyncConfig := mkSync {
  LapsePath : text; SyncTimeout : duration; MinReadRate : Z; MaxTimeout : duration;
  Policy : text; BypassScore : Z; RequireIdentityAnchor : bool; RequireEpisodeEvidence : bool;
  RequireReleaseGroup : bool; LapseForPacks : bool; LapseForUpgrades : bool;
}.
Record InstallConfig := mkInstall { FileMode : Z; UID : option Z; GID : option Z; StripWatermarks : bool }.
Record SiloPathMapping := mkSiloMapping { SiloFrom : text; SiloTo : text }.
Record SiloConfig := mkSilo {
  SiloEnabled : bool; SiloURL : text; SiloAPIKey : text; SiloPathMappings : list SiloPathMapping;
}.
Record Config := mkConfig {
  DataDir : text;
  MediaRoots : list text;
  Server : ServerConfig;
  Logging : LoggingConfig;
  Worker : WorkerConfig;
  Instances : list InstanceConfig;
  Providers : gmap text ProviderSpec;
  Languages : gmap Language LanguageConfig;
  AllowHearingImpaired : bool;
  MinimumReleaseScore : Z;
  UpgradeChecks : Z;
  AgedReleaseDays : Z;
  ProviderHTTP : ProviderHTTPConfig;
  LapseCache : LapseCacheConfig;
  PackCache : PackCacheConfig;
  Sync : SyncConfig;
  Install : InstallConfig;
  Silo : SiloConfig;
}.

Definition RescanEnabled (c : InstanceConfig) : bool := default true (RescanAfterChanges c).
Definition AllProviders (c : LanguageConfig) : list text := LProviders c ++ LFallbackProviders c.

(** What YAML decodes into: an absent setting is [None]. *)
Record rawSyncConfig := mkRawSync {
  RLapsePath : text; RTimeout : option duration; RMinReadRate : option binary64;
  RMaxTimeout : option duration; RPolicy : text; RBypassScore : Z;
  RRequireIdentityAnchor : option bool; RRequireEpisodeEvidence : option bool;
  RRequireReleaseGroup : option bool; RLapseForPacks : option bool; RLapseForUpgrades : option bool;
}.
Record rawInstallConfig := mkRawInstall {
  RFileMode : text; RUID : option Z; RGID : option Z; RStripWatermarks : bool;
}.
Record rawProviderHTTPConfig := mkRawHTTP { RSharedOriginMaxConcurrent : option Z }.
Record rawWorkerConfig := mkRawWorker { RMaxConcurrent : option Z }.
Record rawLapseCacheConfig := mkRawLapse { RLapseTTL : option duration }.
Record rawPackCacheConfig := mkRawPack { RPackTTL : option duration; RMaxBytes : option Z }.
Record rawConfig := mkRaw {
  RDataDir : text;
  RMediaRoots : list text;
  RServer : ServerConfig;
  RLogging : LoggingConfig;
  RWorker : rawWorkerConfig;
  RInstances : list InstanceConfig;
  RProviders : gmap text Node;
  RLanguages : gmap text LanguageConfig;
  RAllowHearingImpaired : option bool;
  RMinimumReleaseScore : Z;
  RUpgradeChecks : option Z;
  RAgedReleaseDays : option Z;
  RProviderHTTP : rawProviderHTTPConfig;
  RLapseCache : rawLapseCacheConfig;
  RPackCache : rawPackCacheConfig;
  RSync : rawSyncConfig;
  RInstall : rawInstallConfig;
  RSilo : SiloConfig;
}.
Record providerCommon := mkCommon {
  CType : text; CRequestsPerSecond : option binary64; CBurst : option Z; CMaxConcurrent : option Z;
}.

Definition boolDefaultTrue (value : option bool) : bool := default true value.

(** The defaults. *)
Definition defaultListen : text := t "0.0.0.0:8097".
Definition defaultMinimumReleaseScore : Z := 35.
Definition defaultUpgradeChecks : Z := 4.
Definition maxUpgradeChecks : Z := 100.
Definition defaultAgedReleaseDays : Z := 30.
Definition maxAgedReleaseDays : Z := 3650.
Definition maxQueuePriority : Z := 1000.
Definition defaultRequestsPerSecond : Z := 1.
Definition defaultBurst : Z := 1.
Definition defaultMaxConcurrent : Z := 1.
Definition defaultSharedOriginMaxConcurrent : Z := 1.
Definition defaultPackCacheTTL : duration := 24 * hour.
Definition defaultPackCacheMaxBytes : Z := 512 * 1024 * 1024.
Definition defaultSyncPolicy : text := t "confidence".
Definition defaultSyncBypassScore : Z := 75.
Definition defaultSyncMinReadRateMiB : Z := 4.
Definition defaultSyncMaxTimeout : duration := 4 * hour.
Definition maximumSyncMinReadRateMiB : Z := 2 ^ 20.
Definition defaultWorkerMaxConcurrent : Z := 1.
Definition defaultLogLevel : text := t "info".

(** Each error names the check that failed; the ones that quote a name carry
    it. *)
Inductive ConfigError :=
| EReadConfig | EParseConfig | ETrailingDocument | EManyDocuments
| ERemovedKey (instance : text)
| EEnvNameEmpty | EEnvUnset (name : text)
| EEncodeExpanded | EDecodeConfig
| ELogLevel | EEnvLogLevel
| EReadRateFinite | EReadRateLarge | EReadRateSmall | EMaxTimeoutPositive
| EFileModeOctal (mode : text)
| EDecodeProvider (id : text)
| ELanguage (tag : text) (e : LanguageError) | EDuplicateLanguage (tag : Language)
| EDataDir | ENoMediaRoot | EListen | EListenPort (port : text) | EWebhookBaseURL
| EMediaRoot (root : text)
| ESharedOrigin | EWorkerMax | ELapseTTL | EPackTTL | EPackBytes
| EMinimumScore | EUpgradeChecks | EAgedDays | EFileMode | EOwner
| EProviderId | EProviderType (id : text) | EProviderRate (id : text)
| EProviderBurst (id : text) | EProviderMax (id : text)
| ENoLanguage | ELanguageNoProvider (l : Language)
| ELanguageUnknownProvider (l : Language) (id : text) | ELanguageRepeatsProvider (l : Language) (id : text)
| EDuplicateInstance (name : text) | EInstanceKind (name : text) | EInstanceURL (name : text)
| EInstanceCredentials (name : text) | EInstancePriority (name : text)
| EMappingOutside (name local : text) | EMappingRemote (name : text)
| ELapsePath | ESyncTimeout | EReadRateNegative | EMaxTimeoutShort | ESyncPolicy | EBypassScore
| ESilo | ESiloMapping.

(** ** Checks in sequence *)

(** [if cond { return err }] with the condition that must hold. *)
Definition require {E} (holds : bool) (e : E) : result E unit := if holds then Ok tt else Err e.

(** A loop whose body returns on its first error. *)
Fixpoint each {E A} (f : A -> result E unit) (l : list A) : result E unit :=
  match l with
  | [] => Ok tt
  | x :: l => let! _ := f x in each f l
  end.

(** A loop that builds a value and returns on its first error. *)
Fixpoint gather {E A B} (f : A -> B -> result E B) (l : list A) (acc : B) : result E B :=
  match l with
  | [] => Ok acc
  | x :: l => let! acc := f x acc in gather f l acc
  end.

(** The order in which a [range] over a map visits its entries is not
    specified. *)
Class MapOrder := {
  range : forall {V}, gmap text V -> list (text * V);
  range_permutation : forall {V} (m : gmap text V), range m ≡ₚ map_to_list m;
}.

(** ** Loading *)

Definition children (node : Node) : list (Node * Node) :=
  (fix pairs (l : list Node) := match l with k :: v :: l => (k, v) :: pairs l | _ => [] end) (NContent node).

(** The instance at [index] when it still has the removed key. *)
Definition removed_token (index : nat) (instance : Node) : option text :=
  if negb (bool_decide (NKind instance = MappingNode)) then None
  else
    let '(name, removed) :=
      fold_left (fun '(name, removed) '(key, value) =>
          if bool_decide (NValue key = t "name") then
            (if bool_decide (NKind value = ScalarNode) && negb (bool_decide (NValue value = [])) then NValue value else name, removed)
          else if bool_decide (NValue key = t "webhook_token") then (name, true)
          else (name, removed))
        (children instance) (t "#" ++ itoa (Z.of_nat index), false) in
    if removed then Some name else None.

Definition rejectRemovedKeys (document : Node) : result ConfigError unit :=
  let root :=
    match NKind document, NContent document with
    | DocumentNode, [content] => content
    | _, _ => document
    end in
  if negb (bool_decide (NKind root = MappingNode)) then Ok tt
  else each (fun '(key, value) =>
      if negb (bool_decide (NValue key = t "instances")) || negb (bool_decide (NKind value = SequenceNode)) then Ok tt
      else each (fun '(index, instance) =>
          match removed_token index instance with
          | Some name => Err (ERemovedKey name)
          | None => Ok tt
          end) (imap pair (NContent value)))
    (children root).

(** [documents] are the results of the decoder's successive [Decode] calls
    until [io.EOF], [None] for an error. *)
Fixpoint rest_empty (documents : list (option Node)) : result ConfigError unit :=
  match documents with
  | [] => Ok tt
  | None :: _ => Err ETrailingDocument
  | Some extra :: rest => if emptyYAMLDocument extra then rest_empty rest else Err EManyDocuments
  end.

Definition decodeSingleDocument (documents : list (option Node)) : result ConfigError Node :=
  match documents with
  | Some document :: rest => let! _ := rest_empty rest in Ok document
  | _ => Err EParseConfig
  end.

(** A scalar of the form [${NAME}] is replaced by the variable's value. *)
Definition expand_value (lookupEnv : text -> option text) (value : text) : result ConfigError text :=
  if has_prefix (t "${") value && has_suffix (t "}") value && (count (t "${") value =? 1)%nat then
    let name := drop 2 (take (length value - 1) value) in
    if bool_decide (name = []) then Err EEnvNameEmpty
    else match lookupEnv name with
         | Some replacement => Ok replacement
         | None => Err (EEnvUnset name)
         end
  else Ok value.

Fixpoint expandEnv (lookupEnv : text -> option text) (node : Node) : result ConfigError Node :=
  let! value :=
    (if bool_decide (NKind node = ScalarNode) && bool_decide (NTag node = t "!!str")
     then expand_value lookupEnv (NValue node) else Ok (NValue node)) in
  let! content :=
    (fix all (l : list Node) : result ConfigError (list Node) :=
       match l with
       | [] => Ok []
       | child :: l => let! child := expandEnv lookupEnv child in let! l := all l in Ok (child :: l)
       end) (NContent node) in
  Ok (mkNode (NKind node) (NStyle node) (NTag node) value (NAnchor node) content).

(** [strconv.ParseUint(s, 8, 9)]. *)
Definition parse_octal (s : text) : option Z :=
  if bool_decide (s = []) || negb (forallb (between 48 55) s) then None
  else
    let v := fold_left (fun acc r => acc * 8 + digit_value r) s 0 in
    if v <? 512 then Some v else None.

Section load.
Context `{Unicode, UrlSyntax, LanguageTags, MapOrder}.
Context (decode_common : Node -> option providerCommon).

Definition normalizeLogLevel (value : text) : result ConfigError text :=
  let value := to_lower (trim_space value) in
  if bool_decide (value = []) then Ok defaultLogLevel
  else if bool_decide (value ∈ [t "debug"; t "info"; t "warn"; t "error"]) then Ok value
  else Err ELogLevel.

Definition TrimWebhookBaseURL (raw : text) : text := trim_right (one_of (t "/")) (trim_space raw).

Definition ValidWebhookBaseURL (base : text) : bool :=
  if existsb (one_of (t "#?")) base || existsb is_space base then false
  else match url_Parse base with
       | None => false
       | Some parsed =>
           (bool_decide (UScheme parsed = t "http") || bool_decide (UScheme parsed = t "https"))
           && negb (bool_decide (UHostname parsed = [])) && bool_decide (UUser parsed = None)
           && bool_decide (URawQuery parsed = []) && negb (UForceQuery parsed)
           && bool_decide (UFragment parsed = [])
       end.

(** The synchronisation settings. *)
Definition normalize_sync (raw : rawSyncConfig) : result ConfigError SyncConfig :=
  let syncTimeout := default (30 * minute) (RTimeout raw) in
  let minReadRateMiB := default (b64 defaultSyncMinReadRateMiB) (RMinReadRate raw) in
  let! _ := require (negb (is_nan minReadRateMiB || is_inf minReadRateMiB)) EReadRateFinite in
  let! _ := require (negb (SFltb (b64 maximumSyncMinReadRateMiB) minReadRateMiB)) EReadRateLarge in
  let minReadRate := to_int64 (SFmul 53 1024 minReadRateMiB (b64 (2 ^ 20))) in
  let! _ := require (negb (SFltb (b64 0) minReadRateMiB && (minReadRate =? 0))) EReadRateSmall in
  let maxTimeout := default (Z.max defaultSyncMaxTimeout syncTimeout) (RMaxTimeout raw) in
  let! _ := require (negb (bool_decide (is_Some (RMaxTimeout raw)) && (maxTimeout <=? 0))) EMaxTimeoutPositive in
  Ok {| LapsePath := RLapsePath raw;
        SyncTimeout := syncTimeout;
        MinReadRate := minReadRate;
        MaxTimeout := maxTimeout;
        Policy := if bool_decide (RPolicy raw = []) then defaultSyncPolicy else RPolicy raw;
        BypassScore := if RBypassScore raw =? 0 then defaultSyncBypassScore else RBypassScore raw;
        RequireIdentityAnchor := boolDefaultTrue (RRequireIdentityAnchor raw);
        RequireEpisodeEvidence := boolDefaultTrue (RRequireEpisodeEvidence raw);
        RequireReleaseGroup := boolDefaultTrue (RRequireReleaseGroup raw);
        LapseForPacks := boolDefaultTrue (RLapseForPacks raw);
        LapseForUpgrades := boolDefaultTrue (RLapseForUpgrades raw) |}.

Definition normalize_install (raw : rawInstallConfig) : result ConfigError InstallConfig :=
  let! mode :=
    (if bool_decide (RFileMode raw = []) then Ok 420
     else match parse_octal (trim_prefix (t "0o") (RFileMode raw)) with
          | Some parsed => Ok parsed
          | None => Err (EFileModeOctal (RFileMode raw))
          end) in
  Ok {| FileMode := mode; UID := RUID raw; GID := RGID raw; StripWatermarks := RStripWatermarks raw |}.

Definition normalize_provider (entry : text * Node) (specs : gmap text ProviderSpec)
    : result ConfigError (gmap text ProviderSpec) :=
  match decode_common entry.2 with
  | None => Err (EDecodeProvider entry.1)
  | Some common =>
      Ok (<[entry.1 := {| PType := CType common;
                          RequestsPerSecond := default (b64 defaultRequestsPerSecond) (CRequestsPerSecond common);
                          Burst := default defaultBurst (CBurst common);
                          PMaxConcurrent := default defaultMaxConcurrent (CMaxConcurrent common);
                          Settings := entry.2 |}]> specs)
  end.

Definition normalize_language (entry : text * LanguageConfig) (languages : gmap Language LanguageConfig)
    : result ConfigError (gmap Language LanguageConfig) :=
  match ParseLanguage entry.1 with
  | Err e => Err (ELanguage entry.1 e)
  | Ok tag =>
      match languages !! tag with
      | Some _ => Err (EDuplicateLanguage tag)
      | None => Ok (<[tag := entry.2]> languages)
      end
  end.

Definition normalize (raw : rawConfig) : result ConfigError Config :=
  let! logLevel := normalizeLogLevel (Level (RLogging raw)) in
  let! sync := normalize_sync (RSync raw) in
  let! install := normalize_install (RInstall raw) in
  let! providers := gather normalize_provider (range (RProviders raw)) ∅ in
  let! languages := gather normalize_language (range (RLanguages raw)) ∅ in
  Ok {| DataDir := RDataDir raw;
        MediaRoots := RMediaRoots raw;
        Server := {| Listen := if bool_decide (Listen (RServer raw) = []) then defaultListen else Listen (RServer raw);
                     WebhookBaseURL := TrimWebhookBaseURL (WebhookBaseURL (RServer raw)) |};
        Logging := mkLogging logLevel;
        Worker := mkWorkerConfig (default defaultWorkerMaxConcurrent (RMaxConcurrent (RWorker raw)));
        Instances := RInstances raw;
        Providers := providers;
        Languages := languages;
        AllowHearingImpaired := default false (RAllowHearingImpaired raw);
        MinimumReleaseScore := if RMinimumReleaseScore raw =? 0 then defaultMinimumReleaseScore else RMinimumReleaseScore raw;
        UpgradeChecks := default defaultUpgradeChecks (RUpgradeChecks raw);
        AgedReleaseDays := default defaultAgedReleaseDays (RAgedReleaseDays raw);
        ProviderHTTP := mkProviderHTTP (default defaultSharedOriginMaxConcurrent (RSharedOriginMaxConcurrent (RProviderHTTP raw)));
        LapseCache := mkLapseCache (default (720 * hour) (RLapseTTL (RLapseCache raw)));
        PackCache := mkPackCache (default defaultPackCacheTTL (RPackTTL (RPackCache raw)))
                       (default defaultPackCacheMaxBytes (RMaxBytes (RPackCache raw)));
        Sync := sync;
        Install := install;
        Silo := RSilo raw |}.

(** ** Validation *)

Definition validate_server (c : Config) : result ConfigError unit :=
  let! _ := normalizeLogLevel (Level (Logging c)) in
  let! _ := require (rooted (DataDir c)) EDataDir in
  let! _ := require (negb (bool_decide (MediaRoots c = []))) ENoMediaRoot in
  match SplitHostPort (Listen (Server c)) with
  | None => Err EListen
  | Some (_, port) =>
      let! _ := require match atoi port with
                        | Some portNumber => (0 <=? portNumber) && (portNumber <=? 65535)
                        | None => false
                        end (EListenPort port) in
      let! _ := require (bool_decide (WebhookBaseURL (Server c) = []) || ValidWebhookBaseURL (WebhookBaseURL (Server c))) EWebhookBaseURL in
      each (fun root => require (rooted root) (EMediaRoot root)) (MediaRoots c)
  end.

Definition Perm (mode : Z) : Z := Z.land mode 511.

Definition negative (id : option Z) : bool := match id with Some z => z <? 0 | None => false end.

Definition validate_limits (c : Config) : result ConfigError unit :=
  let! _ := require (0 <? SharedOriginMaxConcurrent (ProviderHTTP c)) ESharedOrigin in
  let! _ := require ((1 <=? WMaxConcurrent (Worker c)) && (WMaxConcurrent (Worker c) <=? 8)) EWorkerMax in
  let! _ := require (0 <? LapseTTL (LapseCache c)) ELapseTTL in
  let! _ := require (0 <? PackTTL (PackCache c)) EPackTTL in
  let! _ := require (0 <? MaxBytes (PackCache c)) EPackBytes in
  let! _ := require ((1 <=? MinimumReleaseScore c) && (MinimumReleaseScore c <=? 100)) EMinimumScore in
  let! _ := require ((0 <=? UpgradeChecks c) && (UpgradeChecks c <=? maxUpgradeChecks)) EUpgradeChecks in
  let! _ := require ((0 <=? AgedReleaseDays c) && (AgedReleaseDays c <=? maxAgedReleaseDays)) EAgedDays in
  let! _ := require (negb (Perm (FileMode (Install c)) =? 0) && (Z.land (Perm (FileMode (Install c))) 73 =? 0)) EFileMode in
  require (negb (negative (UID (Install c))) && negb (negative (GID (Install c)))) EOwner.

Definition validate_provider (entry : text * ProviderSpec) : result ConfigError unit :=
  let '(id, provider) := entry in
  let! _ := require (negb (bool_decide (trim_space id = []))) EProviderId in
  let! _ := require (negb (bool_decide (PType provider = []))) (EProviderType id) in
  let! _ := require (negb (SFleb (RequestsPerSecond provider) (b64 0))) (EProviderRate id) in
  let! _ := require (0 <? Burst provider) (EProviderBurst id) in
  require (0 <? PMaxConcurrent provider) (EProviderMax id).

Definition validate_route (providers : gmap text ProviderSpec) (language : Language) (id : text) (seen : list text)
    : result ConfigError (list text) :=
  let! _ := require (bool_decide (is_Some (providers !! id))) (ELanguageUnknownProvider language id) in
  let! _ := require (negb (bool_decide (id ∈ seen))) (ELanguageRepeatsProvider language id) in
  Ok (id :: seen).

Definition validate_language (providers : gmap text ProviderSpec) (entry : Language * LanguageConfig) : result ConfigError unit :=
  let '(language, languageConfig) := entry in
  let! _ := require (negb (bool_decide (LProviders languageConfig = []))) (ELanguageNoProvider language) in
  let! _ := gather (validate_route providers language) (AllProviders languageConfig) [] in
  Ok tt.

Definition withinAnyRoot (path : text) (roots : list text) : bool :=
  existsb (fun root => within (path_clean root) (path_clean path)) roots.

Definition validate_mapping (name : text) (roots : list text) (mapping : PathMapping) : result ConfigError unit :=
  let! _ := require (rooted (MapLocal mapping) && withinAnyRoot (MapLocal mapping) roots) (EMappingOutside name (MapLocal mapping)) in
  require (negb (bool_decide (trim_space (MapRemote mapping) = []))) (EMappingRemote name).

(** A base URL without credentials, query and fragment whose scheme passes
    [scheme]. *)
Definition plain_url (scheme : text -> bool) (raw : text) : bool :=
  match url_ParseRequestURI raw with
  | None => false
  | Some parsed =>
      scheme (UScheme parsed) && negb (bool_decide (UHost parsed = [])) && bool_decide (UUser parsed = None)
      && bool_decide (URawQuery parsed = []) && bool_decide (UFragment parsed = [])
  end.

Definition web_scheme (scheme : text) : bool := bool_decide (scheme = t "http") || bool_decide (scheme = t "https").

Definition validate_instance (roots : list text) (instance : InstanceConfig) (names : list text)
    : result ConfigError (list text) :=
  let name := IName instance in
  let! _ := require (negb (bool_decide (name ∈ names))) (EDuplicateInstance name) in
  let! _ := require (negb (bool_decide (name = [])) && (bool_decide (IType instance = t "sonarr") || bool_decide (IType instance = t "radarr")))
              (EInstanceKind name) in
  let! _ := require (plain_url web_scheme (IURL instance)) (EInstanceURL name) in
  let! _ := require (negb (bool_decide (IAPIKey instance = []))) (EInstanceCredentials name) in
  let! _ := require ((0 <=? QueuePriority instance) && (QueuePriority instance <=? maxQueuePriority)) (EInstancePriority name) in
  let! _ := each (validate_mapping name roots) (IPathMappings instance) in
  Ok (name :: names).

Definition validate_sync (s : SyncConfig) : result ConfigError unit :=
  let! _ := require (rooted (LapsePath s)) ELapsePath in
  let! _ := require (0 <? SyncTimeout s) ESyncTimeout in
  let! _ := require (0 <=? MinReadRate s) EReadRateNegative in
  let! _ := require ((MaxTimeout s =? 0) || (SyncTimeout s <=? MaxTimeout s)) EMaxTimeoutShort in
  let! _ := require (bool_decide (Policy s ∈ [[]; t "always"; t "confidence"; t "never"])) ESyncPolicy in
  require ((BypassScore s =? 0) || (1 <=? BypassScore s) && (BypassScore s <=? 100)) EBypassScore.

Definition validate_silo (s : SiloConfig) : result ConfigError unit :=
  if SiloEnabled s then
    let! _ := require (plain_url (fun scheme => negb (bool_decide (scheme = []))) (SiloURL s) && negb (bool_decide (SiloAPIKey s = []))) ESilo in
    each (fun mapping => require (rooted (SiloFrom mapping) && rooted (SiloTo mapping)) ESiloMapping) (SiloPathMappings s)
  else Ok tt.

Definition Validate (c : Config) : result ConfigError unit :=
  let! _ := validate_server c in
  let! _ := validate_limits c in
  let! _ := each validate_provider (range (Providers c)) in
  let! _ := require (negb (bool_decide (Languages c = ∅))) ENoLanguage in
  let! _ := each (validate_language (Providers c)) (range (Languages c)) in
  let! _ := gather (validate_instance (MediaRoots c)) (Instances c) [] in
  let! _ := validate_sync (Sync c) in
  validate_silo (Silo c).

Definition with_log_level (level : text) (c : Config) : Config :=
  {| DataDir := DataDir c; MediaRoots := MediaRoots c; Server := Server c; Logging := mkLogging level;
     Worker := Worker c; Instances := Instances c; Providers := Providers c; Languages := Languages c;
     AllowHearingImpaired := AllowHearingImpaired c; MinimumReleaseScore := MinimumReleaseScore c;
     UpgradeChecks := UpgradeChecks c; AgedReleaseDays := AgedReleaseDays c; ProviderHTTP := ProviderHTTP c;
     LapseCache := LapseCache c; PackCache := PackCache c; Sync := Sync c; Install := Install c; Silo := Silo c |}.

(** The log level of the environment takes precedence. *)
Definition override_level (lookupEnv : text -> option text) (cfg : Config) : result ConfigError Config :=
  match lookupEnv (t "SUBSYNCD_LOG_LEVEL") with
  | Some value =>
      if bool_decide (trim_space value = []) then Ok cfg
      else match normalizeLogLevel value with
           | Ok level => Ok (with_log_level level cfg)
           | Err _ => Err EEnvLogLevel
           end
  | None => Ok cfg
  end.

(** [yaml_documents], [yaml_encode] and [yaml_raw] are the decoder's documents,
    [yaml.Marshal] and the strict decoding into [rawConfig]; [file] is what
    [os.ReadFile] returns. *)
Context (yaml_documents : text -> list (option Node)) (yaml_encode : Node -> option text) (yaml_raw : text -> option rawConfig).

Definition or_err {E A} (o : option A) (e : E) : result E A := match o with Some a => Ok a | None => Err e end.

Definition Load (file : option text) (lookupEnv : text -> option text) : result ConfigError Config :=
  let! data := or_err file EReadConfig in
  let! document := decodeSingleDocument (yaml_documents data) in
  let! _ := rejectRemovedKeys document in
  let! document := expandEnv lookupEnv document in
  let! expanded := or_err (yaml_encode document) EEncodeExpanded in
  let! raw := or_err (yaml_raw expanded) EDecodeConfig in
  let! cfg := normalize raw in
  let! cfg := override_level lookupEnv cfg in
  let! _ := Validate cfg in
  Ok cfg.
End load.

(** What the daemon derives from the settings (src/internal/app/app.go). *)
Definition AgedAfter (c : Config) : duration := wrap64 (AgedReleaseDays c * (24 * hour)).
Definition jobTimeout (s : SyncConfig) : duration := wrap64 (2 * Z.max (MaxTimeout s) (SyncTimeout s)).

(** ** Laws of the checks *)

Lemma require_ok {E} b (e : E) : require b e = Ok tt <-> b = true.
Proof. by destruct b. Qed.

Lemma then_ok {E A B} (r : result E A) (k : result E B) b :
  rbind r (fun _ => k) = Ok b <-> (exists a, r = Ok a) /\ k = Ok b.
Proof. destruct r; cbn; split; [by eauto|by intros [_ ?]|done|by intros [[? ?] _]]. Qed.

Lemma unit_ok {E} (r : result E unit) : (exists u, r = Ok u) <-> r = Ok tt.
Proof. split; [by intros [[] ?]|by eauto]. Qed.

Lemma each_ok {E A} (f : A -> result E unit) l : each f l = Ok tt <-> Forall (fun x => f x = Ok tt) l.
Proof.
  induction l as [|x l IH]; cbn; [done|]. by rewrite then_ok, unit_ok, IH, Forall_cons.
Qed.

Lemma each_require {E A} (b : A -> bool) (e : A -> E) l :
  each (fun x => require (b x) (e x)) l = Ok tt <-> Forall (fun x => b x = true) l.
Proof. rewrite each_ok. apply Forall_iff. intros x. apply require_ok. Qed.

(** A loop that collects names accepts exactly what its body accepts of each
    element, names that were not seen and no name twice. *)
Lemma gather_names_ok {Er A} (f : A -> list text -> result Er (list text)) (name : A -> text) (good : A -> Prop) :
  (forall x seen seen', f x seen = Ok seen' <-> (name x ∉ seen /\ good x /\ seen' = name x :: seen)) ->
  forall l seen, (exists seen', gather f l seen = Ok seen') <->
    NoDup (name <$> l) /\ Forall (fun x => name x ∉ seen) l /\ Forall good l.
Proof.
  intros Hf l. induction l as [|x l IH]; intros seen.
  { split; [intros _; split_and!; constructor|by eauto]. }
  rewrite fmap_cons, NoDup_cons, !Forall_cons. cbn [gather]. split.
  - intros [seen' E]. apply rbind_ok in E as (s & Es & E). apply Hf in Es as (H1 & H2 & ->).
    assert (exists seen', gather f l (name x :: seen) = Ok seen') as (Hd & Hs & Hg)%IH by eauto.
    rewrite Forall_forall in Hs. split_and!; try done.
    + intros (y & Ey & Hy)%list_elem_of_fmap. apply (Hs y Hy). simpl. rewrite Ey. by left.
    + apply Forall_forall. intros y Hy Hin. apply (Hs y Hy). by right.
  - intros ((Hx & Hd) & (Hxs & Hs) & Hgx & Hg). rewrite ((proj2 (Hf x seen (name x :: seen)))) by done. cbn.
    apply IH. split_and!; [done| |done]. rewrite Forall_forall in Hs |- *. intros y Hy [Exy|Hin]%elem_of_cons.
    + apply Hx, list_elem_of_fmap. by exists y.
    + by apply (Hs y Hy).
Qed.

Lemma forall_range `{MapOrder} {V} (P : text * V -> Prop) (m : gmap text V) :
  Forall P (range m) <-> map_Forall (fun k v => P (k, v)) m.
Proof.
  rewrite (range_permutation m), map_Forall_to_list. apply Forall_iff. by intros [].
Qed.

(** Turns a sequence of checks into the conjunction of what they require. *)
Ltac checks :=
  repeat first
    [ rewrite then_ok | rewrite unit_ok | rewrite require_ok | rewrite each_require | rewrite each_ok
    | rewrite andb_true_iff | rewrite orb_true_iff | rewrite negb_true_iff | rewrite orb_false_iff
    | rewrite bool_decide_eq_true | rewrite bool_decide_eq_false
    | rewrite Z.ltb_lt | rewrite Z.leb_le | rewrite Z.eqb_eq | rewrite Z.eqb_neq ].

(** ** Well-formed configurations *)

(** [local] lies in [root]: the elements of the cleaned root begin those of
    the cleaned path. *)
Definition lies_in (root local : text) : Prop :=
  exists es tl, Forall plain (es ++ tl) /\ path_clean root = of_elements es /\ path_clean local = of_elements (es ++ tl).

Section well_formed_configs.
Context `{Unicode, UrlSyntax, LanguageTags, MapOrder}.

Record well_formed_server (c : Config) : Prop := {
  wf_level : exists level, normalizeLogLevel (Level (Logging c)) = Ok level;
  wf_data : rooted (DataDir c) = true;
  wf_roots : MediaRoots c <> [] /\ Forall (fun root => rooted root = true) (MediaRoots c);
  wf_listen : exists host port n, SplitHostPort (Listen (Server c)) = Some (host, port) /\ atoi port = Some n /\ 0 <= n <= 65535;
  wf_webhook : WebhookBaseURL (Server c) = [] \/ ValidWebhookBaseURL (WebhookBaseURL (Server c)) = true;
}.

Record well_formed_limits (c : Config) : Prop := {
  wf_shared : 1 <= SharedOriginMaxConcurrent (ProviderHTTP c);
  wf_workers : 1 <= WMaxConcurrent (Worker c) <= 8;
  wf_lapse_ttl : 0 < LapseTTL (LapseCache c);
  wf_pack_ttl : 0 < PackTTL (PackCache c);
  wf_pack_bytes : 0 < MaxBytes (PackCache c);
  wf_score : 1 <= MinimumReleaseScore c <= 100;
  wf_upgrades : 0 <= UpgradeChecks c <= 100;
  wf_aged : 0 <= AgedReleaseDays c <= 3650;
  wf_mode : Perm (FileMode (Install c)) <> 0 /\ Z.land (Perm (FileMode (Install c))) 73 = 0;
  wf_owner : negative (UID (Install c)) = false /\ negative (GID (Install c)) = false;
}.

(** A rate above 0; a NaN passes the check too. *)
Definition above_zero_or_nan (f : binary64) : Prop := SFltb (b64 0) f = true \/ f = S754_nan.

Lemma rate_ok f : SFleb f (b64 0) = false <-> above_zero_or_nan f.
Proof.
  unfold above_zero_or_nan. change (b64 0) with (S754_zero false).
  destruct f as [[]|[]| |[] m e]; cbn; (split; [try done; auto|by intros [?|?]]).
Qed.

Record well_formed_provider (id : text) (p : ProviderSpec) : Prop := {
  wf_provider_id : trim_space id <> [];
  wf_provider_type : PType p <> [];
  wf_provider_rate : above_zero_or_nan (RequestsPerSecond p);
  wf_provider_burst : 1 <= Burst p;
  wf_provider_max : 1 <= PMaxConcurrent p;
}.

(** Every language has a provider, and each of its providers is configured and
    named once. *)
Record well_formed_route (providers : gmap text ProviderSpec) (l : LanguageConfig) : Prop := {
  wf_route_some : LProviders l <> [];
  wf_route_once : NoDup (AllProviders l);
  wf_route_known : Forall (fun id => is_Some (providers !! id)) (AllProviders l);
}.

Record well_formed_instance (roots : list text) (i : InstanceConfig) : Prop := {
  wf_instance_name : IName i <> [];
  wf_instance_type : IType i = t "sonarr" \/ IType i = t "radarr";
  wf_instance_url : plain_url web_scheme (IURL i) = true;
  wf_instance_key : IAPIKey i <> [];
  wf_instance_priority : 0 <= QueuePriority i <= 1000;
  wf_instance_mappings : Forall (fun m =>
    rooted (MapLocal m) = true /\ Exists (fun root => lies_in root (MapLocal m)) roots /\ trim_space (MapRemote m) <> [])
    (IPathMappings i);
}.

Record well_formed_sync (s : SyncConfig) : Prop := {
  wf_lapse : rooted (LapsePath s) = true;
  wf_timeout : 0 < SyncTimeout s;
  wf_rate : 0 <= MinReadRate s;
  wf_cap : MaxTimeout s = 0 \/ SyncTimeout s <= MaxTimeout s;
  wf_policy : Policy s ∈ [[]; t "always"; t "confidence"; t "never"];
  wf_bypass : 0 <= BypassScore s <= 100;
}.

Definition well_formed_silo (s : SiloConfig) : Prop :=
  SiloEnabled s = true ->
  plain_url (fun scheme => negb (bool_decide (scheme = []))) (SiloURL s) = true /\ SiloAPIKey s <> []
  /\ Forall (fun m => rooted (SiloFrom m) = true /\ rooted (SiloTo m) = true) (SiloPathMappings s).

Record well_formed (c : Config) : Prop := {
  wf_server : well_formed_server c;
  wf_limits : well_formed_limits c;
  wf_providers : map_Forall well_formed_provider (Providers c);
  wf_some_language : Languages c <> ∅;
  wf_routes : map_Forall (fun _ => well_formed_route (Providers c)) (Languages c);
  wf_names : NoDup (IName <$> Instances c);
  wf_instances : Forall (well_formed_instance (MediaRoots c)) (Instances c);
  wf_sync : well_formed_sync (Sync c);
  wf_silo : well_formed_silo (Silo c);
}.

(** *** What each check accepts *)

Lemma withinAnyRoot_spec local roots : rooted local = true -> Forall (fun root => rooted root = true) roots ->
  withinAnyRoot local roots = true <-> Exists (fun root => lies_in root local) roots.
Proof.
  intros Hl Hr. unfold withinAnyRoot. rewrite existsb_exists, Exists_exists.
  apply path_clean_clean in Hl as (es & Hes & El). rewrite Forall_forall in Hr.
  split; intros (root & Hin & Hw); exists root; (split; [by apply list_elem_of_In|]).
  - apply list_elem_of_In in Hin. pose proof (Hr root Hin) as (rs & Hrs & Er)%path_clean_clean.
    rewrite El, Er in Hw. apply within_spec in Hw as [tl ->]; [|done..]. by exists rs, tl.
  - destruct Hw as (rs & tl & Hp & Er & El'). rewrite Er, El'. apply within_spec; [by apply Forall_app in Hp as []|done|by exists tl].
Qed.

Lemma validate_server_ok c : validate_server c = Ok tt <-> well_formed_server c.
Proof.
  unfold validate_server. checks. destruct (SplitHostPort (Listen (Server c))) as [[host port]|] eqn:El.
  - checks. destruct (atoi port) as [n|] eqn:Ep.
    + checks. split.
      * intros (? & ? & ? & ? & ? & ?). constructor; try done. exists host, port, n. rewrite El. split_and!; (done || lia).
      * intros [? ? [? ?] (? & ? & ? & E & En & ?) ?]. simplify_eq. split_and!; (done || lia).
    + split; [by intros (_ & _ & _ & ? & _)|]. intros [_ _ _ (? & ? & ? & E & En & _) _]. simplify_eq.
  - split; [by intros (_ & _ & _ & ?)|]. intros [_ _ _ (? & ? & ? & E & _) _]. simplify_eq.
Qed.

Lemma validate_limits_ok c : validate_limits c = Ok tt <-> well_formed_limits c.
Proof.
  unfold validate_limits, maxUpgradeChecks, maxAgedReleaseDays. checks. split.
  - intros H'. destruct_and! H'. constructor; (lia || done).
  - intros []. destruct_and!. split_and!; (lia || done).
Qed.

Lemma validate_provider_ok id p : validate_provider (id, p) = Ok tt <-> well_formed_provider id p.
Proof.
  unfold validate_provider. checks. rewrite rate_ok. split.
  - intros H'. destruct_and! H'. constructor; (lia || done).
  - intros []. split_and!; (lia || done).
Qed.

Lemma validate_language_ok providers language l :
  validate_language providers (language, l) = Ok tt <-> well_formed_route providers l.
Proof.
  unfold validate_language. checks.
  assert (forall (u v : unit), Ok (E:=ConfigError) u = Ok v <-> True) as Ht by (by intros [] []).
  rewrite Ht. rewrite (gather_names_ok (validate_route providers language) id (fun name => is_Some (providers !! name))).
  - rewrite list_fmap_id. split.
    + intros (? & (? & _ & ?) & _). by constructor.
    + intros []. split_and!; [done|done| |done|done]. apply Forall_forall. intros x _ Hx. by inversion Hx.
  - intros name seen seen'. unfold validate_route. checks. cbn. split.
    + intros (? & ? & [= <-]). done.
    + by intros (? & ? & ->).
Qed.

Lemma validate_instances_ok roots is_ : Forall (fun root => rooted root = true) roots ->
  (exists seen, gather (validate_instance roots) is_ [] = Ok seen)
  <-> NoDup (IName <$> is_) /\ Forall (well_formed_instance roots) is_.
Proof.
  intros Hr. rewrite (gather_names_ok (validate_instance roots) IName (well_formed_instance roots)).
  - split; [by intros (? & _ & ?)|]. intros [? ?]. split_and!; [done| |done]. apply Forall_forall. intros x _ Hx. by inversion Hx.
  - intros i seen seen'. unfold validate_instance, maxQueuePriority. checks.
    assert (Forall (fun m => validate_mapping (IName i) roots m = Ok tt) (IPathMappings i) <-> Forall (fun m =>
      rooted (MapLocal m) = true /\ Exists (fun root => lies_in root (MapLocal m)) roots /\ trim_space (MapRemote m) <> [])
      (IPathMappings i)) as ->.
    { apply Forall_iff. intros m. unfold validate_mapping. checks. split.
      - intros ((Hl & Hw) & ?). split_and!; [done|by apply withinAnyRoot_spec|done].
      - intros (Hl & Hw & ?). split_and!; [done|by apply withinAnyRoot_spec|done]. }
    split.
    + intros (? & [? ?] & ? & ? & [? ?] & ? & [= <-]). split_and!; [done|by constructor|done].
    + intros (? & [] & ->). split_and!; (done || lia).
Qed.

Lemma validate_sync_ok s : validate_sync s = Ok tt <-> well_formed_sync s.
Proof.
  unfold validate_sync. checks. split.
  - intros (? & ? & ? & ? & ? & ?). constructor; (lia || done).
  - intros []. split_and!; (lia || done).
Qed.

Lemma validate_silo_ok s : validate_silo s = Ok tt <-> well_formed_silo s.
Proof.
  unfold validate_silo, well_formed_silo. destruct (SiloEnabled s); [|by split]. checks.
  assert (forall l, Forall (fun m => rooted (SiloFrom m) && rooted (SiloTo m) = true) l
    <-> Forall (fun m => rooted (SiloFrom m) = true /\ rooted (SiloTo m) = true) l) as ->.
  { intros l. apply Forall_iff. intros m. apply andb_true_iff. }
  naive_solver.
Qed.

(** [Validate] accepts exactly the well-formed configurations, in whatever
    order the maps are ranged over. *)
Lemma Validate_ok c : Validate c = Ok tt <-> well_formed c.
Proof.
  unfold Validate. checks. rewrite validate_server_ok, validate_limits_ok, !forall_range, validate_sync_ok, validate_silo_ok.
  assert (map_Forall (fun k v => validate_provider (k, v) = Ok tt) (Providers c) <-> map_Forall well_formed_provider (Providers c)) as ->.
  { split; intros Hm k v E; apply validate_provider_ok; by apply Hm. }
  assert (map_Forall (fun k v => validate_language (Providers c) (k, v) = Ok tt) (Languages c)
    <-> map_Forall (fun _ => well_formed_route (Providers c)) (Languages c)) as ->.
  { split; intros Hm k v E; [apply (validate_language_ok _ k)|apply validate_language_ok]; by eapply Hm. }
  split.
  - intros (Hs & ? & ? & ? & ? & Hi & ? & ?). apply validate_instances_ok in Hi as [? ?]; [by constructor|apply Hs].
  - intros [Hs]. split_and!; try done. apply validate_instances_ok; [apply Hs|done].
Qed.

(** *** What loading adds *)

Lemma gather_invariant {Er A B} (f : A -> B -> result Er B) (P : B -> Prop) :
  (forall x acc acc', P acc -> f x acc = Ok acc' -> P acc') ->
  forall l acc acc', P acc -> gather f l acc = Ok acc' -> P acc'.
Proof.
  intros Hf l. induction l as [|x l IH]; intros acc acc' Hacc E; cbn in E; [by injection E as <-|].
  apply rbind_ok in E as (b & Eb & E). eauto.
Qed.

Lemma normalizeLogLevel_level value level :
  normalizeLogLevel value = Ok level -> level ∈ [t "debug"; t "info"; t "warn"; t "error"].
Proof.
  unfold normalizeLogLevel. case_bool_decide; [intros [= <-]; right; by left|].
  case_bool_decide; [by intros [= <-]|done].
Qed.

(** The keys of the languages are canonical tags. *)
Lemma normalize_languages raw languages :
  gather normalize_language raw ∅ = Ok languages -> map_Forall (fun l _ => exists tag, ParseLanguage tag = Ok l) languages.
Proof.
  apply (gather_invariant normalize_language (map_Forall (fun l _ => exists tag, ParseLanguage tag = Ok l))); [|apply map_Forall_empty].
  intros [tag l] acc acc' Hacc E. unfold normalize_language in E. cbn in E.
  destruct (ParseLanguage tag) as [key|] eqn:Ep; [|done]. destruct (acc !! key); [done|]. injection E as <-.
  apply map_Forall_insert_2; [by exists tag|done].
Qed.

Lemma normalize_sync_ok raw s : normalize_sync raw = Ok s ->
  Policy s <> [] /\ BypassScore s <> 0 /\ (SyncTimeout s <= MaxTimeout s \/ 0 < MaxTimeout s).
Proof.
  unfold normalize_sync. checks. intros (_ & _ & _ & Hm & [= <-]). cbn [Policy BypassScore SyncTimeout MaxTimeout]. split_and!.
  - clear Hm. by case_bool_decide.
  - destruct (Z.eqb_spec (RBypassScore raw) 0); done.
  - destruct (RMaxTimeout raw) as [m|]; [right|left; apply Z.le_max_r].
    rewrite bool_decide_true in Hm by eauto. by apply Z.leb_gt in Hm.
Qed.
End well_formed_configs.

Section loading.
Context `{Unicode, UrlSyntax, LanguageTags, MapOrder}.
Context (decode_common : Node -> option providerCommon).
Context (yaml_documents : text -> list (option Node)) (yaml_encode : Node -> option text) (yaml_raw : text -> option rawConfig).

(** C36. A configuration that loads is well formed: every bound holds that the
    components rely on, with one exception, every provider a language names is
    configured and named once, and every local path lies in a media root. Its
    languages are canonical tags, its log level one of the four, LAPSE's limit
    covers its timeout, and the age of an aged release is counted without
    overflow. The exception: a provider's request rate is above 0 or a NaN, which
    the code's check lets through. *)
Theorem loaded_config_is_well_formed file lookupEnv c :
  Load decode_common yaml_documents yaml_encode yaml_raw file lookupEnv = Ok c ->
  well_formed c
  /\ map_Forall (fun _ p => SFltb (b64 0) (RequestsPerSecond p) = true \/ RequestsPerSecond p = S754_nan) (Providers c)
  /\ Level (Logging c) ∈ [t "debug"; t "info"; t "warn"; t "error"]
  /\ map_Forall (fun l _ => exists tag, ParseLanguage tag = Ok l) (Languages c)
  /\ Policy (Sync c) ∈ [t "always"; t "confidence"; t "never"]
  /\ 1 <= BypassScore (Sync c) <= 100
  /\ 0 < SyncTimeout (Sync c) <= MaxTimeout (Sync c)
  /\ AgedAfter c = AgedReleaseDays c * (24 * hour).
Proof.
  unfold Load. intros E. do 7 (apply rbind_ok in E as (? & ? & E)). rename x5 into cfg.
  apply rbind_ok in E as (c' & Eo & E). apply rbind_ok in E as ([] & Ev & [= <-]). apply Validate_ok in Ev.
  match goal with En : normalize _ _ = Ok cfg |- _ => unfold normalize in En;
    apply rbind_ok in En as (level & El & En); apply rbind_ok in En as (sync & Es & En);
    do 2 (apply rbind_ok in En as (? & ? & En)); apply rbind_ok in En as (languages & Eg & [= Ec]) end.
  assert (Languages c' = languages /\ Sync c' = sync /\ Level (Logging c') ∈ [t "debug"; t "info"; t "warn"; t "error"]) as (<- & <- & Hl).
  { unfold override_level in Eo. apply normalizeLogLevel_level in El.
    destruct (lookupEnv _) as [value|]; [|injection Eo as <-; by subst cfg].
    case_bool_decide; [injection Eo as <-; by subst cfg|].
    destruct (normalizeLogLevel value) eqn:En; [|done]. injection Eo as <-. subst cfg. by apply normalizeLogLevel_level in En. }
  apply normalize_sync_ok in Es as (Hp & Hb & Hm). apply normalize_languages in Eg.
  pose proof (wf_aged _ (wf_limits _ Ev)) as Ha. destruct (wf_sync _ Ev) as [? ? ? Hcap Hpol Hby].
  split_and!; [done| |done|done| | | | | |].
  - eapply map_Forall_impl; [apply (wf_providers _ Ev)|]. by intros id p [].
  - apply elem_of_cons in Hpol as [?|?]; done.
  - lia.
  - lia.
  - done.
  - destruct Hcap; lia.
  - unfold AgedAfter, hour, minute, second. apply wrap64_small. lia.
Qed.
End loading.

(** ** Examples *)

Definition sample_order : MapOrder := {| range V := map_to_list; range_permutation V m := reflexivity _ |}.

Definition sample_url (raw : text) : option URL :=
  if has_prefix (t "http://") raw then
    let host := drop 7 raw in Some (mkURL (t "http") host host None [] false [])
  else None.
Definition sample_urls : UrlSyntax := {| url_Parse := sample_url; url_ParseRequestURI := sample_url |}.

#[local] Existing Instance sample_order.
#[local] Existing Instance sample_urls.
#[local] Existing Instance sample_tags.

Definition scalar (value : text) : Node := mkNode ScalarNode 0 (t "!!str") value [] [].
Definition sample_common (rate : option binary64) : Node -> option providerCommon :=
  fun node => Some (mkCommon (NValue node) rate None None).

Definition sample_raw : rawConfig := {|
  RDataDir := t "/data";
  RMediaRoots := [t "/media/tv/"; t "/media/movies"];
  RServer := mkServer [] (t " http://subsyncd:8097/ ");
  RLogging := mkLogging (t "WARN");
  RWorker := mkRawWorker (Some 2);
  RInstances := [mkInstance (t "tv") (t "sonarr") (t "http://sonarr:8989") (t "key")
    [mkMapping (t "/tv") (t "/media/tv/shows")] 10 None];
  RProviders := {[t "sub" := scalar (t "opensubtitles")]};
  RLanguages := {[t "HRV" := mkLanguageConfig [t "sub"] []]};
  RAllowHearingImpaired := None;
  RMinimumReleaseScore := 0;
  RUpgradeChecks := Some 0;
  RAgedReleaseDays := None;
  RProviderHTTP := mkRawHTTP None;
  RLapseCache := mkRawLapse None;
  RPackCache := mkRawPack None None;
  RSync := mkRawSync (t "/usr/bin/lapse") (Some (6 * hour)) None None [] 0 None None None None (Some false);
  RInstall := mkRawInstall (t "0o640") None (Some 100) false;
  RSilo := mkSilo false [] [] [];
|}.

Definition sample_load (rate : option binary64) : result ConfigError Config :=
  Load (sample_common rate) (fun _ => [Some (scalar [])]) (fun _ => Some []) (fun _ => Some sample_raw)
    (Some []) (fun name => if bool_decide (name = t "SUBSYNCD_LOG_LEVEL") then Some (t " Debug") else None).

Definition loaded : Config :=
  match sample_load None with Ok c => c | Err _ => mkConfig [] [] (mkServer [] []) (mkLogging []) (mkWorkerConfig 0) [] ∅ ∅ false 0 0 0
    (mkProviderHTTP 0) (mkLapseCache 0) (mkPackCache 0 0) (mkSync [] 0 0 0 [] 0 false false false false false)
    (mkInstall 0 None None false) (mkSilo false [] [] []) end.

Lemma sample_loads : sample_load None = Ok loaded.
Proof. by vm_compute. Qed.

Example sample_settings :
  (Level (Logging loaded), WebhookBaseURL (Server loaded), MinimumReleaseScore loaded, FileMode (Install loaded),
   MinReadRate (Sync loaded), MaxTimeout (Sync loaded), map fst (map_to_list (Languages loaded)))
  = (t "debug", t "http://subsyncd:8097", 35, 416, 4 * 2 ^ 20, 6 * hour, [t "hr"]).
Proof. by vm_compute. Qed.

(** A rate that is not positive is refused, NaN is not. *)
Example zero_rate_refused : sample_load (Some (b64 0)) = Err (EProviderRate (t "sub")).
Proof. by vm_compute. Qed.
Example nan_rate_accepted : match sample_load (Some S754_nan) with Ok _ => true | Err _ => false end = true.
Proof. by vm_compute. Qed.

Example environment_reference :
  expandEnv (fun name => if bool_decide (name = t "KEY") then Some (t "${OTHER}") else None)
    (mkNode MappingNode 0 (t "!!map") [] [] [scalar (t "key"); scalar (t "${KEY}")])
  = Ok (mkNode MappingNode 0 (t "!!map") [] [] [scalar (t "key"); scalar (t "${OTHER}")]).
Proof. by vm_compute. Qed.

Example unset_reference : expandEnv (fun _ => None) (scalar (t "${KEY}")) = Err (EEnvUnset (t "KEY")).
Proof. by vm_compute. Qed.

Lemma loaded_config_is_well_formed_witness : AgedAfter loaded = 30 * (24 * hour).
Proof.
  destruct (loaded_config_is_well_formed (sample_common None) (fun _ => [Some (scalar [])]) (fun _ => Some []) (fun _ => Some sample_raw)
    (Some []) _ loaded sample_loads) as (_ & _ & _ & _ & _ & _ & _ & E).
  rewrite E. by vm_compute.
Defined.
