(* ===== verification/PathMap.v ===== *)
(** * Remote paths (src/internal/catalog/pathmap.go)

    [MapPath] turns a path as Sonarr or Radarr report it into a local path: the
    mapping with the longest matching prefix is chosen, traversal is refused,
    and the result must lie in a media root once the links of its existing part
    are resolved. The file system is a parameter: [lstat] and [EvalSymlinks] of
    each path, with the errors the code tells apart. *)
From S2P Require Import Prelude GoText Paths Domain Config.

#[local] Open Scope Z_scope.
#[local] Arguments N.eqb : simpl never.

(** [os.IsNotExist], [domain.MountUnavailable], and every other error. *)
Inductive FileError := NotExist | MountDown | OtherFileError.

Inductive MapError :=
| OutsideScope (reason : text)
| Traversal
| NotAbsolute
| MappedPathUnavailable (reason : text)
| ResolveRoot (root : text)
| ResolvePath (reason : text)
| CannotResolve.

Definition IsOutsideScope (e : MapError) : bool := match e with OutsideScope _ => true | _ => false end.

Definition normalizeRemote (path : text) : text := replace_rune 92%N slash path.

Definition hasPathPrefix (path prefix : text) : bool :=
  if bool_decide (prefix = t "/") then has_prefix (t "/") path
  else if bool_decide (path = prefix) then true
  else has_prefix (prefix ++ t "/") path.

Definition pathContained (root path : text) : bool := within (path_clean root) (path_clean path).

Record candidate := mkCandidate { remote : text; local : text }.

Definition remote_prefix (mapping : PathMapping) : text :=
  let r := normalizeRemote (MapRemote mapping) in
  if bool_decide (r = t "/") then t "/" else trim_suffix (t "/") r.

Definition candidates (normalizedRemote : text) (mappings : list PathMapping) : list candidate :=
  omap (fun mapping =>
      let prefix := remote_prefix mapping in
      if bool_decide (prefix = []) || negb (hasPathPrefix normalizedRemote prefix) then None
      else Some (mkCandidate prefix (MapLocal mapping)))
    mappings.

Definition longer (a b : candidate) : bool := byte_len (remote b) <? byte_len (remote a).

Section map_path.
(** [sort.Slice] with [longer]: the order of candidates of equal length is not
    specified. *)
Context (sorted : list candidate -> list candidate).
Context (lstat : text -> option FileError) (eval_symlinks : text -> result FileError text).

Fixpoint resolve (fuel : nat) (current : text) (missing : list text) : option (result MapError text) :=
  match fuel with
  | O => None
  | S fuel =>
      match lstat current with
      | None =>
          match eval_symlinks current with
          | Err OtherFileError => Some (Err (ResolvePath (t "resolve mapped path")))
          | Err _ => Some (Err (MappedPathUnavailable (t "resolve mapped path")))
          | Ok resolved => Some (Ok (path_clean (fold_left (fun r e => filepath_join [r; e]) (rev missing) resolved)))
          end
      | Some MountDown => Some (Err (MappedPathUnavailable (t "inspect mapped path")))
      | Some OtherFileError => Some (Err (ResolvePath (t "inspect mapped path")))
      | Some NotExist =>
          let parent := path_dir current in
          if bool_decide (parent = current) then Some (Err CannotResolve)
          else resolve fuel parent (missing ++ [path_base current])
      end
  end.

Definition resolveExistingParents (path : text) : option (result MapError text) :=
  resolve (S (S (length path))) (path_clean path) [].

Fixpoint first_root (mapped resolved : text) (mediaRoots : list text) : result MapError text :=
  match mediaRoots with
  | [] => Err (OutsideScope (t "mapped path is outside configured media roots"))
  | root :: mediaRoots =>
      match eval_symlinks (path_clean root) with
      | Err MountDown => Err (MappedPathUnavailable (t "resolve media root"))
      | Err _ => Err (ResolveRoot root)
      | Ok resolvedRoot => if pathContained resolvedRoot resolved then Ok mapped else first_root mapped resolved mediaRoots
      end
  end.

Definition MapPath (path : text) (mappings : list PathMapping) (mediaRoots : list text) : option (result MapError text) :=
  let normalizedRemote := normalizeRemote path in
  match sorted (candidates normalizedRemote mappings) with
  | [] => Some (Err (OutsideScope (t "remote path does not match a configured mapping")))
  | selected :: _ =>
      let remainder := trim_prefix (t "/") (trim_prefix (remote selected) normalizedRemote) in
      let parts := split_rune slash remainder in
      if bool_decide (t ".." ∈ parts) then Some (Err Traversal)
      else
        let mapped := path_clean (filepath_join (local selected :: parts)) in
        if negb (rooted mapped) then Some (Err NotAbsolute)
        else match resolveExistingParents mapped with
             | None => None
             | Some (Err e) => Some (Err e)
             | Some (Ok resolved) => Some (first_root mapped resolved mediaRoots)
             end
  end.
End map_path.

(** ** Joining and cleaning *)

Definition kept (parts : list text) : list text := base.filter (fun e => e <> [] /\ e <> t ".") parts.

Lemma clean_steps_keep parts stack : t ".." ∉ parts ->
  fold_left (clean_step true) parts stack = rev (kept parts) ++ stack.
Proof.
  revert stack. induction parts as [|e parts IH]; intros stack Hn; [done|].
  apply not_elem_of_cons in Hn as [He Hn]. cbn [fold_left]. rewrite IH by done. unfold kept, clean_step.
  destruct (decide (e = [])) as [->|H1]; [done|]. rewrite (bool_decide_false (e = [])) by done.
  destruct (decide (e = t ".")) as [->|H2]; [done|]. rewrite (bool_decide_false (e = t ".")) by done.
  rewrite (bool_decide_false (e = t "..")) by congruence. cbn [orb].
  rewrite filter_cons_True by done. cbn [rev]. by rewrite <- app_assoc.
Qed.

Lemma kept_plain parts : t ".." ∉ parts -> Forall no_slash parts -> Forall plain (kept parts).
Proof.
  intros Hn Hs. rewrite Forall_forall in Hs. apply Forall_forall. intros e [[H1 H2] Hin]%list_elem_of_filter.
  split_and!; [by apply Hs|done|done|by intros ->].
Qed.

Lemma split_rune_app sep a b : split_rune sep (a ++ sep :: b) = split_rune sep a ++ split_rune sep b.
Proof.
  induction a as [|r a IH]; simpl; [by rewrite N.eqb_refl|]. destruct (r =? sep)%N; [by rewrite IH|]. rewrite IH.
  pose proof (split_rune_nonempty sep a) as Ha. by destruct (split_rune sep a).
Qed.

Lemma split_join_any sep es : es <> [] -> split_rune sep (join [sep] es) = concat (map (split_rune sep) es).
Proof.
  intros Hne. induction es as [|e es IH]; [done|]. destruct es as [|e' es]; [cbn; by rewrite app_nil_r|].
  change (join [sep] (e :: e' :: es)) with (e ++ sep :: join [sep] (e' :: es)).
  rewrite split_rune_app, IH by done. done.
Qed.

(** The elements a cleaned path is made of. *)
Lemma clean_stack p es : rooted p = true -> path_clean p = of_elements es -> Forall plain es ->
  fold_left (clean_step true) (split_rune slash p) [] = rev es.
Proof.
  intros Hp Hc Hes. unfold path_clean in Hc. change (has_prefix (t "/") p) with (rooted p) in Hc. rewrite Hp in Hc.
  assert (Forall plain (rev (fold_left (clean_step true) (split_rune slash p) []))) as Hls.
  { apply Forall_rev, clean_steps_sound; [apply split_elements_no_slash|done]. }
  rewrite <- (rev_involutive (fold_left _ _ _)). f_equal.
  rewrite <- (path_elements_of (rev _)), <- (path_elements_of es) by done. f_equal. exact Hc.
Qed.

Lemma concat_no_slash l : Forall no_slash l -> concat (map (split_rune slash) l) = l.
Proof. induction 1 as [|e l He _ IH]; [done|]. cbn. by rewrite split_no_slash, IH. Qed.

(** Joining a rooted path with elements that do not climb appends the elements
    that count. *)
Lemma join_parts p es parts : rooted p = true -> path_clean p = of_elements es -> Forall plain es ->
  t ".." ∉ parts -> Forall no_slash parts ->
  filepath_join (p :: parts) = of_elements (es ++ kept parts).
Proof.
  intros Hp Hc Hes Hn Hs. unfold filepath_join.
  rewrite filter_cons_True by (intros ->; by vm_compute in Hp).
  set (rest := base.filter (fun e => e <> []) parts).
  assert (Forall no_slash rest) as Hrs.
  { rewrite Forall_forall in Hs |- *. intros e [_ ?]%list_elem_of_filter. by apply Hs. }
  assert (t ".." ∉ rest) as Hrn by (intros [_ ?]%list_elem_of_filter; done).
  assert (kept rest = kept parts) as <-.
  { unfold kept, rest. rewrite list_filter_filter. apply list_filter_iff. naive_solver. }
  change (join (t "/") (p :: rest)) with (join [slash] (p :: rest)).
  assert (rooted (join [slash] (p :: rest)) = true) as Hr.
  { apply rooted_split in Hp as [s ->]. by destruct rest. }
  unfold path_clean. change (has_prefix (t "/") (join [slash] (p :: rest))) with (rooted (join [slash] (p :: rest))). rewrite Hr.
  rewrite split_join_any by done. cbn [map concat]. rewrite fold_left_app, (clean_stack p es), concat_no_slash by done.
  rewrite clean_steps_keep by done. by rewrite rev_app_distr, !rev_involutive.
Qed.

Lemma join_one es e : Forall plain es -> plain e -> filepath_join [of_elements es; e] = of_elements (es ++ [e]).
Proof.
  intros Hes He. rewrite (join_parts _ es); [|done|by apply clean_of_elements|done| |by constructor; [apply He|]].
  - do 2 f_equal. unfold kept. destruct He as (_ & ? & ? & _). by rewrite filter_cons_True.
  - intros [E|E]%elem_of_cons; [by destruct He as (_ & _ & _ & ?)|by inversion E].
Qed.

Lemma join_all es tl : Forall plain (es ++ tl) ->
  fold_left (fun r e => filepath_join [r; e]) tl (of_elements es) = of_elements (es ++ tl).
Proof.
  revert es. induction tl as [|e tl IH]; intros es Hp; [by rewrite app_nil_r|].
  cbn [fold_left]. pose proof Hp as [Hes [He _]%Forall_cons]%Forall_app.
  rewrite join_one by done. rewrite IH by (by rewrite <- app_assoc). by rewrite <- app_assoc.
Qed.

(** ** Resolving the existing part *)

Lemma dir_elements es e : Forall plain (es ++ [e]) -> path_dir (of_elements (es ++ [e])) = of_elements es.
Proof.
  intros [Hes [He _]%Forall_cons]%Forall_app. rewrite <- join_of_elements by done.
  apply path_dir_join; [by exists es|apply He].
Qed.

Lemma base_elements es e : Forall plain (es ++ [e]) -> path_base (of_elements (es ++ [e])) = e.
Proof.
  intros [Hes [He _]%Forall_cons]%Forall_app. rewrite <- join_of_elements by done.
  apply path_base_join; [by exists es|done].
Qed.

Lemma elements_inj es es' : Forall plain es -> Forall plain es' -> of_elements es = of_elements es' -> es = es'.
Proof. intros H H' E. by rewrite <- (path_elements_of es), <- (path_elements_of es'), E. Qed.

Lemma elements_length es : Forall plain es -> (length es <= length (of_elements es))%nat.
Proof.
  intros Hes. unfold of_elements. rewrite length_app. simpl.
  assert (length es <= length (join (t "/") es))%nat; [|lia].
  induction Hes as [|e es (_ & He & _) _ IH]; [done|]. destruct e as [|r e]; [done|].
  destruct es as [|e' es]; [cbn; lia|].
  change (join (t "/") ((r :: e) :: e' :: es)) with ((r :: e) ++ slash :: join (t "/") (e' :: es)).
  rewrite length_app. simpl length in *. lia.
Qed.

Section resolving.
Context (sorted : list candidate -> list candidate).
Context (lstat : text -> option FileError) (eval_symlinks : text -> result FileError text).

(** A search upwards ends at the root at the latest. *)
Lemma resolve_total fuel es missing : Forall plain es -> (length es < fuel)%nat ->
  is_Some (resolve lstat eval_symlinks fuel (of_elements es) missing).
Proof.
  revert es missing. induction fuel as [|fuel IH]; intros es missing Hes Hf; [lia|]. cbn [resolve].
  destruct (lstat _) as [[]|]; [|by eauto..|by destruct (eval_symlinks _) as [|[]]; eauto].
  destruct es as [|e es _] using rev_ind; [vm_compute; by eauto|]. rewrite dir_elements by done.
  case_bool_decide as E; [by eauto|]. apply Forall_app in Hes as [Hes _]. apply IH; [done|].
  rewrite length_app in Hf. simpl in Hf. lia.
Qed.

(** Where a path really lies: its longest existing part with its links
    resolved, and the rest, which does not exist, as it is. *)
Definition really_at (es real : list text) : Prop :=
  exists a tl r, es = a ++ tl /\ lstat (of_elements a) = None
  /\ (forall b c, tl = b ++ c -> b <> [] -> lstat (of_elements (a ++ b)) = Some NotExist)
  /\ eval_symlinks (of_elements a) = Ok (of_elements r) /\ Forall plain r /\ real = r ++ tl.

Hypothesis eval_clean : forall p q, clean_path p -> eval_symlinks p = Ok q -> clean_path q.

Lemma resolve_sound fuel es missing resolved : Forall plain (es ++ rev missing) ->
  (forall b c, rev missing = b ++ c -> b <> [] -> lstat (of_elements (es ++ b)) = Some NotExist) ->
  resolve lstat eval_symlinks fuel (of_elements es) missing = Some (Ok resolved) ->
  exists real, really_at (es ++ rev missing) real /\ Forall plain real /\ resolved = of_elements real.
Proof.
  revert es missing. induction fuel as [|fuel IH]; intros es missing Hp Hm E; [done|]. cbn [resolve] in E.
  pose proof Hp as [Hes Hrm]%Forall_app.
  destruct (lstat (of_elements es)) as [[]|] eqn:El; [|done..|].
  - destruct es as [|e es _] using rev_ind; [by vm_compute in E|]. rewrite dir_elements, base_elements in E by done.
    case_bool_decide; [done|]. rewrite <- app_assoc. change ([e] ++ rev missing) with (e :: rev missing).
    assert (rev (missing ++ [e]) = e :: rev missing) as Er by apply rev_app_distr. rewrite <- Er.
    apply IH; [| |done]; rewrite Er.
    + by rewrite <- app_assoc in Hp.
    + intros b c Eb Hb. destruct b as [|e' b]; [done|]. injection Eb as <- Eb.
      destruct b as [|x b]; [exact El|]. change (es ++ e :: x :: b) with (es ++ [e] ++ x :: b). rewrite app_assoc. by eapply Hm.
  - destruct (eval_symlinks (of_elements es)) as [r|[]] eqn:Ee; [|done..]. injection E as <-.
    pose proof (eval_clean (of_elements es) r ltac:(by exists es) Ee) as (rs & Hrs & ->).
    assert (Forall plain (rs ++ rev missing)) as Hreal by (by apply Forall_app).
    exists (rs ++ rev missing). split_and!; [|done|by rewrite join_all, clean_of_elements].
    by exists es, (rev missing), rs.
Qed.

Lemma resolve_mapped es : Forall plain es -> exists r, resolveExistingParents lstat eval_symlinks (of_elements es) = Some r
  /\ (forall resolved, r = Ok resolved -> exists real, really_at es real /\ Forall plain real /\ resolved = of_elements real).
Proof.
  intros Hes. unfold resolveExistingParents. rewrite clean_of_elements by done.
  destruct (resolve_total (S (S (length (of_elements es)))) es []) as [r E]; [done|pose proof (elements_length es Hes); lia|].
  exists r. split; [done|]. intros resolved ->. apply resolve_sound in E; rewrite ?app_nil_r; try done.
  - cbn in E. by rewrite app_nil_r in E.
  - intros b c Eb Hb. by destruct b.
Qed.

(** What a candidate is. *)
Lemma candidates_spec normalized mappings c :
  c ∈ candidates normalized mappings <-> exists m, m ∈ mappings /\ remote_prefix m <> []
    /\ hasPathPrefix normalized (remote_prefix m) = true /\ c = mkCandidate (remote_prefix m) (MapLocal m).
Proof.
  unfold candidates. rewrite list_elem_of_omap. split.
  - intros (m & Hm & E). exists m. destruct (bool_decide (remote_prefix m = [])) eqn:En; [done|].
    destruct (hasPathPrefix normalized (remote_prefix m)); [|done]. injection E as <-. by apply bool_decide_eq_false in En.
  - intros (m & Hm & Hn & Hp & ->). exists m. split; [done|]. rewrite bool_decide_false, Hp by done. done.
Qed.

Lemma first_root_sound mapped resolved roots m : first_root eval_symlinks mapped resolved roots = Ok m ->
  m = mapped /\ exists root r, root ∈ roots /\ eval_symlinks (path_clean root) = Ok r /\ pathContained r resolved = true.
Proof.
  induction roots as [|root roots IH]; cbn; [done|].
  destruct (eval_symlinks (path_clean root)) as [r|[]] eqn:Er; [|done..].
  destruct (pathContained r resolved) eqn:Ec.
  - intros [= <-]. split; [done|]. exists root, r. split_and!; [by left|done|done].
  - intros (-> & root' & r' & ? & ?)%IH. split; [done|]. exists root', r'. split; [by right|done].
Qed.

(** The path a chosen candidate maps to. *)
Lemma mapped_elements normalized c : rooted (local c) = true ->
  let parts := split_rune slash (trim_prefix (t "/") (trim_prefix (remote c) normalized)) in
  t ".." ∉ parts ->
  exists es, Forall plain (es ++ kept parts) /\ path_clean (local c) = of_elements es
    /\ path_clean (filepath_join (local c :: parts)) = of_elements (es ++ kept parts).
Proof.
  intros Hl parts Hn. pose proof (path_clean_clean _ Hl) as (es & Hes & Ec). exists es.
  assert (Forall plain (es ++ kept parts)) as Hp by (apply Forall_app; split; [done|]; apply kept_plain; [done|apply split_elements_no_slash]).
  split_and!; [done|done|]. rewrite (join_parts _ es); [by apply clean_of_elements|done..|apply split_elements_no_slash].
Qed.

(** Mapping a path always ends. *)
Lemma map_path_total path mappings roots : (forall m, m ∈ mappings -> rooted (MapLocal m) = true) ->
  (forall l, sorted l ≡ₚ l) -> is_Some (MapPath sorted lstat eval_symlinks path mappings roots).
Proof.
  intros Hm Hs. unfold MapPath. destruct (sorted _) as [|c cs] eqn:Ec; [by eauto|]. case_bool_decide as Hn; [by eauto|].
  assert (c ∈ candidates (normalizeRemote path) mappings) as (m & Hin & _ & _ & ->)%candidates_spec.
  { rewrite <- Hs, Ec. by left. }
  destruct (mapped_elements (normalizeRemote path) (mkCandidate (remote_prefix m) (MapLocal m)) (Hm m Hin) Hn) as (es & Hp & _ & E).
  rewrite E. destruct (resolve_mapped _ Hp) as ([r|e] & -> & _); cbn [rooted of_elements]; by eauto.
Qed.

(** C37. A remote path of a configured instance maps through the mapping with
    the longest matching prefix: the result is that mapping's directory
    followed by the rest of the remote path, element by element, and once its
    existing part has its links resolved it lies in a media root that exists.
    Every mapping ends, whatever the path and the file system. *)
Theorem mapped_path_stays_in_scope `{Unicode, UrlSyntax} config instance path :
  well_formed config -> instance ∈ Instances config ->
  (forall l, sorted l ≡ₚ l /\ StronglySorted (not_after longer) (sorted l)) ->
  exists answer, MapPath sorted lstat eval_symlinks path (IPathMappings instance) (MediaRoots config) = Some answer
  /\ forall mapped, answer = Ok mapped -> exists mapping es rest real root resolvedRoot,
    mapping ∈ IPathMappings instance
    /\ hasPathPrefix (normalizeRemote path) (remote_prefix mapping) = true
    /\ (forall other, other ∈ IPathMappings instance -> hasPathPrefix (normalizeRemote path) (remote_prefix other) = true ->
        byte_len (remote_prefix other) <= byte_len (remote_prefix mapping))
    /\ path_clean (MapLocal mapping) = of_elements es
    /\ rest = kept (split_rune slash (trim_prefix (t "/") (trim_prefix (remote_prefix mapping) (normalizeRemote path))))
    /\ mapped = of_elements (es ++ rest) /\ Forall plain (es ++ rest)
    /\ really_at (es ++ rest) real
    /\ root ∈ MediaRoots config /\ eval_symlinks (path_clean root) = Ok resolvedRoot /\ lies_in resolvedRoot (of_elements real).
Proof.
  intros Hc Hi Hs. destruct (wf_roots _ (wf_server _ Hc)) as [_ Hroots]. rewrite Forall_forall in Hroots.
  pose proof (wf_instances _ Hc) as Hall. rewrite Forall_forall in Hall. apply Hall in Hi as [_ _ _ _ _ Hmaps].
  rewrite Forall_forall in Hmaps. destruct (map_path_total path (IPathMappings instance) (MediaRoots config)) as [answer E].
  { intros m Hm. by apply Hmaps. } { intros l. apply Hs. }
  exists answer. split; [exact E|]. intros mapped ->. unfold MapPath in E.
  destruct (Hs (candidates (normalizeRemote path) (IPathMappings instance))) as [Hperm Hsorted].
  destruct (sorted _) as [|c cs] eqn:Ec; [done|]. case_bool_decide as Hn; [done|].
  assert (c ∈ candidates (normalizeRemote path) (IPathMappings instance)) as (m & Hin & Hne & Hp & ->)%candidates_spec.
  { rewrite <- Hperm. by left. }
  destruct (mapped_elements (normalizeRemote path) (mkCandidate (remote_prefix m) (MapLocal m)) ltac:(by apply Hmaps) Hn) as (es & Hes & El & Em).
  rewrite Em in E. cbn [rooted of_elements] in E.
  destruct (resolve_mapped _ Hes) as ([r|e] & Er & Hr); rewrite Er in E; [|done]. destruct (Hr r eq_refl) as (real & Hat & Hreal & ->).
  injection E as (-> & root & resolvedRoot & Hroot & Heval & Hin')%first_root_sound.
  eexists m, es, _, real, root, resolvedRoot. split_and!; try done.
  - intros other Ho Hpo. destruct (decide (remote_prefix other = [])) as [->|Hno]; [change (byte_len []) with 0; unfold byte_len; lia|].
    assert (mkCandidate (remote_prefix other) (MapLocal other) ∈ mkCandidate (remote_prefix m) (MapLocal m) :: cs) as Hc'.
    { rewrite Hperm. apply candidates_spec. by exists other. }
    apply elem_of_cons in Hc' as [[= -> _]|Hc']; [done|]. apply StronglySorted_inv in Hsorted as [_ Hle].
    rewrite Forall_forall in Hle. apply Hle in Hc'. by apply Z.ltb_ge in Hc'.
  - pose proof (eval_clean _ _ (path_clean_clean _ (Hroots _ Hroot)) Heval) as (rs & Hrs & ->).
    unfold pathContained in Hin'. rewrite !clean_of_elements in Hin' by done. apply within_spec in Hin' as [tl ->]; [|done..].
    exists rs, tl. by rewrite !clean_of_elements.
Qed.
End resolving.

(** ** Example *)

#[local] Existing Instance sample_order.
#[local] Existing Instance sample_urls.
#[local] Existing Instance sample_tags.

(** The library /media/tv is a link to /mnt/disk/tv; nothing below it exists. *)
Definition sample_lstat (path : text) : option FileError :=
  if bool_decide (path ∈ [t "/"; t "/media"; t "/media/tv"; t "/media/movies"]) then None else Some NotExist.
Definition sample_links (path : text) : result FileError text :=
  if bool_decide (path = t "/media/tv") then Ok (t "/mnt/disk/tv")
  else if bool_decide (path = t "/media/movies") then Ok (t "/media/movies") else Err NotExist.

Definition sample_map (path : text) : option (result MapError text) :=
  MapPath (stable_sort longer) sample_lstat sample_links path
    (match Instances loaded with i :: _ => IPathMappings i | [] => [] end) (MediaRoots loaded).

Example sample_mapped : sample_map (t "\tv\Show/./e1.mkv") = Some (Ok (t "/media/tv/shows/Show/e1.mkv")).
Proof. by vm_compute. Qed.
Example sample_traversal : sample_map (t "/tv/../../etc/passwd") = Some (Err Traversal).
Proof. by vm_compute. Qed.
Example sample_outside : sample_map (t "/tvshows/e1.mkv")
  = Some (Err (OutsideScope (t "remote path does not match a configured mapping"))).
Proof. by vm_compute. Qed.

Lemma sample_links_clean p q : clean_path p -> sample_links p = Ok q -> clean_path q.
Proof.
  intros _. unfold sample_links. case_bool_decide; [|case_bool_decide; [|done]]; intros [= <-].
  - exists [t "mnt"; t "disk"; t "tv"]. split; [|done]. by repeat constructor.
  - exists [t "media"; t "movies"]. split; [|done]. by repeat constructor.
Qed.

Lemma loaded_well_formed : well_formed loaded.
Proof. apply Validate_ok. by vm_compute. Qed.

Lemma longest_first l : stable_sort longer l ≡ₚ l /\ StronglySorted (not_after longer) (stable_sort longer l).
Proof.
  split; [apply stable_sort_perm|]. apply stable_sort_sorted; unfold not_after, longer; intros; lia.
Qed.

Lemma mapped_path_stays_in_scope_witness : exists real resolvedRoot,
  really_at sample_lstat sample_links [t "media"; t "tv"; t "shows"; t "Show"; t "e1.mkv"] real
  /\ lies_in resolvedRoot (of_elements real).
Proof.
  destruct (Instances loaded) as [|i is_] eqn:Ei; [by vm_compute in Ei|].
  destruct (mapped_path_stays_in_scope (stable_sort longer) sample_lstat sample_links sample_links_clean loaded i (t "\tv\Show/./e1.mkv")
    loaded_well_formed ltac:(rewrite Ei; by left) longest_first) as (answer & E & Hm).
  assert (answer = Ok (t "/media/tv/shows/Show/e1.mkv")) as Ea.
  { pose proof sample_mapped as Hs. unfold sample_map in Hs. rewrite Ei in Hs. rewrite Hs in E. by injection E. }
  destruct (Hm _ Ea) as (m & es & rest & real & root & resolvedRoot & _ & _ & _ & _ & _ & Eo & Hp & Hat & _ & _ & Hin).
  assert (es ++ rest = [t "media"; t "tv"; t "shows"; t "Show"; t "e1.mkv"]) as Es.
  { apply elements_inj; [done|by repeat constructor|]. by rewrite <- Eo. }
  rewrite <- Es. exists real, resolvedRoot. exact (conj Hat Hin).
Defined.
