(* ===== verification/InstallPhases.v ===== *)
(** * The phases of an install

    The states an install and its recovery go through, seen from the state the
    install started in: nothing published yet, a pending row over an unpublished
    or a published file, the recorded install, and a reinstalled text that an
    old record already names. Each phase is kept by steps that change only the
    install's hidden files. *)
From S2P Require Import Prelude GoText GoFloat Domain MatchScore SearchQueue Schedule Workflow Paths Outbox InstallStore Disk Install Remove Recovery InstallSpec.

#[local] Open Scope Z_scope.

(** ** Changes of a few names *)

(** Only the names of [T] change. *)
Definition same_off (T : list text) (w w' : world) : Prop :=
  forall q, q ∉ T -> d_names (w_disk w') !! q = d_names (w_disk w) !! q /\ look (w_disk w') q = look (w_disk w) q.

Lemma same_off_refl T w : same_off T w w.
Proof. done. Qed.

Lemma same_off_unlink q w : same_off [q] w (on_disk (unlink q (w_disk w)) w).
Proof.
  intros x Hx. apply not_elem_of_cons in Hx as [Hx _]. split; simpl.
  - by rewrite lookup_delete_ne.
  - rewrite look_unlink. by rewrite decide_False.
Qed.

Lemma same_off_create q n w :
  same_off [q] w (on_disk (mkDisk (<[q := free_inode (w_disk w)]> (d_names (w_disk w)))
                                  (<[free_inode (w_disk w) := n]> (d_nodes (w_disk w)))) w).
Proof.
  intros x Hx. apply not_elem_of_cons in Hx as [Hx _]. split; simpl.
  - by rewrite lookup_insert_ne.
  - rewrite look_create. by rewrite decide_False.
Qed.

Lemma same_off_insert q ino w :
  same_off [q] w (on_disk (mkDisk (<[q := ino]> (d_names (w_disk w))) (d_nodes (w_disk w))) w).
Proof.
  intros x Hx. apply not_elem_of_cons in Hx as [Hx _]. split; simpl.
  - by rewrite lookup_insert_ne.
  - rewrite look_insert. by rewrite decide_False.
Qed.

Lemma same_off_rename old new ino names' d w :
  d_names d = <[new := ino]> (delete old (d_names (w_disk w))) -> d_nodes d = d_nodes (w_disk w) ->
  names' = [old; new] -> same_off names' w (on_disk d w).
Proof.
  intros Hn Hd -> x Hx. apply not_elem_of_cons in Hx as [H1 Hx]. apply not_elem_of_cons in Hx as [H2 _].
  assert (d_names d !! x = d_names (w_disk w) !! x) as Hx.
  { by rewrite Hn, lookup_insert_ne, lookup_delete_ne by done. }
  split; [done|]. unfold look, on_disk. simpl. by rewrite Hx, Hd.
Qed.

Lemma same_off_scribbled ino q w w' :
  (forall x, d_names (w_disk w) !! x = Some ino -> x = q) -> scribbled ino w w' -> same_off [q] w w'.
Proof.
  intros Hq Hs x Hx. apply not_elem_of_cons in Hx as [Hx _]. rewrite (scribbled_names _ _ _ Hs). split; [done|].
  unfold look. rewrite (scribbled_names _ _ _ Hs). destruct (d_names (w_disk w) !! x) as [j|] eqn:E; [|done]. simpl.
  apply (scribbled_others _ _ _ Hs). intros ->. by apply Hx, Hq.
Qed.

Lemma scribbled_ok ino w w' : scribbled ino w w' -> disk_ok (w_disk w) -> disk_ok (w_disk w').
Proof.
  intros Hs Hok q j. rewrite (scribbled_names _ _ _ Hs). intros Hq. destruct (Hok q j Hq) as [n Hn].
  destruct (decide (j = ino)) as [->|Hj].
  - destruct (scribbled_kind _ _ _ Hs n Hn) as (n' & Hn' & _). by exists n'.
  - rewrite (scribbled_others _ _ _ Hs) by done. by exists n.
Qed.

(** The copy of a subtitle: its content, kind and permission bits. *)
Definition restored_as (n n' : node) : Prop :=
  f_kind n' = f_kind n /\ f_data n' = f_data n /\ (f_mode n' = f_mode n \/ f_mode n' = N.land (f_mode n) 511).

Lemma restored_refl n : restored_as n n.
Proof. split_and!; auto. Qed.

Lemma restored_trans a b c : restored_as a b -> restored_as b c -> restored_as a c.
Proof.
  intros (? & ? & Hm) (? & ? & Hm'). split_and!; [congruence..|].
  destruct Hm as [Hm|Hm], Hm' as [Hm'|Hm']; rewrite Hm', Hm; auto. right. by rewrite <- N.land_assoc.
Qed.

Section phases.
Context (cwd : text) (draws : text -> nat -> N) (checksumBytes : text -> text).
Context (q : InstallRequest) (w0 : world).

Definition target : text := path_abs cwd (QDestinationPath q).
Definition folder : text := path_dir target.
Definition key : Z * Language := (QMediaID q, QLanguage q).
Definition old_record : option Installation := idb_installs (w_db w0) !! key.

(** A hidden name of the installer, free at the start. *)
Definition hidden (x : text) : Prop :=
  (exists prefix n, (prefix = stagePrefix \/ prefix = rollbackPrefix) /\ x = temp_name draws folder prefix n)
  /\ look (w_disk w0) x = None.

(** Every file but those of [T] is as it was; new ones are hidden. *)
Definition others (T : list text) (w : world) : Prop :=
  forall x, x ∉ T -> look (w_disk w) x = look (w_disk w0) x \/ hidden x.

(** The destination shows what it showed, or a copy of it. *)
Definition old_target (w : world) : Prop :=
  match look (w_disk w0) target with
  | None => look (w_disk w) target = None
  | Some n => exists n', look (w_disk w) target = Some n' /\ restored_as n n'
  end.

Definition has_text (x : text) (payload : text) (w : world) : Prop :=
  exists n, look (w_disk w) x = Some n /\ f_kind n = Regular /\ f_data n = payload.

(** The pending row of this install. *)
Record row_ok (row : PendingInstall) (payload : text) : Prop := {
  row_media : PMediaID row = QMediaID q;
  row_language : PLanguage row = QLanguage q;
  row_destination : PDestination row = target;
  row_checksum : PChecksum row = checksumBytes payload;
  row_staged : hidden (PStagedPath row);
  row_copy : PRollbackPath row = []
             \/ hidden (PRollbackPath row) /\ PRollbackPath row <> PStagedPath row
                /\ exists n, PRollbackPath row = temp_name draws folder rollbackPrefix n;
  row_inode : PPublishedInode row <> 0;
  row_replaces : look (w_disk w0) target <> None -> row_recorded row target old_record = false;
  row_id : PID row <> 0;
}.

Definition pending_db (rows : gmap Z PendingInstall) : install_db := with_pending rows (w_db w0).

(** Not published, no row. *)
Record untouched (w : world) : Prop := {
  u_ok : disk_ok (w_disk w);
  u_others : others [target] w;
  u_target : old_target w;
  u_db : w_db w = pending_db ∅;
}.

(** A row over an unpublished file. *)
Record announced (row : PendingInstall) (w : world) : Prop := {
  a_ok : disk_ok (w_disk w);
  a_others : others [target] w;
  a_target : old_target w;
  a_db : w_db w = pending_db {[PID row := row]};
  a_inode : d_names (w_disk w) !! target <> Some (PPublishedInode row);
  a_staged : tidy (PStagedPath row) w;
  a_copy : tidy (PRollbackPath row) w \/ PRollbackPath row = [];
}.

(** A row over the published file; the copy holds the previous subtitle. *)
Record published (row : PendingInstall) (payload : text) (w : world) : Prop := {
  p_ok : disk_ok (w_disk w);
  p_others : others [target] w;
  p_db : w_db w = pending_db {[PID row := row]};
  p_inode : d_names (w_disk w) !! target = Some (PPublishedInode row);
  p_text : has_text target payload w;
  p_staged : tidy (PStagedPath row) w;
  p_copy : match look (w_disk w0) target with
           | None => PRollbackPath row = []
           | Some n => PRollbackPath row <> []
                       /\ d_names (w_disk w) !! PRollbackPath row <> Some (PPublishedInode row)
                       /\ exists n', look (w_disk w) (PRollbackPath row) = Some n' /\ f_kind n' = Regular
                            /\ restored_as n n'
           end;
}.

(** The published file of an install that was not recorded, kept because an
    old record already names this text at this path. *)
Record adopted (payload : text) (w : world) : Prop := {
  d_ok : disk_ok (w_disk w);
  d_others : others [target] w;
  d_db : w_db w = pending_db ∅;
  d_text : has_text target payload w;
  d_free : look (w_disk w0) target = None;
  d_record : exists x, old_record = Some x /\ path_clean (IPath x) = target /\ IChecksum x = checksumBytes payload;
}.

(** The name of the copy an older build kept. *)
Definition old_copy : list text :=
  match old_record with Some x => [path_abs cwd (IRollbackPath x)] | None => [] end.

(** The record of the finished install. *)
Definition names_install (payload : text) (x : Installation) : Prop :=
  IMediaID x = QMediaID q /\ ILanguage x = QLanguage q /\ path_clean (IPath x) = target
  /\ IChecksum x = checksumBytes payload /\ IProviderID x = ProviderID (QCandidate q)
  /\ ICandidateID x = ResultID (QCandidate q) /\ IScoreJSON x = ScoreIs (QScore q)
  /\ IFallback x = QFallback q /\ IMediaPath x = FpPath (Fingerprint (QMedia q))
  /\ IMediaFileID x = FpFileID (Fingerprint (QMedia q)) /\ IMediaSize x = FpSize (Fingerprint (QMedia q))
  /\ IMediaModTimeNS x = FpModTime (Fingerprint (QMedia q)).

(** Published and recorded, its notifications queued, in one step. *)
Record recorded (requests : list NotificationRequest) (payload : text) (w : world) : Prop := {
  r_ok : disk_ok (w_disk w);
  r_others : others (target :: old_copy) w;
  r_text : has_text target payload w;
  r_installs : exists x, names_install payload x
                 /\ idb_installs (w_db w) = <[key := x]> (idb_installs (w_db w0));
  r_pending : idb_pending (w_db w) = ∅;
  r_outbox : idb_outbox (w_db w) = (enqueue_all requests (idb_outbox (w_db w0))).1;
  r_media : idb_media (w_db w) = idb_media (w_db w0);
}.

(** The same text again: the record takes the new provenance, no file changes. *)
Record refreshed (requests : list NotificationRequest) (payload : text) (w : world) : Prop := {
  f_disk : w_disk w = w_disk w0;
  f_text : exists n, look (w_disk w0) target = Some n /\ f_kind n = Regular
             /\ checksumBytes (Disk.f_data n) = checksumBytes payload;
  f_installs : exists x, names_install payload x
                 /\ idb_installs (w_db w) = <[key := x]> (idb_installs (w_db w0));
  f_pending : idb_pending (w_db w) = ∅;
  f_outbox : idb_outbox (w_db w) = (enqueue_all requests (idb_outbox (w_db w0))).1;
  f_media : idb_media (w_db w) = idb_media (w_db w0);
}.

(** ** Steps on hidden files keep the phase *)

Context (Hcwd : rooted cwd = true).
Context (Hvisible : ~ hidden target).

Lemma target_clean : clean_path target.
Proof. by apply path_abs_clean. Qed.

Lemma folder_clean : clean_path folder.
Proof. apply path_dir_clean, clean_path_rooted, target_clean. Qed.

Lemma prefix_plain prefix n : prefix = stagePrefix \/ prefix = rollbackPrefix -> plain (prefix ++ itoa n).
Proof. intros [-> | ->]; apply plain_numbered; by repeat constructor. Qed.

Lemma temp_clean prefix n :
  prefix = stagePrefix \/ prefix = rollbackPrefix -> clean_path (temp_name draws folder prefix n).
Proof. intros Hp. apply clean_path_join; [apply folder_clean|by apply prefix_plain]. Qed.

Lemma hidden_clean x : hidden x -> clean_path x.
Proof. intros [(prefix & n & Hp & ->) _]. by apply temp_clean. Qed.

Lemma hidden_folder x : hidden x -> path_dir x = folder.
Proof. intros [(prefix & n & Hp & ->) _]. apply path_dir_join; [apply folder_clean|by apply prefix_plain]. Qed.

Lemma hidden_base x : hidden x ->
  exists prefix n, (prefix = stagePrefix \/ prefix = rollbackPrefix) /\ path_base x = prefix ++ itoa n.
Proof.
  intros [(prefix & n & Hp & ->) _]. exists prefix, (Z.of_N (draws prefix n)). split; [done|].
  apply path_base_join; [apply folder_clean|by apply prefix_plain].
Qed.

Lemma hidden_abs x : hidden x -> path_abs cwd x = x.
Proof. intros Hx. by apply path_abs_id, hidden_clean. Qed.

Lemma folder_clean_id : path_clean folder = folder.
Proof. apply clean_path_clean, folder_clean. Qed.

Lemma hidden_nonempty x : hidden x -> x <> [].
Proof. intros Hx. by apply clean_path_nonempty, hidden_clean. Qed.

Lemma others_off_in T S w w' :
  others T w -> same_off S w w' -> (forall x, x ∈ S -> x ∈ T \/ hidden x) -> others T w'.
Proof.
  intros Ho Hs HS x Hx. destruct (decide (x ∈ S)) as [Hin|Hin].
  - right. by destruct (HS x Hin).
  - destruct (Hs x Hin) as [_ ->]. by apply Ho.
Qed.

Lemma others_off T S w w' : others T w -> same_off S w w' -> Forall hidden S -> others T w'.
Proof. intros Ho Hs HS. eapply others_off_in; [done..|]. rewrite Forall_forall in HS. eauto. Qed.

Lemma target_off S : Forall hidden S -> target ∉ S.
Proof. intros HS Hin. rewrite Forall_forall in HS. by apply Hvisible, HS. Qed.

Lemma old_target_off S w w' : old_target w -> same_off S w w' -> Forall hidden S -> old_target w'.
Proof. intros Ho Hs HS. unfold old_target. destruct (Hs target) as [_ ->]; [by apply target_off|done]. Qed.

Lemma tidy_off S w w' x : tidy x w -> same_off S w w' -> (forall y, y ∈ S -> tidy y w') -> tidy x w'.
Proof.
  intros Ht Hs HS. destruct (decide (x ∈ S)) as [Hin|Hin]; [by apply HS|].
  unfold tidy. by destruct (Hs x Hin) as [_ ->].
Qed.

Lemma untouched_off S w w' :
  untouched w -> same_off S w w' -> Forall hidden S -> disk_ok (w_disk w') -> w_db w' = w_db w -> untouched w'.
Proof.
  intros [? ? ? ?] Hs HS Hok Hdb. split; [done|by eapply others_off|by eapply old_target_off|congruence].
Qed.

Lemma announced_off S row w w' :
  announced row w -> same_off S w w' -> Forall hidden S -> (forall y, y ∈ S -> tidy y w') ->
  disk_ok (w_disk w') -> w_db w' = w_db w -> announced row w'.
Proof.
  intros [? ? ? ? ? ? Hc] Hs HS Ht Hok Hdb.
  split; [done|by eapply others_off|by eapply old_target_off|congruence| |by eapply tidy_off|].
  - destruct (Hs target) as [-> _]; [by apply target_off|done].
  - destruct Hc as [Hc|Hc]; [left; by eapply tidy_off|by right].
Qed.

Lemma published_off S row payload w w' :
  published row payload w -> same_off S w w' -> Forall hidden S -> PRollbackPath row ∉ S ->
  (forall y, y ∈ S -> tidy y w') -> disk_ok (w_disk w') -> w_db w' = w_db w -> published row payload w'.
Proof.
  intros [? ? ? ? Htext ? Hcopy] Hs HS Hr Ht Hok Hdb.
  destruct (Hs target) as [Hn Hl]; [by apply target_off|]. destruct (Hs _ Hr) as [Hrn Hrl].
  split; [done|by eapply others_off|congruence|congruence| |by eapply tidy_off|].
  - unfold has_text. by rewrite Hl.
  - destruct (look (w_disk w0) target); [|done]. by rewrite Hrn, Hrl.
Qed.

Lemma recorded_off S requests payload w w' :
  recorded requests payload w -> same_off S w w' -> Forall hidden S ->
  disk_ok (w_disk w') -> w_db w' = w_db w -> recorded requests payload w'.
Proof.
  intros [? ? Htext ? ? ? ?] Hs HS Hok Hdb. destruct (Hs target) as [_ Hl]; [by apply target_off|].
  split; [done|by eapply others_off| |rewrite Hdb; done..]. unfold has_text. by rewrite Hl.
Qed.

Lemma adopted_off S payload w w' :
  adopted payload w -> same_off S w w' -> Forall hidden S ->
  disk_ok (w_disk w') -> w_db w' = w_db w -> adopted payload w'.
Proof.
  intros [? ? ? Htext ? ?] Hs HS Hok Hdb. destruct (Hs target) as [_ Hl]; [by apply target_off|].
  split; [done|by eapply others_off|congruence| |done..]. unfold has_text. by rewrite Hl.
Qed.

(** Removing a hidden file. *)
Lemma unlink_tidy x w : tidy x (on_disk (unlink x (w_disk w)) w).
Proof. unfold tidy. simpl. rewrite look_unlink. by rewrite decide_True. Qed.

Lemma unlink_only_tidy x w y : y ∈ [x] -> tidy y (on_disk (unlink x (w_disk w)) w).
Proof. rewrite list_elem_of_singleton. intros ->. apply unlink_tidy. Qed.

(** The staged file: one hidden name of one regular file. *)
Record held (x : text) (ino : Z) (w : world) : Prop := {
  h_hidden : hidden x;
  h_name : d_names (w_disk w) !! x = Some ino;
  h_only : forall y, d_names (w_disk w) !! y = Some ino -> y = x;
  h_regular : exists n, d_nodes (w_disk w) !! ino = Some n /\ f_kind n = Regular;
}.

Lemma held_tidy x ino w : held x ino w -> tidy x w.
Proof. intros [_ Hn _ (n & Hi & Hk)]. unfold tidy, look. rewrite Hn. simpl. by rewrite Hi. Qed.

Lemma held_scribbled x ino w w' : held x ino w -> scribbled ino w w' -> held x ino w'.
Proof.
  intros [? ? ? (n & Hn & Hk)] Hs. destruct (scribbled_kind _ _ _ Hs n Hn) as (n' & Hn' & Hk').
  split; [done|by rewrite (scribbled_names _ _ _ Hs)..|]. exists n'. split; [done|congruence].
Qed.

Lemma untouched_scribbled x ino w w' : untouched w -> held x ino w -> scribbled ino w w' -> untouched w'.
Proof.
  intros Hu Hh Hs. eapply untouched_off; [done| |..].
  - eapply same_off_scribbled; [|done]. apply (h_only _ _ _ Hh).
  - constructor; [apply (h_hidden _ _ _ Hh)|constructor].
  - eapply scribbled_ok; [done|apply (u_ok _ Hu)].
  - apply (scribbled_db _ _ _ Hs).
Qed.

Lemma untouched_unlink x w : untouched w -> hidden x -> untouched (on_disk (unlink x (w_disk w)) w).
Proof.
  intros Hu Hx. eapply untouched_off; [done|apply same_off_unlink|by constructor| |done].
  apply disk_ok_unlink, (u_ok _ Hu).
Qed.
End phases.
