(* ===== verification/InstallStaging.v ===== *)
(** * Staging, publishing and undoing

    The parts of an install, each with the phases of InstallPhases.v it goes
    through: staging the file and copying the previous subtitle change nothing
    but hidden files; publishing takes an announced install to a published one;
    undoing takes it back. *)
From S2P Require Import Prelude GoText GoFloat Domain MatchScore SearchQueue Schedule Workflow Paths Outbox InstallStore Disk Install Remove Recovery InstallSpec InstallPhases.

#[local] Open Scope Z_scope.

Section staging.
Context (cwd : text) (eval_symlinks : text -> option text) (draws : text -> nat -> N) (now : instant).
Context (checksumBytes : text -> text).
Context (i : Installer) (q : InstallRequest) (w0 : world) (p : fault -> Prop).
Context (Hcwd : rooted cwd = true) (Hvisible : ~ hidden cwd draws q w0 (target cwd q)).

#[local] Abbreviation target := (target cwd q).
#[local] Abbreviation folder := (folder cwd q).
#[local] Abbreviation hidden := (hidden cwd draws q w0).
#[local] Abbreviation untouched := (untouched cwd draws q w0).
#[local] Abbreviation announced := (announced cwd draws q w0).
#[local] Abbreviation published := (published cwd draws q w0).
#[local] Abbreviation held := (held cwd draws q w0).
#[local] Abbreviation row_ok := (row_ok cwd draws checksumBytes q w0).

(** The hidden file [s], inode [ino], holds [x]; nothing else happened. *)
Record staging (s : text) (ino : Z) (x : text) (w : world) : Prop := {
  s_untouched : untouched w;
  s_held : held s ino w;
  s_data : holds_data ino x w;
}.

Lemma wp_inject stage (Q : result InstallError unit -> world -> Prop) C w :
  Q (Ok tt) w -> Q (Err EStage) w -> wp p (inject i stage) Q C w.
Proof. intros H1 H2. unfold inject. destruct (FaultAt i stage); by apply wp_ret. Qed.

Lemma remove_hidden_untouched x w (Q : result InstallError unit -> world -> Prop) :
  untouched w -> hidden x -> (forall r w', untouched w' -> Q r w') -> wp p (Remove x) Q (crashed p untouched) w.
Proof.
  intros Hu Hx HQ. apply wp_remove; [by intros; apply HQ| |by intros; apply HQ|by split].
  intros _. by apply HQ, untouched_unlink.
Qed.

Lemma wp_failStaging {A} s open e w :
  untouched w -> hidden s ->
  wp p (failStaging (A:=A) s open e) (fun r w' => untouched w' /\ r = Err e) (crashed p untouched) w.
Proof.
  intros Hu Hs. unfold failStaging. apply wp_bind.
  assert (wp p (mbind (M:=M) (fun _ => fail (A:=A) e) (Remove s)) (fun r w' => untouched w' /\ r = Err e)
            (crashed p untouched) w) as H.
  { apply wp_bind, remove_hidden_untouched; [done..|]. intros r w' Hu'. by apply wp_ret. }
  destruct open as [ino|]; [|by apply wp_ret]. apply wp_query; [done..|by split].
Qed.

Lemma staging_start s n w :
  untouched w -> hidden s -> d_names (w_disk w) !! s = None -> f_kind n = Regular ->
  let w' := on_disk (mkDisk (<[s := free_inode (w_disk w)]> (d_names (w_disk w)))
                            (<[free_inode (w_disk w) := n]> (d_nodes (w_disk w)))) w in
  staging s (free_inode (w_disk w)) (f_data n) w'.
Proof.
  intros Hu Hs Hn Hk w'. split.
  - eapply untouched_off; [done|done|apply same_off_create|by constructor|by apply disk_ok_create, (u_ok _ _ _ _ _ Hu)|done].
  - split; [done| | |].
    + simpl. by rewrite lookup_insert_eq.
    + simpl. intros y. destruct (decide (s = y)) as [->|]; [done|]. rewrite lookup_insert_ne by done.
      intros Hy. by apply free_inode_fresh in Hy.
    + exists n. simpl. by rewrite lookup_insert_eq.
  - exists n. simpl. by rewrite lookup_insert_eq.
Qed.

Lemma staging_scribbled s ino x y w w' :
  staging s ino x w -> scribbled ino w w' -> holds_data ino y w' -> staging s ino y w'.
Proof. intros [Hu Hh _] Hs Hd. split; [by eapply untouched_scribbled|by eapply held_scribbled|done]. Qed.

(** Staging writes the file and tells its inode. *)
Lemma wp_stage s ino payload w :
  staging s ino [] w ->
  wp p (stage_file now i s ino payload) (fun r w' => match r with
    | Ok info => i_inode info = ino /\ staging s ino payload w'
    | Err _ => untouched w'
    end) (crashed p untouched) w.
Proof.
  intros Hst.
  assert (forall e open w', staging s ino [] w' \/ staging s ino payload w' \/ untouched w' -> wp p (failStaging s open e) (fun r w' => match r with
    | Ok info => i_inode info = ino /\ staging s ino payload w'
    | Err _ => untouched w'
    end) (crashed p untouched) w') as Hfail.
  { intros e open w' Hw'. assert (untouched w') as Hu by (destruct Hw' as [[]|[[]|]]; done).
    eapply wp_mono; [apply wp_failStaging; [exact Hu|apply (h_hidden _ _ _ _ _ _ _ (s_held _ _ _ _ Hst))]| |done].
    by intros r w'' [Hu' ->]. }
  unfold stage_file.
  apply wp_on_error, wp_inject; [|by apply Hfail; left].
  apply wp_on_error. eapply wp_writeAll; [apply (s_data _ _ _ _ Hst)| | |].
  2:{ intros e w' Hs. apply Hfail. do 2 right. eapply untouched_scribbled; [done|by apply (s_untouched _ _ _ _ Hst)|by apply (s_held _ _ _ _ Hst)|done]. }
  2:{ intros w' Hc Hs. split; [done|]. eapply untouched_scribbled; [done|by apply (s_untouched _ _ _ _ Hst)|by apply (s_held _ _ _ _ Hst)|done]. }
  intros w1 Hs1 Hd1. assert (staging s ino payload w1) as H1 by by eapply staging_scribbled.
  clear Hs1 Hd1.
  apply wp_on_error, wp_inject; [|by apply Hfail; auto].
  apply wp_on_error, wp_query; [|by intros; apply Hfail; auto|by intros Hc; split; [done|apply (s_untouched _ _ _ _ H1)]].
  apply wp_on_error, wp_inject; [|by apply Hfail; auto].
  apply wp_on_error. eapply wp_chmod; [apply (s_data _ _ _ _ H1)| |by intros; apply Hfail; auto|by intros Hc; split; [done|apply (s_untouched _ _ _ _ H1)]].
  intros w2 Hs2 Hd2 _. assert (staging s ino payload w2) as H2 by by eapply staging_scribbled.
  assert (p Crash -> crashed p untouched w2) as Hcr by (intros Hc; split; [done|apply (s_untouched _ _ _ _ H2)]).
  apply wp_on_error. unfold chown_staged.
  match goal with |- wp _ _ ?Q _ _ => assert (Q (Ok tt) w2) as Hgo end.
  { apply wp_on_error, wp_query; [|by intros; apply Hfail; auto|done].
    destruct (h_regular _ _ _ _ _ _ _ (s_held _ _ _ _ H2)) as (n & Hn & Hk). rewrite Hn. simpl.
    apply wp_on_error, wp_query; [by apply wp_ret|by intros; apply Hfail; auto|done]. }
  destruct (UID i), (GID i); first [by apply wp_ret | apply wp_query; [exact Hgo|by intros; apply Hfail; auto|done]].
Qed.

(** ** The copy of the previous subtitle *)

Lemma held_other s ino j w w' : held s ino w -> ino <> j -> scribbled j w w' -> held s ino w'.
Proof.
  intros [? ? ? (n & Hn & Hk)] Hij Hs. split; [done|by rewrite (scribbled_names _ _ _ Hs)..|].
  exists n. by rewrite (scribbled_others _ _ _ Hs).
Qed.

Lemma data_other ino x j w w' : holds_data ino x w -> ino <> j -> scribbled j w w' -> holds_data ino x w'.
Proof. intros (n & Hn & Hx) Hij Hs. exists n. by rewrite (scribbled_others _ _ _ Hs). Qed.

Lemma held_create s ino r n w :
  held s ino w -> s <> r -> disk_ok (w_disk w) ->
  held s ino (on_disk (mkDisk (<[r := free_inode (w_disk w)]> (d_names (w_disk w)))
                              (<[free_inode (w_disk w) := n]> (d_nodes (w_disk w)))) w).
Proof.
  intros [? Hn Ho (m & Hm & Hk)] Hne Hok.
  assert (ino <> free_inode (w_disk w)) as Hi by (intros ->; by apply free_inode_fresh in Hn).
  split; [done|simpl; by rewrite lookup_insert_ne| |].
  - simpl. intros y. destruct (decide (r = y)) as [->|]; [rewrite lookup_insert_eq; intros [= ?]; congruence|].
    rewrite lookup_insert_ne by done. apply Ho.
  - exists m. simpl. by rewrite lookup_insert_ne.
Qed.

Lemma held_unlink s ino r w : held s ino w -> s <> r -> held s ino (on_disk (unlink r (w_disk w)) w).
Proof.
  intros [? Hn Ho Hr] Hne. split; [done|simpl; by rewrite lookup_delete_ne| |done].
  simpl. intros y [_ Hy]%lookup_delete_Some. by apply Ho.
Qed.

Lemma staging_unlink s ino x r w : staging s ino x w -> hidden r -> s <> r ->
  staging s ino x (on_disk (unlink r (w_disk w)) w).
Proof. intros [Hu Hh Hd] Hr Hne. split; [by apply untouched_unlink|by apply held_unlink|done]. Qed.

(** The copy [r] is being written beside the staged file. *)
Definition copying (s : text) (ino : Z) (x : text) (r : text) (j : Z) (y : text) (w : world) : Prop :=
  staging s ino x w /\ staging r j y w /\ s <> r /\ ino <> j.

Lemma copying_scribbled s ino x r j y y' w w' :
  copying s ino x r j y w -> scribbled j w w' -> holds_data j y' w' -> copying s ino x r j y' w'.
Proof.
  intros ([Hu Hh Hd] & Hr & Hne & Hij) Hs Hd'.
  assert (staging r j y' w') as Hr' by by eapply staging_scribbled.
  split; [|done]. split; [apply (s_untouched _ _ _ _ Hr')|by eapply held_other|by eapply data_other].
Qed.

Definition copied (s : text) (ino : Z) (r : text) (n : node) (w : world) : Prop :=
  r <> s /\ hidden r /\ (exists k, r = temp_name draws folder rollbackPrefix k)
  /\ d_names (w_disk w) !! r <> Some ino
  /\ exists n', look (w_disk w) r = Some n' /\ f_kind n' = Regular /\ restored_as n n'.

Lemma wp_discard {A} s ino x r j y e w :
  copying s ino x r j y w ->
  wp p (discard_copy (A:=A) r j e) (fun res w' => res = Err e /\ staging s ino x w') (crashed p untouched) w.
Proof.
  intros (Hs & Hr & Hne & Hij).
  assert (p Crash -> crashed p untouched w) as Hc by (split; [done|apply (s_untouched _ _ _ _ Hs)]).
  assert (wp p (mbind (M:=M) (fun _ => fail (A:=A) e) (Remove r)) (fun res w' => res = Err e /\ staging s ino x w')
            (crashed p untouched) w) as H.
  { apply wp_bind, wp_remove; [by intros; apply wp_ret| |by intros; apply wp_ret|done].
    intros _. apply wp_ret. split; [done|]. apply staging_unlink; [done| |done].
    apply (h_hidden _ _ _ _ _ _ _ (s_held _ _ _ _ Hr)). }
  unfold discard_copy. apply wp_bind, wp_query; done.
Qed.

Lemma wp_copy s ino x n w :
  staging s ino x w -> look (w_disk w) target = Some n -> f_kind n = Regular ->
  wp p (copyRollback eval_symlinks draws now target folder) (fun res w' => match res with
    | Ok r => staging s ino x w' /\ copied s ino r n w'
    | Err _ => staging s ino x w'
    end) (crashed p untouched) w.
Proof.
  intros Hst Hn Hk.
  assert (p Crash -> crashed p untouched w) as Hc by (split; [done|apply (s_untouched _ _ _ _ Hst)]).
  unfold copyRollback. apply wp_on_error. eapply wp_looks; [apply looks_lstat| |done].
  intros [info|e] Hi; [|by apply wp_ret]. apply look_info in Hi as [Hi _]. rewrite Hn in Hi. injection Hi as Hi.
  unfold is_regular. rewrite <- Hi, bool_decide_true by done. cbn [negb].
  apply wp_otherwise. eapply wp_looks; [by eapply looks_read| |done]. intros [y|e] Hy; [|done]. cbn in Hy. subst y.
  apply wp_otherwise, wp_create; [|by intros|done]. intros r k Hr Hfree.
  assert (hidden r) as Hh.
  { split; [by exists rollbackPrefix, k; auto|].
    destruct (u_others _ _ _ _ _ (s_untouched _ _ _ _ Hst) r) as [Ho|Ho]; [| |by destruct Ho].
    - rewrite list_elem_of_singleton. intros ->. apply look_named in Hn as (j & Hj & _). congruence.
    - rewrite <- Ho. by apply look_none; [apply (u_ok _ _ _ _ _ (s_untouched _ _ _ _ Hst))|]. }
  assert (s <> r) as Hsr.
  { intros ->. pose proof (h_name _ _ _ _ _ _ _ (s_held _ _ _ _ Hst)). congruence. }
  assert (ino <> free_inode (w_disk w)) as Hij.
  { intros ->. pose proof (h_name _ _ _ _ _ _ _ (s_held _ _ _ _ Hst)) as Hs. by apply free_inode_fresh in Hs. }
  set (j := free_inode (w_disk w)) in *.
  match goal with |- wp _ _ _ _ ?w' => assert (copying s ino x r j [] w') as H1 end.
  { assert (staging r j (f_data (mkNode Regular [] 384 now)) _) as Hj by (apply (staging_start r); [apply (s_untouched _ _ _ _ Hst)|done..]).
    split_and!; [|exact Hj|done..]. split; [apply (s_untouched _ _ _ _ Hj)|apply held_create; [apply (s_held _ _ _ _ Hst)|done|apply (u_ok _ _ _ _ _ (s_untouched _ _ _ _ Hst))]|].
    destruct (s_data _ _ _ _ Hst) as (m & Hm & Hx). exists m. simpl. by rewrite lookup_insert_ne. }
  assert (forall e y w', copying s ino x r j y w' -> wp p (discard_copy r j e) (fun res w' => match res with
    | Ok r => staging s ino x w' /\ copied s ino r n w'
    | Err _ => staging s ino x w'
    end) (crashed p untouched) w') as Hdis.
  { intros e y w' H. eapply wp_mono; [by eapply wp_discard| |done]. by intros ? ? [-> ?]. }
  assert (forall y w', copying s ino x r j y w' -> p Crash -> crashed p untouched w') as Hcr.
  { intros y w' [H _] ?. split; [done|apply (s_untouched _ _ _ _ H)]. }
  apply wp_on_error. eapply wp_writeAll; [apply (s_data _ _ _ _ (proj1 (proj2 H1)))| | |].
  2:{ intros e w' Hs. destruct (scribbled_kind _ _ _ Hs (mkNode Regular [] 384 now)) as (m & Hm & _); [simpl; by rewrite lookup_insert_eq|].
      eapply Hdis, copying_scribbled; [done|done|]. by exists m. }
  2:{ intros w' Hp Hs. destruct (scribbled_kind _ _ _ Hs (mkNode Regular [] 384 now)) as (m & Hm & _); [simpl; by rewrite lookup_insert_eq|].
      eapply Hcr; [|done]. eapply copying_scribbled; [done|done|]. by exists m. }
  intros w2 Hs2 Hd2. assert (copying s ino x r j (f_data n) w2) as H2 by by eapply copying_scribbled.
  apply wp_on_error, wp_query; [|by intros; eapply Hdis|by eapply Hcr].
  apply wp_on_error. eapply wp_chmod; [apply (s_data _ _ _ _ (proj1 (proj2 H2)))| |by intros; eapply Hdis|by eapply Hcr].
  intros w3 Hs3 Hd3 (m & Hm & Hmode). assert (copying s ino x r j (f_data n) w3) as H3 by by eapply copying_scribbled.
  apply wp_on_error, wp_query; [|by intros; eapply Hdis|by eapply Hcr].
  apply wp_ret. destruct H3 as (Hs3' & Hr3 & _). split; [done|].
  pose proof (s_held _ _ _ _ Hr3) as [_ Hrn _ (m' & Hm' & Hk')]. split_and!; [done|done|by exists k|congruence|].
  exists m. unfold look. rewrite Hrn. simpl. rewrite Hm. destruct Hd3 as (m2 & Hm2 & Hdata).
  split_and!; [done|congruence|]. split_and!; [congruence|congruence|]. right. by rewrite Hmode.
Qed.
End staging.
