(* ===== verification/InstallSafety.v ===== *)
(** * Installs survive failures and crashes

    Publishing, recording and undoing an install, and the startup recovery,
    over the phases of InstallPhases.v; the theorems say what an install leaves
    behind under every schedule of failures and kills. *)
From S2P Require Import Prelude GoText GoFloat Domain MatchScore SearchQueue Schedule Workflow Paths Outbox InstallStore Disk Install Remove Recovery InstallSpec InstallPhases InstallStaging.

#[local] Open Scope Z_scope.

Section safety.
Context (cwd : text) (eval_symlinks : text -> option text) (draws : text -> nat -> N) (now : instant).
Context (checksumBytes : text -> text) (json_valid : text -> bool) (encode_payload : Media -> text -> text).
Context (parse_srt parse_ssa parse_vtt : text -> option (list cue)) (strip : text -> text -> text).
Context (i : Installer) (q : InstallRequest) (w0 : world).

#[local] Abbreviation target := (target cwd q).
#[local] Abbreviation folder := (folder cwd q).
#[local] Abbreviation hidden := (hidden cwd draws q w0).
#[local] Abbreviation untouched := (untouched cwd draws q w0).
#[local] Abbreviation announced := (announced cwd draws q w0).
#[local] Abbreviation published := (published cwd draws q w0).
#[local] Abbreviation adopted := (adopted cwd draws checksumBytes q w0).
#[local] Abbreviation recorded := (recorded cwd draws checksumBytes q w0).
#[local] Abbreviation refreshed := (refreshed cwd checksumBytes q w0).
#[local] Abbreviation held := (held cwd draws q w0).
#[local] Abbreviation row_ok := (row_ok cwd draws checksumBytes q w0).
#[local] Abbreviation staging := (staging cwd draws q w0).
#[local] Abbreviation copied := (copied cwd draws q w0).
#[local] Abbreviation old_record := (old_record q w0).

(** The requests of a recorded install, and of a refreshed one. *)
Definition install_requests (payload : text) : list NotificationRequest :=
  notificationRequests now checksumBytes encode_payload (QMedia q)
    (installed_record q target (checksumBytes payload) [] []) (changeNotifierNames i (QMedia q)).

Definition refresh_requests (existing : Installation) : list NotificationRequest :=
  if InstallationMatchesMedia existing (QMedia q) then []
  else notificationRequests now checksumBytes encode_payload (QMedia q) (refreshed_record q [] existing) (NotifierNames i).

(** What the source gave: its text, stripped and validated, for a destination
    inside the media roots. *)
Definition installable_text (payload : text) : Prop :=
  contained cwd eval_symlinks (QDestinationPath q) (MediaRoots i) = true
  /\ exists n, look (w_disk w0) (QSourcePath q) = Some n /\ f_kind n = Regular
    /\ payload = (if StripWatermarks i then strip (path_ext (QSourcePath q)) (f_data n) else f_data n)
    /\ validateSubtitlePayload parse_srt parse_ssa parse_vtt (QSourcePath q) payload (QMedia q) = Ok tt.

(** The states an install can be interrupted in; the copy is not the staged
    file [s0]. *)
Context (s0 : text).
Inductive interrupted (w : world) : Prop :=
| in_untouched : untouched w -> interrupted w
| in_announced row payload : row_ok row payload -> installable_text payload -> announced row w -> interrupted w
| in_published row payload : row_ok row payload -> installable_text payload -> PRollbackPath row <> s0 ->
    published row payload w -> interrupted w
| in_adopted payload : installable_text payload -> adopted payload w -> interrupted w.

Inductive finished (x : Installation) (w : world) : Prop :=
| fin_recorded payload : installable_text payload -> names_install cwd checksumBytes q payload x ->
    recorded (install_requests payload) payload w -> finished x w
| fin_refreshed payload existing : installable_text payload -> names_install cwd checksumBytes q payload x ->
    old_record = Some existing -> refreshed (refresh_requests existing) payload w -> finished x w.

Context (Hcwd : rooted cwd = true) (Hok : disk_ok (w_disk w0)) (Hvisible : ~ hidden target).
Context (Hquiet : idb_pending (w_db w0) = ∅).
Context (Hkeyed : forall x, old_record = Some x -> install_key x = key q).
Context (Hold : forall x, old_record = Some x -> IRollbackPath x <> [] -> path_abs cwd (IRollbackPath x) <> target).

Lemma start_untouched : untouched w0.
Proof.
  split; [done|by left| |].
  - unfold old_target. destruct (look _ _) as [n|]; [|done]. exists n. split; [done|apply restored_refl].
  - destruct w0 as [dk [? ? pend ? ? ?]]. cbn in *. by subst pend.
Qed.

Lemma target_not_hidden x : hidden x -> target <> x.
Proof. by intros Hx <-. Qed.

(** ** Finishing and undoing *)

Lemma pending_db_finish row : FinishPendingInstall (PID row) (pending_db w0 {[PID row := row]}) = pending_db w0 ∅.
Proof. unfold FinishPendingInstall, pending_db, with_pending. simpl. by rewrite delete_singleton_eq. Qed.

Lemma announced_finished row w :
  announced row w -> untouched (in_db (FinishPendingInstall (PID row) (w_db w)) w).
Proof. intros [? ? ? Hdb ? ? ?]. split; [done..|]. simpl. by rewrite Hdb, pending_db_finish. Qed.

Context (p : fault -> Prop).

Lemma remove_hidden_announced row x w (Q : result InstallError unit -> world -> Prop) C :
  announced row w -> hidden x -> (forall r w', announced row w' -> Q r w') -> (p Crash -> C w) ->
  wp p (Remove x) Q C w.
Proof.
  intros Ha Hx HQ HC. apply wp_remove; [by intros; apply HQ| |by intros; apply HQ|done].
  intros _. apply HQ. eapply announced_off; [done|done|apply same_off_unlink|by constructor|apply unlink_only_tidy| |done].
  apply disk_ok_unlink, (a_ok _ _ _ _ _ _ Ha).
Qed.

Lemma remove_hidden_published row payload x w (Q : result InstallError unit -> world -> Prop) C :
  published row payload w -> hidden x -> PRollbackPath row <> x ->
  (forall r w', published row payload w' -> Q r w') -> (p Crash -> C w) ->
  wp p (Remove x) Q C w.
Proof.
  intros Hp Hx Hne HQ HC. apply wp_remove; [by intros; apply HQ| |by intros; apply HQ|done].
  intros _. apply HQ. eapply published_off; [done|done|apply same_off_unlink|by constructor| |apply unlink_only_tidy| |done].
  - by rewrite list_elem_of_singleton.
  - apply disk_ok_unlink, (p_ok _ _ _ _ _ _ _ Hp).
Qed.

Lemma row_copy_staged row payload : row_ok row payload -> PRollbackPath row <> PStagedPath row.
Proof.
  intros Hr. destruct (row_copy _ _ _ _ _ _ _ Hr) as [-> | (_ & Hne & _)]; [|done].
  intros E. symmetry in E. by apply (hidden_nonempty _ _ _ _ Hcwd _ (row_staged _ _ _ _ _ _ _ Hr)) in E.
Qed.

(** The publication is taken back: no file, or the copy in its place. *)
Lemma published_removed row payload w :
  row_ok row payload -> published row payload w -> PRollbackPath row = [] ->
  announced row (on_disk (unlink target (w_disk w)) w).
Proof.
  intros Hr [? Ho Hdb Hi Ht ? Hc] Hempty.
  destruct (look (w_disk w0) target) as [n|] eqn:E; [by destruct Hc|].
  split; [by apply disk_ok_unlink| | |done| | |by right].
  - eapply others_off_in; [done|apply same_off_unlink|]. intros x ->%list_elem_of_singleton. left. by apply list_elem_of_singleton.
  - unfold old_target. rewrite E. simpl. rewrite look_unlink. by rewrite decide_True.
  - simpl. by rewrite lookup_delete_eq.
  - eapply tidy_off; [done|apply same_off_unlink|apply unlink_only_tidy].
Qed.

Lemma published_restored row payload w :
  row_ok row payload -> published row payload w -> PRollbackPath row <> [] ->
  exists d', rename_entry (PRollbackPath row) target (w_disk w) = Ok (tt, d') /\ announced row (on_disk d' w).
Proof.
  intros Hr Hp Hne. destruct Hp as [Hdok Ho Hdb Hi (nt & Hnt & Hkt & _) Hs Hc].
  destruct (look (w_disk w0) target) as [n|] eqn:E; [|done]. destruct Hc as (_ & Hri & n' & Hl & Hk & Hres).
  apply look_named in Hl as Hl'. destruct Hl' as (j & Hj & Hjn).
  assert (hidden (PRollbackPath row)) as Hh by by destruct (row_copy _ _ _ _ _ _ _ Hr) as [? | (? & _)].
  destruct (rename_spec (PRollbackPath row) target (w_disk w) j n') as (d' & Hren & Hnames & Hnodes); [done|done|congruence|by intros m Hm; congruence|].
  exists d'. split; [done|].
  pose proof (same_off_rename _ _ _ _ _ w Hnames Hnodes eq_refl) as Hoff.
  assert (look d' target = Some n') as Hlt by (unfold look; rewrite Hnames, lookup_insert_eq, Hnodes; done).
  assert (tidy (PRollbackPath row) (on_disk d' w)) as Htr.
  { unfold tidy, look. simpl. rewrite Hnames, lookup_insert_ne, lookup_delete_eq; [done|]. by apply target_not_hidden. }
  split; [by eapply disk_ok_rename| | |done| | |by left].
  - eapply others_off_in; [done|exact Hoff|]. intros x Hx. rewrite elem_of_cons, list_elem_of_singleton in Hx.
    destruct Hx as [-> | ->]; [by right|left; by apply list_elem_of_singleton].
  - unfold old_target. rewrite E. by exists n'.
  - simpl. rewrite Hnames, lookup_insert_eq. congruence.
  - eapply tidy_off; [done|exact Hoff|]. intros y Hy. rewrite elem_of_cons, list_elem_of_singleton in Hy.
    destruct Hy as [-> | ->]; [done|]. unfold tidy. simpl. by rewrite Hlt.
Qed.

Lemma published_text row payload w : published row payload w ->
  exists n, info_of (w_disk w) target = Some (mkInfo (PPublishedInode row) n) /\ look (w_disk w) target = Some n
    /\ f_kind n = Regular /\ f_data n = payload.
Proof.
  intros [_ _ _ Hi (n & Hn & Hk & Hd) _ _]. exists n. apply look_named in Hn as Hn'. destruct Hn' as (j & Hj & Hjn).
  split_and!; [|done..]. rewrite Hi in Hj. injection Hj as <-. by apply info_some.
Qed.

(** ** [restore] *)

(** What the install knows matches its row. *)
Record knows (u : publication) (row : PendingInstall) (payload : text) : Prop := {
  k_row : row_ok row payload;
  k_text : installable_text payload;
  k_target : u_destination u = target;
  k_parent : u_parent u = folder;
  k_existing : u_existing u = old_record;
  k_replacing : u_replacing u = true <-> look (w_disk w0) target <> None;
  k_staged : u_staged u = PStagedPath row;
  k_inode : u_inode u = PPublishedInode row;
  k_rollback : u_rollback u = PRollbackPath row;
  k_pending : u_pending u = PID row;
  k_apart : PRollbackPath row <> s0;
}.

#[local] Abbreviation undone := (fun (r : result InstallError Installation) w => interrupted w /\ exists e, r = Err e).

Lemma restore_tail u row payload errors w cause :
  knows u row payload ->
  announced row w \/ (errors <> [] /\ published row payload w) ->
  wp p (mbind (M:=M) (fun _ =>
          mbind (M:=M) (fun _ => fail (EJoin (cause :: errors)))
            (if bool_decide (errors = []) then finishPendingInstall (u_pending u) else mret tt))
          (Remove (u_staged u)))
     undone (crashed p interrupted) w.
Proof.
  intros Hk Hw. pose proof (k_row _ _ _ Hk) as Hr. pose proof (k_text _ _ _ Hk) as Ht.
  pose proof (row_staged _ _ _ _ _ _ _ Hr) as Hs. rewrite (k_staged _ _ _ Hk), (k_pending _ _ _ Hk).
  apply wp_bind. destruct Hw as [Ha|[He Hp]].
  - eapply remove_hidden_announced; [done|done| |by split; [|eapply in_announced]].
    intros _ w' Ha'. assert (interrupted w') as Hi by by eapply in_announced. apply wp_bind.
    destruct (bool_decide (errors = [])); [|by apply wp_ret; apply wp_ret; eauto].
    apply wp_finish; [by apply wp_ret; eauto| |by split].
    apply wp_ret. split; [|by eexists]. by apply in_untouched, announced_finished.
  - eapply remove_hidden_published; [done|done|by eapply row_copy_staged| |by split; [|eapply in_published; [..|apply (k_apart _ _ _ Hk)|]]].
    intros _ w' Hp'. assert (interrupted w') as Hi by by eapply in_published; [..|apply (k_apart _ _ _ Hk)|]. apply wp_bind.
    rewrite bool_decide_false by done. apply wp_ret. apply wp_ret. eauto.
Qed.

Lemma wp_owns u row payload w :
  knows u row payload -> published row payload w ->
  looks p (ownsPublication q u) (fun r => r <> Ok false) w.
Proof.
  intros Hk Hp. unfold ownsPublication. rewrite (k_target _ _ _ Hk).
  destruct (published_text _ _ _ Hp) as (n & Hinfo & _ & Hreg & _).
  eapply looks_bind; [apply looks_lstat|]. intros [info|e] Hi.
  - rewrite Hinfo in Hi. injection Hi as <-. unfold is_regular. cbn [i_node i_inode].
    rewrite bool_decide_true, (k_inode _ _ _ Hk), Z.eqb_refl by done. cbn [negb orb].
    destruct (u_replacing u); [|by apply looks_ret]. cbn [negb].
    eapply looks_otherwise with (R := fun r => match r with Ok c => c = old_record | Err _ => True end); [| |done].
    { apply looks_query; [|done]. cbn. rewrite (p_db _ _ _ _ _ _ _ Hp). done. }
    intros current ->. apply looks_ret. rewrite (k_existing _ _ _ Hk). unfold sameInstallationRecord.
    rewrite eqb_reflx. by rewrite !bool_decide_true.
  - destruct e; try (destruct (u_replacing u); by apply looks_ret). congruence.
Qed.

Lemma wp_restore u row payload committed cause w :
  knows u row payload ->
  (if (committed : bool) then published row payload w else announced row w) ->
  wp p (restore q u committed cause) undone (crashed p interrupted) w.
Proof.
  intros Hk Hw. pose proof (k_row _ _ _ Hk) as Hr. pose proof (k_text _ _ _ Hk) as Ht.
  unfold restore. apply wp_bind. unfold undo_kind. destruct committed.
  2:{ apply wp_ret, wp_bind. destruct (bool_decide (u_rollback u = [])) eqn:E.
      { apply wp_ret. eapply restore_tail; [done|by left]. }
      apply bool_decide_eq_false in E. rewrite (k_rollback _ _ _ Hk) in *.
      destruct (row_copy _ _ _ _ _ _ _ Hr) as [? | (Hh & _)]; [done|].
      apply wp_collect. eapply remove_hidden_announced; [done|done| |by split; [|eapply in_announced]].
      intros r w' Ha. eapply restore_tail; [done|by left]. }
  assert (p Crash -> crashed p interrupted w) as Hc by (by split; [|eapply in_published; [..|apply (k_apart _ _ _ Hk)|]]).
  apply wp_bind. eapply wp_looks; [by eapply wp_owns| |done]. intros decision Hd. apply wp_ret.
  destruct decision as [[]|e]; [| done |].
  2:{ apply wp_bind, wp_ret. eapply restore_tail; [done|by right]. }
  unfold undo_published. rewrite (k_rollback _ _ _ Hk), (k_target _ _ _ Hk). apply wp_bind.
  destruct (decide (PRollbackPath row = [])) as [E|E].
  - rewrite bool_decide_true by done. apply wp_collect, wp_otherwise, wp_remove; [..|done].
    + intros Hn. rewrite (p_inode _ _ _ _ _ _ _ Hw) in Hn. done.
    + intros _. assert (announced row (on_disk (unlink target (w_disk w)) w)) as Ha by by eapply published_removed.
      apply wp_sync; [|intros|by split; [|eapply in_announced]]; (eapply restore_tail; [done|by left]).
    + intros e _. eapply restore_tail; [done|by right].
  - rewrite bool_decide_false by done. destruct (published_restored row payload w) as (d' & Hren & Ha); [done..|].
    apply wp_collect, wp_otherwise, wp_change; [|intros e _; eapply restore_tail; [done|by right]|done].
    rewrite Hren. apply wp_sync; [|intros|by split; [|eapply in_announced]]; (eapply restore_tail; [done|by left]).
Qed.

(** ** Publishing *)

(** The staged file, its row and the copy, ready to be published. *)
Record ready (u : publication) (row : PendingInstall) (payload : text) (w : world) : Prop := {
  y_knows : knows u row payload;
  y_announced : announced row w;
  y_held : held (PStagedPath row) (PPublishedInode row) w;
  y_data : holds_data (PPublishedInode row) payload w;
  y_copy : match look (w_disk w0) target with
           | None => PRollbackPath row = []
           | Some n => f_kind n = Regular /\ copied (PStagedPath row) (PPublishedInode row) (PRollbackPath row) n w
           end;
}.

Lemma ready_target u row payload w : ready u row payload w ->
  target <> PStagedPath row /\ PRollbackPath row <> PStagedPath row /\ PRollbackPath row <> target.
Proof.
  intros Hy. pose proof (k_row _ _ _ (y_knows _ _ _ _ Hy)) as Hr.
  pose proof (row_staged _ _ _ _ _ _ _ Hr) as Hs.
  split_and!; [by apply target_not_hidden|by eapply row_copy_staged|].
  destruct (row_copy _ _ _ _ _ _ _ Hr) as [-> | (Hh & _)].
  - intros E. symmetry in E. revert E. apply clean_path_nonempty. by apply target_clean.
  - intros E. symmetry in E. revert E. by apply target_not_hidden.
Qed.

Lemma ready_names u row payload w ino :
  ready u row payload w -> d_names (w_disk w) !! PStagedPath row = Some ino -> ino = PPublishedInode row.
Proof. intros Hy Hn. pose proof (h_name _ _ _ _ _ _ _ (y_held _ _ _ _ Hy)). congruence. Qed.

(** The staged file under the destination's name. *)
Lemma ready_published u row payload w d' T :
  ready u row payload w -> disk_ok d' ->
  same_off T w (on_disk d' w) -> (forall x, x ∈ T -> x = target \/ x = PStagedPath row) ->
  d_names d' !! target = Some (PPublishedInode row) -> d_nodes d' = d_nodes (w_disk w) ->
  tidy (PStagedPath row) (on_disk d' w) -> published row payload (on_disk d' w).
Proof.
  intros Hy Hdok Hoff HT Hn Hnodes Hts. destruct (ready_target _ _ _ _ Hy) as (Hne1 & Hne2 & Hne3).
  pose proof (y_announced _ _ _ _ Hy) as Ha. pose proof (k_row _ _ _ (y_knows _ _ _ _ Hy)) as Hr.
  split; [done| |apply (a_db _ _ _ _ _ _ Ha)|done| |done|].
  - eapply others_off_in; [apply (a_others _ _ _ _ _ _ Ha)|exact Hoff|]. intros x Hx. rewrite list_elem_of_singleton.
    destruct (HT x Hx) as [-> | ->]; [by left|right; apply (row_staged _ _ _ _ _ _ _ Hr)].
  - destruct (y_data _ _ _ _ Hy) as (n & Hni & Hd). destruct (h_regular _ _ _ _ _ _ _ (y_held _ _ _ _ Hy)) as (n' & Hni' & Hk).
    exists n. unfold look. cbn [w_disk on_disk]. rewrite Hn, Hnodes. split_and!; [done|congruence|done].
  - pose proof (y_copy _ _ _ _ Hy) as Hc. destruct (look (w_disk w0) target) as [n|]; [|done].
    destruct Hc as (_ & _ & Hh & _ & Hi & n' & Hl & Hk & Hres).
    destruct (Hoff (PRollbackPath row)) as [Hon Hol]; [intros Hin; by destruct (HT _ Hin)|].
    split_and!; [by eapply hidden_nonempty|congruence|exists n'; split_and!; [congruence|done..]].
Qed.

Lemma ready_renamed u row payload w :
  ready u row payload w ->
  exists d', rename_entry (PStagedPath row) target (w_disk w) = Ok (tt, d') /\ published row payload (on_disk d' w).
Proof.
  intros Hy. destruct (ready_target _ _ _ _ Hy) as (Hne1 & Hne2 & Hne3).
  pose proof (y_announced _ _ _ _ Hy) as Ha. pose proof (y_held _ _ _ _ Hy) as Hh.
  destruct (h_regular _ _ _ _ _ _ _ Hh) as (n & Hn & Hk).
  assert (look (w_disk w) (PStagedPath row) = Some n) as Hl by (unfold look; by rewrite (h_name _ _ _ _ _ _ _ Hh)).
  destruct (rename_spec (PStagedPath row) target (w_disk w) (PPublishedInode row) n) as (d' & Hren & Hnames & Hnodes);
    [apply (h_name _ _ _ _ _ _ _ Hh)|done|apply (a_inode _ _ _ _ _ _ Ha)| |].
  { intros m Hm. pose proof (y_copy _ _ _ _ Hy) as Hc. pose proof (a_target _ _ _ _ _ _ Ha) as Ht. unfold old_target in Ht.
    destruct (look (w_disk w0) target) as [n0|]; [|congruence]. destruct Ht as (m' & Hm' & Hkm & _), Hc as [Hk0 _]. congruence. }
  exists d'. split; [done|]. eapply ready_published; [done|..].
  - eapply disk_ok_rename; [apply (a_ok _ _ _ _ _ _ Ha)|done].
  - by eapply same_off_rename.
  - intros x Hx. rewrite elem_of_cons, list_elem_of_singleton in Hx. destruct Hx; auto.
  - by rewrite Hnames, lookup_insert_eq.
  - done.
  - unfold tidy, look. simpl. by rewrite Hnames, lookup_insert_ne, lookup_delete_eq.
Qed.

Lemma wp_publish_rename u row payload w (Q : result InstallError unit -> world -> Prop) :
  ready u row payload w ->
  (forall w', published row payload w' -> Q (Ok tt) w') -> (forall e, Q (Err e) w) ->
  wp p (publish_rename (PStagedPath row) target) Q (crashed p interrupted) w.
Proof.
  intros Hy HQ HE. pose proof (y_knows _ _ _ _ Hy) as Hk.
  apply wp_change; [|by intros; apply HE|].
  - destruct (ready_renamed _ _ _ _ Hy) as (d' & -> & Hp). by apply HQ.
  - intros Hc. split; [done|]. eapply in_announced; [apply (k_row _ _ _ Hk)|apply (k_text _ _ _ Hk)|apply (y_announced _ _ _ _ Hy)].
Qed.

(** Publishing succeeds with the file in place, or fails and leaves it. *)
Lemma wp_publishStaged u row payload w (Q : result InstallError unit -> world -> Prop) :
  ready u row payload w ->
  (forall w', published row payload w' -> Q (Ok tt) w') -> (forall e, Q (Err e) w) ->
  wp p (publishStaged (u_staged u) (u_destination u) (u_replacing u)) Q (crashed p interrupted) w.
Proof.
  intros Hy HQ HE. pose proof (y_knows _ _ _ _ Hy) as Hk. pose proof (k_row _ _ _ Hk) as Hr.
  pose proof (y_announced _ _ _ _ Hy) as Ha.
  rewrite (k_staged _ _ _ Hk), (k_target _ _ _ Hk). unfold publishStaged.
  destruct (u_replacing u) eqn:Erep; cbn [negb]; [by eapply wp_publish_rename|].
  assert (look (w_disk w0) target = None) as Hnone.
  { destruct (look (w_disk w0) target) eqn:E; [|done]. assert (false = true) as Hf; [|done].
    rewrite <- Erep. apply (k_replacing _ _ _ Hk). congruence. }
  pose proof (a_target _ _ _ _ _ _ Ha) as Ht. unfold old_target in Ht. rewrite Hnone in Ht.
  apply look_none in Ht; [|apply (a_ok _ _ _ _ _ _ Ha)].
  assert (p Crash -> crashed p interrupted w) as Hc.
  { split; [done|]. by eapply in_announced; [|apply (k_text _ _ _ Hk)|]. }
  apply wp_bind, wp_change; [|intros e _; by eapply wp_publish_rename|done].
  pose proof (h_name _ _ _ _ _ _ _ (y_held _ _ _ _ Hy)) as Hs.
  destruct (link_entry (PStagedPath row) target (w_disk w)) as [[[] d']|e] eqn:El.
  2:{ unfold link_entry in El. by rewrite Hs, Ht in El. }
  assert (published row payload (on_disk d' w)) as Hp.
  { pose proof El as El'. unfold link_entry in El'. rewrite Hs, Ht in El'. injection El' as Ed'.
    eapply (ready_published _ _ _ _ _ [target]); [done|..].
    - eapply disk_ok_link; [apply (a_ok _ _ _ _ _ _ Ha)|done].
    - rewrite <- Ed'. apply same_off_insert.
    - intros x ->%list_elem_of_singleton. by left.
    - rewrite <- Ed'. simpl. by rewrite lookup_insert_eq.
    - by rewrite <- Ed'.
    - eapply tidy_off; [apply (a_staged _ _ _ _ _ _ Ha)|rewrite <- Ed'; apply same_off_insert|].
      intros y ->%list_elem_of_singleton. unfold tidy. simpl. rewrite <- Ed', look_insert, decide_True by done.
      destruct (h_regular _ _ _ _ _ _ _ (y_held _ _ _ _ Hy)) as (n & Hn & Hkn). by rewrite Hn. }
  apply wp_bind. eapply remove_hidden_published; [done|apply (row_staged _ _ _ _ _ _ _ Hr)|by eapply row_copy_staged| |].
  - intros _ w' Hp'. apply wp_ret. by apply HQ.
  - split; [done|]. by eapply in_published; [apply (k_row _ _ _ Hk)|apply (k_text _ _ _ Hk)|apply (k_apart _ _ _ Hk)|].
Qed.

(** ** Recording *)

Definition halted (w : world) : Prop := interrupted w \/ exists x, finished x w.
Definition settled_result (r : result InstallError Installation) (w : world) : Prop :=
  match r with Ok x => finished x w | Err _ => interrupted w end.

(** A recorded install, or one interrupted. *)
Definition staged_result (r : result InstallError Installation) (w : world) : Prop :=
  match r with
  | Ok x => exists payload, installable_text payload /\ names_install cwd checksumBytes q payload x
              /\ recorded (install_requests payload) payload w
  | Err _ => interrupted w
  end.

Lemma staged_settled r w : staged_result r w -> settled_result r w.
Proof. destruct r as [x|e]; [|done]. intros (payload & ? & ? & ?). by eapply fin_recorded. Qed.


Lemma wp_halted {A} (m : M A) Q w : wp p m Q (crashed p interrupted) w -> wp p m Q (crashed p halted) w.
Proof. intros H. eapply wp_mono; [exact H|done|]. intros w' [Hc Hi]. split; [done|by left]. Qed.

Lemma restore_settles u row payload committed cause w :
  knows u row payload ->
  (if (committed : bool) then published row payload w else announced row w) ->
  wp p (restore q u committed cause) staged_result (crashed p halted) w.
Proof.
  intros Hk Hw. apply wp_halted. eapply wp_mono; [by eapply wp_restore| |done].
  by intros r w' [Hi [e ->]].
Qed.

Lemma record_published u row payload sync w db' res :
  knows u row payload -> published row payload w ->
  RecordInstallationWithNotifications json_valid now
    (with_pending_id (u_pending u) (installed_record q target (checksumBytes payload) (u_rollback u) sync))
    (install_requests payload) (w_db w) = Ok (db', res) ->
  recorded (install_requests payload) payload (in_db db' w).
Proof.
  intros Hk [Hdok Ho Hdb Hi Ht Hs Hc] Hrec. apply record_spec in Hrec as (Hinst & Hpend & Hout & Hmedia).
  rewrite Hdb in *. cbn in Hinst, Hpend, Hout, Hmedia. rewrite (k_pending _ _ _ Hk) in Hpend.
  rewrite (proj2 (Z.eqb_neq _ 0)), delete_singleton_eq in Hpend by apply (row_id _ _ _ _ _ _ _ (k_row _ _ _ Hk)).
  split; [done| |done| |done..].
  - intros x Hx. apply Ho. rewrite list_elem_of_singleton. intros ->. apply Hx. left.
  - eexists. split; [|exact Hinst]. split_and!; try done. apply clean_path_clean. by apply target_clean.
Qed.

Lemma names_relocated payload x rollback :
  names_install cwd checksumBytes q payload x ->
  names_install cwd checksumBytes q payload (relocated (IPath x) (IMediaPath x) rollback (IMediaFileID x) x).
Proof. done. Qed.

Lemma recorded_cleared requests payload w path :
  recorded requests payload w ->
  recorded requests payload (in_db (ClearInstallationRollback (QMediaID q) (QLanguage q) path (w_db w)) w).
Proof.
  intros [? ? ? (x & Hx & Hin) ? ? ?]. unfold ClearInstallationRollback.
  destruct (bool_decide (path = [])); [by split; eauto|]. split; [done..| |done|done|done].
  exists (if bool_decide (IRollbackPath x = path)
          then relocated (IPath x) (IMediaPath x) [] (IMediaFileID x) x else x). split.
  - by destruct (bool_decide _).
  - cbn. rewrite Hin. change (QMediaID q, QLanguage q) with (key q). rewrite alter_insert_eq. done.
Qed.

Lemma recorded_unlink_old x requests payload w :
  recorded requests payload w -> old_record = Some x -> IRollbackPath x <> [] ->
  recorded requests payload (on_disk (unlink (path_abs cwd (IRollbackPath x)) (w_disk w)) w).
Proof.
  intros [? Ho (n & Hn & Hk) ? ? ? ?] Hx Hne. pose proof (Hold x Hx Hne) as Ht.
  split; [by apply disk_ok_unlink| | |done..].
  - eapply others_off_in; [done|apply same_off_unlink|]. intros y ->%list_elem_of_singleton. left.
    unfold old_copy. rewrite Hx. right. left.
  - exists n. simpl. rewrite look_unlink, decide_False; [done|congruence].
Qed.

Lemma finished_relocated payload x rollback w :
  installable_text payload -> names_install cwd checksumBytes q payload x ->
  recorded (install_requests payload) payload w -> staged_result (Ok (with_rollback rollback x)) w.
Proof. intros. exists payload. split_and!; [done|by apply names_relocated|done]. Qed.

Lemma wp_discardRollback u row payload x w (Q : text -> world -> Prop) :
  knows u row payload -> IMediaID x = QMediaID q -> ILanguage x = QLanguage q -> IRollbackPath x = PRollbackPath row ->
  recorded (install_requests payload) payload w ->
  (forall r w', recorded (install_requests payload) payload w' -> Q r w') ->
  wp p (discardRollback cwd i x folder) Q (crashed p (recorded (install_requests payload) payload)) w.
Proof.
  intros Hk Hm Hl Hpath Hw HQ. unfold discardRollback. destruct (bool_decide _) eqn:E; [by apply wp_ret, HQ|].
  apply bool_decide_eq_false in E. rewrite Hpath in *.
  destruct (row_copy _ _ _ _ _ _ _ (k_row _ _ _ Hk)) as [? | (Hh & _)]; [done|].
  apply wp_bind, wp_otherwise, wp_inject; [|by apply wp_ret, HQ]. apply wp_otherwise.
  assert (forall (r : result InstallError unit) w', recorded (install_requests payload) payload w' ->
    match r with
    | Ok _ => wp p (clear_rollback x (PRollbackPath row))
        (fun a w' => wp p (mret (match a with Ok _ => [] | Err _ => PRollbackPath row end)) Q
           (crashed p (recorded (install_requests payload) payload)) w')
        (crashed p (recorded (install_requests payload) payload)) w'
    | Err e => wp p (mret (PRollbackPath row)) Q (crashed p (recorded (install_requests payload) payload)) w'
    end) as Hclear.
  { intros [[]|e] w' Hw'; [|by apply wp_ret, HQ].
    apply wp_transaction; [|by intros; apply wp_ret, HQ|by split]. apply wp_ret, HQ. rewrite Hm, Hl.
    by apply recorded_cleared. }
  unfold removeRollbackCopy. destruct (negb _); [by apply wp_ret, (Hclear (Err EStage))|].
  apply wp_on_error, wp_remove_contained_any; [| |by split].
  - intros [[]|e]; [by apply wp_ret, (Hclear (Ok tt))|].
    destruct e; by apply wp_ret; first [apply (Hclear (Ok tt))|apply (Hclear (Err EStage))].
  - apply wp_ret, (Hclear (Ok tt)). rewrite (hidden_abs _ _ _ _ Hcwd _ Hh).
    eapply recorded_off; [done|done|apply same_off_unlink|by constructor| |done].
    apply disk_ok_unlink, (r_ok _ _ _ _ _ _ _ _ Hw).
Qed.

Lemma wp_cleaned u row payload sync w :
  knows u row payload -> recorded (install_requests payload) payload w ->
  wp p (cleaned cwd i u (installed_record q target (checksumBytes payload) (u_rollback u) sync))
    staged_result (crashed p halted) w.
Proof.
  intros Hk Hw. set (x := installed_record _ _ _ _ _).
  assert (names_install cwd checksumBytes q payload x) as Hx.
  { split_and!; try done. apply clean_path_clean. by apply target_clean. }
  assert (forall w', p Crash -> recorded (install_requests payload) payload w' -> crashed p halted w') as Hcr'.
  { intros w' Hp Hw'. split; [done|]. right. exists x. eapply fin_recorded; [apply (k_text _ _ _ Hk)|done|done]. }
  unfold cleaned. rewrite (k_existing _ _ _ Hk), (k_parent _ _ _ Hk). apply wp_bind.
  match goal with |- wp _ _ ?Q _ _ => assert (forall r w', recorded (install_requests payload) payload w' -> Q r w') as Hrest end.
  { intros r w' Hw'. cbv beta. apply wp_bind.
    eapply wp_mono; [eapply (wp_discardRollback u row payload x); [done|done|done|apply (k_rollback _ _ _ Hk)|done|]| |].
    - intros rollback w'' Hw''. exact (conj (@eq_refl text rollback) Hw'').
    - intros rollback w'' [_ Hw'']. apply wp_ret. eapply finished_relocated; [apply (k_text _ _ _ Hk)|done|done].
    - intros w'' [Hp Hw'']. by apply Hcr'. }
  case_eq (InstallPhases.old_record q w0); [intros e Ee|intros _; rewrite bool_decide_true by done; by apply wp_ret, Hrest].
  destruct (negb _ && negb _) eqn:E; [|by apply wp_ret, Hrest].
  apply andb_true_iff in E as [E _]. apply negb_true_iff, bool_decide_eq_false in E.
  apply wp_bind, wp_inject; [|by apply wp_ret, Hrest]. apply wp_bind, wp_remove_contained_any.
  - intros r. by apply wp_ret, Hrest.
  - apply wp_ret, (Hrest tt). by apply (recorded_unlink_old e).
  - intros Hp. by apply Hcr'.
Qed.

(** ** [commit] *)

(** A step that only looks: on an error the install is undone. *)
Lemma wp_back {A} u row payload (committed : bool) (m : io A) k w :
  knows u row payload ->
  (if committed then published row payload w else announced row w) ->
  looks p m trivially w -> (forall a, wp p (k a) staged_result (crashed p halted) w) ->
  wp p (on_error m (restore q u committed) k) staged_result (crashed p halted) w.
Proof.
  intros Hk Hw Hm HQ. apply wp_on_error. eapply wp_looks; [exact Hm| |].
  - intros [a|e] _; [apply HQ|by eapply restore_settles].
  - intros Hc. split; [done|]. left. destruct committed.
    + by eapply in_published; [apply (k_row _ _ _ Hk)|apply (k_text _ _ _ Hk)|apply (k_apart _ _ _ Hk)|].
    + by eapply in_announced; [apply (k_row _ _ _ Hk)|apply (k_text _ _ _ Hk)|].
Qed.

Lemma looks_inject stage w : looks p (inject i stage) trivially w.
Proof. unfold inject. by destruct (FaultAt i stage); apply looks_ret. Qed.

Lemma looks_sync dir w : looks p (syncDirectory dir) trivially w.
Proof. by apply wp_sync. Qed.

Lemma wp_commit u row payload w :
  ready u row payload w ->
  wp p (commit cwd eval_symlinks now checksumBytes json_valid encode_payload i q u payload)
    staged_result (crashed p halted) w.
Proof.
  intros Hy. pose proof (y_knows _ _ _ _ Hy) as Hk. pose proof (y_announced _ _ _ _ Hy) as Ha. unfold commit.
  eapply wp_back; [done|done|apply looks_unchanged|intros _].
  eapply wp_back; [done|done|apply looks_inject|intros _].
  eapply wp_back; [done|done|apply looks_media|intros _].
  eapply wp_back; [done|done|by apply looks_ctx|intros _].
  apply wp_on_error. eapply wp_mono.
  { eapply (wp_publishStaged u row payload w (fun r w' => match r with
      | Ok _ => published row payload w' | Err _ => announced row w' end)); done. }
  2:{ intros w' [Hc Hi]. split; [done|by left]. }
  intros [_|e] w1 H1; [|by eapply restore_settles].
  eapply wp_back; [done|done|apply looks_inject|intros _].
  eapply wp_back; [done|done|apply looks_sync|intros _].
  eapply wp_back; [done|done|unfold encoded_sync; by destruct (QSyncResult q); apply looks_ret|intros sync].
  eapply wp_back; [done|done|apply looks_inject|intros _].
  rewrite (k_target _ _ _ Hk). apply wp_on_error, wp_transaction.
  - destruct (RecordInstallationWithNotifications _ _ _ _ _) as [[db' res]|e] eqn:Er; [|by eapply restore_settles].
    eapply wp_cleaned; [done|]. by eapply record_published.
  - intros e _. by eapply restore_settles.
  - intros Hc. split; [done|]. left. by eapply in_published; [apply (k_row _ _ _ Hk)|apply (k_text _ _ _ Hk)|apply (k_apart _ _ _ Hk)|].
Qed.

(** ** [Install] *)

Lemma unlink_interrupted w : hidden s0 -> interrupted w -> interrupted (on_disk (unlink s0 (w_disk w)) w).
Proof.
  intros Hs [Hu|row x Hr Ht Ha|row x Hr Ht Hne Hp|x Ht Ha].
  - by apply in_untouched, untouched_unlink.
  - eapply in_announced; [done|done|]. eapply announced_off; [done|done|apply same_off_unlink|by constructor|apply unlink_only_tidy| |done].
    apply disk_ok_unlink, (a_ok _ _ _ _ _ _ Ha).
  - eapply in_published; [done|done|done|]. eapply published_off; [done|done|apply same_off_unlink|by constructor| |apply unlink_only_tidy| |done].
    + by rewrite list_elem_of_singleton.
    + apply disk_ok_unlink, (p_ok _ _ _ _ _ _ _ Hp).
  - eapply in_adopted; [done|]. eapply adopted_off; [done|done|apply same_off_unlink|by constructor| |done].
    apply disk_ok_unlink, (d_ok _ _ _ _ _ _ _ Ha).
Qed.

Lemma wp_removing_staged (m : io Installation) w :
  hidden s0 -> wp p m staged_result (crashed p halted) w ->
  wp p (removing_staged s0 m) staged_result (crashed p halted) w.
Proof.
  intros Hs Hm. apply wp_bind. eapply wp_mono; [exact Hm| |done]. intros r w' Hr. apply wp_bind.
  apply wp_remove; [by intros; apply wp_ret| |by intros; apply wp_ret|].
  - intros _. apply wp_ret. destruct r as [x|e]; [|by apply unlink_interrupted].
    destruct Hr as (payload & Ht & Hx & Hw). exists payload. split_and!; [done|done|].
    eapply recorded_off; [done|done|apply same_off_unlink|by constructor| |done].
    apply disk_ok_unlink, (r_ok _ _ _ _ _ _ _ _ Hw).
  - intros Hc. split; [done|]. destruct r as [x|e]; [|by left].
    right. exists x. by apply (staged_settled (Ok x)).
Qed.

(** What the checks before staging established. *)
Record admitted (existing : option Installation) (replacing : bool) (payload : text) : Prop := {
  ad_text : installable_text payload;
  ad_existing : existing = old_record;
  ad_replacing : replacing = true <-> look (w_disk w0) target <> None;
  ad_regular : forall n, look (w_disk w0) target = Some n -> f_kind n = Regular;
  ad_changed : look (w_disk w0) target <> None -> forall x, old_record = Some x -> IChecksum x <> checksumBytes payload;
}.

Lemma begin_spec pend db db' id :
  idb_pending db = ∅ -> BeginPendingInstall now pend db = Ok (db', id) ->
  id = 1 /\ exists created,
    db' = with_pending {[1 := mkPending 1 (PMediaID pend) (PLanguage pend) (PDestination pend) (PChecksum pend)
                              (PStagedPath pend) (PRollbackPath pend) (PPublishedInode pend) created]} db.
Proof.
  intros Hp. unfold BeginPendingInstall. destruct (_ || _); [done|]. rewrite Hp.
  assert (next_rowid (∅ : gmap Z PendingInstall) = 1) as -> by (unfold next_rowid; by rewrite map_to_list_empty).
  intros [= <- <-]. split; [done|]. eexists. by rewrite insert_empty.
Qed.

Lemma quiet_pending w : untouched w -> idb_pending (w_db w) = ∅.
Proof. intros Hu. by rewrite (u_db _ _ _ _ _ Hu). Qed.

(** From a staged file with its copy to the announced install. *)
Lemma begin_ready existing replacing payload ino rollback w db' id :
  admitted existing replacing payload -> 0 < ino -> staging s0 ino payload w ->
  match look (w_disk w0) target with
  | None => rollback = []
  | Some n => copied s0 ino rollback n w
  end ->
  BeginPendingInstall now (mkPending 0 (QMediaID q) (QLanguage q) target (checksumBytes payload) s0 rollback ino now)
    (w_db w) = Ok (db', id) ->
  exists row, ready (mkPublication target folder existing replacing s0 ino rollback id) row payload (in_db db' w).
Proof.
  intros Had Hino Hst Hcopy Hb. pose proof (s_held _ _ _ _ _ _ _ _ Hst) as Hh. pose proof (h_hidden _ _ _ _ _ _ _ Hh) as Hs.
  pose proof (s_untouched _ _ _ _ _ _ _ _ Hst) as Hu.
  apply begin_spec in Hb as (-> & created & ->); [|by apply quiet_pending]. cbn [PMediaID PLanguage PDestination PChecksum PStagedPath PRollbackPath PPublishedInode].
  set (row := mkPending _ _ _ _ _ _ _ _ _). exists row.
  assert (rollback <> s0) as Hne.
  { destruct (look (w_disk w0) target); [by destruct Hcopy|]. subst rollback. intros E. symmetry in E.
    revert E. by eapply hidden_nonempty. }
  assert (row_ok row payload) as Hr.
  { split; try done; [| |].
    - destruct (look (w_disk w0) target); [|by left]. right. destruct Hcopy as (? & ? & ? & _). done.
    - cbn. lia.
    - intros Hl. unfold row_recorded. destruct old_record as [x|] eqn:E; [|done].
      apply andb_false_iff. right. apply bool_decide_eq_false. cbn. apply (ad_changed _ _ _ Had Hl x). exact E. }
  assert (announced row (in_db (with_pending {[1 := row]} (w_db w)) w)) as Ha.
  { destruct Hu as [? ? ? Hdb]. split; try done; [|cbn|change (tidy s0 w); by eapply held_tidy|].
    - cbn. by rewrite Hdb.
    - intros E. apply (h_only _ _ _ _ _ _ _ Hh) in E. revert E. by apply target_not_hidden.
    - destruct (look (w_disk w0) target); [|by right]. left. destruct Hcopy as (_ & _ & _ & _ & n' & Hl & Hk & _).
      unfold tidy. cbn. by rewrite Hl. }
  split; [| |by destruct Hh; split|apply (s_data _ _ _ _ _ _ _ _ Hst)|].
  - split; try done; [apply (ad_text _ _ _ Had)|apply (ad_existing _ _ _ Had)|apply (ad_replacing _ _ _ Had)].
  - done.
  - destruct (look (w_disk w0) target) as [n|] eqn:E; [|done]. split; [by apply (ad_regular _ _ _ Had)|done].
Qed.

Lemma copied_trans ino r n n' w : restored_as n n' -> copied s0 ino r n' w -> copied s0 ino r n w.
Proof.
  intros Hn (? & ? & ? & ? & m & ? & ? & ?). split_and!; try done. exists m. split_and!; [done..|]. by eapply restored_trans.
Qed.

Lemma fail_staged {A} open e w :
  untouched w -> hidden s0 ->
  wp p (failStaging (A:=A) s0 open e) (fun r w' => interrupted w' /\ r = Err e) (crashed p halted) w.
Proof.
  intros Hu Hs. eapply wp_mono; [by apply wp_failStaging| |].
  - intros r w' [Hu' ->]. split; [by apply in_untouched|done].
  - intros w' [Hc Hu']. split; [done|]. left. by apply in_untouched.
Qed.

Lemma fail_install open e w :
  untouched w -> hidden s0 -> wp p (failStaging s0 open e) staged_result (crashed p halted) w.
Proof. intros. eapply wp_mono; [by apply fail_staged| |done]. by intros r w' [? ->]. Qed.

Lemma wp_publish existing replacing payload ino w :
  admitted existing replacing payload -> 0 < ino -> staging s0 ino [] w ->
  wp p (publish cwd eval_symlinks draws now checksumBytes json_valid encode_payload i q target folder existing replacing
          payload s0 ino) staged_result (crashed p halted) w.
Proof.
  intros Had Hino Hst. assert (hidden s0) as Hs by apply (h_hidden _ _ _ _ _ _ _ (s_held _ _ _ _ _ _ _ _ Hst)).
  assert (forall w', p Crash -> untouched w' -> crashed p halted w') as Hcr.
  { intros w' Hc Hu. split; [done|]. left. by apply in_untouched. }
  unfold publish. apply wp_otherwise.
  eapply wp_mono; [by eapply wp_stage| |by intros w' [Hc Hu]; apply Hcr].
  intros [info|e] w1 H1; [|by apply in_untouched]. destruct H1 as [Hino' H1]. rewrite Hino'. clear info Hino'.
  apply wp_on_error.
  assert (wp p (if replacing then copyRollback eval_symlinks draws now target folder else okay [])
    (fun r w' => staging s0 ino payload w' /\ match r with
       | Ok rollback => match look (w_disk w0) target with None => rollback = [] | Some n => copied s0 ino rollback n w' end
       | Err _ => True end) (crashed p halted) w1) as Hcopy.
  { pose proof (ad_replacing _ _ _ Had) as Hrep. destruct replacing.
    - destruct (look (w_disk w0) target) as [n|] eqn:E; [|by destruct Hrep as [Hrep _]; destruct Hrep].
      pose proof (u_target _ _ _ _ _ (s_untouched _ _ _ _ _ _ _ _ H1)) as Ht. unfold old_target in Ht. rewrite E in Ht.
      destruct Ht as (n' & Hn' & Hres). pose proof (ad_regular _ _ _ Had n E) as Hreg.
      eapply wp_mono; [eapply wp_copy; [done|exact H1|exact Hn'|destruct Hres as [Hk _]; congruence]| |by intros w' [Hc Hu]; apply Hcr].
      intros [r|e] w' Hr; [|done]. destruct Hr as [Hr Hc]. split; [done|]. by eapply copied_trans.
    - apply wp_ret. split; [done|]. destruct (look (w_disk w0) target); [|done]. by assert (false = true) by by apply Hrep. }
  eapply wp_mono; [exact Hcopy| |done]. intros [rollback|e] w2 [H2 Hc2].
  2:{ apply fail_install; [apply (s_untouched _ _ _ _ _ _ _ _ H2)|done]. }
  pose proof (s_untouched _ _ _ _ _ _ _ _ H2) as Hu2.
  assert (forall (e : InstallError), wp p (mbind (M:=M) (fun _ => failStaging s0 None e)
            (if bool_decide (rollback = []) then okay tt else Remove rollback)) staged_result (crashed p halted) w2) as Hundo.
  { intros e. apply wp_bind. destruct (decide (rollback = [])) as [E|E].
    - rewrite bool_decide_true by done. apply wp_ret. by apply fail_install.
    - rewrite bool_decide_false by done. destruct (look (w_disk w0) target); [|done]. destruct Hc2 as (_ & Hh & _).
      apply wp_remove; [intros _|intros _|intros e' _|by intros; apply Hcr]; (apply fail_install; [|done]); try done.
      by apply untouched_unlink. }
  apply wp_on_error, wp_transaction; [|by intros; apply Hundo|by intros; apply Hcr].
  destruct (BeginPendingInstall _ _ _) as [[db' id]|e] eqn:Eb; [|by apply Hundo].
  destruct (begin_ready _ _ _ _ _ _ _ _ Had Hino H2 Hc2 Eb) as [row Hready]. by eapply wp_commit.
Qed.

(** ** The same text again *)

Lemma record_refreshed existing payload n sync db' res :
  old_record = Some existing -> path_clean (IPath existing) = target ->
  look (w_disk w0) target = Some n -> f_kind n = Regular -> checksumBytes (f_data n) = IChecksum existing ->
  checksumBytes payload = IChecksum existing -> installable_text payload ->
  RecordInstallationWithNotifications json_valid now (refreshed_record q sync existing) (refresh_requests existing)
    (w_db w0) = Ok (db', res) ->
  finished (refreshed_record q sync existing) (in_db db' w0).
Proof.
  intros He Hp Hn Hk Hd Hc Ht Hrec. pose proof (Hkeyed _ He) as Hkey. injection Hkey as Hm Hl.
  apply record_spec in Hrec as (Hinst & Hpend & Hout & Hmedia).
  assert (names_install cwd checksumBytes q payload (refreshed_record q sync existing)) as Hx by done.
  eapply fin_refreshed; [done|done|exact He|]. split; [done| | | |exact Hout|done].
  - exists n. split_and!; [done|done|congruence].
  - exists (stored_installation now (refreshed_record q sync existing)). split; [done|].
    cbn in Hinst. unfold install_key in Hinst. cbn in Hinst. rewrite Hm, Hl in Hinst. exact Hinst.
  - cbn. rewrite Hpend, Hquiet. by destruct (_ =? 0).
Qed.

Lemma wp_refresh existing payload n :
  old_record = Some existing -> path_clean (IPath existing) = target ->
  look (w_disk w0) target = Some n -> f_kind n = Regular -> checksumBytes (f_data n) = IChecksum existing ->
  checksumBytes payload = IChecksum existing -> installable_text payload ->
  wp p (refreshIdenticalInstallation cwd eval_symlinks now checksumBytes json_valid encode_payload i q existing)
    settled_result (crashed p halted) w0.
Proof.
  intros He Hp Hn Hk Hd Hc Ht. assert (interrupted w0) as Hi by by apply in_untouched, start_untouched.
  assert (p Crash -> crashed p halted w0) as Hcr by (split; [done|by left]).
  unfold refreshIdenticalInstallation. apply wp_otherwise.
  eapply wp_looks with (R := trivially); [unfold encoded_sync; by destruct (QSyncResult q); apply looks_ret| |done].
  intros [sync|e] _; [|done]. apply wp_otherwise. eapply wp_looks; [apply looks_inject| |done]. intros [_|e] _; [|done].
  apply wp_otherwise. eapply wp_looks with (R := trivially); [by apply looks_ctx| |done]. intros [_|e] _; [|done].
  apply wp_otherwise. eapply wp_looks; [apply looks_unchanged| |done]. intros [_|e] _; [|done].
  apply wp_otherwise. eapply wp_looks; [apply looks_media| |done]. intros [_|e] _; [|done].
  apply wp_otherwise, wp_transaction; [|done|done].
  change (if InstallationMatchesMedia existing (QMedia q) then [] else _) with (refresh_requests existing).
  destruct (RecordInstallationWithNotifications _ _ _ _ _) as [[db' res]|e] eqn:Er; [|done].
  apply wp_ret. by eapply record_refreshed.
Qed.
End safety.
