(* ===== verification/CrashSafety.v ===== *)
(** * Crash safety of installs

    The install as a whole, the recovery of the row it may leave, and what
    holds after any failures, any kills and any number of interrupted
    recoveries. *)
From S2P Require Import Prelude GoText GoFloat Domain MatchScore SearchQueue Schedule Workflow Paths Outbox InstallStore Disk Install Remove Recovery InstallSpec InstallPhases InstallStaging InstallSafety.

#[local] Open Scope Z_scope.

Section crash.
Context (cwd : text) (eval_symlinks : text -> option text) (draws : text -> nat -> N) (now : instant).
Context (checksumBytes : text -> text) (json_valid : text -> bool) (encode_payload : Media -> text -> text).
Context (parse_srt parse_ssa parse_vtt : text -> option (list cue)) (strip : text -> text -> text).
Context (i : Installer) (q : InstallRequest) (w0 : world).

#[local] Abbreviation target := (target cwd q).
#[local] Abbreviation folder := (folder cwd q).
#[local] Abbreviation hidden := (hidden cwd draws q w0).
#[local] Abbreviation untouched := (untouched cwd draws q w0).
#[local] Abbreviation announced := (announced cwd draws q w0).
#[local] Abbreviation published := (published cwd draws q w0).
#[local] Abbreviation adopted := (adopted cwd draws checksumBytes q w0).
#[local] Abbreviation row_ok := (row_ok cwd draws checksumBytes q w0).
#[local] Abbreviation old_record := (old_record q w0).
#[local] Abbreviation installable_text :=
  (installable_text cwd eval_symlinks parse_srt parse_ssa parse_vtt strip i q w0).
#[local] Abbreviation interrupted :=
  (interrupted cwd eval_symlinks draws checksumBytes parse_srt parse_ssa parse_vtt strip i q w0).
#[local] Abbreviation finished :=
  (finished cwd eval_symlinks draws now checksumBytes encode_payload parse_srt parse_ssa parse_vtt strip i q w0).
#[local] Abbreviation install :=
  (Install cwd eval_symlinks draws now checksumBytes json_valid encode_payload parse_srt parse_ssa parse_vtt strip i q).
#[local] Abbreviation recover := (RecoverPendingInstalls cwd eval_symlinks checksumBytes i).

(** The state an install starts in: no row is pending, the record of the
    subtitle is stored under its key and its old copy is another file, and the
    destination is not one of the installer's hidden names. *)
Record calm : Prop := {
  c_disk : disk_ok (w_disk w0);
  c_pending : idb_pending (w_db w0) = ∅;
  c_visible : has_prefix (t ".subsyncd-") (path_base target) = false;
  c_keyed : forall x, old_record = Some x -> install_key x = key q;
  c_old : forall x, old_record = Some x -> IRollbackPath x <> [] -> path_abs cwd (IRollbackPath x) <> target;
}.

Context (Hcwd : rooted cwd = true) (Hcalm : calm).

Lemma visible_target : ~ hidden target.
Proof.
  intros Hh. pose proof (hidden_base cwd draws q w0 Hcwd target Hh) as (prefix & n & Hp & Hb).
  pose proof (c_visible Hcalm) as Hv. rewrite Hb in Hv. by destruct Hp as [-> | ->].
Qed.

(** ** The install *)

Definition paused (w : world) : Prop := exists s0, interrupted s0 w.
Definition install_result (r : result InstallError Installation) (w : world) : Prop :=
  match r with Ok x => finished x w | Err _ => paused w end.
Definition stopped (w : world) : Prop := paused w \/ exists x, finished x w.

#[local] Hint Resolve visible_target c_disk c_pending c_keyed c_old : core.

Lemma start_unchanged : untouched w0.
Proof. apply start_untouched; auto. Qed.

Lemma start_paused : paused w0.
Proof. exists []. apply in_untouched, start_unchanged. Qed.

Lemma wp_fresh_install p existing replacing payload :
  admitted cwd eval_symlinks checksumBytes parse_srt parse_ssa parse_vtt strip i q w0 existing replacing payload ->
  wp p (try! (staged, ino) := CreateTemp draws now folder stagePrefix in
        removing_staged staged (publish cwd eval_symlinks draws now checksumBytes json_valid encode_payload i q
                                  target folder existing replacing payload staged ino))
     install_result (crashed p stopped) w0.
Proof.
  intros Had. apply wp_otherwise, wp_create.
  - intros s n Hs Hfree. destruct Hcalm as [Hok Hpend _ Hkeyed Hold]. pose proof visible_target as Hvis.
    assert (hidden s) as Hh.
    { split; [by exists stagePrefix, n; auto|]. by apply look_none. }
    pose proof start_unchanged as Hu.
    eapply wp_mono.
    + eapply (wp_removing_staged cwd eval_symlinks draws now checksumBytes encode_payload parse_srt parse_ssa parse_vtt strip i q w0 s); [done|done|].
      eapply wp_publish; [done..|exact Had|apply free_inode_pos|].
      by apply (staging_start cwd draws q w0 Hvis s (mkNode Regular [] 384 now)).
    + intros r w Hr. apply staged_settled in Hr. destruct r as [x|e]; [done|by exists s].
    + intros w [Hc [Hi|Hx]]; (split; [done|]); [left; by exists s|by right].
  - intros e. apply start_paused.
  - intros Hc. split; [done|]. left. apply start_paused.
Qed.

(** Every install ends recorded, or in a state the recovery settles. *)
Lemma wp_install p : wp p install install_result (crashed p stopped) w0.
Proof.
  pose proof start_paused as Hp. assert (p Crash -> crashed p stopped w0) as Hcr by (split; [done|by left]).
  pose proof (c_disk Hcalm) as Hok.
  unfold Install. destruct (_ || _); [by apply wp_ret|].
  apply wp_otherwise. eapply wp_looks; [apply looks_contained| |done]. intros [dp|e]; [|done].
  intros [-> Hcont]. apply wp_otherwise. eapply wp_looks; [apply looks_source| |done]. intros [y|e]; [|done].
  intros (n & Hn & Hk & ->). set (payload := if StripWatermarks i then _ else _). apply wp_otherwise.
  apply wp_ret. destruct (validateSubtitlePayload _ _ _ _ _ _) as [[]|e] eqn:Ev; [|done].
  assert (installable_text payload) as Ht by (split; [done|]; by exists n).
  apply wp_otherwise. eapply wp_looks with (R := fun r => match r with Ok o => o = old_record | Err _ => True end);
    [by apply looks_query| |done].
  intros [existing|e]; [intros ->|done]. apply wp_otherwise.
  eapply wp_looks; [by apply looks_replacement| |done]. intros [replacing|e]; [|done]. cbv beta.
  change (path_abs cwd (QDestinationPath q)) with target. intros Hrep.
  match goal with |- context[replacing && ?b] => destruct (replacing && b) eqn:Esame end.
  - apply andb_true_iff in Esame as [-> Esame]. destruct Hrep as (x & m & Hx & Hpath & Hm & Hkm & Hsum).
    rewrite Hx in *. apply bool_decide_eq_true in Esame. cbn [default]. rewrite (clean_path_clean target) in Hpath by by apply target_clean.
    eapply wp_mono; [eapply (wp_refresh cwd eval_symlinks draws now checksumBytes json_valid encode_payload parse_srt parse_ssa parse_vtt strip i q w0 []); [auto|auto|auto|auto|auto|exact Hx|done|exact Hm|done|done|done|done]| |].
    + intros [y|e] w; [done|]. intros Hi. by exists [].
    + intros w [Hc [Hi|Hf]]; (split; [done|]); [left; by exists []|by right].
  - apply wp_otherwise. eapply wp_looks; [apply looks_inject| |done]. intros [_|e] _; [|done].
    apply wp_fresh_install. split; try done.
    + destruct replacing; [destruct Hrep as (x & m & Hx & _ & Hm & _); by rewrite Hm|]. rewrite Hrep. by split.
    + intros m Hm. destruct replacing; [|congruence]. destruct Hrep as (x & m' & Hx & _ & Hm' & Hkm & _). congruence.
    + intros Hl x Hx Hsum. destruct replacing; [|done]. rewrite Hx in Esame. cbn in Esame.
      apply bool_decide_eq_false in Esame. congruence.
Qed.

(** ** The recovery *)

Section recovery.
Context (p : fault -> Prop).
(** While a copy of the previous subtitle exists, recovery runs without failing
    calls; it may be killed anywhere. *)
Context (Hsound : faulty p -> look (w_disk w0) target = None).
Context (s0 : text) (row : PendingInstall) (payload : text).
Context (Hrow : row_ok row payload) (Htext : installable_text payload) (Hapart : PRollbackPath row <> s0).

#[local] Hint Resolve Hrow Htext Hapart : core.

Definition unsettled (w : world) : Prop := announced row w \/ published row payload w.

Lemma unsettled_interrupted w : unsettled w -> interrupted s0 w.
Proof. intros [Ha|Hp]; [by eapply in_announced|by eapply in_published]. Qed.

Lemma unsettled_db w : unsettled w -> w_db w = pending_db w0 {[PID row := row]}.
Proof. intros [Ha|Hp]; [apply (a_db _ _ _ _ _ _ Ha)|apply (p_db _ _ _ _ _ _ _ Hp)]. Qed.

Lemma looks_owned w :
  unsettled w ->
  looks p (pendingPublicationOwned eval_symlinks checksumBytes target row) (fun r => match r with
    | Ok true => published row payload w
    | Ok false => announced row w
    | Err _ => faulty p
    end) w.
Proof.
  intros Hw. unfold pendingPublicationOwned. pose proof (row_inode _ _ _ _ _ _ _ Hrow) as Hi.
  eapply looks_bind; [apply looks_lstat|]. destruct Hw as [Ha|Hp].
  - intros [info|e] Hr.
    + apply look_info in Hr as [_ Hr].
      assert ((i_inode info =? PPublishedInode row) = false) as ->.
      { apply Z.eqb_neq. intros E. apply (a_inode _ _ _ _ _ _ Ha). by rewrite <- E. }
      rewrite (proj2 (Z.eqb_neq (PPublishedInode row) 0)), orb_true_r by done. by apply looks_ret.
    + destruct e; by apply looks_ret.
  - destruct (published_text _ _ _ _ _ _ _ Hp) as (n & Hinfo & Hl & Hk & Hd).
    intros [info|e] Hr; [|destruct e; try by apply looks_ret; congruence].
    rewrite Hinfo in Hr. injection Hr as <-. unfold is_regular. cbn [i_node i_inode].
    rewrite bool_decide_true, Z.eqb_refl, andb_false_r by done. cbn [negb orb].
    eapply looks_otherwise; [by eapply looks_read| |by intros]. intros x ->. apply looks_ret.
    by rewrite bool_decide_true by (rewrite (row_checksum _ _ _ _ _ _ _ Hrow); congruence).
Qed.

(** The publication is undone: the copy takes its place, or it goes. *)
Lemma wp_undo w (Q : result InstallError unit -> world -> Prop) :
  published row payload w ->
  (forall w', announced row w' -> Q (Ok tt) w') -> (forall e w', unsettled w' -> faulty p -> Q (Err e) w') ->
  wp p (undo_pending row target folder) Q (crashed p unsettled) w.
Proof.
  intros Hp HQ HE. assert (p Crash -> crashed p unsettled w) as Hc by (by split; [|right]).
  assert (forall w', announced row w' -> wp p (syncDirectory folder) Q (crashed p unsettled) w') as Hsync.
  { intros w' Ha. apply wp_sync; [by apply HQ|intros e He; apply HE; [by left|by exists e]|by split; [|left]]. }
  pose proof (p_inode _ _ _ _ _ _ _ Hp) as Hi. pose proof (p_copy _ _ _ _ _ _ _ Hp) as Hcopy.
  unfold undo_pending. apply wp_bind. destruct (decide (PRollbackPath row = [])) as [E|E].
  - rewrite bool_decide_true by done. apply wp_ret, wp_otherwise, wp_remove; [congruence| |intros e He; apply HE; [by right|by exists e]|done].
    intros _. apply Hsync. by eapply published_removed.
  - rewrite bool_decide_false by done. destruct (look (w_disk w0) target) as [n|] eqn:El; [|done].
    destruct Hcopy as (_ & _ & n' & Hl & Hk & _).
    eapply wp_looks with (R := fun b => b = true).
    + unfold regularFile. eapply looks_bind; [apply looks_lstat|]. intros [info|e] Hr; apply looks_ret.
      * apply look_info in Hr as [Hr _]. unfold is_regular. rewrite bool_decide_true; [done|congruence].
      * apply look_named in Hl as (j & Hj & Hjn). rewrite (info_some _ _ _ _ Hj Hjn) in Hr.
        destruct e; try done; by specialize (Hsound Hr).
    + intros b ->. apply wp_otherwise, wp_change; [|intros e He; apply HE; [by right|by exists e]|done].
      assert (exists d', rename_entry (PRollbackPath row) target (w_disk w) = Ok (tt, d') /\ announced row (on_disk d' w))
        as (d' & Hren & Ha) by (eapply published_restored; eauto).
      rewrite Hren. by apply Hsync.
    + done.
Qed.

Lemma unsettled_ok w : unsettled w -> disk_ok (w_disk w).
Proof. intros [Ha|Hp]; [apply (a_ok _ _ _ _ _ _ Ha)|apply (p_ok _ _ _ _ _ _ _ Hp)]. Qed.

Lemma unsettled_staged w : unsettled w -> tidy (PStagedPath row) w.
Proof. intros [Ha|Hp]; [apply (a_staged _ _ _ _ _ _ Ha)|apply (p_staged _ _ _ _ _ _ _ Hp)]. Qed.

(** Removing a hidden file of the install from its folder. *)
Lemma wp_clean_hidden x w (Q : list InstallError -> world -> Prop) C :
  hidden x -> disk_ok (w_disk w) -> tidy x w ->
  Q [] w -> Q [] (on_disk (unlink x (w_disk w)) w) -> (forall e, faulty p -> Q [e] w) -> (p Crash -> C w) ->
  wp p (collect (removeContainedFile cwd x folder)) Q C w.
Proof.
  intros Hx Hdok Ht H1 H2 HE HC. apply wp_collect, wp_remove_contained; try done.
  - by eapply hidden_abs.
  - rewrite (hidden_folder _ _ _ _ Hcwd _ Hx). by rewrite folder_clean_id.
Qed.

(** What cleaning up keeps: an announced install, or a published one that the
    old record names. *)
Definition kept (was_recorded : bool) (w : world) : Prop :=
  announced row w \/ (was_recorded = true /\ published row payload w).

Lemma kept_unsettled b w : kept b w -> unsettled w.
Proof. intros [?|[_ ?]]; [by left|by right]. Qed.

Lemma kept_unlink_staged b w : kept b w -> kept b (on_disk (unlink (PStagedPath row) (w_disk w)) w).
Proof.
  intros [Ha|[Hb Hp]].
  - left. eapply announced_off; [apply visible_target|done|apply same_off_unlink|constructor; [apply (row_staged _ _ _ _ _ _ _ Hrow)|constructor]|apply unlink_only_tidy| |done].
    apply disk_ok_unlink, (a_ok _ _ _ _ _ _ Ha).
  - right. split; [done|]. eapply published_off; [apply visible_target|done|apply same_off_unlink|constructor; [apply (row_staged _ _ _ _ _ _ _ Hrow)|constructor]| |apply unlink_only_tidy| |done].
    + rewrite list_elem_of_singleton. by eapply row_copy_staged.
    + apply disk_ok_unlink, (p_ok _ _ _ _ _ _ _ Hp).
Qed.

Lemma kept_unlink_copy w : announced row w -> hidden (PRollbackPath row) ->
  announced row (on_disk (unlink (PRollbackPath row) (w_disk w)) w).
Proof.
  intros Ha Hh. eapply announced_off; [apply visible_target|done|apply same_off_unlink|by constructor|apply unlink_only_tidy| |done].
  apply disk_ok_unlink, (a_ok _ _ _ _ _ _ Ha).
Qed.

Lemma wp_cleanup b w (Q : result InstallError unit -> world -> Prop) :
  kept b w -> (forall w', kept b w' -> Q (Ok tt) w') -> (forall e w', kept b w' -> faulty p -> Q (Err e) w') ->
  wp p (pending_cleanup cwd row folder b) Q (crashed p unsettled) w.
Proof.
  intros Hw HQ HE. pose proof (row_staged _ _ _ _ _ _ _ Hrow) as Hs.
  assert (forall w', kept b w' -> p Crash -> crashed p unsettled w') as Hcr by (intros; split; [done|by eapply kept_unsettled]).
  assert (forall errors w', kept b w' -> (errors <> [] -> faulty p) -> Q (join_errors errors) w') as Hjoin.
  { intros errors w' Hw' He. destruct errors; [by apply HQ|by apply HE, He]. }
  unfold pending_cleanup. rewrite (bool_decide_false (PStagedPath row = [])) by (eapply hidden_nonempty; [exact Hcwd|exact Hs]). apply wp_bind.
  assert (forall e1 w', kept b w' -> (e1 <> [] -> faulty p) ->
    wp p (mbind (M:=M) (fun e2 => mret (join_errors (e1 ++ e2)))
      (if negb (bool_decide (PRollbackPath row = [])) && negb b
       then collect (removeContainedFile cwd (PRollbackPath row) folder) else mret [])) Q (crashed p unsettled) w') as Hcopy.
  { intros e1 w' Hw' He1. apply wp_bind.
    destruct (negb (bool_decide (PRollbackPath row = [])) && negb b) eqn:E.
    2:{ apply wp_ret, wp_ret. apply Hjoin; [done|]. by rewrite app_nil_r. }
    apply andb_true_iff in E as [E Eb]. apply negb_true_iff, bool_decide_eq_false in E. apply negb_true_iff in Eb.
    destruct Hw' as [Ha|[Hb _]]; [|congruence].
    destruct (row_copy _ _ _ _ _ _ _ Hrow) as [? | (Hh & _)]; [done|].
    apply wp_clean_hidden; [done|apply (a_ok _ _ _ _ _ _ Ha)|by destruct (a_copy _ _ _ _ _ _ Ha)|..].
    - apply wp_ret, Hjoin; [by left|]. by rewrite app_nil_r.
    - apply wp_ret, Hjoin; [left; by apply kept_unlink_copy|]. by rewrite app_nil_r.
    - intros e He. apply wp_ret, Hjoin; [by left|done].
    - apply Hcr. by left. }
  apply wp_clean_hidden; [done|by eapply unsettled_ok, kept_unsettled|by eapply unsettled_staged, kept_unsettled|..].
  - by apply Hcopy.
  - apply Hcopy; [by apply kept_unlink_staged|done].
  - intros e He. by apply Hcopy.
  - by apply Hcr.
Qed.

(** One row: undone, or kept for the old record; an error changes nothing that
    matters and comes from a failing call. *)
Lemma wp_recover_install w :
  unsettled w ->
  wp p (recover_install cwd eval_symlinks checksumBytes row target folder)
    (fun r w' => match r with
       | Ok _ => kept (row_recorded row target old_record) w'
       | Err _ => unsettled w' /\ faulty p
       end) (crashed p unsettled) w.
Proof.
  intros Hw. assert (p Crash -> crashed p unsettled w) as Hcr by (by split).
  unfold recover_install. apply wp_otherwise.
  eapply wp_looks with (R := fun r => match r with Ok o => o = old_record | Err _ => faulty p end); [|intros [o|e]; [intros -> |done]|done].
  { apply looks_query; [|intros e He; by exists e]. cbn. rewrite (unsettled_db w Hw), (row_media _ _ _ _ _ _ _ Hrow), (row_language _ _ _ _ _ _ _ Hrow).
    done. }
  set (b := row_recorded row target old_record). apply wp_otherwise.
  eapply wp_looks with (R := fun r => match r with
    | Ok true => published row payload w
    | Ok false => announced row w \/ b = true
    | Err _ => faulty p end); [destruct b; [apply looks_ret; by right|]| |done].
  { eapply looks_mono; [by apply looks_owned|]. intros [[]|e]; auto. }
  intros [owned|e] Hown; [|done]. apply wp_otherwise.
  eapply wp_looks with (R := fun r => match r with Ok _ => True | Err _ => faulty p end); [by apply looks_ctx| |done].
  intros [_|e] Hctx; [|done]. apply wp_otherwise.
  match goal with |- wp _ _ ?Q _ _ => assert (forall w', kept b w' -> Q (Ok tt) w') as Hrest end.
  { intros w' Hw'. apply wp_otherwise.
    assert (p Crash -> crashed p unsettled w') as Hcr' by (split; [done|by eapply kept_unsettled]).
    eapply wp_looks with (R := fun r => match r with Ok _ => True | Err _ => faulty p end); [by apply looks_ctx| |done].
    intros [_|e] Hctx'; [|split; [by eapply kept_unsettled|done]]. apply wp_otherwise, wp_cleanup; [done|..].
    - intros w2 H2. by apply wp_ret.
    - intros e w2 H2 He. split; [by eapply kept_unsettled|done]. }
  destruct owned.
  - apply wp_undo; [done| |by intros]. intros w' Ha. apply Hrest. by left.
  - apply wp_ret, Hrest. destruct Hown as [Ha|Hb]; [by left|]. destruct Hw as [Ha|Hp]; [by left|by right].
Qed.

(** ** The startup sweep over the row *)

Definition settled (w : world) : Prop := untouched w \/ adopted payload w.

Lemma kept_finished b w :
  kept b w -> (b = true -> row_recorded row target old_record = true) ->
  settled (in_db (FinishPendingInstall (PID row) (w_db w)) w).
Proof.
  intros [Ha|[Hb [? ? Hdb ? ? ? Hc]]] Hrec; [left; by apply announced_finished|]. right.
  specialize (Hrec Hb). split; [done|done| |done| |].
  - cbn. by rewrite Hdb, pending_db_finish.
  - destruct (look (w_disk w0) target) eqn:E; [|done].
    rewrite (row_replaces _ _ _ _ _ _ _ Hrow) in Hrec; [done|]. by rewrite E.
  - unfold row_recorded in Hrec. destruct old_record as [x|]; [|done]. exists x.
    apply andb_true_iff in Hrec as [H1 H2]. apply bool_decide_eq_true in H1, H2.
    split_and!; [done|done|]. by rewrite <- (row_checksum _ _ _ _ _ _ _ Hrow).
Qed.

Lemma settled_interrupted w : settled w -> interrupted s0 w.
Proof. intros [Hu|Ha]; [by apply in_untouched|by eapply in_adopted]. Qed.

(** A sweep that reports no failure settled the row. *)
Definition swept (out : Z * list InstallError) (w : world) : Prop :=
  match out.2 with
  | [] => settled w
  | _ => interrupted s0 w /\ faulty p
  end.

Lemma wp_recover_row w :
  unsettled w ->
  wp p (recoverPendingInstall cwd eval_symlinks checksumBytes i row)
    (fun r w' => match r with
       | Ok _ => kept (row_recorded row target old_record) w'
       | Err _ => unsettled w' /\ faulty p
       end) (crashed p unsettled) w.
Proof.
  intros Hw. unfold recoverPendingInstall. rewrite (row_destination _ _ _ _ _ _ _ Hrow). apply wp_otherwise.
  assert (path_abs cwd target = target) as Habs by (by apply path_abs_id, target_clean).
  eapply wp_looks; [apply looks_contained| |by split]. intros [dp|e].
  - intros [-> _]. rewrite Habs. change (path_dir target) with folder.
    assert (isPendingRemoval row = false) as ->.
    { unfold isPendingRemoval. destruct (row_copy _ _ _ _ _ _ _ Hrow) as [-> | (Hh & _)]; [done|].
      apply (hidden_base _ _ _ _ Hcwd) in Hh as (prefix & n & Hp & ->). by destruct Hp as [-> | ->]. }
    assert (isPendingMove row = false) as ->.
    { unfold isPendingMove. rewrite bool_decide_false; [done|].
      eapply hidden_nonempty; [done|apply (row_staged _ _ _ _ _ _ _ Hrow)]. }
    by apply wp_recover_install.
  - intros He. split; [done|]. apply He. unfold contained. rewrite Habs. apply Htext.
Qed.

Lemma wp_settle w :
  unsettled w ->
  wp p recover swept (crashed p (interrupted s0)) w.
Proof.
  intros Hw. assert (interrupted s0 w) as Hi by by apply unsettled_interrupted.
  unfold RecoverPendingInstalls. apply wp_bind.
  eapply wp_looks with (R := fun r => match r with Ok l => l = [row] | Err _ => faulty p end); [|intros [l|e]; [intros ->|by intros; apply wp_ret]|by split].
  { apply looks_query; [|intros e He; by exists e]. by apply (list_pending_singleton _ (PID row)), (f_equal idb_pending (unsettled_db w Hw)). }
  cbn [settle_rows]. apply wp_bind.
  eapply wp_looks with (R := fun r => match r with Ok _ => True | Err _ => faulty p end); [by apply looks_ctx| |by split].
  intros [_|e] Hc; [|by apply wp_ret]. apply wp_bind.
  eapply wp_mono; [by apply wp_recover_row| |].
  - intros [s|e] w1 H1; [|apply wp_ret; split; [apply unsettled_interrupted|]; apply H1].
    assert (interrupted s0 w1) as Hi1 by (by eapply unsettled_interrupted, kept_unsettled).
    apply wp_bind, wp_transaction; [|intros e He; apply wp_ret; split; [done|by exists e]|by split].
    apply wp_ret. by eapply kept_finished.
  - intros w' [Hc' Hw']. split; [done|by apply unsettled_interrupted].
Qed.
End recovery.

Lemma looks_recover_idle p w :
  idb_pending (w_db w) = ∅ ->
  looks p recover (fun out => match out.2 with [] => True | _ => faulty p end) w.
Proof.
  intros Hp. unfold RecoverPendingInstalls.
  eapply looks_bind with (R := fun r => match r with Ok l => l = [] | Err _ => faulty p end).
  - apply looks_query; [by apply list_pending_empty|intros e He; by exists e].
  - intros [l|e]; [intros ->|intros He]; by apply looks_ret.
Qed.

(** No row is left: nothing to settle. *)
Definition idle (w : world) : Prop :=
  untouched w \/ (exists payload, installable_text payload /\ adopted payload w) \/ exists x, finished x w.

Lemma idle_pending w : idle w -> idb_pending (w_db w) = ∅.
Proof.
  intros [[_ _ _ Hdb] | [(x & _ & [_ _ Hdb _ _ _]) | (x & [? ? ? [_ _ _ _ H _ _]|? ? ? ? ? [_ _ _ H _ _]])]];
    [by rewrite Hdb|by rewrite Hdb|done|done].
Qed.

(** Failing calls are allowed to a recovery only of a first install. *)
Definition tolerated (f : fault) : Prop :=
  match f with Fails _ => look (w_disk w0) target = None | _ => True end.

Lemma tolerated_sound : faulty tolerated -> look (w_disk w0) target = None.
Proof. by intros [e He]. Qed.

Lemma no_fault_sound : faulty no_fault -> look (w_disk w0) target = None.
Proof. by intros H%no_fault_faulty. Qed.

Lemma wp_recover_paused p w :
  (faulty p -> look (w_disk w0) target = None) -> paused w ->
  wp p recover (fun out w' => paused w' /\ (out.2 = [] -> untouched w' \/ exists payload, installable_text payload /\ adopted payload w')
                            /\ (out.2 <> [] -> faulty p)) (crashed p paused) w.
Proof.
  intros Hsound [s0 Hw]. assert (paused w) as Hpw by by exists s0.
  assert (forall s1 row payload, row_ok row payload -> installable_text payload -> PRollbackPath row <> s1 ->
    unsettled row payload w ->
    wp p recover (fun out w' => paused w' /\ (out.2 = [] -> untouched w' \/ exists payload, installable_text payload /\ adopted payload w')
                            /\ (out.2 <> [] -> faulty p)) (crashed p paused) w) as Hrows.
  { intros s1 row payload Hr Ht Hne Hu. eapply wp_mono; [by eapply (wp_settle p Hsound s1)| |].
    - intros out w' Hs. unfold swept in Hs. destruct out.2.
      + split_and!; [|intros _|done].
        * exists s1. by eapply settled_interrupted.
        * destruct Hs as [?|?]; [by left|right; by exists payload].
      + destruct Hs as [Hi Hf]. split_and!; [by exists s1|done|done].
    - intros w' [Hc Hi]. split; [done|by exists s1]. }
  assert (idle w -> (untouched w \/ exists payload, installable_text payload /\ adopted payload w) ->
    wp p recover (fun out w' => paused w' /\ (out.2 = [] -> untouched w' \/ exists payload, installable_text payload /\ adopted payload w')
                            /\ (out.2 <> [] -> faulty p)) (crashed p paused) w) as Hidle.
  { intros Hi Hw'. eapply wp_looks; [by apply looks_recover_idle, idle_pending| |by split].
    intros [n [|e l]] Ho; by split_and!. }
  destruct Hw as [Hu|row payload Hr Ht Ha|row payload Hr Ht Hne Hp|payload Ht Ha].
  - apply Hidle; by left.
  - apply (Hrows (PStagedPath row) row payload); [done|done|by eapply row_copy_staged|by left].
  - apply (Hrows s0 row payload); [done..|by right].
  - apply Hidle; [right; left|right]; by exists payload.
Qed.


(** ** The theorems *)

Lemma retry_idle fs x w : finished x w -> after (recover w fs) = w.
Proof.
  intros Hf. assert (idb_pending (w_db w) = ∅) as Hp by (apply idle_pending; right; right; by exists x).
  pose proof (looks_recover_idle any_fault w Hp fs (any_schedule fs)) as H. unfold after.
  destruct (recover w fs) as [out w' fs'|w']; [by destruct H as [[-> _] _]|by destruct H as [_ <-]].
Qed.

Lemma retry_paused fs w : Forall tolerated fs -> paused w -> paused (after (recover w fs)).
Proof.
  intros Hfs Hw. pose proof (wp_recover_paused tolerated w tolerated_sound Hw fs Hfs) as H. unfold after.
  destruct (recover w fs) as [out w' fs'|w']; [by destruct H as [[? _] _]|by destruct H].
Qed.

Lemma retries_paused retries w :
  Forall (Forall tolerated) retries -> paused w ->
  paused (fold_left (fun w fs => after (recover w fs)) retries w).
Proof. intros Hr. revert w. induction Hr as [|fs l Hfs _ IH]; intros w Hw; [done|]. simpl. by apply IH, retry_paused. Qed.

Lemma retries_finished retries x w :
  finished x w -> fold_left (fun w fs => after (recover w fs)) retries w = w.
Proof. intros Hf. induction retries as [|fs l IH]; [done|]. simpl. by rewrite (retry_idle fs x w Hf). Qed.

Lemma last_recovery w :
  paused w ->
  exists n w' fs, recover w [] = Done (n, []) w' fs
    /\ (untouched w' \/ exists payload, installable_text payload /\ adopted payload w').
Proof.
  intros Hw. pose proof (wp_recover_paused no_fault w no_fault_sound Hw [] ltac:(constructor)) as H.
  destruct (recover w []) as [[n failures] w' fs'|w']; [|by destruct H as [[=] _]].
  destruct H as [(_ & Hset & Hfail) _]. destruct failures as [|e l]; [|exfalso; by apply no_fault_faulty, Hfail].
  exists n, w', fs'. split; [done|by apply Hset].
Qed.

Lemma last_recovery_finished x w : finished x w -> exists n fs, recover w [] = Done (n, []) w fs.
Proof.
  intros Hf. assert (idb_pending (w_db w) = ∅) as Hp by (apply idle_pending; right; right; by exists x).
  pose proof (looks_recover_idle no_fault w Hp [] ltac:(constructor)) as H.
  destruct (recover w []) as [[n failures] w' fs'|w']; [|by destruct H as [[=] _]].
  destruct H as [[-> H] _]. destruct failures; [by exists n, fs'|exfalso; by apply no_fault_faulty].
Qed.

(** C1. An install is all or nothing, whatever fails and wherever the process
    is killed. From a state with no pending row, run [Install] under any
    schedule of failing, short and killed calls, then any number of startup
    recoveries that are killed anywhere (and, for a first install, fail
    anywhere), and one recovery that runs undisturbed: no pending row is left,
    no other file and no other record changed, and either the destination and
    the database are as before (the previous subtitle back in place, at worst
    from its copy), or the destination holds the validated text of the source
    and the record names it, with its notifications queued exactly once. An
    install that reported success is never taken back and one that reported an
    error never half stays; the only other outcome is a first publication that
    an old record of the same text and path already names, which is kept. *)
Theorem install_crash_safe (schedule : list fault) (retries : list (list fault)) :
  Forall (Forall tolerated) retries ->
  let interrupted := fold_left (fun w fs => after (recover w fs)) retries (after (install w0 schedule)) in
  exists n w fs, recover interrupted [] = Done (n, []) w fs /\ idb_pending (w_db w) = ∅
    /\ match install w0 schedule with
       | Done (Ok x) _ _ => finished x w
       | Done (Err _) _ _ => untouched w \/ exists payload, installable_text payload /\ adopted payload w
       | Down _ => idle w
       end.
Proof.
  intros Hretries interrupted. subst interrupted.
  pose proof (wp_install any_fault schedule (any_schedule schedule)) as Hin.
  assert (forall w, paused w -> exists n w' fs,
    recover (fold_left (fun w fs => after (recover w fs)) retries w) [] = Done (n, []) w' fs
    /\ (untouched w' \/ exists payload, installable_text payload /\ adopted payload w')) as Hpaused.
  { intros w Hw. by apply last_recovery, retries_paused. }
  assert (forall w, untouched w \/ (exists payload, installable_text payload /\ adopted payload w) -> idle w) as Hidle.
  { intros w [?|?]; [by left|by right; left]. }
  assert (forall x w, finished x w -> exists n fs,
    recover (fold_left (fun w fs => after (recover w fs)) retries w) [] = Done (n, []) w fs) as Hfinished.
  { intros x w Hf. rewrite (retries_finished _ x w Hf). by eapply last_recovery_finished. }
  destruct (install w0 schedule) as [[x|e] w fs|w]; cbn [after].
  - destruct Hin as [Hf _]. destruct (Hfinished x w Hf) as (n & fs' & Hr). exists n, w, fs'.
    split_and!; [done| |done]. apply idle_pending. right; right. by exists x.
  - destruct Hin as [Hw _]. destruct (Hpaused w Hw) as (n & w' & fs' & Hr & Hs). exists n, w', fs'.
    split_and!; [done|by apply idle_pending, Hidle|done].
  - destruct Hin as [_ [Hw|[x Hf]]].
    + destruct (Hpaused w Hw) as (n & w' & fs' & Hr & Hs). exists n, w', fs'.
      split_and!; [done|by apply idle_pending, Hidle|by apply Hidle].
    + destruct (Hfinished x w Hf) as (n & fs' & Hr). exists n, w, fs'.
      assert (idle w) as Hi by (right; right; by exists x). split_and!; [done|by apply idle_pending|done].
Qed.

(** The managed subtitle of the record: a regular file at its path with its
    checksum. *)
Definition managed (n : node) : Prop :=
  exists x, old_record = Some x /\ path_clean (IPath x) = target /\ f_kind n = Regular
    /\ checksumBytes (f_data n) = IChecksum x.

(** C2. A subtitle subsyncd does not manage is never touched: when the
    destination holds a file that is not the regular file the record names, with
    the recorded checksum (a sidecar the user or Arr put there, an edited one, a
    symbolic link), every install returns an error or is killed with files and
    database exactly as they were. *)
Theorem foreign_subtitle_untouched (schedule : list fault) (n : node) :
  look (w_disk w0) target = Some n -> ~ managed n ->
  match install w0 schedule with
  | Done r w _ => w = w0 /\ exists e, r = Err e
  | Down w => w = w0
  end.
Proof.
  intros Hn Hforeign.
  assert (looks any_fault install (fun r => exists e, r = Err e) w0) as H.
  { unfold Install. destruct (_ || _); [apply looks_ret; eauto|].
    eapply looks_otherwise; [apply looks_contained| |eauto]. intros dp [-> _].
    eapply looks_otherwise; [apply looks_source| |eauto]. intros y _. cbv zeta.
    eapply looks_otherwise with (R := trivially); [by apply looks_ret| |eauto]. intros _ _.
    eapply looks_otherwise with (R := fun r => match r with Ok o => o = old_record | Err _ => True end);
      [by apply looks_query| |eauto]. intros existing ->.
    eapply looks_otherwise; [by apply looks_replacement, c_disk| |eauto]. cbv beta.
    change (path_abs cwd (QDestinationPath q)) with target. intros replacing Hrep. exfalso.
    destruct replacing; [|congruence]. destruct Hrep as (x & m & Hx & Hp & Hm & Hk & Hs).
    rewrite (clean_path_clean target) in Hp by by apply target_clean. apply Hforeign. exists x. split_and!; congruence. }
  specialize (H schedule (any_schedule schedule)).
  destruct (install w0 schedule) as [r w fs|w]; [by destruct H as [[-> He] _]|by destruct H as [_ <-]].
Qed.
End crash.

(** ** Evaluated instances *)

Definition sample_digest (s : text) : text := t "digest of " ++ s.
Definition sample_ids : ExternalIDs := mkExternalIDs [] 0 0.
Definition sample_media : Media :=
  mkMedia 5 6 (mkMediaRef (t "sonarr") MediaEpisode 7) (mkFingerprint (t "/tv/Show/e1.mkv") 7 3 100)
    (t "Show") [] [] 0 1 1 0 0 0 sample_ids [] [] [] [] [] [] [] [] 0 [] 0 [].
Definition sample_candidate : Candidate :=
  mkCandidate (t "subdl") (t "c1") (t "en") MediaEpisode [] [] [] 0 0 0 0 sample_ids [] [] [] false false false 0 0 0
    [] [] None false.
Definition sample_install : InstallRequest :=
  mkInstallRequest false 9 sample_media (t "en") (t "/work/new.srt") (t "/tv/Show/e1.en.srt") sample_candidate
    (mkScore 80 [] []) (Some (t "{}")) [] [].
Definition sample_installer : Installer :=
  mkInstaller [t "/tv"] 0 None None (fun _ => false) [t "silo"] (fun _ => true) false.
Definition sample_file (data : text) : node := mkNode Regular data 420 100.
Definition sample_disk : disk :=
  mkDisk {[ t "/tv/Show/e1.mkv" := 1; t "/work/new.srt" := 2; t "/tv/Show/e1.en.srt" := 3 ]}
    {[ 1 := sample_file (t "abc"); 2 := sample_file (t "new text"); 3 := sample_file (t "old text") ]}.
Definition sample_managed : Installation :=
  mkInstallation false 9 (t "en") (t "/tv/Show/e1.en.srt") (sample_digest (t "old text")) (t "subsource") (t "c0") []
    [] NoScoreJSON (t "{}") [] (t "/tv/Show/e1.mkv") 7 3 100 0 50.
Definition sample_db : install_db :=
  mkInstallDB {[ 9 := mkMediaRow false (t "sonarr") MediaEpisode 1 0 [] (Fingerprint sample_media) sample_order ]}
    {[ (9, t "en") := sample_managed ]} ∅ ∅ [] [].
Definition sample_world : world := mkWorld sample_disk sample_db.
Definition sample_draws (_ : text) (n : nat) : N := N.of_nat (7 + n).

Definition sample_run : world -> list fault -> outcome (result InstallError Installation) :=
  Install (t "/") Some sample_draws 1000 sample_digest (fun _ => true) (fun _ _ => t "{}")
    (fun _ => Some [mkCue 1 2]) (fun _ => None) (fun _ => None) (fun _ s => s) sample_installer sample_install.
Definition sample_recover : world -> list fault -> outcome (Z * list InstallError) :=
  RecoverPendingInstalls (t "/") Some sample_digest sample_installer.

Lemma sample_calm : calm (t "/") sample_install sample_world.
Proof.
  split.
  - apply disk_ok_names_dec. by vm_compute.
  - done.
  - by vm_compute.
  - by intros x [= <-].
  - by intros x [= <-].
Qed.

(** Killed after publishing, twice killed while recovering. *)
Definition sample_kill (n : nat) : list fault := replicate n Works ++ [Crash].

Lemma sample_retries : Forall (Forall (tolerated (t "/") sample_install sample_world)) [sample_kill 3; sample_kill 8].
Proof. repeat constructor. Qed.

Lemma install_crash_safe_witness :
  exists n w fs, sample_recover (after (sample_recover (after (sample_recover (after (sample_run sample_world (sample_kill 30)))
      (sample_kill 3))) (sample_kill 8))) [] = Done (n, []) w fs
    /\ idb_pending (w_db w) = ∅.
Proof.
  destruct (install_crash_safe (t "/") Some sample_draws 1000 sample_digest (fun _ => true) (fun _ _ => t "{}")
    (fun _ => Some [mkCue 1 2]) (fun _ => None) (fun _ => None) (fun _ s => s) sample_installer sample_install sample_world
    eq_refl sample_calm (sample_kill 30) [sample_kill 3; sample_kill 8] sample_retries) as (n & w & fs & H & Hp & _).
  exists n, w, fs. split; [exact H|exact Hp].
Defined.

(** The owner edited the sidecar. *)
Definition sample_edited : world :=
  mkWorld (mkDisk (d_names sample_disk) (<[3 := sample_file (t "my own text")]> (d_nodes sample_disk))) sample_db.

Lemma sample_edited_calm : calm (t "/") sample_install sample_edited.
Proof.
  split.
  - apply disk_ok_names_dec. by vm_compute.
  - done.
  - by vm_compute.
  - by intros x [= <-].
  - by intros x [= <-].
Qed.

Lemma sample_edited_foreign : ~ managed (t "/") sample_digest sample_install sample_edited (sample_file (t "my own text")).
Proof. intros (x & [= <-] & _ & _ & H). by vm_compute in H. Qed.

Lemma foreign_subtitle_untouched_witness :
  match sample_run sample_edited [Works; Works] with
  | Done r w _ => w = sample_edited /\ exists e, r = Err e
  | Down w => w = sample_edited
  end.
Proof.
  exact (foreign_subtitle_untouched (t "/") Some sample_draws 1000 sample_digest (fun _ => true) (fun _ _ => t "{}")
    (fun _ => Some [mkCue 1 2]) (fun _ => None) (fun _ => None) (fun _ s => s) sample_installer sample_install
    sample_edited eq_refl sample_edited_calm [Works; Works] (sample_file (t "my own text")) eq_refl sample_edited_foreign).
Defined.

(** ** What the recovery does not survive *)

Definition shows (w : world) (text : text) : bool :=
  existsb (fun kv => bool_decide (f_data <$> d_nodes (w_disk w) !! kv.2 = Some text)) (map_to_list (d_names (w_disk w))).

(** A replacement killed between publishing and recording; one call of the
    recovery fails: the inspection of the copy of the previous subtitle
    ([regularFile] answers the same for a missing file and a failed call). The
    recovery then removes the new subtitle, deletes the copy and settles the
    row: no file holds the previous text any more, and its record still names
    the missing file. *)
Example recovery_loses_copy :
  let interrupted := after (sample_run sample_world (sample_kill 30)) in
  let recovered := after (sample_recover interrupted (replicate 8 Works ++ [Fails Generic])) in
  shows interrupted (t "old text") = true
  /\ shows recovered (t "old text") = false /\ shows recovered (t "new text") = true
  /\ look (w_disk recovered) (t "/tv/Show/e1.en.srt") = None
  /\ idb_pending (w_db recovered) = ∅
  /\ idb_installs (w_db recovered) !! (9, t "en") = Some sample_managed.
Proof. vm_compute. by split_and!. Qed.

(** A reinstall after the sidecar was deleted, of the text the old record still
    names, killed between publishing and recording: the recovery takes it for
    recorded, keeps it under the old record and queues no notification. *)
Definition sample_deleted : world :=
  mkWorld (mkDisk (delete (t "/tv/Show/e1.en.srt") (d_names sample_disk)) (d_nodes sample_disk))
    (with_installs {[ (9, t "en") := relocated (IPath sample_managed) (IMediaPath sample_managed) [] 7
                        (mkInstallation false 9 (t "en") (t "/tv/Show/e1.en.srt") (sample_digest (t "new text"))
                           (t "subsource") (t "c0") [] [] NoScoreJSON (t "{}") [] (t "/tv/Show/e1.mkv") 7 3 100 0 50) ]}
       sample_db).

Theorem unrecorded_reinstall_kept :
  let interrupted := after (sample_run sample_deleted (sample_kill 22)) in
  let recovered := after (sample_recover interrupted []) in
  size (idb_pending (w_db interrupted)) = 1%nat
  /\ idb_pending (w_db recovered) = ∅
  /\ (f_data <$> look (w_disk recovered) (t "/tv/Show/e1.en.srt")) = Some (t "new text")
  /\ idb_installs (w_db recovered) = idb_installs (w_db sample_deleted)
  /\ idb_outbox (w_db recovered) = ∅.
Proof. vm_compute. by split_and!. Qed.
