(* ===== verification/Reconcile.v ===== *)
(** * Settling a record against the media file (src/internal/workflow)

    installation_reconcile.go: before a search uses an installation record, the
    record is settled against the media file it now belongs to. The file may be
    the same under a new Arr file id, the same under a new path (the subtitle
    follows the rename, or is moved after it), or another file, whose subtitle
    is removed within the hourly budget; otherwise the stale record is dropped
    and the file left alone. The files and the database are those of Disk.v, the
    budget is threaded through. *)
From S2P Require Import Prelude GoText GoFloat Domain MatchScore SearchQueue Schedule Workflow Paths Outbox RemovalBudget InstallStore Disk Install Remove.

#[local] Open Scope Z_scope.

Definition reconcileMediaReplaced : text := t "media_replaced".
Definition reconcileMediaRenamed : text := t "media_renamed".
Definition reconcileMissing : text := t "sidecar_missing".
Definition reconcileChanged : text := t "sidecar_changed".
Definition reconcileUnmovable : text := t "sidecar_unmovable".

Inductive sidecarState := sidecarMatches | sidecarChanged | sidecarMissing.

#[export] Instance sidecarState_eq_dec : EqDecision sidecarState.
Proof. solve_decision. Defined.

(** The two values a reconciliation returns. *)
Abbreviation Settlement := (Reconciliation * result InstallError unit)%type.

Definition nothing_done : Reconciliation := mkReconciliation false false false zero_time.
Definition just_changed : Reconciliation := mkReconciliation true false false zero_time.
Definition removed_sidecar : Reconciliation := mkReconciliation true true false zero_time.
Definition deferred_until (at_ : instant) : Reconciliation := mkReconciliation false false true at_.
Definition changed_if (c : bool) : Reconciliation := mkReconciliation c false false zero_time.

(** [errors.Is(err, ErrManagedSubtitleChanged)]. *)
Fixpoint is_managed_changed (e : InstallError) : bool :=
  match e with
  | EManagedChanged => true
  | EJoin causes => existsb is_managed_changed causes
  | _ => false
  end.

Definition sidecarNamedFor (path mediaPath : text) : bool :=
  let path := path_clean path in
  let mediaPath := path_clean mediaPath in
  bool_decide (path_dir path = path_dir mediaPath) && has_prefix (path_stem mediaPath ++ t ".") (path_base path).

Definition arrRescanOnly (names : list text) : list text :=
  if bool_decide (ArrRescanName ∈ names) then [ArrRescanName] else [].

Definition at_path (path : text) (fileID : Z) (inst : Installation) : Installation :=
  relocated path (IMediaPath inst) (IRollbackPath inst) fileID inst.
Definition of_media (path mediaPath : text) (inst : Installation) : Installation :=
  relocated path mediaPath (IRollbackPath inst) (IMediaFileID inst) inst.

Definition for_installation (inst : Installation) (v : RemovalRequest) : RemovalRequest :=
  mkRemoval inst (VMedia v) (VManual v) (VReason v).
Definition removal_of (inst : Installation) (reason : text) (v : RemovalRequest) : RemovalRequest :=
  mkRemoval inst (VMedia v) (VManual v) reason.

Section reconciler.
Context (cwd : text) (eval_symlinks : text -> option text) (now : instant).
Context (checksumBytes : text -> text) (json_valid : text -> bool) (encode_payload : Media -> text -> text).
Context (i : Installer).
Context (random_bytes : list N).

(** ** Looking at sidecars *)

Definition inspectSidecar (path checksum : text) : io sidecarState :=
  on_error (Lstat path) (fun e => match e with ENotExist => okay sidecarMissing | _ => fail e end) (fun _ =>
  on_error (managedFileMatches eval_symlinks checksumBytes path checksum)
    (fun e => if is_managed_changed e then okay sidecarChanged else fail e)
    (fun _ => okay sidecarMatches)).

Definition inMediaFolder (path : text) (mediaPaths : list text) : M bool :=
  mbind (M:=M) (fun r => match r with
    | Err _ => mret false
    | Ok _ =>
        let directory := path_dir (path_clean path) in
        mret (existsb (fun m => negb (bool_decide (m = [])) && bool_decide (path_dir (path_clean m) = directory)) mediaPaths)
    end) (containedDestination cwd eval_symlinks path (MediaRoots i)).

(** ** Records *)

Definition drop_copy (inst : Installation) : M unit :=
  if bool_decide (IRollbackPath inst = []) || negb (has_prefix rollbackPrefix (path_base (IRollbackPath inst)))
  then mret tt
  else
    mbind (M:=M) (fun r => match r with
      | Err _ => mret tt
      | Ok (_, parent) => mbind (M:=M) (fun _ => mret tt) (removeContainedFile cwd (IRollbackPath inst) parent)
      end) (containedDestination cwd eval_symlinks (IRollbackPath inst) (MediaRoots i)).

Definition dropInstallation (inst : Installation) (reason : text) : io unit :=
  try! _ := ctx_err in
  try! _ := transaction (fun db => let! db := DropInstallation now inst reason now db in Ok (db, tt)) in
  mbind (M:=M) (fun _ => okay tt) (drop_copy inst).

Definition rebase_installation (inst : Installation) (path mediaPath : text) : io unit :=
  transaction (fun db => let! db := RebaseInstallation json_valid inst path mediaPath db in Ok (db, tt)).

Definition rebaseWithNotifications (inst : Installation) (path mediaPath : text) (requests : list NotificationRequest)
    : io unit :=
  if bool_decide (requests = []) then rebase_installation inst path mediaPath
  else try! _ := transaction (RebaseInstallationWithNotifications json_valid inst path mediaPath requests) in okay tt.

(** The first candidate named after the media file that is the subtitle. *)
Fixpoint matching_candidate (candidates : list text) (media checksum : text) : io text :=
  match candidates with
  | [] => okay []
  | candidate :: candidates =>
      mbind (M:=M) (fun here : bool =>
        if negb here then matching_candidate candidates media checksum
        else
          try! state := inspectSidecar candidate checksum in
          if bool_decide (state = sidecarMatches) then okay candidate
          else matching_candidate candidates media checksum)
        (if negb (sidecarNamedFor candidate media) then mret false else inMediaFolder candidate [media])
  end.

Definition same_media_path (inst : Installation) (media : text) : bool :=
  negb (bool_decide (IMediaPath inst = [])) && bool_decide (path_clean (IMediaPath inst) = path_clean media).

(** Whether the record was reattached, whether its sidecar is missing, and the
    request with the record as it then is. *)
Definition reattachIdenticalFile (v : RemovalRequest) : io (bool * bool * RemovalRequest) :=
  let inst := VInstallation v in
  let media := FpPath (Fingerprint (VMedia v)) in
  let fileID := RefFileID (MRef (VMedia v)) in
  if (IMediaFileID inst <=? 0) || (IMediaFileID inst =? fileID) || (IMediaSize inst <=? 0)
     || negb (IMediaSize inst =? FpSize (Fingerprint (VMedia v)))
  then okay (false, false, v)
  else
    let attach (path : text) : io (bool * bool * RemovalRequest) :=
      if bool_decide (path = []) then okay (false, false, v)
      else
        try! _ := ctx_err in
        try! _ := transaction (fun db => let! db := ReattachInstallation inst path fileID db in Ok (db, tt)) in
        okay (true, false, for_installation (at_path path fileID inst) v) in
    if same_media_path inst media then
      try! state := inspectSidecar (IPath inst) (IChecksum inst) in
      if bool_decide (state = sidecarMissing) then okay (false, true, v) else attach (IPath inst)
    else
      let candidates := IPath inst :: (if bool_decide (IMediaPath inst = []) then []
                                       else [RebaseSidecarPath (IPath inst) (IMediaPath inst) media]) in
      try! path := matching_candidate candidates media (IChecksum inst) in
      attach path.

(** ** Replaced media files *)

(** What follows a removal that failed: an edited subtitle is the owner's now. *)
Definition removal_failed (inst : Installation) (changed : bool) (e : InstallError) : M Settlement :=
  if is_managed_changed e
  then mbind (M:=M) (fun r => mret (just_changed, r)) (dropInstallation inst reconcileChanged)
  else mret (changed_if changed, Err e).

Definition remove_replaced (v : RemovalRequest) (inst : Installation) (changed : bool) (b : option RemovalBudget)
    : M (Settlement * option RemovalBudget) :=
  mbind (M:=M) (fun r => match r with
    | Ok _ => mret (removed_sidecar, Ok tt, b)
    | Err e => mbind (M:=M) (fun s => mret (s, release now b)) (removal_failed inst changed e)
    end)
    (RemoveManaged cwd eval_symlinks now checksumBytes json_valid encode_payload i random_bytes
       (removal_of inst reconcileMediaReplaced v)).

(** One subtitle of the replaced file, within the budget. *)
Definition settle_match (v : RemovalRequest) (path : text) (b : option RemovalBudget)
    : M (Settlement * option RemovalBudget) :=
  let inst := VInstallation v in
  let '(b, ok) := reserve now b in
  if negb ok then mret (deferred_until (nextSlot now b + removalRetryMargin), Ok tt, b)
  else if bool_decide (path = IPath inst) then remove_replaced v inst false b
  else
    mbind (M:=M) (fun r => match r with
      | Err e => mret (nothing_done, Err e, release now b)
      | Ok _ => remove_replaced v (at_path path (IMediaFileID inst) inst) true b
      end)
      (try! _ := ctx_err in rebase_installation inst path (IMediaPath inst)).

(** [first] is the recorded path; [reason] is why the record would be dropped. *)
Fixpoint settle_candidates (v : RemovalRequest) (replaced first : bool) (candidates : list text) (reason : text)
    (b : option RemovalBudget) : M (Settlement * option RemovalBudget) :=
  let inst := VInstallation v in
  let media := FpPath (Fingerprint (VMedia v)) in
  match candidates with
  | [] => mbind (M:=M) (fun r => mret (just_changed, r, b)) (dropInstallation inst reason)
  | path :: candidates =>
      mbind (M:=M) (fun r => match r with
        | Err e => mret (nothing_done, Err e, b)
        | Ok state =>
            let reason := if first && negb replaced && negb (bool_decide (state = sidecarMissing))
                          then reconcileChanged else reason in
            if negb (bool_decide (state = sidecarMatches)) then settle_candidates v replaced false candidates reason b
            else if first && negb replaced && sidecarNamedFor path media then mret (nothing_done, Ok tt, b)
            else mbind (M:=M) (fun here : bool =>
              if negb here then settle_candidates v replaced false candidates reason b
              else settle_match v path b) (inMediaFolder path [IMediaPath inst; media])
        end) (inspectSidecar path (IChecksum inst))
  end.

Definition settleReplaced (v : RemovalRequest) (b : option RemovalBudget) : M (Settlement * option RemovalBudget) :=
  let inst := VInstallation v in
  let replaced := 0 <? IMediaFileID inst in
  let renamed := RebaseSidecarPath (IPath inst) (IMediaPath inst) (FpPath (Fingerprint (VMedia v))) in
  let candidates := IPath inst :: (if replaced && negb (bool_decide (IMediaPath inst = []))
                                      && negb (bool_decide (renamed = IPath inst)) then [renamed] else []) in
  settle_candidates v replaced true candidates (if replaced then reconcileMediaReplaced else reconcileMissing) b.

(** ** Renamed media files *)

Definition finishing {A} (id : Z) (r : result InstallError A) : io A :=
  mbind (M:=M) (fun _ => mret r) (finishPendingInstall id).

(** A failed move puts the old name back; the row stays when that fails too. *)
Definition undo_move {A} (linked : bool) (source destination sourceParent : text) (id : Z) (cause : InstallError) : io A :=
  mbind (M:=M) (fun undone => match undone with
    | Ok _ => finishing id (Err cause)
    | Err _ => fail cause
    end)
    (if linked then try! _ := removeSameFile eval_symlinks destination source in okay tt
     else restoreRemoved destination source sourceParent).

(** Publishing the sidecar under its new name: whether it was linked, or why the
    move ends. *)
Inductive publication_end := Published (linked : bool) | MoveAppeared | MoveUnmovable | MoveFailed (e : InstallError).

Definition unmovable (e : InstallError) : publication_end :=
  match e with
  | EExist => MoveAppeared
  | EIO CrossDevice | EIO Unsupported => MoveUnmovable
  | _ => MoveFailed e
  end.

Definition publish_move (source destination : text) : M publication_end :=
  mbind (M:=M) (fun r => match r with
    | Ok _ => mret (Published true)
    | Err EExist => mret MoveAppeared
    | Err (EIO CrossDevice) => mret MoveUnmovable
    | Err _ => mbind (M:=M) (fun r => mret (match r with Ok _ => Published false | Err e => unmovable e end))
                 (rename_no_replace source destination)
    end) (Link source destination).

Definition moved_appeared : InstallError := EText (t "renamed sidecar destination appeared during the move").

(** From the commit on: the old name goes, its row too. *)
Definition finish_move (linked : bool) (source destination sourceParent : text) (id : Z) : io unit :=
  on_error (if linked then try! _ := removeSameFile eval_symlinks source destination in okay tt else okay tt)
    (fun _ => okay tt) (fun _ =>
  mbind (M:=M) (fun _ => finishing id (Ok tt)) (syncDirectory sourceParent)).

Definition commit_move (media : Media) (inst : Installation) (linked : bool)
    (source sourceParent destination parent : text) (id : Z) : io unit :=
  let back (m : io unit) (k : io unit) : io unit :=
    on_error m (undo_move linked source destination sourceParent id) (fun _ => k) in
  back (managedFileMatches eval_symlinks checksumBytes destination (IChecksum inst)) (
  back (syncDirectory parent) (
  let mediaPath := FpPath (Fingerprint media) in
  let requests := changeNotificationRequests now checksumBytes encode_payload (t "moved") media
                    (of_media destination mediaPath inst) (arrRescanOnly (changeNotifierNames i media)) in
  back (rebaseWithNotifications inst destination mediaPath requests)
    (finish_move linked source destination sourceParent id))).

Definition moveRenamedSidecar (media : Media) (inst : Installation) (old expected : text) : io unit :=
  try! (destination, parent) := containedDestination cwd eval_symlinks expected (MediaRoots i) in
  mbind (M:=M) (fun here : bool =>
    if negb here then fail (EText (t "renamed sidecar is outside the media folder"))
    else
      try! (source, sourceParent) := containedDestination cwd eval_symlinks old (MediaRoots i) in
      try! info := Lstat source in
      try! _ := ctx_err in
      try! id := beginPendingInstall now (mkPending 0 (IMediaID inst) (ILanguage inst) destination (IChecksum inst) []
                                            source (i_inode info) now) in
      mbind (M:=M) (fun p => match p with
        | Published linked => commit_move media inst linked source sourceParent destination parent id
        | MoveAppeared => finishing id (Err moved_appeared)
        | MoveUnmovable => try! _ := finishing id (Ok tt) in dropInstallation inst reconcileUnmovable
        | MoveFailed e => finishing id (Err e)
        end) (publish_move source destination))
    (inMediaFolder destination [FpPath (Fingerprint media)]).

(** The state at the old name; a subtitle outside the old media folder counts as
    another file. *)
Definition old_state (inst : Installation) (old expected : text) : io sidecarState :=
  if bool_decide (old = expected) then okay sidecarMissing
  else
    try! state := inspectSidecar old (IChecksum inst) in
    if bool_decide (state = sidecarMatches) then
      mbind (M:=M) (fun here : bool => okay (if here then sidecarMatches else sidecarChanged))
        (inMediaFolder old [IMediaPath inst])
    else okay state.

(** The record follows the sidecar Arr moved; a second link at the old name
    goes. *)
Definition follow_moved (inst : Installation) (mediaPath old expected : text) (state : sidecarState) : io unit :=
  try! _ := ctx_err in
  try! _ := rebase_installation inst expected mediaPath in
  if negb (bool_decide (old = expected)) && bool_decide (state = sidecarMatches)
  then mbind (M:=M) (fun _ => okay tt) (removeSameFile eval_symlinks old expected)
  else okay tt.

(** Another file holds the new name: the one left behind goes. *)
Definition remove_left_behind (v : RemovalRequest) (old : text) : M Settlement :=
  let inst := at_path old (IMediaFileID (VInstallation v)) (VInstallation v) in
  mbind (M:=M) (fun r => match r with
    | Err e => mret (nothing_done, Err e)
    | Ok _ =>
        mbind (M:=M) (fun r => match r with
          | Ok _ => mret (mkReconciliation false true false zero_time, Ok tt)
          | Err e => if is_managed_changed e
                     then mbind (M:=M) (fun r => mret (nothing_done, r)) (dropInstallation inst reconcileChanged)
                     else mret (nothing_done, Err e)
          end)
          (RemoveManaged cwd eval_symlinks now checksumBytes json_valid encode_payload i random_bytes
             (removal_of inst reconcileMediaRenamed v))
    end)
    (try! _ := ctx_err in rebase_installation (VInstallation v) old (IMediaPath (VInstallation v))).

Definition plainly (m : io unit) : M Settlement := mbind (M:=M) (fun r => mret (nothing_done, r)) m.

Definition followRename (v : RemovalRequest) : M Settlement :=
  let inst := VInstallation v in
  let media := FpPath (Fingerprint (VMedia v)) in
  let expected := IPath inst in
  let old := RebaseSidecarPath expected media (IMediaPath inst) in
  mbind (M:=M) (fun r => match r with
    | Err e => mret (nothing_done, Err e)
    | Ok (state, oldState) =>
        match state, oldState with
        | sidecarMatches, _ => plainly (follow_moved inst media old expected state)
        | sidecarChanged, sidecarMatches => remove_left_behind v old
        | sidecarChanged, _ =>
            if sidecarNamedFor expected media then plainly (follow_moved inst media old expected state)
            else plainly (dropInstallation inst reconcileChanged)
        | sidecarMissing, sidecarMatches => plainly (moveRenamedSidecar (VMedia v) inst old expected)
        | sidecarMissing, sidecarChanged => plainly (dropInstallation inst reconcileChanged)
        | sidecarMissing, sidecarMissing => plainly (dropInstallation inst reconcileMissing)
        end
    end)
    (try! state := inspectSidecar expected (IChecksum inst) in
     try! oldState := old_state inst old expected in
     okay (state, oldState)).

(** ** The reconciliation *)

Definition settle_same (inst : Installation) (media : text) (reattached : bool) : M Settlement :=
  mbind (M:=M) (fun r => match r with
    | Err e => mret (changed_if reattached, Err e)
    | Ok sidecarMissing => mbind (M:=M) (fun r => mret (just_changed, r)) (dropInstallation inst reconcileMissing)
    | Ok sidecarChanged =>
        if sidecarNamedFor (IPath inst) media then mret (changed_if reattached, Ok tt)
        else mbind (M:=M) (fun r => mret (just_changed, r)) (dropInstallation inst reconcileChanged)
    | Ok sidecarMatches => mret (changed_if reattached, Ok tt)
    end) (inspectSidecar (IPath inst) (IChecksum inst)).

Definition changing (s : Settlement) : Settlement :=
  (mkReconciliation true (RemovedSidecar s.1) (Deferred s.1) (DeferredUntil s.1), s.2).

Definition is_same_file (v : RemovalRequest) : bool :=
  let inst := VInstallation v in
  (0 <? IMediaFileID inst) && (IMediaFileID inst =? RefFileID (MRef (VMedia v)))
  && (IMediaSize inst =? FpSize (Fingerprint (VMedia v))).

Definition ReconcileInstallation (v : RemovalRequest) (b : option RemovalBudget)
    : M (Settlement * option RemovalBudget) :=
  let media := FpPath (Fingerprint (VMedia v)) in
  mbind (M:=M) (fun r : result InstallError (bool * bool * RemovalRequest) => match r with
    | Err e => mret (nothing_done, Err e, b)
    | Ok (reattached, missing, v) =>
        let inst := VInstallation v in
        if missing then mbind (M:=M) (fun r => mret (just_changed, r, b)) (dropInstallation inst reconcileMissing)
        else if is_same_file v then
          mbind (M:=M) (fun s : Settlement => mret (s, b))
            (if negb (bool_decide (IMediaPath inst = []))
                && negb (bool_decide (path_clean (IMediaPath inst) = path_clean media))
             then mbind (M:=M) (fun s : Settlement => mret (changing s)) (followRename v)
             else settle_same inst media reattached)
        else settleReplaced v b
    end) (reattachIdenticalFile v).
End reconciler.
