(* ===== verification/ReconcileSafety.v ===== *)
(** * What a reconciliation may touch

    Under every schedule of faults, ended or killed at any point, settling a
    record changes no file content, no name of a file that is not the managed
    subtitle (its hidden and rollback names apart) and no other record; the
    subtitle of a media file that stayed the same keeps a name; and removals of
    replaced subtitles are counted by the budget. *)
From S2P Require Import Prelude GoText GoFloat Domain MatchScore SearchQueue Schedule Workflow Paths Outbox RemovalBudget InstallStore Disk Install Remove Recovery InstallSpec Reconcile.

#[local] Open Scope Z_scope.

(** ** Paths of sidecars *)

Lemma rooted_join d name : rooted d = true -> rooted (path_join d name) = true.
Proof. intros [s ->]%rooted_split. unfold path_join. by destruct (has_suffix _ _). Qed.

Lemma rebase_clean sidecar oldMedia newMedia :
  clean_path sidecar -> rooted newMedia = true -> clean_path (RebaseSidecarPath sidecar oldMedia newMedia).
Proof.
  intros Hs Hn. unfold RebaseSidecarPath. destruct (negb (bool_decide _)); [done|]. destruct (negb _); [done|].
  apply path_clean_clean, rooted_join, clean_path_rooted. auto with subsync.
Qed.

(** ** Other records *)

Definition same_others (k : Z * Language) (db db' : install_db) : Prop :=
  forall k', k' <> k -> idb_installs db' !! k' = idb_installs db !! k'.

Lemma others_refl k db : same_others k db db.
Proof. done. Qed.

Lemma others_trans k a b c : same_others k a b -> same_others k b c -> same_others k a c.
Proof. intros H1 H2 k' Hk. by rewrite H2, H1. Qed.

Section records.
Context (json_valid : text -> bool) (wall : instant) (x : Installation).

Lemma others_drop reason at_ db db' :
  DropInstallation wall x reason at_ db = Ok db' -> same_others (install_key x) db db'.
Proof.
  unfold DropInstallation. destruct (guarded _ _ _); [|done]. intros [= <-] k Hk. simpl. by rewrite lookup_delete_ne.
Qed.

Lemma others_update f db : same_others (install_key x) db (update_record x f db).
Proof. intros k Hk. simpl. by rewrite lookup_alter_ne. Qed.

Lemma others_enqueue requests db : same_others (install_key x) db (enqueue_in requests db).1.
Proof. intros k Hk. by rewrite enqueue_in_spec. Qed.

Lemma others_rebase_notifying path mediaPath requests db db' r :
  RebaseInstallationWithNotifications json_valid x path mediaPath requests db = Ok (db', r) ->
  same_others (install_key x) db db'.
Proof.
  unfold RebaseInstallationWithNotifications. destruct (negb _); [done|]. destruct (guarded _ _ _); [|done].
  intros [= E%(f_equal fst)]. cbn in E. subst db'. eapply others_trans; [apply others_update|apply others_enqueue].
Qed.

Lemma others_rebase path mediaPath db db' :
  RebaseInstallation json_valid x path mediaPath db = Ok db' -> same_others (install_key x) db db'.
Proof.
  unfold RebaseInstallation. destruct (RebaseInstallationWithNotifications _ _ _ _ _ _) as [[db1 r]|] eqn:E; [|done].
  intros [= <-]. by eapply others_rebase_notifying.
Qed.

Lemma others_reattach path fileID db db' :
  ReattachInstallation x path fileID db = Ok db' -> same_others (install_key x) db db'.
Proof.
  unfold ReattachInstallation. destruct (guarded _ _ _); [|done]. intros [= <-]. apply others_update.
Qed.

Lemma others_remove h at_ requests db db' r :
  RemoveInstallation json_valid wall x h at_ requests db = Ok (db', r) -> same_others (install_key x) db db'.
Proof.
  unfold RemoveInstallation. destruct (negb _); [done|]. destruct (guarded _ _ _); [|done].
  unfold insert_history. destruct (idb_media _ !! _); [|done]. cbn [rbind]. intros [= E%(f_equal fst)] k Hk.
  cbn in E. subst db'. rewrite enqueue_in_spec. simpl. by rewrite lookup_delete_ne.
Qed.

Lemma others_begin p db db' id : BeginPendingInstall wall p db = Ok (db', id) -> same_others (install_key x) db db'.
Proof. unfold BeginPendingInstall. destruct (_ || _); [done|]. by intros [= <- _]. Qed.
End records.

(** ** Programs that keep an invariant *)

Section keeps.
(** What holds at every moment, and what a transaction may do. *)
Context (I : world -> Prop) (D : install_db -> install_db -> Prop).

Definition keeps {A} (m : M A) (R : A -> Prop) : Prop :=
  forall w, I w -> wp any_fault m (fun a w' => I w' /\ R a) I w.

Lemma keeps_weaken {A} (m : M A) (R S : A -> Prop) : keeps m R -> (forall a, R a -> S a) -> keeps m S.
Proof. intros H HR w Hw. eapply wp_mono; [by apply H| |done]. intros a w' []. auto. Qed.

Lemma keeps_any {A} (m : M A) (R : A -> Prop) : keeps m R -> keeps m trivially.
Proof. intros H. by eapply keeps_weaken. Qed.

Lemma keeps_ret {A} (a : A) (R : A -> Prop) : R a -> keeps (mret a) R.
Proof. intros H w Hw. by apply wp_ret. Qed.

Lemma keeps_bind {A B} (m : M A) (k : A -> M B) (R : A -> Prop) (S : B -> Prop) :
  keeps m R -> (forall a, R a -> keeps (k a) S) -> keeps (mbind k m) S.
Proof.
  intros Hm Hk w Hw. apply wp_bind. eapply wp_mono; [by apply Hm| |done]. intros a w' [Hw' Ha]. by apply Hk.
Qed.

Lemma keeps_otherwise {A B} (m : io A) (k : A -> io B) (R : result InstallError A -> Prop) (S : result InstallError B -> Prop) :
  keeps m R -> (forall a, R (Ok a) -> keeps (k a) S) -> (forall e, R (Err e) -> S (Err e)) -> keeps (otherwise m k) S.
Proof.
  intros Hm Hk He. eapply keeps_bind; [exact Hm|]. intros [a|e] Ha; [by apply Hk|by apply keeps_ret, He].
Qed.

Lemma keeps_looks {A} (m : M A) (R : A -> Prop) : (forall w, I w -> looks any_fault m R w) -> keeps m R.
Proof. intros H w Hw. eapply wp_looks; [by apply H|by intros|by intros]. Qed.

Lemma keeps_query {A} (f : world -> result InstallError A) : keeps (query f) trivially.
Proof. apply keeps_looks. auto with subsync. Qed.

Lemma keeps_ctx : keeps ctx_err trivially.
Proof. apply keeps_looks. intros w _. by apply looks_ctx. Qed.

Lemma keeps_change {A} (f : disk -> result InstallError (A * disk)) :
  (forall w a d, I w -> f (w_disk w) = Ok (a, d) -> I (on_disk d w)) -> keeps (change f) trivially.
Proof.
  intros H w Hw. apply wp_change; [|done..]. destruct (f (w_disk w)) as [[a d]|e] eqn:E; [|done].
  split; [by eapply H|done].
Qed.

Context (Hdb : forall w db, I w -> D (w_db w) db -> I (in_db db w)).

Lemma keeps_transaction {A} (f : install_db -> result StoreError (install_db * A)) :
  (forall db db' a, f db = Ok (db', a) -> D db db') -> keeps (transaction f) trivially.
Proof.
  intros H w Hw. apply wp_transaction; [|done..]. destruct (f (w_db w)) as [[db a]|e] eqn:E; [|done].
  split; [|done]. apply Hdb; [done|by eapply H].
Qed.

Context (Hfinish : forall db id, D db (FinishPendingInstall id db)).

Lemma keeps_finish id : keeps (finishPendingInstall id) trivially.
Proof.
  unfold finishPendingInstall. destruct (id =? 0); [by apply keeps_ret|].
  eapply keeps_bind; [apply keeps_transaction|by intros; apply keeps_ret]. by intros db db' a [= <- _].
Qed.

Lemma keeps_finishing {A} id (r : result InstallError A) : keeps (finishing id r) trivially.
Proof. eapply keeps_bind; [apply keeps_finish|]. by intros; apply keeps_ret. Qed.

Lemma keeps_sync dir : keeps (syncDirectory dir) trivially.
Proof.
  eapply keeps_otherwise; [apply keeps_query| |done]. intros. apply keeps_query.
Qed.

Lemma keeps_inject i stage : keeps (inject i stage) trivially.
Proof. unfold inject. destruct (FaultAt i stage); by apply keeps_ret. Qed.

Lemma keeps_collect (m : io unit) : keeps m trivially -> keeps (collect m) trivially.
Proof. intros H. eapply keeps_bind; [exact H|]. by intros; apply keeps_ret. Qed.
End keeps.

(** From a state of [P] on, every moment is a state of [I]. *)
Section settling.
Context (P I : world -> Prop) (HPI : forall w, P w -> I w).

Definition settling {A} (m : M A) : Prop := forall w, P w -> wp any_fault m (fun _ => I) I w.

Lemma settling_keeps {A} (m : M A) (R : A -> Prop) : keeps I m R -> settling m.
Proof. intros H w Hw. eapply wp_mono; [by apply H, HPI|by intros a w' []|done]. Qed.

Lemma settling_ret {A} (a : A) : settling (mret a).
Proof. intros w Hw. by apply wp_ret, HPI. Qed.

Lemma settling_bind {A B} (m : M A) (k : A -> M B) (R : A -> Prop) :
  keeps P m R -> (forall a, R a -> settling (k a)) -> settling (mbind k m).
Proof.
  intros Hm Hk w Hw. apply wp_bind. eapply wp_mono; [by apply Hm| |apply HPI].
  intros a w' [Hw' Ha]. by apply Hk.
Qed.

Lemma settling_otherwise {A B} (m : io A) (k : A -> io B) (R : result InstallError A -> Prop) :
  keeps P m R -> (forall a, R (Ok a) -> settling (k a)) -> settling (otherwise m k).
Proof. intros Hm Hk. eapply settling_bind; [exact Hm|]. intros [a|e] H; [by apply Hk|apply settling_ret]. Qed.

Lemma settling_map {A B} (m : M A) (f : A -> B) : settling m -> settling (mbind (fun a => mret (f a)) m).
Proof. intros H w Hw. apply wp_bind. eapply wp_mono; [by apply H| |done]. intros a w' Hw'. by apply wp_ret. Qed.
End settling.

(** ** What looking at a sidecar tells *)

Section look.
Context (cwd : text) (eval_symlinks : text -> option text) (checksumBytes : text -> text).

(** A regular file with the recorded checksum. *)
Definition managed_as (checksum : text) (n : node) : Prop := f_kind n = Regular /\ checksumBytes (f_data n) = checksum.

Definition shows_managed (w : world) (path checksum : text) : Prop :=
  exists n, look (w_disk w) path = Some n /\ managed_as checksum n.

(** A call fails with an error of the system. *)
Lemma looks_lstat_errors path w :
  looks any_fault (Lstat path) (fun r => match r with
    | Ok info => info_of (w_disk w) path = Some info
    | Err e => e = ENotExist /\ info_of (w_disk w) path = None \/ exists x, e = EIO x
    end) w.
Proof.
  apply looks_query; [|intros e _; right; by eexists]. destruct (info_of _ path); [done|by left].
Qed.

Lemma looks_read_errors path n w :
  look (w_disk w) path = Some n -> f_kind n = Regular ->
  looks any_fault (ReadFile eval_symlinks path) (fun r => match r with
    | Ok x => x = f_data n
    | Err e => exists x, e = EIO x
    end) w.
Proof.
  intros Hn Hk. apply looks_query; [|intros e _; by eexists]. rewrite Hn, bool_decide_false by congruence.
  unfold readable. by rewrite bool_decide_true.
Qed.

Lemma info_look_none d p : info_of d p = None -> look d p = None.
Proof.
  unfold info_of, look. destruct (d_names d !! p) as [ino|]; [|done]. cbn. by destruct (d_nodes d !! ino).
Qed.

Lemma looks_matches path checksum w :
  looks any_fault (managedFileMatches eval_symlinks checksumBytes path checksum) (fun r => match r with
    | Ok _ => shows_managed w path checksum
    | Err e => is_managed_changed e = true -> checksum <> [] -> ~ shows_managed w path checksum
    end) w.
Proof.
  unfold managedFileMatches. eapply looks_bind; [apply looks_lstat_errors|]. intros [info|e]; cbn beta.
  - intros [Hl _]%look_info. unfold is_regular. destruct (decide (f_kind (i_node info) = Regular)) as [Hk|Hk].
    + rewrite bool_decide_true by done. cbn [negb].
      eapply looks_otherwise; [by eapply looks_read_errors|..]; cbn beta; [|by intros e [x ->]].
      intros payload ->. destruct (decide (checksum = [])) as [->|Hc]; [by apply looks_ret|].
      rewrite (bool_decide_false (checksum = [])) by done. cbn [orb].
      destruct (decide (checksumBytes (f_data (i_node info)) = checksum)) as [E|E].
      * rewrite bool_decide_true by done. apply looks_ret. by exists (i_node info).
      * rewrite bool_decide_false by done. apply looks_ret. intros _ _ (n & Hn & _ & Hm). congruence.
    + rewrite bool_decide_false by done. apply looks_ret. intros _ _ (n & Hn & Hk' & _). congruence.
  - intros [[-> Hn%info_look_none]|[x ->]]; apply looks_ret; [|done]. intros _ _ (n & ? & _). congruence.
Qed.

Lemma looks_inspect path checksum w :
  looks any_fault (inspectSidecar eval_symlinks checksumBytes path checksum) (fun r => match r with
    | Ok sidecarMatches => shows_managed w path checksum
    | Ok sidecarChanged => is_Some (look (w_disk w) path) /\ (checksum <> [] -> ~ shows_managed w path checksum)
    | Ok sidecarMissing => look (w_disk w) path = None
    | Err _ => True
    end) w.
Proof.
  unfold inspectSidecar. eapply looks_bind; [apply looks_lstat_errors|]. intros [info|e]; cbn beta.
  - intros [Hl _]%look_info. eapply looks_bind; [apply looks_matches|]. intros [[]|e]; cbn beta; [by intros; apply looks_ret|].
    intros H. destruct (is_managed_changed e); apply looks_ret; [|done]. split; [by eexists|by apply H].
  - intros [[-> Hn%info_look_none]|[x ->]]; by apply looks_ret.
Qed.

Lemma looks_in_folder i path mediaPaths w :
  looks any_fault (inMediaFolder cwd eval_symlinks i path mediaPaths) trivially w.
Proof.
  unfold inMediaFolder. eapply looks_bind; [apply looks_contained|]. intros [dp|e] _; by apply looks_ret.
Qed.

Lemma looks_contained_path path roots w :
  looks any_fault (containedDestination cwd eval_symlinks path roots) (fun r => match r with
    | Ok dp => dp = (path_abs cwd path, path_dir (path_abs cwd path))
    | Err _ => True
    end) w.
Proof. eapply looks_mono; [apply looks_contained|]. intros [dp|e]; [by intros []|done]. Qed.
(** Two names of one file: at most the first goes. *)
Lemma wp_same_file path other w (Q : result InstallError bool -> world -> Prop) (C : world -> Prop) :
  (forall r, Q r w) ->
  (forall ino, d_names (w_disk w) !! path = Some ino -> d_names (w_disk w) !! other = Some ino -> path <> other ->
     Q (Ok true) (on_disk (unlink path (w_disk w)) w)) ->
  C w -> wp any_fault (removeSameFile eval_symlinks path other) Q C w.
Proof.
  intros HQ HR HC. unfold removeSameFile. apply wp_bind.
  eapply wp_looks; [apply looks_lstat| |done]. intros [info|e] H1; [|by destruct e; apply wp_ret].
  apply wp_otherwise. eapply wp_looks; [apply looks_lstat| |done]. intros [info'|e] H2; [|done].
  apply look_info in H1 as [_ H1]. apply look_info in H2 as [_ H2].
  destruct (negb (is_regular info) || negb (SameFile info info')) eqn:Es; [by apply wp_ret|].
  apply orb_false_iff in Es as [_ Es%negb_false_iff%Z.eqb_eq].
  apply wp_otherwise, wp_query; [|done..]. destruct (_ || _) eqn:Ec; [by apply wp_ret|].
  apply orb_false_iff in Ec as [Ec%bool_decide_eq_false _].
  apply wp_otherwise. eapply wp_looks with (R := trivially); [| |done].
  - unfold distinctEntries. eapply looks_otherwise; [apply looks_query_any| |done]. intros a _.
    eapply looks_otherwise; [apply looks_query_any| |done]. intros b _.
    destruct (negb _); [by apply looks_ret|apply looks_query_any].
  - intros [[]|e] _; [|by apply wp_ret|done]. apply wp_otherwise, wp_remove; [done| |done..].
    intros _. apply wp_ret. eapply HR; [done|by rewrite H2, Es|congruence].
Qed.
End look.

(** ** Records and moves under any invariant of the files *)

Section programs.
Context (cwd : text) (eval_symlinks : text -> option text) (now : instant).
Context (checksumBytes : text -> text) (json_valid : text -> bool) (encode_payload : Media -> text -> text).
Context (i : Installer).
Context (I : world -> Prop) (k : Z * Language).
Context (Hdb : forall w db, I w -> same_others k (w_db w) db -> I (in_db db w)).

#[local] Abbreviation keeps := (keeps I).
#[local] Abbreviation drop := (dropInstallation cwd eval_symlinks now i).
#[local] Abbreviation drop_copy := (drop_copy cwd eval_symlinks i).

Lemma keeps_settle id : keeps (finishPendingInstall id) trivially.
Proof. by apply (keeps_finish _ _ Hdb). Qed.

Lemma keeps_settling {A} id (r : result InstallError A) : keeps (finishing id r) trivially.
Proof. by apply (keeps_finishing _ _ Hdb). Qed.

Lemma keeps_records {A} (f : install_db -> result StoreError (install_db * A)) :
  (forall db db' a, f db = Ok (db', a) -> same_others k db db') -> keeps (transaction f) trivially.
Proof. by apply (keeps_transaction _ _ Hdb). Qed.

Lemma plain_transaction {E} (f : install_db -> result E install_db) db db' a :
  (let! d := f db in Ok (d, tt)) = Ok (db', a) -> f db = Ok db'.
Proof. destruct (f db); [by intros [= -> _]|done]. Qed.

Lemma keeps_drop x reason : install_key x = k -> keeps (drop_copy x) trivially -> keeps (drop x reason) trivially.
Proof.
  intros Hx Hc. eapply keeps_otherwise; [apply keeps_ctx| |done]. intros _ _.
  eapply keeps_otherwise; [apply keeps_records| |done].
  - intros db db' a H%plain_transaction. rewrite <- Hx. by eapply others_drop.
  - intros _ _. eapply keeps_bind; [exact Hc|]. by intros; apply keeps_ret.
Qed.

Lemma keeps_rebase x path mediaPath :
  install_key x = k -> keeps (rebase_installation json_valid x path mediaPath) trivially.
Proof.
  intros Hx. apply keeps_records. intros db db' a H%plain_transaction. rewrite <- Hx. by eapply others_rebase.
Qed.

Lemma keeps_rebase_now x path mediaPath :
  install_key x = k -> keeps (try! _ := ctx_err in rebase_installation json_valid x path mediaPath) trivially.
Proof. intros Hx. eapply keeps_otherwise; [apply keeps_ctx|by intros; apply keeps_rebase|done]. Qed.

Lemma keeps_rebase_notifying x path mediaPath requests :
  install_key x = k -> keeps (rebaseWithNotifications json_valid x path mediaPath requests) trivially.
Proof.
  intros Hx. unfold rebaseWithNotifications. destruct (bool_decide _); [by apply keeps_rebase|].
  eapply keeps_otherwise; [apply keeps_records|by intros; apply keeps_ret|done].
  rewrite <- Hx. intros db db' a. apply others_rebase_notifying.
Qed.

(** A move between two names: [G] is what publishing the new one gives. *)
Section move.
Context (x : Installation) (old expected : text) (G : Prop).
Context (Hx : install_key x = k) (Hold : clean_path old) (Hexpected : clean_path expected).
Context (Hcopy : keeps (drop_copy x) trivially).
Context (Hpublish : keeps (publish_move old expected) (fun p => match p with Published _ => G | _ => True end)).
Context (Hforward : keeps (removeSameFile eval_symlinks old expected) trivially).
Context (Hback : G -> keeps (removeSameFile eval_symlinks expected old) trivially).
Context (Hrestore : forall parent, G -> keeps (restoreRemoved expected old parent) trivially).

Lemma keeps_undo_move {A} linked parent id cause :
  G -> keeps (undo_move (A:=A) eval_symlinks linked old expected parent id cause) trivially.
Proof.
  intros HG. eapply keeps_bind with (R := trivially).
  - destruct linked; [|by apply Hrestore]. eapply keeps_otherwise; [by apply Hback|by intros; apply keeps_ret|done].
  - intros [] _; [apply keeps_settling|by apply keeps_ret].
Qed.

Lemma keeps_commit_move media linked parent parent' id :
  G -> keeps (commit_move eval_symlinks now checksumBytes json_valid encode_payload i media x linked old parent expected parent' id) trivially.
Proof.
  intros HG. unfold commit_move.
  assert (forall (m k : io unit), keeps m trivially -> keeps k trivially ->
    keeps (on_error m (undo_move eval_symlinks linked old expected parent id) (fun _ => k)) trivially) as Hstep.
  { intros m k0 Hm Hk. eapply keeps_bind; [exact Hm|]. intros [] _; [done|by apply keeps_undo_move]. }
  apply Hstep; [|apply Hstep; [apply keeps_sync|apply Hstep; [by apply keeps_rebase_notifying|]]].
  - apply keeps_looks. intros w _. eapply looks_mono; [apply looks_matches|done].
  - eapply keeps_bind with (R := trivially).
    + destruct linked; [|by apply keeps_ret]. eapply keeps_otherwise; [exact Hforward|by intros; apply keeps_ret|done].
    + intros [] _; [|by apply keeps_ret].
      eapply keeps_bind; [apply keeps_sync|]. intros. apply keeps_settling.
Qed.

Lemma keeps_move_renamed media :
  keeps (moveRenamedSidecar cwd eval_symlinks now checksumBytes json_valid encode_payload i media x old expected) trivially.
Proof.
  unfold moveRenamedSidecar.
  eapply keeps_otherwise; [by apply keeps_looks; intros; apply looks_contained_path| |done]. intros dp ->.
  rewrite (path_abs_id cwd expected Hexpected).
  eapply keeps_bind; [apply keeps_looks; intros; apply looks_in_folder|]. intros [] _; cbn [negb]; [|by apply keeps_ret].
  eapply keeps_otherwise; [by apply keeps_looks; intros; apply looks_contained_path| |done]. intros dp ->.
  rewrite (path_abs_id cwd old Hold).
  eapply keeps_otherwise; [apply keeps_query| |done]. intros info _.
  eapply keeps_otherwise; [apply keeps_ctx| |done]. intros _ _.
  eapply keeps_otherwise; [apply keeps_records| |done].
  { rewrite <- Hx. intros db db' id. apply others_begin. }
  intros id _. eapply keeps_bind; [exact Hpublish|]. intros [linked| | |e].
  - by apply keeps_commit_move.
  - intros _. apply keeps_settling.
  - intros _. eapply keeps_otherwise; [apply keeps_settling|by intros; apply keeps_drop|done].
  - intros _. apply keeps_settling.
Qed.

Lemma keeps_follow_moved mediaPath state :
  keeps (follow_moved eval_symlinks json_valid x mediaPath old expected state) trivially.
Proof.
  unfold follow_moved. eapply keeps_otherwise; [apply keeps_ctx| |done]. intros _ _.
  eapply keeps_otherwise; [by apply keeps_rebase| |done]. intros _ _.
  destruct (_ && _); [|by apply keeps_ret]. eapply keeps_bind; [exact Hforward|]. by intros; apply keeps_ret.
Qed.
End move.
End programs.

Lemma for_same v : v = for_installation (VInstallation v) v.
Proof. by destruct v. Qed.

(** ** Files that are not the managed subtitle *)

Section untouched.
Context (cwd : text) (eval_symlinks : text -> option text) (now : instant).
Context (checksumBytes : text -> text) (json_valid : text -> bool) (encode_payload : Media -> text -> text).
Context (i : Installer) (random_bytes : list N).
Context (v : RemovalRequest) (w0 : world).

#[local] Abbreviation record := (VInstallation v).
#[local] Abbreviation copy := (path_abs cwd (IRollbackPath record)).
#[local] Abbreviation key := (install_key record).
#[local] Abbreviation managed := (managed_as checksumBytes (IChecksum record)).

(** The hidden name a removal draws in a directory. *)
Definition hidden_name (parent : text) : text := path_clean (path_join parent (removalPrefix ++ hex random_bytes)).

(** A name that carried nothing, the managed subtitle or the record's copy. *)
Definition expendable (p : text) : Prop := forall n, look (w_disk w0) p = Some n -> managed n \/ p = copy.

Record intact (w : world) : Prop := {
  intact_ok : disk_ok (w_disk w);
  intact_nodes : d_nodes (w_disk w) = d_nodes (w_disk w0);
  intact_names : forall p, expendable p \/ d_names (w_disk w) !! p = d_names (w_disk w0) !! p;
  intact_records : same_others key (w_db w0) (w_db w);
}.

Context (Hcwd : rooted cwd = true) (Hok : disk_ok (w_disk w0)).
Context (Hhidden : forall parent, clean_path parent -> d_names (w_disk w0) !! hidden_name parent = None).
Context (Hpath : clean_path (IPath record)).
Context (Hmedia : rooted (FpPath (Fingerprint (VMedia v))) = true).
Context (Hold : IMediaPath record <> [] -> rooted (IMediaPath record) = true).

Lemma intact_start : intact w0.
Proof. split; [done|done|by right|done]. Qed.

Lemma intact_db w db : intact w -> same_others key (w_db w) db -> intact (in_db db w).
Proof. intros [H1 H2 H3 H4] H. split; [done..|]. by eapply others_trans. Qed.

(** A step that changes expendable names only. *)
Lemma intact_disk w d :
  intact w -> disk_ok d -> d_nodes d = d_nodes (w_disk w) ->
  (forall p, expendable p \/ d_names d !! p = d_names (w_disk w) !! p) -> intact (on_disk d w).
Proof.
  intros [H1 H2 H3 H4] Hd Hn Hp. split; [done|by rewrite <- H2| |done].
  intros p. destruct (Hp p) as [?|E]; [by left|]. destruct (H3 p) as [?|E']; [by left|]. right. simpl. by rewrite E.
Qed.

Lemma expendable_absent w p : intact w -> look (w_disk w) p = None -> expendable p.
Proof.
  intros Hw Hn. destruct (intact_names _ Hw p) as [?|E]; [done|]. intros n Hl.
  unfold look in *. by rewrite E, (intact_nodes _ Hw), Hl in Hn.
Qed.

Lemma expendable_free p : d_names (w_disk w0) !! p = None -> expendable p.
Proof. intros H n. unfold look. by rewrite H. Qed.

Lemma expendable_shown w p : intact w -> shows_managed checksumBytes w p (IChecksum record) -> expendable p.
Proof.
  intros Hw (n & Hn & Hm). destruct (intact_names _ Hw p) as [?|E]; [done|]. intros n' Hl.
  unfold look in *. rewrite E, (intact_nodes _ Hw), Hl in Hn. left. congruence.
Qed.

Lemma expendable_copy : expendable copy.
Proof. intros n _. by right. Qed.

#[local] Abbreviation safe := (keeps intact).
Let Hdb := intact_db.

Lemma safe_remove p : expendable p -> safe (Remove p) trivially.
Proof.
  intros He. apply keeps_change. intros w [] d Hw. destruct (d_names _ !! p); [|done]. intros [= <-].
  apply intact_disk; [done|apply disk_ok_unlink, Hw|done|]. intros q. simpl.
  destruct (decide (q = p)) as [->|]; [by left|right]. by rewrite lookup_delete_ne.
Qed.

Lemma intact_rename old new w d u :
  intact w -> expendable old -> expendable new -> rename_entry old new (w_disk w) = Ok (u, d) -> intact (on_disk d w).
Proof.
  intros Hw Ho Hn Hr. pose proof (disk_ok_rename _ _ _ _ _ (intact_ok _ Hw) Hr) as Hd. revert Hr.
  unfold rename_entry. destruct (d_names (w_disk w) !! old) as [ino|]; [|done].
  assert (forall d', d_names d' = <[new := ino]> (delete old (d_names (w_disk w))) ->
    forall p, expendable p \/ d_names d' !! p = d_names (w_disk w) !! p) as Hnames.
  { intros d' -> p. destruct (decide (p = new)) as [->|]; [by left|]. destruct (decide (p = old)) as [->|]; [by left|].
    right. by rewrite lookup_insert_ne, lookup_delete_ne. }
  destruct (bool_decide _); [intros [= _ <-]; apply intact_disk; [done..|by right]|].
  destruct (look _ new); [destruct (bool_decide _); [done|]|]; intros [= _ <-]; apply intact_disk; auto.
Qed.

Lemma safe_rename old new : expendable old -> expendable new -> safe (Rename old new) trivially.
Proof. intros Ho Hn. apply keeps_change. intros w u d Hw. by apply intact_rename. Qed.

Lemma intact_link old new w d u :
  intact w -> link_entry old new (w_disk w) = Ok (u, d) -> intact (on_disk d w) /\ expendable new.
Proof.
  intros Hw Hr. pose proof (disk_ok_link _ _ _ _ _ (intact_ok _ Hw) Hr) as Hd. revert Hr.
  unfold link_entry. destruct (d_names _ !! old) as [ino|]; [|done]. destruct (d_names _ !! new) eqn:E; [done|].
  intros [= _ <-]. assert (expendable new) as Hn.
  { eapply expendable_absent; [done|]. unfold look. by rewrite E. }
  split; [|done]. apply intact_disk; [done..|]. intros p. simpl.
  destruct (decide (p = new)) as [->|]; [by left|right]. by rewrite lookup_insert_ne.
Qed.

Lemma safe_link old new :
  safe (Link old new) (fun r => match r with Ok _ => expendable new | Err _ => True end).
Proof.
  intros w Hw. apply wp_change; [|done..]. destruct (link_entry old new (w_disk w)) as [[u d]|e] eqn:E; [|done].
  by eapply intact_link.
Qed.

Lemma safe_rename_no_replace old new : expendable old ->
  safe (rename_no_replace old new) (fun r => match r with Ok _ => expendable new | Err _ => True end).
Proof.
  intros Ho w Hw. apply wp_change; [|done..]. destruct (d_names (w_disk w) !! new) eqn:E; [done|].
  assert (expendable new) as Hn.
  { eapply expendable_absent; [done|]. unfold look. by rewrite E. }
  destruct (rename_entry old new (w_disk w)) as [[u d]|e] eqn:Er; [|done]. split; [exact (intact_rename _ _ _ _ _ Hw Ho Hn Er)|done].
Qed.

Lemma safe_remove_contained p parent : expendable (path_abs cwd p) -> safe (removeContainedFile cwd p parent) trivially.
Proof.
  intros He w Hw. apply wp_remove_contained_any; [done| |done]. split; [|done].
  apply intact_disk; [done|apply disk_ok_unlink, Hw|done|]. intros q. simpl.
  destruct (decide (q = path_abs cwd p)) as [->|]; [by left|right]. by rewrite lookup_delete_ne.
Qed.

Lemma safe_restore hidden destination parent :
  expendable hidden -> expendable destination -> safe (restoreRemoved hidden destination parent) trivially.
Proof.
  intros Hh Hd. unfold restoreRemoved.
  eapply keeps_bind; [eapply keeps_any, safe_link|]. intros [u|e] _.
  - eapply keeps_otherwise; [by apply safe_remove|by intros; apply keeps_sync|done].
  - assert (safe (mbind (M:=M) (fun r => match r with
          | Err ENotExist => try! _ := Rename hidden destination in syncDirectory parent
          | _ => fail recreated
          end) (Lstat destination)) trivially) as Hr.
    { eapply keeps_bind; [apply keeps_query|]. intros [info|[]] _; try by apply keeps_ret.
      eapply keeps_otherwise; [by apply safe_rename|by intros; apply keeps_sync|done]. }
    destruct e; try exact Hr. by apply keeps_ret.
Qed.

Lemma intact_unlink w p : intact w -> expendable p -> intact (on_disk (unlink p (w_disk w)) w).
Proof.
  intros Hw He. apply intact_disk; [done|apply disk_ok_unlink, Hw|done|]. intros q. simpl.
  destruct (decide (q = p)) as [->|]; [by left|right]. by rewrite lookup_delete_ne.
Qed.

Lemma safe_same_file path other : expendable path -> safe (removeSameFile eval_symlinks path other) trivially.
Proof. intros He w Hw. apply wp_same_file; [done| |done]. intros. split; [by apply intact_unlink|done]. Qed.

(** ** Removals *)

(** A record of the same subtitle, wherever it is. *)
Definition same_subtitle (x : Installation) : Prop :=
  install_key x = key /\ IChecksum x = IChecksum record /\ IRollbackPath x = IRollbackPath record.

Lemma same_at path fileID x : same_subtitle x -> same_subtitle (at_path path fileID x).
Proof. done. Qed.

Lemma safe_matches path x : same_subtitle x ->
  safe (managedFileMatches eval_symlinks checksumBytes path (IChecksum x))
    (fun r => match r with Ok _ => expendable path | Err _ => True end).
Proof.
  intros (_ & -> & _). apply keeps_looks. intros w Hw. eapply looks_mono; [apply looks_matches|].
  intros [[]|e]; [|done]. by apply expendable_shown.
Qed.

Lemma hidden_expendable parent : clean_path parent -> expendable (hidden_name parent).
Proof. intros Hp. by apply expendable_free, Hhidden. Qed.

Lemma safe_restore_removed hidden destination parent id cause :
  expendable hidden -> expendable destination ->
  safe (restore_removed hidden destination parent id cause) trivially.
Proof.
  intros Hh Hd. eapply keeps_bind; [by apply safe_restore|]. intros [] _; [|by apply keeps_ret].
  eapply keeps_bind; [by apply (keeps_settle intact key)|]. by intros; apply keeps_ret.
Qed.

Lemma safe_leftovers parent rollback id :
  clean_path parent -> rollback = [] \/ rollback = copy ->
  safe (remove_leftovers cwd i (hidden_name parent) rollback parent id) trivially.
Proof.
  intros Hp Hr. unfold remove_leftovers. eapply keeps_bind; [apply keeps_inject|]. intros [] _; [|by apply keeps_ret].
  eapply keeps_bind.
  { apply keeps_collect, safe_remove_contained. rewrite path_abs_id; [by apply hidden_expendable|].
    by apply path_clean_clean, rooted_join, clean_path_rooted. }
  intros e1 _. eapply keeps_bind with (R := trivially).
  { destruct (bool_decide (rollback = [])) eqn:E; [by apply keeps_ret|]. apply bool_decide_eq_false in E.
    destruct Hr as [?| ->]; [done|]. apply keeps_collect, safe_remove_contained.
    rewrite (path_abs_id cwd copy) by (by apply path_abs_clean). apply expendable_copy. }
  intros e2 _. destruct (e1 ++ e2); [|by apply keeps_ret].
  eapply keeps_bind; [apply keeps_sync|]. intros _ _.
  eapply keeps_bind; [by apply (keeps_settle intact key)|]. by intros; apply keeps_ret.
Qed.

Lemma safe_remove_managed x reason : same_subtitle x ->
  safe (RemoveManaged cwd eval_symlinks now checksumBytes json_valid encode_payload i random_bytes
          (removal_of x reason v)) trivially.
Proof.
  intros Hx. unfold RemoveManaged. cbn [VInstallation removal_of]. destruct (_ || _); [by apply keeps_ret|].
  eapply keeps_otherwise; [by apply keeps_looks; intros; apply looks_contained_path| |done]. intros dp ->.
  set (destination := path_abs cwd (IPath x)). set (parent := path_dir destination).
  assert (clean_path parent) as Hp.
  { apply path_dir_clean, clean_path_rooted, path_abs_clean, Hcwd. }
  eapply keeps_otherwise; [by apply safe_matches| |done]. intros [] Hd.
  eapply keeps_otherwise with (R := fun r => match r with Ok h => h = hidden_name parent | Err _ => True end).
  { by apply keeps_looks; intros; apply looks_query. }
  2: done. intros hidden ->. pose proof (hidden_expendable parent Hp) as Hh.
  eapply keeps_otherwise; [apply keeps_ctx| |done]. intros _ _.
  eapply keeps_otherwise; [apply (keeps_records intact key Hdb)| |done].
  { rewrite <- (proj1 Hx). intros db db' id. apply others_begin. }
  intros id _. eapply keeps_bind; [by apply safe_rename|]. intros [[]|e] _.
  2: { eapply keeps_bind; [by apply (keeps_settle intact key)|]. by intros; apply keeps_ret. }
  assert (forall A (m : io A) (k : A -> io unit), safe m trivially -> (forall a, safe (k a) trivially) ->
    safe (on_error m (restore_removed (hidden_name parent) destination parent id) k) trivially) as Hback.
  { intros A m k Hm Hk. eapply keeps_bind; [exact Hm|]. intros [a|e] _; [done|by apply safe_restore_removed]. }
  apply Hback; [by eapply keeps_any, safe_matches|intros _].
  apply Hback; [apply keeps_sync|intros _]. apply Hback; [apply keeps_inject|intros _].
  apply Hback; [apply (keeps_records intact key Hdb)|intros _].
  { rewrite <- (proj1 Hx). intros db db' r. apply others_remove. }
  apply safe_leftovers; [done|]. unfold sibling_rollback. destruct Hx as (_ & _ & ->).
  destruct (bool_decide _); [by left|]. destruct (bool_decide _); auto.
Qed.

(** ** The branches *)

Lemma safe_drop_copy x : same_subtitle x -> safe (drop_copy cwd eval_symlinks i x) trivially.
Proof.
  intros (_ & _ & Hr). unfold drop_copy. destruct (_ || _); [by apply keeps_ret|].
  eapply keeps_bind; [by apply keeps_looks; intros; apply looks_contained_path|].
  intros [[d parent]|e] _; [|by apply keeps_ret]. eapply keeps_bind; [|by intros; apply keeps_ret].
  apply safe_remove_contained. rewrite Hr. apply expendable_copy.
Qed.

Lemma safe_drop x reason : same_subtitle x -> safe (dropInstallation cwd eval_symlinks now i x reason) trivially.
Proof. intros Hx. eapply keeps_drop; [exact Hdb|apply Hx|by apply safe_drop_copy]. Qed.

Lemma safe_inspect path x : same_subtitle x ->
  safe (inspectSidecar eval_symlinks checksumBytes path (IChecksum x))
    (fun r => match r with Ok sidecarMatches | Ok sidecarMissing => expendable path | _ => True end).
Proof.
  intros (_ & -> & _). apply keeps_looks. intros w Hw. eapply looks_mono; [apply looks_inspect|].
  intros [[]|e]; [by apply expendable_shown|done|by apply expendable_absent|done].
Qed.

Lemma safe_folder path mediaPaths : safe (inMediaFolder cwd eval_symlinks i path mediaPaths) trivially.
Proof. apply keeps_looks. intros. apply looks_in_folder. Qed.

Lemma safe_publish old expected : expendable old ->
  safe (publish_move old expected) (fun p => match p with Published _ => expendable expected | _ => True end).
Proof.
  intros Ho. unfold publish_move. eapply keeps_bind; [apply safe_link|].
  assert (safe (mbind (M:=M) (fun r => mret (match r with Ok _ => Published false | Err e => unmovable e end))
    (rename_no_replace old expected)) (fun p => match p with Published _ => expendable expected | _ => True end)) as Hr.
  { eapply keeps_bind; [by apply safe_rename_no_replace|]. intros [u|e] H; apply keeps_ret; [done|].
    by destruct e as [| | | | | | | |[]| | | | |]. }
  intros [u|e] H; [by apply keeps_ret|]. destruct e as [| | | | | | | |[]| | | | |]; try exact Hr; by apply keeps_ret.
Qed.

Lemma safe_move x old expected media : same_subtitle x -> clean_path old -> clean_path expected -> expendable old ->
  safe (moveRenamedSidecar cwd eval_symlinks now checksumBytes json_valid encode_payload i media x old expected) trivially.
Proof.
  intros Hx Hc1 Hc2 Ho. apply (keeps_move_renamed cwd eval_symlinks now checksumBytes json_valid encode_payload i
    intact key Hdb x old expected (expendable expected)); try done.
  - apply Hx.
  - by apply safe_drop_copy.
  - by apply safe_publish.
  - by apply safe_same_file.
  - by apply safe_same_file.
  - intros. by apply safe_restore.
Qed.

Lemma safe_left_behind x old : same_subtitle x ->
  safe (remove_left_behind cwd eval_symlinks now checksumBytes json_valid encode_payload i random_bytes
          (for_installation x v) old) trivially.
Proof.
  intros Hx. unfold remove_left_behind. eapply keeps_bind.
  { by apply (keeps_rebase_now json_valid intact key Hdb), Hx. }
  intros [[]|e] _; [|by apply keeps_ret]. eapply keeps_bind.
  { by apply (safe_remove_managed (at_path old (IMediaFileID x) x)). }
  intros [[]|e] _; [by apply keeps_ret|]. destruct (is_managed_changed e); [|by apply keeps_ret].
  eapply keeps_bind; [by apply safe_drop|]. by intros; apply keeps_ret.
Qed.

Lemma safe_plainly (m : io unit) : safe m trivially -> safe (plainly m) trivially.
Proof. intros H. eapply keeps_bind; [exact H|]. by intros; apply keeps_ret. Qed.

(** Looking, and changing the record: the files are as they were. *)
Definition early (w : world) : Prop := w_disk w = w_disk w0 /\ same_others key (w_db w0) (w_db w).

Lemma early_start : early w0.
Proof. done. Qed.

Lemma early_intact w : early w -> intact w.
Proof. intros [H1 H2]. split; [by rewrite H1|by rewrite H1| |done]. intros p. right. by rewrite H1. Qed.

Lemma early_db w db : early w -> same_others key (w_db w) db -> early (in_db db w).
Proof. intros [H1 H2] H. split; [done|]. by eapply others_trans. Qed.

(** From a state whose files are as they were. *)
#[local] Abbreviation settles := (settling early intact).
Let settles_safe {A} := @settling_keeps early intact early_intact A.
Let settles_ret {A} := @settling_ret early intact early_intact A.
Let settles_bind {A B} := @settling_bind early intact early_intact A B.
Let settles_otherwise {A B} := @settling_otherwise early intact early_intact A B.
Let settles_map {A B} := @settling_map early intact A B.

(** What a sidecar shows at the start. *)
Definition inspected (path : text) (state : sidecarState) : Prop :=
  match state with
  | sidecarMatches => shows_managed checksumBytes w0 path (IChecksum record)
  | sidecarChanged => is_Some (look (w_disk w0) path)
      /\ (IChecksum record <> [] -> ~ shows_managed checksumBytes w0 path (IChecksum record))
  | sidecarMissing => look (w_disk w0) path = None
  end.

Lemma early_inspect path x : same_subtitle x ->
  keeps early (inspectSidecar eval_symlinks checksumBytes path (IChecksum x))
    (fun r => match r with Ok state => inspected path state | Err _ => True end).
Proof.
  intros (_ & -> & _). apply keeps_looks. intros w [Hw _]. eapply looks_mono; [apply looks_inspect|].
  unfold shows_managed. rewrite Hw. by intros [[]|e].
Qed.

Lemma early_folder path mediaPaths : keeps early (inMediaFolder cwd eval_symlinks i path mediaPaths) trivially.
Proof. apply keeps_looks. intros. apply looks_in_folder. Qed.

Lemma inspected_expendable path state :
  inspected path state -> state <> sidecarChanged -> expendable path.
Proof.
  destruct state; [|done|].
  - intros H _. by eapply expendable_shown; [apply intact_start|].
  - intros H _. by eapply expendable_absent; [apply intact_start|].
Qed.

Lemma early_old_state x old expected : same_subtitle x ->
  keeps early (old_state cwd eval_symlinks checksumBytes i x old expected)
    (fun r => match r with Ok sidecarMatches => old <> expected /\ inspected old sidecarMatches | _ => True end).
Proof.
  intros Hx. unfold old_state. case_bool_decide as Ho; [by apply keeps_ret|].
  eapply keeps_otherwise; [by apply early_inspect| |done]. intros state Hs.
  destruct (decide (state = sidecarMatches)) as [->|Hne].
  - rewrite bool_decide_true by done. eapply keeps_bind; [apply early_folder|]. intros [] _; by apply keeps_ret.
  - rewrite bool_decide_false by done. apply keeps_ret. by destruct state.
Qed.

(** A second name of the subtitle at [other]. *)
Lemma settles_same_file path other :
  inspected other sidecarMatches -> settles (removeSameFile eval_symlinks path other).
Proof.
  intros (n & Hn & Hm) w Hw. apply wp_same_file; [by intros; apply early_intact| |by apply early_intact].
  intros ino H1 H2 _. apply intact_unlink; [by apply early_intact|]. destruct Hw as [Hw _]. rewrite Hw in *.
  intros n' Hl. left. unfold look in *. rewrite H1 in Hl. rewrite H2 in Hn. congruence.
Qed.

Lemma settles_drop x reason : same_subtitle x -> settles (dropInstallation cwd eval_symlinks now i x reason).
Proof. intros. by eapply settles_safe, safe_drop. Qed.

Lemma settles_follow_moved x mediaPath old state :
  same_subtitle x -> inspected (IPath x) state ->
  settles (follow_moved eval_symlinks json_valid x mediaPath old (IPath x) state).
Proof.
  intros Hx Hs. unfold follow_moved. eapply settles_otherwise; [apply keeps_ctx|]. intros _ _.
  eapply settles_otherwise; [by apply (keeps_rebase json_valid early key early_db), Hx|]. intros _ _.
  destruct (negb _); [|apply settles_ret]. cbn [andb]. case_bool_decide as Es; [|apply settles_ret].
  subst state. by apply (settles_map _ (fun _ => Ok tt)), settles_same_file.
Qed.

Lemma settles_plainly (m : io unit) : settles m -> settles (plainly m).
Proof. apply settles_map. Qed.

Lemma settles_follow x :
  same_subtitle x -> clean_path (IPath x) -> rooted (IMediaPath x) = true ->
  settles (followRename cwd eval_symlinks now checksumBytes json_valid encode_payload i random_bytes (for_installation x v)).
Proof.
  intros Hx Hp Hm. unfold followRename. cbn [VInstallation for_installation].
  set (old := RebaseSidecarPath (IPath x) _ _). assert (clean_path old) as Hclean by by apply rebase_clean.
  eapply settles_bind with (R := fun r => match r with
    | Ok (state, oldState) => inspected (IPath x) state /\ (oldState = sidecarMatches -> inspected old sidecarMatches)
    | Err _ => True end).
  { eapply keeps_otherwise; [by apply early_inspect| |done]. intros state Hs.
    eapply keeps_otherwise; [by apply early_old_state| |done]. intros oldState Ho. apply keeps_ret.
    split; [done|]. intros ->. by destruct Ho. }
  intros [[state oldState]|e]; [|intros; apply settles_ret]. intros [Hs Ho].
  assert (forall reason, settles (plainly (dropInstallation cwd eval_symlinks now i x reason))) as Hdrop.
  { intros. by apply settles_plainly, settles_drop. }
  assert (settles (plainly (follow_moved eval_symlinks json_valid x (FpPath (Fingerprint (VMedia v))) old (IPath x) state))) as Hfollow.
  { by apply settles_plainly, settles_follow_moved. }
  destruct state; [done| |].
  - destruct oldState; try (by destruct (sidecarNamedFor _ _)). by eapply settles_safe, safe_left_behind.
  - destruct oldState; try done. eapply settles_plainly, settles_safe, safe_move; try done.
    by eapply inspected_expendable; [apply Ho|].
Qed.

Lemma settles_same x media reattached : same_subtitle x ->
  settles (settle_same cwd eval_symlinks now checksumBytes i x media reattached).
Proof.
  intros Hx. unfold settle_same. eapply settles_bind; [by apply early_inspect|].
  assert (forall reason, settles (mbind (M:=M) (fun r => mret (just_changed, r)) (dropInstallation cwd eval_symlinks now i x reason))) as Hd.
  { intros. by apply settles_map, settles_drop. }
  intros [[]|e] _; try apply settles_ret; [|apply Hd]. destruct (sidecarNamedFor _ _); [apply settles_ret|apply Hd].
Qed.

Lemma safe_remove_replaced x changed b : same_subtitle x ->
  safe (remove_replaced cwd eval_symlinks now checksumBytes json_valid encode_payload i random_bytes v x changed b) trivially.
Proof.
  intros Hx. unfold remove_replaced. eapply keeps_bind; [by apply safe_remove_managed|].
  intros [[]|e] _; [by apply keeps_ret|]. eapply keeps_bind with (R := trivially); [|by intros; apply keeps_ret].
  unfold removal_failed. destruct (is_managed_changed e); [|by apply keeps_ret].
  eapply keeps_bind; [by apply safe_drop|]. by intros; apply keeps_ret.
Qed.

Lemma safe_settle_match x path b : same_subtitle x ->
  safe (settle_match cwd eval_symlinks now checksumBytes json_valid encode_payload i random_bytes (for_installation x v) path b) trivially.
Proof.
  intros Hx. unfold settle_match. destruct (reserve now b) as [b' []]; cbn [negb]; [|by apply keeps_ret].
  cbn [VInstallation for_installation]. destruct (bool_decide _); [by apply safe_remove_replaced|].
  eapply keeps_bind; [by apply (keeps_rebase_now json_valid intact key Hdb), Hx|].
  intros [[]|e] _; [|by apply keeps_ret]. by apply (safe_remove_replaced (at_path path (IMediaFileID x) x)).
Qed.

Lemma safe_candidates x replaced first candidates reason b : same_subtitle x ->
  safe (settle_candidates cwd eval_symlinks now checksumBytes json_valid encode_payload i random_bytes
          (for_installation x v) replaced first candidates reason b) trivially.
Proof.
  intros Hx. revert first reason. induction candidates as [|path candidates IH]; intros first reason;
    cbn [settle_candidates VInstallation for_installation].
  - eapply keeps_bind; [by apply safe_drop|]. by intros; apply keeps_ret.
  - eapply keeps_bind; [by apply safe_inspect|]. intros [state|e] _; [|by apply keeps_ret].
    destruct (negb (bool_decide _)); [apply IH|]. destruct (_ && _ && sidecarNamedFor _ _); [by apply keeps_ret|].
    eapply keeps_bind; [apply safe_folder|]. intros [] _; [by apply safe_settle_match|apply IH].
Qed.

Lemma early_candidate candidates media x : same_subtitle x -> Forall clean_path candidates ->
  keeps early (matching_candidate cwd eval_symlinks checksumBytes i candidates media (IChecksum x))
    (fun r => match r with Ok path => path = [] \/ clean_path path | Err _ => True end).
Proof.
  intros Hx Hc. induction Hc as [|c candidates Hc Hcs IH]; cbn [matching_candidate]; [apply keeps_ret; by left|].
  eapply keeps_bind with (R := trivially); [destruct (negb _); [by apply keeps_ret|apply early_folder]|].
  intros [] _; [|exact IH]. eapply keeps_otherwise; [by apply early_inspect| |done]. intros state _.
  destruct (bool_decide _); [apply keeps_ret; by right|exact IH].
Qed.

(** The request after the reattachment. *)
Definition same_request (v' : RemovalRequest) : Prop :=
  exists x, v' = for_installation x v /\ same_subtitle x /\ IMediaPath x = IMediaPath record /\ clean_path (IPath x).

Lemma same_request_start : same_request v.
Proof using Hpath. exists record. split; [apply for_same|done]. Qed.

Lemma early_reattach :
  keeps early (reattachIdenticalFile cwd eval_symlinks checksumBytes i v)
    (fun r => match r with Ok (_, _, v') => same_request v' | Err _ => True end).
Proof.
  pose proof same_request_start as Hv. unfold reattachIdenticalFile. destruct (_ || _); [by apply keeps_ret|].
  assert (forall path, path = [] \/ clean_path path -> keeps early (if bool_decide (path = []) then okay (false, false, v) else
        try! _ := ctx_err in
        try! _ := transaction (fun db => let! db := ReattachInstallation record path (RefFileID (MRef (VMedia v))) db in Ok (db, tt)) in
        okay (true, false, for_installation (at_path path (RefFileID (MRef (VMedia v))) record) v))
    (fun r => match r with Ok (_, _, v') => same_request v' | Err _ => True end)) as Hattach.
  { intros path Hp. case_bool_decide as He; [by apply keeps_ret|]. destruct Hp as [?|Hp]; [done|].
    eapply keeps_otherwise; [apply keeps_ctx| |done]. intros _ _.
    eapply keeps_otherwise; [apply (keeps_records early key early_db)| |done].
    - intros db db' a H%plain_transaction. by eapply others_reattach.
    - intros _ _. apply keeps_ret. by eexists. }
  destruct (same_media_path _ _).
  - eapply keeps_otherwise; [by apply (early_inspect _ record)| |done]. intros state _.
    destruct (bool_decide _); [by apply keeps_ret|apply Hattach; by right].
  - eapply keeps_otherwise; [apply (early_candidate _ _ record); [done|]| |done]; [|intros path Hp; by apply Hattach].
    constructor; [done|]. destruct (bool_decide _); [done|]. constructor; [by apply rebase_clean|done].
Qed.

Lemma settles_reconcile b :
  settles (ReconcileInstallation cwd eval_symlinks now checksumBytes json_valid encode_payload i random_bytes v b).
Proof.
  unfold ReconcileInstallation. eapply settles_bind; [apply early_reattach|].
  intros [[[reattached missing] v']|e]; [|intros; apply settles_ret]. intros (x & -> & Hx & Hm & Hp).
  cbn [VInstallation VMedia for_installation]. destruct missing; [by apply (settles_map _ (fun r => (just_changed, r, b))), settles_drop|].
  destruct (is_same_file _).
  - apply (settles_map _ (fun s => (s, b))). destruct (negb _ && negb _) eqn:Er.
    + apply andb_true_iff in Er as [Er%negb_true_iff%bool_decide_eq_false _]. rewrite Hm in Er.
      apply settles_map, settles_follow; [done|done|]. rewrite Hm. by apply Hold.
    + by apply settles_same.
  - unfold settleReplaced. cbn [VInstallation VMedia for_installation].
    destruct (0 <? IMediaFileID x); by eapply settles_safe, safe_candidates.
Qed.

Lemma reconcile_intact b schedule :
  intact (after (ReconcileInstallation cwd eval_symlinks now checksumBytes json_valid encode_payload i random_bytes v b w0 schedule)).
Proof.
  pose proof (settles_reconcile b w0 early_start schedule (any_schedule _)) as H.
  by destruct (ReconcileInstallation _ _ _ _ _ _ _ _ _ _ _ _); [destruct H|].
Qed.

(** C4. Whatever fails and wherever it is killed, a reconciliation changes no
    file's content, takes no name from a file that is not the managed subtitle
    (the record's own rollback copy apart), and leaves every other record as it
    is. *)
Theorem reconciliation_spares_other_files b schedule :
  let w := after (ReconcileInstallation cwd eval_symlinks now checksumBytes json_valid encode_payload i random_bytes v b w0 schedule) in
  d_nodes (w_disk w) = d_nodes (w_disk w0)
  /\ (forall p n, look (w_disk w0) p = Some n ->
        f_kind n <> Regular \/ checksumBytes (f_data n) <> IChecksum record -> p <> copy ->
        look (w_disk w) p = Some n)
  /\ (forall k, k <> key -> idb_installs (w_db w) !! k = idb_installs (w_db w0) !! k).
Proof.
  intros w. destruct (reconcile_intact b schedule) as [_ Hn Hp Hr]. fold w in Hn, Hp, Hr.
  split; [done|]. split; [|exact Hr]. intros p n Hl Hf Hc. destruct (Hp p) as [He|E].
  - destruct (He n Hl) as [[? ?]|?]; [|done]. by destruct Hf.
  - unfold look in *. by rewrite E, Hn.
Qed.
End untouched.

(** ** The subtitle of a file that stayed the same *)

Section kept.
Context (cwd : text) (eval_symlinks : text -> option text) (now : instant).
Context (checksumBytes : text -> text) (json_valid : text -> bool) (encode_payload : Media -> text -> text).
Context (i : Installer) (random_bytes : list N).
Context (v : RemovalRequest) (w0 : world) (ino : Z) (n0 : node).

#[local] Abbreviation record := (VInstallation v).
#[local] Abbreviation copy := (path_abs cwd (IRollbackPath record)).
#[local] Abbreviation key := (install_key record).

(** The recorded name and the one before the rename. *)
Definition new_name : text := IPath record.
Definition old_name : text := RebaseSidecarPath (IPath record) (FpPath (Fingerprint (VMedia v))) (IMediaPath record).

Context (Hpath : clean_path (IPath record)).
Context (Hmedia : rooted (FpPath (Fingerprint (VMedia v))) = true).
Context (Hold : IMediaPath record <> [] -> rooted (IMediaPath record) = true).
Context (Hsame : is_same_file v = true) (Hsum : IChecksum record <> []).
Context (Hnode : d_nodes (w_disk w0) !! ino = Some n0) (Hmanaged : managed_as checksumBytes (IChecksum record) n0).
Context (Hstart : d_names (w_disk w0) !! new_name = Some ino
                  \/ d_names (w_disk w0) !! old_name = Some ino
                     /\ forall m, look (w_disk w0) new_name = Some m -> managed_as checksumBytes (IChecksum record) m).
Context (Hcopy : copy <> new_name /\ copy <> old_name).

(** One of the two names is the subtitle's. *)
Definition named (d : disk) : Prop :=
  d_nodes d !! ino = Some n0 /\ (d_names d !! new_name = Some ino \/ d_names d !! old_name = Some ino).
Definition alive (w : world) : Prop := named (w_disk w).

#[local] Abbreviation early := (early v w0).
#[local] Abbreviation settles := (settling early alive).

Lemma early_alive w : early w -> alive w.
Proof using Hnode Hstart. intros [Hw _]. unfold alive. rewrite Hw. split; [done|]. destruct Hstart as [|[]]; auto. Qed.

Lemma alive_db w db : alive w -> same_others key (w_db w) db -> alive (in_db db w).
Proof. done. Qed.

Lemma alive_unlink p w : alive w -> (p <> new_name /\ p <> old_name) -> alive (on_disk (unlink p (w_disk w)) w).
Proof.
  intros [Hn Hp] [H1 H2]. split; [done|]. simpl. destruct Hp; [left|right]; by rewrite lookup_delete_ne.
Qed.

Lemma alive_remove_copy parent : keeps alive (removeContainedFile cwd (IRollbackPath record) parent) trivially.
Proof using Hcopy. intros w Hw. apply wp_remove_contained_any; [done| |done]. split; [by apply alive_unlink|done]. Qed.

Lemma alive_drop_copy : keeps alive (drop_copy cwd eval_symlinks i record) trivially.
Proof using Hcopy.
  unfold drop_copy. destruct (_ || _); [by apply keeps_ret|].
  eapply keeps_bind; [by apply keeps_looks; intros; apply looks_contained_path|].
  intros [[d parent]|e] _; [|by apply keeps_ret]. eapply keeps_bind; [apply alive_remove_copy|by intros; apply keeps_ret].
Qed.

Lemma alive_drop reason : keeps alive (dropInstallation cwd eval_symlinks now i record reason) trivially.
Proof using Hcopy. eapply keeps_drop; [exact alive_db|done|apply alive_drop_copy]. Qed.

Lemma link_named old new d d' u :
  (old = old_name /\ new = new_name) \/ (old = new_name /\ new = old_name) ->
  named d -> link_entry old new d = Ok (u, d') ->
  named d' /\ d_names d' !! new = Some ino /\ old <> new.
Proof.
  intros Hpair [Hn Hp]. unfold link_entry. destruct (d_names d !! old) as [j|] eqn:Eo; [|done].
  destruct (d_names d !! new) eqn:En; [done|]. intros [= _ <-].
  assert (j = ino) as -> by (destruct Hpair as [[-> ->]|[-> ->]]; destruct Hp; congruence).
  split; [|split; [cbn; by rewrite lookup_insert_eq|]].
  2: { intros ->. congruence. }
  split; [done|]. destruct Hpair as [[-> ->]|[-> ->]]; [left|right]; cbn; by rewrite lookup_insert_eq.
Qed.

Lemma rename_named old new d d' u :
  (old = old_name /\ new = new_name) \/ (old = new_name /\ new = old_name) ->
  named d -> d_names d !! new <> Some ino -> rename_entry old new d = Ok (u, d') -> named d'.
Proof.
  intros Hpair [Hn Hp] Hne. unfold rename_entry. destruct (d_names d !! old) as [j|] eqn:Eo; [|done].
  assert (j = ino) as -> by (destruct Hpair as [[-> ->]|[-> ->]]; destruct Hp; congruence).
  assert (named (mkDisk (<[new := ino]> (delete old (d_names d))) (d_nodes d))) as Hd.
  { split; [done|]. destruct Hpair as [[-> ->]|[-> ->]]; [left|right]; cbn; by rewrite lookup_insert_eq. }
  destruct (bool_decide _); [by intros [= _ <-]|].
  destruct (look d new); [destruct (bool_decide _); [done|]|]; by intros [= _ <-].
Qed.

Lemma alive_publish :
  keeps alive (publish_move old_name new_name) (fun p => match p with Published _ => True | _ => True end).
Proof.
  unfold publish_move. eapply keeps_bind with (R := trivially).
  { apply keeps_change. intros w u d Hw H. eapply link_named in H; [by destruct H|by left|done]. }
  assert (keeps alive (mbind (M:=M) (fun r => mret (match r with Ok _ => Published false | Err e => unmovable e end))
    (rename_no_replace old_name new_name)) (fun p => match p with Published _ => True | _ => True end)) as Hr.
  { eapply keeps_bind with (R := trivially); [|by intros; apply keeps_ret; case_match].
    apply keeps_change. intros w u d Hw. destruct (d_names (w_disk w) !! new_name) eqn:E; [done|].
    apply rename_named; [by left|done|congruence]. }
  intros [u|e] _; [by apply keeps_ret|]. destruct e as [| | | | | | | |[]| | | | |]; try exact Hr; by apply keeps_ret.
Qed.

Lemma alive_same_file path other :
  (path = old_name /\ other = new_name) \/ (path = new_name /\ other = old_name) ->
  keeps alive (removeSameFile eval_symlinks path other) trivially.
Proof.
  intros Hpair w Hw. apply wp_same_file; [done| |done]. intros j H1 H2 Hne. split; [|done].
  destruct Hw as [Hn Hp]. split; [done|]. simpl.
  destruct Hpair as [[-> ->]|[-> ->]]; [left|right]; rewrite lookup_delete_ne by done; destruct Hp; congruence.
Qed.

Lemma alive_restore parent : keeps alive (restoreRemoved new_name old_name parent) trivially.
Proof.
  intros w Hw. unfold restoreRemoved. apply wp_bind.
  assert (forall w, alive w -> wp any_fault (mbind (M:=M) (fun r => match r with
          | Err ENotExist => try! _ := Rename new_name old_name in syncDirectory parent
          | _ => fail recreated
          end) (Lstat old_name)) (fun r w' => alive w' /\ trivially r) alive w) as Hr.
  { clear w Hw. intros w Hw. apply wp_bind. eapply wp_looks; [apply looks_lstat| |done].
    intros [info|e] Hl; [by apply wp_ret|]. destruct e; try by apply wp_ret.
    apply wp_otherwise, wp_change; [|done..].
    destruct (rename_entry new_name old_name (w_disk w)) as [[u d]|e] eqn:E; [|done].
    apply (keeps_sync alive). eapply rename_named; [by right|exact Hw| |exact E].
    intros Ho. destruct Hw as [Hn _]. unfold info_of in Hl. rewrite Ho in Hl. cbn in Hl. by rewrite Hn in Hl. }
  apply wp_change; [|by intros; apply Hr|done].
  destruct (link_entry new_name old_name (w_disk w)) as [[u d]|e] eqn:E.
  - eapply link_named in E as (Hd & Ho & Hne); [|by right|exact Hw].
    apply wp_otherwise, wp_remove; [done| |done..]. intros _. apply (keeps_sync alive). split; [apply Hd|right].
    simpl. by rewrite lookup_delete_ne.
  - destruct e; try by apply Hr. by apply wp_ret.
Qed.

(** At the start a name of the pair shows the subtitle. *)
Lemma inspected_new state : inspected checksumBytes v w0 new_name state ->
  state = sidecarMatches \/ state = sidecarMissing.
Proof using Hnode Hstart Hmanaged Hsum.
  destruct state; [by left| |by right]. intros [[n Hn] Hs]. exfalso. apply (Hs Hsum). unfold look in Hn.
  destruct Hstart as [E|[_ Hm]]; [|exists n; split; [done|by apply Hm]].
  exists n0. split; [|done]. unfold look. by rewrite E.
Qed.

Lemma settles_follow_kept :
  IMediaPath record <> [] ->
  settles (followRename cwd eval_symlinks now checksumBytes json_valid encode_payload i random_bytes v).
Proof using All.
  intros Hm. unfold followRename.
  assert (clean_path old_name) as Hc by by apply rebase_clean, Hold.
  assert (keeps alive (removeSameFile eval_symlinks old_name new_name) trivially) as Hforward by (apply alive_same_file; auto).
  eapply settling_bind with (R := fun r => match r with
    | Ok (state, _) => inspected checksumBytes v w0 new_name state | Err _ => True end); [exact early_alive| |].
  { eapply keeps_otherwise; [by apply early_inspect| |done]. intros state Hs.
    eapply keeps_otherwise; [by eapply keeps_any, early_old_state| |done]. intros oldState _. by apply keeps_ret. }
  intros [[state oldState]|e]; [|intros; by apply settling_ret, early_alive]. intros Hs%inspected_new.
  assert (forall m : io unit, keeps alive m trivially -> settles (plainly m)) as Hplain.
  { intros m H. apply settling_map. by eapply settling_keeps; [exact early_alive|]. }
  destruct Hs as [-> | ->].
  - apply Hplain. by apply (keeps_follow_moved eval_symlinks json_valid alive key alive_db).
  - destruct oldState; apply Hplain; [|apply alive_drop..].
    apply (keeps_move_renamed cwd eval_symlinks now checksumBytes json_valid encode_payload i
      alive key alive_db record old_name new_name True); try done.
    + apply alive_drop_copy.
    + exact alive_publish.
    + intros _. apply alive_same_file; auto.
    + intros parent _. apply alive_restore.
Qed.

Lemma settles_same_kept media reattached :
  settles (settle_same cwd eval_symlinks now checksumBytes i record media reattached).
Proof using All.
  unfold settle_same. eapply settling_bind; [exact early_alive|by apply early_inspect|].
  assert (forall reason, settles (mbind (M:=M) (fun r => mret (just_changed, r)) (dropInstallation cwd eval_symlinks now i record reason))) as Hd.
  { intros. apply settling_map. eapply settling_keeps; [exact early_alive|apply alive_drop]. }
  assert (forall s : Settlement, settles (mret s)) as Hret by (intros; by apply settling_ret, early_alive).
  intros [[]|e] _; try apply Hret; [|apply Hd]. destruct (sidecarNamedFor _ _); [apply Hret|apply Hd].
Qed.

Lemma kept_shown b schedule :
  let w := after (ReconcileInstallation cwd eval_symlinks now checksumBytes json_valid encode_payload i random_bytes v b w0 schedule) in
  look (w_disk w) new_name = Some n0 \/ look (w_disk w) old_name = Some n0.
Proof using All.
  assert (settles (ReconcileInstallation cwd eval_symlinks now checksumBytes json_valid encode_payload i random_bytes v b)) as H.
  { pose proof Hsame as Hs. unfold is_same_file in Hs. apply andb_true_iff in Hs as [Hs _]. apply andb_true_iff in Hs as [_ Hid].
    unfold ReconcileInstallation.
    assert (reattachIdenticalFile cwd eval_symlinks checksumBytes i v = okay (false, false, v)) as ->.
    { unfold reattachIdenticalFile. by rewrite Hid, orb_true_r. }
    eapply settling_bind with (R := fun r => r = Ok (false, false, v)); [exact early_alive|by apply keeps_ret|].
    intros r ->. rewrite Hsame. apply (settling_map _ _ _ (fun s => (s, b))). destruct (negb _ && negb _) eqn:Er.
    - apply andb_true_iff in Er as [Er%negb_true_iff%bool_decide_eq_false _]. by apply settling_map, settles_follow_kept.
    - apply settles_same_kept. }
  intros w. assert (alive w) as [Hn Hp].
  { specialize (H w0 (early_start v w0) schedule (any_schedule _)). unfold w.
    by destruct (ReconcileInstallation _ _ _ _ _ _ _ _ _ _ _ _); [destruct H|]. }
  unfold look. destruct Hp as [-> | ->]; auto.
Qed.
End kept.

(** The subtitle is under its recorded name or the one before the rename;
    whatever is under the other one. *)
Section unchanged.
Context (cwd : text) (eval_symlinks : text -> option text) (now : instant).
Context (checksumBytes : text -> text) (json_valid : text -> bool) (encode_payload : Media -> text -> text).
Context (i : Installer) (random_bytes : list N).
Context (v : RemovalRequest) (w0 : world) (ino : Z) (n0 : node).

#[local] Abbreviation record := (VInstallation v).
#[local] Abbreviation copy := (path_abs cwd (IRollbackPath record)).

Context (Hcwd : rooted cwd = true) (Hok : disk_ok (w_disk w0)).
Context (Hhidden : forall parent, clean_path parent -> d_names (w_disk w0) !! hidden_name random_bytes parent = None).
Context (Hpath : clean_path (IPath record)).
Context (Hmedia : rooted (FpPath (Fingerprint (VMedia v))) = true).
Context (Hold : IMediaPath record <> [] -> rooted (IMediaPath record) = true).
Context (Hsame : is_same_file v = true) (Hsum : IChecksum record <> []).
Context (Hnode : d_nodes (w_disk w0) !! ino = Some n0) (Hmanaged : managed_as checksumBytes (IChecksum record) n0).
Context (Hname : d_names (w_disk w0) !! new_name v = Some ino \/ d_names (w_disk w0) !! old_name v = Some ino).
Context (Hcopy : copy <> new_name v /\ copy <> old_name v).

(** C3. A reconciliation keeps the subtitle of a media file that stayed the same,
    unless another file took its name: whatever fails and wherever it is killed,
    also in the middle of a move, the recorded name or the name before the rename
    still shows the subtitle. The one exception is a file that is not the
    subtitle under the recorded name, where the code removes the subtitle that
    the rename left behind; that file is kept then, under the same name. *)
Theorem unchanged_media_keeps_its_subtitle b schedule :
  let w := after (ReconcileInstallation cwd eval_symlinks now checksumBytes json_valid encode_payload i random_bytes v b w0 schedule) in
  look (w_disk w) (new_name v) = Some n0 \/ look (w_disk w) (old_name v) = Some n0
  \/ exists m, look (w_disk w0) (new_name v) = Some m /\ ~ managed_as checksumBytes (IChecksum record) m
       /\ look (w_disk w) (new_name v) = Some m.
Proof using All.
  intros w.
  assert ((exists m, look (w_disk w0) (new_name v) = Some m /\ ~ managed_as checksumBytes (IChecksum record) m)
          \/ forall m, look (w_disk w0) (new_name v) = Some m -> managed_as checksumBytes (IChecksum record) m) as [(m & Hm & Hne)|Hall].
  { destruct (look (w_disk w0) (new_name v)) as [m|]; [|by right]. unfold managed_as.
    destruct (f_kind m) eqn:Ek; [destruct (decide (checksumBytes (f_data m) = IChecksum record))|..];
      [right; intros ? [= <-]; by split|left; exists m; split; [done|]; rewrite Ek; by intros []..]. }
  - right; right. exists m. split_and!; [done..|].
    destruct (reconcile_intact cwd eval_symlinks now checksumBytes json_valid encode_payload i random_bytes v w0
      Hcwd Hok Hhidden Hpath Hmedia Hold b schedule) as [_ Hn Hp _]. fold w in Hn, Hp.
    destruct (Hp (new_name v)) as [He|E]; [destruct (He m Hm) as [?|E]; [done|exfalso; by apply (proj1 Hcopy)]|].
    unfold look in *. by rewrite E, Hn.
  - edestruct (kept_shown cwd eval_symlinks now checksumBytes json_valid encode_payload i random_bytes v w0 ino n0)
      as [?|?]; [..|by left|by right; left]; try done. destruct Hname as [?|?]; [by left|right]. by split.
Qed.
End unchanged.

(** ** Removals of replaced subtitles are counted *)

Lemma wp_anything {A} (m : M A) w : wp any_fault m (fun _ _ => True) (fun _ => True) w.
Proof. intros fs _. destruct (m w fs); [split; auto with subsync|done]. Qed.

Lemma wp_bind_any {A B} (m : M A) (k : A -> M B) Q w :
  (forall a w', wp any_fault (k a) Q (fun _ => True) w') -> wp any_fault (mbind k m) Q (fun _ => True) w.
Proof. intros H. apply wp_bind. eapply wp_mono; [apply wp_anything| |done]. intros a w' _. apply H. Qed.

Section counted.
Context (cwd : text) (eval_symlinks : text -> option text) (now : instant).
Context (checksumBytes : text -> text) (json_valid : text -> bool) (encode_payload : Media -> text -> text).
Context (i : Installer) (random_bytes : list N).
Context (v : RemovalRequest) (b : option RemovalBudget) (w0 : world).

(** What a settled replacement says about the budget. *)
Definition budgeted (out : Settlement * option RemovalBudget) (w : world) : Prop :=
  let '((r, e), b') := out in
  if Deferred r then reserve now b = (b', false) /\ w = w0 /\ DeferredUntil r = nextSlot now b' + removalRetryMargin
  else if RemovedSidecar r then reserve now b = (b', true)
  else b' = b \/ exists b1, reserve now b = (b1, true) /\ b' = release now b1.

Lemma remove_replaced_budget x changed b1 w :
  reserve now b = (b1, true) ->
  wp any_fault (remove_replaced cwd eval_symlinks now checksumBytes json_valid encode_payload i random_bytes v x changed b1)
    budgeted (fun _ => True) w.
Proof.
  intros Hr. unfold remove_replaced. apply wp_bind_any. intros [[]|e] w1; [by apply wp_ret|].
  apply wp_bind. unfold removal_failed. destruct (is_managed_changed e).
  - apply wp_bind_any. intros r w2. apply wp_ret, wp_ret. right. by exists b1.
  - apply wp_ret, wp_ret. destruct changed; right; by exists b1.
Qed.

Lemma settle_match_budget path :
  wp any_fault (settle_match cwd eval_symlinks now checksumBytes json_valid encode_payload i random_bytes v path b)
    budgeted (fun _ => True) w0.
Proof.
  unfold settle_match. destruct (reserve now b) as [b1 []] eqn:Hr; cbn [negb].
  - destruct (bool_decide _); [by apply remove_replaced_budget|]. apply wp_bind_any.
    intros [[]|e] w1; [by apply remove_replaced_budget|]. apply wp_ret. right. by exists b1.
  - apply wp_ret. by split_and!.
Qed.

Lemma candidates_budget replaced first candidates reason :
  wp any_fault (settle_candidates cwd eval_symlinks now checksumBytes json_valid encode_payload i random_bytes v replaced first candidates reason b)
    budgeted (fun _ => True) w0.
Proof.
  revert first reason. induction candidates as [|path candidates IH]; intros first reason; cbn [settle_candidates].
  - apply wp_bind_any. intros r w. apply wp_ret. by left.
  - apply wp_bind. eapply wp_looks; [apply looks_inspect| |done]. intros [state|e] _; [|apply wp_ret; by left].
    destruct (negb (bool_decide _)); [apply IH|]. destruct (_ && _ && sidecarNamedFor _ _); [apply wp_ret; by left|].
    apply wp_bind. eapply wp_looks; [apply looks_in_folder| |done]. intros [] _; [apply settle_match_budget|apply IH].
Qed.

(** Settling a replaced file takes one slot of the hourly budget for a
    subtitle it removes, gives it back when the removal fails, and without a
    free slot changes nothing and says when one is free. *)
Theorem replaced_removals_are_counted schedule out w fs :
  settleReplaced cwd eval_symlinks now checksumBytes json_valid encode_payload i random_bytes v b w0 schedule = Done out w fs ->
  budgeted out w.
Proof.
  intros E. assert (wp any_fault (settleReplaced cwd eval_symlinks now checksumBytes json_valid encode_payload i random_bytes v b)
    budgeted (fun _ => True) w0) as H.
  { unfold settleReplaced. destruct (0 <? _); apply candidates_budget. }
  specialize (H schedule (any_schedule _)). rewrite E in H. by destruct H.
Qed.
End counted.

(** ** A renamed and a replaced file *)

Definition sample_sum (s : text) : text := t "sum of " ++ s.
Definition sample_text (data : text) : node := mkNode Regular data 420 100.
Definition sample_fingerprint (size : Z) : MediaFingerprint := mkFingerprint (t "/tv/Show/e1.final.mkv") 7 size 100.
Definition sample_media (size : Z) : Media :=
  mkMedia 5 6 (mkMediaRef (t "sonarr") MediaEpisode 7) (sample_fingerprint size)
    (t "Show") [] [] 0 1 1 0 0 0 (mkExternalIDs [] 0 0) [] [] [] [] [] [] [] [] 0 [] 0 [].
Definition sample_record : Installation :=
  mkInstallation false 9 (t "en") (t "/tv/Show/e1.final.en.srt") (sample_sum (t "subtitle")) (t "subsource") (t "c0") []
    [] NoScoreJSON (t "{}") [] (t "/tv/Show/e1.mkv") 7 3 100 0 50.
Definition sample_removal (size : Z) : RemovalRequest := mkRemoval sample_record (sample_media size) false [].
(** The subtitle, still under the old name or already under the new one, and a
    subtitle of the owner. *)
Definition sample_disk (sidecar : text) : disk :=
  mkDisk {[ t "/tv/Show/e1.final.mkv" := 1; sidecar := 2; t "/tv/Show/e1.final.de.srt" := 3 ]}
    {[ 1 := sample_text (t "abc"); 2 := sample_text (t "subtitle"); 3 := sample_text (t "mine") ]}.
Definition sample_db : install_db := mkInstallDB {[ 9 := mkMediaRow false (t "sonarr") MediaEpisode 1 0 [] (sample_fingerprint 3) sample_order ]}
    {[ (9, t "en") := sample_record ]} ∅ ∅ [] [].
Definition sample_world (sidecar : text) : world := mkWorld (sample_disk sidecar) sample_db.
Definition sample_installer : Installer :=
  mkInstaller [t "/tv"] 0 None None (fun _ => false) [] (fun _ => true) false.
Definition sample_bytes : list N := [1; 2; 3; 4; 5; 6; 7; 254]%N.

Abbreviation sample_run size b sidecar schedule :=
  (ReconcileInstallation (t "/") Some 1000 sample_sum (fun _ => true) (fun _ _ => t "{}") sample_installer sample_bytes
    (sample_removal size) b (sample_world sidecar) schedule).

(** The rename is followed; the move can be killed after the link. *)
Example move_follows_rename :
  let w := after (sample_run 3 None (t "/tv/Show/e1.en.srt") []) in
  d_names (w_disk w) !! t "/tv/Show/e1.final.en.srt" = Some 2 /\ d_names (w_disk w) !! t "/tv/Show/e1.en.srt" = None
  /\ IMediaPath <$> idb_installs (w_db w) !! (9, t "en") = Some (t "/tv/Show/e1.final.mkv")
  /\ idb_pending (w_db w) = ∅.
Proof. by vm_compute. Qed.

Example move_killed_after_link :
  let w := after (sample_run 3 None (t "/tv/Show/e1.en.srt") (replicate 20 Works ++ [Crash])) in
  d_names (w_disk w) !! t "/tv/Show/e1.final.en.srt" = Some 2 /\ d_names (w_disk w) !! t "/tv/Show/e1.en.srt" = Some 2.
Proof. by vm_compute. Qed.

Lemma sample_clean : clean_path (t "/tv/Show/e1.final.en.srt").
Proof. exact (path_clean_clean (t "/tv/Show/e1.final.en.srt") eq_refl). Qed.

Lemma sample_disk_ok : disk_ok (sample_disk (t "/tv/Show/e1.en.srt")).
Proof. apply disk_ok_names_dec. by vm_compute. Qed.

Lemma plain_removal : plain (removalPrefix ++ hex sample_bytes).
Proof. split_and!; [|done..]. by repeat constructor. Qed.

Lemma sample_hidden sidecar parent :
  path_base sidecar <> removalPrefix ++ hex sample_bytes -> clean_path parent ->
  d_names (sample_disk sidecar) !! hidden_name sample_bytes parent = None.
Proof.
  intros Hs Hp. assert (path_base (hidden_name sample_bytes parent) = removalPrefix ++ hex sample_bytes) as Hb.
  { unfold hidden_name. rewrite clean_path_clean by by apply clean_path_join, plain_removal.
    apply path_base_join; [done|apply plain_removal]. }
  unfold sample_disk. cbn [d_names].
  rewrite !lookup_insert_ne, lookup_singleton_ne; [done|intros E; rewrite <- E in Hb; try (by vm_compute in Hb); done..].
Qed.

Lemma reconciliation_spares_other_files_witness :
  let w := after (sample_run 3 None (t "/tv/Show/e1.en.srt") (replicate 20 Works ++ [Crash])) in
  d_nodes (w_disk w) = d_nodes (sample_disk (t "/tv/Show/e1.en.srt"))
  /\ look (w_disk w) (t "/tv/Show/e1.final.de.srt") = Some (sample_text (t "mine")).
Proof.
  destruct (reconciliation_spares_other_files (t "/") Some 1000 sample_sum (fun _ => true) (fun _ _ => t "{}")
    sample_installer sample_bytes (sample_removal 3) (sample_world (t "/tv/Show/e1.en.srt")) eq_refl
    sample_disk_ok (fun p Hp => sample_hidden (t "/tv/Show/e1.en.srt") p ltac:(by vm_compute) Hp)
    sample_clean eq_refl (fun _ => eq_refl) None (replicate 20 Works ++ [Crash])) as (H1 & H2 & _).
  split; [exact H1|]. apply H2; [reflexivity|right; by vm_compute|by vm_compute].
Defined.

Lemma unchanged_media_keeps_its_subtitle_witness :
  let w := after (sample_run 3 None (t "/tv/Show/e1.en.srt") (replicate 22 Works ++ [Fails Generic; Crash])) in
  look (w_disk w) (new_name (sample_removal 3)) = Some (sample_text (t "subtitle"))
  \/ look (w_disk w) (old_name (sample_removal 3)) = Some (sample_text (t "subtitle")).
Proof.
  destruct (unchanged_media_keeps_its_subtitle (t "/") Some 1000 sample_sum (fun _ => true) (fun _ _ => t "{}")
    sample_installer sample_bytes (sample_removal 3) (sample_world (t "/tv/Show/e1.en.srt")) 2 (sample_text (t "subtitle")) eq_refl
    sample_disk_ok (fun p Hp => sample_hidden (t "/tv/Show/e1.en.srt") p ltac:(by vm_compute) Hp)
    sample_clean eq_refl (fun _ => eq_refl) eq_refl ltac:(discriminate) eq_refl (conj eq_refl eq_refl) ltac:(right; by vm_compute) ltac:(by vm_compute)
    None (replicate 22 Works ++ [Fails Generic; Crash])) as [H|[H|(m & H & _)]]; [by left|by right|by vm_compute in H].
Defined.

(** Another file took the name: the subtitle that was left behind is removed. *)
Example left_behind_removed :
  let taken := mkWorld (mkDisk (<[t "/tv/Show/e1.final.en.srt" := 4]> (d_names (sample_disk (t "/tv/Show/e1.en.srt"))))
                          (<[4 := sample_text (t "theirs")]> (d_nodes (sample_disk (t "/tv/Show/e1.en.srt"))))) sample_db in
  let w := after (ReconcileInstallation (t "/") Some 1000 sample_sum (fun _ => true) (fun _ _ => t "{}") sample_installer sample_bytes
    (sample_removal 3) None taken []) in
  look (w_disk w) (t "/tv/Show/e1.final.en.srt") = Some (sample_text (t "theirs"))
  /\ d_names (w_disk w) !! t "/tv/Show/e1.en.srt" = None /\ idb_installs (w_db w) !! (9, t "en") = None.
Proof. by vm_compute. Qed.

(** A replaced file: its subtitle is removed while a slot is free. *)
Definition full_budget : RemovalBudget := mkBudget 1 hour [900].

Example replaced_removed :
  match sample_run 4 (Some NewReplacedRemovalBudget) (t "/tv/Show/e1.final.en.srt") [] with
  | Done (r, _, Some b) w _ => RemovedSidecar r = true /\ taken b = [1000] /\ d_names (w_disk w) !! t "/tv/Show/e1.final.en.srt" = None
                               /\ idb_installs (w_db w) !! (9, t "en") = None
  | _ => False
  end.
Proof. by vm_compute. Qed.

Lemma replaced_removals_are_counted_witness :
  match settleReplaced (t "/") Some 1000 sample_sum (fun _ => true) (fun _ _ => t "{}") sample_installer sample_bytes
          (sample_removal 4) (Some full_budget) (sample_world (t "/tv/Show/e1.final.en.srt")) [] with
  | Done (r, _, b) w _ => Deferred r = true /\ w = sample_world (t "/tv/Show/e1.final.en.srt")
  | Down _ => False
  end.
Proof.
  destruct (settleReplaced (t "/") Some 1000 sample_sum (fun _ => true) (fun _ _ => t "{}") sample_installer sample_bytes
          (sample_removal 4) (Some full_budget) (sample_world (t "/tv/Show/e1.final.en.srt")) []) as [[[r e] b] w fs|w] eqn:E.
  - pose proof (replaced_removals_are_counted _ _ _ _ _ _ _ _ _ _ _ _ _ _ _ E) as H. vm_compute in E.
    injection E as <- <- <- <- <-. split; [reflexivity|]. apply H.
  - by vm_compute in E.
Defined.
