(* ===== verification/History.v ===== *)
(** * The history of an Arr application (src/internal/catalog/history.go)

    [readHistoryWindow] walks the descending pages of the history down to the
    cursor, and [reduceHistoryByEntity] keeps the latest change of each movie or
    episode. The Arr client is a parameter: its answer to each page, which may
    change between two pages. *)
From S2P Require Import Prelude GoText Domain.

#[local] Open Scope Z_scope.

Inductive EventType := EventImport | EventRename | EventDelete.
Inductive HistoryState := HistoryPresent | HistoryAbsent | HistoryOutsideScope | HistoryUnset.

(** The event types of arrapi that the code names, and all others. *)
Inductive arr_event := EventDownloadImported | EventFileRenamed | EventFileDeleted | OtherArrEvent.

Record HistoryRecord := mkHistoryRecord { hr_id : Z; hr_date : instant; hr_event : arr_event; hr_movie : Z; hr_episode : Z }.
Record HistoryPage := mkHistoryPage { hp_page : Z; hp_size : Z; hp_total : Z; hp_records : list HistoryRecord }.

Record HistoryChange := mkChange {
  HistoryID : Z; ChEntityID : Z; ChKind : MediaKind; ChType : EventType; ChState : HistoryState; ChMedia : option Media; OccurredAt : instant;
}.

Inductive HistoryError :=
| HRequest | HInvalidPage | HIncompletePage | HIncompleteIdentity | HInconsistentIdentity | HUnordered | HNoProgress.

Definition historyEvent (e : arr_event) : option EventType :=
  match e with
  | EventDownloadImported => Some EventImport
  | EventFileRenamed => Some EventRename
  | EventFileDeleted => Some EventDelete
  | OtherArrEvent => None
  end.
Definition relevant (r : HistoryRecord) : bool := bool_decide (is_Some (historyEvent (hr_event r))).

(** ** Reading the window *)

Definition pageSize : Z := 100.

(** What the walk remembers between records: the dates of the ids seen, the
    records kept, the oldest date, and what the page brought. *)
Record walk := mkWalk { wk_seen : gmap Z instant; wk_records : list HistoryRecord; wk_oldest : instant; wk_progress : bool; wk_lower : bool }.

Section window.
Context (since through : instant).

(** [Truncate(time.Second)]. *)
Definition lower_bound : instant := since / second * second.

Definition keeps (r : HistoryRecord) : bool := (hr_date r <=? through) && relevant r.

Definition walk_record (r : HistoryRecord) (w : walk) : result HistoryError walk :=
  if (hr_id r <=? 0) || is_zero (hr_date r) then Err HIncompleteIdentity
  else match (wk_seen w !! hr_id r : option instant) with
       | Some date => if date =? hr_date r then Ok w else Err HInconsistentIdentity
       | None =>
           if negb (is_zero (wk_oldest w)) && (wk_oldest w <? hr_date r) then Err HUnordered
           else
             let w := mkWalk (<[hr_id r := hr_date r]> (wk_seen w)) (wk_records w) (hr_date r) true (wk_lower w) in
             if negb (is_zero since) && (hr_date r <? lower_bound) then
               Ok (mkWalk (wk_seen w) (wk_records w) (wk_oldest w) true true)
             else if keeps r then Ok (mkWalk (wk_seen w) (wk_records w ++ [r]) (wk_oldest w) true (wk_lower w)) else Ok w
       end.

Fixpoint walk_page (records : list HistoryRecord) (w : walk) : result HistoryError walk :=
  match records with
  | [] => Ok w
  | r :: records => let! w := walk_record r w in walk_page records w
  end.

Definition page_error (pageNumber previousTotal : Z) (p : HistoryPage) : option HistoryError :=
  if negb (hp_page p =? pageNumber) || (hp_total p <? previousTotal) || negb (hp_size p =? pageSize)
     || (pageSize <? Z.of_nat (length (hp_records p))) || (hp_total p <? Z.of_nat (length (hp_records p)))
  then Some HInvalidPage
  else
    let expected := Z.min pageSize (Z.max 0 (hp_total p - (pageNumber - 1) * pageSize)) in
    if negb (Z.of_nat (length (hp_records p)) =? expected) then Some HIncompletePage else None.

Context (History : Z -> option HistoryPage).

(** [None] when more pages are read than the fuel allows. *)
Fixpoint read_pages (fuel : nat) (pageNumber previousTotal received : Z) (w : walk) : option (result HistoryError (list HistoryRecord)) :=
  match fuel with
  | O => None
  | S fuel =>
      match History pageNumber with
      | None => Some (Err HRequest)
      | Some p =>
          match page_error pageNumber previousTotal p with
          | Some e => Some (Err e)
          | None =>
              if bool_decide (hp_records p = []) then
                Some (if received <? hp_total p then Err HIncompletePage else Ok (wk_records w))
              else
                match walk_page (hp_records p) (mkWalk (wk_seen w) (wk_records w) (wk_oldest w) false false) with
                | Err e => Some (Err e)
                | Ok w =>
                    if negb (wk_progress w) then Some (Err HNoProgress)
                    else
                      let received := received + Z.of_nat (length (hp_records p)) in
                      if wk_lower w || (0 <? hp_total p) && (hp_total p <=? received) then Some (Ok (wk_records w))
                      else read_pages fuel (pageNumber + 1) (hp_total p) received w
                end
          end
      end
  end.

Definition readHistoryWindow (fuel : nat) : option (result HistoryError (list HistoryRecord)) :=
  read_pages fuel 1 0 0 (mkWalk ∅ [] zero_time false false).
End window.

(** ** The latest change of each entity *)

Definition older_record (a b : HistoryRecord) : bool :=
  if hr_date a =? hr_date b then hr_id a <? hr_id b else hr_date a <? hr_date b.

Definition older_change (a b : HistoryChange) : bool :=
  if negb (OccurredAt a =? OccurredAt b) then OccurredAt a <? OccurredAt b
  else if negb (HistoryID a =? HistoryID b) then HistoryID a <? HistoryID b
  else ChEntityID a <? ChEntityID b.

Definition sortHistoryChanges (changes : list HistoryChange) : list HistoryChange := stable_sort older_change changes.

Section reduce.
Context (kind : MediaKind) (through : instant) (entityID : HistoryRecord -> Z).

Fixpoint latest_changes (records : list HistoryRecord) (latest : gmap Z HistoryChange) : result HistoryError (gmap Z HistoryChange) :=
  match records with
  | [] => Ok latest
  | r :: records =>
      match historyEvent (hr_event r) with
      | None => latest_changes records latest
      | Some type =>
          if is_zero (hr_date r) then Err HIncompleteIdentity
          else if through <? hr_date r then latest_changes records latest
          else if (hr_id r <=? 0) || (entityID r <=? 0) then Err HIncompleteIdentity
          else latest_changes records (<[entityID r := mkChange (hr_id r) (entityID r) kind type HistoryUnset None (hr_date r)]> latest)
      end
  end.

(** The iteration over the map is sorted, by a key that tells its entries
    apart. *)
Definition reduceHistoryByEntity (records : list HistoryRecord) : result HistoryError (list HistoryChange) :=
  let! latest := latest_changes (stable_sort older_record records) ∅ in
  Ok (sortHistoryChanges (map_to_list latest).*2).
End reduce.

(** ** What a window holds *)

Definition in_window (since through : instant) (r : HistoryRecord) : Prop :=
  (since = zero_time \/ lower_bound since <= hr_date r) /\ hr_date r <= through /\ is_Some (historyEvent (hr_event r)).

Record history_ok (h : list HistoryRecord) : Prop := {
  ho_ids : NoDup (hr_id <$> h);
  ho_known : forall r, r ∈ h -> 0 < hr_id r /\ hr_date r <> zero_time;
  ho_sorted : forall i j a b, h !! i = Some a -> h !! j = Some b -> (i <= j)%nat -> hr_date b <= hr_date a;
}.

Lemma newest_first h : StronglySorted (fun a b => hr_date b <= hr_date a) h ->
  forall i j a b, h !! i = Some a -> h !! j = Some b -> (i <= j)%nat -> hr_date b <= hr_date a.
Proof.
  induction 1 as [|c h _ IH Hc]; intros i j a b Ha Hb Hij; [done|]. destruct i as [|i]; [|destruct j as [|j]; [lia|apply (IH i j a b); [done|done|lia]]].
  injection Ha as ->. destruct j as [|j]; [injection Hb as ->; lia|]. by apply (Forall_lookup_1 _ _ _ _ Hc) in Hb.
Qed.

Lemma same_record h a b : history_ok h -> a ∈ h -> b ∈ h -> hr_id a = hr_id b -> a = b.
Proof.
  intros Hh [i Ha]%list_elem_of_lookup [j Hb]%list_elem_of_lookup E.
  assert (i = j) as <-; [|congruence].
  apply (NoDup_lookup (hr_id <$> h) i j (hr_id a)); [apply ho_ids, Hh|by rewrite list_lookup_fmap, Ha|by rewrite list_lookup_fmap, Hb, E].
Qed.

Section walking.
Context (since through : instant).
#[local] Abbreviation walk_record := (walk_record since through).
#[local] Abbreviation walk_page := (walk_page since through).
#[local] Abbreviation in_window := (in_window since through).

(** The records kept are those of the window among the ids seen. *)
Record walked (h : list HistoryRecord) (w : walk) : Prop := {
  wd_kept : forall r, r ∈ wk_records w -> r ∈ h /\ in_window r;
  wd_all : forall r, r ∈ h -> is_Some (wk_seen w !! hr_id r) -> in_window r -> r ∈ wk_records w;
  wd_seen : forall i, is_Some (wk_seen w !! i) -> exists r, r ∈ h /\ hr_id r = i;
}.

Lemma keeps_spec r : keeps through r = true <-> hr_date r <= through /\ is_Some (historyEvent (hr_event r)).
Proof. unfold keeps, relevant. by rewrite andb_true_iff, Z.leb_le, bool_decide_eq_true. Qed.

Definition below (r : HistoryRecord) : Prop := since <> zero_time /\ hr_date r < lower_bound since.

Lemma walk_record_keeps h r w w' : history_ok h -> r ∈ h -> walked h w -> walk_record r w = Ok w' ->
  walked h w' /\ is_Some (wk_seen w' !! hr_id r) /\ (forall i, is_Some (wk_seen w !! i) -> is_Some (wk_seen w' !! i))
  /\ (wk_lower w' = true -> wk_lower w = true \/ below r).
Proof.
  intros Hh Hr Hw. unfold History.walk_record. destruct (_ || _); [done|].
  destruct (wk_seen w !! hr_id r) as [date|] eqn:Es.
  { destruct (date =? hr_date r); [|done]. intros [= <-]. split_and!; [done|by eexists|done|by left]. }
  destruct (_ && _) eqn:Eo; [done|]. clear Eo.
  assert (forall kept, (forall q, q ∈ kept <-> q ∈ wk_records w \/ q = r /\ in_window r) -> forall oldest progress lower,
    walked h (mkWalk (<[hr_id r := hr_date r]> (wk_seen w)) kept oldest progress lower)) as Hstep.
  { intros kept Hk oldest progress lower. split; cbn.
    - intros q [Hq|[-> Hi]]%Hk; [by apply (wd_kept _ _ Hw)|done].
    - intros q Hq Hs Hi. apply Hk. destruct (decide (hr_id q = hr_id r)) as [E|Hne]; [right|left].
      + assert (q = r) as -> by (by eapply same_record). done.
      + apply (wd_all _ _ Hw); [done| |done]. by rewrite lookup_insert_ne in Hs by done.
    - intros i Hs. destruct (decide (hr_id r = i)) as [<-|Hne]; [by exists r|]. rewrite lookup_insert_ne in Hs by done. by apply (wd_seen _ _ Hw). }
  assert (forall i, is_Some (wk_seen w !! i) -> is_Some (<[hr_id r := hr_date r]> (wk_seen w) !! i)) as Hmono.
  { intros i Hi. destruct (decide (hr_id r = i)) as [<-|]; [by rewrite lookup_insert_eq|by rewrite lookup_insert_ne]. }
  assert (is_Some (<[hr_id r := hr_date r]> (wk_seen w) !! hr_id r)) as Hin by by rewrite lookup_insert_eq.
  destruct (negb (is_zero since) && (hr_date r <? lower_bound since)) eqn:El; [|destruct (keeps through r) eqn:Ek]; intros [= <-]; cbn.
  - assert (below r) as Hb by (unfold below, is_zero in *; lia). split_and!; [|done|done|by right]. apply Hstep. intros q.
    split; [by left|intros [?|[_ [[?|?] _]]]; [done|unfold below in Hb; lia..]].
  - split_and!; [|done|done|by left]. apply Hstep. intros q. rewrite elem_of_app, list_elem_of_singleton.
    assert (in_window r); [|naive_solver]. apply keeps_spec in Ek as [? ?]. split_and!; [unfold is_zero in *; lia|done..].
  - split_and!; [|done|done|by left]. apply Hstep. intros q. split; [by left|]. intros [?|[_ [_ Hk]]]; [done|].
    apply keeps_spec in Hk. congruence.
Qed.

Lemma walk_page_keeps h l w w' : history_ok h -> (forall r, r ∈ l -> r ∈ h) -> walked h w -> walk_page l w = Ok w' ->
  walked h w' /\ (forall r, r ∈ l -> is_Some (wk_seen w' !! hr_id r)) /\ (forall i, is_Some (wk_seen w !! i) -> is_Some (wk_seen w' !! i))
  /\ (wk_lower w' = true -> wk_lower w = true \/ exists r, r ∈ l /\ below r).
Proof.
  intros Hh. revert w. induction l as [|r l IH]; intros w Hl Hw.
  { intros [= <-]. split_and!; [done|by intros r ?%elem_of_nil|done|by left]. }
  cbn. intros (w1 & E1 & E)%rbind_ok.
  apply (walk_record_keeps h) in E1 as (Hw1 & Hs1 & Hm1 & Hl1); [|done|apply Hl; left|done].
  apply IH in E as (Hw' & Hs & Hm & Hlow); [|intros q Hq; apply Hl; by right|done].
  split_and!; [done| |by eauto|].
  - intros q [->|Hq]%elem_of_cons; [by apply Hm|by apply Hs].
  - intros [H1|(q & Hq & Hb)]%Hlow.
    + apply Hl1 in H1 as [?|?]; [by left|]. right. exists r. split; [by left|done].
    + right. exists q. split; [by right|done].
Qed.

(** Records in order, none seen before, bring no error. *)
Lemma walk_page_goes l w : history_ok l -> (forall r, r ∈ l -> wk_seen w !! hr_id r = None) ->
  (wk_oldest w = zero_time \/ forall r, r ∈ l -> hr_date r <= wk_oldest w) ->
  exists w', walk_page l w = Ok w' /\ (wk_progress w' = true <-> wk_progress w = true \/ l <> [])
    /\ (forall i, wk_seen w' !! i = None <-> wk_seen w !! i = None /\ i ∉ hr_id <$> l)
    /\ wk_oldest w' = match last l with Some r => hr_date r | None => wk_oldest w end.
Proof.
  revert w. induction l as [|r l IH]; intros w Hl Hs Ho.
  { exists w. split_and!; [done|naive_solver|cbn; set_solver|done]. }
  destruct (ho_known _ Hl r) as [Hid Hdate]; [by left|]. pose proof (ho_ids _ Hl) as [Hni Hnd]%NoDup_cons.
  assert (exists w1, walk_record r w = Ok w1 /\ wk_progress w1 = true /\ wk_seen w1 = <[hr_id r := hr_date r]> (wk_seen w) /\ wk_oldest w1 = hr_date r)
    as (w1 & E1 & Hp1 & Hs1 & Ho1).
  { unfold History.walk_record. rewrite (proj2 (Z.leb_gt _ _)) by lia. unfold is_zero at 1. rewrite (proj2 (Z.eqb_neq _ _)) by done. cbn [orb].
    assert (wk_seen w !! hr_id r = None) as Hsr by (apply Hs; by left). rewrite Hsr. assert (negb (is_zero (wk_oldest w)) && (wk_oldest w <? hr_date r) = false) as ->.
    { destruct Ho as [->|Ho]; [done|]. specialize (Ho r). unfold is_zero. assert (r ∈ r :: l) by by left. specialize (Ho H). lia. }
    destruct (_ && _); [|destruct (keeps _ _)]; by eexists. }
  assert (history_ok l) as Hl'.
  { split; [done|intros q Hq; apply (ho_known _ Hl); by right|]. intros i j a b Ha Hb Hij. apply (ho_sorted _ Hl (S i) (S j) a b); [done..|lia]. }
  destruct (IH w1) as (w' & E & Hp & Hs' & Ho'); [done| | |].
  - intros q Hq. rewrite Hs1, lookup_insert_ne; [apply Hs; by right|]. intros E. apply Hni. rewrite E. by apply list_elem_of_fmap_2.
  - right. intros q [j Hj]%list_elem_of_lookup. rewrite Ho1. apply (ho_sorted _ Hl 0 (S j)); [done..|lia].
  - exists w'. cbn. rewrite E1. cbn. split_and!; [done| | |].
    + rewrite Hp. naive_solver.
    + intros i. rewrite Hs', Hs1. destruct (decide (hr_id r = i)) as [<-|Hne]; [rewrite lookup_insert_eq; set_solver|].
      rewrite lookup_insert_ne by done. set_solver.
    + rewrite Ho', last_cons. destruct (last l); done.
Qed.
End walking.

(** ** A history that grows while it is read

    Page [n] is served from the history [h n]; before it was asked for, the
    records [new] arrived in front of the older ones. *)

Section serving.
Context (since through : instant) (h new : nat -> list HistoryRecord).

Definition serve (p : Z) : option HistoryPage :=
  let h := h (Z.to_nat p) in
  Some (mkHistoryPage p pageSize (Z.of_nat (length h)) (take 100 (drop (Z.to_nat ((p - 1) * pageSize)) h))).

Context (grows : forall n, h (S n) = new n ++ h n) (ok : forall n, history_ok (h n)).
Context (later : forall n r, r ∈ new n -> through < hr_date r).

Fixpoint arrived (n : nat) : list HistoryRecord := match n with O => [] | S n => new n ++ arrived n end.

Lemma history_at n : h n = arrived n ++ h 0%nat.
Proof. induction n as [|n IH]; cbn; [done|]. by rewrite grows, IH, app_assoc. Qed.

Lemma arrived_later n r : r ∈ arrived n -> ~ in_window since through r.
Proof.
  induction n as [|n IH]; cbn; [by intros ?%elem_of_nil|]. intros [Hr|Hr]%elem_of_app; [|by apply IH].
  apply later in Hr. intros (_ & ? & _). lia.
Qed.

(** The window stands still. *)
Lemma window_fixed n r : in_window since through r -> r ∈ h n <-> r ∈ h 0%nat.
Proof.
  intros Hw. rewrite history_at, elem_of_app. split; [|by right]. intros [Hr|?]; [by apply arrived_later in Hr|done].
Qed.

(** What [n] pages have shown. *)
Record covered (n : nat) (w : walk) : Prop := {
  cv_walked : walked since through (h n) w;
  cv_seen : forall j r, h n !! j = Some r -> (length (arrived n) <= j < 100 * n)%nat -> is_Some (wk_seen w !! hr_id r);
}.

Lemma covered_grows n w : covered n w ->
  walked since through (h (S n)) w
  /\ forall j r, h (S n) !! j = Some r -> (length (arrived (S n)) <= j < 100 * n)%nat -> is_Some (wk_seen w !! hr_id r).
Proof.
  intros [Hw Hs]. split.
  - split.
    + intros r Hr. destruct (wd_kept _ _ _ _ Hw r Hr). rewrite grows, elem_of_app. by auto.
    + intros r Hr Hseen Hi. pose proof Hr as Hr'. rewrite grows in Hr. apply elem_of_app in Hr as [Hr|Hr]; [|by apply (wd_all _ _ _ _ Hw)].
      apply later in Hr. destruct Hi as (_ & ? & _). lia.
    + intros i Hi. destruct (wd_seen _ _ _ _ Hw i Hi) as (r & Hr & E). exists r. rewrite grows, elem_of_app. by auto.
  - intros j r Hj Hl. cbn in Hl. rewrite length_app in Hl. rewrite grows, lookup_app_r in Hj by lia. apply (Hs _ _ Hj). lia.
Qed.

(** One page. *)
Lemma page_covers n w w' : covered n w ->
  walk_page since through (take 100 (drop (100 * n) (h (S n)))) (mkWalk (wk_seen w) (wk_records w) (wk_oldest w) false false) = Ok w' ->
  covered (S n) w'
  /\ (wk_lower w' = true -> exists j q, h (S n) !! j = Some q /\ (j < 100 * S n)%nat /\ below since q).
Proof.
  intros [Hw Hs]%covered_grows E.
  assert (forall r, r ∈ take 100 (drop (100 * n) (h (S n))) -> exists j, h (S n) !! j = Some r /\ (100 * n <= j < 100 * S n)%nat) as Hpage.
  { intros r [j Hj]%list_elem_of_lookup. apply lookup_take_Some in Hj as [Hj ?]. rewrite lookup_drop in Hj. exists (100 * n + j)%nat. split; [done|lia]. }
  apply (walk_page_keeps since through (h (S n))) in E as (Hw' & Hp & Hm & Hlow); [|apply ok| |by destruct Hw; split].
  2:{ intros r (j & Hj & _)%Hpage. by eapply list_elem_of_lookup_2. }
  split; [split; [done|]|].
  - intros j r Hj Hl. destruct (decide (j < 100 * n)%nat); [apply Hm, (Hs _ _ Hj); lia|]. apply Hp.
    apply (list_elem_of_lookup_2 _ (j - 100 * n)). rewrite lookup_take, decide_True by lia. rewrite lookup_drop. rewrite <- Hj. f_equal. lia.
  - intros [?|(r & (j & Hj & ?)%Hpage & Hb)]%Hlow; [done|]. exists j, r. split_and!; [done|lia|done].
Qed.

(** Once every position before one that is out of the window was shown, the
    records kept are those of the window. *)
Lemma covered_exact n w : covered n w ->
  (forall j r, h n !! j = Some r -> in_window since through r -> (j < 100 * n)%nat) ->
  forall r, r ∈ wk_records w <-> r ∈ h 0%nat /\ in_window since through r.
Proof.
  intros [Hw Hs] Hall r. split.
  - intros [Hr Hi]%(wd_kept _ _ _ _ Hw). split; [by apply (window_fixed n)|done].
  - intros [Hr Hi]. pose proof Hr as [j Hj]%list_elem_of_lookup.
    assert (h n !! (length (arrived n) + j)%nat = Some r) as Hn by (rewrite history_at, lookup_app_r by lia; rewrite <- Hj; f_equal; lia).
    apply (wd_all _ _ _ _ Hw); [by eapply list_elem_of_lookup_2| |done]. apply (Hs _ _ Hn). split; [lia|]. by apply (Hall _ _ Hn).
Qed.

Lemma pages_exact fuel n previous w records : covered n w ->
  read_pages since through serve fuel (Z.of_nat n + 1) previous (100 * Z.of_nat n) w = Some (Ok records) ->
  forall r, r ∈ records <-> r ∈ h 0%nat /\ in_window since through r.
Proof.
  revert n previous w. induction fuel as [|fuel IH]; intros n previous w Hc; [done|]. cbn [read_pages]. unfold serve at 1. cbv zeta.
  replace (Z.to_nat (Z.of_nat n + 1)) with (S n) by lia. replace (Z.to_nat ((Z.of_nat n + 1 - 1) * pageSize)) with (100 * n)%nat by (unfold pageSize; lia).
  unfold page_error. cbn [hp_page hp_total hp_size hp_records].
  destruct (_ || _ || _ || _ || _); [done|]. destruct (negb (_ =? Z.min _ _)) eqn:Ee; [done|]. apply negb_false_iff, Z.eqb_eq in Ee. unfold pageSize in Ee.
  destruct (bool_decide _) eqn:Eb; [apply bool_decide_eq_true in Eb|apply bool_decide_eq_false in Eb].
  - destruct (Z.ltb_spec (100 * Z.of_nat n) (Z.of_nat (length (h (S n))))) as [|Hl]; [done|]. intros [= <-].
    assert (covered (S n) w) as Hc'.
    { apply covered_grows in Hc as [Hw Hs]. split; [done|]. intros j r Hj Hr. apply (Hs _ _ Hj). apply lookup_lt_Some in Hj. lia. }
    apply (covered_exact _ _ Hc'). intros j r Hj%lookup_lt_Some _. lia.
  - destruct (walk_page _ _ _ _) as [w'|] eqn:Ew; [|done]. destruct (page_covers _ _ _ Hc Ew) as [Hc' Hlow].
    destruct (wk_progress w'); [|done]. cbn [negb]. rewrite Ee. destruct (_ || _) eqn:Estop.
    + intros [= <-]. apply (covered_exact _ _ Hc'). intros j r Hj Hi. apply orb_true_iff in Estop as [Hb|Hb].
      * destruct (Hlow Hb) as (k & q & Hk & ? & Hz & Hq). destruct Hi as ([?|Hi] & _); [done|].
        destruct (decide (j <= k)%nat); [lia|]. pose proof (ho_sorted _ (ok (S n)) k j q r Hk Hj). lia.
      * apply lookup_lt_Some in Hj. lia.
    + assert (length (h (S n)) > 100 * S n)%nat.
      { assert (take 100 (drop (100 * n) (h (S n))) <> []) as Hne by done. assert (0 < length (h (S n)))%nat; [|lia].
        destruct (h (S n)); [by rewrite drop_nil, take_nil in Hne|cbn; lia]. }
      replace (100 * Z.of_nat n + _) with (100 * Z.of_nat (S n)) by lia. replace (Z.of_nat n + 1 + 1) with (Z.of_nat (S n) + 1) by lia.
      by apply IH.
Qed.
End serving.

(** ** Reading ends *)

Lemma pages_end since through History T fuel n previous received w :
  (forall p page, History p = Some page -> hp_total page <= T) -> 0 < n -> T <= 100 * (n - 1 + Z.of_nat fuel) ->
  is_Some (read_pages since through History (S fuel) n previous received w).
Proof.
  intros HT. revert n previous received w. induction fuel as [|fuel IH]; intros n previous received w Hn Hf.
  all: cbn [read_pages]; destruct (History n) as [p|] eqn:Ep; [|by eexists]; specialize (HT _ _ Ep) as Hp.
  all: unfold page_error; destruct (_ || _ || _ || _ || _); [by eexists|]; destruct (negb (_ =? Z.min _ _)) eqn:Ee; [by eexists|].
  all: apply negb_false_iff, Z.eqb_eq in Ee; unfold pageSize in Ee; case_bool_decide as Eb; [by eexists|].
  - destruct (hp_records p); [done|cbn in Ee; lia].
  - destruct (walk_page _ _ _ _) as [w'|]; [|by eexists]. destruct (wk_progress w'); [|by eexists]. cbn [negb]. destruct (_ || _); [by eexists|].
    apply IH; lia.
Qed.

Lemma history_app l1 l2 : history_ok (l1 ++ l2) ->
  history_ok l1 /\ history_ok l2 /\ forall a b, a ∈ l1 -> b ∈ l2 -> hr_id a <> hr_id b /\ hr_date b <= hr_date a.
Proof.
  intros [Hi Hk Hs]. rewrite fmap_app in Hi. apply NoDup_app in Hi as (H1 & Hd & H2).
  split; [|split].
  - split; [done|intros r Hr; apply Hk, elem_of_app; by left|]. intros i j a b Ha Hb. apply Hs; by apply lookup_app_l_Some.
  - split; [done|intros r Hr; apply Hk, elem_of_app; by right|]. intros i j a b Ha Hb Hij.
    apply (Hs (length l1 + i)%nat (length l1 + j)%nat); [by rewrite lookup_app_r, Nat.add_comm, Nat.add_sub by lia..|lia].
  - intros a b Ha Hb. split.
    + intros E. apply (Hd (hr_id a)); [by apply list_elem_of_fmap_2|]. rewrite E. by apply list_elem_of_fmap_2.
    + apply list_elem_of_lookup in Ha as [i Ha], Hb as [j Hb]. pose proof (lookup_lt_Some _ _ _ Ha).
      apply (Hs i (length l1 + j)%nat); [by apply lookup_app_l_Some|by rewrite lookup_app_r, Nat.add_comm, Nat.add_sub by lia|lia].
Qed.

(** Nothing goes wrong when nothing changes. *)
Lemma still_pages since through h fuel n previous w :
  (forall k : nat, history_ok (h k)) -> (forall k, h k = h 0%nat) ->
  (forall i, wk_seen w !! i = None <-> i ∉ hr_id <$> take (100 * n) (h 0%nat)) ->
  (wk_oldest w = zero_time \/ forall r, r ∈ drop (100 * n) (h 0%nat) -> hr_date r <= wk_oldest w) ->
  (n = 0 \/ 100 * n < length (h 0))%nat -> (length (h 0) <= 100 * (n + fuel))%nat -> previous <= Z.of_nat (length (h 0%nat)) ->
  exists records, read_pages since through (serve h) (S fuel) (Z.of_nat n + 1) previous (100 * Z.of_nat n) w = Some (Ok records).
Proof.
  intros Hok Hh. revert n previous w. induction fuel as [|fuel IH]; intros n previous w Hs Ho Hn Hf Hp.
  all: cbn [read_pages]; unfold serve at 1; cbv zeta; rewrite (Hh (Z.to_nat _)).
  all: replace (Z.to_nat ((Z.of_nat n + 1 - 1) * pageSize)) with (100 * n)%nat by (unfold pageSize; lia).
  all: assert (Z.of_nat (length (take 100 (drop (100 * n) (h 0%nat)))) = Z.min pageSize (Z.max 0 (Z.of_nat (length (h 0%nat)) - (Z.of_nat n + 1 - 1) * pageSize)))
    as El by (rewrite length_take, length_drop; unfold pageSize; lia).
  all: unfold page_error; cbn [hp_page hp_total hp_size hp_records].
  all: rewrite Z.eqb_refl, (proj2 (Z.ltb_ge (Z.of_nat (length (h 0%nat))) previous)), Z.eqb_refl by done; cbn [negb orb].
  all: rewrite (proj2 (Z.ltb_ge pageSize _)), (proj2 (Z.ltb_ge (Z.of_nat (length (h 0%nat))) _)) by (unfold pageSize in *; lia).
  all: rewrite El, Z.eqb_refl; cbn [negb orb]; rewrite <- El.
  - destruct Hn as [->|]; [|lia]. destruct (h 0%nat); [cbn|cbn in Hf; lia]. by eexists.
  - case_bool_decide as Eb.
    { rewrite Eb in El. cbn in El. unfold pageSize in El. rewrite (proj2 (Z.ltb_ge _ _)) by lia. by eexists. }
    set (page := take 100 (drop (100 * n) (h 0%nat))) in *.
    assert (h 0%nat = take (100 * n) (h 0%nat) ++ drop (100 * n) (h 0%nat)) as Hsplit by by rewrite take_drop.
    assert (take (100 * S n) (h 0%nat) = take (100 * n) (h 0%nat) ++ page) as Hnext by (unfold page; rewrite take_take_drop; f_equal; lia).
    assert (drop (100 * n) (h 0%nat) = page ++ drop (100 * S n) (h 0%nat)) as Hrest.
    { unfold page. rewrite <- (take_drop 100 (drop (100 * n) (h 0%nat))) at 1. rewrite drop_drop. do 2 f_equal. lia. }
    pose proof (Hok 0%nat) as Hh0. rewrite Hsplit, Hrest in Hh0. apply history_app in Hh0 as (_ & [Hpok [_ Hafter]]%history_app & Hsep).
    destruct (walk_page_goes since through page (mkWalk (wk_seen w) (wk_records w) (wk_oldest w) false false)) as (w' & Ew & Hprog & Hseen & Hold).
    + by apply Hpok.
    + intros r Hr. apply Hs. intros (q & E & Hq)%list_elem_of_fmap. destruct (Hsep q r) as [Hne _]; [done|apply elem_of_app; by left|congruence].
    + destruct Ho as [|Ho]; [by left|right]. intros r Hr. apply Ho. rewrite Hrest. apply elem_of_app. by left.
    + rewrite Ew. cbn [wk_progress] in Hprog. destruct (wk_progress w') eqn:Epr; [|naive_solver]. cbn [negb].
      destruct (_ || _) eqn:Estop; [by eexists|].
      apply orb_false_iff in Estop as [_ Estop]. assert (0 < length page)%nat by (destruct page; [done|cbn; lia]). replace (100 * Z.of_nat n + _) with (100 * Z.of_nat (S n)) by (unfold pageSize in *; lia).
      assert (100 * S n < length (h 0%nat))%nat by (unfold pageSize in *; lia).
      replace (Z.of_nat n + 1 + 1) with (Z.of_nat (S n) + 1) by lia. apply IH; [|right|by right|lia|lia].
      * intros i. rewrite Hseen, Hnext, fmap_app, not_elem_of_app. cbn [wk_seen]. by rewrite Hs.
      * intros r Hr. rewrite Hold. destruct (last page) as [q|] eqn:Eq; [|by apply last_None in Eq].
        apply (Hafter q r); [by apply last_Some_elem_of|done].
Qed.

(** ** The latest change *)

Section latest.
Context (kind : MediaKind) (through : instant) (entityID : HistoryRecord -> Z).

Definition change_of (r : HistoryRecord) (type : EventType) : HistoryChange :=
  mkChange (hr_id r) (entityID r) kind type HistoryUnset None (hr_date r).

Definition counts (r : HistoryRecord) : Prop := is_Some (historyEvent (hr_event r)) /\ hr_date r <= through.

(** The reduction keeps, for each entity, the last record that counts. *)
Lemma latest_spec records m0 m : latest_changes kind through entityID records m0 = Ok m ->
  forall e c, m !! e = Some c <->
    (exists i r type, records !! i = Some r /\ counts r /\ entityID r = e /\ historyEvent (hr_event r) = Some type /\ c = change_of r type
      /\ forall j q, (i < j)%nat -> records !! j = Some q -> counts q -> entityID q <> e)
    \/ m0 !! e = Some c /\ forall q, q ∈ records -> counts q -> entityID q <> e.
Proof.
  revert m0. induction records as [|r records IH]; intros m0.
  { intros [= <-] e c. split; [intros ?; right; split; [done|by intros q ?%elem_of_nil]|]. intros [(? & ? & ? & ? & _)|[? _]]; done. }
  cbn [latest_changes].
  assert (forall m0', ~ counts r -> latest_changes kind through entityID records m0' = Ok m -> forall e c, m !! e = Some c <->
    (exists i q type, (r :: records) !! i = Some q /\ counts q /\ entityID q = e /\ historyEvent (hr_event q) = Some type /\ c = change_of q type
      /\ forall j p, (i < j)%nat -> (r :: records) !! j = Some p -> counts p -> entityID p <> e)
    \/ m0' !! e = Some c /\ forall q, q ∈ r :: records -> counts q -> entityID q <> e) as Hskip.
  { intros m0' Hn E e c. rewrite (IH _ E). split; intros [H|[H1 H2]].
    - left. destruct H as (i & q & type & ? & ? & ? & ? & ? & H). exists (S i), q, type. split_and!; [done..|]. intros [|j] p Hj Hp; [lia|]. apply (H j); [lia|done].
    - right. split; [done|]. intros q [->|Hq]%elem_of_cons Hc; [done|by apply H2].
    - left. destruct H as ([|i] & q & type & Hq & Hc & ? & ? & ? & H); [by injection Hq as <-|]. exists i, q, type. split_and!; [done..|].
      intros j p Hj. apply (H (S j)). lia.
    - right. split; [done|]. intros q Hq. apply H2. by right. }
  destruct (historyEvent (hr_event r)) as [type|] eqn:Et; [|apply Hskip; unfold counts; rewrite Et; by intros [[? ?] _]].
  destruct (is_zero _); [done|]. destruct (Z.ltb_spec through (hr_date r)) as [|Hle]; [apply Hskip; unfold counts; lia|].
  destruct (_ || _); [done|]. assert (counts r) as Hc by (unfold counts; rewrite Et; by split).
  intros E e c. rewrite (IH _ E). clear Hskip IH E. split; intros [H|[H1 H2]].
  - left. destruct H as (i & q & type' & ? & ? & ? & ? & ? & H). exists (S i), q, type'. split_and!; [done..|]. intros [|j] p Hj Hp; [lia|]. apply (H j); [lia|done].
  - destruct (decide (entityID r = e)) as [<-|Hne].
    + rewrite lookup_insert_eq in H1. injection H1 as <-. left. exists 0%nat, r, type. split_and!; [done..|].
      intros [|j] p Hj Hp; [lia|]. apply H2. by eapply list_elem_of_lookup_2.
    + rewrite lookup_insert_ne in H1 by done. right. split; [done|]. intros q [->|Hq]%elem_of_cons; [done|by apply H2].
  - destruct H as ([|i] & q & type' & Hq & Hcq & He & Ht & Ec & H).
    + injection Hq as <-. right. rewrite Et in Ht. injection Ht as <-. split; [by rewrite <- He, lookup_insert_eq, Ec|].
      intros p [j Hj]%list_elem_of_lookup. apply (H (S j)); [lia|done].
    + left. exists i, q, type'. split_and!; [done..|]. intros j p Hj. apply (H (S j)). lia.
  - right. assert (entityID r <> e) by (apply (H2 r); [by left|done]). rewrite lookup_insert_ne by done.
    split; [done|]. intros q Hq. apply H2. by right.
Qed.

(** Whatever the records, the changes have their identity. *)
Definition identified_change (c : HistoryChange) : Prop :=
  0 < HistoryID c /\ 0 < ChEntityID c /\ ChKind c = kind /\ OccurredAt c <> zero_time /\ ChState c = HistoryUnset.

Lemma latest_identified records m0 m : latest_changes kind through entityID records m0 = Ok m ->
  map_Forall (fun e c => identified_change c /\ ChEntityID c = e) m0 -> map_Forall (fun e c => identified_change c /\ ChEntityID c = e) m.
Proof.
  revert m0. induction records as [|r records IH]; intros m0; cbn [latest_changes]; [by intros [= <-]|].
  destruct (historyEvent _); [|by apply IH]. destruct (is_zero _) eqn:Ez; [done|]. destruct (through <? _); [by apply IH|].
  destruct (_ || _) eqn:Ei; [done|]. intros E Hm. apply (IH _ E). apply map_Forall_insert_2; [|done]. unfold is_zero, identified_change in *. cbn. bools. split_and!; (done || lia).
Qed.

Lemma reduced_identified records changes : reduceHistoryByEntity kind through entityID records = Ok changes ->
  Forall identified_change changes /\ NoDup (ChEntityID <$> changes).
Proof.
  intros (m & Em & [= <-])%rbind_ok. apply latest_identified in Em; [|done]. unfold sortHistoryChanges. rewrite stable_sort_perm. split.
  - apply Forall_forall. intros c ([e c'] & -> & He%elem_of_map_to_list)%list_elem_of_fmap. by apply Em in He as [? _].
  - rewrite <- list_fmap_compose. rewrite (list_fmap_ext _ fst); [apply NoDup_fst_map_to_list|].
    intros i [e c] He%list_elem_of_lookup_2%elem_of_map_to_list. cbn. by apply Em in He as [_ ?].
Qed.

Lemma latest_goes records m0 : (forall r, r ∈ records -> 0 < hr_id r /\ hr_date r <> zero_time) ->
  (forall r, r ∈ records -> counts r -> 0 < entityID r) -> exists m, latest_changes kind through entityID records m0 = Ok m.
Proof.
  revert m0. induction records as [|r records IH]; intros m0 Hk He; [by eexists|]. cbn [latest_changes].
  assert (forall m0', exists m, latest_changes kind through entityID records m0' = Ok m) as Hrest
    by (intros m0'; apply IH; intros q Hq; [apply Hk|apply He]; by right).
  destruct (historyEvent (hr_event r)) as [type|] eqn:Et; [|done]. destruct (Hk r) as [? Hz]; [by left|]. unfold is_zero. rewrite (proj2 (Z.eqb_neq _ _)) by done.
  destruct (Z.ltb_spec through (hr_date r)); [done|]. assert (0 < entityID r) by (apply He; [by left|unfold counts; by rewrite Et]).
  rewrite (proj2 (Z.leb_gt _ _)), (proj2 (Z.leb_gt _ _)) by done. apply Hrest.
Qed.
End latest.

Lemma record_order l i j a b : stable_sort older_record l !! i = Some a -> stable_sort older_record l !! j = Some b -> (i <= j)%nat ->
  hr_date a < hr_date b \/ hr_date a = hr_date b /\ hr_id a <= hr_id b.
Proof.
  assert (StronglySorted (not_after older_record) (stable_sort older_record l)) as Hs.
  { apply stable_sort_sorted; unfold not_after, older_record; intros *; repeat case_match; bools; lia. }
  revert i j. induction Hs as [|c k _ IH Hc]; intros i j Ha Hb Hij; [done|].
  destruct i as [|i]; [|destruct j as [|j]; [lia|]; apply (IH i j); [done|done|lia]]. injection Ha as ->.
  destruct j as [|j]; [injection Hb as ->; lia|]. apply (Forall_lookup_1 _ _ _ _ Hc) in Hb. unfold not_after, older_record in Hb. case_match; bools; lia.
Qed.

Lemma last_such {A} (P : A -> Prop) `{forall x, Decision (P x)} (l : list A) x : x ∈ l -> P x ->
  exists i y, l !! i = Some y /\ P y /\ forall j z, (i < j)%nat -> l !! j = Some z -> ~ P z.
Proof.
  intros Hx HP. induction l as [|y l IH] using rev_ind; [by apply elem_of_nil in Hx|]. destruct (decide (P y)) as [Hy|Hy].
  - exists (length l), y. split_and!; [by apply list_lookup_middle|done|]. intros j z Hj Hz. apply lookup_lt_Some in Hz. rewrite length_app in Hz. cbn in Hz. lia.
  - apply elem_of_app in Hx as [Hx|Hx%list_elem_of_singleton]; [|by subst]. destruct (IH Hx) as (i & z & Hi & Hz & Hl).
    exists i, z. split_and!; [by apply lookup_app_l_Some|done|]. intros j q Hj [Hq|[_ Hq]]%lookup_app_Some; [by eapply Hl|].
    apply list_lookup_singleton_Some in Hq as [_ <-]. done.
Qed.

#[local] Instance counts_dec through r : Decision (counts through r).
Proof. unfold counts. apply _. Defined.

(** The latest record of its entity in the window. *)
Definition latest_in (h : list HistoryRecord) (since through : instant) (entityID : HistoryRecord -> Z) (r : HistoryRecord) : Prop :=
  r ∈ h /\ in_window since through r
  /\ forall q, q ∈ h -> in_window since through q -> entityID q = entityID r ->
       hr_date q < hr_date r \/ hr_date q = hr_date r /\ hr_id q <= hr_id r.

Lemma reduced_window h since through kind entityID records changes : history_ok h ->
  (forall r, r ∈ records <-> r ∈ h /\ in_window since through r) ->
  reduceHistoryByEntity kind through entityID records = Ok changes ->
  forall c, c ∈ changes <-> exists r type, latest_in h since through entityID r /\ historyEvent (hr_event r) = Some type /\ c = change_of kind entityID r type.
Proof.
  intros Hh Hrec (m & Em & [= <-])%rbind_ok c. set (sorted := stable_sort older_record records) in *.
  assert (forall r, r ∈ sorted <-> r ∈ h /\ in_window since through r) as Hin by (intros r; unfold sorted; by rewrite stable_sort_perm).
  assert (forall r, in_window since through r -> counts through r) as Hcount by (unfold in_window, counts; naive_solver).
  pose proof (latest_spec _ _ _ _ _ _ Em) as Hspec. unfold sortHistoryChanges. rewrite stable_sort_perm. split.
  - intros ([e c'] & -> & Hm%elem_of_map_to_list)%list_elem_of_fmap. cbn.
    apply Hspec in Hm as [(i & r & type & Hi & _ & He & Ht & -> & Hlast)|[? _]]; [|done]. exists r, type. split_and!; [|done..].
    pose proof Hi as [Hr Hw]%list_elem_of_lookup_2%Hin. split_and!; [done..|]. intros q Hq Hqw E.
    assert (q ∈ sorted) as [j Hj]%list_elem_of_lookup by by apply Hin. apply (record_order records j i); [done..|].
    destruct (decide (j <= i)%nat); [done|]. destruct (Hlast j q); [lia|done|by apply Hcount|congruence].
  - intros (r & type & (Hr & Hw & Hl) & Ht & ->). apply list_elem_of_fmap. exists (entityID r, change_of kind entityID r type). split; [done|].
    apply elem_of_map_to_list. apply Hspec. left.
    destruct (last_such (fun q => counts through q /\ entityID q = entityID r) sorted r) as (i & q & Hi & [Hc Hq] & Hlast).
    { by apply Hin. } { split; [by apply Hcount|done]. }
    assert (q = r) as ->.
    { pose proof Hi as [Hqh Hqw]%list_elem_of_lookup_2%Hin. assert (r ∈ sorted) as [j Hj]%list_elem_of_lookup by by apply Hin.
      apply (same_record h); [done..|]. destruct (decide (j <= i)%nat) as [Hji|Hji].
      - pose proof (record_order records j i _ _ Hj Hi Hji). pose proof (Hl q Hqh Hqw Hq). lia.
      - destruct (Hlast j r); [lia|done|]. split; [by apply Hcount|done]. }
    exists i, r, type. split_and!; [done..|]. intros j q Hj Hjq Hcq Heq. by apply (Hlast j q).
Qed.

(** C12. The catalog learns the latest change of every movie or episode. While
    the history is read page by page, records dated after the window may arrive
    in front of it; when the walk succeeds all the same, the changes are exactly
    the latest record of each entity in the window of the history as it was
    when the walk began, none lost and none twice. The walk ends whatever the
    Arr application answers, as long as the totals it claims are bounded, and
    it succeeds on every well-formed history that stays the same meanwhile. *)
Theorem history_is_complete since through kind entityID (h new : nat -> list HistoryRecord) :
  (forall n, h (S n) = new n ++ h n) -> (forall n, history_ok (h n)) -> (forall n r, r ∈ new n -> through < hr_date r) ->
  (forall fuel records changes, readHistoryWindow since through (serve h) fuel = Some (Ok records) ->
     reduceHistoryByEntity kind through entityID records = Ok changes ->
     forall c, c ∈ changes <-> exists r type,
       latest_in (h 0%nat) since through entityID r /\ historyEvent (hr_event r) = Some type /\ c = change_of kind entityID r type)
  /\ (forall History T fuel, (forall p page, History p = Some page -> hp_total page <= T) -> T <= 100 * Z.of_nat fuel ->
       is_Some (readHistoryWindow since through History (S fuel)))
  /\ ((forall n, new n = []) -> (forall r, r ∈ h 0%nat -> 0 < entityID r) ->
       exists fuel records changes, readHistoryWindow since through (serve h) fuel = Some (Ok records)
         /\ reduceHistoryByEntity kind through entityID records = Ok changes).
Proof.
  intros Hg Hok Hlater.
  assert (forall fuel records, readHistoryWindow since through (serve h) fuel = Some (Ok records) ->
    forall r, r ∈ records <-> r ∈ h 0%nat /\ in_window since through r) as Hexact.
  { intros fuel records E. eapply (pages_exact since through h new Hg Hok Hlater fuel 0); [|exact E]. split; [|intros; lia].
    split; cbn; [by intros r ?%elem_of_nil|by intros r _ [? ?]|by intros i [? ?]]. }
  split_and!.
  - intros fuel records changes E Er. eapply reduced_window; [apply Hok|by eapply Hexact|done].
  - intros History T fuel HT Hf. apply (pages_end _ _ _ T); [done|lia..].
  - intros Hnew He. assert (forall k, h k = h 0%nat) as Hsame by (induction k as [|k IH]; [done|]; by rewrite Hg, Hnew, IH).
    destruct (still_pages since through h (length (h 0%nat)) 0 0 (mkWalk ∅ [] zero_time false false)) as [records E]; [done|done| |by left|by left|lia|lia|].
    { intros i. cbn. by split; [intros _ ?%elem_of_nil|]. }
    exists (S (length (h 0%nat))), records. pose proof (Hexact _ _ E) as Hr.
    destruct (latest_goes kind through entityID (stable_sort older_record records) ∅) as [m Em].
    + intros r. rewrite stable_sort_perm. intros [Hrh _]%Hr. by apply (ho_known _ (Hok 0%nat)).
    + intros r. rewrite stable_sort_perm. intros [Hrh _]%Hr _. by apply He.
    + eexists. split; [exact E|]. unfold reduceHistoryByEntity. rewrite Em. done.
Qed.

(** ** Two movies *)

Section sample.
Definition imported : HistoryRecord := mkHistoryRecord 8 (50 * second) EventDownloadImported 3 0.
Definition removed_later : HistoryRecord := mkHistoryRecord 9 (60 * second) EventFileDeleted 3 0.
Definition grabbed : HistoryRecord := mkHistoryRecord 7 (45 * second) OtherArrEvent 4 0.
Definition too_late : HistoryRecord := mkHistoryRecord 10 (200 * second) EventFileRenamed 4 0.
Definition sample_history (n : nat) : list HistoryRecord :=
  match n with O => [removed_later; imported; grabbed] | S _ => [too_late; removed_later; imported; grabbed] end.
Definition sample_new (n : nat) : list HistoryRecord := match n with O => [too_late] | S _ => [] end.

Example latest_of_two :
  (let! r := default (Err HRequest) (readHistoryWindow (40 * second) (100 * second) (serve sample_history) 2) in
   reduceHistoryByEntity MediaMovie (100 * second) hr_movie r)
  = Ok [mkChange 9 3 MediaMovie EventDelete HistoryUnset None (60 * second)].
Proof. vm_compute. reflexivity. Qed.

Lemma sample_history_ok n : history_ok (sample_history n).
Proof.
  destruct n; (split; [apply (bool_decide_unpack _); by vm_compute| |]).
  1, 3: intros r Hr; repeat (apply elem_of_cons in Hr as [->|Hr]; [by vm_compute|]); by apply elem_of_nil in Hr.
  all: apply newest_first; repeat constructor; cbn; unfold second; lia.
Qed.

Lemma history_is_complete_witness : is_Some (readHistoryWindow (40 * second) (100 * second) (serve sample_history) 2).
Proof.
  destruct (history_is_complete (40 * second) (100 * second) MediaMovie hr_movie sample_history sample_new) as (_ & Hends & _).
  - by intros [].
  - exact sample_history_ok.
  - intros [|n] r Hr; [apply list_elem_of_singleton in Hr as ->; by vm_compute|by apply elem_of_nil in Hr].
  - apply (Hends _ 4); [|lia]. unfold serve. intros p page [= <-]. cbn [hp_total]. destruct (Z.to_nat p); cbn; lia.
Defined.
End sample.
