(* ===== verification/Arr.v ===== *)
(** * What the catalogs of Sonarr and Radarr share (src/internal/catalog)

    The calls of a catalog: each has a number, the Arr application and the file
    system may answer differently at every call, and an error ends the
    operation. The fields of a file that both catalogs derive, and the two reads
    of the current item behind a history record. The HTTP client, JSON decoding
    and the arrapi client are parameters. *)
From S2P Require Import Prelude GoText Regex Domain Config PathMap MatchRelease History.

#[local] Open Scope Z_scope.

(** ** Calls *)

Inductive CatalogError :=
| CRequest                     (* a call of the Arr application failed *)
| CCanceled
| CHistory (e : HistoryError)
| CFuel                        (* more pages of history than the model reads *)
| CReference | CIdentity       (* an answer that names the wrong entity or file *)
| CIncomplete
| CMap (e : MapError).

(** An operation, by the number of calls made before it. *)
Definition arr (A : Type) : Type := nat -> nat * result CatalogError A.

Definition okay {A} (a : A) : arr A := fun n => (n, Ok a).
Definition fail {A} (e : CatalogError) : arr A := fun n => (n, Err e).
Definition call {A} (f : nat -> result CatalogError A) : arr A := fun n => (S n, f n).
Definition abind {A B} (m : arr A) (k : A -> arr B) : arr B :=
  fun n => match m n with (n, Ok a) => k a n | (n, Err e) => (n, Err e) end.
Definition attempt {A} (m : arr A) : arr (result CatalogError A) := fun n => match m n with (n, r) => (n, Ok r) end.
Definition require_ (b : bool) (e : CatalogError) : arr unit := if b then okay tt else fail e.

Notation "'read!' x ':=' m 'in' k" := (abind m (fun x => k))
  (at level 10, x binder, m at level 100, k at level 200, format "'[v' 'read!'  x  ':='  m  'in' '/' k ']'").

(** What a call of arrapi for one item brings: [IsNotFound] is told apart. *)
Inductive answer (A : Type) := Answer (a : A) | NotFound | Failed.
Arguments Answer {A} _.
Arguments NotFound {A}.
Arguments Failed {A}.

Definition mapped_unavailable (e : CatalogError) : bool := match e with CMap (MappedPathUnavailable _) => true | _ => false end.

(** [MapPath] as the file system answers at one call. It always ends for the
    mappings of a configuration (PathMap.v). *)
Definition map_at (sorted : list candidate -> list candidate) (lstat : nat -> text -> option FileError)
    (eval_symlinks : nat -> text -> result FileError text) (mappings : list PathMapping) (mediaRoots : list text)
    (n : nat) (path : text) : result MapError text :=
  default (Err CannotResolve) (MapPath sorted (lstat n) (eval_symlinks n) path mappings mediaRoots).

(** ** Fields *)

Definition alternateTitleStrings (titles : list text) : list text := base.filter (fun s => s <> []) titles.

Definition resolutionName (value : Z) : text := if value <=? 0 then [] else itoa value ++ t "p".

Definition runtime_part (i : nat) (part : text) : option Z :=
  match atoi part with
  | None => None
  | Some value =>
      if (value <? 0) || bool_decide (part = []) || bool_decide (head part = Some 43%N) then None
      else if (0 <? Z.of_nat i) && (negb (Z.of_nat (length part) =? 2) || (59 <? value)) then None
      else Some value
  end.

Definition parseRuntime `{Unicode} (raw : text) : duration :=
  let parts := split_rune 58%N (trim_space raw) in
  if (length parts <? 2)%nat || (3 <? length parts)%nat then 0
  else
    let parts := alter (fun s => (cut 46%N s).1.1) (pred (length parts)) parts in
    match mapM (fun ip => runtime_part ip.1 ip.2) (imap pair parts) with
    | None => 0
    | Some values =>
        match values with
        | [m; s] => wrap64 (m * minute + s * second)
        | [h; m; s] => wrap64 (h * hour + m * minute + s * second)
        | _ => 0
        end
    end.

Definition sceneEpisodeMarker : regex :=
  (Bol ++ ilit (t "s") ++ rep 1 2 dig ++ Opt (ilit (t "e") ++ rep 1 4 dig) ++ Eol)%re.

(** The fields after the last episode marker or year of a scene name. *)
Definition service_mark (field : text) : bool :=
  matches sceneEpisodeMarker field
  || match atoi field with
     | Some year => (byte_len field =? 4) && (1900 <=? year) && (year <=? 2099)
     | None => false
     end.

Fixpoint after_last_mark (fields : list text) : option (list text) :=
  match fields with
  | [] => None
  | f :: fields =>
      match after_last_mark fields with
      | Some rest => Some rest
      | None => if service_mark f then Some fields else None
      end
  end.

Definition streamingServiceFromSceneName `{Unicode, NameParser} (raw : text) : text :=
  let source := RSource (ParseRelease raw) in
  if negb (bool_decide (source = t "web-dl")) && negb (bool_decide (source = t "webrip")) then []
  else match after_last_mark (fields (replace_rune 45%N 32%N (replace_rune 95%N 32%N (replace_rune 46%N 32%N raw)))) with
       | None => []
       | Some rest => Service (ParseRelease (join (t " ") rest))
       end.

(** ** The current item behind a history record

    A movie or an episode as arrapi returns it: whether it has a file, and the
    id and path of that file. *)

Record ArrItem := mkItem { it_has_file : bool; it_file : option (Z * text) }.

Definition current_file (i : ArrItem) : option (Z * text) := if it_has_file i then it_file i else None.

(** The end of one change: reported, or put off because its file cannot be
    read now. *)
Inductive settled := Final (c : HistoryChange) | Deferred (entity : Z).

Definition gone (state : HistoryState) (c : HistoryChange) : HistoryChange :=
  mkChange (HistoryID c) (ChEntityID c) (ChKind c) EventDelete state (ChMedia c) (OccurredAt c).

Section current.
Context (item_by_id : nat -> Z -> answer ArrItem).
Context (map_path : nat -> text -> result MapError text).

Definition mapped (path : text) : arr (result MapError text) := call (fun n => Ok (map_path n path)).
Definition item_of (entity : Z) : arr (answer ArrItem) := call (fun n => Ok (item_by_id n entity)).

(** The loop over two reads: the file of the item, unless the change ends. *)
Fixpoint current_read (rechecks : nat) (c : HistoryChange) (i : ArrItem) : arr (settled + Z) :=
  match current_file i with
  | None => okay (inl (Final (gone HistoryAbsent c)))
  | Some (file, path) =>
      if file <=? 0 then fail CIdentity
      else
        read! r := mapped path in
        match r with
        | Ok _ => okay (inr file)
        | Err (OutsideScope _) => okay (inl (Final (gone HistoryOutsideScope c)))
        | Err (MappedPathUnavailable _) =>
            match rechecks with
            | O => okay (inl (Deferred (ChEntityID c)))
            | S rechecks =>
                read! again := item_of (ChEntityID c) in
                match again with
                | Answer i => current_read rechecks c i
                | NotFound => okay (inl (Final (gone HistoryAbsent c)))
                | Failed => fail CRequest
                end
            end
        | Err e => fail (CMap e)
        end
  end.

Definition current_item (c : HistoryChange) : arr (settled + Z) :=
  read! first := item_of (ChEntityID c) in
  match first with
  | Answer i => current_read 1 c i
  | NotFound => okay (inl (Final (gone HistoryAbsent c)))
  | Failed => fail CRequest
  end.

(** The media of a file; when its path became unreadable the item is read once
    more. [hydrate] is GetMedia of Radarr and hydrateMedia of Sonarr. *)
Definition hydrate_rechecked {A} (hydrate : Z -> arr A) (c : HistoryChange) (file : Z) : arr (settled + (Z * A)) :=
  read! first := attempt (hydrate file) in
  match first with
  | Ok a => okay (inr (file, a))
  | Err e =>
      if negb (mapped_unavailable e) then fail e
      else
        read! again := item_of (ChEntityID c) in
        match again with
        | NotFound => okay (inl (Final (gone HistoryAbsent c)))
        | Failed => fail CRequest
        | Answer i =>
            match current_file i with
            | None => okay (inl (Final (gone HistoryAbsent c)))
            | Some (file, path) =>
                if file <=? 0 then fail CIdentity
                else
                  read! r := mapped path in
                  match r with
                  | Err (OutsideScope _) => okay (inl (Final (gone HistoryOutsideScope c)))
                  | Err (MappedPathUnavailable _) => okay (inl (Deferred (ChEntityID c)))
                  | Err e => fail (CMap e)
                  | Ok _ =>
                      read! second := attempt (hydrate file) in
                      match second with
                      | Ok a => okay (inr (file, a))
                      | Err e => if mapped_unavailable e then okay (inl (Deferred (ChEntityID c))) else fail e
                      end
                  end
            end
        end
  end.
End current.

Section runtimes.
#[local] Existing Instance latin1.
Example runtime_read : (parseRuntime (t "1:02:03.5"), parseRuntime (t "42:07"), parseRuntime (t "1:2:03"), parseRuntime (t "+1:02:03"))
  = (hour + 2 * minute + 3 * second, 42 * minute + 7 * second, 0, 0).
Proof. vm_compute. reflexivity. Qed.
End runtimes.

(** ** Reads that both catalogs make *)

Section reads.
Context (ctx_done : nat -> bool) (History : nat -> Z -> option HistoryPage) (pages : nat).

Definition known {A} (e : CatalogError) (o : option A) : result CatalogError A := match o with Some a => Ok a | None => Err e end.
Definition ctx_err : arr unit := call (fun n => if ctx_done n then Err CCanceled else Ok tt).

Definition history_changes (kind : MediaKind) (entityID : HistoryRecord -> Z) (since through : instant) : arr (list HistoryChange) :=
  call (fun n =>
    match readHistoryWindow since through (History n) pages with
    | None => Err CFuel
    | Some (Err e) => Err (CHistory e)
    | Some (Ok records) =>
        match reduceHistoryByEntity kind through entityID records with Err e => Err (CHistory e) | Ok changes => Ok changes end
    end).

Definition by_id {A} (a b : Z * A) : bool := a.1 <? b.1.

Definition collection {A} (o : option (option A)) : result CatalogError A :=
  match o with None => Err CRequest | Some None => Err CIncomplete | Some (Some a) => Ok a end.

Fixpoint collect_ids {A} (items : list (Z * A)) : arr (gset Z) :=
  match items with
  | [] => okay ∅
  | (id, _) :: items =>
      read! _ := ctx_err in
      if id <=? 0 then fail CIdentity
      else read! ids := collect_ids items in okay ({[id]} ∪ ids)
  end.

End reads.

(** ** What an operation that succeeds brings *)

Definition brings_ {A} (m : arr A) (Q : A -> Prop) : Prop := forall n n' a, m n = (n', Ok a) -> Q a.

Lemma brings_okay {A} (a : A) (Q : A -> Prop) : Q a -> brings_ (okay a) Q.
Proof. by intros HQ n n' b [= _ <-]. Qed.

Lemma brings_fail {A} e (Q : A -> Prop) : brings_ (fail e) Q.
Proof. by intros n n' b [=]. Qed.

Lemma brings_bind {A B} (m : arr A) (k : A -> arr B) (P : A -> Prop) (Q : B -> Prop) :
  brings_ m P -> (forall a, P a -> brings_ (k a) Q) -> brings_ (abind m k) Q.
Proof.
  intros Hm Hk n n' b. unfold abind. destruct (m n) as [n1 [a|e]] eqn:E; [|done]. intros E'. eapply (Hk a); [by eapply Hm|exact E'].
Qed.

Lemma brings_call {A} (f : nat -> result CatalogError A) (Q : A -> Prop) : (forall n a, f n = Ok a -> Q a) -> brings_ (call f) Q.
Proof. intros HQ n n' a [= _ E]. by eapply HQ. Qed.

Lemma brings_require b e (Q : unit -> Prop) : (b = true -> Q tt) -> brings_ (require_ b e) Q.
Proof. intros HQ. unfold require_. destruct b; [by apply brings_okay, HQ|by apply brings_fail]. Qed.

Lemma brings_attempt {A} (m : arr A) (P : A -> Prop) (Q : result CatalogError A -> Prop) :
  brings_ m P -> (forall a, P a -> Q (Ok a)) -> (forall e, Q (Err e)) -> brings_ (attempt m) Q.
Proof.
  intros Hm Hok Herr n n' r. unfold attempt. destruct (m n) as [n1 [a|e]] eqn:E; intros [= _ <-]; [|done]. apply Hok. by eapply Hm.
Qed.

Lemma brings_mono {A} (m : arr A) (P Q : A -> Prop) : brings_ m P -> (forall a, P a -> Q a) -> brings_ m Q.
Proof. intros Hm HPQ n n' a E. eapply HPQ, Hm, E. Qed.

Section evidence.
Context (item_by_id : nat -> Z -> answer ArrItem) (map_path : nat -> text -> result MapError text).

(** At some call the Arr application named this file of the entity. *)
Definition had_file (entity file : Z) (path : text) : Prop :=
  exists n i, item_by_id n entity = Answer i /\ current_file i = Some (file, path).
Definition had_none (entity : Z) : Prop :=
  exists n, item_by_id n entity = NotFound \/ exists i, item_by_id n entity = Answer i /\ current_file i = None.
Definition was_outside (entity : Z) : Prop :=
  exists n file path reason, had_file entity file path /\ map_path n path = Err (OutsideScope reason).

(** A deletion that a catalog reports for a change: the Arr application has no
    such item, the item has no file, or its file is out of scope. *)
Definition deletion_of (c d : HistoryChange) : Prop :=
  HistoryID d = HistoryID c /\ ChEntityID d = ChEntityID c /\ ChKind d = ChKind c /\ OccurredAt d = OccurredAt c /\ ChType d = EventDelete
  /\ (ChState d = HistoryAbsent /\ had_none (ChEntityID c) \/ ChState d = HistoryOutsideScope /\ was_outside (ChEntityID c)).

Definition ends_with (c : HistoryChange) (s : settled) : Prop :=
  match s with Final d => deletion_of c d | Deferred e => e = ChEntityID c end.

Lemma absent_deletion c : had_none (ChEntityID c) -> deletion_of c (gone HistoryAbsent c).
Proof. intros H. split_and!; [done..|]. by left. Qed.
Lemma outside_deletion c : was_outside (ChEntityID c) -> deletion_of c (gone HistoryOutsideScope c).
Proof. intros H. split_and!; [done..|]. by right. Qed.

#[local] Abbreviation item_of := (item_of item_by_id).

Lemma item_of_brings entity (Q : answer ArrItem -> Prop) : (forall n, Q (item_by_id n entity)) -> brings_ (item_of entity) Q.
Proof. intros HQ. apply brings_call. by intros n a [= <-]. Qed.

Definition held (entity file : Z) : Prop := 0 < file /\ exists path, had_file entity file path.

Lemma current_read_spec rechecks c i : (exists n, item_by_id n (ChEntityID c) = Answer i) ->
  brings_ (current_read item_by_id map_path rechecks c i) (fun r => match r with inl s => ends_with c s | inr file => held (ChEntityID c) file end).
Proof.
  revert i. induction rechecks as [|rechecks IH]; intros i [n Hi]; cbn [current_read].
  all: destruct (current_file i) as [[file path]|] eqn:Ef; [|apply brings_okay, absent_deletion; exists n; right; by exists i].
  all: destruct (Z.leb_spec file 0) as [|Hfile]; [apply brings_fail|].
  all: assert (had_file (ChEntityID c) file path) as Hhad by (by exists n, i).
  all: apply (brings_bind _ _ (fun r => exists m, r = map_path m path)); [apply brings_call; intros m a [= <-]; by exists m|].
  all: intros r [m Hr]; destruct r as [mapped|[reason| | |reason| | |]]; try (by apply brings_fail).
  all: try (by apply brings_okay; split; [done|exists path]).
  all: try (by apply brings_okay, outside_deletion; exists m, file, path, reason).
  - by apply brings_okay.
  - apply (brings_bind _ _ (fun a => exists k, item_by_id k (ChEntityID c) = a)); [apply item_of_brings; intros k; by exists k|].
    intros [i'| |] [k Hk]; [apply IH; by exists k|apply brings_okay, absent_deletion; exists k; by left|by apply brings_fail].
Qed.

Lemma current_item_spec c :
  brings_ (current_item item_by_id map_path c) (fun r => match r with inl s => ends_with c s | inr file => held (ChEntityID c) file end).
Proof.
  unfold current_item. apply (brings_bind _ _ (fun a => exists k, item_by_id k (ChEntityID c) = a)); [apply item_of_brings; intros k; by exists k|].
  intros [i| |] [k Hk]; [apply current_read_spec; by exists k|apply brings_okay, absent_deletion; exists k; by left|by apply brings_fail].
Qed.

Lemma hydrate_rechecked_spec {A} (hydrate : Z -> arr A) (P : Z -> A -> Prop) c file :
  (forall f, brings_ (hydrate f) (P f)) -> held (ChEntityID c) file ->
  brings_ (hydrate_rechecked item_by_id map_path hydrate c file)
    (fun r => match r with inl s => ends_with c s | inr (f, a) => held (ChEntityID c) f /\ P f a end).
Proof.
  intros HP Hheld. unfold hydrate_rechecked.
  apply (brings_bind _ _ (fun r => match r with Ok a => P file a | Err _ => True end)).
  { apply (brings_attempt _ (P file)); [apply HP|done..]. }
  intros [a|e] Hr; [by apply brings_okay|]. destruct (negb _); [by apply brings_fail|].
  apply (brings_bind _ _ (fun a => exists k, item_by_id k (ChEntityID c) = a)); [apply item_of_brings; intros k; by exists k|].
  intros [i| |] [k Hk]; [|apply brings_okay, absent_deletion; exists k; by left|by apply brings_fail].
  destruct (current_file i) as [[f path]|] eqn:Ef; [|apply brings_okay, absent_deletion; exists k; right; by exists i].
  destruct (Z.leb_spec f 0) as [|Hf]; [apply brings_fail|]. assert (had_file (ChEntityID c) f path) as Hhad by (by exists k, i).
  apply (brings_bind _ _ (fun r => exists m, r = map_path m path)); [apply brings_call; intros m a [= <-]; by exists m|].
  intros [mapped|[reason| | |reason| | |]] [m Hm]; try (by apply brings_fail).
  - apply (brings_bind _ _ (fun r => match r with Ok a => P f a | Err _ => True end)).
    { apply (brings_attempt _ (P f)); [apply HP|done..]. }
    intros [a|e'] Hr'; [apply brings_okay; split; [split; [done|by exists path]|done]|]. destruct (mapped_unavailable e'); [by apply brings_okay|by apply brings_fail].
  - apply brings_okay, outside_deletion. by exists m, f, path, reason.
  - by apply brings_okay.
Qed.
End evidence.

Lemma brings_any {A} (m : arr A) : brings_ m (fun _ => True).
Proof. done. Qed.

(** Skips a step whose answer does not matter. *)
Ltac skip_read := apply (brings_bind _ _ (fun _ => True)); [apply brings_any|intros ? _].

Lemma history_changes_spec History pages kind entityID since through :
  brings_ (history_changes History pages kind entityID since through) (Forall (identified_change kind)).
Proof.
  apply brings_call. intros n changes E. destruct (readHistoryWindow _ _ _ _) as [[records|]|]; [|done|done].
  destruct (reduceHistoryByEntity _ _ _ _) as [cs|] eqn:Er; [|done]. injection E as <-. by apply reduced_identified in Er as [? _].
Qed.

Lemma collect_ids_spec {A} ctx_done (items : list (Z * A)) : brings_ (collect_ids ctx_done items) (fun ids => forall i, i ∈ ids -> 0 < i).
Proof.
  induction items as [|[id a] items IH]; cbn [collect_ids]; [apply brings_okay; set_solver|]. skip_read.
  destruct (Z.leb_spec id 0); [apply brings_fail|]. apply (brings_bind _ _ _ _ IH). intros ids Hids. apply brings_okay. set_solver by lia.
Qed.

(** ** The catalog the reconciler needs

    What Radarr.v and Sonarr.v promise and Reconciler.v relies on. *)

Class ReconciliationCatalog := {
  cat_GetMedia : MediaRef -> arr Media;
  cat_ListChanges : instant -> instant -> arr (list HistoryChange * list Z);
  cat_ListIdentitySnapshot : arr (MediaKind * gset Z);
  cat_ListLibrary : arr (list Media * list Z);
}.

Definition present_change (instance : text) (c : HistoryChange) : Prop :=
  ChType c <> EventDelete /\ exists m, ChMedia c = Some m /\ EntityID m = ChEntityID c
  /\ Instance_ (MRef m) = instance /\ RefKind (MRef m) = ChKind c /\ 0 < RefFileID (MRef m).

(** A change with its identity, and with the evidence for a deletion. *)
Definition change_ok (instance : text) (kind : MediaKind) (evidence : Z -> Prop) (c : HistoryChange) : Prop :=
  0 < HistoryID c /\ 0 < ChEntityID c /\ ChKind c = kind /\ OccurredAt c <> zero_time
  /\ match ChState c with
     | HistoryPresent => present_change instance c
     | HistoryAbsent | HistoryOutsideScope => ChType c = EventDelete /\ evidence (ChEntityID c)
     | HistoryUnset => False
     end.

Definition media_ok (instance : text) (kind : MediaKind) (m : Media) : Prop :=
  Instance_ (MRef m) = instance /\ RefKind (MRef m) = kind /\ 0 < EntityID m /\ 0 < RefFileID (MRef m)
  /\ FpFileID (Fingerprint m) = RefFileID (MRef m).

Class LawfulCatalog (instance : text) (kind : MediaKind) (evidence : Z -> Prop) `{ReconciliationCatalog} : Prop := {
  lc_changes : forall since through, brings_ (cat_ListChanges since through) (fun r => Forall (change_ok instance kind evidence) r.1);
  lc_snapshot : brings_ cat_ListIdentitySnapshot (fun s => s.1 = kind /\ forall i, i ∈ s.2 -> 0 < i);
  lc_library : brings_ cat_ListLibrary (fun r => Forall (media_ok instance kind) r.1);
}.
