(* ===== verification/Radarr.v ===== *)
(** * The catalog of a Radarr instance (src/internal/catalog/radarr.go)

    GetMedia, ListChanges, ListLibrary and ListIdentitySnapshot over a Radarr
    that may answer every call differently, and the contract the reconciler
    relies on. Titles of deferred movies, which only label the log, are left
    out. *)
From S2P Require Import Prelude GoText Regex Domain Config PathMap MatchRelease History Arr.

#[local] Open Scope Z_scope.

(** The decoded answers of /api/v3/moviefile and /api/v3/movie; a missing or
    malformed date is the zero time. *)
Record radarrMovieFile := mkMovieFile {
  mf_id : Z; mf_movie : Z; mf_path : text; mf_size : Z; mf_added : instant; mf_scene : text; mf_group : text; mf_edition : text;
  mf_quality : text; mf_resolution : Z; mf_source : text; mf_runtime : text;
}.
Record radarrMovie := mkMovie {
  mv_id : Z; mv_title : text; mv_alternates : list text; mv_year : Z; mv_imdb : text; mv_tmdb : Z;
  mv_digital : instant; mv_physical : instant; mv_cinemas : instant;
}.

Definition cinemaToHomeRelease : duration := 90 * 24 * hour.

Definition releasedAt (m : radarrMovie) : instant :=
  if negb (is_zero (mv_digital m)) then mv_digital m
  else if negb (is_zero (mv_physical m)) then mv_physical m
  else if negb (is_zero (mv_cinemas m)) then mv_cinemas m + cinemaToHomeRelease
  else zero_time.

Section radarr.
Context `{Unicode, NameParser} (instance : text) (map_path : nat -> text -> result MapError text).
(** The clients by call: the context, a page of history, an item, the library
    (a failed call, a missing collection), and the two JSON reads. *)
Context (ctx_done : nat -> bool) (History : nat -> Z -> option HistoryPage) (pages : nat) (MovieByID : nat -> Z -> answer ArrItem).
Context (Movies : nat -> option (option (list (Z * ArrItem)))).
Context (moviefile : nat -> Z -> option radarrMovieFile) (movie : nat -> Z -> option radarrMovie).

Definition movie_media (ref : MediaRef) (path : text) (file : radarrMovieFile) (m : radarrMovie) : Media :=
  mkMedia 0 (mf_movie file) ref (mkFingerprint path (RefFileID ref) (mf_size file) (mf_added file)) (mv_title m) []
    (alternateTitleStrings (mv_alternates m)) (mv_year m) 0 0 0 0 0 (mkExternalIDs (mv_imdb m) (mv_tmdb m) 0) (mf_scene file) (mf_scene file)
    (mf_group file) (mf_source file) (resolutionName (mf_resolution file)) (streamingServiceFromSceneName (mf_scene file)) (mf_edition file)
    (mf_quality file) (parseRuntime (mf_runtime file)) [] (releasedAt m) [].

Definition GetMedia (ref : MediaRef) : arr Media :=
  if negb (bool_decide (Instance_ ref = instance)) || negb (bool_decide (RefKind ref = MediaMovie)) || (RefFileID ref <=? 0) then fail CReference
  else
    read! file := call (fun n => known CRequest (moviefile n (RefFileID ref))) in
    read! _ := require_ (mf_id file =? RefFileID ref) CIdentity in
    read! _ := require_ (0 <? mf_movie file) CIdentity in
    read! m := call (fun n => known CRequest (movie n (mf_movie file))) in
    read! _ := require_ (mv_id m =? mf_movie file) CIdentity in
    read! mapped := mapped map_path (mf_path file) in
    match mapped with
    | Err e => fail (CMap e)
    | Ok path => okay (movie_media ref path file m)
    end.

Definition movie_ref (file : Z) : MediaRef := mkMediaRef instance MediaMovie file.

(** ** Changes *)

Definition present (c : HistoryChange) (m : Media) : HistoryChange :=
  mkChange (HistoryID c) (ChEntityID c) (ChKind c) (match ChType c with EventRename => EventRename | _ => EventImport end)
    HistoryPresent (Some m) (OccurredAt c).

Definition settle_change (c : HistoryChange) : arr settled :=
  read! current := current_item MovieByID map_path c in
  match current with
  | inl s => okay s
  | inr file =>
      read! hydrated := hydrate_rechecked MovieByID map_path (fun file => GetMedia (movie_ref file)) c file in
      match hydrated with
      | inl s => okay s
      | inr (_, m) => if negb (EntityID m =? ChEntityID c) then fail CIdentity else okay (Final (present c m))
      end
  end.

Fixpoint settle_changes (changes : list HistoryChange) : arr (list HistoryChange * list Z) :=
  match changes with
  | [] => okay ([], [])
  | c :: changes =>
      read! s := settle_change c in
      read! rest := settle_changes changes in
      okay (match s with Final c => (c :: rest.1, rest.2) | Deferred e => (rest.1, e :: rest.2) end)
  end.

Definition ListChanges (since through : instant) : arr (list HistoryChange * list Z) :=
  read! changes := history_changes History pages MediaMovie hr_movie since through in
  settle_changes changes.

(** ** The library *)

(** [movieIdentity]: whether the movie has a file, its id and its path. *)
Definition movie_identity (i : ArrItem) : bool * Z * text :=
  match it_file i with
  | Some (file, path) => (it_has_file i, file, normalizeRemote path)
  | None => (it_has_file i, 0, [])
  end.

Definition list_movie (entity file : Z) (path : text) : arr (option Media + Z) :=
  read! mapped := mapped map_path path in
  match mapped with
  | Err (OutsideScope _) => okay (inl None)
  | Err (MappedPathUnavailable _) => okay (inr entity)
  | Err e => fail (CMap e)
  | Ok _ =>
      read! hydrated := attempt (GetMedia (movie_ref file)) in
      match hydrated with
      | Err e => if mapped_unavailable e then okay (inr entity) else fail e
      | Ok m => if negb (EntityID m =? entity) then fail CIdentity else okay (inl (Some m))
      end
  end.

Fixpoint list_movies (movies : list (Z * ArrItem)) (entities : gmap Z (bool * Z * text)) (files : gmap Z Z) : arr (list Media * list Z) :=
  match movies with
  | [] => read! _ := ctx_err ctx_done in okay ([], [])
  | (entity, i) :: movies =>
      read! _ := ctx_err ctx_done in
      if entity <=? 0 then fail CIdentity
      else if it_has_file i && bool_decide (it_file i = None) then fail CIncomplete
      else match entities !! entity with
           | Some known => if bool_decide (known = movie_identity i) then list_movies movies entities files else fail CIdentity
           | None =>
               let entities := <[entity := movie_identity i]> entities in
               match current_file i with
               | None => list_movies movies entities files
               | Some (file, path) =>
                   if file <=? 0 then fail CIdentity
                   else match files !! file with
                        | Some owner => if owner =? entity then list_movies movies entities files else fail CIdentity
                        | None =>
                            read! item := list_movie entity file path in
                            read! rest := list_movies movies entities (<[file := entity]> files) in
                            okay (match item with
                                  | inl (Some m) => (m :: rest.1, rest.2)
                                  | inl None => rest
                                  | inr e => (rest.1, e :: rest.2)
                                  end)
                        end
               end
           end
  end.

Definition ListLibrary : arr (list Media * list Z) :=
  read! _ := ctx_err ctx_done in
  read! movies := call (fun n => collection (Movies n)) in
  read! _ := ctx_err ctx_done in
  list_movies (stable_sort by_id movies) ∅ ∅.

Definition ListIdentitySnapshot : arr (MediaKind * gset Z) :=
  read! _ := ctx_err ctx_done in
  read! movies := call (fun n => collection (Movies n)) in
  read! _ := ctx_err ctx_done in
  read! ids := collect_ids ctx_done movies in
  okay (MediaMovie, ids).
(** ** The contract *)

Lemma GetMedia_spec ref : brings_ (GetMedia ref) (fun m => media_ok instance MediaMovie m /\ MRef m = ref).
Proof.
  unfold GetMedia. destruct (bool_decide (Instance_ ref = instance)) eqn:Ei; [|apply brings_fail].
  destruct (bool_decide (RefKind ref = MediaMovie)) eqn:Ek; [|apply brings_fail].
  destruct (Z.leb_spec (RefFileID ref) 0); [apply brings_fail|]. cbn [negb orb]. bools. skip_read. skip_read.
  apply (brings_bind _ _ (fun _ => 0 < mf_movie a)); [apply brings_require; lia|]. intros _ Hmovie. do 3 skip_read.
  destruct a3; [|apply brings_fail]. apply brings_okay. done.
Qed.

Lemma movie_change_spec c : identified_change MediaMovie c ->
  brings_ (settle_change c) (fun s => match s with
    | Final d => change_ok instance MediaMovie (fun e => had_none MovieByID e \/ was_outside MovieByID map_path e) d
    | Deferred e => e = ChEntityID c end).
Proof.
  intros (H1 & H2 & H3 & H4 & H5). unfold settle_change.
  assert (forall d, deletion_of MovieByID map_path c d -> change_ok instance MediaMovie (fun e => had_none MovieByID e \/ was_outside MovieByID map_path e) d) as Hdel.
  { intros d (D1 & D2 & D3 & D4 & D5 & D6). unfold change_ok. rewrite D1, D2, D3, D4, D5. split_and!; [done..|]. destruct D6 as [[-> ?]|[-> ?]]; by auto. }
  apply (brings_bind _ _ _ _ (current_item_spec MovieByID map_path c)). intros [[d|e]|file]; intros Hc; [apply brings_okay; by apply Hdel|by apply brings_okay|].
  apply (brings_bind _ _ _ _ (hydrate_rechecked_spec _ _ _ (fun f m => media_ok instance MediaMovie m /\ MRef m = movie_ref f) _ _ (fun f => GetMedia_spec _) Hc)).
  intros [[d|e]|[f m]]; intros Hh; [apply brings_okay; by apply Hdel|by apply brings_okay|]. destruct Hh as [_ [(M1 & M2 & M3 & M4 & _) _]].
  destruct (Z.eqb_spec (EntityID m) (ChEntityID c)) as [E|]; [|apply brings_fail]. apply brings_okay.
  split_and!; [done..|]. unfold present_change. cbn. split; [by destruct (ChType c)|]. exists m. split_and!; (done || congruence).
Qed.

Lemma movie_changes_spec changes : Forall (identified_change MediaMovie) changes ->
  brings_ (settle_changes changes)
    (fun r => Forall (change_ok instance MediaMovie (fun e => had_none MovieByID e \/ was_outside MovieByID map_path e)) r.1).
Proof.
  induction 1 as [|c changes Hc _ IH]; cbn [settle_changes]; [by apply brings_okay|].
  apply (brings_bind _ _ _ _ (movie_change_spec _ Hc)). intros s Hs. apply (brings_bind _ _ _ _ IH). intros [rest deferred] Hr.
  apply brings_okay. destruct s; [by constructor|done].
Qed.

Lemma list_movies_spec movies entities files : brings_ (list_movies movies entities files) (fun r => Forall (media_ok instance MediaMovie) r.1).
Proof.
  revert entities files. induction movies as [|[entity i] movies IH]; intros entities files; cbn [list_movies]; [skip_read; by apply brings_okay|].
  skip_read. destruct (entity <=? 0); [apply brings_fail|]. destruct (_ && _); [apply brings_fail|].
  destruct (entities !! entity); [destruct (bool_decide _); [apply IH|apply brings_fail]|].
  destruct (current_file i) as [[file path]|]; [|apply IH]. destruct (file <=? 0); [apply brings_fail|].
  destruct (files !! file) as [owner|]; [destruct (owner =? entity); [apply IH|apply brings_fail]|].
  apply (brings_bind _ _ (fun r => match r with inl (Some m) => media_ok instance MediaMovie m | _ => True end)).
  - unfold list_movie. skip_read. destruct a0 as [mapped|[]]; try (by apply brings_fail); try (by apply brings_okay).
    apply (brings_bind _ _ (fun r => match r with Ok m => media_ok instance MediaMovie m | Err _ => True end)).
    { apply (brings_attempt _ (media_ok instance MediaMovie)); [|done..]. eapply brings_mono; [apply GetMedia_spec|by intros m [? _]]. }
    intros [m|e] Hm; [|destruct (mapped_unavailable e); [by apply brings_okay|apply brings_fail]]. destruct (negb _); [apply brings_fail|by apply brings_okay].
  - intros item Hi. apply (brings_bind _ _ _ _ (IH _ _)). intros [items deferred] Hr. apply brings_okay. destruct item as [[m|]|]; [by constructor|done|done].
Qed.

#[export] Instance radarr_catalog : ReconciliationCatalog := {|
  cat_GetMedia := GetMedia; cat_ListChanges := ListChanges; cat_ListIdentitySnapshot := ListIdentitySnapshot; cat_ListLibrary := ListLibrary;
|}.

(** A movie is reported deleted only when Radarr has no such movie, the movie
    has no file, or its file is out of scope; never because a call or the file
    system failed. *)
#[export] Instance radarr_lawful :
  LawfulCatalog instance MediaMovie (fun e => had_none MovieByID e \/ was_outside MovieByID map_path e).
Proof.
  split.
  - intros since through. cbn. unfold ListChanges. apply (brings_bind _ _ _ _ (history_changes_spec _ _ _ _ _ _)). intros changes Hc. by apply movie_changes_spec.
  - cbn. unfold ListIdentitySnapshot. do 3 skip_read. apply (brings_bind _ _ _ _ (collect_ids_spec _ _)). intros ids Hids. by apply brings_okay.
  - cbn. unfold ListLibrary. do 3 skip_read. apply list_movies_spec.
Qed.
End radarr.
