(* ===== verification/Sonarr.v ===== *)
(** * The catalog of a Sonarr instance (src/internal/catalog/sonarr.go)

    As Radarr.v, with what Sonarr adds: a file may hold several episodes, which
    are read with their series, become one range when they are consecutive, and
    are reported as one change under their first episode. Titles of deferred
    episodes, which only label the log, are left out with the read of the series
    they need. *)
From S2P Require Import Prelude GoText Regex Domain Config PathMap MatchRelease History Arr.

#[local] Open Scope Z_scope.

Record sonarrEpisodeFile := mkEpisodeFile {
  ef_id : Z; ef_series : Z; ef_path : text; ef_size : Z; ef_added : instant; ef_scene : text; ef_group : text;
  ef_quality : text; ef_resolution : Z; ef_source : text; ef_runtime : text;
}.
Record sonarrEpisode := mkEpisode {
  ep_id : Z; ep_series : Z; ep_file : Z; ep_season : Z; ep_number : Z; ep_absolute : Z; ep_title : text; ep_aired : instant;
}.
Record sonarrSeries := mkSeries {
  sr_id : Z; sr_title : text; sr_alternates : list text; sr_year : Z; sr_imdb : text; sr_tvdb : Z; sr_type : text;
}.
(** A file as arrapi lists it. *)
Record ArrEpisodeFile := mkArrFile { af_id : Z; af_series : Z; af_path : text }.

Definition earlier_episode (a b : sonarrEpisode) : bool :=
  if negb (ep_season a =? ep_season b) then ep_season a <? ep_season b
  else if negb (ep_number a =? ep_number b) then ep_number a <? ep_number b
  else if negb (ep_absolute a =? ep_absolute b) then ep_absolute a <? ep_absolute b
  else ep_id a <? ep_id b.

(** ** Episode ranges *)

Definition numbered_from (number : sonarrEpisode -> Z) (first : Z) (episodes : list sonarrEpisode) : bool :=
  forallb (fun ie => number ie.2 =? first + Z.of_nat ie.1) (imap pair episodes).

(** The absolute number, the ends of both ranges and the reason of a file with
    several episodes, the first of them being [first]. *)
Definition applyEpisodeRange (first : sonarrEpisode) (episodes : list sonarrEpisode) : Z * Z * Z * text :=
  let last := default first (last episodes) in
  let consecutive := (0 <? ep_number first) && forallb (fun e => ep_season e =? ep_season first) episodes
                     && numbered_from ep_number (ep_number first) episodes in
  let absolute := (0 <? ep_absolute first) && numbered_from ep_absolute (ep_absolute first) episodes in
  if negb consecutive then (ep_absolute first, CheckedUnsupportedEpisodeEnd, 0, UnsupportedMultiEpisode)
  else if absolute then (ep_absolute first, ep_number last, ep_absolute last, [])
  else (0, ep_number last, 0, []).

Section sonarr.
Context `{Unicode, NameParser} (instance : text) (map_path : nat -> text -> result MapError text).
Context (ctx_done : nat -> bool) (History : nat -> Z -> option HistoryPage) (pages : nat) (EpisodeByID : nat -> Z -> answer ArrItem).
Context (Series : nat -> option (option (list (Z * unit)))) (EpisodeFiles : nat -> Z -> option (option (list ArrEpisodeFile))).
Context (episodefile : nat -> Z -> option sonarrEpisodeFile) (episode : nat -> Z -> option (list sonarrEpisode)).
Context (series : nat -> Z -> option sonarrSeries).

(** ** The media of a file *)

Fixpoint check_episodes (file : sonarrEpisodeFile) (fileID : Z) (seen : gset Z) (episodes : list sonarrEpisode) : arr unit :=
  match episodes with
  | [] => okay tt
  | e :: episodes =>
      read! _ := require_ (0 <? ep_id e) CIdentity in
      read! _ := require_ (ep_series e =? ef_series file) CIdentity in
      read! _ := require_ ((ep_file e =? 0) || (ep_file e =? fileID)) CIdentity in
      read! _ := require_ (bool_decide (ep_id e ∉ seen)) CIdentity in
      check_episodes file fileID ({[ep_id e]} ∪ seen) episodes
  end.

Definition episode_media (ref : MediaRef) (path : text) (file : sonarrEpisodeFile) (show : sonarrSeries) (first : sonarrEpisode)
    (episodes : list sonarrEpisode) : Media :=
  let '(absolute, last, lastAbsolute, reason) :=
    if (1 <? length episodes)%nat then applyEpisodeRange first episodes else (ep_absolute first, 0, 0, []) in
  mkMedia (ef_series file) (ep_id first) ref (mkFingerprint path (RefFileID ref) (ef_size file) (ef_added file)) (sr_title show) (ep_title first)
    (alternateTitleStrings (sr_alternates show)) (sr_year show) (ep_season first) (ep_number first) absolute last lastAbsolute
    (mkExternalIDs (sr_imdb show) 0 (sr_tvdb show)) (ef_scene file) (ef_scene file) (ef_group file) (ef_source file)
    (resolutionName (ef_resolution file)) (streamingServiceFromSceneName (ef_scene file)) [] (ef_quality file) (parseRuntime (ef_runtime file))
    reason (ep_aired first) (to_lower (trim_space (sr_type show))).

Definition hydrateMedia (ref : MediaRef) : arr (Media * list Z) :=
  if negb (bool_decide (Instance_ ref = instance)) || negb (bool_decide (RefKind ref = MediaEpisode)) || (RefFileID ref <=? 0) then fail CReference
  else
    read! file := call (fun n => known CRequest (episodefile n (RefFileID ref))) in
    read! _ := require_ (ef_id file =? RefFileID ref) CIdentity in
    read! _ := require_ (0 <? ef_series file) CIdentity in
    read! episodes := call (fun n => known CRequest (episode n (RefFileID ref))) in
    match stable_sort earlier_episode episodes with
    | [] => fail CIncomplete
    | first :: others =>
        let episodes := first :: others in
        read! _ := check_episodes file (RefFileID ref) ∅ episodes in
        read! show := call (fun n => known CRequest (series n (ef_series file))) in
        read! _ := require_ (sr_id show =? ef_series file) CIdentity in
        read! mapped := mapped map_path (ef_path file) in
        match mapped with
        | Err e => fail (CMap e)
        | Ok path => okay (episode_media ref path file show first episodes, ep_id <$> episodes)
        end
    end.

Definition GetMedia (ref : MediaRef) : arr Media := read! hydrated := hydrateMedia ref in okay hydrated.1.

Definition episode_ref (file : Z) : MediaRef := mkMediaRef instance MediaEpisode file.

(** ** Changes *)

Record progress := mkProgress {
  pg_hydrated : gmap Z (Media * list Z); pg_present : gmap Z HistoryChange; pg_final : list HistoryChange; pg_deferred : list Z;
}.

Definition end_change (s : settled) (p : progress) : progress :=
  match s with
  | Final c => mkProgress (pg_hydrated p) (pg_present p) (pg_final p ++ [c]) (pg_deferred p)
  | Deferred e => mkProgress (pg_hydrated p) (pg_present p) (pg_final p) (pg_deferred p ++ [e])
  end.

Definition present (c : HistoryChange) (m : Media) : HistoryChange :=
  mkChange (HistoryID c) (EntityID m) (ChKind c) (match ChType c with EventRename => EventRename | _ => EventImport end)
    HistoryPresent (Some m) (OccurredAt c).

(** The change of a file that was read. *)
Definition attach (c : HistoryChange) (file : Z) (item : Media * list Z) (p : progress) : arr progress :=
  let p := mkProgress (<[file := item]> (pg_hydrated p)) (pg_present p) (pg_final p) (pg_deferred p) in
  if negb (bool_decide (ChEntityID c ∈ item.2)) then fail CIdentity
  else okay (mkProgress (pg_hydrated p) (<[EntityID item.1 := present c item.1]> (pg_present p)) (pg_final p) (pg_deferred p)).

Definition settle_change (c : HistoryChange) (p : progress) : arr progress :=
  read! current := current_item EpisodeByID map_path c in
  match current with
  | inl s => okay (end_change s p)
  | inr file =>
      match pg_hydrated p !! file with
      | Some item => attach c file item p
      | None =>
          read! hydrated := hydrate_rechecked EpisodeByID map_path (fun file => hydrateMedia (episode_ref file)) c file in
          match hydrated with
          | inl s => okay (end_change s p)
          | inr (file, item) => attach c file item p
          end
      end
  end.

Fixpoint settle_changes (changes : list HistoryChange) (p : progress) : arr progress :=
  match changes with
  | [] => okay p
  | c :: changes => read! p := settle_change c p in settle_changes changes p
  end.

(** The iteration over the map of present files is sorted. *)
Definition ListChanges (since through : instant) : arr (list HistoryChange * list Z) :=
  read! changes := history_changes History pages MediaEpisode hr_episode since through in
  read! p := settle_changes changes (mkProgress ∅ ∅ [] []) in
  okay (sortHistoryChanges (pg_final p ++ (map_to_list (pg_present p)).*2), pg_deferred p).

(** ** The library *)

Definition by_file (a b : ArrEpisodeFile) : bool := af_id a <? af_id b.

Definition list_file (seriesID : Z) (f : ArrEpisodeFile) : arr (option Media + Z) :=
  read! mapped := mapped map_path (af_path f) in
  match mapped with
  | Err (OutsideScope _) => okay (inl None)
  | Err (MappedPathUnavailable _) => okay (inr (af_id f))
  | Err e => fail (CMap e)
  | Ok _ =>
      read! hydrated := attempt (hydrateMedia (episode_ref (af_id f))) in
      match hydrated with
      | Err e => if mapped_unavailable e then okay (inr (af_id f)) else fail e
      | Ok (m, _) => if negb (SeriesID m =? seriesID) then fail CIdentity else okay (inl (Some m))
      end
  end.

(** The files of one series, with the files seen so far and their owners. *)
Fixpoint list_files (seriesID : Z) (files : list ArrEpisodeFile) (seen : gmap Z (Z * text)) : arr (list Media * list Z * gmap Z (Z * text)) :=
  match files with
  | [] => okay ([], [], seen)
  | f :: files =>
      read! _ := ctx_err ctx_done in
      if af_id f <=? 0 then fail CIdentity
      else if negb (af_series f =? seriesID) then fail CIdentity
      else
        let identity := (seriesID, normalizeRemote (af_path f)) in
        match seen !! af_id f with
        | Some known => if bool_decide (known = identity) then list_files seriesID files seen else fail CIdentity
        | None =>
            read! item := list_file seriesID f in
            read! rest := list_files seriesID files (<[af_id f := identity]> seen) in
            let '(items, deferred, seen) := rest in
            okay (match item with
                  | inl (Some m) => (m :: items, deferred, seen)
                  | inl None => rest
                  | inr e => (items, e :: deferred, seen)
                  end)
        end
  end.

Fixpoint list_series (shows : list (Z * unit)) (seenSeries : gset Z) (seen : gmap Z (Z * text)) : arr (list Media * list Z) :=
  match shows with
  | [] => read! _ := ctx_err ctx_done in okay ([], [])
  | (id, _) :: shows =>
      read! _ := ctx_err ctx_done in
      if id <=? 0 then fail CIdentity
      else if bool_decide (id ∈ seenSeries) then list_series shows seenSeries seen
      else
        read! files := call (fun n => collection (EpisodeFiles n id)) in
        read! _ := ctx_err ctx_done in
        read! listed := list_files id (stable_sort by_file files) seen in
        let '(items, deferred, seen) := listed in
        read! rest := list_series shows ({[id]} ∪ seenSeries) seen in
        okay (items ++ rest.1, deferred ++ rest.2)
  end.

Definition ListLibrary : arr (list Media * list Z) :=
  read! _ := ctx_err ctx_done in
  read! shows := call (fun n => collection (Series n)) in
  read! _ := ctx_err ctx_done in
  list_series (stable_sort by_id shows) ∅ ∅.

Definition ListIdentitySnapshot : arr (MediaKind * gset Z) :=
  read! _ := ctx_err ctx_done in
  read! shows := call (fun n => collection (Series n)) in
  read! _ := ctx_err ctx_done in
  read! ids := collect_ids ctx_done shows in
  okay (MediaEpisode, ids).
(** ** The contract *)

#[local] Abbreviation episode_ok := (media_ok instance MediaEpisode).
#[local] Abbreviation evidence := (fun e => had_none EpisodeByID e \/ was_outside EpisodeByID map_path e).
#[local] Abbreviation listed_ok := (change_ok instance MediaEpisode evidence).

Lemma check_episodes_spec file fileID seen episodes : brings_ (check_episodes file fileID seen episodes) (fun _ => Forall (fun e => 0 < ep_id e) episodes).
Proof.
  revert seen. induction episodes as [|e episodes IH]; intros seen; cbn [check_episodes]; [by apply brings_okay|].
  apply (brings_bind _ _ (fun _ => 0 < ep_id e)); [apply brings_require; by intros ?%Z.ltb_lt|]. intros _ He. do 3 skip_read.
  eapply brings_mono; [apply IH|]. intros u Hes. by constructor.
Qed.

Lemma hydrateMedia_spec ref : brings_ (hydrateMedia ref) (fun r => episode_ok r.1 /\ MRef r.1 = ref).
Proof.
  unfold hydrateMedia. destruct (bool_decide (Instance_ ref = instance)) eqn:Ei; [|apply brings_fail].
  destruct (bool_decide (RefKind ref = MediaEpisode)) eqn:Ek; [|apply brings_fail].
  destruct (Z.leb_spec (RefFileID ref) 0); [apply brings_fail|]. cbn [negb orb]. bools. do 4 skip_read.
  destruct (stable_sort _ _) as [|first others]; [apply brings_fail|]. apply (brings_bind _ _ _ _ (check_episodes_spec _ _ _ _)).
  intros _ [Hfirst _]%Forall_cons. do 3 skip_read. destruct a5; [|apply brings_fail]. apply brings_okay.
  cbn [fst snd]. unfold episode_media. destruct (if (1 <? _)%nat then _ else _) as [[[absolute last] lastAbsolute] reason]. done.
Qed.

Record progress_ok (p : progress) : Prop := {
  po_hydrated : forall f item, pg_hydrated p !! f = Some item -> episode_ok item.1;
  po_present : forall e c, pg_present p !! e = Some c -> listed_ok c;
  po_final : Forall listed_ok (pg_final p);
}.

Lemma attach_spec c file item p : identified_change MediaEpisode c -> episode_ok item.1 -> progress_ok p -> brings_ (attach c file item p) progress_ok.
Proof.
  intros (H1 & H2 & H3 & H4 & H5) Hm [P1 P2 P3]. unfold attach. destruct (negb _); [apply brings_fail|]. apply brings_okay. split; cbn; [| |done].
  - intros f i [[_ <-]|[_ Hi]]%lookup_insert_Some; [done|by eapply P1].
  - intros e d [[_ <-]|[_ Hd]]%lookup_insert_Some; [|by eapply P2]. destruct Hm as (M1 & M2 & M3 & M4 & _).
    split_and!; [done..|]. unfold present_change. cbn. split; [by destruct (ChType c)|]. exists item.1. split_and!; (done || congruence).
Qed.

Lemma episode_change_spec c p : identified_change MediaEpisode c -> progress_ok p -> brings_ (settle_change c p) progress_ok.
Proof.
  intros Hc Hp. pose proof Hc as (H1 & H2 & H3 & H4 & H5). unfold settle_change.
  assert (forall s, ends_with EpisodeByID map_path c s -> progress_ok (end_change s p)) as Hend.
  { intros [d|e] Hs; destruct Hp as [P1 P2 P3]; split; try done. cbn. apply Forall_app. split; [done|]. constructor; [|done].
    destruct Hs as (D1 & D2 & D3 & D4 & D5 & D6). unfold change_ok. rewrite D1, D2, D3, D4, D5. split_and!; [done..|]. destruct D6 as [[-> ?]|[-> ?]]; by auto. }
  apply (brings_bind _ _ _ _ (current_item_spec EpisodeByID map_path c)). intros [s|file] Hs; [by apply brings_okay, Hend|].
  destruct (pg_hydrated p !! file) as [item|] eqn:Ei; [apply attach_spec; [done|by apply (po_hydrated _ Hp _ _ Ei)|done]|].
  apply (brings_bind _ _ _ _ (hydrate_rechecked_spec _ _ _ (fun f r => episode_ok r.1 /\ MRef r.1 = episode_ref f) _ _ (fun f => hydrateMedia_spec _) Hs)).
  intros [s|[f item]] Hh; [by apply brings_okay, Hend|]. destruct Hh as [_ [Hm _]]. by apply attach_spec.
Qed.

Lemma episode_changes_spec changes p : Forall (identified_change MediaEpisode) changes -> progress_ok p -> brings_ (settle_changes changes p) progress_ok.
Proof.
  intros Hc. revert p. induction Hc as [|c changes Hc _ IH]; intros p Hp; cbn [settle_changes]; [by apply brings_okay|].
  apply (brings_bind _ _ _ _ (episode_change_spec _ _ Hc Hp)). intros p' Hp'. by apply IH.
Qed.

Lemma list_files_spec seriesID files seen : brings_ (list_files seriesID files seen) (fun r => Forall episode_ok r.1.1).
Proof.
  revert seen. induction files as [|f files IH]; intros seen; cbn [list_files]; [by apply brings_okay|]. skip_read.
  destruct (_ <=? _); [apply brings_fail|]. destruct (negb _); [apply brings_fail|].
  destruct (seen !! af_id f); [destruct (bool_decide _); [apply IH|apply brings_fail]|].
  apply (brings_bind _ _ (fun r => match r with inl (Some m) => episode_ok m | _ => True end)).
  - unfold list_file. skip_read. destruct a0 as [mapped|[]]; try (by apply brings_fail); try (by apply brings_okay).
    apply (brings_bind _ _ (fun r => match r with Ok m => episode_ok m.1 | Err _ => True end)).
    { apply (brings_attempt _ (fun r => episode_ok r.1)); [|done..]. eapply brings_mono; [apply hydrateMedia_spec|by intros m [? _]]. }
    intros [[m ids]|e] Hm; [|destruct (mapped_unavailable e); [by apply brings_okay|apply brings_fail]]. destruct (negb _); [apply brings_fail|by apply brings_okay].
  - intros item Hi. apply (brings_bind _ _ _ _ (IH _)). intros [[items deferred] seen'] Hr. apply brings_okay. destruct item as [[m|]|]; [by constructor|done|done].
Qed.

Lemma list_series_spec shows seenSeries seen : brings_ (list_series shows seenSeries seen) (fun r => Forall episode_ok r.1).
Proof.
  revert seenSeries seen. induction shows as [|[id u] shows IH]; intros seenSeries seen; cbn [list_series]; [skip_read; by apply brings_okay|].
  skip_read. destruct (id <=? 0); [apply brings_fail|]. destruct (bool_decide _); [apply IH|]. do 2 skip_read.
  apply (brings_bind _ _ _ _ (list_files_spec _ _ _)). intros [[items deferred] seen'] Hi.
  apply (brings_bind _ _ _ _ (IH _ _)). intros rest Hr. apply brings_okay. cbn. by apply Forall_app.
Qed.

#[export] Instance sonarr_catalog : ReconciliationCatalog := {|
  cat_GetMedia := GetMedia; cat_ListChanges := ListChanges; cat_ListIdentitySnapshot := ListIdentitySnapshot; cat_ListLibrary := ListLibrary;
|}.

(** An episode is reported deleted only when Sonarr has no such episode, it has
    no file, or its file is out of scope. *)
#[export] Instance sonarr_lawful : LawfulCatalog instance MediaEpisode evidence.
Proof.
  split.
  - intros since through. cbn. unfold ListChanges. apply (brings_bind _ _ _ _ (history_changes_spec _ _ _ _ _ _)). intros changes Hc.
    apply (brings_bind _ _ progress_ok); [by apply episode_changes_spec|]. intros p [_ P2 P3]. apply brings_okay. cbn. unfold sortHistoryChanges.
    rewrite stable_sort_perm. apply Forall_app. split; [done|]. apply Forall_forall. intros c ([e c'] & -> & He%elem_of_map_to_list)%list_elem_of_fmap. by eapply P2.
  - cbn. unfold ListIdentitySnapshot. do 3 skip_read. apply (brings_bind _ _ _ _ (collect_ids_spec _ _)). intros ids Hids. by apply brings_okay.
  - cbn. unfold ListLibrary. do 3 skip_read. apply list_series_spec.
Qed.
End sonarr.
