(* ===== verification/Reconciler.v ===== *)
(** * Reconciliation with an Arr application (src/internal/catalog)

    Reconciler.Run: the enumeration of a library whose scope changed
    (discovery.go), then one page of history with the deletions of a complete
    identity snapshot (reconcile.go), over the catalog of Arr.v and the library
    of Library.v. Between any two database calls other transactions may change
    the library, and any call may fail. The log is left out. *)
From S2P Require Import Prelude GoText SearchQueue Install Domain Library LibrarySafety MatchRelease History Arr Radarr.

#[local] Open Scope Z_scope.

Inductive ReconcileError :=
| RKind | RCanceled | RStore | RCatalog (e : CatalogError) | RChange | RSnapshot | RTracked | RDeferred.

#[export] Instance event_type_dec : EqDecision EventType.
Proof. solve_decision. Defined.

(** ** Programs *)

(** Calls made so far, the library, the wakes of the workers, and a log of the
    snapshots: the identities the application listed, and those tracked. *)
Record state := mkState { rs_calls : nat; rs_library : library; rs_wakes : Z; rs_snapshots : list (gset Z * list Z) }.

Definition step (A : Type) : Type := state -> state * result ReconcileError A.

Definition sret {A} (a : A) : step A := fun s => (s, Ok a).
Definition sfail {A} (e : ReconcileError) : step A := fun s => (s, Err e).
Definition sbind {A B} (m : step A) (k : A -> step B) : step B :=
  fun s => match m s with (s, Ok a) => k a s | (s, Err e) => (s, Err e) end.
Definition strying {A} (m : step A) : step (result ReconcileError A) := fun s => let '(s, r) := m s in (s, Ok r).

Notation "'step!' x ':=' m 'in' k" := (sbind m (fun x => k))
  (at level 10, x binder, m at level 100, k at level 200, format "'[v' 'step!'  x  ':='  m  'in' '/' k ']'").

(** The world by the number of calls made so far. *)
Record world := mkWorld {
  w_between : nat -> library -> library;
  w_fails : nat -> bool;
  w_now : nat -> instant;
  w_done : nat -> bool;
}.

Definition massDeletionMinimum : Z := 10.

Definition withholdSnapshotDeletions (active missing : Z) : bool :=
  if (active <? 2) || (missing =? 0) then false
  else (missing =? active) || ((massDeletionMinimum <=? missing) && (active <? missing * 2)).

Section reconciler.
Context `{Unicode, LanguageTags} (sha256_hex : list N -> text) (rfc3339nano : instant -> text) (w : world).
Context `{C : ReconciliationCatalog}.
Context (Instance : text) (Kind : MediaKind) (LibraryScope : text) (Languages : list Language).

Definition clock : step instant := fun s => (mkState (S (rs_calls s)) (rs_library s) (rs_wakes s) (rs_snapshots s), Ok (w_now w (rs_calls s))).
Definition canceled : step bool := fun s => (mkState (S (rs_calls s)) (rs_library s) (rs_wakes s) (rs_snapshots s), Ok (w_done w (rs_calls s))).
Definition committed : step unit := fun s => (mkState (rs_calls s) (rs_library s) (rs_wakes s + 1) (rs_snapshots s), Ok tt).

(** A call of the catalog. *)
Definition ask {A} (m : arr A) : step A := fun s =>
  let '(n, r) := m (rs_calls s) in
  (mkState n (rs_library s) (rs_wakes s) (rs_snapshots s), match r with Ok a => Ok a | Err e => Err (RCatalog e) end).

(** A transaction, after whatever others did; a failed one changes nothing. *)
Definition transact (f : library -> option library) : step unit := fun s =>
  let n := rs_calls s in
  let lb := w_between w n (rs_library s) in
  match if w_fails w n then None else f lb with
  | Some lb => (mkState (S n) lb (rs_wakes s) (rs_snapshots s), Ok tt)
  | None => (mkState (S n) lb (rs_wakes s) (rs_snapshots s), Err RStore)
  end.

Definition query {A} (f : library -> option A) : step A := fun s =>
  let n := rs_calls s in
  let lb := w_between w n (rs_library s) in
  (mkState (S n) lb (rs_wakes s) (rs_snapshots s), match if w_fails w n then None else f lb with Some a => Ok a | None => Err RStore end).

Definition log_snapshot (ids : gset Z) (active : list Z) : step unit :=
  fun s => (mkState (rs_calls s) (rs_library s) (rs_wakes s) ((ids, active) :: rs_snapshots s), Ok tt).

Definition ok_of {E A} (r : result E A) : option A := match r with Ok a => Some a | Err _ => None end.

(** ** Discovery *)

(** [true] when items were put off. *)
Definition DiscoverLibrary (force : bool) : step bool :=
  step! done := canceled in
  if done : bool then sfail RCanceled
  else if bool_decide (LibraryScope = []) then sret false
  else
    step! known := query (LibraryDiscoveryState Instance) in
    if negb force && bool_decide (known.1 = LibraryScope) then sret false
    else
      step! listed := ask cat_ListLibrary in
      let deferred := negb (bool_decide (listed.2 = [])) in
      step! now := clock in
      step! _ := transact (fun lb => ok_of
        (if deferred then CommitPartialLibraryDiscovery sha256_hex Instance known.2 listed.1 Languages now lb
         else CommitLibraryDiscovery sha256_hex Instance LibraryScope known.2 listed.1 Languages now lb)) in
      step! _ := committed in
      sret deferred.

Definition DiscoveryPending : step bool :=
  if bool_decide (LibraryScope = []) then sret false
  else step! known := query (LibraryDiscoveryState Instance) in sret (negb (bool_decide (known.1 = LibraryScope))).

(** ** The mutations of a page *)

Definition event_text (e : EventType) : text :=
  match e with EventImport => t "import" | EventRename => t "rename" | EventDelete => t "delete" end.

Definition change_mutation (c : HistoryChange) : option MediaEventMutation :=
  let mutation type ref replay :=
    mkMutation 0 (t "reconcile:" ++ Instance ++ t ":" ++ itoa (HistoryID c)) (event_text type) (ChEntityID c) (default no_media (ChMedia c)) ref
      Languages (OccurredAt c) SearchPriorityMissing replay in
  if (HistoryID c <=? 0) || (ChEntityID c <=? 0) || bool_decide (ChKind c = KindUnset) || is_zero (OccurredAt c) then None
  else
    match ChState c with
    | HistoryPresent =>
        let m := default no_media (ChMedia c) in
        if bool_decide (ChType c = EventDelete) then None
        else if negb (EntityID m =? ChEntityID c) || negb (bool_decide (Instance_ (MRef m) = Instance))
                || negb (bool_decide (RefKind (MRef m) = ChKind c)) || (RefFileID (MRef m) <=? 0) then None
        else Some (mutation (ChType c) (MRef m) true)
    | HistoryAbsent | HistoryOutsideScope => Some (mutation EventDelete (mkMediaRef Instance (ChKind c) 0) false)
    | HistoryUnset => None
    end.

Definition recheck_mutation (ref : MediaRef) (now : instant) (m : Media) : MediaEventMutation :=
  mkMutation 0 (t "multi-episode-recheck:" ++ Instance ++ t ":" ++ itoa (RefFileID ref)) (t "import") (EntityID m) m ref Languages now
    SearchPriorityMissing false.

Fixpoint recheck_files (now : instant) (refs : list MediaRef) : step (list MediaEventMutation) :=
  match refs with
  | [] => sret []
  | ref :: refs =>
      step! done := canceled in
      if done : bool then sret []
      else
        step! read := strying (ask (cat_GetMedia ref)) in
        step! rest := recheck_files now refs in
        match read with
        | Ok m => if (EntityID m <=? 0) || negb (bool_decide (MRef m = ref)) then sret rest else sret (recheck_mutation ref now m :: rest)
        | Err _ => sret rest
        end
  end.

Definition recheckLegacyMultiEpisode : step (list MediaEventMutation) :=
  if negb (bool_decide (Kind = MediaEpisode)) then sret []
  else
    step! refs := strying (query (fun lb => Some (ListLegacyMultiEpisodeMedia Instance lb))) in
    match refs with
    | Err _ => sret []
    | Ok refs => step! now := clock in recheck_files now refs
    end.

Definition snapshotDeleteEventID (kind : MediaKind) (identity : Z) (pageEnd : instant) : text :=
  t "snapshot-reconcile:" ++ sha256_hex (bytes_of (itoa (byte_len Instance) ++ t ":" ++ Instance ++ t ":" ++ kind_text kind ++ t ":" ++ itoa identity
                                                   ++ t ":" ++ rfc3339nano pageEnd)).

Definition snapshot_mutation (kind : MediaKind) (pageEnd : instant) (identity : Z) : MediaEventMutation :=
  let episode := bool_decide (kind = MediaEpisode) in
  mkMutation (if episode then identity else 0) (snapshotDeleteEventID kind identity pageEnd) (t "delete") (if episode then 0 else identity) no_media
    (mkMediaRef Instance kind 0) [] pageEnd SearchPriorityMissing false.

Definition missing_of (ids : gset Z) (active : list Z) : list Z := base.filter (fun i => i ∉ ids) active.

(** The deletions a snapshot asks for. *)
Definition snapshot_deletions (ids : gset Z) (active : list Z) : list Z :=
  let missing := missing_of ids active in
  if withholdSnapshotDeletions (Z.of_nat (length active)) (Z.of_nat (length missing)) then [] else missing.

Definition snapshot_mutations (pageEnd : instant) : step (list MediaEventMutation) :=
  step! snapshot := ask cat_ListIdentitySnapshot in
  let '(kind, ids) := snapshot in
  if negb (bool_decide (kind = Kind)) then sfail RSnapshot
  else if existsb (fun i => i <=? 0) (elements ids) then sfail RSnapshot
  else
    step! active := query (fun lb => ok_of (ListActiveCatalogIdentities Instance kind lb)) in
    if existsb (fun i => i <=? 0) active then sfail RTracked
    else
      step! _ := log_snapshot ids active in
      sret (snapshot_mutation kind pageEnd <$> snapshot_deletions ids active).

(** ** One reconciliation *)

Definition page (known : ReconciliationState) (pageEnd : instant) : step (list MediaEventMutation * bool) :=
  step! listed := ask (cat_ListChanges (Cursor known) pageEnd) in
  match mapM change_mutation listed.1 with
  | None => sfail RChange
  | Some history =>
      step! rechecked := recheckLegacyMultiEpisode in
      step! removed := snapshot_mutations pageEnd in
      sret (history ++ rechecked ++ removed, negb (bool_decide (listed.2 = [])))
  end.

Definition Run : step unit :=
  if bool_decide (Kind = KindUnset) then sfail RKind
  else
    step! undiscovered := DiscoverLibrary false in
    step! known := query (GetReconciliationState Instance) in
    step! pageEnd := clock in
    step! page := page known pageEnd in
    let '(mutations, deferred) := page in
    let cursor := if deferred : bool then Cursor known else pageEnd in
    step! _ := transact (fun lb => ok_of (CommitReconciliation Instance known cursor mutations lb)) in
    step! _ := committed in
    if (deferred : bool) || (undiscovered : bool) then sfail RDeferred else sret tt.
End reconciler.

(** ** What a page can delete *)

(** The deletion names the row: its file, its entity, or its series. *)
Definition removes (m : MediaEventMutation) (r : catalog_row) : Prop :=
  deletes m = true /\ of_instance (Instance_ (MuRef m)) (RefKind (MuRef m)) r = true
  /\ (0 < RefFileID (MuRef m) /\ RefFileID (MRef (ct_media r)) = RefFileID (MuRef m)
      \/ RefFileID (MuRef m) <= 0 /\ MuSeriesID m <= 0 /\ EntityID (ct_media r) = MuEntityID m
      \/ 0 < MuSeriesID m /\ SeriesID (ct_media r) = MuSeriesID m).

(** The identity of a row: what deletions name it by. *)
Definition same_identity (a b : catalog_row) : Prop :=
  MRef (ct_media a) = MRef (ct_media b) /\ EntityID (ct_media a) = EntityID (ct_media b) /\ SeriesID (ct_media a) = SeriesID (ct_media b).

(** The rows that are deleted now were, or are of the kind [P]. *)
Definition deleted_only (P : catalog_row -> Prop) (lb lb' : library) : Prop :=
  forall id r', lb_media lb' !! id = Some r' -> ct_deleted r' = true ->
    P r' \/ exists r, lb_media lb !! id = Some r /\ ct_deleted r = true /\ same_identity r r'.

Lemma deleted_only_refl P lb : deleted_only P lb lb.
Proof. intros id r Hr Hd. right. by exists r. Qed.

Lemma deleted_only_media P lb lb' : lb_media lb' = lb_media lb -> deleted_only P lb lb'.
Proof. intros E id r Hr Hd. right. exists r. by rewrite <- E. Qed.

Lemma deleted_only_trans (P : catalog_row -> Prop) a b c : (forall r r', same_identity r r' -> P r -> P r') ->
  deleted_only P a b -> deleted_only P b c -> deleted_only P a c.
Proof.
  intros HP H1 H2 id r' Hr' Hd'. destruct (H2 id r' Hr' Hd') as [?|(r & Hr & Hd & Hs)]; [by left|].
  destruct (H1 id r Hr Hd) as [Hp|(q & Hq & Hdq & Hsq)]; [left; by eapply HP|right]. exists q. split_and!; [done..|].
  destruct Hs as (? & ? & ?), Hsq as (? & ? & ?). split_and!; congruence.
Qed.

Lemma deleted_only_mono (P Q : catalog_row -> Prop) lb lb' : (forall r, P r -> Q r) -> deleted_only P lb lb' -> deleted_only Q lb lb'.
Proof. intros HPQ H id r' Hr Hd. destruct (H id r' Hr Hd); [left; by apply HPQ|by right]. Qed.

Lemma removes_identity m r r' : same_identity r r' -> removes m r -> removes m r'.
Proof. intros (E1 & E2 & E3) (Hd & Hi & Hn). unfold removes, of_instance in *. by rewrite <- E1, <- E2, <- E3. Qed.

Lemma import_deletes m lb lb' : LibrarySafety.imported m lb lb' -> deleted_only (fun _ => False) lb lb'.
Proof.
  intros (lb1 & id & changed & lb2 & lb3 & Hu & E2 & H3 & ->). apply upsert_spec in Hu as (found & m' & lb0 & Hs & Hw & ->).
  destruct (write_spec _ _ _ _ _ _ _ _ _ Hs Hw) as (r & Hm & (_ & _ & _ & _ & Hdel) & _).
  assert (lb_media lb3 = <[id := r]> (lb_media lb)) as E3.
  { assert (lb_media lb2 = <[id := r]> (lb_media lb)) as Em2.
    { rewrite <- Hm. destruct (follow_rename_beside found m' changed lb0) as (<- & _). rewrite E2. by destruct changed. }
    destruct H3 as [->|H3]; [done|]. apply schedule_languages_spec in H3 as (E & _ & _). by rewrite E. }
  intros j r' Hr' Hd'. change (lb_media (link_event _ _ _ _ lb3)) with (lb_media lb3) in Hr'. rewrite E3 in Hr'.
  apply lookup_insert_Some in Hr' as [[_ <-]|[_ Hr']]; [congruence|right]. by exists r'.
Qed.

Lemma delete_deletes m lb : deletes m = true -> MuSeriesID m <= 0 -> deleted_only (removes m) lb (apply_delete m lb).
Proof.
  intros Hdel Hs. unfold apply_delete. set (found := if 0 <? _ then _ else _).
  assert (forall id r, found = Some (id, r) -> lb_media lb !! id = Some r /\ removes m r) as Hf.
  { intros id r. unfold found. destruct (Z.ltb_spec 0 (RefFileID (MuRef m))); intros [Hr Hp]%find_row_some; (split; [done|]); split_and!; try done.
    1, 3: by apply andb_true_iff in Hp as [? _]. all: apply andb_true_iff in Hp as [_ E%Z.eqb_eq]; auto. }
  destruct found as [[id r]|]; [|apply deleted_only_refl]. destruct (Hf id r eq_refl) as [Hr Hrem]. intros j r' Hr' Hd'.
  cbn [lb_media link_event cancel_searches with_events with_searches] in Hr'. rewrite (update_media_rows _ _ _ _ Hr) in Hr'.
  apply lookup_insert_Some in Hr' as [[_ <-]|[_ Hr']]; [left; exact Hrem|right]. by exists r'.
Qed.

Lemma mutation_deletes series m lb lb' b :
  (forall lb0 lb1, lb_media lb0 = lb_media lb -> library_ok lb0 -> 0 < MuSeriesID m -> deletes m = true -> series m lb0 = Ok lb1 -> deleted_only (removes m) lb0 lb1) ->
  library_ok lb -> apply_mutation series m lb = Ok (lb', b) -> deleted_only (removes m) lb lb'.
Proof.
  intros Hseries Hok E. pose proof E as E0. apply apply_mutation_spec in E as [(_ & _ & ->)|(lb0 & Hi & Hm)]; [apply deleted_only_refl|].
  pose proof (insert_event_beside _ _ _ Hi) as Hb. pose proof (beside_ok _ _ Hb Hok) as Hok0. destruct Hb as (E1 & _).
  assert (forall lb1, deleted_only (removes m) lb0 lb1 -> deleted_only (removes m) lb lb1) as Hfrom.
  { intros lb1 H1 id r Hr Hd. rewrite <- E1. by apply H1. }
  unfold apply_mutation in E0. apply rbind_ok in E0 as ([] & _ & E0). destruct (negb _); [done|]. rewrite Hi in E0.
  apply Hfrom. destruct Hm as [(Hbr & _ & _ & [(_ & _ & ->)|(_ & _ & Himp)])|[(Hdel & Hs & _)|(Hdel & -> & _)]].
  - apply deleted_only_refl.
  - eapply deleted_only_mono; [|by eapply import_deletes]. done.
  - rewrite (deletes_brings _ Hdel), Hdel in E0. destruct (Z.ltb_spec 0 (MuSeriesID m)); [by apply Hseries|].
    injection E0 as <- _. by apply delete_deletes.
  - rewrite (deletes_brings _ Hdel), Hdel in E0. destruct (Z.ltb_spec 0 (MuSeriesID m)); [|by apply delete_deletes].
    apply rbind_ok in E0 as (lb1 & Hs & [= <- _]). by apply Hseries.
Qed.

(** A deletion keeps the identity of every row. *)
Definition identities (lb lb' : library) : Prop := forall id r', lb_media lb' !! id = Some r' -> exists r, lb_media lb !! id = Some r /\ same_identity r r'.

Lemma delete_identities m lb : identities lb (apply_delete m lb).
Proof.
  intros j r' Hr'. destruct (apply_delete_spec m lb) as [(E & _)|(id & r & at_ & ea & Hr & (E & _))]; rewrite E in Hr'; [by exists r'|].
  cbn [lb_media cancel_searches with_searches] in Hr'. rewrite (update_media_rows _ _ _ _ Hr) in Hr'.
  apply lookup_insert_Some in Hr' as [[<- <-]|[_ Hr']]; [by exists r|by exists r'].
Qed.

Lemma child_identities m e lb lb' b : deletes m = true -> apply_mutation (fun _ lb => Ok lb) (series_child m e) lb = Ok (lb', b) -> identities lb lb'.
Proof.
  intros Hdel [(_ & _ & ->)|(lb0 & (E & _)%insert_event_beside & Hm)]%apply_mutation_spec; [intros id r Hr; by exists r|].
  assert (identities lb lb0) as H0 by (intros id r Hr; exists r; by rewrite <- E).
  destruct Hm as [(Hb & _)|[(_ & [= ->] & _)|(_ & -> & _)]]; [|done|].
  - change (brings (series_child m e)) with (brings m) in Hb. by rewrite (deletes_brings _ Hdel) in Hb.
  - intros id r' (r & Hr & Hs)%delete_identities. rewrite E in Hr. by exists r.
Qed.

(** All the rows of these entities are of the series. *)
Definition all_of_series (m : MediaEventMutation) (entities : list Z) (lb : library) : Prop :=
  forall id r, lb_media lb !! id = Some r -> of_instance (Instance_ (MuRef m)) (RefKind (MuRef m)) r = true -> EntityID (ct_media r) ∈ entities ->
    SeriesID (ct_media r) = MuSeriesID m.

Lemma all_of_series_identities m entities lb lb' : identities lb lb' -> all_of_series m entities lb -> all_of_series m entities lb'.
Proof.
  intros Hi Ha id r' Hr' Hof He. destruct (Hi id r' Hr') as (r & Hr & E1 & E2 & E3). rewrite <- E3. apply (Ha id r Hr); [|by rewrite E2].
  unfold of_instance in *. by rewrite E1.
Qed.

Lemma children_delete m entities lb lb' : deletes m = true -> 0 < MuSeriesID m -> RefFileID (MuRef m) <= 0 ->
  all_of_series m entities lb -> library_ok lb -> apply_children m entities lb = Ok lb' -> deleted_only (removes m) lb lb'.
Proof.
  intros Hdel Hs Hf. revert lb. induction entities as [|e entities IH]; intros lb Ha Hok; cbn [apply_children]; [intros [= <-]; apply deleted_only_refl|].
  intros E. apply rbind_ok in E as ([lb1 b] & E1 & E). cbn [fst] in E.
  pose proof (child_identities _ _ _ _ _ Hdel E1) as Hi. pose proof (all_of_series_identities _ _ _ _ Hi Ha) as Ha1.
  assert (library_ok lb1) as Hok1.
  { eapply (apply_mutation_preserves _ _ ok_preserved (fun _ lb => Ok lb)); [done| |exact E1|done]. by intros lb0 lb2 H0 [= <-]. }
  apply (deleted_only_trans _ _ lb1); [by apply removes_identity| |].
  - assert (deleted_only (removes (series_child m e)) lb lb1) as H1.
    { eapply mutation_deletes; [|done|exact E1]. intros lb0 lb2 _ _ Hpos. cbn in Hpos. lia. }
    intros id r' Hr' Hd'. destruct (H1 id r' Hr' Hd') as [(_ & Hof & [[? _]|[(_ & _ & He)|[? _]]])|?]; [cbn in *; lia| |cbn in *; lia|by right].
    left. split_and!; [done|exact Hof|]. do 2 right. split; [done|]. apply (Ha1 id r' Hr' Hof). cbn in He. rewrite He. by left.
  - apply (IH lb1); [|done|exact E]. intros id r Hr Hof He. apply (Ha1 id r Hr Hof). by right.
Qed.

Lemma series_rows m lb : library_ok lb -> RefKind (MuRef m) = MediaEpisode ->
  all_of_series m (series_entities (Instance_ (MuRef m)) (MuSeriesID m) lb) lb.
Proof.
  intros [Hok _] Hk id r Hr Hof He. unfold series_entities in He. rewrite stable_sort_perm in He.
  apply list_elem_of_fmap in He as (q & E & [Hq ([j q'] & -> & Hj%elem_of_map_to_list)%list_elem_of_fmap]%list_elem_of_filter).
  cbn in *. apply andb_true_iff in Hq as [Hqi Hqs%Z.eqb_eq]. rewrite Hk in Hof.
  assert (id = j) as ->; [|congruence]. apply (ro_entity _ Hok id j r q'); [done..| |done].
  apply of_instance_spec in Hof as [? ?], Hqi as [? ?]. split; congruence.
Qed.

Lemma applied_deletes m lb lb' b : library_ok lb -> applyMediaMutationTx m lb = Ok (lb', b) -> deleted_only (removes m) lb lb'.
Proof.
  intros Hok E. eapply mutation_deletes; [|exact Hok|exact E]. intros lb0 lb1 _ Hok0 Hs Hdel E1.
  assert (RefKind (MuRef m) = MediaEpisode /\ RefFileID (MuRef m) = 0) as [Hk Hf].
  { unfold applyMediaMutationTx, apply_mutation in E. apply rbind_ok in E as ([] & Hv & _). unfold validateMediaMutation in Hv.
    destruct (_ || is_zero _); [done|]. rewrite (deletes_brings _ Hdel), Hdel, (proj2 (Z.eqb_neq _ _)) in Hv by lia. cbn [negb] in Hv.
    destruct (_ || negb (MuEntityID m =? 0)) eqn:Ev; [done|]. apply orb_false_iff in Ev as [[[_ Ek]%orb_false_iff Ef]%orb_false_iff _]. bools. done. }
  apply (children_delete m (series_entities (Instance_ (MuRef m)) (MuSeriesID m) lb0)); [done|done|lia|by apply series_rows|done|exact E1].
Qed.

(** A page deletes what its deletions name. *)
Definition removed_by (ms : list MediaEventMutation) (r : catalog_row) : Prop := exists m, m ∈ ms /\ removes m r.

Lemma removed_by_identity ms r r' : same_identity r r' -> removed_by ms r -> removed_by ms r'.
Proof. intros Hs (m & ? & ?). exists m. split; [done|]. by eapply removes_identity. Qed.

Lemma commit_mutation_deletes instance retain m lb lb' : library_ok lb -> commit_mutation instance retain m lb = Ok lb' ->
  library_ok lb' /\ deleted_only (removes m) lb lb'.
Proof.
  intros Hok. unfold commit_mutation. destruct (negb _); [done|]. set (q := with_priority _ m).
  assert (forall r, removes q r -> removes m r) as Hq by (intros r; unfold q, with_priority; by destruct (_ =? 0)).
  assert (forall lb0 lb1 b, lb_media lb0 = lb_media lb -> library_ok lb0 -> applyMediaMutationTx q lb0 = Ok (lb1, b) -> library_ok lb1 /\ deleted_only (removes m) lb lb1) as Happ.
  { intros lb0 lb1 b E0 Hok0 E. split; [by eapply (apply_preserves _ _ ok_preserved)|]. intros id r Hr Hd. rewrite <- E0.
    destruct (applied_deletes _ _ _ _ Hok0 E id r Hr Hd) as [?|?]; [left; by apply Hq|by right]. }
  destruct retain.
  - destruct (existsb _ _); [intros [= <-]; split; [done|apply deleted_only_refl]|]. intros ([lb1 b] & E & [= <-])%rbind_ok. eapply Happ; [| |exact E]; done.
  - destruct (bool_decide _); [intros [= <-]; split; [done|apply deleted_only_refl]|]. intros ([lb1 b] & E & [= <-])%rbind_ok. eapply Happ; [| |exact E]; done.
Qed.

Lemma commit_mutations_delete instance retain ms lb lb' : library_ok lb -> commit_mutations instance retain ms lb = Ok lb' -> deleted_only (removed_by ms) lb lb'.
Proof.
  revert lb. induction ms as [|m ms IH]; intros lb Hok; cbn [commit_mutations]; [intros [= <-]; apply deleted_only_refl|].
  intros (lb1 & E1 & E)%rbind_ok. apply (commit_mutation_deletes _ _ _ _ _ Hok) in E1 as [Hok1 H1].
  apply (deleted_only_trans _ _ lb1); [by apply removed_by_identity| |].
  - eapply deleted_only_mono; [|exact H1]. intros r Hr. exists m. split; [by left|done].
  - eapply deleted_only_mono; [|by apply IH]. intros r (q & Hq & Hr). exists q. split; [by right|done].
Qed.

Lemma page_deletes instance expected cursor ms lb lb' : library_ok lb -> CommitReconciliation instance expected cursor ms lb = Ok lb' ->
  deleted_only (removed_by ms) lb lb'.
Proof.
  unfold CommitReconciliation. destruct (GetReconciliationState instance lb); [|done]. destruct (_ || _); [done|].
  intros Hok (lb1 & E1 & E)%rbind_ok. apply (commit_mutations_delete _ _ _ _ _ Hok) in E1.
  destruct (cursor =? _); [by injection E as <-|]. destruct (bool_decide _); [|done]. by injection E as <-.
Qed.

(** Discovery deletes nothing. *)
Lemma backfilled_identity m r : same_identity r (backfilled m r) /\ ct_deleted (backfilled m r) = ct_deleted r.
Proof. unfold backfilled. cbn. split; [|done]. by case_bool_decide; destruct (_ && _). Qed.

Section discovering.
Context `{Unicode, LanguageTags} (sha256_hex : list N -> text).

Lemma discover_deletes instance kind languages at_ files entities items lb lb' : library_ok lb ->
  discover sha256_hex instance kind languages at_ files entities items lb = Ok lb' -> library_ok lb' /\ deleted_only (fun _ => False) lb lb'.
Proof.
  revert files entities lb. induction items as [|m items IH]; intros files entities lb Hok; cbn [discover]; [intros [= <-]; split; [done|apply deleted_only_refl]|].
  destruct (_ || _); [done|]. destruct (match files !! _ with Some _ => _ | None => _ end); [done|]. destruct (match entities !! _ with Some _ => _ | None => _ end); [done|].
  intros (found & Ef & E)%rbind_ok. destruct found as [[id q]|].
  - apply find_identity in Ef as (Hr & _). rewrite (alter_known _ _ _ _ Hr) in E.
    assert (library_ok (with_media (<[id := backfilled m q]> (lb_media lb)) lb)) as Hok1 by by apply (pr_backfill _ _ ok_preserved).
    apply (IH _ _ _ Hok1) in E as [Hok' Hd]. split; [done|]. eapply deleted_only_trans; [done| |exact Hd].
    destruct (backfilled_identity m q) as [Hs Hb]. intros j r' Hr' Hdel. cbn [lb_media with_media] in Hr'.
    apply lookup_insert_Some in Hr' as [[<- <-]|[_ Hr']]; right; [|by exists r'].
    exists q. split_and!; [done|by rewrite <- Hb|done..].
  - apply rbind_ok in E as ([lb1 b] & E1 & E). destruct b; [|done]. cbn [fst] in E.
    assert (library_ok lb1) as Hok1 by by eapply (apply_preserves _ _ ok_preserved).
    apply (IH _ _ _ Hok1) in E as [Hok' Hd]. split; [done|]. eapply deleted_only_trans; [done| |exact Hd].
    eapply deleted_only_mono; [|by eapply applied_deletes]. intros r (Hdel & _). done.
Qed.

Lemma discovery_deletes instance scope revision items languages at_ lb lb' : library_ok lb ->
  commitLibraryDiscovery sha256_hex instance scope revision items languages at_ lb = Ok lb' -> library_ok lb' /\ deleted_only (fun _ => False) lb lb'.
Proof.
  intros Hok. unfold commitLibraryDiscovery. destruct (_ || is_zero _); [done|]. destruct (negb _); [done|].
  destruct (lb_instances lb !! instance); [|done]. destruct (negb _); [done|]. intros (kind & _ & E)%rbind_ok. apply rbind_ok in E as (lb1 & E & [= <-]).
  apply (discover_deletes _ _ _ _ _ _ _ _ _ Hok) in E as [Hok1 Hd]. by case_bool_decide.
Qed.
End discovering.

(** ** Runs *)

Section runs.
Context `{Unicode, LanguageTags} (sha256_hex : list N -> text) (rfc3339nano : instant -> text) (w : world).
Context (Instance : text) (Kind : MediaKind) (evidence : Z -> Prop) `{C : ReconciliationCatalog} `{!LawfulCatalog Instance Kind evidence}.
Context (LibraryScope : text) (Languages : list Language).
(** Other transactions delete nothing meanwhile. *)
Context (others : forall n lb, library_ok lb -> library_ok (w_between w n lb) /\ deleted_only (fun _ => False) lb (w_between w n lb)).

(** Not almost everything that is tracked. *)
Definition measured (ids : gset Z) (active : list Z) : Prop :=
  let missing := length (missing_of ids active) in
  (length active < 2 \/ missing < length active)%nat /\ (missing < 10 \/ 2 * missing <= length active)%nat.

(** Why a row may be deleted. *)
Definition justified (s : state) (r : catalog_row) : Prop :=
  of_instance Instance Kind r = true
  /\ (evidence (EntityID (ct_media r))
      \/ exists ids active, (ids, active) ∈ rs_snapshots s /\ identity_of Kind r ∈ active /\ identity_of Kind r ∉ ids /\ measured ids active).

(** Steps that delete nothing. *)
Definition calm (s s' : state) : Prop :=
  library_ok (rs_library s') /\ deleted_only (fun _ => False) (rs_library s) (rs_library s') /\ rs_snapshots s ⊆ rs_snapshots s'.

Definition calmly {A} (s : state) (m : step A) (Q : state -> A -> Prop) : Prop :=
  library_ok (rs_library s) -> calm s (m s).1 /\ match (m s).2 with Ok a => Q (m s).1 a | Err _ => True end.

Lemma calm_trans a b c : calm a b -> calm b c -> calm a c.
Proof. intros (_ & D1 & L1) (O2 & D2 & L2). split_and!; [done|by eapply deleted_only_trans|by etrans]. Qed.

Lemma calm_refl s : library_ok (rs_library s) -> calm s s.
Proof. intros Hok. split_and!; [done|apply deleted_only_refl|done]. Qed.

Lemma calmly_bind {A B} s (m : step A) (k : A -> step B) P Q :
  calmly s m P -> (forall s1 a, calm s s1 -> P s1 a -> calmly s1 (k a) Q) -> calmly s (sbind m k) Q.
Proof.
  intros Hm Hk Hok. unfold sbind. specialize (Hm Hok) as [Hc HP]. destruct (m s) as [s1 [a|e]]; cbn in *; [|done].
  destruct (Hk s1 a Hc HP (proj1 Hc)) as [Hc2 HQ]. split; [by eapply calm_trans|done].
Qed.

Lemma calmly_mono {A} s (m : step A) (P Q : state -> A -> Prop) : calmly s m P -> (forall s' a, P s' a -> Q s' a) -> calmly s m Q.
Proof. intros Hm HPQ Hok. destruct (Hm Hok) as [? HP]. split; [done|]. destruct (m s).2; [by apply HPQ|done]. Qed.

Lemma calmly_ret {A} s (a : A) (Q : state -> A -> Prop) : Q s a -> calmly s (sret a) Q.
Proof. intros HQ Hok. split; [by apply calm_refl|done]. Qed.
Lemma calmly_fail {A} s e (Q : state -> A -> Prop) : calmly s (sfail e) Q.
Proof. intros Hok. split; [by apply calm_refl|done]. Qed.

Lemma calmly_clock s : calmly s (clock w) (fun _ _ => True).
Proof. intros Hok. split; [split_and!; [done|apply deleted_only_refl|done]|done]. Qed.
Lemma calmly_canceled s : calmly s (canceled w) (fun _ _ => True).
Proof. intros Hok. split; [split_and!; [done|apply deleted_only_refl|done]|done]. Qed.
Lemma calmly_committed s : calmly s committed (fun _ _ => True).
Proof. intros Hok. split; [split_and!; [done|apply deleted_only_refl|done]|done]. Qed.

Lemma calmly_ask {A} s (m : arr A) P : brings_ m P -> calmly s (ask m) (fun _ a => P a).
Proof.
  intros Hm Hok. unfold ask. destruct (m (rs_calls s)) as [n [a|e]] eqn:E; (split; [split_and!; [done|apply deleted_only_refl|done]|]); [by eapply Hm|done].
Qed.

Lemma calmly_query {A} s (f : library -> option A) (Q : A -> Prop) : (forall lb a, f lb = Some a -> Q a) -> calmly s (query w f) (fun _ a => Q a).
Proof.
  intros HQ Hok. unfold query. destruct (others (rs_calls s) _ Hok) as [Hok1 Hd]. split; [by split_and!|]. cbn.
  destruct (if w_fails w (rs_calls s) then None else _) eqn:E; [|done]. destruct (w_fails w _); [done|]. by eapply HQ.
Qed.

Lemma calmly_transact s f : (forall lb lb', library_ok lb -> f lb = Some lb' -> library_ok lb' /\ deleted_only (fun _ => False) lb lb') ->
  calmly s (transact w f) (fun _ _ => True).
Proof.
  intros Hf Hok. unfold transact. destruct (others (rs_calls s) _ Hok) as [Hok1 Hd].
  destruct (if w_fails w (rs_calls s) then None else _) as [lb|] eqn:E; (split; [|done]); cbn; [|by split_and!].
  destruct (w_fails w _); [done|]. destruct (Hf _ _ Hok1 E) as [Hok2 Hd2]. split_and!; [done| |done]. cbn. by eapply deleted_only_trans.
Qed.

Lemma calmly_trying {A} s (m : step A) P : calmly s m P -> calmly s (strying m) (fun s r => match r with Ok a => P s a | Err _ => True end).
Proof. intros Hm Hok. destruct (Hm Hok) as [Hc HP]. unfold strying. destruct (m s) as [s1 r]. done. Qed.
(** ** The deletions of a page *)

Lemma withhold_measured ids active : (0 < length (missing_of ids active))%nat ->
  withholdSnapshotDeletions (Z.of_nat (length active)) (Z.of_nat (length (missing_of ids active))) = false -> measured ids active.
Proof.
  intros Hpos. unfold withholdSnapshotDeletions, massDeletionMinimum, measured.
  assert (length (missing_of ids active) <= length active)%nat by apply length_filter. set (n := length (missing_of ids active)) in *.
  destruct (Z.ltb_spec (Z.of_nat (length active)) 2); cbn [orb]; [intros _; split; lia|].
  destruct (Z.eqb_spec (Z.of_nat n) 0); [lia|]. destruct (Z.eqb_spec (Z.of_nat n) (Z.of_nat (length active))); [done|]. cbn [orb]. intros Hw. split; [lia|].
  destruct (Z.leb_spec 10 (Z.of_nat n)); [|lia]. cbn [andb] in Hw. lia.
Qed.

Lemma change_removes c m r : change_ok Instance Kind evidence c -> change_mutation Instance Languages c = Some m -> removes m r ->
  of_instance Instance Kind r = true /\ evidence (EntityID (ct_media r)).
Proof.
  intros (H1' & H2' & Hk & H4 & Hst). unfold change_mutation. destruct (_ || is_zero _); [done|].
  assert (forall a b : HistoryChange, ChType c = EventDelete /\ evidence (ChEntityID c) ->
    Some (mkMutation 0 (t "reconcile:" ++ Instance ++ t ":" ++ itoa (HistoryID c)) (event_text EventDelete) (ChEntityID c)
      (default no_media (ChMedia c)) (mkMediaRef Instance (ChKind c) 0) Languages (OccurredAt c) SearchPriorityMissing false) = Some m ->
    removes m r -> of_instance Instance Kind r = true /\ evidence (EntityID (ct_media r))) as Hdel.
  { intros _ _ [_ He] [= <-] (_ & Hof & Hn). cbn in Hof, Hn. rewrite Hk in Hof. split; [done|].
    destruct Hn as [[? _]|[(_ & _ & ->)|[? _]]]; [lia|done|lia]. }
  destruct (ChState c); [|by apply Hdel|by apply Hdel|done].
  destruct (bool_decide _) eqn:Et; [done|]. destruct (_ || (_ <=? 0)); [done|]. intros [= <-] (Hd & _). cbn in Hd. unfold deletes in Hd. cbn in Hd.
  apply bool_decide_eq_false in Et. by destruct (ChType c).
Qed.

Lemma changes_remove changes ms r : Forall (change_ok Instance Kind evidence) changes -> mapM (change_mutation Instance Languages) changes = Some ms ->
  removed_by ms r -> of_instance Instance Kind r = true /\ evidence (EntityID (ct_media r)).
Proof.
  intros Hc Hm%mapM_Some_1 (m & Hin & Hr). apply list_elem_of_lookup in Hin as [i Hi].
  destruct (Forall2_lookup_r _ _ _ _ _ Hm Hi) as (c & Hci & E). eapply change_removes; [|exact E|exact Hr].
  by apply (Forall_lookup_1 _ _ _ _ Hc Hci).
Qed.

(** No file read again is deleted. *)
Definition brings_all (ms : list MediaEventMutation) : Prop := Forall (fun m => deletes m = false) ms.

Lemma recheck_files_calm now refs s : calmly s (recheck_files w Instance Languages now refs) (fun _ => brings_all).
Proof.
  revert s. induction refs as [|ref refs IH]; intros s; cbn [recheck_files]; [apply calmly_ret; constructor|].
  apply (calmly_bind _ _ _ (fun _ _ => True)); [apply calmly_canceled|]. intros s1 [|] _ _; [apply calmly_ret; constructor|].
  eapply calmly_bind; [apply calmly_trying, (calmly_ask _ _ (fun _ => True)), brings_any|]. intros s2 read _ _.
  eapply calmly_bind; [apply IH|]. intros s3 rest _ Hrest. destruct read as [m|e]; [|by apply calmly_ret].
  destruct (_ || _); apply calmly_ret; [done|by constructor].
Qed.

Lemma recheck_calm s : calmly s (recheckLegacyMultiEpisode w Instance Kind Languages) (fun _ => brings_all).
Proof.
  unfold recheckLegacyMultiEpisode. destruct (negb _); [apply calmly_ret; constructor|].
  eapply calmly_bind; [apply calmly_trying, (calmly_query _ _ (fun _ => True)); done|]. intros s1 [refs|e] _ _; [|apply calmly_ret; constructor].
  eapply calmly_bind; [apply calmly_clock|]. intros s2 now _ _. apply recheck_files_calm.
Qed.

Lemma snapshot_calm pageEnd s :
  calmly s (snapshot_mutations sha256_hex rfc3339nano w Instance Kind pageEnd) (fun s' ms => forall r, removed_by ms r -> justified s' r).
Proof.
  unfold snapshot_mutations. eapply calmly_bind; [apply calmly_ask, lc_snapshot|]. intros s1 [kind ids] _ _.
  destruct (bool_decide_reflect (kind = Kind)) as [->|]; [|apply calmly_fail]. cbn [negb]. destruct (existsb _ (elements ids)); [apply calmly_fail|].
  eapply calmly_bind; [apply (calmly_query _ _ (fun _ => True)); done|]. intros s2 active _ _.
  destruct (existsb _ active) eqn:Ea; [apply calmly_fail|].
  assert (forall i, i ∈ active -> 0 < i) as Hpos.
  { intros i Hi. destruct (Z.ltb_spec 0 i); [done|]. apply not_true_iff_false in Ea. exfalso. apply Ea, existsb_exists. exists i.
    split; [by apply list_elem_of_In|lia]. }
  apply (calmly_bind _ _ _ (fun s _ => (ids, active) ∈ rs_snapshots s)).
  { intros Hok. split; [|by left]. split_and!; [done|apply deleted_only_refl|]. cbn. by right. }
  intros s3 _ _ Hlog. apply calmly_ret. intros r (m & (i & -> & Hi)%list_elem_of_fmap & (_ & Hof & Hn)). split; [exact Hof|right].
  exists ids, active. unfold snapshot_deletions in Hi. destruct (withholdSnapshotDeletions _ _) eqn:Ew; [by apply elem_of_nil in Hi|].
  pose proof Hi as [Hni Hact]%list_elem_of_filter. assert (identity_of Kind r = i) as ->.
  { specialize (Hpos i Hact). unfold snapshot_mutation in Hn. destruct (bool_decide (Kind = MediaEpisode)) eqn:Ek; cbn in Hn; bools.
    - rewrite Ek. cbn. lia.
    - assert (identity_of Kind r = EntityID (ct_media r)) as -> by (by destruct Kind). lia. }
  split_and!; [done..|]. apply withhold_measured; [|done]. destruct (missing_of ids active); [by apply elem_of_nil in Hi|cbn; lia].
Qed.

Lemma page_calm known pageEnd s :
  calmly s (page sha256_hex rfc3339nano w Instance Kind Languages known pageEnd) (fun s' p => forall r, removed_by p.1 r -> justified s' r).
Proof.
  unfold page. eapply calmly_bind; [apply calmly_ask, lc_changes|]. intros s1 [changes deferred] _ Hc. cbn [fst snd] in *.
  destruct (mapM _ changes) as [history|] eqn:Em; [|apply calmly_fail].
  eapply calmly_bind; [apply recheck_calm|]. intros s2 rechecked _ Hre. eapply calmly_bind; [apply snapshot_calm|]. intros s3 removed _ Hrm.
  apply calmly_ret. cbn. intros r (m & [Hm|[Hm|Hm]%elem_of_app]%elem_of_app & Hr).
  - destruct (changes_remove _ _ r Hc Em) as [? ?]; [by exists m|]. split; [done|by left].
  - destruct Hr as [Hd _]. pose proof (proj1 (Forall_forall _ _) Hre m Hm) as Hn. cbn in Hn. congruence.
  - apply Hrm. by exists m.
Qed.

Lemma discovery_calm force s : calmly s (DiscoverLibrary sha256_hex w Instance LibraryScope Languages force) (fun _ _ => True).
Proof.
  unfold DiscoverLibrary. eapply calmly_bind; [apply calmly_canceled|]. intros s1 [|] _ _; [apply calmly_fail|].
  destruct (bool_decide _); [by apply calmly_ret|]. eapply calmly_bind; [apply (calmly_query _ _ (fun _ => True)); done|]. intros s2 known _ _.
  destruct (_ && _); [by apply calmly_ret|]. eapply calmly_bind; [apply calmly_ask, brings_any|]. intros s3 listed _ _. cbv zeta.
  eapply calmly_bind; [apply calmly_clock|]. intros s4 now _ _. eapply calmly_bind.
  { apply calmly_transact. intros lb lb' Hok E. destruct (negb _).
    - unfold CommitPartialLibraryDiscovery in E. destruct (commitLibraryDiscovery _ _ _ _ _ _ _ _) as [lb1|] eqn:Ec; [|done]. injection E as <-. by eapply discovery_deletes.
    - unfold CommitLibraryDiscovery in E. destruct (bool_decide _); [done|].
      destruct (commitLibraryDiscovery _ _ _ _ _ _ _ _) as [lb1|] eqn:Ec; [|done]. injection E as <-. by eapply discovery_deletes. }
  intros s5 [] _ _. eapply calmly_bind; [apply calmly_committed|]. intros s6 _ _ _. by apply calmly_ret.
Qed.

(** ** What a reconciliation deletes *)

Definition reconciled (s s' : state) : Prop :=
  library_ok (rs_library s') /\ deleted_only (justified s') (rs_library s) (rs_library s').

Lemma justified_identity s r r' : same_identity r r' -> justified s r -> justified s r'.
Proof.
  intros (E1 & E2 & E3) [Hof Hj]. unfold justified, of_instance, identity_of in *. rewrite <- E1, <- E2, <- E3. done.
Qed.

Lemma reconciled_after {A B} s (m : step A) (k : A -> step B) P : library_ok (rs_library s) -> calmly s m P ->
  (forall s1 a, library_ok (rs_library s1) -> P s1 a -> reconciled s1 (k a s1).1) -> reconciled s (sbind m k s).1.
Proof.
  intros Hok Hm Hk. destruct (Hm Hok) as [(Hok1 & Hd & _) HP]. unfold sbind. destruct (m s) as [s1 [a|e]]; cbn in *.
  - destruct (Hk s1 a Hok1 HP) as [Hok2 Hd2]. split; [done|]. apply (deleted_only_trans _ _ (rs_library s1)); [apply justified_identity| |done].
    eapply deleted_only_mono; [|exact Hd]. done.
  - split; [done|]. eapply deleted_only_mono; [|exact Hd]. done.
Qed.

(** C6. A reconciliation deletes nothing without evidence. Over a lawful
    catalog, as those of Radarr and Sonarr are, whatever the application
    answers, whichever calls and transactions fail and whatever other
    transactions add meanwhile: a row that a run marks deleted belongs to the
    instance, and either the application said that its movie or episode is
    gone, has no file, or has one out of scope, or the row's movie or series is
    missing from a complete list of what the application holds, and that list
    is believable: it does not drop everything that is tracked, unless that is
    a single item, nor ten items or more that are more than half of it. *)
Theorem deletions_have_evidence s :
  library_ok (rs_library s) ->
  reconciled s (Run sha256_hex rfc3339nano w Instance Kind LibraryScope Languages s).1.
Proof.
  intros Hok. unfold Run. destruct (bool_decide _); [split; [done|apply deleted_only_refl]|].
  apply (reconciled_after _ _ _ _ Hok (discovery_calm _ _)). intros s1 undiscovered Hok1 _.
  apply (reconciled_after _ _ _ (fun _ _ => True) Hok1); [by apply calmly_query|]. intros s2 known Hok2 _.
  apply (reconciled_after _ _ _ _ Hok2 (calmly_clock _)). intros s3 pageEnd Hok3 _.
  apply (reconciled_after _ _ _ _ Hok3 (page_calm _ _ _)). intros s4 [ms deferred] Hok4 Hms. cbn [fst] in Hms.
  set (cursor := if deferred then _ else _). unfold sbind at 1, transact.
  destruct (others (rs_calls s4) _ Hok4) as [Hok5 Hd5].
  assert (deleted_only (justified s4) (rs_library s4) (w_between w (rs_calls s4) (rs_library s4))) as Hd4 by (eapply deleted_only_mono; [|exact Hd5]; done).
  destruct (if w_fails w (rs_calls s4) then None else _) as [lb|] eqn:E; [|by split].
  destruct (w_fails w _); [done|]. unfold ok_of in E. destruct (CommitReconciliation _ _ _ _ _) as [lb1|] eqn:Ec; [|done]. injection E as ->.
  assert (library_ok lb) as Hok6 by (eapply (page_preserves _ _ ok_preserved); [|exact Ec|done]; by apply Forall_forall).
  assert (deleted_only (justified s4) (rs_library s4) lb) as Hd6.
  { eapply deleted_only_trans; [apply justified_identity|exact Hd4|]. eapply deleted_only_mono; [exact Hms|by eapply page_deletes]. }
  destruct (_ || _); by split.
Qed.
End runs.

(** ** A movie that Radarr lost *)

Section sample.
#[local] Existing Instance latin1.
#[local] Existing Instance sample_tags.
#[local] Instance no_names : NameParser := fun _ => None.

Definition quiet_world : world := mkWorld (fun _ lb => lb) (fun _ => false) (fun n => 1000 + Z.of_nat n) (fun _ => false).
Definition nothing_mapped (n : nat) (path : text) : result PathMap.MapError text := Err PathMap.CannotResolve.
Definition empty_history (n : nat) (p : Z) : option HistoryPage := Some (mkHistoryPage p pageSize 0 []).

(** A Radarr without history that lists these movies. *)
Definition lists (movies : option (list Z)) : ReconciliationCatalog :=
  radarr_catalog (t "radarr") nothing_mapped (fun _ => false) empty_history 3 (fun _ _ => NotFound)
    (fun _ => option_map (fun ids => Some (map (fun i => (i, mkItem false None)) ids)) movies) (fun _ _ => None) (fun _ _ => None).
Definition reconcile_with (movies : option (list Z)) (lb : library) : state :=
  (Run (C := lists movies) no_hash (fun _ => []) quiet_world (t "radarr") MediaMovie [] [t "en"] (mkState 0 lb 0 [])).1.

Definition other_movie : Media :=
  mkMedia 0 8 (mkMediaRef (t "radarr") MediaMovie 32) (mkFingerprint (t "/m/Ronin.mkv") 32 100 5) (t "Ronin") [] [] 1998 0 0 0 0 0
    (mkExternalIDs [] 0 0) [] [] [] [] [] [] [] [] 0 [] zero_time [].
Definition two_movies : library :=
  perform_all no_hash [ApplyEvent 0 (mkMutation 0 (t "e9") (t "import") 8 other_movie (MRef other_movie) [t "en"] 120 0 false)] start.

(** The last tracked movie is deleted once Radarr lists only others, and not
    when the list could not be read. *)
Example lost_movie : row_states (rs_library (reconcile_with (Some [9]) start)) = [(true, Some StateComplete)].
Proof. vm_compute. reflexivity. Qed.
Example unread_list : row_states (rs_library (reconcile_with None start)) = [(false, Some StatePending)].
Proof. vm_compute. reflexivity. Qed.
(** One of two movies is deleted, both at once are not. *)
Example one_of_two : row_states (rs_library (reconcile_with (Some [8]) two_movies)) = [(false, Some StatePending); (true, Some StateComplete)].
Proof. vm_compute. reflexivity. Qed.
Example both_withheld : row_states (rs_library (reconcile_with (Some [9]) two_movies)) = [(false, Some StatePending); (false, Some StatePending)].
Proof. vm_compute. reflexivity. Qed.

Lemma deletions_have_evidence_witness :
  deleted_only (justified (t "radarr") MediaMovie (fun e => had_none (fun _ _ => NotFound) e \/ was_outside (fun _ _ => NotFound) nothing_mapped e)
      (reconcile_with (Some [9]) start)) start (rs_library (reconcile_with (Some [9]) start)).
Proof.
  apply (deletions_have_evidence (C := lists (Some [9])) no_hash (fun _ => []) quiet_world (t "radarr") MediaMovie
    (fun e => had_none (fun _ _ => NotFound) e \/ was_outside (fun _ _ => NotFound) nothing_mapped e) [] [t "en"]).
  - intros n lb Hok. split; [done|apply deleted_only_refl].
  - exact library_ok_start.
Defined.
End sample.
